(* ===== verification/_CoqProject ===== *)
-Q . S2P
Prelude.v
GoNum.v
GoStrings.v
DiskFS.v
DiskCache.v
DiskOpen.v
DiskSpec.v
DiskQueue.v
DiskInv.v
DiskGet.v
DiskRefine.v
DiskReopen.v
DiskThms.v
DiskTotal.v
DiskFaults.v
FilterAst.v
FilterEval.v
FilterThms.v
FilterLex.v
FilterLexThms.v
PointKV.v
PointCheck.v
GoSlice.v
PointNew.v
PointKVThms.v
PointCheckSpec.v
PointCheckThms.v
PointFindings.v
PointEqual.v
PointDecode.v
Wire.v
WireThms.v
PointProto.v
PointProtoThms.v
PointBatch.v
PointPB.v
PointEncode.v
PointEncodeThms.v
PointPool.v
AggrPacket.v
AggrPred.v
AggrPredThms.v
AggrFast.v
AggrConfig.v
AggrWheel.v
AggrWheelThms.v
AggrSampler.v
AggrSpill.v
AggrSpillFile.v
AggrGroup.v
AggrCalc.v
AggrWindow.v
AggrWindowThms.v
AggrCalcThms.v
AggrWindowEx.v
AggrRules.v
AggrDerived.v
AggrDerivedThms.v
GoStrconv.v
FilterParser.v
FilterYacc.v
FilterAutomaton.v
FilterStream.v
FilterShapes.v
FilterYaccThms.v
FilterDrive.v
FilterComplete.v
FilterParseThms.v
FilterSafe.v
DialTask.v
DialNet.v
DialTls.v
DialHttp.v
DialMulti.v
DialThms.v
DialGrpc.v
DialPath.v
DialScript.v
DialBrowser.v
Pprof.v
