(* ===== verification/Prelude.v ===== *)
(** * cliutils: a verification library for the GuanceCloud Go utility packages

    The repository is a collection of Go packages.  This library models the six
    that carry logic of their own and proves what makes them correct:

    - [src/diskcache], a persistent queue in a directory: [Put] appends a record to
      the write file, [rotate] turns the write file into a numbered data file, [Get]
      reads the data files in order and remembers its position in [.pos], [Open]
      resumes from what the directory holds;
    - [src/filter], filter conditions over key-value data: a lexer with state
      functions, a generated parser, and an evaluator of syntax trees;
    - [src/point], the data point: typed key-values, a checker that enforces limits
      when a point is built or decoded, equality, categories, the wire format with
      its decoders and the batching encoder;
    - [src/aggregate], tail sampling: points are grouped into packets, a sharded time
      wheel merges packets into groups and hands the expired ones to pipelines of
      conditions; metric aggregation: calculators collected in time windows;
    - [src/dialtesting], tasks that probe a service and judge the answer: TCP, ICMP,
      WebSocket, TLS, HTTP and gRPC tasks, network paths and trace routes, tasks of several
      HTTP steps, and scripts that drive a browser;
    - [src/pprofparser], profiles: flame graphs and summaries of pprof files and of collapsed
      stacks.

    [aggregate] uses [point] (fields and wire format) and [filter] (conditions).

    ** Files

    [Prelude]: notations, machine integers with their wrap-around, little-endian
    words, the state-and-error monad [SM] that the models of effectful code use, the
    tactics [bool_to_prop] and [ztest], shared lemmas.  [GoNum]: decimal
    printing and parsing ([fmt], [strconv]) with their round trips, float64 arithmetic,
    sorting and printing.  [GoStrings]: texts with the blanks of Unicode, lines and paths
    ([strings], [bufio], [filepath]).

    diskcache.  [DiskFS]: the world, a finite map of files with the locked paths, a
    clock, environment variables and a fault plan: each system call consults it, so
    that the theorems cover I/O errors at every call. Also [pos.go].
    [DiskCache]: [put.go], [get.go], [rotate.go], [switch.go], [drop.go],
    [write_file.go]; the Go struct is the record [DiskCache], each method a
    computation over the struct and the world.  [DiskOpen]: [open.go], [options.go],
    [envs.go], [flock*.go], [meta.go].  Theorems: [DiskSpec] (file names sort as
    their numbers; how files represent a queue of records; the invariant
    [Full]), [DiskQueue] (the queue specification), [DiskInv], [DiskGet],
    [DiskRefine], [DiskReopen] (each operation preserves [Full] and simulates the
    specification), [DiskThms] (refinement of any run, exactly-once delivery,
    at-least-once delivery across a restart), [DiskTotal] (termination of [Get] and
    behaviour of [Close] under all faults), [DiskFaults] (failed
    renames, full caches, streams, locks, torn writes).

    filter.  [FilterAst]: tokens, syntax trees, values of type [any].  [FilterEval]:
    [eval.go] and [WhereConditions.Eval]; a panic is [None]; the matching of regular
    expressions is a parameter.  [FilterThms]: the evaluator computes the denotation
    of conditions, and its corner cases.  [FilterLex]: [lex.go] with UTF-8 decoding.
    [FilterLexThms]: the lexer ends on every input and its items tile the input.

    filter, parser.  [GoStrconv]: reading numbers.
    [FilterParser]: the texts of trees and [parse.go].  [FilterYacc]: [gram_y.go], the
    tables of the LALR automaton, the automaton with its error recovery and the 80 semantic
    actions.  [FilterAutomaton]: the checks of the tables, by computation.
    [FilterStream]: the tokens that the parser reads.  [FilterShapes]: what the actions
    build.  [FilterYaccThms]: every text is parsed without a panic, and what is accepted
    derives from the grammar.  [FilterDrive]: conditions as a user writes them; with
    [FilterComplete], [FilterParseThms]: such conditions are accepted and give their trees.  [FilterSafe]: parser and evaluator together,
    witnesses and corner cases.

    point.  [PointKV]: [kvs.go], [val.go], [key.go].  [PointCheck]: [option.go] and
    the checker of [check.go], on the array that it compacts in place; a panic is an
    error value.  [PointNew]: [point.go], [new_point.go], [CheckPoints] with the
    shared warning slice, [equal.go].  [PointDecode]: the adjustment of decoded
    points of [decode.go], and [category.go].  Theorems: [PointKVThms] (a
    slice of fields refines a finite map), [PointCheckSpec] and [PointCheckThms]
    (what a checked point satisfies), [PointFindings] (the fast path of the conflict
    check, points that need no change, corner cases), [PointEqual] (equal points have
    the same identity; a built point is a checked point); [PointDecode]
    holds its own theorems.  [PointPool]: [ptpool.go] on a heap of fields, points and arrays;
    to a client that puts back what it holds, the pool is the allocation of new objects.

    point, wire format.  [Wire]: the reader and writer of the vendored easyproto
    package; [WireThms]: reading what was written.  [PointProto]: [easyproto.go];
    [PointProtoThms]: marshalled points are read back, and what an undecodable point
    does.  [PointBatch]: [easybatch.go], the decoder with pools, and its agreement
    with the plain one.  [PointPB]: the generated [Size] and [MarshalToSizedBuffer]:
    the size is exact and the bytes decode.  [PointEncode]: [encode.go]
    and [encode_v2.go]; [PointEncodeThms]: [Encode] loses nothing, [Next] accounts for
    every point and ends.

    aggregate, tail sampling.  [AggrPacket]: packets, their summaries, compression.
    [AggrPred]: [pipeline_predicates.go] and [evaluatePipelines]; [AggrPredThms],
    [AggrFast]: when the fast path on summaries agrees with the walk
    over the points, and when not.  [AggrConfig]: configurations,
    their validation and replacement.  [AggrWheel]: [timewheel.go] and the packet
    operations of [tail-sampling.go]; the payload spiller is the class
    [PayloadSpiller].  [AggrWheelThms]: a shard refines a map with deadlines.
    [AggrSampler]: keys of groups, timely expiry.  [AggrSpill]: the laws
    [SpillerLaws] of a spiller, and that spilling does not change decisions;
    [AggrSpillFile]: [spill.go], the instance on files, with its laws, and concrete
    samplers, packets and runs.  [AggrGroup]: grouping of points into packets.

    aggregate, metrics.  [GoSlice]:
    slices that share arrays.  [AggrCalc]: the calculators ([calculator.go],
    [algo_*.go]), one record and [Add], [Aggr], [Reset] per algorithm.  [AggrWindow]:
    [windows.go], buckets in a heap, and the goroutines as a step relation.
    [AggrWindowThms]: any interleaving is a run of a map of lists; what
    [AddBatch] accepts and counts; [AggrCalcThms]: what each calculator computes, and the
    ends of windows; [AggrWindowEx]: a concrete run and corner cases.  [AggrRules]: rules, selectors, [Setup] and [PickPoints].  [AggrDerived],
    [AggrDerivedThms]: the metrics derived from tail sampling, their collector and the
    processor that joins it with the sampler.

    dialtesting.  [DialTask]: [task.go], [success.go]; the record [Task] that every kind
    embeds, what a kind implements (the class [TaskChild]), success rules, variables,
    templates, checks, runs and results.  [DialNet]: [traceroute*.go], [tcp.go], [icmp.go].
    [DialTls]: [websocket.go], [ssl.go].  [DialHttp]: [http.go], [http_script.go].
    [DialMulti]: [multi.go], on top of the HTTP tasks; where its run stops and what it
    reports.  [DialThms]: the contract [DialLaws] of a kind, its instances, and the lemmas
    on runs and results that hold for every kind; statistics of pings and traces.
    [DialGrpc]: [grpc.go], [grpc_script.go], the instance of the contract for gRPC, the
    verdicts of the six kinds, and what the cached method descriptors may change: with
    reflection, an answer of a server that was dialled before.  [DialPath]: [netpath.go], the
    probes of a network path and their limits, and how a timeout that reads the clock escapes
    its limit.

    dialtesting, browser.  [DialScript]: the package [browserdial/script] with the runner that
    executes the steps of a script on an engine; the engine is a parameter, what it answers
    at each command; a run whose engine starts reports every step, those after the one that
    failed as skipped, and why it stopped.
    [DialBrowser]: [browser.go], the task whose script is a YAML document: checks, time
    limits, variables that are secret and their masking (of those written in place, with the
    text true), and the report of a run, related to what the runner returned.

    pprofparser.  [Pprof]: quantities and units, event types, sample types, aggregators by
    language, the search and the merging of files, summaries and flame graphs, collapsed stacks;
    the values of frames and options are the sums over the samples that they stand for.

    ** Choices

    Fuel.  The retry loop of [doGet] has one round per data file and two more;
    [get_terminates] shows that they are enough under every fault plan.  The loops of
    the lexer have the length of the input and one more; [lex_total] shows that they
    are enough.  [Del] has the length of the slice ([del_removes_exactly]), the pool
    index of the checker 64 doublings for sizes up to 2048.  The loop over the fields
    of a message has the length of the message and one more: each field takes at
    least one byte.  The parser has forty steps per byte and some more: [parser_total]
    shows by a measure that they are enough.  [trim_loop] has one round per point and two more, and the
    theorems on [Next] show its result.  A step of a browser script that polls the page has
    one round per tick until its context is done, and then as many more as [late_ticks] says.

    Operations on a cache run one at a time: the mutexes make them atomic, and the
    one place where the outcome of a lock is visible ([wlock.TryLock] in [Get]) is an
    argument; likewise the shards of the time wheel.  The windows of metrics have
    goroutines: their critical sections are the steps of a relation.  Error values keep
    their operation and cause, not their texts.  Floats are [spec_float], binary64, without
    fused operations (amd64).  Except in [PointPool] a point has no pool ([defaultPTPool == nil], the
    default); a slice of fields holds no field twice and no nil; the values of array
    type, [sort.Sort], the clock and decoder callbacks are parameters.

    Code outside the repository is a parameter: the zstd codec, xxhash, the regular
    expressions, the generated [Unmarshal], the pprof library, the formatting of floats, the
    logarithm.  What theorems need of it are named hypotheses ([zstd_spec], [http_regex_spec], [decodes]), each
    with an instance in the witnesses.  In [aggregate] the
    parser of conditions is a parameter; in [filter] the unquoting of strings, the test
    whether a pattern compiles and [strings.ToLower] are.  Where the code iterates over a Go map and the order shows, the
    order is an argument.  In [dialtesting] the
    network is an argument of a run: a record of what look-ups, connections, reads and
    clocks answer; the standard library's regular expressions, templates, durations, URLs
    and JSON are the class [Std], and a panic of the code is an error of its own.  The template
    functions [timestamp] and [date] read the clock: each rendering, at init and again at a run,
    has the readings of its own as an argument, so two renderings may differ.  What the
    reflection service of a gRPC server answers depends on the server that is dialled.
    A Go context is the time of its deadline and the time at which it is cancelled, if it is;
    where a context is done and there is a tick too, [select] may pick either one: the
    parameter [late_ticks] says how often in a row it picks the tick, which is any finite
    number, so the theorems on scripts hold for every such choice.  A YAML document
    is a tree of nodes, with the mapping values that the code leaves alone kept as they are
    and aliases in place as the parser gives them; a rule that is null is [None]; the
    configuration of a browser task that does not decode counts as empty.  The counter of the spiller is an integer with room for
    [2^63] calls; an element of a list of the wheel has an identity, as its pointer.

    ** Not modelled

    Metrics, log lines and lock instrumentation; the Windows lock; JSON and the
    texts of error messages; the conversion from and to the line protocol;
    the packages that do I/O through third-party libraries
    (logger, traceroute, tracer, metrics, otlp); of dialtesting the browser
    engines (chrome, lightpanda: processes and their pools), the packets on the wire and the
    QUIC dialer.

    ** Plan

    Next: the printing of filter trees beyond the texts that the parser compares; the generated
    marshalling of the batch messages; the operations on key-values and the checker with a point
    pool; the pools of browser processes. *)

From Stdlib Require Export ZArith Lia Bool.
From coqutil Require Export Byte Word.LittleEndianList.
From stdpp Require Export base list gmap strings sorting numbers.

#[global] Open Scope Z_scope.

Declare Scope go_scope.
Delimit Scope go_scope with go.
#[global] Open Scope go_scope.

(** ** Bytes, byte strings and lengths

    Go's [string] and [[]byte] are byte sequences; [bytes] models both where the
    content matters, [string] is used where the code compares against literals. *)

Abbreviation bytes := (list byte).

#[export] Instance byte_eq_dec : EqDecision byte := Byte.byte_eq_dec.

#[export] Instance byte_countable : Countable byte :=
  inj_countable' Ascii.ascii_of_byte Ascii.byte_of_ascii Ascii.byte_of_ascii_of_byte.

Definition zlen {A} (l : list A) : Z := Z.of_nat (length l).

(** Prefixes and suffixes by an integer length, executable for any length. *)
Definition ztake {A} (n : Z) (l : list A) : list A := take (Z.to_nat (Z.min n (zlen l))) l.

Definition zdrop {A} (n : Z) (l : list A) : list A := drop (Z.to_nat (Z.min n (zlen l))) l.

Definition to_bytes (s : string) : bytes := String.list_byte_of_string s.

Definition of_bytes (b : bytes) : string := String.string_of_list_byte b.

(** ** Machine integers: wrap-around written out *)

Definition wrapU (w z : Z) : Z := z mod 2 ^ w.

Definition wrapS (w z : Z) : Z := (z + 2 ^ (w - 1)) mod 2 ^ w - 2 ^ (w - 1).

Definition int32 (z : Z) : Z := wrapS 32 z.

Definition int64 (z : Z) : Z := wrapS 64 z.

Definition uint32 (z : Z) : Z := wrapU 32 z.

Definition uint64 (z : Z) : Z := wrapU 64 z.

Definition in_int64 (z : Z) : Prop := - 2 ^ 63 <= z < 2 ^ 63.

(** ** Little-endian words ([encoding/binary]) *)

Definition put_u32 (n : Z) : bytes := le_split 4 n.

Definition get_u32 (b : bytes) : Z := le_combine b.

Definition put_u64 (n : Z) : bytes := le_split 8 n.

Definition get_u64 (b : bytes) : Z := le_combine b.

#[global] Arguments put_u32 : simpl never.
#[global] Arguments get_u32 : simpl never.
#[global] Arguments put_u64 : simpl never.
#[global] Arguments get_u64 : simpl never.

(** ** Results, and computations that thread a state and may fail *)

Inductive Res (E A : Type) : Type :=
| Ok (a : A)
| Err (e : E).

Arguments Ok {E A} a.
Arguments Err {E A} e.

Definition SM (St E A : Type) : Type := St -> Res E A * St.

Definition sret {St E A} (a : A) : SM St E A := fun s => (Ok a, s).

Definition sfail {St E A} (e : E) : SM St E A := fun s => (Err e, s).

Definition sbind {St E A B} (m : SM St E A) (k : A -> SM St E B) : SM St E B :=
  fun s => match m s with
           | (Ok a, s') => k a s'
           | (Err e, s') => (Err e, s')
           end.

(** Run [m]; hand its result, error included, to [k]: the shape of
    [if x, err := m(); err != nil { ... } else { ... }]. *)
Definition stry {St E A B} (m : SM St E A) (k : Res E A -> SM St E B) : SM St E B :=
  fun s => let '(r, s') := m s in k r s'.

(** [if err := m(); err != nil { return f(err) }]. *)
Definition swrap {St E A} (f : E -> E) (m : SM St E A) : SM St E A :=
  fun s => match m s with
           | (Ok a, s') => (Ok a, s')
           | (Err e, s') => (Err (f e), s')
           end.

Definition sget {St E} : SM St E St := fun s => (Ok s, s).

Definition smod {St E} (f : St -> St) : SM St E unit := fun s => (Ok tt, f s).

Definition swhen {St E} (b : bool) (m : SM St E unit) : SM St E unit :=
  if b then m else sret tt.

Notation "x <~ m ;; k" := (sbind m (fun x => k))
  (at level 100, m at next level, right associativity) : go_scope.
Notation "m ;;; k" := (sbind m (fun _ => k))
  (at level 100, right associativity) : go_scope.

(** ** Sorting ([sort.Strings]) *)

Definition sort_strings (l : list string) : list string := merge_sort String.le l.

(** ** Automation *)

Create HintDb go discriminated.
Create Rewrite HintDb go.

(** Turn the boolean tests of the code into propositions. *)
Ltac bool_to_prop :=
  repeat match goal with
    | H : (_ && _)%bool = true |- _ => apply andb_prop in H; destruct H
    | H : (_ && _)%bool = false |- _ => apply andb_false_iff in H
    | H : (_ || _)%bool = false |- _ => apply orb_false_elim in H; destruct H
    | H : (_ || _)%bool = true |- _ => apply orb_true_iff in H
    | H : negb _ = true |- _ => apply negb_true_iff in H
    | H : negb _ = false |- _ => apply negb_false_iff in H
    | H : (_ <? _)%Z = true |- _ => apply Z.ltb_lt in H
    | H : (_ <? _)%Z = false |- _ => apply Z.ltb_ge in H
    | H : (_ <=? _)%Z = true |- _ => apply Z.leb_le in H
    | H : (_ <=? _)%Z = false |- _ => apply Z.leb_gt in H
    | H : (_ =? _)%Z = true |- _ => apply Z.eqb_eq in H
    | H : (_ =? _)%Z = false |- _ => apply Z.eqb_neq in H
    | H : (_ =? _)%string = true |- _ => apply String.eqb_eq in H
    | H : (_ =? _)%string = false |- _ => apply String.eqb_neq in H
    | H : bool_decide _ = true |- _ => apply bool_decide_eq_true in H
    | H : bool_decide _ = false |- _ => apply bool_decide_eq_false in H
    end.

(** Decide a boolean integer test of the goal from the context. *)
Ltac ztest :=
  repeat match goal with
    | |- context [(?a <? ?b)%Z] =>
        first [ rewrite (proj2 (Z.ltb_lt a b)) by lia
              | rewrite (proj2 (Z.ltb_ge a b)) by lia ]
    | |- context [(?a <=? ?b)%Z] =>
        first [ rewrite (proj2 (Z.leb_le a b)) by lia
              | rewrite (proj2 (Z.leb_gt a b)) by lia ]
    | |- context [(?a =? ?b)%Z] =>
        first [ rewrite (proj2 (Z.eqb_eq a b)) by lia
              | rewrite (proj2 (Z.eqb_neq a b)) by lia ]
    end.

(** ** Lemmas: lengths *)

Lemma zlen_nil {A} : zlen (@nil A) = 0.
Proof. done. Qed.

Lemma zlen_cons {A} (x : A) l : zlen (x :: l) = 1 + zlen l.
Proof. unfold zlen. cbn [length]. lia. Qed.

Lemma zlen_app {A} (l k : list A) : zlen (l ++ k) = zlen l + zlen k.
Proof. unfold zlen. rewrite length_app. lia. Qed.

Lemma zlen_nonneg {A} (l : list A) : 0 <= zlen l.
Proof. unfold zlen. lia. Qed.

Lemma zlen_pos {A} (l : list A) : l <> [] -> 0 < zlen l.
Proof. destruct l; [done | rewrite zlen_cons; pose proof (zlen_nonneg l); lia]. Qed.

Lemma zlen_to_nat {A} (l : list A) : Z.to_nat (zlen l) = length l.
Proof. unfold zlen. lia. Qed.

#[export] Hint Rewrite @zlen_nil @zlen_cons @zlen_app : go.
#[export] Hint Resolve zlen_nonneg : go.

(** ** Lemmas: machine integers *)

Lemma wrapS_small w z : 0 < w -> - 2 ^ (w - 1) <= z < 2 ^ (w - 1) -> wrapS w z = z.
Proof.
  intros Hw Hz. unfold wrapS.
  assert (2 ^ w = 2 * 2 ^ (w - 1)) as E.
  { rewrite <- Z.pow_succ_r by lia. f_equal. lia. }
  rewrite Z.mod_small by lia. lia.
Qed.

Lemma int64_small z : in_int64 z -> int64 z = z.
Proof. intros H. apply wrapS_small; [lia | exact H]. Qed.

Lemma wrapS_wrapU w z : 0 < w -> wrapS w (wrapU w z) = wrapS w z.
Proof.
  intros Hw. unfold wrapS, wrapU. f_equal.
  rewrite <- Zplus_mod_idemp_l, Zmod_mod, Zplus_mod_idemp_l. done.
Qed.

Lemma wrapU_range w z : 0 <= w -> 0 <= wrapU w z < 2 ^ w.
Proof. intros Hw. apply Z.mod_pos_bound. lia. Qed.

(** ** Lemmas: little-endian words *)

Lemma length_put_u32 n : length (put_u32 n) = 4%nat.
Proof. apply length_le_split. Qed.

Lemma length_put_u64 n : length (put_u64 n) = 8%nat.
Proof. apply length_le_split. Qed.

Lemma zlen_put_u32 n : zlen (put_u32 n) = 4.
Proof. unfold zlen. by rewrite length_put_u32. Qed.

Lemma zlen_put_u64 n : zlen (put_u64 n) = 8.
Proof. unfold zlen. by rewrite length_put_u64. Qed.

Lemma get_put_u32 n : 0 <= n < 2 ^ 32 -> get_u32 (put_u32 n) = n.
Proof. intros H. unfold get_u32, put_u32. rewrite le_combine_split. by apply Z.mod_small. Qed.

Lemma get_put_u64 n : get_u64 (put_u64 n) = n mod 2 ^ 64.
Proof. unfold get_u64, put_u64. by rewrite le_combine_split. Qed.

Lemma get_u32_range b : length b = 4%nat -> 0 <= get_u32 b < 2 ^ 32.
Proof. intros H. pose proof (le_combine_bound b) as B. rewrite H in B. exact B. Qed.

#[export] Hint Rewrite @zlen_put_u32 @zlen_put_u64 : go.

(** ** Lemmas: strings as bytes *)

Lemma of_to_bytes s : of_bytes (to_bytes s) = s.
Proof. apply String.string_of_list_byte_of_string. Qed.

Lemma to_of_bytes b : to_bytes (of_bytes b) = b.
Proof. apply String.list_byte_of_string_of_list_byte. Qed.

Lemma sapp_nil s : ("" +:+ s) = s.
Proof. done. Qed.

Lemma sapp_cons c a s : (String c a +:+ s) = String c (a +:+ s).
Proof. done. Qed.

Lemma sapp_assoc a b c : (a +:+ (b +:+ c)) = ((a +:+ b) +:+ c).
Proof. induction a as [|x a IH]; [done|]. rewrite !sapp_cons. by rewrite IH. Qed.

(** ** Lemmas: sorting *)

Lemma sort_strings_perm l : sort_strings l ≡ₚ l.
Proof. apply merge_sort_Permutation. Qed.

Lemma sort_strings_sorted l : StronglySorted String.le (sort_strings l).
Proof. apply StronglySorted_merge_sort; apply _. Qed.

(** Sorting a sorted list changes nothing. *)
Lemma sort_strings_id l : StronglySorted String.le l -> sort_strings l = l.
Proof.
  intros H. apply (StronglySorted_unique String.le);
    [apply sort_strings_sorted | done | apply sort_strings_perm].
Qed.

(** ** Lemmas: prefixes and suffixes of byte strings *)

Lemma take_exact {A} (n : nat) (l k : list A) : n = length l -> take n (l ++ k) = l.
Proof. intros ->. apply take_app_length. Qed.

Lemma drop_exact {A} (n : nat) (l k : list A) : n = length l -> drop n (l ++ k) = k.
Proof. intros ->. apply drop_app_length. Qed.

Lemma ztake_take {A} n (l : list A) : ztake n l = take (Z.to_nat n) l.
Proof.
  unfold ztake. destruct (Z.le_gt_cases n (zlen l)); [by rewrite Z.min_l by lia|].
  rewrite Z.min_r, zlen_to_nat by lia. rewrite !take_ge; [done| |done].
  unfold zlen in *. lia.
Qed.

Lemma zdrop_drop {A} n (l : list A) : zdrop n l = drop (Z.to_nat n) l.
Proof.
  unfold zdrop. destruct (Z.le_gt_cases n (zlen l)); [by rewrite Z.min_l by lia|].
  rewrite Z.min_r, zlen_to_nat by lia. rewrite !drop_ge; [done| |done].
  unfold zlen in *. lia.
Qed.

(** ** Lemmas: running computations *)

Lemma sbind_ok {St E A B} (m : SM St E A) (k : A -> SM St E B) s a s' :
  m s = (Ok a, s') -> sbind m k s = k a s'.
Proof. intros H. unfold sbind. by rewrite H. Qed.

Lemma sbind_err {St E A B} (m : SM St E A) (k : A -> SM St E B) s e s' :
  m s = (Err e, s') -> sbind m k s = (Err e, s').
Proof. intros H. unfold sbind. by rewrite H. Qed.

Lemma stry_run {St E A B} (m : SM St E A) (k : Res E A -> SM St E B) s r s' :
  m s = (r, s') -> stry m k s = k r s'.
Proof. intros H. unfold stry. by rewrite H. Qed.

Lemma swrap_ok {St E A} (f : E -> E) (m : SM St E A) s a s' :
  m s = (Ok a, s') -> swrap f m s = (Ok a, s').
Proof. intros H. unfold swrap. by rewrite H. Qed.

Lemma swrap_err {St E A} (f : E -> E) (m : SM St E A) s e s' :
  m s = (Err e, s') -> swrap f m s = (Err (f e), s').
Proof. intros H. unfold swrap. by rewrite H. Qed.

Lemma swhen_skip {St E} b (m : SM St E unit) s : m s = (Ok tt, s) -> swhen b m s = (Ok tt, s).
Proof. by destruct b. Qed.
