(* ===== verification/GoNum.v ===== *)
(** * Decimal text: [fmt.Sprintf("%032d", n)] and [strconv.ParseInt(s, 10, 64)]

    The rotated files of the disk cache are named [data.%032d]; the next number is
    parsed back from the last name, and files are read in the order of
    [sort.Strings].  This file models the two conversions and shows that they
    invert each other and that zero padding makes string order numeric order. *)

From S2P Require Import Prelude.
From Stdlib Require Import Ascii.
From Stdlib Require Export SpecFloat.

(** ** Digits *)

Definition digit_char (d : Z) : ascii := ascii_of_N (Z.to_N (48 + d)).

Definition char_digit (c : ascii) : option Z :=
  let n := Z.of_N (N_of_ascii c) in
  if (48 <=? n) && (n <=? 57) then Some (n - 48) else None.

(** [width] decimal digits of [n], most significant first; [acc] is what follows. *)
Fixpoint digits_acc (width : nat) (n : Z) (acc : string) : string :=
  match width with
  | O => acc
  | S w => digits_acc w (n / 10) (String (digit_char (n mod 10)) acc)
  end.

(** [fmt.Sprintf("%032d", n)] for an int64 [n] (at most 19 digits, so 32 columns
    always suffice; the sign takes one of them). *)
Definition fmt_032d (n : Z) : string :=
  if n <? 0 then String "-" (digits_acc 31 (- n) "") else digits_acc 32 n "".

(** The digits of [s] folded into [acc]; [None] on another character. *)
Fixpoint parse_digits (s : string) (acc : Z) : option Z :=
  match s with
  | EmptyString => Some acc
  | String c s' =>
      match char_digit c with
      | Some d => parse_digits s' (10 * acc + d)
      | None => None
      end
  end.

(** [strconv.ParseInt(s, 10, bits)]: an optional sign, at least one digit, and the
    value in range; [None] stands for the error. *)
Definition ParseInt10 (bits : Z) (s : string) : option Z :=
  let '(neg, ds) :=
    match s with
    | String "+" r => (false, r)
    | String "-" r => (true, r)
    | _ => (false, s)
    end in
  match ds with
  | EmptyString => None
  | _ =>
      match parse_digits ds 0 with
      | Some v =>
          let v' := if neg then - v else v in
          if (- 2 ^ (bits - 1) <=? v') && (v' <? 2 ^ (bits - 1)) then Some v' else None
      | None => None
      end
  end.

(** ** Lemmas *)

Lemma char_digit_char d : 0 <= d <= 9 -> char_digit (digit_char d) = Some d.
Proof.
  intros H. assert (d = 0 \/ d = 1 \/ d = 2 \/ d = 3 \/ d = 4 \/ d = 5 \/ d = 6 \/ d = 7 \/ d = 8 \/ d = 9)
    as C by lia.
  destruct_or! C; subst; reflexivity.
Qed.

(** Parsing the digits of [n] in [w] columns yields [n], whatever follows. *)
Lemma parse_digits_acc w : forall n acc s,
  0 <= n < 10 ^ Z.of_nat w ->
  parse_digits (digits_acc w n s) acc = parse_digits s (acc * 10 ^ Z.of_nat w + n).
Proof.
  induction w as [|w IH]; intros n acc s Hn.
  - cbn [digits_acc]. simpl in Hn. f_equal. simpl. lia.
  - cbn [digits_acc].
    rewrite Nat2Z.inj_succ, Z.pow_succ_r in Hn by lia.
    rewrite IH by (split; [apply Z.div_pos; lia | apply Z.div_lt_upper_bound; lia]).
    cbn [parse_digits]. rewrite char_digit_char by (pose proof (Z.mod_pos_bound n 10); lia).
    f_equal. rewrite Nat2Z.inj_succ, Z.pow_succ_r by lia.
    pose proof (Z.div_mod n 10). lia.
Qed.

(** The order of the padded texts is the order of the numbers. *)
Lemma compare_digit_char a b :
  0 <= a <= 9 -> 0 <= b <= 9 -> Ascii.compare (digit_char a) (digit_char b) = (a ?= b).
Proof.
  intros Ha Hb.
  assert (a = 0 \/ a = 1 \/ a = 2 \/ a = 3 \/ a = 4 \/ a = 5 \/ a = 6 \/ a = 7 \/ a = 8 \/ a = 9)
    as C by lia.
  assert (b = 0 \/ b = 1 \/ b = 2 \/ b = 3 \/ b = 4 \/ b = 5 \/ b = 6 \/ b = 7 \/ b = 8 \/ b = 9)
    as D by lia.
  destruct_or! C; destruct_or! D; subst; reflexivity.
Qed.

Lemma compare_div_mod_10 n m :
  (n ?= m) = match n / 10 ?= m / 10 with Eq => (n mod 10 ?= m mod 10) | c => c end.
Proof.
  pose proof (Z.div_mod n 10). pose proof (Z.div_mod m 10).
  pose proof (Z.mod_pos_bound n 10). pose proof (Z.mod_pos_bound m 10).
  destruct (Z.compare_spec (n / 10) (m / 10));
    [destruct (Z.compare_spec (n mod 10) (m mod 10)) | | ];
    first [apply Z.compare_eq_iff; lia | apply Z.compare_lt_iff; lia | apply Z.compare_gt_iff; lia].
Qed.

Lemma compare_digits_acc w : forall n m s t,
  0 <= n < 10 ^ Z.of_nat w -> 0 <= m < 10 ^ Z.of_nat w ->
  String.compare (digits_acc w n s) (digits_acc w m t) =
  match n ?= m with Eq => String.compare s t | c => c end.
Proof.
  induction w as [|w IH]; intros n m s t Hn Hm.
  - simpl in Hn, Hm. replace m with n by lia. by rewrite Z.compare_refl.
  - cbn [digits_acc]. rewrite Nat2Z.inj_succ, Z.pow_succ_r in Hn, Hm by lia.
    rewrite IH by (split; [apply Z.div_pos; lia | apply Z.div_lt_upper_bound; lia]).
    rewrite (compare_div_mod_10 n m).
    destruct (n / 10 ?= m / 10); [|done|done].
    cbn [String.compare]. rewrite compare_digit_char
      by (try pose proof (Z.mod_pos_bound n 10); try pose proof (Z.mod_pos_bound m 10); lia).
    by destruct (n mod 10 ?= m mod 10).
Qed.

(** What a file number may be: an int64 that is not negative. *)
Definition seq_ok (n : Z) : Prop := 0 <= n < 2 ^ 63.

Lemma seq_ok_digits n : seq_ok n -> 0 <= n < 10 ^ Z.of_nat 32.
Proof.
  unfold seq_ok. intros [H1 H2]. split; [done|]. eapply Z.lt_trans; [exact H2|]. reflexivity.
Qed.

Lemma fmt_032d_nonneg n : seq_ok n -> fmt_032d n = digits_acc 32 n "".
Proof. intros [H _]. unfold fmt_032d. by ztest. Qed.

Lemma compare_fmt_032d n m : seq_ok n -> seq_ok m ->
  String.compare (fmt_032d n) (fmt_032d m) = (n ?= m).
Proof.
  intros Hn Hm. rewrite !fmt_032d_nonneg, compare_digits_acc by auto using seq_ok_digits.
  by destruct (n ?= m).
Qed.

Lemma digits_acc_first w : forall n s, 0 <= n ->
  exists d r, 0 <= d <= 9 /\ digits_acc (S w) n s = String (digit_char d) r.
Proof.
  induction w as [|w IH]; intros n s Hn.
  - cbn [digits_acc]. exists (n mod 10), s.
    pose proof (Z.mod_pos_bound n 10). split; [lia | done].
  - cbn [digits_acc]. apply (IH (n / 10)). apply Z.div_pos; lia.
Qed.

(** [ParseInt] reads back what [Sprintf("%032d")] printed. *)
Lemma ParseInt10_fmt_032d n : seq_ok n -> ParseInt10 64 (fmt_032d n) = Some n.
Proof.
  intros Hn. rewrite fmt_032d_nonneg by done.
  pose proof (parse_digits_acc 32 n 0 "" (seq_ok_digits n Hn)) as P.
  rewrite Z.mul_0_l, Z.add_0_l in P. cbn [parse_digits] in P.
  destruct (digits_acc_first 31 n "" (proj1 Hn)) as (d & r & Hd & E).
  unfold ParseInt10. rewrite E in *. clear E.
  assert (d = 0 \/ d = 1 \/ d = 2 \/ d = 3 \/ d = 4 \/ d = 5 \/ d = 6 \/ d = 7 \/ d = 8 \/ d = 9)
    as C by lia.
  destruct Hn as [Hn0 Hn1].
  destruct_or! C; subst;
    match type of P with context [digit_char ?d] =>
      let c := eval vm_compute in (digit_char d) in change (digit_char d) with c in * end;
    cbn -[parse_digits Z.pow Z.leb Z.ltb Z.opp]; rewrite P; cbv zeta; change (2 ^ (64 - 1)) with (2 ^ 63); by ztest.
Qed.

(** * Numbers as text: [strconv.FormatUint], [FormatInt], [%x] and [%d]

    Digits in a base up to 16, without padding, and the value that they denote. *)

(** ** Formatting *)

Definition base_digit (d : Z) : ascii := ascii_of_N (Z.to_N (if d <? 10 then 48 + d else 87 + d)).

Fixpoint digits_of (fuel : nat) (b n : Z) (acc : string) : string :=
  match fuel with
  | O => acc
  | S fuel =>
      let acc := String (base_digit (n mod b)) acc in
      if n <? b then acc else digits_of fuel b (n / b) acc
  end.

Definition FormatUint (b n : Z) : string := digits_of (S (Z.to_nat (Z.log2 n))) b n "".

(** [strconv.FormatInt(n, 10)]. *)
Definition FormatInt (n : Z) : string := if n <? 0 then String "-" (FormatUint 10 (- n)) else FormatUint 10 n.

(** ** Values *)

Definition digit_value (c : ascii) : Z :=
  let n := Z.of_N (N_of_ascii c) in if n <? 58 then n - 48 else n - 87.

Fixpoint value (b : Z) (s : string) (acc : Z) : Z :=
  match s with EmptyString => acc | String c s => value b s (acc * b + digit_value c) end.

Ltac hex_cases d :=
  assert (d = 0 \/ d = 1 \/ d = 2 \/ d = 3 \/ d = 4 \/ d = 5 \/ d = 6 \/ d = 7 \/ d = 8 \/ d = 9 \/
          d = 10 \/ d = 11 \/ d = 12 \/ d = 13 \/ d = 14 \/ d = 15) as D by lia;
  repeat destruct D as [->|D]; [..|subst d].

Lemma digit_value_base d : 0 <= d < 16 -> digit_value (base_digit d) = d.
Proof. intros H. by hex_cases d. Qed.

Lemma value_digits f b : 2 <= b <= 16 -> forall n acc, 0 <= n < b ^ Z.of_nat f ->
  (0 < f)%nat -> value b (digits_of f b n acc) 0 = value b acc n.
Proof.
  intros Hb. induction f as [|f IH]; intros n acc Hn Hf; [lia|]. cbn [digits_of].
  pose proof (Z.mod_pos_bound n b ltac:(lia)). destruct (Z.ltb_spec n b).
  - cbn [value]. rewrite digit_value_base, Z.mod_small by lia. f_equal; lia.
  - assert (n / b < b ^ Z.of_nat f).
    { apply Z.div_lt_upper_bound; [lia|]. rewrite Nat2Z.inj_succ, Z.pow_succ_r in Hn by lia. lia. }
    assert (0 < n / b) by (apply Z.div_str_pos; lia).
    rewrite IH; [|lia|]. 2:{ destruct f; [cbn in *; lia|lia]. }
    cbn [value]. rewrite digit_value_base by lia. f_equal. pose proof (Z.div_mod n b ltac:(lia)). lia.
Qed.

Lemma value_Format b n : 2 <= b <= 16 -> 0 <= n -> value b (FormatUint b n) 0 = n.
Proof.
  intros Hb Hn. unfold FormatUint. rewrite value_digits; [done|done| |lia]. split; [done|].
  destruct (Z.eq_dec n 0) as [->|N0]; [apply Z.pow_pos_nonneg; lia|].
  eapply Z.lt_le_trans; [apply Z.log2_spec; lia|]. rewrite Nat2Z.inj_succ, Z2Nat.id by apply Z.log2_nonneg.
  etrans; [apply (Z.pow_le_mono_l 2 b); lia|done].
Qed.

(** * Floating-point numbers of Go: [float64] arithmetic, conversions, sorting

    [float64] is [spec_float] with 53 bits of precision; the operations round to nearest
    even.  [sort.Float64s] orders by [less]; floats that neither precedes (the two zeros)
    keep their order here. *)

Definition fadd (a b : spec_float) : spec_float := SFadd 53 1024 a b.
Definition fsub (a b : spec_float) : spec_float := SFsub 53 1024 a b.
Definition fmul (a b : spec_float) : spec_float := SFmul 53 1024 a b.
Definition fdiv (a b : spec_float) : spec_float := SFdiv 53 1024 a b.
Definition fsqrt (a : spec_float) : spec_float := SFsqrt 53 1024 a.

(** [float64(n)]. *)
Definition float_of_int (n : Z) : spec_float := binary_normalize 53 1024 n 0 false.

Definition fzero : spec_float := S754_zero false.

Definition isNaN (f : spec_float) : bool := match f with S754_nan => true | _ => false end.

(** The order of [sort.Float64s]. *)
Definition less (a b : spec_float) : bool := SFltb a b || (isNaN a && negb (isNaN b)).

Fixpoint sort_insert (v : spec_float) (l : list spec_float) : list spec_float :=
  match l with
  | [] => [v]
  | w :: l' => if less v w then v :: l else w :: sort_insert v l'
  end.

Definition Float64s (l : list spec_float) : list spec_float :=
  fold_left (fun acc v => sort_insert v acc) l [].

(** The verb [%.0f]: the nearest integer, ties to even. *)
Definition round_int (m : positive) (e : Z) : Z :=
  if 0 <=? e then Z.shiftl (Z.pos m) e
  else
    let q := Z.shiftr (Z.pos m) (- e) in
    let r := Z.pos m - Z.shiftl q (- e) in
    let half := Z.shiftl 1 (- e - 1) in
    if (half <? r) || ((r =? half) && Z.odd q) then q + 1 else q.

Definition fmt_f0 (f : spec_float) : string :=
  match f with
  | S754_zero s => if s then "-0" else "0"
  | S754_infinity s => if s then "-Inf" else "+Inf"
  | S754_nan => "NaN"
  | S754_finite s m e =>
      let d := FormatUint 10 (round_int m e) in
      if s then String.append "-" d else d
  end.

Lemma sort_insert_perm v l : sort_insert v l ≡ₚ v :: l.
Proof.
  induction l as [|w l IH]; [done|]. cbn. destruct (less v w); [done|]. rewrite IH. apply perm_swap.
Qed.

Lemma Float64s_perm l : Float64s l ≡ₚ l.
Proof.
  unfold Float64s. change l with ([] ++ l) at 2. generalize (@nil spec_float) as acc.
  induction l as [|v l IH]; intros acc; cbn; [by rewrite app_nil_r|].
  rewrite IH, sort_insert_perm. apply Permutation_middle.
Qed.

(** *** Comparisons: what is not below is above or equal, unless one is NaN *)

Lemma SFcompare_swap a b : SFcompare b a = CompOpp <$> SFcompare a b.
Proof.
  destruct a as [[]|[]| |[] m e], b as [[]|[]| |[] m' e']; try done; cbn;
    rewrite (Z.compare_antisym e' e); destruct (e' ?= e)%Z; cbn; try done;
    change (PosDef.Pos.compare_cont Eq) with Pos.compare; by rewrite (Pos.compare_antisym m' m), ?CompOpp_involutive.
Qed.

Lemma SFltb_false a b : SFltb a b = false -> isNaN a = true \/ isNaN b = true \/ SFleb b a = true.
Proof.
  unfold SFltb, SFleb. rewrite (SFcompare_swap a b). intros H.
  destruct (isNaN a) eqn:Na; [by left|]. destruct (isNaN b) eqn:Nb; [by right; left|].
  destruct (SFcompare a b) as [[]|] eqn:E; try done; [by right; right..|].
  destruct a, b; try done; cbn in E; repeat case_match; done.
Qed.

Lemma SFleb_false a b : SFleb a b = false -> isNaN a = true \/ isNaN b = true \/ SFltb b a = true.
Proof.
  unfold SFltb, SFleb. rewrite (SFcompare_swap a b). intros H.
  destruct (isNaN a) eqn:Na; [by left|]. destruct (isNaN b) eqn:Nb; [by right; left|].
  destruct (SFcompare a b) as [[]|] eqn:E; try done; [by right; right..|].
  destruct a, b; try done; cbn in E; repeat case_match; done.
Qed.
