(* ===== verification/GoStrings.v ===== *)
(** * Texts: what the packages use of [strings], [bufio] and [path/filepath]

    Texts are strings of bytes.  [TrimSpace] knows the blanks of Unicode in UTF-8; letters are
    those of ASCII. *)

From S2P Require Import Prelude.

(** ** Letters and blanks *)

Definition lower_ascii (a : Ascii.ascii) : Ascii.ascii :=
  let n := Ascii.N_of_ascii a in if ((65 <=? n) && (n <=? 90))%N then Ascii.ascii_of_N (n + 32) else a.

Fixpoint smap (f : Ascii.ascii -> Ascii.ascii) (s : string) : string :=
  match s with EmptyString => EmptyString | String a s' => String (f a) (smap f s') end.

Definition ToLower : string -> string := smap lower_ascii.

Definition is_space_ascii (a : Ascii.ascii) : bool :=
  let n := Ascii.N_of_ascii a in ((9 <=? n) && (n <=? 13) || (n =? 32))%N.

(** The other blanks of [unicode.IsSpace] in UTF-8: U+0085 and U+00A0 in two bytes; U+1680,
    U+2000 to U+200A, U+2028, U+2029, U+202F, U+205F and U+3000 in three. *)
Definition blank2 (a b : Ascii.ascii) : bool :=
  let a := Ascii.N_of_ascii a in let b := Ascii.N_of_ascii b in ((a =? 194) && ((b =? 133) || (b =? 160)))%N.

Definition blank3 (a b c : Ascii.ascii) : bool :=
  let a := Ascii.N_of_ascii a in let b := Ascii.N_of_ascii b in let c := Ascii.N_of_ascii c in
  ((a =? 225) && (b =? 154) && (c =? 128) ||
   (a =? 226) && (b =? 128) && ((128 <=? c) && (c <=? 138) || (c =? 168) || (c =? 169) || (c =? 175)) ||
   (a =? 226) && (b =? 129) && (c =? 159) || (a =? 227) && (b =? 128) && (c =? 128))%N.

(** A text without the blanks at its start, given the tests for those of two and three bytes. *)
Fixpoint trim_with (b2 : Ascii.ascii -> Ascii.ascii -> bool) (b3 : Ascii.ascii -> Ascii.ascii -> Ascii.ascii -> bool) (s : string) : string :=
  match s with
  | EmptyString => EmptyString
  | String a s1 =>
      if is_space_ascii a then trim_with b2 b3 s1
      else match s1 with
           | EmptyString => s
           | String b s2 =>
               if b2 a b then trim_with b2 b3 s2
               else match s2 with
                    | EmptyString => s
                    | String c s3 => if b3 a b c then trim_with b2 b3 s3 else s
                    end
           end
  end.

Definition trim_left : string -> string := trim_with blank2 blank3.

Fixpoint srev (s acc : string) : string :=
  match s with EmptyString => acc | String a s' => srev s' (String a acc) end.

(** The end is trimmed on the reversed bytes. *)
Definition trim_right (s : string) : string :=
  srev (trim_with (fun b a => blank2 a b) (fun c b a => blank3 a b c) (srev s "")) "".

Definition TrimSpace (s : string) : string := trim_right (trim_left s).

Example TrimSpace_unicode :
  let nbsp := String (Ascii.ascii_of_N 194) (String (Ascii.ascii_of_N 160) "") in
  let wide := String (Ascii.ascii_of_N 227) (String (Ascii.ascii_of_N 128) (String (Ascii.ascii_of_N 128) "")) in
  TrimSpace (nbsp ++ " " ++ wide ++ "a b" ++ wide ++ nbsp ++ " ") = "a b"%string.
Proof. reflexivity. Qed.

Definition EqualFold (s t : string) : bool := (ToLower s =? ToLower t)%string.

(** ** Searching and cutting *)

Fixpoint has_substring (s sub : string) : bool :=
  String.prefix sub s || match s with String _ s' => has_substring s' sub | EmptyString => false end.

(** The first place where a text occurs. *)
Fixpoint Index (s sub : string) : option nat :=
  if String.prefix sub s then Some 0%nat
  else match s with EmptyString => None | String _ s' => S <$> Index s' sub end.

Fixpoint last_index (c : Ascii.ascii) (s : string) (i : nat) (acc : option nat) : option nat :=
  match s with
  | EmptyString => acc
  | String a s' => last_index c s' (S i) (if Ascii.eqb a c then Some i else acc)
  end.

Definition LastIndex (s : string) (c : Ascii.ascii) : option nat := last_index c s 0 None.

(** [s[i:]] and [s[:i]]. *)
Definition from (i : nat) (s : string) : string := String.substring i (String.length s - i) s.
Definition upto (i : nat) (s : string) : string := String.substring 0 i s.

Definition TrimPrefix (s p : string) : string := if String.prefix p s then from (String.length p) s else s.

Definition HasSuffix (s p : string) : bool := String.prefix (srev p "") (srev s "").

Definition TrimSuffix (s p : string) : string :=
  if HasSuffix s p then upto (String.length s - String.length p) s else s.

Fixpoint split_char (c : Ascii.ascii) (s : string) : list string :=
  match s with
  | EmptyString => [""]
  | String a s' =>
      if Ascii.eqb a c then "" :: split_char c s'
      else match split_char c s' with w :: r => String a w :: r | [] => [String a ""] end
  end.

(** One character replaced by another. *)
Definition replace_char (a b : Ascii.ascii) : string -> string := smap (fun c => if Ascii.eqb c a then b else c).

(** The last place where a text occurs. *)
Fixpoint LastIndexText (s sub : string) : option nat :=
  match (match s with EmptyString => None | String _ s' => LastIndexText s' sub end) with
  | Some i => Some (S i)
  | None => if String.prefix sub s then Some 0%nat else None
  end.

(** ** Lines *)

Definition colon : Ascii.ascii := Ascii.ascii_of_nat 58.
Definition slash : Ascii.ascii := Ascii.ascii_of_nat 47.
Definition quote_char : Ascii.ascii := Ascii.ascii_of_nat 34.
Definition quote_mark : string := String quote_char "".
Definition comma : Ascii.ascii := Ascii.ascii_of_nat 44.
Definition newline : Ascii.ascii := Ascii.ascii_of_nat 10.
Definition return_mark : string := String (Ascii.ascii_of_nat 13) "".

Fixpoint split_lines (s : string) : list string :=
  match s with
  | EmptyString => [""]
  | String a s' =>
      if Ascii.eqb a newline then "" :: split_lines s'
      else match split_lines s' with l :: r => String a l :: r | [] => [String a ""] end
  end.

(** The longest line that the scanner takes; it stops at a longer one. *)
Definition max_line : nat := Z.to_nat 65535.

Fixpoint scan (lines : list string) : list string :=
  match lines with
  | [] => []
  | l :: lines' => if (max_line <? String.length l)%nat then [] else TrimSuffix l return_mark :: scan lines'
  end.

(** ** Paths ([path/filepath] on Unix) *)

Definition slash_text : string := String slash "".

(** The elements that [Clean] keeps, the last one first. *)
Definition clean_step (rooted : bool) (out : list string) (e : string) : list string :=
  if ((e =? "") || (e =? "."))%string then out
  else if (e =? "..")%string then
    match out with
    | x :: out' => if (x =? "..")%string then e :: out else out'
    | [] => if rooted then [] else [e]
    end
  else e :: out.

Definition Clean (path : string) : string :=
  let rooted := String.prefix slash_text path in
  let out := String.concat slash_text (rev (fold_left (clean_step rooted) (split_char slash path) [])) in
  if rooted then slash_text +:+ out else if (out =? "")%string then "." else out.

Definition Dir (path : string) : string :=
  Clean (match LastIndex path slash with Some i => upto (S i) path | None => "" end).

Fixpoint strip_slashes (s : string) : string :=
  match s with String a s' => if Ascii.eqb a slash then strip_slashes s' else s | EmptyString => EmptyString end.

Definition Base (path : string) : string :=
  if (path =? "")%string then "."
  else
    let path := srev (strip_slashes (srev path "")) "" in
    let path := match LastIndex path slash with Some i => from (S i) path | None => path end in
    if (path =? "")%string then slash_text else path.

Definition JoinPaths (l : list string) : string :=
  match List.filter (fun s => negb (s =? "")%string) l with
  | [] => ""
  | l => Clean (String.concat slash_text l)
  end.
