(* ===== verification/DiskFS.v ===== *)
(** * The operating system as the disk cache uses it

    Files by path, a clock, advisory locks, environment variables and a plan of
    faults.  Every call of package [os] that [src/diskcache] makes is one function
    here.  [faults] decides, call by call, whether the next call succeeds ([None])
    or fails ([Some n], where a failing write still puts [n] bytes on disk); an
    exhausted plan means that no further call fails.  All error branches of the
    cache are therefore reachable, and a theorem over every plan covers every
    combination of I/O errors. *)

From S2P Require Import Prelude.

(** ** Errors ([diskcache.go], [errors.go]) *)

Inductive Operation : Set :=
| OpOpen | OpClose | OpPut | OpStreamPut | OpGet | OpRotate | OpSwitch | OpDrop
| OpLock | OpUnlock | OpPos | OpSeek | OpWrite | OpRead | OpSync | OpCreate
| OpRemove | OpRename | OpStat.

Inductive error : Set :=
| ErrUnexpectedReadSize
| ErrTooSmallReadBuf
| ErrTooLargeData
| ErrNoData
| ErrCacheFull
| ErrClosed
| ErrInvalidStreamSize
| ErrInvalidDataFileName
| ErrInvalidDataFileNameSuffix
| ErrBadHeader
| ErrDataFileIsDir                                 (* errors.New("data file should not be dir") *)
| ErrNotExist                                      (* os.ErrNotExist *)
| ErrInvalid                                       (* os.ErrInvalid *)
| ErrEOF                                           (* io.EOF *)
| ErrFileClosed                                    (* os.ErrClosed *)
| ErrIO                                            (* an injected fault *)
| ErrLocked                                        (* fmt.Errorf("locked") *)
| ErrUser (n : Z)                                  (* an error of a callback or a reader *)
| CacheError (op : Operation) (inner : error)      (* *CacheError: its operation and cause *)
| Join (errs : list error).                        (* errors.Join of at least one error *)

(** [errors.Is(err, target)], the target given by its test [same]: follow [Unwrap]. *)
Fixpoint errors_Is (same : error -> bool) (e : error) : bool :=
  same e ||
  match e with
  | CacheError _ inner => errors_Is same inner
  | Join errs => existsb (errors_Is same) errs
  | _ => false
  end.

Definition is_closed_err (e : error) : bool := match e with ErrClosed => true | _ => false end.
Definition is_eof (e : error) : bool := match e with ErrEOF => true | _ => false end.
Definition is_full_err (e : error) : bool := match e with ErrCacheFull => true | _ => false end.

(** ** The world *)

Inductive node : Type :=
| File (content : bytes)
| Dir.

Record OS := mkOS {
  files : gmap string node;
  faults : list (option nat);
  now : Z;                                         (* time.Now(), nanoseconds *)
  flocks : gset string;                            (* lock files with a held flock *)
  env : list (string * string)                     (* os.LookupEnv *)
}.

Definition with_files (f : gmap string node) (o : OS) : OS :=
  mkOS f (faults o) (now o) (flocks o) (env o).
Definition with_faults (f : list (option nat)) (o : OS) : OS :=
  mkOS (files o) f (now o) (flocks o) (env o).
Definition with_flocks (l : gset string) (o : OS) : OS :=
  mkOS (files o) (faults o) (now o) l (env o).

Definition io A : Type := SM OS error A.

(** Consult the fault plan: the outcome of the next call. *)
Definition next_fault : SM OS error (option nat) :=
  fun o => match faults o with
           | [] => (Ok None, o)
           | f :: fs => (Ok f, with_faults fs o)
           end.

(** A call that may fail before it has an effect. *)
Definition sys : io unit :=
  f <~ next_fault ;; match f with None => sret tt | Some _ => sfail ErrIO end.

Definition set_file (p : string) (n : node) : io unit :=
  smod (fun o => with_files (<[p := n]> (files o)) o).

(** [os.Stat]: size and whether it is a directory. *)
Definition os_Stat (p : string) : io (Z * bool) :=
  sys ;;; o <~ sget ;;
  match files o !! p with
  | Some (File b) => sret (zlen b, false)
  | Some Dir => sret (4096, true)
  | None => sfail ErrNotExist
  end.

Definition os_Remove (p : string) : io unit :=
  sys ;;; o <~ sget ;;
  match files o !! p with
  | Some _ => smod (fun o => with_files (delete p (files o)) o)
  | None => sfail ErrNotExist
  end.

(** [os.Rename]: an existing regular file at the target is replaced. *)
Definition os_Rename (old new : string) : io unit :=
  sys ;;; o <~ sget ;;
  match files o !! old, files o !! new with
  | None, _ => sfail ErrNotExist
  | Some _, Some Dir => sfail ErrIO
  | Some n, _ => smod (fun o => with_files (<[new := n]> (delete old (files o))) o)
  end.

(** [os.Truncate]: cut to [n] bytes, or pad with zeros. *)
Definition os_Truncate (p : string) (n : Z) : io unit :=
  sys ;;; o <~ sget ;;
  match files o !! p with
  | Some (File b) =>
      set_file p (File (take (Z.to_nat n) b ++ replicate (Z.to_nat n - length b) Byte.x00))
  | Some Dir => sfail ErrIO
  | None => sfail ErrNotExist
  end.

(** [os.OpenFile(p, O_WRONLY|O_APPEND|O_CREATE)]. *)
Definition os_OpenAppend (p : string) : io unit :=
  sys ;;; o <~ sget ;;
  match files o !! p with
  | Some (File _) => sret tt
  | Some Dir => sfail ErrIO
  | None => set_file p (File [])
  end.

(** [os.OpenFile(p, O_WRONLY|O_CREATE|O_TRUNC)]. *)
Definition os_OpenTrunc (p : string) : io unit :=
  sys ;;; o <~ sget ;;
  match files o !! p with
  | Some Dir => sfail ErrIO
  | _ => set_file p (File [])
  end.

(** [os.OpenFile(p, O_RDONLY)]: the content the descriptor reads.  A rotated file is
    never written again, so its content at open is its content for the life of the
    descriptor, also when the name is removed or replaced meanwhile. *)
Definition os_OpenRead (p : string) : io bytes :=
  sys ;;; o <~ sget ;;
  match files o !! p with
  | Some (File b) => sret b
  | Some Dir => sret []
  | None => sfail ErrNotExist
  end.

(** [os.ReadFile]. *)
Definition os_ReadFile (p : string) : io bytes :=
  sys ;;; o <~ sget ;;
  match files o !! p with
  | Some (File b) => sret b
  | Some Dir => sfail ErrIO
  | None => sfail ErrNotExist
  end.

(** [(File).Write] on a descriptor opened for append on [p]: the bytes written and the
    error; a failing write leaves a prefix of the data behind. *)
Definition fd_Write (p : string) (data : bytes) : io (Z * option error) :=
  f <~ next_fault ;;
  o <~ sget ;;
  let old := match files o !! p with Some (File b) => b | _ => [] end in
  match f with
  | None => set_file p (File (old ++ data)) ;;; sret (zlen data, None)
  | Some n => set_file p (File (old ++ take n data)) ;;; sret (zlen (take n data), Some ErrIO)
  end.

Definition fd_Append (p : string) (data : bytes) : io unit :=
  r <~ fd_Write p data ;; match snd r with None => sret tt | Some e => sfail e end.

(** [(File).Truncate(0)]. *)
Definition fd_Truncate0 (p : string) : io unit := sys ;;; set_file p (File []).

Definition os_MkdirAll (p : string) : io unit :=
  sys ;;; o <~ sget ;;
  match files o !! p with
  | Some (File _) => sfail ErrIO
  | Some Dir => sret tt
  | None => set_file p Dir
  end.

(** [syscall.Flock(fd, LOCK_EX|LOCK_NB)] and [LOCK_UN] on the lock file [p]. *)
Definition sys_FlockEx (p : string) : io unit :=
  sys ;;; o <~ sget ;;
  if bool_decide (p ∈ flocks o) then sfail ErrLocked
  else smod (fun o => with_flocks ({[p]} ∪ flocks o) o).

Definition sys_FlockUn (p : string) : io unit :=
  sys ;;; smod (fun o => with_flocks (flocks o ∖ {[p]}) o).

Definition LookupEnv (k : string) (o : OS) : option string :=
  match List.find (fun kv => String.eqb (fst kv) k) (env o) with
  | Some (_, v) => Some v
  | None => None
  end.

(** ** Lemmas: executions without faults *)

Section no_fault.
Context (o : OS) (Hf : faults o = []).

Lemma sys_ok : sys o = (Ok tt, o).
Proof using Hf. unfold sys, sbind, next_fault. by rewrite Hf. Qed.

Lemma os_Stat_file p b : files o !! p = Some (File b) -> os_Stat p o = (Ok (zlen b, false), o).
Proof using Hf. intros E. unfold os_Stat, sbind, sget. rewrite sys_ok. by rewrite E. Qed.

Lemma os_Stat_none p : files o !! p = None -> os_Stat p o = (Err ErrNotExist, o).
Proof using Hf. intros E. unfold os_Stat, sbind, sget. rewrite sys_ok. by rewrite E. Qed.

Lemma os_Remove_ok p n : files o !! p = Some n ->
  os_Remove p o = (Ok tt, with_files (delete p (files o)) o).
Proof using Hf. intros E. unfold os_Remove, sbind, sget. rewrite sys_ok. by rewrite E. Qed.

Lemma os_Rename_ok old new n :
  files o !! old = Some n -> files o !! new <> Some Dir ->
  os_Rename old new o = (Ok tt, with_files (<[new := n]> (delete old (files o))) o).
Proof using Hf.
  intros E N. unfold os_Rename, sbind, sget. rewrite sys_ok, E.
  destruct (files o !! new) as [[|]|]; [done|congruence|done].
Qed.

Lemma os_OpenAppend_new p : files o !! p = None ->
  os_OpenAppend p o = (Ok tt, with_files (<[p := File []]> (files o)) o).
Proof using Hf. intros E. unfold os_OpenAppend, sbind, sget. rewrite sys_ok. by rewrite E. Qed.

Lemma os_OpenAppend_old p b : files o !! p = Some (File b) -> os_OpenAppend p o = (Ok tt, o).
Proof using Hf. intros E. unfold os_OpenAppend, sbind, sget. rewrite sys_ok. by rewrite E. Qed.

Lemma os_OpenTrunc_ok p : files o !! p <> Some Dir ->
  os_OpenTrunc p o = (Ok tt, with_files (<[p := File []]> (files o)) o).
Proof using Hf.
  intros E. unfold os_OpenTrunc, sbind, sget. rewrite sys_ok.
  destruct (files o !! p) as [[|]|]; [done|congruence|done].
Qed.

Lemma os_OpenRead_ok p b : files o !! p = Some (File b) -> os_OpenRead p o = (Ok b, o).
Proof using Hf. intros E. unfold os_OpenRead, sbind, sget. rewrite sys_ok. by rewrite E. Qed.

Lemma os_ReadFile_ok p b : files o !! p = Some (File b) -> os_ReadFile p o = (Ok b, o).
Proof using Hf. intros E. unfold os_ReadFile, sbind, sget. rewrite sys_ok. by rewrite E. Qed.

Lemma fd_Write_ok p b data : files o !! p = Some (File b) ->
  fd_Write p data o = (Ok (zlen data, None), with_files (<[p := File (b ++ data)]> (files o)) o).
Proof using Hf.
  intros E. unfold fd_Write, sbind, next_fault, sget. rewrite Hf. cbv beta iota. by rewrite E.
Qed.

Lemma fd_Append_ok p b data : files o !! p = Some (File b) ->
  fd_Append p data o = (Ok tt, with_files (<[p := File (b ++ data)]> (files o)) o).
Proof using Hf. intros E. unfold fd_Append, sbind. by rewrite (fd_Write_ok _ _ _ E). Qed.

Lemma fd_Truncate0_ok p :
  fd_Truncate0 p o = (Ok tt, with_files (<[p := File []]> (files o)) o).
Proof using Hf. unfold fd_Truncate0, sbind. by rewrite sys_ok. Qed.
End no_fault.

(** * The position file [.pos] of the disk cache ([src/diskcache/pos.go])

    [Pos] remembers which data file is being read and the offset of the next
    record; it is dumped to [.pos] as an int64 in little-endian order followed by
    the file name. *)

(** ** State *)

Record Pos := mkPos {
  Seek : Z;
  Name : option bytes;            (* nil or a slice *)
  cnt : Z;
  dumpCount : Z;
  dumpInterval : Z;
  lastDump : Z;
  pfd : bool;                     (* fd != nil *)
  pfname : string
}.

Definition set_Seek (v : Z) (p : Pos) : Pos :=
  mkPos v (Name p) (cnt p) (dumpCount p) (dumpInterval p) (lastDump p) (pfd p) (pfname p).
Definition set_Name (v : option bytes) (p : Pos) : Pos :=
  mkPos (Seek p) v (cnt p) (dumpCount p) (dumpInterval p) (lastDump p) (pfd p) (pfname p).
Definition set_cnt (v : Z) (p : Pos) : Pos :=
  mkPos (Seek p) (Name p) v (dumpCount p) (dumpInterval p) (lastDump p) (pfd p) (pfname p).
Definition set_dumpCount (v : Z) (p : Pos) : Pos :=
  mkPos (Seek p) (Name p) (cnt p) v (dumpInterval p) (lastDump p) (pfd p) (pfname p).
Definition set_dumpInterval (v : Z) (p : Pos) : Pos :=
  mkPos (Seek p) (Name p) (cnt p) (dumpCount p) v (lastDump p) (pfd p) (pfname p).
Definition set_lastDump (v : Z) (p : Pos) : Pos :=
  mkPos (Seek p) (Name p) (cnt p) (dumpCount p) (dumpInterval p) v (pfd p) (pfname p).
Definition set_pfd (v : bool) (p : Pos) : Pos :=
  mkPos (Seek p) (Name p) (cnt p) (dumpCount p) (dumpInterval p) (lastDump p) v (pfname p).
Definition set_pfname (v : string) (p : Pos) : Pos :=
  mkPos (Seek p) (Name p) (cnt p) (dumpCount p) (dumpInterval p) (lastDump p) (pfd p) v.

(** ** The binary form *)

Definition MarshalBinary (p : Pos) : bytes :=
  put_u64 (Seek p) ++ default [] (Name p).

(** [binary.Read] of an int64, then the rest of the buffer. *)
Definition UnmarshalBinary (bin : bytes) : option (Z * bytes) :=
  if zlen bin <? 8 then None
  else Some (int64 (get_u64 (take 8 bin)), drop 8 bin).

(** ** Operations: a computation over the position and the world *)

Definition pm A : Type := SM (Pos * OS) error A.

Definition pio {A} (m : io A) : pm A :=
  fun '(p, o) => let '(r, o') := m o in (r, (p, o')).

Definition pmod (f : Pos -> Pos) : pm unit := fun '(p, o) => (Ok tt, (f p, o)).

Definition pget : pm Pos := fun '(p, o) => (Ok p, (p, o)).

Definition pnow : pm Z := fun '(p, o) => (Ok (now o), (p, o)).

Definition pos_close : pm unit :=
  p <~ pget ;;
  if pfd p
  then pmod (set_pfd false) ;;; swrap (CacheError OpClose) (pio sys)
  else sret tt.

(** The position stored in [fname]; [None] for a file that holds no name. *)
Definition posFromFile (fname : string) : pm (option (Z * bytes)) :=
  bin <~ swrap (CacheError OpRead) (pio (os_ReadFile fname)) ;;
  if zlen bin <=? 8 then sret None
  else match UnmarshalBinary bin with
       | Some r => sret (Some r)
       | None => sfail (CacheError OpPos ErrEOF)
       end.

(** Open [.pos] for writing when it is not open yet (truncating it). *)
Definition open_pos_fd : pm unit :=
  p <~ pget ;;
  if pfd p then sret tt
  else swrap (CacheError OpCreate) (pio (os_OpenTrunc (pfname p))) ;;; pmod (set_pfd true).

Definition doDumpFile : pm unit :=
  open_pos_fd ;;;
  p <~ pget ;;
  let data := MarshalBinary p in
  swrap (CacheError OpWrite) (pio (fd_Truncate0 (pfname p))) ;;;
  swrap (CacheError OpSeek) (pio sys) ;;;
  swrap (CacheError OpWrite) (pio (fd_Append (pfname p) data)).

Definition pos_reset : pm unit :=
  open_pos_fd ;;;
  p <~ pget ;;
  if match Name p with None => Seek p =? -1 | Some _ => false end
  then sret tt                                     (* has been reset *)
  else pmod (fun p => set_Name None (set_Seek (-1) p)) ;;; doDumpFile.

(** Dump every [dumpCount]-th time or after [dumpInterval]; the result says whether a
    dump happened. *)
Definition dumpFile : pm bool :=
  p <~ pget ;;
  if dumpCount p =? 0 then doDumpFile ;;; sret true
  else
    pmod (set_cnt (cnt p + 1)) ;;;
    t <~ pnow ;;
    if Z.rem (cnt p + 1) (dumpCount p) =? 0
    then pmod (set_lastDump t) ;;; doDumpFile ;;; sret true
    else if (0 <? dumpInterval p) && (dumpInterval p <=? t - lastDump p)
    then pmod (set_lastDump t) ;;; doDumpFile ;;; sret true
    else sret false.

(** ** Lemmas *)

(** The stored form is read back exactly, for any int64 offset. *)
Lemma UnmarshalBinary_MarshalBinary p :
  in_int64 (Seek p) ->
  UnmarshalBinary (MarshalBinary p) = Some (Seek p, default [] (Name p)).
Proof.
  intros H. unfold UnmarshalBinary, MarshalBinary.
  rewrite zlen_app, zlen_put_u64.
  pose proof (zlen_nonneg (default [] (Name p))). ztest.
  rewrite take_exact, drop_exact, get_put_u64 by (by rewrite length_put_u64).
  do 2 f_equal. unfold int64. change (?x mod 2 ^ 64) with (wrapU 64 x).
  rewrite wrapS_wrapU by lia. by apply int64_small.
Qed.

Section no_fault.
Context (p : Pos) (o : OS) (Hf : faults o = []) (Hd : files o !! pfname p <> Some Dir).

(** A dump leaves exactly the marshalled position in the file. *)
Lemma doDumpFile_ok :
  doDumpFile (p, o) =
  (Ok tt, (set_pfd true p,
           with_files (<[pfname p := File (MarshalBinary p)]> (files o)) o)).
Proof using Hf Hd.
  assert (forall p1 o1, faults o1 = [] -> pfname p1 = pfname p ->
    (p0 <~ pget ;;
     (swrap (CacheError OpWrite) (pio (fd_Truncate0 (pfname p0))) ;;;
      swrap (CacheError OpSeek) (pio sys) ;;;
      swrap (CacheError OpWrite) (pio (fd_Append (pfname p0) (MarshalBinary p0))))) (p1, o1)
    = (Ok tt, (p1, with_files (<[pfname p := File (MarshalBinary p1)]> (files o1)) o1))) as K.
  { intros p1 o1 H1 H2. unfold sbind at 1, pget. unfold sbind, swrap, pio. rewrite H2.
    rewrite fd_Truncate0_ok by done. rewrite sys_ok by done.
    erewrite fd_Append_ok; [|done|simpl; by rewrite lookup_insert_eq].
    unfold with_files; simpl. by rewrite insert_insert_eq. }
  unfold doDumpFile. unfold sbind at 1. unfold open_pos_fd.
  unfold sbind at 1, pget at 1. destruct (pfd p) eqn:E.
  - unfold sret. rewrite K by done.
    by replace (set_pfd true p) with p by (destruct p; simpl in *; by subst).
  - unfold sbind at 1, swrap at 1, pio at 1. rewrite os_OpenTrunc_ok by done.
    unfold pmod. rewrite K by done. unfold with_files; simpl. by rewrite insert_insert_eq.
Qed.
End no_fault.
