(* ===== verification/DiskCache.v ===== *)
(** * The disk cache: state and operations ([src/diskcache])

    One definition per function of [put.go], [get.go], [rotate.go], [drop.go],
    [switch.go], [write_file.go], [open.go], [envs.go], [options.go], [flock*.go] and
    [meta.go].  Each public operation runs under its locks and is one atomic step
    here.  Prometheus metrics and log lines are left out, and so are the texts of
    errors: an error keeps its operation and its cause. *)

From S2P Require Import Prelude GoNum DiskFS.
From Stdlib Require Import Ascii.

(** ** Paths ([path/filepath]) and names *)

Definition JoinPath (dir name : string) : string :=
  if (dir =? "")%string then name
  else if (dir =? "/")%string then ("/" +:+ name)
  else (dir +:+ "/" +:+ name).

Fixpoint split_on (c : ascii) (s : string) : list string :=
  match s with
  | EmptyString => [""]
  | String d r =>
      if Ascii.eqb c d then "" :: split_on c r
      else match split_on c r with
           | w :: ws => String d w :: ws
           | [] => [String d ""]
           end
  end.

(** [filepath.Base] of a path that does not end in a slash. *)
Definition Base (p : string) : string := List.last (split_on "/" p) "".

(** [strings.Split(filepath.Base(name), ".")]. *)
Definition name_parts (p : string) : list string := split_on "." (Base p).

Definition data_name (dir : string) (n : Z) : string := JoinPath dir ("data." +:+ fmt_032d n).

(** ** State: [type DiskCache struct]

    [Conf] holds the fields fixed once the cache is open, [DiskCache] the others.  A
    write descriptor is nil, open, or closed behind a non-nil pointer (after a failed
    [Close]); a read descriptor carries its file's content and offset. *)

Definition dataHeaderLen : Z := 4.
Definition EOFHint : Z := 3735928559.            (* uint32(0xdeadbeef) *)

Inductive WFd : Set := WNil | WOpen | WDead.

Record RFd := mkRFd {
  rname : string;
  rcontent : bytes;
  roff : Z;
  rlive : bool
}.

Record Conf := mkConf {
  path : string;
  wakeup : Z;
  batchSize : Z;
  capacity : Z;
  maxDataSize : Z;
  dirPerms : Z;
  filePerms : Z;
  noSync : bool;
  noFallbackOnError : bool;
  noPos : bool;
  filoDrop : bool;
  noDrop : bool;
  noLock : bool
}.
Definition set_path (v : string) (c : Conf) : Conf :=
  mkConf v (wakeup c) (batchSize c) (capacity c) (maxDataSize c) (dirPerms c) (filePerms c) (noSync c) (noFallbackOnError c) (noPos c) (filoDrop c) (noDrop c) (noLock c).
Definition set_wakeup (v : Z) (c : Conf) : Conf :=
  mkConf (path c) v (batchSize c) (capacity c) (maxDataSize c) (dirPerms c) (filePerms c) (noSync c) (noFallbackOnError c) (noPos c) (filoDrop c) (noDrop c) (noLock c).
Definition set_batchSize (v : Z) (c : Conf) : Conf :=
  mkConf (path c) (wakeup c) v (capacity c) (maxDataSize c) (dirPerms c) (filePerms c) (noSync c) (noFallbackOnError c) (noPos c) (filoDrop c) (noDrop c) (noLock c).
Definition set_capacity (v : Z) (c : Conf) : Conf :=
  mkConf (path c) (wakeup c) (batchSize c) v (maxDataSize c) (dirPerms c) (filePerms c) (noSync c) (noFallbackOnError c) (noPos c) (filoDrop c) (noDrop c) (noLock c).
Definition set_maxDataSize (v : Z) (c : Conf) : Conf :=
  mkConf (path c) (wakeup c) (batchSize c) (capacity c) v (dirPerms c) (filePerms c) (noSync c) (noFallbackOnError c) (noPos c) (filoDrop c) (noDrop c) (noLock c).
Definition set_dirPerms (v : Z) (c : Conf) : Conf :=
  mkConf (path c) (wakeup c) (batchSize c) (capacity c) (maxDataSize c) v (filePerms c) (noSync c) (noFallbackOnError c) (noPos c) (filoDrop c) (noDrop c) (noLock c).
Definition set_filePerms (v : Z) (c : Conf) : Conf :=
  mkConf (path c) (wakeup c) (batchSize c) (capacity c) (maxDataSize c) (dirPerms c) v (noSync c) (noFallbackOnError c) (noPos c) (filoDrop c) (noDrop c) (noLock c).
Definition set_noSync (v : bool) (c : Conf) : Conf :=
  mkConf (path c) (wakeup c) (batchSize c) (capacity c) (maxDataSize c) (dirPerms c) (filePerms c) v (noFallbackOnError c) (noPos c) (filoDrop c) (noDrop c) (noLock c).
Definition set_noFallbackOnError (v : bool) (c : Conf) : Conf :=
  mkConf (path c) (wakeup c) (batchSize c) (capacity c) (maxDataSize c) (dirPerms c) (filePerms c) (noSync c) v (noPos c) (filoDrop c) (noDrop c) (noLock c).
Definition set_noPos (v : bool) (c : Conf) : Conf :=
  mkConf (path c) (wakeup c) (batchSize c) (capacity c) (maxDataSize c) (dirPerms c) (filePerms c) (noSync c) (noFallbackOnError c) v (filoDrop c) (noDrop c) (noLock c).
Definition set_filoDrop (v : bool) (c : Conf) : Conf :=
  mkConf (path c) (wakeup c) (batchSize c) (capacity c) (maxDataSize c) (dirPerms c) (filePerms c) (noSync c) (noFallbackOnError c) (noPos c) v (noDrop c) (noLock c).
Definition set_noDrop (v : bool) (c : Conf) : Conf :=
  mkConf (path c) (wakeup c) (batchSize c) (capacity c) (maxDataSize c) (dirPerms c) (filePerms c) (noSync c) (noFallbackOnError c) (noPos c) (filoDrop c) v (noLock c).
Definition set_noLock (v : bool) (c : Conf) : Conf :=
  mkConf (path c) (wakeup c) (batchSize c) (capacity c) (maxDataSize c) (dirPerms c) (filePerms c) (noSync c) (noFallbackOnError c) (noPos c) (filoDrop c) (noDrop c) v.

Record DiskCache := mkDC {
  conf : Conf;
  dataFiles : list string;
  closed : bool;
  closeErr : option error;
  curWriteFile : string;
  curReadfile : string;
  wfd : WFd;
  rfd : option RFd;
  wfdLastWrite : Z;
  flock : option string;
  pos : Pos;
  size : Z;
  curBatchSize : Z;
  curReadSize : Z;
  batchHeader : bytes;
  LastErr : option error
}.
Definition set_conf (v : Conf) (c : DiskCache) : DiskCache :=
  mkDC v (dataFiles c) (closed c) (closeErr c) (curWriteFile c) (curReadfile c) (wfd c) (rfd c) (wfdLastWrite c) (flock c) (pos c) (size c) (curBatchSize c) (curReadSize c) (batchHeader c) (LastErr c).
Definition set_dataFiles (v : list string) (c : DiskCache) : DiskCache :=
  mkDC (conf c) v (closed c) (closeErr c) (curWriteFile c) (curReadfile c) (wfd c) (rfd c) (wfdLastWrite c) (flock c) (pos c) (size c) (curBatchSize c) (curReadSize c) (batchHeader c) (LastErr c).
Definition set_closed (v : bool) (c : DiskCache) : DiskCache :=
  mkDC (conf c) (dataFiles c) v (closeErr c) (curWriteFile c) (curReadfile c) (wfd c) (rfd c) (wfdLastWrite c) (flock c) (pos c) (size c) (curBatchSize c) (curReadSize c) (batchHeader c) (LastErr c).
Definition set_closeErr (v : option error) (c : DiskCache) : DiskCache :=
  mkDC (conf c) (dataFiles c) (closed c) v (curWriteFile c) (curReadfile c) (wfd c) (rfd c) (wfdLastWrite c) (flock c) (pos c) (size c) (curBatchSize c) (curReadSize c) (batchHeader c) (LastErr c).
Definition set_curWriteFile (v : string) (c : DiskCache) : DiskCache :=
  mkDC (conf c) (dataFiles c) (closed c) (closeErr c) v (curReadfile c) (wfd c) (rfd c) (wfdLastWrite c) (flock c) (pos c) (size c) (curBatchSize c) (curReadSize c) (batchHeader c) (LastErr c).
Definition set_curReadfile (v : string) (c : DiskCache) : DiskCache :=
  mkDC (conf c) (dataFiles c) (closed c) (closeErr c) (curWriteFile c) v (wfd c) (rfd c) (wfdLastWrite c) (flock c) (pos c) (size c) (curBatchSize c) (curReadSize c) (batchHeader c) (LastErr c).
Definition set_wfd (v : WFd) (c : DiskCache) : DiskCache :=
  mkDC (conf c) (dataFiles c) (closed c) (closeErr c) (curWriteFile c) (curReadfile c) v (rfd c) (wfdLastWrite c) (flock c) (pos c) (size c) (curBatchSize c) (curReadSize c) (batchHeader c) (LastErr c).
Definition set_rfd (v : option RFd) (c : DiskCache) : DiskCache :=
  mkDC (conf c) (dataFiles c) (closed c) (closeErr c) (curWriteFile c) (curReadfile c) (wfd c) v (wfdLastWrite c) (flock c) (pos c) (size c) (curBatchSize c) (curReadSize c) (batchHeader c) (LastErr c).
Definition set_wfdLastWrite (v : Z) (c : DiskCache) : DiskCache :=
  mkDC (conf c) (dataFiles c) (closed c) (closeErr c) (curWriteFile c) (curReadfile c) (wfd c) (rfd c) v (flock c) (pos c) (size c) (curBatchSize c) (curReadSize c) (batchHeader c) (LastErr c).
Definition set_flock (v : option string) (c : DiskCache) : DiskCache :=
  mkDC (conf c) (dataFiles c) (closed c) (closeErr c) (curWriteFile c) (curReadfile c) (wfd c) (rfd c) (wfdLastWrite c) v (pos c) (size c) (curBatchSize c) (curReadSize c) (batchHeader c) (LastErr c).
Definition set_pos (v : Pos) (c : DiskCache) : DiskCache :=
  mkDC (conf c) (dataFiles c) (closed c) (closeErr c) (curWriteFile c) (curReadfile c) (wfd c) (rfd c) (wfdLastWrite c) (flock c) v (size c) (curBatchSize c) (curReadSize c) (batchHeader c) (LastErr c).
Definition set_size (v : Z) (c : DiskCache) : DiskCache :=
  mkDC (conf c) (dataFiles c) (closed c) (closeErr c) (curWriteFile c) (curReadfile c) (wfd c) (rfd c) (wfdLastWrite c) (flock c) (pos c) v (curBatchSize c) (curReadSize c) (batchHeader c) (LastErr c).
Definition set_curBatchSize (v : Z) (c : DiskCache) : DiskCache :=
  mkDC (conf c) (dataFiles c) (closed c) (closeErr c) (curWriteFile c) (curReadfile c) (wfd c) (rfd c) (wfdLastWrite c) (flock c) (pos c) (size c) v (curReadSize c) (batchHeader c) (LastErr c).
Definition set_curReadSize (v : Z) (c : DiskCache) : DiskCache :=
  mkDC (conf c) (dataFiles c) (closed c) (closeErr c) (curWriteFile c) (curReadfile c) (wfd c) (rfd c) (wfdLastWrite c) (flock c) (pos c) (size c) (curBatchSize c) v (batchHeader c) (LastErr c).
Definition set_batchHeader (v : bytes) (c : DiskCache) : DiskCache :=
  mkDC (conf c) (dataFiles c) (closed c) (closeErr c) (curWriteFile c) (curReadfile c) (wfd c) (rfd c) (wfdLastWrite c) (flock c) (pos c) (size c) (curBatchSize c) (curReadSize c) v (LastErr c).
Definition set_LastErr (v : option error) (c : DiskCache) : DiskCache :=
  mkDC (conf c) (dataFiles c) (closed c) (closeErr c) (curWriteFile c) (curReadfile c) (wfd c) (rfd c) (wfdLastWrite c) (flock c) (pos c) (size c) (curBatchSize c) (curReadSize c) (batchHeader c) v.

Definition defaultPos : Pos := mkPos 0 None 0 100 100000000 0 false "".

Definition defaultInstance : DiskCache :=
  mkDC (mkConf "" 3000000000 (20 * 1024 * 1024) 0 0 488 416 false false false false false false)
       [] false None "" "" WNil None 0 None defaultPos 0 0 0 (replicate 4 Byte.x00) None.

(** ** Computations over the cache and the world *)

Definition St : Type := DiskCache * OS.

Definition M A : Type := SM St error A.

Definition oio {A} (m : io A) : M A :=
  fun '(c, o) => let '(r, o') := m o in (r, (c, o')).

Definition posm {A} (m : pm A) : M A :=
  fun '(c, o) => let '(r, (p, o')) := m (pos c, o) in (r, (set_pos p c, o')).

Definition cget : M DiskCache := fun '(c, o) => (Ok c, (c, o)).

Definition cmod (f : DiskCache -> DiskCache) : M unit := fun '(c, o) => (Ok tt, (f c, o)).

Definition onow : M Z := fun '(c, o) => (Ok (now o), (c, o)).

(** ** Descriptors *)

Definition wfd_Write (data : bytes) : M (Z * option error) :=
  c <~ cget ;;
  match wfd c with
  | WOpen => oio (fd_Write (curWriteFile c) data)
  | WDead => sret (0, Some ErrFileClosed)
  | WNil => sret (0, Some ErrInvalid)
  end.

Definition wfd_Append (op : Operation) (data : bytes) : M unit :=
  r <~ wfd_Write data ;;
  match snd r with None => sret tt | Some e => sfail (CacheError op e) end.

(** A call on the write descriptor that changes no file (Sync, Seek). *)
Definition wfd_sys : M unit :=
  c <~ cget ;;
  match wfd c with
  | WOpen => oio sys
  | WDead => sfail ErrFileClosed
  | WNil => sfail ErrInvalid
  end.

(** [c.wfd.Close()]: the descriptor is closed even when Close reports an error. *)
Definition wfd_Close : M unit :=
  c <~ cget ;;
  match wfd c with
  | WOpen => cmod (set_wfd WDead) ;;; oio sys
  | WDead => sfail ErrFileClosed
  | WNil => sfail ErrInvalid
  end.

Definition rfd_kill (c : DiskCache) : DiskCache :=
  match rfd c with
  | Some r => set_rfd (Some (mkRFd (rname r) (rcontent r) (roff r) false)) c
  | None => c
  end.

Definition rfd_Close : M unit :=
  c <~ cget ;;
  match rfd c with
  | Some r => if rlive r then cmod rfd_kill ;;; oio sys else sfail ErrFileClosed
  | None => sfail ErrInvalid
  end.

Definition rfd_set_off (off : Z) : M unit :=
  cmod (fun c => match rfd c with
                 | Some r => set_rfd (Some (mkRFd (rname r) (rcontent r) off (rlive r))) c
                 | None => c
                 end).

(** [c.rfd.Read(buf)] with [len(buf) = n]: the bytes read, or an error ([io.EOF] when
    nothing is left and [n > 0]). *)
Definition rfd_Read (n : Z) : M bytes :=
  c <~ cget ;;
  match rfd c with
  | Some r =>
      if negb (rlive r) then sfail ErrFileClosed
      else
        oio sys ;;;
        let got := ztake n (zdrop (roff r) (rcontent r)) in
        if (0 <? n) && (zlen got =? 0) then sfail ErrEOF
        else rfd_set_off (roff r + zlen got) ;;; sret got
  | None => sfail ErrInvalid
  end.

(** [c.rfd.Seek(d, io.SeekCurrent)]: an error when the result would be negative. *)
Definition rfd_SeekCurrent (d : Z) : M unit :=
  c <~ cget ;;
  match rfd c with
  | Some r =>
      if negb (rlive r) then sfail ErrFileClosed
      else oio sys ;;;
           if roff r + d <? 0 then sfail ErrInvalid else rfd_set_off (roff r + d)
  | None => sfail ErrInvalid
  end.

(** ** write_file.go, switch.go: the write file *)

Definition openWriteFile : M unit :=
  c <~ cget ;;
  stry (oio (os_Stat (curWriteFile c))) (fun r =>
    match r with
    | Ok (_, true) => sfail (CacheError OpCreate ErrDataFileIsDir)
    | Ok (sz, false) => cmod (set_curBatchSize sz)
    | Err _ => cmod (set_curBatchSize 0)
    end) ;;;
  swrap (CacheError OpCreate) (oio (os_OpenAppend (curWriteFile c))) ;;;
  t <~ onow ;;
  cmod (set_wfdLastWrite t) ;;;
  cmod (set_wfd WOpen).

Definition ensureWriteFile : M unit :=
  c <~ cget ;;
  if closed c then sfail ErrClosed
  else match wfd c with
       | WNil =>
           if (curWriteFile c =? "")%string then sfail (CacheError OpCreate ErrInvalid)
           else openWriteFile
       | _ => sret tt
       end.

(** ** rotate.go *)

(** The name of the file that the write file becomes: one more than the last. *)
Definition next_file_name (c : DiskCache) : Res error string :=
  match list.last (dataFiles c) with
  | None => Ok (data_name (path (conf c)) 0)
  | Some lst =>
      match name_parts lst with
      | [_; num] =>
          match ParseInt10 64 num with
          | Some x => Ok (data_name (path (conf c)) (int64 (x + 1)))
          | None => Err (CacheError OpRotate ErrInvalidDataFileNameSuffix)
          end
      | _ => Err (CacheError OpRotate ErrInvalidDataFileName)
      end
  end.

(** [os.Rename] of the write file; when it fails the end marker is cut off again.  The
    result is [rotateErr]. *)
Definition rotate_rename (cur newfile : string) (before : Z) : M (option error) :=
  stry (oio (os_Rename cur newfile)) (fun r =>
    match r with
    | Ok _ => sret None
    | Err e =>
        let rerr := CacheError OpRotate e in
        stry (oio (os_Stat cur)) (fun r2 =>
          match r2 with
          | Ok (_, false) =>
              stry (oio (os_Truncate cur before)) (fun r3 =>
                match r3 with
                | Ok _ => sret (Some rerr)
                | Err _ => sret (Some (CacheError OpRotate rerr))
                end)
          | _ => sret (Some rerr)
          end)
    end).

(** A renamed file joins the read list; its size counts unless it is empty. *)
Definition rotate_account (newfile : string) : M unit :=
  stry (oio (os_Stat newfile)) (fun r =>
    match r with
    | Ok (sz, _) => swhen (dataHeaderLen <? sz) (cmod (fun c => set_size (size c + sz) c))
    | Err _ => sret tt
    end) ;;;
  cmod (fun c => set_dataFiles (sort_strings (dataFiles c ++ [newfile])) c).

Definition rotate : M unit :=
  swrap (CacheError OpRotate) ensureWriteFile ;;;
  c <~ cget ;;
  wfd_Append OpWrite (put_u32 EOFHint) ;;;
  newfile <~ (match next_file_name c with Ok n => sret n | Err e => sfail e end) ;;
  swrap (CacheError OpClose) wfd_Close ;;;
  cmod (set_wfd WNil) ;;;
  rerr <~ rotate_rename (curWriteFile c) newfile (curBatchSize c) ;;
  (match rerr with None => rotate_account newfile | Some _ => sret tt end) ;;;
  stry openWriteFile (fun r =>
    match r, rerr with
    | Err _, Some re => sfail (CacheError OpRotate re)
    | Err e, None => sfail (CacheError OpRotate e)
    | Ok _, Some re => sfail re
    | Ok _, None => sret tt
    end).

Definition Rotate : M unit :=
  c <~ cget ;;
  if closed c then sfail (CacheError OpRotate ErrClosed) else rotate.

(** After a file is consumed, remove it. *)
Definition removeCurrentReadingFile : M unit :=
  c <~ cget ;;
  (match rfd c with
   | Some _ => swrap (CacheError OpClose) rfd_Close ;;; cmod (set_rfd None)
   | None => sret tt
   end) ;;;
  stry (oio (os_Stat (curReadfile c))) (fun r =>
    match r with
    | Ok (sz, _) =>
        swhen (dataHeaderLen <? sz) (cmod (fun c => set_size (size c - sz) c)) ;;;
        swrap (CacheError OpRemove) (oio (os_Remove (curReadfile c)))
    | Err _ => sret tt
    end) ;;;
  cmod (set_curReadfile "") ;;;
  cmod (fun c => match dataFiles c with
                 | _ :: rest => set_dataFiles rest c
                 | [] => c
                 end).

(** ** drop.go *)

Definition dropBatch : M unit :=
  c <~ cget ;;
  match dataFiles c with
  | [] => sret tt
  | fname :: rest =>
      (match rfd c with
       | Some _ =>
           if (curReadfile c =? fname)%string
           then swrap (CacheError OpClose) rfd_Close ;;; cmod (set_rfd None)
           else sret tt
       | None => sret tt
       end) ;;;
      stry (oio (os_Stat fname)) (fun r =>
        match r with
        | Ok (sz, _) =>
            swrap (CacheError OpRemove) (oio (os_Remove fname)) ;;;
            cmod (fun c => set_dataFiles rest (set_size (size c - sz) c))
        | Err e => sfail (CacheError OpStat e)
        end)
  end.

(** ** switch.go: the read file *)

Definition doSwitchNextFile : M unit :=
  c <~ cget ;;
  swhen (negb (noPos (conf c))) (swrap (CacheError OpSwitch) (posm pos_reset)) ;;;
  match dataFiles c with
  | [] => sret tt
  | f :: _ =>
      cmod (set_curReadfile f) ;;;
      content <~ swrap (CacheError OpOpen) (oio (os_OpenRead f)) ;;
      cmod (set_rfd (Some (mkRFd f content 0 true))) ;;;
      swrap (CacheError OpStat) (oio sys) ;;;
      cmod (set_curReadSize (zlen content)) ;;;
      swhen (negb (noPos (conf c)))
        (posm (pmod (fun p => set_Seek 0 (set_Name (Some (to_bytes f)) p))) ;;;
         swrap (CacheError OpSwitch) (posm doDumpFile))
  end.

(** ** get.go *)

Definition switchNextFile : M unit :=
  c <~ cget ;;
  swhen (negb (curReadfile c =? "")%string)
    (swrap (CacheError OpSwitch) removeCurrentReadingFile) ;;;
  doSwitchNextFile.

Definition skipBadFile : M unit := swrap (CacheError OpGet) switchNextFile.

(** What a Get did: the data handed to the callback, if any, and its result. *)
Record GetOut := mkGetOut {
  delivered : option bytes;
  goterr : option error
}.

(** The wake-up of a sleeping write file; [free] is the result of [wlock.TryLock()]. *)
Definition wakeup_rotate (free : bool) : M unit :=
  if free then
    c <~ cget ;;
    t <~ onow ;;
    if (wakeup (conf c) <? t - wfdLastWrite c) && (0 <? curBatchSize c)
    then swrap (CacheError OpGet) rotate
    else sret tt
  else sret tt.

(** The record of [nbytes] bytes has its header read: read its data into the buffer,
    call [fn], move the position.  [buflen] is [len(readbuf)]. *)
Definition get_record (nbytes buflen : Z) (fn : option (bytes -> option error)) : M GetOut :=
  if buflen <? nbytes then
    swrap (CacheError OpSeek) (rfd_SeekCurrent nbytes) ;;;
    sfail (CacheError OpGet ErrTooSmallReadBuf)
  else
    data <~ swrap (CacheError OpRead) (rfd_Read nbytes) ;;
    if negb (zlen data =? nbytes) then sfail (CacheError OpGet ErrUnexpectedReadSize)
    else
      c <~ cget ;;
      let ferr := match fn with Some f => f data | None => None end in
      let dlv := match fn with Some _ => Some data | None => None end in
      match ferr with
      | Some e =>
          if negb (noFallbackOnError (conf c)) then
            swrap (CacheError OpSeek) (rfd_SeekCurrent (- (dataHeaderLen + nbytes))) ;;;
            sret (mkGetOut dlv (Some e))
          else
            swhen (negb (noPos (conf c)) && (0 <? nbytes))
              (posm (pmod (fun p => set_Seek (Seek p + (dataHeaderLen + nbytes)) p)) ;;;
               _ <~ swrap (CacheError OpPos) (posm dumpFile) ;; sret tt) ;;;
            sret (mkGetOut dlv (Some e))
      | None =>
          swhen (negb (noPos (conf c)) && (0 <? nbytes))
            (posm (pmod (fun p => set_Seek (Seek p + (dataHeaderLen + nbytes)) p)) ;;;
             _ <~ swrap (CacheError OpPos) (posm dumpFile) ;; sret tt) ;;;
          sret (mkGetOut dlv None)
      end.

(** The [retry:] loop.  [None] means that the fuel ran out. *)
Fixpoint get_loop (fuel : nat) (buflen : Z -> Z) (fn : option (bytes -> option error))
    : M (option GetOut) :=
  match fuel with
  | O => sret None
  | S fuel' =>
      c <~ cget ;;
      match rfd c with
      | None => sfail ErrNoData
      | Some _ =>
          stry (rfd_Read dataHeaderLen) (fun r =>
            match r with
            | Ok hdr =>
                if zlen hdr =? dataHeaderLen then
                  cmod (set_batchHeader hdr) ;;;
                  let nbytes := get_u32 hdr in
                  if nbytes =? EOFHint then
                    swrap (CacheError OpGet) switchNextFile ;;; get_loop fuel' buflen fn
                  else
                    out <~ get_record nbytes (buflen nbytes) fn ;; sret (Some out)
                else skipBadFile ;;; get_loop fuel' buflen fn
            | Err _ => skipBadFile ;;; get_loop fuel' buflen fn
            end)
      end
  end.

(** [buf] and [bfn] of [doGet], as the length of the buffer they give. *)
Inductive GetBuf : Type :=
| BufNil                                   (* buf == nil && bfn == nil: make([]byte, nbytes) *)
| BufLen (n : Z)                           (* buf != nil *)
| BufFn (f : unit -> Z).                   (* buf == nil && bfn != nil *)

Definition readbuf_len (b : GetBuf) (nbytes : Z) : Z :=
  match b with BufNil => nbytes | BufLen n => n | BufFn f => f tt end.

Definition doGet (free : bool) (buf : GetBuf) (fn : option (bytes -> option error))
    : M (option GetOut) :=
  c <~ cget ;;
  if closed c then sfail (CacheError OpGet ErrClosed)
  else
    wakeup_rotate free ;;;
    c1 <~ cget ;;
    (match rfd c1 with
     | None => swrap (CacheError OpGet) switchNextFile
     | Some _ => sret tt
     end) ;;;
    c2 <~ cget ;;
    get_loop (S (S (length (dataFiles c2)))) (readbuf_len buf) fn.

Definition Get (fn : option (bytes -> option error)) : M (option GetOut) := doGet true BufNil fn.

Definition BufGet (n : Z) (fn : option (bytes -> option error)) : M (option GetOut) :=
  doGet true (BufLen n) fn.

Definition BufCallbackGet (bfn : unit -> Z) (fn : option (bytes -> option error))
    : M (option GetOut) := doGet true (BufFn bfn) fn.

(** ** put.go *)

Definition IsFull (c : DiskCache) (newData : bytes) : bool :=
  (0 <? capacity (conf c)) && (capacity (conf c) <? size c + zlen newData).

Definition Put (data : bytes) : M unit :=
  c <~ cget ;;
  if closed c then sfail (CacheError OpPut ErrClosed)
  else
    (if IsFull c data then
       if noDrop (conf c) then sfail (CacheError OpPut ErrCacheFull)
       else if filoDrop (conf c) then sfail (CacheError OpPut ErrCacheFull)
       else swrap (CacheError OpPut) dropBatch
     else sret tt) ;;;
    if (0 <? maxDataSize (conf c)) && (maxDataSize (conf c) <? int32 (zlen data))
    then sfail (CacheError OpPut ErrTooLargeData)
    else
      swrap (CacheError OpPut) ensureWriteFile ;;;
      wfd_Append OpWrite (put_u32 (uint32 (zlen data))) ;;;
      wfd_Append OpWrite data ;;;
      swhen (negb (noSync (conf c))) (swrap (CacheError OpSync) wfd_sys) ;;;
      cmod (fun c => set_curBatchSize (curBatchSize c + (zlen data + dataHeaderLen)) c) ;;;
      t <~ onow ;;
      cmod (set_wfdLastWrite t) ;;;
      c1 <~ cget ;;
      swhen (batchSize (conf c1) <=? curBatchSize c1) (swrap (CacheError OpPut) rotate).

(** An [io.Reader]: the bytes it yields and the error after them ([None] is [io.EOF]). *)
Record Reader := mkReader {
  rdata : bytes;
  rend : option error
}.

(** [io.CopyN(c.wfd, r, n)]: bytes copied and error; one write carries them. *)
Definition CopyN (r : Reader) (n : Z) : M (Z * option error) :=
  let chunk := ztake n (rdata r) in
  w <~ wfd_Write chunk ;;
  match snd w with
  | Some e => sret (fst w, Some e)
  | None =>
      if zlen chunk <? n
      then sret (zlen chunk, Some (default ErrEOF (rend r)))
      else sret (zlen chunk, None)
  end.

Definition StreamPut (r : Reader) (sz : Z) : M unit :=
  c <~ cget ;;
  if closed c then sfail (CacheError OpStreamPut ErrClosed)
  else if sz <=? 0 then sfail (CacheError OpStreamPut ErrInvalidStreamSize)
  else if (0 <? capacity (conf c)) && (capacity (conf c) <? size c + sz)
  then sfail (CacheError OpStreamPut ErrCacheFull)
  else if (0 <? maxDataSize (conf c)) && (maxDataSize (conf c) <? sz)
  then sfail (CacheError OpStreamPut ErrTooLargeData)
  else
    swrap (CacheError OpStreamPut) ensureWriteFile ;;;
    swrap (CacheError OpSeek) wfd_sys ;;;
    cmod (set_batchHeader (put_u32 (uint32 sz))) ;;;
    c1 <~ cget ;;
    wfd_Append OpWrite (batchHeader c1) ;;;
    tr <~ CopyN r sz ;;
    let '(total, err) := tr in
    (* the deferred seek back: the descriptor appends, so only its error shows *)
    let fallback : M unit :=
      if (0 <? total) && (match err with Some _ => true | None => false end)
      then stry wfd_sys (fun s => match s with
             | Ok _ => sret tt
             | Err e => cmod (set_LastErr (Some (CacheError OpSeek e))) end)
      else sret tt in
    if match err with Some e => negb (errors_Is is_eof e) | None => false end
    then fallback ;;; sfail (CacheError OpStreamPut (default ErrEOF err))
    else
      cmod (fun c => set_curBatchSize (curBatchSize c + (total + dataHeaderLen)) c) ;;;
      c2 <~ cget ;;
      stry (swhen (batchSize (conf c2) <=? curBatchSize c2)
              (swrap (CacheError OpStreamPut) rotate)) (fun res =>
        fallback ;;; match res with Ok _ => sret tt | Err e => sfail e end).
