(* ===== verification/DiskOpen.v ===== *)
(** * Opening and closing a disk cache ([open.go], [envs.go], [options.go], [flock*.go],
      [switch.go:loadUnfinishedFile], [meta.go]) *)

From S2P Require Import Prelude GoNum DiskFS DiskCache.

(** ** options.go *)

Definition CacheOption : Type := DiskCache -> DiskCache.

Definition on_conf (f : Conf -> Conf) (c : DiskCache) : DiskCache := set_conf (f (conf c)) c.

Definition WithNoFallbackOnError (on : bool) : CacheOption := on_conf (set_noFallbackOnError on).
Definition WithFILODrop (on : bool) : CacheOption := on_conf (set_filoDrop on).
Definition WithNoDrop (on : bool) : CacheOption := on_conf (set_noDrop on).
Definition WithNoLock (on : bool) : CacheOption := on_conf (set_noLock on).
Definition WithNoPos (on : bool) : CacheOption := on_conf (set_noPos on).

Definition WithPosUpdate (n du : Z) : CacheOption := fun c =>
  let p1 := if 0 <=? n then set_dumpCount n (pos c) else pos c in
  set_pos (if 0 <=? du then set_dumpInterval du p1 else p1) c.

Definition WithWakeup (w : Z) : CacheOption := fun c =>
  if 0 <? w then on_conf (set_wakeup w) c else c.
Definition WithBatchSize (sz : Z) : CacheOption := fun c =>
  if 0 <? sz then on_conf (set_batchSize sz) c else c.
Definition WithMaxDataSize (sz : Z) : CacheOption := fun c =>
  if 0 <? sz then on_conf (set_maxDataSize sz) c else c.
Definition WithCapacity (sz : Z) : CacheOption := fun c =>
  if 0 <? sz then on_conf (set_capacity sz) c else c.
Definition WithExtraCapacity (sz : Z) : CacheOption := fun c =>
  if 0 <? capacity (conf c) + sz
  then on_conf (fun cf => set_capacity (capacity cf + sz) cf) c else c.
Definition WithNoSync (on : bool) : CacheOption := on_conf (set_noSync on).
Definition WithDirPermission (perms : Z) : CacheOption := on_conf (set_dirPerms perms).
Definition WithFilePermission (perms : Z) : CacheOption := on_conf (set_filePerms perms).

(** [WithPath]; the argument is already [filepath.Clean]ed. *)
Definition WithPath (x : string) : CacheOption := on_conf (set_path x).

(** ** envs.go; [ParseDuration] is [time.ParseDuration]. *)

Definition env_val (o : OS) (k : string) : option string :=
  match LookupEnv k o with
  | Some v => if (v =? "")%string then None else Some v
  | None => None
  end.

Definition env_int (o : OS) (k : string) (bits : Z) (ok : Z -> bool)
    (f : Z -> DiskCache -> DiskCache) (c : DiskCache) : DiskCache :=
  match env_val o k with
  | Some v => match ParseInt10 bits v with
              | Some i => if ok i then f i c else c
              | None => c
              end
  | None => c
  end.

Definition env_flag (o : OS) (k : string) (f : DiskCache -> DiskCache) (c : DiskCache) : DiskCache :=
  match env_val o k with Some _ => f c | None => c end.

Definition syncEnv (ParseDuration : string -> option Z) (o : OS) (c : DiskCache) : DiskCache :=
  let c := env_int o "ENV_DISKCACHE_BATCH_SIZE" 64 (fun _ => true)
             (fun i => on_conf (set_batchSize i)) c in
  let c := env_int o "ENV_DISKCACHE_MAX_DATA_SIZE" 32 (fun _ => true)
             (fun i => on_conf (set_maxDataSize (int32 i))) c in
  let c := env_int o "ENV_DISKCACHE_CAPACITY" 64 (fun _ => true)
             (fun i => on_conf (set_capacity i)) c in
  let c := env_flag o "ENV_DISKCACHE_NO_SYNC" (on_conf (set_noSync true)) c in
  let c := env_flag o "ENV_DISKCACHE_NO_POS" (on_conf (set_noPos true)) c in
  let c := match env_val o "ENV_DISKCACHE_POS_DUMP_INTERVAL" with
           | Some v => match ParseDuration v with
                       | Some du => if 0 <? du then set_pos (set_dumpInterval du (pos c)) c else c
                       | None => c
                       end
           | None => c
           end in
  let c := env_int o "ENV_DISKCACHE_POS_DUMP_AT" 64 (fun n => 0 <? n)
             (fun n c => set_pos (set_dumpCount n (pos c)) c) c in
  let c := env_flag o "ENV_DISKCACHE_NO_LOCK" (on_conf (set_noLock true)) c in
  env_flag o "ENV_DISKCACHE_NO_FALLBACK_ON_ERROR" (on_conf (set_noFallbackOnError true)) c.

(** ** flock.go, flock_unix.go *)

Definition newFlock (dir : string) : string := JoinPath dir ".lock".

Definition tryLock (file : string) : io unit :=
  os_OpenAppend file ;;;
  stry (sys_FlockEx file) (fun r =>
    match r with
    | Ok _ => sret tt
    | Err e => stry sys (fun _ => sfail e)      (* the lock file is closed again *)
    end).

(** Unlock, then close; closing the descriptor gives the lock up in any case. *)
Definition unlock (file : string) : io unit :=
  stry (sys_FlockUn file) (fun r1 =>
    smod (fun o => with_flocks (flocks o ∖ {[file]}) o) ;;;
    stry sys (fun r2 =>
      match r1, r2 with
      | Ok _, Ok _ => sret tt
      | Err e, Ok _ => sfail (Join [e])
      | Ok _, Err e => sfail (Join [e])
      | Err e1, Err e2 => sfail (Join [e1; e2])
      end)).

(** ** switch.go: resume at the position remembered in [.pos] *)

Definition loadUnfinishedFile : M unit :=
  c <~ cget ;;
  stry (oio (os_Stat (pfname (pos c)))) (fun r =>
    match r with
    | Err _ => sret tt
    | Ok _ =>
        rp <~ swrap (CacheError OpPos) (posm (posFromFile (pfname (pos c)))) ;;
        match rp with
        | None => sret tt
        | Some (seek, name) =>
            let fname := of_bytes name in
            stry (oio (os_Stat fname)) (fun r =>
              match r with
              | Err _ => swrap (CacheError OpPos) (posm pos_reset)
              | Ok _ =>
                  content <~ swrap (CacheError OpOpen) (oio (os_OpenRead fname)) ;;
                  swrap (CacheError OpSeek)
                    (oio sys ;;; if seek <? 0 then sfail ErrInvalid else sret tt) ;;;
                  cmod (fun c =>
                    set_pos (set_Seek seek (set_Name (Some name) (pos c)))
                      (set_curReadfile fname
                        (set_rfd (Some (mkRFd fname content seek true)) c)))
              end)
        end
    end).

(** ** open.go *)

(** [filepath.Walk]: the regular files below [dir] and their sizes. *)
Definition walk_files (dir : string) (o : OS) : list (string * Z) :=
  omap (fun pn => match pn with
                  | (p, File b) => if String.prefix (dir +:+ "/") p then Some (p, zlen b) else None
                  | (_, Dir) => None
                  end) (map_to_list (files o)).

Definition is_data_entry (p : string) : bool :=
  negb ((Base p =? ".lock") || (Base p =? ".pos") || (Base p =? "data"))%string.

Definition scan_entry (c : DiskCache) (e : string * Z) : DiskCache :=
  let '(p, sz) := e in
  if is_data_entry p then set_dataFiles (dataFiles c ++ [p]) (set_size (size c + sz) c) else c.

Definition doOpen (ParseDuration : string -> option Z) : M unit :=
  cmod (fun c => if dirPerms (conf c) =? 0 then on_conf (set_dirPerms 493) c else c) ;;;
  cmod (fun c => if filePerms (conf c) =? 0 then on_conf (set_filePerms 416) c else c) ;;;
  cmod (fun c => if batchSize (conf c) =? 0
                 then on_conf (set_batchSize (20 * 1024 * 1024)) c else c) ;;;
  cmod (fun c => if batchSize (conf c) <? maxDataSize (conf c)
                 then on_conf (set_maxDataSize (int32 (batchSize (conf c) ÷ 2))) c else c) ;;;
  c <~ cget ;;
  let dir := path (conf c) in
  swrap (CacheError OpCreate) (oio (os_MkdirAll dir)) ;;;
  swhen (negb (noLock (conf c)))
    (swrap (CacheError OpLock) (oio (tryLock (newFlock dir))) ;;;
     cmod (set_flock (Some (newFlock dir)))) ;;;
  swhen (negb (noPos (conf c)))
    (cmod (fun c => set_pos (set_pfname (JoinPath dir ".pos") (pos c)) c)) ;;;
  cmod (set_curWriteFile (JoinPath dir "data")) ;;;
  (fun '(c, o) => (Ok tt, (syncEnv ParseDuration o c, o))) ;;;
  swrap (CacheError OpOpen) openWriteFile ;;;
  swrap (CacheError OpOpen) (oio sys) ;;;
  (fun '(c, o) => (Ok tt, (fold_left scan_entry (walk_files dir o) c, o))) ;;;
  cmod (fun c => set_dataFiles (sort_strings (dataFiles c)) c) ;;;
  c1 <~ cget ;;
  swhen (negb (noPos (conf c1))) (swrap (CacheError OpOpen) loadUnfinishedFile).

(** [Open]: apply the options to a fresh instance; an error yields no cache. *)
Definition Open (ParseDuration : string -> option Z) (opts : list CacheOption) (o : OS)
    : Res error DiskCache * OS :=
  let c0 := fold_left (fun c f => f c) opts defaultInstance in
  match doOpen ParseDuration (c0, o) with
  | (Ok _, (c, o')) => (Ok c, o')
  | (Err e, (_, o')) => (Err (CacheError OpOpen e), o')
  end.

(** Run one clean-up action of [Close] and collect its error. *)
Definition collect (m : M unit) (wrap : error -> error) : M (list error) :=
  stry m (fun r => match r with Ok _ => sret [] | Err e => sret [wrap e] end).

Definition Close : M (option error) :=
  c <~ cget ;;
  if closed c then sret (closeErr c)
  else
    cmod (set_closed true) ;;;
    e1 <~ (match rfd c with
           | Some _ => collect (stry rfd_Close (fun r => cmod (set_rfd None) ;;;
                         match r with Ok _ => sret tt | Err e => sfail e end)) (CacheError OpClose)
           | None => sret []
           end) ;;
    e2 <~ (match wfd c with
           | WNil => sret []
           | _ => collect (stry wfd_Close (fun r => cmod (set_wfd WNil) ;;;
                    match r with Ok _ => sret tt | Err e => sfail e end)) (CacheError OpClose)
           end) ;;
    e3 <~ collect (posm pos_close) (CacheError OpPos) ;;
    e4 <~ (match flock c with
           | Some f =>
               if negb (noLock (conf c))
               then cmod (set_flock None) ;;; collect (oio (unlock f)) (CacheError OpUnlock)
               else sret []
           | None => sret []
           end) ;;
    let errs := e1 ++ e2 ++ e3 ++ e4 in
    cmod (set_closeErr (match errs with [] => None | _ => Some (Join errs) end)) ;;;
    c' <~ cget ;;
    sret (closeErr c').

(** ** meta.go *)

Definition Size (c : DiskCache) : Z := match dataFiles c with [] => 0 | _ => size c end.
Definition RawSize (c : DiskCache) : Z := size c.
Definition Capacity (c : DiskCache) : Z := capacity (conf c).
Definition MaxDataSize (c : DiskCache) : Z := maxDataSize (conf c).
Definition MaxBatchSize (c : DiskCache) : Z := batchSize (conf c).
Definition Path (c : DiskCache) : string := path (conf c).
