(* ===== verification/DiskSpec.v ===== *)
(** * Names of data files: numbering, parsing and order *)

From S2P Require Import Prelude GoNum DiskFS DiskCache DiskOpen.
From Stdlib Require Import Ascii.

(** The characters of a string satisfy [P]. *)
Fixpoint all_chars (P : ascii -> bool) (s : string) : bool :=
  match s with
  | EmptyString => true
  | String c r => P c && all_chars P r
  end.

Definition not_char (c d : ascii) : bool := negb (Ascii.eqb c d).

Lemma split_on_none c s : all_chars (not_char c) s = true -> split_on c s = [s].
Proof.
  induction s as [|d r IH]; simpl; [done|]. intros H. bool_to_prop.
  unfold not_char in *. bool_to_prop. rewrite H, IH by done. done.
Qed.

Lemma split_on_nonempty c s : exists w ws, split_on c s = w :: ws.
Proof.
  destruct s as [|d r]; simpl; [eauto|]. destruct (Ascii.eqb c d); [eauto|].
  destruct (split_on c r); eauto.
Qed.

(** The last piece of [a ++ c ++ b] is that of [b]. *)
Lemma last_split_on c a b :
  List.last (split_on c (a +:+ String c b)) "" = List.last (split_on c b) "".
Proof.
  induction a as [|d a IH]; rewrite ?sapp_nil, ?sapp_cons; cbn [split_on].
  - rewrite Ascii.eqb_refl. destruct (split_on_nonempty c b) as (w & ws & ->). done.
  - destruct (split_on_nonempty c (a +:+ String c b)) as (w & ws & E).
    destruct (Ascii.eqb c d).
    + rewrite E in *. done.
    + rewrite E in *. destruct ws as [|w' ws]; [|done].
      exfalso. clear -E.
      assert (length (split_on c (a +:+ String c b)) <> 1%nat) as N.
      { clear. induction a as [|d a IH]; rewrite ?sapp_nil, ?sapp_cons; cbn [split_on].
        - rewrite Ascii.eqb_refl. destruct (split_on_nonempty c b) as (w & ws & ->). done.
        - destruct (split_on_nonempty c (a +:+ String c b)) as (w & ws & E).
          rewrite E in *. destruct (Ascii.eqb c d); simpl in *; lia. }
      by rewrite E in N.
Qed.

Lemma all_chars_digits P w : forall n s,
  (forall d, 0 <= d <= 9 -> P (digit_char d) = true) ->
  all_chars P (digits_acc w n s) = all_chars P s.
Proof.
  induction w as [|w IH]; intros n s H; [done|].
  cbn [digits_acc]. rewrite IH by done. cbn [all_chars].
  rewrite H by (pose proof (Z.mod_pos_bound n 10); lia). done.
Qed.

Lemma digit_char_not c d :
  c = "/"%char \/ c = "."%char -> 0 <= d <= 9 -> not_char c (digit_char d) = true.
Proof.
  intros Hc H. assert (d = 0 \/ d = 1 \/ d = 2 \/ d = 3 \/ d = 4 \/ d = 5 \/ d = 6 \/ d = 7 \/ d = 8 \/ d = 9)
    as C by lia.
  destruct Hc as [-> | ->]; destruct_or! C; subst; reflexivity.
Qed.

Lemma all_chars_fmt c n : c = "/"%char \/ c = "."%char -> seq_ok n ->
  all_chars (not_char c) (fmt_032d n) = true.
Proof.
  intros Hc Hn. rewrite fmt_032d_nonneg by done.
  rewrite all_chars_digits; [done|]. intros d Hd. by apply digit_char_not.
Qed.

Lemma Base_JoinPath dir n : all_chars (not_char "/") n = true -> Base (JoinPath dir n) = n.
Proof.
  intros H. unfold Base, JoinPath.
  destruct (dir =? "")%string; [by rewrite split_on_none|].
  destruct (dir =? "/")%string.
  - change ("/" +:+ n) with ("" +:+ String "/" n). rewrite last_split_on. by rewrite split_on_none.
  - change ("/" +:+ n) with (String "/" n). rewrite last_split_on. by rewrite split_on_none.
Qed.

(** The number in a rotated file's name is found again. *)
Lemma name_parts_data_name dir n : seq_ok n -> name_parts (data_name dir n) = ["data"; fmt_032d n].
Proof.
  intros Hn. unfold name_parts, data_name. rewrite Base_JoinPath.
  - change ("data." +:+ fmt_032d n) with
      (String "d" (String "a" (String "t" (String "a" (String "." (fmt_032d n)))))).
    cbn [split_on]. rewrite split_on_none by (apply all_chars_fmt; auto). reflexivity.
  - change ("data." +:+ fmt_032d n) with
      (String "d" (String "a" (String "t" (String "a" (String "." (fmt_032d n)))))).
    cbn [all_chars]. rewrite all_chars_fmt by auto. reflexivity.
Qed.

Lemma Base_data_name dir n : seq_ok n -> Base (data_name dir n) = "data." +:+ fmt_032d n.
Proof.
  intros Hn. apply Base_JoinPath.
  change ("data." +:+ fmt_032d n) with
    (String "d" (String "a" (String "t" (String "a" (String "." (fmt_032d n)))))).
  cbn [all_chars]. rewrite all_chars_fmt by auto. reflexivity.
Qed.

Lemma compare_append p a b : String.compare (p +:+ a) (p +:+ b) = String.compare a b.
Proof.
  induction p as [|c p IH]; [done|]. rewrite !sapp_cons; cbn [String.compare].
  replace (Ascii.compare c c) with Eq; [done|].
  symmetry. unfold Ascii.compare. apply N.compare_refl.
Qed.

Lemma compare_data_name dir n m : seq_ok n -> seq_ok m ->
  String.compare (data_name dir n) (data_name dir m) = (n ?= m).
Proof.
  intros Hn Hm. unfold data_name, JoinPath.
  destruct (dir =? "")%string; [|destruct (dir =? "/")%string];
    rewrite ?compare_append; by apply compare_fmt_032d.
Qed.

(** Zero padding: string order on names is numeric order. *)
Lemma data_name_le dir n m : seq_ok n -> seq_ok m ->
  String.le (data_name dir n) (data_name dir m) <-> n <= m.
Proof.
  intros Hn Hm. unfold String.le, String.leb. rewrite compare_data_name by done.
  destruct (Z.compare_spec n m); split; simpl; (lia || done || (intros; exfalso; done) || intros _; lia).
Qed.

Lemma data_name_inj dir n m : seq_ok n -> seq_ok m ->
  data_name dir n = data_name dir m -> n = m.
Proof.
  intros Hn Hm E. pose proof (compare_data_name dir n m Hn Hm) as C.
  rewrite E in C. rewrite (compare_data_name dir m m Hm Hm) in C.
  rewrite Z.compare_refl in C. symmetry in C. by apply Z.compare_eq_iff in C.
Qed.

Lemma data_name_nonempty dir n : data_name dir n <> "".
Proof.
  unfold data_name, JoinPath. destruct (dir =? "")%string; [done|].
  destruct (dir =? "/")%string; [done|]. by destruct dir.
Qed.

(** Data files, the write file and the position file have different names. *)
Lemma data_name_ne dir n x : seq_ok n -> all_chars (not_char "/") x = true ->
  x = "data" \/ x = ".pos" \/ x = ".lock" -> data_name dir n <> JoinPath dir x.
Proof.
  intros Hn Hx Cx E. apply (f_equal Base) in E.
  rewrite Base_data_name, Base_JoinPath in E by done.
  destruct Cx as [-> | [-> | ->]]; discriminate.
Qed.

Lemma JoinPath_ne dir x y :
  all_chars (not_char "/") x = true -> all_chars (not_char "/") y = true ->
  x <> y -> JoinPath dir x <> JoinPath dir y.
Proof. intros Hx Hy N E. apply (f_equal Base) in E. by rewrite !Base_JoinPath in E. Qed.

(** * The disk cache as a FIFO queue: encoding, representation, rotation

    The abstract state of a cache is a pair of lists of records: [ready], those in
    rotated files that [Get] can reach, and [pending], those still in the write
    file.  [Rep] relates the concrete state to the records of each file; the theorems
    of this file and of [DiskQueue] show that every operation refines the operation
    on the two lists. *)

(** ** Record encoding *)

Definition enc_rec (r : bytes) : bytes := put_u32 (zlen r) ++ r.

Fixpoint enc (rs : list bytes) : bytes :=
  match rs with
  | [] => []
  | r :: rs' => enc_rec r ++ enc rs'
  end.

Definition eof_mark : bytes := put_u32 EOFHint.

(** A rotated file: its records and the end marker. *)
Definition enc_file (rs : list bytes) : bytes := enc rs ++ eof_mark.

(** A length that fits the header and is not the end marker. *)
Definition rec_ok (r : bytes) : Prop := zlen r < 2 ^ 32 /\ zlen r <> EOFHint.

Arguments enc_rec : simpl never.
Arguments eof_mark : simpl never.
Arguments enc_file : simpl never.
Arguments data_name : simpl never.

Lemma enc_app a b : enc (a ++ b) = enc a ++ enc b.
Proof. induction a as [|r a IH]; [done|]. simpl. by rewrite IH, app_assoc. Qed.

Lemma enc_snoc a r : enc (a ++ [r]) = enc a ++ enc_rec r.
Proof. rewrite enc_app. simpl. by rewrite app_nil_r. Qed.

Lemma zlen_enc_rec r : zlen (enc_rec r) = 4 + zlen r.
Proof. unfold enc_rec. by rewrite zlen_app, zlen_put_u32. Qed.

Lemma zlen_enc_nonneg rs : 0 <= zlen (enc rs).
Proof. apply zlen_nonneg. Qed.

Lemma zlen_enc_cons r rs : zlen (enc (r :: rs)) = 4 + zlen r + zlen (enc rs).
Proof. cbn [enc]. by rewrite zlen_app, zlen_enc_rec. Qed.

Lemma zlen_enc_pos rs : rs <> [] -> 0 < zlen (enc rs).
Proof.
  destruct rs as [|r rs]; [done|]. intros _. rewrite zlen_enc_cons.
  pose proof (zlen_nonneg r). pose proof (zlen_enc_nonneg rs). lia.
Qed.

Lemma zlen_enc_file rs : zlen (enc_file rs) = zlen (enc rs) + 4.
Proof. unfold enc_file, eof_mark. by rewrite zlen_app, zlen_put_u32. Qed.

(** What a descriptor at the end of the records [dn] still sees. *)
Lemma drop_enc_file dn rest :
  drop (Z.to_nat (zlen (enc dn))) (enc_file (dn ++ rest)) = enc_file rest.
Proof.
  unfold enc_file. rewrite enc_app, <- app_assoc. apply drop_exact. by rewrite zlen_to_nat.
Qed.

(** ** Representation *)

(** The file being read: its number, the records consumed and those left. *)
Abbreviation cursor := (option (Z * list bytes * list bytes)).

Definition cur_file (cur : cursor) : list (Z * list bytes) :=
  match cur with
  | Some (n, dn, rest) => [(n, dn ++ rest)]
  | None => []
  end.

Definition cur_rest (cur : cursor) : list bytes :=
  match cur with Some (_, _, rest) => rest | None => [] end.

(** File numbers in use: int64, room for one more. *)
Definition num_ok (n : Z) : Prop := 0 <= n < 2 ^ 63 - 1.

Lemma num_seq_ok n : num_ok n -> seq_ok n.
Proof. unfold num_ok, seq_ok. lia. Qed.

Definition dir_of (c : DiskCache) : string := path (conf c).

Definition file_rep (c : DiskCache) (o : OS) (f : Z * list bytes) : Prop :=
  num_ok f.1 /\ Forall rec_ok f.2 /\
  files o !! data_name (dir_of c) f.1 = Some (File (enc_file f.2)).

Definition cur_rep (c : DiskCache) (cur : cursor) : Prop :=
  match cur with
  | Some (n, dn, rest) =>
      rfd c = Some (mkRFd (data_name (dir_of c) n) (enc_file (dn ++ rest)) (zlen (enc dn)) true) /\
      curReadfile c = data_name (dir_of c) n
  | None => rfd c = None /\ curReadfile c = ""
  end.

(** Every data file below the directory is in the read list. *)
Definition tidy (dir : string) (fs : gmap string node) (names : list string) : Prop :=
  forall p b, fs !! p = Some (File b) -> String.prefix (dir +:+ "/") p = true ->
    is_data_entry p = true -> In p names.

(** [cur] is read, the files [fl] follow it, [ws] are the records of the write file. *)
Record Rep (c : DiskCache) (o : OS) (cur : cursor) (fl : list (Z * list bytes))
    (ws : list bytes) : Prop := {
  rep_open : closed c = false;
  rep_nofault : faults o = [];
  rep_wname : curWriteFile c = JoinPath (dir_of c) "data";
  rep_pname : noPos (conf c) = false -> pfname (pos c) = JoinPath (dir_of c) ".pos";
  rep_wfd : wfd c = WOpen;
  rep_wfile : files o !! JoinPath (dir_of c) "data" = Some (File (enc ws));
  rep_ws : Forall rec_ok ws;
  rep_batch : curBatchSize c = zlen (enc ws);
  rep_names : dataFiles c = map (fun f => data_name (dir_of c) f.1) (cur_file cur ++ fl);
  rep_sorted : StronglySorted Z.lt (map fst (cur_file cur ++ fl));
  rep_files : Forall (file_rep c o) (cur_file cur ++ fl);
  rep_nodir : forall n, seq_ok n -> files o !! data_name (dir_of c) n <> Some Dir;
  rep_posdir : files o !! JoinPath (dir_of c) ".pos" <> Some Dir;
  rep_tidy : tidy (dir_of c) (files o) (dataFiles c);
  rep_cur : cur_rep c cur
}.

(** ** The abstract queue *)

Definition ready_of (cur : cursor) (fl : list (Z * list bytes)) : list bytes :=
  cur_rest cur ++ concat (map snd fl).

(** The cache [(c, o)] holds [ready] in rotated files and [pending] in the write file. *)
Definition Queue (s : St) (ready pending : list bytes) : Prop :=
  exists cur fl, Rep s.1 s.2 cur fl pending /\ ready = ready_of cur fl.

(** ** Names, again *)

Lemma wname_ne_data dir n : num_ok n -> data_name dir n <> JoinPath dir "data".
Proof. intros H. apply data_name_ne; auto using num_seq_ok. Qed.

Lemma pname_ne_data dir n : seq_ok n -> data_name dir n <> JoinPath dir ".pos".
Proof. intros H. apply data_name_ne; auto. Qed.

Lemma wname_ne_pname dir : JoinPath dir "data" <> JoinPath dir ".pos".
Proof. by apply JoinPath_ne. Qed.

Lemma JoinPath_data_nonempty dir : JoinPath dir "data" <> "".
Proof.
  unfold JoinPath. destruct (dir =? "")%string; [done|].
  destruct (dir =? "/")%string; [done|]. by destruct dir.
Qed.

#[export] Hint Resolve wname_ne_data pname_ne_data wname_ne_pname num_seq_ok
  data_name_nonempty JoinPath_data_nonempty : go.

(** ** Files the cache does not look at *)

(** Files other than data files may appear and change. *)
Lemma tidy_keep dir fs fs' names :
  tidy dir fs names ->
  (forall q, is_data_entry q = true -> fs' !! q = fs !! q) -> tidy dir fs' names.
Proof. intros T E p b Hp Pp Ep. eapply T; [|done|done]. by rewrite <- E. Qed.

Lemma not_entry dir x : x = "data" \/ x = ".pos" \/ x = ".lock" -> is_data_entry (JoinPath dir x) = false.
Proof. intros [-> | [-> | ->]]; unfold is_data_entry; by rewrite Base_JoinPath. Qed.

Lemma entry_ne dir x q : x = "data" \/ x = ".pos" \/ x = ".lock" ->
  is_data_entry q = true -> q <> JoinPath dir x.
Proof. intros Hx Hq ->. by rewrite not_entry in Hq. Qed.

(** Changing the position and the position file preserves the representation. *)
Lemma Rep_pos c o cur fl ws p fs :
  Rep c o cur fl ws ->
  pfname p = pfname (pos c) ->
  (forall q, q <> JoinPath (dir_of c) ".pos" -> fs !! q = files o !! q) ->
  fs !! JoinPath (dir_of c) ".pos" <> Some Dir ->
  Rep (set_pos p c) (with_files fs o) cur fl ws.
Proof.
  intros R Hp Hfs Hnd. destruct R.
  split; try done.
  - simpl. intros N. rewrite Hp. by apply rep_pname0.
  - simpl. change (dir_of (set_pos p c)) with (dir_of c).
    rewrite Hfs by auto with go. done.
  - eapply Forall_impl; [|exact rep_files0].
    intros f (H1 & H2 & H3). split_and!; [done|done|].
    simpl. change (dir_of (set_pos p c)) with (dir_of c). rewrite Hfs; auto with go.
  - intros n Hn. simpl. change (dir_of (set_pos p c)) with (dir_of c). rewrite Hfs; auto with go.
  - eapply tidy_keep; [exact rep_tidy0|]. intros q Hq. apply Hfs, entry_ne; auto.
Qed.

(** ** The write file *)

(** Unfold the monad; the state is a pair, so the code runs by reduction. *)
Ltac mred :=
  unfold sbind, stry, swrap, swhen, sret, sfail, sget, smod, oio, cget, cmod, onow;
  cbv beta iota zeta.

Lemma sbind_cget {A} (k : DiskCache -> M A) c o : sbind cget k (c, o) = k c (c, o).
Proof. done. Qed.

Lemma sbind_cmod {A} f (k : unit -> M A) c o : sbind (cmod f) k (c, o) = k tt (f c, o).
Proof. done. Qed.

(** Reopening a write file that is not there creates an empty one. *)
Lemma openWriteFile_new c o :
  faults o = [] -> files o !! curWriteFile c = None ->
  openWriteFile (c, o) =
  (Ok tt, (set_wfd WOpen (set_wfdLastWrite (now o) (set_curBatchSize 0 c)),
           with_files (<[curWriteFile c := File []]> (files o)) o)).
Proof.
  intros Hf Hn. unfold openWriteFile. mred.
  rewrite os_Stat_none by done. cbv beta iota.
  rewrite os_OpenAppend_new by done. reflexivity.
Qed.

(** Reopening an existing write file resumes after what it holds. *)
Lemma openWriteFile_old c o b :
  faults o = [] -> files o !! curWriteFile c = Some (File b) ->
  openWriteFile (c, o) =
  (Ok tt, (set_wfd WOpen (set_wfdLastWrite (now o) (set_curBatchSize (zlen b) c)), o)).
Proof.
  intros Hf Hn. unfold openWriteFile. mred.
  erewrite os_Stat_file by done. cbv beta iota.
  erewrite os_OpenAppend_old by done. reflexivity.
Qed.

Lemma ensureWriteFile_open c o :
  closed c = false -> wfd c = WOpen -> ensureWriteFile (c, o) = (Ok tt, (c, o)).
Proof. intros Hc Hw. unfold ensureWriteFile. mred. by rewrite Hc, Hw. Qed.

Lemma wfd_Append_ok c o op b data :
  faults o = [] -> wfd c = WOpen -> files o !! curWriteFile c = Some (File b) ->
  wfd_Append op data (c, o) =
  (Ok tt, (c, with_files (<[curWriteFile c := File (b ++ data)]> (files o)) o)).
Proof.
  intros Hf Hw Hb. unfold wfd_Append, wfd_Write. mred. rewrite Hw.
  by erewrite fd_Write_ok by done.
Qed.

(** ** Rotation *)

(** The number after those in use. *)
Definition next_num (fl : list (Z * list bytes)) : Z :=
  match list.last fl with Some f => f.1 + 1 | None => 0 end.

Lemma next_file_name_ok c o cur fl ws :
  Rep c o cur fl ws ->
  next_file_name c = Ok (data_name (dir_of c) (next_num (cur_file cur ++ fl))).
Proof.
  intros R. unfold next_file_name, next_num. rewrite (rep_names _ _ _ _ _ R).
  change (map ?f ?l) with (f <$> l). rewrite fmap_last.
  destruct (list.last (cur_file cur ++ fl)) as [f|] eqn:E; [|done].
  apply last_Some_elem_of in E.
  destruct (proj1 (Forall_forall _ _) (rep_files _ _ _ _ _ R) f) as [N _];
    [by apply list_elem_of_In|].
  simpl. rewrite name_parts_data_name, ParseInt10_fmt_032d by auto with go.
  do 2 f_equal. apply int64_small. unfold num_ok in N. unfold in_int64. lia.
Qed.

Lemma sorted_names dir (l : list (Z * list bytes)) :
  StronglySorted Z.lt (map fst l) -> Forall (fun f => num_ok f.1) l ->
  StronglySorted String.le (map (fun f => data_name dir f.1) l).
Proof.
  induction l as [|f l IH]; simpl; intros S F; [constructor|].
  apply StronglySorted_inv in S as [S1 S2]. apply Forall_cons_iff in F as [F1 F2].
  constructor; [by apply IH|].
  rewrite Forall_forall in *. intros x (g & <- & Hg)%in_map_iff.
  specialize (S2 g.1 (in_map fst _ _ Hg)). specialize (F2 g Hg).
  apply data_name_le; auto with go. lia.
Qed.

Lemma Rep_nums c o cur fl ws :
  Rep c o cur fl ws -> Forall (fun f => num_ok f.1) (cur_file cur ++ fl).
Proof. intros R. eapply Forall_impl; [|apply (rep_files _ _ _ _ _ R)]. by intros f [H _]. Qed.

(** Every number in use is below the next one. *)
Lemma next_num_above (l : list (Z * list bytes)) :
  StronglySorted Z.lt (map fst l) -> Forall (fun f => num_ok f.1) l ->
  0 <= next_num l /\ Forall (fun f => f.1 < next_num l) l.
Proof.
  intros S F. unfold next_num. destruct (list.last l) as [f|] eqn:E.
  - apply last_Some in E as [l' ->].
    rewrite map_app in S. apply Forall_app in F as [_ F2].
    apply Forall_cons_iff in F2 as [F2 _]. unfold num_ok in F2. split; [lia|].
    apply Forall_app. split; [|constructor; [lia|done]].
    clear F2. induction l' as [|g l' IH]; [constructor|].
    apply StronglySorted_inv in S as [S1 S2]. constructor; [|by apply IH].
    apply Forall_app in S2 as [_ S2]. apply Forall_cons_iff in S2 as [S2 _]. lia.
  - apply last_None in E. subst. split; [lia|constructor].
Qed.

Lemma StronglySorted_snoc (l : list Z) x :
  StronglySorted Z.lt l -> Forall (fun y => y < x) l -> StronglySorted Z.lt (l ++ [x]).
Proof.
  induction l as [|y l IH]; intros S F; simpl; [repeat constructor|].
  apply StronglySorted_inv in S as [S1 S2]. apply Forall_cons_iff in F as [F1 F2].
  constructor; [by apply IH|]. apply Forall_app. split; [done|]. by constructor.
Qed.

(** What a rotation adds to the size: nothing for a file without records. *)
Definition file_weight (rs : list bytes) : Z :=
  match rs with [] => 0 | _ => zlen (enc_file rs) end.

Definition rotated_cache (c : DiskCache) (o : OS) (n : Z) (ws : list bytes) : DiskCache :=
  set_wfd WOpen (set_wfdLastWrite (now o) (set_curBatchSize 0
    (set_dataFiles (dataFiles c ++ [data_name (dir_of c) n])
      (set_size (size c + file_weight ws) c)))).

Definition rotated_os (c : DiskCache) (o : OS) (n : Z) (ws : list bytes) : OS :=
  with_files (<[JoinPath (dir_of c) "data" := File []]>
                (<[data_name (dir_of c) n := File (enc_file ws)]> (files o))) o.

Lemma set_size_same c : set_size (size c) c = c.
Proof. by destruct c. Qed.

(** The size grows by the weight of the new file. *)
Lemma account_weight ws (s : St) :
  swhen (dataHeaderLen <? zlen (enc ws ++ put_u32 EOFHint))
    (cmod (fun c => set_size (size c + zlen (enc ws ++ put_u32 EOFHint)) c)) s
  = (Ok tt, (set_size (size s.1 + file_weight ws) s.1, s.2)).
Proof.
  destruct s as [c o]. unfold swhen, file_weight. destruct ws as [|r ws].
  - simpl. rewrite Z.add_0_r, set_size_same. done.
  - change (enc (r :: ws) ++ put_u32 EOFHint) with (enc_file (r :: ws)).
    assert (4 < zlen (enc_file (r :: ws))).
    { rewrite zlen_enc_file. pose proof (zlen_enc_pos (r :: ws)) as P. specialize (P ltac:(done)). lia. }
    unfold dataHeaderLen. by ztest.
Qed.

(** Rotation moves the records of the write file, with an end marker, to a new file at
    the end of the read list and leaves an empty write file. *)
Lemma rotate_run c o cur fl ws (n := next_num (cur_file cur ++ fl)) :
  Rep c o cur fl ws -> num_ok n ->
  rotate (c, o) = (Ok tt, (rotated_cache c o n ws, rotated_os c o n ws)).
Proof.
  intros R Hn. pose proof R as [].
  assert (data_name (dir_of c) n <> JoinPath (dir_of c) "data") as Ne by auto with go.
  unfold rotate. mred.
  rewrite ensureWriteFile_open by done. cbv beta iota.
  erewrite wfd_Append_ok by (rewrite ?rep_wname0; done). cbv beta iota.
  erewrite next_file_name_ok by done. cbv beta iota.
  unfold wfd_Close at 1. mred. rewrite rep_wfd0. cbv beta iota.
  rewrite sys_ok by done. cbv beta iota. fold n.
  unfold rotate_rename. mred.
  rewrite rep_wname0. erewrite os_Rename_ok; [|done|simpl; apply lookup_insert_eq|].
  2: { simpl. rewrite lookup_insert_ne by done. by apply rep_nodir0, num_seq_ok. }
  cbv beta iota. unfold rotate_account. mred.
  erewrite os_Stat_file; [|done|simpl; apply lookup_insert_eq]. cbv beta iota.
  pose proof (account_weight ws) as W. unfold swhen, cmod, sret in W. rewrite W. clear W.
  cbv beta iota. simpl fst. simpl snd.
  rewrite openWriteFile_new; [|done|].
  2: { simpl. rewrite rep_wname0, lookup_insert_ne by exact Ne. apply lookup_delete_eq. }
  cbv beta iota. simpl curWriteFile. rewrite rep_wname0. f_equal. f_equal.
  - unfold rotated_cache. simpl. rewrite sort_strings_id; [by destruct c; simpl in *; subst|].
    rewrite rep_names0. change [data_name (dir_of c) n] with
      (map (fun f : Z * list bytes => data_name (dir_of c) f.1) [(n, @nil bytes)]).
    rewrite <- map_app. apply sorted_names.
    + rewrite map_app. apply StronglySorted_snoc; [done|].
      apply Forall_map. by apply next_num_above; [|eapply Rep_nums].
    + apply Forall_app. split; [by eapply Rep_nums|]. by constructor.
  - unfold rotated_os, with_files. simpl. f_equal. unfold enc_file, eof_mark.
    apply map_eq. intros q.
    destruct (decide (q = JoinPath (dir_of c) "data")) as [->|N1]; [by simplify_map_eq|].
    destruct (decide (q = data_name (dir_of c) n)) as [->|N2]; by simplify_map_eq.
Qed.
