(* ===== verification/DiskQueue.v ===== *)
(** * The disk cache as a FIFO queue: Put, Rotate and Get

    Under a representation without pending I/O faults each operation refines the
    operation on the abstract queue of [DiskSpec]. *)

From S2P Require Import Prelude GoNum DiskFS DiskCache DiskOpen DiskSpec.

(** ** Frame lemmas *)

(** The representation looks at these fields only. *)
Lemma Rep_ext c c' o o' cur fl ws :
  Rep c o cur fl ws ->
  conf c' = conf c -> closed c' = closed c -> curWriteFile c' = curWriteFile c ->
  pfname (pos c') = pfname (pos c) -> wfd c' = wfd c -> curBatchSize c' = curBatchSize c ->
  dataFiles c' = dataFiles c -> rfd c' = rfd c -> curReadfile c' = curReadfile c ->
  files o' = files o -> faults o' = faults o ->
  Rep c' o' cur fl ws.
Proof.
  intros R E1 E2 E3 E4 E5 E6 E7 E8 E9 E10 E11. destruct R.
  assert (dir_of c' = dir_of c) as D by (unfold dir_of; by rewrite E1).
  split; rewrite ?D, ?E1, ?E2, ?E3, ?E4, ?E5, ?E6, ?E7, ?E10, ?E11; try done.
  - eapply Forall_impl; [|exact rep_files]. intros f. unfold file_rep. by rewrite D, E10.
  - destruct cur as [[[n dn] rest]|]; simpl in *; by rewrite ?E8, ?E9, ?D.
Qed.

Ltac rep_ext R := eapply (Rep_ext _ _ _ _ _ _ _ R); try reflexivity.

(** Files other than the data files may change behind the representation. *)
Lemma file_rep_files c o o' (fl : list (Z * list bytes)) :
  Forall (file_rep c o) fl ->
  (forall n, num_ok n -> In n (map fst fl) ->
     files o' !! data_name (dir_of c) n = files o !! data_name (dir_of c) n) ->
  Forall (file_rep c o') fl.
Proof.
  rewrite !Forall_forall. intros F H f Hf. destruct (F f Hf) as (H1 & H2 & H3).
  split_and!; [done|done|]. rewrite H; [done|done|]. by apply in_map.
Qed.

(** Appending records to the write file. *)
Lemma Rep_append c o cur fl ws ws' :
  Rep c o cur fl ws -> Forall rec_ok ws' ->
  Rep (set_curBatchSize (zlen (enc ws')) c)
      (with_files (<[JoinPath (dir_of c) "data" := File (enc ws')]> (files o)) o) cur fl ws'.
Proof.
  intros R Hd. destruct R. split; try done.
  - simpl. apply lookup_insert_eq.
  - eapply file_rep_files; [exact rep_files|]. intros n Hn _. simpl.
    apply lookup_insert_ne. intros E. symmetry in E. by apply wname_ne_data in E.
  - intros n Hn. simpl. change (dir_of (set_curBatchSize (zlen (enc ws')) c)) with (dir_of c).
    rewrite lookup_insert_ne; [by apply rep_nodir|].
    intros E. symmetry in E. revert E. apply data_name_ne; auto.
  - simpl. rewrite lookup_insert_ne; [done|]. apply wname_ne_pname.
  - eapply tidy_keep; [exact rep_tidy|]. intros q Hq. simpl.
    apply lookup_insert_ne, not_eq_sym, entry_ne; auto.
Qed.

(** Rotation: the records of the write file become the last file. *)
Lemma Rep_rotated c o cur fl ws (n := next_num (cur_file cur ++ fl)) :
  Rep c o cur fl ws -> num_ok n ->
  Rep (rotated_cache c o n ws) (rotated_os c o n ws) cur (fl ++ [(n, ws)]) [].
Proof.
  intros R Hn. pose proof R as [].
  pose proof (next_num_above _ rep_sorted (Rep_nums _ _ _ _ _ R)) as [_ Ab].
  assert (data_name (dir_of c) n <> JoinPath (dir_of c) "data") as Ne by auto with go.
  split; try done; rewrite ?app_assoc.
  - simpl. apply lookup_insert_eq.
  - simpl. rewrite map_app, rep_names. done.
  - rewrite map_app. apply StronglySorted_snoc; [done|]. by apply Forall_map.
  - change (dir_of (rotated_cache c o n ws)) with (dir_of c) in *. apply Forall_app. split.
    + eapply file_rep_files; [exact rep_files|]. intros m Hm Hin. simpl.
      rewrite lookup_insert_ne by (intros E; symmetry in E; by apply wname_ne_data in E).
      apply lookup_insert_ne. intros E. apply data_name_inj in E; auto with go.
      apply in_map_iff in Hin as (f & <- & Hf). rewrite Forall_forall in Ab.
      specialize (Ab f Hf). subst n. lia.
    + constructor; [|done]. split_and!; [done|done|]. simpl.
      rewrite lookup_insert_ne by done. apply lookup_insert_eq.
  - intros m Hm. simpl. change (dir_of (rotated_cache c o n ws)) with (dir_of c).
    rewrite lookup_insert_ne by (apply not_eq_sym; apply data_name_ne; auto).
    destruct (decide (m = n)) as [->|N].
    + by rewrite lookup_insert_eq.
    + rewrite lookup_insert_ne; [by apply rep_nodir|].
      intros E. apply N. symmetry. apply data_name_inj in E; auto with go.
  - simpl. change (dir_of (rotated_cache c o n ws)) with (dir_of c).
    rewrite !lookup_insert_ne; auto with go.
  - intros p b Hp Pp Ep. simpl in Hp. change (dir_of (rotated_cache c o n ws)) with (dir_of c) in *.
    rewrite lookup_insert_ne in Hp by (apply not_eq_sym, entry_ne; auto).
    simpl. apply in_app_iff. destruct (decide (p = data_name (dir_of c) n)) as [->|N]; [right; by left|].
    left. rewrite lookup_insert_ne in Hp by done. by eapply rep_tidy.
Qed.

(** ** Put *)

(** The next file has a number that can be printed and parsed again. *)
Definition room (cur : cursor) (fl : list (Z * list bytes)) : Prop :=
  num_ok (next_num (cur_file cur ++ fl)).

(** The write file is due for rotation after [data] is written. *)
Definition fills (c : DiskCache) (data : bytes) : bool :=
  batchSize (conf c) <=? curBatchSize c + (zlen data + dataHeaderLen).

Definition too_large (c : DiskCache) (data : bytes) : bool :=
  (0 <? maxDataSize (conf c)) && (maxDataSize (conf c) <? int32 (zlen data)).

Lemma wfd_sys_ok c o : faults o = [] -> wfd c = WOpen -> wfd_sys (c, o) = (Ok tt, (c, o)).
Proof. intros Hf Hw. unfold wfd_sys. mred. by rewrite Hw, sys_ok. Qed.

Lemma put_header data : rec_ok data -> put_u32 (uint32 (zlen data)) ++ data = enc_rec data.
Proof.
  intros [H _]. unfold enc_rec, uint32, wrapU. pose proof (zlen_nonneg data).
  by rewrite Z.mod_small by lia.
Qed.

(** The cache and the world after [data] is in the write file. *)
Definition written_cache (c : DiskCache) (o : OS) (ws : list bytes) : DiskCache :=
  set_wfdLastWrite (now o) (set_curBatchSize (zlen (enc ws)) c).

Definition written_os (c : DiskCache) (o : OS) (ws : list bytes) : OS :=
  with_files (<[JoinPath (dir_of c) "data" := File (enc ws)]> (files o)) o.

Lemma Rep_written c o cur fl ws data :
  Rep c o cur fl ws -> rec_ok data ->
  Rep (written_cache c o (ws ++ [data])) (written_os c o (ws ++ [data])) cur fl (ws ++ [data]).
Proof.
  intros R Hd. assert (Forall rec_ok (ws ++ [data])) as F.
  { apply Forall_app. split; [apply (rep_ws _ _ _ _ _ R) | by constructor]. }
  pose proof (Rep_append _ _ _ _ _ _ R F) as R'. rep_ext R'.
Qed.

(** [Put] behind its guards. *)
Definition put_body (cf : Conf) (data : bytes) : M unit :=
  swrap (CacheError OpPut) ensureWriteFile ;;;
  wfd_Append OpWrite (put_u32 (uint32 (zlen data))) ;;;
  wfd_Append OpWrite data ;;;
  swhen (negb (noSync cf)) (swrap (CacheError OpSync) wfd_sys) ;;;
  cmod (fun c => set_curBatchSize (curBatchSize c + (zlen data + dataHeaderLen)) c) ;;;
  t <~ onow ;;
  cmod (set_wfdLastWrite t) ;;;
  c1 <~ cget ;;
  swhen (batchSize (conf c1) <=? curBatchSize c1) (swrap (CacheError OpPut) rotate).

Lemma put_body_written c o cur fl ws data :
  Rep c o cur fl ws -> rec_ok data ->
  put_body (conf c) data (c, o) =
  swhen (fills c data) (swrap (CacheError OpPut) rotate)
    (written_cache c o (ws ++ [data]), written_os c o (ws ++ [data])).
Proof.
  intros R Hd. pose proof R as []. unfold put_body.
  erewrite sbind_ok by (apply swrap_ok, ensureWriteFile_open; done).
  erewrite sbind_ok by (eapply wfd_Append_ok; rewrite ?rep_wname; done).
  erewrite sbind_ok by (eapply wfd_Append_ok; [done|done|rewrite rep_wname; apply lookup_insert_eq]).
  erewrite sbind_ok by (apply swhen_skip, swrap_ok, wfd_sys_ok; done).
  mred. simpl conf. simpl curBatchSize. unfold fills.
  rewrite rep_wname. simpl files. rewrite insert_insert_eq, <- app_assoc, put_header by done.
  rewrite <- enc_snoc.
  replace (curBatchSize c + (zlen data + dataHeaderLen)) with (zlen (enc (ws ++ [data]))).
  { reflexivity. }
  rewrite rep_batch, enc_snoc, zlen_app, zlen_enc_rec. unfold dataHeaderLen. lia.
Qed.

Lemma Put_body c o data :
  closed c = false -> IsFull c data = false -> too_large c data = false ->
  Put data (c, o) = put_body (conf c) data (c, o).
Proof.
  intros Hc Hfull Hlarge. unfold Put. rewrite sbind_cget, Hc, Hfull.
  erewrite sbind_ok by reflexivity. fold (too_large c data). by rewrite Hlarge.
Qed.
