(* ===== verification/DiskInv.v ===== *)
(** * The disk cache: accounting of sizes and of the stored position

    [Full] extends the representation of [DiskSpec] by the size counter (up to a
    constant [base], the drift inherited from the files found at open) and, when [pk]
    is set, by what [.pos] holds: an offset in the file being read at or before the
    first record not yet handed out. *)

From S2P Require Import Prelude GoNum DiskFS DiskCache DiskOpen DiskSpec DiskQueue.

(** ** Sizes *)

Definition total (l : list (Z * list bytes)) : Z :=
  foldr (fun f acc => file_weight f.2 + acc) 0 l.

Lemma total_app l k : total (l ++ k) = total l + total k.
Proof. induction l as [|f l IH]; simpl; [done|]. rewrite IH. lia. Qed.

Lemma file_weight_nonneg rs : 0 <= file_weight rs.
Proof. unfold file_weight. destruct rs; [done | apply zlen_nonneg]. Qed.

Lemma total_nonneg l : 0 <= total l.
Proof. induction l as [|f l IH]; simpl; [done|]. pose proof (file_weight_nonneg f.2). lia. Qed.

(** ** What [.pos] holds *)

Definition posfile (c : DiskCache) : string := JoinPath (dir_of c) ".pos".

Definition stored (seek : Z) (name : string) : bytes := put_u64 seek ++ to_bytes name.

(** No position is stored. *)
Definition pos_idle (n : option node) : Prop :=
  match n with
  | None => True
  | Some (File b) => zlen b <= 8
  | Some Dir => False
  end.

Definition PosOk (c : DiskCache) (o : OS) (cur : cursor) : Prop :=
  match cur with
  | None => Name (pos c) = None /\ pos_idle (files o !! posfile c)
  | Some (n, dn, _) =>
      Seek (pos c) = zlen (enc dn) /\
      Name (pos c) = Some (to_bytes (data_name (dir_of c) n)) /\
      exists k, (k <= length dn)%nat /\ (dumpCount (pos c) = 0 -> k = length dn) /\
        files o !! posfile c = Some (File (stored (zlen (enc (take k dn))) (data_name (dir_of c) n)))
  end.

Definition nonempty (r : bytes) : Prop := r <> [].

(** All records of a state. *)
Definition records (cur : cursor) (fl : list (Z * list bytes)) (ws : list bytes) : list bytes :=
  concat (map snd (cur_file cur ++ fl)) ++ ws.

Record Full (base : Z) (pk : bool) (c : DiskCache) (o : OS) (cur : cursor)
    (fl : list (Z * list bytes)) (ws : list bytes) : Prop := {
  full_rep : Rep c o cur fl ws;
  full_size : size c = base + total (cur_file cur ++ fl);
  full_pos : pk = true -> noPos (conf c) = false /\ PosOk c o cur;
  full_recs : pk = true -> Forall nonempty (records cur fl ws)
}.

(** The state changed in a way the representation does not see, [.pos] included. *)
Lemma PosOk_ext c c' o o' cur :
  PosOk c o cur -> conf c' = conf c -> pos c' = pos c ->
  files o' !! posfile c = files o !! posfile c -> PosOk c' o' cur.
Proof.
  intros P E1 E2 E3. assert (dir_of c' = dir_of c) as D by (unfold dir_of; by rewrite E1).
  unfold PosOk, posfile in *. by rewrite D, E2, E3.
Qed.

Lemma records_rotate cur fl ws n :
  records cur (fl ++ [(n, ws)]) [] = records cur fl ws.
Proof.
  unfold records. rewrite app_assoc, map_app, concat_app. simpl. by rewrite !app_nil_r.
Qed.

Lemma Full_written base pk c o cur fl ws data :
  Full base pk c o cur fl ws -> rec_ok data -> (pk = true -> data <> []) ->
  Full base pk (written_cache c o (ws ++ [data])) (written_os c o (ws ++ [data])) cur fl (ws ++ [data]).
Proof.
  intros [R S P N] Hd Hne. split.
  - by apply Rep_written.
  - done.
  - intros K. destruct (P K) as [P1 P2]. split; [done|].
    eapply PosOk_ext; [exact P2|done|done|]. simpl. apply lookup_insert_ne. apply wname_ne_pname.
  - intros K. unfold records. rewrite app_assoc. apply Forall_app. split; [by apply N|].
    constructor; [by apply Hne|done].
Qed.

Lemma Full_rotated base pk c o cur fl ws (n := next_num (cur_file cur ++ fl)) :
  Full base pk c o cur fl ws -> num_ok n ->
  Full base pk (rotated_cache c o n ws) (rotated_os c o n ws) cur (fl ++ [(n, ws)]) [].
Proof.
  intros [R S P N] Hn. split.
  - by apply Rep_rotated.
  - simpl. rewrite app_assoc, total_app, S. simpl. lia.
  - intros K. destruct (P K) as [P1 P2]. split; [done|].
    eapply PosOk_ext; [exact P2|done|done|]. simpl.
    rewrite lookup_insert_ne by apply wname_ne_pname. apply lookup_insert_ne. auto with go.
  - intros K. rewrite records_rotate. by apply N.
Qed.

Lemma put_body_Full base pk c o cur fl ws data :
  Full base pk c o cur fl ws -> room cur fl -> rec_ok data -> (pk = true -> data <> []) ->
  exists c' o', put_body (conf c) data (c, o) = (Ok tt, (c', o')) /\ conf c' = conf c /\
    if fills c data
    then Full base pk c' o' cur (fl ++ [(next_num (cur_file cur ++ fl), ws ++ [data])]) []
    else Full base pk c' o' cur fl (ws ++ [data]).
Proof.
  intros F Hn Hd Hne. rewrite (put_body_written _ _ _ _ _ _ (full_rep _ _ _ _ _ _ _ F) Hd).
  pose proof (Full_written _ _ _ _ _ _ _ _ F Hd Hne) as F'.
  destruct (fills c data); cbn [swhen].
  - erewrite swrap_ok by (apply (rotate_run _ _ _ _ _ (full_rep _ _ _ _ _ _ _ F') Hn)).
    do 2 eexists. split_and!; [done|done|]. by apply Full_rotated.
  - by do 2 eexists.
Qed.

Lemma Put_Full base pk c o cur fl ws data :
  Full base pk c o cur fl ws -> room cur fl -> rec_ok data -> (pk = true -> data <> []) ->
  IsFull c data = false -> too_large c data = false ->
  exists c' o', Put data (c, o) = (Ok tt, (c', o')) /\ conf c' = conf c /\
    if fills c data
    then Full base pk c' o' cur (fl ++ [(next_num (cur_file cur ++ fl), ws ++ [data])]) []
    else Full base pk c' o' cur fl (ws ++ [data]).
Proof.
  intros F Hn Hd Hne Hf Hl.
  rewrite (Put_body _ _ _ (rep_open _ _ _ _ _ (full_rep _ _ _ _ _ _ _ F)) Hf Hl).
  by apply put_body_Full.
Qed.

Lemma rotate_Full base pk c o cur fl ws :
  Full base pk c o cur fl ws -> room cur fl ->
  exists c' o', rotate (c, o) = (Ok tt, (c', o')) /\ conf c' = conf c /\
    Full base pk c' o' cur (fl ++ [(next_num (cur_file cur ++ fl), ws)]) [].
Proof.
  intros F Hn. rewrite (rotate_run _ _ _ _ _ (full_rep _ _ _ _ _ _ _ F) Hn).
  do 2 eexists. split_and!; [done|done|]. by apply Full_rotated.
Qed.

(** ** Operations on the position, without faults *)

(** [m] succeeds, touches only the position file, and leaves the offset and the name
    as [f] does; [.pos] ends up in [post]. *)
Definition pos_step {A} (m : pm A) (f : Pos -> Pos) (post : Pos -> option node -> option node -> Prop)
    : Prop :=
  forall p o, faults o = [] -> files o !! pfname p <> Some Dir ->
  exists a p' fs, m (p, o) = (Ok a, (p', with_files fs o)) /\
    pfname p' = pfname p /\ dumpCount p' = dumpCount p /\
    Seek p' = Seek (f p) /\ Name p' = Name (f p) /\
    (forall q, q <> pfname p -> fs !! q = files o !! q) /\
    fs !! pfname p <> Some Dir /\ post p (files o !! pfname p) (fs !! pfname p).

Lemma with_files_same o : with_files (files o) o = o.
Proof. by destruct o. Qed.

Lemma doDumpFile_step :
  pos_step doDumpFile id (fun p _ n => n = Some (File (MarshalBinary p))).
Proof.
  intros p o Hf Hd. rewrite doDumpFile_ok by done. do 3 eexists. split; [done|].
  split_and!; try done.
  - intros q Hq. by apply lookup_insert_ne.
  - by rewrite lookup_insert_eq.
  - by rewrite lookup_insert_eq.
Qed.

Lemma open_pos_fd_step :
  pos_step open_pos_fd id (fun p old n => n = old \/ n = Some (File [])).
Proof.
  intros p o Hf Hd. unfold open_pos_fd. mred. unfold pget, pmod.
  destruct (pfd p) eqn:Ep; cbv beta iota.
  - exists tt, p, (files o). rewrite with_files_same. split_and!; auto.
  - unfold pio. rewrite os_OpenTrunc_ok by done. cbv beta iota.
    do 3 eexists. split; [done|]. split_and!; try done.
    + intros q Hq. by apply lookup_insert_ne.
    + by rewrite lookup_insert_eq.
    + right. by rewrite lookup_insert_eq.
Qed.

(** The body of [reset], the file being open. *)
Definition reset_open : pm unit :=
  p <~ pget ;;
  if match Name p with None => Seek p =? -1 | Some _ => false end
  then sret tt
  else pmod (fun p => set_Name None (set_Seek (-1) p)) ;;; doDumpFile.

Lemma reset_open_step :
  pos_step reset_open (fun p => set_Name None (set_Seek (-1) p))
    (fun p old n => (Name p = None -> pos_idle old) -> pos_idle n).
Proof.
  intros p o Hf Hd. unfold reset_open. mred. unfold pget, pmod.
  destruct (match Name p with Some _ => false | None => Seek p =? -1 end) eqn:Et.
  - exists tt, p, (files o). rewrite with_files_same.
    destruct (Name p) eqn:En; [done|]. bool_to_prop. split_and!; auto.
  - edestruct (doDumpFile_step (set_Name None (set_Seek (-1) p)) o)
      as (a & p' & fs & E & H1 & H2 & H3 & H4 & H5 & H6 & H7); [done..|].
    exists a, p', fs. rewrite E. split_and!; try done. intros _. simpl in H7. rewrite H7. simpl.
    unfold MarshalBinary. by rewrite zlen_app, zlen_put_u64.
Qed.

(** After a reset [.pos] holds no name. *)
Lemma pos_reset_step :
  pos_step pos_reset (fun p => set_Name None (set_Seek (-1) p))
    (fun p old n => (Name p = None -> pos_idle old) -> pos_idle n).
Proof.
  intros p o Hf Hd. change pos_reset with (open_pos_fd ;;; reset_open).
  destruct (open_pos_fd_step p o) as (a & p1 & f1 & E & H1 & H2 & H3 & H4 & H5 & H6 & H7); [done..|].
  erewrite sbind_ok by exact E.
  destruct (reset_open_step p1 (with_files f1 o)) as (b & p2 & f2 & E' & G1 & G2 & G3 & G4 & G5 & G6 & G7);
    [done|by rewrite H1|].
  exists b, p2, f2. rewrite E'. rewrite H1 in *. simpl in *.
  split_and!; try (done || congruence); [intros q Hq; by rewrite G5, H5|].
  intros K. apply G7. rewrite H4. intros Nn. destruct H7 as [-> | ->]; auto. done.
Qed.

(** A dump may be put off; with [dumpCount = 0] it is not. *)
Lemma dumpFile_step :
  pos_step dumpFile id
    (fun p old n => n = Some (File (MarshalBinary p)) \/ dumpCount p <> 0 /\ n = old).
Proof.
  intros p o Hf Hd.
  assert (forall p1, pfname p1 = pfname p -> dumpCount p1 = dumpCount p -> Seek p1 = Seek p ->
    Name p1 = Name p -> exists (a : bool) p' fs,
    (doDumpFile ;;; sret true) (p1, o) = (Ok a, (p', with_files fs o)) /\
    pfname p' = pfname p /\ dumpCount p' = dumpCount p /\
    Seek p' = Seek p /\ Name p' = Name p /\
    (forall q, q <> pfname p -> fs !! q = files o !! q) /\
    fs !! pfname p <> Some Dir /\ fs !! pfname p = Some (File (MarshalBinary p))) as K.
  { intros p1 E1 E2 E3 E4.
    destruct (doDumpFile_step p1 o) as (a & p' & fs & E & H1 & H2 & H3 & H4 & H5 & H6 & H7);
      [done|by rewrite E1|].
    rewrite E1 in *. exists true, p', fs. erewrite sbind_ok by exact E.
    unfold MarshalBinary, id in *. rewrite ?E3, ?E4 in *. split_and!; try done; congruence. }
  unfold dumpFile. unfold sbind at 1, pget at 1. destruct (dumpCount p =? 0) eqn:Ed.
  - destruct (K p) as (a & p' & fs & E & H1 & H2 & H3 & H4 & H5 & H6 & H7); [done..|].
    exists a, p', fs. rewrite E. split_and!; auto.
  - bool_to_prop. mred. unfold pmod, pnow. cbv beta iota.
    destruct (Z.rem _ _ =? 0).
    { destruct (K (set_lastDump (now o) (set_cnt (cnt p + 1) p)))
        as (a & p' & fs & E & H1 & H2 & H3 & H4 & H5 & H6 & H7); [done..|].
      exists a, p', fs. unfold sbind, sret in E. rewrite E. split_and!; auto. }
    destruct (_ && _).
    { destruct (K (set_lastDump (now o) (set_cnt (cnt p + 1) p)))
        as (a & p' & fs & E & H1 & H2 & H3 & H4 & H5 & H6 & H7); [done..|].
      exists a, p', fs. unfold sbind, sret in E. rewrite E. split_and!; auto. }
    exists false, (set_cnt (cnt p + 1) p), (files o). rewrite with_files_same. split_and!; auto.
Qed.
