(* ===== verification/DiskGet.v ===== *)
(** * The disk cache as a FIFO queue: reading

    Switching from a consumed file to the next one, and [Get] with its three outcomes
    (no data, delivered, callback error). *)

From S2P Require Import Prelude GoNum DiskFS DiskCache DiskOpen DiskSpec DiskQueue DiskInv.

(** ** Position updates inside the cache *)

Lemma posm_Rep {A} (m : pm A) f post c o cur fl ws :
  pos_step m f post -> Rep c o cur fl ws -> noPos (conf c) = false ->
  exists a p' fs, posm m (c, o) = (Ok a, (set_pos p' c, with_files fs o)) /\
    Rep (set_pos p' c) (with_files fs o) cur fl ws /\
    dumpCount p' = dumpCount (pos c) /\
    Seek p' = Seek (f (pos c)) /\ Name p' = Name (f (pos c)) /\
    post (pos c) (files o !! posfile c) (fs !! posfile c).
Proof.
  intros Hm R Hp. pose proof (rep_pname _ _ _ _ _ R Hp) as Hn.
  destruct (Hm (pos c) o) as (a & p' & fs & E & H1 & H2 & H3 & H4 & H5 & H6 & H7).
  { apply (rep_nofault _ _ _ _ _ R). }
  { rewrite Hn. apply (rep_posdir _ _ _ _ _ R). }
  rewrite Hn in *. exists a, p', fs. unfold posm. rewrite E. split_and!; try done.
  by eapply Rep_pos; [exact R|congruence|..].
Qed.

(** Changing offset and name only. *)
Lemma Rep_set_pos c o cur fl ws p :
  Rep c o cur fl ws -> pfname p = pfname (pos c) -> Rep (set_pos p c) o cur fl ws.
Proof. intros R E. by rep_ext R. Qed.

(** ** Removing the consumed file *)

Lemma rfd_Close_ok c o r :
  faults o = [] -> rfd c = Some r -> rlive r = true ->
  exists c', rfd_Close (c, o) = (Ok tt, (c', o)) /\ set_rfd None c' = set_rfd None c.
Proof.
  intros Hf Hr Hl. unfold rfd_Close, rfd_kill. mred. rewrite Hr, Hl. cbv beta iota.
  rewrite sys_ok by done. eexists. split; [done|]. by rewrite Hr.
Qed.

(** The file [n] at the head of the list goes away. *)
Lemma Rep_unlink c o cur n rs fl ws :
  Rep c o cur fl ws -> cur_file cur = [(n, rs)] ->
  Rep (set_dataFiles (map (fun f => data_name (dir_of c) f.1) fl)
        (set_curReadfile "" (set_rfd None c)))
      (with_files (delete (data_name (dir_of c) n) (files o)) o) None fl ws.
Proof.
  intros R Hc. pose proof R as []. rewrite Hc in *.
  apply StronglySorted_inv in rep_sorted as [S1 S2].
  apply Forall_cons_iff in rep_files as [(F0 & _ & _) F1].
  split; try done; simpl; change (dir_of (set_dataFiles _ _)) with (dir_of c).
  - rewrite lookup_delete_ne; [done|]. auto with go.
  - eapply file_rep_files; [exact F1|]. intros m Hm Hin. simpl.
    change (dir_of (set_dataFiles _ _)) with (dir_of c).
    apply lookup_delete_ne. intros E. apply data_name_inj in E; auto with go.
    rewrite Forall_forall in S2. specialize (S2 _ Hin). simpl in S2. lia.
  - intros m Hm. intros E. apply lookup_delete_Some in E as [_ E]. by apply rep_nodir in E.
  - intros E. apply lookup_delete_Some in E as [_ E]. by apply rep_posdir in E.
  - intros p b Hp Pp Ep. apply lookup_delete_Some in Hp as [N Hp].
    pose proof (rep_tidy p b Hp Pp Ep) as T. rewrite rep_names in T. by destruct T as [<-|T].
Qed.

Lemma weight_swhen rs (s : St) :
  swhen (dataHeaderLen <? zlen (enc_file rs))
    (cmod (fun c => set_size (size c - zlen (enc_file rs)) c)) s
  = (Ok tt, (set_size (size s.1 - file_weight rs) s.1, s.2)).
Proof.
  destruct s as [c o]. unfold swhen, file_weight. destruct rs as [|r rs].
  - simpl. rewrite Z.sub_0_r, set_size_same. done.
  - assert (4 < zlen (enc_file (r :: rs))).
    { rewrite zlen_enc_file. pose proof (zlen_enc_pos (r :: rs)) as P. specialize (P ltac:(done)). lia. }
    unfold dataHeaderLen. by ztest.
Qed.

Lemma remove_run base pk c o n dn rest fl ws :
  Full base pk c o (Some (n, dn, rest)) fl ws ->
  exists c' o', removeCurrentReadingFile (c, o) = (Ok tt, (c', o')) /\
    Rep c' o' None fl ws /\ conf c' = conf c /\ pos c' = pos c /\
    size c' = base + total fl /\ files o' !! posfile c = files o !! posfile c.
Proof.
  intros [R S P N]. pose proof R as []. destruct rep_cur as [Hr Hc].
  simpl in rep_files. apply Forall_cons_iff in rep_files as [(F0 & _ & F2) _].
  unfold removeCurrentReadingFile. unfold sbind at 1, cget at 1. rewrite Hr.
  destruct (rfd_Close_ok c o _ rep_nofault Hr eq_refl) as (c1 & E1 & E2).
  assert (exists c1', (swrap (CacheError OpClose) rfd_Close ;;; cmod (set_rfd None)) (c, o)
          = (Ok tt, (c1', o)) /\ c1' = set_rfd None c) as (c1' & E & ->).
  { eexists. split; [|exact E2]. erewrite sbind_ok by (apply swrap_ok; exact E1). done. }
  erewrite sbind_ok by exact E. rewrite Hc.
  erewrite sbind_ok.
  2: { erewrite stry_run.
       2: { unfold oio. erewrite os_Stat_file by done. done. }
       cbv beta iota. erewrite sbind_ok by apply weight_swhen. apply swrap_ok. unfold oio. simpl.
       erewrite os_Remove_ok by done. done. }
  mred. simpl dataFiles. rewrite rep_names. simpl map.
  do 2 eexists. split; [done|].
  pose proof (Rep_unlink _ _ _ n (dn ++ rest) _ _ R eq_refl) as R'.
  split; [by rep_ext R'|]. split_and!; try done.
  - simpl. simpl in S. lia.
  - simpl. apply lookup_delete_ne. auto with go.
Qed.

(** ** Opening the next file *)

Definition next_cur (fl : list (Z * list bytes)) : cursor :=
  match fl with (n, rs) :: _ => Some (n, [], rs) | [] => None end.

(** The state between two files: as [Full] without a cursor, but the position may still
    name the file just left. *)
Record Between (base : Z) (pk : bool) (c : DiskCache) (o : OS)
    (fl : list (Z * list bytes)) (ws : list bytes) : Prop := {
  btw_rep : Rep c o None fl ws;
  btw_size : size c = base + total fl;
  btw_pos : pk = true -> noPos (conf c) = false /\
              (Name (pos c) = None -> pos_idle (files o !! posfile c));
  btw_recs : pk = true -> Forall nonempty (records None fl ws)
}.

Lemma Full_Between base pk c o fl ws : Full base pk c o None fl ws -> Between base pk c o fl ws.
Proof. intros [R S P N]. split; try done. intros K. by destruct (P K) as (P1 & P2 & P3). Qed.

Lemma records_tail cur fl ws r :
  Forall nonempty (records cur fl ws) -> r = records None fl ws -> Forall nonempty r.
Proof.
  intros F ->. destruct cur as [[[n dn] rest]|]; [|done].
  unfold records in *. simpl in *. rewrite <- app_assoc in F. by apply Forall_app in F as [_ F].
Qed.

Lemma switch_removes base pk c o n dn rest fl ws :
  Full base pk c o (Some (n, dn, rest)) fl ws ->
  exists c' o', removeCurrentReadingFile (c, o) = (Ok tt, (c', o')) /\ conf c' = conf c /\
    Between base pk c' o' fl ws.
Proof.
  intros F. destruct (remove_run _ _ _ _ _ _ _ _ _ F) as (c' & o' & E & R & H1 & H2 & H3 & H4).
  exists c', o'. split_and!; [done|done|]. destruct F as [R0 S P N]. split; [done|done|..].
  - intros K. destruct (P K) as (P1 & P2 & P3 & _). rewrite H1, H2, P3. done.
  - intros K. eapply records_tail; [by apply N|done].
Qed.

Lemma reset_Between base pk c o fl ws :
  Between base pk c o fl ws ->
  exists c' o', swhen (negb (noPos (conf c))) (swrap (CacheError OpSwitch) (posm pos_reset)) (c, o)
      = (Ok tt, (c', o')) /\ conf c' = conf c /\ Between base pk c' o' fl ws /\
    (pk = true -> Name (pos c') = None).
Proof.
  intros [R S P N]. destruct (noPos (conf c)) eqn:Ep; simpl.
  - exists c, o. split_and!; [done|done|split; try done|]; intros K; by destruct (P K).
  - destruct (posm_Rep _ _ _ _ _ _ _ _ pos_reset_step R Ep)
      as ([] & p' & fs & E & R' & H1 & H2 & H3 & H4).
    erewrite swrap_ok by exact E. do 2 eexists. split; [done|]. split_and!; try done.
    split; try done. intros K. destruct (P K) as [P1 P2]. split; [done|].
    simpl. intros _. by apply H4.
Qed.

Lemma cursor_start c o n rs fl ws content sz :
  Rep c o None ((n, rs) :: fl) ws -> content = enc_file rs ->
  Rep (set_curReadSize sz (set_rfd (Some (mkRFd (data_name (dir_of c) n) content 0 true))
        (set_curReadfile (data_name (dir_of c) n) c))) o (Some (n, [], rs)) fl ws.
Proof. intros [] ->. by split. Qed.

Lemma doSwitch_Full base pk c o fl ws :
  Between base pk c o fl ws ->
  exists c' o', doSwitchNextFile (c, o) = (Ok tt, (c', o')) /\ conf c' = conf c /\
    Full base pk c' o' (next_cur fl) (tail fl) ws.
Proof.
  intros B. unfold doSwitchNextFile. unfold sbind at 1, cget at 1.
  destruct (reset_Between _ _ _ _ _ _ B) as (c1 & o1 & E1 & C1 & B1 & N1).
  erewrite sbind_ok by exact E1. rewrite (rep_names _ _ _ _ _ (btw_rep _ _ _ _ _ _ B)). simpl map.
  assert (dir_of c1 = dir_of c) as D by (unfold dir_of; by rewrite C1).
  destruct B1 as [R S P N]. destruct fl as [|[n rs] fl]; simpl.
  { exists c1, o1. split_and!; [done|done|]. split; try done. intros K.
    destruct (P K) as [P1 P2]. split; [done|]. split; [by apply N1|]. auto. }
  rewrite <- D, <- C1.
  pose proof (rep_files _ _ _ _ _ R) as F. apply Forall_cons_iff in F as [(F0 & F1 & F2) _].
  simpl in F0, F1, F2.
  unfold sbind at 1, cmod at 1. erewrite sbind_ok.
  2: { apply swrap_ok. unfold oio. erewrite os_OpenRead_ok; [done| |exact F2].
       apply (rep_nofault _ _ _ _ _ R). }
  unfold sbind at 1, cmod at 1. erewrite sbind_ok.
  2: { apply swrap_ok. unfold oio. rewrite sys_ok; [done|]. apply (rep_nofault _ _ _ _ _ R). }
  unfold sbind at 1, cmod at 1.
  pose proof (cursor_start _ _ _ _ _ _ (enc_file rs) (zlen (enc_file rs)) R eq_refl) as R2.
  set (c2 := set_curReadSize _ _) in *.
  destruct (noPos (conf c1)) eqn:Ep; simpl.
  { exists c2, o1. split_and!; [done|done|]. split; try done. by intros [? _]%P. }
  set (p3 := set_Seek 0 (set_Name (Some (to_bytes (data_name (dir_of c1) n))) (pos c2))).
  pose proof (Rep_set_pos _ _ _ _ _ p3 R2 eq_refl) as R3.
  destruct (posm_Rep _ _ _ _ _ _ _ _ doDumpFile_step R3 Ep)
    as ([] & p' & fs & E & R' & H1 & H2 & H3 & H4).
  erewrite sbind_ok by reflexivity. fold p3.
  erewrite swrap_ok by exact E. do 2 eexists. split; [done|]. split; [done|].
  split; [done|done| |done].
  intros K. split; [done|]. simpl. split_and!; try done.
  exists 0%nat. split_and!; [lia|done|]. rewrite firstn_nil. exact H4.
Qed.

(** Leaving the file [n] and opening the next. *)
Lemma switch_Some base pk c o n dn rest fl ws :
  Full base pk c o (Some (n, dn, rest)) fl ws ->
  exists c' o', switchNextFile (c, o) = (Ok tt, (c', o')) /\ conf c' = conf c /\
    Full base pk c' o' (next_cur fl) (tail fl) ws.
Proof.
  intros F. unfold switchNextFile. unfold sbind at 1, cget at 1.
  destruct (rep_cur _ _ _ _ _ (full_rep _ _ _ _ _ _ _ F)) as [_ ->].
  rewrite (proj2 (String.eqb_neq _ _)) by apply data_name_nonempty. simpl.
  destruct (switch_removes _ _ _ _ _ _ _ _ _ F) as (c1 & o1 & E & C & B).
  erewrite sbind_ok by (apply swrap_ok; exact E).
  destruct (doSwitch_Full _ _ _ _ _ _ B) as (c2 & o2 & E2 & C2 & F2).
  exists c2, o2. split_and!; [done|congruence|done].
Qed.

Lemma switch_None base pk c o fl ws :
  Full base pk c o None fl ws ->
  exists c' o', switchNextFile (c, o) = (Ok tt, (c', o')) /\ conf c' = conf c /\
    Full base pk c' o' (next_cur fl) (tail fl) ws.
Proof.
  intros F. unfold switchNextFile. unfold sbind at 1, cget at 1.
  destruct (rep_cur _ _ _ _ _ (full_rep _ _ _ _ _ _ _ F)) as [_ ->]. simpl.
  erewrite sbind_ok by reflexivity. by apply doSwitch_Full, Full_Between.
Qed.

(** ** Reading one record *)

(** The read descriptor of [c] on file [n] with records [rs], at offset [off]. *)
Definition at_off (n : Z) (rs : list bytes) (off : Z) (c : DiskCache) : DiskCache :=
  set_rfd (Some (mkRFd (data_name (dir_of c) n) (enc_file rs) off true)) c.

Lemma rfd_Read_at c o n rs off k got :
  faults o = [] ->
  take (Z.to_nat k) (drop (Z.to_nat off) (enc_file rs)) = got -> (0 < k -> got <> []) ->
  rfd_Read k (at_off n rs off c, o) = (Ok got, (at_off n rs (off + zlen got) c, o)).
Proof.
  intros Hf Hg Hne. unfold rfd_Read, rfd_set_off. mred. simpl. rewrite sys_ok by done.
  cbv beta iota. rewrite zdrop_drop, ztake_take, Hg.
  destruct ((0 <? k) && (zlen got =? 0)) eqn:E; [|done].
  bool_to_prop. pose proof (zlen_pos got) as Q. specialize (Q (Hne ltac:(done))). lia.
Qed.

Lemma rfd_Seek_at c o n rs off d :
  faults o = [] -> 0 <= off + d ->
  rfd_SeekCurrent d (at_off n rs off c, o) = (Ok tt, (at_off n rs (off + d) c, o)).
Proof.
  intros Hf Hd. unfold rfd_SeekCurrent, rfd_set_off. mred. simpl. rewrite sys_ok by done. by ztest.
Qed.

(** The next four bytes: the length of the next record, or the end marker. *)
Lemma read_header c o n dn rest :
  faults o = [] ->
  rfd_Read dataHeaderLen (at_off n (dn ++ rest) (zlen (enc dn)) c, o) =
  (Ok (match rest with r :: _ => put_u32 (zlen r) | [] => eof_mark end),
   (at_off n (dn ++ rest) (zlen (enc dn) + 4) c, o)).
Proof.
  intros Hf.
  set (h := match rest with r :: _ => put_u32 (zlen r) | [] => eof_mark end).
  assert (length h = 4%nat) as L by (subst h; destruct rest; apply length_put_u32).
  replace (zlen (enc dn) + 4) with (zlen (enc dn) + zlen h) by (unfold zlen; rewrite L; lia).
  apply rfd_Read_at; [done| |intros _ E; by rewrite E in L].
  rewrite drop_enc_file. unfold dataHeaderLen. change (Z.to_nat 4) with 4%nat. subst h.
  unfold enc_file. destruct rest as [|r rest]; cbn [enc].
  - by rewrite take_ge.
  - unfold enc_rec. rewrite <- !app_assoc. apply take_exact. by rewrite length_put_u32.
Qed.

(** After the header come the bytes of the record. *)
Lemma read_body c o n dn r rest :
  faults o = [] ->
  rfd_Read (zlen r) (at_off n (dn ++ r :: rest) (zlen (enc dn) + 4) c, o) =
  (Ok r, (at_off n (dn ++ r :: rest) (zlen (enc (dn ++ [r]))) c, o)).
Proof.
  intros Hf.
  replace (zlen (enc (dn ++ [r]))) with (zlen (enc dn) + 4 + zlen r)
    by (rewrite enc_snoc, zlen_app, zlen_enc_rec; lia).
  apply rfd_Read_at; [done| |intros H E; rewrite E in H; by compute in H].
  rewrite Z2Nat.inj_add by (pose proof (zlen_nonneg (enc dn)); lia).
  rewrite <- drop_drop, drop_enc_file. unfold enc_file. cbn [enc]. unfold enc_rec.
  rewrite <- !app_assoc, drop_exact by (by rewrite length_put_u32).
  apply take_exact. by rewrite zlen_to_nat.
Qed.

Lemma Rep_at_off c o n dn rest fl ws :
  Rep c o (Some (n, dn, rest)) fl ws -> at_off n (dn ++ rest) (zlen (enc dn)) c = c.
Proof.
  intros R. destruct (rep_cur _ _ _ _ _ R) as [E _]. unfold at_off.
  destruct c; simpl in *. by rewrite E.
Qed.

(** Moving the cursor over a record. *)
Lemma Rep_advance c o n dn r rest fl ws :
  Rep c o (Some (n, dn, r :: rest)) fl ws ->
  Rep (at_off n (dn ++ r :: rest) (zlen (enc (dn ++ [r]))) c) o (Some (n, dn ++ [r], rest)) fl ws.
Proof.
  intros []. assert ((dn ++ [r]) ++ rest = dn ++ r :: rest) as A by (by rewrite <- app_assoc).
  split; try done; simpl; rewrite A; try done. by destruct rep_cur as [_ ->].
Qed.

Definition advance_pos (nbytes : Z) (c : DiskCache) : M unit :=
  swhen (negb (noPos (conf c)) && (0 <? nbytes))
    (posm (pmod (fun p => set_Seek (Seek p + (dataHeaderLen + nbytes)) p)) ;;;
     _ <~ swrap (CacheError OpPos) (posm dumpFile) ;; sret tt).

Lemma advance_Full base pk c o n dn r rest fl ws c1 :
  Full base pk c o (Some (n, dn, r :: rest)) fl ws ->
  Rep c1 o (Some (n, dn ++ [r], rest)) fl ws ->
  conf c1 = conf c -> size c1 = size c -> pos c1 = pos c ->
  exists c' o', advance_pos (zlen r) c1 (c1, o) = (Ok tt, (c', o')) /\ conf c' = conf c /\
    Full base pk c' o' (Some (n, dn ++ [r], rest)) fl ws.
Proof.
  intros [R S P N] R1 E1 E2 E3.
  assert (total (cur_file (Some (n, dn ++ [r], rest)) ++ fl)
          = total (cur_file (Some (n, dn, r :: rest)) ++ fl)) as T
    by (simpl; by rewrite <- (app_assoc dn [r] rest)).
  assert (records (Some (n, dn ++ [r], rest)) fl ws = records (Some (n, dn, r :: rest)) fl ws) as RC
    by (unfold records; simpl; by rewrite <- (app_assoc dn [r] rest)).
  unfold advance_pos. destruct (negb (noPos (conf c1)) && (0 <? zlen r)) eqn:G; simpl swhen.
  2: { exists c1, o. split_and!; [done|done|]. split; [done|rewrite T; congruence| |by rewrite RC].
       intros K. destruct (P K) as [P1 _]. specialize (N K). exfalso.
       rewrite E1, P1 in G. simpl in G. bool_to_prop.
       assert (nonempty r) as Hr.
       { rewrite Forall_forall in N. apply N. unfold records. simpl.
         rewrite !in_app_iff. simpl. auto. }
       apply zlen_pos in Hr. lia. }
  bool_to_prop. unfold sbind at 1, posm at 1, pmod. cbv beta iota.
  set (p2 := set_Seek _ _).
  pose proof (Rep_set_pos _ _ _ _ _ p2 R1 eq_refl) as R2.
  destruct (posm_Rep _ _ _ _ _ _ _ _ dumpFile_step R2 ltac:(done))
    as (b & p' & fs & E & R' & H1 & H2 & H3 & H4).
  erewrite sbind_ok by (apply swrap_ok; exact E).
  do 2 eexists. split; [done|]. split; [done|].
  split; [done|simpl; rewrite E2; by rewrite <- T in S| |by rewrite RC].
  intros K. destruct (P K) as (P1 & P2 & P3 & k & Pk1 & Pk2 & Pk3).
  change (posfile (set_pos p2 c1)) with (posfile c1) in H4.
  assert (dir_of c1 = dir_of c) as D by (unfold dir_of; by rewrite E1).
  assert (posfile c1 = posfile c) as Dp by (unfold posfile; by rewrite D).
  assert (Seek p2 = zlen (enc (dn ++ [r]))) as K2.
  { simpl. rewrite E3, P2, enc_snoc, zlen_app, zlen_enc_rec. unfold dataHeaderLen. lia. }
  assert (Name p2 = Some (to_bytes (data_name (dir_of c) n))) as K3 by (simpl; congruence).
  unfold id in *. change (pos (set_pos p2 c1)) with p2 in *.
  assert (dumpCount p2 = dumpCount (pos c)) as K4 by (simpl; by rewrite E3).
  split; [simpl; congruence|]. unfold PosOk.
  change (dir_of (set_pos p' (set_pos p2 c1))) with (dir_of c1).
  change (posfile (set_pos p' (set_pos p2 c1))) with (posfile c1).
  split_and!; [simpl; congruence|rewrite D; simpl; congruence|]. simpl.
  destruct H4 as [H4 | [H4 H5]].
  - exists (length (dn ++ [r])). split_and!; [lia|done|].
    rewrite firstn_all, H4. do 2 f_equal. unfold MarshalBinary, stored. rewrite K2, K3, D. done.
  - exists k. rewrite length_app. split_and!; [lia|congruence|].
    rewrite H5, Dp, D. simpl. rewrite take_app_le by lia. done.
Qed.

Lemma Full_batchHeader base pk c o cur fl ws h :
  Full base pk c o cur fl ws -> Full base pk (set_batchHeader h c) o cur fl ws.
Proof.
  intros [R S P N]. split; [by rep_ext R|done| |done].
  intros K. destruct (P K) as [P1 P2]. split; [done|]. by eapply PosOk_ext; [exact P2|..].
Qed.

(** The result of the callback on [r]. *)
Definition fn_result (fn : option (bytes -> option error)) (r : bytes) : option error :=
  match fn with Some f => f r | None => None end.

Definition fn_seen (fn : option (bytes -> option error)) (r : bytes) : option bytes :=
  match fn with Some _ => Some r | None => None end.

(** Whether the record stays in the queue after a callback error. *)
Definition keeps (c : DiskCache) (fn : option (bytes -> option error)) (r : bytes) : bool :=
  match fn_result fn r with Some _ => negb (noFallbackOnError (conf c)) | None => false end.

Lemma get_record_ok base pk c o n dn r rest fl ws bl fn :
  Full base pk c o (Some (n, dn, r :: rest)) fl ws -> zlen r <= bl ->
  exists c' o', get_record (zlen r) bl fn (at_off n (dn ++ r :: rest) (zlen (enc dn) + 4) c, o)
      = (Ok (mkGetOut (fn_seen fn r) (fn_result fn r)), (c', o')) /\ conf c' = conf c /\
    Full base pk c' o' (if keeps c fn r then Some (n, dn, r :: rest)
                        else Some (n, dn ++ [r], rest)) fl ws.
Proof.
  intros F Hbl. pose proof (full_rep _ _ _ _ _ _ _ F) as R.
  assert (faults o = []) as Hf by apply (rep_nofault _ _ _ _ _ R).
  unfold get_record. ztest.
  erewrite sbind_ok by (apply swrap_ok, read_body; done). ztest. cbn [negb].
  rewrite sbind_cget. fold (fn_result fn r). fold (fn_seen fn r).
  change (conf (at_off _ _ _ c)) with (conf c).
  destruct (advance_Full _ _ _ _ _ _ _ _ _ _ _ F (Rep_advance _ _ _ _ _ _ _ _ R)
    eq_refl eq_refl eq_refl) as (c' & o' & E & C & F').
  unfold advance_pos in E. change (conf (at_off _ _ _ c)) with (conf c) in E.
  unfold keeps. destruct (fn_result fn r) as [e|] eqn:Er.
  - destruct (noFallbackOnError (conf c)); cbn [negb].
    + exists c', o'. erewrite sbind_ok by exact E. done.
    + exists c, o. erewrite sbind_ok.
      2: { apply swrap_ok, rfd_Seek_at; [done|]. rewrite enc_snoc, zlen_app, zlen_enc_rec.
           pose proof (zlen_nonneg (enc dn)). unfold dataHeaderLen. lia. }
      split_and!; [|done|done]. unfold sret. do 3 f_equal.
      rewrite enc_snoc, zlen_app, zlen_enc_rec. unfold dataHeaderLen.
      replace (_ + _) with (zlen (enc dn)) by lia. by eapply Rep_at_off.
  - exists c', o'. erewrite sbind_ok by exact E. done.
Qed.

(** ** The loop *)

Lemma rec_ok_header r : rec_ok r -> get_u32 (put_u32 (zlen r)) = zlen r /\ (zlen r =? EOFHint) = false.
Proof.
  intros [H1 H2]. pose proof (zlen_nonneg r). split; [apply get_put_u32; lia|]. by apply Z.eqb_neq.
Qed.

Lemma get_loop_head base pk c o n dn r rest fl ws fuel bl fn :
  Full base pk c o (Some (n, dn, r :: rest)) fl ws -> zlen r <= bl (zlen r) ->
  exists c' o', get_loop (S fuel) bl fn (c, o)
      = (Ok (Some (mkGetOut (fn_seen fn r) (fn_result fn r))), (c', o')) /\ conf c' = conf c /\
    Full base pk c' o' (if keeps c fn r then Some (n, dn, r :: rest)
                        else Some (n, dn ++ [r], rest)) fl ws.
Proof.
  intros F Hbl. pose proof (full_rep _ _ _ _ _ _ _ F) as R.
  assert (rec_ok r) as Hr.
  { pose proof (rep_files _ _ _ _ _ R) as Q. apply Forall_cons_iff in Q as [(_ & Q & _) _].
    simpl in Q. rewrite Forall_forall in Q. apply Q. rewrite in_app_iff. simpl. auto. }
  destruct (rec_ok_header r Hr) as [H1 H2].
  cbn [get_loop]. unfold sbind at 1, cget at 1.
  destruct (rep_cur _ _ _ _ _ R) as [-> _].
  erewrite stry_run.
  2: { rewrite <- (Rep_at_off _ _ _ _ _ _ _ R) at 1. apply read_header. apply (rep_nofault _ _ _ _ _ R). }
  cbv beta iota. rewrite zlen_put_u32. change (4 =? dataHeaderLen) with true. cbv iota.
  unfold sbind at 1, cmod at 1. rewrite H1, H2.
  pose proof (Full_batchHeader _ _ _ _ _ _ _ (put_u32 (zlen r)) F) as F2.
  destruct (get_record_ok _ _ _ _ _ _ _ _ _ _ _ fn F2 Hbl) as (c' & o' & E & C & F').
  exists c', o'. change (set_batchHeader ?h (at_off ?a ?b ?d ?x)) with (at_off a b d (set_batchHeader h x)).
  erewrite sbind_ok by exact E. done.
Qed.

(** The offset of the descriptor does not matter when its file is left. *)
Lemma switch_off c o n dn rest fl ws rs off :
  Rep c o (Some (n, dn, rest)) fl ws ->
  switchNextFile (at_off n rs off c, o) = switchNextFile (c, o).
Proof.
  intros R. destruct (rep_cur _ _ _ _ _ R) as [Hr Hc]. pose proof (rep_nofault _ _ _ _ _ R) as Hf.
  unfold switchNextFile. rewrite !sbind_cget. change (curReadfile (at_off n rs off c)) with (curReadfile c).
  rewrite Hc, (proj2 (String.eqb_neq _ _)) by apply data_name_nonempty. simpl swhen.
  enough (removeCurrentReadingFile (at_off n rs off c, o) = removeCurrentReadingFile (c, o)) as En
    by (unfold sbind, swrap; by rewrite En).
  unfold removeCurrentReadingFile. rewrite !sbind_cget. rewrite Hr.
  change (curReadfile (at_off n rs off c)) with (curReadfile c).
  destruct (rfd_Close_ok c o _ Hf Hr eq_refl) as (c1 & E1 & E2).
  destruct (rfd_Close_ok (at_off n rs off c) o _ Hf eq_refl eq_refl) as (c2 & E3 & E4).
  set (m := swrap (CacheError OpClose) rfd_Close ;;; cmod (set_rfd None)).
  assert (m (c, o) = (Ok tt, (set_rfd None c, o))) as Ea.
  { subst m. erewrite sbind_ok by (apply swrap_ok; exact E1). rewrite <- E2. done. }
  assert (m (at_off n rs off c, o) = (Ok tt, (set_rfd None c, o))) as Eb.
  { subst m. erewrite sbind_ok by (apply swrap_ok; exact E3). unfold cmod. rewrite E4. done. }
  simpl rfd. cbv iota. fold m. erewrite (sbind_ok m _ (c, o)) by exact Ea.
  by erewrite sbind_ok by exact Eb.
Qed.

(** A consumed file is removed and the loop goes on in the next. *)
Lemma get_loop_skip base pk c o n dn fl ws fuel bl fn :
  Full base pk c o (Some (n, dn, [])) fl ws ->
  exists c' o', get_loop (S fuel) bl fn (c, o) = get_loop fuel bl fn (c', o') /\ conf c' = conf c /\
    Full base pk c' o' (next_cur fl) (tail fl) ws.
Proof.
  intros F. pose proof (full_rep _ _ _ _ _ _ _ F) as R.
  cbn [get_loop]. unfold sbind at 1, cget at 1.
  destruct (rep_cur _ _ _ _ _ R) as [-> _].
  erewrite stry_run.
  2: { rewrite <- (Rep_at_off _ _ _ _ _ _ _ R) at 1. apply read_header. apply (rep_nofault _ _ _ _ _ R). }
  cbv beta iota. unfold eof_mark at 1. rewrite zlen_put_u32. change (4 =? dataHeaderLen) with true. cbv iota.
  unfold sbind at 1, cmod at 1.
  change (get_u32 eof_mark) with EOFHint. rewrite Z.eqb_refl.
  pose proof (Full_batchHeader _ _ _ _ _ _ _ eof_mark F) as F2.
  change (set_batchHeader ?h (at_off ?a ?b ?d ?x)) with (at_off a b d (set_batchHeader h x)).
  destruct (switch_Some _ _ _ _ _ _ _ _ _ F2) as (c' & o' & E & C & F').
  exists c', o'. split_and!; [|done|done]. erewrite sbind_ok; [done|]. apply swrap_ok.
  by rewrite (switch_off _ _ _ _ _ _ _ _ _ (full_rep _ _ _ _ _ _ _ F2)).
Qed.

(** Number of loop rounds that are enough. *)
Definition rounds (cur : cursor) (fl : list (Z * list bytes)) : nat :=
  match cur with Some _ => S (S (length fl)) | None => 1 end.

(** With nothing left to read the loop ends with [ErrNoData]. *)
Lemma get_loop_empty base pk fl : forall c o cur ws fuel bl fn,
  Full base pk c o cur fl ws -> (cur = None -> fl = []) -> ready_of cur fl = [] ->
  (rounds cur fl <= fuel)%nat ->
  exists c' o', get_loop fuel bl fn (c, o) = (Err ErrNoData, (c', o')) /\ conf c' = conf c /\
    Full base pk c' o' None [] ws.
Proof.
  induction fl as [|[m rs] fl IH]; intros c o cur ws fuel bl fn F Hc Hr Hfu;
    (destruct fuel as [|fuel]; [destruct cur as [[[??]?]|]; simpl in Hfu; lia|]);
    (destruct cur as [[[n dn] rest]|]; [destruct rest; [|done]|]).
  - destruct (get_loop_skip _ _ _ _ _ _ _ _ fuel bl fn F) as (c1 & o1 & E & C & F1).
    simpl in F1, Hfu. destruct fuel as [|fuel]; [lia|].
    exists c1, o1. rewrite E. split_and!; [|done|done].
    cbn [get_loop]. rewrite sbind_cget.
    by destruct (rep_cur _ _ _ _ _ (full_rep _ _ _ _ _ _ _ F1)) as [-> _].
  - exists c, o. split_and!; [|done|done]. cbn [get_loop]. rewrite sbind_cget.
    by destruct (rep_cur _ _ _ _ _ (full_rep _ _ _ _ _ _ _ F)) as [-> _].
  - destruct (get_loop_skip _ _ _ _ _ _ _ _ fuel bl fn F) as (c1 & o1 & E & C & F1).
    unfold ready_of in Hr. simpl in F1, Hfu, Hr.
    destruct (IH c1 o1 _ ws fuel bl fn F1) as (c2 & o2 & E2 & C2 & F2).
    + done. + done. + simpl. lia.
    + exists c2, o2. rewrite E. split_and!; [done|congruence|done].
  - by specialize (Hc eq_refl).
Qed.

(** The next number depends on the numbers of the files only. *)
Lemma next_num_fst l l' : map fst l = map fst l' -> next_num l = next_num l'.
Proof.
  intros E. assert (forall k, next_num k = match list.last (fst <$> k) with Some m => m + 1 | None => 0 end) as K.
  { intros k. unfold next_num. rewrite fmap_last. by destruct (list.last k). }
  rewrite !K. change (fst <$> l) with (map fst l). by rewrite E.
Qed.

Lemma next_num_cons f g l : next_num (f :: g :: l) = next_num (g :: l).
Proof. done. Qed.

(** Otherwise it hands out the first record. *)
Lemma get_loop_deliver base pk fl : forall c o cur ws fuel bl fn r ready,
  Full base pk c o cur fl ws -> (cur = None -> fl = []) -> ready_of cur fl = r :: ready ->
  (rounds cur fl <= fuel)%nat -> zlen r <= bl (zlen r) ->
  exists c' o' cur' fl', get_loop fuel bl fn (c, o)
      = (Ok (Some (mkGetOut (fn_seen fn r) (fn_result fn r))), (c', o')) /\ conf c' = conf c /\
    Full base pk c' o' cur' fl' ws /\
    ready_of cur' fl' = (if keeps c fn r then r :: ready else ready) /\
    next_num (cur_file cur' ++ fl') = next_num (cur_file cur ++ fl).
Proof.
  induction fl as [|[m rs] fl IH]; intros c o cur ws fuel bl fn r ready F Hc Hr Hfu Hbl;
    (destruct fuel as [|fuel]; [destruct cur as [[[??]?]|]; simpl in Hfu; lia|]);
    (destruct cur as [[[n dn] rest]|]; [|by try specialize (Hc eq_refl)]);
    (destruct rest as [|r' rest];
      [|unfold ready_of in Hr; simpl in Hr; injection Hr as -> Hr;
        destruct (get_loop_head _ _ _ _ _ _ _ _ _ _ fuel bl fn F Hbl) as (c' & o' & E & C & F');
        exists c', o'; do 2 eexists; split_and!; [done|done|exact F'|by destruct (keeps c fn r); unfold ready_of; simpl; rewrite <- Hr|by apply next_num_fst; destruct (keeps c fn r)]]).
  - done.
  - destruct (get_loop_skip _ _ _ _ _ _ _ _ fuel bl fn F) as (c1 & o1 & E & C & F1).
    unfold ready_of in Hr. simpl in F1, Hfu, Hr.
    destruct (IH c1 o1 _ ws fuel bl fn r ready F1) as (c2 & o2 & cur2 & fl2 & E2 & C2 & F2 & Q & Q').
    + done. + done. + simpl. lia. + done.
    + exists c2, o2, cur2, fl2. rewrite E. unfold keeps in *. rewrite C in Q.
      split_and!; [done|congruence|done|done|]. rewrite Q'. done.
Qed.

(** ** Get *)

(** The sleeping write file is due to be rotated. *)
Definition woken (free : bool) (c : DiskCache) (o : OS) : bool :=
  free && ((wakeup (conf c) <? now o - wfdLastWrite c) && (0 <? curBatchSize c)).

Lemma wakeup_Full base pk free c o cur fl ws :
  Full base pk c o cur fl ws -> room cur fl ->
  exists c' o', wakeup_rotate free (c, o) = (Ok tt, (c', o')) /\ conf c' = conf c /\
    Full base pk c' o' cur
      (if woken free c o then fl ++ [(next_num (cur_file cur ++ fl), ws)] else fl)
      (if woken free c o then [] else ws).
Proof.
  intros F Hn. unfold wakeup_rotate, woken. destruct free; simpl andb; [|by exists c, o].
  rewrite sbind_cget. unfold sbind at 1, onow at 1.
  destruct ((wakeup (conf c) <? _) && _); [|by exists c, o].
  destruct (rotate_Full _ _ _ _ _ _ _ F Hn) as (c' & o' & E & C & F').
  exists c', o'. by erewrite swrap_ok by exact E.
Qed.

(** Before the loop a file is opened unless one is being read. *)
Lemma enter_Full base pk c o cur fl ws :
  Full base pk c o cur fl ws ->
  exists c' o' cur' fl',
    (match rfd c with None => swrap (CacheError OpGet) switchNextFile | Some _ => sret tt end) (c, o)
      = (Ok tt, (c', o')) /\ conf c' = conf c /\ Full base pk c' o' cur' fl' ws /\
    (cur' = None -> fl' = []) /\ ready_of cur' fl' = ready_of cur fl /\
    next_num (cur_file cur' ++ fl') = next_num (cur_file cur ++ fl) /\
    (rounds cur' fl' <= S (S (length (dataFiles c'))))%nat.
Proof.
  intros F. pose proof (rep_cur _ _ _ _ _ (full_rep _ _ _ _ _ _ _ F)) as Hc.
  assert (forall c' o' cur' fl', Full base pk c' o' cur' fl' ws ->
    (rounds cur' fl' <= S (S (length (dataFiles c'))))%nat) as K.
  { intros c' o' cur' fl' F'. rewrite (rep_names _ _ _ _ _ (full_rep _ _ _ _ _ _ _ F')).
    rewrite length_map, length_app. destruct cur' as [[[??]?]|]; simpl; lia. }
  destruct cur as [[[n dn] rest]|].
  - destruct Hc as [-> _]. exists c, o. do 2 eexists. split_and!; try done. by eapply K.
  - destruct Hc as [-> _]. destruct (switch_None _ _ _ _ _ _ F) as (c' & o' & E & C & F').
    exists c', o'. do 2 eexists. erewrite swrap_ok by exact E.
    split_and!; [done|done|exact F'|by destruct fl as [|[]]|by destruct fl as [|[]]|by destruct fl as [|[]]|].
    by eapply K.
Qed.

(** [Get] on the abstract queue: [q] is what can be read after a due wake-up. *)
Lemma doGet_Full base pk free buf fn c o cur fl ws :
  Full base pk c o cur fl ws -> room cur fl ->
  (forall n, n <= readbuf_len buf n) ->
  exists res c' o' cur' fl', doGet free buf fn (c, o) = (res, (c', o')) /\ conf c' = conf c /\
    Full base pk c' o' cur' fl' (if woken free c o then [] else ws) /\
    next_num (cur_file cur' ++ fl') <= next_num (cur_file cur ++ fl) + 1 /\
    match ready_of cur fl ++ (if woken free c o then ws else []) with
    | [] => res = Err ErrNoData /\ ready_of cur' fl' = [] /\ cur' = None /\ fl' = []
    | r :: q => res = Ok (Some (mkGetOut (fn_seen fn r) (fn_result fn r))) /\
                ready_of cur' fl' = (if keeps c fn r then r :: q else q)
    end.
Proof.
  intros F Hn Hb. unfold doGet. rewrite sbind_cget.
  rewrite (rep_open _ _ _ _ _ (full_rep _ _ _ _ _ _ _ F)).
  destruct (wakeup_Full _ _ free _ _ _ _ _ F Hn) as (c1 & o1 & E1 & C1 & F1).
  erewrite sbind_ok by exact E1. rewrite sbind_cget.
  set (fl1 := if woken free c o then fl ++ _ else fl) in *.
  set (ws1 := if woken free c o then [] else ws) in *.
  assert (ready_of cur fl1 = ready_of cur fl ++ (if woken free c o then ws else [])) as Rd.
  { subst fl1. destruct (woken free c o); [|by rewrite app_nil_r].
    unfold ready_of. rewrite map_app, concat_app, app_assoc. simpl. by rewrite app_nil_r. }
  assert (0 <= next_num (cur_file cur ++ fl) /\ next_num (cur_file cur ++ fl1) <= next_num (cur_file cur ++ fl) + 1) as [Nn0 Nn].
  { pose proof (full_rep _ _ _ _ _ _ _ F) as R. split.
    - apply (next_num_above _ (rep_sorted _ _ _ _ _ R) (Rep_nums _ _ _ _ _ R)).
    - subst fl1. destruct (woken free c o); [|lia]. rewrite app_assoc.
      unfold next_num at 1. rewrite last_snoc. simpl. lia. }
  rewrite <- Rd.
  destruct (enter_Full _ _ _ _ _ _ _ F1) as (c2 & o2 & cur2 & fl2 & E2 & C2 & F2 & N2 & R2 & M2 & L2).
  erewrite sbind_ok by exact E2. rewrite sbind_cget.
  destruct (ready_of cur fl1) as [|r q] eqn:Er.
  - destruct (get_loop_empty _ _ _ _ _ _ _ _ (readbuf_len buf) fn F2 N2 R2 L2)
      as (c3 & o3 & E3 & C3 & F3).
    do 5 eexists. split; [exact E3|]. split_and!; [congruence|exact F3|unfold next_num at 1; simpl; lia|done..].
  - destruct (get_loop_deliver _ _ _ _ _ _ _ _ (readbuf_len buf) fn r q F2 N2 R2 L2 (Hb _))
      as (c3 & o3 & cur3 & fl3 & E3 & C3 & F3 & R3 & M3).
    do 5 eexists. split; [exact E3|].
    split_and!; [congruence|exact F3|lia|done|]. rewrite R3. unfold keeps. by rewrite C2, C1.
Qed.
