(* ===== verification/DiskRefine.v ===== *)
(** * The disk cache refines a FIFO queue

    [qstep] is the abstract specification: a queue of records that can be read and a
    batch of records that cannot be read yet.  [run_refines] shows that any sequence of
    operations on a well-formed cache is a run of the specification, and
    [fifo_no_loss] that no record is lost, duplicated or reordered. *)

From S2P Require Import Prelude GoNum DiskFS DiskCache DiskOpen DiskSpec DiskQueue DiskInv DiskGet.

(** ** Operations as values *)

Inductive cop : Type :=
| CPut (d : bytes)
| CGet (f : bytes -> option error)
| CRotate
| CTick (t : Z).                      (* time passes *)

Definition out : Type := Res error (option GetOut).

Definition no_out (m : M unit) : M (option GetOut) := m ;;; sret None.

Definition exec (p : cop) : M (option GetOut) :=
  match p with
  | CPut d => no_out (Put d)
  | CGet f => Get (Some f)
  | CRotate => no_out Rotate
  | CTick t => fun '(c, o) =>
      (Ok None, (c, mkOS (files o) (faults o) (now o + t) (flocks o) (env o)))
  end.

Fixpoint run (ops : list cop) (s : St) : list out * St :=
  match ops with
  | [] => ([], s)
  | p :: ops' =>
      let '(r, s1) := exec p s in
      let '(rs, s2) := run ops' s1 in
      (r :: rs, s2)
  end.

(** ** The specification *)

Record AQ := mkAQ {
  aready : list bytes;
  apending : list bytes
}.

Definition flush (q : AQ) : AQ := mkAQ (aready q ++ apending q) [].

(** What a Get gives on a queue; [nofb] is [noFallbackOnError]. *)
Definition qget (nofb : bool) (f : bytes -> option error) (q : AQ) : out * AQ :=
  match aready q with
  | [] => (Err ErrNoData, q)
  | r :: rs =>
      let e := f r in
      (Ok (Some (mkGetOut (Some r) e)),
       match e with
       | Some _ => if nofb then mkAQ rs (apending q) else q
       | None => mkAQ rs (apending q)
       end)
  end.

Inductive qstep (cf : Conf) : cop -> AQ -> out -> AQ -> Prop :=
| q_put_stay d q :
    zlen (enc (apending q ++ [d])) < batchSize cf ->
    qstep cf (CPut d) q (Ok None) (mkAQ (aready q) (apending q ++ [d]))
| q_put_flush d q :
    batchSize cf <= zlen (enc (apending q ++ [d])) ->
    qstep cf (CPut d) q (Ok None) (flush (mkAQ (aready q) (apending q ++ [d])))
| q_put_full d q :
    0 < capacity cf -> qstep cf (CPut d) q (Err (CacheError OpPut ErrCacheFull)) q
| q_put_large d q :
    0 < maxDataSize cf -> maxDataSize cf < int32 (zlen d) ->
    qstep cf (CPut d) q (Err (CacheError OpPut ErrTooLargeData)) q
| q_rotate q : qstep cf CRotate q (Ok None) (flush q)
| q_tick t q : qstep cf (CTick t) q (Ok None) q
| q_get f q r q' :
    qget (noFallbackOnError cf) f q = (r, q') -> qstep cf (CGet f) q r q'
| q_get_wake f q r q' :
    apending q <> [] ->
    qget (noFallbackOnError cf) f (flush q) = (r, q') -> qstep cf (CGet f) q r q'.

Inductive qrun (cf : Conf) : list cop -> AQ -> list out -> AQ -> Prop :=
| qrun_nil q : qrun cf [] q [] q
| qrun_cons p ops q r q1 rs q2 :
    qstep cf p q r q1 -> qrun cf ops q1 rs q2 -> qrun cf (p :: ops) q (r :: rs) q2.

(** The record a step put in, and the one it took out. *)
Definition accepted1 (p : cop) (r : out) : list bytes :=
  match p, r with CPut d, Ok _ => [d] | _, _ => [] end.

Definition taken1 (nofb : bool) (r : out) : list bytes :=
  match r with
  | Ok (Some (mkGetOut (Some d) None)) => [d]
  | Ok (Some (mkGetOut (Some d) (Some _))) => if nofb then [d] else []
  | _ => []
  end.

(** Records accepted by the Puts of a run, and records its Gets took out. *)
Fixpoint accepted (ops : list cop) (rs : list out) : list bytes :=
  match ops, rs with
  | p :: ops', r :: rs' => accepted1 p r ++ accepted ops' rs'
  | _, _ => []
  end.

Definition taken (nofb : bool) (rs : list out) : list bytes := concat (map (taken1 nofb) rs).

(** ** The specification keeps every record, in order *)

Definition content (q : AQ) : list bytes := aready q ++ apending q.

Lemma content_flush q : content (flush q) = content q.
Proof. unfold content. simpl. by rewrite app_nil_r. Qed.

Lemma qget_content nofb f q r q' :
  qget nofb f q = (r, q') -> content q = taken1 nofb r ++ content q'.
Proof.
  unfold qget, content. destruct (aready q) as [|x xs] eqn:E; intros [= <- <-].
  - by rewrite E.
  - simpl. destruct (f x); destruct nofb; simpl; by rewrite ?E.
Qed.

Lemma qstep_content cf p q r q1 :
  qstep cf p q r q1 ->
  content q ++ accepted1 p r = taken1 (noFallbackOnError cf) r ++ content q1.
Proof.
  intros H. destruct H as [d q H|d q H|d q H|d q H1 H2|q|t q|f q r q' H|f q r q' H1 H];
    rewrite ?content_flush; simpl accepted1; rewrite ?app_nil_r; try done.
  - unfold content. simpl. by rewrite app_assoc.
  - unfold content. simpl. by rewrite app_assoc.
  - by apply qget_content in H.
  - apply qget_content in H. by rewrite content_flush in H.
Qed.

Lemma qrun_content cf ops q rs q' :
  qrun cf ops q rs q' ->
  content q ++ accepted ops rs = taken (noFallbackOnError cf) rs ++ content q'.
Proof.
  intros H. induction H as [q|p ops q r q1 rs q2 H1 H2 IH].
  - simpl. by rewrite app_nil_r.
  - cbn [accepted]. unfold taken. simpl.
    rewrite app_assoc, (qstep_content _ _ _ _ _ H1), <- !app_assoc. f_equal. exact IH.
Qed.

(** ** Simulation *)

(** A cache that rejects data instead of dropping files. *)
Definition no_dropping (cf : Conf) : bool := (capacity cf <=? 0) || noDrop cf || filoDrop cf.

Definition op_ok (pk : bool) (p : cop) : Prop :=
  match p with CPut d => rec_ok d /\ (pk = true -> d <> []) | _ => True end.

Definition abs (cur : cursor) (fl : list (Z * list bytes)) (ws : list bytes) : AQ :=
  mkAQ (ready_of cur fl) ws.

Lemma abs_flush cur fl ws n : abs cur (fl ++ [(n, ws)]) [] = flush (abs cur fl ws).
Proof.
  unfold abs, flush, ready_of. simpl. rewrite map_app, concat_app, app_assoc. simpl.
  by rewrite app_nil_r.
Qed.

Lemma next_num_snoc (l : list (Z * list bytes)) n ws : next_num (l ++ [(n, ws)]) = n + 1.
Proof. unfold next_num. by rewrite last_snoc. Qed.

(** A full cache that does not drop refuses the record and stays as it is. *)
Lemma Put_full c o d :
  closed c = false -> IsFull c d = true -> noDrop (conf c) || filoDrop (conf c) = true ->
  Put d (c, o) = (Err (CacheError OpPut ErrCacheFull), (c, o)).
Proof.
  intros Hc Hf Hd. unfold Put. rewrite sbind_cget, Hc, Hf.
  destruct (noDrop (conf c)); [done|]. simpl in Hd. by rewrite Hd.
Qed.

Lemma Put_large c o d :
  closed c = false -> IsFull c d = false -> too_large c d = true ->
  Put d (c, o) = (Err (CacheError OpPut ErrTooLargeData), (c, o)).
Proof.
  intros Hc Hf Hl. unfold Put. rewrite sbind_cget, Hc, Hf. erewrite sbind_ok by reflexivity.
  fold (too_large c d). by rewrite Hl.
Qed.

(** One operation of the cache is one step of the specification. *)
Lemma exec_refines base pk p c o cur fl ws :
  Full base pk c o cur fl ws -> room cur fl -> op_ok pk p -> no_dropping (conf c) = true ->
  exists r c' o' cur' fl' ws', exec p (c, o) = (r, (c', o')) /\ conf c' = conf c /\
    Full base pk c' o' cur' fl' ws' /\
    next_num (cur_file cur' ++ fl') <= next_num (cur_file cur ++ fl) + 1 /\
    qstep (conf c) p (abs cur fl ws) r (abs cur' fl' ws').
Proof.
  intros F Hn Hp Hd. pose proof (full_rep _ _ _ _ _ _ _ F) as R.
  pose proof (rep_open _ _ _ _ _ R) as Hc.
  destruct p as [d|f| |t]; simpl exec.
  - destruct Hp as [Hd1 Hd2]. destruct (IsFull c d) eqn:Ef.
    { exists (Err (CacheError OpPut ErrCacheFull)), c, o, cur, fl, ws. unfold no_out.
      unfold IsFull in Ef. unfold no_dropping in Hd. bool_to_prop.
      erewrite sbind_err; [|apply Put_full; [done|unfold IsFull; ztest; done|]].
      - split_and!; [done|done|done|lia|by constructor].
      - destruct Hd as [Hd| ->]; [|by rewrite orb_true_r].
        apply orb_true_iff in Hd as [Hd| ->]; [bool_to_prop; lia|done]. }
    destruct (too_large c d) eqn:El.
    { exists (Err (CacheError OpPut ErrTooLargeData)), c, o, cur, fl, ws. unfold no_out.
      erewrite sbind_err by (by apply Put_large). unfold too_large in El. bool_to_prop.
      split_and!; [done|done|done|lia|by constructor]. }
    destruct (Put_Full _ _ _ _ _ _ _ _ F Hn Hd1 Hd2 Ef El) as (c' & o' & E & C & F').
    assert (curBatchSize c + (zlen d + dataHeaderLen) = zlen (enc (ws ++ [d]))) as Eb.
    { rewrite (rep_batch _ _ _ _ _ R), enc_snoc, zlen_app, zlen_enc_rec. unfold dataHeaderLen. lia. }
    unfold fills in F'. rewrite Eb in F'. unfold no_out. erewrite sbind_ok by exact E.
    destruct (batchSize (conf c) <=? zlen (enc (ws ++ [d]))) eqn:Eq; bool_to_prop; do 6 eexists;
      (split; [done|]); (split_and!; [done|exact F'|..]).
    + rewrite app_assoc, next_num_snoc. lia.
    + rewrite abs_flush. by constructor.
    + lia.
    + by constructor.
  - destruct (doGet_Full _ _ true BufNil (Some f) _ _ _ _ _ F Hn) as (r & c' & o' & cur' & fl' & E & C & F' & Nn & Q).
    { intros n. simpl. lia. }
    exists r, c', o'. do 3 eexists. split; [exact E|]. split_and!; [done|exact F'|done|].
    assert (forall q, aready q = ready_of cur fl ++ (if woken true c o then ws else []) ->
              apending q = (if woken true c o then [] else ws) ->
              qget (noFallbackOnError (conf c)) f q = (r, abs cur' fl' (if woken true c o then [] else ws))) as K.
    { intros q Q1 Q2. unfold qget. rewrite Q1.
      destruct (ready_of cur fl ++ _) as [|x xs] eqn:Ex; destruct Q as [-> Q].
      - destruct Q as [Q _]. f_equal. unfold abs. rewrite Q. destruct q; simpl in *. congruence.
      - unfold fn_seen, fn_result, keeps, abs, fn_result in *. rewrite Q, Q2. f_equal.
        destruct (f x); [|done]. destruct (noFallbackOnError (conf c)); simpl; [done|].
        destruct q; simpl in *. congruence. }
    destruct (woken true c o) eqn:W.
    + apply q_get_wake; [|by apply K]. simpl. intros ->.
      unfold woken in W. rewrite (rep_batch _ _ _ _ _ R) in W. simpl in W. by rewrite andb_false_r in W.
    + apply q_get. apply K; [|done]. simpl. by rewrite app_nil_r.
  - destruct (rotate_Full _ _ _ _ _ _ _ F Hn) as (c' & o' & E & C & F').
    unfold no_out, Rotate. erewrite sbind_ok by (rewrite sbind_cget, Hc; exact E).
    do 6 eexists. split; [done|]. split_and!; [done|exact F'| |].
    + rewrite app_assoc, next_num_snoc. lia.
    + rewrite abs_flush. constructor.
  - do 3 eexists. exists cur, fl, ws. split; [done|]. split_and!; [done| |lia|constructor].
    destruct F as [R' S P N]. split; [by rep_ext R'|done| |done].
    intros K. destruct (P K) as [P1 P2]. split; [done|]. by eapply PosOk_ext; [exact P2|..].
Qed.

(** A sequence of operations is a run of the specification. *)
Lemma run_simulates ops : forall base pk c o cur fl ws,
  Full base pk c o cur fl ws -> Forall (op_ok pk) ops -> no_dropping (conf c) = true ->
  next_num (cur_file cur ++ fl) + zlen ops < 2 ^ 63 - 1 ->
  let '(rs, s') := run ops (c, o) in
  exists cur' fl' ws', Full base pk s'.1 s'.2 cur' fl' ws' /\ conf s'.1 = conf c /\
    qrun (conf c) ops (abs cur fl ws) rs (abs cur' fl' ws').
Proof.
  induction ops as [|p ops IH]; intros base pk c o cur fl ws F Ho Hd Hb.
  - do 3 eexists. split_and!; [exact F|done|constructor].
  - apply Forall_cons_iff in Ho as [Ho1 Ho2]. rewrite zlen_cons in Hb. pose proof (zlen_nonneg ops).
    assert (room cur fl) as Hn.
    { pose proof (full_rep _ _ _ _ _ _ _ F) as R. unfold room, num_ok. split; [|lia].
      apply (next_num_above _ (rep_sorted _ _ _ _ _ R) (Rep_nums _ _ _ _ _ R)). }
    destruct (exec_refines _ _ _ _ _ _ _ _ F Hn Ho1 Hd)
      as (r & c1 & o1 & cur1 & fl1 & ws1 & E & C & F1 & Nn & Q).
    cbn [run]. rewrite E. specialize (IH base pk c1 o1 cur1 fl1 ws1 F1 Ho2).
    rewrite C in IH. specialize (IH Hd ltac:(lia)).
    destruct (run ops (c1, o1)) as [rs s2]. destruct IH as (cur2 & fl2 & ws2 & F2 & C2 & Q2).
    do 3 eexists. split_and!; [exact F2|done|]. by econstructor.
Qed.
