(* ===== verification/DiskReopen.v ===== *)
(** * Opening a disk cache on what a previous process left ([open.go], [switch.go])

    [Disk] describes the directory of a cache: rotated files, the write file, [.pos].
    [doOpen] on it yields a well-formed cache whose cursor stands where [.pos] says. *)

From S2P Require Import Prelude GoNum DiskFS DiskCache DiskOpen DiskSpec DiskQueue DiskInv DiskGet.

(** ** The directory *)

Definition proper_dir (dir : string) : Prop := dir <> "" /\ dir <> "/".

Record Disk (dir : string) (o : OS) (cur : cursor) (fl : list (Z * list bytes))
    (ws : list bytes) : Prop := {
  dk_proper : proper_dir dir;
  dk_nofault : faults o = [];
  dk_env : env o = [];
  dk_dir : files o !! dir = Some Dir \/ files o !! dir = None;
  dk_lockfile : files o !! newFlock dir <> Some Dir;
  dk_data : files o !! JoinPath dir "data" = Some (File (enc ws)) \/
            (files o !! JoinPath dir "data" = None /\ ws = []);
  dk_ws : Forall rec_ok ws;
  dk_sorted : StronglySorted Z.lt (map fst (cur_file cur ++ fl));
  dk_files : Forall (fun f => num_ok f.1 /\ Forall rec_ok f.2 /\
               files o !! data_name dir f.1 = Some (File (enc_file f.2))) (cur_file cur ++ fl);
  dk_nodir : forall n, seq_ok n -> files o !! data_name dir n <> Some Dir;
  dk_posdir : files o !! JoinPath dir ".pos" <> Some Dir;
  dk_only : forall p b, files o !! p = Some (File b) -> String.prefix (dir +:+ "/") p = true ->
              is_data_entry p = true -> exists f, In f (cur_file cur ++ fl) /\ p = data_name dir f.1;
  dk_pos : match cur with
           | None => pos_idle (files o !! JoinPath dir ".pos")
           | Some (n, dn, _) => zlen (enc dn) < 2 ^ 63 /\
               files o !! JoinPath dir ".pos" = Some (File (stored (zlen (enc dn)) (data_name dir n)))
           end
}.

(** A cache before [doOpen]: options applied, nothing opened. *)
Record Fresh (c : DiskCache) : Prop := {
  fresh_fields : c = set_pos (pos c) (set_conf (conf c) defaultInstance);
  fresh_name : Name (pos c) = None;
  fresh_fd : pfd (pos c) = false
}.

(** ** The environment is empty *)

Lemma env_val_nil o k : env o = [] -> env_val o k = None.
Proof. intros E. unfold env_val, LookupEnv. by rewrite E. Qed.

Lemma syncEnv_nil pd o c : env o = [] -> syncEnv pd o c = c.
Proof. intros E. unfold syncEnv, env_int, env_flag. by rewrite !env_val_nil. Qed.

(** ** The scan *)

Definition found (c : DiskCache) (l : list (string * Z)) : DiskCache :=
  let d := List.filter (fun e => is_data_entry e.1) l in
  set_dataFiles (dataFiles c ++ map fst d) (set_size (size c + foldr (fun e acc => e.2 + acc) 0 d) c).

Lemma scan_found l : forall c, fold_left scan_entry l c = found c l.
Proof.
  induction l as [|[p sz] l IH]; intros c.
  - unfold found, set_dataFiles, set_size. destruct c; simpl. by rewrite app_nil_r, Z.add_0_r.
  - cbn [fold_left scan_entry]. rewrite IH. unfold found. cbn [List.filter]. simpl fst.
    destruct (is_data_entry p); [|done]. simpl. rewrite <- app_assoc. simpl.
    unfold set_dataFiles, set_size; simpl. by rewrite Z.add_assoc.
Qed.

(** [walk_files] lists each file once, *)
Lemma walk_nodup dir o : NoDup (fst <$> walk_files dir o).
Proof.
  unfold walk_files. pose proof (NoDup_fst_map_to_list (files o)) as N. revert N.
  generalize (map_to_list (files o)) as l.
  induction l as [|[p n] l IH]; intros N; [constructor|].
  apply list.NoDup_cons in N as [N1 N2]. specialize (IH N2).
  assert (forall x, x ∈ (fst <$> omap (fun pn : string * node => match pn with
     | (p, File b) => if String.prefix (dir +:+ "/") p then Some (p, zlen b) else None
     | (_, Dir) => None end) l) -> x ∈ (fst <$> l)) as Sub.
  { intros x Hx. apply list_elem_of_fmap in Hx as (y & -> & Hy).
    apply list_elem_of_omap in Hy as ([q [b|]] & Hq & Hy); [|done].
    destruct (String.prefix _ _); [|done]. injection Hy as <-. simpl.
    apply list_elem_of_fmap. by exists (q, File b). }
  simpl. destruct n as [b|]; [|done]. destruct (String.prefix _ p); [|done].
  simpl. apply list.NoDup_cons. split; [|done]. intros H. by apply Sub in H.
Qed.

(** and lists the regular files below the directory. *)
Lemma walk_elem dir o p sz :
  (p, sz) ∈ walk_files dir o <->
  exists b, files o !! p = Some (File b) /\ sz = zlen b /\ String.prefix (dir +:+ "/") p = true.
Proof.
  unfold walk_files. rewrite list_elem_of_omap. split.
  - intros ([q [b|]] & Hq & Hy); [|done]. apply elem_of_map_to_list in Hq.
    destruct (String.prefix _ _) eqn:E; [|done]. injection Hy as <- <-. by exists b.
  - intros (b & H1 & -> & H2). exists (p, File b). rewrite elem_of_map_to_list, H2. done.
Qed.

Lemma prefix_app a b : String.prefix a (a +:+ b) = true.
Proof. induction a as [|c a IH]; [by destruct b|]. rewrite sapp_cons. simpl. by destruct (Ascii.ascii_dec c c). Qed.

Lemma JoinPath_proper dir x : proper_dir dir -> JoinPath dir x = (dir +:+ "/") +:+ x.
Proof.
  intros [H1 H2]. unfold JoinPath.
  rewrite (proj2 (String.eqb_neq _ _) H1), (proj2 (String.eqb_neq _ _) H2).
  apply sapp_assoc.
Qed.

Lemma data_name_entry dir n : seq_ok n -> is_data_entry (data_name dir n) = true.
Proof. intros H. unfold is_data_entry. by rewrite Base_data_name. Qed.

Definition file_entry (dir : string) (f : Z * list bytes) : string * Z :=
  (data_name dir f.1, zlen (enc_file f.2)).

Lemma entries_nodup dir (l : list (Z * list bytes)) :
  StronglySorted Z.lt (map fst l) -> Forall (fun f => num_ok f.1) l ->
  NoDup (file_entry dir <$> l).
Proof.
  induction l as [|f l IH]; intros S F; [constructor|].
  apply StronglySorted_inv in S as [S1 S2]. apply Forall_cons_iff in F as [F1 F2].
  simpl. apply list.NoDup_cons. split; [|by apply IH].
  intros H. apply list_elem_of_fmap in H as (g & E & Hg). injection E as E _.
  apply list_elem_of_In in Hg. rewrite Forall_forall in S2, F2.
  specialize (S2 _ (in_map fst _ _ Hg)). specialize (F2 g Hg).
  apply data_name_inj in E; auto with go. lia.
Qed.

(** The scan finds exactly the rotated files, with their sizes. *)
Lemma scan_perm dir o l :
  proper_dir dir -> StronglySorted Z.lt (map fst l) ->
  Forall (fun f => num_ok f.1 /\ Forall rec_ok f.2 /\
    files o !! data_name dir f.1 = Some (File (enc_file f.2))) l ->
  (forall p b, files o !! p = Some (File b) -> String.prefix (dir +:+ "/") p = true ->
     is_data_entry p = true -> exists f, In f l /\ p = data_name dir f.1) ->
  List.filter (fun e => is_data_entry e.1) (walk_files dir o) ≡ₚ file_entry dir <$> l.
Proof.
  intros Hd S F O. apply NoDup_Permutation.
  - apply NoDup_ListNoDup, List.NoDup_filter, NoDup_ListNoDup. eapply NoDup_fmap_1, walk_nodup.
  - apply entries_nodup; [done|]. eapply Forall_impl; [|exact F]. by intros f [? _].
  - rewrite Forall_forall in F. intros [p sz].
    rewrite list_elem_of_In, List.filter_In, <- list_elem_of_In, walk_elem. simpl. split.
    + intros [(b & H1 & -> & H2) H3]. destruct (O _ _ H1 H2 H3) as (f & Hf & ->).
      destruct (F f Hf) as (_ & _ & E). rewrite E in H1. injection H1 as <-.
      apply list_elem_of_fmap. exists f. by rewrite list_elem_of_In.
    + intros H. apply list_elem_of_fmap in H as (f & E & Hf). injection E as -> ->.
      apply list_elem_of_In in Hf. destruct (F f Hf) as (E1 & _ & E2). split.
      * exists (enc_file f.2). split_and!; [done|done|].
        unfold data_name. rewrite JoinPath_proper by done. apply prefix_app.
      * apply data_name_entry. auto with go.
Qed.

(** The drift of the size counter: rotated files without records count at open. *)
Definition drift (l : list (Z * list bytes)) : Z :=
  foldr (fun f acc => zlen (enc_file f.2) - file_weight f.2 + acc) 0 l.

Lemma sum_entries dir l :
  foldr (fun e acc => e.2 + acc) 0 (file_entry dir <$> l) = drift l + total l.
Proof. induction l as [|f l IH]; csimpl; [done|]. rewrite IH. unfold file_weight. lia. Qed.

Lemma sum_perm (l k : list (string * Z)) :
  l ≡ₚ k -> foldr (fun e acc => e.2 + acc) 0 l = foldr (fun e acc => e.2 + acc) 0 k.
Proof. induction 1; simpl; lia. Qed.

(** ** Preparing the directory *)

Lemma JoinPath_ne_dir dir x : proper_dir dir -> JoinPath dir x <> dir.
Proof.
  intros Hd E. rewrite JoinPath_proper in E by done. apply (f_equal String.length) in E.
  assert (forall a b, String.length (a +:+ b) = (String.length a + String.length b)%nat) as L.
  { induction a as [|c a IH]; intros b; [done|]. rewrite sapp_cons. simpl. by rewrite IH. }
  rewrite !L in E. simpl in E. lia.
Qed.

(** The directory, the lock file and an absent write file may be created. *)
Lemma Disk_create dir o o' cur fl ws :
  Disk dir o cur fl ws -> faults o' = faults o -> env o' = env o ->
  (forall q, q <> dir -> q <> newFlock dir -> q <> JoinPath dir "data" -> files o' !! q = files o !! q) ->
  (files o' !! dir = Some Dir \/ files o' !! dir = None) ->
  files o' !! newFlock dir <> Some Dir ->
  (files o' !! JoinPath dir "data" = Some (File (enc ws)) \/
   (files o' !! JoinPath dir "data" = None /\ ws = [])) ->
  Disk dir o' cur fl ws.
Proof.
  intros D E1 E2 E3 E4 E5 E6. destruct D as [D1 D2 D3 D4 D5 D6 D7 D8 D9 D10 D11 D12 D13].
  assert (forall n, seq_ok n -> files o' !! data_name dir n = files o !! data_name dir n) as K.
  { intros n Hn. apply E3; [by apply JoinPath_ne_dir|apply data_name_ne; auto..]. }
  assert (files o' !! JoinPath dir ".pos" = files o !! JoinPath dir ".pos") as Kp.
  { apply E3; [by apply JoinPath_ne_dir|by apply JoinPath_ne..]. }
  split; rewrite ?E1, ?E2, ?Kp; try done.
  - eapply Forall_impl; [|exact D9]. intros f (F1 & F2 & F3). split_and!; [done|done|].
    rewrite K; auto with go.
  - intros n Hn. rewrite K by done. by apply D10.
  - intros p b Hp Pp Ep. eapply D12; [|done|done]. rewrite <- E3, Hp; [done|..].
    + intros ->. destruct E4; congruence.
    + intros ->. unfold is_data_entry, newFlock in Ep. by rewrite Base_JoinPath in Ep.
    + intros ->. unfold is_data_entry in Ep. by rewrite Base_JoinPath in Ep.
Qed.

Lemma mkdir_Disk dir o cur fl ws :
  Disk dir o cur fl ws ->
  exists o', os_MkdirAll dir o = (Ok tt, o') /\ Disk dir o' cur fl ws /\ flocks o' = flocks o /\
    now o' = now o.
Proof.
  intros D. unfold os_MkdirAll. mred. rewrite sys_ok by (by destruct D).
  destruct (dk_dir _ _ _ _ _ D) as [E|E]; rewrite E; [by exists o|].
  eexists. split; [done|]. split_and!; [|done|done].
  pose proof (dk_proper _ _ _ _ _ D) as Hp.
  eapply Disk_create; [exact D|done|done|..]; simpl.
  - intros q H1 _ _. by apply lookup_insert_ne.
  - left. apply lookup_insert_eq.
  - rewrite lookup_insert_ne; [apply (dk_lockfile _ _ _ _ _ D)|]. apply not_eq_sym, JoinPath_ne_dir, Hp.
  - rewrite lookup_insert_ne; [apply (dk_data _ _ _ _ _ D)|]. apply not_eq_sym, JoinPath_ne_dir, Hp.
Qed.

Lemma lock_Disk dir o cur fl ws :
  Disk dir o cur fl ws -> newFlock dir ∉ flocks o ->
  exists o', tryLock (newFlock dir) o = (Ok tt, o') /\ Disk dir o' cur fl ws /\
    flocks o' = {[newFlock dir]} ∪ flocks o /\ now o' = now o.
Proof.
  intros D Hl. pose proof (dk_nofault _ _ _ _ _ D) as Hf. pose proof (dk_proper _ _ _ _ _ D) as Hp.
  assert (exists o1, os_OpenAppend (newFlock dir) o = (Ok tt, o1) /\ faults o1 = [] /\
    flocks o1 = flocks o /\ now o1 = now o /\ Disk dir o1 cur fl ws) as (o1 & E1 & F1 & L1 & N1 & D1).
  { pose proof (dk_lockfile _ _ _ _ _ D) as Hnd.
    destruct (files o !! newFlock dir) as [[b|]|] eqn:E; [|done|].
    - erewrite os_OpenAppend_old by done. by exists o.
    - rewrite os_OpenAppend_new by done. eexists. split; [done|]. split_and!; try done.
      eapply Disk_create; [exact D|done|done|..]; simpl.
      + intros q _ H1 _. by apply lookup_insert_ne.
      + rewrite lookup_insert_ne; [apply (dk_dir _ _ _ _ _ D)|]. by apply JoinPath_ne_dir.
      + by rewrite lookup_insert_eq.
      + rewrite lookup_insert_ne; [apply (dk_data _ _ _ _ _ D)|]. by apply JoinPath_ne. }
  unfold tryLock. erewrite sbind_ok by exact E1.
  erewrite stry_run.
  2: { unfold sys_FlockEx. mred. rewrite sys_ok by done. rewrite bool_decide_eq_false_2 by (by rewrite L1). done. }
  eexists. split; [done|]. split_and!; [|simpl; by rewrite L1|done].
  eapply Disk_create; [exact D1|done|done|done|..]; simpl.
  - apply (dk_dir _ _ _ _ _ D1). - apply (dk_lockfile _ _ _ _ _ D1). - apply (dk_data _ _ _ _ _ D1).
Qed.

Lemma openWrite_Disk dir c o cur fl ws :
  Disk dir o cur fl ws -> curWriteFile c = JoinPath dir "data" ->
  exists o', openWriteFile (c, o) = (Ok tt, (set_wfd WOpen (set_wfdLastWrite (now o)
               (set_curBatchSize (zlen (enc ws)) c)), o')) /\
    Disk dir o' cur fl ws /\ flocks o' = flocks o /\
    files o' !! JoinPath dir "data" = Some (File (enc ws)).
Proof.
  intros D Hw. pose proof (dk_nofault _ _ _ _ _ D) as Hf. pose proof (dk_proper _ _ _ _ _ D) as Hp.
  destruct (dk_data _ _ _ _ _ D) as [E|[E ->]].
  - erewrite openWriteFile_old by (rewrite ?Hw; done). by exists o.
  - rewrite openWriteFile_new by (rewrite ?Hw; done). eexists. split; [done|]. rewrite Hw.
    split_and!; [|done|apply lookup_insert_eq].
    eapply Disk_create; [exact D|done|done|..]; simpl.
    + intros q _ _ H1. by apply lookup_insert_ne.
    + rewrite lookup_insert_ne; [apply (dk_dir _ _ _ _ _ D)|]. by apply JoinPath_ne_dir.
    + rewrite lookup_insert_ne; [apply (dk_lockfile _ _ _ _ _ D)|]. by apply JoinPath_ne.
    + left. apply lookup_insert_eq.
Qed.

(** ** Resuming at the stored position *)

Lemma stored_read seek name :
  in_int64 seek -> UnmarshalBinary (stored seek name) = Some (seek, to_bytes name).
Proof.
  intros H. apply (UnmarshalBinary_MarshalBinary (mkPos seek (Some (to_bytes name)) 0 0 0 0 false "") H).
Qed.

Lemma zlen_stored seek name : name <> "" -> 8 < zlen (stored seek name).
Proof.
  intros H. unfold stored. rewrite zlen_app, zlen_put_u64.
  assert (to_bytes name <> []) as N by (by destruct name).
  apply zlen_pos in N. lia.
Qed.

Lemma posFromFile_ok p o b r :
  faults o = [] -> files o !! pfname p = Some (File b) ->
  r = (if zlen b <=? 8 then None else UnmarshalBinary b) -> (8 < zlen b -> r <> None) ->
  posFromFile (pfname p) (p, o) = (Ok r, (p, o)).
Proof.
  intros Hf Hb -> Hn. unfold posFromFile. erewrite sbind_ok.
  2: { apply swrap_ok. unfold pio. erewrite os_ReadFile_ok by done. done. }
  destruct (zlen b <=? 8) eqn:E; [done|]. bool_to_prop.
  destruct (UnmarshalBinary b); [done|]. by specialize (Hn E).
Qed.

(** A cache positioned in its first file. *)
Lemma Rep_resume c o n dn rest fl ws p :
  Rep c o None ((n, dn ++ rest) :: fl) ws -> pfname p = pfname (pos c) ->
  Rep (set_pos p (set_curReadfile (data_name (dir_of c) n)
         (set_rfd (Some (mkRFd (data_name (dir_of c) n) (enc_file (dn ++ rest)) (zlen (enc dn)) true)) c)))
      o (Some (n, dn, rest)) fl ws.
Proof. intros [] E. split; try done. simpl. intros K. rewrite E. auto. Qed.

Lemma load_ok dir c o cur fl ws :
  Disk dir o cur fl ws -> dir_of c = dir -> Rep c o None (cur_file cur ++ fl) ws ->
  noPos (conf c) = false -> Name (pos c) = None ->
  exists c', loadUnfinishedFile (c, o) = (Ok tt, (c', o)) /\ conf c' = conf c /\ size c' = size c /\
    flock c' = flock c /\ dumpCount (pos c') = dumpCount (pos c) /\
    Rep c' o cur fl ws /\ PosOk c' o cur.
Proof.
  intros D Hdir R Hp Hn. pose proof (rep_nofault _ _ _ _ _ R) as Hf.
  pose proof (rep_pname _ _ _ _ _ R Hp) as Hpn. pose proof (dk_pos _ _ _ _ _ D) as Dp.
  unfold loadUnfinishedFile. rewrite sbind_cget. rewrite Hdir in Hpn.
  assert (posfile c = JoinPath dir ".pos") as Hpf by (unfold posfile; by rewrite Hdir).
  destruct cur as [[[n dn] rest]|].
  - destruct Dp as [Db Dp]. pose proof (zlen_nonneg (enc dn)) as Hz.
    assert (in_int64 (zlen (enc dn))) as H64 by (unfold in_int64; lia).
    pose proof (zlen_stored (zlen (enc dn)) (data_name dir n) (data_name_nonempty dir n)) as Hst.
    erewrite stry_run.
    2: { unfold oio. erewrite os_Stat_file; [done|done|]. by rewrite Hpn. }
    cbv beta iota. erewrite sbind_ok.
    2: { apply swrap_ok. unfold posm. erewrite posFromFile_ok; [done|done|by rewrite Hpn|done|].
         intros _. ztest. by rewrite stored_read. }
    ztest. rewrite stored_read by done. cbv beta iota zeta. rewrite of_to_bytes.
    pose proof (rep_files _ _ _ _ _ R) as F. apply Forall_cons_iff in F as [(F0 & F1 & F2) _].
    simpl in F0, F1, F2. rewrite Hdir in F2.
    erewrite stry_run.
    2: { unfold oio. erewrite os_Stat_file by done. done. }
    cbv beta iota. erewrite sbind_ok.
    2: { apply swrap_ok. unfold oio. erewrite os_OpenRead_ok by done. done. }
    erewrite sbind_ok.
    2: { apply swrap_ok. mred. rewrite sys_ok by done. ztest. done. }
    eexists. split; [done|]. simpl. split_and!; try done.
    + rewrite <- Hdir. apply (Rep_resume (set_pos (pos c) c)).
      * rep_ext R.
      * done.
    + unfold posfile, dir_of. simpl. by change (path (conf c)) with (dir_of c); rewrite Hdir.
    + exists (length dn). split_and!; [lia|done|]. rewrite firstn_all.
      change (posfile _) with (posfile c). rewrite Hpf, Dp.
      unfold dir_of. simpl. by change (path (conf c)) with (dir_of c); rewrite Hdir.
  - exists c. assert (PosOk c o None) as HP by (split; [done|by rewrite Hpf]).
    split_and!; try done.
    destruct (files o !! JoinPath dir ".pos") as [[b|]|] eqn:Eb; [|done|].
    + erewrite stry_run.
      2: { unfold oio. erewrite os_Stat_file; [done|done|]. by rewrite Hpn. }
      cbv beta iota. simpl in Dp. erewrite sbind_ok.
      2: { apply swrap_ok. unfold posm. erewrite posFromFile_ok; [done|done|by rewrite Hpn|done|].
           lia. }
      ztest. by destruct c.
    + by erewrite stry_run; [|unfold oio; rewrite os_Stat_none; [done|done|by rewrite Hpn]].
Qed.

(** ** Open *)

(** The defaults [doOpen] fills in. *)
Definition open_conf (cf : Conf) : Conf :=
  let cf := if dirPerms cf =? 0 then set_dirPerms 493 cf else cf in
  let cf := if filePerms cf =? 0 then set_filePerms 416 cf else cf in
  let cf := if batchSize cf =? 0 then set_batchSize (20 * 1024 * 1024) cf else cf in
  if batchSize cf <? maxDataSize cf then set_maxDataSize (int32 (batchSize cf ÷ 2)) cf else cf.

Lemma open_conf_keeps cf :
  path (open_conf cf) = path cf /\ noLock (open_conf cf) = noLock cf /\
  noPos (open_conf cf) = noPos cf.
Proof.
  unfold open_conf. destruct (dirPerms cf =? 0); simpl; destruct (filePerms cf =? 0); simpl;
    destruct (batchSize cf =? 0); simpl; destruct (_ <? _); done.
Qed.

(** The cache after the lock is taken and the names are set. *)
Definition prepared (c0 : DiskCache) : DiskCache :=
  let cf := open_conf (conf c0) in
  let dir := path cf in
  set_curWriteFile (JoinPath dir "data")
    (set_pos (if noPos cf then pos c0 else set_pfname (JoinPath dir ".pos") (pos c0))
      (set_flock (if noLock cf then flock c0 else Some (newFlock dir)) (set_conf cf c0))).

(** The cache after the write file is open and the files are found. *)
Definition scanned (c0 : DiskCache) (t : Z) (l : list (Z * list bytes)) (ws : list bytes) : DiskCache :=
  set_dataFiles (map (fun f => data_name (path (conf c0)) f.1) l)
    (set_size (drift l + total l)
      (set_wfd WOpen (set_wfdLastWrite t (set_curBatchSize (zlen (enc ws)) (prepared c0))))).

(** The second half of [doOpen]. *)
Definition open_scan (dir : string) : M unit :=
  swrap (CacheError OpOpen) openWriteFile ;;;
  swrap (CacheError OpOpen) (oio sys) ;;;
  (fun '(c, o) => (Ok tt, (fold_left scan_entry (walk_files dir o) c, o))) ;;;
  cmod (fun c => set_dataFiles (sort_strings (dataFiles c)) c) ;;;
  c1 <~ cget ;;
  swhen (negb (noPos (conf c1))) (swrap (CacheError OpOpen) loadUnfinishedFile).

Lemma open_prepare pd c0 o cur fl ws :
  Fresh c0 -> Disk (path (conf c0)) o cur fl ws ->
  (noLock (conf c0) = false -> newFlock (path (conf c0)) ∉ flocks o) ->
  exists o', doOpen pd (c0, o) = open_scan (path (conf c0)) (prepared c0, o') /\
    Disk (path (conf c0)) o' cur fl ws /\
    flocks o' = (if noLock (conf c0) then flocks o else {[newFlock (path (conf c0))]} ∪ flocks o).
Proof.
  intros Fr D Hl. destruct (open_conf_keeps (conf c0)) as (K1 & K2 & K3).
  unfold doOpen. rewrite !sbind_cmod.
  match goal with |- context [sbind cget ?k (?c, _)] => set (kk := k); set (c1 := c) end.
  assert (c1 = set_conf (open_conf (conf c0)) c0) as ->.
  { subst c1. unfold open_conf, on_conf. destruct c0 as [cf]; simpl.
    destruct (dirPerms cf =? 0); simpl; destruct (filePerms cf =? 0); simpl;
      destruct (batchSize cf =? 0); simpl; destruct (_ <? _); reflexivity. }
  subst kk. rewrite sbind_cget. cbv zeta. simpl conf. rewrite K1, K2, K3.
  destruct (mkdir_Disk _ _ _ _ _ D) as (o1 & E1 & D1 & L1 & N1).
  erewrite sbind_ok by (apply swrap_ok; unfold oio; rewrite E1; done).
  assert (exists o2, swhen (negb (noLock (conf c0)))
     (swrap (CacheError OpLock) (oio (tryLock (newFlock (path (conf c0))))) ;;;
      cmod (set_flock (Some (newFlock (path (conf c0))))))
     (set_conf (open_conf (conf c0)) c0, o1) =
     (Ok tt, (set_flock (if noLock (conf c0) then flock c0 else Some (newFlock (path (conf c0))))
                (set_conf (open_conf (conf c0)) c0), o2)) /\ Disk (path (conf c0)) o2 cur fl ws /\
     flocks o2 = (if noLock (conf c0) then flocks o else {[newFlock (path (conf c0))]} ∪ flocks o))
    as (o2 & E2 & D2 & L2).
  { destruct (noLock (conf c0)) eqn:E; simpl.
    - exists o1. split_and!; [|done|done]. by destruct c0.
    - destruct (lock_Disk _ _ _ _ _ D1) as (o2 & E2 & D2 & L2 & N2).
      { rewrite L1. by apply Hl. }
      exists o2. split_and!; [|done|by rewrite L2, L1].
      erewrite sbind_ok by (apply swrap_ok; unfold oio; rewrite E2; done). done. }
  erewrite sbind_ok by exact E2. exists o2. split_and!; [|done|done].
  assert (forall c o, (fun '(c, o) => (@Ok error unit tt, (syncEnv pd o c, o))) (c, o)
    = (Ok tt, (syncEnv pd o c, o))) as Es by done.
  unfold prepared. rewrite K1, K2, K3.
  destruct (noPos (conf c0)) eqn:E; simpl swhen.
  - erewrite sbind_ok by reflexivity. rewrite sbind_cmod.
    erewrite sbind_ok by apply Es. rewrite syncEnv_nil by apply (dk_env _ _ _ _ _ D2).
    unfold open_scan. by destruct c0.
  - rewrite !sbind_cmod. erewrite sbind_ok by apply Es.
    rewrite syncEnv_nil by apply (dk_env _ _ _ _ _ D2). reflexivity.
Qed.

Lemma Fresh_empty c : Fresh c -> dataFiles c = [] /\ size c = 0.
Proof. intros [E _ _]. rewrite E. done. Qed.

Lemma sort_twice d c :
  set_dataFiles (sort_strings (dataFiles (set_dataFiles d c))) (set_dataFiles d c)
  = set_dataFiles (sort_strings d) c.
Proof. done. Qed.

Lemma Rep_scanned c0 o t cur fl ws (l := cur_file cur ++ fl) :
  Fresh c0 -> Disk (path (conf c0)) o cur fl ws ->
  files o !! JoinPath (path (conf c0)) "data" = Some (File (enc ws)) ->
  Rep (scanned c0 t l ws) o None l ws.
Proof.
  intros [Fr Fn Fd] D Hw. destruct (open_conf_keeps (conf c0)) as (K1 & K2 & K3).
  assert (dir_of (scanned c0 t l ws) = path (conf c0)) as Hdir by exact K1.
  destruct D. split; rewrite ?Hdir; try done.
  - by rewrite Fr.
  - simpl. by rewrite K1.
  - simpl. intros E. rewrite E. simpl. by rewrite K1.
  - eapply Forall_impl; [|exact dk_files0]. intros f. unfold file_rep. by rewrite Hdir.
  - intros p b Hp Pp Ep. destruct (dk_only0 p b Hp Pp Ep) as (f & Hf & ->). simpl.
    apply (in_map (fun f : Z * list bytes => data_name (path (conf c0)) f.1)). done.
  - rewrite Fr. done.
Qed.

Lemma sorted_scan dir o cur fl ws (l := cur_file cur ++ fl) :
  Disk dir o cur fl ws ->
  let d := List.filter (fun e => is_data_entry e.1) (walk_files dir o) in
  sort_strings (map fst d) = map (fun f => data_name dir f.1) l /\
  foldr (fun e acc => e.2 + acc) 0 d = drift l + total l.
Proof.
  intros D. destruct D. intros d.
  assert (d ≡ₚ file_entry dir <$> l) as P by (by apply scan_perm).
  split; [|by rewrite (sum_perm _ _ P), sum_entries].
  apply (StronglySorted_unique String.le).
  - apply sort_strings_sorted.
  - apply sorted_names; [done|]. eapply Forall_impl; [|exact dk_files0]. by intros f [? _].
  - rewrite sort_strings_perm. change (map fst d) with (fst <$> d). rewrite P.
    rewrite <- list_fmap_compose. done.
Qed.

Lemma open_scan_ok c0 o cur fl ws :
  Fresh c0 -> Disk (path (conf c0)) o cur fl ws -> (noPos (conf c0) = true -> cur = None) ->
  exists c' o', open_scan (path (conf c0)) (prepared c0, o) = (Ok tt, (c', o')) /\
    Rep c' o' cur fl ws /\ conf c' = open_conf (conf c0) /\
    size c' = drift (cur_file cur ++ fl) + total (cur_file cur ++ fl) /\
    flocks o' = flocks o /\ flock c' = flock (prepared c0) /\
    dumpCount (pos c') = dumpCount (pos c0) /\
    (noPos (conf c0) = false -> PosOk c' o' cur).
Proof.
  intros Fr D Hc. destruct (open_conf_keeps (conf c0)) as (K1 & K2 & K3).
  destruct (openWrite_Disk _ (prepared c0) o cur fl ws D) as (o1 & E1 & D1 & L1 & W1).
  { simpl. by rewrite K1. }
  unfold open_scan. erewrite sbind_ok by (apply swrap_ok; exact E1).
  erewrite sbind_ok.
  2: { apply swrap_ok. unfold oio. rewrite sys_ok; [done|]. apply (dk_nofault _ _ _ _ _ D1). }
  unfold sbind at 1. rewrite scan_found. rewrite sbind_cmod, sbind_cget.
  destruct (sorted_scan _ _ _ _ _ D1) as [S1 S2].
  match goal with |- context [swhen _ _ (?c, o1)] => set (c1 := c) end.
  assert (c1 = scanned c0 (now o) (cur_file cur ++ fl) ws) as Hc1.
  { subst c1. unfold found. cbv zeta. rewrite S2.
    change (dataFiles (set_wfd _ _)) with (dataFiles c0). change (size (set_wfd _ _)) with (size c0).
    destruct (Fresh_empty _ Fr) as [-> ->]. simpl app. unfold scanned.
    rewrite Z.add_0_l, sort_twice. by rewrite S1. }
  clearbody c1. subst c1.
  pose proof (Rep_scanned c0 o1 (now o) cur fl ws Fr D1 W1) as R.
  set (c1 := scanned c0 (now o) (cur_file cur ++ fl) ws) in *.
  change (conf c1) with (open_conf (conf c0)). rewrite K3.
  destruct (noPos (conf c0)) eqn:E; simpl swhen.
  - specialize (Hc eq_refl). subst cur. exists c1, o1. split_and!; try done. simpl. by rewrite K3.
  - destruct (load_ok _ c1 o1 cur fl ws D1) as (c2 & E2 & C2 & Z2 & G2 & H2 & R2 & P2).
    + exact K1. + exact R. + simpl. by rewrite K3. + simpl. rewrite K3. apply (fresh_name _ Fr).
    + exists c2, o1. erewrite swrap_ok by exact E2. split_and!; try done. simpl in H2.
      rewrite H2, K3. done.
Qed.

(** Opening the directory of a cache gives a cache positioned where [.pos] says, with
    the records of every rotated file and of the write file in place. *)
Lemma doOpen_Full pd c0 o cur fl ws pk :
  Fresh c0 -> Disk (path (conf c0)) o cur fl ws ->
  (noLock (conf c0) = false -> newFlock (path (conf c0)) ∉ flocks o) ->
  (noPos (conf c0) = true -> cur = None /\ pk = false) ->
  (pk = true -> Forall nonempty (records cur fl ws)) ->
  exists c' o', doOpen pd (c0, o) = (Ok tt, (c', o')) /\
    Full (drift (cur_file cur ++ fl)) pk c' o' cur fl ws /\ conf c' = open_conf (conf c0) /\
    (noLock (conf c0) = false -> flock c' = Some (newFlock (path (conf c0))) /\
       newFlock (path (conf c0)) ∈ flocks o').
Proof.
  intros Fr D Hl Hp Hr. destruct (open_conf_keeps (conf c0)) as (K1 & K2 & K3).
  destruct (open_prepare pd c0 o cur fl ws Fr D Hl) as (o1 & E1 & D1 & L1).
  destruct (open_scan_ok c0 o1 cur fl ws Fr D1) as (c2 & o2 & E2 & R2 & C2 & S2 & L2 & G2 & U2 & P2).
  { intros E. by apply Hp in E as [-> _]. }
  exists c2, o2. rewrite E1. split_and!; [done| |done|].
  - split; [done|done| |done]. intros K.
    destruct (noPos (conf c0)) eqn:E; [by destruct (Hp eq_refl); subst|].
    split; [by rewrite C2, K3|auto].
  - intros E. rewrite G2, L2, L1, E. split; [simpl; by rewrite K2, E, K1|]. by apply elem_of_union_l, elem_of_singleton_2.
Qed.

(** ** From a running cache to its directory *)

(** The process that held the cache is gone: the kernel drops its lock. *)
Definition exited (dir : string) (o : OS) : OS := with_flocks (flocks o ∖ {[newFlock dir]}) o.

(** What the directory and the environment are like when the cache is opened again. *)
Record Site (dir : string) (o : OS) : Prop := {
  site_proper : proper_dir dir;
  site_env : env o = [];
  site_dir : files o !! dir = Some Dir \/ files o !! dir = None;
  site_lock : files o !! newFlock dir <> Some Dir
}.

Definition cur_done (cur : cursor) : list bytes :=
  match cur with Some (_, dn, _) => dn | None => [] end.

(** The cursor after a restart: [k] of the consumed records are known to be consumed. *)
Definition rewind (k : nat) (cur : cursor) : cursor :=
  match cur with
  | Some (n, dn, rest) => Some (n, take k dn, drop k dn ++ rest)
  | None => None
  end.

Lemma cur_file_rewind k cur : cur_file (rewind k cur) = cur_file cur.
Proof. destruct cur as [[[n dn] rest]|]; [|done]. simpl. by rewrite app_assoc, take_drop. Qed.

Lemma ready_rewind k cur fl : ready_of (rewind k cur) fl = drop k (cur_done cur) ++ ready_of cur fl.
Proof.
  destruct cur as [[[n dn] rest]|]; unfold ready_of; simpl; [by rewrite app_assoc|by rewrite drop_nil].
Qed.

(** The offset in the file being read. *)
Definition read_off (c : DiskCache) : Z := match rfd c with Some r => roff r | None => 0 end.

Lemma Full_Disk base c o cur fl ws :
  Full base true c o cur fl ws -> Site (dir_of c) o -> read_off c < 2 ^ 63 ->
  exists k, (dumpCount (pos c) = 0 -> drop k (cur_done cur) = []) /\
    Disk (dir_of c) (exited (dir_of c) o) (rewind k cur) fl ws.
Proof.
  intros [R S P N] W Hz0. destruct (P eq_refl) as [P1 P2].
  assert (zlen (enc (cur_done cur)) < 2 ^ 63) as Hz.
  { unfold read_off in Hz0. destruct cur as [[[n dn] rest]|]; [|done].
    by destruct (rep_cur _ _ _ _ _ R) as [E _]; rewrite E in Hz0. }
  assert (exists k, (dumpCount (pos c) = 0 -> drop k (cur_done cur) = []) /\
    match rewind k cur with
    | None => pos_idle (files o !! posfile c)
    | Some (n, dn, _) => zlen (enc dn) < 2 ^ 63 /\
        files o !! posfile c = Some (File (stored (zlen (enc dn)) (data_name (dir_of c) n)))
    end) as (k & K1 & K2).
  { destruct cur as [[[n dn] rest]|]; simpl in *.
    - destruct P2 as (_ & _ & k & Hk1 & Hk2 & Hk3). exists k. split_and!; [|..|done].
      + intros E. rewrite (Hk2 E). apply drop_all.
      + rewrite <- (take_drop k dn), enc_app, zlen_app in Hz.
        pose proof (zlen_nonneg (enc (drop k dn))). lia.
    - exists 0%nat. by destruct P2. }
  exists k. split; [done|]. destruct W. pose proof R as [].
  split; rewrite ?cur_file_rewind; try done.
  - simpl. auto.
  - intros p b H1 H2 H3. pose proof (rep_tidy p b H1 H2 H3) as T. rewrite rep_names in T.
    apply in_map_iff in T as (f & <- & Hf). by exists f.
Qed.

Lemma exited_unlocked dir o : newFlock dir ∉ flocks (exited dir o).
Proof. intros [_ H]%elem_of_difference. by apply H, elem_of_singleton_2. Qed.

(** A directory without any file of a cache. *)
Lemma Disk_empty dir o :
  proper_dir dir -> faults o = [] -> env o = [] -> files o = ∅ -> Disk dir o None [] [].
Proof.
  intros Hd Hf He Hz. split; rewrite ?Hz; try done; rewrite ?lookup_empty; auto; try constructor.
Qed.

(** [Open] is [doOpen] on the options' result. *)
Lemma Open_run pd opts o c' o' :
  doOpen pd (fold_left (fun c f => f c) opts defaultInstance, o) = (Ok tt, (c', o')) ->
  Open pd opts o = (Ok c', o').
Proof. intros E. unfold Open. by rewrite E. Qed.
