(* ===== verification/DiskThms.v ===== *)
(** * The disk cache: main theorems

    Refinement of the queue specification, delivery of every accepted record, recovery
    after a restart, accounting. *)

From S2P Require Import Prelude GoNum DiskFS DiskCache DiskOpen DiskSpec DiskQueue DiskInv DiskGet DiskRefine DiskReopen.

(** ** Refinement *)

(** C1: any sequence of Puts, Gets, rotations and delays on a well-formed cache that does
    not drop files is a run of the queue specification with the same results; the
    resulting cache is well-formed again, its size counter included, and the records
    taken out, then those left, are those present before, then those accepted. *)
Theorem run_refines ops base pk c o cur fl ws :
  Full base pk c o cur fl ws -> Forall (op_ok pk) ops -> no_dropping (conf c) = true ->
  next_num (cur_file cur ++ fl) + zlen ops < 2 ^ 63 - 1 ->
  let '(rs, s') := run ops (c, o) in
  exists cur' fl' ws', Full base pk s'.1 s'.2 cur' fl' ws' /\
    qrun (conf c) ops (abs cur fl ws) rs (abs cur' fl' ws') /\
    taken (noFallbackOnError (conf c)) rs ++ ready_of cur' fl' ++ ws' =
    ready_of cur fl ++ ws ++ accepted ops rs.
Proof.
  intros F Ho Hd Hb. pose proof (run_simulates ops base pk c o cur fl ws F Ho Hd Hb) as H.
  destruct (run ops (c, o)) as [rs s']. destruct H as (cur' & fl' & ws' & F' & _ & Q).
  exists cur', fl', ws'. split_and!; [done|done|].
  apply qrun_content in Q. unfold content in Q. simpl in Q. by rewrite <- Q, <- app_assoc.
Qed.

(** ** Delivery, end to end *)

(** A callback that accepts everything. *)
Definition accept : bytes -> option error := fun _ => None.

Lemma qrun_app cf a b q rs q' :
  qrun cf (a ++ b) q rs q' -> exists rs1 q1 rs2, rs = rs1 ++ rs2 /\ qrun cf a q rs1 q1 /\
    qrun cf b q1 rs2 q' /\ length rs1 = length a.
Proof.
  revert q rs. induction a as [|p a IH]; intros q rs H; simpl in H.
  - exists [], q, rs. split_and!; [done|constructor|done|done].
  - inversion H as [|? ? ? r q1 rs1 ? H1 H2]; subst.
    destruct (IH _ _ H2) as (rs2 & q2 & rs3 & -> & G1 & G2 & G3).
    exists (r :: rs2), q2, rs3. split_and!; [done|by econstructor|done|simpl; by rewrite G3].
Qed.

(** Enough Gets empty the part that can be read. *)
Lemma qrun_drain cf m : forall q rs q',
  qrun cf (replicate m (CGet accept)) q rs q' -> apending q = [] -> (length (aready q) <= m)%nat ->
  content q' = [].
Proof.
  induction m as [|m IH]; intros q rs q' H Hp Hl; simpl in H.
  - inversion H; subst. unfold content. rewrite Hp. destruct (aready q'); simpl in Hl; [done|lia].
  - inversion H as [|? ? ? r q1 rs1 ? H1 H2]; subst. inversion H1 as [| | | | | |? ? ? ? G|? ? ? ? G _]; subst; [|done].
    unfold qget in G. destruct (aready q) as [|x xs] eqn:E; injection G as <- <-.
    + eapply IH; [exact H2|done|]. rewrite E. simpl. lia.
    + eapply IH; [exact H2|done|]. simpl in Hl. simpl. lia.
Qed.

Lemma accepted_length ops rs : (length (accepted ops rs) <= length ops)%nat.
Proof.
  revert rs. induction ops as [|p ops IH]; intros [|r rs]; simpl; try lia.
  rewrite length_app. specialize (IH rs). destruct p, r; simpl; lia.
Qed.

Lemma accepted_app a b ra rb : length a = length ra ->
  accepted (a ++ b) (ra ++ rb) = accepted a ra ++ accepted b rb.
Proof.
  revert ra. induction a as [|p a IH]; intros [|r ra] H; try done.
  simpl. rewrite IH by (simpl in H; lia). by rewrite app_assoc.
Qed.

Lemma accepted_no_puts ops rs : Forall (fun p => match p with CPut _ => False | _ => True end) ops ->
  accepted ops rs = [].
Proof.
  revert rs. induction ops as [|p ops IH]; intros [|r rs] F; try done.
  apply Forall_cons_iff in F as [F1 F2]. simpl. rewrite IH by done. by destruct p.
Qed.

(** On a new cache, whatever operations ran, one more rotation and enough Gets hand
    out every accepted record, each exactly once and in the order of the Puts. *)
Theorem drain_delivers pd opts dir o ops m :
  let c0 := fold_left (fun c f => f c) opts defaultInstance in
  Fresh c0 -> path (conf c0) = dir -> no_dropping (open_conf (conf c0)) = true ->
  proper_dir dir -> faults o = [] -> env o = [] -> files o = ∅ -> newFlock dir ∉ flocks o ->
  Forall (op_ok false) ops -> (length ops <= m)%nat -> zlen ops + Z.of_nat m + 1 < 2 ^ 63 - 1 ->
  exists c1 o1, Open pd opts o = (Ok c1, o1) /\
    let '(rs, s') := run (ops ++ CRotate :: replicate m (CGet accept)) (c1, o1) in
    taken (noFallbackOnError (conf c1)) rs = accepted ops rs.
Proof.
  intros c0 Fr Hp Hd Hpd Hf He Hz Hl Ho Hm Hb. subst dir.
  destruct (doOpen_Full pd c0 o None [] [] false Fr (Disk_empty _ _ Hpd Hf He Hz) (fun _ => Hl)
    (fun _ => conj eq_refl eq_refl) ltac:(done)) as (c1 & o1 & E & F & C & _).
  exists c1, o1. split; [by apply Open_run|].
  assert (Forall (op_ok false) (ops ++ CRotate :: replicate m (CGet accept))) as Ho'.
  { apply Forall_app. split; [done|]. constructor; [done|]. clear. by induction m; constructor. }
  pose proof (run_simulates _ _ _ _ _ _ _ _ F Ho') as H. rewrite C in H.
  specialize (H Hd). unfold next_num in H. simpl in H.
  rewrite zlen_app, zlen_cons in H. unfold zlen in H, Hb. rewrite length_replicate in H.
  specialize (H ltac:(lia)).
  destruct (run _ (c1, o1)) as [rs s']. destruct H as (cur' & fl' & ws' & F' & _ & Q).
  pose proof (qrun_content _ _ _ _ _ Q) as K. rewrite C.
  destruct (qrun_app _ _ _ _ _ _ Q) as (rs1 & q1 & rs2 & -> & Q1 & Q2 & L).
  inversion Q2 as [|? ? ? r q2 rs3 ? G1 G2]; subst. inversion G1; subst.
  pose proof (qrun_content _ _ _ _ _ Q1) as K1. change (content (abs None [] [])) with (@nil bytes) in *.
  rewrite (qrun_drain _ _ _ _ _ G2) in K; [|done|].
  - rewrite app_nil_r in K. rewrite <- K. simpl app. rewrite accepted_app by done.
    rewrite (accepted_no_puts (CRotate :: _)) by (constructor; [done|clear; by induction m; constructor]).
    rewrite <- (app_nil_r ops) at 2. rewrite accepted_app by done. done.
  - simpl. change (aready q1 ++ apending q1) with (content q1).
    pose proof (f_equal length K1) as K2. rewrite !length_app in K2. simpl in K2.
    pose proof (accepted_length ops rs1). lia.
Qed.

(** ** Restart *)

(** C2: when the process ends between two operations on a well-formed cache, in order or
    killed, with no I/O error and nothing half written, opening the directory again gives
    a well-formed cache that holds every record not yet taken out, preceded by at most a
    suffix of those already taken from the file being read (at-least-once delivery); when
    the position is dumped on every Get, nothing is delivered twice. The hypotheses are
    the representation invariant, a proper directory without settings in the environment,
    a read position below 2^63, and a configuration for the same directory that keeps
    positions. A process that is killed inside an operation
    is not covered: see [torn_put_stays] and [lagging_position]. *)
Theorem reopen_at_least_once pd opts base c o cur fl ws :
  let c0 := fold_left (fun c f => f c) opts defaultInstance in
  Full base true c o cur fl ws -> Site (dir_of c) o -> read_off c < 2 ^ 63 ->
  Fresh c0 -> path (conf c0) = dir_of c -> noPos (conf c0) = false ->
  exists c' o' cur' seen, Open pd opts (exited (dir_of c) o) = (Ok c', o') /\
    Full (drift (cur_file cur ++ fl)) true c' o' cur' fl ws /\
    ready_of cur' fl = seen ++ ready_of cur fl /\
    (exists before, cur_done cur = before ++ seen) /\
    (dumpCount (pos c) = 0 -> seen = []).
Proof.
  intros c0 F W Hz Fr Hp Hn.
  destruct (Full_Disk _ _ _ _ _ _ F W Hz) as (k & K & D).
  rewrite <- Hp in D.
  destruct (doOpen_Full pd c0 _ _ _ _ true Fr D) as (c' & o' & E & F' & C & _).
  - intros _. rewrite Hp. apply exited_unlocked.
  - congruence.
  - intros _. pose proof (full_recs _ _ _ _ _ _ _ F eq_refl) as N. unfold records in *.
    by rewrite cur_file_rewind.
  - rewrite cur_file_rewind in F'. rewrite Hp in E.
    exists c', o', (rewind k cur), (drop k (cur_done cur)).
    split_and!; [by apply Open_run|done|apply ready_rewind| |done].
    exists (take k (cur_done cur)). by rewrite take_drop.
Qed.

(** A Get that reports [ErrNoData] leaves no data file in the list, nothing to read,
    and a size counter of zero (up to the drift found at open). *)
Theorem nodata_size base pk free fn c o cur fl ws c' o' :
  Full base pk c o cur fl ws -> room cur fl ->
  doGet free BufNil fn (c, o) = (Err ErrNoData, (c', o')) ->
  size c' = base /\ dataFiles c' = [] /\ rfd c' = None /\
  ready_of cur fl = [] /\ (woken free c o = true -> ws = []).
Proof.
  intros F Hn E. destruct (doGet_Full base pk free BufNil fn _ _ _ _ _ F Hn)
    as (r & c1 & o1 & cur1 & fl1 & E1 & C & F1 & _ & Q). { intros n. simpl. lia. }
  rewrite E in E1. injection E1 as <- <- <-.
  destruct (ready_of cur fl ++ _) as [|x q] eqn:Er; [|by destruct Q].
  destruct Q as (_ & _ & -> & ->). apply app_eq_nil in Er as [Er1 Er2].
  pose proof (full_size _ _ _ _ _ _ _ F1) as S. pose proof (full_rep _ _ _ _ _ _ _ F1) as R.
  destruct (rep_cur _ _ _ _ _ R) as [Hr _]. simpl in S.
  split_and!; [lia|by rewrite (rep_names _ _ _ _ _ R)|done|done|]. by destruct (woken free c o).
Qed.

(** ** Witnesses: a cache on an empty directory *)

Definition ex_world : OS := mkOS ∅ [] 0 ∅ [].

Definition ex_opts : list CacheOption := [WithPath "/c"; WithPosUpdate 0 0].

Definition ex_pd : string -> option Z := fun _ => None.

Definition ex_open : St :=
  match Open ex_pd ex_opts ex_world with
  | (Ok c, o) => (c, o)
  | (Err _, o) => (defaultInstance, o)
  end.

Lemma ex_Fresh : Fresh (fold_left (fun c f => f c) ex_opts defaultInstance).
Proof. by split. Qed.

Lemma ex_proper : proper_dir "/c".
Proof. by split. Qed.

Lemma ex_open_Full : Full 0 true ex_open.1 ex_open.2 None [] [].
Proof.
  destruct (doOpen_Full ex_pd _ ex_world None [] [] true ex_Fresh) as (c & o & E & F & _).
  - apply Disk_empty; [apply ex_proper|done..].
  - intros _. apply not_elem_of_empty.
  - done.
  - intros _. constructor.
  - unfold ex_open. by rewrite (Open_run _ _ _ _ _ E).
Qed.

Definition ex_ops : list cop :=
  [CPut (to_bytes "abc"); CPut (to_bytes "de"); CRotate; CPut (to_bytes "f"); CGet accept].

Lemma ex_nodrop : no_dropping (conf ex_open.1) = true.
Proof. by vm_compute. Qed.

Lemma ex_room : next_num (cur_file None ++ []) + zlen ex_ops < 2 ^ 63 - 1.
Proof. by vm_compute. Qed.

Lemma ex_ops_ok : Forall (op_ok true) ex_ops.
Proof. by repeat constructor. Qed.

(** The cache after [ex_ops]: one record taken, one left to read, one pending. *)
Definition ex_busy : St := (run ex_ops ex_open).2.

Lemma ex_busy_Full : exists cur fl ws, Full 0 true ex_busy.1 ex_busy.2 cur fl ws.
Proof.
  pose proof (run_simulates ex_ops _ _ _ _ _ _ _ ex_open_Full ex_ops_ok ex_nodrop ex_room) as H.
  unfold ex_busy. rewrite <- surjective_pairing in H.
  destruct (run ex_ops ex_open) as [rs s]. destruct H as (cur & fl & ws & F & _). by exists cur, fl, ws.
Qed.

Lemma ex_Site s : s = ex_open \/ s = ex_busy -> Site (dir_of s.1) s.2.
Proof.
  intros [-> | ->]; split; vm_compute; auto; by first [split | discriminate].
Qed.

Lemma run_refines_witness :
  let '(rs, s') := run ex_ops ex_open in
  exists cur' fl' ws', Full 0 true s'.1 s'.2 cur' fl' ws' /\
    qrun (conf ex_open.1) ex_ops (abs None [] []) rs (abs cur' fl' ws') /\
    taken (noFallbackOnError (conf ex_open.1)) rs ++ ready_of cur' fl' ++ ws' =
    ready_of None [] ++ [] ++ accepted ex_ops rs.
Proof.
  pose proof (run_refines ex_ops 0 true ex_open.1 ex_open.2 None [] [] ex_open_Full ex_ops_ok
    ex_nodrop ex_room) as H.
  rewrite <- surjective_pairing in H. exact H.
Defined.

Lemma drain_delivers_witness :
  exists c1 o1, Open ex_pd ex_opts ex_world = (Ok c1, o1) /\
    let '(rs, s') := run (ex_ops ++ CRotate :: replicate 5 (CGet accept)) (c1, o1) in
    taken (noFallbackOnError (conf c1)) rs = accepted ex_ops rs.
Proof.
  apply (drain_delivers ex_pd ex_opts "/c" ex_world ex_ops 5).
  - apply ex_Fresh. - done. - done. - apply ex_proper. - done. - done. - done.
  - apply not_elem_of_empty.
  - by repeat constructor. - simpl. lia. - by vm_compute.
Defined.

Lemma reopen_at_least_once_witness :
  exists cur fl ws c' o' cur' seen,
    Full 0 true ex_busy.1 ex_busy.2 cur fl ws /\
    Open ex_pd ex_opts (exited "/c" ex_busy.2) = (Ok c', o') /\
    ready_of cur' fl = seen ++ ready_of cur fl /\ seen = [].
Proof.
  destruct ex_busy_Full as (cur & fl & ws & F).
  destruct (reopen_at_least_once ex_pd ex_opts 0 ex_busy.1 ex_busy.2 cur fl ws F
    (ex_Site _ (or_intror eq_refl)) ltac:(by vm_compute) ex_Fresh ltac:(by vm_compute) eq_refl)
    as (c' & o' & cur' & seen & H1 & H2 & H3 & H4 & H5).
  replace (dir_of ex_busy.1) with "/c" in H1 by (by vm_compute).
  exists cur, fl, ws, c', o', cur', seen. split_and!; [exact F|exact H1|exact H3|].
  apply H5. by vm_compute.
Defined.

Lemma nodata_size_witness :
  exists c' o', doGet true BufNil None ex_open = (Err ErrNoData, (c', o')) /\ size c' = 0.
Proof.
  do 2 eexists. assert (doGet true BufNil None ex_open = (Err ErrNoData, (_, _))) as E
    by (vm_compute; reflexivity). split; [exact E|].
  refine (proj1 (nodata_size 0 true true None ex_open.1 ex_open.2 None [] [] _ _ ex_open_Full _ _)).
  - by split.
  - rewrite <- surjective_pairing. exact E.
Defined.
