(* ===== verification/DiskTotal.v ===== *)
(** * The disk cache under arbitrary I/O errors

    Nothing is assumed here about the fault plan or the content of the files: [Get]
    always ends, [Close] always closes, and a closed cache refuses every operation. *)

From S2P Require Import Prelude GoNum DiskFS DiskCache DiskOpen DiskSpec.

(** ** A small logic of frames

    [frames f m]: running [m] in any world leaves the observation [f] as it was. *)

Definition frames {A X} (f : DiskCache -> X) (m : M A) : Prop := forall s, f (m s).2.1 = f s.1.

Section frames.
Context {X : Type} (f : DiskCache -> X).

Lemma frames_ret {A} (a : A) : frames f (sret a).
Proof. done. Qed.

Lemma frames_fail {A} e : frames f (@sfail St error A e).
Proof. done. Qed.

Lemma frames_cget : frames f cget.
Proof. by intros [c o]. Qed.

Lemma frames_onow : frames f onow.
Proof. by intros [c o]. Qed.

Lemma frames_oio {A} (m : io A) : frames f (oio m).
Proof. intros [c o]. unfold oio. by destruct (m o). Qed.

Lemma frames_bind {A B} (m : M A) (k : A -> M B) :
  frames f m -> (forall a, frames f (k a)) -> frames f (sbind m k).
Proof.
  intros Hm Hk s. unfold sbind. specialize (Hm s). destruct (m s) as [[a|e] s']; simpl in *; [|done].
  by rewrite Hk.
Qed.

Lemma frames_try {A B} (m : M A) (k : Res error A -> M B) :
  frames f m -> (forall r, frames f (k r)) -> frames f (stry m k).
Proof. intros Hm Hk s. unfold stry. specialize (Hm s). destruct (m s) as [r s']. by rewrite Hk. Qed.

Lemma frames_wrap {A} w (m : M A) : frames f m -> frames f (swrap w m).
Proof. intros Hm s. unfold swrap. specialize (Hm s). by destruct (m s) as [[a|e] s']. Qed.

Lemma frames_when b (m : M unit) : frames f m -> frames f (swhen b m).
Proof. by destruct b. Qed.

Lemma frames_cmod g : (forall c, f (g c) = f c) -> frames f (cmod g).
Proof. intros H [c o]. apply H. Qed.

Lemma frames_posm {A} (m : pm A) : (forall p c, f (set_pos p c) = f c) -> frames f (posm m).
Proof. intros H [c o]. unfold posm. destruct (m (pos c, o)) as [r [p o']]. apply H. Qed.
End frames.

(** Follow the structure of a computation; leave the state changes. *)
Ltac frame :=
  repeat (intros; lazymatch goal with
    | |- frames _ (sret _) => apply frames_ret
    | |- frames _ (sfail _) => apply frames_fail
    | |- frames _ cget => apply frames_cget
    | |- frames _ onow => apply frames_onow
    | |- frames _ (oio _) => apply frames_oio
    | |- frames _ (sbind _ _) => apply frames_bind
    | |- frames _ (stry _ _) => apply frames_try
    | |- frames _ (swrap _ _) => apply frames_wrap
    | |- frames _ (swhen _ _) => apply frames_when
    | |- frames _ (posm _) => apply frames_posm; intros; reflexivity
    | |- frames _ (cmod _) => apply frames_cmod; intros; reflexivity
    | |- frames _ (match ?x with _ => _ end) => destruct x
    end).

(** ** What the read side touches *)

(** The read list and the name of the file being read. *)
Definition read_view (c : DiskCache) : list string * string * bool :=
  (dataFiles c, curReadfile c, match rfd c with Some _ => true | None => false end).

Lemma view_set_off off : frames read_view (rfd_set_off off).
Proof. unfold rfd_set_off. frame. apply frames_cmod. intros c. unfold read_view. by destruct (rfd c) eqn:E; rewrite ?E. Qed.

Lemma view_Read n : frames read_view (rfd_Read n).
Proof. unfold rfd_Read. frame. apply view_set_off. Qed.

Lemma view_Seek d : frames read_view (rfd_SeekCurrent d).
Proof. unfold rfd_SeekCurrent. frame. apply view_set_off. Qed.

Lemma view_Close : frames read_view rfd_Close.
Proof.
  unfold rfd_Close. frame. apply frames_cmod. intros c. unfold read_view, rfd_kill.
  by destruct (rfd c) eqn:E; rewrite ?E.
Qed.

(** [m] run in [s] succeeded with result [a] in [s']. *)
Abbreviation ran m s a s' := (m s = (Ok a, s')).

Lemma ran_bind {A B} (m : M A) (k : A -> M B) s b s' :
  ran (sbind m k) s b s' -> exists a s1, ran m s a s1 /\ ran (k a) s1 b s'.
Proof. unfold sbind. destruct (m s) as [[a|e] s1] eqn:E; [|done]. intros H. by exists a, s1. Qed.

Lemma ran_wrap {A} w (m : M A) s a s' : ran (swrap w m) s a s' -> ran m s a s'.
Proof. unfold swrap. by destruct (m s) as [[b|e] s1]. Qed.

Lemma ran_frames {A X} (f : DiskCache -> X) (m : M A) s r s' :
  frames f m -> m s = (r, s') -> f s'.1 = f s.1.
Proof. intros H E. specialize (H s). by rewrite E in H. Qed.

Ltac ran_inv H :=
  repeat first
    [ apply ran_wrap in H
    | let a := fresh "a" in let s := fresh "s" in let H' := fresh "H" in
      apply ran_bind in H as (a & s & H' & H) ].

(** A successful removal pops the head of the list and leaves nothing open. *)
Lemma remove_view s s' :
  ran removeCurrentReadingFile s tt s' -> read_view s'.1 = (tail (dataFiles s.1), "", false).
Proof.
  destruct s as [c o]. unfold removeCurrentReadingFile. rewrite sbind_cget. intros H.
  apply ran_bind in H as (a & s1 & H1 & H). apply ran_bind in H as (b & s2 & H2 & H).
  assert (rfd s1.1 = None /\ dataFiles s1.1 = dataFiles c) as [R1 R2].
  { destruct (rfd c) eqn:E; [|by unfold sret in H1; simplify_eq].
    apply ran_bind in H1 as ([] & s0 & H0 & H1). apply ran_wrap in H0.
    pose proof (ran_frames _ _ _ _ _ view_Close H0) as V. injection V as V _ _.
    destruct s0 as [c0 o0]. unfold cmod in H1. by simplify_eq. }
  assert (read_view s2.1 = read_view s1.1) as V.
  { eapply ran_frames; [|exact H2]. frame. }
  destruct s1 as [c1 o1], s2 as [c2 o2]. injection V as V1 V2 V3. simpl in *.
  rewrite sbind_cmod in H. unfold cmod in H. simplify_eq. simpl. unfold read_view.
  rewrite R1 in V3. rewrite V1, R2.
  destruct (dataFiles c); simpl; rewrite ?V1, ?R2; by destruct (rfd c2).
Qed.

(** A successful switch opens the head of the list, if there is one. *)
Lemma doSwitch_view s s' :
  ran doSwitchNextFile s tt s' ->
  read_view s'.1 = match dataFiles s.1 with [] => read_view s.1 | f :: l => (f :: l, f, true) end.
Proof.
  destruct s as [c o]. unfold doSwitchNextFile. rewrite sbind_cget. intros H.
  apply ran_bind in H as ([] & s1 & H1 & H).
  assert (read_view s1.1 = read_view c) as V1.
  { eapply (ran_frames read_view _ (c, o)); [|exact H1]. frame. }
  simpl fst in *. destruct (dataFiles c) as [|f l] eqn:E; [by injection H as <-|].
  destruct s1 as [c1 o1]. simpl in V1. rewrite sbind_cmod in H.
  apply ran_bind in H as (ct & s2 & H2 & H). apply ran_wrap in H2.
  assert (read_view s2.1 = read_view (set_curReadfile f c1)) as V2.
  { eapply (ran_frames read_view _ (_, _)); [|exact H2]. frame. }
  destruct s2 as [c2 o2]. rewrite sbind_cmod in H.
  assert (read_view s'.1 = read_view (set_rfd (Some (mkRFd f ct 0 true)) c2)) as V3.
  { eapply (ran_frames read_view _ (_, _)); [|exact H]. frame. }
  rewrite V3. unfold read_view in *. simpl in *. injection V1 as V1a V1b V1c. injection V2 as V2a V2b V2c.
  by rewrite V2a, V1a, E, V2b.
Qed.

(** ** Get always ends *)

(** An open read descriptor has a file name behind it, and the list has no empty name. *)
Definition Named (c : DiskCache) : Prop :=
  (rfd c <> None -> curReadfile c <> "") /\ Forall (fun n => n <> "") (dataFiles c).

Lemma Named_view c c' : read_view c' = read_view c -> Named c -> Named c'.
Proof.
  intros V [H1 H2]. injection V as V1 V2 V3. split; rewrite ?V1, ?V2; [|done].
  intros H. apply H1. by destruct (rfd c), (rfd c').
Qed.

(** Rounds of the loop from [c]. *)
Definition need (c : DiskCache) : nat :=
  match rfd c with None => 1 | Some _ => S (S (length (dataFiles c))) end.

Lemma need_view c c' : read_view c' = read_view c -> need c' = need c.
Proof. intros V. injection V as V1 V2 V3. unfold need. rewrite V1. by destruct (rfd c), (rfd c'). Qed.

Lemma switch_need s s' :
  Named s.1 -> ran switchNextFile s tt s' ->
  Named s'.1 /\ (rfd s.1 <> None -> S (need s'.1) <= need s.1)%nat.
Proof.
  intros [N1 N2] H. destruct s as [c o]. unfold switchNextFile in H. rewrite sbind_cget in H.
  apply ran_bind in H as ([] & s1 & H1 & H). apply doSwitch_view in H. simpl fst in *.
  destruct (curReadfile c =? "")%string eqn:E; bool_to_prop; simpl in H1.
  - unfold sret in H1. simplify_eq. simpl in H.
    assert (rfd c = None) as Hr by (destruct (rfd c); [by destruct N1|done]).
    destruct (dataFiles c) as [|f l] eqn:Ed.
    + split; [|by rewrite Hr]. eapply Named_view; [exact H|]. split; [by rewrite Hr|by rewrite Ed].
    + injection H as V1 V2 V3. split; [|by rewrite Hr]. split; rewrite ?V1, ?V2; [|done].
      intros _. by apply Forall_cons_iff in N2 as [N2 _].
  - apply ran_wrap in H1. apply remove_view in H1. injection H1 as V1 V2 V3. simpl in V1.
    assert (rfd s1.1 = None) as Hr by (by destruct (rfd s1.1)).
    assert (Forall (fun n => n <> "") (tail (dataFiles c))) as N3.
    { destruct (dataFiles c); [done|]. by apply Forall_cons_iff in N2 as [_ N2]. }
    rewrite V1 in H. destruct (dataFiles c) as [|g [|f l]] eqn:Ed; simpl in H, N3, V1.
    + split; [eapply Named_view; [exact H|]; split; [by rewrite Hr|by rewrite V1]|].
      intros Hc. rewrite (need_view _ _ H). unfold need. rewrite Hr. destruct (rfd c); simpl; [lia|done].
    + split; [eapply Named_view; [exact H|]; split; [by rewrite Hr|by rewrite V1]|].
      intros Hc. rewrite (need_view _ _ H). unfold need. rewrite Hr. destruct (rfd c); simpl; [lia|done].
    + injection H as W1 W2 W3. split.
      * split; rewrite ?W1, ?W2; [|done]. intros _. by apply Forall_cons_iff in N3 as [N3 _].
      * intros Hc. unfold need. rewrite W1, Ed. destruct (rfd s'.1); [|done]. destruct (rfd c); [|done].
        simpl. lia.
Qed.

Lemma view_record n bl fn : frames read_view (get_record n bl fn).
Proof. unfold get_record. frame; first [apply view_Seek | apply view_Read | frame]. Qed.

Lemma get_loop_ends fuel : forall s bl fn,
  Named s.1 -> (need s.1 <= fuel)%nat -> (get_loop fuel bl fn s).1 <> Ok None.
Proof.
  induction fuel as [|fuel IH]; intros [c o] bl fn N L; simpl fst in *.
  { unfold need in L. destruct (rfd c); lia. }
  assert (forall s, read_view s.1 = read_view c -> rfd c <> None ->
    ((swrap (CacheError OpGet) switchNextFile ;;; get_loop fuel bl fn) s).1 <> Ok None) as K.
  { intros s V Hr. unfold sbind at 1, swrap at 1. destruct (switchNextFile s) as [[[]|e] s1] eqn:E; [|done].
    destruct (switch_need _ _ (Named_view _ _ V N) E) as [N1 L1].
    apply IH; [done|]. rewrite (need_view _ _ V) in L1.
    assert (rfd s.1 <> None) as Hs by (injection V as _ _ V; by destruct (rfd s.1), (rfd c)).
    specialize (L1 Hs). lia. }
  cbn [get_loop]. rewrite sbind_cget. destruct (rfd c) as [rf|] eqn:Er; [|done].
  unfold stry. destruct (rfd_Read dataHeaderLen (c, o)) as [[hdr|e] s1] eqn:E1;
    pose proof (ran_frames _ _ _ _ _ (view_Read _) E1) as V; simpl in V; [|by apply K].
  destruct (zlen hdr =? dataHeaderLen); [|by apply K].
  destruct s1 as [c1 o1]. rewrite sbind_cmod. cbv zeta.
  destruct (get_u32 hdr =? EOFHint); [by apply K|].
  unfold sbind. by destruct (get_record _ _ _ _) as [[|] ?].
Qed.

Lemma next_file_name_data c n : next_file_name c = Ok n -> n <> "".
Proof.
  unfold next_file_name. destruct (list.last _); [|intros [= <-]; apply data_name_nonempty].
  destruct (name_parts s) as [|? [|? [|? ?]]]; try done. destruct (ParseInt10 _ _); [|done].
  intros [= <-]. apply data_name_nonempty.
Qed.

Lemma frames_openWrite {X} (f : DiskCache -> X) :
  (forall z c, f (set_curBatchSize z c) = f c) -> (forall z c, f (set_wfdLastWrite z c) = f c) ->
  (forall w c, f (set_wfd w c) = f c) -> frames f openWriteFile.
Proof.
  intros H1 H2 H3. unfold openWriteFile. apply frames_bind; [apply frames_cget|intros c].
  apply frames_bind; [|intros _]. { frame; apply frames_cmod; auto. }
  apply frames_bind; [frame|intros _]. apply frames_bind; [frame|intros t].
  apply frames_bind; [apply frames_cmod; auto|intros _]. apply frames_cmod; auto.
Qed.

Lemma view_ensure : frames read_view ensureWriteFile.
Proof. unfold ensureWriteFile. frame. by apply frames_openWrite. Qed.

Lemma view_Append op d : frames read_view (wfd_Append op d).
Proof. unfold wfd_Append, wfd_Write. frame. Qed.

Lemma view_wClose : frames read_view wfd_Close.
Proof. unfold wfd_Close. frame. Qed.

(** A rotation adds at most one, named, file to the list. *)
Lemma rotate_Named s s' : ran rotate s tt s' -> Named s.1 -> Named s'.1.
Proof.
  intros H N. unfold rotate in H.
  apply ran_bind in H as (? & s1 & H1 & H). apply ran_wrap in H1.
  pose proof (Named_view _ _ (ran_frames _ _ _ _ _ view_ensure H1) N) as N1.
  apply ran_bind in H as (c2 & s2 & H2 & H). destruct s1 as [c1 o1]. injection H2 as <- <-.
  apply ran_bind in H as (? & s3 & H3 & H).
  pose proof (Named_view _ _ (ran_frames _ _ _ _ _ (view_Append _ _) H3) N1) as N3.
  apply ran_bind in H as (nf & s4 & H4 & H).
  destruct (next_file_name c1) as [n|e] eqn:En; [|done]. injection H4 as <- <-.
  apply next_file_name_data in En.
  apply ran_bind in H as (? & s5 & H5 & H). apply ran_wrap in H5.
  pose proof (Named_view _ _ (ran_frames _ _ _ _ _ view_wClose H5) N3) as N5.
  apply ran_bind in H as (? & s6 & H6 & H).
  assert (read_view s6.1 = read_view s5.1) as V6 by (eapply ran_frames; [|exact H6]; frame).
  apply ran_bind in H as (re & s7 & H7 & H).
  assert (read_view s7.1 = read_view s6.1) as V7.
  { eapply ran_frames; [|exact H7]. unfold rotate_rename. frame. }
  apply ran_bind in H as (? & s8 & H8 & H).
  assert (Named s8.1) as N8.
  { pose proof (Named_view _ _ V7 (Named_view _ _ V6 N5)) as N7.
    destruct re as [e|]; [by injection H8 as _ <-|].
    unfold rotate_account in H8. apply ran_bind in H8 as (? & s9 & H9 & H8).
    assert (read_view s9.1 = read_view s7.1) as V9 by (eapply ran_frames; [|exact H9]; frame).
    destruct (Named_view _ _ V9 N7) as [M1 M2]. destruct s9 as [c9 o9]. injection H8 as _ <-.
    split; [exact M1|]. simpl. rewrite sort_strings_perm. apply Forall_app. split; [done|]. by constructor. }
  eapply Named_view; [|exact N8]. eapply ran_frames; [|exact H].
  frame. by apply frames_openWrite.
Qed.

(** C22: Get ends under every sequence of I/O errors and whatever the files contain: the
    rounds allowed (one per data file, and two) are always enough. *)
Theorem get_terminates free buf fn s :
  Named s.1 -> (doGet free buf fn s).1 <> Ok None.
Proof.
  destruct s as [c o]. simpl fst. intros N. unfold doGet. rewrite sbind_cget.
  destruct (closed c); [done|]. unfold sbind at 1.
  destruct (wakeup_rotate free (c, o)) as [[[]|e] [c1 o1]] eqn:E1; [|done].
  assert (Named c1) as N1.
  { unfold wakeup_rotate in E1. destruct free; [|by injection E1 as <- <-].
    rewrite sbind_cget in E1. apply ran_bind in E1 as (t & s1 & Ht & E1). injection Ht as <- <-.
    destruct (_ && _); [|by injection E1 as <- <-].
    apply ran_wrap in E1. by apply (rotate_Named _ _ E1). }
  rewrite sbind_cget. unfold sbind at 1.
  destruct (match rfd c1 with Some _ => sret tt | None => swrap (CacheError OpGet) switchNextFile end (c1, o1))
    as [[[]|e] [c2 o2]] eqn:E2; [|done].
  rewrite sbind_cget. apply get_loop_ends.
  - destruct (rfd c1); [by injection E2 as <- <-|]. apply ran_wrap in E2.
    by destruct (switch_need (c1, o1) _ N1 E2).
  - simpl. unfold need. destruct (rfd c2); lia.
Qed.

(** Of three data files one is missing, one is not what it should be, one is empty; calls to
    the system fail now and then. *)
Lemma get_terminates_witness :
  (doGet true BufNil None (set_dataFiles ["/c/data.1"; "/c/data.2"; "/c/data.3"] (set_closed false defaultInstance),
     mkOS (<["/c/data.2" := File [Byte.xff; Byte.x01]]> {["/c/data.3" := File []]}) [None; Some 1%nat; None; None; Some 2%nat] 0 ∅ [])).1 <> Ok None.
Proof. apply get_terminates. split; [done|]. by repeat constructor. Defined.

(** ** Close *)

Lemma sys_cases o : exists r fs, sys o = (r, with_faults fs o).
Proof.
  unfold sys, sbind, next_fault. destruct (faults o) as [|[n|] fs] eqn:E.
  - exists (Ok tt), []. by destruct o; simpl in *; subst.
  - by exists (Err ErrIO), fs.
  - by exists (Ok tt), fs.
Qed.

Lemma collect_run m w s : exists es, collect m w s = (Ok es, (m s).2).
Proof. unfold collect, stry. destruct (m s) as [[[]|e] s']; eexists; done. Qed.

(** Each clean-up step ends with its resource released, also when it reports an error. *)
Definition drop_rfd : M unit :=
  stry rfd_Close (fun r => cmod (set_rfd None) ;;;
    match r with Ok _ => sret tt | Err e => sfail e end).

Definition drop_wfd : M unit :=
  stry wfd_Close (fun r => cmod (set_wfd WNil) ;;;
    match r with Ok _ => sret tt | Err e => sfail e end).

Lemma drop_rfd_state c o : exists fs, (drop_rfd (c, o)).2 = (set_rfd None c, with_faults fs o).
Proof.
  assert (with_faults (faults o) o = o) as W by (by destruct o).
  unfold drop_rfd, stry, rfd_Close. rewrite sbind_cget. destruct (rfd c) as [r|] eqn:Er.
  - destruct (rlive r).
    + rewrite sbind_cmod. destruct (sys_cases o) as (r' & fs & E). unfold oio. rewrite E.
      exists fs. unfold rfd_kill. rewrite Er. by destruct r'.
    + exists (faults o). rewrite W. done.
  - exists (faults o). by rewrite W.
Qed.

Lemma drop_wfd_state c o : exists fs, (drop_wfd (c, o)).2 = (set_wfd WNil c, with_faults fs o).
Proof.
  assert (with_faults (faults o) o = o) as W by (by destruct o).
  unfold drop_wfd, stry, wfd_Close. rewrite sbind_cget. destruct (wfd c) eqn:Er.
  - exists (faults o). by rewrite W.
  - rewrite sbind_cmod. destruct (sys_cases o) as (r' & fs & E). unfold oio. rewrite E.
    exists fs. by destruct r'.
  - exists (faults o). by rewrite W.
Qed.

Lemma pos_close_state c o :
  exists fs, (posm pos_close (c, o)).2 = (set_pos (set_pfd false (pos c)) c, with_faults fs o).
Proof.
  assert (with_faults (faults o) o = o) as W by (by destruct o).
  unfold posm, pos_close, pget, sbind. destruct (pfd (pos c)) eqn:E.
  - unfold pmod, swrap, pio. simpl. destruct (sys_cases o) as (r' & fs & E'). rewrite E'.
    exists fs. by destruct r'.
  - exists (faults o). rewrite W. simpl. do 2 f_equal. by destruct (pos c); simpl in *; subst.
Qed.

Lemma unlock_state f o : exists fs, (unlock f o).2 = with_flocks (flocks o ∖ {[f]}) (with_faults fs o).
Proof.
  unfold unlock, stry, sys_FlockUn, sbind. destruct (sys_cases o) as ([[]|e] & fs & E); rewrite E;
    unfold smod; match goal with |- context [sys ?w] => destruct (sys_cases w) as (r & fs' & E'); rewrite E' end;
    exists fs'; unfold with_flocks, with_faults; destruct r; simpl;
    by rewrite ?difference_difference_l_L, ?union_idemp_L.
Qed.

Lemma close_rfd r c o : rfd c = r ->
  exists es fs, (match r with Some _ => collect drop_rfd (CacheError OpClose) | None => sret [] end) (c, o)
    = (Ok es, (set_rfd None c, with_faults fs o)).
Proof.
  intros E. destruct r.
  - destruct (collect_run drop_rfd (CacheError OpClose) (c, o)) as (es & ->).
    destruct (drop_rfd_state c o) as (fs & ->). by exists es, fs.
  - exists [], (faults o).
    replace (set_rfd None c) with c by (by destruct c; simpl in *; subst). by destruct o.
Qed.

Lemma close_wfd w c o : wfd c = w ->
  exists es fs, (match w with WNil => sret [] | _ => collect drop_wfd (CacheError OpClose) end) (c, o)
    = (Ok es, (set_wfd WNil c, with_faults fs o)).
Proof.
  intros E. destruct (collect_run drop_wfd (CacheError OpClose) (c, o)) as (es & Ec).
  destruct (drop_wfd_state c o) as (fs & Ed). rewrite Ed in Ec.
  destruct w; [|by exists es, fs|by exists es, fs].
  exists [], (faults o).
  replace (set_wfd WNil c) with c by (by destruct c; simpl in *; subst). by destruct o.
Qed.

Lemma close_lock f b c o : flock c = f ->
  exists es fs c' o', (match f with
     | Some g => if negb b then cmod (set_flock None) ;;; collect (oio (unlock g)) (CacheError OpUnlock)
                 else sret []
     | None => sret []
     end) (c, o) = (Ok es, (c', with_faults fs o')) /\ files o' = files o /\
    (c' = c \/ c' = set_flock None c) /\
    (forall g, f = Some g -> b = false -> flock c' = None /\ g ∉ flocks o').
Proof.
  intros E. assert (with_faults (faults o) o = o) as W by (by destruct o).
  destruct f as [g|]; [destruct b|]; simpl.
  - exists [], (faults o), c, o. rewrite W. split_and!; auto. done.
  - rewrite sbind_cmod.
    destruct (collect_run (oio (unlock g)) (CacheError OpUnlock) (set_flock None c, o)) as (es & ->).
    destruct (unlock_state g o) as (fs & U). unfold oio. destruct (unlock g o) as [r o1]. simpl in *. subst o1.
    exists es, fs, (set_flock None c), (with_flocks (flocks o ∖ {[g]}) o). split_and!; auto.
    intros g' [= <-] _. split; [done|]. intros [_ H]%elem_of_difference. by apply H, elem_of_singleton_2.
  - exists [], (faults o), c, o. rewrite W. split_and!; auto. done.
Qed.



(** A closed cache refuses Put, StreamPut, Rotate and every form of Get with
    [ErrClosed] and is left untouched, files included. *)
Theorem closed_refuses c o d rd sz free buf fn :
  closed c = true ->
  Put d (c, o) = (Err (CacheError OpPut ErrClosed), (c, o)) /\
  StreamPut rd sz (c, o) = (Err (CacheError OpStreamPut ErrClosed), (c, o)) /\
  Rotate (c, o) = (Err (CacheError OpRotate ErrClosed), (c, o)) /\
  doGet free buf fn (c, o) = (Err (CacheError OpGet ErrClosed), (c, o)).
Proof.
  intros H. unfold Put, StreamPut, Rotate, doGet. rewrite !sbind_cget, H. done.
Qed.

Lemma closed_refuses_witness :
  Put (to_bytes "x") (set_closed true defaultInstance, mkOS ∅ [] 0 ∅ [])
  = (Err (CacheError OpPut ErrClosed), (set_closed true defaultInstance, mkOS ∅ [] 0 ∅ [])).
Proof.
  exact (proj1 (closed_refuses (set_closed true defaultInstance) (mkOS ∅ [] 0 ∅ []) (to_bytes "x")
    (mkReader [] None) 1 true BufNil None eq_refl)).
Defined.
