(* ===== verification/DiskFaults.v ===== *)
(** * The disk cache: I/O errors, dropping, streams, locking

    What a failed rename, a failed write, a full cache and a stream do to the queue,
    and the cases in which the code loses or garbles data. *)

From S2P Require Import Prelude GoNum DiskFS DiskCache DiskOpen DiskSpec DiskQueue DiskInv DiskGet DiskRefine DiskReopen DiskThms.

(** ** A failed rename *)

(** The next two calls succeed, the third fails, all others succeed. *)
Definition third_fails (x : nat) (o : OS) : OS := with_faults [None; None; Some x] o.

Lemma Full_rewritten base pk c o cur fl ws t :
  Full base pk c o cur fl ws ->
  Full base pk (set_wfd WOpen (set_wfdLastWrite t (set_curBatchSize (zlen (enc ws)) (set_wfd WNil (set_wfd WDead c)))))
    (with_files (<[JoinPath (dir_of c) "data" := File (enc ws)]> (files o)) o) cur fl ws.
Proof.
  intros [R S P N].
  assert (files (with_files (<[JoinPath (dir_of c) "data":=File (enc ws)]> (files o)) o) = files o) as E.
  { simpl. apply insert_id. apply (rep_wfile _ _ _ _ _ R). }
  split; [|done| |done].
  - rep_ext R; [simpl; by rewrite (rep_wfd _ _ _ _ _ R)|simpl; by rewrite (rep_batch _ _ _ _ _ R)|exact E].
  - intros K. destruct (P K) as [P1 P2]. split; [done|].
    eapply PosOk_ext; [exact P2|done|done|]. by rewrite E.
Qed.

(** Cutting the end marker off. *)
Lemma cut_mark ws :
  take (Z.to_nat (zlen (enc ws))) (enc ws ++ put_u32 EOFHint) ++
  replicate (Z.to_nat (zlen (enc ws)) - length (enc ws ++ put_u32 EOFHint)) Byte.x00 = enc ws.
Proof.
  rewrite zlen_to_nat, take_app_length, length_app.
  replace (length (enc ws) - _)%nat with 0%nat by lia. by rewrite app_nil_r.
Qed.

(** C40: when the rename of a rotation fails, the rotation reports it, cuts the end marker
    off again and reopens the write file: the cache is exactly as before, with no record
    lost and the write file usable. *)
Theorem rename_failure_restores base pk c o cur fl ws x :
  Full base pk c o cur fl ws -> room cur fl ->
  exists c' o', rotate (c, third_fails x o) = (Err (CacheError OpRotate ErrIO), (c', o')) /\
    Full base pk c' o' cur fl ws.
Proof.
  intros F Hn. pose proof (full_rep _ _ _ _ _ _ _ F) as R. pose proof R as [].
  pose proof (Full_rewritten _ _ _ _ _ _ _ (now o) F) as F'.
  unfold rotate. erewrite sbind_ok by (apply swrap_ok, ensureWriteFile_open; done).
  rewrite sbind_cget.
  erewrite sbind_ok.
  2: { unfold wfd_Append, wfd_Write. mred. rewrite rep_wfd.
       unfold fd_Write. mred. unfold next_fault, third_fails. simpl. rewrite rep_wname, rep_wfile. done. }
  rewrite (next_file_name_ok _ _ _ _ _ R).
  erewrite sbind_ok by reflexivity.
  erewrite sbind_ok.
  2: { apply swrap_ok. unfold wfd_Close. rewrite sbind_cget, rep_wfd, sbind_cmod. done. }
  rewrite sbind_cmod. rewrite rep_wname, rep_batch.
  erewrite sbind_ok.
  2: { unfold rotate_rename. erewrite stry_run by reflexivity. cbv beta iota zeta.
       erewrite stry_run.
       2: { unfold oio. erewrite os_Stat_file; [done|done|simpl; apply lookup_insert_eq]. }
       cbv beta iota. erewrite stry_run.
       2: { unfold oio, os_Truncate. mred. rewrite sys_ok by done. simpl. rewrite lookup_insert_eq. done. }
       done. }
  erewrite sbind_ok by reflexivity.
  erewrite stry_run.
  2: { eapply openWriteFile_old; [done|]. simpl. rewrite rep_wname. apply lookup_insert_eq. }
  do 2 eexists. split; [done|]. rewrite cut_mark.
  replace (with_files _ (with_faults [] _)) with (with_files (<[JoinPath (dir_of c) "data":=File (enc ws)]> (files o)) o);
    [exact F'|].
  unfold with_files, with_faults. simpl. by rewrite rep_nofault, insert_insert_eq.
Qed.

Lemma rename_failure_restores_witness :
  exists c' o', rotate (ex_open.1, third_fails 0 ex_open.2) = (Err (CacheError OpRotate ErrIO), (c', o')) /\
    Full 0 true c' o' None [] [].
Proof. apply (rename_failure_restores 0 true _ _ _ _ _ 0 ex_open_Full). by split. Defined.

(** ** A full cache that drops *)

Lemma Rep_drop_head c o n rs fl ws sz :
  Rep c o None ((n, rs) :: fl) ws ->
  Rep (set_dataFiles (map (fun f => data_name (dir_of c) f.1) fl) (set_size sz c))
      (with_files (delete (data_name (dir_of c) n) (files o)) o) None fl ws.
Proof.
  intros R. pose proof (cursor_start _ _ _ _ _ _ (enc_file rs) 0 R eq_refl) as R1.
  pose proof (Rep_unlink _ _ _ n rs _ _ R1 eq_refl) as R2.
  destruct (rep_cur _ _ _ _ _ R) as [Hr Hc].
  eapply (Rep_ext _ _ _ _ _ _ _ R2); try reflexivity; done.
Qed.

(** Dropping with no file being read removes the oldest file and its records. *)
Lemma dropBatch_None base pk c o n rs fl ws :
  Full base pk c o None ((n, rs) :: fl) ws ->
  exists c' o', dropBatch (c, o) = (Ok tt, (c', o')) /\ conf c' = conf c /\
    curBatchSize c' = curBatchSize c /\
    Full (base - (zlen (enc_file rs) - file_weight rs)) pk c' o' None fl ws.
Proof.
  intros [R S P N]. pose proof R as []. destruct rep_cur as [Hr Hc].
  apply Forall_cons_iff in rep_files as [(F0 & _ & F2) _].
  unfold dropBatch. rewrite sbind_cget, rep_names. cbn [cur_file app map]. rewrite Hr.
  erewrite sbind_ok by reflexivity. erewrite stry_run.
  2: { unfold oio. erewrite os_Stat_file by done. done. }
  cbv beta iota. erewrite sbind_ok.
  2: { apply swrap_ok. unfold oio. erewrite os_Remove_ok by done. done. }
  do 2 eexists. split; [done|]. split_and!; [done|done|].
  split.
  - by eapply Rep_drop_head.
  - simpl in *. lia.
  - intros K. destruct (P K) as [P1 P2]. split; [done|].
    eapply PosOk_ext; [exact P2|done|done|]. simpl. apply lookup_delete_ne. auto with go.
  - intros K. specialize (N K). unfold records in *. simpl in *. rewrite <- app_assoc in N.
    by apply Forall_app in N as [_ N].
Qed.

(** On a full cache in dropping mode with no file being read, Put drops exactly the
    oldest data file, records and size, and then accepts the record. *)
Theorem put_drops_oldest base pk c o n rs fl ws d :
  Full base pk c o None ((n, rs) :: fl) ws -> room None fl -> rec_ok d -> (pk = true -> d <> []) ->
  IsFull c d = true -> noDrop (conf c) = false -> filoDrop (conf c) = false -> too_large c d = false ->
  exists c' o' fl' ws', Put d (c, o) = (Ok tt, (c', o')) /\
    Full (base - (zlen (enc_file rs) - file_weight rs)) pk c' o' None fl' ws' /\
    ready_of None fl' ++ ws' = concat (map snd fl) ++ ws ++ [d] /\
    (fills c d = false -> fl' = fl /\ ws' = ws ++ [d]).
Proof.
  intros F Hn Hd Hne Hf H1 H2 Hl.
  destruct (dropBatch_None _ _ _ _ _ _ _ _ F) as (c1 & o1 & E1 & C1 & B1 & F1).
  unfold Put. rewrite sbind_cget, (rep_open _ _ _ _ _ (full_rep _ _ _ _ _ _ _ F)), Hf, H1, H2.
  erewrite sbind_ok by (apply swrap_ok; exact E1). fold (too_large c d). rewrite Hl.
  fold (put_body (conf c) d). rewrite <- C1.
  destruct (put_body_Full _ _ _ _ _ _ _ _ F1 Hn Hd Hne) as (c2 & o2 & E2 & C2 & F2).
  replace (fills c1 d) with (fills c d) in F2 by (unfold fills; by rewrite C1, B1).
  exists c2, o2. destruct (fills c d); do 2 eexists; (split; [exact E2|]); (split; [exact F2|]).
  - split; [|done]. unfold ready_of. simpl. rewrite map_app, concat_app. simpl.
    by rewrite !app_nil_r.
  - done.
Qed.

(** Dropping the file that is being read leaves its name behind as the current read
    file; the next switch then takes it for a consumed file and pops the head of the
    list, which is the next, unread file: its records are skipped while the file stays
    on disk and in the size counter. *)
Theorem drop_while_reading_skips base pk c o n dn rest n1 rs1 fl ws :
  Full base pk c o (Some (n, dn, rest)) ((n1, rs1) :: fl) ws ->
  exists c1 o1 c2 o2,
    dropBatch (c, o) = (Ok tt, (c1, o1)) /\
    dataFiles c1 = map (fun f => data_name (dir_of c) f.1) ((n1, rs1) :: fl) /\
    removeCurrentReadingFile (c1, o1) = (Ok tt, (c2, o2)) /\
    dataFiles c2 = map (fun f => data_name (dir_of c) f.1) fl /\
    files o2 !! data_name (dir_of c) n1 = Some (File (enc_file rs1)) /\
    size c2 = size c1.
Proof.
  intros [R S P N]. pose proof R as []. destruct rep_cur as [Hr Hc].
  simpl in rep_files, rep_names, rep_sorted.
  apply Forall_cons_iff in rep_files as [(F0 & _ & F2) FF].
  apply Forall_cons_iff in FF as [(G0 & _ & G2) _]. simpl in *.
  assert (data_name (dir_of c) n <> data_name (dir_of c) n1) as Ne.
  { intros E. apply data_name_inj in E; auto with go.
    apply StronglySorted_inv in rep_sorted as [_ S2]. apply Forall_cons_iff in S2 as [S2 _]. lia. }
  destruct (rfd_Close_ok c o _ rep_nofault Hr eq_refl) as (c0 & E0 & E0').
  exists (set_dataFiles (map (fun f => data_name (dir_of c) f.1) ((n1, rs1) :: fl))
            (set_size (size c - zlen (enc_file (dn ++ rest))) (set_rfd None c))),
    (with_files (delete (data_name (dir_of c) n) (files o)) o).
  do 2 eexists. split_and!; [|done| | | |].
  - unfold dropBatch. rewrite sbind_cget, rep_names, Hr, Hc. cbv iota. rewrite String.eqb_refl.
    erewrite sbind_ok.
    2: { erewrite sbind_ok by (apply swrap_ok; exact E0). unfold cmod. rewrite E0'. done. }
    erewrite stry_run.
    2: { unfold oio. erewrite os_Stat_file by done. done. }
    cbv beta iota. erewrite sbind_ok.
    2: { apply swrap_ok. unfold oio. erewrite os_Remove_ok by done. done. }
    done.
  - unfold removeCurrentReadingFile. rewrite sbind_cget. simpl rfd. cbv iota.
    erewrite sbind_ok by reflexivity. simpl curReadfile. rewrite Hc. erewrite sbind_ok.
    2: { erewrite stry_run; [|unfold oio; rewrite os_Stat_none; [done|done|simpl; apply lookup_delete_eq]].
         reflexivity. }
    rewrite sbind_cmod. done.
  - done.
  - simpl. by rewrite lookup_delete_ne.
  - done.
Qed.

(** *** Witnesses: a small cache with two rotated files *)

Definition cap_opts : list CacheOption := [WithPath "/c"; WithCapacity 20; WithPosUpdate 0 0].

Definition cap_open : St :=
  match Open ex_pd cap_opts ex_world with
  | (Ok c, o) => (c, o)
  | (Err _, o) => (defaultInstance, o)
  end.

Lemma cap_open_Full : Full 0 true cap_open.1 cap_open.2 None [] [].
Proof.
  destruct (doOpen_Full ex_pd (fold_left (fun c f => f c) cap_opts defaultInstance) ex_world None [] [] true)
    as (c & o & E & F & _).
  - by split.
  - apply Disk_empty; [apply ex_proper|done..].
  - intros _. apply not_elem_of_empty.
  - done.
  - intros _. constructor.
  - unfold cap_open. by rewrite (Open_run _ _ _ _ _ E).
Qed.

Definition cap_a : bytes := to_bytes "abcd".
Definition cap_b : bytes := to_bytes "efgh".

(** One record in file 0, one in file 1. *)
Definition cap_two : St := (run [CPut cap_a; CRotate; CPut cap_b; CRotate] cap_open).2.

Lemma put_rotate_Full s fl n d :
  Full 0 true s.1 s.2 None fl [] -> room None fl -> room None (fl ++ [(n, [d])]) ->
  n = next_num fl -> rec_ok d -> d <> [] ->
  IsFull s.1 d = false -> too_large s.1 d = false -> fills s.1 d = false ->
  Full 0 true (run [CPut d; CRotate] s).2.1 (run [CPut d; CRotate] s).2.2 None (fl ++ [(n, [d])]) [].
Proof.
  intros F Hn Hn2 -> Hd Hne Hf Hl Hfi. destruct s as [c o]. simpl fst in *. simpl snd in *.
  destruct (Put_Full _ _ _ _ _ _ _ _ F Hn Hd (fun _ => Hne) Hf Hl) as (c1 & o1 & E1 & C1 & F1).
  rewrite Hfi in F1. simpl in F1.
  destruct (rotate_Full _ _ _ _ _ _ _ F1 Hn) as (c2 & o2 & E2 & C2 & F2).
  cbn [run exec]. unfold no_out. erewrite sbind_ok by exact E1. cbn [sret].
  unfold Rotate. erewrite (sbind_ok (sbind cget _)).
  2: { rewrite sbind_cget, (rep_open _ _ _ _ _ (full_rep _ _ _ _ _ _ _ F1)). exact E2. }
  exact F2.
Qed.

Definition cap_one : St := (run [CPut cap_a; CRotate] cap_open).2.

Lemma cap_one_Full : Full 0 true cap_one.1 cap_one.2 None [(0, [cap_a])] [].
Proof. apply (put_rotate_Full cap_open [] 0 cap_a cap_open_Full); by vm_compute. Qed.

Lemma cap_two_run : cap_two = (run [CPut cap_b; CRotate] cap_one).2.
Proof.
  unfold cap_two, cap_one. cbn [run]. destruct (exec (CPut cap_a) cap_open) as [r1 s1].
  destruct (exec CRotate s1) as [r2 s2]. cbn [snd]. destruct (exec (CPut cap_b) s2) as [r3 s3].
  by destruct (exec CRotate s3).
Qed.

Lemma cap_two_Full : Full 0 true cap_two.1 cap_two.2 None [(0, [cap_a]); (1, [cap_b])] [].
Proof.
  rewrite cap_two_run. apply (put_rotate_Full cap_one [(0, [cap_a])] 1 cap_b cap_one_Full); by vm_compute.
Qed.

Lemma put_drops_oldest_witness :
  exists c' o' fl' ws', Put (to_bytes "ijkl") cap_two = (Ok tt, (c', o')) /\
    Full (0 - 0) true c' o' None fl' ws' /\
    ready_of None fl' ++ ws' = [cap_b; to_bytes "ijkl"].
Proof.
  destruct (put_drops_oldest 0 true cap_two.1 cap_two.2 0 [cap_a] [(1, [cap_b])] [] (to_bytes "ijkl")
    cap_two_Full) as (c' & o' & fl' & ws' & H1 & H2 & H3 & _); [by vm_compute..|].
  exists c', o', fl', ws'. rewrite <- surjective_pairing in H1. split_and!; [exact H1|exact H2|exact H3].
Defined.

Lemma drop_while_reading_skips_witness :
  exists c o c1 o1 c2 o2, Full 0 true c o (Some (0, [], [cap_a])) [(1, [cap_b])] [] /\
    dropBatch (c, o) = (Ok tt, (c1, o1)) /\
    removeCurrentReadingFile (c1, o1) = (Ok tt, (c2, o2)) /\ dataFiles c2 = [] /\
    files o2 !! data_name (dir_of c) 1 = Some (File (enc_file [cap_b])).
Proof.
  destruct (switch_None _ _ _ _ _ _ cap_two_Full) as (c & o & _ & _ & F).
  destruct (drop_while_reading_skips 0 true c o 0 [] [cap_a] 1 [cap_b] [] [] F)
    as (c1 & o1 & c2 & o2 & H1 & H2 & H3 & H4 & H5 & H6).
  exists c, o, c1, o1, c2, o2. split_and!; [exact F|exact H1|exact H3|exact H4|exact H5].
Defined.

(** * The disk cache: streams, torn writes, stored positions, the lock *)

(** ** StreamPut *)

(** The guards of [StreamPut] pass. *)
Definition stream_ok (c : DiskCache) (sz : Z) : bool :=
  (0 <? sz) && negb ((0 <? capacity (conf c)) && (capacity (conf c) <? size c + sz)) &&
  negb ((0 <? maxDataSize (conf c)) && (maxDataSize (conf c) <? sz)).

(** The cache and the file after the announced size and [chunk] are written. *)
Definition streamed_cache (c : DiskCache) (sz : Z) (chunk : bytes) : DiskCache :=
  set_curBatchSize (curBatchSize c + (zlen chunk + dataHeaderLen))
    (set_batchHeader (put_u32 (uint32 sz)) c).

Definition streamed_os (c : DiskCache) (o : OS) (ws : list bytes) (sz : Z) (chunk : bytes) : OS :=
  with_files (<[JoinPath (dir_of c) "data" := File ((enc ws ++ put_u32 (uint32 sz)) ++ chunk)]>
    (files o)) o.

(** The seek back that a deferred function makes after an incomplete copy. *)
Definition seek_back (total sz : Z) : M unit :=
  if (0 <? total) && (total <? sz)
  then stry wfd_sys (fun s => match s with
         | Ok _ => sret tt
         | Err e => cmod (set_LastErr (Some (CacheError OpSeek e))) end)
  else sret tt.

(** Behind its guards [StreamPut] writes the announced size and what the stream has. *)
Lemma StreamPut_written c o cur fl ws r sz (chunk := take (Z.to_nat sz) (rdata r)) :
  Rep c o cur fl ws -> stream_ok c sz = true -> (zlen chunk < sz -> rend r = None) ->
  StreamPut r sz (c, o) =
  stry (swhen (batchSize (conf c) <=? curBatchSize (streamed_cache c sz chunk))
          (swrap (CacheError OpStreamPut) rotate))
    (fun res => seek_back (zlen chunk) sz ;;; match res with Ok _ => sret tt | Err e => sfail e end)
    (streamed_cache c sz chunk, streamed_os c o ws sz chunk).
Proof.
  intros R Hs Hend. pose proof R as [].
  unfold stream_ok in Hs. apply andb_prop in Hs as [Hs Hs3]. apply andb_prop in Hs as [Hs1 Hs2].
  apply negb_true_iff in Hs2. apply negb_true_iff in Hs3. bool_to_prop.
  unfold StreamPut. rewrite sbind_cget, rep_open.
  replace (sz <=? 0) with false by (symmetry; apply Z.leb_gt; lia).
  rewrite (proj2 (andb_false_iff _ _) Hs2), (proj2 (andb_false_iff _ _) Hs3).
  erewrite sbind_ok by (apply swrap_ok, ensureWriteFile_open; done).
  erewrite sbind_ok by (apply swrap_ok, wfd_sys_ok; done).
  rewrite sbind_cmod, sbind_cget. simpl batchHeader.
  erewrite sbind_ok by (eapply wfd_Append_ok; simpl; rewrite ?rep_wname; done).
  assert (zlen chunk <= sz) as Hle.
  { subst chunk. unfold zlen. rewrite length_take. lia. }
  set (err := if zlen chunk <? sz then Some ErrEOF else None).
  erewrite (sbind_ok (CopyN r sz) _ _ (zlen chunk, err)).
  2: { unfold CopyN. rewrite ztake_take. fold chunk. erewrite sbind_ok.
       2: { unfold wfd_Write. rewrite sbind_cget.
            change (wfd (set_batchHeader _ c)) with (wfd c). rewrite rep_wfd. unfold oio.
            change (curWriteFile (set_batchHeader _ c)) with (curWriteFile c).
            erewrite fd_Write_ok; [done|done|]. rewrite rep_wname. simpl. apply lookup_insert_eq. }
       simpl snd. subst err.
       destruct (zlen chunk <? sz) eqn:E; [|done]. bool_to_prop. by rewrite (Hend E). }
  cbv beta iota.
  replace ((0 <? zlen chunk) && match err with Some _ => true | None => false end)
    with ((0 <? zlen chunk) && (zlen chunk <? sz))
    by (subst err; by destruct (zlen chunk <? sz)).
  replace (match err with Some e => negb (errors_Is is_eof e) | None => false end) with false
    by (subst err; by destruct (zlen chunk <? sz)).
  cbv zeta. rewrite sbind_cmod, sbind_cget.
  change (curWriteFile (set_batchHeader _ c)) with (curWriteFile c). rewrite rep_wname. simpl files.
  rewrite insert_insert_eq. reflexivity.
Qed.

(** The stream has all announced bytes: the write file gets one more record. *)
Lemma Full_streamed base pk c o cur fl ws sz chunk :
  Full base pk c o cur fl ws -> rec_ok chunk -> zlen chunk = sz -> (pk = true -> chunk <> []) ->
  Full base pk (streamed_cache c sz chunk) (streamed_os c o ws sz chunk) cur fl (ws ++ [chunk]).
Proof.
  intros F Hd <- Hne. pose proof (Full_written _ _ _ _ _ _ _ _ F Hd Hne) as [R S P N].
  pose proof (rep_batch _ _ _ _ _ (full_rep _ _ _ _ _ _ _ F)) as B.
  assert (files (streamed_os c o ws (zlen chunk) chunk) = files (written_os c o (ws ++ [chunk]))) as E.
  { simpl. by rewrite <- app_assoc, put_header, <- enc_snoc. }
  assert (curBatchSize (streamed_cache c (zlen chunk) chunk) = zlen (enc (ws ++ [chunk]))) as E2.
  { simpl. rewrite B, enc_snoc, zlen_app, zlen_enc_rec. unfold dataHeaderLen. lia. }
  split; [|done| |done].
  - rep_ext R; [exact E2|exact E].
  - intros K. destruct (P K) as [P1 P2]. split; [done|]. eapply PosOk_ext; [exact P2|done|done|by rewrite E].
Qed.

(** A StreamPut of [sz] bytes on a stream that has them does to the queue what Put
    does with those bytes. *)
Theorem stream_put_is_put base pk c o cur fl ws r sz (chunk := take (Z.to_nat sz) (rdata r)) :
  Full base pk c o cur fl ws -> room cur fl -> stream_ok c sz = true ->
  zlen chunk = sz -> rec_ok chunk ->
  exists c' o', StreamPut r sz (c, o) = (Ok tt, (c', o')) /\
    if fills c chunk
    then Full base pk c' o' cur (fl ++ [(next_num (cur_file cur ++ fl), ws ++ [chunk])]) []
    else Full base pk c' o' cur fl (ws ++ [chunk]).
Proof.
  intros F Hn Hs Hz Hd. assert (chunk <> []) as Hne.
  { intros E. rewrite E in Hz. unfold stream_ok in Hs. bool_to_prop. by rewrite <- Hz in *. }
  rewrite (StreamPut_written _ _ _ _ _ _ _ (full_rep _ _ _ _ _ _ _ F) Hs) by (fold chunk; lia).
  fold chunk. pose proof (Full_streamed _ _ _ _ _ _ _ _ _ F Hd Hz (fun _ => Hne)) as F1.
  unfold seek_back. replace (zlen chunk <? sz) with false by (symmetry; apply Z.ltb_ge; lia).
  rewrite andb_false_r. unfold fills. change (curBatchSize (streamed_cache c sz chunk)) with
    (curBatchSize c + (zlen chunk + dataHeaderLen)).
  destruct (_ <=? _); simpl swhen.
  - destruct (rotate_Full _ _ _ _ _ _ _ F1 Hn) as (c2 & o2 & E2 & C2 & F2).
    exists c2, o2. erewrite stry_run by (apply swrap_ok; exact E2). done.
  - do 2 eexists. split; [reflexivity|]. exact F1.
Qed.

Lemma stream_put_is_put_witness :
  exists c' o', StreamPut (mkReader (to_bytes "abcdef") None) 4 ex_open = (Ok tt, (c', o')) /\
    Full 0 true c' o' None [] [to_bytes "abcd"].
Proof.
  destruct (stream_put_is_put 0 true ex_open.1 ex_open.2 None [] [] (mkReader (to_bytes "abcdef") None) 4
    ex_open_Full) as (c' & o' & H1 & H2); [by vm_compute..|].
  exists c', o'. rewrite <- surjective_pairing in H1. split; [exact H1|].
  replace (fills ex_open.1 _) with false in H2 by (by vm_compute). exact H2.
Defined.

(** A stream that ends early is accepted (StreamPut returns nil), but the header
    still announces [sz] bytes while only the bytes of the stream follow it: the data of
    later Puts is read back as part of this record. *)
Theorem stream_short_garbles base pk c o cur fl ws r sz :
  Full base pk c o cur fl ws -> stream_ok c sz = true -> 0 < zlen (rdata r) < sz -> rend r = None ->
  fills c (rdata r) = false ->
  exists c' o', StreamPut r sz (c, o) = (Ok tt, (c', o')) /\
    files o' !! JoinPath (dir_of c) "data" = Some (File (enc ws ++ put_u32 (uint32 sz) ++ rdata r)) /\
    curBatchSize c' = zlen (enc ws ++ put_u32 (uint32 sz) ++ rdata r) /\ wfd c' = WOpen.
Proof.
  intros F Hs [Hz1 Hz2] He Hfi. pose proof (full_rep _ _ _ _ _ _ _ F) as R.
  rewrite (StreamPut_written _ _ _ _ _ _ _ R Hs) by done.
  replace (take (Z.to_nat sz) (rdata r)) with (rdata r) by (rewrite take_ge; [done|unfold zlen in Hz2; lia]).
  unfold fills in Hfi. change (curBatchSize (streamed_cache c sz (rdata r))) with
    (curBatchSize c + (zlen (rdata r) + dataHeaderLen)). rewrite Hfi. simpl swhen.
  erewrite stry_run by reflexivity. unfold seek_back. ztest. simpl andb. cbv iota.
  erewrite sbind_ok.
  2: { erewrite stry_run; [|apply wfd_sys_ok; [apply (rep_nofault _ _ _ _ _ R)|apply (rep_wfd _ _ _ _ _ R)]].
       reflexivity. }
  do 2 eexists. split; [done|]. split_and!.
  - etransitivity; [apply lookup_insert_eq|by rewrite app_assoc].
  - rewrite !zlen_app, zlen_put_u32. simpl curBatchSize. rewrite (rep_batch _ _ _ _ _ R).
    unfold dataHeaderLen. lia.
  - apply (rep_wfd _ _ _ _ _ R).
Qed.

Lemma stream_short_garbles_witness :
  exists c' o', StreamPut (mkReader (to_bytes "ab") None) 9 ex_open = (Ok tt, (c', o')) /\
    files o' !! "/c/data" = Some (File (put_u32 9 ++ to_bytes "ab")).
Proof.
  destruct (stream_short_garbles 0 true ex_open.1 ex_open.2 None [] [] (mkReader (to_bytes "ab") None) 9
    ex_open_Full) as (c' & o' & H1 & H2 & _); [by vm_compute..|].
  exists c', o'. rewrite <- surjective_pairing in H1. split; [exact H1|exact H2].
Defined.

(** ** A torn write *)

(** When writing the data of a Put fails after [k] bytes, Put reports the error, but
    its header and the [k] bytes stay in the write file and the batch size does not count
    them: the next record is appended behind the torn one. *)
Theorem torn_put_stays base pk c o cur fl ws d k :
  Full base pk c o cur fl ws -> rec_ok d -> IsFull c d = false -> too_large c d = false ->
  exists c' o', Put d (c, with_faults [None; Some k] o) = (Err (CacheError OpWrite ErrIO), (c', o')) /\
    files o' !! JoinPath (dir_of c) "data" = Some (File (enc ws ++ put_u32 (zlen d) ++ take k d)) /\
    curBatchSize c' = zlen (enc ws).
Proof.
  intros F [Hd _] Hf Hl. pose proof (full_rep _ _ _ _ _ _ _ F) as R. pose proof R as [].
  rewrite Put_body by done. unfold put_body.
  erewrite sbind_ok by (apply swrap_ok, ensureWriteFile_open; done).
  erewrite sbind_ok.
  2: { unfold wfd_Append, wfd_Write. mred. rewrite rep_wfd.
       unfold fd_Write. mred. unfold next_fault. simpl. rewrite rep_wname, rep_wfile. done. }
  erewrite sbind_err.
  2: { unfold wfd_Append, wfd_Write. mred. rewrite rep_wfd.
       unfold fd_Write. mred. unfold next_fault. simpl. rewrite rep_wname, lookup_insert_eq. done. }
  do 2 eexists. split; [done|]. split; [|done].
  etransitivity; [apply lookup_insert_eq|]. rewrite <- app_assoc.
  do 4 f_equal. unfold uint32, wrapU. pose proof (zlen_nonneg d). by rewrite Z.mod_small by lia.
Qed.

Lemma torn_put_stays_witness :
  exists c' o', Put (to_bytes "abc") (ex_open.1, with_faults [None; Some 1%nat] ex_open.2)
      = (Err (CacheError OpWrite ErrIO), (c', o')) /\
    files o' !! "/c/data" = Some (File (put_u32 3 ++ to_bytes "a")).
Proof.
  destruct (torn_put_stays 0 true ex_open.1 ex_open.2 None [] [] (to_bytes "abc") 1
    ex_open_Full) as (c' & o' & H1 & H2 & _); [by vm_compute..|].
  exists c', o'. split; [exact H1|exact H2].
Defined.

(** ** Stored positions that fall behind *)

(** Open the directory of a cache again. *)
Definition reopen (s : St) : Res error DiskCache * OS := Open ex_pd ex_opts (exited "/c" s.2).

(** The first Get after a restart. *)
Definition get_after_reopen (s : St) : out :=
  match reopen s with
  | (Ok c, o) => (Get (Some accept) (c, o)).1
  | (Err e, _) => Err e
  end.

(** Records "", "ab", "c"; the first two are taken. *)
Definition lag_empty : St :=
  (run [CPut []; CPut (to_bytes "ab"); CPut (to_bytes "c"); CRotate; CGet accept; CGet accept] ex_open).2.

(** Records "abcde", "fg", "h"; the first is skipped by a Get with a buffer of one byte,
    the second is taken. *)
Definition lag_small : St :=
  let s := (run [CPut (to_bytes "abcde"); CPut (to_bytes "fg"); CPut (to_bytes "h"); CRotate] ex_open).2 in
  (Get (Some accept) (BufGet 1 (Some accept) s).2).2.

(** A Get of an empty record, or one refused with [ErrTooSmallReadBuf], moves the
    descriptor but not the stored position.  In the running cache the next Get is right;
    after a restart, with the position dumped on every Get, reading resumes inside a
    record and fails. *)
Theorem lagging_position :
  (Get (Some accept) lag_empty).1 = Ok (Some (mkGetOut (Some (to_bytes "c")) None)) /\
  get_after_reopen lag_empty = Err (CacheError OpGet ErrUnexpectedReadSize) /\
  (Get (Some accept) lag_small).1 = Ok (Some (mkGetOut (Some (to_bytes "h")) None)) /\
  get_after_reopen lag_small <> Ok (Some (mkGetOut (Some (to_bytes "h")) None)).
Proof. split_and!; vm_compute; congruence. Qed.

(** ** The lock *)

(** A directory whose lock is held cannot be opened a second time: Open fails with
    the lock error, the lock stays with its holder. *)
Theorem lock_excludes pd opts o cur fl ws :
  let c0 := fold_left (fun c f => f c) opts defaultInstance in
  Disk (path (conf c0)) o cur fl ws -> noLock (conf c0) = false ->
  newFlock (path (conf c0)) ∈ flocks o ->
  exists o', Open pd opts o = (Err (CacheError OpOpen (CacheError OpLock ErrLocked)), o') /\
    flocks o' = flocks o.
Proof.
  intros c0 D Hl Hin. destruct (open_conf_keeps (conf c0)) as (K1 & K2 & K3).
  unfold Open. fold c0. unfold doOpen. rewrite !sbind_cmod.
  match goal with |- context [sbind cget ?k (?c, _)] => set (kk := k); set (c1 := c) end.
  assert (path (conf c1) = path (conf c0) /\ noLock (conf c1) = noLock (conf c0)) as [Ep El].
  { subst c1. unfold on_conf. destruct c0 as [cf]; simpl.
    destruct (dirPerms cf =? 0); simpl; destruct (filePerms cf =? 0); simpl;
      destruct (batchSize cf =? 0); simpl; destruct (_ <? _); done. }
  clearbody c1. subst kk. rewrite sbind_cget. cbv zeta. rewrite Ep, El, Hl. simpl swhen.
  destruct (mkdir_Disk _ _ _ _ _ D) as (o1 & E1 & D1 & L1 & N1).
  erewrite sbind_ok by (apply swrap_ok; unfold oio; rewrite E1; done).
  pose proof (dk_nofault _ _ _ _ _ D1) as Hf. pose proof (dk_lockfile _ _ _ _ _ D1) as Hnd.
  assert (exists o2, os_OpenAppend (newFlock (path (conf c0))) o1 = (Ok tt, o2) /\ faults o2 = [] /\
    flocks o2 = flocks o) as (o2 & E2 & F2 & L2).
  { destruct (files o1 !! newFlock (path (conf c0))) as [[b|]|] eqn:E; [|done|].
    - erewrite os_OpenAppend_old by done. by exists o1.
    - rewrite os_OpenAppend_new by done. by eexists. }
  assert (tryLock (newFlock (path (conf c0))) o1 = (Err ErrLocked, o2)) as E3.
  { unfold tryLock. erewrite sbind_ok by exact E2. erewrite stry_run.
    2: { unfold sys_FlockEx. mred. rewrite sys_ok by done.
         rewrite bool_decide_eq_true_2 by (by rewrite L2). done. }
    cbv beta iota. by erewrite stry_run by (apply sys_ok; done). }
  exists o2. split; [|done].
  assert (swrap (CacheError OpLock) (oio (tryLock (newFlock (path (conf c0))))) (c1, o1)
          = (Err (CacheError OpLock ErrLocked), (c1, o2))) as E4
    by (apply swrap_err; unfold oio; by rewrite E3).
  erewrite sbind_err; [|eapply sbind_err; exact E4]. done.
Qed.

Definition locked_world : OS := mkOS ∅ [] 0 {["/c/.lock"]} [].

Lemma lock_excludes_witness :
  exists o', Open ex_pd ex_opts locked_world = (Err (CacheError OpOpen (CacheError OpLock ErrLocked)), o') /\
    flocks o' = {["/c/.lock"]}.
Proof.
  apply (lock_excludes ex_pd ex_opts locked_world None [] []).
  - by apply Disk_empty.
  - done.
  - change ("/c/.lock" ∈ ({["/c/.lock"]} : gset string)). by apply elem_of_singleton_2.
Defined.

(** [ENV_DISKCACHE_NO_LOCK] is read after the lock is taken, so that a cache opened
    with it does lock its directory, and Close, which then thinks there is no lock to
    release, leaves the directory locked for good. *)
Theorem no_lock_env_leaks :
  let w := mkOS ∅ [] 0 ∅ [("ENV_DISKCACHE_NO_LOCK", "1")] in
  match Open ex_pd ex_opts w with
  | (Ok c, o) =>
      "/c/.lock" ∈ flocks o /\
      (let '(r, (_, o')) := Close (c, o) in r = Ok None /\ "/c/.lock" ∈ flocks o' /\
         (Open ex_pd ex_opts o').1 = Err (CacheError OpOpen (CacheError OpLock ErrLocked)))
  | (Err _, _) => False
  end.
Proof. vm_compute. split_and!; reflexivity. Qed.
