(* ===== verification/FilterAst.v ===== *)
(** * Filter conditions: tokens, syntax trees and values ([src/filter/gram.y], [ast.go], [eval.go])

    [ItemType] lists the tokens of the grammar, [Node] the syntax trees that the
    evaluator inspects.  [gval] is a Go [any]: a dynamic type and a value.  The
    matching of regular expressions is a parameter of the evaluator. *)

From S2P Require Import Prelude.
From Stdlib Require Export SpecFloat.

Inductive ItemType : Set :=
| EQ | COLON | SEMICOLON | COMMA | COMMENT | DURATION | EOF | ERROR | ID | LEFT_BRACE
| LEFT_BRACKET | LEFT_PAREN | NUMBER | RIGHT_BRACE | RIGHT_BRACKET | RIGHT_PAREN | SPACE
| STRING | QUOTED_STRING | NAMESPACE | DOT
| ADD | DIV | GTE | GT | LT | LTE | MOD | MUL | NEQ | POW | SUB
| AS | ASC | AUTO | BY | MATCH | NOT_MATCH | DESC | TRUE | FALSE | FILTER | IDENTIFIER
| IN | NOT_IN | AND | LINK | LIMIT | SLIMIT | OR | NIL | NULL | OFFSET | SOFFSET | ORDER
| RE | INT | FLOAT | POINT | TIMEZONE | WITH.

#[export] Instance ItemType_eq_dec : EqDecision ItemType.
Proof. solve_decision. Defined.

(** ** Syntax trees

    A field of interface type may be nil, hence [option].  [Regex] carries the
    compiled form as its source text.  [NilRegex] and [NilBinaryExpr] are nil pointers
    of the types [*Regex] and [*BinaryExpr] in an interface: the parser puts the first
    in place of a pattern that does not compile, and the second, with an error, in place
    of a division by zero. *)

Inductive Node : Set :=
| Identifier (Name : string)
| StringLiteral (Val : string)
| NumberInt (Int : Z)
| NumberFloat (Float : spec_float)
| BoolLiteral (Val : bool)
| NilLiteral
| Regex (Re : string)
| NodeList (elems : list Node)
| BinaryExpr (Op : ItemType) (LHS RHS : option Node)
| ParenExpr (Param : option Node)
| AttrExpr (Obj Attr : Node)
| Star
| FuncExpr (Fname : string) (Params : list Node)
| CascadeFunctions (Funcs : list Node)
| FuncArg (ArgName : string) (ArgVal : option Node)
| FuncArgList (args : list Node)
| WhereCondition (conditions : list Node)
| NilRegex
| NilBinaryExpr.

(** [Evaluable]: the types with an [Eval(KVs) bool] method. *)
Definition Evaluable (n : Node) : bool :=
  match n with
  | BinaryExpr _ _ _ | ParenExpr _ | WhereCondition _ | NilBinaryExpr => true
  | _ => false
  end.

(** ** Values of type [any] *)

Inductive ikind : Set :=
| Kint | Kint8 | Kint16 | Kint32 | Kint64 | Kuint | Kuint8 | Kuint16 | Kuint32 | Kuint64.

#[export] Instance ikind_eq_dec : EqDecision ikind.
Proof. solve_decision. Defined.

Inductive gval : Set :=
| VNil                                   (* the nil interface *)
| VInt (k : ikind) (n : Z)
| VFloat32 (f : spec_float)
| VFloat64 (f : spec_float)
| VStr (s : string)
| VBool (b : bool)
| VNilLiteral                            (* *NilLiteral *)
| VRegex (re : string)                   (* *Regex *)
| VNilRegex                              (* a nil *Regex *)
| VOther (ty : string) (id : Z).         (* a value of any other type *)

(** [reflect.TypeOf(v).String()]; on the nil interface it panics ([None]). *)
Definition typeString (v : gval) : option string :=
  match v with
  | VNil => None
  | VInt Kint _ => Some "int"
  | VInt Kint8 _ => Some "int8"
  | VInt Kint16 _ => Some "int16"
  | VInt Kint32 _ => Some "int32"
  | VInt Kint64 _ => Some "int64"
  | VInt Kuint _ => Some "uint"
  | VInt Kuint8 _ => Some "uint8"
  | VInt Kuint16 _ => Some "uint16"
  | VInt Kuint32 _ => Some "uint32"
  | VInt Kuint64 _ => Some "uint64"
  | VFloat32 _ => Some "float32"
  | VFloat64 _ => Some "float64"
  | VStr _ => Some "string"
  | VBool _ => Some "bool"
  | VNilLiteral => Some "*filter.NilLiteral"
  | VRegex _ | VNilRegex => Some "*filter.Regex"
  | VOther ty _ => Some ty
  end.

(** ** float64 *)

Definition f64_sub : spec_float -> spec_float -> spec_float := SFsub 53 1024.

(** 1e-9 as a float64. *)
Definition float64EqualityThreshold : spec_float := S754_finite false 4835703278458517 (-82).

Definition almostEqual (a b : spec_float) : bool :=
  SFleb (SFabs (f64_sub a b)) float64EqualityThreshold.

(** [==] on interface values: same dynamic type and equal values.  The code never
    compares two pointers of the same type, nor two values of another type. *)
Definition iface_eq (a b : gval) : bool :=
  match a, b with
  | VNil, VNil => true
  | VInt k n, VInt k' m => bool_decide (k = k') && (n =? m)
  | VFloat32 f, VFloat32 g => SFeqb f g
  | VFloat64 f, VFloat64 g => SFeqb f g
  | VStr s, VStr t => (s =? t)%string
  | VBool x, VBool y => eqb x y
  | _, _ => false
  end.

(** ** Data: [type KVs interface], and the pair of maps the tests use *)

Definition KVs : Type := string -> option gval.

Definition tfData_Get (tags : gmap string string) (fields : gmap string gval) : KVs :=
  fun name =>
    match tags !! name with
    | Some v => Some (VStr v)
    | None => fields !! name
    end.
