(* ===== verification/FilterEval.v ===== *)
(** * Filter conditions: evaluation ([src/filter/eval.go], [ast.go])

    A result [None] is a run-time panic; a nil [*Regex] that is matched is one.  [re_match re s] is [regexp.MatchString] for a
    pattern that compiles; patterns are compiled when the condition is parsed. *)

From S2P Require Import Prelude FilterAst.

Section eval.
Context (re_match : string -> string -> bool).

(** ** Comparisons *)

Definition cmpstr (op : ItemType) (l r : string) : bool :=
  match op with
  | GTE => match String.compare l r with Lt => false | _ => true end
  | LTE => match String.compare l r with Gt => false | _ => true end
  | LT => match String.compare l r with Lt => true | _ => false end
  | GT => match String.compare l r with Gt => true | _ => false end
  | _ => false
  end.

Definition cmpint (op : ItemType) (l r : Z) : bool :=
  match op with
  | GTE => r <=? l
  | LTE => l <=? r
  | LT => l <? r
  | GT => r <? l
  | _ => false
  end.

Definition cmpfloat (op : ItemType) (l r : spec_float) : bool :=
  match op with
  | GTE => SFleb r l
  | LTE => SFleb l r
  | LT => SFltb l r
  | GT => SFltb r l
  | _ => false
  end.

(** [toInt64] on the integer kinds it lists; conversion wraps. *)
Definition toInt64 (k : ikind) (n : Z) : Z :=
  match k with Kuint64 => 0 | _ => int64 n end.

(** [toFloat64]: a float32 is also a float64. *)
Definition toFloat64 (v : gval) : spec_float :=
  match v with VFloat32 f | VFloat64 f => f | _ => S754_zero false end.

Definition is_cmp (op : ItemType) : bool :=
  match op with GTE | GT | LT | LTE | EQ | NEQ => true | _ => false end.

Definition is_order (op : ItemType) : bool :=
  match op with GTE | GT | LT | LTE => true | _ => false end.

(** The first part of [binEval]: [Some true] lets the comparison go on. *)
Definition binEval_guard (op : ItemType) (lhs rhs : gval) : option bool :=
  match rhs with
  | VRegex _ | VNilRegex => Some (match lhs with VStr _ => true | _ => false end)
  | _ =>
      match typeString lhs, typeString rhs with
      | Some tl, Some tr =>
          if is_cmp op
          then Some (match rhs with VNilLiteral => true | _ => (tl =? tr)%string end)
          else Some false
      | _, _ => None
      end
  end.

Definition binEval_order (op : ItemType) (lhs rhs : gval) : bool :=
  match lhs with
  | VInt Kuint64 _ => false
  | VInt k n => match rhs with VInt Kint64 i => cmpint op (toInt64 k n) i | _ => false end
  | VBool _ => false
  | VStr s => match rhs with VStr t => cmpstr op s t | _ => false end
  | VFloat32 _ | VFloat64 _ =>
      match rhs with VFloat64 f => cmpfloat op (toFloat64 lhs) f | _ => false end
  | _ => false
  end.

Definition binEval (op : ItemType) (lhs rhs : gval) : option bool :=
  match binEval_guard op lhs rhs with
  | None => None
  | Some false => Some false
  | Some true =>
      match op with
      | EQ =>
          match lhs with
          | VFloat64 lv => Some (match rhs with VFloat64 f => almostEqual lv f | _ => false end)
          | VNilLiteral => Some (match rhs with VNilLiteral => true | _ => false end)
          | _ =>
              match rhs with
              | VRegex re => match lhs with VStr s => Some (re_match re s) | _ => None end
              | VNilRegex => None
              | _ => Some (iface_eq lhs rhs)
              end
          end
      | MATCH => match lhs, rhs with VStr s, VRegex re => Some (re_match re s) | _, _ => None end
      | NOT_MATCH => match lhs, rhs with VStr s, VRegex re => Some (negb (re_match re s)) | _, _ => None end
      | NEQ =>
          match lhs, rhs with
          | VNilLiteral, VNilLiteral => Some false
          | _, _ => Some (negb (iface_eq lhs rhs))
          end
      | GTE | GT | LT | LTE => Some (binEval_order op lhs rhs)
      | _ => Some false
      end
  end.

(** ** One comparison *)

(** A literal of the right-hand side as a value; other nodes are skipped in lists. *)
Definition lit_val (n : Node) : option gval :=
  match n with
  | StringLiteral v => Some (VStr v)
  | NumberInt i => Some (VInt Kint64 i)
  | NumberFloat f => Some (VFloat64 f)
  | Regex re => Some (VRegex re)
  | NilRegex => Some VNilRegex
  | NilLiteral => Some VNilLiteral
  | BoolLiteral b => Some (VBool b)
  | _ => None
  end.

(** [lit] and [arr]; [None] when the right-hand side is of an invalid type. *)
Definition fetch_rhs (rhs : Node) : option (gval * list gval) :=
  match rhs with
  | NodeList l => Some (VNil, omap lit_val l)
  | _ => match lit_val rhs with Some v => Some (v, []) | None => None end
  end.

(** The items of a MATCH list, as [binEval] sees them. *)
Definition node_val (n : Node) : gval :=
  match n with Regex re => VRegex re | NilRegex => VNilRegex | _ => VOther "filter.Node" 0 end.

(** [for _, item := range e.RHS.(NodeList)]: any item that [op] accepts. *)
Fixpoint match_loop (op : ItemType) (v : option gval) (items : list Node) : option bool :=
  match items with
  | [] => Some false
  | item :: rest =>
      match v with
      | Some (VStr x) =>
          match binEval op (VStr x) (node_val item) with
          | None => None
          | Some true => Some true
          | Some false => match_loop op v rest
          end
      | _ => match_loop op v rest
      end
  end.

Fixpoint in_loop (v : option gval) (arr : list gval) : option bool :=
  match arr with
  | [] => Some false
  | item :: rest =>
      match v with
      | Some x =>
          match binEval EQ x item with
          | None => None
          | Some true => Some true
          | Some false => in_loop v rest
          end
      | None => binEval EQ item VNilLiteral
      end
  end.

Fixpoint not_in_loop (v : option gval) (arr : list gval) : option bool :=
  match arr with
  | [] => Some true
  | item :: rest =>
      match match v with
            | Some x => binEval EQ x item
            | None => binEval EQ item VNilLiteral
            end with
      | None => None
      | Some true => Some false
      | Some false => not_in_loop v rest
      end
  end.

Definition ident_eval (op : ItemType) (v : option gval) (rhs : Node) (lit : gval) (arr : list gval)
    : option bool :=
  match op with
  | MATCH | NOT_MATCH =>
      match rhs with NodeList items => match_loop op v items | _ => None end
  | IN => in_loop v arr
  | NOT_IN => not_in_loop v arr
  | GTE | GT | LT | LTE | NEQ | EQ =>
      match v with
      | Some x => binEval op x lit
      | None => binEval op lit VNilLiteral
      end
  | _ => Some false
  end.

Definition singleEval (op : ItemType) (lhs rhs : option Node) (data : KVs) : option bool :=
  match lhs, rhs with
  | Some l, Some r =>
      match fetch_rhs r with
      | None => Some false
      | Some (lit, arr) =>
          match l with
          | NilLiteral => binEval op VNilLiteral lit
          | NumberInt i => binEval op (VInt Kint64 i) lit
          | NumberFloat f => binEval op (VFloat64 f) lit
          | BoolLiteral b => binEval op (VBool b) lit
          | StringLiteral s => binEval op (VStr s) lit
          | Identifier name => ident_eval op (data name) r lit arr
          | _ => Some false
          end
      end
  | _, _ => Some false
  end.

Definition doEval (op : ItemType) (lhs rhs : option Node) (data : KVs) : option bool :=
  match op with
  | GTE | GT | LT | LTE | NEQ | EQ | IN | NOT_IN | MATCH | NOT_MATCH => singleEval op lhs rhs data
  | _ => Some false
  end.

(** ** Conditions *)

(** [Eval] of an [Evaluable] node; [Some false] for the others, which the callers
    refuse before they call it. *)
Fixpoint Eval (n : Node) (data : KVs) {struct n} : option bool :=
  match n with
  | ParenExpr (Some p) => if Evaluable p then Eval p data else Some false
  | ParenExpr None => Some false
  | BinaryExpr op lhs rhs =>
      match op with
      | AND | OR =>
          match lhs, rhs with
          | Some l, Some r =>
              if Evaluable l && Evaluable r then
                match Eval l data with
                | None => None
                | Some b =>
                    match op, b with
                    | AND, false => Some false
                    | AND, true => Eval r data
                    | _, true => Some true
                    | _, false => Eval r data
                    end
                end
              else Some false
          | _, _ => Some false
          end
      | _ => doEval op lhs rhs data
      end
  | WhereCondition conds =>
      (fix conj (l : list Node) : option bool :=
         match l with
         | [] => Some true
         | (BinaryExpr _ _ _ | NilBinaryExpr) as c :: rest =>
             match Eval c data with
             | None => None
             | Some false => Some false
             | Some true => conj rest
             end
         | _ :: _ => Some false
         end) conds
  | NilBinaryExpr => None
  | _ => Some false
  end.

(** [WhereConditions.Eval]: the index of the first condition that holds, or -1. *)
Fixpoint WhereConditions_Eval (idx : Z) (conds : list (option Node)) (data : KVs) : option Z :=
  match conds with
  | [] => Some (-1)
  | Some (WhereCondition cs) :: rest =>
      match Eval (WhereCondition cs) data with
      | None => None
      | Some true => Some idx
      | Some false => WhereConditions_Eval (idx + 1) rest data
      end
  | _ :: _ => Some (-1)
  end.
End eval.
