(* ===== verification/FilterThms.v ===== *)
(** * Filter conditions: the meaning of conditions

    [cond] is the language of conditions without malformed trees, [compile] its syntax
    trees and [denote] its meaning, by value and literal types.  [eval_denotes] shows
    that the evaluator computes [denote] and never panics on such conditions. *)

From S2P Require Import Prelude FilterAst FilterEval.

(** ** Conditions *)

Inductive lit : Set :=
| LStr (s : string) | LInt (n : Z) | LFloat (f : spec_float) | LBool (b : bool) | LNil
| LRe (re : string).

Inductive cond : Set :=
| CCmp (field : string) (op : ItemType) (l : lit)
| CIn (field : string) (ls : list lit)
| CNotIn (field : string) (ls : list lit)
| CMatch (field : string) (res : list string)
| CNotMatch (field : string) (res : list string)
| CAnd (a b : cond)
| COr (a b : cond)
| CParen (a : cond).

Definition lit_node (l : lit) : Node :=
  match l with
  | LStr s => StringLiteral s
  | LInt n => NumberInt n
  | LFloat f => NumberFloat f
  | LBool b => BoolLiteral b
  | LNil => NilLiteral
  | LRe re => Regex re
  end.

Definition list_expr (f : string) (op : ItemType) (l : list Node) : Node :=
  BinaryExpr op (Some (Identifier f)) (Some (NodeList l)).

Fixpoint compile (c : cond) : Node :=
  match c with
  | CCmp f op l => BinaryExpr op (Some (Identifier f)) (Some (lit_node l))
  | CIn f ls => list_expr f IN (map lit_node ls)
  | CNotIn f ls => list_expr f NOT_IN (map lit_node ls)
  | CMatch f res => list_expr f MATCH (map Regex res)
  | CNotMatch f res => list_expr f NOT_MATCH (map Regex res)
  | CAnd a b => BinaryExpr AND (Some (compile a)) (Some (compile b))
  | COr a b => BinaryExpr OR (Some (compile a)) (Some (compile b))
  | CParen a => ParenExpr (Some (compile a))
  end.

(** Comparison operators only. *)
Fixpoint cond_ok (c : cond) : bool :=
  match c with
  | CCmp _ op _ => is_cmp op
  | CAnd a b | COr a b => cond_ok a && cond_ok b
  | CParen a => cond_ok a
  | _ => true
  end.

(** ** Meaning *)

Section meaning.
Context (re_match : string -> string -> bool).

Definition test (op : ItemType) (eq : bool) (order : bool) : bool :=
  match op with EQ => eq | NEQ => negb eq | _ => order end.

(** A value against a literal: only equal types compare, except with nil and regex. *)
Definition cmp_val (op : ItemType) (v : gval) (l : lit) : bool :=
  match l, v with
  | LNil, VNilLiteral => test op true false
  | LNil, _ => test op false false
  | LRe re, VStr s => match op with EQ => re_match re s | NEQ => true | _ => false end
  | LStr t, VStr s => test op (s =? t)%string (cmpstr op s t)
  | LInt m, VInt Kint64 n => test op (n =? m) (cmpint op (int64 n) m)
  | LFloat g, VFloat64 f =>
      match op with EQ => almostEqual f g | NEQ => negb (SFeqb f g) | _ => cmpfloat op f g end
  | LBool y, VBool x => test op (eqb x y) false
  | _, _ => false
  end.

Definition is_LNil (l : lit) : bool := match l with LNil => true | _ => false end.

Definition denote_match (neg : bool) (v : option gval) (res : list string) : bool :=
  match v with
  | Some (VStr s) => existsb (fun re => xorb neg (re_match re s)) res
  | _ => false
  end.

Fixpoint denote (c : cond) (data : KVs) : bool :=
  match c with
  | CCmp f op l =>
      match data f with
      | Some v => cmp_val op v l
      | None => test op (is_LNil l) false
      end
  | CIn f ls =>
      match data f with
      | Some v => existsb (cmp_val EQ v) ls
      | None => match ls with l :: _ => is_LNil l | [] => false end
      end
  | CNotIn f ls =>
      match data f with
      | Some v => negb (existsb (cmp_val EQ v) ls)
      | None => negb (existsb is_LNil ls)
      end
  | CMatch f res => denote_match false (data f) res
  | CNotMatch f res => denote_match true (data f) res
  | CAnd a b => denote a data && denote b data
  | COr a b => denote a data || denote b data
  | CParen a => denote a data
  end.

(** A value a data source may hold: not the nil interface, and a type name of another
    type is not one of those compared. *)
Definition proper_val (v : gval) : bool :=
  match v with
  | VNil => false
  | VOther ty _ =>
      negb (existsb (String.eqb ty) ["int64"; "float64"; "string"; "bool"])
  | _ => true
  end.

Definition proper_data (data : KVs) : Prop := forall f v, data f = Some v -> proper_val v = true.

(** ** One comparison *)

Definition lit_gval (l : lit) : gval :=
  match l with
  | LStr s => VStr s
  | LInt n => VInt Kint64 n
  | LFloat f => VFloat64 f
  | LBool b => VBool b
  | LNil => VNilLiteral
  | LRe re => VRegex re
  end.

Lemma lit_val_node l : lit_val (lit_node l) = Some (lit_gval l).
Proof. by destruct l. Qed.

Lemma lit_vals_nodes ls : omap lit_val (map lit_node ls) = map lit_gval ls.
Proof. induction ls as [|l ls IH]; [done|]. csimpl. rewrite lit_val_node. simpl. by rewrite IH. Qed.

Lemma binEval_lit op v l :
  is_cmp op = true -> proper_val v = true ->
  binEval re_match op v (lit_gval l) = Some (cmp_val op v l).
Proof.
  intros Ho Hv. destruct v as [|k n|f|f|s|b| |re| |ty id]; try done;
    try (destruct op, l; try destruct k; try done; fail).
  unfold proper_val in Hv. simpl existsb in Hv. bool_to_prop.
  destruct op, l; try done; unfold binEval, binEval_guard; simpl;
    repeat (match goal with |- context [(ty =? ?x)%string] => destruct (String.eqb_spec ty x) end);
    subst; done.
Qed.

Lemma binEval_missing op l :
  is_cmp op = true -> binEval re_match op (lit_gval l) VNilLiteral = Some (test op (is_LNil l) false).
Proof. by destruct op, l. Qed.

(** ** Lists *)

Lemma in_loop_present v ls :
  proper_val v = true ->
  in_loop re_match (Some v) (map lit_gval ls) = Some (existsb (cmp_val EQ v) ls).
Proof.
  intros Hv. induction ls as [|l ls IH]; [done|]. cbn [map in_loop existsb].
  rewrite binEval_lit by done. by destruct (cmp_val EQ v l).
Qed.

Lemma not_in_loop_present v ls :
  proper_val v = true ->
  not_in_loop re_match (Some v) (map lit_gval ls) = Some (negb (existsb (cmp_val EQ v) ls)).
Proof.
  intros Hv. induction ls as [|l ls IH]; [done|]. cbn [map not_in_loop existsb].
  rewrite binEval_lit by done. by destruct (cmp_val EQ v l).
Qed.

Lemma not_in_loop_missing ls :
  not_in_loop re_match None (map lit_gval ls) = Some (negb (existsb is_LNil ls)).
Proof.
  induction ls as [|l ls IH]; [done|]. cbn [map not_in_loop existsb].
  rewrite binEval_missing by done. simpl test. by destruct (is_LNil l).
Qed.

Lemma match_loop_str s res :
  match_loop re_match MATCH (Some (VStr s)) (map Regex res) = Some (existsb (fun re => re_match re s) res).
Proof. induction res as [|re res IH]; [done|]. simpl. rewrite IH. by destruct (re_match re s). Qed.

Lemma not_match_loop_str s res :
  match_loop re_match NOT_MATCH (Some (VStr s)) (map Regex res)
  = Some (existsb (fun re => negb (re_match re s)) res).
Proof. induction res as [|re res IH]; [done|]. simpl. rewrite IH. by destruct (re_match re s). Qed.

Lemma match_loop_other op v res :
  match v with Some (VStr _) => False | _ => True end ->
  match_loop re_match op v (map Regex res) = Some false.
Proof.
  intros H. induction res as [|re res IH]; [done|]. cbn [map match_loop].
  by destruct v as [[]|].
Qed.

Lemma denote_match_false v res :
  match v with Some (VStr _) => False | _ => True end -> forall neg, denote_match neg v res = false.
Proof. by destruct v as [[]|]. Qed.

Lemma compile_Evaluable c : Evaluable (compile c) = true.
Proof. by destruct c. Qed.

Lemma Eval_cmp data f op l :
  is_cmp op = true ->
  Eval re_match (compile (CCmp f op l)) data =
  match data f with
  | Some v => binEval re_match op v (lit_gval l)
  | None => binEval re_match op (lit_gval l) VNilLiteral
  end.
Proof. intros H. destruct op; try done; by destruct l. Qed.

Lemma eval_meaning c data :
  cond_ok c = true -> proper_data data -> Eval re_match (compile c) data = Some (denote c data).
Proof.
  intros Hok Hp. induction c as [f op l|f ls|f ls|f res|f res|a IHa b IHb|a IHa b IHb|a IHa].
  - rewrite Eval_cmp by done. cbn [denote]. destruct (data f) as [v|] eqn:E.
    + apply binEval_lit; [done|by eapply Hp].
    + by apply binEval_missing.
  - cbn [compile list_expr Eval doEval singleEval fetch_rhs ident_eval denote].
    rewrite lit_vals_nodes. destruct (data f) as [v|] eqn:E; [apply in_loop_present; by eapply Hp|].
    destruct ls as [|l ls]; [done|]. cbn [map in_loop]. by rewrite binEval_missing.
  - cbn [compile list_expr Eval doEval singleEval fetch_rhs ident_eval denote].
    rewrite lit_vals_nodes. destruct (data f) as [v|] eqn:E; [apply not_in_loop_present; by eapply Hp|].
    apply not_in_loop_missing.
  - cbn [compile list_expr Eval doEval singleEval fetch_rhs ident_eval denote].
    destruct (data f) as [[]|] eqn:E; try (rewrite match_loop_other by done; by rewrite denote_match_false).
    rewrite match_loop_str. unfold denote_match. f_equal.
  - cbn [compile list_expr Eval doEval singleEval fetch_rhs ident_eval denote].
    destruct (data f) as [[]|] eqn:E; try (rewrite match_loop_other by done; by rewrite denote_match_false).
    rewrite not_match_loop_str. unfold denote_match. f_equal.
  - simpl in Hok. bool_to_prop. cbn [compile Eval denote]. rewrite !compile_Evaluable. simpl andb.
    rewrite IHa, IHb by done. by destruct (denote a data).
  - simpl in Hok. bool_to_prop. cbn [compile Eval denote]. rewrite !compile_Evaluable. simpl andb.
    rewrite IHa, IHb by done. by destruct (denote a data).
  - cbn [compile Eval denote]. rewrite compile_Evaluable. by apply IHa.
Qed.

(** The evaluator never panics on a condition over data without nil values, and its
    result is the meaning of the condition: comparisons between equal types (floats up to
    1e-9 for [=]), nil tests, regular expressions, lists, conjunction and disjunction. *)
Theorem eval_denotes c data :
  cond_ok c = true -> proper_data data -> Eval re_match (compile c) data = Some (denote c data).
Proof. apply eval_meaning. Qed.

(** On a field that is present, NOT IN is the negation of IN; on a missing field IN
    looks at the first element only, so that with a nil further on in the list neither IN
    nor NOT IN holds. *)
Theorem in_not_in_missing data f ls :
  proper_data data ->
  (forall v, data f = Some v -> exists b,
     Eval re_match (compile (CIn f ls)) data = Some b /\
     Eval re_match (compile (CNotIn f ls)) data = Some (negb b)) /\
  (data f = None -> forall l, ls = l :: tail ls -> is_LNil l = false -> existsb is_LNil ls = true ->
     Eval re_match (compile (CIn f ls)) data = Some false /\
     Eval re_match (compile (CNotIn f ls)) data = Some false).
Proof.
  intros Hp. rewrite !eval_meaning by done. cbn [denote]. split.
  - intros v ->. eauto.
  - intros -> l Hl Hn Hx. rewrite Hx. rewrite Hl, Hn. done.
Qed.

(** A field of a narrower or unsigned integer type, or of type float32, compares
    false with every number literal under every operator, [!=] included: only int64 and
    float64 values take part in comparisons with numbers. *)
Theorem narrow_numbers_never_compare data f v op l :
  proper_data data -> is_cmp op = true -> data f = Some v ->
  match v with VInt k _ => k <> Kint64 | VFloat32 _ => True | _ => False end ->
  match l with LInt _ | LFloat _ => True | _ => False end ->
  Eval re_match (compile (CCmp f op l)) data = Some false.
Proof.
  intros Hp Ho Hd Hv Hl. rewrite eval_meaning by done. cbn [denote]. rewrite Hd.
  destruct v as [|k n|x| | | | | | |]; try done; destruct l; try done; by destruct k.
Qed.

(** [field != re(...)] holds for every string, matching or not, and for a missing
    field; [field = re(...)] holds exactly for the strings that match. *)
Theorem regex_eq_neq data f re :
  proper_data data ->
  (forall s, data f = Some (VStr s) ->
     Eval re_match (compile (CCmp f EQ (LRe re))) data = Some (re_match re s) /\
     Eval re_match (compile (CCmp f NEQ (LRe re))) data = Some true) /\
  (data f = None -> Eval re_match (compile (CCmp f NEQ (LRe re))) data = Some true).
Proof.
  intros Hp. rewrite !eval_meaning by done. cbn [denote]. split; [intros s ->|intros ->]; done.
Qed.

(** ** Lists of conditions *)

(** A parenthesised expression as an element of a condition list, which the grammar
    accepts, makes the whole condition false: no data ever satisfies it. *)
Theorem paren_element_never_holds cs p rest data :
  Eval re_match (WhereCondition (cs ++ ParenExpr p :: rest)) data <> Some true.
Proof.
  induction cs as [|c cs IH]; [done|]. destruct c; try done. cbn [Eval app] in *.
  destruct (match Op with AND | OR => _ | _ => _ end) as [[]|]; done.
Qed.

(** A condition list as a value, and when it holds. *)
Definition where_of (cs : list cond) : Node := WhereCondition (map compile cs).

Definition is_binary (c : cond) : bool := match c with CParen _ => false | _ => true end.

Lemma where_denotes cs data :
  forallb (fun c => cond_ok c && is_binary c) cs = true -> proper_data data ->
  Eval re_match (where_of cs) data = Some (forallb (fun c => denote c data) cs).
Proof.
  intros Hok Hp. unfold where_of. induction cs as [|c cs IH]; [done|].
  simpl in Hok. apply andb_prop in Hok as [Hc Hok]. apply andb_prop in Hc as [Hc1 Hc2].
  specialize (IH Hok).
  pose proof (eval_meaning c data Hc1 Hp) as E. cbn [map forallb].
  destruct c; try done; cbn [compile list_expr Eval] in *; rewrite E;
    destruct (denote _ data); simpl; try done; exact IH.
Qed.

Lemma conds_first css data :
  Forall (fun cs => forallb (fun c => cond_ok c && is_binary c) cs = true) css -> proper_data data ->
  WhereConditions_Eval re_match 0 (map (fun cs => Some (where_of cs)) css) data =
  Some (match list_find (fun cs => Is_true (forallb (fun c => denote c data) cs)) css with
        | Some (i, _) => Z.of_nat i
        | None => -1
        end).
Proof.
  intros F Hp. assert (forall base, WhereConditions_Eval re_match base (map (fun cs => Some (where_of cs)) css) data =
    Some (match list_find (fun cs => Is_true (forallb (fun c => denote c data) cs)) css with
          | Some (i, _) => base + Z.of_nat i | None => -1 end)) as K.
  { induction css as [|cs css IH]; intros base; [done|].
    apply Forall_cons_iff in F as [F1 F2]. cbn [map WhereConditions_Eval]. unfold where_of at 1.
    fold (where_of cs). rewrite where_denotes by done. cbn [list_find].
    destruct (forallb (fun c => denote c data) cs) eqn:E.
    - rewrite decide_True by done. f_equal. lia.
    - rewrite decide_False by (by intros []). rewrite IH by done.
      destruct (list_find _ css) as [[i x]|]; [|done].
      replace (base + 1 + Z.of_nat i) with (base + Z.of_nat (S i)) by lia. done. }
  rewrite K. by destruct (list_find _ css) as [[i x]|].
Qed.
(** A list of conditions reports the index of the first condition whose elements all
    hold, and -1 when there is none. *)
Theorem first_match css data :
  Forall (fun cs => forallb (fun c => cond_ok c && is_binary c) cs = true) css -> proper_data data ->
  WhereConditions_Eval re_match 0 (map (fun cs => Some (where_of cs)) css) data =
  Some (match list_find (fun cs => Is_true (forallb (fun c => denote c data) cs)) css with
        | Some (i, _) => Z.of_nat i
        | None => -1
        end).
Proof. apply conds_first. Qed.
End meaning.

(** [=] on floats tolerates a difference of 1e-9 but [!=] does not, so both hold of
    two different floats that are close. *)
Theorem float_eq_neq_overlap re_match :
  let x := S754_finite false 4503599627370496 (-52) in
  let y := S754_finite false 4503599627370497 (-52) in
  let data := fun f => if (f =? "x")%string then Some (VFloat64 x) else None in
  Eval re_match (compile (CCmp "x" EQ (LFloat y))) data = Some true /\
  Eval re_match (compile (CCmp "x" NEQ (LFloat y))) data = Some true.
Proof. split; vm_compute; reflexivity. Qed.

(** ** Witnesses *)

(** A matcher for the witnesses: literal equality. *)
Definition eq_match (re s : string) : bool := (re =? s)%string.

Definition ex_data : KVs :=
  tfData_Get (<["host" := "h1"]> ∅) (<["n" := VInt Kint64 3]> (<["m" := VInt Kint32 3]> ∅)).

Lemma ex_data_proper : proper_data ex_data.
Proof.
  intros f v. unfold ex_data, tfData_Get.
  destruct (decide (f = "host")) as [->|N1]; [intros [= <-]; done|]. rewrite lookup_insert_ne by done.
  destruct (decide (f = "n")) as [->|N2]; [intros [= <-]; done|]. rewrite lookup_insert_ne by done.
  destruct (decide (f = "m")) as [->|N3]; [intros [= <-]; done|]. by rewrite lookup_insert_ne.
Qed.

Definition ex_cond : cond :=
  CAnd (COr (CCmp "host" EQ (LStr "h2")) (CCmp "n" GT (LInt 2))) (CParen (CMatch "host" ["h1"])).

Lemma eval_denotes_witness : Eval eq_match (compile ex_cond) ex_data = Some true.
Proof. exact (eval_denotes eq_match ex_cond ex_data eq_refl ex_data_proper). Defined.

Lemma in_not_in_missing_witness :
  Eval eq_match (compile (CIn "zz" [LInt 1; LNil])) ex_data = Some false /\
  Eval eq_match (compile (CNotIn "zz" [LInt 1; LNil])) ex_data = Some false.
Proof.
  exact (proj2 (in_not_in_missing eq_match ex_data "zz" [LInt 1; LNil] ex_data_proper)
    eq_refl (LInt 1) eq_refl eq_refl eq_refl).
Defined.

Lemma narrow_numbers_never_compare_witness :
  Eval eq_match (compile (CCmp "m" NEQ (LInt 5))) ex_data = Some false.
Proof.
  apply (narrow_numbers_never_compare eq_match ex_data "m" (VInt Kint32 3) NEQ (LInt 5) ex_data_proper);
    done.
Defined.

Lemma regex_eq_neq_witness :
  Eval eq_match (compile (CCmp "host" NEQ (LRe "h1"))) ex_data = Some true.
Proof. exact (proj2 (proj1 (regex_eq_neq eq_match ex_data "host" "h1" ex_data_proper) "h1" eq_refl)). Defined.

Lemma first_match_witness :
  WhereConditions_Eval eq_match 0
    (map (fun cs => Some (where_of cs)) [[CCmp "n" LT (LInt 2)]; [CCmp "n" LT (LInt 9); CCmp "host" NEQ LNil]])
    ex_data = Some 1.
Proof.
  refine (first_match eq_match _ ex_data _ ex_data_proper). by repeat constructor.
Defined.
