(* ===== verification/FilterLex.v ===== *)
(** * Filter conditions: the lexer ([src/filter/lex.go])

    A [Lexer] scans a byte string.  The state functions are values of [stateFn]; a run
    of one of them is [step].  Loops take fuel and give [None] when it runs out, or when
    Go would call a nil state function; [FilterLexThms] shows that this never happens.
    The texts of error items are their format strings, without the arguments. *)

From S2P Require Import Prelude FilterAst.
From Stdlib Require Import Ascii.

(** ** Runes ([unicode/utf8]) *)

Definition eof : Z := -1.
Definition RuneError : Z := 65533.

Definition bz (b : byte) : Z := byte.unsigned b.

Definition in_range (lo hi x : Z) : bool := (lo <=? x) && (x <=? hi).

(** The bounds of the second byte for a first byte of a multi-byte sequence. *)
Definition second_range (b0 : Z) : Z * Z :=
  if b0 =? 224 then (160, 191)
  else if b0 =? 237 then (128, 159)
  else if b0 =? 240 then (144, 191)
  else if b0 =? 244 then (128, 143)
  else (128, 191).

(** [utf8.DecodeRuneInString] of a non-empty string: rune and width. *)
Definition DecodeRune (s : bytes) : Z * nat :=
  match s with
  | [] => (RuneError, 0%nat)
  | x0 :: s1 =>
      let b0 := bz x0 in
      if b0 <? 128 then (b0, 1%nat)
      else if negb (in_range 194 244 b0) then (RuneError, 1%nat)
      else
        match s1 with
        | [] => (RuneError, 1%nat)
        | x1 :: s2 =>
            let b1 := bz x1 in
            let '(lo, hi) := second_range b0 in
            if negb (in_range lo hi b1) then (RuneError, 1%nat)
            else if b0 <=? 223 then ((b0 - 192) * 64 + (b1 - 128), 2%nat)
            else
              match s2 with
              | [] => (RuneError, 1%nat)
              | x2 :: s3 =>
                  let b2 := bz x2 in
                  if negb (in_range 128 191 b2) then (RuneError, 1%nat)
                  else if b0 <=? 239
                  then ((b0 - 224) * 4096 + (b1 - 128) * 64 + (b2 - 128), 3%nat)
                  else
                    match s3 with
                    | [] => (RuneError, 1%nat)
                    | x3 :: _ =>
                        let b3 := bz x3 in
                        if negb (in_range 128 191 b3) then (RuneError, 1%nat)
                        else ((b0 - 240) * 262144 + (b1 - 128) * 4096 + (b2 - 128) * 64 + (b3 - 128), 4%nat)
                    end
              end
        end
  end.

(** ** Character classes *)

Definition ch (c : ascii) : Z := Z.of_N (N_of_ascii c).
Arguments ch c%_char_scope.

Definition isAlpha (r : Z) : bool :=
  (r =? ch "_") || in_range (ch "a") (ch "z") r || in_range (ch "A") (ch "Z") r.
Definition isDigit (r : Z) : bool := in_range (ch "0") (ch "9") r.
Definition isAlphaNumeric (r : Z) : bool := isAlpha r || isDigit r.
Definition isSpace (r : Z) : bool := (r =? 32) || (r =? 9) || (r =? 10) || (r =? 13).
Definition isEOL (r : Z) : bool := (r =? 13) || (r =? 10).

Definition digitVal (r : Z) : Z :=
  if in_range (ch "0") (ch "9") r then r - ch "0"
  else if in_range (ch "a") (ch "f") r then r - ch "a" + 10
  else if in_range (ch "A") (ch "F") r then r - ch "A" + 10
  else 16.

(** [strings.ContainsRune(valid, r)] for an ASCII [valid]. *)
Definition ContainsRune (valid : string) (r : Z) : bool :=
  existsb (fun b => bz b =? r) (to_bytes valid).

Definition Digits : string := "0123456789".
Definition HexDigits : string := "0123456789abcdefABCDEF".

(** ** Keywords *)

Definition keywords : list (string * ItemType) :=
  [("and", AND); ("as", AS); ("asc", ASC); ("auto", AUTO); ("by", BY); ("desc", DESC);
   ("match", MATCH); ("notmatch", NOT_MATCH); ("false", FALSE); ("filter", FILTER);
   ("identifier", IDENTIFIER); ("in", IN); ("notin", NOT_IN); ("not_in", NOT_IN);
   ("limit", LIMIT); ("link", LINK); ("nil", NIL); ("null", NULL); ("offset", OFFSET);
   ("with", WITH); ("or", OR); ("order", ORDER); ("re", RE); ("int", INT); ("float", FLOAT);
   ("slimit", SLIMIT); ("soffset", SOFFSET); ("true", TRUE); ("tz", TIMEZONE);
   ("inf", NUMBER); ("nan", NUMBER)].

Definition lower (c : ascii) : ascii :=
  if in_range (ch "A") (ch "Z") (ch c) then ascii_of_N (N_of_ascii c + 32) else c.

(** [strings.ToLower] on ASCII letters, digits and underscores. *)
Fixpoint ToLower (s : string) : string :=
  match s with
  | EmptyString => EmptyString
  | String c r => String (lower c) (ToLower r)
  end.

Definition keyword_of (word : string) : option ItemType :=
  match List.find (fun kv => String.eqb (fst kv) (ToLower word)) keywords with
  | Some (_, t) => Some t
  | None => None
  end.

(** ** State *)

Record Item := mkItem {
  Typ : ItemType;
  Pos : nat;
  Val : bytes
}.

Inductive stateFn : Set :=
| lexStatements | lexLineComment | lexSpace | lexNumberOrDuration | lexString | lexRawString
| lexKeywordOrIdentifier | lexEscape.

Record Lexer := mkLexer {
  input : bytes;
  pos : nat;
  start : nat;
  width : nat;
  item : Item;
  scannedItem : bool;
  parenDepth : Z;
  braceDepth : Z;
  bracketDepth : Z;
  stringOpen : Z;
  backquoteOpen : Z
}.

Definition set_pos (p w : nat) (l : Lexer) : Lexer :=
  mkLexer (input l) p (start l) w (item l) (scannedItem l) (parenDepth l) (braceDepth l)
    (bracketDepth l) (stringOpen l) (backquoteOpen l).
Definition set_start (v : nat) (l : Lexer) : Lexer :=
  mkLexer (input l) (pos l) v (width l) (item l) (scannedItem l) (parenDepth l) (braceDepth l)
    (bracketDepth l) (stringOpen l) (backquoteOpen l).
Definition set_item (i : Item) (l : Lexer) : Lexer :=
  mkLexer (input l) (pos l) (start l) (width l) i true (parenDepth l) (braceDepth l)
    (bracketDepth l) (stringOpen l) (backquoteOpen l).
Definition set_unscanned (l : Lexer) : Lexer :=
  mkLexer (input l) (pos l) (start l) (width l) (item l) false (parenDepth l) (braceDepth l)
    (bracketDepth l) (stringOpen l) (backquoteOpen l).
Definition set_depths (p b k : Z) (l : Lexer) : Lexer :=
  mkLexer (input l) (pos l) (start l) (width l) (item l) (scannedItem l) p b k
    (stringOpen l) (backquoteOpen l).
Definition set_opens (s q : Z) (l : Lexer) : Lexer :=
  mkLexer (input l) (pos l) (start l) (width l) (item l) (scannedItem l) (parenDepth l)
    (braceDepth l) (bracketDepth l) s q.

(** [l.input[i:j]]. *)
Definition slice (s : bytes) (i j : nat) : bytes := take (j - i) (drop i s).

Definition Lex (s : bytes) : Lexer :=
  mkLexer s 0 0 0 (mkItem EOF 0 []) false 0 0 0 0 0.

(** ** Tools *)

Definition next (l : Lexer) : Z * Lexer :=
  if (length (input l) <=? pos l)%nat then (eof, set_pos (pos l) 0 l)
  else
    let '(r, w) := DecodeRune (drop (pos l) (input l)) in
    (r, set_pos (pos l + w) w l).

Definition backup (l : Lexer) : Lexer := set_pos (pos l - width l) (width l) l.

Definition peek (l : Lexer) : Z * Lexer :=
  let '(r, l1) := next l in (r, backup l1).

Definition emit (t : ItemType) (l : Lexer) : Lexer :=
  set_start (pos l) (set_item (mkItem t (start l) (slice (input l) (start l) (pos l))) l).

Definition errorf (format : string) (l : Lexer) : Lexer :=
  set_item (mkItem ERROR (start l) (to_bytes format)) l.

Definition ignore (l : Lexer) : Lexer := set_start (pos l) l.

Definition accept (valid : string) (l : Lexer) : bool * Lexer :=
  let '(r, l1) := next l in
  if ContainsRune valid r then (true, l1) else (false, backup l1).

(** Rounds that a loop over the rest of the input can take. *)
Definition fuel_of (l : Lexer) : nat := S (length (input l) - pos l).

Fixpoint acceptRun_loop (fuel : nat) (valid : string) (l : Lexer) : option Lexer :=
  match fuel with
  | O => None
  | S fuel' =>
      let '(r, l1) := next l in
      if ContainsRune valid r then acceptRun_loop fuel' valid l1 else Some (backup l1)
  end.

Definition acceptRun (valid : string) (l : Lexer) : option Lexer :=
  acceptRun_loop (fuel_of l) valid l.

Definition scanNumber (l : Lexer) : option (bool * Lexer) :=
  let '(z, l1) := accept "0" l in
  let '(x, l2) := if z then accept "xX" l1 else (false, l1) in
  let digs := if x then HexDigits else Digits in
  l3 ← acceptRun digs l2;
  let '(d, l4) := accept "." l3 in
  l5 ← (if d then acceptRun digs l4 else Some l4);
  let '(e, l6) := accept "eE" l5 in
  l7 ← (if e then let '(_, l7) := accept "+-" l6 in acceptRun Digits l7 else Some l6);
  let '(r, l8) := peek l7 in
  Some (negb (isAlphaNumeric r), l8).

(** [for l.accept(Digits) { for l.accept(Digits) {}; unit }]. *)
Fixpoint duration_loop (fuel : nat) (l : Lexer) : option (bool * Lexer) :=
  match fuel with
  | O => None
  | S fuel' =>
      let '(d, l1) := accept Digits l in
      if d then
        l2 ← acceptRun Digits l1;
        let '(u, l3) := accept "nusmhdw" l2 in
        if u then let '(_, l4) := accept "s" l3 in duration_loop fuel' l4
        else Some (false, l3)
      else
        let '(r, l2) := next l1 in Some (negb (isAlphaNumeric r), l2)
  end.

Definition acceptRemainDuration (l : Lexer) : option (bool * Lexer) :=
  let '(u, l1) := accept "nusmhdwy" l in
  if u then let '(_, l2) := accept "s" l1 in duration_loop (fuel_of l2) l2
  else Some (false, l1).

(** ** State functions: the next state ([None] for nil) and the lexer *)

Definition lexStatements_fn (l : Lexer) : option stateFn * Lexer :=
  if match drop (pos l) (input l) with b :: _ => bz b =? ch "#" | [] => false end
  then (Some lexLineComment, l)
  else
    let '(r, l1) := next l in
    let go (t : ItemType) (l : Lexer) := (Some lexStatements, emit t l) in
    if r =? ch "." then go DOT l1
    else if r =? ch "," then go COMMA l1
    else if isSpace r then (Some lexSpace, l1)
    else if r =? ch "*" then go MUL l1
    else if r =? ch "/" then go DIV l1
    else if r =? ch "%" then go MOD l1
    else if r =? ch "+" then go ADD l1
    else if r =? ch "-" then go SUB l1
    else if r =? ch "^" then go POW l1
    else if r =? ch "=" then go EQ l1
    else if r =? ch ";" then go SEMICOLON l1
    else if r =? ch "|" then
      let '(t, l2) := peek l1 in
      if t =? ch "|" then let '(_, l3) := next l2 in go OR l3
      else (None, errorf "unexpected character `%q' after `!'" l2)
    else if r =? ch "&" then
      let '(t, l2) := peek l1 in
      if t =? ch "&" then let '(_, l3) := next l2 in go AND l3
      else (None, errorf "unexpected character `%q' after `!'" l2)
    else if r =? ch ":" then
      let '(t, l2) := peek l1 in
      if (t =? ch ":") && (bracketDepth l2 =? 0)
      then let '(_, l3) := next l2 in go NAMESPACE l3
      else go COLON l2
    else if r =? ch "!" then
      let '(nr, l2) := next l1 in
      if nr =? ch "=" then go NEQ l2
      else (None, errorf "unexpected character `%q' after `!'" l2)
    else if r =? ch "<" then
      let '(t, l2) := peek l1 in
      if t =? ch "=" then let '(_, l3) := next l2 in go LTE l3 else go LT l2
    else if r =? ch ">" then
      let '(t, l2) := peek l1 in
      if t =? ch "=" then let '(_, l3) := next l2 in go GTE l3 else go GT l2
    else if isDigit r then (Some lexNumberOrDuration, backup l1)
    else if (r =? 34) || (r =? 39) then (Some lexString, set_opens r (backquoteOpen l1) l1)
    else if r =? 96 then (Some lexRawString, set_opens (stringOpen l1) r l1)
    else if isAlpha r then (Some lexKeywordOrIdentifier, backup l1)
    else if r =? ch "(" then
      let l2 := emit LEFT_PAREN l1 in
      (Some lexStatements, set_depths (parenDepth l2 + 1) (braceDepth l2) (bracketDepth l2) l2)
    else if r =? ch ")" then
      let l2 := emit RIGHT_PAREN l1 in
      let l3 := set_depths (parenDepth l2 - 1) (braceDepth l2) (bracketDepth l2) l2 in
      if parenDepth l3 <? 0 then (None, errorf "unexpected right parenthesis %q" l3)
      else (Some lexStatements, l3)
    else if r =? ch "{" then
      let l2 := emit LEFT_BRACE l1 in
      (Some lexStatements, set_depths (parenDepth l2) (braceDepth l2 + 1) (bracketDepth l2) l2)
    else if r =? ch "}" then
      go RIGHT_BRACE (set_depths (parenDepth l1) (braceDepth l1 - 1) (bracketDepth l1) l1)
    else if r =? ch "[" then
      go LEFT_BRACKET (set_depths (parenDepth l1) (braceDepth l1) (bracketDepth l1 + 1) l1)
    else if r =? ch "]" then
      go RIGHT_BRACKET (set_depths (parenDepth l1) (braceDepth l1) (bracketDepth l1 - 1) l1)
    else if r =? eof then
      if negb (parenDepth l1 =? 0) then (None, errorf "unclosed left parenthesis" l1)
      else if negb (bracketDepth l1 =? 0) then (None, errorf "unclosed left bracket" l1)
      else if negb (braceDepth l1 =? 0) then (None, errorf "unclosed left brace" l1)
      else (None, emit EOF l1)
    else (None, errorf "unexpected character: %q" l1).

Fixpoint word_loop (fuel : nat) (l : Lexer) : option Lexer :=
  match fuel with
  | O => None
  | S fuel' =>
      let '(r, l1) := next l in
      if isAlphaNumeric r then word_loop fuel' l1 else Some (backup l1)
  end.

Definition lexKeywordOrIdentifier_fn (l : Lexer) : option (option stateFn * Lexer) :=
  l1 ← word_loop (fuel_of l) l;
  let word := of_bytes (slice (input l1) (start l1) (pos l1)) in
  Some (Some lexStatements, emit (default ID (keyword_of word)) l1).

(** [for isSpace(l.peek()) { l.next() }]. *)
Fixpoint space_loop (fuel : nat) (l : Lexer) : option Lexer :=
  match fuel with
  | O => None
  | S fuel' =>
      let '(r, l1) := peek l in
      if isSpace r then let '(_, l2) := next l1 in space_loop fuel' l2 else Some l1
  end.

Definition lexSpace_fn (l : Lexer) : option (option stateFn * Lexer) :=
  l1 ← space_loop (fuel_of l) l; Some (Some lexStatements, ignore l1).

Definition lexNumberOrDuration_fn (l : Lexer) : option (option stateFn * Lexer) :=
  '(n, l1) ← scanNumber l;
  if (n : bool) then Some (Some lexStatements, emit NUMBER l1)
  else
    '(d, l2) ← acceptRemainDuration l1;
    if (d : bool) then Some (Some lexStatements, emit DURATION (backup l2))
    else Some (None, errorf "bad duration: %q" l2).

Fixpoint raw_loop (fuel : nat) (l : Lexer) : option (option stateFn * Lexer) :=
  match fuel with
  | O => None
  | S fuel' =>
      let '(r, l1) := next l in
      if r =? RuneError then Some (Some lexRawString, errorf "invalid UTF-8 rune" l1)
      else if r =? eof then Some (Some lexRawString, errorf "unterminated raw string" l1)
      else if r =? backquoteOpen l1 then Some (Some lexStatements, emit QUOTED_STRING l1)
      else raw_loop fuel' l1
  end.

Definition lexRawString_fn (l : Lexer) : option (option stateFn * Lexer) := raw_loop (fuel_of l) l.

Fixpoint comment_loop (fuel : nat) (l : Lexer) : option Lexer :=
  match fuel with
  | O => None
  | S fuel' =>
      let '(r, l1) := next l in
      if negb (isEOL r) && negb (r =? eof) then comment_loop fuel' l1 else Some (backup l1)
  end.

Definition lexLineComment_fn (l : Lexer) : option (option stateFn * Lexer) :=
  let l0 := set_pos (pos l + 1) (width l) l in
  l1 ← comment_loop (fuel_of l0) l0; Some (Some lexStatements, emit COMMENT l1).

(** The digits of an escape: [n] of them in [base], the first one is [c]. *)
Fixpoint escape_digits (n : nat) (base _max c x : Z) (l : Lexer) : Lexer :=
  match n with
  | O =>
      if (_max <? x) || ((55296 <=? x) && (x <? 57344))
      then errorf "escape sequence is an invalid Unicode code point" l else l
  | S n' =>
      let d := digitVal c in
      if base <=? d then
        let l1 := if c =? eof then errorf "escape sequence not terminated" l else l in
        errorf "illegal character %#U in escape sequence" l1
      else
        let '(c', l1) := next l in
        escape_digits n' base _max c' (uint32 (x * base + d)) l1
  end.

Definition lexEscape_fn (l : Lexer) : option stateFn * Lexer :=
  let '(c, l1) := next l in
  if existsb (fun x => x =? c)
       [ch "a"; ch "b"; ch "f"; ch "n"; ch "r"; ch "t"; ch "v"; ch "\"; stringOpen l1; backquoteOpen l1]
  then (Some lexString, l1)
  else if in_range (ch "0") (ch "7") c then (Some lexString, escape_digits 3 8 255 c 0 l1)
  else if (c =? ch "x") || (c =? ch "X") then
    let '(c', l2) := next l1 in (Some lexString, escape_digits 2 16 255 c' 0 l2)
  else if c =? ch "u" then
    let '(c', l2) := next l1 in (Some lexString, escape_digits 4 16 1114111 c' 0 l2)
  else if c =? ch "U" then
    let '(c', l2) := next l1 in (Some lexString, escape_digits 8 16 1114111 c' 0 l2)
  else if c =? eof then (Some lexString, errorf "escape squence not terminated" l1)
  else (Some lexString, errorf "unknown escape sequence %#U" l1).

(** An invalid rune sets an error item, and the loop goes on. *)
Fixpoint string_loop (fuel : nat) (l : Lexer) : option (option stateFn * Lexer) :=
  match fuel with
  | O => None
  | S fuel' =>
      let '(r, l1) := next l in
      if r =? ch "\" then Some (Some lexEscape, l1)
      else if r =? RuneError then string_loop fuel' (errorf "invalid UTF-8 rune" l1)
      else if (r =? eof) || (r =? 10) then Some (None, errorf "unterminated quoted string" l1)
      else if r =? stringOpen l1 then Some (Some lexStatements, emit STRING l1)
      else string_loop fuel' l1
  end.

Definition lexString_fn (l : Lexer) : option (option stateFn * Lexer) := string_loop (fuel_of l) l.

Definition step (s : stateFn) (l : Lexer) : option (option stateFn * Lexer) :=
  match s with
  | lexStatements => Some (lexStatements_fn l)
  | lexLineComment => lexLineComment_fn l
  | lexSpace => lexSpace_fn l
  | lexNumberOrDuration => lexNumberOrDuration_fn l
  | lexString => lexString_fn l
  | lexRawString => lexRawString_fn l
  | lexKeywordOrIdentifier => lexKeywordOrIdentifier_fn l
  | lexEscape => Some (lexEscape_fn l)
  end.

(** ** NextItem *)

(** [for !l.scannedItem { l.state = l.state(l) }]. *)
Fixpoint scan_loop (fuel : nat) (s : option stateFn) (l : Lexer) : option (option stateFn * Lexer) :=
  if scannedItem l then Some (s, l)
  else
    match fuel, s with
    | S fuel', Some f => '(s', l') ← step f l; scan_loop fuel' s' l'
    | _, _ => None
    end.

Definition scan_fuel (l : Lexer) : nat := (2 * (length (input l) - pos l) + 3)%nat.

Definition NextItem (s : option stateFn) (l : Lexer) : option (option stateFn * Lexer) :=
  let l0 := set_unscanned l in
  match s with
  | Some _ => scan_loop (scan_fuel l0) s l0
  | None => Some (None, emit EOF l0)
  end.

(** All items up to and including the first EOF or ERROR. *)
Fixpoint items (fuel : nat) (s : option stateFn) (l : Lexer) : option (list Item) :=
  match fuel with
  | O => None
  | S fuel' =>
      '(s', l') ← NextItem s l;
      let i := item l' in
      match Typ i with
      | EOF | ERROR => Some [i]
      | _ => rest ← items fuel' s' l'; Some (i :: rest)
      end
  end.

Definition lex_all (s : bytes) : option (list Item) := items (S (length s)) (Some lexStatements) (Lex s).
