(* ===== verification/FilterLexThms.v ===== *)
(** * The lexer: totality, progress, and items as slices of the input *)

From S2P Require Import Prelude FilterAst FilterLex.

(** ** Runes *)

Lemma bz_range b : 0 <= bz b < 256.
Proof. apply byte.unsigned_range. Qed.

(** A decoded rune is not [eof] and takes at least one byte of the string. *)
Lemma DecodeRune_spec s : s <> [] ->
  0 <= (DecodeRune s).1 /\ (1 <= (DecodeRune s).2 <= length s)%nat.
Proof.
  intros Hs. destruct s as [|x0 s1]; [done|]. unfold DecodeRune, RuneError.
  pose proof (bz_range x0). destruct (bz x0 <? 128); [simpl; lia|].
  unfold in_range, second_range. destruct (negb _) eqn:E0; [simpl; lia|]. bool_to_prop.
  destruct s1 as [|x1 s2]; [simpl; lia|]. pose proof (bz_range x1).
  destruct (if bz x0 =? 224 then _ else _) as [lo hi] eqn:Er.
  assert (128 <= lo) by (repeat case_match; simplify_eq; lia).
  destruct (negb _) eqn:E1; [simpl; lia|]. bool_to_prop.
  destruct (bz x0 <=? 223) eqn:E2; bool_to_prop; [simpl; lia|].
  destruct s2 as [|x2 s3]; [simpl; lia|]. pose proof (bz_range x2).
  destruct (negb _) eqn:E3; [simpl; lia|]. bool_to_prop.
  destruct (bz x0 <=? 239) eqn:E4; bool_to_prop; [simpl; lia|].
  destruct s3 as [|x3 s4]; [simpl; lia|]. pose proof (bz_range x3).
  destruct (negb _) eqn:E5; [simpl; lia|]. bool_to_prop. simpl; lia.
Qed.

(** An ASCII rune is the one byte it is encoded as. *)
Lemma DecodeRune_ascii s : s <> [] -> (DecodeRune s).1 < 128 ->
  exists b rest, s = b :: rest /\ bz b = (DecodeRune s).1 /\ (DecodeRune s).2 = 1%nat.
Proof.
  intros Hs. destruct s as [|x0 s1]; [done|]. unfold DecodeRune, RuneError.
  pose proof (bz_range x0). destruct (bz x0 <? 128); [intros _; by exists x0, s1|].
  unfold in_range, second_range. destruct (negb _) eqn:E0; [simpl; lia|]. bool_to_prop.
  destruct s1 as [|x1 s2]; [simpl; lia|]. pose proof (bz_range x1).
  destruct (if bz x0 =? 224 then _ else _) as [lo hi] eqn:Er.
  assert (128 <= lo /\ (bz x0 = 224 -> lo = 160) /\ (bz x0 = 240 -> lo = 144)) as (L1 & L2 & L3)
    by (repeat case_match; bool_to_prop; simplify_eq; lia).
  destruct (negb _) eqn:E1; [simpl; lia|]. bool_to_prop.
  destruct (bz x0 <=? 223) eqn:E2; bool_to_prop; [simpl; lia|].
  destruct s2 as [|x2 s3]; [simpl; lia|]. pose proof (bz_range x2).
  destruct (negb _) eqn:E3; [simpl; lia|]. bool_to_prop.
  destruct (bz x0 <=? 239) eqn:E4; bool_to_prop; [simpl; lia|].
  destruct s3 as [|x3 s4]; [simpl; lia|]. pose proof (bz_range x3).
  destruct (negb _) eqn:E5; [simpl; lia|]. bool_to_prop. simpl; lia.
Qed.

(** ** Blanks *)

Lemma slice_app s i j k : (i <= j <= k)%nat -> slice s i k = slice s i j ++ slice s j k.
Proof.
  intros H. unfold slice. replace (k - i)%nat with ((j - i) + (k - j))%nat by lia.
  rewrite <- (take_take_drop (drop i s) (j - i)), drop_drop. by replace (i + (j - i))%nat with j by lia.
Qed.

(** The bytes from [i] to [j] are white space. *)
Definition blank (s : bytes) (i j : nat) : Prop := Forall (fun b => isSpace (bz b) = true) (slice s i j).

Lemma blank_refl s i : blank s i i.
Proof. unfold blank, slice. by rewrite Nat.sub_diag. Qed.

Lemma blank_trans s i j k : (i <= j <= k)%nat -> blank s i j -> blank s j k -> blank s i k.
Proof. intros H B1 B2. unfold blank. rewrite (slice_app s i j k H). by apply Forall_app. Qed.

(** ** Moving forward *)

(** The quotes remembered are runes. *)
Definition opens (l : Lexer) : Prop := stringOpen l <> eof /\ backquoteOpen l <> eof.

(** [l'] is [l] moved forward in the input. *)
Record adv (l l' : Lexer) : Prop := {
  adv_input : input l' = input l;
  adv_start : start l' = start l;
  adv_scanned : scannedItem l' = scannedItem l;
  adv_item : item l' = item l;
  adv_op : opens l -> opens l';
  adv_pos : (pos l <= pos l')%nat;
  adv_len : (pos l' <= length (input l))%nat
}.

Definition within (l : Lexer) : Prop := (pos l <= length (input l))%nat.

Lemma adv_refl l : within l -> adv l l.
Proof. by split. Qed.

Lemma adv_trans l1 l2 l3 : adv l1 l2 -> adv l2 l3 -> adv l1 l3.
Proof. intros [] []. split; congruence || lia || auto. Qed.

Lemma adv_within l l' : adv l l' -> within l'.
Proof. intros []. unfold within. by rewrite adv_input0. Qed.

Create HintDb lex discriminated.
#[export] Hint Resolve adv_refl adv_trans adv_within : lex.

(** The end of the input, or a rune and a step of at least one byte. *)
Lemma next_spec l : within l ->
  let '(r, l') := next l in
  adv l l' /\ pos (backup l') = pos l /\
  (((length (input l) <= pos l)%nat /\ r = eof /\ pos l' = pos l) \/
   ((pos l < length (input l))%nat /\ 0 <= r /\ (pos l < pos l')%nat)).
Proof.
  intros W. unfold next. destruct (length (input l) <=? pos l)%nat eqn:E.
  - apply Nat.leb_le in E. split_and!; [by split|simpl; lia|auto].
  - apply Nat.leb_gt in E.
    pose proof (DecodeRune_spec (drop (pos l) (input l))) as D.
    destruct (DecodeRune _) as [r w]. simpl in D. rewrite length_drop in D.
    destruct D as [D1 D2].
    { intros H. apply (f_equal length) in H. rewrite length_drop in H. simpl in H. lia. }
    split_and!; [split; simpl; try done; lia|simpl; lia|right; simpl; lia].
Qed.

Lemma next_space l : within l -> isSpace (next l).1 = true ->
  blank (input l) (pos l) (pos (next l).2).
Proof.
  intros W. unfold next. destruct (length (input l) <=? pos l)%nat eqn:E; [done|].
  apply Nat.leb_gt in E. destruct (drop (pos l) (input l)) as [|b rest] eqn:Ed.
  { apply (f_equal length) in Ed. rewrite length_drop in Ed. simpl in Ed. lia. }
  pose proof (DecodeRune_ascii (b :: rest)) as D.
  destruct (DecodeRune (b :: rest)) as [r w]. simpl in *. intros Hr.
  destruct D as (b' & rest' & [= <- <-] & Hb & ->); [done|unfold isSpace in Hr; bool_to_prop; lia|].
  unfold blank, slice. replace (pos l + 1 - pos l)%nat with 1%nat by lia. rewrite Ed. simpl.
  constructor; [congruence|done].
Qed.

Lemma backup_adv l l' : within l -> adv l l' -> pos (backup l') = pos l -> adv l (backup l').
Proof. intros W [] E. split; simpl in *; try done; lia. Qed.

Lemma peek_spec l : within l ->
  adv l (peek l).2 /\ pos (peek l).2 = pos l /\ (peek l).1 = (next l).1.
Proof.
  intros W. unfold peek. pose proof (next_spec l W) as N. destruct (next l) as [r l1].
  destruct N as (N1 & N2 & _). split_and!; [by apply backup_adv|done|done].
Qed.

(** The next rune depends on input and position only. *)
Lemma next_rune l l' : input l' = input l -> pos l' = pos l -> (next l').1 = (next l).1.
Proof.
  intros E1 E2. unfold next. rewrite E1, E2. destruct (_ <=? _)%nat; [done|]. by destruct (DecodeRune _).
Qed.

Lemma accept_spec valid l : within l ->
  let '(b, l') := accept valid l in
  adv l l' /\ b = ContainsRune valid (next l).1 /\
  (b = false -> pos l' = pos l) /\ (b = true -> (next l).1 <> eof -> (pos l < pos l')%nat).
Proof.
  intros W. unfold accept. pose proof (next_spec l W) as N. destruct (next l) as [r l1].
  destruct N as (N1 & N2 & N3). simpl. destruct (ContainsRune valid r).
  - split_and!; [done|done|done|]. intros _ H. destruct N3 as [(_ & -> & _)|(_ & _ & ?)]; [done|lia].
  - split_and!; [by apply backup_adv|done|done|done].
Qed.

Lemma ContainsRune_eof valid : ContainsRune valid eof = false.
Proof.
  unfold ContainsRune, eof. induction (to_bytes valid) as [|b l IH]; [done|]. simpl.
  pose proof (bz_range b). rewrite IH. replace (bz b =? -1) with false; [done|].
  symmetry. apply Z.eqb_neq. lia.
Qed.

(** A loop that goes on while [P] holds of the next rune. *)
Lemma acceptRun_spec valid l : within l ->
  exists l', acceptRun valid l = Some l' /\ adv l l' /\
    (ContainsRune valid (next l).1 = true -> (pos l < pos l')%nat).
Proof.
  unfold acceptRun, fuel_of.
  assert (forall fuel l, within l -> (length (input l) - pos l < fuel)%nat ->
    exists l', acceptRun_loop fuel valid l = Some l' /\ adv l l' /\
      (ContainsRune valid (next l).1 = true -> (pos l < pos l')%nat)) as K.
  { induction fuel as [|fuel IH]; intros k W L; [lia|]. cbn [acceptRun_loop].
    pose proof (next_spec k W) as N. destruct (next k) as [r k1]. destruct N as (N1 & N2 & N3). simpl.
    destruct (ContainsRune valid r) eqn:E.
    - destruct N3 as [(_ & -> & _)|(N3 & N4 & N5)]; [by rewrite ContainsRune_eof in E|].
      destruct (IH k1) as (k2 & E2 & A2 & _); [eauto with lex| |].
      + rewrite (adv_input _ _ N1). pose proof (adv_len _ _ N1). lia.
      + exists k2. split_and!; [done|eauto with lex|]. intros _. pose proof (adv_pos _ _ A2). lia.
    - exists (backup k1). split_and!; [done|by apply backup_adv|done]. }
  intros W. apply K; [done|lia].
Qed.

Lemma digit_eof : isDigit eof = false.
Proof. done. Qed.

Lemma ContainsRune_Digits r : ContainsRune Digits r = isDigit r.
Proof.
  change (ContainsRune Digits r) with
    ((48 =? r) || ((49 =? r) || ((50 =? r) || ((51 =? r) || ((52 =? r) || ((53 =? r) ||
     ((54 =? r) || ((55 =? r) || ((56 =? r) || ((57 =? r) || false)))))))))).
  change (isDigit r) with ((48 <=? r) && (r <=? 57)).
  destruct (Z.leb_spec 48 r), (Z.leb_spec r 57); cbn [andb];
    repeat match goal with |- context [?a =? r] => destruct (Z.eqb_spec a r); cbn [orb] end;
    try done; exfalso; lia.
Qed.

(** ** Numbers, words, spaces, comments *)

Lemma scanNumber_spec l : within l -> isDigit (next l).1 = true ->
  exists b l', scanNumber l = Some (b, l') /\ adv l l' /\ (pos l < pos l')%nat.
Proof.
  intros W D. unfold scanNumber.
  assert ((next l).1 <> eof) as Hne by (intros E; by rewrite E in D).
  pose proof (accept_spec "0" l W) as A1. destruct (accept "0" l) as [z l1].
  destruct A1 as (A1 & A2 & A3 & A4).
  assert (exists l2 x, (if z then accept "xX" l1 else (false, l1)) = (x, l2) /\ adv l1 l2 /\
    (z = false -> x = false /\ l2 = l1)) as (l2 & x & E2 & B1 & B2).
  { destruct z; [|exists l1, false; eauto 6 with lex].
    pose proof (accept_spec "xX" l1 (adv_within _ _ A1)) as B. destruct (accept "xX" l1) as [x l2].
    exists l2, x. by destruct B as [B _]. }
  rewrite E2. set (digs := if x then HexDigits else Digits).
  destruct (acceptRun_spec digs l2 (adv_within _ _ B1)) as (l3 & E3 & C1 & C2).
  rewrite E3. cbn [mbind option_bind].
  assert (pos l < pos l3)%nat as Hp.
  { pose proof (adv_pos _ _ B1). pose proof (adv_pos _ _ C1). pose proof (adv_pos _ _ A1). destruct z.
    - specialize (A4 eq_refl Hne). lia.
    - destruct (B2 eq_refl) as [-> ->]. specialize (A3 eq_refl).
      rewrite (next_rune l l1) in C2 by (try apply (adv_input _ _ A1); done).
      subst digs. rewrite ContainsRune_Digits in C2. specialize (C2 D). lia. }
  assert (adv l l3) as A by eauto with lex.
  pose proof (accept_spec "." l3 (adv_within _ _ A)) as P. destruct (accept "." l3) as [d l4].
  destruct P as [P _].
  assert (exists l5, (if d then acceptRun digs l4 else Some l4) = Some l5 /\ adv l4 l5) as (l5 & E5 & Q).
  { destruct d; [|exists l4; eauto with lex].
    destruct (acceptRun_spec digs l4) as (l5 & ? & ? & _); eauto with lex. }
  rewrite E5. cbn [mbind option_bind].
  assert (adv l3 l5) as A35 by eauto with lex.
  pose proof (accept_spec "eE" l5 (adv_within _ _ Q)) as P2. destruct (accept "eE" l5) as [e l6].
  destruct P2 as [P2 _].
  assert (exists l7, (if e then let '(_, l7) := accept "+-" l6 in acceptRun Digits l7 else Some l6) = Some l7
    /\ adv l6 l7) as (l7 & E7 & Q7).
  { destruct e; [|exists l6; eauto with lex].
    pose proof (accept_spec "+-" l6 (adv_within _ _ P2)) as S. destruct (accept "+-" l6) as [? l7'].
    destruct S as [S _].
    destruct (acceptRun_spec Digits l7') as (l7 & ? & ? & _); eauto with lex. }
  rewrite E7. cbn [mbind option_bind].
  assert (adv l3 l7) as A37 by eauto with lex.
  destruct (peek_spec l7 (adv_within _ _ A37)) as (K1 & K2 & _). destruct (peek l7) as [r l8]. simpl in *.
  do 2 eexists. split; [done|]. split; [eauto with lex|].
  pose proof (adv_pos _ _ A37). lia.
Qed.

Lemma duration_spec fuel : forall l, within l -> (length (input l) - pos l < fuel)%nat ->
  exists b l', duration_loop fuel l = Some (b, l') /\ adv l l' /\
    (b = true -> (pos l <= pos (backup l'))%nat).
Proof.
  induction fuel as [|fuel IH]; intros l W L; [lia|]. cbn [duration_loop].
  pose proof (accept_spec Digits l W) as A. destruct (accept Digits l) as [d l1].
  destruct A as (A1 & A2 & A3 & A4). destruct d.
  - assert ((next l).1 <> eof) as Hne by (intros E; rewrite E in A2; by rewrite ContainsRune_eof in A2).
    specialize (A4 eq_refl Hne).
    destruct (acceptRun_spec Digits l1 (adv_within _ _ A1)) as (l2 & E2 & B1 & _). rewrite E2. cbn [mbind option_bind].
    pose proof (accept_spec "nusmhdw" l2 (adv_within _ _ B1)) as C. destruct (accept "nusmhdw" l2) as [u l3].
    destruct C as [C _]. assert (adv l l3) as A13 by eauto with lex.
    destruct u; [|exists false, l3; split_and!; done].
    pose proof (accept_spec "s" l3 (adv_within _ _ C)) as E. destruct (accept "s" l3) as [b3 l4].
    destruct E as [E _]. assert (adv l l4) as A14 by eauto with lex.
    destruct (IH l4) as (b & l' & F & G1 & G2); [eauto with lex| |].
    + rewrite (adv_input _ _ A14). pose proof (adv_len _ _ A14).
      pose proof (adv_pos _ _ B1). pose proof (adv_pos _ _ C). pose proof (adv_pos _ _ E). lia.
    + exists b, l'. split_and!; [done|eauto with lex|]. intros Hb. specialize (G2 Hb).
      pose proof (adv_pos _ _ A14). lia.
  - pose proof (next_spec l1 (adv_within _ _ A1)) as N. destruct (next l1) as [r l2].
    destruct N as (N1 & N2 & _). do 2 eexists. split; [done|]. split; [eauto with lex|].
    intros _. rewrite N2, A3 by done. done.
Qed.

Lemma acceptRemainDuration_spec l : within l ->
  exists b l', acceptRemainDuration l = Some (b, l') /\ adv l l' /\
    (b = true -> (pos l <= pos (backup l'))%nat).
Proof.
  intros W. unfold acceptRemainDuration.
  pose proof (accept_spec "nusmhdwy" l W) as A. destruct (accept "nusmhdwy" l) as [u l1].
  destruct A as (A1 & _). destruct u; [|by exists false, l1].
  pose proof (accept_spec "s" l1 (adv_within _ _ A1)) as B. destruct (accept "s" l1) as [b2 l2].
  destruct B as [B _]. destruct (duration_spec (fuel_of l2) l2) as (b & l' & E & C1 & C2).
  - eauto with lex.
  - unfold fuel_of. lia.
  - exists b, l'. split_and!; [done|eauto with lex|]. intros Hb. specialize (C2 Hb).
    pose proof (adv_pos _ _ A1). pose proof (adv_pos _ _ B). lia.
Qed.

Lemma word_spec fuel : forall l, within l -> (length (input l) - pos l < fuel)%nat ->
  exists l', word_loop fuel l = Some l' /\ adv l l' /\
    (isAlphaNumeric (next l).1 = true -> (pos l < pos l')%nat).
Proof.
  induction fuel as [|fuel IH]; intros l W L; [lia|]. cbn [word_loop].
  pose proof (next_spec l W) as N. destruct (next l) as [r l1]. destruct N as (N1 & N2 & N3). simpl.
  destruct (isAlphaNumeric r) eqn:E.
  - destruct N3 as [(_ & -> & _)|(N3 & N4 & N5)]; [done|].
    destruct (IH l1) as (l2 & E2 & A2 & _); [eauto with lex| |].
    + rewrite (adv_input _ _ N1). pose proof (adv_len _ _ N1). lia.
    + exists l2. split_and!; [done|eauto with lex|]. intros _. pose proof (adv_pos _ _ A2). lia.
  - exists (backup l1). split_and!; [done|by apply backup_adv|done].
Qed.

Lemma space_spec fuel : forall l, within l -> (length (input l) - pos l < fuel)%nat ->
  exists l', space_loop fuel l = Some l' /\ adv l l' /\ blank (input l) (pos l) (pos l').
Proof.
  induction fuel as [|fuel IH]; intros l W L; [lia|]. cbn [space_loop].
  destruct (peek_spec l W) as (P1 & P2 & P3). destruct (peek l) as [r l1]. simpl in *.
  destruct (isSpace r) eqn:E; [|exists l1; rewrite P2; split_and!; [done|done|apply blank_refl]].
  pose proof (next_space l1 (adv_within _ _ P1)) as B.
  pose proof (next_spec l1 (adv_within _ _ P1)) as N.
  assert ((next l1).1 = r) as Er by (rewrite P3; apply next_rune; [apply (adv_input _ _ P1)|done]).
  destruct (next l1) as [r' l2]. simpl in Er, B. subst r'. destruct N as (N1 & N2 & N3).
  destruct N3 as [(_ & -> & _)|(N3 & N4 & N5)]; [done|]. specialize (B E).
  destruct (IH l2) as (l3 & E3 & A3 & B3); [eauto with lex| |].
  - rewrite (adv_input _ _ N1), (adv_input _ _ P1). pose proof (adv_len _ _ N1).
    rewrite (adv_input _ _ P1) in *. lia.
  - exists l3. split_and!; [done|eauto with lex|]. rewrite (adv_input _ _ N1), (adv_input _ _ P1) in B3.
    rewrite (adv_input _ _ P1), P2 in B. pose proof (adv_pos _ _ N1). pose proof (adv_pos _ _ A3).
    eapply blank_trans; [|exact B|exact B3]. lia.
Qed.

Lemma comment_spec fuel : forall l, within l -> (length (input l) - pos l < fuel)%nat ->
  exists l', comment_loop fuel l = Some l' /\ adv l l'.
Proof.
  induction fuel as [|fuel IH]; intros l W L; [lia|]. cbn [comment_loop].
  pose proof (next_spec l W) as N. destruct (next l) as [r l1]. destruct N as (N1 & N2 & N3).
  destruct (negb (isEOL r) && negb (r =? eof)) eqn:E.
  - destruct N3 as [(_ & -> & _)|(N3 & N4 & N5)]; [done|].
    destruct (IH l1) as (l2 & E2 & A2); [eauto with lex| |].
    + rewrite (adv_input _ _ N1). pose proof (adv_len _ _ N1). lia.
    + exists l2. split; [done|eauto with lex].
  - exists (backup l1). split; [done|by apply backup_adv].
Qed.

(** ** One run of a state function *)

(** An error item is set. *)
Definition erred (l' : Lexer) : Prop := scannedItem l' = true /\ Typ (item l') = ERROR.

(** An item of type [t] with the text from [start l] to where [l'] stands. *)
Record emitted (t : ItemType) (l l' : Lexer) : Prop := {
  em_input : input l' = input l;
  em_scanned : scannedItem l' = true;
  em_item : item l' = mkItem t (start l) (slice (input l) (start l) (pos l'));
  em_start : start l' = pos l';
  em_op : opens l -> opens l';
  em_pos : (pos l <= pos l' <= length (input l))%nat
}.

(** What holds when a state function is entered. *)
Definition SInv (f : stateFn) (l : Lexer) : Prop :=
  within l /\ opens l /\
  match f with
  | lexStatements => pos l = start l
  | lexLineComment => pos l = start l /\ (pos l < length (input l))%nat
  | lexNumberOrDuration => pos l = start l /\ isDigit (next l).1 = true
  | lexKeywordOrIdentifier => pos l = start l /\ isAlphaNumeric (next l).1 = true
  | lexSpace => (start l < pos l)%nat /\ blank (input l) (start l) (pos l)
  | lexString | lexRawString | lexEscape => (start l < pos l)%nat
  end.

(** Decreases from one state function to the next. *)
Definition mu (f : stateFn) (l : Lexer) : nat :=
  (2 * (length (input l) - pos l) + match f with lexStatements => 1 | lexSpace => 2 | _ => 0 end)%nat.

Definition special (t : ItemType) : bool := match t with EOF | ERROR => true | _ => false end.

Inductive outcome (f : stateFn) (l : Lexer) : option stateFn -> Lexer -> Prop :=
| out_err s' l' : input l' = input l -> erred l' -> outcome f l s' l'
| out_tok t l' : emitted t l l' -> (start l < pos l')%nat -> special t = false ->
    outcome f l (Some lexStatements) l'
| out_eof l' : emitted EOF l l' -> outcome f l None l'
| out_go f' l' : input l' = input l -> scannedItem l' = false -> SInv f' l' ->
    (mu f' l' < mu f l)%nat -> (start l <= start l')%nat ->
    blank (input l) (start l) (start l') -> outcome f l (Some f') l'.

Lemma emit_emitted t l l1 : adv l l1 -> emitted t l (emit t l1).
Proof. intros []. split; simpl; first [done | by rewrite adv_input0, adv_start0 | lia]. Qed.

(** Depth counters do not matter. *)
Lemma emitted_depths t l l' p b k : emitted t l l' -> emitted t l (set_depths p b k l').
Proof. intros []. by split. Qed.

Lemma adv_depths l l' p b k : adv l l' -> adv l (set_depths p b k l').
Proof. intros []. by split. Qed.

Lemma adv_opens l l' s q : adv l l' -> s <> eof -> q <> eof -> adv l (set_opens s q l').
Proof. intros [] Hs Hq. by split. Qed.

Lemma erred_errorf s l : erred (errorf s l).
Proof. by split. Qed.

#[export] Hint Resolve emit_emitted emitted_depths adv_depths adv_opens erred_errorf : lex.

Lemma keyword_not_special w t : keyword_of w = Some t -> special t = false.
Proof.
  unfold keyword_of. destruct (List.find _ keywords) as [[k t']|] eqn:E; [|done].
  intros [= <-]. apply List.find_some in E as [E _].
  assert (forallb (fun kv => negb (special kv.2)) keywords = true) as K by reflexivity.
  rewrite forallb_forall in K. specialize (K _ E). simpl in K. by destruct (special t').
Qed.

(** A loop inside a state function that ends in an item or an error. *)
Lemma raw_outcome fuel l0 : forall l, within l -> (length (input l) - pos l < fuel)%nat ->
  adv l0 l -> (start l0 < pos l)%nat ->
  exists s' l', raw_loop fuel l = Some (s', l') /\ outcome lexRawString l0 s' l'.
Proof.
  induction fuel as [|fuel IH]; intros l W L A S; [lia|]. cbn [raw_loop].
  pose proof (next_spec l W) as N. destruct (next l) as [r l1]. destruct N as (N1 & N2 & N3).
  assert (adv l0 l1) as A1 by eauto with lex.
  destruct (r =? RuneError); [do 2 eexists; split; [done|]; apply out_err; [apply (adv_input _ _ A1)|apply erred_errorf]|].
  destruct (r =? eof) eqn:Ee; [do 2 eexists; split; [done|]; apply out_err; [apply (adv_input _ _ A1)|apply erred_errorf]|].
  bool_to_prop. destruct N3 as [(_ & -> & _)|(N3 & N4 & N5)]; [done|].
  destruct (r =? backquoteOpen l1).
  - do 2 eexists. split; [done|]. eapply out_tok; [by apply emit_emitted|simpl; lia|done].
  - apply IH; [eauto with lex| |done|lia].
    rewrite (adv_input _ _ N1). pose proof (adv_len _ _ N1). lia.
Qed.

(** Inside a quoted string an error item may be set already. *)
Record moved (l l' : Lexer) : Prop := {
  mv_input : input l' = input l;
  mv_start : start l' = start l;
  mv_op : opens l -> opens l';
  mv_pos : (pos l <= pos l' <= length (input l))%nat;
  mv_item : scannedItem l' = false \/ erred l'
}.

Lemma moved_adv l l1 l2 : moved l l1 -> adv l1 l2 -> moved l l2.
Proof.
  intros [M1 M2 Mo M3 M4] [A1 A2 A3 A4 Ao A5 A6]. rewrite M1 in A6.
  split; [congruence|congruence|auto|lia|].
  unfold erred. by rewrite A3, A4.
Qed.

Lemma adv_moved l l1 : scannedItem l = false -> adv l l1 -> moved l l1.
Proof. intros H []. split; [done|done|done|lia|]. left. congruence. Qed.

Lemma moved_err l l1 s : moved l l1 -> moved l (errorf s l1).
Proof. intros []. split; try done. right. apply erred_errorf. Qed.

(** Going on with [f'] after a move, unless an error is set. *)
Lemma moved_outcome f f' l l' :
  moved l l' -> (2 * (length (input l) - pos l') + match f' with lexStatements => 1 | lexSpace => 2 | _ => 0 end
    < mu f l)%nat -> SInv f' l' -> outcome f l (Some f') l'.
Proof.
  intros [M1 M2 Mo M3 M4] Hm HS. destruct M4 as [M4|M4]; [|by apply out_err].
  apply out_go; [done|done|done| |lia|rewrite M2; apply blank_refl]. unfold mu in *. by rewrite M1.
Qed.

Lemma string_outcome fuel l0 : forall l, within l -> (length (input l) - pos l < fuel)%nat ->
  opens l0 -> moved l0 l -> (start l0 < pos l)%nat ->
  exists s' l', string_loop fuel l = Some (s', l') /\ outcome lexString l0 s' l'.
Proof.
  induction fuel as [|fuel IH]; intros l W L O A S; [lia|]. cbn [string_loop].
  pose proof (next_spec l W) as N. destruct (next l) as [r l1]. destruct N as (N1 & N2 & N3).
  assert (moved l0 l1) as A1 by (by eapply moved_adv).
  destruct (r =? _) eqn:Eb.
  { do 2 eexists. split; [done|].
    destruct N3 as [(_ & -> & _)|(N3 & N4 & N5)]; [done|].
    pose proof (mv_pos _ _ A). pose proof (mv_input _ _ A) as Ei. rewrite Ei in N3.
    apply moved_outcome; [done|unfold mu; lia|]. split; [eauto with lex|].
    split; [by apply (mv_op _ _ A1)|]. rewrite (mv_start _ _ A1). lia. }
  destruct (r =? RuneError) eqn:Er.
  { destruct N3 as [(_ & -> & _)|(N3 & N4 & N5)]; [done|].
    apply IH; [by apply (adv_within _ _ N1)| |done|by apply moved_err|simpl; lia].
    simpl. rewrite (adv_input _ _ N1). pose proof (adv_len _ _ N1). lia. }
  destruct ((r =? eof) || (r =? 10)) eqn:Ee.
  { do 2 eexists. split; [done|]. apply out_err; [apply (mv_input _ _ A1)|apply erred_errorf]. }
  bool_to_prop. destruct N3 as [(_ & -> & _)|(N3 & N4 & N5)]; [done|].
  destruct (r =? stringOpen l1).
  - do 2 eexists. split; [done|]. destruct A1 as [M1 M2 Mo M3 M4].
    eapply (out_tok _ _ STRING); [|simpl; lia|done].
    split; simpl; try done; [by rewrite M1, M2].
  - apply IH; [eauto with lex| |done|done|lia].
    rewrite (adv_input _ _ N1). pose proof (adv_len _ _ N1). lia.
Qed.

Lemma escape_moved n : forall base mx c x l0 l, within l -> moved l0 l ->
  moved l0 (escape_digits n base mx c x l) /\ (pos l <= pos (escape_digits n base mx c x l))%nat.
Proof.
  induction n as [|n IH]; intros base mx c x l0 l W M; cbn [escape_digits].
  - destruct (_ || _); [|done]. split; [by apply moved_err|done].
  - destruct (base <=? digitVal c).
    + split; [|by destruct (c =? eof)]. destruct (c =? eof); repeat apply moved_err; done.
    + pose proof (next_spec l W) as N. destruct (next l) as [c' l1]. destruct N as (N1 & _).
      destruct (IH base mx c' (uint32 (x * base + digitVal c)) l0 l1) as [K1 K2];
        [eauto with lex|by eapply moved_adv|].
      split; [done|]. pose proof (adv_pos _ _ N1). lia.
Qed.

Lemma escape_outcome l : SInv lexEscape l -> scannedItem l = false ->
  let '(s', l') := lexEscape_fn l in outcome lexEscape l s' l'.
Proof.
  intros (W & O & S) Hs. unfold lexEscape_fn.
  pose proof (next_spec l W) as N. destruct (next l) as [c l1]. destruct N as (N1 & N2 & N3).
  assert (moved l l1) as M1 by (by apply adv_moved).
  assert (forall l', moved l l' -> (pos l1 <= pos l')%nat -> c <> eof ->
    outcome lexEscape l (Some lexString) l') as K.
  { intros l' M' P' Hc. destruct N3 as [(_ & ? & _)|(N3 & N4 & N5)]; [done|].
    pose proof (mv_pos _ _ M') as Hp. apply moved_outcome; [done|unfold mu; lia|].
    split; [unfold within; rewrite (mv_input _ _ M'); lia|].
    split; [by apply (mv_op _ _ M')|]. rewrite (mv_start _ _ M'). lia. }
  assert (forall n base mx k, c <> eof ->
    outcome lexEscape l (Some lexString) (escape_digits n base mx k 0 l1)) as K1.
  { intros n base mx k Hc.
    destruct (escape_moved n base mx k 0 l l1 (adv_within _ _ N1) M1) as [E1 E2]. by apply K. }
  assert (forall n base mx, c <> eof ->
    (let '(s', l') := (let '(c', l2) := next l1 in (Some lexString, escape_digits n base mx c' 0 l2)) in
     outcome lexEscape l s' l')) as K2.
  { intros n base mx Hc. pose proof (next_spec l1 (adv_within _ _ N1)) as Q.
    destruct (next l1) as [c' l2]. destruct Q as (Q1 & _).
    destruct (escape_moved n base mx c' 0 l l2 (adv_within _ _ Q1)) as [E1 E2]; [by eapply moved_adv|].
    apply K; [done| |done]. pose proof (adv_pos _ _ Q1). lia. }
  destruct (existsb _ _) eqn:E1.
  { apply K; [done|done|]. intros ->. simpl in E1.
    destruct (adv_op _ _ N1 O) as [O1 O2].
    apply Z.eqb_neq in O1, O2. rewrite O1, O2 in E1. done. }
  destruct (in_range _ _ c) eqn:E2; [apply K1; by intros ->|].
  destruct (_ || _) eqn:E3; [apply K2; by intros ->|]. clear E3.
  destruct (c =? _) eqn:E4; [apply K2; by intros ->|]. clear E4.
  destruct (c =? _) eqn:E5; [apply K2; by intros ->|]. clear E5.
  destruct (c =? eof) eqn:E6; apply out_err; try apply erred_errorf; apply (adv_input _ _ N1).
Qed.

(** The case of one character of [lexStatements]; [T] proves it. *)
Ltac st_char r Ne T :=
  lazymatch goal with |- let '(s', l') := (if r =? ?z then _ else _) in _ =>
    let E := fresh "E" in destruct (r =? z) eqn:E;
    [apply Ne in E; [T|by compute]|clear E] end.

(** The ways [lexStatements] ends. *)
Section statements.
Context (l : Lexer) (W : within l) (O : opens l) (S : pos l = start l) (Hs : scannedItem l = false).

Lemma st_tok t l1 : special t = false -> adv l l1 -> (pos l < pos l1)%nat ->
  outcome lexStatements l (Some lexStatements) (emit t l1).
Proof using S. intros T A P. eapply out_tok; [by apply emit_emitted|simpl; lia|done]. Qed.

Lemma st_tok_depths t l1 p b k : special t = false -> adv l l1 -> (pos l < pos l1)%nat ->
  outcome lexStatements l (Some lexStatements) (set_depths p b k (emit t l1)).
Proof using S. intros T A P. eapply out_tok; [by apply emitted_depths, emit_emitted|simpl; lia|done]. Qed.

Lemma st_err s l1 : adv l l1 -> outcome lexStatements l None (errorf s l1).
Proof using. intros A. apply out_err; [apply (adv_input _ _ A)|apply erred_errorf]. Qed.

Lemma st_go f l1 : adv l l1 -> (pos l < pos l1)%nat ->
  (f = lexSpace /\ blank (input l) (pos l) (pos l1)) \/ f = lexString \/ f = lexRawString ->
  outcome lexStatements l (Some f) l1.
Proof using S Hs O.
  intros A P F. destruct A.
  apply out_go; [done|congruence| |unfold mu; rewrite adv_input0|lia|rewrite adv_start0; apply blank_refl].
  - split; [unfold within; by rewrite adv_input0|]. split; [by auto|].
    destruct F as [[-> F] | [-> | ->]]; [split; [lia|by rewrite adv_input0, adv_start0, <- S]|lia|lia].
  - destruct F as [[-> _] | [-> | ->]]; simpl; lia.
Qed.

Lemma st_back f l1 : adv l l1 -> pos l1 = pos l ->
  (f = lexNumberOrDuration /\ isDigit (next l).1 = true) \/
  (f = lexKeywordOrIdentifier /\ isAlphaNumeric (next l).1 = true) -> outcome lexStatements l (Some f) l1.
Proof using S Hs O.
  intros A P F. pose proof (next_rune l l1 (adv_input _ _ A) P) as Er. destruct A.
  apply out_go; [done|congruence| |unfold mu; rewrite adv_input0|lia|rewrite adv_start0; apply blank_refl].
  - split; [unfold within; by rewrite adv_input0|]. split; [by auto|].
    destruct F as [[-> F] | [-> F]]; rewrite Er; (split; [congruence|done]).
  - destruct F as [[-> _] | [-> _]]; lia.
Qed.

(** A two-character operator, decided by the second character. *)
Lemma st_peek l1 : adv l l1 -> (pos l < pos l1)%nat ->
  adv l (peek l1).2 /\ (pos l < pos (peek l1).2)%nat /\
  adv l (next (peek l1).2).2 /\ (pos l < pos (next (peek l1).2).2)%nat.
Proof using S.
  intros A P. destruct (peek_spec l1 (adv_within _ _ A)) as (P1 & P2 & _).
  assert (adv l (peek l1).2) as A2 by eauto with lex.
  pose proof (next_spec _ (adv_within _ _ A2)) as N. destruct (next (peek l1).2) as [r l3]. destruct N as [N _].
  pose proof (adv_pos _ _ N). simpl. split_and!; [done|lia|eauto with lex|lia].
Qed.

Lemma statements_outcome : let '(s', l') := lexStatements_fn l in outcome lexStatements l s' l'.
Proof using W O S Hs.
  unfold lexStatements_fn.
  destruct (match drop (pos l) (input l) with b :: _ => bz b =? _ | [] => false end) eqn:Ec.
  { apply out_go; [done|done| |unfold mu; simpl; lia|done|apply blank_refl]. split; [done|]. split; [done|]. split; [done|].
    destruct (drop (pos l) (input l)) eqn:Ed; [done|].
    apply (f_equal length) in Ed. rewrite length_drop in Ed. simpl in Ed. lia. }
  clear Ec. pose proof (next_spec l W) as N. pose proof (next_space l W) as Bl.
  destruct (next l) as [r l1] eqn:En. simpl in Bl.
  destruct N as (N1 & N2 & N3).
  assert (r <> eof -> (pos l < pos l1)%nat) as P.
  { intros Hr. by destruct N3 as [(_ & ? & _)|(_ & _ & ?)]. }
  pose proof (fun H => st_peek l1 N1 (P H)) as PK.
  pose proof (next_spec l1 (adv_within _ _ N1)) as Q. destruct (next l1) as [nr l4].
  destruct Q as (Q & _). assert (adv l l4) as N4 by eauto with lex. pose proof (adv_pos _ _ Q) as P4.
  destruct (peek l1) as [t l2]. simpl fst in *. simpl snd in *.
  destruct (next l2) as [r3 l3]. simpl fst in *. simpl snd in *. cbv zeta.
  assert (outcome lexStatements l None (emit EOF l1)) as Eend by (apply out_eof; by apply emit_emitted).
  assert (forall s p b k, outcome lexStatements l None (errorf s (set_depths p b k (emit RIGHT_PAREN l1)))) as Epar.
  { intros. apply out_err; [apply (adv_input _ _ N1)|apply erred_errorf]. }
  assert (r <> eof -> forall s q, s <> eof -> q <> eof -> forall f, f = lexString \/ f = lexRawString ->
    outcome lexStatements l (Some f) (set_opens s q l1)) as Eop.
  { intros Hr s q Hs' Hq f Hf. apply st_go; [by apply adv_opens|by apply P|tauto]. }
  destruct (adv_op _ _ N1 O) as [O1 O2].
  assert (forall z, (r =? z) = true -> z <> eof -> r <> eof) as Ne by (intros z ->%Z.eqb_eq; done).
  assert (forall tt, special tt = false -> r <> eof ->
    outcome lexStatements l (Some lexStatements) (emit tt l1)) as T1 by (intros; apply st_tok; auto).
  assert (forall tt, special tt = false -> r <> eof ->
    outcome lexStatements l (Some lexStatements) (emit tt l2)) as T2
    by (intros ? ? Hr; destruct (PK Hr) as (Q1 & Q2 & _); by apply st_tok).
  assert (forall tt, special tt = false -> r <> eof ->
    outcome lexStatements l (Some lexStatements) (emit tt l3)) as T3
    by (intros ? ? Hr; destruct (PK Hr) as (_ & _ & Q3 & Q4); by apply st_tok).
  assert (forall tt, special tt = false -> r <> eof ->
    outcome lexStatements l (Some lexStatements) (emit tt l4)) as T4
    by (intros ? ? Hr; specialize (P Hr); apply st_tok; [done|done|lia]).
  assert (forall tt p b k, special tt = false -> r <> eof ->
    outcome lexStatements l (Some lexStatements) (set_depths p b k (emit tt l1))) as T5
    by (intros; apply st_tok_depths; auto).
  assert (forall tt p b k, special tt = false -> r <> eof ->
    outcome lexStatements l (Some lexStatements) (emit tt (set_depths p b k l1))) as T6
    by (intros; apply st_tok; [done|by apply adv_depths|simpl; auto]).
  assert (forall s, r <> eof -> outcome lexStatements l None (errorf s l2)) as T7
    by (intros s Hr; destruct (PK Hr) as (Q1 & _); by apply st_err).
  do 2 st_char r Ne ltac:(by apply T1).
  destruct (isSpace r) eqn:Esp; [apply st_go; [done|apply P; by intros ->|left; by auto]|clear Esp].
  do 8 st_char r Ne ltac:(by apply T1).
  do 2 st_char r Ne ltac:(destruct (t =? _); [by apply T3|by apply T7]).
  st_char r Ne ltac:(destruct (_ && _); [by apply T3|by apply T2]).
  st_char r Ne ltac:(destruct (nr =? _); [by apply T4|by apply st_err]).
  do 2 st_char r Ne ltac:(destruct (t =? _); [by apply T3|by apply T2]).
  destruct (isDigit r) eqn:Edg; [apply st_back; [by apply backup_adv|done|left; by rewrite En]|clear Edg].
  destruct ((r =? 34) || (r =? 39)) eqn:Eq.
  { assert (r <> eof) as Hr by (by intros ->). apply Eop; auto. }
  clear Eq. st_char r Ne ltac:(apply Eop; auto).
  destruct (isAlpha r) eqn:Ea; [apply st_back; [by apply backup_adv|done|
    right; rewrite En; split; [done|unfold isAlphaNumeric; simpl; by rewrite Ea]]|clear Ea].
  st_char r Ne ltac:(by apply T5).
  st_char r Ne ltac:(destruct (_ <? _); [by apply Epar|by apply T5]).
  st_char r Ne ltac:(by apply T5).
  do 3 st_char r Ne ltac:(by apply T6).
  destruct (r =? eof); [|by apply st_err].
  destruct (negb (parenDepth l1 =? 0)); [by apply st_err|].
  destruct (negb (bracketDepth l1 =? 0)); [by apply st_err|].
  destruct (negb (braceDepth l1 =? 0)); [by apply st_err|]. exact Eend.
Qed.
End statements.

Lemma step_outcome f l : SInv f l -> scannedItem l = false ->
  exists s' l', step f l = Some (s', l') /\ outcome f l s' l'.
Proof.
  intros (W & O & S) Hs. destruct f; cbn [step].
  - pose proof (statements_outcome l W O S Hs) as K. destruct (lexStatements_fn l). eauto.
  - unfold lexLineComment_fn. set (l0 := FilterLex.set_pos _ _ _). destruct S as [S1 S2].
    assert (adv l l0) as A by (split; simpl; done || lia).
    destruct (comment_spec (fuel_of l0) l0 (adv_within _ _ A)) as (l1 & E & A1); [unfold fuel_of; lia|].
    rewrite E. do 2 eexists. split; [done|]. pose proof (adv_pos _ _ A1) as P. simpl in P.
    eapply out_tok; [apply emit_emitted; eauto with lex|simpl; lia|done].
  - unfold lexSpace_fn.
    destruct (space_spec (fuel_of l) l W) as (l1 & E & A1 & B1); [unfold fuel_of; lia|].
    rewrite E. do 2 eexists. split; [done|]. destruct A1. destruct S as [S1 S2].
    apply out_go; simpl; [done|congruence| |unfold mu; simpl; rewrite adv_input0; lia|lia|
      eapply blank_trans; [|exact S2|exact B1]; lia].
    split; [unfold within; simpl; by rewrite adv_input0|]. split; [by apply adv_op0|done].
  - unfold lexNumberOrDuration_fn. destruct S as [S1 S2].
    destruct (scanNumber_spec l W S2) as (b & l1 & E & A1 & P1). rewrite E. cbn [mbind option_bind].
    destruct b.
    + do 2 eexists. split; [done|]. eapply out_tok; [by apply emit_emitted|simpl; lia|done].
    + destruct (acceptRemainDuration_spec l1 (adv_within _ _ A1)) as (d & l2 & E2 & A2 & P2).
      rewrite E2. cbn [mbind option_bind]. assert (adv l l2) as A by eauto with lex. destruct d.
      * specialize (P2 eq_refl). do 2 eexists. split; [done|].
        eapply out_tok; [apply emit_emitted|simpl in *; lia|done].
        destruct A. split; simpl in *; done || lia.
      * do 2 eexists. split; [done|]. apply out_err; [apply (adv_input _ _ A)|apply erred_errorf].
  - apply string_outcome; [done|unfold fuel_of; lia|done| |done]. apply adv_moved; [done|by apply adv_refl].
  - apply raw_outcome; [done|unfold fuel_of; lia|by apply adv_refl|done].
  - unfold lexKeywordOrIdentifier_fn. destruct S as [S1 S2].
    destruct (word_spec (fuel_of l) l W) as (l1 & E & A1 & P1); [unfold fuel_of; lia|].
    rewrite E. specialize (P1 S2). do 2 eexists. split; [done|].
    eapply out_tok; [by apply emit_emitted|simpl; lia|].
    destruct (keyword_of _) eqn:Ek; [by apply keyword_not_special in Ek|done].
  - pose proof (escape_outcome l (conj W (conj O S)) Hs) as K. destruct (lexEscape_fn l). eauto.
Qed.

(** ** One item *)

Lemma scan_item fuel : forall f l, SInv f l -> scannedItem l = false -> (mu f l < fuel)%nat ->
  exists s' l' l0 f0, scan_loop fuel (Some f) l = Some (s', l') /\ input l0 = input l /\
    (start l <= start l0)%nat /\ blank (input l) (start l) (start l0) /\
    SInv f0 l0 /\ scannedItem l' = true /\ outcome f0 l0 s' l'.
Proof.
  induction fuel as [|fuel IH]; intros f l S Hs L; [lia|]. cbn [scan_loop]. rewrite Hs.
  destruct (step_outcome f l S Hs) as (s' & l' & E & K). rewrite E. cbn [mbind option_bind].
  assert (scannedItem l' = true -> outcome f l s' l' -> exists s2 l2 l0 f0,
    scan_loop fuel s' l' = Some (s2, l2) /\ input l0 = input l /\
    (start l <= start l0)%nat /\ blank (input l) (start l) (start l0) /\
    SInv f0 l0 /\ scannedItem l2 = true /\ outcome f0 l0 s2 l2) as Done.
  { intros Hsc Ho. exists s', l', l, f. split_and!; [|done|done|apply blank_refl|done|done|done].
    destruct fuel; cbn [scan_loop]; by rewrite Hsc. }
  inversion K; subst.
  - apply Done; [by destruct H0|done].
  - apply Done; [by destruct H|done].
  - apply Done; [by destruct H|done].
  - destruct (IH f' l') as (s2 & l2 & l0 & f0 & G1 & G2 & G3 & Gb & G4 & G5 & G6); [done|done|lia|].
    exists s2, l2, l0, f0. split_and!; [done|congruence|lia| |done|done|done].
    eapply blank_trans; [|exact H4|]; [lia|]. by rewrite <- H.
Qed.

(** ** All items *)

(** The items lie one after the other in the input, each the text at its position, with
    only white space between them; the last one is EOF at the end, or an error. *)
Inductive tiled (s : bytes) : nat -> list Item -> Prop :=
| tiled_error from i : Typ i = ERROR -> tiled s from [i]
| tiled_eof from i : Typ i = EOF -> (from <= Pos i)%nat -> blank s from (Pos i) ->
    Val i = slice s (Pos i) (Pos i + length (Val i)) -> tiled s from [i]
| tiled_item from i its :
    special (Typ i) = false -> (from <= Pos i)%nat -> blank s from (Pos i) -> Val i <> [] ->
    Val i = slice s (Pos i) (Pos i + length (Val i)) ->
    tiled s (Pos i + length (Val i)) its -> tiled s from (i :: its).

Lemma length_slice s i j : (i <= j <= length s)%nat -> length (slice s i j) = (j - i)%nat.
Proof. intros H. unfold slice. rewrite length_take, length_drop. lia. Qed.

Lemma items_tiled fuel : forall l, SInv lexStatements l -> (length (input l) - start l < fuel)%nat ->
  exists its, items fuel (Some lexStatements) l = Some its /\ tiled (input l) (start l) its.
Proof.
  induction fuel as [|fuel IH]; intros l S L; [lia|]. cbn [items NextItem].
  destruct S as (W & O & S).
  destruct (scan_item (scan_fuel (set_unscanned l)) lexStatements (set_unscanned l))
    as (s' & l' & l0 & f0 & E & G1 & G2 & Gb & G3 & G4 & G5); [done|done|unfold mu, scan_fuel; simpl; lia|].
  simpl in G1, G2, Gb. rewrite E. cbn [mbind option_bind].
  assert (start l0 <= pos l0)%nat as Hsp.
  { destruct G3 as (_ & _ & G3). destruct f0; lia || (destruct G3; lia). }
  inversion G5 as [? ? Hi [_ He]|t ? [Ei Es Et Est Eop Ep] Hlt Ht|? [Ei Es Et Est Eop Ep]|? ? Hi Hsc]; subst.
  - rewrite He. exists [item l']. split; [done|]. by apply tiled_error.
  - rewrite Et. simpl Typ. rewrite G1 in *.
    assert (length (slice (input l) (start l0) (pos l')) = pos l' - start l0)%nat as Hlen by (apply length_slice; lia).
    destruct (IH l') as (its & E2 & T2).
    + split; [unfold within; rewrite Ei; lia|]. split; [|by rewrite Est].
      apply Eop. by destruct G3 as (_ & ? & _).
    + rewrite Ei, Est. lia.
    + exists (mkItem t (start l0) (slice (input l) (start l0) (pos l')) :: its).
      split; [rewrite E2; cbn [mbind option_bind]; by destruct t|].
      apply tiled_item; simpl; [done|lia|done| | |].
      * intros H. rewrite H in Hlen. simpl in Hlen. lia.
      * rewrite Hlen. by replace (start l0 + (pos l' - start l0))%nat with (pos l') by lia.
      * rewrite Hlen. replace (start l0 + (pos l' - start l0))%nat with (start l') by lia.
        by rewrite <- Ei.
  - rewrite Et. simpl Typ. rewrite G1 in *. exists [mkItem EOF (start l0) (slice (input l) (start l0) (pos l'))].
    split; [done|]. apply tiled_eof; simpl; [done|lia|done|].
    rewrite length_slice by lia. by replace (start l0 + (pos l' - start l0))%nat with (pos l') by lia.
  - congruence.
Qed.

(** On every input, valid UTF-8 or not, the lexer ends: after at most one item per
    byte it reports EOF or an error, no nil state function is called, and the items are
    exactly the pieces of the input between white space, in order and none empty. *)
Theorem lex_total s : exists its, lex_all s = Some its /\ tiled s 0 its.
Proof.
  destruct (items_tiled (S (length s)) (Lex s)) as (its & E & T).
  - split; [unfold within; simpl; lia|]. by split.
  - simpl. lia.
  - by exists its.
Qed.

(** A quoted string with invalid UTF-8 is accepted: the error item is overwritten by
    the STRING item when the closing quote is found, while the same bytes in back quotes
    are rejected. *)
Theorem invalid_utf8_accepted :
  lex_all [Byte.x27; Byte.xff; Byte.x27] =
    Some [mkItem STRING 0 [Byte.x27; Byte.xff; Byte.x27]; mkItem EOF 3 []] /\
  lex_all [Byte.x60; Byte.xff; Byte.x60] =
    Some [mkItem ERROR 0 (to_bytes "invalid UTF-8 rune")].
Proof. split; vm_compute; reflexivity. Qed.
