(* ===== verification/PointKV.v ===== *)
(** * Point key-values ([src/point/kvs.go], [val.go], [key.go])

    A [Field] is one key with its typed value; [KVs] is the slice of fields of a
    point.  A slice holds no nil field here (the methods below dereference every
    element) and no field twice.  The point pool is the default one: none
    ([defaultPTPool == nil]).  Building an array value calls the protobuf library:
    that call is the class [ArrayEnc]. *)

From S2P Require Import Prelude.
From Stdlib Require Export SpecFloat.

(** ** Values *)

Record PBAny := mkAny { TypeUrl : bytes; AnyValue : bytes }.

(** The [oneof] of the protobuf message. *)
Inductive FieldVal : Type :=
| Field_I (I : Z)
| Field_U (U : Z)
| Field_F (F : spec_float)
| Field_B (B : bool)
| Field_D (D : bytes)
| Field_S (S : bytes)
| Field_A (A : PBAny).

(** [MetricType] is an open protobuf enumeration: an int32. *)
Definition MetricType : Type := Z.

Definition UNSPECIFIED : MetricType := 0.

Record Field := mkField {
  Key : bytes;
  Val : option FieldVal;
  IsTag : bool;
  Type_ : MetricType;
  Unit : bytes;
  Description : bytes;
}.

Definition set_Key (k : bytes) (f : Field) : Field :=
  mkField k (Val f) (IsTag f) (Type_ f) (Unit f) (Description f).
Definition set_Val (v : option FieldVal) (f : Field) : Field :=
  mkField (Key f) v (IsTag f) (Type_ f) (Unit f) (Description f).
Definition set_IsTag (b : bool) (f : Field) : Field :=
  mkField (Key f) (Val f) b (Type_ f) (Unit f) (Description f).
Definition set_Type (t : MetricType) (f : Field) : Field :=
  mkField (Key f) (Val f) (IsTag f) t (Unit f) (Description f).
Definition set_Unit (u : bytes) (f : Field) : Field :=
  mkField (Key f) (Val f) (IsTag f) (Type_ f) u (Description f).
Definition set_Description (d : bytes) (f : Field) : Field :=
  mkField (Key f) (Val f) (IsTag f) (Type_ f) (Unit f) d.

(** ** Go values of type [any] that the package tells apart *)

Inductive goarr : Type :=
| ArrInt (l : list Z)              (* []int8, []int16, []int32, []int, []int64 *)
| ArrUint (l : list Z)             (* []uint16, []uint32, []uint, []uint64 *)
| ArrFloat (l : list spec_float)   (* []float32, []float64 *)
| ArrString (l : list bytes)
| ArrBytes (l : list bytes)        (* [][]byte *)
| ArrBool (l : list bool)
| ArrAny (id : Z).                 (* []any *)

Inductive any : Type :=
| GoNil
| GoInt (n : Z)                    (* int8, int16, int32, int, int64 *)
| GoUint (n : Z)                   (* uint8, uint16, uint32, uint, uint64 *)
| GoFloat (f : spec_float)         (* float32 widened, float64 *)
| GoString (s : bytes)
| GoBytes (b : bytes)
| GoBool (b : bool)
| GoArr (a : goarr)
| GoPBAny (a : PBAny)
| GoOther (id : Z).                (* a value of any other type *)

(** [NewIntArray], ..., [NewAnyArray]: marshal to a protobuf [Any], or fail; and
    [AnyRaw], which unmarshals. *)
Class ArrayEnc := {
  NewArray : goarr -> option PBAny;
  AnyRaw : PBAny -> any;
}.

(** [newVal]: [None] is the nil value. *)
Definition newVal `{ArrayEnc} (v : any) : option FieldVal :=
  match v with
  | GoInt n => Some (Field_I n)
  | GoUint n => Some (Field_U n)
  | GoFloat f => Some (Field_F f)
  | GoString s => Some (Field_S s)
  | GoBytes b => Some (Field_D b)
  | GoBool b => Some (Field_B b)
  | GoArr a => match NewArray a with Some x => Some (Field_A x) | None => None end
  | GoPBAny a => Some (Field_A a)
  | GoNil => None
  | GoOther _ => None
  end.

(** [Raw]. *)
Definition Raw `{ArrayEnc} (f : Field) : any :=
  match Val f with
  | Some (Field_I n) => GoInt n
  | Some (Field_U n) => GoUint n
  | Some (Field_F x) => GoFloat x
  | Some (Field_B b) => GoBool b
  | Some (Field_D d) => GoBytes d
  | Some (Field_S s) => GoString s
  | Some (Field_A a) => AnyRaw a
  | None => GoNil
  end.

(** The generated getter [GetS]. *)
Definition GetS (f : Field) : bytes :=
  match Val f with Some (Field_S s) => s | _ => [] end.

(** ** Options and construction of a field *)

Definition KVOption : Type := Field -> Field.

Definition WithKVUnit (u : bytes) : KVOption := set_Unit u.
Definition WithKVDesc (d : bytes) : KVOption := set_Description d.
Definition WithKVType (t : MetricType) : KVOption := set_Type t.

Definition WithKVTagSet (on : bool) : KVOption := fun f =>
  match Val f with
  | Some (Field_S _) => set_IsTag on f
  | _ => f
  end.

Definition doNewKV `{ArrayEnc} (k : bytes) (v : any) : Field :=
  mkField k (newVal v) false UNSPECIFIED [] [].

(** A nil option is skipped. *)
Definition NewKV `{ArrayEnc} (k : bytes) (v : any) (opts : list (option KVOption)) : Field :=
  fold_left (fun f o => match o with Some g => g f | None => f end) opts (doNewKV k v).

Definition clearKV (f : Field) : Field := mkField [] (Val f) false UNSPECIFIED [] [].

Definition resetKV (f : Field) : Field :=
  set_Val (match Val f with
           | Some (Field_I _) => Some (Field_I 0)
           | Some (Field_U _) => Some (Field_U 0)
           | Some (Field_F _) => Some (Field_F (S754_zero false))
           | Some (Field_D _) => Some (Field_D [])
           | Some (Field_B _) => Some (Field_B false)
           | Some (Field_S _) => Some (Field_S [])
           | Some (Field_A _) => Some (Field_A (mkAny [] []))
           | None => None
           end) f.

(** ** The slice of fields *)

Abbreviation KVs := (list Field).

Definition ResetFull (x : KVs) : KVs := map (fun f => resetKV (clearKV f)) x.

Definition Reset (x : KVs) : KVs := map (fun f => set_Val None (clearKV f)) x.

Fixpoint Get (k : bytes) (x : KVs) : option Field :=
  match x with
  | [] => None
  | f :: x' => if decide (Key f = k) then Some f else Get k x'
  end.

Fixpoint Has (k : bytes) (x : KVs) : bool :=
  match x with
  | [] => false
  | f :: x' => if decide (Key f = k) then true else Has k x'
  end.

Fixpoint GetTag (k : bytes) (x : KVs) : bytes :=
  match x with
  | [] => []
  | f :: x' =>
      if negb (IsTag f) then GetTag k x'
      else if decide (Key f = k) then GetS f else GetTag k x'
  end.

Fixpoint Tags (x : KVs) : KVs :=
  match x with
  | [] => []
  | f :: x' => if negb (IsTag f) then Tags x' else f :: Tags x'
  end.

Fixpoint Fields (x : KVs) : KVs :=
  match x with
  | [] => []
  | f :: x' => if IsTag f then Fields x' else f :: Fields x'
  end.

Fixpoint TagCount (x : KVs) : Z :=
  match x with
  | [] => 0
  | f :: x' => (if IsTag f then 1 else 0) + TagCount x'
  end.

Fixpoint FieldCount (x : KVs) : Z :=
  match x with
  | [] => 0
  | f :: x' => (if negb (IsTag f) then 1 else 0) + FieldCount x'
  end.

Fixpoint trimFields_loop (n cnt : Z) (x : KVs) : KVs :=
  match x with
  | [] => []
  | f :: x' =>
      if IsTag f then f :: trimFields_loop n cnt x'
      else if cnt <? n then f :: trimFields_loop n (cnt + 1) x'
      else trimFields_loop n cnt x'
  end.

Definition TrimFields (n : Z) (x : KVs) : KVs :=
  if zlen x <=? n then x else trimFields_loop n 0 x.

Fixpoint trimTags_loop (n cnt : Z) (x : KVs) : KVs :=
  match x with
  | [] => []
  | f :: x' =>
      if negb (IsTag f) then f :: trimTags_loop n cnt x'
      else if cnt <? n then f :: trimTags_loop n (cnt + 1) x'
      else trimTags_loop n cnt x'
  end.

Definition TrimTags (n : Z) (x : KVs) : KVs := trimTags_loop n 0 x.

(** [Del]: [x] is the slice up to the shrinking bound [n]; a deleted element is
    replaced by the last one ([x[i], x[n-1] = x[n-1], nil]) and its index is looked
    at again.  Each turn advances [i] or shrinks [n]: [len(x)] turns suffice. *)
Fixpoint del_loop (fuel : nat) (k : bytes) (i : nat) (x : KVs) : KVs :=
  match fuel with
  | O => x
  | S fuel' =>
      match x !! i with
      | None => x
      | Some f =>
          if decide (Key f = k) then
            let n := length x in
            let x' := match x !! (n - 1)%nat with Some l => <[i := l]> x | None => x end in
            del_loop fuel' k i (take (n - 1) x')
          else del_loop fuel' k (S i) x
      end
  end.

Definition Del (k : bytes) (x : KVs) : KVs := del_loop (length x) k 0 x.

(** The loop of [Set] and [SetKV]: override the first field with the key, or append. *)
Fixpoint SetKV (kv : Field) (x : KVs) : KVs :=
  match x with
  | [] => [kv]
  | f :: x' => if decide (Key f = Key kv) then kv :: x' else f :: SetKV kv x'
  end.

(** The loop of [Add] and [AddKV]: keep a field with the key, or append. *)
Fixpoint AddKV (kv : Field) (x : KVs) : KVs :=
  match x with
  | [] => [kv]
  | f :: x' => if decide (Key f = Key kv) then f :: x' else f :: AddKV kv x'
  end.

(** [Set] and [Add] compare with the argument [k], not with the key of the new
    field (an option may have changed it). *)
Fixpoint set_loop (k : bytes) (kv : Field) (x : KVs) : KVs :=
  match x with
  | [] => [kv]
  | f :: x' => if decide (Key f = k) then kv :: x' else f :: set_loop k kv x'
  end.

Fixpoint add_loop (k : bytes) (kv : Field) (x : KVs) : KVs :=
  match x with
  | [] => [kv]
  | f :: x' => if decide (Key f = k) then f :: x' else f :: add_loop k kv x'
  end.

Definition Set_ `{ArrayEnc} (k : bytes) (v : any) (opts : list (option KVOption)) (x : KVs) : KVs :=
  set_loop k (NewKV k v opts) x.

Definition Add `{ArrayEnc} (k : bytes) (v : any) (opts : list (option KVOption)) (x : KVs) : KVs :=
  add_loop k (NewKV k v opts) x.

Definition SetTag `{ArrayEnc} (k v : bytes) (x : KVs) : KVs :=
  Set_ k (GoString v) [Some (WithKVTagSet true)] x.

Definition AddTag `{ArrayEnc} (k v : bytes) (x : KVs) : KVs :=
  Add k (GoString v) [Some (WithKVTagSet true)] x.

(** [NewKVs] and [NewTags] range over a Go map: the pairs come in the order of the
    iteration, each key once. *)
Definition NewKVs `{ArrayEnc} (m : list (bytes * any)) : KVs :=
  map (fun '(k, v) => NewKV k v []) m.

Definition NewTags `{ArrayEnc} (m : list (bytes * bytes)) : KVs :=
  map (fun '(k, v) => NewKV k (GoString v) [Some (WithKVTagSet true)]) m.

(** ** Key types and keys *)

Definition KeyType : Type := Z.

Definition PBType (v : option FieldVal) : KeyType :=
  match v with
  | Some (Field_I _) => 1
  | Some (Field_U _) => 2
  | Some (Field_F _) => 3
  | Some (Field_B _) => 4
  | Some (Field_D _) => 5
  | Some (Field_S _) => 7
  | Some (Field_A _) => 8
  | None => 0
  end.

Record PKey := mkKey { key : bytes; key_t : KeyType; def : any }.

(** [NewKey]: without a default value the default is the nil interface. *)
Definition NewKey (k : bytes) (t : KeyType) (defaultVal : list any) : PKey :=
  mkKey k t (match defaultVal with d :: _ => d | [] => GoNil end).

Definition NewTagKey (k d : bytes) : PKey := NewKey k 7 [GoString d].

(** [Key.Type]. *)
Definition Key_Type (k : PKey) : KeyType :=
  match key k with
  | [] => 0
  | l => byte.unsigned (List.last l Byte.x00)
  end.

Definition KeyMeasurement : PKey := NewKey (to_bytes "measurement") 7 [].
Definition KeyTime : PKey := NewKey (to_bytes "time") 1 [].

Definition KVKey (f : Field) : PKey := NewKey (Key f) (PBType (Val f)) [].

(** [KVs.Keys]: the two built-in keys, then one key per field that has a value. *)
Fixpoint keys_loop (x : KVs) : list PKey :=
  match x with
  | [] => []
  | f :: x' =>
      let t := PBType (Val f) in
      if t =? 0 then keys_loop x' else NewKey (Key f) t [] :: keys_loop x'
  end.

Record Keys := mkKeys { hashed : bool; hash : Z; arr : list PKey }.

Definition KVs_Keys (x : KVs) : Keys := mkKeys false 0 (KeyMeasurement :: KeyTime :: keys_loop x).

Definition Keys_Has (k : PKey) (x : Keys) : bool :=
  existsb (fun i => bool_decide (key k = key i)) (arr x).

Definition Keys_Add (k : PKey) (x : Keys) : Keys :=
  if Keys_Has k x then x else mkKeys false (hash x) (arr x ++ [k]).

(** [Keys.Del]: compact the kept keys to the front. *)
Definition Keys_Del (k : PKey) (x : Keys) : Keys :=
  let kept := List.filter (fun i => negb (bool_decide (key i = key k))) (arr x) in
  if (length kept =? length (arr x))%nat then x else mkKeys false (hash x) kept.

(** [fnv.New64a]. *)
Definition fnv64a (data : bytes) : Z :=
  fold_left (fun h b => uint64 (Z.lxor h (byte.unsigned b) * 1099511628211)) data
            14695981039346656037.

(** [Keys.Hash]; [sort] is [sort.Sort] on the keys. *)
Definition Keys_Hash (sort : list PKey -> list PKey) (x : Keys) : Z * Keys :=
  if hashed x then (hash x, x)
  else
    let a := sort (arr x) in
    let h := fnv64a (concat (map key a)) in
    (h, mkKeys true h a).
