(* ===== verification/PointCheck.v ===== *)
(** * Building and checking points ([src/point/option.go], [check.go], [new_point.go], [point.go])

    The checker rewrites the slice of fields in place while it scans it: the key it
    tests for a conflict is looked up in the half-compacted array.  [CSt] is that
    array with the warnings so far; [checkKV] works on one index of it.  A failed
    type assertion is a panic, a value of type [panic]. *)

From S2P Require Import Prelude PointKV.

(** ** Configuration ([option.go]) *)

Inductive Encoding : Set := LineProtocol | Protobuf | JSON | PBJSON.

#[export] Instance Encoding_eq_dec : EqDecision Encoding.
Proof. solve_decision. Defined.

Definition DefaultEncoding : Encoding := LineProtocol.

Inductive Precision : Set := PrecNS | PrecUS | PrecMS | PrecS | PrecM | PrecH | PrecD | PrecW
                             | PrecDyn.

Record cfg := mkCfg {
  timestamp : Z;
  extraTags : KVs;
  precision : Precision;
  precheck : bool;
  keySorted : bool;
  enableDotInKey : bool;
  enableStrField : bool;
  enableU64Field : bool;
  enc : Encoding;
  callback : option nat;      (* which function, if any *)
  maxTags : Z;
  maxFields : Z;
  maxTagKeyLen : Z;
  maxFieldKeyLen : Z;
  maxTagValLen : Z;
  maxFieldValLen : Z;
  maxMeasurementLen : Z;
  maxTagKeyValComposeLen : Z;
  disabledKeys : list PKey;
  requiredKeys : list PKey;
}.

Definition defaultMaxFieldValLen : Z := 32 * 1024 * 1024.
Definition defaultKeyLen : Z := 256.

(** [reset] assigns every field but [keySorted]. *)
Definition cfg_reset (c : cfg) : cfg := {|
  timestamp := -1;
  extraTags := [];
  precision := PrecNS;
  precheck := true;
  keySorted := keySorted c;
  enableDotInKey := true;
  enableStrField := true;
  enableU64Field := true;
  enc := DefaultEncoding;
  callback := None;
  maxTags := 256;
  maxFields := 1024;
  maxTagKeyLen := defaultKeyLen;
  maxFieldKeyLen := defaultKeyLen;
  maxTagValLen := 1024;
  maxFieldValLen := defaultMaxFieldValLen;
  maxMeasurementLen := 1024;
  maxTagKeyValComposeLen := 64 * 1024;
  disabledKeys := [];
  requiredKeys := [];
|}.

(** The zero value of the struct. *)
Definition zero_cfg : cfg :=
  mkCfg 0 [] PrecNS false false false false false LineProtocol None 0 0 0 0 0 0 0 0 [] [].

Definition newCfg : cfg := cfg_reset zero_cfg.

Definition Option_ : Type := cfg -> cfg.

Definition WithTimestamp (ts : Z) : Option_ := fun c =>
  mkCfg ts (extraTags c) (precision c) (precheck c) (keySorted c) (enableDotInKey c)
    (enableStrField c) (enableU64Field c) (enc c) (callback c) (maxTags c) (maxFields c)
    (maxTagKeyLen c) (maxFieldKeyLen c) (maxTagValLen c) (maxFieldValLen c)
    (maxMeasurementLen c) (maxTagKeyValComposeLen c) (disabledKeys c) (requiredKeys c).

(** [t.UnixNano()] is the argument. *)
Definition WithTime (unixNano : Z) : Option_ := WithTimestamp unixNano.

Definition with_extraTags (v : KVs) : Option_ := fun c =>
  mkCfg (timestamp c) v (precision c) (precheck c) (keySorted c) (enableDotInKey c)
    (enableStrField c) (enableU64Field c) (enc c) (callback c) (maxTags c) (maxFields c)
    (maxTagKeyLen c) (maxFieldKeyLen c) (maxTagValLen c) (maxFieldValLen c)
    (maxMeasurementLen c) (maxTagKeyValComposeLen c) (disabledKeys c) (requiredKeys c).

Definition WithExtraTags `{ArrayEnc} (tags : list (bytes * bytes)) : Option_ :=
  with_extraTags (NewTags tags).

(** The options that set a flag or the encoding. *)
Definition with_flags (pre sorted dot str u64 : bool) (e : Encoding) : Option_ := fun c =>
  mkCfg (timestamp c) (extraTags c) (precision c) pre sorted dot str u64 e (callback c)
    (maxTags c) (maxFields c) (maxTagKeyLen c) (maxFieldKeyLen c) (maxTagValLen c)
    (maxFieldValLen c) (maxMeasurementLen c) (maxTagKeyValComposeLen c) (disabledKeys c)
    (requiredKeys c).

Definition WithPrecheck (on : bool) : Option_ := fun c =>
  with_flags on (keySorted c) (enableDotInKey c) (enableStrField c) (enableU64Field c) (enc c) c.
Definition WithKeySorted (on : bool) : Option_ := fun c =>
  with_flags (precheck c) on (enableDotInKey c) (enableStrField c) (enableU64Field c) (enc c) c.
Definition WithDotInKey (on : bool) : Option_ := fun c =>
  with_flags (precheck c) (keySorted c) on (enableStrField c) (enableU64Field c) (enc c) c.
Definition WithStrField (on : bool) : Option_ := fun c =>
  with_flags (precheck c) (keySorted c) (enableDotInKey c) on (enableU64Field c) (enc c) c.
Definition WithU64Field (on : bool) : Option_ := fun c =>
  with_flags (precheck c) (keySorted c) (enableDotInKey c) (enableStrField c) on (enc c) c.
Definition WithEncoding (e : Encoding) : Option_ := fun c =>
  with_flags (precheck c) (keySorted c) (enableDotInKey c) (enableStrField c) (enableU64Field c) e c.

(** The options that set a limit. *)
Definition with_limits (mt mf mtk mfk mtv mfv mm mc : Z) : Option_ := fun c =>
  mkCfg (timestamp c) (extraTags c) (precision c) (precheck c) (keySorted c)
    (enableDotInKey c) (enableStrField c) (enableU64Field c) (enc c) (callback c)
    mt mf mtk mfk mtv mfv mm mc (disabledKeys c) (requiredKeys c).

Definition WithMaxTags (n : Z) : Option_ := fun c =>
  with_limits n (maxFields c) (maxTagKeyLen c) (maxFieldKeyLen c) (maxTagValLen c)
    (maxFieldValLen c) (maxMeasurementLen c) (maxTagKeyValComposeLen c) c.
Definition WithMaxFields (n : Z) : Option_ := fun c =>
  with_limits (maxTags c) n (maxTagKeyLen c) (maxFieldKeyLen c) (maxTagValLen c)
    (maxFieldValLen c) (maxMeasurementLen c) (maxTagKeyValComposeLen c) c.
Definition WithMaxTagKeyLen (n : Z) : Option_ := fun c =>
  with_limits (maxTags c) (maxFields c) n (maxFieldKeyLen c) (maxTagValLen c)
    (maxFieldValLen c) (maxMeasurementLen c) (maxTagKeyValComposeLen c) c.
Definition WithMaxFieldKeyLen (n : Z) : Option_ := fun c =>
  with_limits (maxTags c) (maxFields c) (maxTagKeyLen c) n (maxTagValLen c)
    (maxFieldValLen c) (maxMeasurementLen c) (maxTagKeyValComposeLen c) c.
Definition WithMaxTagValLen (n : Z) : Option_ := fun c =>
  with_limits (maxTags c) (maxFields c) (maxTagKeyLen c) (maxFieldKeyLen c) n
    (maxFieldValLen c) (maxMeasurementLen c) (maxTagKeyValComposeLen c) c.
Definition WithMaxFieldValLen (n : Z) : Option_ := fun c =>
  with_limits (maxTags c) (maxFields c) (maxTagKeyLen c) (maxFieldKeyLen c) (maxTagValLen c)
    n (maxMeasurementLen c) (maxTagKeyValComposeLen c) c.
Definition WithMaxMeasurementLen (n : Z) : Option_ := fun c =>
  with_limits (maxTags c) (maxFields c) (maxTagKeyLen c) (maxFieldKeyLen c) (maxTagValLen c)
    (maxFieldValLen c) n (maxTagKeyValComposeLen c) c.
Definition WithMaxKVComposeLen (n : Z) : Option_ := fun c =>
  with_limits (maxTags c) (maxFields c) (maxTagKeyLen c) (maxFieldKeyLen c) (maxTagValLen c)
    (maxFieldValLen c) (maxMeasurementLen c) n c.

(** The remaining options. *)
Definition with_rest (p : Precision) (cb : option nat) (dis req : list PKey) : Option_ := fun c =>
  mkCfg (timestamp c) (extraTags c) p (precheck c) (keySorted c)
    (enableDotInKey c) (enableStrField c) (enableU64Field c) (enc c) cb
    (maxTags c) (maxFields c) (maxTagKeyLen c) (maxFieldKeyLen c) (maxTagValLen c)
    (maxFieldValLen c) (maxMeasurementLen c) (maxTagKeyValComposeLen c) dis req.

Definition WithPrecision (p : Precision) : Option_ := fun c =>
  with_rest p (callback c) (disabledKeys c) (requiredKeys c) c.
Definition WithCallback (f : option nat) : Option_ := fun c =>
  with_rest (precision c) f (disabledKeys c) (requiredKeys c) c.
Definition WithDisabledKeys (keys : list PKey) : Option_ := fun c =>
  with_rest (precision c) (callback c) (disabledKeys c ++ keys) (requiredKeys c) c.
Definition WithRequiredKeys (keys : list PKey) : Option_ := fun c =>
  with_rest (precision c) (callback c) (disabledKeys c) (requiredKeys c ++ keys) c.

(** [specs.go]: the keys of the categories that have some. *)
Definition KeySource : PKey := NewKey (to_bytes "source") 7 [].
Definition KeyClass : PKey := NewKey (to_bytes "class") 7 [].
Definition KeyDate : PKey := NewKey (to_bytes "date") 1 [].
Definition KeyName : PKey := NewKey (to_bytes "name") 7 [GoString (to_bytes "default")].
Definition KeyStatus : PKey := NewKey (to_bytes "status") 7 [GoString (to_bytes "info")].

Definition CommonLoggingOptions : list Option_ := [WithDotInKey false].

Definition DefaultObjectOptions : list Option_ :=
  [WithDisabledKeys [KeyClass; KeyDate]; WithMaxFieldValLen defaultMaxFieldValLen;
   WithDotInKey false; WithRequiredKeys [KeyName]].

Definition DefaultLoggingOptions : list Option_ :=
  CommonLoggingOptions ++
  [WithDisabledKeys [KeySource; KeyDate]; WithMaxFieldValLen defaultMaxFieldValLen;
   WithRequiredKeys [KeyStatus]].

Definition DefaultMetricOptions : list Option_ := [WithStrField false; WithDotInKey true].

Definition DefaultMetricOptionsForInflux1X : list Option_ := [WithU64Field false].

(** [GetCfg]: [pooled] is what [cfgPool.Get] returned; a nil option is skipped. *)
Definition GetCfg (pooled : option cfg) (opts : list (option Option_)) : cfg :=
  fold_left (fun c o => match o with Some f => f c | None => c end) opts
            (match pooled with Some c => c | None => newCfg end).

(** [PutCfg]: the configuration that goes back to the pool. *)
Definition PutCfg (c : cfg) : cfg := cfg_reset c.

(** ** Warnings ([err.go]); a message is its format with the arguments *)

Inductive marg : Type :=
| MInt (n : Z)
| MStr (s : bytes)
| MAny (v : any).

Record Warn := mkWarn { WType : string; WFormat : string; WArgs : list marg }.

Definition WarnMaxFields : string := "exceed_max_fields".
Definition WarnMaxTagKeyLen : string := "exceed_max_tag_key_len".
Definition WarnMaxTagValueLen : string := "exceed_max_tag_value_len".
Definition WarnMaxFieldKeyLen : string := "exceed_max_field_key_len".
Definition WarnMaxFieldValueLen : string := "exceed_max_field_value_len".
Definition WarnMaxFieldValueInt : string := "exceed_max_field_value_int".
Definition WarnInfConvertToMaxValue : string := "convert_inf_to_max_value".
Definition WarnInfConvertToMinValue : string := "convert_inf_to_min_value".
Definition WarnInvalidTagKey : string := "invalid_tag_key".
Definition WarnInvalidMeasurement : string := "invalid_measurement".
Definition WarnInvalidFieldValueType : string := "invalid_field_value_type".
Definition WarnAddRequiredKV : string := "add_required_kv".
Definition WarnTagDisabled : string := "tag_disabled".
Definition WarnKeyNameConflict : string := "key_name_conflict".
Definition WarnDotInkey : string := "dot_in_key".
Definition WarnNROrTailEscape : string := "found_new_line_or_tail_espace".
Definition WarnNilField : string := "nil_field".

(** ** The checker ([check.go]) *)

(** [f.Val.( *Field_S)] on another type; an index out of range (never reached). *)
Inductive panic : Set := PanicTypeAssertion | PanicIndex.

(** The array the slice points to, and [c.warns]. *)
Record CSt := mkCSt { kvs : KVs; warns : list Warn }.

Definition CM A : Type := SM CSt panic A.

Definition addWarn (t fmt : string) (args : list marg) : CM unit :=
  smod (fun s => mkCSt (kvs s) (warns s ++ [mkWarn t fmt args])).

Definition elem (i : nat) : CM Field := fun s =>
  match kvs s !! i with
  | Some f => (Ok f, s)
  | None => (Err PanicIndex, s)
  end.

Definition put (i : nat) (f : Field) : CM unit :=
  smod (fun s => mkCSt (<[i := f]> (kvs s)) (warns s)).

(** An assignment through the field pointer. *)
Definition upd (i : nat) (g : Field -> Field) : CM unit :=
  smod (fun s => mkCSt (alter g i (kvs s)) (warns s)).

Definition DefaultMeasurementName : bytes := to_bytes "__default".

Definition checkMeasurement (c : cfg) (m : bytes) : CM bytes :=
  m' <~ (if zlen m =? 0
         then addWarn WarnInvalidMeasurement "empty measurement, use %s" [MStr DefaultMeasurementName];;;
              sret DefaultMeasurementName
         else sret m);;
  if (0 <? maxMeasurementLen c) && (maxMeasurementLen c <? zlen m') then
    addWarn WarnInvalidMeasurement "exceed max measurement length(%d), got length %d, trimmed"
            [MInt (maxMeasurementLen c); MInt (zlen m')];;;
    sret (ztake (maxMeasurementLen c) m')
  else sret m'.

(** [strings.ReplaceAll] of one byte by another, [strings.Contains] of one byte,
    [trimSuffixAll] of one byte. *)
Definition ReplaceAll (a b : byte) (x : bytes) : bytes :=
  map (fun c => if decide (c = a) then b else c) x.

Definition Contains (x : bytes) (a : byte) : bool := existsb (fun c => bool_decide (c = a)) x.

Definition HasSuffix (x : bytes) (a : byte) : bool :=
  match reverse x with c :: _ => bool_decide (c = a) | [] => false end.

Fixpoint trim_rev (a : byte) (r : bytes) : bytes :=
  match r with
  | [] => []
  | c :: r' => if decide (c = a) then trim_rev a r' else r
  end.

Definition trimSuffixAll (x : bytes) (a : byte) : bytes := reverse (trim_rev a (reverse x)).

Definition backslash : byte := Byte.x5c.
Definition newline : byte := Byte.x0a.
Definition space : byte := Byte.x20.
Definition dot : byte := Byte.x2e.
Definition underscore : byte := Byte.x5f.

Definition adjustKV (x : bytes) : bytes :=
  let x := if HasSuffix x backslash then trimSuffixAll x backslash else x in
  if Contains x newline then ReplaceAll newline space x else x.

(** [keyDisabled]. *)
Definition keyDisabled (c : cfg) (k : bytes) : CM bool :=
  if bool_decide (k = []) then
    addWarn WarnTagDisabled "empty tag key disabled" [];;; sret true
  else if existsb (fun item => bool_decide (k = key item)) (disabledKeys c) then
    addWarn WarnTagDisabled "tag key %q disabled" [MStr k];;; sret true
  else sret false.

Fixpoint key_count (k : bytes) (x : KVs) : Z :=
  match x with
  | [] => 0
  | f :: x' => (if decide (Key f = k) then 1 else 0) + key_count k x'
  end.

Definition keyConflict (k : bytes) (skip : bool) : CM bool :=
  if skip then sret false
  else
    s <~ sget;;
    if 1 <? key_count k (kvs s) then
      addWarn WarnKeyNameConflict "same key (%q)" [MStr k];;; sret true
    else sret false.

(** [if kvs.Get(newKey) != nil { warn; return f, false } else { f.Key = newKey }]:
    false when the field is to be dropped. *)
Definition rename (i : nat) (newKey : bytes) (exists_fmt : string) : CM bool :=
  s <~ sget;;
  match Get newKey (kvs s) with
  | Some _ => addWarn WarnInvalidTagKey exists_fmt [MStr newKey];;; sret false
  | None => upd i (set_Key newKey);;; sret true
  end.

(** The test that both functions make once the key has its final form. *)
Definition key_rejected (c : cfg) (skip : bool) (k : bytes) : CM bool :=
  d <~ keyDisabled c k;;
  if d : bool then sret true else keyConflict k skip.

(** The value of a tag: a string without line feeds, cut to the limit. *)
Definition check_tag_value (c : cfg) (i : nat) : CM bool :=
  f <~ elem i;;
  match Val f with
  | Some (Field_S str) =>
      let s := adjustKV str in
      str' <~ (if negb (bool_decide (str = [])) && negb (bool_decide (str = s)) then
                 addWarn WarnNROrTailEscape "invalid tag value %q, found \n or tail \" [MStr str];;;
                 upd i (set_Val (Some (Field_S s)));;;
                 sret s
               else sret str);;
      (if (0 <? maxTagValLen c) && (maxTagValLen c <? zlen str') then
         addWarn WarnMaxTagValueLen "exceed max tag value length(%d), got %d, value truncated"
                 [MInt (maxTagValLen c); MInt (zlen str')];;;
         upd i (set_Val (Some (Field_S (ztake (maxTagValLen c) str'))))
       else sret tt);;;
      sret true
  | _ => sfail PanicTypeAssertion
  end.

(** One of the three rewritings of a key: [if cond { warn; ... rename ... }]. *)
Definition key_step (cond : bool) (t fmt : string) (args : list marg) (i : nat) (newKey : bytes)
    (exists_fmt : string) : CM bool :=
  if cond then addWarn t fmt args;;; rename i newKey exists_fmt else sret true.

(** The part of [checkTag] that rewrites the key; false drops the field. *)
Definition tag_key (c : cfg) (i : nat) : CM bool :=
  f <~ elem i;;
  ok <~ key_step ((0 <? maxTagKeyLen c) && (maxTagKeyLen c <? zlen (Key f)))
          WarnMaxTagKeyLen "exceed max tag key length(%d), got %d, key truncated"
          [MInt (maxTagKeyLen c); MInt (zlen (Key f))]
          i (ztake (maxTagKeyLen c) (Key f)) "tag key %q exist after truncate";;
  if negb ok then sret false else
  f <~ elem i;;
  ok <~ key_step (negb (bool_decide (adjustKV (Key f) = Key f)))
          WarnInvalidTagKey "invalid tag key %q, replace \ or \n with ''" [MStr (Key f)]
          i (adjustKV (Key f)) "tag key %q exist after adjust";;
  if negb ok then sret false else
  f <~ elem i;;
  key_step (negb (enableDotInKey c) && Contains (Key f) dot)
    WarnInvalidTagKey "invalid tag key `%s': found `.'" [MStr (Key f)]
    i (ReplaceAll dot underscore (Key f)) "tag key %q exist after adjust".

Definition checkTag (c : cfg) (skip : bool) (i : nat) : CM bool :=
  ok <~ tag_key c i;;
  if negb ok then sret false else
  f <~ elem i;;
  bad <~ key_rejected c skip (Key f);;
  if bad : bool then sret false else check_tag_value c i.

(** [math.MaxUint64] and [math.MinInt64] as float64. *)
Definition maxUint64_f64 : spec_float := S754_finite false 4503599627370496 12.
Definition minInt64_f64 : spec_float := S754_finite true 4503599627370496 11.

Definition MaxInt64 : Z := 2 ^ 63 - 1.

(** Strings and byte slices: dropped when disabled, cut to the limit. *)
Definition check_text (c : cfg) (i : nat) (k : bytes) (x : bytes) (mk : bytes -> FieldVal) : CM bool :=
  if negb (enableStrField c) then
    addWarn WarnInvalidFieldValueType
            "field(%s) dropped with string value, when [DisableStringField] enabled" [MStr k];;;
    sret false
  else
    (if (0 <? maxFieldValLen c) && (maxFieldValLen c <? zlen x) then
       addWarn WarnMaxFieldValueLen
               "field (%s) exceed max field value length(%d), got %d, value truncated"
               [MStr k; MInt (maxFieldValLen c); MInt (zlen x)];;;
       upd i (set_Val (Some (mk (ztake (maxFieldValLen c) x))))
     else sret tt);;;
    sret true.

Definition check_field_value (c : cfg) (i : nat) : CM bool :=
  f <~ elem i;;
  match Val f with
  | Some (Field_U u) =>
      if negb (enableU64Field c) then
        if MaxInt64 <? u then
          addWarn WarnMaxFieldValueInt "too large int field: key=%s, value=%d(> %d)"
                  [MStr (Key f); MInt u; MInt MaxInt64];;;
          sret false
        else upd i (set_Val (Some (Field_I (int64 u))));;; sret true
      else sret true
  | Some (Field_F (S754_infinity false)) =>
      addWarn WarnInfConvertToMaxValue "+inf value from %q convert to max-uint64" [MStr (Key f)];;;
      upd i (set_Val (Some (Field_F maxUint64_f64)));;; sret true
  | Some (Field_F (S754_infinity true)) =>
      addWarn WarnInfConvertToMinValue "+inf value from %q convert to min-int64" [MStr (Key f)];;;
      upd i (set_Val (Some (Field_F minInt64_f64)));;; sret true
  | Some (Field_F _) => sret true
  | Some (Field_B _) | Some (Field_I _) | Some (Field_A _) => sret true
  | None => addWarn WarnNilField "nil field(%s)" [MStr (Key f)];;; sret true
  | Some (Field_D d) => check_text c i (Key f) d Field_D
  | Some (Field_S s) => check_text c i (Key f) s Field_S
  end.

(** The part of [checkField] that rewrites the key. *)
Definition field_key (c : cfg) (i : nat) : CM bool :=
  f <~ elem i;;
  ok <~ key_step ((0 <? maxFieldKeyLen c) && (maxFieldKeyLen c <? zlen (Key f)))
          WarnMaxFieldKeyLen "exceed max field key length(%d), got length %d, key truncated"
          [MInt (maxFieldKeyLen c); MInt (zlen (Key f))]
          i (ztake (maxFieldKeyLen c) (Key f)) "field key %q exist after truncate";;
  if negb ok then sret false else
  f <~ elem i;;
  ok <~ key_step (Contains (Key f) dot && negb (enableDotInKey c))
          WarnDotInkey "invalid field key `%s': found `.'" [MStr (Key f)]
          i (ReplaceAll dot underscore (Key f)) "field key %q exist after adjust";;
  if negb ok then sret false else
  f <~ elem i;;
  key_step (negb (bool_decide (adjustKV (Key f) = Key f)))
    WarnNROrTailEscape "invalid field key %q: found \n, replaced with ' '" [MStr (Key f)]
    i (adjustKV (Key f)) "field key %q exist after adjust".

Definition checkField (c : cfg) (skip : bool) (i : nat) : CM bool :=
  ok <~ field_key c i;;
  if negb ok then sret false else
  f <~ elem i;;
  bad <~ key_rejected c skip (Key f);;
  if bad : bool then sret false else check_field_value c i.

Definition checkKV (c : cfg) (skip : bool) (i : nat) : CM bool :=
  f <~ elem i;;
  if IsTag f then checkTag c skip i else checkField c skip i.

(** [getKeyConflictMap]: nil below the threshold; otherwise an empty map, with the
    index of the pool it came from when it is small enough to be kept.  A map goes
    back to its pool cleared. *)
Definition KEY_CONFLICT_MAP_THRESHOLD : Z := 16.
Definition KEY_CONFLICT_MAP_MAX_RETAINED_KEYS : Z := 2048.

Fixpoint pool_index (fuel : nat) (poolIndex poolCapacity size : Z) : option Z :=
  if poolCapacity <? size then
    match fuel with
    | O => None
    | S fuel' => pool_index fuel' (poolIndex + 1) (poolCapacity * 2) size
    end
  else Some poolIndex.

Inductive ConflictMap : Set :=
| NoMap
| BigMap
| PooledMap (index : Z).

Definition getKeyConflictMap (size : Z) : option ConflictMap :=
  if size <? KEY_CONFLICT_MAP_THRESHOLD then Some NoMap
  else if KEY_CONFLICT_MAP_MAX_RETAINED_KEYS <? size then Some BigMap
  else match pool_index 64 0 KEY_CONFLICT_MAP_THRESHOLD size with
       | Some i => Some (PooledMap i)
       | None => None
       end.

Fixpoint uniq_loop (seen : gset bytes) (x : KVs) : bool :=
  match x with
  | [] => true
  | f :: x' => if decide (Key f ∈ seen) then false else uniq_loop ({[Key f]} ∪ seen) x'
  end.

Definition canSkipKeyConflicts (x : KVs) : bool :=
  match getKeyConflictMap (zlen x) with
  | Some NoMap | None => false
  | Some _ => uniq_loop ∅ x
  end.

(** The range loop over the [m] elements from [i] on; [idx] is the write index. *)
Fixpoint check_loop (c : cfg) (skip : bool) (m i idx : nat) : CM nat :=
  match m with
  | O => sret idx
  | S m' =>
      ok <~ checkKV c skip i;;
      if ok : bool then
        x <~ elem i;;
        put idx x;;;
        check_loop c skip m' (S i) (S idx)
      else check_loop c skip m' (S i) idx
  end.

(** [keyMiss]: add the required keys that are missing and have a default. *)
Fixpoint keyMiss_loop `{ArrayEnc} (req : list PKey) : CM unit :=
  match req with
  | [] => sret tt
  | rk :: req' =>
      s <~ sget;;
      (if Has (key rk) (kvs s) then sret tt
       else match def rk with
            | GoNil => sret tt
            | d =>
                smod (fun s => mkCSt (SetKV (NewKV (key rk) d []) (kvs s)) (warns s));;;
                addWarn WarnAddRequiredKV "add required key-value %q: %q" [MStr (key rk); MAny d]
            end);;;
      keyMiss_loop req'
  end.

Definition keyMiss `{ArrayEnc} (c : cfg) : CM unit := keyMiss_loop (requiredKeys c).

(** [TrimFields] and [TrimTags] build a new slice: the array of the state changes. *)
Definition trim_kvs (c : cfg) : CM unit :=
  s <~ sget;;
  let tcnt := TagCount (kvs s) in
  let fcnt := FieldCount (kvs s) in
  (if (0 <? maxFields c) && (maxFields c <? fcnt) then
     addWarn WarnMaxFields "exceed max field count(%d), got %d fields, extra fields deleted"
             [MInt (maxFields c); MInt fcnt];;;
     smod (fun s => mkCSt (TrimFields (maxFields c) (kvs s)) (warns s))
   else sret tt);;;
  (if (0 <? maxTags c) && (maxTags c <? tcnt) then
     addWarn WarnMaxFields "exceed max tag count(%d), got %d tags, extra tags deleted"
             [MInt (maxTags c); MInt tcnt];;;
     smod (fun s => mkCSt (TrimTags (maxTags c) (kvs s)) (warns s))
   else sret tt).

(** The loop that checks each field and the truncation of the slice after it. *)
Definition check_each (c : cfg) (skip : bool) : CM unit :=
  s <~ sget;;
  idx <~ check_loop c skip (length (kvs s)) 0 0;;
  smod (fun s => mkCSt (take idx (kvs s)) (warns s)).

Definition checkKVs `{ArrayEnc} (c : cfg) : CM unit :=
  trim_kvs c;;;
  s <~ sget;;
  check_each c (canSkipKeyConflicts (kvs s));;;
  keyMiss c.
