(* ===== verification/GoSlice.v ===== *)
(** * Slices that share arrays

    A Go slice is an array of a store and a length ([None] is the nil slice); its
    capacity is that of the array.  [append] writes in place below the capacity, so that
    slices with the same array see each other's writes; otherwise it copies to a new
    array, larger by Go's growth policy [grow]. *)

From S2P Require Import Prelude.

Record Slice := mkSlice { sl_arr : nat; sl_len : nat }.

Record Array (A : Type) := mkArray { ar_data : list A; ar_cap : nat }.

Arguments mkArray {A} ar_data ar_cap.
Arguments ar_data {A} a : rename.
Arguments ar_cap {A} a : rename.

Abbreviation Store A := (list (Array A)).

Definition sl_read {A} (st : Store A) (s : option Slice) : list A :=
  match s with
  | None => []
  | Some s => match st !! sl_arr s with
              | Some a => take (sl_len s) (ar_data a)
              | None => []
              end
  end.

Definition sl_append {A} (grow : nat -> nat) (st : Store A) (s : option Slice) (w : A)
    : Store A * option Slice :=
  match s with
  | None => (st ++ [mkArray [w] (grow 0%nat)], Some (mkSlice (length st) 1))
  | Some s =>
      match st !! sl_arr s with
      | None => (st, Some s)
      | Some a =>
          if (sl_len s <? ar_cap a)%nat then
            (<[sl_arr s := mkArray (take (sl_len s) (ar_data a) ++ w :: drop (S (sl_len s)) (ar_data a))
                                (ar_cap a)]> st,
             Some (mkSlice (sl_arr s) (S (sl_len s))))
          else
            (st ++ [mkArray (take (sl_len s) (ar_data a) ++ [w]) (grow (ar_cap a))],
             Some (mkSlice (length st) (S (sl_len s))))
      end
  end.

Fixpoint sl_appends {A} (grow : nat -> nat) (st : Store A) (s : option Slice) (l : list A)
    : Store A * option Slice :=
  match l with
  | [] => (st, s)
  | w :: l' => let '(st', s') := sl_append grow st s w in sl_appends grow st' s' l'
  end.

(** [c.warns[:0]]. *)
Definition sl_reset (s : option Slice) : option Slice :=
  match s with Some s => Some (mkSlice (sl_arr s) 0) | None => None end.

Section Slices.
Context {A : Type} (grow : nat -> nat) (grows : forall n, (n < grow n)%nat).

(** Array [i] holds [w] first. *)
Definition first_is (st : Store A) (i : nat) (w : A) : Prop :=
  exists l cap, st !! i = Some (mkArray (w :: l) cap).

(** A slice that covers what its array holds. *)
Definition covers (st : Store A) (s : Slice) (l : list A) : Prop :=
  exists rest cap, st !! sl_arr s = Some (mkArray (l ++ rest) cap) /\ sl_len s = length l /\
                   (length l <= cap)%nat.

Lemma sl_append_covers st s l w : covers st s l ->
  exists st' s', sl_append grow st (Some s) w = (st', Some s') /\ covers st' s' (l ++ [w]) /\
    (forall i v, l <> [] -> first_is st i v -> first_is st' i v) /\
    (l = [] -> first_is st' (sl_arr s') w) /\
    ((exists cap, st !! sl_arr s = Some cap /\ (sl_len s < ar_cap cap)%nat) -> sl_arr s' = sl_arr s).
Proof.
  intros (rest & cap & L & Hn & Hc). unfold sl_append. rewrite L. cbn [ar_cap ar_data].
  rewrite Hn. rewrite take_app_length. destruct (length l <? cap)%nat eqn:B.
  - apply Nat.ltb_lt in B. pose proof (lookup_lt_Some _ _ _ L) as Li.
    eexists _, _. split; [done|]. cbn [sl_arr sl_len].
    split_and!.
    + exists (drop (S (length l)) (l ++ rest)), cap. cbn. rewrite list_lookup_insert_eq by done.
      rewrite <- app_assoc. cbn. rewrite length_app. cbn. split_and!; [done | lia | lia].
    + intros i v Nl (m & cp & Lv). destruct (decide (i = sl_arr s)) as [->|N].
      * rewrite L in Lv. destruct l as [|v' l]; [done|]. injection Lv as -> ? ?.
        eexists _, _. by rewrite list_lookup_insert_eq by done.
      * eexists _, _. by rewrite list_lookup_insert_ne.
    + intros ->. eexists _, _. by rewrite list_lookup_insert_eq by done.
    + done.
  - apply Nat.ltb_ge in B. pose proof (grows cap).
    eexists _, _. split; [done|]. cbn [sl_arr sl_len]. split_and!.
    + exists [], (grow cap). cbn. rewrite lookup_app_r, Nat.sub_diag by done. rewrite app_nil_r.
      rewrite length_app. cbn. split_and!; [done | lia | lia].
    + intros i v _ (m & cp & Lv). exists m, cp. rewrite lookup_app_l; [done|].
      by eapply lookup_lt_Some.
    + intros ->. eexists _, _. by rewrite lookup_app_r, Nat.sub_diag by done.
    + intros (a & La & Ha). injection La as <-. cbn in Ha. lia.
Qed.

Lemma sl_appends_covers st s l ws : covers st s l -> l <> [] ->
  exists st' s', sl_appends grow st (Some s) ws = (st', Some s') /\ covers st' s' (l ++ ws) /\
    (forall i v, first_is st i v -> first_is st' i v).
Proof.
  revert st s l. induction ws as [|w ws IH]; intros st s l C Nl.
  { exists st, s. by rewrite app_nil_r. }
  cbn [sl_appends]. destruct (sl_append_covers st s l w C) as (st1 & s1 & -> & C1 & F1 & _).
  destruct (IH st1 s1 (l ++ [w]) C1) as (st2 & s2 & -> & C2 & F2); [by destruct l|].
  exists st2, s2. rewrite <- app_assoc in C2. split_and!; [done | done |]. auto.
Qed.

Lemma sl_start w ws :
  exists st s, sl_appends grow [] None (w :: ws) = (st, Some s) /\ covers st s (w :: ws).
Proof.
  cbn [sl_appends sl_append app length].
  destruct (sl_appends_covers [mkArray [w] (grow 0%nat)] (mkSlice 0 1) [w] ws) as (st & s & E & C & _);
    [|done|by exists st, s].
  exists [], (grow 0%nat). pose proof (grows 0%nat). cbn. split_and!; [done | done | lia].
Qed.

(** Appending to the reset slice overwrites what the old slice still reads. *)
Lemma sl_overwrite st s w1 ws1 w2 ws2 : covers st s (w1 :: ws1) ->
  exists st' s', sl_appends grow st (sl_reset (Some s)) (w2 :: ws2) = (st', Some s') /\
    covers st' s' (w2 :: ws2) /\ head (sl_read st' (Some s)) = Some w2.
Proof.
  intros (rest & cap & L & Hn & Hc). cbn [sl_reset sl_appends].
  set (s0 := mkSlice (sl_arr s) 0).
  destruct (sl_append_covers st s0 [] w2) as (st1 & s1 & -> & C1 & _ & F1 & A1).
  { exists ((w1 :: ws1) ++ rest), cap. cbn. split_and!; [done | done | lia]. }
  destruct (sl_appends_covers st1 s1 ([] ++ [w2]) ws2 C1) as (st2 & s2 & E & C2 & F2); [done|].
  exists st2, s2. split; [exact E|]. split; [exact C2|].
  assert (sl_arr s1 = sl_arr s) as EA.
  { apply A1. eexists. split; [exact L | cbn in *; lia]. }
  rewrite EA in F1.
  destruct (F2 _ _ (F1 eq_refl)) as (l & cp & L2). cbn in L2.
  unfold sl_read. rewrite L2. cbn in Hn. by rewrite Hn.
Qed.

Lemma covers_read st s l : covers st s l -> sl_read st (Some s) = l.
Proof.
  intros (rest & cap & L & Hn & _). unfold sl_read. rewrite L. cbn. rewrite Hn.
  by rewrite take_app_length.
Qed.

End Slices.
