(* ===== verification/PointNew.v ===== *)
(** * Points ([src/point/point.go], [new_point.go], [check.go], [equal.go])

    [Point] is the Go struct with the protobuf message it points to.  [sort] stands
    for [sort.Sort] on the fields, [now] for [time.Now()] in nanoseconds.
    [CheckPoints] reuses one warning slice for all points: its backing arrays are
    modelled, because the points keep slices of them. *)

From S2P Require Import Prelude GoSlice PointKV PointCheck.

Record Point := mkPoint {
  flags : Z;
  Name : bytes;
  PFields : KVs;
  Time : Z;
  Warns : list Warn;
  Debugs : list bytes;
}.

Definition set_PFields (x : KVs) (p : Point) : Point :=
  mkPoint (flags p) (Name p) x (Time p) (Warns p) (Debugs p).

(** ** Flags *)

Definition Psent : Z := 1.
Definition Ppb : Z := 2.
Definition Pcheck : Z := 4.
Definition Ppooled : Z := 8.

Definition SetFlag (f : Z) (p : Point) : Point :=
  mkPoint (Z.lor (flags p) (uint64 (Z.shiftl 1 f))) (Name p) (PFields p) (Time p) (Warns p) (Debugs p).

Definition ClearFlag (f : Z) (p : Point) : Point :=
  mkPoint (Z.land (flags p) (Z.lxor (2 ^ 64 - 1) (uint64 (Z.shiftl 1 f))))
          (Name p) (PFields p) (Time p) (Warns p) (Debugs p).

Definition HasFlag (f : Z) (p : Point) : bool :=
  0 <? Z.land (flags p) (uint64 (Z.shiftl 1 f)).

(** ** Slices of warnings: [CheckPoints] uses one for all points *)

Abbreviation WStore := (Store Warn).

(** ** The methods that change the fields *)

Section Methods.
Context `{ArrayEnc}.

Definition Point_AddTag (k v : bytes) (p : Point) : Point := set_PFields (AddTag k v (PFields p)) p.
Definition Point_SetTag (k v : bytes) (p : Point) : Point := set_PFields (SetTag k v (PFields p)) p.
Definition Point_Add (k : bytes) (v : any) (p : Point) : Point :=
  set_PFields (Add k v [] (PFields p)) p.
Definition Point_Set (k : bytes) (v : any) (p : Point) : Point :=
  set_PFields (Set_ k v [] (PFields p)) p.
Definition MustAdd (k : bytes) (v : any) (p : Point) : Point :=
  set_PFields (Set_ k v [] (PFields p)) p.
Definition Point_Del (k : bytes) (p : Point) : Point := set_PFields (Del k (PFields p)) p.

Definition AddKVs (l : KVs) (p : Point) : Point :=
  set_PFields (fold_left (fun x kv => AddKV kv x) l (PFields p)) p.
(** Despite its comment, [SetKVs] adds: it is [AddKVs]. *)
Definition SetKVs (l : KVs) (p : Point) : Point :=
  set_PFields (fold_left (fun x kv => AddKV kv x) l (PFields p)) p.
Definition MustAddKVs (l : KVs) (p : Point) : Point :=
  set_PFields (fold_left (fun x kv => SetKV kv x) l (PFields p)) p.
Definition CopyTags (l : KVs) (p : Point) : Point :=
  set_PFields (fold_left (fun x kv => AddTag (Key kv) (GetS kv) x) l (PFields p)) p.
Definition CopyField (l : KVs) (p : Point) : Point :=
  set_PFields (fold_left (fun x kv => Add (Key kv) (Raw kv) [] x) l (PFields p)) p.

Definition Point_Get (k : bytes) (p : Point) : any :=
  match Get k (PFields p) with Some f => Raw f | None => GoNil end.

Definition Point_GetTag (k : bytes) (p : Point) : bytes := GetTag k (PFields p).

(** ** Checking one point, and building one *)

(** [checker.check] with a fresh checker. *)
Definition check (c : cfg) (p : Point) : Res panic (Point * list Warn) :=
  match (n <~ checkMeasurement c (Name p);; checkKVs c;;; sret n) (mkCSt (PFields p) []) with
  | (Ok n, s) =>
      Ok (mkPoint (flags p) n (kvs s) (Time p) (Warns p ++ warns s) (Debugs p), warns s)
  | (Err e, _) => Err e
  end.

Definition doNewPoint (sort : KVs -> KVs) (now : Z) (name : bytes) (x : KVs) (c : cfg)
    : Res panic Point :=
  let p := mkPoint 0 name x 0 [] [] in
  let p := fold_left (fun p kv => Point_AddTag (Key kv) (GetS kv) p) (extraTags c) p in
  let p := if decide (enc c = Protobuf) then SetFlag Ppb p else p in
  let p := if keySorted c then set_PFields (sort (PFields p)) p else p in
  match (if precheck c then
           match check c p with
           | Ok (p', _) => Ok (SetFlag Pcheck p')
           | Err e => Err e
           end
         else Ok p) with
  | Err e => Err e
  | Ok p =>
      let p := if keySorted c then set_PFields (sort (PFields p)) p else p in
      Ok (mkPoint (flags p) (Name p) (PFields p)
                  (if 0 <=? timestamp c then timestamp c else now) (Warns p) (Debugs p))
  end.

(** The result and the configuration that [PutCfg] hands to the pool. *)
Definition NewPoint (sort : KVs -> KVs) (now : Z) (pooled : option cfg) (name : bytes) (x : KVs)
    (opts : list (option Option_)) : Res panic Point * cfg :=
  let c := GetCfg pooled opts in
  (doNewPoint sort now name x c, PutCfg c).

(** [NewPointDeprecated]: [None] is [ErrNoFields]. *)
Definition NewPointDeprecated (sort : KVs -> KVs) (now : Z) (pooled : option cfg) (name : bytes)
    (tags : list (bytes * bytes)) (fields : list (bytes * any)) (opts : list (option Option_))
    : option (Res panic Point * cfg) :=
  match fields with
  | [] => None
  | _ =>
      let x := fold_left (fun x '(k, v) => SetTag k v x) tags (NewKVs fields) in
      Some (NewPoint sort now pooled name x opts)
  end.

(** [FromPB]. *)
Definition FromPB (sort : KVs -> KVs) (now : Z) (pooled : option cfg) (pb : Point) : Res panic Point :=
  match fst (NewPoint sort now pooled (Name pb) (PFields pb) [Some (WithTime (Time pb))]) with
  | Ok p =>
      Ok (SetFlag Ppb
            (mkPoint (flags p) (Name p) (PFields p) (Time p)
                     (match Warns pb with [] => Warns p | w => w end)
                     (match Debugs pb with [] => Debugs p | d => d end)))
  | Err e => Err e
  end.

(** The loop of [CheckPoints]: the points with the slice that each one's [Warns] is
    left with.  A nil point is skipped by the caller's list. *)
Fixpoint checkPoints_loop (grow : nat -> nat) (c : cfg) (pts : list Point) (st : WStore)
    (cw : option Slice) : Res panic (list (Point * option Slice) * WStore) :=
  match pts with
  | [] => Ok ([], st)
  | p :: pts' =>
      match check c p with
      | Err e => Err e
      | Ok (p', ws) =>
          let '(st', cw') := sl_appends grow st cw ws in
          match checkPoints_loop grow c pts' st' (sl_reset cw') with
          | Err e => Err e
          | Ok (l, st'') => Ok ((SetFlag Pcheck p', cw') :: l, st'')
          end
      end
  end.

(** What a caller reads in [Warns()] of each point once the call has returned. *)
Definition CheckPoints (grow : nat -> nat) (pooled : option cfg) (pts : list Point)
    (opts : list (option Option_)) : Res panic (list Point) :=
  match checkPoints_loop grow (GetCfg pooled opts) pts [] None with
  | Err e => Err e
  | Ok (l, st) =>
      Ok (map (fun '(p, s) => mkPoint (flags p) (Name p) (PFields p) (Time p) (sl_read st s) (Debugs p)) l)
  end.

End Methods.

(** ** Equality and identity ([equal.go]) *)

Record eqopt := mkEqopt { withMeasurement : bool; excludeKeys : list bytes }.

Definition keyExcluded (o : eqopt) (k : bytes) : bool :=
  existsb (fun x => bool_decide (x = k)) (excludeKeys o).

(** [f.String()] is generated code: the argument [str]. *)
Fixpoint kvsEq_loop (str : Field -> bytes) (o : eqopt) (l r : KVs) : bool :=
  match l with
  | [] => true
  | f :: l' =>
      if keyExcluded o (Key f) then kvsEq_loop str o l' r
      else match Get (Key f) r with
           | None => false
           | Some v => if bool_decide (str f = str v) then kvsEq_loop str o l' r else false
           end
  end.

Definition kvsEq (str : Field -> bytes) (o : eqopt) (l r : KVs) : bool :=
  if (match excludeKeys o with [] => true | _ => false end) && negb (zlen l =? zlen r) then false
  else kvsEq_loop str o l r.

Definition Equal (str : Field -> bytes) (o : eqopt) (p x : Point) : bool :=
  if negb (keyExcluded o (to_bytes "time")) && negb (Time x =? Time p) then false
  else if withMeasurement o && negb (bool_decide (Name x = Name p)) then false
  else if (match excludeKeys o with [] => true | _ => false end)
          && negb (zlen (Tags (PFields x)) =? zlen (Tags (PFields p))) then false
  else if negb (kvsEq str o (Fields (PFields p)) (Fields (PFields x))) then false
  else kvsEq str o (Tags (PFields p)) (Tags (PFields x)).

(** [hashstr]: what [MD5] and [Sha256] digest. *)
Definition hashstr (sort : KVs -> KVs) (p : Point) : bytes :=
  Name p ++ concat (map (fun t => Key t ++ GetS t) (sort (Tags (PFields p)))).
