(* ===== verification/PointKVThms.v ===== *)
(** * The slice of fields implements a finite map ([src/point/kvs.go])

    [kvs_map] reads a slice as a finite map (the first field with a key counts, as
    in [Get]).  Every method refines the operation of the map it stands for, and
    every slice built with the methods has each key once.  [Del], which fills a hole
    with the last element, deletes exactly the fields with the key, also when a key
    occurs several times. *)

From S2P Require Import Prelude PointKV.

(** ** The specification: a finite map *)

Definition kvs_map (x : KVs) : gmap bytes Field := list_to_map ((fun f => (Key f, f)) <$> x).

Abbreviation keys x := (Key <$> (x : list Field)).

Lemma Get_spec k x : Get k x = kvs_map x !! k.
Proof.
  induction x as [|f x IH]; [done|]. cbn [Get]. unfold kvs_map. cbn.
  case_decide as E; [subst; by rewrite lookup_insert_eq | by rewrite lookup_insert_ne].
Qed.

Lemma Has_Get k x : Has k x = bool_decide (is_Some (Get k x)).
Proof.
  induction x as [|f x IH]; cbn [Has Get]; [by rewrite bool_decide_eq_false_2; [|intros [? ?]]|].
  case_decide; [by rewrite bool_decide_eq_true_2|done].
Qed.

Lemma Get_None k x : Get k x = None <-> k ∉ keys x.
Proof.
  induction x as [|f x IH]; cbn [Get fmap list_fmap]; [split; [intros _ ?%elem_of_nil; done | done]|].
  rewrite not_elem_of_cons. case_decide; [split; [done | intros [? ?]; congruence]|].
  rewrite IH. split; [intros ?; split; [congruence | done] | by intros [? ?]].
Qed.

Lemma Get_Some k x f : Get k x = Some f -> Key f = k /\ f ∈ x.
Proof.
  induction x as [|g x IH]; cbn [Get]; [done|].
  case_decide as E; [intros [= ->]; split; [done | left] | intros [? ?]%IH; split; [done | by right]].
Qed.

Lemma Has_false k x : Has k x = false <-> k ∉ keys x.
Proof. rewrite Has_Get, bool_decide_eq_false, <- eq_None_not_Some. apply Get_None. Qed.

(** ** [set_loop] and [add_loop] *)

Lemma set_loop_map k kv x : Key kv = k -> kvs_map (set_loop k kv x) = <[k := kv]> (kvs_map x).
Proof.
  intros E. unfold kvs_map. induction x as [|f x IH]; cbn.
  - by rewrite E.
  - case_decide as D; cbn.
    + rewrite D, E. by rewrite insert_insert_eq.
    + rewrite IH. by rewrite insert_insert_ne.
Qed.

Lemma set_loop_keys k kv x : Key kv = k ->
  keys (set_loop k kv x) = if decide (k ∈ keys x) then keys x else keys x ++ [k].
Proof.
  intros E. induction x as [|f x IH]; cbn [set_loop fmap list_fmap].
  - rewrite decide_False by (intros ?%elem_of_nil; done). by rewrite <- E.
  - destruct (decide (Key f = k)) as [D|D]; cbn [fmap list_fmap].
    + rewrite decide_True by (rewrite D; left). by rewrite E, D.
    + change (list_fmap Field (list byte) Key (set_loop k kv x)) with (keys (set_loop k kv x)).
      rewrite IH. destruct (decide (k ∈ keys x)) as [I|I].
      * rewrite decide_True by (by right). done.
      * rewrite decide_False; [done|]. intros [?|?]%elem_of_cons; [congruence|done].
Qed.

Lemma add_loop_spec k kv x :
  add_loop k kv x = if decide (k ∈ keys x) then x else x ++ [kv].
Proof.
  induction x as [|f x IH]; cbn [add_loop fmap list_fmap].
  - by rewrite decide_False by (intros ?%elem_of_nil; done).
  - destruct (decide (Key f = k)) as [D|D].
    + by rewrite decide_True by (rewrite D; left).
    + rewrite IH. change (list_fmap Field (list byte) Key x) with (keys x).
      destruct (decide (k ∈ keys x)) as [I|I].
      * rewrite decide_True by (by right). done.
      * rewrite decide_False; [done|]. intros [?|?]%elem_of_cons; [congruence|done].
Qed.

Lemma SetKV_set_loop kv x : SetKV kv x = set_loop (Key kv) kv x.
Proof. induction x as [|f x IH]; cbn; [done|]. by rewrite IH. Qed.

Lemma AddKV_add_loop kv x : AddKV kv x = add_loop (Key kv) kv x.
Proof. induction x as [|f x IH]; cbn; [done|]. by rewrite IH. Qed.

Lemma kvs_map_snoc x kv : Key kv ∉ keys x -> kvs_map (x ++ [kv]) = <[Key kv := kv]> (kvs_map x).
Proof.
  intros N. induction x as [|f x IH]; [done|].
  rewrite fmap_cons, not_elem_of_cons in N. destruct N as [N1 N2].
  change (kvs_map ((f :: x) ++ [kv])) with (<[Key f := f]> (kvs_map (x ++ [kv]))).
  rewrite IH by done. unfold kvs_map. cbn. by rewrite insert_insert_ne by congruence.
Qed.

Lemma kvs_map_None k x : kvs_map x !! k = None <-> k ∉ keys x.
Proof. rewrite <- Get_spec. apply Get_None. Qed.

(** ** [Del] *)

Lemma take_last_insert (x : KVs) i f :
  x !! i = Some f ->
  exists l, x !! (length x - 1)%nat = Some l /\
    f :: take (length x - 1) (<[i := l]> x) ≡ₚ x.
Proof.
  intros Hi. destruct (exists_last (l := x)) as (y & a & ->); [by destruct x|].
  rewrite length_app. cbn [length].
  replace (length y + 1 - 1)%nat with (length y) by lia.
  exists a. split; [by rewrite lookup_app_r, Nat.sub_diag by lia|].
  destruct (decide (i = length y)) as [->|N].
  - rewrite lookup_app_r, Nat.sub_diag in Hi by lia. injection Hi as ->.
    rewrite insert_app_r_alt, Nat.sub_diag by lia. cbn [insert list_insert].
    rewrite take_app_length. apply Permutation_cons_append.
  - assert (i < length y)%nat as L.
    { apply lookup_lt_Some in Hi. rewrite length_app in Hi. cbn in Hi. lia. }
    rewrite lookup_app_l in Hi by done.
    rewrite insert_app_l by done.
    rewrite take_exact by (by rewrite length_insert).
    rewrite insert_take_drop by done.
    rewrite <- (take_drop_middle y i f Hi) at 3.
    rewrite <- app_assoc. cbn [app].
    rewrite <- !(Permutation_middle (take i y)). constructor.
    rewrite app_assoc. by rewrite <- Permutation_cons_append.
Qed.

Abbreviation without k := (filter (fun f : Field => Key f <> k)).

Lemma filter_all {A} (P : A -> Prop) `{!forall a, Decision (P a)} (l : list A) :
  Forall P l -> filter P l = l.
Proof. induction 1 as [|a l Ha _ IH]; [done|]. by rewrite filter_cons_True, IH. Qed.

Lemma del_loop_perm fuel k i x :
  (length x - i <= fuel)%nat -> Forall (fun f => Key f <> k) (take i x) ->
  del_loop fuel k i x ≡ₚ without k x.
Proof.
  revert i x. induction fuel as [|fuel IH]; intros i x L P; cbn [del_loop].
  - rewrite take_ge in P by lia. by rewrite filter_all.
  - destruct (x !! i) as [f|] eqn:E.
    2:{ apply lookup_ge_None in E. rewrite take_ge in P by lia. by rewrite filter_all. }
    pose proof (lookup_lt_Some _ _ _ E) as Li.
    case_decide as D.
    + destruct (take_last_insert x i f E) as (l & -> & Hp).
      rewrite IH.
      * transitivity (without k (f :: take (length x - 1) (<[i:=l]> x))); [|by f_equiv].
        by rewrite filter_cons_False by (intros N; by apply N).
      * rewrite length_take, length_insert. lia.
      * rewrite take_take, take_insert_ge by lia.
        eapply Forall_take in P. rewrite take_take in P.
        rewrite Nat.min_comm. exact P.
    + apply IH; [lia|]. rewrite (take_S_r _ _ _ E). apply Forall_app. split; [done|].
      by constructor.
Qed.

Lemma keys_filter k (x : KVs) : keys (without k x) = filter (fun j => j <> k) (keys x).
Proof.
  induction x as [|f x IH]; [done|]. rewrite filter_cons. cbn [fmap list_fmap].
  rewrite filter_cons. destruct (decide (Key f <> k)); [cbn [fmap list_fmap]; by f_equal|done].
Qed.

Lemma kvs_map_without k (x : KVs) : kvs_map (without k x) = delete k (kvs_map x).
Proof.
  induction x as [|f x IH]; [symmetry; apply delete_empty|].
  rewrite filter_cons. unfold kvs_map in *. cbn. destruct (decide (Key f <> k)) as [N|N]; cbn.
  - rewrite IH. by rewrite delete_insert_ne by done.
  - apply dec_stable in N. subst k. by rewrite IH, delete_insert_eq.
Qed.

(** Reordering a slice in which each key occurs once does not change the map. *)
Lemma kvs_map_perm x y : NoDup (keys x) -> x ≡ₚ y -> kvs_map x = kvs_map y.
Proof.
  intros N P. apply list_to_map_proper; [|by f_equiv].
  rewrite <- list_fmap_compose. exact N.
Qed.

(** ** The refinement *)

Section Refine.
Context `{ArrayEnc}.

(** The calls a client can make to build the fields of a point. *)
Inductive kvop : Type :=
| OSet (k : bytes) (v : any)
| OAdd (k : bytes) (v : any)
| OSetTag (k v : bytes)
| OAddTag (k v : bytes)
| OSetKV (kv : Field)
| OAddKV (kv : Field)
| ODel (k : bytes).

Definition run_op (o : kvop) (x : KVs) : KVs :=
  match o with
  | OSet k v => Set_ k v [] x
  | OAdd k v => Add k v [] x
  | OSetTag k v => SetTag k v x
  | OAddTag k v => AddTag k v x
  | OSetKV kv => SetKV kv x
  | OAddKV kv => AddKV kv x
  | ODel k => Del k x
  end.

(** What each call does to the map. *)
Definition insert_new (k : bytes) (f : Field) (m : gmap bytes Field) : gmap bytes Field :=
  match m !! k with Some _ => m | None => <[k := f]> m end.

Definition field_of (k : bytes) (v : any) : Field := mkField k (newVal v) false UNSPECIFIED [] [].
Definition tag_of (k v : bytes) : Field := mkField k (Some (Field_S v)) true UNSPECIFIED [] [].

Definition spec_op (o : kvop) (m : gmap bytes Field) : gmap bytes Field :=
  match o with
  | OSet k v => <[k := field_of k v]> m
  | OAdd k v => insert_new k (field_of k v) m
  | OSetTag k v => <[k := tag_of k v]> m
  | OAddTag k v => insert_new k (tag_of k v) m
  | OSetKV kv => <[Key kv := kv]> m
  | OAddKV kv => insert_new (Key kv) kv m
  | ODel k => delete k m
  end.

Lemma set_loop_refines k kv x : Key kv = k -> NoDup (keys x) ->
  NoDup (keys (set_loop k kv x)) /\ kvs_map (set_loop k kv x) = <[k := kv]> (kvs_map x).
Proof.
  intros E N. split; [|by apply set_loop_map].
  rewrite set_loop_keys by done. case_decide; [done|].
  apply list.NoDup_app. split; [done|]. split; [|apply list.NoDup_singleton].
  by intros j Hj ->%list_elem_of_singleton.
Qed.

Lemma add_loop_refines k kv x : Key kv = k -> NoDup (keys x) ->
  NoDup (keys (add_loop k kv x)) /\ kvs_map (add_loop k kv x) = insert_new k kv (kvs_map x).
Proof.
  intros E N. rewrite add_loop_spec. unfold insert_new. case_decide as D.
  - split; [done|]. destruct (kvs_map x !! k) eqn:G; [done|]. by apply kvs_map_None in G.
  - rewrite (proj2 (kvs_map_None k x)) by done. subst k. rewrite kvs_map_snoc by done.
    split; [|done]. rewrite fmap_app. apply list.NoDup_app. split; [done|].
    split; [|apply list.NoDup_singleton]. by intros j Hj ->%list_elem_of_singleton.
Qed.

Lemma Del_refines k x : NoDup (keys x) ->
  NoDup (keys (Del k x)) /\ kvs_map (Del k x) = delete k (kvs_map x).
Proof.
  intros N. assert (Del k x ≡ₚ without k x) as P.
  { apply del_loop_perm; [lia | constructor]. }
  assert (NoDup (keys (Del k x))) as N'.
  { rewrite P, keys_filter. by apply list.NoDup_filter. }
  split; [done|]. rewrite (kvs_map_perm _ _ N' P). apply kvs_map_without.
Qed.

Lemma run_op_refines o x : NoDup (keys x) ->
  NoDup (keys (run_op o x)) /\ kvs_map (run_op o x) = spec_op o (kvs_map x).
Proof.
  intros N. destruct o; cbn [run_op spec_op];
    [by apply set_loop_refines | by apply add_loop_refines | by apply set_loop_refines
    | by apply add_loop_refines | rewrite SetKV_set_loop; by apply set_loop_refines
    | rewrite AddKV_add_loop; by apply add_loop_refines | by apply Del_refines].
Qed.

(** C27: a slice of fields is a finite map.  After any sequence of [Set], [Add],
    [SetTag], [AddTag], [SetKV], [AddKV] and [Del] from the empty slice, every key
    occurs once, the slice denotes the map that results from inserting (Set),
    inserting when absent (Add) and deleting (Del), and [Get] and [Has] look it up. *)
Theorem kvs_refine_map (ops : list kvop) :
  let x := fold_left (fun x o => run_op o x) ops [] in
  let m := fold_left (fun m o => spec_op o m) ops ∅ in
  NoDup (keys x) /\ kvs_map x = m /\
  forall k, Get k x = m !! k /\ Has k x = bool_decide (is_Some (m !! k)).
Proof.
  cbn zeta.
  assert (forall x0 m0, NoDup (keys x0) -> kvs_map x0 = m0 ->
    NoDup (keys (fold_left (fun x o => run_op o x) ops x0)) /\
    kvs_map (fold_left (fun x o => run_op o x) ops x0) = fold_left (fun m o => spec_op o m) ops m0)
    as G.
  { induction ops as [|o ops IH]; intros x0 m0 N M; [done|]. cbn [fold_left].
    destruct (run_op_refines o x0 N) as [N' M']. apply IH; [done | by rewrite M', M]. }
  destruct (G [] ∅ base.NoDup_nil_2 eq_refl) as [N M].
  split; [done|]. split; [done|]. intros k. by rewrite Has_Get, Get_spec, M.
Qed.

(** [Del] removes exactly the fields with the key: for any slice, duplicate keys
    included, the result is a permutation of the fields with another key. *)
Theorem del_removes_exactly (k : bytes) (x : KVs) :
  Del k x ≡ₚ filter (fun f : Field => Key f <> k) x.
Proof. apply del_loop_perm; [lia | constructor]. Qed.

End Refine.
