(* ===== verification/PointCheckSpec.v ===== *)
(** * What the checker promises for one field ([src/point/check.go])

    [field_ok] is the promise: the key and the value of a field that passed.  The
    lemmas say what each part of [checkKV] does to the array and that a field that
    is kept satisfies the promise. *)

From S2P Require Import Prelude PointKV PointCheck PointKVThms.

(** ** Byte strings *)

Lemma Contains_true x a : Contains x a = true <-> a ∈ x.
Proof.
  unfold Contains. rewrite existsb_exists. split.
  - intros (b & I & E). bool_to_prop. subst. by apply list_elem_of_In.
  - intros I. exists a. split; [by apply list_elem_of_In | by apply bool_decide_eq_true_2].
Qed.

Lemma Contains_false x a : Contains x a = false <-> a ∉ x.
Proof. rewrite <- Contains_true. by destruct (Contains x a). Qed.

Lemma HasSuffix_snoc x b a : HasSuffix (x ++ [b]) a = bool_decide (b = a).
Proof. unfold HasSuffix. by rewrite reverse_snoc. Qed.

Lemma trim_rev_suffix a r : exists p, r = p ++ trim_rev a r /\ Forall (eq a) p.
Proof.
  induction r as [|c r (p & E & F)]; cbn; [by exists []|].
  case_decide as D; [|by exists []].
  exists (c :: p). split; [by rewrite E at 1 | by constructor].
Qed.

Lemma trim_rev_head a r b l : trim_rev a r = b :: l -> b <> a.
Proof. induction r as [|c r IH]; cbn; [done|]. case_decide; [done | congruence]. Qed.

Lemma trimSuffixAll_no_suffix x a : HasSuffix (trimSuffixAll x a) a = false.
Proof.
  unfold trimSuffixAll, HasSuffix. rewrite reverse_involutive.
  destruct (trim_rev a (reverse x)) eqn:E; [done|].
  apply trim_rev_head in E. by apply bool_decide_eq_false_2.
Qed.

Lemma trimSuffixAll_prefix x a : exists p, x = trimSuffixAll x a ++ p.
Proof.
  unfold trimSuffixAll. destruct (trim_rev_suffix a (reverse x)) as (p & E & _).
  exists (reverse p). rewrite <- reverse_app, <- E. by rewrite reverse_involutive.
Qed.

Lemma trimSuffixAll_id x a : HasSuffix x a = false -> trimSuffixAll x a = x.
Proof.
  intros H. unfold trimSuffixAll, HasSuffix in *.
  assert (trim_rev a (reverse x) = reverse x) as ->; [|apply reverse_involutive].
  destruct (reverse x) as [|c r]; cbn [trim_rev]; [done|].
  bool_to_prop. by rewrite decide_False.
Qed.

Lemma ReplaceAll_id a b x : a ∉ x -> ReplaceAll a b x = x.
Proof.
  induction x as [|c x IH]; cbn; [done|]. intros [N1 N2]%not_elem_of_cons.
  rewrite decide_False by congruence. f_equal. by apply IH.
Qed.

Lemma ReplaceAll_elem a b c x : a <> b -> c ∈ ReplaceAll a b x -> c <> a /\ (c = b \/ c ∈ x).
Proof.
  intros N I. apply list_elem_of_fmap in I as (d & -> & I). case_decide; subst; naive_solver.
Qed.

Lemma zlen_ReplaceAll a b x : zlen (ReplaceAll a b x) = zlen x.
Proof. unfold zlen, ReplaceAll. by rewrite length_map. Qed.

Lemma HasSuffix_ReplaceAll a b c x :
  a <> c -> b <> c -> HasSuffix (ReplaceAll a b x) c = HasSuffix x c.
Proof.
  intros N1 N2. destruct x as [|d x _] using rev_ind; [done|].
  unfold ReplaceAll. rewrite map_app. cbn [map]. rewrite !HasSuffix_snoc.
  case_decide; subst; [|done]. by rewrite !bool_decide_eq_false_2.
Qed.

(** [adjustKV] without its two fast paths. *)
Lemma adjustKV_eq x : adjustKV x = ReplaceAll newline space (trimSuffixAll x backslash).
Proof.
  unfold adjustKV.
  assert ((if HasSuffix x backslash then trimSuffixAll x backslash else x)
          = trimSuffixAll x backslash) as ->.
  { destruct (HasSuffix x backslash) eqn:E; [done|]. by rewrite trimSuffixAll_id. }
  destruct (Contains (trimSuffixAll x backslash) newline) eqn:E; [done|].
  apply Contains_false in E. by rewrite ReplaceAll_id.
Qed.

Lemma adjustKV_newline x : Contains (adjustKV x) newline = false.
Proof.
  rewrite adjustKV_eq. apply Contains_false. intros I.
  by apply ReplaceAll_elem in I as [? _].
Qed.

Lemma adjustKV_suffix x : HasSuffix (adjustKV x) backslash = false.
Proof. rewrite adjustKV_eq, HasSuffix_ReplaceAll by done. apply trimSuffixAll_no_suffix. Qed.

Lemma adjustKV_len x : zlen (adjustKV x) <= zlen x.
Proof.
  rewrite adjustKV_eq, zlen_ReplaceAll. destruct (trimSuffixAll_prefix x backslash) as (p & E).
  rewrite E at 2. rewrite zlen_app. pose proof (zlen_nonneg p). lia.
Qed.

Lemma adjustKV_no_dot x : Contains x dot = false -> Contains (adjustKV x) dot = false.
Proof.
  rewrite !Contains_false, adjustKV_eq. intros N I. apply ReplaceAll_elem in I as [_ [?|I]]; [done| |done].
  apply N. destruct (trimSuffixAll_prefix x backslash) as (p & ->). apply elem_of_app. by left.
Qed.

Lemma adjustKV_id x :
  Contains x newline = false -> HasSuffix x backslash = false -> adjustKV x = x.
Proof. intros N H. unfold adjustKV. by rewrite H, N. Qed.

Lemma ztake_len {A} n (l : list A) : 0 < n -> zlen (ztake n l) <= n.
Proof. intros H. rewrite ztake_take. unfold zlen. rewrite length_take. lia. Qed.

(** ** The promise *)

Record key_ok (c : cfg) (max : Z) (k : bytes) : Prop := {
  ko_nonempty : k <> [];
  ko_enabled : k ∉ (key <$> disabledKeys c);
  ko_len : 0 < max -> zlen k <= max;
  ko_newline : Contains k newline = false;
  ko_escape : HasSuffix k backslash = false;
  ko_dot : enableDotInKey c = false -> Contains k dot = false;
}.

Definition text_ok (c : cfg) (x : bytes) : Prop :=
  enableStrField c = true /\ (0 < maxFieldValLen c -> zlen x <= maxFieldValLen c).

Definition value_ok (c : cfg) (v : option FieldVal) : Prop :=
  match v with
  | Some (Field_U _) => enableU64Field c = true
  | Some (Field_F f) => forall sgn, f <> S754_infinity sgn
  | Some (Field_D x) | Some (Field_S x) => text_ok c x
  | _ => True
  end.

Definition tag_value_ok (c : cfg) (v : option FieldVal) : Prop :=
  exists s, v = Some (Field_S s) /\ Contains s newline = false /\
            (0 < maxTagValLen c -> zlen s <= maxTagValLen c).

Definition field_ok (c : cfg) (f : Field) : Prop :=
  if IsTag f then key_ok c (maxTagKeyLen c) (Key f) /\ tag_value_ok c (Val f)
  else key_ok c (maxFieldKeyLen c) (Key f) /\ value_ok c (Val f).

(** ** Keys of an array *)

(** No other position of the array has the key [k]. *)
Definition only_at (a : KVs) (i : nat) (k : bytes) : Prop :=
  forall j g, j <> i -> a !! j = Some g -> Key g <> k.

(** The key of position [i] may become [k]: it is unchanged or new. *)
Definition moved (a : KVs) (i : nat) (f : Field) (k : bytes) : Prop :=
  k = Key f \/ only_at a i k.

Lemma only_at_insert a i k f : only_at (<[i := f]> a) i k <-> only_at a i k.
Proof.
  unfold only_at. split; intros H j g N L; (apply (H j); [done|]);
    [by rewrite list_lookup_insert_ne | by rewrite list_lookup_insert_ne in L].
Qed.

Lemma Get_None_only a i k : Get k a = None -> only_at a i k.
Proof.
  intros G%Get_None j g _ L E. apply G. apply list_elem_of_fmap. exists g. split; [done|].
  by eapply list_elem_of_lookup_2.
Qed.

Lemma key_count_nonneg k a : 0 <= key_count k a.
Proof. induction a as [|f a IH]; cbn; [lia|]. case_decide; lia. Qed.

Lemma key_count_app k a b : key_count k (a ++ b) = key_count k a + key_count k b.
Proof. induction a as [|f a IH]; cbn; [lia|]. rewrite IH. lia. Qed.

Lemma key_count_pos k a : 0 < key_count k a <-> k ∈ keys a.
Proof.
  induction a as [|f a IH]; cbn; [split; [lia | by intros ?%elem_of_nil]|].
  pose proof (key_count_nonneg k a). rewrite elem_of_cons. case_decide as D.
  - split; [by left | lia].
  - rewrite Z.add_0_l, IH. split; [by right | intros [?|?]; [congruence|done]].
Qed.

(** The test of [keyConflict]: the key occurs at another position. *)
Lemma key_count_only a i f :
  a !! i = Some f -> key_count (Key f) a <= 1 <-> only_at a i (Key f).
Proof.
  intros L. rewrite <- (take_drop_middle a i f L) at 1.
  rewrite key_count_app. cbn [key_count]. rewrite decide_True by done.
  pose proof (key_count_nonneg (Key f) (take i a)).
  pose proof (key_count_nonneg (Key f) (drop (S i) a)).
  split.
  - intros C j g N Lj E.
    assert (Key f ∈ keys (take i a) \/ Key f ∈ keys (drop (S i) a)) as [I%key_count_pos|I%key_count_pos];
      [|lia|lia].
    rewrite <- E. destruct (decide (j < i)%nat); [left|right]; apply list_elem_of_fmap_2.
    + apply list_elem_of_lookup. exists j. by rewrite lookup_take_lt.
    + apply list_elem_of_lookup. exists (j - S i)%nat. rewrite lookup_drop.
      by replace (S i + (j - S i))%nat with j by lia.
  - intros O.
    assert (~ 0 < key_count (Key f) (take i a)) as ?.
    { rewrite key_count_pos. intros (g & E & (j & Lj)%list_elem_of_lookup)%list_elem_of_fmap.
      apply lookup_take_Some in Lj as [Lj ?]. eapply (O j); [lia | exact Lj | done]. }
    assert (~ 0 < key_count (Key f) (drop (S i) a)) as ?.
    { rewrite key_count_pos. intros (g & E & (j & Lj)%list_elem_of_lookup)%list_elem_of_fmap.
      rewrite lookup_drop in Lj. eapply (O (S i + j)%nat); [lia | exact Lj | done]. }
    lia.
Qed.

(** ** The final form of a key *)

Definition cut (max : Z) (k : bytes) : bytes :=
  if (0 <? max) && (max <? zlen k) then ztake max k else k.

Definition undot (c : cfg) (k : bytes) : bytes :=
  if enableDotInKey c then k else ReplaceAll dot underscore k.

Definition tag_newkey (c : cfg) (k : bytes) : bytes := undot c (adjustKV (cut (maxTagKeyLen c) k)).

Definition field_newkey (c : cfg) (k : bytes) : bytes :=
  adjustKV (undot c (cut (maxFieldKeyLen c) k)).

(** The promise on a key without the tests that may drop the field. *)
Definition key_form (c : cfg) (max : Z) (k : bytes) : Prop :=
  (0 < max -> zlen k <= max) /\ Contains k newline = false /\
  HasSuffix k backslash = false /\ (enableDotInKey c = false -> Contains k dot = false).

Lemma cut_len max k : 0 < max -> zlen (cut max k) <= max.
Proof.
  intros H. unfold cut. destruct (_ && _) eqn:E; [by apply ztake_len|].
  bool_to_prop. destruct E as [E|E]; bool_to_prop; lia.
Qed.

Lemma undot_len c k : zlen (undot c k) = zlen k.
Proof. unfold undot. destruct (enableDotInKey c); [done | apply zlen_ReplaceAll]. Qed.

Lemma undot_dot c k : enableDotInKey c = false -> Contains (undot c k) dot = false.
Proof.
  intros E. unfold undot. rewrite E. apply Contains_false. intros I.
  by apply ReplaceAll_elem in I as [? _].
Qed.

Lemma undot_newline c k : Contains k newline = false -> Contains (undot c k) newline = false.
Proof.
  intros N. unfold undot. destruct (enableDotInKey c); [done|].
  rewrite Contains_false in *. intros I. by apply ReplaceAll_elem in I as [_ [?|?]].
Qed.

Lemma undot_suffix c k : HasSuffix (undot c k) backslash = HasSuffix k backslash.
Proof. unfold undot. destruct (enableDotInKey c); [done | by apply HasSuffix_ReplaceAll]. Qed.

Lemma tag_newkey_form c k : key_form c (maxTagKeyLen c) (tag_newkey c k).
Proof.
  unfold tag_newkey. split_and!.
  - intros H. rewrite undot_len.
    pose proof (adjustKV_len (cut (maxTagKeyLen c) k)). pose proof (cut_len _ k H). lia.
  - apply undot_newline, adjustKV_newline.
  - rewrite undot_suffix. apply adjustKV_suffix.
  - apply undot_dot.
Qed.

Lemma field_newkey_form c k : key_form c (maxFieldKeyLen c) (field_newkey c k).
Proof.
  unfold field_newkey. split_and!.
  - intros H. pose proof (adjustKV_len (undot c (cut (maxFieldKeyLen c) k))) as L.
    rewrite undot_len in L. pose proof (cut_len _ k H). lia.
  - apply adjustKV_newline.
  - apply adjustKV_suffix.
  - intros E. by apply adjustKV_no_dot, undot_dot.
Qed.

(** ** Running the parts of the checker *)

Lemma elem_run s i f : kvs s !! i = Some f -> elem i s = (Ok f, s).
Proof. intros H. unfold elem. by rewrite H. Qed.

Lemma moved_trans a i f k1 k2 :
  moved a i f k1 -> moved (<[i := set_Key k1 f]> a) i (set_Key k1 f) k2 -> moved a i f k2.
Proof.
  intros M [->|O]; [exact M|]. right. by rewrite only_at_insert in O.
Qed.

Lemma set_Key_id f : set_Key (Key f) f = f.
Proof. by destruct f. Qed.

Lemma alter_insert (g : Field -> Field) i (a : KVs) f :
  a !! i = Some f -> alter g i a = <[i := g f]> a.
Proof.
  revert i. induction a as [|x a IH]; intros [|i] L; [done..| |].
  - by injection L as ->.
  - cbn. f_equal. by apply IH.
Qed.

(** [m] rewrites the key of position [i], to [g] of it unless it drops the field. *)
Definition rewrites (m : CM bool) (i : nat) (g : bytes -> bytes) : Prop :=
  forall s f, kvs s !! i = Some f ->
  exists b k ws, m s = (Ok b, mkCSt (<[i := set_Key k f]> (kvs s)) (warns s ++ ws)) /\
    moved (kvs s) i f k /\ (b = true -> k = g (Key f)).

Lemma key_step_rewrites (cond : bytes -> bool) t fm args i (nk : bytes -> bytes) ex :
  rewrites (f <~ elem i;; key_step (cond (Key f)) t fm (args (Key f)) i (nk (Key f)) ex) i
           (fun k => if cond k then nk k else k).
Proof.
  intros s f L. rewrite (sbind_ok _ _ _ _ _ (elem_run _ _ _ L)). unfold key_step.
  assert (<[i := set_Key (Key f) f]> (kvs s) = kvs s) as Id.
  { rewrite set_Key_id. by apply list_insert_id. }
  destruct (cond (Key f)).
  - unfold rename, sbind, addWarn, smod, sget. cbn [kvs warns].
    destruct (Get (nk (Key f)) (kvs s)) eqn:G.
    + exists false, (Key f), [mkWarn t fm (args (Key f)); mkWarn WarnInvalidTagKey ex [MStr (nk (Key f))]].
      rewrite Id. cbn. rewrite <- app_assoc. split; [done|]. by split; [left|].
    + exists true, (nk (Key f)), [mkWarn t fm (args (Key f))]. unfold upd, smod. cbn [kvs warns].
      rewrite (alter_insert _ _ _ _ L). split; [done|]. split; [right; by apply Get_None_only|done].
  - exists true, (Key f), []. rewrite Id, app_nil_r. destruct s. by split; [|split; [left|]].
Qed.

Lemma rewrites_seq (m1 : Field -> CM bool) m2 i g1 g2 :
  rewrites (f <~ elem i;; m1 f) i g1 -> rewrites m2 i g2 ->
  rewrites (f <~ elem i;; ok <~ m1 f;; if negb ok then sret false else m2) i (fun k => g2 (g1 k)).
Proof.
  intros R1 R2 s f L. destruct (R1 s f L) as (b & k & ws & E & M & K).
  rewrite (sbind_ok _ _ _ _ _ (elem_run _ _ _ L)) in E.
  rewrite (sbind_ok _ _ _ _ _ (elem_run _ _ _ L)).
  rewrite (sbind_ok _ _ _ _ _ E). destruct b; cbn [negb].
  - destruct (R2 (mkCSt (<[i := set_Key k f]> (kvs s)) (warns s ++ ws)) (set_Key k f))
      as (b' & k' & ws' & E' & M' & K').
    { cbn. apply list_lookup_insert_eq. by eapply lookup_lt_Some. }
    exists b', k', (ws ++ ws'). rewrite E'. cbn [kvs warns].
    rewrite list_insert_insert_eq, app_assoc. split; [done|].
    split; [by eapply moved_trans|]. intros B. rewrite (K' B). cbn. by rewrite (K eq_refl).
  - exists false, k, ws. done.
Qed.

Lemma rewrites_ext m i g g' : (forall k, g k = g' k) -> rewrites m i g -> rewrites m i g'.
Proof. intros E R s f L. destruct (R s f L) as (b & k & ws & ? & ? & K). exists b, k, ws. by rewrite <- E. Qed.

Definition unadjusted (k : bytes) : bool := negb (bool_decide (adjustKV k = k)).

Lemma unadjusted_adjust k : (if unadjusted k then adjustKV k else k) = adjustKV k.
Proof. unfold unadjusted. destruct (bool_decide (adjustKV k = k)) eqn:B; [by bool_to_prop | done]. Qed.

Lemma tag_key_rewrites c i : rewrites (tag_key c i) i (tag_newkey c).
Proof.
  eapply rewrites_ext; [|unfold tag_key; eapply rewrites_seq;
    [apply (key_step_rewrites (fun k => (0 <? maxTagKeyLen c) && (maxTagKeyLen c <? zlen k)) _ _
              (fun k => [MInt (maxTagKeyLen c); MInt (zlen k)]) _ (ztake (maxTagKeyLen c)))|
     eapply rewrites_seq;
     [apply (key_step_rewrites unadjusted _ _
               (fun k => [MStr k]) _ adjustKV)
     |apply (key_step_rewrites (fun k => negb (enableDotInKey c) && Contains k dot) _ _
               (fun k => [MStr k]) _ (ReplaceAll dot underscore))]]].
  intros k. cbn beta. unfold tag_newkey, undot, cut.
  set (k1 := if (0 <? maxTagKeyLen c) && _ then _ else k).
  rewrite unadjusted_adjust.
  destruct (enableDotInKey c); [done|]. cbn [negb andb].
  destruct (Contains (adjustKV k1) dot) eqn:C; [done|]. apply Contains_false in C.
  by rewrite ReplaceAll_id.
Qed.

Lemma field_key_rewrites c i : rewrites (field_key c i) i (field_newkey c).
Proof.
  eapply rewrites_ext; [|unfold field_key; eapply rewrites_seq;
    [apply (key_step_rewrites (fun k => (0 <? maxFieldKeyLen c) && (maxFieldKeyLen c <? zlen k)) _ _
              (fun k => [MInt (maxFieldKeyLen c); MInt (zlen k)]) _ (ztake (maxFieldKeyLen c)))|
     eapply rewrites_seq;
     [apply (key_step_rewrites (fun k => Contains k dot && negb (enableDotInKey c)) _ _
               (fun k => [MStr k]) _ (ReplaceAll dot underscore))
     |apply (key_step_rewrites unadjusted _ _
               (fun k => [MStr k]) _ adjustKV)]]].
  intros k. cbn beta. unfold field_newkey, undot, cut.
  set (k1 := if (0 <? maxFieldKeyLen c) && _ then _ else k).
  assert ((if Contains k1 dot && negb (enableDotInKey c) then ReplaceAll dot underscore k1 else k1)
          = (if enableDotInKey c then k1 else ReplaceAll dot underscore k1)) as ->.
  { destruct (enableDotInKey c); [by rewrite andb_false_r|]. rewrite andb_true_r.
    destruct (Contains k1 dot) eqn:C; [done|]. apply Contains_false in C. by rewrite ReplaceAll_id. }
  apply unadjusted_adjust.
Qed.

Lemma keyDisabled_run c k s :
  exists b ws, keyDisabled c k s = (Ok b, mkCSt (kvs s) (warns s ++ ws)) /\
    (b = false -> k <> [] /\ k ∉ (key <$> disabledKeys c)).
Proof.
  unfold keyDisabled. destruct (bool_decide (k = [])) eqn:E1; bool_to_prop.
  { exists true. eexists. by split. }
  destruct (existsb _ _) eqn:E2.
  { exists true. eexists. by split. }
  exists false, []. rewrite app_nil_r. destruct s. split; [done|]. intros _. split; [done|].
  intros (item & -> & I)%list_elem_of_fmap. apply not_true_iff_false in E2. apply E2.
  apply existsb_exists. exists item. split; [by apply list_elem_of_In | by apply bool_decide_eq_true_2].
Qed.

Lemma keyConflict_run k skip s :
  exists b ws, keyConflict k skip s = (Ok b, mkCSt (kvs s) (warns s ++ ws)) /\
    (b = false -> skip = false -> key_count k (kvs s) <= 1).
Proof.
  unfold keyConflict. destruct skip.
  { exists false, []. rewrite app_nil_r. by destruct s. }
  unfold sbind, sget. destruct (1 <? key_count k (kvs s)) eqn:E; bool_to_prop.
  - exists true. eexists. by split.
  - exists false, []. rewrite app_nil_r. by destruct s.
Qed.

Lemma key_rejected_run c skip k s :
  exists b ws, key_rejected c skip k s = (Ok b, mkCSt (kvs s) (warns s ++ ws)) /\
    (b = false -> k <> [] /\ (k ∉ (key <$> disabledKeys c)) /\
                  (skip = false -> key_count k (kvs s) <= 1)).
Proof.
  unfold key_rejected. destruct (keyDisabled_run c k s) as ([] & ws & E & K);
    rewrite (sbind_ok _ _ _ _ _ E); [by exists true, ws|].
  destruct (keyConflict_run k skip (mkCSt (kvs s) (warns s ++ ws))) as (b & ws' & E' & K').
  exists b, (ws ++ ws'). rewrite E'. cbn [kvs warns] in *. rewrite app_assoc.
  split; [done|]. intros B. destruct (K eq_refl). auto.
Qed.

Lemma adjust_newline_same (str : bytes) :
  negb (bool_decide (str = [])) && negb (bool_decide (str = adjustKV str)) = false ->
  Contains str newline = false.
Proof.
  intros E. bool_to_prop. destruct E as [E|E]; bool_to_prop; [by subst|].
  rewrite E. apply adjustKV_newline.
Qed.

Lemma ztake_newline n x : Contains x newline = false -> Contains (ztake n x) newline = false.
Proof.
  rewrite !Contains_false, ztake_take. intros N I. apply N.
  rewrite <- (take_drop (Z.to_nat n) x). apply elem_of_app. by left.
Qed.

Definition set_KV (k : bytes) (v : option FieldVal) (f : Field) : Field := set_Val v (set_Key k f).

Lemma upd_run g i s f : kvs s !! i = Some f ->
  upd i g s = (Ok tt, mkCSt (<[i := g f]> (kvs s)) (warns s)).
Proof. intros L. unfold upd, smod. by rewrite (alter_insert _ _ _ _ L). Qed.

(** The last step of a value check: cut it when it is too long. *)
Lemma cut_run (max : Z) (str : bytes) t fm args i (mk : bytes -> FieldVal) s f :
  kvs s !! i = Some f -> Val f = Some (mk str) ->
  exists v ws,
    ((if (0 <? max) && (max <? zlen str) then
        addWarn t fm args;;; upd i (set_Val (Some (mk (ztake max str))))
      else sret tt);;; sret true) s
    = (Ok true, mkCSt (<[i := set_Val (Some (mk v)) f]> (kvs s)) (warns s ++ ws)) /\
    v = cut max str.
Proof.
  intros L V. unfold cut. destruct (_ && _) eqn:E.
  - exists (ztake max str). eexists. split; [|done]. unfold sbind at 1 2. unfold addWarn, smod at 1.
    rewrite (upd_run _ _ _ f) by done. done.
  - exists str, []. split; [|done]. rewrite app_nil_r. unfold sbind, sret.
    rewrite <- V. replace (set_Val (Val f) f) with f by (by destruct f).
    rewrite list_insert_id by done. by destruct s.
Qed.

Lemma cut_ok max x : 0 < max -> zlen (cut max x) <= max.
Proof. apply cut_len. Qed.

Lemma cut_newline max x : Contains x newline = false -> Contains (cut max x) newline = false.
Proof. intros N. unfold cut. destruct (_ && _); [by apply ztake_newline | done]. Qed.

Lemma check_tag_value_run c i s f str :
  kvs s !! i = Some f -> Val f = Some (Field_S str) ->
  exists v ws, check_tag_value c i s
    = (Ok true, mkCSt (<[i := set_Val v f]> (kvs s)) (warns s ++ ws)) /\ tag_value_ok c v.
Proof.
  intros L V. unfold check_tag_value. rewrite (sbind_ok _ _ _ _ _ (elem_run _ _ _ L)). rewrite V.
  destruct (negb _ && negb _) eqn:E.
  - set (s1 := mkCSt (<[i := set_Val (Some (Field_S (adjustKV str))) f]> (kvs s))
                     (warns s ++ [mkWarn WarnNROrTailEscape
                        "invalid tag value %q, found \n or tail \" [MStr str]])).
    erewrite (sbind_ok _ _ _ (adjustKV str) s1).
    2:{ unfold sbind, addWarn, smod. rewrite (upd_run _ _ _ f) by done. done. }
    destruct (cut_run (maxTagValLen c) (adjustKV str) WarnMaxTagValueLen
      "exceed max tag value length(%d), got %d, value truncated"
      [MInt (maxTagValLen c); MInt (zlen (adjustKV str))] i Field_S s1
      (set_Val (Some (Field_S (adjustKV str))) f)) as (v & ws & -> & Ev); [|done|].
    { apply list_lookup_insert_eq. by eapply lookup_lt_Some. }
    exists (Some (Field_S v)). eexists. subst s1. cbn [kvs warns].
    rewrite list_insert_insert_eq, <- app_assoc. split; [done|].
    exists v. split; [done|]. subst v. split; [apply cut_newline, adjustKV_newline | apply cut_ok].
  - rewrite (sbind_ok (sret str) _ s str s eq_refl).
    destruct (cut_run (maxTagValLen c) str WarnMaxTagValueLen
      "exceed max tag value length(%d), got %d, value truncated"
      [MInt (maxTagValLen c); MInt (zlen str)] i Field_S s f L V) as (v & ws & -> & Ev).
    exists (Some (Field_S v)), ws. split; [done|]. exists v. split; [done|]. subst v.
    split; [by apply cut_newline, adjust_newline_same | apply cut_ok].
Qed.

Lemma check_text_run c i k x mk s f :
  kvs s !! i = Some f -> Val f = Some (mk x) -> mk = Field_D \/ mk = Field_S ->
  exists b v ws, check_text c i k x mk s
    = (Ok b, mkCSt (<[i := set_Val v f]> (kvs s)) (warns s ++ ws)) /\ (b = true -> value_ok c v).
Proof.
  intros L V M. unfold check_text. destruct (enableStrField c) eqn:ES; cbn [negb].
  - destruct (cut_run (maxFieldValLen c) x WarnMaxFieldValueLen
      "field (%s) exceed max field value length(%d), got %d, value truncated"
      [MStr k; MInt (maxFieldValLen c); MInt (zlen x)] i mk s f L V) as (v & ws & -> & ->).
    exists true, (Some (mk (cut (maxFieldValLen c) x))), ws. split; [done|]. intros _.
    destruct M as [-> | ->]; (split; [done | apply cut_ok]).
  - exists false, (Val f). eexists. replace (set_Val (Val f) f) with f by (by destruct f).
    rewrite list_insert_id by done. by split.
Qed.

Lemma set_Val_id f : set_Val (Val f) f = f.
Proof. by destruct f. Qed.

(** Nothing changed: the array as an update with the field itself. *)
Lemma same_run s i f : kvs s !! i = Some f ->
  s = mkCSt (<[i := set_Val (Val f) f]> (kvs s)) (warns s ++ []).
Proof. intros L. rewrite set_Val_id, list_insert_id, app_nil_r by done. by destruct s. Qed.

Lemma set_val_run v i s f : kvs s !! i = Some f ->
  (upd i (set_Val v);;; sret true) s
  = (Ok true, mkCSt (<[i := set_Val v f]> (kvs s)) (warns s ++ [])).
Proof. intros L. rewrite (sbind_ok _ _ _ _ _ (upd_run _ _ _ _ L)). by rewrite app_nil_r. Qed.

Lemma warn_set_val_run t fm args v i s f : kvs s !! i = Some f ->
  (addWarn t fm args;;; upd i (set_Val v);;; sret true) s
  = (Ok true, mkCSt (<[i := set_Val v f]> (kvs s)) (warns s ++ [mkWarn t fm args])).
Proof.
  intros L. unfold sbind at 1. unfold addWarn, smod at 1.
  rewrite (set_val_run v i _ f) by done. cbn. by rewrite app_nil_r.
Qed.

Lemma check_field_value_run c i s f :
  kvs s !! i = Some f ->
  exists b v ws, check_field_value c i s
    = (Ok b, mkCSt (<[i := set_Val v f]> (kvs s)) (warns s ++ ws)) /\ (b = true -> value_ok c v).
Proof.
  intros L. unfold check_field_value. rewrite (sbind_ok _ _ _ _ _ (elem_run _ _ _ L)).
  assert (forall b, value_ok c (Val f) \/ b = false -> exists b' v ws, (sret b : CM bool) s
    = (Ok b', mkCSt (<[i := set_Val v f]> (kvs s)) (warns s ++ ws)) /\ (b' = true -> value_ok c v))
    as Same.
  { intros b B. exists b, (Val f), []. split; [unfold sret; by rewrite <- same_run|].
    intros ->. by destruct B. }
  destruct (Val f) as [[n|u|x|b|d|str|a]|] eqn:V.
  - apply Same. by left.
  - destruct (enableU64Field c) eqn:EU; cbn [negb]; [apply Same; by left|].
    destruct (MaxInt64 <? u).
    + exists false, (Val f). eexists. rewrite set_Val_id, list_insert_id by done. by split.
    + eexists _, _, _. split; [by apply set_val_run | done].
  - destruct x as [sg|[]| |sg m e]; try (apply Same; by left);
      (eexists _, _, _; split; [by apply warn_set_val_run | done]).
  - apply Same. by left.
  - apply (check_text_run c i (Key f) d Field_D s f L V). by left.
  - apply (check_text_run c i (Key f) str Field_S s f L V). by right.
  - apply Same. by left.
  - exists true, (Val f). eexists. rewrite set_Val_id, list_insert_id by done. rewrite V. by split.
Qed.

(** ** One field *)

(** What a client guarantees: a tag holds a string. *)
Definition tag_typed (f : Field) : Prop := IsTag f = true -> exists str, Val f = Some (Field_S str).

(** What the check of position [i] leaves there. *)
Definition checked (c : cfg) (skip : bool) (a : KVs) (i : nat) (f f' : Field) (b : bool) : Prop :=
  (exists k v, f' = set_KV k v f) /\ moved a i f (Key f') /\
  (b = true -> field_ok c f' /\ (skip = false -> only_at a i (Key f'))).

(** The common shape of [checkTag] and [checkField]. *)
Lemma check_shape c skip i (mk mv : CM bool) g (P : option FieldVal -> Prop) s f :
  rewrites mk i g -> kvs s !! i = Some f ->
  (forall s' k, kvs s' !! i = Some (set_Key k f) ->
     exists b v ws, mv s' = (Ok b, mkCSt (<[i := set_KV k v f]> (kvs s')) (warns s' ++ ws)) /\
       (b = true -> P v)) ->
  exists b k v ws,
    (ok <~ mk;; if negb ok then sret false else
     f <~ elem i;; bad <~ key_rejected c skip (Key f);;
     if bad : bool then sret false else mv) s
    = (Ok b, mkCSt (<[i := set_KV k v f]> (kvs s)) (warns s ++ ws)) /\
    moved (kvs s) i f k /\
    (b = true -> k = g (Key f) /\ P v /\ k <> [] /\ (k ∉ (key <$> disabledKeys c)) /\
                 (skip = false -> only_at (kvs s) i k)).
Proof.
  intros R L HV. destruct (R s f L) as (ok & k & ws & E & M & K).
  rewrite (sbind_ok _ _ _ _ _ E). set (s1 := mkCSt _ _).
  assert (forall s2, mkCSt (<[i := set_Key k f]> (kvs s)) s2
                   = mkCSt (<[i := set_KV k (Val f) f]> (kvs s)) s2) as Drop.
  { intros s2. by destruct f. }
  assert (kvs s1 !! i = Some (set_Key k f)) as L1.
  { apply list_lookup_insert_eq. by eapply lookup_lt_Some. }
  destruct ok; cbn [negb]; [|by exists false, k, (Val f), ws; subst s1; rewrite Drop].
  rewrite (sbind_ok _ _ _ _ _ (elem_run _ _ _ L1)).
  destruct (key_rejected_run c skip (Key (set_Key k f)) s1) as (bad & ws1 & E1 & K1).
  rewrite (sbind_ok _ _ _ _ _ E1). subst s1. cbn [kvs warns] in *. rewrite <- app_assoc in *.
  destruct bad; [by exists false, k, (Val f), (ws ++ ws1); rewrite Drop|].
  destruct (HV (mkCSt (<[i := set_Key k f]> (kvs s)) (warns s ++ ws ++ ws1)) k L1)
    as (b & v & ws2 & -> & Pv). cbn [kvs warns].
  exists b, k, v, ((ws ++ ws1) ++ ws2). rewrite list_insert_insert_eq, <- app_assoc.
  split; [done|]. split; [done|]. intros B. destruct (K1 eq_refl) as (N1 & N2 & N3).
  split_and!; auto. intros S. rewrite <- (only_at_insert _ _ _ (set_Key k f)).
  by apply (key_count_only _ _ (set_Key k f) L1), N3.
Qed.

Lemma checkKV_run c skip i s f :
  kvs s !! i = Some f -> tag_typed f ->
  exists b f' ws, checkKV c skip i s = (Ok b, mkCSt (<[i := f']> (kvs s)) (warns s ++ ws)) /\
    checked c skip (kvs s) i f f' b.
Proof.
  intros L T. unfold checkKV. rewrite (sbind_ok _ _ _ _ _ (elem_run _ _ _ L)).
  destruct (IsTag f) eqn:Tg.
  - destruct (T Tg) as (str & V).
    destruct (check_shape c skip i (tag_key c i) (check_tag_value c i) (tag_newkey c)
                (tag_value_ok c) s f (tag_key_rewrites c i) L) as (b & k & v & ws & E & M & B).
    { intros s' k L'. destruct (check_tag_value_run c i s' _ str L' V) as (v & ws & E & P).
      by exists true, v, ws. }
    exists b, (set_KV k v f), ws. split; [exact E|]. split; [by exists k, v|]. split; [done|].
    intros Bt. destruct (B Bt) as (-> & P & N1 & N2 & O). split; [|done].
    unfold field_ok. cbn. rewrite Tg. split; [|done].
    destruct (tag_newkey_form c (Key f)) as (? & ? & ? & ?). by split.
  - destruct (check_shape c skip i (field_key c i) (check_field_value c i) (field_newkey c)
                (value_ok c) s f (field_key_rewrites c i) L) as (b & k & v & ws & E & M & B).
    { intros s' k L'. apply (check_field_value_run c i s' _ L'). }
    exists b, (set_KV k v f), ws. split; [exact E|]. split; [by exists k, v|]. split; [done|].
    intros Bt. destruct (B Bt) as (-> & P & N1 & N2 & O). split; [|done].
    unfold field_ok. cbn. rewrite Tg. split; [|done].
    destruct (field_newkey_form c (Key f)) as (? & ? & ? & ?). by split.
Qed.
