(* ===== verification/PointCheckThms.v ===== *)
(** * The checker on a whole point ([src/point/check.go], [new_point.go]) *)

From S2P Require Import Prelude PointKV PointCheck PointNew PointKVThms PointCheckSpec.

(** ** The loop over the fields *)

(** Keys at or after position [i] occur nowhere else. *)
Definition sep (a : KVs) (i : nat) : Prop :=
  forall j l g h, (j < l)%nat -> (i <= l)%nat -> a !! j = Some g -> a !! l = Some h -> Key g <> Key h.

Lemma sep_only a i f k : sep a i -> a !! i = Some f -> moved a i f k -> only_at a i k.
Proof.
  intros Sp L [->|O]; [|done]. intros j g N Lj E.
  destruct (decide (j < i)%nat).
  - apply (Sp j i g f); auto.
  - apply (Sp i j f g); auto; lia.
Qed.

Lemma sep_NoDup a : NoDup (keys a) -> sep a 0.
Proof.
  intros N j l g h Hjl _ Lj Ll E. assert (j = l); [|lia].
  eapply (proj1 (NoDup_alt (keys a)) N); rewrite list_lookup_fmap;
    [by rewrite Lj | by rewrite Ll; cbn; rewrite E].
Qed.

(** Compaction: after position [i] was rewritten to [f'], and copied to [idx] when kept. *)
Definition compact (a : KVs) (i idx : nat) (f' : Field) (b : bool) : KVs :=
  if b then <[idx := f']> (<[i := f']> a) else <[i := f']> a.

Lemma compact_length a i idx f' b : length (compact a i idx f' b) = length a.
Proof. unfold compact. destruct b; by rewrite !length_insert. Qed.

Lemma compact_lookup_gt a i idx f' b l :
  (idx <= i)%nat -> (i < l)%nat -> compact a i idx f' b !! l = a !! l.
Proof. intros. unfold compact. destruct b; by rewrite ?list_lookup_insert_ne by lia. Qed.

Lemma compact_lookup a i idx f' b j g :
  compact a i idx f' b !! j = Some g -> g = f' \/ (a !! j = Some g /\ j <> i).
Proof.
  unfold compact.
  assert (forall (x : KVs) n, <[n := f']> x !! j = Some g -> g = f' \/ (x !! j = Some g /\ j <> n)) as G.
  { intros x n H. apply list_lookup_insert_Some in H as [(? & ? & ?)|[? ?]]; auto. }
  destruct b; intros H.
  - apply G in H as [->|[H ?]]; [by left|]. by apply G in H.
  - by apply G in H.
Qed.

Lemma compact_drop a i idx f' b :
  (idx <= i)%nat -> drop (S i) (compact a i idx f' b) = drop (S i) a.
Proof.
  intros H. apply list_eq. intros l. rewrite !lookup_drop. apply compact_lookup_gt; lia.
Qed.

Lemma compact_take_kept a i idx f' :
  (idx <= i)%nat -> (i < length a)%nat ->
  take (S idx) (compact a i idx f' true) = take idx a ++ [f'].
Proof.
  intros H L. unfold compact.
  erewrite take_S_r; [|apply list_lookup_insert_eq; rewrite length_insert; lia].
  by rewrite !take_insert_ge by lia.
Qed.

Lemma compact_take_dropped a i idx f' :
  (idx <= i)%nat -> take idx (compact a i idx f' false) = take idx a.
Proof. intros H. unfold compact. by rewrite take_insert_ge. Qed.

Lemma compact_sep a i idx f f' b :
  (idx <= i)%nat -> a !! i = Some f -> moved a i f (Key f') -> sep a i ->
  sep (compact a i idx f' b) (S i).
Proof.
  intros Hi L M Sp j l g h Hjl Hl Lj Ll. rewrite compact_lookup_gt in Ll by lia.
  apply compact_lookup in Lj as [->|[Lj _]].
  - pose proof (sep_only a i f _ Sp L M) as O. intros E. eapply (O l); [lia|exact Ll|done].
  - eapply (Sp j l); [done | lia | done | done].
Qed.

Lemma TagCount_app x y : TagCount (x ++ y) = TagCount x + TagCount y.
Proof. induction x as [|f x IH]; cbn; [lia|]. rewrite IH. lia. Qed.

Lemma FieldCount_app x y : FieldCount (x ++ y) = FieldCount x + FieldCount y.
Proof. induction x as [|f x IH]; cbn; [lia|]. rewrite IH. lia. Qed.

(** What the loop has established at positions [i], [idx]. *)
Record loop_inv (c : cfg) (skip : bool) (T F : Z) (a : KVs) (i idx : nat) : Prop := {
  li_idx : (idx <= i)%nat;
  li_ok : Forall (field_ok c) (take idx a);
  li_uniq : NoDup (keys (take idx a));
  li_sep : skip = true -> sep a i;
  li_typed : Forall tag_typed (drop i a);
  li_tags : TagCount (take idx a) + TagCount (drop i a) <= T;
  li_fields : FieldCount (take idx a) + FieldCount (drop i a) <= F;
}.

Lemma loop_inv_step c skip T F a i idx f f' b :
  loop_inv c skip T F a i idx -> a !! i = Some f -> checked c skip a i f f' b ->
  loop_inv c skip T F (compact a i idx f' b) (S i) (if b then S idx else idx).
Proof.
  intros [Hi Ok U Sp Ty Tg Fl] L ((k & v & Ef) & M & B).
  pose proof (lookup_lt_Some _ _ _ L) as Li.
  assert (IsTag f' = IsTag f) as ET by (by subst).
  rewrite (drop_S a f i L) in Ty, Tg, Fl. apply list.Forall_cons in Ty as [_ Ty].
  cbn [TagCount FieldCount] in Tg, Fl.
  split; rewrite ?compact_drop by done; try done.
  - destruct b; lia.
  - destruct b; [|by rewrite compact_take_dropped].
    rewrite compact_take_kept by done. apply Forall_app. split; [done|].
    constructor; [by apply B | done].
  - destruct b; [|by rewrite compact_take_dropped].
    rewrite compact_take_kept by done. rewrite fmap_app. apply list.NoDup_app.
    split; [done|]. split; [|apply list.NoDup_singleton].
    intros q Hq ->%list_elem_of_singleton.
    assert (only_at a i (Key f')) as O.
    { destruct skip; [|by apply B]. by eapply sep_only; [apply Sp| |]. }
    apply list_elem_of_fmap in Hq as (g & E & (j & Lj)%list_elem_of_lookup).
    apply lookup_take_Some in Lj as [Lj Hj]. eapply (O j); [lia | exact Lj | done].
  - intros ->. by eapply compact_sep; [|exact L| |apply Sp].
  - destruct b; [rewrite compact_take_kept by done | rewrite compact_take_dropped by done].
    + rewrite TagCount_app. cbn. rewrite ET. lia.
    + destruct (IsTag f); lia.
  - destruct b; [rewrite compact_take_kept by done | rewrite compact_take_dropped by done].
    + rewrite FieldCount_app. cbn. rewrite ET. lia.
    + destruct (IsTag f); cbn in *; lia.
Qed.

Lemma check_loop_step c skip m i idx s f :
  kvs s !! i = Some f -> tag_typed f -> (idx <= i)%nat ->
  exists b f' ws, checked c skip (kvs s) i f f' b /\
    check_loop c skip (S m) i idx s
    = check_loop c skip m (S i) (if b then S idx else idx)
        (mkCSt (compact (kvs s) i idx f' b) (warns s ++ ws)).
Proof.
  intros L T Hi. destruct (checkKV_run c skip i s f L T) as (b & f' & ws & E & C).
  exists b, f', ws. split; [done|]. cbn [check_loop]. rewrite (sbind_ok _ _ _ _ _ E).
  destruct b; [|done]. erewrite sbind_ok; [|apply elem_run; cbn [kvs]; apply list_lookup_insert_eq;
                                           by eapply lookup_lt_Some].
  done.
Qed.

Lemma check_loop_run c skip T F m i idx s :
  loop_inv c skip T F (kvs s) i idx -> (i + m = length (kvs s))%nat ->
  exists idx' s', check_loop c skip m i idx s = (Ok idx', s') /\
    loop_inv c skip T F (kvs s') (length (kvs s')) idx'.
Proof.
  revert i idx s. induction m as [|m IH]; intros i idx s I H.
  - exists idx, s. split; [done|]. by replace (length (kvs s)) with i by lia.
  - destruct (lookup_lt_is_Some_2 (kvs s) i) as [f L]; [lia|].
    pose proof I as [Hi _ _ _ Ty _ _]. rewrite (drop_S _ f i L) in Ty.
    apply list.Forall_cons in Ty as [Tf _].
    destruct (check_loop_step c skip m i idx s f L Tf Hi) as (b & f' & ws & C & ->).
    apply IH; cbn [kvs]; [by eapply loop_inv_step | rewrite compact_length; lia].
Qed.

(** ** [check_each] *)

Lemma check_each_run c skip s :
  Forall tag_typed (kvs s) -> (skip = true -> NoDup (keys (kvs s))) ->
  exists s', check_each c skip s = (Ok tt, s') /\
    Forall (field_ok c) (kvs s') /\ NoDup (keys (kvs s')) /\
    TagCount (kvs s') <= TagCount (kvs s) /\ FieldCount (kvs s') <= FieldCount (kvs s).
Proof.
  intros Ty N. unfold check_each.
  destruct (check_loop_run c skip (TagCount (kvs s)) (FieldCount (kvs s)) (length (kvs s)) 0 0 s)
    as (idx & s' & E & [_ Ok U _ _ Tg Fl]); [|done|].
  { split; cbn [take]; rewrite ?drop_0; try done; try lia; [constructor|].
    intros S. by apply sep_NoDup, N. }
  unfold sbind at 1. cbn [sget]. rewrite (sbind_ok _ _ _ _ _ E). eexists. split; [done|].
  cbn [kvs]. rewrite drop_all in Tg, Fl. cbn in Tg, Fl. split; [done|]. split; [done|]. lia.
Qed.

(** ** Limits on the number of tags and fields *)

Lemma TagCount_nonneg x : 0 <= TagCount x.
Proof. induction x as [|f x IH]; cbn; [lia|]. destruct (IsTag f); lia. Qed.

Lemma FieldCount_nonneg x : 0 <= FieldCount x.
Proof. induction x as [|f x IH]; cbn; [lia|]. destruct (IsTag f); cbn; lia. Qed.

Lemma counts_len x : TagCount x + FieldCount x = zlen x.
Proof. induction x as [|f x IH]; cbn; [done|]. rewrite zlen_cons. destruct (IsTag f); cbn; lia. Qed.

Lemma trimFields_loop_counts n cnt x : cnt <= n ->
  FieldCount (trimFields_loop n cnt x) <= n - cnt /\
  TagCount (trimFields_loop n cnt x) = TagCount x /\
  trimFields_loop n cnt x ⊆ x.
Proof.
  revert cnt. induction x as [|f x IH]; intros cnt H; cbn; [split_and!; [lia | done | done]|].
  destruct (IsTag f) eqn:T; cbn.
  - destruct (IH cnt H) as (? & ? & ?). rewrite T. cbn. split_and!; [lia | lia | set_solver].
  - destruct (cnt <? n) eqn:C; bool_to_prop; cbn; rewrite ?T; cbn.
    + destruct (IH (cnt + 1)) as (? & ? & ?); [lia|]. split_and!; [lia | lia | set_solver].
    + destruct (IH cnt H) as (? & ? & ?). split_and!; [lia | lia | set_solver].
Qed.

Lemma trimTags_loop_counts n cnt x : cnt <= n ->
  TagCount (trimTags_loop n cnt x) <= n - cnt /\
  FieldCount (trimTags_loop n cnt x) = FieldCount x /\
  trimTags_loop n cnt x ⊆ x.
Proof.
  revert cnt. induction x as [|f x IH]; intros cnt H; cbn; [split_and!; [lia | done | done]|].
  destruct (IsTag f) eqn:T; cbn.
  - destruct (cnt <? n) eqn:C; bool_to_prop; cbn; rewrite ?T; cbn.
    + destruct (IH (cnt + 1)) as (? & ? & ?); [lia|]. split_and!; [lia | lia | set_solver].
    + destruct (IH cnt H) as (? & ? & ?). split_and!; [lia | lia | set_solver].
  - destruct (IH cnt H) as (? & ? & ?). rewrite T. cbn. split_and!; [lia | lia | set_solver].
Qed.

Lemma TrimFields_counts n x : 0 <= n -> n < FieldCount x ->
  FieldCount (TrimFields n x) <= n /\ TagCount (TrimFields n x) = TagCount x /\ TrimFields n x ⊆ x.
Proof.
  intros H L. unfold TrimFields. pose proof (counts_len x). pose proof (TagCount_nonneg x). ztest.
  destruct (trimFields_loop_counts n 0 x H) as (? & ? & ?). split_and!; [lia | lia | done].
Qed.

Lemma Forall_subseteq (P : Field -> Prop) (x y : KVs) : x ⊆ y -> Forall P y -> Forall P x.
Proof. rewrite !list.Forall_forall. intros S F a I. by apply F, S. Qed.

Lemma trim_kvs_run c s : Forall tag_typed (kvs s) ->
  exists s', trim_kvs c s = (Ok tt, s') /\ Forall tag_typed (kvs s') /\
    (0 < maxTags c -> TagCount (kvs s') <= maxTags c) /\
    (0 < maxFields c -> FieldCount (kvs s') <= maxFields c).
Proof.
  intros Ty. unfold trim_kvs. unfold sbind at 1. cbn [sget].
  set (m1 := if (0 <? maxFields c) && _ then _ else _).
  assert (exists s1, m1 s = (Ok tt, s1) /\ Forall tag_typed (kvs s1) /\
    TagCount (kvs s1) = TagCount (kvs s) /\
    (0 < maxFields c -> FieldCount (kvs s1) <= maxFields c)) as (s1 & E1 & Ty1 & T1 & F1).
  { subst m1. destruct ((0 <? maxFields c) && (maxFields c <? FieldCount (kvs s))) eqn:E; bool_to_prop.
    - eexists. split; [done|]. cbn.
      destruct (TrimFields_counts (maxFields c) (kvs s)) as (? & ? & ?); [lia..|].
      split_and!; [by eapply Forall_subseteq | done | done].
    - exists s. split_and!; [done..|]. intros. destruct E; bool_to_prop; lia. }
  rewrite (sbind_ok _ _ _ _ _ E1).
  destruct ((0 <? maxTags c) && (maxTags c <? TagCount (kvs s))) eqn:E; bool_to_prop.
  - eexists. split; [done|]. cbn [kvs]. unfold TrimTags.
    destruct (trimTags_loop_counts (maxTags c) 0 (kvs s1)) as (? & F2 & ?); [lia|].
    split_and!; [by eapply Forall_subseteq | lia | by rewrite F2].
  - exists s1. split_and!; [done..| |done]. intros. destruct E; bool_to_prop; lia.
Qed.

(** ** Required keys *)

Section Check.
Context `{ArrayEnc}.

Definition required_field (c : cfg) (g : Field) : Prop :=
  exists rk, rk ∈ requiredKeys c /\ def rk <> GoNil /\ g = NewKV (key rk) (def rk) [].

Lemma SetKV_absent kv x : Key kv ∉ keys x -> SetKV kv x = x ++ [kv].
Proof.
  induction x as [|f x IH]; cbn; [done|]. rewrite not_elem_of_cons. intros [N1 N2].
  rewrite decide_False by congruence. by rewrite IH.
Qed.

Lemma NoDup_keys_snoc (x : KVs) g : NoDup (keys x) -> Key g ∉ keys x -> NoDup (keys (x ++ [g])).
Proof.
  intros N I. rewrite fmap_app. apply list.NoDup_app. split; [done|].
  split; [|apply list.NoDup_singleton]. by intros q Hq ->%list_elem_of_singleton.
Qed.

Lemma keyMiss_loop_run c req s :
  req ⊆ requiredKeys c -> NoDup (keys (kvs s)) ->
  exists s' added, keyMiss_loop req s = (Ok tt, s') /\ kvs s' = kvs s ++ added /\
    NoDup (keys (kvs s')) /\ Forall (required_field c) added /\
    (forall rk, rk ∈ req -> def rk <> GoNil -> key rk ∈ keys (kvs s')).
Proof.
  revert s. induction req as [|rk req IH]; intros s Sub N.
  { exists s, []. rewrite app_nil_r. split_and!; [done..|constructor|]. by intros ? ?%elem_of_nil. }
  cbn [keyMiss_loop]. unfold sbind at 1. cbn [sget].
  set (m := if Has _ _ then _ else _).
  assert (exists s1 ad, m s = (Ok tt, s1) /\ kvs s1 = kvs s ++ ad /\ NoDup (keys (kvs s1)) /\
    Forall (required_field c) ad /\ (def rk <> GoNil -> key rk ∈ keys (kvs s1)))
    as (s1 & ad & E1 & K1 & N1 & R1 & P1).
  { subst m. destruct (Has (key rk) (kvs s)) eqn:Hs.
    - exists s, []. rewrite app_nil_r. split_and!; [done..|constructor|].
      intros _. destruct (decide (key rk ∈ keys (kvs s))) as [|NI]; [done|].
      apply Has_false in NI. congruence.
    - apply Has_false in Hs.
      assert (def rk = GoNil \/ def rk <> GoNil) as [D|D] by (destruct (def rk); auto).
      + rewrite D. exists s, []. rewrite app_nil_r. by split_and!; [..|constructor|].
      + set (g := NewKV (key rk) (def rk) []).
        exists (mkCSt (kvs s ++ [g]) (warns s ++ [mkWarn WarnAddRequiredKV
                 "add required key-value %q: %q" [MStr (key rk); MAny (def rk)]])), [g].
        cbn [kvs]. split_and!; [|done| | |].
        * unfold sbind, smod, addWarn. destruct (def rk); [done|..];
            (cbn [kvs warns]; by rewrite (SetKV_absent g) by done).
        * by apply NoDup_keys_snoc.
        * constructor; [|constructor]. exists rk. split_and!; [|done|done]. apply Sub. left.
        * intros _. rewrite fmap_app. apply elem_of_app. right. left. }
  rewrite (sbind_ok _ _ _ _ _ E1).
  destruct (IH s1) as (s2 & ad2 & E2 & K2 & N2 & R2 & P2); [set_solver|done|].
  exists s2, (ad ++ ad2). split_and!; [done| |done| |].
  - by rewrite K2, K1, app_assoc.
  - by apply Forall_app.
  - intros r [->|I]%elem_of_cons D; [|by apply P2]. rewrite K2, fmap_app. apply elem_of_app. left. auto.
Qed.

(** ** The whole check *)

Lemma uniq_loop_spec seen x :
  uniq_loop seen x = true <-> NoDup (keys x) /\ (forall k, k ∈ keys x -> k ∉ seen).
Proof.
  revert seen. induction x as [|f x IH]; intros seen; cbn.
  { split; [|done]. intros _. split; [constructor | by intros ? ?%elem_of_nil]. }
  rewrite list.NoDup_cons. case_decide as D.
  - split; [done|]. intros [_ A]. by destruct (A (Key f)); [left|].
  - rewrite IH. split.
    + intros [N A]. split_and!; [intros I; eapply A; [exact I | set_solver] | done |].
      intros k [->|I]%elem_of_cons; [done|]. specialize (A k I). set_solver.
    + intros [[NI N] A]. split; [done|]. intros k I.
      assert (k <> Key f) by (by intros ->). specialize (A k ltac:(by right)). set_solver.
Qed.

(** The loop over the pool capacities ends within its fuel and its index is one of
    the eight pools. *)
Lemma getKeyConflictMap_total size :
  exists m, getKeyConflictMap size = Some m /\ forall i, m = PooledMap i -> 0 <= i < 8.
Proof.
  unfold getKeyConflictMap. destruct (size <? KEY_CONFLICT_MAP_THRESHOLD) eqn:E1; [by exists NoMap|].
  destruct (KEY_CONFLICT_MAP_MAX_RETAINED_KEYS <? size) eqn:E2; [by exists BigMap|].
  unfold KEY_CONFLICT_MAP_THRESHOLD, KEY_CONFLICT_MAP_MAX_RETAINED_KEYS in *. bool_to_prop.
  cbn [pool_index Z.mul Z.add Pos.mul Pos.add Pos.succ].
  repeat match goal with
    | |- context [if ?c <? size then _ else _] =>
        destruct (c <? size) eqn:?; bool_to_prop;
        [try lia | eexists; split; [done|]; intros ? [= <-]; lia]
    end.
Qed.

Lemma canSkip_NoDup x : canSkipKeyConflicts x = true -> NoDup (keys x).
Proof.
  unfold canSkipKeyConflicts. destruct (getKeyConflictMap (zlen x)) as [[]|]; [done| | |done];
    intros U; by apply uniq_loop_spec in U as [? _].
Qed.

Lemma checkMeasurement_run c m s :
  exists n ws, checkMeasurement c m s = (Ok n, mkCSt (kvs s) (warns s ++ ws)) /\ n <> [] /\
    (0 < maxMeasurementLen c -> zlen n <= maxMeasurementLen c).
Proof.
  unfold checkMeasurement. set (m1 := if zlen m =? 0 then _ else _).
  assert (exists m' ws, m1 s = (Ok m', mkCSt (kvs s) (warns s ++ ws)) /\ m' <> [])
    as (m' & ws & E & N).
  { subst m1. destruct (zlen m =? 0) eqn:Z; bool_to_prop.
    - eexists _, _. by split.
    - exists m, []. rewrite app_nil_r. destruct s. split; [done|]. by intros ->. }
  rewrite (sbind_ok _ _ _ _ _ E).
  destruct (_ && _) eqn:B; bool_to_prop.
  - eexists _, (ws ++ [_]). split; [unfold sbind, addWarn, smod; cbn; by rewrite <- app_assoc|].
    split; [|intros; by apply ztake_len].
    rewrite ztake_take. destruct m'; [done|]. by replace (Z.to_nat _) with (S (Z.to_nat (maxMeasurementLen c) - 1)) by lia.
  - exists m', ws. split_and!; [done..|]. intros. destruct B; bool_to_prop; lia.
Qed.

(** What a checked point satisfies. *)
Record point_ok (c : cfg) (p : Point) (kept added : KVs) : Prop := {
  po_split : PFields p = kept ++ added;
  po_name : Name p <> [];
  po_name_len : 0 < maxMeasurementLen c -> zlen (Name p) <= maxMeasurementLen c;
  po_fields : Forall (field_ok c) kept;
  po_tags_max : 0 < maxTags c -> TagCount kept <= maxTags c;
  po_fields_max : 0 < maxFields c -> FieldCount kept <= maxFields c;
  po_uniq : NoDup (keys (PFields p));
  po_added : Forall (required_field c) added;
  po_required : forall rk, rk ∈ requiredKeys c -> def rk <> GoNil -> key rk ∈ keys (PFields p);
}.

Lemma check_run c p :
  Forall tag_typed (PFields p) ->
  exists p' ws kept added, check c p = Ok (p', ws) /\ point_ok c p' kept added /\
    flags p' = flags p /\ Time p' = Time p /\ Debugs p' = Debugs p /\ Warns p' = Warns p ++ ws.
Proof.
  intros Ty. unfold check.
  destruct (checkMeasurement_run c (Name p) (mkCSt (PFields p) [])) as (n & ws0 & E0 & N0 & L0).
  rewrite (sbind_ok _ _ _ _ _ E0). cbn [kvs warns app] in *. unfold checkKVs.
  destruct (trim_kvs_run c (mkCSt (PFields p) ws0) Ty) as (s1 & E1 & Ty1 & T1 & F1).
  destruct (check_each_run c (canSkipKeyConflicts (kvs s1)) s1 Ty1 (canSkip_NoDup _))
    as (s2 & E2 & Ok2 & U2 & T2 & F2).
  destruct (keyMiss_loop_run c (requiredKeys c) s2) as (s3 & added & E3 & K3 & U3 & R3 & P3); [done..|].
  assert ((trim_kvs c;;; s <~ sget;; check_each c (canSkipKeyConflicts (kvs s));;; keyMiss c)
            (mkCSt (PFields p) ws0) = (Ok tt, s3)) as E.
  { rewrite (sbind_ok _ _ _ _ _ E1). unfold sbind at 1. cbn [sget].
    by rewrite (sbind_ok _ _ _ _ _ E2). }
  rewrite (sbind_ok _ _ _ _ _ E). cbn [sret].
  eexists _, _, (kvs s2), added. split; [done|]. split; [|done].
  split; cbn [PFields Name]; try done; lia.
Qed.

(** C7: what [check] promises. For any configuration and any point whose tags hold
    strings, the check terminates without a panic, leaves flags, time and debug infos
    alone, appends its warnings, and: the measurement is not empty and within its limit;
    the fields are kept ones, each with a legal key (not empty, not disabled, within its
    limit, no line feed, no trailing backslash, no dot when dots are disabled) and a legal
    value, at most [maxTags] tags and [maxFields] fields of them, and after them the
    default values of required keys that were missing, which are added as they are: they
    are not checked, and do not count for the limits. No key occurs twice, and every
    required key with a default is present. *)
Theorem check_promises (c : cfg) (p : Point) :
  Forall tag_typed (PFields p) ->
  exists p' ws kept added, check c p = Ok (p', ws) /\ point_ok c p' kept added /\
    flags p' = flags p /\ Time p' = Time p /\ Debugs p' = Debugs p /\ Warns p' = Warns p ++ ws.
Proof. apply check_run. Qed.

End Check.
