(* ===== verification/PointFindings.v ===== *)
(** * Fast paths, untouched points and corner cases of the checker ([src/point/check.go])

    The fast path that skips the conflict scans is equivalent to the scans; a point
    that already satisfies the limits is left alone.  The other theorems fix the
    behaviour of corner cases. *)

From S2P Require Import Prelude GoSlice PointKV PointCheck PointNew PointKVThms PointCheckSpec PointCheckThms.

Definition int_field (k : string) (n : Z) : Field :=
  mkField (to_bytes k) (Some (Field_I n)) false 0 [] [].
Definition str_tag (k v : string) : Field :=
  mkField (to_bytes k) (Some (Field_S (to_bytes v))) true 0 [] [].
Definition point_of (name : string) (x : KVs) : Point := mkPoint 0 (to_bytes name) x 0 [] [].

(** ** The fast path *)

Lemma keyConflict_skip k a i f ws :
  a !! i = Some f -> k = Key f -> only_at a i k ->
  keyConflict k true (mkCSt a ws) = keyConflict k false (mkCSt a ws).
Proof.
  intros L -> O. apply (key_count_only a i f L) in O.
  unfold keyConflict, sbind, sget. cbn [kvs]. by ztest.
Qed.

Lemma check_shape_skip c i (mk mv : CM bool) g s f :
  rewrites mk i g -> kvs s !! i = Some f -> sep (kvs s) i ->
  let m skip :=
    (ok <~ mk;; if negb ok then sret false else
     f <~ elem i;; bad <~ key_rejected c skip (Key f);;
     if bad : bool then sret false else mv) in
  m true s = m false s.
Proof.
  intros R L Sp. cbn zeta. destruct (R s f L) as (ok & k & ws & E & M & _).
  rewrite !(sbind_ok _ _ _ _ _ E). destruct ok; cbn [negb]; [|done].
  set (s1 := mkCSt _ _).
  assert (kvs s1 !! i = Some (set_Key k f)) as L1.
  { apply list_lookup_insert_eq. by eapply lookup_lt_Some. }
  rewrite !(sbind_ok _ _ _ _ _ (elem_run _ _ _ L1)).
  assert (key_rejected c true (Key (set_Key k f)) s1 = key_rejected c false (Key (set_Key k f)) s1)
    as EK; [|unfold sbind; by rewrite EK].
  unfold key_rejected. destruct (keyDisabled_run c (Key (set_Key k f)) s1) as (b & ws' & E' & _).
  rewrite !(sbind_ok _ _ _ _ _ E'). destruct b; [done|].
  apply (keyConflict_skip _ _ i (set_Key k f)); [done..|].
  apply only_at_insert. by eapply sep_only.
Qed.

Lemma checkKV_skip c i s f :
  kvs s !! i = Some f -> sep (kvs s) i -> checkKV c true i s = checkKV c false i s.
Proof.
  intros L Sp. unfold checkKV. rewrite !(sbind_ok _ _ _ _ _ (elem_run _ _ _ L)).
  destruct (IsTag f).
  - by apply (check_shape_skip c i (tag_key c i) _ _ s f (tag_key_rewrites c i)).
  - by apply (check_shape_skip c i (field_key c i) _ _ s f (field_key_rewrites c i)).
Qed.

Lemma check_loop_skip c m i idx s :
  Forall tag_typed (drop i (kvs s)) -> sep (kvs s) i -> (idx <= i)%nat ->
  (i + m = length (kvs s))%nat ->
  check_loop c true m i idx s = check_loop c false m i idx s.
Proof.
  revert i idx s. induction m as [|m IH]; intros i idx s Ty Sp Hi H; [done|].
  destruct (lookup_lt_is_Some_2 (kvs s) i) as [f L]; [lia|].
  rewrite (drop_S _ f i L) in Ty. apply list.Forall_cons in Ty as [Tf Ty].
  destruct (checkKV_run c true i s f L Tf) as (b & f' & ws & E & ((k & v & Ef) & M & _)).
  pose proof E as E'. rewrite (checkKV_skip c i s f L Sp) in E'.
  cbn [check_loop]. rewrite (sbind_ok _ _ _ _ _ E), (sbind_ok _ _ _ _ _ E').
  assert (forall (b' : bool) ws', check_loop c true m (S i) (if b' then S idx else idx)
            (mkCSt (compact (kvs s) i idx f' b') ws')
          = check_loop c false m (S i) (if b' then S idx else idx)
            (mkCSt (compact (kvs s) i idx f' b') ws')) as Next.
  { intros b' ws'. apply IH; cbn [kvs].
    - by rewrite compact_drop.
    - by eapply compact_sep.
    - destruct b'; lia.
    - rewrite compact_length. lia. }
  destruct b; [|apply (Next false)].
  assert (kvs (mkCSt (<[i := f']> (kvs s)) (warns s ++ ws)) !! i = Some f') as L'.
  { apply list_lookup_insert_eq. by eapply lookup_lt_Some. }
  rewrite !(sbind_ok _ _ _ _ _ (elem_run _ _ _ L')). apply (Next true).
Qed.

(** The fast path is equivalent to the scans.  When no key occurs twice,
    checking with the conflict scans skipped gives the same fields and the same
    warnings as checking with them. *)
Theorem skip_is_legacy (c : cfg) (s : CSt) :
  Forall tag_typed (kvs s) -> NoDup (keys (kvs s)) ->
  check_each c true s = check_each c false s.
Proof.
  intros Ty N. unfold check_each, sbind, sget.
  rewrite check_loop_skip; [done| |by apply sep_NoDup|lia|lia]. by rewrite drop_0.
Qed.

Lemma skip_is_legacy_witness :
  check_each newCfg true (mkCSt [int_field "a" 1; str_tag "b\" "x"] [])
  = check_each newCfg false (mkCSt [int_field "a" 1; str_tag "b\" "x"] []).
Proof.
  apply skip_is_legacy; cbn [kvs].
  - repeat constructor; [done|]. intros _. by eexists.
  - refine (proj1 (bool_decide_eq_true _) _). by vm_compute.
Defined.

(** ** Points that need no change *)

Record clean_field (c : cfg) (f : Field) : Prop := {
  cf_ok : field_ok c f;
  cf_tag : IsTag f = true -> forall s, Val f = Some (Field_S s) -> HasSuffix s backslash = false;
  cf_val : Val f <> None;
}.

Lemma cut_test max (x : bytes) : (0 < max -> zlen x <= max) -> (0 <? max) && (max <? zlen x) = false.
Proof. intros H. destruct (0 <? max) eqn:E; [|done]. bool_to_prop. cbn. ztest. done. Qed.

Lemma adjusted_test c max k : key_ok c max k -> negb (bool_decide (adjustKV k = k)) = false.
Proof. intros [? ? ? N S ?]. rewrite adjustKV_id by done. by rewrite bool_decide_eq_true_2. Qed.

Lemma dot_test c max k : key_ok c max k -> negb (enableDotInKey c) && Contains k dot = false.
Proof. intros [? ? ? ? ? D]. destruct (enableDotInKey c); [done|]. by rewrite D. Qed.

Lemma tag_key_clean c i s f :
  kvs s !! i = Some f -> key_ok c (maxTagKeyLen c) (Key f) -> tag_key c i s = (Ok true, s).
Proof.
  intros L K. unfold tag_key, sbind. rewrite !(elem_run _ _ _ L).
  rewrite cut_test by apply K. cbn [key_step sret negb].
  rewrite !(elem_run _ _ _ L), (adjusted_test _ _ _ K). cbn [key_step sret negb].
  rewrite (elem_run _ _ _ L), (dot_test _ _ _ K). done.
Qed.

Lemma field_key_clean c i s f :
  kvs s !! i = Some f -> key_ok c (maxFieldKeyLen c) (Key f) -> field_key c i s = (Ok true, s).
Proof.
  intros L K. unfold field_key, sbind. rewrite !(elem_run _ _ _ L).
  rewrite cut_test by apply K. cbn [key_step sret negb].
  rewrite !(elem_run _ _ _ L), andb_comm, (dot_test _ _ _ K). cbn [key_step sret negb].
  rewrite (elem_run _ _ _ L), (adjusted_test _ _ _ K). done.
Qed.

Lemma key_rejected_clean c skip max k s i f :
  kvs s !! i = Some f -> k = Key f -> key_ok c max k -> only_at (kvs s) i k ->
  key_rejected c skip k s = (Ok false, s).
Proof.
  intros L -> [N E ? ? ? ?] O. unfold key_rejected, keyDisabled.
  rewrite bool_decide_eq_false_2 by done.
  assert (existsb (fun item => bool_decide (Key f = key item)) (disabledKeys c) = false) as ->.
  { apply not_true_iff_false. intros (item & I & B)%existsb_exists. bool_to_prop.
    apply E. apply list_elem_of_fmap. exists item. split; [done|]. by apply list_elem_of_In. }
  unfold sbind, sret, keyConflict. destruct skip; [done|]. unfold sbind, sget.
  apply (key_count_only _ _ _ L) in O. by ztest.
Qed.

Lemma check_tag_value_clean c i s f str :
  kvs s !! i = Some f -> Val f = Some (Field_S str) -> Contains str newline = false ->
  HasSuffix str backslash = false -> (0 < maxTagValLen c -> zlen str <= maxTagValLen c) ->
  check_tag_value c i s = (Ok true, s).
Proof.
  intros L V N B M. unfold check_tag_value, sbind. rewrite (elem_run _ _ _ L), V.
  rewrite adjustKV_id by done. rewrite (bool_decide_eq_true_2 (str = str)) by done.
  rewrite andb_false_r. cbn [sret]. by rewrite cut_test.
Qed.

Lemma check_field_value_clean c i s f :
  kvs s !! i = Some f -> value_ok c (Val f) -> Val f <> None ->
  check_field_value c i s = (Ok true, s).
Proof.
  intros L V N. unfold check_field_value, sbind. rewrite (elem_run _ _ _ L).
  destruct (Val f) as [[n|u|x|b|d|str|a]|]; [done| | |done| | |done|done]; cbn in V.
  - by rewrite V.
  - destruct x as [| sg | |]; [done| |done|done]. by destruct (V sg).
  - destruct V as [V1 V2]. unfold check_text. rewrite V1, cut_test by done. done.
  - destruct V as [V1 V2]. unfold check_text. rewrite V1, cut_test by done. done.
Qed.

Lemma checkKV_clean c skip i s f :
  kvs s !! i = Some f -> clean_field c f -> only_at (kvs s) i (Key f) ->
  checkKV c skip i s = (Ok true, s).
Proof.
  intros L [Ok Tg Vn] O. unfold checkKV. rewrite (sbind_ok _ _ _ _ _ (elem_run _ _ _ L)).
  unfold field_ok in Ok. destruct (IsTag f); destruct Ok as [K V].
  - unfold checkTag. rewrite (sbind_ok _ _ _ _ _ (tag_key_clean _ _ _ _ L K)). cbn [negb].
    rewrite (sbind_ok _ _ _ _ _ (elem_run _ _ _ L)).
    rewrite (sbind_ok _ _ _ _ _ (key_rejected_clean c skip _ _ s i f L eq_refl K O)).
    destruct V as (str & V & N & M).
    by apply (check_tag_value_clean c i s f str); [| | |apply Tg|].
  - unfold checkField. rewrite (sbind_ok _ _ _ _ _ (field_key_clean _ _ _ _ L K)). cbn [negb].
    rewrite (sbind_ok _ _ _ _ _ (elem_run _ _ _ L)).
    rewrite (sbind_ok _ _ _ _ _ (key_rejected_clean c skip _ _ s i f L eq_refl K O)).
    by apply (check_field_value_clean c i s f).
Qed.

Lemma check_loop_clean c skip m i s :
  Forall (clean_field c) (kvs s) -> NoDup (keys (kvs s)) -> (i + m = length (kvs s))%nat ->
  check_loop c skip m i i s = (Ok (length (kvs s)), s).
Proof.
  intros C N. revert i. induction m as [|m IH]; intros i H; [cbn; unfold sret; do 3 f_equal; lia|].
  destruct (lookup_lt_is_Some_2 (kvs s) i) as [f L]; [lia|].
  assert (only_at (kvs s) i (Key f)) as O.
  { apply (sep_only _ _ f); [|done|by left]. intros j l g h Hjl _. apply (sep_NoDup _ N); lia. }
  assert (clean_field c f) as Cf by (by eapply Forall_lookup_1).
  cbn [check_loop]. rewrite (sbind_ok _ _ _ _ _ (checkKV_clean c skip i s f L Cf O)).
  rewrite (sbind_ok _ _ _ _ _ (elem_run _ _ _ L)). unfold put, smod, sbind.
  rewrite list_insert_id by done. destruct s. apply IH. cbn in *. lia.
Qed.

Section Clean.
Context {arrays : ArrayEnc}.

Lemma keyMiss_clean req s :
  (forall rk, rk ∈ req -> def rk <> GoNil -> key rk ∈ keys (kvs s)) ->
  keyMiss_loop req s = (Ok tt, s).
Proof.
  induction req as [|rk req IH]; intros P; [done|]. cbn [keyMiss_loop].
  unfold sbind at 1. cbn [sget].
  set (m := if Has _ _ then _ else _). assert (m s = (Ok tt, s)) as E.
  { subst m. destruct (Has (key rk) (kvs s)) eqn:Hs; [done|]. apply Has_false in Hs.
    destruct (def rk) eqn:D; [done|..]; destruct Hs; apply P; try left; by rewrite D. }
  rewrite (sbind_ok _ _ _ _ _ E). apply IH. intros r I. apply P. by right.
Qed.

(** A point that needs no change. *)
Record clean_point (c : cfg) (p : Point) : Prop := {
  cp_name : Name p <> [];
  cp_name_len : 0 < maxMeasurementLen c -> zlen (Name p) <= maxMeasurementLen c;
  cp_fields : Forall (clean_field c) (PFields p);
  cp_uniq : NoDup (keys (PFields p));
  cp_tags : 0 < maxTags c -> TagCount (PFields p) <= maxTags c;
  cp_nfields : 0 < maxFields c -> FieldCount (PFields p) <= maxFields c;
  cp_required : forall rk, rk ∈ requiredKeys c -> def rk <> GoNil -> key rk ∈ keys (PFields p);
}.

Lemma limit_test max n : (0 < max -> n <= max) -> (0 <? max) && (max <? n) = false.
Proof. intros H. destruct (0 <? max) eqn:E; [|done]. bool_to_prop. cbn. ztest. done. Qed.

Lemma check_clean (c : cfg) (p : Point) : clean_point c p -> check c p = Ok (p, []).
Proof.
  intros [Nm Nl Cl U Tg Fl Rq]. unfold check.
  erewrite (sbind_ok (checkMeasurement c (Name p)) _ _ (Name p) (mkCSt (PFields p) [])).
  2:{ unfold checkMeasurement. pose proof (zlen_pos _ Nm). ztest.
      rewrite (sbind_ok (sret _) _ _ _ _ eq_refl). by rewrite cut_test. }
  assert (checkKVs c (mkCSt (PFields p) []) = (Ok tt, mkCSt (PFields p) [])) as E.
  { unfold checkKVs.
    rewrite (sbind_ok (trim_kvs c) _ _ tt (mkCSt (PFields p) [])).
    2:{ unfold trim_kvs, sbind, sget. cbn [kvs]. by rewrite !limit_test. }
    unfold sbind at 1. cbn [sget].
    rewrite (sbind_ok (check_each c _) _ _ tt (mkCSt (PFields p) [])); [by apply keyMiss_clean|].
    unfold check_each, sbind at 1. cbn [sget].
    rewrite (sbind_ok _ _ _ _ _ (check_loop_clean c _ (length (PFields p)) 0 (mkCSt (PFields p) []) Cl U eq_refl)).
    unfold smod. cbn [kvs warns]. by rewrite take_ge. }
  rewrite (sbind_ok _ _ _ _ _ E). cbn. rewrite app_nil_r. by destruct p.
Qed.

(** The checker changes only what it must: a point that already satisfies the
    limits of the configuration comes back as it was, without a warning. *)
Theorem clean_point_untouched (c : cfg) (p : Point) :
  clean_point c p -> check c p = Ok (p, []).
Proof. apply check_clean. Qed.

End Clean.

(** ** Examples: arrays play no role in them *)

#[export] Instance no_arrays : ArrayEnc := {| NewArray := fun _ => None; AnyRaw := fun _ => GoNil |}.

Lemma clean_point_untouched_witness :
  check (WithRequiredKeys [KeyStatus] newCfg) (point_of "m" [int_field "n" 1; str_tag "status" "ok"])
  = Ok (point_of "m" [int_field "n" 1; str_tag "status" "ok"], []).
Proof.
  apply clean_point_untouched. split.
  - done.
  - by vm_compute.
  - repeat constructor; try done; try (by vm_compute); try (by intros ?%elem_of_nil).
    + eexists. split; [done|]. by vm_compute.
    + intros _ s [= <-]. done.
  - refine (proj1 (bool_decide_eq_true _) _). by vm_compute.
  - by vm_compute.
  - by vm_compute.
  - intros rk I _. refine (proj1 (bool_decide_eq_true _) _).
    apply list_elem_of_singleton in I as ->. by vm_compute.
Defined.

Lemma check_promises_witness :
  exists p' ws kept added,
    check (WithRequiredKeys [KeyStatus] newCfg) (point_of "" [int_field "a" 1; str_tag "b\" "x"])
      = Ok (p', ws) /\ point_ok (WithRequiredKeys [KeyStatus] newCfg) p' kept added /\
    flags p' = 0 /\ Time p' = 0 /\ Debugs p' = [] /\ Warns p' = [] ++ ws.
Proof.
  apply (check_promises (WithRequiredKeys [KeyStatus] newCfg)
           (point_of "" [int_field "a" 1; str_tag "b\" "x"])).
  repeat constructor; [done|]. intros _. by eexists.
Defined.

(** ** A tag that is not a string *)

(** The checker does not reject a tag whose value is not a string, it panics on
    it: any point with one field, marked as a tag, with a legal key and a value of
    another type, or none. *)
Theorem untyped_tag_panics (E : ArrayEnc) (c : cfg) (p : Point) (f : Field) :
  PFields p = [f] -> IsTag f = true -> (forall s, Val f <> Some (Field_S s)) ->
  key_ok c (maxTagKeyLen c) (Key f) ->
  check c p = Err PanicTypeAssertion.
Proof.
  intros Pf Tg V K. unfold check. rewrite Pf.
  destruct (checkMeasurement_run c (Name p) (mkCSt [f] [])) as (n & ws & E0 & _).
  rewrite (sbind_ok _ _ _ _ _ E0). cbn [kvs warns app].
  set (s := mkCSt [f] ws). assert (kvs s !! 0%nat = Some f) as L by done.
  assert (checkKV c (canSkipKeyConflicts (kvs s)) 0 s = (Err PanicTypeAssertion, s)) as EC.
  { unfold checkKV, sbind. rewrite (elem_run _ _ _ L), Tg. unfold checkTag, sbind.
    rewrite (tag_key_clean _ _ _ _ L K). cbn [negb]. rewrite (elem_run _ _ _ L).
    rewrite (key_rejected_clean c _ _ _ s 0 f L eq_refl K) by (intros [|[|]] g ? ?; done).
    unfold check_tag_value, sbind. rewrite (elem_run _ _ _ L).
    destruct (Val f) as [[]|]; try done. by destruct (V S). }
  assert (trim_kvs c s = (Ok tt, s)) as ET.
  { unfold trim_kvs, sbind, sget. subst s. cbn [kvs TagCount FieldCount]. rewrite Tg. cbn [negb].
    rewrite !limit_test by lia. done. }
  unfold checkKVs, sbind. rewrite ET. cbn [sget]. unfold check_each, sbind. cbn [sget].
  change (length (kvs s)) with 1%nat. cbn [check_loop]. unfold sbind. by rewrite EC.
Qed.

Lemma untyped_tag_panics_witness :
  check newCfg (point_of "m" [set_IsTag true (int_field "t" 1)]) = Err PanicTypeAssertion.
Proof.
  apply (untyped_tag_panics _ _ _ (set_IsTag true (int_field "t" 1))); [done..|].
  split; try done; try (by vm_compute). by intros ?%elem_of_nil.
Defined.

(** ** Corner cases *)

Definition checked_keys (c : cfg) (p : Point) : option (list string) :=
  match check c p with
  | Ok (p', _) => Some (map (fun f => of_bytes (Key f)) (PFields p'))
  | Err _ => None
  end.

(** What happens to duplicate keys depends on their order.  Of two fields with
    the same key, both are dropped when they stand next to each other at the front;
    with another field between them the last one is kept: compaction has
    overwritten the first before the second is looked at. *)
Theorem duplicate_keys_order (x y z : Z) :
  checked_keys newCfg (point_of "m" [int_field "k" x; int_field "k" y; int_field "z" z])
    = Some ["z"] /\
  checked_keys newCfg (point_of "m" [int_field "k" x; int_field "z" z; int_field "k" y])
    = Some ["z"; "k"].
Proof. split; by vm_compute. Qed.

(** Cutting a tag value happens after its trailing backslashes were removed, and
    may leave one: the value ends with a backslash, which the checker otherwise
    treats as illegal; a second check removes it. *)
Theorem cut_tag_value_ends_in_backslash :
  let c := WithMaxTagValLen 3 newCfg in
  exists p' ws, check c (point_of "m" [str_tag "t" "ab\c"]) = Ok (p', ws) /\
    map GetS (PFields p') = [to_bytes "ab\"] /\
    exists p'' ws', check c p' = Ok (p'', ws') /\ map GetS (PFields p'') = [to_bytes "ab"].
Proof. do 2 eexists. split; [by vm_compute|]. split; [done|]. do 2 eexists. split; [by vm_compute | done]. Qed.

(** ** The pool of configurations *)

(** A configuration goes back to the pool reset, but for [keySorted]: whoever
    takes it next has the default configuration with the previous user's
    [keySorted], so that a point built without options has its fields sorted when
    the previous one asked for it. *)
Theorem pooled_cfg_keeps_keySorted (E : ArrayEnc) :
  (forall c, GetCfg (Some (PutCfg c)) [] = WithKeySorted (keySorted c) (GetCfg None [])) /\
  (forall sort now name x name' x',
     let '(_, pooled) := NewPoint sort now None name x [Some (WithKeySorted true)] in
     fst (NewPoint sort now (Some pooled) name' x' [])
     = doNewPoint sort now name' x' (WithKeySorted true newCfg)).
Proof. split; [intros []; done | done]. Qed.

(** ** [CheckPoints] *)

(** [CheckPoints] gives the points one warning array.  Whenever two points both
    get a warning, the first warning that the first point ends up with is the one
    of the second point, whatever the growth policy of the slices. *)
Theorem checkpoints_overwrites_warns (E : ArrayEnc) (grow : nat -> nat) (pooled : option cfg)
    (opts : list (option Option_)) (p q p' q' : Point) (w1 w2 : Warn) (ws1 ws2 : list Warn) :
  (forall n, (n < grow n)%nat) ->
  check (GetCfg pooled opts) p = Ok (p', w1 :: ws1) ->
  check (GetCfg pooled opts) q = Ok (q', w2 :: ws2) ->
  exists r1 r2, CheckPoints grow pooled [p; q] opts = Ok [r1; r2] /\
    head (Warns r1) = Some w2 /\ Warns r2 = w2 :: ws2.
Proof.
  intros G Ep Eq. unfold CheckPoints. cbn [checkPoints_loop]. rewrite Ep.
  destruct (sl_start grow G w1 ws1) as (st1 & s1 & -> & C1). rewrite Eq.
  destruct (sl_overwrite grow G st1 s1 w1 ws1 w2 ws2 C1) as (st2 & s2 & -> & C2 & O).
  cbn [map]. do 2 eexists. split; [done|]. cbn [Warns]. split; [done|]. by apply covers_read.
Qed.

Lemma checkpoints_overwrites_warns_witness :
  exists r1 r2,
    CheckPoints S None [point_of "" [int_field "a" 1]; point_of "m" [str_tag "b\" "x"]] []
      = Ok [r1; r2] /\
    head (Warns r1) = Some (mkWarn WarnInvalidTagKey "invalid tag key %q, replace \ or \n with ''"
                              [MStr (to_bytes "b\")]) /\
    Warns r2 = [mkWarn WarnInvalidTagKey "invalid tag key %q, replace \ or \n with ''"
                  [MStr (to_bytes "b\")]].
Proof.
  eapply (checkpoints_overwrites_warns _ S None []); [intros; lia | by vm_compute | by vm_compute].
Defined.
