(* ===== verification/PointEqual.v ===== *)
(** * Equality and identity of points ([src/point/equal.go])

    [Equal] compares two points field by field; [MD5] and [Sha256] digest
    [hashstr], the measurement with the sorted tags.  The comment of [Equal] says
    that equal points have the same identity. *)

From S2P Require Import Prelude PointKV PointCheck PointNew PointKVThms PointFindings PointCheckSpec PointCheckThms.

(** [strings.Compare]: bytewise. *)
Fixpoint bytes_le (a b : bytes) : bool :=
  match a, b with
  | [], _ => true
  | _ :: _, [] => false
  | x :: a', y :: b' =>
      if decide (x = y) then bytes_le a' b' else byte.unsigned x <? byte.unsigned y
  end.

Definition key_le (f g : Field) : Prop := bytes_le (Key f) (Key g) = true.

(** What [sort.Sort] promises on a slice of fields: the same fields, in the order of
    [KVs.Less]. *)
Definition is_sort (sort : KVs -> KVs) : Prop :=
  forall l, sort l ≡ₚ l /\ StronglySorted key_le (sort l).

Lemma bytes_le_antisym a b : bytes_le a b = true -> bytes_le b a = true -> a = b.
Proof.
  revert b. induction a as [|x a IH]; intros [|y b]; cbn; [done..|].
  destruct (decide (x = y)) as [->|N].
  - rewrite decide_True by done. intros. f_equal. by apply IH.
  - rewrite decide_False by congruence. intros. bool_to_prop. lia.
Qed.

Abbreviation pair_of := (fun f : Field => (Key f, GetS f)).

Lemma Tags_filter x : Tags x = filter (fun f => IsTag f = true) x.
Proof.
  induction x as [|f x IH]; [done|]. cbn [Tags]. rewrite filter_cons, IH.
  by destruct (IsTag f).
Qed.

Lemma NoDup_keys_Tags x : NoDup (keys x) -> NoDup (keys (Tags x)).
Proof.
  intros N. rewrite Tags_filter. eapply sublist_NoDup; [exact N|].
  by apply fmap_sublist, sublist_filter.
Qed.

Lemma kvsEq_loop_spec str o l r f :
  kvsEq_loop str o l r = true -> excludeKeys o = [] -> f ∈ l ->
  exists v, v ∈ r /\ str f = str v.
Proof.
  intros E X I. induction l as [|g l IH]; [inversion I|]. cbn in E.
  unfold keyExcluded in E. rewrite X in E. cbn in E.
  destruct (Get (Key g) r) as [v|] eqn:G; [|done].
  destruct (bool_decide (str g = str v)) eqn:B; [|done]. bool_to_prop.
  apply elem_of_cons in I as [->|I]; [|by apply IH].
  exists v. split; [by destruct (Get_Some _ _ _ G) | done].
Qed.

Lemma NoDup_pairs (x : KVs) : NoDup (keys x) -> NoDup (pair_of <$> x).
Proof.
  intros N. apply (NoDup_fmap_1 fst). rewrite <- list_fmap_compose. exact N.
Qed.

(** Two sorted lists of tags with the same pairs give the same pairs in order. *)
Lemma sorted_pairs_eq l1 l2 :
  StronglySorted key_le l1 -> StronglySorted key_le l2 -> NoDup (keys l1) ->
  pair_of <$> l1 ≡ₚ pair_of <$> l2 -> pair_of <$> l1 = pair_of <$> l2.
Proof.
  intros S1 S2 N P.
  set (R := fun a b : bytes * bytes => bytes_le (fst a) (fst b) = true).
  assert (forall l, StronglySorted key_le l -> StronglySorted R (pair_of <$> l)) as Sm.
  { induction 1 as [|f l S IH F]; [constructor|]. cbn. constructor; [done|].
    apply Forall_fmap. eapply list.Forall_impl; [exact F|]. done. }
  apply (StronglySorted_unique_strong R); [|by apply Sm|by apply Sm|done].
  intros a b Ia Ib Rab Rba. rewrite <- P in Ib.
  pose proof (bytes_le_antisym _ _ Rab Rba) as Ek.
  apply list_elem_of_fmap in Ia as (f & -> & (i & Li)%list_elem_of_lookup).
  apply list_elem_of_fmap in Ib as (g & -> & (j & Lj)%list_elem_of_lookup). cbn in Ek.
  assert (i = j) as ->; [|congruence].
  eapply (proj1 (NoDup_alt (keys l1)) N); rewrite list_lookup_fmap;
    [by rewrite Li | by rewrite Lj; cbn; rewrite Ek].
Qed.

(** Equal points have the same identity, as the comment of [Equal] says: when
    each key occurs once, two points that [Equal] finds equal have the same
    [hashstr], hence the same MD5 and Sha256. *)
Theorem equal_same_identity (str : Field -> bytes) (sort : KVs -> KVs) (p x : Point) :
  is_sort sort ->
  (forall f g, str f = str g -> Key f = Key g /\ GetS f = GetS g) ->
  NoDup (keys (PFields p)) -> NoDup (keys (PFields x)) ->
  Equal str (mkEqopt true []) p x = true ->
  hashstr sort p = hashstr sort x.
Proof.
  intros Srt Inj Np Nx E. unfold Equal in E. cbn [keyExcluded excludeKeys existsb withMeasurement negb andb] in E.
  destruct (Time x =? Time p); cbn in E; [|done].
  destruct (bool_decide (Name x = Name p)) eqn:En; cbn in E; [|done]. bool_to_prop.
  destruct (zlen (Tags (PFields x)) =? zlen (Tags (PFields p))) eqn:Z; cbn in E; [|done]. bool_to_prop.
  destruct (kvsEq str _ (Fields _) _); cbn in E; [|done].
  unfold kvsEq in E. cbn in E. rewrite Z, Z.eqb_refl in E. cbn in E.
  apply NoDup_keys_Tags in Np, Nx.
  set (tp := Tags (PFields p)) in *. set (tx := Tags (PFields x)) in *.
  assert (pair_of <$> tp ≡ₚ pair_of <$> tx) as P.
  { apply submseteq_length_Permutation.
    - apply NoDup_submseteq; [by apply NoDup_pairs|].
      intros a (f & -> & I)%list_elem_of_fmap.
      destruct (kvsEq_loop_spec _ _ _ _ _ E eq_refl I) as (v & Iv & Es).
      destruct (Inj _ _ Es) as [-> ->]. by apply (list_elem_of_fmap_2 pair_of).
    - rewrite !length_fmap. unfold zlen in Z. lia. }
  destruct (Srt tp) as [Pp Sp], (Srt tx) as [Px Sx].
  assert (pair_of <$> sort tp = pair_of <$> sort tx) as Ep.
  { apply sorted_pairs_eq; [done..| |]; [by rewrite Pp|]. by rewrite Pp, Px. }
  unfold hashstr. fold tp tx. rewrite En. f_equal.
  assert (forall l, map (fun t => Key t ++ GetS t) l = map (fun a => fst a ++ snd a) (pair_of <$> l)) as M.
  { intros l. change (pair_of <$> l) with (map pair_of l). by rewrite map_map. }
  by rewrite !M, Ep.
Qed.

(** An insertion sort, which shows that [is_sort] can hold. *)
Fixpoint insert_sorted (f : Field) (l : KVs) : KVs :=
  match l with
  | [] => [f]
  | g :: l' => if bytes_le (Key f) (Key g) then f :: g :: l' else g :: insert_sorted f l'
  end.

Definition insertion_sort (l : KVs) : KVs := foldr insert_sorted [] l.

Lemma bytes_le_total a b : bytes_le a b = false -> bytes_le b a = true.
Proof.
  revert b. induction a as [|x a IH]; intros [|y b]; cbn; [done..|].
  destruct (decide (x = y)) as [->|N].
  - rewrite decide_True by done. apply IH.
  - rewrite decide_False by congruence. intros. bool_to_prop. apply Z.ltb_lt.
    assert (byte.unsigned x <> byte.unsigned y); [|lia].
    intros E. apply N. by apply byte.unsigned_inj.
Qed.

Lemma bytes_le_trans a b c : bytes_le a b = true -> bytes_le b c = true -> bytes_le a c = true.
Proof.
  revert b c. induction a as [|x a IH]; intros [|y b] [|z c]; cbn; try done.
  destruct (decide (x = y)) as [->|N1], (decide (y = z)) as [->|N2].
  - apply IH.
  - done.
  - intros ? ?. by rewrite decide_False by congruence.
  - intros. bool_to_prop. rewrite decide_False by (intros ->; lia). apply Z.ltb_lt. lia.
Qed.

Lemma insert_sorted_spec f l : StronglySorted key_le l ->
  insert_sorted f l ≡ₚ f :: l /\ StronglySorted key_le (insert_sorted f l).
Proof.
  induction 1 as [|g l S [P S'] F]; cbn; [split; [done | repeat constructor]|].
  destruct (bytes_le (Key f) (Key g)) eqn:B.
  - split; [done|]. constructor; [by constructor|]. constructor; [done|].
    eapply list.Forall_impl; [exact F|]. intros h H. by eapply bytes_le_trans.
  - split; [rewrite P; apply perm_swap|]. constructor; [done|]. rewrite P.
    constructor; [by apply bytes_le_total | done].
Qed.

Lemma insertion_sort_ok : is_sort insertion_sort.
Proof.
  intros l. induction l as [|f l [P S]]; cbn; [split; [done | constructor]|].
  destruct (insert_sorted_spec f _ S) as [P' S']. split; [by rewrite P', P | done].
Qed.

(** A printer of fields that tells keys and values apart. *)
Fixpoint print_pair (k v : bytes) : bytes :=
  match k with
  | [] => Byte.x00 :: v
  | b :: k' => Byte.x01 :: b :: print_pair k' v
  end.

Lemma print_pair_inj k v k' v' : print_pair k v = print_pair k' v' -> k = k' /\ v = v'.
Proof.
  revert k'. induction k as [|b k IH]; intros [|b' k']; cbn; [|done|done|].
  - by intros [= ->].
  - by intros [= -> [-> ->]%IH].
Qed.

Lemma equal_same_identity_witness :
  hashstr insertion_sort (point_of "m" [str_tag "b" "2"; str_tag "a" "1"])
  = hashstr insertion_sort (point_of "m" [str_tag "a" "1"; str_tag "b" "2"]).
Proof.
  apply (equal_same_identity (fun f => print_pair (Key f) (GetS f))).
  - apply insertion_sort_ok.
  - intros f g. apply print_pair_inj.
  - refine (proj1 (bool_decide_eq_true _) _). by vm_compute.
  - refine (proj1 (bool_decide_eq_true _) _). by vm_compute.
  - by vm_compute.
Defined.

(** * Building a point, end to end ([src/point/new_point.go])

    [NewPoint] adds the extra tags of the configuration, sorts and checks the fields
    and dates the point. *)

Section Build.
Context {arrays : ArrayEnc}.

Lemma Forall_perm (P : Field -> Prop) (l k : KVs) : l ≡ₚ k -> Forall P k -> Forall P l.
Proof. intros E. by rewrite E. Qed.

Lemma AddTag_typed k v x : Forall tag_typed x -> Forall tag_typed (AddTag k v x).
Proof.
  intros T. unfold AddTag, Add. rewrite add_loop_spec. case_decide; [done|].
  apply Forall_app. split; [done|]. constructor; [|done]. intros _. by eexists.
Qed.

(** The point after the extra tags: only its fields changed. *)
Lemma extra_tags_run (tags : KVs) p :
  Forall tag_typed (PFields p) ->
  let p' := fold_left (fun p kv => Point_AddTag (Key kv) (GetS kv) p) tags p in
  Forall tag_typed (PFields p') /\ keys (PFields p) ⊆ keys (PFields p') /\
  (forall kv, kv ∈ tags -> Key kv ∈ keys (PFields p')).
Proof.
  revert p. induction tags as [|t tags IH]; intros p T; cbn zeta; cbn [fold_left].
  { split_and!; [done | done | by intros ? ?%elem_of_nil]. }
  assert (keys (PFields p) ⊆ keys (PFields (Point_AddTag (Key t) (GetS t) p)) /\
          Key t ∈ keys (PFields (Point_AddTag (Key t) (GetS t) p))) as [S1 I1].
  { cbn. unfold AddTag, Add. rewrite add_loop_spec. case_decide; [done|].
    rewrite fmap_app. split; [intros a Ha; apply elem_of_app; by left|].
    apply elem_of_app. right. left. }
  destruct (IH (Point_AddTag (Key t) (GetS t) p)) as (T' & S2 & I2); [by apply AddTag_typed|].
  split_and!; [done | by transitivity (keys (PFields (Point_AddTag (Key t) (GetS t) p))) |].
  intros kv [->|I]%elem_of_cons; [by apply S2 | by apply I2].
Qed.

Lemma HasFlag_SetFlag p : HasFlag Pcheck (SetFlag Pcheck p) = true.
Proof.
  unfold HasFlag, SetFlag, Pcheck. cbn [flags]. change (uint64 (Z.shiftl 1 4)) with 16.
  apply Z.ltb_lt. assert (Z.testbit (Z.land (Z.lor (flags p) 16) 16) 4 = true) as B.
  { by rewrite Z.land_spec, Z.lor_spec, orb_true_r. }
  assert (0 <= Z.land (Z.lor (flags p) 16) 16) by (apply Z.land_nonneg; right; lia).
  destruct (Z.eq_dec (Z.land (Z.lor (flags p) 16) 16) 0) as [E|N]; [by rewrite E in B | lia].
Qed.

(** The fields that the check of [doNewPoint] sees: the extra tags added, sorted when
    asked for. *)
Definition prepared (sort : KVs -> KVs) (x : KVs) (c : cfg) : KVs :=
  let y := fold_left (fun x kv => AddTag (Key kv) (GetS kv) x) (extraTags c) x in
  if keySorted c then sort y else y.

Lemma fold_AddTag_fields (tags : KVs) p :
  fold_left (fun p kv => Point_AddTag (Key kv) (GetS kv) p) tags p
  = set_PFields (fold_left (fun x kv => AddTag (Key kv) (GetS kv) x) tags (PFields p)) p.
Proof.
  revert p. induction tags as [|t tags IH]; intros p; cbn [fold_left]; [by destruct p|].
  rewrite IH. by destruct p.
Qed.

Lemma prepared_typed sort x c : is_sort sort ->
  Forall tag_typed x -> Forall tag_typed (prepared sort x c).
Proof.
  intros S T. unfold prepared.
  destruct (extra_tags_run (extraTags c) (mkPoint 0 [] x 0 [] []) T) as (T' & _).
  rewrite fold_AddTag_fields in T'. cbn in T'.
  destruct (keySorted c); [|done]. by eapply Forall_perm; [apply S|].
Qed.

(** A point built with checking enabled is a checked point.  For any
    configuration and any fields whose tags hold strings, [doNewPoint] returns a
    point, flagged as checked, dated with the given time when it is not negative and
    with the clock otherwise, whose fields are, up to their order, those of a point
    that satisfies the promise of the checker; they are sorted by key when the
    configuration asks for it. *)
Theorem new_point_promises (sort : KVs -> KVs) (now : Z) (name : bytes) (x : KVs) (c : cfg) :
  is_sort sort -> precheck c = true -> Forall tag_typed x ->
  exists p q kept added, doNewPoint sort now name x c = Ok p /\
    point_ok c q kept added /\ Name p = Name q /\ PFields p ≡ₚ PFields q /\
    (keySorted c = true -> StronglySorted key_le (PFields p)) /\
    HasFlag Pcheck p = true /\
    Time p = (if 0 <=? timestamp c then timestamp c else now).
Proof.
  intros Srt Pre T. unfold doNewPoint. rewrite fold_AddTag_fields. cbn [PFields].
  set (y := fold_left _ (extraTags c) x).
  set (p1 := if decide (enc c = Protobuf) then _ else _).
  assert (PFields p1 = y) as Ey by (subst p1; by destruct (decide (enc c = Protobuf))).
  set (p2 := if keySorted c then set_PFields (sort (PFields p1)) p1 else p1).
  assert (PFields p2 = prepared sort x c) as E2.
  { subst p2. unfold prepared. fold y. destruct (keySorted c); cbn; by rewrite Ey. }
  rewrite Pre. destruct (check_run c p2) as (q & ws & kept & added & -> & Ok & _).
  { rewrite E2. by apply prepared_typed. }
  eexists _, q, kept, added. split; [done|]. split; [done|].
  assert (forall (r : Point) (b : bool), flags (if b then set_PFields (sort (PFields r)) r else r) = flags r
          /\ Name (if b then set_PFields (sort (PFields r)) r else r) = Name r) as Fl
    by (intros r []; done).
  split; [by rewrite (proj2 (Fl _ _))|]. cbn [PFields Time].
  split; [destruct (keySorted c); [apply Srt | done]|].
  split; [intros ->; apply Srt|]. split; [|done].
  unfold HasFlag. cbn [flags]. rewrite (proj1 (Fl _ _)). apply (HasFlag_SetFlag q).
Qed.

End Build.

Lemma new_point_promises_witness :
  let c := GetCfg None [Some (WithKeySorted true); Some (WithTimestamp (-5))] in
  exists p q kept added,
    doNewPoint insertion_sort 99 (to_bytes "m") [str_tag "t\" "v"; int_field "a" 1] c = Ok p /\
    point_ok c q kept added /\ Name p = Name q /\ PFields p ≡ₚ PFields q /\
    (true = true -> StronglySorted key_le (PFields p)) /\ HasFlag Pcheck p = true /\ Time p = 99.
Proof.
  apply (new_point_promises insertion_sort 99 (to_bytes "m") [str_tag "t\" "v"; int_field "a" 1]
           (GetCfg None [Some (WithKeySorted true); Some (WithTimestamp (-5))])).
  - apply insertion_sort_ok.
  - done.
  - repeat constructor; [intros _; by eexists | done].
Defined.
