(* ===== verification/PointDecode.v ===== *)
(** * Adjusting decoded points ([src/point/decode.go])

    After the bytes were decoded, [decodeAdjustPoints] fills in or scales the time of
    each point, checks it and hands it to the callback.  A callback is a parameter:
    it fails, drops the point ([Ok None]) or returns one. *)

From S2P Require Import Prelude PointKV PointCheck PointNew PointKVThms PointCheckSpec PointCheckThms PointFindings.

Definition Nanosecond : Z := 1.
Definition Microsecond : Z := 1000.
Definition Millisecond : Z := 1000000.
Definition Second : Z := 1000000000.
Definition Minute : Z := 60 * Second.
Definition Hour : Z := 60 * Minute.

(** Guess the unit of a timestamp; the products wrap around. *)
Definition detectTimestampPrecision (ts : Z) : Z :=
  if Z.quot ts 1000000000 <? 10 then int64 (ts * Second)
  else if Z.quot ts 1000000000000 <? 10 then int64 (ts * Millisecond)
  else if Z.quot ts 1000000000000000 <? 10 then int64 (ts * Microsecond)
  else ts.

Definition set_Time (t : Z) (p : Point) : Point :=
  mkPoint (flags p) (Name p) (PFields p) t (Warns p) (Debugs p).

(** The time of one point; [nowNano] is the default. *)
Definition adjust_time (c : cfg) (nowNano t : Z) : Z :=
  if t =? 0 then nowNano
  else match precision c with
       | PrecDyn => detectTimestampPrecision t
       | PrecUS => int64 (t * Microsecond)
       | PrecMS => int64 (t * Millisecond)
       | PrecS => int64 (t * Second)
       | PrecM => int64 (t * Minute)
       | PrecH => int64 (t * Hour)
       | PrecNS | PrecW | PrecD => t
       end.

Inductive decode_err : Type :=
| DPanic (e : panic)
| DCallback (e : string).

Definition Callback : Type := Point -> Res string (option Point).

Section Decode.
Context {arrays : ArrayEnc}.

(** The points after adjustment, and [newPoints]. *)
Fixpoint decode_loop (callbacks : nat -> Callback) (c : cfg) (nowNano : Z) (pts : list Point)
    : Res decode_err (list Point * list Point) :=
  match pts with
  | [] => Ok ([], [])
  | p :: pts' =>
      let p := set_Time (adjust_time c nowNano (Time p)) p in
      match (if precheck c then
               match check c p with Ok (p', _) => Ok p' | Err e => Err (DPanic e) end
             else Ok p) with
      | Err e => Err e
      | Ok p =>
          match (match callback c with
                 | None => Ok None
                 | Some f => match callbacks f p with
                             | Ok x => Ok x
                             | Err e => Err (DCallback e)
                             end
                 end) with
          | Err e => Err e
          | Ok x =>
              match decode_loop callbacks c nowNano pts' with
              | Err e => Err e
              | Ok (ps, news) =>
                  Ok (p :: ps, match x with Some q => q :: news | None => news end)
              end
          end
      end
  end.

Definition decodeAdjustPoints (callbacks : nat -> Callback) (now : Z) (c : cfg) (pts : list Point)
    : Res decode_err (list Point) :=
  let nowNano := if timestamp c =? 0 then now else timestamp c in
  match decode_loop callbacks c nowNano pts with
  | Err e => Err e
  | Ok (ps, news) => Ok (match news with [] => ps | _ => news end)
  end.

(** ** Theorems *)

(** The points the loop works on, when they are not checked. *)
Definition timed (c : cfg) (nowNano : Z) (p : Point) : Point :=
  set_Time (adjust_time c nowNano (Time p)) p.

Lemma decode_loop_unchecked callbacks c nowNano f keep pts :
  precheck c = false -> callback c = Some f -> (forall p, callbacks f p = Ok (keep p)) ->
  decode_loop callbacks c nowNano pts
  = Ok (timed c nowNano <$> pts, omap keep (timed c nowNano <$> pts)).
Proof.
  intros P C K. induction pts as [|p pts IH]; [done|]. cbn [decode_loop]. rewrite P, C, K, IH.
  cbn [fmap list_fmap omap list_omap]. change (set_Time _ p) with (timed c nowNano p).
  by destruct (keep (timed c nowNano p)).
Qed.

(** The callback of a decoder filters, unless it filters everything.  The points
    it returns are the result when there are any; when it drops every point, the
    result is all of them. *)
Theorem decode_callback_filters (callbacks : nat -> Callback) (now : Z) (c : cfg) (f : nat)
    (keep : Point -> option Point) (pts : list Point) :
  precheck c = false -> callback c = Some f -> (forall p, callbacks f p = Ok (keep p)) ->
  let all := timed c (if timestamp c =? 0 then now else timestamp c) <$> pts in
  decodeAdjustPoints callbacks now c pts
  = Ok (match omap keep all with [] => all | kept => kept end).
Proof.
  intros P C K. cbn zeta. unfold decodeAdjustPoints.
  rewrite (decode_loop_unchecked _ _ _ f keep) by done. by destruct (omap keep _).
Qed.

End Decode.

(** The guess of a timestamp's unit is right for every time from 1970-04-26
    (ten million seconds) to the end of int64: given in seconds, milliseconds,
    microseconds or nanoseconds, the same instant results. *)
Theorem detect_precision_correct (t unit : Z) :
  unit ∈ [Second; Millisecond; Microsecond; Nanosecond] ->
  10 ^ 16 <= t < 2 ^ 63 -> t mod unit = 0 ->
  detectTimestampPrecision (t / unit) = t.
Proof.
  intros U B M.
  assert (0 < unit <= Second) as Pu.
  { repeat (apply elem_of_cons in U as [->|U]; [by vm_compute|]). by apply elem_of_nil in U. }
  assert (t / unit * unit = t) as D.
  { pose proof (Z.div_mod t unit). lia. }
  assert (0 <= t / unit) by (apply Z.div_pos; lia).
  assert (int64 t = t) as I by (apply int64_small; unfold in_int64; lia).
  unfold detectTimestampPrecision. rewrite !Z.quot_div_nonneg by lia.
  repeat (apply elem_of_cons in U as [->|U]); [..|by apply elem_of_nil in U];
    unfold Second, Millisecond, Microsecond, Nanosecond in *.
  - rewrite (proj2 (Z.ltb_lt _ _)) by (apply Z.div_lt_upper_bound; lia). by rewrite D.
  - rewrite (proj2 (Z.ltb_ge _ _)) by (apply Z.div_le_lower_bound; lia).
    rewrite (proj2 (Z.ltb_lt _ _)) by (apply Z.div_lt_upper_bound; lia). by rewrite D.
  - rewrite (proj2 (Z.ltb_ge _ _)) by (apply Z.div_le_lower_bound; lia).
    rewrite (proj2 (Z.ltb_ge _ _)) by (apply Z.div_le_lower_bound; lia).
    rewrite (proj2 (Z.ltb_lt _ _)) by (apply Z.div_lt_upper_bound; lia). by rewrite D.
  - rewrite Z.div_1_r in *.
    by rewrite !(proj2 (Z.ltb_ge _ _)) by (apply Z.div_le_lower_bound; lia).
Qed.

(** A point decoded without a time does not get the current one.  The default of
    the option is -1, the test of the decoder is for 0: with default options every
    such point is dated one nanosecond before 1970, whatever the clock says. *)
Theorem decode_missing_time (E : ArrayEnc) (callbacks : nat -> Callback) (now : Z) (p : Point) :
  Time p = 0 -> Forall tag_typed (PFields p) ->
  exists p', decodeAdjustPoints callbacks now (GetCfg None []) [p] = Ok [p'] /\ Time p' = -1.
Proof.
  intros T Ty. unfold decodeAdjustPoints. cbn [decode_loop].
  change (precheck (GetCfg None [])) with true. cbn iota.
  destruct (check_run (GetCfg None []) (set_Time (adjust_time (GetCfg None []) (-1) (Time p)) p) Ty)
    as (p' & ws & kept & added & Ec & _ & _ & Et & _).
  change (if timestamp (GetCfg None []) =? 0 then now else timestamp (GetCfg None [])) with (-1).
  rewrite Ec. exists p'. split; [done|]. rewrite Et. cbn. by rewrite T.
Qed.

(** ** Witnesses *)

Definition at_time (t : Z) : Point := mkPoint 0 (to_bytes "m") [int_field "n" t] t [] [].

(** Keep the points after time 5. *)
Definition after5 (p : Point) : option Point := if 5 <? Time p then Some p else None.

Lemma decode_callback_filters_witness :
  decodeAdjustPoints (fun _ p => Ok (after5 p)) 7
    (WithCallback (Some 0%nat) (WithPrecheck false newCfg)) [at_time 3; at_time 9] = Ok [at_time 9].
Proof.
  exact (decode_callback_filters (fun _ p => Ok (after5 p)) 7
           (WithCallback (Some 0%nat) (WithPrecheck false newCfg)) 0 after5
           [at_time 3; at_time 9] eq_refl eq_refl (fun _ => eq_refl)).
Defined.

Lemma detect_precision_correct_witness :
  detectTimestampPrecision (1700000000123000000 / Millisecond) = 1700000000123000000.
Proof. apply detect_precision_correct; [set_solver | lia | done]. Defined.

Lemma decode_missing_time_witness :
  exists p', decodeAdjustPoints (fun _ _ => Ok None) 1700000000000000000 (GetCfg None [])
               [point_of "m" [int_field "n" 1]] = Ok [p'] /\ Time p' = -1.
Proof. apply decode_missing_time; [done|]. by repeat constructor. Defined.

(** * Categories of points ([src/point/category.go])

    The three tables of the package as association lists, in the order of the source.
    [CatString], [CatURL] and [CatAlias] range over a Go map and return the first
    match: the argument [order] is the order of that iteration. *)

Inductive Category : Set :=
| UnknownCategory | DynamicDWCategory | MetricDeprecated | Metric | Network | KeyEvent | Object
| ObjectChange | CustomObject | Logging | Tracing | RUM | Security | Profiling | DialTesting
| ExecutionLog | LLM | AgentLLM
| OtherCategory (n : Z).         (* an int that is no constant of the package *)

#[export] Instance Category_eq_dec : EqDecision Category.
Proof. solve_decision. Defined.

Definition categoryURL : list (Category * string) :=
  [(Metric, "/v1/write/metric"); (MetricDeprecated, "/v1/write/metrics");
   (Network, "/v1/write/network"); (KeyEvent, "/v1/write/keyevent");
   (Object, "/v1/write/object"); (ObjectChange, "/v1/write/object_change");
   (CustomObject, "/v1/write/custom_object"); (Logging, "/v1/write/logging");
   (Tracing, "/v1/write/tracing"); (RUM, "/v1/write/rum");
   (Security, "/v1/write/security"); (Profiling, "/v1/write/profiling");
   (DialTesting, "/v1/write/dialtesting"); (ExecutionLog, "/v1/write/siem_logging");
   (LLM, "/v1/write/langfuse-v2"); (AgentLLM, "/v1/write/agent_llm");
   (DynamicDWCategory, "/v1/write/dynamic_dw"); (UnknownCategory, "/v1/write/unknown")].

Definition categoryAlias : list (Category * string) :=
  [(Metric, "M"); (Network, "N"); (KeyEvent, "E"); (Object, "O"); (ObjectChange, "OCH");
   (CustomObject, "CO"); (Logging, "L"); (Tracing, "T"); (RUM, "R"); (Security, "S");
   (Profiling, "P"); (DialTesting, "DT"); (ExecutionLog, "EL"); (LLM, "LLM");
   (AgentLLM, "AL"); (UnknownCategory, "UNKNOWN"); (DynamicDWCategory, "DYNAMIC_DW")].

Definition categoryShort : list (Category * string) :=
  [(Metric, "metric"); (MetricDeprecated, "metrics"); (Network, "network");
   (KeyEvent, "keyevent"); (Object, "object"); (ObjectChange, "object_change");
   (CustomObject, "custom_object"); (Logging, "logging"); (Tracing, "tracing"); (RUM, "rum");
   (Security, "security"); (Profiling, "profiling"); (DialTesting, "dialtesting");
   (ExecutionLog, "execution_log"); (LLM, "llm"); (AgentLLM, "agent_llm");
   (UnknownCategory, "unknown"); (DynamicDWCategory, "dynamic_dw")].

(** A map lookup, with the value for a key that is not there. *)
Fixpoint cat_get (t : list (Category * string)) (c : Category) (unknown : string) : string :=
  match t with
  | [] => unknown
  | (k, v) :: t' => if decide (k = c) then v else cat_get t' c unknown
  end.

Definition Cat_String (c : Category) : string := cat_get categoryShort c "unknown".
Definition URL (c : Category) : string := cat_get categoryURL c "/v1/write/unknown".
Definition Alias (c : Category) : string := cat_get categoryAlias c "UNKNOWN".

(** The loop [for k, v := range m { if c == v { return k } }]. *)
Fixpoint cat_find (order : list (Category * string)) (s : string) : Category :=
  match order with
  | [] => UnknownCategory
  | (k, v) :: t => if (s =? v)%string then k else cat_find t s
  end.

Definition CatString (order : list (Category * string)) (s : string) : Category := cat_find order s.
Definition CatURL (order : list (Category * string)) (s : string) : Category := cat_find order s.
Definition CatAlias (order : list (Category * string)) (s : string) : Category := cat_find order s.

Definition AllCategories : list Category :=
  [Metric; Network; KeyEvent; Object; ObjectChange; CustomObject; Logging; Tracing; RUM; Security;
   Profiling; DynamicDWCategory; DialTesting; ExecutionLog; LLM; AgentLLM].

(** ** Theorems *)

(** No two categories share a string: the order of the iteration does not matter. *)
Lemma cat_find_order t order k v :
  NoDup (snd <$> t) -> order ≡ₚ t -> (k, v) ∈ t -> cat_find order v = k.
Proof.
  intros N P I. rewrite <- P in N, I. clear P. induction order as [|[k' v'] o IH]; [inversion I|].
  cbn in N |- *. apply list.NoDup_cons in N as [N1 N2].
  apply elem_of_cons in I as [[= <- <-]|I]; [by rewrite String.eqb_refl|].
  destruct (v =? v')%string eqn:B; [|by apply IH]. bool_to_prop. subst v'. destruct N1.
  apply (list_elem_of_fmap_2' snd _ _ _ I). done.
Qed.

Lemma tables_injective :
  NoDup (snd <$> categoryShort) /\ NoDup (snd <$> categoryURL) /\ NoDup (snd <$> categoryAlias).
Proof. split_and!; refine (proj1 (bool_decide_eq_true _) _); by vm_compute. Qed.

Lemma tables_total c : c ∈ AllCategories ->
  (c, Cat_String c) ∈ categoryShort /\ (c, URL c) ∈ categoryURL /\ (c, Alias c) ∈ categoryAlias.
Proof.
  intros I. repeat (apply elem_of_cons in I as [->|I]; [|]); [..|by apply elem_of_nil in I];
    split_and!; refine (proj1 (bool_decide_eq_true _) _); by vm_compute.
Qed.

(** The names of a category determine it: for every category of
    [AllCategories], parsing its name, its URL or its alias gives it back, in
    whatever order Go iterates over the maps. *)
Theorem category_roundtrip (c : Category) (o1 o2 o3 : list (Category * string)) :
  c ∈ AllCategories -> o1 ≡ₚ categoryShort -> o2 ≡ₚ categoryURL -> o3 ≡ₚ categoryAlias ->
  CatString o1 (Cat_String c) = c /\ CatURL o2 (URL c) = c /\ CatAlias o3 (Alias c) = c.
Proof.
  intros I P1 P2 P3. destruct tables_injective as (N1 & N2 & N3).
  destruct (tables_total c I) as (T1 & T2 & T3).
  split_and!; [by eapply cat_find_order; [exact N1| |] | by eapply cat_find_order; [exact N2| |]
              | by eapply cat_find_order; [exact N3| |]].
Qed.

Lemma category_roundtrip_witness :
  CatString categoryShort (Cat_String Logging) = Logging /\
  CatURL (reverse categoryURL) (URL Logging) = Logging /\
  CatAlias categoryAlias (Alias Logging) = Logging.
Proof. apply category_roundtrip; [set_solver | done | apply reverse_Permutation | done]. Defined.
