(* ===== verification/Wire.v ===== *)
(** * The protobuf wire format ([src/vendor/.../easyproto])

    The reader ([NextField] and the accessors of a [FieldContext]) and the writer (the
    [Append] methods of a [MessageMarshaler]) that [src/point/easyproto.go] and
    [easybatch.go] call, with [binary.Uvarint] and the bit patterns of [float64].  A
    marshaler is the message that it builds: appending a nested message appends its
    tag, its size and its bytes, as [Marshal] does once the sizes are known. *)

From S2P Require Import Prelude.
From Stdlib Require Export SpecFloat.

(** ** Varints *)

(** [binary.Uvarint]: the value and the number of bytes read; not positive on error. *)
Fixpoint uvarint_loop (i x s : Z) (buf : bytes) : Z * Z :=
  match buf with
  | [] => (0, 0)
  | b :: buf' =>
      let b := byte.unsigned b in
      if i =? 10 then (0, - (i + 1))
      else if b <? 128 then
        if (i =? 9) && (1 <? b) then (0, - (i + 1))
        else (Z.lor x (uint64 (Z.shiftl b s)), i + 1)
      else uvarint_loop (i + 1) (Z.lor x (uint64 (Z.shiftl (Z.land b 127) s))) (s + 7) buf'
  end.

Definition Uvarint (buf : bytes) : Z * Z := uvarint_loop 0 0 0 buf.

Definition byte_of (z : Z) : byte := byte.of_Z z.

(** [for u64 > 0x7f]: ten rounds are enough for 64 bits. *)
Fixpoint varuint_loop (fuel : nat) (dst : bytes) (u64 : Z) : bytes :=
  match fuel with
  | O => dst
  | S fuel =>
      if 127 <? u64 then
        varuint_loop fuel (dst ++ [byte_of (Z.lor 128 (u64 mod 256))]) (Z.shiftr u64 7)
      else dst ++ [byte_of u64]
  end.

Definition marshalVarUint64 (dst : bytes) (u64 : Z) : bytes :=
  if u64 <? 128 then dst ++ [byte_of u64] else varuint_loop 10 dst u64.

(** ** The writer *)

Definition wireTypeVarint : Z := 0.
Definition wireTypeI64 : Z := 1.
Definition wireTypeLen : Z := 2.
Definition wireTypeI32 : Z := 5.

Definition makeTag (fieldNum wt : Z) : Z := Z.lor (uint64 (Z.shiftl fieldNum 3)) wt.

Definition append_tag (dst : bytes) (tag : Z) : bytes :=
  if tag <? 128 then dst ++ [byte_of tag] else marshalVarUint64 dst tag.

Definition AppendUint64 (fieldNum u64 : Z) (mm : bytes) : bytes :=
  marshalVarUint64 (append_tag mm (makeTag fieldNum wireTypeVarint)) u64.

Definition AppendInt64 (fieldNum i64 : Z) (mm : bytes) : bytes :=
  AppendUint64 fieldNum (uint64 i64) mm.

Definition AppendInt32 (fieldNum i32 : Z) (mm : bytes) : bytes :=
  AppendUint64 fieldNum (uint64 (uint32 i32)) mm.

Definition AppendBool (fieldNum : Z) (v : bool) (mm : bytes) : bytes :=
  AppendUint64 fieldNum (if v then 1 else 0) mm.

Definition AppendFixed64 (fieldNum u64 : Z) (mm : bytes) : bytes :=
  append_tag mm (makeTag fieldNum wireTypeI64) ++ put_u64 u64.

(** The header of a field of type [wireTypeLen]. *)
Definition append_header (tag size : Z) (mm : bytes) : bytes :=
  if (tag <? 128) && (size <? 128) then mm ++ [byte_of tag; byte_of size]
  else marshalVarUint64 (marshalVarUint64 mm tag) size.

Definition AppendString (fieldNum : Z) (s : bytes) (mm : bytes) : bytes :=
  append_header (makeTag fieldNum wireTypeLen) (zlen s) mm ++ s.

Definition AppendBytes (fieldNum : Z) (b : bytes) (mm : bytes) : bytes :=
  AppendString fieldNum b mm.

(** [AppendMessage], once the child [child] is complete. *)
Definition AppendMessage (fieldNum : Z) (child : bytes) (mm : bytes) : bytes :=
  append_header (makeTag fieldNum wireTypeLen) (zlen child) mm ++ child.

(** ** Bit patterns of [float64] *)

(** The exponent and the mantissa fields of a finite number. *)
Definition float_fields (m : positive) (e : Z) : Z * Z :=
  if Z.pos m <? 2 ^ 52 then (0, Z.pos m) else (e + 1075, Z.pos m - 2 ^ 52).

Definition join_bits (s : bool) (e m : Z) : Z :=
  (if s then 2 ^ 63 else 0) + e * 2 ^ 52 + m.

(** [math.Float64bits]; every NaN is [math.NaN()]. *)
Definition Float64bits (f : spec_float) : Z :=
  match f with
  | S754_zero s => join_bits s 0 0
  | S754_infinity s => join_bits s 2047 0
  | S754_nan => join_bits false 2047 (2 ^ 51 + 1)
  | S754_finite s m e => let '(ef, mf) := float_fields m e in join_bits s ef mf
  end.

Definition Float64frombits (b : Z) : spec_float :=
  let s := 2 ^ 63 <=? b in
  let e := (b / 2 ^ 52) mod 2 ^ 11 in
  let m := b mod 2 ^ 52 in
  if e =? 0 then match m with Z.pos p => S754_finite s p (-1074) | _ => S754_zero s end
  else if e =? 2047 then (if m =? 0 then S754_infinity s else S754_nan)
  else match m + 2 ^ 52 with Z.pos p => S754_finite s p (e - 1075) | _ => S754_nan end.

Definition AppendDouble (fieldNum : Z) (f : spec_float) (mm : bytes) : bytes :=
  AppendFixed64 fieldNum (Float64bits f) mm.

(** ** The reader *)

Record FieldContext := mkFC {
  FieldNum : Z;
  wireType : Z;
  data : bytes;
  intValue : Z;
}.

Definition newFC : FieldContext := mkFC 0 0 [] 0.

Inductive nf_err : Type :=
| NFShort | NFEmpty | NFTag | NFNum | NFLen | NFData | NFVarint | NFI64 | NFI32
| NFWireType (wt : Z).

(** What follows the tag. *)
Definition next_value (fc : FieldContext) (fieldNum wt : Z) (src : bytes)
    : Res nf_err (FieldContext * bytes) :=
  if wt =? wireTypeLen then
    let '(u64, offset) := Uvarint src in
    if offset <=? 0 then Err NFLen
    else
      let src := zdrop offset src in
      if zlen src <? u64 then Err NFData
      else Ok (mkFC fieldNum wt (ztake u64 src) (intValue fc), zdrop u64 src)
  else if wt =? wireTypeVarint then
    let '(u64, offset) := Uvarint src in
    if offset <=? 0 then Err NFVarint
    else Ok (mkFC fieldNum wt (data fc) u64, zdrop offset src)
  else if wt =? wireTypeI64 then
    if zlen src <? 8 then Err NFI64
    else Ok (mkFC fieldNum wt (data fc) (get_u64 (ztake 8 src)), zdrop 8 src)
  else if wt =? wireTypeI32 then
    if zlen src <? 4 then Err NFI32
    else Ok (mkFC fieldNum wt (data fc) (get_u32 (ztake 4 src)), zdrop 4 src)
  else Err (NFWireType wt).

(** Past the fast path: read the tag, then the value. *)
Definition next_slow (fc : FieldContext) (src : bytes) : Res nf_err (FieldContext * bytes) :=
  match src with
  | [] => Err NFEmpty
  | b :: src' =>
      let tag := byte.unsigned b in
      if tag <? 128 then next_value fc (Z.shiftr tag 3) (Z.land tag 7) src'
      else
        let '(tag, offset) := Uvarint src in
        if offset <=? 0 then Err NFTag
        else
          let fieldNum := Z.shiftr tag 3 in
          if 2 ^ 32 - 1 <? fieldNum then Err NFNum
          else next_value fc fieldNum (Z.land tag 7) (zdrop offset src)
  end.

(** [NextField].  The fast path reads a field whose tag and length fit one byte each. *)
Definition NextField (fc : FieldContext) (src : bytes) : Res nf_err (FieldContext * bytes) :=
  match src with
  | b0 :: b1 :: rest =>
      let n := Z.lor (Z.shiftl (byte.unsigned b0) 8) (byte.unsigned b1) in
      if (Z.land n 32896 =? 0) && (Z.land n 1792 =? Z.shiftl wireTypeLen 8) then
        let msgLen := Z.land n 255 in
        if zlen rest <? msgLen then Err NFShort
        else Ok (mkFC (Z.shiftr n 11) wireTypeLen (ztake msgLen rest) (intValue fc),
                 zdrop msgLen rest)
      else next_slow fc src
  | _ => next_slow fc src
  end.

(** ** Accessors: [None] is the result [false] *)

Definition fc_Int64 (fc : FieldContext) : option Z :=
  if wireType fc =? wireTypeVarint then Some (int64 (intValue fc)) else None.

Definition fc_Uint64 (fc : FieldContext) : option Z :=
  if wireType fc =? wireTypeVarint then Some (intValue fc) else None.

(** [getUint32], then the conversion. *)
Definition fc_Int32 (fc : FieldContext) : option Z :=
  if wireType fc =? wireTypeVarint then
    if 2 ^ 32 - 1 <? intValue fc then None else Some (int32 (intValue fc))
  else None.

Definition fc_Bool (fc : FieldContext) : option bool :=
  if wireType fc =? wireTypeVarint then
    if intValue fc =? 0 then Some false
    else if intValue fc =? 1 then Some true else None
  else None.

Definition fc_Double (fc : FieldContext) : option spec_float :=
  if wireType fc =? wireTypeI64 then Some (Float64frombits (intValue fc)) else None.

(** [String], [Bytes] and [MessageData]. *)
Definition fc_Data (fc : FieldContext) : option bytes :=
  if wireType fc =? wireTypeLen then Some (data fc) else None.

(** ** Reading a message: [for len(src) > 0 { src, err = fc.NextField(src); ... }]

    One round of the body continues with a new state or leaves the loop; an error of
    [NextField] leaves it through [bad], with the state.  The fuel is the length of the message: each
    round consumes a byte at least ([loop_unfold]). *)

Inductive ctl (S R : Type) : Type :=
| Continue (s : S)
| Return (r : R).

Arguments Continue {S R} s.
Arguments Return {S R} r.

Section Loop.
Context {S R : Type}.
Context (bad : S -> nf_err -> R) (body : FieldContext -> S -> ctl S R) (done : S -> R).

Fixpoint fields_loop (fuel : nat) (fc : FieldContext) (src : bytes) (s : S) : R :=
  match src, fuel with
  | [], _ => done s
  | _, O => bad s NFEmpty
  | _, Datatypes.S fuel =>
      match NextField fc src with
      | Err e => bad s e
      | Ok (fc, src) =>
          match body fc s with
          | Continue s => fields_loop fuel fc src s
          | Return r => r
          end
      end
  end.

Definition fields (src : bytes) (s : S) : R := fields_loop (length src) newFC src s.
End Loop.
