(* ===== verification/WireThms.v ===== *)
(** * The wire format: what is written is read back

    A [wire] is one field on the wire; [wenc] is its encoding, and a message is the
    concatenation of the encodings of its fields.  [NextField_enc]: the reader returns
    the first field and the rest.  [fields_msg]: a loop over a message is a fold over
    its fields. *)

From S2P Require Import Prelude Wire.

(** ** Bytes and bits *)

Lemma unsigned_byte_of z : 0 <= z < 256 -> byte.unsigned (byte_of z) = z.
Proof. intros H. unfold byte_of. rewrite byte.unsigned_of_Z. by apply Z.mod_small. Qed.

Lemma byte_range b : 0 <= byte.unsigned b < 256.
Proof. apply byte.unsigned_range. Qed.

Lemma lor_shift x b s : 0 <= s -> 0 <= x < 2 ^ s -> 0 <= b ->
  Z.lor x (Z.shiftl b s) = x + b * 2 ^ s.
Proof.
  intros Hs Hx Hb. rewrite <- Z.shiftl_mul_pow2 by done.
  assert (Z.land x (Z.shiftl b s) = 0) as D; [|by rewrite Z.add_nocarry_lxor, Z.lxor_lor].
  apply Z.bits_inj'. intros n Hn.
  rewrite Z.land_spec, Z.bits_0. destruct (Z.lt_ge_cases n s).
  - rewrite Z.shiftl_spec_low by lia. by rewrite andb_false_r.
  - rewrite <- (Z.mod_small x (2 ^ s)) by lia.
    by rewrite Z.mod_pow2_bits_high by lia.
Qed.

Lemma lor_128 z : 0 <= z < 128 -> Z.lor 128 z = z + 128.
Proof. intros H. rewrite Z.lor_comm. apply (lor_shift z 1 7); lia. Qed.

(** The byte of a continued group of seven bits, and what the reader takes of it. *)
Lemma lor_128_mod u : 0 <= u -> Z.lor 128 (u mod 256) = u mod 128 + 128.
Proof.
  intros H. rewrite <- lor_128 by (apply Z.mod_pos_bound; lia).
  apply Z.bits_inj'. intros n Hn. rewrite !Z.lor_spec.
  change 256 with (2 ^ 8). change 128 with (2 ^ 7) at 2 3.
  rewrite !Z.testbit_mod_pow2 by lia.
  destruct (Z.eq_dec n 7) as [->|]; [done|].
  replace (n <? 8) with (n <? 7); [done|].
  destruct (Z.ltb_spec n 7), (Z.ltb_spec n 8); lia || done.
Qed.

Lemma land_127 z : Z.land z 127 = z mod 128.
Proof. change 127 with (Z.ones 7). rewrite Z.land_ones by lia. done. Qed.

Lemma land_7 z : Z.land z 7 = z mod 8.
Proof. change 7 with (Z.ones 3). rewrite Z.land_ones by lia. done. Qed.

Lemma uint64_small z : 0 <= z < 2 ^ 64 -> uint64 z = z.
Proof. intros H. unfold uint64, wrapU. by apply Z.mod_small. Qed.

(** ** Varints *)

Lemma varuint_loop_app fuel dst u : varuint_loop fuel dst u = dst ++ varuint_loop fuel [] u.
Proof.
  revert dst u. induction fuel as [|fuel IH]; intros dst u; cbn [varuint_loop].
  - by rewrite app_nil_r.
  - destruct (127 <? u); [|done]. rewrite IH, (IH ([] ++ _)). by rewrite <- app_assoc.
Qed.

Lemma marshalVarUint64_app dst u : marshalVarUint64 dst u = dst ++ marshalVarUint64 [] u.
Proof. unfold marshalVarUint64. destruct (u <? 128); [done|]. apply varuint_loop_app. Qed.

Lemma varuint_loop_S fuel dst u : varuint_loop (S fuel) dst u
  = if 127 <? u then varuint_loop fuel (dst ++ [byte_of (Z.lor 128 (u mod 256))]) (Z.shiftr u 7)
    else dst ++ [byte_of u].
Proof. done. Qed.

(** The bytes of a varint. *)
Definition varint (u : Z) : bytes := marshalVarUint64 [] u.

Lemma varint_loop u : 0 <= u -> varint u = varuint_loop 10 [] u.
Proof.
  intros H. unfold varint, marshalVarUint64. destruct (u <? 128) eqn:E; [|done].
  bool_to_prop. cbn [varuint_loop]. by ztest.
Qed.

Lemma uvarint_varuint fuel : forall i x u rest,
  0 <= i -> i + Z.of_nat fuel = 10 -> 0 <= x < 2 ^ (7 * i) -> 0 <= u < 2 ^ (64 - 7 * i) ->
  i < 10 ->
  uvarint_loop i x (7 * i) (varuint_loop fuel [] u ++ rest)
  = (x + u * 2 ^ (7 * i), i + zlen (varuint_loop fuel [] u)).
Proof.
  induction fuel as [|fuel IH]; intros i x u rest Hi Hf Hx Hu Hlt; [lia|].
  assert (u * 2 ^ (7 * i) < 2 ^ 64) as Hb.
  { replace 64 with ((64 - 7 * i) + 7 * i) at 1 by lia. rewrite Z.pow_add_r by lia. nia. }
  assert (forall b, 0 <= b <= u -> uint64 (Z.shiftl b (7 * i)) = b * 2 ^ (7 * i)) as Sh.
  { intros b B. rewrite Z.shiftl_mul_pow2 by lia. apply uint64_small. nia. }
  cbn [varuint_loop]. destruct (127 <? u) eqn:E; bool_to_prop.
  - assert (i < 9) as Hi9.
    { destruct (Z.lt_ge_cases i 9); [done|]. assert (i = 9) as -> by lia.
      change (2 ^ (64 - 7 * 9)) with 2 in Hu. lia. }
    rewrite varuint_loop_app. cbn [app uvarint_loop].
    pose proof (Z.mod_pos_bound u 128 ltac:(lia)) as Hm.
    pose proof (Z.div_mod u 128 ltac:(lia)) as Hd.
    rewrite lor_128_mod by lia. rewrite unsigned_byte_of by lia. ztest.
    rewrite land_127. rewrite <- Zplus_mod_idemp_r. change (128 mod 128) with 0.
    rewrite Z.add_0_r, Zmod_mod.
    rewrite Sh by lia. rewrite <- Z.shiftl_mul_pow2 by lia.
    rewrite lor_shift by lia.
    change (Z.shiftr u 7) with (Z.shiftr u 7). rewrite Z.shiftr_div_pow2 by lia.
    change (2 ^ 7) with 128.
    assert (2 ^ (7 * (i + 1)) = 128 * 2 ^ (7 * i)) as P.
    { replace (7 * (i + 1)) with (7 + 7 * i) by lia. rewrite Z.pow_add_r by lia. done. }
    replace (7 * i + 7) with (7 * (i + 1)) by lia.
    rewrite IH; [| lia | lia | rewrite P; nia | | lia].
    + rewrite P. rewrite zlen_cons. f_equal; [nia | lia].
    + split; [apply Z.div_pos; lia|]. apply Z.div_lt_upper_bound; [lia|].
      replace (64 - 7 * i) with (7 + (64 - 7 * (i + 1))) in Hu by lia.
      rewrite Z.pow_add_r in Hu by lia. exact (proj2 Hu).
  - cbn [app uvarint_loop]. rewrite unsigned_byte_of by lia. ztest.
    assert ((i =? 9) && (1 <? u) = false) as ->.
    { destruct (Z.eqb_spec i 9) as [->|]; [|done].
      change (2 ^ (64 - 7 * 9)) with 2 in Hu. cbn. apply Z.ltb_ge. lia. }
    rewrite Sh by lia. rewrite <- Z.shiftl_mul_pow2 by lia. rewrite lor_shift by lia.
    rewrite Z.shiftl_mul_pow2 by lia. f_equal; done.
Qed.

Lemma Uvarint_varint u rest : 0 <= u < 2 ^ 64 -> Uvarint (varint u ++ rest) = (u, zlen (varint u)).
Proof.
  intros H. rewrite varint_loop by lia.
  replace (u, zlen (varuint_loop 10 [] u))
    with (0 + u * 2 ^ (7 * 0), 0 + zlen (varuint_loop 10 [] u)) by (f_equal; lia).
  apply (uvarint_varuint 10 0 0 u rest); lia || done.
Qed.

Lemma varint_pos u : 0 < zlen (varint u).
Proof.
  unfold varint, marshalVarUint64. destruct (u <? 128); [done|].
  rewrite varuint_loop_S.
  destruct (127 <? u); [|done]. rewrite varuint_loop_app. rewrite zlen_app.
  pose proof (zlen_nonneg (varuint_loop 9 [] (Z.shiftr u 7))). autorewrite with go. lia.
Qed.

Lemma varint_small u : u < 128 -> varint u = [byte_of u].
Proof. intros H. unfold varint, marshalVarUint64. by ztest. Qed.

(** A varint of more than one byte starts with the continuation bit. *)
Lemma varint_big u : 128 <= u -> exists b l, varint u = b :: l /\ 128 <= byte.unsigned b.
Proof.
  intros H. rewrite varint_loop by lia.
  rewrite varuint_loop_S.
  ztest. rewrite varuint_loop_app. cbn [app]. eexists _, _. split; [done|].
  pose proof (Z.mod_pos_bound u 128 ltac:(lia)).
  rewrite lor_128_mod, unsigned_byte_of by lia. lia.
Qed.

(** ** The fast path of the reader *)

Definition fast (b0 b1 : Z) : bool :=
  let n := Z.lor (Z.shiftl b0 8) b1 in
  (Z.land n 32896 =? 0) && (Z.land n 1792 =? Z.shiftl wireTypeLen 8).

(** What the two bytes of a fast field hold. *)
Definition fast_fields (b0 b1 : Z) : bool :=
  let n := Z.lor (Z.shiftl b0 8) b1 in
  Bool.eqb (fast b0 b1) ((b0 <? 128) && (b1 <? 128) && (b0 mod 8 =? 2)) &&
  (Z.land n 255 =? b1) && (Z.shiftr n 11 =? Z.shiftr b0 3).

Lemma all_fast : forallb (fun b0 => forallb (fast_fields b0) (seqZ 0 256)) (seqZ 0 256) = true.
Proof. vm_compute. reflexivity. Qed.

Lemma fast_spec b0 b1 : 0 <= b0 < 256 -> 0 <= b1 < 256 -> fast_fields b0 b1 = true.
Proof.
  intros H0 H1. pose proof all_fast as A. rewrite forallb_forall in A.
  specialize (A b0). rewrite forallb_forall in A.
  apply A; apply list_elem_of_In, elem_of_seqZ; lia.
Qed.

Lemma Uvarint_byte b rest : byte.unsigned b < 128 -> Uvarint (b :: rest) = (byte.unsigned b, 1).
Proof.
  intros H. pose proof (byte_range b). unfold Uvarint. cbn [uvarint_loop]. ztest.
  cbn [andb]. rewrite Z.shiftl_0_r, uint64_small by lia. by rewrite Z.lor_0_l.
Qed.

(** The fast path is an optimisation: it reads what the general path reads. *)
Lemma NextField_slow fc src r : next_slow fc src = Ok r <-> NextField fc src = Ok r.
Proof.
  destruct src as [|b0 [|b1 rest]]; [done..|].
  unfold NextField. fold (fast (byte.unsigned b0) (byte.unsigned b1)).
  pose proof (byte_range b0). pose proof (byte_range b1).
  pose proof (fast_spec (byte.unsigned b0) (byte.unsigned b1) ltac:(done) ltac:(done)) as F.
  unfold fast_fields in F. bool_to_prop. rewrite eqb_true_iff in *.
  destruct (fast _ _) eqn:Ef; [|done].
  match goal with E : true = _ |- _ => symmetry in E; bool_to_prop end.
  unfold next_slow. ztest. rewrite land_7. unfold next_value.
  match goal with E : _ mod 8 = 2 |- _ => rewrite E end.
  change (2 =? wireTypeLen) with true. cbv iota.
  rewrite Uvarint_byte by done. change (1 <=? 0) with false. cbv iota zeta.
  replace (zdrop 1 (b1 :: rest)) with rest by (by rewrite zdrop_drop).
  repeat match goal with E : Z.land _ 255 = _ |- _ => rewrite E; clear E
                       | E : Z.shiftr _ 11 = _ |- _ => rewrite E; clear E end.
  by destruct (zlen rest <? _).
Qed.

(** ** Fields on the wire *)

Inductive wire : Type :=
| WVarint (n u : Z)
| WI64 (n u : Z)
| WLen (n : Z) (d : bytes).

Definition wnum (w : wire) : Z := match w with WVarint n _ | WI64 n _ | WLen n _ => n end.

Definition wtype (w : wire) : Z :=
  match w with WVarint _ _ => wireTypeVarint | WI64 _ _ => wireTypeI64 | WLen _ _ => wireTypeLen end.

Definition wbody (w : wire) : bytes :=
  match w with WVarint _ u => varint u | WI64 _ u => put_u64 u | WLen _ d => varint (zlen d) ++ d end.

Definition wenc (w : wire) : bytes := varint (makeTag (wnum w) (wtype w)) ++ wbody w.

Definition wire_ok (w : wire) : Prop :=
  0 <= wnum w < 2 ^ 29 /\
  match w with WVarint _ u | WI64 _ u => 0 <= u < 2 ^ 64 | WLen _ d => zlen d < 2 ^ 64 end.

(** What the reader holds after the field. *)
Definition fc_of (fc : FieldContext) (w : wire) : FieldContext :=
  match w with
  | WVarint n u | WI64 n u => mkFC n (wtype w) (data fc) u
  | WLen n d => mkFC n wireTypeLen d (intValue fc)
  end.

Lemma fc_Data_len fc n d : fc_Data (fc_of fc (WLen n d)) = Some d.
Proof. done. Qed.

Lemma makeTag_eq n w : 0 <= n < 2 ^ 29 -> makeTag n (wtype w) = 8 * n + wtype w.
Proof.
  intros H. unfold makeTag. rewrite Z.shiftl_mul_pow2 by lia. rewrite uint64_small by lia.
  rewrite <- Z.shiftl_mul_pow2, Z.lor_comm by lia.
  rewrite lor_shift; [lia | lia | destruct w; by vm_compute | lia].
Qed.

Lemma zdrop_app {A} (l k : list A) : zdrop (zlen l) (l ++ k) = k.
Proof. rewrite zdrop_drop, zlen_to_nat. apply drop_app_length. Qed.

Lemma ztake_app {A} (l k : list A) : ztake (zlen l) (l ++ k) = l.
Proof. rewrite ztake_take, zlen_to_nat. apply take_app_length. Qed.

Lemma next_value_enc fc w rest : wire_ok w ->
  next_value fc (wnum w) (wtype w) (wbody w ++ rest) = Ok (fc_of fc w, rest).
Proof.
  intros [Hn Hw]. destruct w as [n u|n u|n d]; unfold next_value; cbn [wnum wtype wbody fc_of].
  - change (wireTypeVarint =? wireTypeLen) with false. change (wireTypeVarint =? wireTypeVarint) with true.
    cbv iota. rewrite Uvarint_varint by done. pose proof (varint_pos u). ztest.
    by rewrite zdrop_app.
  - change (wireTypeI64 =? wireTypeLen) with false. change (wireTypeI64 =? wireTypeVarint) with false.
    change (wireTypeI64 =? wireTypeI64) with true. cbv iota.
    rewrite zlen_app, zlen_put_u64. pose proof (zlen_nonneg rest). ztest.
    rewrite <- (zlen_put_u64 u), zdrop_app, ztake_app, get_put_u64.
    by rewrite Z.mod_small.
  - change (wireTypeLen =? wireTypeLen) with true. cbv iota. rewrite <- app_assoc.
    pose proof (zlen_nonneg d). rewrite Uvarint_varint by done.
    pose proof (varint_pos (zlen d)). ztest. rewrite zdrop_app, zlen_app.
    pose proof (zlen_nonneg rest). ztest. by rewrite ztake_app, zdrop_app.
Qed.

Lemma NextField_enc fc w rest : wire_ok w -> NextField fc (wenc w ++ rest) = Ok (fc_of fc w, rest).
Proof.
  intros Hw. apply NextField_slow. unfold wenc. rewrite <- app_assoc. pose proof Hw as [Hn _].
  set (tag := makeTag (wnum w) (wtype w)).
  assert (0 <= wtype w < 8) as Ht by (destruct w; by vm_compute).
  assert (tag = 8 * wnum w + wtype w) as Et by by apply makeTag_eq.
  assert (Z.shiftr tag 3 = wnum w /\ Z.land tag 7 = wtype w) as [E1 E2].
  { rewrite land_7, Z.shiftr_div_pow2, Et by lia. change (2 ^ 3) with 8.
    split; [symmetry; apply (Z.div_unique _ _ _ (wtype w)) | symmetry; apply (Z.mod_unique _ _ (wnum w))]; lia. }
  destruct (Z.lt_ge_cases tag 128) as [L|L].
  - rewrite varint_small by done. cbn [app next_slow]. rewrite unsigned_byte_of by lia. ztest.
    rewrite E1, E2. by apply next_value_enc.
  - destruct (varint_big tag L) as (b & l & E & Hb). unfold next_slow. rewrite E. cbn [app].
    ztest. change (b :: l ++ ?x) with ((b :: l) ++ x). rewrite <- E.
    rewrite Uvarint_varint by lia. pose proof (varint_pos tag). ztest.
    rewrite E1, E2, zdrop_app. ztest. by apply next_value_enc.
Qed.

(** ** The writer appends encoded fields *)

Lemma append_tag_app dst tag : append_tag dst tag = dst ++ varint tag.
Proof.
  unfold append_tag. rewrite marshalVarUint64_app. fold (varint tag).
  destruct (tag <? 128) eqn:E; [|done]. bool_to_prop. by rewrite varint_small.
Qed.

Lemma append_header_app tag size mm : append_header tag size mm = mm ++ varint tag ++ varint size.
Proof.
  unfold append_header. rewrite marshalVarUint64_app, (marshalVarUint64_app mm), <- app_assoc.
  fold (varint tag) (varint size).
  destruct ((tag <? 128) && (size <? 128)) eqn:E; [|done]. bool_to_prop. by rewrite !varint_small.
Qed.

Lemma AppendUint64_enc n u mm : AppendUint64 n u mm = mm ++ wenc (WVarint n u).
Proof.
  unfold AppendUint64. rewrite marshalVarUint64_app, append_tag_app. fold (varint u).
  by rewrite <- app_assoc.
Qed.

Lemma AppendDouble_enc n f mm : AppendDouble n f mm = mm ++ wenc (WI64 n (Float64bits f)).
Proof. unfold AppendDouble, AppendFixed64. by rewrite append_tag_app, <- app_assoc. Qed.

Lemma AppendString_enc n s mm : AppendString n s mm = mm ++ wenc (WLen n s).
Proof. unfold AppendString. rewrite append_header_app. unfold wenc. cbn. by rewrite <- !app_assoc. Qed.

Lemma AppendMessage_enc n c mm : AppendMessage n c mm = mm ++ wenc (WLen n c).
Proof. apply AppendString_enc. Qed.

(** A message is the concatenation of its fields. *)
Definition msg (ws : list wire) : bytes := mjoin (wenc <$> ws).

Lemma msg_nil : msg [] = [].
Proof. done. Qed.

Lemma msg_cons w ws : msg (w :: ws) = wenc w ++ msg ws.
Proof. done. Qed.

Lemma msg_app a b : msg (a ++ b) = msg a ++ msg b.
Proof. unfold msg. by rewrite fmap_app, join_app. Qed.

Lemma msg_snoc ws w : msg ws ++ wenc w = msg (ws ++ [w]).
Proof. rewrite msg_app. unfold msg at 3. cbn. by rewrite app_nil_r. Qed.

Lemma AppendInt64_enc n i mm : AppendInt64 n i mm = mm ++ wenc (WVarint n (uint64 i)).
Proof. apply AppendUint64_enc. Qed.

Lemma AppendInt32_enc n i mm : AppendInt32 n i mm = mm ++ wenc (WVarint n (uint64 (uint32 i))).
Proof. apply AppendUint64_enc. Qed.

Lemma AppendBool_enc n b mm : AppendBool n b mm = mm ++ wenc (WVarint n (if b then 1 else 0)).
Proof. apply AppendUint64_enc. Qed.

Lemma AppendBytes_enc n s mm : AppendBytes n s mm = mm ++ wenc (WLen n s).
Proof. apply AppendString_enc. Qed.

Create Rewrite HintDb wire.
#[export] Hint Rewrite AppendUint64_enc AppendInt64_enc AppendInt32_enc AppendBool_enc
  AppendDouble_enc AppendString_enc AppendBytes_enc AppendMessage_enc : wire.

(** ** Progress of the reader *)

Lemma uvarint_progress buf : forall i x s, 0 <= i -> snd (uvarint_loop i x s buf) <= i + zlen buf.
Proof.
  induction buf as [|b buf IH]; intros i x s Hi; cbn [uvarint_loop].
  - rewrite (@zlen_nil byte). cbn. lia.
  - rewrite zlen_cons. pose proof (zlen_nonneg buf).
    destruct (i =? 10); [cbn; lia|]. destruct (byte.unsigned b <? 128).
    + destruct ((i =? 9) && _); cbn; lia.
    + specialize (IH (i + 1) (Z.lor x (uint64 (Z.shiftl (Z.land (byte.unsigned b) 127) s))) (s + 7)).
      lia.
Qed.

Lemma length_zdrop {A} n (l : list A) : (length (zdrop n l) <= length l)%nat.
Proof. rewrite zdrop_drop, length_drop. lia. Qed.

Lemma length_zdrop_lt {A} n (l : list A) : 0 < n -> l <> [] -> (length (zdrop n l) < length l)%nat.
Proof. intros Hn Hl. rewrite zdrop_drop, length_drop. destruct l; [done|]. cbn. lia. Qed.

Lemma next_value_progress fc n wt src fc' src' :
  next_value fc n wt src = Ok (fc', src') -> (length src' <= length src)%nat.
Proof.
  unfold next_value. destruct (Uvarint src) as [u o].
  repeat (case_match; try done); intros [= _ <-]; try apply length_zdrop.
  etrans; apply length_zdrop.
Qed.

Lemma NextField_progress fc src fc' src' :
  NextField fc src = Ok (fc', src') -> (length src' < length src)%nat.
Proof.
  rewrite <- NextField_slow. destruct src as [|b src]; [done|]. unfold next_slow.
  destruct (byte.unsigned b <? 128).
  - intros H%next_value_progress. cbn. lia.
  - destruct (Uvarint (b :: src)) as [tag o]. destruct (o <=? 0) eqn:E; [done|]. bool_to_prop.
    destruct (2 ^ 32 - 1 <? _); [done|]. intros H%next_value_progress.
    pose proof (length_zdrop_lt o (b :: src) E ltac:(done)). lia.
Qed.

(** ** Loops over messages *)

Section Loops.
Context {S R : Type}.
Context (bad : S -> nf_err -> R) (body : FieldContext -> S -> ctl S R) (fin : S -> R).

Abbreviation loop := (fields_loop bad body fin).

Lemma loop_fuel fuel fuel' fc src s :
  (length src <= fuel)%nat -> (length src <= fuel')%nat -> loop fuel fc src s = loop fuel' fc src s.
Proof.
  revert fuel' fc src s. induction fuel as [|fuel IH]; intros fuel' fc src s H H'.
  - destruct src; [|cbn in H; lia]. by destruct fuel'.
  - destruct src as [|b src]; [by destruct fuel'|]. destruct fuel' as [|fuel']; [cbn in H'; lia|].
    cbn [fields_loop]. destruct (NextField fc (b :: src)) as [[fc' src']|] eqn:E; [|done].
    apply NextField_progress in E. destruct (body fc' s); [|done]. apply IH; cbn in *; lia.
Qed.

(** The loop of the source: the fuel never runs out. *)
Lemma loop_unfold fc src s : loop (length src) fc src s =
  match src with
  | [] => fin s
  | _ => match NextField fc src with
         | Err e => bad s e
         | Ok (fc, src) => match body fc s with
                           | Continue s => loop (length src) fc src s
                           | Return r => r
                           end
         end
  end.
Proof.
  destruct src as [|b src]; [done|]. cbn [length fields_loop].
  destruct (NextField fc (b :: src)) as [[fc' src']|] eqn:E; [|done].
  apply NextField_progress in E. destruct (body fc' s); [|done]. apply loop_fuel; cbn in *; lia.
Qed.

(** A loop over an encoded message visits its fields. *)
Fixpoint wires_loop (fc : FieldContext) (ws : list wire) (s : S) : R :=
  match ws with
  | [] => fin s
  | w :: ws => match body (fc_of fc w) s with
               | Continue s => wires_loop (fc_of fc w) ws s
               | Return r => r
               end
  end.

Lemma enc_cons w : wenc w <> [].
Proof.
  intros E. apply (f_equal zlen) in E. unfold wenc in E. rewrite zlen_app, zlen_nil in E.
  pose proof (varint_pos (makeTag (wnum w) (wtype w))). pose proof (zlen_nonneg (wbody w)). lia.
Qed.

Lemma loop_msg ws : Forall wire_ok ws ->
  forall fc s, loop (length (msg ws)) fc (msg ws) s = wires_loop fc ws s.
Proof.
  induction 1 as [|w ws Hw _ IH]; intros fc s; [done|].
  rewrite loop_unfold, msg_cons. destruct (wenc w ++ msg ws) eqn:E.
  { apply app_eq_nil in E as [E _]. by apply enc_cons in E. }
  rewrite <- E, NextField_enc by done. cbn [wires_loop]. destruct (body (fc_of fc w) s); [|done].
  apply IH.
Qed.

Lemma fields_msg ws s : Forall wire_ok ws -> fields bad body fin (msg ws) s = wires_loop newFC ws s.
Proof. intros H. by apply loop_msg. Qed.

(** Fields that the body folds into the state. *)
Lemma wires_each {A} (f : A -> wire) (step : A -> S -> S) (l : list A) rest :
  (forall a, a ∈ l -> forall fc s, body (fc_of fc (f a)) s = Continue (step a s)) ->
  forall fc s, exists fc', wires_loop fc ((f <$> l) ++ rest) s
                           = wires_loop fc' rest (fold_left (fun s a => step a s) l s).
Proof.
  induction l as [|a l IH]; intros H fc s; [by exists fc|].
  cbn. rewrite (H a) by left. apply IH. intros b Hb. apply H. by right.
Qed.

(** The same, for a body that needs an invariant: [Acc seen s] relates the state to the
    fields already seen. *)
Lemma wires_acc {A} (f : A -> wire) (Acc : list A -> S -> Prop) (l : list A) rest :
  (forall seen a fc s, a ∈ l -> Acc seen s ->
     exists s', body (fc_of fc (f a)) s = Continue s' /\ Acc (seen ++ [a]) s') ->
  forall seen fc s, Acc seen s ->
  exists fc' s', wires_loop fc ((f <$> l) ++ rest) s = wires_loop fc' rest s' /\ Acc (seen ++ l) s'.
Proof.
  induction l as [|a l IH]; intros H seen fc s Hs.
  - exists fc, s. by rewrite app_nil_r.
  - destruct (H seen a fc s ltac:(left) Hs) as (s1 & E1 & A1). cbn. rewrite E1.
    destruct (IH ltac:(intros ???? Hb; apply H; by right) _ (fc_of fc (f a)) _ A1) as (fc' & s' & E & A2).
    exists fc', s'. split; [done|]. by rewrite <- app_assoc in A2.
Qed.

(** An invariant of the body is an invariant of the loop, whatever the input. *)
Lemma fields_inv (P : S -> Prop) (Q : R -> Prop) :
  (forall s e, P s -> Q (bad s e)) -> (forall s, P s -> Q (fin s)) ->
  (forall fc s, P s -> match body fc s with Continue s' => P s' | Return r => Q r end) ->
  forall src s, P s -> Q (fields bad body fin src s).
Proof.
  intros Hb Hf Hs src. unfold fields. generalize newFC as fc. generalize (length src) as fuel.
  intros fuel. revert src. induction fuel as [|fuel IH]; intros [|b src] fc s H; cbn [fields_loop]; auto.
  destruct (NextField fc (b :: src)) as [[fc' src']|e]; [|auto].
  specialize (Hs fc' s H). destruct (body fc' s); auto.
Qed.
End Loops.

(** A field is no longer than the message that holds it. *)
Lemma zlen_enc_le w ws : w ∈ ws -> zlen (wbody w) <= zlen (msg ws).
Proof.
  induction 1 as [w ws|w v ws _ IH]; rewrite msg_cons, zlen_app; unfold wenc; rewrite zlen_app.
  - pose proof (zlen_nonneg (msg ws)). pose proof (zlen_nonneg (varint (makeTag (wnum w) (wtype w)))). lia.
  - pose proof (zlen_nonneg (wbody v)). pose proof (zlen_nonneg (varint (makeTag (wnum v) (wtype v)))). lia.
Qed.

Lemma zlen_WLen_le n d ws : WLen n d ∈ ws -> zlen d <= zlen (msg ws).
Proof.
  intros H%zlen_enc_le. cbn [wbody] in H. rewrite zlen_app in H.
  pose proof (zlen_nonneg (varint (zlen d))). lia.
Qed.

(** In a message of a legal size, only the numbers are left to check. *)
Definition num_ok (w : wire) : Prop :=
  0 <= wnum w < 2 ^ 29 /\ match w with WVarint _ u | WI64 _ u => 0 <= u < 2 ^ 64 | WLen _ _ => True end.

Lemma msg_wires_ok ws : Forall num_ok ws -> zlen (msg ws) < 2 ^ 64 -> Forall wire_ok ws.
Proof.
  rewrite !list.Forall_forall. intros H Hl w Hw. destruct (H w Hw) as [Hn Hv]. split; [done|].
  destruct w; [done|done|]. pose proof (zlen_WLen_le _ _ _ Hw). lia.
Qed.

(** ** Floats *)

Lemma digits2_pos_bounds m : 2 ^ (Z.pos (digits2_pos m) - 1) <= Z.pos m < 2 ^ Z.pos (digits2_pos m).
Proof.
  assert (forall d, 2 ^ (Z.pos (Pos.succ d) - 1) = 2 * 2 ^ (Z.pos d - 1) /\
                    2 ^ Z.pos (Pos.succ d) = 2 * 2 ^ Z.pos d) as P.
  { intros d. rewrite <- !Z.pow_succ_r by lia. split; f_equal; lia. }
  induction m as [m IH|m IH|]; cbn [digits2_pos].
  - destruct (P (digits2_pos m)). lia.
  - destruct (P (digits2_pos m)). lia.
  - done.
Qed.

Lemma finite_fields m e : bounded 53 1024 m e = true ->
  (Z.pos m < 2 ^ 52 /\ e = -1074) \/ (2 ^ 52 <= Z.pos m < 2 ^ 53 /\ -1074 <= e <= 971).
Proof.
  unfold bounded, canonical_mantissa, fexp, emin. intros H. apply andb_prop in H as [C B].
  apply Z.eqb_eq in C. bool_to_prop. pose proof (digits2_pos_bounds m) as D.
  set (d := Z.pos (digits2_pos m)) in *.
  assert (d <= 53) as D53 by lia. assert (1 <= d) as D1 by (subst d; lia).
  pose proof (Z.pow_le_mono_r 2 d 53 ltac:(lia) D53).
  destruct (Z.lt_ge_cases (Z.pos m) (2 ^ 52)) as [L|L].
  - left. split; [done|].
    assert (d <= 52); [|lia]. destruct (Z.le_gt_cases d 52); [done|].
    assert (d = 53) as E by lia. rewrite E in D. change (53 - 1) with 52 in D. lia.
  - right. split; [lia|]. lia.
Qed.

Lemma join_bits_range s e m : 0 <= e < 2 ^ 11 -> 0 <= m < 2 ^ 52 -> 0 <= join_bits s e m < 2 ^ 64.
Proof. unfold join_bits. destruct s; lia. Qed.

Lemma Float64bits_range f : valid_binary 53 1024 f = true -> 0 <= Float64bits f < 2 ^ 64.
Proof.
  destruct f as [s|s| |s m e]; intros V; cbn -[Z.pow]; try (apply join_bits_range; lia).
  destruct (finite_fields m e V) as [[L ->]|[L B]]; unfold float_fields; ztest;
    apply join_bits_range; lia.
Qed.

Lemma join_bits_split s e m : 0 <= e < 2 ^ 11 -> 0 <= m < 2 ^ 52 ->
  (2 ^ 63 <=? join_bits s e m) = s /\ (join_bits s e m / 2 ^ 52) mod 2 ^ 11 = e /\
  join_bits s e m mod 2 ^ 52 = m.
Proof.
  intros He Hm. split; [unfold join_bits; destruct s; ztest; done|].
  assert (join_bits s e m = ((if s then 2 ^ 11 else 0) + e) * 2 ^ 52 + m) as E
    by (unfold join_bits; destruct s; lia).
  rewrite E. rewrite Z.div_add_l, (Z.div_small m), Z.add_0_r by lia.
  split.
  - destruct s; [|by apply Z.mod_small]. rewrite <- Zplus_mod_idemp_l, Z_mod_same_full.
    by apply Z.mod_small.
  - rewrite Z.add_comm, Z_mod_plus_full. by apply Z.mod_small.
Qed.

(** A [float64] survives the wire; a NaN stays a NaN. *)
Lemma Float64_roundtrip f : valid_binary 53 1024 f = true -> Float64frombits (Float64bits f) = f.
Proof.
  destruct f as [s|s| |s m e]; intros V; [by destruct s|by destruct s|done|].
  unfold Float64frombits, Float64bits.
  destruct (finite_fields m e V) as [[L ->]|[L B]]; unfold float_fields; ztest.
  - destruct (join_bits_split s 0 (Z.pos m)) as (-> & -> & ->); [lia|lia|]. done.
  - destruct (join_bits_split s (e + 1075) (Z.pos m - 2 ^ 52)) as (-> & -> & ->); [lia|lia|].
    ztest. rewrite Z.sub_add. f_equal. lia.
Qed.
