(* ===== verification/PointProto.v ===== *)
(** * Points on the wire ([src/point/easyproto.go])

    [PBPoint] is the protobuf message of a point: the warnings carry their printed
    messages.  A marshaler is the message that it builds ([Wire]).  The unmarshalling
    functions return an error value; [NewPoint], which they call, may panic. *)

From S2P Require Import Prelude Wire PointKV PointCheck PointNew.

Record PBWarn := mkPBWarn { WarnType : bytes; WarnMsg : bytes }.

Record PBPoint := mkPB {
  pb_Name : bytes;
  pb_Fields : KVs;
  pb_Time : Z;
  pb_Warns : list PBWarn;
  pb_Debugs : list bytes;
}.

(** ** Marshalling *)

(** [Field.marshalProtobuf]; an array value is not written. *)
Definition marshal_value (v : option FieldVal) (mm : bytes) : bytes :=
  match v with
  | Some (Field_I x) => AppendInt64 2 x mm
  | Some (Field_U x) => AppendUint64 3 x mm
  | Some (Field_F x) => AppendDouble 4 x mm
  | Some (Field_B x) => AppendBool 5 x mm
  | Some (Field_D x) => AppendBytes 6 x mm
  | Some (Field_S x) => AppendString 11 x mm
  | Some (Field_A _) => mm
  | None => mm
  end.

Definition Field_marshalProtobuf (kv : Field) (mm : bytes) : bytes :=
  let mm := AppendString 1 (Key kv) mm in
  let mm := marshal_value (Val kv) mm in
  let mm := AppendBool 8 (IsTag kv) mm in
  let mm := AppendInt32 9 (int32 (Type_ kv)) mm in
  let mm := AppendString 10 (Unit kv) mm in
  AppendString 12 (Description kv) mm.

Definition Warn_marshalProtobuf (w : PBWarn) (mm : bytes) : bytes :=
  AppendString 2 (WarnMsg w) (AppendString 1 (WarnType w) mm).

Definition Debug_marshalProtobuf (d : bytes) (mm : bytes) : bytes := AppendString 1 d mm.

(** One nested message per element. *)
Definition append_each {A} (n : Z) (f : A -> bytes -> bytes) (l : list A) (mm : bytes) : bytes :=
  fold_left (fun mm x => AppendMessage n (f x []) mm) l mm.

Definition marshalPoint (pt : PBPoint) (mm : bytes) : bytes :=
  let mm := AppendString 1 (pb_Name pt) mm in
  let mm := append_each 2 Field_marshalProtobuf (pb_Fields pt) mm in
  let mm := AppendInt64 3 (pb_Time pt) mm in
  let mm := append_each 4 Warn_marshalProtobuf (pb_Warns pt) mm in
  append_each 5 Debug_marshalProtobuf (pb_Debugs pt) mm.

(** [marshalPBPoint]: the arrays of a message from elsewhere may hold nil. *)
Definition append_some {A} (n : Z) (f : A -> bytes -> bytes) (l : list (option A)) (mm : bytes) : bytes :=
  fold_left (fun mm x => match x with Some x => AppendMessage n (f x []) mm | None => mm end) l mm.

Definition marshalPBPoint (name : bytes) (fs : list (option Field)) (t : Z)
    (ws : list (option PBWarn)) (ds : list (option bytes)) (mm : bytes) : bytes :=
  let mm := AppendString 1 name mm in
  let mm := append_some 2 Field_marshalProtobuf fs mm in
  let mm := AppendInt64 3 t mm in
  let mm := append_some 4 Warn_marshalProtobuf ws mm in
  append_some 5 Debug_marshalProtobuf ds mm.

(** A nil point is skipped. *)
Definition marshalPoints (pts : list (option PBPoint)) (dst : bytes) : bytes :=
  dst ++ fold_left (fun mm pt => match pt with
                                 | None => mm
                                 | Some pt => AppendMessage 1 (marshalPoint pt []) mm
                                 end) pts [].

Definition AppendPointToPBPointsPayload (dst : bytes) (pt : option PBPoint) : bytes :=
  match pt with
  | None => dst
  | Some pt => dst ++ AppendMessage 1 (marshalPoint pt []) []
  end.

Definition AppendPBPointToPBPointsPayload (dst : bytes) (name : bytes) (fs : list (option Field)) (t : Z)
    (ws : list (option PBWarn)) (ds : list (option bytes)) : bytes :=
  dst ++ AppendMessage 1 (marshalPBPoint name fs t ws ds []) [].

(** ** Unmarshalling *)

Inductive perr : Type :=
| PNext (what : string) (e : nf_err)     (* read next field for ... failed *)
| PRead (what : string)                  (* cannot read ... *)
| PIn (what : string) (e : perr)         (* an error of a part *)
| PUnknown (num : Z)                     (* unknown field number *)
| PPanic (p : panic).

(** [unmarshalWarn]. *)
Definition warn_body (fc : FieldContext) (w : PBWarn) : ctl PBWarn (Res perr PBWarn) :=
  if FieldNum fc =? 1 then
    match fc_Data fc with Some x => Continue (mkPBWarn x (WarnMsg w)) | None => Continue w end
  else if FieldNum fc =? 2 then
    match fc_Data fc with Some x => Continue (mkPBWarn (WarnType w) x) | None => Continue w end
  else Continue w.

Definition unmarshalWarn (src : bytes) : Res perr PBWarn :=
  fields (fun _ e => Err (PNext "Warn" e)) warn_body Ok src (mkPBWarn [] []).

(** [unmarshalDebug]. *)
Definition debug_body (fc : FieldContext) (info : bytes) : ctl bytes (Res perr bytes) :=
  if FieldNum fc =? 1 then
    match fc_Data fc with Some x => Continue x | None => Continue info end
  else Continue info.

Definition unmarshalDebug (src : bytes) : Res perr bytes :=
  fields (fun _ e => Err (PNext "Debug" e)) debug_body Ok src [].

(** The local variables of [unmarshalField]. *)
Record ufield := mkUF {
  uf_key : bytes;
  uf_unit : bytes;
  uf_desc : bytes;
  uf_isTag : bool;
  uf_f : option Field;
  uf_type : MetricType;
}.

(** What the callback of a walk does: go on, stop, panic. *)
Inductive visit (S : Type) : Type :=
| Go (s : S)
| Halt (s : S)
| Panics (p : panic).

Arguments Go {S} s.
Arguments Halt {S} s.
Arguments Panics {S} p.

Section Unmarshal.
Context {arrays : ArrayEnc}.

(** [f = NewKV(key, x)], with the key as it is at that moment. *)
Definition uf_set (u : ufield) (v : option any) : ufield :=
  match v with
  | Some x => mkUF (uf_key u) (uf_unit u) (uf_desc u) (uf_isTag u)
                   (Some (NewKV (uf_key u) x [])) (uf_type u)
  | None => u
  end.

Definition field_body (fc : FieldContext) (u : ufield) : ctl ufield (Res perr (option Field)) :=
  match FieldNum fc with
  | 1 => match fc_Data fc with
         | Some x => Continue (mkUF x (uf_unit u) (uf_desc u) (uf_isTag u) (uf_f u) (uf_type u))
         | None => Return (Err (PRead "Field key"))
         end
  | 8 => match fc_Bool fc with
         | Some x => Continue (mkUF (uf_key u) (uf_unit u) (uf_desc u) x (uf_f u) (uf_type u))
         | None => Return (Err (PRead "is-tag for Field"))
         end
  | 2 => Continue (uf_set u (GoInt <$> fc_Int64 fc))
  | 3 => Continue (uf_set u (GoUint <$> fc_Uint64 fc))
  | 4 => Continue (uf_set u (GoFloat <$> fc_Double fc))
  | 5 => Continue (uf_set u (GoBool <$> fc_Bool fc))
  | 6 => Continue (uf_set u (GoBytes <$> fc_Data fc))
  | 11 => Continue (uf_set u (GoString <$> fc_Data fc))
  | 9 => match fc_Int32 fc with
         | Some x => Continue (mkUF (uf_key u) (uf_unit u) (uf_desc u) (uf_isTag u) (uf_f u) x)
         | None => Continue u
         end
  | 10 => match fc_Data fc with
          | Some x => Continue (mkUF (uf_key u) x (uf_desc u) (uf_isTag u) (uf_f u) (uf_type u))
          | None => Continue u
          end
  | 12 => match fc_Data fc with
          | Some x => Continue (mkUF (uf_key u) (uf_unit u) x (uf_isTag u) (uf_f u) (uf_type u))
          | None => Continue u
          end
  | _ => Continue u
  end.

(** After the loop; [None] is a nil field. *)
Definition field_done (u : ufield) : option Field :=
  match uf_f u with
  | Some f => Some (set_IsTag (uf_isTag u) (set_Type (uf_type u)
                     (set_Description (uf_desc u) (set_Unit (uf_unit u) f))))
  | None => None
  end.

Definition unmarshalField (src : bytes) : Res perr (option Field) :=
  fields (fun _ e => Err (PNext "Field" e)) field_body (fun u => Ok (field_done u)) src
         (mkUF [] [] [] false None UNSPECIFIED).

(** The local variables of [unmarshalPoint]. *)
Record upoint := mkUP {
  up_kvs : KVs;
  up_warns : list PBWarn;
  up_debugs : list bytes;
  up_name : bytes;
  up_ts : Z;
}.

Definition point_body {R} (fc : FieldContext) (u : upoint) : ctl upoint (Res perr R) :=
  match FieldNum fc with
  | 1 => match fc_Data fc with
         | Some x => Continue (mkUP (up_kvs u) (up_warns u) (up_debugs u) x (up_ts u))
         | None => Return (Err (PRead "PBPoint name"))
         end
  | 2 => match fc_Data fc with
         | None => Return (Err (PRead "Fields for PBPoint"))
         | Some d =>
             match unmarshalField d with
             | Ok kv => Continue (mkUP (match kv with Some kv => AddKV kv (up_kvs u) | None => up_kvs u end)
                                       (up_warns u) (up_debugs u) (up_name u) (up_ts u))
             | Err e => Return (Err (PIn "field" e))
             end
         end
  | 3 => match fc_Int64 fc with
         | Some x => Continue (mkUP (up_kvs u) (up_warns u) (up_debugs u) (up_name u) x)
         | None => Return (Err (PRead "PBPoint time"))
         end
  | 4 => match fc_Data fc with
         | None => Return (Err (PRead "Warn for PBPoint"))
         | Some d =>
             match unmarshalWarn d with
             | Ok x => Continue (mkUP (up_kvs u) (up_warns u ++ [x]) (up_debugs u) (up_name u) (up_ts u))
             | Err _ => Continue u
             end
         end
  | 5 => match fc_Data fc with
         | None => Return (Err (PRead "Debug for PBPoint"))
         | Some d =>
             match unmarshalDebug d with
             | Ok x => Continue (mkUP (up_kvs u) (up_warns u) (up_debugs u ++ [x]) (up_name u) (up_ts u))
             | Err _ => Continue u
             end
         end
  | _ => Continue u
  end.

(** The point: its flags and its message.  [pooled] is what the pool of configurations
    hands out. *)
Definition DPoint : Type := Z * PBPoint.

Definition point_done (sort : KVs -> KVs) (now : Z) (pooled : option cfg) (u : upoint) : Res perr DPoint :=
  match fst (NewPoint sort now pooled (up_name u) (up_kvs u) [Some (WithTime (up_ts u))]) with
  | Ok p => Ok (flags p, mkPB (Name p) (PFields p) (Time p) (up_warns u) (up_debugs u))
  | Err e => Err (PPanic e)
  end.

Definition unmarshalPoint (sort : KVs -> KVs) (now : Z) (pooled : option cfg) (src : bytes) : Res perr DPoint :=
  fields (fun _ e => Err (PNext "PBPoint" e)) point_body (point_done sort now pooled) src (mkUP [] [] [] [] 0).

(** ** Walking the points of a payload *)

Definition walk_body {S} (fn : bytes -> S -> visit S) (fc : FieldContext) (s : S)
    : ctl S (Res panic (S * option perr)) :=
  if negb (FieldNum fc =? 1) then Continue s
  else match fc_Data fc with
       | None => Return (Ok (s, Some (PRead "Arr for PBPoints")))
       | Some d => match fn d s with
                   | Go s => Continue s
                   | Halt s => Return (Ok (s, None))
                   | Panics p => Return (Err p)
                   end
       end.

(** [WalkPBPointsPayload]: the state that the callback has left, and the error. *)
Definition WalkPBPointsPayload {S} (payload : bytes) (fn : option (bytes -> S -> visit S)) (s : S)
    : Res panic (S * option perr) :=
  match fn with
  | None => Ok (s, None)
  | Some fn => fields (fun s e => Ok (s, Some (PNext "PBPoints" e))) (walk_body fn)
                      (fun s => Ok (s, None)) payload s
  end.

(** The callback of [unmarshalPoints]: the points and [err]. *)
Definition collect (sort : KVs -> KVs) (now : Z) (pooled : option cfg) (raw : bytes)
    (s : list DPoint * option perr) : visit (list DPoint * option perr) :=
  match unmarshalPoint sort now pooled raw with
  | Ok pt => Go (fst s ++ [pt], snd s)
  | Err (PPanic p) => Panics p
  | Err e => Halt (fst s, Some (PIn "point" e))
  end.

(** [err = WalkPBPointsPayload(...)]: the result of the walk overwrites what the
    callback has stored in [err]. *)
Definition unmarshalPoints (sort : KVs -> KVs) (now : Z) (pooled : option cfg) (src : bytes)
    : Res perr (list DPoint) :=
  match WalkPBPointsPayload src (Some (collect sort now pooled)) ([], None) with
  | Err p => Err (PPanic p)
  | Ok ((pts, _), Some e) => Err e
  | Ok ((pts, _), None) => Ok pts
  end.

End Unmarshal.
