(* ===== verification/PointProtoThms.v ===== *)
(** * Points on the wire: round trips

    [field_wires] and [point_wires] are the fields that the marshalling functions
    write.  A point that the decoder's checker leaves alone comes back unchanged. *)

From S2P Require Import Prelude Wire WireThms PointKV PointCheck PointNew PointKVThms PointCheckSpec PointCheckThms PointFindings PointProto.

(** ** What is written *)

Definition value_wires (v : option FieldVal) : list wire :=
  match v with
  | Some (Field_I x) => [WVarint 2 (uint64 x)]
  | Some (Field_U x) => [WVarint 3 x]
  | Some (Field_F x) => [WI64 4 (Float64bits x)]
  | Some (Field_B x) => [WVarint 5 (if x then 1 else 0)]
  | Some (Field_D x) => [WLen 6 x]
  | Some (Field_S x) => [WLen 11 x]
  | Some (Field_A _) | None => []
  end.

Definition field_wires (f : Field) : list wire :=
  WLen 1 (Key f) :: value_wires (Val f) ++
  [WVarint 8 (if IsTag f then 1 else 0); WVarint 9 (uint64 (uint32 (int32 (Type_ f))));
   WLen 10 (Unit f); WLen 12 (Description f)].

Definition warn_wires (w : PBWarn) : list wire := [WLen 1 (WarnType w); WLen 2 (WarnMsg w)].

Definition debug_wires (d : bytes) : list wire := [WLen 1 d].

Definition point_wires (p : PBPoint) : list wire :=
  [WLen 1 (pb_Name p)] ++ ((fun f => WLen 2 (msg (field_wires f))) <$> pb_Fields p) ++
  [WVarint 3 (uint64 (pb_Time p))] ++ ((fun w => WLen 4 (msg (warn_wires w))) <$> pb_Warns p) ++
  ((fun d => WLen 5 (msg (debug_wires d))) <$> pb_Debugs p).

(** Fold the encodings of a goal into one message. *)
Ltac to_msg := autorewrite with wire; rewrite <- ?app_assoc; f_equal;
  unfold msg; cbn; rewrite ?app_nil_r; done.

Lemma marshal_value_msg v mm : marshal_value v mm = mm ++ msg (value_wires v).
Proof.
  destruct v as [[]|]; cbn [marshal_value value_wires]; autorewrite with wire;
    unfold msg; cbn; by rewrite ?app_nil_r.
Qed.

Lemma Field_marshal_msg f mm : Field_marshalProtobuf f mm = mm ++ msg (field_wires f).
Proof.
  unfold Field_marshalProtobuf, field_wires. cbn zeta. autorewrite with wire.
  rewrite marshal_value_msg, msg_cons, msg_app. rewrite <- !app_assoc. do 3 f_equal.
  unfold msg. cbn. by rewrite app_nil_r.
Qed.

Lemma Warn_marshal_msg w mm : Warn_marshalProtobuf w mm = mm ++ msg (warn_wires w).
Proof. unfold Warn_marshalProtobuf. to_msg. Qed.

Lemma Debug_marshal_msg d mm : Debug_marshalProtobuf d mm = mm ++ msg (debug_wires d).
Proof. unfold Debug_marshalProtobuf. to_msg. Qed.

Lemma append_each_msg {A} n (f : A -> bytes -> bytes) (g : A -> list wire) (l : list A) mm :
  (forall x m, f x m = m ++ msg (g x)) ->
  append_each n f l mm = mm ++ msg ((fun x => WLen n (msg (g x))) <$> l).
Proof.
  intros H. unfold append_each. revert mm. induction l as [|x l IH]; intros mm; cbn [fold_left].
  - unfold msg. cbn. by rewrite app_nil_r.
  - rewrite IH, H. autorewrite with wire. cbn [app]. rewrite fmap_cons, msg_cons. by rewrite <- app_assoc.
Qed.

Lemma marshalPoint_msg p mm : marshalPoint p mm = mm ++ msg (point_wires p).
Proof.
  unfold marshalPoint, point_wires. cbn zeta.
  rewrite (append_each_msg 5 _ debug_wires) by (intros; apply Debug_marshal_msg).
  rewrite (append_each_msg 4 _ warn_wires) by (intros; apply Warn_marshal_msg).
  rewrite (append_each_msg 2 _ field_wires) by (intros; apply Field_marshal_msg).
  autorewrite with wire. rewrite !msg_app, <- !app_assoc. do 2 f_equal.
  - unfold msg. cbn. by rewrite app_nil_r.
  - do 2 f_equal. unfold msg. cbn. by rewrite app_nil_r.
Qed.

(** A payload is one field per point. *)
Lemma fold_points_msg pts mm :
  fold_left (fun mm pt => match pt with
                          | None => mm
                          | Some pt => AppendMessage 1 (marshalPoint pt []) mm
                          end) pts mm
  = mm ++ msg ((fun p => WLen 1 (msg (point_wires p))) <$> omap id pts).
Proof.
  revert mm. induction pts as [|[p|] pts IH]; intros mm; cbn [fold_left].
  - unfold msg. cbn. by rewrite app_nil_r.
  - rewrite IH, marshalPoint_msg. autorewrite with wire. cbn [app omap list_omap id fmap list_fmap].
    rewrite msg_cons. by rewrite <- app_assoc.
  - apply IH.
Qed.

Lemma marshalPoints_msg pts dst :
  marshalPoints pts dst = dst ++ msg ((fun p => WLen 1 (msg (point_wires p))) <$> omap id pts).
Proof. unfold marshalPoints. by rewrite fold_points_msg. Qed.

(** ** Reading it back *)

(** A value that the wire carries: not an array, in the range of its Go type. *)
Definition sendable_val (v : option FieldVal) : Prop :=
  match v with
  | Some (Field_I x) => in_int64 x
  | Some (Field_U x) => 0 <= x < 2 ^ 64
  | Some (Field_F x) => valid_binary 53 1024 x = true
  | Some (Field_B _) | Some (Field_D _) | Some (Field_S _) => True
  | Some (Field_A _) | None => False
  end.

Definition sendable (f : Field) : Prop := sendable_val (Val f) /\ - 2 ^ 31 <= Type_ f < 2 ^ 31.

Lemma uint64_range z : 0 <= uint64 z < 2 ^ 64.
Proof. by apply wrapU_range. Qed.

Lemma int64_uint64 z : in_int64 z -> int64 (uint64 z) = z.
Proof. intros H. unfold int64, uint64. rewrite wrapS_wrapU by lia. by apply int64_small. Qed.

Lemma type_roundtrip t : - 2 ^ 31 <= t < 2 ^ 31 ->
  0 <= uint64 (uint32 (int32 t)) < 2 ^ 32 /\ int32 (uint64 (uint32 (int32 t))) = t.
Proof.
  intros H. assert (int32 t = t) as E by (apply wrapS_small; lia). rewrite E.
  assert (0 <= uint32 t < 2 ^ 32) by by apply wrapU_range.
  rewrite uint64_small by lia. split; [done|].
  unfold int32, uint32. rewrite wrapS_wrapU by lia. apply wrapS_small; lia.
Qed.

Create HintDb wire_range.
#[local] Hint Resolve uint64_range : wire_range.

Lemma value_wires_num v : sendable_val v -> Forall num_ok (value_wires v).
Proof.
  destruct v as [[]|]; cbn [value_wires sendable_val]; intros H; try done; apply list.Forall_singleton;
    (split; [cbn; lia|]); auto with wire_range.
  - by apply Float64bits_range.
  - by destruct B.
Qed.

Lemma field_wires_num f : sendable f -> Forall num_ok (field_wires f).
Proof.
  intros [V T]. unfold field_wires. destruct (type_roundtrip _ T) as [Rt _].
  constructor; [by vm_compute|]. apply list.Forall_app. split; [by apply value_wires_num|].
  repeat constructor; cbn [wnum]; try lia; destruct (IsTag f); lia.
Qed.

Lemma debug_roundtrip d : zlen (msg (debug_wires d)) < 2 ^ 64 -> unmarshalDebug (msg (debug_wires d)) = Ok d.
Proof.
  intros H. unfold unmarshalDebug. rewrite fields_msg; [done|].
  apply msg_wires_ok; [|done]. repeat constructor; by vm_compute.
Qed.

Lemma warn_roundtrip w : zlen (msg (warn_wires w)) < 2 ^ 64 -> unmarshalWarn (msg (warn_wires w)) = Ok w.
Proof.
  intros H. unfold unmarshalWarn. rewrite fields_msg; [by destruct w|].
  apply msg_wires_ok; [|done]. repeat constructor; by vm_compute.
Qed.

Section Read.
Context {arrays : ArrayEnc}.

Lemma field_roundtrip f : sendable f -> zlen (msg (field_wires f)) < 2 ^ 64 ->
  unmarshalField (msg (field_wires f)) = Ok (Some f).
Proof.
  intros S L. unfold unmarshalField. rewrite fields_msg by (apply msg_wires_ok; [by apply field_wires_num | done]).
  destruct S as [V T]. destruct (type_roundtrip _ T) as [Rt Et]. unfold field_wires.
  destruct f as [k [v|] tg t u d]; [|done]. cbn [Key Val IsTag Type_ Unit Description] in *.
  cbn [app wires_loop field_body fc_of FieldNum fc_Data wireType data]. cbn [wtype].
  change (wireTypeLen =? wireTypeLen) with true. cbv iota.
  destruct v as [x|x|x|x|x|x|x]; cbn [sendable_val] in V; [..|done];
    cbn [value_wires app wires_loop field_body fc_of FieldNum].
  all: unfold fc_Int64, fc_Uint64, fc_Double, fc_Bool, fc_Data, fc_Int32; cbn [wireType wtype intValue data].
  all: change (wireTypeLen =? wireTypeLen) with true; change (wireTypeVarint =? wireTypeVarint) with true;
       change (wireTypeI64 =? wireTypeI64) with true; cbv iota; ztest; rewrite Et.
  all: rewrite ?int64_uint64, ?Float64_roundtrip by done.
  all: destruct tg; try destruct x; done.
Qed.

(** The state of [unmarshalPoint] before it builds the point. *)
Definition read_point (p : PBPoint) : upoint :=
  mkUP (fold_left (fun x f => AddKV f x) (pb_Fields p) []) (pb_Warns p) (pb_Debugs p) (pb_Name p) (pb_Time p).

Definition sendable_point (p : PBPoint) : Prop :=
  Forall sendable (pb_Fields p) /\ in_int64 (pb_Time p) /\ zlen (marshalPoint p []) < 2 ^ 64.

Lemma point_wires_ok p : sendable_point p -> Forall wire_ok (point_wires p).
Proof.
  intros (_ & T & L). rewrite marshalPoint_msg in L. apply msg_wires_ok; [|done].
  unfold point_wires. repeat (apply list.Forall_app; split).
  all: try (apply list.Forall_fmap, list.Forall_true; intros; by vm_compute).
  - repeat constructor; by vm_compute.
  - apply list.Forall_singleton. split; [cbn; lia | apply uint64_range].
Qed.

(** The body of the loop on each kind of field. *)
Definition add_field (f : Field) (u : upoint) : upoint :=
  mkUP (AddKV f (up_kvs u)) (up_warns u) (up_debugs u) (up_name u) (up_ts u).
Definition add_warn (w : PBWarn) (u : upoint) : upoint :=
  mkUP (up_kvs u) (up_warns u ++ [w]) (up_debugs u) (up_name u) (up_ts u).
Definition add_debug (d : bytes) (u : upoint) : upoint :=
  mkUP (up_kvs u) (up_warns u) (up_debugs u ++ [d]) (up_name u) (up_ts u).

Lemma body_field {R} f d fc u : unmarshalField d = Ok (Some f) ->
  @point_body _ R (fc_of fc (WLen 2 d)) u = Continue (add_field f u).
Proof. intros E. unfold point_body. rewrite fc_Data_len. cbn [fc_of FieldNum]. by rewrite E. Qed.

Lemma body_warn {R} w d fc u : unmarshalWarn d = Ok w ->
  @point_body _ R (fc_of fc (WLen 4 d)) u = Continue (add_warn w u).
Proof. intros E. unfold point_body. rewrite fc_Data_len. cbn [fc_of FieldNum]. by rewrite E. Qed.

Lemma body_debug {R} i d fc u : unmarshalDebug d = Ok i ->
  @point_body _ R (fc_of fc (WLen 5 d)) u = Continue (add_debug i u).
Proof. intros E. unfold point_body. rewrite fc_Data_len. cbn [fc_of FieldNum]. by rewrite E. Qed.

(** What the loop has gathered after all fields of one kind. *)
Lemma fold_fields fs u :
  fold_left (fun u f => add_field f u) fs u
  = mkUP (fold_left (fun x f => AddKV f x) fs (up_kvs u)) (up_warns u) (up_debugs u) (up_name u) (up_ts u).
Proof. revert u. induction fs as [|f fs IH]; intros u; [by destruct u|]. cbn [fold_left]. by rewrite IH. Qed.

Lemma fold_warns ws u :
  fold_left (fun u w => add_warn w u) ws u
  = mkUP (up_kvs u) (up_warns u ++ ws) (up_debugs u) (up_name u) (up_ts u).
Proof.
  revert u. induction ws as [|w ws IH]; intros u; cbn [fold_left].
  - rewrite app_nil_r. by destruct u.
  - rewrite IH. cbn. by rewrite <- app_assoc.
Qed.

Lemma fold_debugs ds u :
  fold_left (fun u d => add_debug d u) ds u
  = mkUP (up_kvs u) (up_warns u) (up_debugs u ++ ds) (up_name u) (up_ts u).
Proof.
  revert u. induction ds as [|d ds IH]; intros u; cbn [fold_left].
  - rewrite app_nil_r. by destruct u.
  - rewrite IH. cbn. by rewrite <- app_assoc.
Qed.

Lemma point_sizes p : sendable_point p ->
  (forall f, f ∈ pb_Fields p -> sendable f /\ zlen (msg (field_wires f)) < 2 ^ 64) /\
  (forall w, w ∈ pb_Warns p -> zlen (msg (warn_wires w)) < 2 ^ 64) /\
  (forall d, d ∈ pb_Debugs p -> zlen (msg (debug_wires d)) < 2 ^ 64).
Proof.
  intros (F & _ & L). rewrite marshalPoint_msg in L. cbn [app] in L.
  assert (forall n d, WLen n d ∈ point_wires p -> zlen d < 2 ^ 64) as Sz.
  { intros n d H. pose proof (zlen_WLen_le _ _ _ H). lia. }
  rewrite list.Forall_forall in F. unfold point_wires in Sz.
  setoid_rewrite elem_of_app in Sz. setoid_rewrite elem_of_app in Sz.
  setoid_rewrite elem_of_app in Sz. setoid_rewrite elem_of_app in Sz.
  setoid_rewrite list_elem_of_fmap in Sz.
  split; [|split]; [intros f Hf; split; [auto|] | intros w Hw | intros d Hd];
    [apply (Sz 2) | apply (Sz 4) | apply (Sz 5)]; eauto 10.
Qed.

(** A message with the parts of a point in order is read as the point, however the
    parts are encoded; a zero value may be missing. *)
Lemma unmarshalPoint_parts sort now pooled p (nw tw : list wire) (fw : Field -> list wire)
    (ww : PBWarn -> list wire) (dw : bytes -> list wire) :
  nw = [WLen 1 (pb_Name p)] \/ (nw = [] /\ pb_Name p = []) ->
  tw = [WVarint 3 (uint64 (pb_Time p))] \/ (tw = [] /\ pb_Time p = 0) -> in_int64 (pb_Time p) ->
  (forall f, f ∈ pb_Fields p -> unmarshalField (msg (fw f)) = Ok (Some f)) ->
  (forall w, w ∈ pb_Warns p -> unmarshalWarn (msg (ww w)) = Ok w) ->
  (forall d, d ∈ pb_Debugs p -> unmarshalDebug (msg (dw d)) = Ok d) ->
  let ws := nw ++ ((fun f => WLen 2 (msg (fw f))) <$> pb_Fields p) ++ tw ++
            ((fun w => WLen 4 (msg (ww w))) <$> pb_Warns p) ++ ((fun d => WLen 5 (msg (dw d))) <$> pb_Debugs p) in
  Forall wire_ok ws ->
  unmarshalPoint sort now pooled (msg ws) = point_done sort now pooled (read_point p).
Proof.
  intros Hn Ht T HF HW HD ws Hws. unfold unmarshalPoint. rewrite fields_msg by done. subst ws. clear Hws.
  set (body := point_body). set (fin := point_done sort now pooled).
  assert (forall rest, exists fc, wires_loop body fin newFC (nw ++ rest) (mkUP [] [] [] [] 0)
    = wires_loop body fin fc rest (mkUP [] [] [] (pb_Name p) 0)) as N.
  { intros rest. destruct Hn as [->|[-> ->]]; eauto. }
  assert (forall rest fc u, up_ts u = 0 -> exists fc', wires_loop body fin fc (tw ++ rest) u
    = wires_loop body fin fc' rest (mkUP (up_kvs u) (up_warns u) (up_debugs u) (up_name u) (pb_Time p))) as Tm.
  { intros rest fc u Hu. destruct Ht as [->|[-> ->]].
    - exists (fc_of fc (WVarint 3 (uint64 (pb_Time p)))). rewrite <- (int64_uint64 (pb_Time p) T) at 3. done.
    - exists fc. rewrite <- Hu. by destruct u. }
  edestruct N as [fc0 ->].
  edestruct (wires_each body fin (fun f => WLen 2 (msg (fw f))) add_field (pb_Fields p)) as [fc1 ->].
  { intros f Hf fc u. by apply body_field, HF. }
  rewrite fold_fields. edestruct Tm as [fc2 ->]; [done|]. cbn [up_kvs up_warns up_debugs up_name up_ts].
  edestruct (wires_each body fin (fun w => WLen 4 (msg (ww w))) add_warn (pb_Warns p)) as [fc3 ->].
  { intros w Hw fc u. by apply body_warn, HW. }
  rewrite fold_warns, <- (app_nil_r (_ <$> pb_Debugs p)).
  edestruct (wires_each body fin (fun d => WLen 5 (msg (dw d))) add_debug (pb_Debugs p)) as [fc4 ->].
  { intros d Hd fc u. by apply body_debug, HD. }
  by rewrite fold_debugs.
Qed.

Lemma unmarshalPoint_read sort now pooled p : sendable_point p ->
  unmarshalPoint sort now pooled (msg (point_wires p)) = point_done sort now pooled (read_point p).
Proof.
  intros Hp. destruct (point_sizes p Hp) as (HF & HW & HD).
  apply (unmarshalPoint_parts sort now pooled p [WLen 1 (pb_Name p)] [WVarint 3 (uint64 (pb_Time p))]
    field_wires warn_wires debug_wires); auto.
  - apply Hp.
  - intros f Hf. by apply field_roundtrip; apply HF.
  - intros w Hw. by apply warn_roundtrip, HW.
  - intros d Hd. by apply debug_roundtrip, HD.
  - by apply point_wires_ok.
Qed.

(** ** Building the point *)

Lemma AddKV_absent kv x : Key kv ∉ keys x -> AddKV kv x = x ++ [kv].
Proof.
  induction x as [|f x IH]; intros H; cbn [AddKV app]; [done|].
  cbn in H. apply not_elem_of_cons in H as [H1 H2].
  rewrite decide_False by done. by rewrite IH.
Qed.

Lemma fold_AddKV fs acc : NoDup (keys (acc ++ fs)) ->
  fold_left (fun x f => AddKV f x) fs acc = acc ++ fs.
Proof.
  revert acc. induction fs as [|f fs IH]; intros acc N; cbn [fold_left]; [by rewrite app_nil_r|].
  assert (acc ++ f :: fs = (acc ++ [f]) ++ fs) as E by by rewrite <- app_assoc.
  rewrite AddKV_absent; [rewrite E in *; by apply IH|].
  unfold keys in *. rewrite fmap_app in N. apply list.NoDup_app in N as (_ & D & _).
  intros H. by apply (D (Key f) H); left.
Qed.

(** A pool that hands out default configurations. *)
Definition default_pool (pooled : option cfg) : Prop := GetCfg pooled [] = newCfg.

Definition plain (p : PBPoint) : Point := mkPoint 0 (pb_Name p) (pb_Fields p) 0 [] [].

(** A point that the wire carries and that the checker leaves alone; a negative time
    stands for the current one. *)
Record legal_point (p : PBPoint) : Prop := {
  lp_send : sendable_point p;
  lp_clean : clean_point newCfg (plain p);
  lp_time : 0 <= pb_Time p;
}.

(** The flag of a checked point. *)
Definition checked_flags : Z := Z.shiftl 1 Pcheck.

Lemma clean_point_time p t : clean_point newCfg p -> clean_point (WithTimestamp t newCfg) p.
Proof.
  intros [Nm Nl Cl U Tg Fl Rq]. split; try done. eapply list.Forall_impl; [exact Cl|].
  intros f [Ok Tl Vl]. split; [|done..]. unfold field_ok in *.
  destruct (IsTag f), Ok as [[] Vo]; by repeat split.
Qed.

Lemma point_done_clean sort now pooled p : default_pool pooled ->
  clean_point newCfg (plain p) -> 0 <= pb_Time p ->
  point_done sort now pooled (read_point p) = Ok (checked_flags, p).
Proof.
  intros Pl C T. unfold point_done, NewPoint, read_point. cbn [fst up_name up_kvs up_ts up_warns up_debugs].
  assert (GetCfg pooled [Some (WithTime (pb_Time p))] = WithTimestamp (pb_Time p) newCfg) as ->
    by (unfold default_pool, GetCfg in *; cbn in *; by rewrite Pl).
  rewrite fold_AddKV by apply C. cbn [app].
  apply (clean_point_time _ (pb_Time p)), check_clean in C.
  unfold doNewPoint, plain in *. cbn [extraTags WithTimestamp newCfg cfg_reset fold_left enc keySorted precheck timestamp].
  rewrite decide_False by done. change (keySorted zero_cfg) with false. cbv iota. rewrite C.
  cbn -[Z.leb]. ztest. by destruct p.
Qed.

(** ** Payloads *)

Lemma payload_append pts dst : fold_left AppendPointToPBPointsPayload pts dst = marshalPoints pts dst.
Proof.
  rewrite marshalPoints_msg. revert dst.
  induction pts as [|[p|] pts IH]; intros dst; cbn [fold_left AppendPointToPBPointsPayload].
  - unfold msg. cbn. by rewrite app_nil_r.
  - rewrite IH, marshalPoint_msg. autorewrite with wire. cbn [app omap list_omap id fmap list_fmap].
    by rewrite msg_cons, <- app_assoc.
  - apply IH.
Qed.

(** The callback of [unmarshalPoints] on legal points. *)
Definition add_point (p : PBPoint) (s : list DPoint * option perr) : list DPoint * option perr :=
  (fst s ++ [(checked_flags, p)], snd s).

Lemma fold_points pts s :
  fold_left (fun s p => add_point p s) pts s = (fst s ++ (pair checked_flags <$> pts), snd s).
Proof.
  revert s. induction pts as [|p pts IH]; intros [l e]; cbn [fold_left fmap list_fmap]; cbn [fst snd].
  - by rewrite app_nil_r.
  - rewrite IH. cbn. by rewrite <- app_assoc.
Qed.

(** Walking a payload whose points are encoded by [raw] in a way that reads back. *)
Lemma walk_points sort now pooled (raw : PBPoint -> bytes) pts ws :
  (forall p, p ∈ pts -> zlen (raw p) < 2 ^ 64 /\ unmarshalPoint sort now pooled (raw p) = Ok (checked_flags, p)) ->
  Forall wire_ok ws ->
  exists fc, WalkPBPointsPayload (msg (((fun p => WLen 1 (raw p)) <$> pts) ++ ws))
    (Some (collect sort now pooled)) ([], None)
  = wires_loop (walk_body (collect sort now pooled)) (fun s => Ok (s, None)) fc ws
      (pair checked_flags <$> pts, None).
Proof.
  intros H W. unfold WalkPBPointsPayload. rewrite fields_msg.
  2:{ apply list.Forall_app. split; [|done]. apply list.Forall_fmap, list.Forall_forall.
      intros p Hp. split; [by vm_compute | by apply H]. }
  edestruct (wires_each (walk_body (collect sort now pooled)) (fun s => @Ok panic _ (s, @None perr))
    (fun p => WLen 1 (raw p)) add_point pts ws) as [fc E].
  { intros p Hp fc s. unfold walk_body. rewrite fc_Data_len. cbn [fc_of FieldNum negb].
    change (1 =? 1) with true. cbn [negb]. unfold collect. by rewrite (proj2 (H p Hp)). }
  exists fc. pose proof (fold_points pts ([], None)) as F. cbn [fst snd app] in F.
  rewrite F in E. exact E.
Qed.

Lemma legal_raw sort now pooled pts : default_pool pooled -> Forall legal_point pts ->
  forall p, p ∈ pts -> zlen (msg (point_wires p)) < 2 ^ 64 /\
    unmarshalPoint sort now pooled (msg (point_wires p)) = Ok (checked_flags, p).
Proof.
  intros Pl H p Hp. rewrite list.Forall_forall in H. specialize (H p Hp). split.
  - destruct H as [(_ & _ & L) _ _]. by rewrite marshalPoint_msg in L.
  - rewrite unmarshalPoint_read by apply H. by apply point_done_clean; [|apply H..].
Qed.

(** C8: what is marshalled is unmarshalled. The payload of points that the wire carries
    (their sizes and numbers fit) and that the check with the default configuration leaves
    as they are, with times that are not negative, is read back as the same points,
    whether it was marshalled at once or appended point by point, with nil points skipped:
    names, fields with their types, units and descriptions, times, warnings and debug
    messages. The configuration that the decoder takes from its pool must be a default
    one. *)
Theorem points_roundtrip (sort : KVs -> KVs) (now : Z) (pooled : option cfg) (pts : list (option PBPoint)) :
  default_pool pooled -> Forall legal_point (omap id pts) ->
  marshalPoints pts [] = fold_left AppendPointToPBPointsPayload pts [] /\
  unmarshalPoints sort now pooled (marshalPoints pts []) = Ok (pair checked_flags <$> omap id pts).
Proof.
  intros Pl H. split; [by rewrite payload_append|]. rewrite marshalPoints_msg.
  unfold unmarshalPoints. destruct (walk_points sort now pooled _ (omap id pts) [] (legal_raw sort now pooled _ Pl H)) as [fc E]; [done|].
  rewrite app_nil_r in E. cbn [app]. by rewrite E.
Qed.

(** An error in one point is lost.  When the message of a point does not decode, the
    points before it are returned without an error, and those after it are dropped:
    the error that the callback stores is overwritten by the result of the walk. *)
Theorem unmarshal_error_swallowed (sort : KVs -> KVs) (now : Z) (pooled : option cfg)
    (pts : list PBPoint) (raw : bytes) (ws : list wire) (e : perr) :
  default_pool pooled -> Forall legal_point pts -> zlen raw < 2 ^ 64 -> Forall wire_ok ws ->
  unmarshalPoint sort now pooled raw = Err e -> (forall p, e <> PPanic p) ->
  unmarshalPoints sort now pooled (marshalPoints (Some <$> pts) [] ++ msg (WLen 1 raw :: ws))
  = Ok (pair checked_flags <$> pts).
Proof.
  intros Pl H L W E NP. rewrite marshalPoints_msg. cbn [app].
  assert (omap id (Some <$> pts) = pts) as ->.
  { clear. induction pts as [|p pts IH]; [done|]. cbn. by f_equal. }
  rewrite <- msg_app. unfold unmarshalPoints.
  destruct (walk_points sort now pooled _ pts (WLen 1 raw :: ws) (legal_raw sort now pooled _ Pl H)) as [fc ->].
  { constructor; [|done]. split; [by vm_compute|done]. }
  cbn [wires_loop]. unfold walk_body at 1. rewrite fc_Data_len. cbn [fc_of FieldNum].
  change (1 =? 1) with true. cbn [negb]. unfold collect at 1. rewrite E.
  destruct e; try done. by destruct (NP p).
Qed.

(** The key of a field is read too late when it comes after the value. *)
Theorem value_before_key (k v : bytes) : zlen (msg [WLen 11 v; WLen 1 k]) < 2 ^ 64 ->
  unmarshalField (msg [WLen 11 v; WLen 1 k]) = Ok (Some (mkField [] (Some (Field_S v)) false UNSPECIFIED [] [])).
Proof.
  intros L. unfold unmarshalField. rewrite fields_msg; [done|].
  apply msg_wires_ok; [|done]. repeat constructor; by vm_compute.
Qed.

End Read.

(** ** Witnesses *)

Definition sample : PBPoint :=
  mkPB (to_bytes "m")
       [int_field "n" (-7); str_tag "host" "a";
        mkField (to_bytes "f") (Some (Field_F (S754_finite true 4503599627370497 (-53)))) false 1 (to_bytes "s") (to_bytes "d")]
       5 [mkPBWarn (to_bytes "w") (to_bytes "msg")] [to_bytes "dbg"].

Lemma sample_legal : legal_point sample.
Proof.
  split; [split; [|split]| |done].
  - repeat constructor; cbn; unfold in_int64; try done; lia.
  - cbn. unfold in_int64. lia.
  - by vm_compute.
  - split; cbn [Name PFields plain sample pb_Name pb_Fields].
    + done.
    + by vm_compute.
    + repeat constructor; try done; try (by vm_compute); try (by intros ?%elem_of_nil).
      * eexists. split; [done|]. by vm_compute.
      * intros _ s [= <-]. done.
    + refine (proj1 (bool_decide_eq_true _) _). by vm_compute.
    + by vm_compute.
    + by vm_compute.
    + by intros rk ?%elem_of_nil.
Qed.

Lemma points_roundtrip_witness :
  marshalPoints [Some sample; None; Some sample] []
  = fold_left AppendPointToPBPointsPayload [Some sample; None; Some sample] [] /\
  unmarshalPoints id 9 None (marshalPoints [Some sample; None; Some sample] [])
  = Ok [(checked_flags, sample); (checked_flags, sample)].
Proof.
  apply (points_roundtrip id 9 None [Some sample; None; Some sample]); [done|].
  do 2 (apply Forall_cons; [apply sample_legal|]). apply Forall_nil.
Defined.

Lemma unmarshal_error_swallowed_witness :
  unmarshalPoints id 9 None (marshalPoints [Some sample] [] ++ msg [WLen 1 (to_bytes "?"); WLen 1 []])
  = Ok [(checked_flags, sample)].
Proof.
  apply (unmarshal_error_swallowed id 9 None [sample] (to_bytes "?") [WLen 1 []] (PNext "PBPoint" (NFWireType 7)));
    try done.
  - apply Forall_cons; [apply sample_legal | apply Forall_nil].
  - repeat constructor; by vm_compute.
Defined.
