(* ===== verification/PointBatch.v ===== *)
(** * Batches of points ([src/point/easybatch.go])

    A [BatchPoints] decodes a payload into point and field objects that it keeps and
    reuses after [Reset].  The objects are modelled: [pstore] and [fstore] hold them in
    the order of the pools' arrays, [plen] and [flen] say how many are in use, and a
    point refers to its fields by position.  The boxes of the values ([fieldIsPool],
    ...) are written before a field refers to them, so a value is modelled by what it
    holds; the same holds of the shared [FieldContext], which each [NextField]
    overwrites. *)

From S2P Require Import Prelude Wire WireThms PointKV PointCheck PointNew PointFindings PointProto PointProtoThms.

(** A [Point] with the message it owns. *)
Record PObj := mkPObj {
  po_flags : Z;
  po_name : bytes;
  po_fields : list nat;
  po_time : Z;
  po_warns : list PBWarn;
  po_debugs : list bytes;
}.

(** [&Point{pt: &PBPoint{}}] and [&Field{}]. *)
Definition newPObj : PObj := mkPObj 0 [] [] 0 [] [].
Definition newField : Field := mkField [] None false UNSPECIFIED [] [].

Record BatchPoints := mkBP {
  pstore : list PObj;
  plen : nat;
  fstore : list Field;
  flen : nat;
}.

(** What the pool makes; the array of points starts with nil entries. *)
Definition emptyBatch : BatchPoints := mkBP [] 0 [] 0.

(** ** [Reset] *)

Definition reset_point (p : PObj) : PObj :=
  mkPObj (po_flags p) [] [] 0 (po_warns p) (po_debugs p).

Definition reset_field (f : Field) : Field := mkField [] None false 0 [] [].

Definition on_prefix {A} (n : nat) (f : A -> A) (l : list A) : list A := map f (take n l) ++ drop n l.

Definition BatchPoints_Reset (bp : BatchPoints) : BatchPoints :=
  mkBP (on_prefix (plen bp) reset_point (pstore bp)) 0
       (on_prefix (flen bp) reset_field (fstore bp)) 0.

(** [Release]: what goes back to the pool. *)
Definition Release (bp : BatchPoints) : BatchPoints := BatchPoints_Reset bp.

(** ** Taking an object: the next of the array when there is one, a new one otherwise *)

Definition extend {A} (len : nat) (fresh : A) (st : list A) : list A :=
  if (len <? length st)%nat then st else st ++ [fresh].

Definition take_point (bp : BatchPoints) : BatchPoints :=
  mkBP (extend (plen bp) newPObj (pstore bp)) (S (plen bp)) (fstore bp) (flen bp).

Definition take_field (bp : BatchPoints) : BatchPoints :=
  mkBP (pstore bp) (plen bp) (extend (flen bp) newField (fstore bp)) (S (flen bp)).

(** ** [unmarshalField], on the field object *)

Definition bset (f : Field) (v : option FieldVal) (what : string) : ctl Field (option perr * Field) :=
  match v with
  | Some v => Continue (set_Val (Some v) f)
  | None => Return (Some (PRead what), f)
  end.

Definition bfield_body (fc : FieldContext) (f : Field) : ctl Field (option perr * Field) :=
  match FieldNum fc with
  | 1 => match fc_Data fc with
         | Some x => Continue (set_Key x f)
         | None => Return (Some (PRead "Field key"), f)
         end
  | 8 => match fc_Bool fc with
         | Some x => Continue (set_IsTag x f)
         | None => Return (Some (PRead "is-tag for Field"), f)
         end
  | 2 => bset f (Field_I <$> fc_Int64 fc) "int64 for Field"
  | 3 => bset f (Field_U <$> fc_Uint64 fc) "uint64 for Field"
  | 4 => bset f (Field_F <$> fc_Double fc) "double for Field"
  | 5 => bset f (Field_B <$> fc_Bool fc) "bool for Field"
  | 6 => bset f (Field_D <$> fc_Data fc) "bytes for Field"
  | 11 => bset f (Field_S <$> fc_Data fc) "string for Field"
  | 9 => match fc_Int32 fc with
         | Some x => Continue (set_Type x f)
         | None => Return (Some (PRead "int32 for Field"), f)
         end
  | 10 => match fc_Data fc with
          | Some x => Continue (set_Unit x f)
          | None => Return (Some (PRead "unit for Field"), f)
          end
  | 12 => match fc_Data fc with
          | Some x => Continue (set_Description x f)
          | None => Return (Some (PRead "Description for Field"), f)
          end
  | _ => Continue f
  end.

Definition BatchPoints_unmarshalField (src : bytes) (f : Field) : option perr * Field :=
  fields (fun f e => (Some (PNext "Field" e), f)) bfield_body (fun f => (None, f)) src f.

(** ** [unmarshalPoint], on the point object [i] *)

Definition on_point (i : nat) (g : PObj -> PObj) (bp : BatchPoints) : BatchPoints :=
  mkBP (alter g i (pstore bp)) (plen bp) (fstore bp) (flen bp).

Definition set_po_name (s : bytes) (p : PObj) : PObj :=
  mkPObj (po_flags p) s (po_fields p) (po_time p) (po_warns p) (po_debugs p).
Definition add_po_field (i : nat) (p : PObj) : PObj :=
  mkPObj (po_flags p) (po_name p) (po_fields p ++ [i]) (po_time p) (po_warns p) (po_debugs p).
Definition set_po_time (t : Z) (p : PObj) : PObj :=
  mkPObj (po_flags p) (po_name p) (po_fields p) t (po_warns p) (po_debugs p).

(** One field: take an object, append it to the point, decode into it. *)
Definition read_field (i : nat) (d : bytes) (bp : BatchPoints) : option perr * BatchPoints :=
  let j := flen bp in
  let bp := on_point i (add_po_field j) (take_field bp) in
  match fstore bp !! j with
  | None => (Some (PPanic PanicIndex), bp)
  | Some f =>
      let '(e, f) := BatchPoints_unmarshalField d f in
      (e, mkBP (pstore bp) (plen bp) (<[j := f]> (fstore bp)) (flen bp))
  end.

Definition bpoint_body (i : nat) (fc : FieldContext) (bp : BatchPoints)
    : ctl BatchPoints (option perr * BatchPoints) :=
  match FieldNum fc with
  | 1 => match fc_Data fc with
         | Some s => Continue (on_point i (set_po_name s) bp)
         | None => Return (Some (PRead "PBPoint name"), bp)
         end
  | 2 => match fc_Data fc with
         | None => Return (Some (PRead "Fields for PBPoint"), bp)
         | Some d => match read_field i d bp with
                     | (None, bp) => Continue bp
                     | (Some e, bp) => Return (Some (PIn "field" e), bp)
                     end
         end
  | 3 => match fc_Int64 fc with
         | Some t => Continue (on_point i (set_po_time t) bp)
         | None => Return (Some (PRead "PBPoint time"), bp)
         end
  | _ => Continue bp
  end.

Definition BatchPoints_unmarshalPoint (i : nat) (src : bytes) (bp : BatchPoints) : option perr * BatchPoints :=
  fields (fun bp e => (Some (PNext "PBPoint" e), bp)) (bpoint_body i) (fun bp => (None, bp)) src bp.

(** ** [Unmarshal] *)

Definition batch_body (fc : FieldContext) (bp : BatchPoints) : ctl BatchPoints (option perr * BatchPoints) :=
  if negb (FieldNum fc =? 1) then Return (Some (PUnknown (FieldNum fc)), bp)
  else match fc_Data fc with
       | None => Return (Some (PRead "data for batch point"), bp)
       | Some d =>
           match BatchPoints_unmarshalPoint (plen bp) d (take_point bp) with
           | (None, bp) => Continue bp
           | (Some e, bp) => Return (Some (PIn "point" e), bp)
           end
       end.

Definition Unmarshal (src : bytes) (bp : BatchPoints) : option perr * BatchPoints :=
  fields (fun bp e => (Some (PNext "batch point" e), bp)) batch_body (fun bp => (None, bp)) src bp.

(** ** What a caller sees *)

Definition view_point (bp : BatchPoints) (p : PObj) : bytes * KVs * Z :=
  (po_name p, omap (fun i => fstore bp !! i) (po_fields p), po_time p).

Definition view (bp : BatchPoints) : list (bytes * KVs * Z) :=
  view_point bp <$> take (plen bp) (pstore bp).

(** ** The invariant

    The objects past the ones in use are as new, and the fields in use belong to the
    points in use, in order, each to one. *)

Definition fresh_point (p : PObj) : Prop := po_name p = [] /\ po_fields p = [] /\ po_time p = 0.

Record Batch_ok (bp : BatchPoints) : Prop := {
  bo_plen : (plen bp <= length (pstore bp))%nat;
  bo_flen : (flen bp <= length (fstore bp))%nat;
  bo_points : forall i p, (plen bp <= i)%nat -> pstore bp !! i = Some p -> fresh_point p;
  bo_fields : forall i f, (flen bp <= i)%nat -> fstore bp !! i = Some f -> f = newField;
  bo_owned : mjoin (po_fields <$> take (plen bp) (pstore bp)) = seq 0 (flen bp);
}.

Lemma emptyBatch_ok : Batch_ok emptyBatch.
Proof. split; cbn; try lia; [intros i x _ E; by rewrite lookup_nil in E..|done]. Qed.

(** *** Lists of objects *)

Lemma take_S_alter {A} (g : A -> A) i (l : list A) x :
  l !! i = Some x -> take (S i) (alter g i l) = take i l ++ [g x].
Proof.
  intros H. rewrite (take_S_r _ _ (g x)); [by rewrite take_alter_ge by lia|].
  by rewrite list_lookup_alter_eq, H.
Qed.

Lemma take_extend {A} n (x : A) st : (n <= length st)%nat -> take n (extend n x st) = take n st.
Proof.
  intros H. unfold extend. destruct (Nat.ltb_spec n (length st)); [done|].
  rewrite take_app_le by lia. done.
Qed.

Lemma extend_lookup {A} n (x : A) st (P : A -> Prop) : (n <= length st)%nat -> P x ->
  (forall i y, (n <= i)%nat -> st !! i = Some y -> P y) ->
  exists y, extend n x st !! n = Some y /\ P y /\
  (forall i z, (n <= i)%nat -> extend n x st !! i = Some z -> P z) /\ (S n <= length (extend n x st))%nat.
Proof.
  intros L Px H. unfold extend. destruct (Nat.ltb_spec n (length st)) as [Lt|Ge].
  - destruct (lookup_lt_is_Some_2 st n Lt) as [y Ey]. exists y. repeat split; eauto.
  - assert (n = length st) as -> by lia. exists x. rewrite lookup_app_r, Nat.sub_diag by lia.
    rewrite length_app. cbn. repeat split; [done| |lia].
    intros i z Hi Hz. rewrite lookup_app_r in Hz by lia.
    destruct (i - length st)%nat as [|k] eqn:E; [by injection Hz as <-|]. done.
Qed.

Lemma on_prefix_all {A} n (f : A -> A) (l : list A) i x (P : A -> Prop) :
  (forall y, P (f y)) -> (forall j y, (n <= j)%nat -> l !! j = Some y -> P y) ->
  on_prefix n f l !! i = Some x -> P x.
Proof.
  intros Hf H. unfold on_prefix. intros [E|[_ E]]%lookup_app_Some.
  - apply list_elem_of_lookup_2, list_elem_of_In, in_map_iff in E as (y & <- & _). apply Hf.
  - rewrite lookup_drop in E. eapply H; [|exact E]; lia.
Qed.

(** A batch can be reset and reused at any time. *)
Lemma Reset_ok bp : Batch_ok bp -> Batch_ok (BatchPoints_Reset bp) /\ view (BatchPoints_Reset bp) = [].
Proof.
  intros [_ _ Hp Hf _]. split; [|done]. split; cbn [plen flen pstore fstore BatchPoints_Reset]; try lia; [| |done].
  - intros i p _ E. eapply (on_prefix_all _ reset_point _ _ _ fresh_point); [|exact Hp|exact E]. done.
  - intros i f _ E. eapply (on_prefix_all _ reset_field _ _ _ (fun f => f = newField)); [|exact Hf|exact E]. done.
Qed.

(** *** The steps of a decoder on the last point *)

Definition last_at (bp : BatchPoints) (i : nat) : Prop := Batch_ok bp /\ plen bp = S i.

Lemma take_point_ok bp : Batch_ok bp ->
  last_at (take_point bp) (plen bp) /\ view (take_point bp) = view bp ++ [([], [], 0)].
Proof.
  intros [Lp Lf Hp Hf Ow].
  destruct (extend_lookup (plen bp) newPObj (pstore bp) fresh_point Lp ltac:(done) Hp)
    as (p & Ep & (E1 & E2 & E3) & Hn & Ln).
  assert (take (S (plen bp)) (extend (plen bp) newPObj (pstore bp)) = take (plen bp) (pstore bp) ++ [p]) as Et.
  { by rewrite (take_S_r _ _ p), take_extend. }
  split; [split; [split|]|]; cbn [plen flen pstore fstore take_point]; try done.
  - intros i q Hi. apply Hn. lia.
  - rewrite Et, fmap_app, join_app, Ow. cbn. by rewrite E2, app_nil_r.
  - unfold view. cbn [plen pstore take_point]. rewrite Et, fmap_app. f_equal.
    cbn. unfold view_point. by rewrite E1, E2, E3.
Qed.

Lemma last_lookup bp i : last_at bp i -> exists p, pstore bp !! i = Some p.
Proof. intros [[] E]. apply lookup_lt_is_Some_2. lia. Qed.

Lemma on_point_ok bp i g : last_at bp i -> (forall p, po_fields (g p) = po_fields p) ->
  last_at (on_point i g bp) i.
Proof.
  intros H Hg. destruct (last_lookup _ _ H) as [p Ep]. destruct H as [[Lp Lf Hp Hf Ow] E].
  split; [|done]. split; cbn [plen flen pstore fstore on_point]; try done.
  - by rewrite length_alter.
  - intros j q Hj. rewrite list_lookup_alter_ne by lia. by apply Hp.
  - rewrite E in *. rewrite (take_S_alter g i _ p) by done. rewrite (take_S_r _ _ p) in Ow by done.
    rewrite fmap_app in *. cbn in *. by rewrite Hg.
Qed.

Lemma view_last bp i p : plen bp = S i -> pstore bp !! i = Some p ->
  view bp = (view_point bp <$> take i (pstore bp)) ++ [view_point bp p].
Proof. intros E Ep. unfold view. rewrite E, (take_S_r _ _ p) by done. by rewrite fmap_app. Qed.

Lemma view_on_point bp i g p : plen bp = S i -> pstore bp !! i = Some p ->
  view (on_point i g bp) = (view_point bp <$> take i (pstore bp)) ++ [view_point bp (g p)].
Proof.
  intros E Ep. unfold view. cbn [plen pstore on_point]. rewrite E, (take_S_alter _ _ _ p) by done.
  by rewrite fmap_app.
Qed.

(** Change the last point, but not its fields. *)
Lemma view_set bp i g v0 n fs t n' t' : last_at bp i ->
  view bp = v0 ++ [(n, fs, t)] ->
  (forall p, po_name p = n -> po_time p = t -> po_fields (g p) = po_fields p /\ po_name (g p) = n' /\ po_time (g p) = t') ->
  view (on_point i g bp) = v0 ++ [(n', fs, t')].
Proof.
  intros H V Hg. destruct (last_lookup _ _ H) as [p Ep]. destruct H as [_ E].
  rewrite (view_last _ _ _ E Ep) in V. apply app_inj_tail in V as [V1 V2].
  rewrite (view_on_point _ _ _ _ E Ep), V1. do 2 f_equal.
  unfold view_point in *. injection V2 as <- <- <-.
  by destruct (Hg p eq_refl eq_refl) as (-> & -> & ->).
Qed.

(** The state once a field object has been filled with [f]. *)
Definition with_field (i : nat) (f : Field) (bp : BatchPoints) : BatchPoints :=
  mkBP (alter (add_po_field (flen bp)) i (pstore bp)) (plen bp)
       (<[flen bp := f]> (extend (flen bp) newField (fstore bp))) (S (flen bp)).

Lemma read_field_eq bp i d : Batch_ok bp ->
  let '(e, f) := BatchPoints_unmarshalField d newField in
  read_field i d bp = (e, with_field i f bp).
Proof.
  intros [Lp Lf Hp Hf Ow].
  destruct (extend_lookup (flen bp) newField (fstore bp) (fun f => f = newField) Lf eq_refl Hf)
    as (f0 & E0 & -> & _).
  unfold read_field. cbn [fstore on_point take_field]. rewrite E0.
  by destruct (BatchPoints_unmarshalField d newField).
Qed.

Lemma with_field_ok bp i f : last_at bp i -> last_at (with_field i f bp) i.
Proof.
  intros H. destruct (last_lookup _ _ H) as [p Ep]. destruct H as [[Lp Lf Hp Hf Ow] E].
  destruct (extend_lookup (flen bp) newField (fstore bp) (fun f => f = newField) Lf eq_refl Hf)
    as (f0 & _ & _ & Hn & Ln).
  split; [|done]. split; cbn [plen flen pstore fstore with_field].
  - by rewrite length_alter.
  - by rewrite length_insert.
  - intros j q Hj. rewrite list_lookup_alter_ne by lia. by apply Hp.
  - intros j q Hj. rewrite list_lookup_insert_ne by lia. apply Hn. lia.
  - rewrite E in *. rewrite (take_S_alter _ i _ p) by done. rewrite (take_S_r _ _ p) in Ow by done.
    rewrite seq_S, <- Ow. rewrite !fmap_app, !join_app. cbn [fmap list_fmap mjoin list_join po_fields add_po_field].
    by rewrite !app_nil_r, <- app_assoc.
Qed.

Lemma view_with_field bp i f v0 n fs t : last_at bp i -> view bp = v0 ++ [(n, fs, t)] ->
  view (with_field i f bp) = v0 ++ [(n, fs ++ [f], t)].
Proof.
  intros H V. destruct (last_lookup _ _ H) as [p Ep]. destruct H as [[Lp Lf Hp Hf Ow] E].
  assert (forall k, (k < flen bp)%nat -> fstore (with_field i f bp) !! k = fstore bp !! k) as Old.
  { intros k Hk. cbn. rewrite list_lookup_insert_ne by lia. unfold extend.
    destruct (_ <? _)%nat; [done|]. by rewrite lookup_app_l by lia. }
  assert (forall q, q ∈ take (S i) (pstore bp) ->
     omap (fun k => fstore (with_field i f bp) !! k) (po_fields q) = omap (fun k => fstore bp !! k) (po_fields q)) as Same.
  { intros q Hq. assert (forall k, k ∈ po_fields q -> (k < flen bp)%nat) as Hk.
    { intros k Hk. assert (k ∈ seq 0 (flen bp)) as Hs; [|apply elem_of_seq in Hs; lia].
      rewrite <- Ow, E. apply list_elem_of_join. exists (po_fields q). split; [done|]. apply list_elem_of_fmap. eauto. }
    revert Hk. clear -Old. induction (po_fields q) as [|k l IH]; intros Hk; [done|].
    cbn [omap list_omap]. rewrite Old by (apply Hk; left). rewrite IH; [done|]. intros j Hj. apply Hk. by right. }
  rewrite (view_last _ _ _ E Ep) in V. apply app_inj_tail in V as [V1 V2].
  unfold view. cbn [plen pstore with_field]. rewrite E, (take_S_alter _ i _ p), fmap_app by done. f_equal.
  - rewrite <- V1. apply list_fmap_ext. intros k q Hq. unfold view_point. do 2 f_equal. apply Same.
    apply list_elem_of_lookup_2 in Hq. rewrite (take_S_r _ _ p), elem_of_app by done. by left.
  - unfold view_point in *. injection V2 as <- <- <-. cbn [fmap list_fmap]. do 3 f_equal.
    cbn [po_fields add_po_field]. rewrite omap_app. f_equal.
    + apply Same. rewrite (take_S_r _ _ p), elem_of_app, list_elem_of_singleton by done. by right.
    + cbn. rewrite list_lookup_insert_eq; [done|].
      pose proof (extend_lookup (flen bp) newField (fstore bp) (fun f => f = newField) Lf eq_refl Hf) as (?&_&_&_&?). lia.
Qed.

(** *** Any input *)

Lemma bpoint_body_ok i fc bp : last_at bp i ->
  match bpoint_body i fc bp with Continue bp' => last_at bp' i | Return r => last_at (snd r) i end.
Proof.
  intros H. unfold bpoint_body.
  assert (forall d, match read_field i d bp with (_, bp') => last_at bp' i end) as Rf.
  { intros d. pose proof (read_field_eq bp i d (proj1 H)) as E.
    destruct (BatchPoints_unmarshalField d newField) as [e f]. rewrite E. by apply with_field_ok. }
  destruct (FieldNum fc) as [|[[|[]|]|[|[]|]|]|]; try exact H.
  - destruct (fc_Int64 fc); [|done]. by apply on_point_ok.
  - destruct (fc_Data fc) as [d|]; [|done]. specialize (Rf d). by destruct (read_field i d bp) as [[]].
  - destruct (fc_Data fc); [|done]. by apply on_point_ok.
Qed.

Lemma unmarshalPoint_ok i src bp : last_at bp i -> last_at (snd (BatchPoints_unmarshalPoint i src bp)) i.
Proof.
  apply (fields_inv _ _ _ (fun bp => last_at bp i) (fun r => last_at (snd r) i)); try done.
  intros fc s. apply bpoint_body_ok.
Qed.

Lemma Unmarshal_ok src bp : Batch_ok bp -> Batch_ok (snd (Unmarshal src bp)).
Proof.
  apply (fields_inv _ _ _ Batch_ok (fun r => Batch_ok (snd r))); try done.
  intros fc s H. unfold batch_body. destruct (negb _); [done|]. destruct (fc_Data fc) as [d|]; [|done].
  pose proof (unmarshalPoint_ok _ d _ (proj1 (take_point_ok s H))) as [O _].
  by destruct (BatchPoints_unmarshalPoint _ d _) as [[]].
Qed.

(** A batch and what was done to it. *)
Inductive batch_op := BUnmarshal (src : bytes) | BReset.

Definition batch_do (bp : BatchPoints) (o : batch_op) : BatchPoints :=
  match o with
  | BUnmarshal src => snd (Unmarshal src bp)
  | BReset => BatchPoints_Reset bp
  end.

Lemma batch_run_ok ops bp : Batch_ok bp -> Batch_ok (fold_left batch_do ops bp).
Proof.
  revert bp. induction ops as [|o ops IH]; intros bp H; [done|]. apply IH.
  destruct o; [by apply Unmarshal_ok | by apply Reset_ok].
Qed.

(** *** Marshalled points *)

Lemma bfield_roundtrip f : sendable f -> zlen (msg (field_wires f)) < 2 ^ 64 ->
  BatchPoints_unmarshalField (msg (field_wires f)) newField = (None, f).
Proof.
  intros S L. unfold BatchPoints_unmarshalField.
  rewrite fields_msg by (apply msg_wires_ok; [by apply field_wires_num | done]).
  destruct S as [V T]. destruct (type_roundtrip _ T) as [Rt Et]. unfold field_wires.
  destruct f as [k [v|] tg t u d]; [|done]. cbn [Key Val IsTag Type_ Unit Description] in *.
  cbn [app wires_loop bfield_body fc_of FieldNum fc_Data wireType data]. cbn [wtype].
  change (wireTypeLen =? wireTypeLen) with true. cbv iota.
  destruct v as [x|x|x|x|x|x|x]; cbn [sendable_val] in V; [..|done];
    cbn [value_wires app wires_loop bfield_body fc_of FieldNum].
  all: unfold fc_Int64, fc_Uint64, fc_Double, fc_Bool, fc_Data, fc_Int32; cbn [wireType wtype intValue data].
  all: change (wireTypeLen =? wireTypeLen) with true; change (wireTypeVarint =? wireTypeVarint) with true;
       change (wireTypeI64 =? wireTypeI64) with true; cbv iota; ztest.
  all: rewrite ?int64_uint64, ?Float64_roundtrip by done.
  all: try (destruct x); cbn [fmap option_fmap option_map bset]; rewrite Et; by destruct tg.
Qed.

Definition content (p : PBPoint) : bytes * KVs * Z := (pb_Name p, pb_Fields p, pb_Time p).

Definition point_read (v0 : list (bytes * KVs * Z)) (i : nat) (n : bytes) (t : Z) (fs : list Field) (bp : BatchPoints) : Prop :=
  last_at bp i /\ view bp = v0 ++ [(n, fs, t)].

Lemma unmarshalPoint_read_batch p bp v0 i : sendable_point p -> point_read v0 i [] 0 [] bp ->
  exists bp', BatchPoints_unmarshalPoint i (msg (point_wires p)) bp = (None, bp') /\
    point_read v0 i (pb_Name p) (pb_Time p) (pb_Fields p) bp'.
Proof.
  intros Hp [Hl Hv]. destruct (point_sizes p Hp) as (HF & _ & _).
  unfold BatchPoints_unmarshalPoint. rewrite fields_msg by by apply point_wires_ok.
  destruct Hp as (_ & T & _). unfold point_wires.
  set (body := bpoint_body i). set (fin := fun bp : BatchPoints => (@None perr, bp)).
  assert (forall fc d s, body (fc_of fc (WLen 1 d)) s = Continue (on_point i (set_po_name d) s)) as B1 by done.
  assert (forall fc t s, body (fc_of fc (WVarint 3 t)) s = Continue (on_point i (set_po_time (int64 t)) s)) as B3 by done.
  cbn [app wires_loop]. rewrite B1.
  assert (point_read v0 i (pb_Name p) 0 [] (on_point i (set_po_name (pb_Name p)) bp)) as R1.
  { split; [by apply on_point_ok|]. eapply view_set; [done|exact Hv|]. by intros q _ <-. }
  edestruct (wires_acc body fin (fun f => WLen 2 (msg (field_wires f))) (point_read v0 i (pb_Name p) 0)
    (pb_Fields p)) as (fc1 & bp1 & -> & [L1 V1]); [|exact R1|].
  { intros seen f fc s Hf [Ls Vs]. exists (with_field i f s). split.
    - unfold body, bpoint_body. rewrite fc_Data_len. cbn [fc_of FieldNum].
      pose proof (read_field_eq s i (msg (field_wires f)) (proj1 Ls)) as E.
      rewrite bfield_roundtrip in E by apply HF, Hf. by rewrite E.
    - split; [by apply with_field_ok | by apply view_with_field]. }
  cbn [wires_loop app] in *. rewrite B3, int64_uint64 by done.
  set (bp2 := on_point i _ bp1).
  assert (point_read v0 i (pb_Name p) (pb_Time p) (pb_Fields p) bp2) as R2.
  { split; [by apply on_point_ok|]. eapply view_set; [done|exact V1|]. by intros q <- _. }
  edestruct (wires_each body fin (fun w => WLen 4 (msg (warn_wires w))) (fun _ s => s) (pb_Warns p)) as [fc2 ->]; [done|].
  rewrite <- (app_nil_r (_ <$> pb_Debugs p)).
  edestruct (wires_each body fin (fun d => WLen 5 (msg (debug_wires d))) (fun _ s => s) (pb_Debugs p)) as [fc3 ->]; [done|].
  assert (forall A (l : list A), fold_left (fun s (_ : A) => s) l bp2 = bp2) as Fd
    by (intros A l; by induction l).
  rewrite !Fd. by exists bp2.
Qed.

(** C28: a batch decodes what was marshalled, after any use. Whatever was decoded into it
    before, with or without errors, with resets in between, unmarshalling the payload of
    points that the wire carries appends to the ones in use exactly one for each of them,
    in order, with its name, fields and time, and leaves those before as they were; no
    object is shared or holds data of an earlier use. Warnings and debug messages are not
    part of a batch: the decoder drops them. Unlike [unmarshalPoints] it needs no legal
    points: nothing is checked. *)
Theorem batch_roundtrip (ops : list batch_op) (pts : list (option PBPoint)) :
  Forall sendable_point (omap id pts) ->
  let bp := fold_left batch_do ops emptyBatch in
  exists bp', Unmarshal (marshalPoints pts []) bp = (None, bp') /\
    view bp' = view bp ++ (content <$> omap id pts) /\ Batch_ok bp'.
Proof.
  intros H bp. pose proof (batch_run_ok ops _ emptyBatch_ok) as O. fold bp in O.
  rewrite marshalPoints_msg. cbn [app]. set (ps := omap id pts) in *.
  unfold Unmarshal. rewrite fields_msg.
  2:{ apply list.Forall_fmap. eapply list.Forall_impl; [exact H|]. intros p (_ & _ & L).
      rewrite marshalPoint_msg in L. split; [by vm_compute|done]. }
  rewrite <- (app_nil_r (_ <$> ps)).
  pose proof (wires_acc batch_body (fun bp => (@None perr, bp)) (fun p => WLen 1 (msg (point_wires p)))
    (fun seen b => Batch_ok b /\ view b = view bp ++ (content <$> seen)) ps []) as W.
  destruct (fun h => W h [] newFC bp (conj O (eq_sym (app_nil_r _)))) as (fc & bp' & -> & [O' V']).
  { intros seen p fc b Hp [Ob Vb]. rewrite list.Forall_forall in H.
    destruct (take_point_ok b Ob) as [Lt Vt].
    destruct (unmarshalPoint_read_batch p _ _ _ (H p Hp) (conj Lt Vt)) as (b' & E & [[Ob' _] Vb']).
    exists b'. unfold batch_body. rewrite fc_Data_len. cbn [fc_of FieldNum].
    change (1 =? 1) with true. cbn [negb]. rewrite E. split; [done|]. split; [done|].
    by rewrite Vb', Vb, fmap_app, <- app_assoc. }
  exists bp'. by split.
Qed.

(** ** Witness *)

Lemma batch_roundtrip_witness :
  exists bp', Unmarshal (marshalPoints [Some sample; None] [])
                (fold_left batch_do [BUnmarshal (to_bytes "?"); BReset] emptyBatch) = (None, bp') /\
    view bp' = [content sample] /\ Batch_ok bp'.
Proof.
  apply (batch_roundtrip [BUnmarshal (to_bytes "?"); BReset] [Some sample; None]).
  apply Forall_cons; [apply sample_legal | apply Forall_nil].
Defined.
