(* ===== verification/PointPB.v ===== *)
(** * The generated protobuf encoder ([src/point/point.pb.go]): sizes and bytes

    [Size] and [MarshalToSizedBuffer] of the messages of [point.proto].  The generated
    code fills a buffer from its end; the functions here are the bytes that it leaves
    there.  A field with its zero value is omitted.  The messages of a slice of bytes
    or of an array are not nil. *)

From S2P Require Import Prelude Wire PointKV PointCheck PointNew PointProto WireThms PointKVThms PointCheckSpec PointCheckThms PointFindings PointProtoThms.

(** [sovPoint]: [math_bits.Len64(x|1)]. *)
Definition Len64 (x : Z) : Z := if x =? 0 then 0 else Z.log2 x + 1.

Definition sovPoint (x : Z) : Z := Z.quot (Len64 (Z.lor x 1) + 6) 7.

(** [encodeVarintPoint], as the bytes that it writes. *)
Fixpoint encodeVarint_loop (fuel : nat) (v : Z) : bytes :=
  match fuel with
  | O => []
  | S fuel =>
      if 128 <=? v then byte_of (Z.lor (Z.land v 127) 128) :: encodeVarint_loop fuel (Z.shiftr v 7)
      else [byte_of v]
  end.

Definition encodeVarintPoint (v : Z) : bytes := encodeVarint_loop 10 v.

(** A field of bytes under the one-byte tag [t]. *)
Definition pb_len (t : Z) (d : bytes) : bytes := byte_of t :: encodeVarintPoint (zlen d) ++ d.

Definition pb_len_size (d : Z) : Z := 1 + d + sovPoint d.

Definition pb_opt (t : Z) (d : bytes) : bytes := if 0 <? zlen d then pb_len t d else [].

Definition pb_opt_size (d : bytes) : Z := if 0 <? zlen d then pb_len_size (zlen d) else 0.

(** ** The value of a field *)

Definition Any_Marshal (a : PBAny) : bytes := pb_opt 10 (TypeUrl a) ++ pb_opt 18 (AnyValue a).

Definition Any_Size (a : PBAny) : Z := pb_opt_size (TypeUrl a) + pb_opt_size (AnyValue a).

Definition Val_Marshal (v : FieldVal) : bytes :=
  match v with
  | Field_I x => byte_of 16 :: encodeVarintPoint (uint64 x)
  | Field_U x => byte_of 24 :: encodeVarintPoint x
  | Field_F x => byte_of 33 :: put_u64 (Float64bits x)
  | Field_B x => [byte_of 40; byte_of (if x then 1 else 0)]
  | Field_D x => pb_len 50 x
  | Field_A x => pb_len 58 (Any_Marshal x)
  | Field_S x => pb_len 90 x
  end.

Definition Val_Size (v : FieldVal) : Z :=
  match v with
  | Field_I x => 1 + sovPoint (uint64 x)
  | Field_U x => 1 + sovPoint x
  | Field_F _ => 9
  | Field_B _ => 2
  | Field_D x => pb_len_size (zlen x)
  | Field_A x => pb_len_size (Any_Size x)
  | Field_S x => pb_len_size (zlen x)
  end.

(** ** Messages *)

Definition Field_Marshal (f : Field) : bytes :=
  pb_opt 10 (Key f) ++
  (if IsTag f then [byte_of 64; byte_of 1] else []) ++
  (if Type_ f =? 0 then [] else byte_of 72 :: encodeVarintPoint (uint64 (Type_ f))) ++
  pb_opt 82 (Unit f) ++
  (match Val f with Some v => Val_Marshal v | None => [] end) ++
  pb_opt 98 (Description f).

Definition Field_Size (f : Field) : Z :=
  pb_opt_size (Key f) +
  (match Val f with Some v => Val_Size v | None => 0 end) +
  (if IsTag f then 2 else 0) +
  (if Type_ f =? 0 then 0 else 1 + sovPoint (uint64 (Type_ f))) +
  pb_opt_size (Unit f) + pb_opt_size (Description f).

Definition Warn_Marshal (w : PBWarn) : bytes := pb_opt 10 (WarnType w) ++ pb_opt 18 (WarnMsg w).

Definition Warn_Size (w : PBWarn) : Z := pb_opt_size (WarnType w) + pb_opt_size (WarnMsg w).

Definition Debug_Marshal (d : bytes) : bytes := pb_opt 10 d.

Definition Debug_Size (d : bytes) : Z := pb_opt_size d.

(** A repeated message. *)
Definition pb_each {A} (t : Z) (f : A -> bytes) (l : list A) : bytes :=
  mjoin ((fun x => pb_len t (f x)) <$> l).

Definition sizes {A} (f : A -> Z) (l : list A) : Z :=
  fold_left (fun n x => n + pb_len_size (f x)) l 0.

Definition PBPoint_Marshal (p : PBPoint) : bytes :=
  pb_opt 10 (pb_Name p) ++ pb_each 18 Field_Marshal (pb_Fields p) ++
  (if pb_Time p =? 0 then [] else byte_of 24 :: encodeVarintPoint (uint64 (pb_Time p))) ++
  pb_each 34 Warn_Marshal (pb_Warns p) ++ pb_each 42 Debug_Marshal (pb_Debugs p).

Definition PBPoint_Size (p : PBPoint) : Z :=
  pb_opt_size (pb_Name p) + sizes Field_Size (pb_Fields p) +
  (if pb_Time p =? 0 then 0 else 1 + sovPoint (uint64 (pb_Time p))) +
  sizes Warn_Size (pb_Warns p) + sizes Debug_Size (pb_Debugs p).

Definition PBPoints_Marshal (arr : list PBPoint) : bytes := pb_each 10 PBPoint_Marshal arr.

Definition PBPoints_Size (arr : list PBPoint) : Z := sizes PBPoint_Size arr.

(** [MarshalToSizedBuffer(buf)]: the end of the buffer is filled; a buffer that is too
    short panics. *)
Definition MarshalToSizedBuffer (arr : list PBPoint) (buf : bytes) : Res panic (bytes * Z) :=
  let d := PBPoints_Marshal arr in
  if zlen buf <? zlen d then Err PanicIndex
  else Ok (ztake (zlen buf - zlen d) buf ++ d, zlen d).

(** * The generated encoder writes the same format

    Its bytes are fields on the wire ([WireThms]), its sizes are the lengths of its
    bytes, and the reader of [easyproto.go] reads its payloads back. *)

(** ** Varints *)

Lemma encodeVarint_varint v : 0 <= v -> encodeVarintPoint v = varint v.
Proof.
  intros H. rewrite varint_loop by done. unfold encodeVarintPoint. revert v H.
  generalize 10%nat as fuel. induction fuel as [|fuel IH]; intros v H; [done|].
  cbn [encodeVarint_loop]. rewrite varuint_loop_S. destruct (128 <=? v) eqn:E; bool_to_prop; ztest.
  - rewrite varuint_loop_app, IH by (apply Z.shiftr_nonneg; lia). cbn [app]. do 2 f_equal.
    rewrite land_127, Z.lor_comm, lor_128, lor_128_mod by (try apply Z.mod_pos_bound; lia). done.
  - done.
Qed.

Lemma log2_lor_1 v : 128 <= v -> Z.log2 (Z.lor v 1) = Z.log2 v.
Proof. intros H. rewrite Z.log2_lor by lia. pose proof (Z.log2_nonneg v). cbn. lia. Qed.

Lemma zlen_varuint fuel : forall v, 0 <= v < 2 ^ (7 * Z.of_nat fuel) -> (0 < fuel)%nat ->
  zlen (varuint_loop fuel [] v) = Z.log2 (Z.lor v 1) / 7 + 1.
Proof.
  induction fuel as [|fuel IH]; intros v H F; [lia|]. rewrite varuint_loop_S.
  destruct (127 <? v) eqn:E; bool_to_prop.
  - rewrite varuint_loop_app, zlen_app, log2_lor_1 by lia.
    assert (0 <= Z.shiftr v 7 < 2 ^ (7 * Z.of_nat fuel)) as B.
    { rewrite Z.shiftr_div_pow2 by lia. split; [apply Z.div_pos; lia|].
      apply Z.div_lt_upper_bound; [lia|]. rewrite <- Z.pow_add_r by lia.
      replace (7 + 7 * Z.of_nat fuel) with (7 * Z.of_nat (S fuel)) by lia. lia. }
    destruct fuel as [|fuel]; [change (7 * Z.of_nat 1) with 7 in H; lia|].
    rewrite IH by lia. change (zlen ([] ++ [?x])) with 1.
    assert (Z.log2 (Z.shiftr v 7) = Z.log2 v - 7) as Lg.
    { rewrite Z.log2_shiftr by lia. assert (7 <= Z.log2 v); [|lia].
      change 7 with (Z.log2 128). apply Z.log2_le_mono. lia. }
    assert (Z.log2 (Z.lor (Z.shiftr v 7) 1) = Z.log2 v - 7) as ->.
    { rewrite Z.log2_lor, Lg by lia. cbn. assert (7 <= Z.log2 v); [|lia].
      change 7 with (Z.log2 128). apply Z.log2_le_mono. lia. }
    replace (Z.log2 v) with ((Z.log2 v - 7) + 1 * 7) at 2 by lia. rewrite Z.div_add by lia. lia.
  - change (zlen ([] ++ [?x])) with 1. rewrite Z.div_small; [done|].
    split; [apply Z.log2_nonneg|]. rewrite Z.log2_lor by lia. cbn.
    assert (Z.log2 v <= 6); [|lia]. change 6 with (Z.log2 127). apply Z.log2_le_mono. lia.
Qed.

Lemma sovPoint_varint v : 0 <= v < 2 ^ 64 -> sovPoint v = zlen (varint v).
Proof.
  intros H. rewrite varint_loop, zlen_varuint by (try done; lia).
  unfold sovPoint, Len64. assert (Z.lor v 1 <> 0) as N.
  { intros [_ ?]%Z.lor_eq_0_iff. done. }
  ztest. pose proof (Z.log2_nonneg (Z.lor v 1)). rewrite Z.quot_div_nonneg by lia.
  replace (Z.log2 (Z.lor v 1) + 1 + 6) with (Z.log2 (Z.lor v 1) + 1 * 7) by lia.
  by rewrite Z.div_add by lia.
Qed.

(** ** Fields on the wire *)

Definition opt_wire (n : Z) (d : bytes) : list wire := if 0 <? zlen d then [WLen n d] else [].

Definition gfield_wires (f : Field) : list wire :=
  opt_wire 1 (Key f) ++
  (if IsTag f then [WVarint 8 1] else []) ++
  (if Type_ f =? 0 then [] else [WVarint 9 (uint64 (Type_ f))]) ++
  opt_wire 10 (Unit f) ++ value_wires (Val f) ++ opt_wire 12 (Description f).

Definition gwarn_wires (w : PBWarn) : list wire := opt_wire 1 (WarnType w) ++ opt_wire 2 (WarnMsg w).

Definition gdebug_wires (d : bytes) : list wire := opt_wire 1 d.

Definition gpoint_wires (p : PBPoint) : list wire :=
  opt_wire 1 (pb_Name p) ++ ((fun f => WLen 2 (msg (gfield_wires f))) <$> pb_Fields p) ++
  (if pb_Time p =? 0 then [] else [WVarint 3 (uint64 (pb_Time p))]) ++
  ((fun w => WLen 4 (msg (gwarn_wires w))) <$> pb_Warns p) ++
  ((fun d => WLen 5 (msg (gdebug_wires d))) <$> pb_Debugs p).

(** A field whose tag fits one byte. *)
Lemma enc_small w : 0 <= wnum w < 16 -> wenc w = byte_of (8 * wnum w + wtype w) :: wbody w.
Proof.
  intros H. unfold wenc. rewrite makeTag_eq by lia.
  rewrite varint_small; [done|]. destruct w; cbn [wtype wnum] in *; unfold wireTypeVarint, wireTypeI64, wireTypeLen; lia.
Qed.

Lemma msg_one w : msg [w] = wenc w.
Proof. unfold msg. cbn. apply app_nil_r. Qed.

Lemma pb_len_enc n d : 0 <= n < 16 -> pb_len (8 * n + 2) d = wenc (WLen n d).
Proof.
  intros H. rewrite enc_small by done. unfold pb_len. cbn [wnum wtype wbody].
  by rewrite encodeVarint_varint by apply zlen_nonneg.
Qed.

Lemma pb_opt_msg n d : 0 <= n < 16 -> pb_opt (8 * n + 2) d = msg (opt_wire n d).
Proof.
  intros H. unfold pb_opt, opt_wire. destruct (0 <? zlen d); [|done]. by rewrite msg_one, pb_len_enc.
Qed.

Lemma Val_Marshal_msg v : sendable_val (Some v) -> Val_Marshal v = msg (value_wires (Some v)).
Proof.
  intros S. pose proof (uint64_range) as U.
  destruct v; cbn [value_wires Val_Marshal sendable_val] in *; rewrite ?msg_one; try done.
  - rewrite enc_small by (cbn; lia). cbn [wnum wtype wbody]. by rewrite encodeVarint_varint by apply U.
  - rewrite enc_small by (cbn; lia). cbn [wnum wtype wbody]. by rewrite encodeVarint_varint by lia.
  - rewrite enc_small by (cbn; lia). cbn [wnum wtype wbody]. by rewrite varint_small by (destruct B; lia).
  - by rewrite <- (pb_len_enc 6).
  - by rewrite <- (pb_len_enc 11).
Qed.

Lemma Field_Marshal_msg f : sendable f -> Field_Marshal f = msg (gfield_wires f).
Proof.
  intros [V T]. unfold Field_Marshal, gfield_wires. rewrite !msg_app.
  rewrite <- (pb_opt_msg 1), <- (pb_opt_msg 10), <- (pb_opt_msg 12) by lia.
  f_equal. f_equal; [by destruct (IsTag f)|].
  f_equal.
  { destruct (Type_ f =? 0); [done|]. rewrite msg_one, enc_small by (cbn; lia). cbn [wnum wtype wbody].
    by rewrite encodeVarint_varint by apply uint64_range. }
  f_equal. f_equal. destruct (Val f); [|done]. by apply Val_Marshal_msg.
Qed.

Lemma Warn_Marshal_msg w : Warn_Marshal w = msg (gwarn_wires w).
Proof. unfold gwarn_wires. rewrite msg_app. by rewrite <- (pb_opt_msg 1), <- (pb_opt_msg 2) by lia. Qed.

Lemma Debug_Marshal_msg d : Debug_Marshal d = msg (gdebug_wires d).
Proof. unfold gdebug_wires. by rewrite <- (pb_opt_msg 1) by lia. Qed.

Lemma pb_each_msg {A} n (f : A -> bytes) (g : A -> list wire) (l : list A) : 0 <= n < 16 ->
  (forall x, x ∈ l -> f x = msg (g x)) -> pb_each (8 * n + 2) f l = msg ((fun x => WLen n (msg (g x))) <$> l).
Proof.
  intros H E. unfold pb_each, msg at 1. f_equal. rewrite <- list_fmap_compose.
  apply list_fmap_ext. intros i x Hx. cbn. apply list_elem_of_lookup_2 in Hx.
  by rewrite E, pb_len_enc.
Qed.

Lemma PBPoint_Marshal_msg p : Forall sendable (pb_Fields p) -> PBPoint_Marshal p = msg (gpoint_wires p).
Proof.
  intros F. rewrite list.Forall_forall in F. unfold PBPoint_Marshal, gpoint_wires. rewrite !msg_app.
  rewrite <- (pb_opt_msg 1) by lia.
  rewrite (pb_each_msg 2 Field_Marshal gfield_wires) by (try lia; intros; by apply Field_Marshal_msg, F).
  rewrite (pb_each_msg 4 Warn_Marshal gwarn_wires) by (try lia; intros; apply Warn_Marshal_msg).
  rewrite (pb_each_msg 5 Debug_Marshal gdebug_wires) by (try lia; intros; apply Debug_Marshal_msg).
  do 3 f_equal. destruct (pb_Time p =? 0); [done|]. rewrite msg_one, enc_small by (cbn; lia).
  cbn [wnum wtype wbody]. by rewrite encodeVarint_varint by apply uint64_range.
Qed.

(** ** Sizes *)

Lemma zlen_pb_len t d : zlen d < 2 ^ 64 -> zlen (pb_len t d) = pb_len_size (zlen d).
Proof.
  intros H. unfold pb_len, pb_len_size. pose proof (zlen_nonneg d).
  rewrite zlen_cons, zlen_app, encodeVarint_varint, sovPoint_varint by lia. lia.
Qed.

Lemma zlen_pb_len_ge t d : zlen d <= zlen (pb_len t d).
Proof.
  unfold pb_len. rewrite zlen_cons, zlen_app. pose proof (zlen_nonneg (encodeVarintPoint (zlen d))). lia.
Qed.

Lemma zlen_pb_opt t d : zlen (pb_opt t d) < 2 ^ 64 -> zlen (pb_opt t d) = pb_opt_size d.
Proof.
  unfold pb_opt, pb_opt_size. destruct (0 <? zlen d); [|done]. intros H.
  pose proof (zlen_pb_len_ge t d). apply zlen_pb_len. lia.
Qed.

Lemma zlen_Any a : zlen (Any_Marshal a) < 2 ^ 64 -> zlen (Any_Marshal a) = Any_Size a.
Proof.
  unfold Any_Marshal, Any_Size. rewrite zlen_app. intros H.
  pose proof (zlen_nonneg (pb_opt 10 (TypeUrl a))). pose proof (zlen_nonneg (pb_opt 18 (AnyValue a))).
  rewrite !zlen_pb_opt by lia. done.
Qed.

(** The values of a Go [uint64]. *)
Definition val_range (v : option FieldVal) : Prop :=
  match v with Some (Field_U x) => 0 <= x < 2 ^ 64 | _ => True end.

Lemma zlen_Val v : val_range (Some v) -> zlen (Val_Marshal v) < 2 ^ 64 -> zlen (Val_Marshal v) = Val_Size v.
Proof.
  pose proof uint64_range as U. destruct v; cbn [Val_Marshal Val_Size val_range]; intros R H.
  - rewrite zlen_cons, encodeVarint_varint, <- sovPoint_varint by (try apply U; lia). done.
  - rewrite zlen_cons, encodeVarint_varint, <- sovPoint_varint by lia. done.
  - rewrite zlen_cons, zlen_put_u64. done.
  - done.
  - pose proof (zlen_pb_len_ge 50 D). apply zlen_pb_len. lia.
  - pose proof (zlen_pb_len_ge 90 S). apply zlen_pb_len. lia.
  - pose proof (zlen_pb_len_ge 58 (Any_Marshal A)). rewrite zlen_pb_len, zlen_Any by lia. done.
Qed.

Lemma zlen_Field f : val_range (Val f) -> zlen (Field_Marshal f) < 2 ^ 64 -> zlen (Field_Marshal f) = Field_Size f.
Proof.
  intros R. unfold Field_Marshal, Field_Size. rewrite !zlen_app.
  set (t := if Type_ f =? 0 then _ else _). set (g := if IsTag f then _ else _).
  set (v := match Val f with Some v => Val_Marshal v | None => [] end). intros H.
  pose proof (zlen_nonneg (pb_opt 10 (Key f))). pose proof (zlen_nonneg (pb_opt 82 (Unit f))).
  pose proof (zlen_nonneg (pb_opt 98 (Description f))).
  pose proof (zlen_nonneg t). pose proof (zlen_nonneg g). pose proof (zlen_nonneg v).
  rewrite !zlen_pb_opt by lia.
  assert (zlen t = if Type_ f =? 0 then 0 else 1 + sovPoint (uint64 (Type_ f))) as ->.
  { subst t. destruct (Type_ f =? 0); [done|]. pose proof (uint64_range (Type_ f)).
    by rewrite zlen_cons, encodeVarint_varint, <- sovPoint_varint by lia. }
  assert (zlen g = if IsTag f then 2 else 0) as -> by (subst g; by destruct (IsTag f)).
  assert (zlen v = match Val f with Some v => Val_Size v | None => 0 end) as ->.
  { subst v. destruct (Val f); [|done]. apply zlen_Val; [done|lia]. }
  lia.
Qed.

Lemma fold_sizes {A} (f : A -> Z) l n : fold_left (fun n x => n + pb_len_size (f x)) l n = n + sizes f l.
Proof.
  unfold sizes. revert n. induction l as [|x l IH]; intros n; cbn [fold_left]; [lia|].
  rewrite IH, (IH (0 + _)). lia.
Qed.

Lemma sizes_cons {A} (f : A -> Z) x l : sizes f (x :: l) = pb_len_size (f x) + sizes f l.
Proof. unfold sizes at 1. cbn [fold_left]. rewrite fold_sizes. lia. Qed.

Lemma zlen_each {A} t (f : A -> bytes) (g : A -> Z) (l : list A) :
  (forall x, x ∈ l -> zlen (f x) < 2 ^ 64 -> zlen (f x) = g x) ->
  zlen (pb_each t f l) < 2 ^ 64 -> zlen (pb_each t f l) = sizes g l.
Proof.
  intros H. induction l as [|x l IH]; intros L; [done|]. rewrite sizes_cons.
  change (pb_each t f (x :: l)) with (pb_len t (f x) ++ pb_each t f l) in *.
  rewrite zlen_app in *. pose proof (zlen_pb_len_ge t (f x)). pose proof (zlen_nonneg (pb_each t f l)).
  pose proof (zlen_nonneg (pb_len t (f x))).
  rewrite zlen_pb_len, (H x) by (try left; lia). rewrite IH; [done| |lia]. intros y Hy. apply H. by right.
Qed.

Lemma zlen_Warn w : zlen (Warn_Marshal w) < 2 ^ 64 -> zlen (Warn_Marshal w) = Warn_Size w.
Proof.
  unfold Warn_Marshal, Warn_Size. rewrite zlen_app. intros H.
  pose proof (zlen_nonneg (pb_opt 10 (WarnType w))). pose proof (zlen_nonneg (pb_opt 18 (WarnMsg w))).
  rewrite !zlen_pb_opt by lia. done.
Qed.

Definition ranged (p : PBPoint) : Prop := Forall (fun f => val_range (Val f)) (pb_Fields p).

Lemma zlen_PBPoint p : ranged p -> zlen (PBPoint_Marshal p) < 2 ^ 64 -> zlen (PBPoint_Marshal p) = PBPoint_Size p.
Proof.
  intros R. unfold ranged in R. rewrite list.Forall_forall in R.
  unfold PBPoint_Marshal, PBPoint_Size. rewrite !zlen_app. set (t := if pb_Time p =? 0 then _ else _).
  intros H. pose proof (zlen_nonneg (pb_opt 10 (pb_Name p))). pose proof (zlen_nonneg t).
  pose proof (zlen_nonneg (pb_each 18 Field_Marshal (pb_Fields p))).
  pose proof (zlen_nonneg (pb_each 34 Warn_Marshal (pb_Warns p))).
  pose proof (zlen_nonneg (pb_each 42 Debug_Marshal (pb_Debugs p))).
  rewrite zlen_pb_opt by lia.
  rewrite (zlen_each 18 Field_Marshal Field_Size) by (try lia; intros; by apply zlen_Field; [apply R|]).
  rewrite (zlen_each 34 Warn_Marshal Warn_Size) by (try lia; intros; by apply zlen_Warn).
  rewrite (zlen_each 42 Debug_Marshal Debug_Size) by (try lia; intros; by apply zlen_pb_opt).
  assert (zlen t = if pb_Time p =? 0 then 0 else 1 + sovPoint (uint64 (pb_Time p))) as ->; [|lia].
  subst t. destruct (pb_Time p =? 0); [done|]. pose proof (uint64_range (pb_Time p)).
  by rewrite zlen_cons, encodeVarint_varint, <- sovPoint_varint by lia.
Qed.

(** [Size] is the number of bytes that the generated encoder writes. *)
Lemma zlen_PBPoints arr : Forall ranged arr -> zlen (PBPoints_Marshal arr) < 2 ^ 64 ->
  zlen (PBPoints_Marshal arr) = PBPoints_Size arr.
Proof.
  intros R. apply zlen_each. intros p Hp. apply zlen_PBPoint. by eapply list.Forall_forall in R.
Qed.

(** ** The payload is read back *)

Section Read.
Context {arrays : ArrayEnc}.

(** What the generated encoder sends in full: a metric type that is not negative. *)
Definition gsendable (f : Field) : Prop := sendable f /\ 0 <= Type_ f.

Lemma opt_wire_num n d : 0 <= n < 16 -> Forall num_ok (opt_wire n d).
Proof. intros H. unfold opt_wire. destruct (0 <? zlen d); [|done]. repeat constructor; cbn; lia. Qed.

Lemma gfield_wires_num f : gsendable f -> Forall num_ok (gfield_wires f).
Proof.
  intros [[V T] P]. unfold gfield_wires. repeat (apply list.Forall_app; split);
    try (apply opt_wire_num; lia); [destruct (IsTag f) | destruct (Type_ f =? 0) | by apply value_wires_num];
    try done; apply list.Forall_singleton; (split; [cbn; lia|]); [lia | apply uint64_range].
Qed.

(** An optional field leaves the state that its value gives, also when it is missing. *)
Lemma opt_wire_step {S R} (body : FieldContext -> S -> ctl S R) fin n d s (g : bytes -> S) :
  (forall fc, body (fc_of fc (WLen n d)) s = Continue (g d)) -> g [] = s ->
  forall rest fc, exists fc', wires_loop body fin fc (opt_wire n d ++ rest) s = wires_loop body fin fc' rest (g d).
Proof.
  intros H E rest fc. unfold opt_wire. destruct (0 <? zlen d) eqn:L.
  - cbn [app wires_loop]. rewrite H. eauto.
  - destruct d as [|x d]; [|bool_to_prop; rewrite zlen_cons in L; pose proof (zlen_nonneg d); lia].
    rewrite E. eauto.
Qed.

Lemma gdebug_roundtrip d : zlen (msg (gdebug_wires d)) < 2 ^ 64 -> unmarshalDebug (msg (gdebug_wires d)) = Ok d.
Proof.
  intros H. unfold unmarshalDebug. rewrite fields_msg by (apply msg_wires_ok; [by apply opt_wire_num | done]).
  unfold gdebug_wires. rewrite <- (app_nil_r (opt_wire 1 d)).
  by edestruct (opt_wire_step debug_body Ok 1 d [] id) as [fc ->].
Qed.

Lemma gwarn_roundtrip w : zlen (msg (gwarn_wires w)) < 2 ^ 64 -> unmarshalWarn (msg (gwarn_wires w)) = Ok w.
Proof.
  intros H. unfold unmarshalWarn. rewrite fields_msg.
  2:{ apply msg_wires_ok; [|done]. apply list.Forall_app. split; apply opt_wire_num; lia. }
  unfold gwarn_wires. edestruct (opt_wire_step warn_body Ok 1 (WarnType w) (mkPBWarn [] [])
    (fun d => mkPBWarn d [])) as [fc ->]; [done..|].
  rewrite <- (app_nil_r (opt_wire 2 _)).
  edestruct (opt_wire_step warn_body Ok 2 (WarnMsg w) (mkPBWarn (WarnType w) []) (fun d => mkPBWarn (WarnType w) d)) as [fc' ->]; [done..|].
  by destruct w.
Qed.

Lemma value_step f fin rest fc u : sendable f -> uf_key u = Key f -> exists fc',
  wires_loop field_body fin fc (value_wires (Val f) ++ rest) u
  = wires_loop field_body fin fc' rest
      (mkUF (uf_key u) (uf_unit u) (uf_desc u) (uf_isTag u)
            (Some (mkField (Key f) (Val f) false UNSPECIFIED [] [])) (uf_type u)).
Proof.
  intros [V _] K. destruct u as [k un de tg fl ty], (Val f) as [v|] eqn:Ev; [|done].
  cbn [uf_key uf_unit uf_desc uf_isTag uf_f uf_type] in *. subst k.
  destruct v as [x|x|x|[]|x|x|x]; cbn [sendable_val] in V; [..|done]; eexists;
    cbn [value_wires app wires_loop field_body fc_of FieldNum];
    unfold fc_Int64, fc_Uint64, fc_Double, fc_Bool, fc_Data; cbn [wireType wtype intValue data];
    change (wireTypeLen =? wireTypeLen) with true; change (wireTypeVarint =? wireTypeVarint) with true;
    change (wireTypeI64 =? wireTypeI64) with true; cbv iota;
    rewrite ?int64_uint64, ?Float64_roundtrip by done; reflexivity.
Qed.

Lemma uint64_nonneg t : 0 <= t < 2 ^ 31 -> uint64 t = t /\ int32 t = t.
Proof. intros H. split; [apply uint64_small; lia | apply wrapS_small; lia]. Qed.

Lemma gfield_roundtrip f : gsendable f -> zlen (msg (gfield_wires f)) < 2 ^ 64 ->
  unmarshalField (msg (gfield_wires f)) = Ok (Some f).
Proof.
  intros G L. unfold unmarshalField. rewrite fields_msg by (apply msg_wires_ok; [by apply gfield_wires_num | done]).
  destruct G as [S P]. pose proof S as [_ T]. unfold gfield_wires.
  set (fin := fun u => Ok (field_done u)).
  edestruct (opt_wire_step field_body fin 1 (Key f) (mkUF [] [] [] false None UNSPECIFIED)
    (fun d => mkUF d [] [] false None UNSPECIFIED)) as [fc1 ->]; [done|done|].
  assert (forall rest fc, exists fc', wires_loop field_body fin fc ((if IsTag f then [WVarint 8 1] else []) ++ rest)
     (mkUF (Key f) [] [] false None UNSPECIFIED)
     = wires_loop field_body fin fc' rest (mkUF (Key f) [] [] (IsTag f) None UNSPECIFIED)) as Tg.
  { intros rest fc. destruct (IsTag f); eexists; reflexivity. }
  edestruct Tg as [fc2 ->].
  assert (forall rest fc, exists fc', wires_loop field_body fin fc
     ((if Type_ f =? 0 then [] else [WVarint 9 (uint64 (Type_ f))]) ++ rest)
     (mkUF (Key f) [] [] (IsTag f) None UNSPECIFIED)
     = wires_loop field_body fin fc' rest (mkUF (Key f) [] [] (IsTag f) None (Type_ f))) as Ty.
  { intros rest fc. destruct (uint64_nonneg (Type_ f)) as [E1 E2]; [lia|].
    destruct (Type_ f =? 0) eqn:E0; bool_to_prop; [rewrite E0; eexists; reflexivity|].
    cbn [app wires_loop field_body fc_of FieldNum]. unfold fc_Int32. cbn [wireType wtype intValue].
    change (wireTypeVarint =? wireTypeVarint) with true. cbv iota. rewrite E1. ztest. rewrite E2. eauto. }
  edestruct Ty as [fc3 ->].
  edestruct (opt_wire_step field_body fin 10 (Unit f) (mkUF (Key f) [] [] (IsTag f) None (Type_ f))
    (fun d => mkUF (Key f) d [] (IsTag f) None (Type_ f))) as [fc4 ->]; [done|done|].
  edestruct value_step as [fc5 ->]; [done|done|]. cbn [uf_key uf_unit uf_desc uf_isTag uf_f uf_type].
  rewrite <- (app_nil_r (opt_wire 12 _)).
  set (val := Some (mkField (Key f) (Val f) false UNSPECIFIED [] [])).
  edestruct (opt_wire_step field_body fin 12 (Description f) (mkUF (Key f) (Unit f) [] (IsTag f) val (Type_ f))
    (fun d => mkUF (Key f) (Unit f) d (IsTag f) val (Type_ f))) as [fc6 ->]; [done|done|].
  cbn. unfold fin, field_done. cbn. by destruct f.
Qed.

(** A point that the generated encoder sends and that the checker leaves alone. *)
Record glegal_point (p : PBPoint) : Prop := {
  gl_fields : Forall gsendable (pb_Fields p);
  gl_size : zlen (PBPoint_Marshal p) < 2 ^ 64;
  gl_clean : clean_point newCfg (plain p);
  gl_time : 0 <= pb_Time p < 2 ^ 63;
}.

Lemma glegal_sendable p : glegal_point p -> Forall sendable (pb_Fields p).
Proof. intros [F _ _ _]. eapply list.Forall_impl; [exact F|]. by intros f []. Qed.

Lemma gpoint_wires_ok p : glegal_point p -> Forall wire_ok (gpoint_wires p).
Proof.
  intros G. pose proof (gl_size p G) as L. rewrite PBPoint_Marshal_msg in L by by apply glegal_sendable.
  apply msg_wires_ok; [|done]. unfold gpoint_wires. repeat (apply list.Forall_app; split).
  - apply opt_wire_num. lia.
  - apply list.Forall_fmap, list.Forall_true. intros. by vm_compute.
  - destruct (pb_Time p =? 0); [done|]. apply list.Forall_singleton. split; [cbn; lia | apply uint64_range].
  - apply list.Forall_fmap, list.Forall_true. intros. by vm_compute.
  - apply list.Forall_fmap, list.Forall_true. intros. by vm_compute.
Qed.

Lemma gpoint_sizes p : glegal_point p ->
  (forall f, f ∈ pb_Fields p -> zlen (msg (gfield_wires f)) < 2 ^ 64) /\
  (forall w, w ∈ pb_Warns p -> zlen (msg (gwarn_wires w)) < 2 ^ 64) /\
  (forall d, d ∈ pb_Debugs p -> zlen (msg (gdebug_wires d)) < 2 ^ 64).
Proof.
  intros G. pose proof (gl_size p G) as L. rewrite PBPoint_Marshal_msg in L by by apply glegal_sendable.
  assert (forall n d, WLen n d ∈ gpoint_wires p -> zlen d < 2 ^ 64) as Sz.
  { intros n d H. pose proof (zlen_WLen_le _ _ _ H). lia. }
  unfold gpoint_wires in Sz. do 4 setoid_rewrite elem_of_app in Sz. setoid_rewrite list_elem_of_fmap in Sz.
  split; [|split]; [intros f Hf | intros w Hw | intros d Hd];
    [apply (Sz 2) | apply (Sz 4) | apply (Sz 5)]; eauto 10.
Qed.

Lemma glegal_raw sort now pooled pts : default_pool pooled -> Forall glegal_point pts ->
  forall p, p ∈ pts -> zlen (PBPoint_Marshal p) < 2 ^ 64 /\
    unmarshalPoint sort now pooled (PBPoint_Marshal p) = Ok (checked_flags, p).
Proof.
  intros Pl H p Hp. rewrite list.Forall_forall in H. specialize (H p Hp). split; [apply H|].
  rewrite PBPoint_Marshal_msg by by apply glegal_sendable.
  destruct (gpoint_sizes p H) as (SF & SW & SD). pose proof H as [F _ C T].
  rewrite list.Forall_forall in F. unfold gpoint_wires.
  rewrite (unmarshalPoint_parts sort now pooled p) with (fw := gfield_wires) (ww := gwarn_wires) (dw := gdebug_wires).
  - apply point_done_clean; [done|done|lia].
  - unfold opt_wire. destruct (0 <? zlen (pb_Name p)) eqn:E; [by left|]. right. split; [done|].
    bool_to_prop. destruct (pb_Name p) as [|x l]; [done|]. rewrite zlen_cons in E. pose proof (zlen_nonneg l). lia.
  - destruct (pb_Time p =? 0) eqn:E; bool_to_prop; auto.
  - unfold in_int64. lia.
  - intros f Hf. by apply gfield_roundtrip; [apply F | apply SF].
  - intros w Hw. by apply gwarn_roundtrip, SW.
  - intros d Hd. by apply gdebug_roundtrip, SD.
  - by apply gpoint_wires_ok.
Qed.

Lemma PBPoints_Marshal_msg arr :
  PBPoints_Marshal arr = msg ((fun p => WLen 1 (PBPoint_Marshal p)) <$> arr).
Proof.
  unfold PBPoints_Marshal, pb_each, msg. f_equal. rewrite <- list_fmap_compose.
  apply list_fmap_ext. intros i p _. cbn. by rewrite <- (pb_len_enc 1).
Qed.

(** A payload of the generated encoder, read by [unmarshalPoints]. *)
Lemma gogo_roundtrip sort now pooled pts : default_pool pooled -> Forall glegal_point pts ->
  unmarshalPoints sort now pooled (PBPoints_Marshal pts) = Ok (pair checked_flags <$> pts).
Proof.
  intros Pl H. rewrite PBPoints_Marshal_msg. unfold unmarshalPoints.
  destruct (walk_points sort now pooled _ pts [] (glegal_raw sort now pooled _ Pl H)) as [fc E]; [done|].
  rewrite app_nil_r in E. by rewrite E.
Qed.
End Read.
