(* ===== verification/PointEncode.v ===== *)
(** * Batching encoders ([src/point/encode.go], [encode_v2.go])

    [Encode] splits the points into batches, by bytes or by count, and encodes each;
    [Next] fills a caller's buffer with as many points as fit.  [LineProto], [LPPoint]
    and the JSON package are parameters; so is the callback.  [e.pbpts.Arr] is empty
    between calls, so it is a local of the functions that fill it. *)

From S2P Require Import Prelude Wire PointKV PointCheck PointNew PointProto PointPB.

Inductive eerr : Type :=
| ETooSmall (need avail : Z)     (* errTooSmallBuffer, with the sizes *)
| ETooSmallLP                    (* errTooSmallBuffer *)
| ENotSupport
| EExt (e : string).             (* of the callback, JSON or the line protocol *)

(** The callback [func(batchSize int, payload []byte) error]. *)
Definition EncodeFn : Type := Z -> bytes -> option string.

Record Encoder := mkEncoder {
  e_pts : list (option PBPoint);
  bytesSize : Z;
  batchSize : Z;
  totalBytes : Z;
  totalPts : Z;
  trimmedPts : Z;
  lastPtsIdx : nat;
  skippedPts : Z;
  parts : Z;
  lastErr : option eerr;
  e_fn : option EncodeFn;
  e_enc : Encoding;
  approxsize : bool;
  ignoreLargePoint : bool;
}.

(** ** Options, pool *)

Definition newEncoder : Encoder :=
  mkEncoder [] 0 0 0 0 0 0 0 0 None None DefaultEncoding false false.

Definition Encoder_reset (e : Encoder) : Encoder :=
  mkEncoder [] 0 0 0 0 0 0 0 0 None None DefaultEncoding true false.

Definition EncoderOption : Type := Encoder -> Encoder.

Definition WithEncEncoding (x : Encoding) : EncoderOption := fun e =>
  mkEncoder (e_pts e) (bytesSize e) (batchSize e) (totalBytes e) (totalPts e) (trimmedPts e) (lastPtsIdx e)
    (skippedPts e) (parts e) (lastErr e) (e_fn e) x (approxsize e) (ignoreLargePoint e).
Definition WithEncFn (f : option EncodeFn) : EncoderOption := fun e =>
  mkEncoder (e_pts e) (bytesSize e) (batchSize e) (totalBytes e) (totalPts e) (trimmedPts e) (lastPtsIdx e)
    (skippedPts e) (parts e) (lastErr e) f (e_enc e) (approxsize e) (ignoreLargePoint e).
Definition WithEncBatchSize (size : Z) : EncoderOption := fun e =>
  mkEncoder (e_pts e) (bytesSize e) size (totalBytes e) (totalPts e) (trimmedPts e) (lastPtsIdx e)
    (skippedPts e) (parts e) (lastErr e) (e_fn e) (e_enc e) (approxsize e) (ignoreLargePoint e).
Definition WithEncBatchBytes (n : Z) : EncoderOption := fun e =>
  mkEncoder (e_pts e) n (batchSize e) (totalBytes e) (totalPts e) (trimmedPts e) (lastPtsIdx e)
    (skippedPts e) (parts e) (lastErr e) (e_fn e) (e_enc e) (approxsize e) (ignoreLargePoint e).
Definition WithIgnoreLargePoint (on : bool) : EncoderOption := fun e =>
  mkEncoder (e_pts e) (bytesSize e) (batchSize e) (totalBytes e) (totalPts e) (trimmedPts e) (lastPtsIdx e)
    (skippedPts e) (parts e) (lastErr e) (e_fn e) (e_enc e) (approxsize e) on.
Definition WithApproxSize (on : bool) : EncoderOption := fun e =>
  mkEncoder (e_pts e) (bytesSize e) (batchSize e) (totalBytes e) (totalPts e) (trimmedPts e) (lastPtsIdx e)
    (skippedPts e) (parts e) (lastErr e) (e_fn e) (e_enc e) on (ignoreLargePoint e).

Definition GetEncoder (pooled : option Encoder) (opts : list (option EncoderOption)) : Encoder :=
  fold_left (fun e o => match o with Some f => f e | None => e end) opts
            (match pooled with Some e => e | None => newEncoder end).

Definition PutEncoder (e : Encoder) : Encoder := Encoder_reset e.

(** [EncodeV2]. *)
Definition EncodeV2 (pts : list (option PBPoint)) (e : Encoder) : Encoder :=
  mkEncoder pts (bytesSize e) (batchSize e) (totalBytes e) (totalPts e) (trimmedPts e) (lastPtsIdx e)
    (skippedPts e) (parts e) (lastErr e) (e_fn e) (e_enc e) (approxsize e) (ignoreLargePoint e).

(** ** The approximate size of a point *)

Definition val_approx (v : option FieldVal) : Z :=
  match v with
  | Some (Field_I _) | Some (Field_F _) | Some (Field_U _) => 8
  | Some (Field_B _) => 1
  | Some (Field_D d) => zlen d
  | Some (Field_S s) => zlen s
  | Some (Field_A a) => zlen (TypeUrl a) + zlen (AnyValue a)
  | None => 0
  end.

Definition Point_Size (p : PBPoint) : Z :=
  let n := zlen (pb_Name p) in
  let n := fold_left (fun n kv => n + zlen (Key kv) + 1 + 8 + 4 + zlen (Unit kv) + zlen (Description kv)
                                  + val_approx (Val kv)) (pb_Fields p) n in
  let n := fold_left (fun n w => n + (zlen (WarnType w) + zlen (WarnMsg w))) (pb_Warns p) n in
  fold_left (fun n d => n + zlen d) (pb_Debugs p) n.

Section Encode.
Context (LineProto : PBPoint -> bytes).
Context (json_Marshal : list PBPoint -> Res string bytes).
Context (LPPoint : PBPoint -> Res string bytes).

(** ** [Encode] *)

Definition join_lines (l : list bytes) : bytes :=
  match l with [] => [] | x :: l => fold_left (fun acc y => acc ++ newline :: y) l x end.

(** [getPayload]; the points of a batch are not nil. *)
Definition getPayload (e : Encoder) (pts : list PBPoint) : Res eerr bytes :=
  match pts with
  | [] => Ok []
  | _ =>
      match (match e_enc e with
             | Protobuf => Ok (PBPoints_Marshal pts)
             | LineProtocol =>
                 Ok (join_lines (filter (fun x => x <> []) (LineProto <$> pts)))
             | JSON => match json_Marshal pts with Ok b => Ok b | Err x => Err (EExt x) end
             | _ => Err ENotSupport
             end) with
      | Err x => Err x
      | Ok payload =>
          match e_fn e with
          | None => Ok payload
          | Some f => match f (zlen pts) payload with None => Ok payload | Some x => Err (EExt x) end
          end
      end
  end.

(** The loop by bytes: the current batch, its size, the payloads so far. *)
Fixpoint encode_bytes (e : Encoder) (pts batch : list PBPoint) (cur : Z) (batches : list bytes)
    : Res eerr (list bytes) :=
  match pts with
  | [] =>
      match batch with
      | [] => Ok batches
      | _ => match getPayload e batch with Ok p => Ok (batches ++ [p]) | Err x => Err x end
      end
  | pt :: pts =>
      let batch := batch ++ [pt] in
      let cur := cur + Point_Size pt in
      if bytesSize e <=? cur then
        match getPayload e batch with
        | Err x => Err x
        | Ok p => encode_bytes e pts [] 0 (batches ++ [p])
        end
      else encode_bytes e pts batch cur batches
  end.

(** The loop by count. *)
Fixpoint encode_count (e : Encoder) (pts batch : list PBPoint) (batches : list bytes)
    : Res eerr (list bytes) :=
  match pts with
  | [] =>
      match batch with
      | [] => Ok batches
      | _ => match getPayload e batch with Ok p => Ok (batches ++ [p]) | Err x => Err x end
      end
  | pt :: pts =>
      let batch := batch ++ [pt] in
      if Z.rem (zlen batch) (batchSize e) =? 0 then
        match getPayload e batch with
        | Err x => Err x
        | Ok p => encode_count e pts [] (batches ++ [p])
        end
      else encode_count e pts batch batches
  end.

Definition doEncode (e : Encoder) (pts : list PBPoint) : Res eerr (list bytes) :=
  match pts with
  | [] => Ok []
  | _ =>
      if 0 <? bytesSize e then encode_bytes e pts [] 0 []
      else if 0 <? batchSize e then encode_count e pts [] []
      else match getPayload e pts with Ok p => Ok [p] | Err x => Err x end
  end.

(** [Encode]. *)
Definition Encode (e : Encoder) (pts : list PBPoint) : Res eerr (list bytes) := doEncode e pts.

(** ** [Next], protobuf *)

Definition est (e : Encoder) (p : PBPoint) : Z :=
  if approxsize e then Point_Size p else PBPoint_Size p.

(** The counters of a step. *)
Definition count (e : Encoder) (idx : nat) (total skipped trimmed : Z) (err : option eerr) : Encoder :=
  mkEncoder (e_pts e) (bytesSize e) (batchSize e) (totalBytes e) total trimmed idx
    skipped (parts e) err (e_fn e) (e_enc e) (approxsize e) (ignoreLargePoint e).

(** The loop that gathers points; [None]: it has returned [nil, false]. *)
Fixpoint gather (fuel : nat) (e : Encoder) (bufLen : Z) (arr : list PBPoint) (cur : Z)
    : Encoder * option (list PBPoint * Z) :=
  match fuel with
  | O => (e, Some (arr, cur))
  | S fuel =>
      match e_pts e !! lastPtsIdx e with
      | None => (e, Some (arr, cur))
      | Some None => gather fuel (count e (S (lastPtsIdx e)) (totalPts e) (skippedPts e) (trimmedPts e) (lastErr e)) bufLen arr cur
      | Some (Some pt) =>
          let ptsize := est e pt in
          if cur + ptsize <=? bufLen then
            gather fuel (count e (S (lastPtsIdx e)) (totalPts e + 1) (skippedPts e) (trimmedPts e) (lastErr e))
                   bufLen (arr ++ [pt]) (cur + ptsize)
          else
            match arr with
            | [] =>
                let e := count e (S (lastPtsIdx e)) (totalPts e) (skippedPts e + 1) (trimmedPts e) (lastErr e) in
                if ignoreLargePoint e then gather fuel e bufLen arr cur
                else (count e (lastPtsIdx e) (totalPts e) (skippedPts e) (trimmedPts e) (Some (ETooSmall ptsize bufLen)), None)
            | _ => (e, Some (arr, cur))
            end
      end
  end.

(** The loop of [tryTrim]: the size, or an error; the points that are left.  The fuel
    is the number of points: each round drops one at least. *)
Fixpoint trim_loop (fuel : nat) (e : Encoder) (arr : list PBPoint) (trimmed : nat) (cur bufLen : Z)
    : Res panic (Encoder * list PBPoint * Res eerr Z) :=
  let size := PBPoints_Size arr in
  if size <? bufLen then Ok (e, arr, Ok size)
  else if zlen arr =? 1 then
    let e := count e (lastPtsIdx e) (totalPts e - 1) (skippedPts e + 1) (trimmedPts e) (lastErr e) in
    Ok (e, [], if ignoreLargePoint e then Ok 0 else Err (ETooSmall cur bufLen))
  else if (length arr <? trimmed)%nat then Err PanicIndex
  else
    match fuel with
    | O => Err PanicIndex
    | S fuel =>
        trim_loop fuel
          (count e (lastPtsIdx e - trimmed) (totalPts e - Z.of_nat trimmed) (skippedPts e)
                 (trimmedPts e + Z.of_nat trimmed) (lastErr e))
          (take (length arr - trimmed) arr) (2 * trimmed) cur bufLen
    end.

Definition tryTrim (e : Encoder) (arr : list PBPoint) (cur bufLen : Z)
    : Res panic (Encoder * list PBPoint * Res eerr Z) :=
  match arr with
  | [] => Ok (e, [], Ok 0)
  | _ => trim_loop (length arr) e arr 1 cur bufLen
  end.

Definition set_lastErr (x : eerr) (e : Encoder) : Encoder :=
  count e (lastPtsIdx e) (totalPts e) (skippedPts e) (trimmedPts e) (Some x).

Definition one_part (n : Z) (e : Encoder) : Encoder :=
  mkEncoder (e_pts e) (bytesSize e) (batchSize e) (totalBytes e + n) (totalPts e) (trimmedPts e) (lastPtsIdx e)
    (skippedPts e) (parts e + 1) (lastErr e) (e_fn e) (e_enc e) (approxsize e) (ignoreLargePoint e).

(** The buffer is written from its start, since [after] is the exact size.  [None] is
    the result [nil, false]. *)
Definition doEncodeProtobuf (e : Encoder) (buf : bytes) : Res panic (Encoder * option bytes) :=
  match lastErr e with
  | Some _ => Ok (e, None)
  | None =>
      match gather (length (e_pts e) + 1) e (zlen buf) [] 0 with
      | (e, None) => Ok (e, None)
      | (e, Some (arr, cur)) =>
          match tryTrim e arr cur (zlen buf) with
          | Err p => Err p
          | Ok (e, arr, Err x) => Ok (set_lastErr x e, None)
          | Ok (e, arr, Ok after) =>
              if after =? 0 then Ok (e, None)
              else if (zlen arr =? 0) || (after <=? 0) then Ok (e, None)
              else match MarshalToSizedBuffer arr (ztake after buf) with
                   | Err p => Err p
                   | Ok (out, n) =>
                       match (match e_fn e with
                              | None => None
                              | Some f => f (zlen arr) (ztake n out)
                              end) with
                       | Some x => Ok (set_lastErr (EExt x) e, None)
                       | None => Ok (one_part n e, Some (ztake n out))
                       end
                   end
          end
      end
  end.

(** ** [Next], line protocol *)

Definition step_idx (e : Encoder) : Encoder :=
  count e (S (lastPtsIdx e)) (totalPts e) (skippedPts e) (trimmedPts e) (lastErr e).

Definition lp_part (e : Encoder) : Encoder := one_part 0 e.

(** [range e.pts[e.lastPtsIdx:]]: the slice is fixed when the loop starts; [out] is
    what has been copied to the buffer.  A nil point and a point that does not convert
    are skipped. *)
Fixpoint lp_loop (e : Encoder) (bufLen : Z) (pts : list (option PBPoint)) (out : bytes) (npts : Z)
    : Encoder * option bytes :=
  match pts with
  | [] =>
      if 0 <? zlen out then
        let e := lp_part e in
        match (match e_fn e with None => None | Some f => f npts out end) with
        | Some x => (set_lastErr (EExt x) e, None)
        | None => (e, Some out)
        end
      else (e, None)
  | None :: pts => lp_loop e bufLen pts out npts
  | Some pt :: pts =>
      match LPPoint pt with
      | Err x => lp_loop (set_lastErr (EExt x) e) bufLen pts out npts
      | Ok text =>
          if bufLen <? zlen out + zlen text + 1 then
            if zlen out =? 0 then (set_lastErr ETooSmallLP e, None)
            else match (match e_fn e with None => None | Some f => f npts out end) with
                 | Some x => (set_lastErr (EExt x) e, None)
                 | None => (lp_part e, Some out)
                 end
          else lp_loop (step_idx e) bufLen pts (out ++ text ++ [newline]) (npts + 1)
      end
  end.

Definition doEncodeLineProtocol (e : Encoder) (buf : bytes) : Res panic (Encoder * option bytes) :=
  if (length (e_pts e) <? lastPtsIdx e)%nat then Err PanicIndex
  else Ok (lp_loop e (zlen buf) (drop (lastPtsIdx e) (e_pts e)) [] 0).

(** [Next]. *)
Definition Next (e : Encoder) (buf : bytes) : Res panic (Encoder * option bytes) :=
  match e_enc e with
  | Protobuf => doEncodeProtobuf e buf
  | LineProtocol => doEncodeLineProtocol e buf
  | _ => Ok (e, None)
  end.

(** The caller's loop: [for { if x, ok := e.Next(buf); ok { ... } else { break } }]. *)
Fixpoint drain (fuel : nat) (e : Encoder) (buf : bytes) : Res panic (Encoder * list bytes) :=
  match fuel with
  | O => Ok (e, [])
  | S fuel =>
      match Next e buf with
      | Err p => Err p
      | Ok (e, None) => Ok (e, [])
      | Ok (e, Some x) =>
          match drain fuel e buf with
          | Err p => Err p
          | Ok (e, l) => Ok (e, x :: l)
          end
      end
  end.

End Encode.
