(* ===== verification/PointEncodeThms.v ===== *)
(** * The encoders lose no point, and their payloads decode *)

From S2P Require Import Prelude Wire WireThms PointKV PointCheck PointNew PointKVThms PointCheckSpec PointCheckThms PointFindings PointProto PointProtoThms PointPB PointEncode.

(** ** [Encode]: batches *)

Definition total_size (c : list PBPoint) : Z := fold_right (fun p n => Point_Size p + n) 0 c.

Lemma total_size_app a b : total_size (a ++ b) = total_size a + total_size b.
Proof. unfold total_size. induction a as [|p a IH]; cbn [app fold_right]; [lia|]. rewrite IH. lia. Qed.

Lemma fold_grows {A} (f : Z -> A -> Z) (l : list A) n : (forall n x, n <= f n x) -> n <= fold_left f l n.
Proof.
  intros H. revert n. induction l as [|x l IH]; intros n; cbn [fold_left]; [lia|].
  specialize (IH (f n x)). specialize (H n x). lia.
Qed.

Lemma val_approx_nonneg v : 0 <= val_approx v.
Proof. destruct v as [[]|]; cbn; auto with go; try lia. apply Z.add_nonneg_nonneg; auto with go. Qed.

Lemma Point_Size_nonneg p : 0 <= Point_Size p.
Proof.
  unfold Point_Size. cbn zeta. set (n0 := zlen (pb_Name p)). assert (0 <= n0) by (subst n0; auto with go).
  set (n1 := fold_left _ (pb_Fields p) n0).
  assert (n0 <= n1) as H1.
  { apply fold_grows. intros n kv. pose proof (val_approx_nonneg (Val kv)).
    pose proof (zlen_nonneg (Key kv)). pose proof (zlen_nonneg (Unit kv)). pose proof (zlen_nonneg (Description kv)). lia. }
  set (n2 := fold_left _ (pb_Warns p) n1).
  assert (n1 <= n2) as H2.
  { apply fold_grows. intros n w. pose proof (zlen_nonneg (WarnType w)). pose proof (zlen_nonneg (WarnMsg w)). lia. }
  etrans; [|apply fold_grows; intros n d; pose proof (zlen_nonneg d); lia]. lia.
Qed.

Lemma total_size_nonneg c : 0 <= total_size c.
Proof.
  induction c as [|p c IH]; [done|]. change (total_size (p :: c)) with (Point_Size p + total_size c).
  pose proof (Point_Size_nonneg p). lia.
Qed.

(** What a batch may hold: by bytes, it was below the limit before its last point; by
    count, it has at most [batchSize] points. *)
Definition chunk_ok (e : Encoder) (c : list PBPoint) : Prop :=
  c <> [] /\
  if 0 <? bytesSize e then total_size (take (length c - 1) c) < bytesSize e
  else if 0 <? batchSize e then zlen c <= batchSize e else True.

(** When a batch is closed. *)
Definition chunk_full (e : Encoder) (c : list PBPoint) : Prop :=
  if 0 <? bytesSize e then bytesSize e <= total_size c
  else if 0 <? batchSize e then zlen c = batchSize e else False.

(** A split of [pts] into batches; all but the last are full. *)
Record is_batches (e : Encoder) (pts : list PBPoint) (chunks : list (list PBPoint)) : Prop := {
  ib_all : mjoin chunks = pts;
  ib_ok : Forall (chunk_ok e) chunks;
  ib_full : forall i c, chunks !! i = Some c -> (S i < length chunks)%nat -> chunk_full e c;
}.

Lemma is_batches_cons e c pts chunks : chunk_ok e c -> chunk_full e c -> is_batches e pts chunks ->
  is_batches e (c ++ pts) (c :: chunks).
Proof.
  intros O F [A B C]. split.
  - change (mjoin (c :: chunks)) with (c ++ mjoin chunks). by rewrite A.
  - by constructor.
  - intros [|i] d E L; cbn in *; [by injection E as <-|]. eapply C; [done|lia].
Qed.

Lemma is_batches_one e c : chunk_ok e c -> is_batches e c [c].
Proof.
  intros O. split; [cbn; by rewrite app_nil_r | by constructor|]. intros i d _ L. cbn in L. lia.
Qed.

Lemma is_batches_nil e : is_batches e [] [].
Proof. split; [done..|]. intros i c E. by rewrite lookup_nil in E. Qed.

Lemma snoc_take {A} (l : list A) x : take (length (l ++ [x]) - 1) (l ++ [x]) = l.
Proof. rewrite length_app. cbn. rewrite Nat.add_sub. apply take_app_length. Qed.

Section Encode.
Context (LineProto : PBPoint -> bytes) (json_Marshal : list PBPoint -> Res string bytes).

Abbreviation payload_of := (getPayload LineProto json_Marshal).

(** The payloads of some batches. *)
Definition encoded (e : Encoder) (chunks : list (list PBPoint)) (out : list bytes) : Prop :=
  Forall2 (fun c p => payload_of e c = Ok p) chunks out.

(** What a loop promises: payloads of batches, or the error of one. *)
Definition outcome (e : Encoder) (pts : list PBPoint) (batches : list bytes) (r : Res eerr (list bytes)) : Prop :=
  match r with
  | Ok out => exists chunks l, out = batches ++ l /\ is_batches e pts chunks /\ encoded e chunks l
  | Err x => exists c, payload_of e c = Err x
  end.

(** The loop goes on with a new batch. *)
Lemma outcome_cons e c p pts batches r : chunk_ok e c -> chunk_full e c -> payload_of e c = Ok p ->
  outcome e pts (batches ++ [p]) r -> outcome e (c ++ pts) batches r.
Proof.
  intros O F P. destruct r as [out|x]; [|done]. intros (chunks & l & -> & B & En).
  exists (c :: chunks), (p :: l). rewrite <- app_assoc. split; [done|]. split; [by apply is_batches_cons|].
  by constructor.
Qed.

(** The tail. *)
Lemma outcome_tail e batch batches : batch = [] \/ chunk_ok e batch ->
  outcome e batch batches (match batch with
      | [] => Ok batches
      | _ => match payload_of e batch with Ok p => Ok (batches ++ [p]) | Err x => Err x end
      end).
Proof.
  intros H. destruct batch as [|p batch].
  - exists [], []. rewrite app_nil_r. split; [done|]. split; [apply is_batches_nil | constructor].
  - destruct H as [|H]; [done|]. destruct (payload_of e (p :: batch)) eqn:E; [|by exists (p :: batch)].
    exists [p :: batch], [a]. split; [done|]. split; [by apply is_batches_one | by repeat constructor].
Qed.

Lemma encode_bytes_run e pts : 0 < bytesSize e -> forall batch batches,
  total_size batch < bytesSize e ->
  outcome e (batch ++ pts) batches (encode_bytes LineProto json_Marshal e pts batch (total_size batch) batches).
Proof.
  intros Hb. induction pts as [|pt pts IH]; intros batch batches Hs; cbn [encode_bytes].
  - rewrite app_nil_r. apply outcome_tail. destruct batch as [|p batch]; [by left|]. right. split; [done|].
    ztest. rewrite <- (take_drop (length (p :: batch) - 1) (p :: batch)) in Hs.
    rewrite total_size_app in Hs. set (t := take _ _) in *.
    pose proof (total_size_nonneg (drop (length (p :: batch) - 1) (p :: batch))). lia.
  - assert (total_size batch + Point_Size pt = total_size (batch ++ [pt])) as ->
      by (rewrite total_size_app; unfold total_size; cbn; lia).
    assert (chunk_ok e (batch ++ [pt])) as Ck.
    { split; [by destruct batch|]. ztest. by rewrite snoc_take. }
    rewrite (app_assoc batch [pt] pts : batch ++ pt :: pts = _).
    destruct (bytesSize e <=? _) eqn:E; bool_to_prop.
    + destruct (payload_of e (batch ++ [pt])) eqn:P; [|by eexists].
      eapply outcome_cons; [done| |exact P|].
      { unfold chunk_full. ztest. done. }
      apply (IH [] (batches ++ [a])). done.
    + by apply IH.
Qed.

Lemma encode_count_run e pts : bytesSize e <= 0 -> 0 < batchSize e -> forall batch batches,
  zlen batch < batchSize e ->
  outcome e (batch ++ pts) batches (encode_count LineProto json_Marshal e pts batch batches).
Proof.
  intros Hn Hb. induction pts as [|pt pts IH]; intros batch batches Hs; cbn [encode_count].
  - rewrite app_nil_r. apply outcome_tail. destruct batch as [|p batch]; [by left|]. right. split; [done|].
    ztest. lia.
  - assert (chunk_ok e (batch ++ [pt])) as Ck.
    { split; [by destruct batch|]. ztest. rewrite zlen_app. change (zlen [pt]) with 1. lia. }
    rewrite (app_assoc batch [pt] pts : batch ++ pt :: pts = _).
    assert (0 < zlen (batch ++ [pt]) <= batchSize e) as Hl.
    { rewrite zlen_app. change (zlen [pt]) with 1. pose proof (zlen_nonneg batch). lia. }
    rewrite Z.rem_mod_nonneg by lia. destruct (_ =? 0) eqn:E; bool_to_prop.
    + destruct (payload_of e (batch ++ [pt])) eqn:P; [|by eexists].
      eapply outcome_cons; [done| |exact P|].
      { unfold chunk_full. ztest. destruct (Z.lt_ge_cases (zlen (batch ++ [pt])) (batchSize e)); [|lia].
        rewrite Z.mod_small in E by lia. lia. }
      apply (IH [] (batches ++ [a])). done.
    + apply IH. destruct (Z.lt_ge_cases (zlen (batch ++ [pt])) (batchSize e)); [done|].
      assert (zlen (batch ++ [pt]) = batchSize e) as Eq by lia. rewrite Eq, Z.mod_same in E by lia. lia.
Qed.

Lemma doEncode_run e pts : outcome e pts [] (doEncode LineProto json_Marshal e pts).
Proof.
  unfold doEncode. destruct pts as [|p pts]; [by exists [], []; split_and!; [|apply is_batches_nil|constructor]|].
  destruct (0 <? bytesSize e) eqn:Eb; bool_to_prop; [by apply (encode_bytes_run e (p :: pts) Eb [] [])|].
  destruct (0 <? batchSize e) eqn:Ec; bool_to_prop; [by apply (encode_count_run e (p :: pts) Eb Ec [] [])|].
  apply (outcome_tail e (p :: pts) []). right. split; [done|]. by ztest.
Qed.


End Encode.

(** ** [Next]: filling buffers *)

(** The estimate of some points. *)
Definition est_sum (e : Encoder) (c : list PBPoint) : Z := fold_right (fun p n => est e p + n) 0 c.

Lemma est_sum_app e a b : est_sum e (a ++ b) = est_sum e a + est_sum e b.
Proof. unfold est_sum. induction a as [|p a IH]; cbn [app fold_right]; [lia|]. rewrite IH. lia. Qed.

(** The settings of an encoder. *)
Definition same_settings (e e' : Encoder) : Prop :=
  e_pts e' = e_pts e /\ e_enc e' = e_enc e /\ e_fn e' = e_fn e /\ approxsize e' = approxsize e /\
  ignoreLargePoint e' = ignoreLargePoint e.

(** From [e] to [e'] the points [sk] were given up and the points [c] were taken. *)
Record advanced (ps : list PBPoint) (e e' : Encoder) (sk c : list PBPoint) : Prop := {
  ad_pts : drop (lastPtsIdx e) ps = sk ++ c ++ drop (lastPtsIdx e') ps;
  ad_idx : lastPtsIdx e' = (lastPtsIdx e + length sk + length c)%nat;
  ad_skipped : skippedPts e' = skippedPts e + zlen sk;
  ad_total : totalPts e' = totalPts e + zlen c;
  ad_same : same_settings e e';
}.

Lemma advanced_refl ps e : advanced ps e e [] [].
Proof. split; cbn [app length]; change (zlen (@nil PBPoint)) with 0; lia || done. Qed.

Lemma advanced_trans ps a b d sk1 c1 sk2 c2 : c1 = [] \/ sk2 = [] ->
  advanced ps a b sk1 c1 -> advanced ps b d sk2 c2 -> advanced ps a d (sk1 ++ sk2) (c1 ++ c2).
Proof.
  intros H [P1 I1 S1 T1 E1] [P2 I2 S2 T2 E2]. split.
  - rewrite P1, P2. destruct H as [->| ->]; cbn; by rewrite ?app_nil_r, <- ?app_assoc.
  - rewrite I2, I1, !length_app. lia.
  - rewrite S2, S1, zlen_app. lia.
  - rewrite T2, T1, zlen_app. lia.
  - destruct E1 as (?&?&?&?&?), E2 as (?&?&?&?&?). repeat split; congruence.
Qed.

Lemma est_same e e' p : approxsize e' = approxsize e -> est e' p = est e p.
Proof. intros H. unfold est. by rewrite H. Qed.

Lemma est_sum_same e e' c : approxsize e' = approxsize e -> est_sum e' c = est_sum e c.
Proof.
  intros H. unfold est_sum. induction c as [|p c IH]; [done|]. cbn [fold_right].
  by rewrite IH, (est_same e e').
Qed.

(** One point: skipped, or taken. *)
Lemma advanced_skip ps e pt err : ps !! lastPtsIdx e = Some pt ->
  advanced ps e (count e (S (lastPtsIdx e)) (totalPts e) (skippedPts e + 1) (trimmedPts e) err) [pt] [].
Proof.
  intros E. split; cbn [app length count lastPtsIdx skippedPts totalPts]; try (change (zlen [pt]) with 1);
    try (change (zlen (@nil PBPoint)) with 0); try lia; try done. by apply drop_S.
Qed.

Lemma advanced_take ps e pt : ps !! lastPtsIdx e = Some pt ->
  advanced ps e (count e (S (lastPtsIdx e)) (totalPts e + 1) (skippedPts e) (trimmedPts e) (lastErr e)) [] [pt].
Proof.
  intros E. split; cbn [app length count lastPtsIdx skippedPts totalPts]; try (change (zlen [pt]) with 1);
    try (change (zlen (@nil PBPoint)) with 0); try lia; try done. by apply drop_S.
Qed.

(** What the gathering loop promises. *)
Definition gathered (ps : list PBPoint) (bufLen : Z) (e : Encoder) (arr : list PBPoint)
    (r : Encoder * option (list PBPoint * Z)) : Prop :=
  match r with
  | (e', None) => exists sk, advanced ps e e' sk [] /\ lastErr e' <> None /\ ignoreLargePoint e = false /\
                             Forall (fun p => bufLen < est e p) sk /\ sk <> [] /\ arr = []
  | (e', Some (arr', cur)) =>
      exists sk c, advanced ps e e' sk c /\ arr' = arr ++ c /\ (arr <> [] -> sk = []) /\
        cur = est_sum e arr' /\ lastErr e' = lastErr e /\ est_sum e arr' <= bufLen /\
        (arr' = [] -> (length ps <= lastPtsIdx e')%nat) /\
        Forall (fun p => bufLen < est e p) sk
  end.

Lemma gathered_step ps bufLen e e1 arr arr1 sk1 c1 r : advanced ps e e1 sk1 c1 -> arr1 = arr ++ c1 ->
  lastErr e1 = lastErr e -> (c1 = [] \/ sk1 = [] /\ arr1 <> []) -> (arr <> [] -> sk1 = []) ->
  Forall (fun p => bufLen < est e p) sk1 ->
  gathered ps bufLen e1 arr1 r -> gathered ps bufLen e arr r.
Proof.
  intros A -> Er Hc Ha F. destruct A as [P I Sk T (Q1 & Q2 & Q3 & Q4 & Q5)].
  assert (advanced ps e e1 sk1 c1) as A by by repeat split.
  assert (forall sk, Forall (fun p => bufLen < est e1 p) sk -> Forall (fun p => bufLen < est e p) (sk1 ++ sk)) as Fa.
  { intros sk Hs. apply list.Forall_app. split; [done|]. eapply list.Forall_impl; [exact Hs|].
    intros p Hp. cbv beta in *. by rewrite <- (est_same e e1 p Q4). }
  destruct r as [e' [[arr' cur]|]]; cbn [gathered].
  - intros (sk & c & A2 & -> & H1 & H2 & H3 & H4 & H5 & H6). exists (sk1 ++ sk), (c1 ++ c).
    rewrite !(est_sum_same e e1) in * by done. rewrite <- app_assoc in *.
    split_and!; try done; [|intros Hn|congruence|by apply Fa].
    + eapply advanced_trans; [|exact A|exact A2]. destruct Hc as [->|[-> Hn]]; [by left|right; auto].
    + rewrite Ha by done. cbn. apply H1. by destruct arr.
  - intros (sk & A2 & H1 & H2 & H3 & H4 & [-> ->]%app_eq_nil). exists (sk1 ++ sk).
    split_and!; [|done|congruence|by apply Fa|by destruct sk1|done].
    apply (advanced_trans ps e e1 e' sk1 [] sk []); auto.
Qed.

Lemma gather_run ps bufLen fuel : forall e arr,
  e_pts e = Some <$> ps -> (length ps - lastPtsIdx e < fuel)%nat -> est_sum e arr <= bufLen ->
  gathered ps bufLen e arr (gather fuel e bufLen arr (est_sum e arr)).
Proof.
  induction fuel as [|fuel IH]; intros e arr Hp Hf Hb; [lia|]. cbn [gather].
  rewrite Hp, list_lookup_fmap. destruct (ps !! lastPtsIdx e) as [pt|] eqn:Ep; cbn [fmap option_fmap option_map].
  - apply lookup_lt_Some in Ep as Lt. destruct (_ <=? bufLen) eqn:E; bool_to_prop.
    + pose proof (advanced_take ps e pt Ep) as A. set (e1 := count e _ _ _ _ _) in *.
      assert (est_sum e arr + est e pt = est_sum e1 (arr ++ [pt])) as Es.
      { rewrite (est_sum_same e e1) by done. rewrite est_sum_app. unfold est_sum at 3. cbn. lia. }
      rewrite Es. eapply gathered_step; [exact A|done|done|right; split; [done|by destruct arr]|done|constructor|].
      apply IH; [done | cbn; lia | by rewrite <- Es].
    + destruct arr as [|a arr].
      * pose proof (advanced_skip ps e pt (lastErr e) Ep) as A.
        assert (bufLen < est e pt) as Big by (unfold est_sum in E; cbn in E; lia).
        destruct (ignoreLargePoint (count _ _ _ _ _ _)) eqn:Ig.
        -- eapply gathered_step; [exact A|done|done|by left|done|by repeat constructor|].
           match goal with |- gathered _ _ ?e1 _ _ => apply (IH e1 []) end; [done | cbn; lia | done].
        -- exists [pt]. split_and!; try done; try (by repeat constructor).
           all: destruct A as [P I Sk T Sm]; by split.
      * exists [], []. rewrite app_nil_r. split_and!; try done. apply advanced_refl.
  - exists [], []. rewrite app_nil_r. apply lookup_ge_None_1 in Ep.
    split_and!; try done. apply advanced_refl.
Qed.

Lemma advanced_trim ps e0 e sk c n t err : advanced ps e0 e sk c -> (n <= length c)%nat ->
  advanced ps e0 (count e (lastPtsIdx e - n) (totalPts e - Z.of_nat n) (skippedPts e) t err) sk
           (take (length c - n) c).
Proof.
  intros [P I Sk T Sm] L. split; cbn [count lastPtsIdx skippedPts totalPts]; try done.
  - replace (lastPtsIdx e - n)%nat with (lastPtsIdx e0 + (length sk + (length c - n)))%nat by lia.
    rewrite <- drop_drop, P. rewrite drop_app_add. rewrite drop_app_le by lia.
    by rewrite (app_assoc (take _ _)), take_drop.
  - rewrite length_take. lia.
  - rewrite T. unfold zlen. rewrite length_take. lia.
Qed.

Lemma advanced_give_up ps e0 e sk p t err : advanced ps e0 e sk [p] ->
  advanced ps e0 (count e (lastPtsIdx e) (totalPts e - 1) (skippedPts e + 1) t err) (sk ++ [p]) [].
Proof.
  intros [P I Sk T Sm]. split; cbn [count lastPtsIdx skippedPts totalPts]; try done.
  - by rewrite <- app_assoc.
  - rewrite length_app. cbn in *. lia.
  - rewrite zlen_app. change (zlen [p]) with 1. lia.
  - rewrite T. change (zlen [p]) with 1. change (zlen (@nil PBPoint)) with 0. lia.
Qed.

(** What trimming promises: a prefix of the points that fits, or nothing. *)
Definition trimmed_to (ps : list PBPoint) (bufLen : Z) (e0 : Encoder) (sk : list PBPoint) (err : option eerr)
    (r : Res panic (Encoder * list PBPoint * Res eerr Z)) : Prop :=
  match r with
  | Err _ => True
  | Ok (e', arr', Ok size) =>
      size = PBPoints_Size arr' /\ lastErr e' = err /\ exists sk', advanced ps e0 e' sk' arr' /\
      (arr' = [] \/ sk' = sk /\ size < bufLen)
  | Ok (e', arr', Err x) => exists sk', advanced ps e0 e' sk' [] /\ arr' = []
  end.

Lemma trim_run ps bufLen cur e0 sk fuel : forall e c trimmed, advanced ps e0 e sk c ->
  trimmed_to ps bufLen e0 sk (lastErr e) (trim_loop fuel e c trimmed cur bufLen).
Proof.
  induction fuel as [|fuel IH]; intros e c trimmed A; cbn [trim_loop].
  all: destruct (PBPoints_Size c <? bufLen) eqn:E; bool_to_prop.
  1, 3: (split; [done|]; split; [done|]; exists sk; split; [done|by right]).
  all: destruct (zlen c =? 1) eqn:E1; bool_to_prop.
  1, 3: destruct c as [|p [|q c]]; [done| |rewrite !zlen_cons in E1; pose proof (zlen_nonneg c); lia].
  1, 2: pose proof (advanced_give_up _ _ _ _ _ (trimmedPts e) (lastErr e) A) as G;
    destruct (ignoreLargePoint _); [split; [done|]; split; [done|]|]; eexists; split; try exact G; try done; by left.
  all: destruct (_ <? trimmed)%nat eqn:Et; [done|]. 1: done.
  apply Nat.ltb_ge in Et.
  pose proof (advanced_trim _ _ _ _ _ trimmed (trimmedPts e + Z.of_nat trimmed) (lastErr e) A Et) as A'.
  exact (IH _ _ (2 * trimmed)%nat A').
Qed.

(** *** Sizes of parts *)

Lemma PBPoints_Marshal_app a b : PBPoints_Marshal (a ++ b) = PBPoints_Marshal a ++ PBPoints_Marshal b.
Proof. unfold PBPoints_Marshal, pb_each. by rewrite fmap_app, join_app. Qed.

(** Points whose sizes the encoder computes without overflow. *)
Definition sized (ps : list PBPoint) : Prop := Forall ranged ps /\ zlen (PBPoints_Marshal ps) < 2 ^ 64.

Lemma sized_app a b : sized (a ++ b) -> sized a /\ sized b.
Proof.
  unfold sized. rewrite list.Forall_app, PBPoints_Marshal_app, zlen_app.
  intros [[Ra Rb] L]. pose proof (zlen_nonneg (PBPoints_Marshal a)). pose proof (zlen_nonneg (PBPoints_Marshal b)).
  repeat split; try done; lia.
Qed.

Lemma advanced_sized ps e e' sk c : advanced ps e e' sk c -> sized ps -> sized c.
Proof.
  intros A S. rewrite <- (take_drop (lastPtsIdx e) ps) in S. apply sized_app in S as [_ S].
  rewrite (ad_pts _ _ _ _ _ A) in S. apply sized_app in S as [_ S]. by apply sized_app in S as [S _].
Qed.

(** A buffer of the exact size is filled from its start. *)
Lemma marshal_exact c buf : sized c -> PBPoints_Size c < zlen buf ->
  MarshalToSizedBuffer c (ztake (PBPoints_Size c) buf) = Ok (PBPoints_Marshal c, zlen (PBPoints_Marshal c)).
Proof.
  intros [R L] H. rewrite <- zlen_PBPoints in * by done. unfold MarshalToSizedBuffer.
  assert (zlen (ztake (zlen (PBPoints_Marshal c)) buf) = zlen (PBPoints_Marshal c)) as ->.
  { rewrite ztake_take. unfold zlen in *. rewrite length_take. lia. }
  rewrite Z.sub_diag. ztest. rewrite ztake_take. done.
Qed.

Lemma PBPoints_Size_pos p c : sized (p :: c) -> 0 < PBPoints_Size (p :: c).
Proof.
  intros [R L]. rewrite <- zlen_PBPoints by done. apply zlen_pos. done.
Qed.

Section Next.
Context (LPPoint : PBPoint -> Res string bytes).

(** A call of [Next], from what the loops promise. *)
Lemma next_run ps e buf : e_enc e = Protobuf -> e_fn e = None -> lastErr e = None ->
  e_pts e = Some <$> ps -> sized ps ->
  match Next LPPoint e buf with
  | Err _ => True
  | Ok (e', r) =>
      exists sk c, advanced ps e e' sk c /\
      match r with
      | Some out => c <> [] /\ out = PBPoints_Marshal c /\ zlen out < zlen buf /\ lastErr e' = None
      | None => c = []
      end
  end.
Proof.
  intros Ee Ef El Ep Sz. unfold Next. rewrite Ee. unfold doEncodeProtobuf. rewrite El.
  pose proof (gather_run ps (zlen buf) (length (e_pts e) + 1) e [] Ep) as G.
  specialize (G ltac:(rewrite Ep, length_fmap; lia) (zlen_nonneg buf)).
  change (est_sum e []) with 0 in G.
  destruct (gather _ e (zlen buf) [] 0) as [e1 [[arr cur]|]].
  2:{ destruct G as (sk & A & _). exists sk, []. done. }
  destruct G as (sk & c & A & -> & _ & _ & Er & _). cbn [app].
  assert (trimmed_to ps (zlen buf) e sk (lastErr e1) (tryTrim e1 c cur (zlen buf))) as Tr.
  { destruct c as [|p c]; [|by apply trim_run]. split; [done|]. split; [done|]. exists sk. split; [done|by left]. }
  destruct (tryTrim e1 c cur (zlen buf)) as [[[e2 arr] [size|x]]|]; [| |done].
  2:{ destruct Tr as (sk' & [P I Sk T Sm] & ->). by exists sk', []. }
  destruct Tr as (-> & Er2 & sk' & A2 & H).
  destruct arr as [|p arr]; [by exists sk', []|].
  destruct H as [|[-> Lt]]; [done|]. pose proof (advanced_sized _ _ _ _ _ A2 Sz) as Sc.
  pose proof (PBPoints_Size_pos p arr Sc). ztest. cbn [orb].
  replace (zlen (p :: arr) =? 0) with false by (rewrite zlen_cons; pose proof (zlen_nonneg arr); symmetry; apply Z.eqb_neq; lia).
  cbn [orb]. rewrite marshal_exact by done.
  assert (e_fn e2 = None) as -> by (destruct (ad_same _ _ _ _ _ A2) as (_ & _ & -> & _); done).
  exists sk, (p :: arr). split; [destruct A2 as [P I Sk T Sm]; by split|].
  rewrite ztake_take, zlen_to_nat, take_ge by done. split; [done|]. split; [done|].
  rewrite zlen_PBPoints by apply Sc. split; [done|]. cbn [one_part lastErr]. congruence.
Qed.

(** C10: a call of the iterator in the Protobuf encoding loses no point silently. Without
    a callback, on points without nil whose sizes do not overflow: when [Next] returns,
    the points between the old position and the new one are points that it has given up,
    which [SkippedPoints] counts, followed by the points of the payload, which
    [TotalPoints] counts; the payload is their encoding and fits the buffer. *)
Theorem next_conserves (ps : list PBPoint) (e e' : Encoder) (buf : bytes) (r : option bytes) :
  e_enc e = Protobuf -> e_fn e = None -> e_pts e = Some <$> ps -> sized ps ->
  Next LPPoint e buf = Ok (e', r) ->
  exists sk c, advanced ps e e' sk c /\
    match r with
    | Some out => c <> [] /\ out = PBPoints_Marshal c /\ zlen out < zlen buf
    | None => c = []
    end.
Proof.
  intros Ee Ef Ep Sz N. destruct (lastErr e) as [x|] eqn:El.
  - unfold Next, doEncodeProtobuf in N. rewrite Ee, El in N. injection N as <- <-.
    exists [], []. split; [apply advanced_refl|done].
  - pose proof (next_run ps e buf Ee Ef El Ep Sz) as H. rewrite N in H.
    destruct H as (sk & c & A & H). exists sk, c. split; [done|]. destruct r; [by destruct H as (?&?&?&?)|done].
Qed.

(** *** Draining the iterator *)

(** An estimate that is above the size of the point in the payload, and below the
    length of the buffer. *)
Definition well_estimated (e : Encoder) (bufLen : Z) (p : PBPoint) : Prop :=
  pb_len_size (PBPoint_Size p) < est e p <= bufLen.

Lemma size_below_estimate e bufLen c : Forall (well_estimated e bufLen) c -> c <> [] -> PBPoints_Size c < est_sum e c.
Proof.
  intros H. assert (forall l, Forall (well_estimated e bufLen) l -> PBPoints_Size l <= est_sum e l) as Le.
  { induction 1 as [|p l Hp _ IH]; [done|]. unfold PBPoints_Size in *. rewrite sizes_cons.
    unfold well_estimated in Hp. unfold est_sum in *. cbn [fold_right]. lia. }
  destruct H as [|p c Hp H]; [done|]. intros _. specialize (Le c H). unfold PBPoints_Size in *. rewrite sizes_cons.
  unfold well_estimated in Hp. unfold est_sum in *. cbn [fold_right]. lia.
Qed.

Lemma tryTrim_fits e c cur bufLen : c <> [] -> PBPoints_Size c < bufLen -> tryTrim e c cur bufLen = Ok (e, c, Ok (PBPoints_Size c)).
Proof. intros N L. destruct c; [done|]. unfold tryTrim. cbn [length trim_loop]. by ztest. Qed.

(** A call with points left takes some of them. *)
Lemma next_takes ps e buf : e_enc e = Protobuf -> e_fn e = None -> lastErr e = None ->
  e_pts e = Some <$> ps -> sized ps -> Forall (well_estimated e (zlen buf)) ps ->
  (lastPtsIdx e < length ps)%nat ->
  exists e' c, Next LPPoint e buf = Ok (e', Some (PBPoints_Marshal c)) /\ advanced ps e e' [] c /\ c <> [] /\
    zlen (PBPoints_Marshal c) < zlen buf /\ lastErr e' = None.
Proof.
  intros Ee Ef El Ep Sz We Lt. unfold Next. rewrite Ee. unfold doEncodeProtobuf. rewrite El.
  pose proof (gather_run ps (zlen buf) (length (e_pts e) + 1) e [] Ep) as G.
  specialize (G ltac:(rewrite Ep, length_fmap; lia) (zlen_nonneg buf)).
  change (est_sum e []) with 0 in G. rewrite list.Forall_forall in We.
  assert (forall e' sk c, advanced ps e e' sk c -> (forall p, p ∈ sk ++ c -> p ∈ ps)) as In.
  { intros e' sk c A p Hp. rewrite <- (take_drop (lastPtsIdx e) ps), elem_of_app. right.
    rewrite (ad_pts _ _ _ _ _ A), app_assoc, elem_of_app. by left. }
  assert (forall sk, (forall p, p ∈ sk -> p ∈ ps) -> Forall (fun p => zlen buf < est e p) sk -> sk = []) as No.
  { intros [|p sk] Hs F; [done|]. inversion F; subst. destruct (We p (Hs p ltac:(left))). lia. }
  destruct (gather _ e (zlen buf) [] 0) as [e1 [[arr cur]|]].
  2:{ destruct G as (sk & A & _ & _ & F & N & _). destruct N. apply No; [|done].
      intros p Hp. apply (In _ _ _ A). by rewrite app_nil_r. }
  destruct G as (sk & c & A & -> & _ & _ & Er & Hb & He & F). cbn [app] in *.
  assert (sk = []) as ->.
  { apply No; [|done]. intros p Hp. apply (In _ _ _ A). rewrite elem_of_app. by left. }
  assert (c <> []) as Nc.
  { intros ->. specialize (He eq_refl). rewrite (ad_idx _ _ _ _ _ A) in He. cbn in He. lia. }
  assert (PBPoints_Size c < zlen buf) as Fits.
  { eapply Z.lt_le_trans; [|exact Hb]. eapply size_below_estimate; [|done].
    apply list.Forall_forall. intros p Hp. apply We, (In _ _ _ A). cbn. done. }
  rewrite (tryTrim_fits e1 c cur (zlen buf) Nc Fits).
  pose proof (advanced_sized _ _ _ _ _ A Sz) as Sc. destruct c as [|p c]; [done|].
  pose proof (PBPoints_Size_pos p c Sc). ztest. cbn [orb].
  replace (zlen (p :: c) =? 0) with false by (rewrite zlen_cons; pose proof (zlen_nonneg c); symmetry; apply Z.eqb_neq; lia).
  cbn [orb]. rewrite marshal_exact by done.
  assert (e_fn e1 = None) as -> by (destruct (ad_same _ _ _ _ _ A) as (_ & _ & -> & _); done).
  rewrite ztake_take, zlen_to_nat, take_ge by done.
  eexists _, (p :: c). split; [done|]. split; [destruct A as [P I Sk T Sm]; by split|]. split; [done|].
  rewrite zlen_PBPoints by apply Sc. split; [done|]. cbn. congruence.
Qed.

Lemma next_ends ps e buf : e_enc e = Protobuf -> e_pts e = Some <$> ps ->
  (length ps <= lastPtsIdx e)%nat -> Next LPPoint e buf = Ok (e, None).
Proof.
  intros Ee Ep L. unfold Next, doEncodeProtobuf. rewrite Ee. destruct (lastErr e); [done|].
  rewrite Nat.add_comm. cbn [Nat.add gather]. rewrite Ep, list_lookup_fmap, lookup_ge_None_2 by done. done.
Qed.

Lemma drain_run ps buf fuel : sized ps -> forall e,
  e_enc e = Protobuf -> e_fn e = None -> lastErr e = None -> e_pts e = Some <$> ps ->
  Forall (well_estimated e (zlen buf)) ps -> (lastPtsIdx e <= length ps)%nat ->
  (length ps - lastPtsIdx e < fuel)%nat ->
  exists e' chunks, drain LPPoint fuel e buf = Ok (e', PBPoints_Marshal <$> chunks) /\
    mjoin chunks = drop (lastPtsIdx e) ps /\
    Forall (fun c => c <> [] /\ zlen (PBPoints_Marshal c) < zlen buf) chunks /\
    skippedPts e' = skippedPts e /\ totalPts e' = totalPts e + zlen (mjoin chunks) /\ lastErr e' = None.
Proof.
  intros Sz. induction fuel as [|fuel IH]; intros e Ee Ef El Ep We Le Lf; [lia|]. cbn [drain].
  destruct (Nat.lt_ge_cases (lastPtsIdx e) (length ps)) as [Lt|Ge].
  - destruct (next_takes ps e buf Ee Ef El Ep Sz We Lt) as (e1 & c & -> & A & Nc & Fit & El1).
    destruct A as [P I Sk T (S1 & S2 & S3 & S4 & S5)].
    destruct (IH e1) as (e2 & chunks & -> & J & F & Sk2 & T2 & El2); try congruence.
    + eapply list.Forall_impl; [exact We|]. intros p. unfold well_estimated. by rewrite (est_same e e1).
    + apply (f_equal length) in P. rewrite !length_app, !length_drop in P. cbn in *. destruct c; [done|]. cbn in *. lia.
    + destruct c; [done|]. cbn in *. lia.
    + exists e2, (c :: chunks). split; [done|].
      change (mjoin (c :: chunks)) with (c ++ mjoin chunks). rewrite J, P. cbn [app].
      split; [done|]. split; [by constructor|]. change (zlen (@nil PBPoint)) with 0 in Sk.
      rewrite zlen_app, <- J. split; [lia|]. split; [lia|done].
  - rewrite (next_ends ps) by done. exists e, []. rewrite drop_ge by done.
    split_and!; try done. unfold zlen. cbn. lia.
Qed.

(** C26: the iterator of the Protobuf encoding ends, and it delivers everything. For an
    encoder without a callback, without an earlier error and at its first point, on points
    without nil whose sizes do not overflow: when the estimate of each point is above its
    size on the wire and within the buffer, the caller's loop ends after at most one call
    more than there are points, without an error and without a skipped point, and the
    payloads that it has seen are the encodings of consecutive parts of the points, each
    shorter than the buffer. *)
Theorem next_delivers_all (ps : list PBPoint) (e : Encoder) (buf : bytes) :
  e_enc e = Protobuf -> e_fn e = None -> lastErr e = None -> lastPtsIdx e = 0%nat ->
  e_pts e = Some <$> ps -> sized ps -> Forall (well_estimated e (zlen buf)) ps ->
  exists e' chunks, drain LPPoint (length ps + 1) e buf = Ok (e', PBPoints_Marshal <$> chunks) /\
    mjoin chunks = ps /\ Forall (fun c => c <> [] /\ zlen (PBPoints_Marshal c) < zlen buf) chunks /\
    skippedPts e' = skippedPts e /\ totalPts e' = totalPts e + zlen ps /\ lastErr e' = None.
Proof.
  intros Ee Ef El Ei Ep Sz We.
  destruct (drain_run ps buf (length ps + 1) Sz e Ee Ef El Ep We) as (e' & chunks & E & J & F & Sk & T & L); [lia..|].
  rewrite Ei in J. change (drop 0 ps) with ps in J. rewrite J in T. exists e', chunks. by split_and!.
Qed.

(** ** Line protocol: a point that does not convert repeats others *)

(** A point that does not convert makes the iterator repeat another one.  The
    position advances only over points that were written, but the next call starts
    at the position: after one such point at the head, the last line is sent twice. *)
Theorem lp_bad_point_duplicates (bad a : PBPoint) (why : string) (text buf : bytes) (e : Encoder) :
  e_enc e = LineProtocol -> e_fn e = None -> lastPtsIdx e = 0%nat -> e_pts e = [Some bad; Some a] ->
  LPPoint bad = Err why -> LPPoint a = Ok text -> zlen text < zlen buf ->
  exists e' e'', drain LPPoint 3 e buf = Ok (e'', [text ++ [newline]; text ++ [newline]]) /\
    Next LPPoint e buf = Ok (e', Some (text ++ [newline])).
Proof.
  intros Ee Ef Ei Ep Hb Ha L. pose proof (zlen_nonneg text).
  assert (Z.ltb (zlen buf) (0 + zlen text + 1) = false) as Lb by (apply Z.ltb_ge; lia).
  assert ((0 <? zlen (text ++ [newline])) = true) as Lo
    by (rewrite zlen_app; change (zlen [newline]) with 1; apply Z.ltb_lt; lia).
  destruct e as [pts bs bc tb tp tr ix sk pa er fn en ap ig]. cbn in Ee, Ef, Ei, Ep. subst.
  do 2 eexists.
  assert (forall er, lp_loop LPPoint (mkEncoder [Some bad; Some a] bs bc tb tp tr 0 sk pa er None LineProtocol ap ig)
    (zlen buf) [Some bad; Some a] [] 0
    = (lp_part (step_idx (set_lastErr (EExt why) (mkEncoder [Some bad; Some a] bs bc tb tp tr 0 sk pa er None LineProtocol ap ig))),
       Some (text ++ [newline]))) as E1.
  { intros er'. cbn [lp_loop]. rewrite Hb, Ha. change (zlen []) with 0. rewrite Lb. cbn [app lp_loop]. by rewrite Lo. }
  split.
  - cbn [drain]. unfold Next at 1, doEncodeLineProtocol. cbn [e_enc e_pts lastPtsIdx drop].
    change (_ <? 0)%nat with false. cbv iota. rewrite E1.
    unfold Next at 1, doEncodeLineProtocol. cbn [e_enc e_pts lastPtsIdx drop lp_part step_idx set_lastErr count one_part length].
    change (2 <? 1)%nat with false. cbv iota. cbn [lp_loop]. rewrite Ha. change (zlen []) with 0. rewrite Lb. cbn [app lp_loop]. rewrite Lo.
    cbn. reflexivity.
  - unfold Next, doEncodeLineProtocol. cbn [e_enc e_pts lastPtsIdx drop].
    change (_ <? 0)%nat with false. cbv iota. by rewrite E1.
Qed.

End Next.

(** ** Trimming too much *)

Definition tiny : PBPoint := mkPB (to_bytes "m") [] (2 ^ 60) [] [].

(** An encoder that was in the pool before: it estimates. *)
Definition reused (n : nat) : Encoder :=
  EncodeV2 (repeat (Some tiny) n) (WithEncEncoding Protobuf (PutEncoder newEncoder)).

(** Trimming can drop everything.  With estimates below the real sizes, three points
    are trimmed to two and then to none: [Next] says that it is done, without an error,
    with all points left.  With five points it slices below zero and panics. *)
Theorem trim_overshoots (LPPoint : PBPoint -> Res string bytes) :
  (exists e', Next LPPoint (reused 3) (repeat Byte.x00 24) = Ok (e', None) /\
     lastErr e' = None /\ lastPtsIdx e' = 0%nat /\ skippedPts e' = 0 /\ length (e_pts e') = 3%nat) /\
  Next LPPoint (reused 5) (repeat Byte.x00 24) = Err PanicIndex.
Proof. split; [eexists; split; [vm_compute; reflexivity|]; by vm_compute | by vm_compute]. Qed.

(** The size estimate is not a default of the package, but of the pool: a new
    encoder computes exact sizes, one that comes back from the pool estimates. *)
Theorem approxsize_depends_on_pool (e : Encoder) :
  approxsize (GetEncoder None []) = false /\ approxsize (GetEncoder (Some (PutEncoder e)) []) = true.
Proof. done. Qed.

(** A nil point can cost another one.  The position steps back by the number of
    points that were trimmed, counting slots: with a nil slot at the end, the trimmed
    point is behind the new position and is never sent, skipped or reported. *)
Theorem nil_slot_loses_point (LPPoint : PBPoint -> Res string bytes) :
  let e := EncodeV2 [Some tiny; Some tiny; None] (GetEncoder None [Some (WithEncEncoding Protobuf)]) in
  exists e', drain LPPoint 4 e (repeat Byte.x00 28) = Ok (e', [PBPoints_Marshal [tiny]]) /\
    lastErr e' = None /\ skippedPts e' = 0 /\ totalPts e' = 1.
Proof. eexists. split; [vm_compute; reflexivity|]. by vm_compute. Qed.

(** ** Witnesses *)

Lemma sample_glegal : glegal_point sample.
Proof.
  split; [|by vm_compute|apply sample_legal|by vm_compute].
  pose proof (proj1 (lp_send _ sample_legal)) as F. eapply Forall_and in F; [|].
  2:{ instantiate (1 := fun f => 0 <= Type_ f). repeat constructor; by vm_compute. }
  eapply list.Forall_impl; [exact F|]. by intros f [].
Qed.


Definition roomy : PBPoint := mkPB (to_bytes "m") [int_field "a" 1; int_field "b" 2; int_field "c" 3] 5 [] [].

Lemma sized_roomy : sized [roomy; roomy].
Proof. split; [repeat constructor|by vm_compute]. Qed.

(** Two points, a buffer for one. *)
Definition two : Encoder := EncodeV2 [Some roomy; Some roomy] (WithEncEncoding Protobuf (PutEncoder newEncoder)).

Lemma next_conserves_witness :
  exists e' r, Next (fun _ => Err "") two (repeat Byte.x00 90) = Ok (e', r) /\
  exists sk c, advanced [roomy; roomy] two e' sk c /\
    match r with
    | Some out => c <> [] /\ out = PBPoints_Marshal c /\ zlen out < 90
    | None => c = []
    end.
Proof.
  eexists _, _. split; [vm_compute; reflexivity|].
  apply (next_conserves (fun _ => Err "") [roomy; roomy] two _ (repeat Byte.x00 90) _ eq_refl eq_refl eq_refl sized_roomy).
  vm_compute. reflexivity.
Defined.

Lemma next_delivers_all_witness :
  exists e' chunks, drain (fun _ => Err "") 3 two (repeat Byte.x00 90) = Ok (e', PBPoints_Marshal <$> chunks) /\
    mjoin chunks = [roomy; roomy] /\ Forall (fun c => c <> [] /\ zlen (PBPoints_Marshal c) < 90) chunks /\
    skippedPts e' = 0 /\ totalPts e' = 2 /\ lastErr e' = None.
Proof.
  apply (next_delivers_all (fun _ => Err "") [roomy; roomy] two (repeat Byte.x00 90)); try done.
  - apply sized_roomy.
  - do 2 (apply Forall_cons; [by vm_compute|]). apply Forall_nil.
Defined.

Lemma lp_bad_point_duplicates_witness :
  let conv p := if bool_decide (pb_Fields p = []) then Err "no fields" else Ok (to_bytes "m n=1i 5") in
  let e := EncodeV2 [Some tiny; Some sample] newEncoder in
  let line := to_bytes "m n=1i 5" ++ [newline] in
  exists e' e'', drain conv 3 e (repeat Byte.x00 90) = Ok (e'', [line; line]) /\
    Next conv e (repeat Byte.x00 90) = Ok (e', Some line).
Proof.
  apply (lp_bad_point_duplicates _ tiny sample "no fields" (to_bytes "m n=1i 5") (repeat Byte.x00 90)); done.
Defined.
