(* ===== verification/PointPool.v ===== *)
(** * The point pool ([src/point/ptpool.go], and what [kvs.go], [check.go] do with it)

    With a pool, fields and points are used again: what matters is which pointer refers to
    what.  Fields, points, the [Any] messages and the arrays of byte slices are kept in a heap
    and named by their addresses.  A pool is a channel of fixed capacity in front of a
    [sync.Pool]; which element a [sync.Pool] hands out, or that it makes a new one, is an
    argument (its elements can vanish at any time: they are then never chosen).

    [pool_refines]: to a client that puts back only what it holds, the pool is the allocation
    of new objects. *)

From S2P Require Import Prelude GoSlice PointKV PointCheck PointNew.
From coqutil Require Import Datatypes.RecordSetters.

Import DoubleBraceUpdate.

(** ** The heap *)

Inductive kind := KF | KI | KU | KS | KB | KD | KA.

#[export] Instance kind_eq_dec : EqDecision kind.
Proof. solve_decision. Defined.

(** The value of a field: the bytes are a slice, an [Any] is a pointer. *)
Inductive PVal :=
| PV_F (F : spec_float)
| PV_I (I : Z)
| PV_U (U : Z)
| PV_S (S : bytes)
| PV_B (B : bool)
| PV_D (D : option Slice)
| PV_A (A : option nat).

Record PField := mkPField {
  pf_Key : bytes; pf_Val : option PVal; pf_IsTag : bool; pf_Type : MetricType; pf_Unit : bytes; pf_Description : bytes
}.

(** A point with the addresses of its fields. *)
Record PPoint := mkPPoint {
  pp_flags : Z; pp_Name : bytes; pp_Fields : list nat; pp_Time : Z; pp_Warns : list Warn; pp_Debugs : list bytes
}.

(** ** Pools *)

Record reservedCapPool := mkRPool {
  rp_ch : list nat; rp_cap : Z; rp_pool : list nat; poolGet : Z; poolPut : Z; chanGet : Z; chanPut : Z
}.

Definition newReservedCapPool (capacity : Z) : reservedCapPool := mkRPool [] capacity [] 0 0 0 0.

(** [get]: the address of an element, or none when [New] makes one. *)
Definition rp_get (choice : option nat) (p : reservedCapPool) : option nat * reservedCapPool :=
  match rp_ch p with
  | x :: ch => (Some x, p{{rp_ch := ch; chanGet := chanGet p + 1}})
  | [] =>
      let p := p{{poolGet := poolGet p + 1}} in
      match choice with
      | None => (None, p)
      | Some i => (rp_pool p !! i, p{{rp_pool := delete i (rp_pool p)}})
      end
  end.

Definition rp_put (x : nat) (p : reservedCapPool) : reservedCapPool :=
  if zlen (rp_ch p) <? rp_cap p then p{{rp_ch := rp_ch p ++ [x]; chanPut := chanPut p + 1}}
  else p{{rp_pool := rp_pool p ++ [x]; poolPut := poolPut p + 1}}.

(** The heap with the pool: the pools of fields by the kind of their value. *)
Record Heap := mkHeap {
  h_fields : list PField; h_anys : list PBAny; h_arrays : Store byte; h_points : list PPoint;
  capacity : Z; malloc : Z; escaped : Z; ptpool : reservedCapPool; kvpool : kind -> reservedCapPool
}.

Definition NewReservedCapPointPool (cap : Z) : Heap :=
  mkHeap [] [] [] [] cap 0 0 (newReservedCapPool cap) (fun _ => newReservedCapPool cap).

(** A nil pointer, and a conversion to another type. *)
Inductive ppanic := NilPointer | BadType.

Abbreviation PM := (SM Heap ppanic).

Definition set_kvpool (k : kind) (p : reservedCapPool) (h : Heap) : Heap :=
  h{{kvpool := fun k' => if decide (k' = k) then p else kvpool h k'}}.

(** What the functions [New] of the pools make. *)
Definition zero_val (k : kind) : PVal :=
  match k with
  | KF => PV_F (S754_zero false) | KI => PV_I 0 | KU => PV_U 0 | KS => PV_S [] | KB => PV_B false
  | KD => PV_D None | KA => PV_A None
  end.

Definition empty_field (v : option PVal) : PField := mkPField [] v false UNSPECIFIED [] [].

Definition emptyPoint : PPoint := mkPPoint 0 [] [] 0 [] [].

Definition isEmptyPoint (p : PPoint) : bool :=
  (pp_flags p =? 0) && bool_decide (pp_Name p = []) && (zlen (pp_Fields p) =? 0) && (zlen (pp_Warns p) =? 0) &&
  (zlen (pp_Debugs p) =? 0) && (pp_Time p =? 0).

Definition alloc_field (f : PField) (h : Heap) : nat * Heap := (length (h_fields h), h{{h_fields := h_fields h ++ [f] }}).
Definition alloc_any (a : PBAny) (h : Heap) : nat * Heap := (length (h_anys h), h{{h_anys := h_anys h ++ [a] }}).

(** [cpp.?pool.get()]. *)
Definition get_field (k : kind) (choice : option nat) (h : Heap) : nat * Heap :=
  let '(x, p) := rp_get choice (kvpool h k) in
  let h := set_kvpool k p h in
  match x with
  | Some x => (x, h)
  | None => alloc_field (empty_field (Some (zero_val k))) h{{malloc := malloc h + 1}}
  end.

Definition Pool_Get (choice : option nat) (h : Heap) : nat * Heap :=
  let '(x, p) := rp_get choice (ptpool h) in
  let h := h{{ptpool := p}} in
  match x with
  | Some x => (x, h)
  | None => (length (h_points h), h{{h_points := h_points h ++ [emptyPoint]; malloc := malloc h + 1}})
  end.

(** ** Fields *)

Definition kind_of (v : PVal) : kind :=
  match v with PV_F _ => KF | PV_I _ => KI | PV_U _ => KU | PV_S _ => KS | PV_B _ => KB | PV_D _ => KD | PV_A _ => KA end.

Definition upd_field (l : nat) (g : PField -> PField) (h : Heap) : Heap := h{{h_fields := alter g l (h_fields h)}}.

(** [kv.Val.( *Field_X).X = x]. *)
Definition set_field (l : nat) (v : PVal) : PM unit := fun h =>
  match h_fields h !! l with
  | None => (Err NilPointer, h)
  | Some f =>
      match pf_Val f with
      | None => (Err BadType, h)
      | Some old => if decide (kind_of old = kind_of v) then (Ok tt, upd_field l (fun f => f{{pf_Val := Some v}}) h) else (Err BadType, h)
      end
  end.

(** [append(kv.Val.( *Field_D).D, x...)]. *)
Definition append_field (grow : nat -> nat) (l : nat) (x : bytes) : PM unit := fun h =>
  match h_fields h !! l with
  | Some f =>
      match pf_Val f with
      | Some (PV_D d) =>
          let '(st, d) := sl_appends grow (h_arrays h) d x in set_field l (PV_D d) h{{h_arrays := st}}
      | _ => (Err BadType, h)
      end
  | None => (Err NilPointer, h)
  end.

Definition set_key (l : nat) (k : bytes) : PM unit := smod (upd_field l (fun f => f{{pf_Key := k}})).

Definition lift {A} (m : Heap -> A * Heap) : PM A := fun h => let '(a, h) := m h in (Ok a, h).

(** The values that [GetKV] is given: pointers to an [Any], and the others, where [GoPBAny]
    is a pointer that its caller does not keep. *)
Inductive parg := Ptr (p : option nat) | Plain (v : any).

Section fields.
Context `{ArrayEnc} (grow : nat -> nat).

Definition get_set (k : kind) (choice : option nat) (key : bytes) (set : nat -> PM unit) : PM nat :=
  l <~ lift (get_field k choice) ;; set l ;;; set_key l key ;;; sret l.

Definition GetKV (key : bytes) (v : parg) (choice : option nat) : PM nat :=
  match v with
  | Ptr p => get_set KA choice key (fun l => set_field l (PV_A p))
  | Plain v =>
      match v with
      | GoInt n => get_set KI choice key (fun l => set_field l (PV_I n))
      | GoUint n => get_set KU choice key (fun l => set_field l (PV_U n))
      | GoFloat x => get_set KF choice key (fun l => set_field l (PV_F x))
      | GoString s => get_set KS choice key (fun l => set_field l (PV_S s))
      | GoBytes b => get_set KD choice key (fun l => append_field grow l b)
      | GoBool b => get_set KB choice key (fun l => set_field l (PV_B b))
      | GoPBAny a => get_set KA choice key (fun l => p <~ lift (alloc_any a) ;; set_field l (PV_A (Some p)))
      | GoArr a =>
          get_set KA choice key (fun l =>
            match NewArray a with
            | Some x => p <~ lift (alloc_any x) ;; set_field l (PV_A (Some p))
            | None => sret tt
            end)
      | GoNil | GoOther _ => lift (alloc_field (mkPField key None false UNSPECIFIED [] []))
      end
  end.
End fields.

Definition clear_field (f : PField) : PField := empty_field (pf_Val f).

(** [resetKV], where an [Any] is changed through its pointer. *)
Definition reset_field (l : nat) : PM unit := fun h =>
  match h_fields h !! l with
  | None => (Err NilPointer, h)
  | Some f =>
      let put v := upd_field l (fun f => f{{pf_Val := Some v}}) h in
      match pf_Val f with
      | None => (Ok tt, h)
      | Some (PV_D d) => (Ok tt, put (PV_D (sl_reset d)))
      | Some (PV_A None) => (Err NilPointer, h)
      | Some (PV_A (Some p)) => (Ok tt, h{{h_anys := alter (fun _ => mkAny [] []) p (h_anys h)}})
      | Some v => (Ok tt, put (zero_val (kind_of v)))
      end
  end.

Definition PutKV (l : nat) : PM unit :=
  smod (upd_field l clear_field) ;;;
  reset_field l ;;;
  smod (fun h =>
    match h_fields h !! l with
    | Some f =>
        match pf_Val f with
        | Some v => let k := kind_of v in set_kvpool k (rp_put l (kvpool h k)) h
        | None => h
        end
    | None => h
    end).

(** ** Points *)

Fixpoint put_all (ls : list nat) : PM unit :=
  match ls with
  | [] => sret tt
  | l :: ls => PutKV l ;;; put_all ls
  end.

Definition pp_HasFlag (f : Z) (p : PPoint) : bool := 0 <? Z.land (pp_flags p) (uint64 (Z.shiftl 1 f)).
Definition pp_SetFlag (f : Z) (p : PPoint) : PPoint := p{{pp_flags := Z.lor (pp_flags p) (uint64 (Z.shiftl 1 f))}}.

Definition pp_clear (p : PPoint) : PPoint := p{{pp_Name := []; pp_Fields := []; pp_Time := 0; pp_Warns := []; pp_Debugs := [] }}.
Definition pp_Reset (p : PPoint) : PPoint := pp_clear p{{pp_flags := 0}}.

Definition upd_point (l : nat) (g : PPoint -> PPoint) (h : Heap) : Heap := h{{h_points := alter g l (h_points h)}}.

Definition Pool_Put (l : nat) : PM unit := fun h =>
  match h_points h !! l with
  | None => (Err NilPointer, h)
  | Some p =>
      if pp_HasFlag Ppooled p then
        (put_all (pp_Fields p) ;;;
         smod (upd_point l pp_Reset) ;;;
         smod (fun h => h{{ptpool := rp_put l (ptpool h)}})) h
      else (Ok tt, h{{escaped := escaped h + 1}})
  end.

(** The first part of [doNewPoint] with a pool. *)
Definition pooled_point (name : bytes) (kvs : list nat) (choice : option nat) : PM nat :=
  l <~ lift (Pool_Get choice) ;;
  smod (upd_point l (fun p => pp_SetFlag Ppooled p{{pp_Name := name; pp_Fields := kvs}})) ;;;
  sret l.

(** ** Options *)

Inductive kvopt := OptUnit (u : bytes) | OptDesc (d : bytes) | OptType (t : MetricType) | OptTagSet (on : bool).

Definition opt_of (o : kvopt) : KVOption :=
  match o with
  | OptUnit u => WithKVUnit u | OptDesc d => WithKVDesc d | OptType t => WithKVType t | OptTagSet on => WithKVTagSet on
  end.

Definition apply_opt (o : kvopt) (f : PField) : PField :=
  match o with
  | OptUnit u => f{{pf_Unit := u}}
  | OptDesc d => f{{pf_Description := d}}
  | OptType t => f{{pf_Type := t}}
  | OptTagSet on => match pf_Val f with Some (PV_S _) => f{{pf_IsTag := on}} | _ => f end
  end.

(** [NewKV] with a pool. *)
Definition pooled_NewKV `{ArrayEnc} (grow : nat -> nat) (key : bytes) (v : parg) (opts : list kvopt) (choice : option nat) : PM nat :=
  l <~ GetKV grow key v choice ;;
  smod (fun h => fold_left (fun h o => upd_field l (apply_opt o) h) opts h) ;;;
  sret l.

(** The checker's conversion of an unsigned field ([checkField], the branch with a pool): the
    field is put back before its key and its value are read. *)
Definition pooled_u64 `{ArrayEnc} (grow : nat -> nat) (l : nat) (choice : option nat) : PM nat :=
  PutKV l ;;;
  h <~ sget ;;
  match h_fields h !! l with
  | Some f => match pf_Val f with
              | Some (PV_U u) => GetKV grow (pf_Key f) (Plain (GoInt (int64 u))) choice
              | _ => sfail BadType
              end
  | None => sfail NilPointer
  end.

(** ** Statistics *)

Definition chanGet_total (h : Heap) : Z :=
  chanGet (kvpool h KA) + chanGet (kvpool h KB) + chanGet (kvpool h KD) + chanGet (kvpool h KF) + chanGet (kvpool h KI) +
  chanGet (kvpool h KS) + chanGet (kvpool h KU).

Definition chanPut_total (h : Heap) : Z :=
  chanGet (kvpool h KA) + chanPut (kvpool h KB) + chanPut (kvpool h KD) + chanPut (kvpool h KF) + chanPut (kvpool h KI) +
  chanPut (kvpool h KS) + chanPut (kvpool h KU).

Definition poolGet_total (h : Heap) : Z :=
  poolGet (kvpool h KA) + poolGet (kvpool h KB) + poolGet (kvpool h KD) + poolGet (kvpool h KF) + poolGet (kvpool h KI) +
  poolGet (kvpool h KS) + poolGet (kvpool h KU).

Definition poolPut_total (h : Heap) : Z :=
  poolGet (kvpool h KA) + poolPut (kvpool h KB) + poolPut (kvpool h KD) + poolPut (kvpool h KF) + poolPut (kvpool h KI) +
  poolPut (kvpool h KS) + poolPut (kvpool h KU).

(** ** What the heap means *)

Definition val_view (h : Heap) (v : option PVal) : option (option FieldVal) :=
  match v with
  | None => Some None
  | Some (PV_F x) => Some (Some (Field_F x))
  | Some (PV_I n) => Some (Some (Field_I n))
  | Some (PV_U n) => Some (Some (Field_U n))
  | Some (PV_S s) => Some (Some (Field_S s))
  | Some (PV_B b) => Some (Some (Field_B b))
  | Some (PV_D d) => Some (Some (Field_D (sl_read (h_arrays h) d)))
  | Some (PV_A (Some p)) => (fun a => Some (Field_A a)) <$> h_anys h !! p
  | Some (PV_A None) => None
  end.

Definition field_view (h : Heap) (f : PField) : option Field :=
  v ← val_view h (pf_Val f); Some (mkField (pf_Key f) v (pf_IsTag f) (pf_Type f) (pf_Unit f) (pf_Description f)).

(** The field at an address as a value. *)
Definition view (h : Heap) (l : nat) : option Field := f ← h_fields h !! l; field_view h f.

(** What a field refers to. *)
Inductive ref := RArr (i : nat) | RAny (p : nat).

Definition val_refs (v : PVal) : list ref :=
  match v with PV_D (Some s) => [RArr (sl_arr s)] | PV_A (Some p) => [RAny p] | _ => [] end.

Definition refs (f : PField) : list ref := match pf_Val f with Some v => val_refs v | None => [] end.

Definition valid (h : Heap) (r : ref) : Prop :=
  match r with RArr i => (i < length (h_arrays h))%nat | RAny p => (p < length (h_anys h))%nat end.

Definition same_ref (h h' : Heap) (r : ref) : Prop :=
  match r with RArr i => h_arrays h' !! i = h_arrays h !! i | RAny p => h_anys h' !! p = h_anys h !! p end.

(** A change of the heap that leaves alone what others refer to; [old] may be overwritten. *)
Definition framed (old : list ref) (h h' : Heap) : Prop :=
  forall r, valid h r -> valid h' r /\ (r ∉ old -> same_ref h h' r).

(** A value that only refers to what it did before or to something new. *)
Definition owns (old new : list ref) (h h' : Heap) : Prop := forall r, r ∈ new -> valid h' r /\ (r ∈ old \/ ~ valid h r).

Definition blank (v : PVal) : Prop :=
  match v with
  | PV_D (Some s) => sl_len s = 0%nat
  | PV_D None | PV_A _ => True
  | v => v = zero_val (kind_of v)
  end.

Definition clean (k : kind) (f : PField) : Prop := exists v, f = empty_field (Some v) /\ kind_of v = k /\ blank v.

Definition items (p : reservedCapPool) : list nat := rp_ch p ++ rp_pool p.

(** ** Soundness: who holds which field *)

Section sound.
Variable live : gmap nat Field.
Variable P : kind -> list nat.
Variable h : Heap.

Definition held (l : nat) : Prop := is_Some (live !! l) \/ exists k, l ∈ P k.

Record Sound : Prop := mkSound {
  snd_live : forall l f, live !! l = Some f -> view h l = Some f;
  snd_pool : forall k l, l ∈ P k -> live !! l = None /\ exists f, h_fields h !! l = Some f /\ clean k f;
  snd_nodup : forall k, NoDup (P k);
  snd_valid : forall l f r, held l -> h_fields h !! l = Some f -> r ∈ refs f -> valid h r;
  snd_apart : forall l l' f f' r, held l -> held l' -> l <> l' -> h_fields h !! l = Some f -> h_fields h !! l' = Some f' ->
                r ∈ refs f -> r ∉ refs f'
}.
End sound.

Lemma view_framed h h' old l f : framed old h h' -> h_fields h !! l = Some f -> h_fields h' !! l = Some f ->
  (forall r, r ∈ refs f -> valid h r /\ r ∉ old) -> view h' l = view h l.
Proof.
  intros Fr L L' Hr. unfold view. rewrite L, L'. simpl. unfold field_view. f_equal.
  assert (S : forall r, r ∈ refs f -> same_ref h h' r) by (intros r R; destruct (Hr r R); by apply Fr).
  unfold refs in S. destruct (pf_Val f) as [v|]; [|done]. destruct v as [| | | | |[s|]|[p|]]; try done; simpl in *.
  - unfold sl_read. specialize (S (RArr (sl_arr s))). simpl in S. by rewrite S by constructor.
  - specialize (S (RAny p)). simpl in S. by rewrite S by constructor.
Qed.

(** A change at one address keeps soundness for the others. *)
Lemma Sound_local live P h live' P' h' l0 old :
  Sound live P h ->
  (forall l f r, held live P l -> l <> l0 -> h_fields h !! l = Some f -> r ∈ refs f -> r ∉ old) ->
  (forall l, l <> l0 -> is_Some (h_fields h !! l) -> h_fields h' !! l = h_fields h !! l) ->
  framed old h h' ->
  (forall f, h_fields h' !! l0 = Some f -> held live' P' l0 -> owns old (refs f) h h') ->
  (forall l, l <> l0 -> live' !! l = live !! l) ->
  (forall k l, l <> l0 -> l ∈ P' k <-> l ∈ P k) ->
  (forall k, NoDup (P' k)) ->
  (forall f, live' !! l0 = Some f -> view h' l0 = Some f) ->
  (forall k, l0 ∈ P' k -> live' !! l0 = None /\ exists f, h_fields h' !! l0 = Some f /\ clean k f) ->
  Sound live' P' h'.
Proof.
  intros [SL SP SN SV SA] Ho Hf Fr New Hl HP HN HL0 HP0.
  assert (HH : forall l, l <> l0 -> held live' P' l -> held live P l).
  { intros l N [Q|[k Q]]; [left; by rewrite <- Hl|right; exists k; by apply HP]. }
  assert (HI : forall l, held live P l -> is_Some (h_fields h !! l)).
  { intros l [[f Q]|[k Q]].
    - apply SL in Q. unfold view in Q. by destruct (h_fields h !! l).
    - destruct (SP k l Q) as (_ & f & E & _). by rewrite E. }
  assert (HV : forall l f r, l <> l0 -> held live' P' l -> h_fields h' !! l = Some f -> r ∈ refs f -> valid h r /\ r ∉ old).
  { intros l f r N Q E R. apply HH in Q; [|done]. rewrite Hf in E by auto. split; [by eapply SV|by eapply Ho]. }
  split.
  - intros l f Q. destruct (decide (l = l0)) as [->|N]; [by apply HL0|].
    assert (Q' : held live P l) by (left; rewrite <- Hl by done; eauto).
    destruct (HI l Q') as [g E]. rewrite (view_framed h h' old l g); [by apply SL; rewrite <- Hl|done|done|by rewrite Hf by eauto|].
    intros r R. split; [by eapply SV|by eapply Ho].
  - intros k l Q. destruct (decide (l = l0)) as [->|N]; [by apply HP0|]. rewrite Hl by done. apply HP in Q; [|done].
    destruct (SP k l Q) as (A & f & E & C). split; [done|]. exists f. by rewrite Hf by eauto.
  - done.
  - intros l f r Q E R. destruct (decide (l = l0)) as [->|N]; [by apply (New f)|]. apply Fr. by apply (HV l f r).
  - intros l l' f f' r Q Q' N E E' R R'.
    destruct (decide (l = l0)) as [->|N0]; [|destruct (decide (l' = l0)) as [->|N0']].
    + destruct (HV l' f' r ltac:(congruence) Q' E' R') as [V O]. by destruct (New f E Q r R) as [_ [?|?]].
    + destruct (HV l f r N0 Q E R) as [V O]. by destruct (New f' E' Q' r R') as [_ [?|?]].
    + apply HH in Q; [|done]. apply HH in Q'; [|done]. rewrite Hf in E by auto. rewrite Hf in E' by auto. exact (SA l l' f f' r Q Q' N E E' R R').
Qed.

(** ** Getting a field *)

Lemma rp_get_items c p x p' : rp_get c p = (x, p') ->
  match x with Some l => items p ≡ₚ l :: items p' | None => items p' = items p end.
Proof.
  unfold rp_get, items. destruct (rp_ch p) as [|y ch] eqn:E.
  - destruct c as [i|]; intros [= <- <-]; destruct p as [ch cap pool a b c d]; simpl in *; subst; simpl; [|done].
    destruct (pool !! i) as [l|] eqn:L; [|].
    + by apply delete_Permutation.
    + apply lookup_ge_None in L. by rewrite delete_take_drop, take_ge, drop_ge, app_nil_r by lia.
  - intros [= <- <-]. destruct p. simpl in *. by subst.
Qed.

Lemma rp_put_items x p : items (rp_put x p) ≡ₚ x :: items p.
Proof.
  unfold rp_put, items. destruct p as [ch cap pool a b c d]. simpl. destruct (zlen ch <? cap); simpl; unfold constant.
  - rewrite <- app_assoc. simpl. symmetry. apply Permutation_middle.
  - rewrite app_assoc. symmetry. apply Permutation_cons_append.
Qed.

(** What the code does with a field that it got: it sets a value. *)
Definition sets (k : kind) (set : nat -> PM unit) (v : FieldVal) : Prop :=
  forall l h v0, h_fields h !! l = Some (empty_field (Some v0)) -> kind_of v0 = k -> blank v0 ->
    (forall r, r ∈ val_refs v0 -> valid h r) ->
    exists h' v', set l h = (Ok tt, h') /\
      h_fields h' = alter (fun f => f{{pf_Val := Some v'}}) l (h_fields h) /\
      val_view h' (Some v') = Some (Some v) /\ framed (val_refs v0) h h' /\ owns (val_refs v0) (val_refs v') h h' /\
      kvpool h' = kvpool h /\ ptpool h' = ptpool h /\ h_points h' = h_points h.

Section get.
Context `{ArrayEnc} (grow : nat -> nat) (grows : forall n, (n < grow n)%nat).

(** Appending to a slice touches its array only, or makes new ones. *)
Definition fresh_or (n : nat) (s s' : Slice) : Prop := sl_arr s' = sl_arr s \/ (n <= sl_arr s')%nat.

Lemma append_own (st : Store byte) s pre w : covers st s pre ->
  exists st' s', sl_append grow st (Some s) w = (st', Some s') /\ covers st' s' (pre ++ [w]) /\ (length st <= length st')%nat /\
    (forall i, (i < length st)%nat -> i <> sl_arr s -> st' !! i = st !! i) /\ fresh_or (length st) s s'.
Proof.
  intros C. destruct (sl_append_covers grow grows st s pre w C) as (st' & s' & E & C' & _).
  exists st', s'. split; [done|]. split; [done|]. destruct C as (rest & cap & L & Hn & Hc).
  unfold sl_append in E. rewrite L in E. cbn [ar_cap ar_data] in E. destruct (sl_len s <? cap)%nat; injection E as <- <-; unfold fresh_or; simpl.
  - rewrite length_insert. split_and!; [done|intros i _ N; by apply list_lookup_insert_ne|by left].
  - rewrite length_app. simpl. split_and!; [lia|intros i Hi _; by apply lookup_app_l|right; lia].
Qed.

Lemma appends_own (l : bytes) : forall (st : Store byte) s pre, covers st s pre ->
  exists st' s', sl_appends grow st (Some s) l = (st', Some s') /\ covers st' s' (pre ++ l) /\ (length st <= length st')%nat /\
    (forall i, (i < length st)%nat -> i <> sl_arr s -> st' !! i = st !! i) /\ fresh_or (length st) s s'.
Proof.
  induction l as [|w l IH]; intros st s pre C.
  { exists st, s. rewrite app_nil_r. split_and!; [done|done|done|done|by left]. }
  cbn [sl_appends]. destruct (append_own st s pre w C) as (st1 & s1 & -> & C1 & Le & Fr & Fs).
  destruct (IH st1 s1 (pre ++ [w]) C1) as (st2 & s2 & -> & C2 & Le2 & Fr2 & Fs2).
  exists st2, s2. rewrite <- app_assoc in C2. split_and!; [done|done|lia| |].
  - intros i Hi N. rewrite Fr2; [by apply Fr|lia|]. destruct Fs; [congruence|lia].
  - unfold fresh_or in *. destruct Fs as [E|], Fs2 as [E2|]; [left; congruence|right; lia|right; lia|right; lia].
Qed.

(** The bytes of [d], which is empty, after appending [b]. *)
Definition appended (st0 : Store byte) (d : option Slice) (b : bytes) (r : Store byte * option Slice) : Prop :=
  let '(st, d') := r in
  sl_read st d' = b /\ (length st0 <= length st)%nat /\
  (forall i, (i < length st0)%nat -> RArr i ∉ val_refs (PV_D d) -> st !! i = st0 !! i) /\
  (forall r, r ∈ val_refs (PV_D d') -> exists i, r = RArr i /\ (i < length st)%nat /\ (r ∈ val_refs (PV_D d) \/ (length st0 <= i)%nat)).

Lemma appended_rest st0 d st s pre l b : covers st s pre -> (length st0 <= length st)%nat ->
  (forall i, (i < length st0)%nat -> RArr i ∉ val_refs (PV_D d) -> st !! i = st0 !! i) ->
  RArr (sl_arr s) ∈ val_refs (PV_D d) \/ (length st0 <= sl_arr s)%nat -> pre ++ l = b ->
  appended st0 d b (sl_appends grow st (Some s) l).
Proof.
  intros C Le Fr Own <-. destruct (appends_own l st s pre C) as (st' & s' & -> & C' & Le' & Fr' & Fs).
  split_and!; [by apply covers_read|lia| |].
  - intros i Hi N. rewrite Fr'; [by apply Fr|lia|]. intros ->. destruct Own; [done|lia].
  - intros r R. apply list_elem_of_singleton in R as ->. exists (sl_arr s'). split; [done|].
    split. { destruct C' as (? & ? & Lk & _). by eapply lookup_lt_Some. }
    destruct Fs as [->|]; [done|right; lia].
Qed.

Lemma append_blank st0 d b : blank (PV_D d) -> (forall s, d = Some s -> (sl_arr s < length st0)%nat) ->
  appended st0 d b (sl_appends grow st0 d b).
Proof.
  intros B V. destruct d as [s|].
  - apply (appended_rest _ _ _ s [] b); [|done|done|left; by constructor|done].
    destruct (lookup_lt_is_Some_2 _ _ (V s eq_refl)) as [[da cap] Q]. exists da, cap. split_and!; [done|done|simpl; lia].
  - destruct b as [|w b]; [split_and!; try done; intros r R; by apply elem_of_nil in R|].
    cbn [sl_appends sl_append]. pose proof (grows 0%nat). apply (appended_rest _ _ _ _ [w] b); [| | |right; done|done].
    + exists [], (grow 0%nat). simpl. rewrite lookup_app_r, Nat.sub_diag by done. split_and!; [done|done|lia].
    + rewrite length_app. simpl. lia.
    + intros i Hi _. by apply lookup_app_l.
Qed.

Lemma framed_refl old h h' : h_anys h' = h_anys h -> h_arrays h' = h_arrays h -> framed old h h'.
Proof. intros E E' [i|p]; simpl; by rewrite ?E, ?E'. Qed.

Lemma framed_trans old h h' h'' : framed old h h' -> framed old h' h'' -> framed old h h''.
Proof.
  intros F1 F2 r V. destruct (F1 r V) as [V1 S1]. destruct (F2 r V1) as [V2 S2]. split; [done|].
  intros N. specialize (S1 N). specialize (S2 N). destruct r; simpl in *; congruence.
Qed.

Lemma set_field_run l h f v0 v : h_fields h !! l = Some f -> pf_Val f = Some v0 -> kind_of v0 = kind_of v ->
  set_field l v h = (Ok tt, upd_field l (fun f => f{{pf_Val := Some v}}) h).
Proof. intros L E K. unfold set_field. rewrite L, E. by rewrite decide_True. Qed.

Lemma sets_scalar v fv : (forall h, val_view h (Some v) = Some (Some fv)) -> val_refs v = [] ->
  sets (kind_of v) (fun l => set_field l v) fv.
Proof.
  intros Hv Hr l h v0 L K B V. exists (upd_field l (fun f => f{{pf_Val := Some v}}) h), v.
  split; [by apply (set_field_run l h _ v0 v L)|]. destruct h. split_and!; try done.
  - by apply framed_refl.
  - rewrite Hr. intros r R. by apply elem_of_nil in R.
Qed.

Lemma sets_any a : sets KA (fun l => p <~ lift (alloc_any a) ;; set_field l (PV_A (Some p))) (Field_A a).
Proof.
  intros l h v0 L K B V. set (p := length (h_anys h)). set (h1 := h{{h_anys := h_anys h ++ [a] }}).
  exists (upd_field l (fun f => f{{pf_Val := Some (PV_A (Some p))}}) h1), (PV_A (Some p)).
  assert (L1 : h_fields h1 !! l = Some (empty_field (Some v0))) by (by destruct h).
  assert (A : h_anys h1 = h_anys h ++ [a]) by (by destruct h).
  assert (A' : h_arrays h1 = h_arrays h) by (by destruct h).
  split. { unfold sbind, lift, alloc_any. fold p h1. by apply (set_field_run l h1 _ v0 _ L1). }
  assert (X : h_anys (upd_field l (fun f => f{{pf_Val := Some (PV_A (Some p))}}) h1) = h_anys h ++ [a]) by (by destruct h).
  assert (X' : h_arrays (upd_field l (fun f => f{{pf_Val := Some (PV_A (Some p))}}) h1) = h_arrays h) by (by destruct h).
  split_and!; try by destruct h.
  - unfold val_view. rewrite X. unfold p. by rewrite lookup_app_r, Nat.sub_diag by done.
  - intros [i|q] Q; unfold valid, same_ref in *; rewrite ?X, ?X'; [done|]. rewrite length_app. split; [lia|]. intros _. by apply lookup_app_l.
  - intros r R. apply list_elem_of_singleton in R as ->. unfold valid. rewrite X, length_app. unfold p. cbn [length]. split; [lia|right; lia].
Qed.

Lemma sets_bytes b : sets KD (fun l => append_field grow l b) (Field_D b).
Proof.
  intros l h v0 L K B V. destruct v0 as [| | | | |d|]; try discriminate.
  assert (A : appended (h_arrays h) d b (sl_appends grow (h_arrays h) d b)).
  { apply append_blank; [done|]. intros s ->. apply (V (RArr (sl_arr s))). by constructor. }
  destruct (sl_appends grow (h_arrays h) d b) as [st d'] eqn:E. destruct A as (Rd & Le & Fr & Own).
  set (h1 := h{{h_arrays := st}}). set (h2 := upd_field l (fun f => f{{pf_Val := Some (PV_D d')}}) h1).
  assert (X : h_arrays h2 = st) by (by destruct h). assert (X' : h_anys h2 = h_anys h) by (by destruct h).
  exists h2, (PV_D d').
  split. { unfold append_field. rewrite L. simpl. rewrite E. apply (set_field_run l h1 (empty_field (Some (PV_D d))) (PV_D d)); by destruct h. }
  split_and!; try by destruct h.
  - unfold val_view. by rewrite X, Rd.
  - intros [i|q] Q; unfold valid, same_ref in *; rewrite ?X, ?X'; [|done]. split; [lia|]. by apply Fr.
  - intros r R. destruct (Own r R) as (i & -> & Hi & O). unfold valid. rewrite X. split; [done|]. destruct O; [by left|right; lia].
Qed.
End get.

(** ** Operations keep soundness *)

Definition Pools (h : Heap) (k : kind) : list nat := items (kvpool h k).

Lemma Pools_set k p h k' : Pools (set_kvpool k p h) k' = if decide (k' = k) then items p else Pools h k'.
Proof. unfold Pools, set_kvpool. destruct h. simpl. unfold constant. by destruct (decide (k' = k)). Qed.

Lemma clean_kind k k' f : clean k f -> clean k' f -> k = k'.
Proof. intros (v & E & <- & _) (v' & E' & <- & _). rewrite E in E'. by injection E' as ->. Qed.

Lemma live_alloc live P h l : Sound live P h -> held live P l -> (l < length (h_fields h))%nat.
Proof.
  intros S [[f Q]|[k Q]].
  - apply (snd_live _ _ _ S) in Q. unfold view in Q. destruct (h_fields h !! l) eqn:E; [|done]. by eapply lookup_lt_Some.
  - destruct (snd_pool _ _ _ S k l Q) as (_ & f & E & _). by eapply lookup_lt_Some.
Qed.

Record got (live : gmap nat Field) (k : kind) (h : Heap) (l : nat) (h1 : Heap) (v0 : PVal) : Prop := mkGot {
  got_field : h_fields h1 !! l = Some (empty_field (Some v0));
  got_kind : kind_of v0 = k;
  got_blank : blank v0;
  got_free : live !! l = None;
  got_refs : forall r, r ∈ val_refs v0 -> valid h r;
  got_apart : forall l' f r, held live (Pools h) l' -> l' <> l -> h_fields h !! l' = Some f -> r ∈ refs f -> r ∉ val_refs v0;
  got_same : h_anys h1 = h_anys h /\ h_arrays h1 = h_arrays h /\ ptpool h1 = ptpool h /\ h_points h1 = h_points h;
  got_others : forall l', l' <> l -> is_Some (h_fields h !! l') -> h_fields h1 !! l' = h_fields h !! l';
  got_pools : forall k' l', l' <> l -> l' ∈ Pools h1 k' <-> l' ∈ Pools h k';
  got_nodup : forall k', NoDup (Pools h1 k');
  got_out : forall k', l ∉ Pools h1 k'
}.

Lemma get_field_spec live k c h : Sound live (Pools h) h ->
  exists l h1 v0, get_field k c h = (l, h1) /\ got live k h l h1 v0.
Proof.
  intros S. unfold get_field. destruct (rp_get c (kvpool h k)) as [x p] eqn:G. pose proof (rp_get_items _ _ _ _ G) as I.
  assert (HP : forall k', Pools (set_kvpool k p h) k' = if decide (k' = k) then items p else Pools h k') by apply Pools_set.
  destruct x as [l|].
  - assert (M : l ∈ Pools h k) by (unfold Pools; rewrite I; by constructor).
    assert (N : NoDup (l :: items p)) by (rewrite <- I; apply (snd_nodup _ _ _ S k)).
    inversion N as [|? ? N1 N2]; subst.
    destruct (snd_pool _ _ _ S k l M) as (Lv & f & E & C). pose proof C as (v0 & -> & K & B).
    exists l, (set_kvpool k p h), v0. split; [done|]. split; try done; try by destruct h.
    + intros r R. apply (snd_valid _ _ _ S l _ r ltac:(right; eauto) E R).
    + intros l' f' r Q Nl E' R R'. eapply (snd_apart _ _ _ S l' l); [exact Q|right; eauto|done|exact E'|exact E|exact R|exact R'].
    + intros k' l' Nl. rewrite HP. destruct (decide (k' = k)) as [->|]; [|done]. unfold Pools. rewrite I, elem_of_cons. tauto.
    + intros k'. rewrite HP. destruct (decide (k' = k)); [done|apply (snd_nodup _ _ _ S)].
    + intros k'. rewrite HP. destruct (decide (k' = k)) as [->|Nk]; [done|]. intros M'.
      destruct (snd_pool _ _ _ S k' l M') as (_ & f & E' & C'). rewrite E in E'. injection E' as <-. by apply Nk, (clean_kind k' k _ C').
  - set (l := length (h_fields h)).
    assert (F : forall l', held live (Pools h) l' -> l' <> l) by (intros l' Q; apply (live_alloc _ _ _ _ S) in Q; unfold l; lia).
    assert (HP' : forall k', Pools (set_kvpool k p h) k' = Pools h k').
    { intros k'. rewrite HP. destruct (decide (k' = k)) as [->|]; [|done]. by rewrite I. }
    assert (HQ : forall k', Pools (snd (alloc_field (empty_field (Some (zero_val k))) (set_kvpool k p h){{malloc := malloc (set_kvpool k p h) + 1}})) k'
                  = Pools h k') by (intros k'; rewrite <- HP'; by destruct h).
    eexists l, _, (zero_val k). split. { rewrite (surjective_pairing (alloc_field _ _)). by destruct h. }
    assert (Z : val_refs (zero_val k) = []) by (by destruct k).
    split; rewrite ?Z; try (by destruct h); try (by destruct k).
    + destruct h. unfold l. simpl. unfold constant. by rewrite lookup_app_r, Nat.sub_diag by done.
    + destruct (live !! l) eqn:E; [|done]. exfalso. apply (F l); [left; eauto|done].
    + intros r R. by apply elem_of_nil in R.
    + intros l' f r _ _ _ _ R. by apply elem_of_nil in R.
    + intros l' Nl [f E]. destruct h. simpl in *. unfold constant. apply lookup_app_l. by eapply lookup_lt_Some.
    + intros k' l' _. by rewrite HQ.
    + intros k'. rewrite HQ. apply (snd_nodup _ _ _ S).
    + intros k' M. rewrite HQ in M. apply (F l); [right; eauto|done].
Qed.

Lemma fields_upd l g h : h_fields (upd_field l g h) = alter g l (h_fields h).
Proof. by destruct h. Qed.

Lemma rest_upd l g h : h_anys (upd_field l g h) = h_anys h /\ h_arrays (upd_field l g h) = h_arrays h /\
  kvpool (upd_field l g h) = kvpool h /\ ptpool (upd_field l g h) = ptpool h /\ h_points (upd_field l g h) = h_points h.
Proof. by destruct h. Qed.

Lemma val_view_same h h' v : h_anys h' = h_anys h -> h_arrays h' = h_arrays h -> val_view h' v = val_view h v.
Proof. intros E E'. unfold val_view. by rewrite E, E'. Qed.

Definition new_field (key : bytes) (v : option FieldVal) : Field := mkField key v false UNSPECIFIED [] [].

Lemma get_set_ok live h k c key set v : Sound live (Pools h) h -> sets k set v ->
  exists l h', get_set k c key set h = (Ok l, h') /\ live !! l = None /\
    Sound (<[l := new_field key (Some v)]> live) (Pools h') h' /\ ptpool h' = ptpool h /\ h_points h' = h_points h.
Proof.
  intros S Hs. destruct (get_field_spec live k c h S) as (l & h1 & v0 & E & [Gf Gk Gb Gl Gr Ga Gs Go Gp Gn Gx]).
  destruct Gs as (S1 & S2 & S3 & S4).
  destruct (Hs l h1 v0 Gf Gk Gb) as (h2 & v' & E2 & F2 & V2 & Fr & Ow & P2 & Q2 & R2).
  { intros r R. specialize (Gr r R). destruct r; simpl in *; congruence. }
  set (h3 := upd_field l (fun f => f{{pf_Key := key}}) h2).
  destruct (rest_upd l (fun f => f{{pf_Key := key}}) h2) as (X1 & X2 & X3 & X4 & X5).
  assert (HP : Pools h3 = Pools h1) by (unfold Pools, h3; by rewrite X3, P2).
  assert (L3 : h_fields h3 !! l = Some (mkPField key (Some v') false UNSPECIFIED [] [])).
  { unfold h3. rewrite fields_upd, list_lookup_alter_eq, F2, list_lookup_alter_eq, Gf. done. }
  assert (F3 : forall l', l' <> l -> h_fields h3 !! l' = h_fields h1 !! l').
  { intros l' N. unfold h3. rewrite fields_upd, list_lookup_alter_ne, F2, list_lookup_alter_ne; done. }
  assert (V : forall r, valid h1 r <-> valid h r) by (intros []; simpl; by rewrite ?S1, ?S2).
  exists l, h3. split. { unfold get_set, sbind, lift, set_key, smod, sret. by rewrite E, E2. }
  split; [done|]. split; [|unfold h3; by rewrite X4, X5, Q2, R2].
  assert (Fr3 : framed (val_refs v0) h h3).
  { apply (framed_trans _ _ h1); [by apply framed_refl|]. apply (framed_trans _ _ h2); [done|by apply framed_refl]. }
  apply (Sound_local live (Pools h) h _ _ _ l (val_refs v0) S).
  - exact Ga.
  - intros l' N I. rewrite F3 by done. by apply Go.
  - exact Fr3.
  - intros f Lf _ r R. rewrite L3 in Lf. injection Lf as <-. destruct (Ow r R) as [Vr Or]. split; [|by rewrite V in Or].
    destruct r; simpl in *; unfold h3; by rewrite ?X1, ?X2.
  - intros l' N. by apply lookup_insert_ne.
  - intros k' l' N. rewrite HP. by apply Gp.
  - intros k'. rewrite HP. apply Gn.
  - intros f Lf. rewrite lookup_insert_eq in Lf. injection Lf as <-. unfold view. rewrite L3. cbn -[field_view].
    unfold field_view. cbn -[val_view]. by rewrite (val_view_same h2 h3), V2.
  - intros k' M. rewrite HP in M. by apply Gx in M.
Qed.

Lemma alloc_nil_ok live h key : Sound live (Pools h) h ->
  exists l h', lift (alloc_field (mkPField key None false UNSPECIFIED [] [])) h = (Ok l, h') /\ live !! l = None /\
    Sound (<[l := new_field key None]> live) (Pools h') h' /\ ptpool h' = ptpool h /\ h_points h' = h_points h.
Proof.
  intros S. set (l := length (h_fields h)). set (h' := snd (alloc_field (mkPField key None false UNSPECIFIED [] []) h)).
  assert (F : forall l', held live (Pools h) l' -> l' <> l) by (intros l' Q; apply (live_alloc _ _ _ _ S) in Q; unfold l; lia).
  assert (HP : Pools h' = Pools h) by (by destruct h).
  assert (L : h_fields h' !! l = Some (mkPField key None false UNSPECIFIED [] [])).
  { destruct h. unfold l, h'. simpl. unfold constant. by rewrite lookup_app_r, Nat.sub_diag by done. }
  exists l, h'. split; [done|].
  split. { destruct (live !! l) eqn:E; [|done]. exfalso. apply (F l); [left; eauto|done]. }
  split; [|by destruct h].
  apply (Sound_local live (Pools h) h _ _ _ l [] S).
  - intros l' f r _ _ _ _ R. by apply elem_of_nil in R.
  - intros l' N [f E]. destruct h. simpl in *. unfold constant. apply lookup_app_l. by eapply lookup_lt_Some.
  - apply framed_refl; by destruct h.
  - intros f E _ r R. rewrite L in E. injection E as <-. by apply elem_of_nil in R.
  - intros l' N. by apply lookup_insert_ne.
  - intros k' l' _. by rewrite HP.
  - intros k'. rewrite HP. apply (snd_nodup _ _ _ S).
  - intros f E. rewrite lookup_insert_eq in E. injection E as <-. unfold view. by rewrite L.
  - intros k' M. rewrite HP in M. exfalso. apply (F l); [right; eauto|done].
Qed.

Definition builds `{ArrayEnc} (v : any) : Prop := match v with GoArr a => NewArray a <> None | _ => True end.

Lemma GetKV_ok `{ArrayEnc} grow (grows : forall n, (n < grow n)%nat) live h key v c : Sound live (Pools h) h -> builds v ->
  exists l h', GetKV grow key (Plain v) c h = (Ok l, h') /\ live !! l = None /\
    Sound (<[l := doNewKV key v]> live) (Pools h') h' /\ ptpool h' = ptpool h /\ h_points h' = h_points h.
Proof.
  intros S B. unfold doNewKV. destruct v as [|n|n|x|s|b|b|a|a|i]; cbn [GetKV newVal].
  - by apply alloc_nil_ok.
  - apply (get_set_ok _ _ _ _ _ _ _ S (sets_scalar (PV_I n) (Field_I n) (fun _ => eq_refl) eq_refl)).
  - apply (get_set_ok _ _ _ _ _ _ _ S (sets_scalar (PV_U n) (Field_U n) (fun _ => eq_refl) eq_refl)).
  - apply (get_set_ok _ _ _ _ _ _ _ S (sets_scalar (PV_F x) (Field_F x) (fun _ => eq_refl) eq_refl)).
  - apply (get_set_ok _ _ _ _ _ _ _ S (sets_scalar (PV_S s) (Field_S s) (fun _ => eq_refl) eq_refl)).
  - apply (get_set_ok _ _ _ _ _ _ _ S (sets_bytes grow grows b)).
  - apply (get_set_ok _ _ _ _ _ _ _ S (sets_scalar (PV_B b) (Field_B b) (fun _ => eq_refl) eq_refl)).
  - simpl in B. destruct (NewArray a) as [x|]; [|done]. apply (get_set_ok _ _ _ _ _ _ _ S (sets_any x)).
  - apply (get_set_ok _ _ _ _ _ _ _ S (sets_any a)).
  - by apply alloc_nil_ok.
Qed.

Lemma alter_upd l v0 v' (fs : list PField) f : fs !! l = Some f -> pf_Val f = v0 ->
  alter (fun f => f{{pf_Val := v'}}) l (alter clear_field l fs) = alter (fun _ => empty_field v') l fs.
Proof.
  intros L E. apply list_eq. intros i. destruct (decide (i = l)) as [->|N]; [|by rewrite !list_lookup_alter_ne].
  by rewrite !list_lookup_alter_eq, L.
Qed.

(** [resetKV] makes a value blank. *)
Lemma reset_field_run h l v : h_fields h !! l = Some (empty_field (Some v)) -> v <> PV_A None ->
  exists h1 v', reset_field l h = (Ok tt, h1) /\ h_fields h1 = alter (fun f => f{{pf_Val := Some v'}}) l (h_fields h) /\
    kind_of v' = kind_of v /\ blank v' /\ val_refs v' = val_refs v /\ framed (val_refs v) h h1 /\
    kvpool h1 = kvpool h /\ ptpool h1 = ptpool h /\ h_points h1 = h_points h.
Proof.
  intros L N. unfold reset_field. rewrite L. cbn [empty_field pf_Val].
  assert (Go : forall v', kind_of v' = kind_of v -> blank v' -> val_refs v' = val_refs v ->
    exists h1 w, (Ok tt : Res ppanic unit, upd_field l (fun f => f{{pf_Val := Some v'}}) h) = (Ok tt, h1) /\
      h_fields h1 = alter (fun f => f{{pf_Val := Some w}}) l (h_fields h) /\ kind_of w = kind_of v /\ blank w /\ val_refs w = val_refs v /\
      framed (val_refs v) h h1 /\ kvpool h1 = kvpool h /\ ptpool h1 = ptpool h /\ h_points h1 = h_points h).
  { intros v' K B R. exists (upd_field l (fun f => f{{pf_Val := Some v'}}) h), v'. split; [done|]. 
    split_and!; try done; try by destruct h. apply framed_refl; by destruct h. }
  destruct v as [x|n|n|s|b|d|[p|]]; [by apply (Go (zero_val KF))|by apply (Go (zero_val KI))|by apply (Go (zero_val KU))
    |by apply (Go (zero_val KS))|by apply (Go (zero_val KB))|by apply (Go (PV_D (sl_reset d))); destruct d| |done].
  eexists _, (PV_A (Some p)). split; [done|]. destruct h as [hf ha hr hp cap m e pt kv]. simpl in *. unfold constant. split_and!; try done.
  - apply list_eq. intros i. destruct (decide (i = l)) as [->|Ni]; [by rewrite list_lookup_alter_eq, L|by rewrite list_lookup_alter_ne].
  - intros [i|q] V; simpl in *; unfold constant; [done|]. rewrite length_alter. split; [done|]. intros Nq.
    apply list_lookup_alter_ne. intros ->. apply Nq. by constructor.
Qed.

(** What [PutKV] does to a field that is there: it is blank and goes to the pool of its kind. *)
Lemma PutKV_run h l f v : h_fields h !! l = Some f -> pf_Val f = Some v -> v <> PV_A None ->
  exists h1 v', PutKV l h = (Ok tt, set_kvpool (kind_of v) (rp_put l (kvpool h (kind_of v))) h1) /\
    h_fields h1 = alter (fun _ => empty_field (Some v')) l (h_fields h) /\ kind_of v' = kind_of v /\ blank v' /\
    val_refs v' = val_refs v /\ framed (val_refs v) h h1 /\ kvpool h1 = kvpool h /\ ptpool h1 = ptpool h /\ h_points h1 = h_points h.
Proof.
  intros L E N. set (h0 := upd_field l clear_field h). destruct (rest_upd l clear_field h) as (X1 & X2 & X3 & X4 & X5).
  assert (L0 : h_fields h0 !! l = Some (empty_field (Some v))).
  { unfold h0. rewrite fields_upd, list_lookup_alter_eq, L. simpl. unfold clear_field. by rewrite E. }
  destruct (reset_field_run h0 l v L0 N) as (h1 & v' & R1 & F1 & K1 & B1 & V1 & Fr & P1 & Q1 & T1).
  exists h1, v'. unfold PutKV, sbind, smod. fold h0. rewrite R1, F1, list_lookup_alter_eq, L0. cbn [fmap option_fmap option_map].
  replace (pf_Val ((empty_field (Some v)){{pf_Val := Some v'}})) with (Some v') by done. rewrite K1, P1.
  unfold h0 in *. rewrite fields_upd, (alter_upd l _ _ _ f L E) in *. rewrite X3, X4, X5 in *. split_and!; try done.
Qed.

Lemma put_nodup l p : NoDup (items p) -> l ∉ items p -> NoDup (items (rp_put l p)).
Proof. intros N M. rewrite rp_put_items. by constructor. Qed.

(** A field of the client is in no pool, and what it refers to is its own. *)
Lemma live_own live P h l f g : Sound live P h -> live !! l = Some f -> h_fields h !! l = Some g ->
  (forall k, l ∉ P k) /\
  (forall l' g' r, held live P l' -> l' <> l -> h_fields h !! l' = Some g' -> r ∈ refs g' -> r ∉ refs g) /\
  (forall r, r ∈ refs g -> valid h r).
Proof.
  intros S L E. assert (Hl : held live P l) by (left; eauto). split_and!.
  - intros k M. destruct (snd_pool _ _ _ S k l M) as [Q _]. congruence.
  - intros l' g' r Q N E' R. by apply (snd_apart _ _ _ S l' l g' g r).
  - intros r R. by apply (snd_valid _ _ _ S l g).
Qed.

Lemma put_value_ok live h l f g v : Sound live (Pools h) h -> live !! l = Some f -> h_fields h !! l = Some g -> pf_Val g = Some v ->
  v <> PV_A None ->
  exists h', PutKV l h = (Ok tt, h') /\ Sound (delete l live) (Pools h') h' /\ ptpool h' = ptpool h /\ h_points h' = h_points h.
Proof.
  intros S L E Ev Nv. destruct (live_own _ _ _ _ _ _ S L E) as (Np & Ap & Vg).
  destruct (PutKV_run h l g v E Ev Nv) as (h1 & v' & R & F & K & B & Vr & Fr & P1 & Q1 & T1).
  set (k := kind_of v) in *. set (h2 := set_kvpool k (rp_put l (kvpool h k)) h1) in *.
  assert (HP : forall k', Pools h2 k' = if decide (k' = k) then items (rp_put l (kvpool h k)) else Pools h k').
  { intros k'. unfold h2. rewrite Pools_set. unfold Pools. by rewrite P1. }
  assert (F2 : h_fields h2 = h_fields h1) by (by destruct h1).
  assert (L2 : h_fields h2 !! l = Some (empty_field (Some v'))) by (by rewrite F2, F, list_lookup_alter_eq, E).
  assert (Rg : refs g = val_refs v) by (unfold refs; by rewrite Ev).
  exists h2. split; [done|]. split; [|unfold h2; destruct h1; by simpl in *].
  apply (Sound_local live (Pools h) h _ _ _ l (refs g) S).
  - exact Ap.
  - intros l' N _. rewrite F2, F. by apply list_lookup_alter_ne.
  - rewrite Rg. apply (framed_trans _ _ h1); [done|]. apply framed_refl; by destruct h1.
  - intros g' L' _ r Rr. rewrite L2 in L'. injection L' as <-. unfold refs in Rr. cbn -[val_refs] in Rr. rewrite Vr, <- Rg in Rr.
    split; [|by left]. destruct (Fr r (Vg r Rr)) as [W _]. by destruct h1, r.
  - intros l' N. by apply lookup_delete_ne.
  - intros k' l' N. rewrite HP. destruct (decide (k' = k)) as [->|]; [|done]. rewrite rp_put_items, elem_of_cons. unfold Pools. tauto.
  - intros k'. rewrite HP. destruct (decide (k' = k)) as [->|]; [apply put_nodup; [apply (snd_nodup _ _ _ S)|apply Np]|apply (snd_nodup _ _ _ S)].
  - intros f' L'. by rewrite lookup_delete_eq in L'.
  - intros k' M. rewrite lookup_delete_eq. split; [done|]. exists (empty_field (Some v')). split; [done|]. exists v'. split; [done|].
    rewrite HP in M. destruct (decide (k' = k)) as [->|]; [done|by apply Np in M].
Qed.

Lemma put_nil_ok live h l f g : Sound live (Pools h) h -> live !! l = Some f -> h_fields h !! l = Some g -> pf_Val g = None ->
  exists h', PutKV l h = (Ok tt, h') /\ Sound (delete l live) (Pools h') h' /\ ptpool h' = ptpool h /\ h_points h' = h_points h.
Proof.
  intros S L E Ev. destruct (live_own _ _ _ _ _ _ S L E) as (Np & Ap & _).
  exists (upd_field l clear_field h). destruct (rest_upd l clear_field h) as (X1 & X2 & X3 & X4 & X5).
  assert (HP : Pools (upd_field l clear_field h) = Pools h) by (unfold Pools; by rewrite X3).
  assert (L2 : h_fields (upd_field l clear_field h) !! l = Some (empty_field None)).
  { rewrite fields_upd, list_lookup_alter_eq, E. simpl. unfold clear_field. by rewrite Ev. }
  split. { unfold PutKV, sbind, smod, reset_field. rewrite L2. cbn [empty_field pf_Val]. by rewrite L2. }
  split; [|done]. apply (Sound_local live (Pools h) h _ _ _ l (refs g) S).
  - exact Ap.
  - intros l' N _. rewrite fields_upd. by apply list_lookup_alter_ne.
  - by apply framed_refl.
  - intros g' L' _ r Rr. rewrite L2 in L'. injection L' as <-. by apply elem_of_nil in Rr.
  - intros l' N. by apply lookup_delete_ne.
  - intros k' l' _. by rewrite HP.
  - intros k'. rewrite HP. apply (snd_nodup _ _ _ S).
  - intros f' L'. by rewrite lookup_delete_eq in L'.
  - intros k' M. rewrite HP in M. by apply Np in M.
Qed.

Lemma PutKV_ok live h l f : Sound live (Pools h) h -> live !! l = Some f ->
  exists h', PutKV l h = (Ok tt, h') /\ Sound (delete l live) (Pools h') h' /\ ptpool h' = ptpool h /\ h_points h' = h_points h.
Proof.
  intros S L. pose proof (snd_live _ _ _ S l f L) as V. unfold view in V.
  destruct (h_fields h !! l) as [g|] eqn:E; [|done]. cbn -[field_view] in V. unfold field_view in V.
  destruct (pf_Val g) as [v|] eqn:Ev; [|by apply (put_nil_ok _ _ _ f g)].
  apply (put_value_ok _ _ _ f g v S L E Ev). intros ->. discriminate V.
Qed.

Lemma opt_view h o g f : field_view h g = Some f -> field_view h (apply_opt o g) = Some (opt_of o f).
Proof.
  destruct g as [k v t ty u d]. unfold field_view. cbn [pf_Val].
  destruct (val_view h v) as [fv|] eqn:V; cbn; [|done]. intros [= <-].
  destruct o as [u'|d'|t'|on]; cbn; unfold constant; rewrite ?V; try done.
  destruct v as [w|]; cbn in *; [|by injection V as <-; rewrite ?V].
  destruct w as [| | | | | |[p|]]; cbn in *; rewrite ?V; cbn; try (by injection V as <-).
  - destruct (h_anys h !! p); [|done]. by injection V as <-.
  - done.
Qed.

Lemma opt_refs o g : refs (apply_opt o g) = refs g.
Proof. destruct g as [k [[]|] t ty u d], o; done. Qed.

Lemma opt_ok live h l f o : Sound live (Pools h) h -> live !! l = Some f ->
  Sound (<[l := opt_of o f]> live) (Pools (upd_field l (apply_opt o) h)) (upd_field l (apply_opt o) h).
Proof.
  intros S Lv. pose proof (snd_live _ _ _ S l f Lv) as V. unfold view in V.
  destruct (h_fields h !! l) as [g|] eqn:E; [|done]. change (field_view h g = Some f) in V.
  destruct (rest_upd l (apply_opt o) h) as (X1 & X2 & X3 & X4 & X5).
  assert (HP : Pools (upd_field l (apply_opt o) h) = Pools h) by (unfold Pools; by rewrite X3).
  destruct (live_own _ _ _ _ _ _ S Lv E) as (Np & Ap & Vg).
  assert (L2 : h_fields (upd_field l (apply_opt o) h) !! l = Some (apply_opt o g)) by (by rewrite fields_upd, list_lookup_alter_eq, E).
  apply (Sound_local live (Pools h) h _ _ _ l (refs g) S).
  - exact Ap.
  - intros l' N _. rewrite fields_upd. by apply list_lookup_alter_ne.
  - by apply framed_refl.
  - intros g' L' _ r Rr. rewrite L2 in L'. injection L' as <-. rewrite opt_refs in Rr. split; [|by left].
    specialize (Vg r Rr). destruct r; simpl in *; by rewrite ?X1, ?X2.
  - intros l' N. by apply lookup_insert_ne.
  - intros k' l' _. by rewrite HP.
  - intros k'. rewrite HP. apply (snd_nodup _ _ _ S).
  - intros f' L'. rewrite lookup_insert_eq in L'. injection L' as <-. unfold view. rewrite L2. cbn -[field_view].
    rewrite <- (opt_view h o g f V). unfold field_view. by rewrite (val_view_same h) by done.
  - intros k' M. rewrite HP in M. by apply Np in M.
Qed.

(** ** The specification: allocation without a pool *)

Record Spec := mkSpec { live : gmap nat Field; points : gmap nat PPoint }.

Inductive pop :=
| OGetKV (key : bytes) (v : any) (choice : option nat)
| OPutKV (l : nat)
| OOpt (l : nat) (o : kvopt)
| OPoint (name : bytes) (kvs : list nat) (choice : option nat)
| OPut (l : nat).

(** A field that the client holds, in no point. *)
Definition free (s : Spec) (l : nat) : Prop :=
  is_Some (live s !! l) /\ forall p pt, points s !! p = Some pt -> l ∉ pp_Fields pt.

(** What a client may do: put back what it holds, build arrays that can be encoded. *)
Definition allowed `{ArrayEnc} (s : Spec) (o : pop) : Prop :=
  match o with
  | OGetKV _ v _ => builds v
  | OPutKV l => free s l
  | OOpt l _ => is_Some (live s !! l)
  | OPoint _ kvs _ => NoDup kvs /\ Forall (free s) kvs
  | OPut l => is_Some (points s !! l)
  end.

Definition delete_all (ls : list nat) (m : gmap nat Field) : gmap nat Field := fold_left (fun m l => delete l m) ls m.

Definition new_point (name : bytes) (kvs : list nat) : PPoint := pp_SetFlag Ppooled emptyPoint{{pp_Name := name; pp_Fields := kvs}}.

(** An operation that gives address [r]: a new object, or an object less. *)
Definition spec_step `{ArrayEnc} (s : Spec) (o : pop) (r : nat) : Spec :=
  match o with
  | OGetKV key v _ => mkSpec (<[r := doNewKV key v]> (live s)) (points s)
  | OPutKV l => mkSpec (delete l (live s)) (points s)
  | OOpt l o => mkSpec (alter (opt_of o) l (live s)) (points s)
  | OPoint name kvs _ => mkSpec (live s) (<[r := new_point name kvs]> (points s))
  | OPut l =>
      match points s !! l with
      | Some pt => if pp_HasFlag Ppooled pt then mkSpec (delete_all (pp_Fields pt) (live s)) (delete l (points s)) else s
      | None => s
      end
  end.

(** A new object is none of those that the client holds. *)
Definition fresh (s : Spec) (o : pop) (r : nat) : Prop :=
  match o with OGetKV _ _ _ => live s !! r = None | OPoint _ _ _ => points s !! r = None | _ => True end.

(** What the client sees through its pointers. *)
Definition agrees (s : Spec) (h : Heap) : Prop :=
  (forall l f, live s !! l = Some f -> view h l = Some f) /\ (forall p pt, points s !! p = Some pt -> h_points h !! p = Some pt).

Definition exec `{ArrayEnc} (grow : nat -> nat) (o : pop) : PM nat :=
  match o with
  | OGetKV key v c => GetKV grow key (Plain v) c
  | OPutKV l => PutKV l ;;; sret l
  | OOpt l o => smod (upd_field l (apply_opt o)) ;;; sret l
  | OPoint name kvs c => pooled_point name kvs c
  | OPut l => Pool_Put l ;;; sret l
  end.

(** Every allowed operation succeeds, and the client sees what the specification says. *)
Fixpoint serves `{ArrayEnc} (grow : nat -> nat) (ops : list pop) (s : Spec) (h : Heap) : Prop :=
  match ops with
  | [] => True
  | o :: ops =>
      allowed s o -> exists r h', exec grow o h = (Ok r, h') /\ fresh s o r /\ agrees (spec_step s o r) h' /\
        serves grow ops (spec_step s o r) h'
  end.

Record Inv (s : Spec) (h : Heap) : Prop := mkInv {
  inv_sound : Sound (live s) (Pools h) h;
  inv_points : forall p pt, points s !! p = Some pt -> h_points h !! p = Some pt;
  inv_free : forall p, p ∈ items (ptpool h) -> points s !! p = None /\ h_points h !! p = Some emptyPoint;
  inv_nodup : NoDup (items (ptpool h));
  inv_fields : forall p pt, points s !! p = Some pt -> NoDup (pp_Fields pt) /\ Forall (fun l => is_Some (live s !! l)) (pp_Fields pt);
  inv_apart : forall p q pt qt l, points s !! p = Some pt -> points s !! q = Some qt -> p <> q -> l ∈ pp_Fields pt -> l ∉ pp_Fields qt
}.

Section refines.
Context `{ArrayEnc} (grow : nat -> nat) (grows : forall n, (n < grow n)%nat).

Lemma delete_all_other ls m l : l ∉ ls -> delete_all ls m !! l = m !! l.
Proof.
  revert m. induction ls as [|x ls IH]; intros m N; [done|]. rewrite not_elem_of_cons in N. destruct N as [N1 N2].
  unfold delete_all in *. cbn [fold_left]. rewrite IH by done. by apply lookup_delete_ne.
Qed.

Lemma put_all_ok ls : forall lv h, Sound lv (Pools h) h -> NoDup ls -> Forall (fun l => is_Some (lv !! l)) ls ->
  exists h', put_all ls h = (Ok tt, h') /\ Sound (delete_all ls lv) (Pools h') h' /\ ptpool h' = ptpool h /\ h_points h' = h_points h.
Proof.
  induction ls as [|l ls IH]; intros lv h S N A.
  { exists h. done. }
  inversion N as [|? ? N1 N2]; subst. inversion A as [|? ? [f L] A']; subst.
  destruct (PutKV_ok lv h l f S L) as (h1 & E1 & S1 & P1 & Q1).
  destruct (IH (delete l lv) h1 S1 N2) as (h2 & E2 & S2 & P2 & Q2).
  { rewrite list.Forall_forall in A' |- *. intros x Hx. destruct (A' x Hx) as [g Lg]. exists g. by rewrite lookup_delete_ne by (intros ->; by apply N1). }
  exists h2. cbn [put_all]. unfold sbind. rewrite E1. rewrite E2. split_and!; [done|done|congruence|congruence].
Qed.

(** A part of the heap that fields do not depend on. *)
Lemma Sound_rest lv P h h' : h_fields h' = h_fields h -> h_anys h' = h_anys h -> h_arrays h' = h_arrays h ->
  Sound lv P h -> Sound lv P h'.
Proof.
  intros E1 E2 E3 [SL SP SN SV SA]. split; rewrite ?E1; try done.
  - intros l f L. rewrite <- (SL l f L). unfold view. rewrite E1. destruct (h_fields h !! l) as [g|]; [|done].
    cbn -[field_view]. unfold field_view. by rewrite (val_view_same h h').
  - intros l f r Q L R. specialize (SV l f r Q L R). destruct r; simpl in *; by rewrite ?E2, ?E3.
Qed.

Lemma Pool_Get_spec s h c : Inv s h ->
  exists l h', Pool_Get c h = (l, h') /\ points s !! l = None /\ h_points h' !! l = Some emptyPoint /\
    (l ∉ items (ptpool h')) /\ NoDup (items (ptpool h')) /\ (forall p, p ∈ items (ptpool h') -> p ∈ items (ptpool h)) /\
    (forall p, is_Some (h_points h !! p) -> h_points h' !! p = h_points h !! p) /\
    h_fields h' = h_fields h /\ h_anys h' = h_anys h /\ h_arrays h' = h_arrays h /\ kvpool h' = kvpool h.
Proof.
  intros [S Ip If In _ _]. unfold Pool_Get. destruct (rp_get c (ptpool h)) as [x p] eqn:G.
  pose proof (rp_get_items _ _ _ _ G) as I. destruct x as [l|].
  - assert (N : NoDup (l :: items p)) by (by rewrite <- I). inversion N as [|? ? N1 N2]; subst.
    destruct (If l) as [F1 F2]; [rewrite I; by constructor|].
    exists l, h{{ptpool := p}}. destruct h as [hf ha hr hp cap m e pt kv]. simpl in *. unfold constant in *. split_and!; try done.
    intros q Hq. rewrite I. by constructor.
  - set (l := length (h_points h)).
    assert (O : forall q, is_Some (h_points h !! q) -> q <> l).
    { intros q [z Hz]. apply lookup_lt_Some in Hz. unfold l. lia. }
    eexists l, _. split; [by destruct h|]. destruct h as [hf ha hr hp cap m e pt kv]. simpl in *. unfold constant in *. split_and!; try done.
    + destruct (points s !! l) as [z|] eqn:E; [|done]. exfalso. apply (O l); [|done]. rewrite (Ip l z E). eauto.
    + unfold l. by rewrite lookup_app_r, Nat.sub_diag by done.
    + rewrite I. intros M. destruct (If l M) as [_ F]. apply (O l); [|done]. rewrite F. eauto.
    + by rewrite I.
    + intros q. by rewrite I.
    + intros q [z Hz]. apply lookup_app_l. by eapply lookup_lt_Some.
Qed.

Lemma points_upd l g h : h_points (upd_point l g h) = alter g l (h_points h) /\ h_fields (upd_point l g h) = h_fields h /\
  h_anys (upd_point l g h) = h_anys h /\ h_arrays (upd_point l g h) = h_arrays h /\ kvpool (upd_point l g h) = kvpool h /\
  ptpool (upd_point l g h) = ptpool h.
Proof. by destruct h. Qed.

Lemma point_step s h name kvs c : Inv s h -> NoDup kvs -> Forall (free s) kvs ->
  exists r h', pooled_point name kvs c h = (Ok r, h') /\ points s !! r = None /\ Inv (spec_step s (OPoint name kvs c) r) h'.
Proof.
  intros I N A. destruct (Pool_Get_spec s h c I) as (l & h1 & E & F & L & M & N1 & Sub & Old & X1 & X2 & X3 & X4).
  destruct I as [S Ip If In Ix Ia].
  set (g := fun p => pp_SetFlag Ppooled p{{pp_Name := name; pp_Fields := kvs}}).
  destruct (points_upd l g h1) as (Y1 & Y2 & Y3 & Y4 & Y5 & Y6).
  exists l, (upd_point l g h1). split. { unfold pooled_point, sbind, lift, smod, sret. by rewrite E. }
  split; [done|]. split; cbn [spec_step live points]; rewrite ?Y6.
  - assert (HP : Pools (upd_point l g h1) = Pools h) by (unfold Pools; by rewrite Y5, X4). rewrite HP.
    apply (Sound_rest _ _ h); [congruence|congruence|congruence|done].
  - intros p pt Q. destruct (decide (p = l)) as [->|Np].
    + rewrite lookup_insert_eq in Q. injection Q as <-. by rewrite Y1, list_lookup_alter_eq, L.
    + rewrite lookup_insert_ne in Q by done. rewrite Y1, list_lookup_alter_ne, Old by (done || (rewrite (Ip p pt Q); eauto)). by apply Ip.
  - intros p Hp. assert (Np : p <> l) by (intros ->; done). destruct (If p (Sub p Hp)) as [Q1 Q2].
    rewrite lookup_insert_ne, Y1, list_lookup_alter_ne, Old by (done || (rewrite Q2; eauto)). done.
  - done.
  - intros p pt Q. destruct (decide (p = l)) as [->|Np].
    + rewrite lookup_insert_eq in Q. injection Q as <-. split; [done|]. apply (list.Forall_impl (free s)); [exact A|]. by intros x [? _].
    + rewrite lookup_insert_ne in Q by done. by apply (Ix p).
  - rewrite list.Forall_forall in A.
    intros p q pt qt x Hp Hq Npq Hx. destruct (decide (p = l)) as [->|Np]; [|destruct (decide (q = l)) as [->|Nq]].
    + rewrite lookup_insert_eq in Hp. injection Hp as <-. rewrite lookup_insert_ne in Hq by done. by apply (A x Hx) in Hq.
    + rewrite lookup_insert_eq in Hq. injection Hq as <-. rewrite lookup_insert_ne in Hp by done. intros Hx'.
      by apply (A x Hx' : free s x) in Hp.
    + rewrite lookup_insert_ne in Hp by done. rewrite lookup_insert_ne in Hq by done. by apply (Ia p q pt qt x).
Qed.

Lemma put_point_step s h l pt : Inv s h -> points s !! l = Some pt ->
  exists h', Pool_Put l h = (Ok tt, h') /\ Inv (spec_step s (OPut l) l) h'.
Proof.
  intros [S Ip If In Ix Ia] L. cbn [spec_step]. rewrite L. unfold Pool_Put. rewrite (Ip l pt L).
  destruct (pp_HasFlag Ppooled pt); cycle 1.
  { eexists. split; [done|]. split; try by destruct h. by apply (Sound_rest _ _ h); try by destruct h. }
  destruct (Ix l pt L) as [N A]. destruct (put_all_ok (pp_Fields pt) (live s) h S N A) as (h1 & E1 & S1 & P1 & Q1).
  set (h2 := upd_point l pp_Reset h1). destruct (points_upd l pp_Reset h1) as (Y1 & Y2 & Y3 & Y4 & Y5 & Y6).
  set (h3 := h2{{ptpool := rp_put l (ptpool h2)}}).
  assert (Z : h_points h3 = alter pp_Reset l (h_points h) /\ h_fields h3 = h_fields h1 /\ h_anys h3 = h_anys h1 /\
              h_arrays h3 = h_arrays h1 /\ kvpool h3 = kvpool h1 /\ ptpool h3 = rp_put l (ptpool h)).
  { rewrite <- Q1, <- P1. by destruct h1. }
  destruct Z as (Z1 & Z2 & Z3 & Z4 & Z5 & Z6).
  assert (Nl : l ∉ items (ptpool h)) by (intros M; destruct (If l M) as [Q _]; congruence).
  exists h3. split. { unfold sbind, smod. by rewrite E1. }
  split; cbn [live points]; rewrite ?Z1, ?Z6.
  - assert (HP : Pools h3 = Pools h1) by (unfold Pools; by rewrite Z5). rewrite HP. by apply (Sound_rest _ _ h1).
  - intros p q Q. apply lookup_delete_Some in Q as [Np Q]. rewrite list_lookup_alter_ne by done. by apply Ip.
  - intros p. rewrite rp_put_items, elem_of_cons. intros [->|M].
    + rewrite lookup_delete_eq, list_lookup_alter_eq, (Ip l pt L). done.
    + assert (Np : l <> p) by (intros ->; done). rewrite lookup_delete_ne, list_lookup_alter_ne by done. by apply If.
  - by apply put_nodup.
  - intros p q Q. apply lookup_delete_Some in Q as [Np Q]. destruct (Ix p q Q) as [Nq Aq]. split; [done|].
    rewrite list.Forall_forall in Aq |- *. intros x Hx. rewrite delete_all_other; [by apply Aq|]. by apply (Ia p l q pt x).
  - intros p q pt' qt x Hp Hq Npq. apply lookup_delete_Some in Hp as [_ Hp]. apply lookup_delete_Some in Hq as [_ Hq].
    by apply (Ia p q pt' qt x).
Qed.

(** Operations on fields, when the points keep theirs. *)
Lemma Inv_fields s h lv h' : Inv s h -> Sound lv (Pools h') h' -> ptpool h' = ptpool h -> h_points h' = h_points h ->
  (forall l p pt, points s !! p = Some pt -> l ∈ pp_Fields pt -> is_Some (live s !! l) -> is_Some (lv !! l)) ->
  Inv (mkSpec lv (points s)) h'.
Proof.
  intros [S Ip If In Ix Ia] S' P Q K. split; cbn [live points]; rewrite ?P, ?Q; try done.
  intros p pt L. destruct (Ix p pt L) as [N A]. split; [done|]. rewrite list.Forall_forall in A |- *. intros l Hl. by apply (K l p pt); auto.
Qed.

Lemma exec_step s h o : Inv s h -> allowed s o ->
  exists r h', exec grow o h = (Ok r, h') /\ fresh s o r /\ Inv (spec_step s o r) h'.
Proof.
  intros I A. pose proof (inv_sound _ _ I) as S. destruct o as [key v c|l|l o|name kvs c|l]; cbn [exec allowed fresh] in *.
  - destruct (GetKV_ok grow grows _ h key v c S A) as (l & h' & E & F & S' & P & Q). exists l, h'. split; [done|]. split; [done|].
    apply (Inv_fields s h); [done..|]. intros x p pt _ _ [f Lf]. destruct (decide (x = l)) as [->|]; [congruence|].
    rewrite lookup_insert_ne by done. eauto.
  - destruct A as [[f L] Nf]. destruct (PutKV_ok _ h l f S L) as (h' & E & S' & P & Q). exists l, h'. unfold sbind, sret. rewrite E.
    split; [done|]. split; [done|]. apply (Inv_fields s h); [done..|]. intros x p pt Hp Hx Lx.
    rewrite lookup_delete_ne; [done|]. intros ->. by apply (Nf p pt).
  - destruct A as [f L]. exists l, (upd_field l (apply_opt o) h). split; [done|]. split; [done|].
    destruct (rest_upd l (apply_opt o) h) as (_ & _ & _ & P & Q). apply (Inv_fields s h); [done| |done|done|].
    + replace (alter (opt_of o) l (live s)) with (<[l := opt_of o f]> (live s)); [by apply opt_ok|].
      apply map_eq. intros x. destruct (decide (x = l)) as [->|]; [by rewrite lookup_insert_eq, lookup_alter_eq, L|].
      by rewrite lookup_insert_ne, lookup_alter_ne.
    + intros x p pt _ _ [g Lg]. destruct (decide (x = l)) as [->|]; [rewrite lookup_alter_eq, Lg; eauto|rewrite lookup_alter_ne by done; eauto].
  - destruct A as [N Af]. destruct (point_step s h name kvs c I N Af) as (r & h' & E & F & I'). by exists r, h'.
  - destruct A as [pt L]. destruct (put_point_step s h l pt I L) as (h' & E & I'). exists l, h'. unfold sbind, sret. by rewrite E.
Qed.

Lemma Inv_new cap : Inv (mkSpec ∅ ∅) (NewReservedCapPointPool cap).
Proof.
  split; cbn [live points]; try done.
  - split; try done.
    + intros k l M. by apply elem_of_nil in M.
    + intros k. constructor.
  - intros p M. by apply elem_of_nil in M.
  - constructor.
Qed.

Lemma Inv_serves ops : forall s h, Inv s h -> serves grow ops s h.
Proof.
  induction ops as [|o ops IH]; intros s h I; [done|]. intros A. destruct (exec_step s h o I A) as (r & h' & E & F & I').
  exists r, h'. split; [done|]. split; [done|]. split; [split; [apply I'|apply I']|by apply IH].
Qed.

(** C18: a client that keeps the rules cannot tell the point pool from the allocation of
    new objects. The rules: a field is put back only while the client holds it and it is
    in no point, a point only while the client holds it; a point is made of different
    fields that are in no other point; an array that is given to the pool can be encoded;
    values are given by value, not as pointers that the client keeps. Then, whatever was
    put back before and whatever the pools hand out, no operation panics, a field or a
    point from the pool is one that the client does not hold, it has exactly the value of
    a new one, and no operation changes another field or point of the client. What happens
    without the rules: [bad_array_panics], [shared_any_erased]. *)
Theorem pool_refines cap ops : serves grow ops (mkSpec ∅ ∅) (NewReservedCapPointPool cap).
Proof. apply Inv_serves, Inv_new. Qed.
End refines.

(** ** Corner cases *)

(** A checker with a pool loses an unsigned field: the field that replaces it has no key and
    the value 0, because the old one is put back, and so emptied, before it is read. *)
Theorem pooled_u64_lost `{ArrayEnc} grow (grows : forall n, (n < grow n)%nat) lv h l f u c :
  Sound lv (Pools h) h -> lv !! l = Some f -> Val f = Some (Field_U u) ->
  exists r h', pooled_u64 grow l c h = (Ok r, h') /\ view h' r = Some (doNewKV [] (GoInt 0)).
Proof.
  intros S L V. pose proof (snd_live _ _ _ S l f L) as W. unfold view in W.
  destruct (h_fields h !! l) as [g|] eqn:E; [|done]. change (field_view h g = Some f) in W. unfold field_view in W.
  destruct (pf_Val g) as [[x|n|n|s|b|d|[p|]]|] eqn:Ev; cbn in W;
    try (destruct (h_anys h !! p); cbn in W); try discriminate W; injection W as <-; try discriminate V.
  destruct (PutKV_run h l g (PV_U n) E Ev ltac:(done)) as (h1 & v' & R & F & K & B & _).
  destruct (PutKV_ok lv h l _ S L) as (h2 & R' & S' & _). rewrite R in R'. injection R' as <-.
  set (h2 := set_kvpool _ _ h1) in *.
  assert (L2 : h_fields h2 !! l = Some (empty_field (Some (PV_U 0)))).
  { replace (h_fields h2) with (h_fields h1) by (by destruct h1). rewrite F, list_lookup_alter_eq, E. destruct v'; try done. simpl in B. by rewrite B. }
  destruct (GetKV_ok grow grows _ h2 [] (GoInt 0) c S' I) as (r & h3 & R3 & _ & S3 & _).
  exists r, h3. split. { unfold pooled_u64, sbind, sget. rewrite R. fold h2. rewrite L2. exact R3. }
  apply (snd_live _ _ _ S3). by rewrite lookup_insert_eq.
Qed.

(** A client that gives the pool a pointer to an [Any] and puts the field back loses what the
    pointer refers to. *)
Theorem shared_any_erased `{ArrayEnc} grow a :
  exists h, (p <~ lift (alloc_any a) ;; l <~ GetKV grow [] (Ptr (Some p)) None ;; PutKV l) (NewReservedCapPointPool 1) = (Ok tt, h) /\
    h_anys h = [mkAny [] []].
Proof. eexists. split; reflexivity. Qed.

(** An array that cannot be encoded gives a field that cannot be put back. *)
Theorem bad_array_panics `{ArrayEnc} grow a : NewArray a = None ->
  fst ((l <~ GetKV grow [] (Plain (GoArr a)) None ;; PutKV l) (NewReservedCapPointPool 1)) = Err NilPointer.
Proof. intros E. unfold GetKV. rewrite E. reflexivity. Qed.

(** The field of such an array is not the one without a pool: it has the kind of an array. *)
Theorem bad_array_differs `{ArrayEnc} grow key a : NewArray a = None ->
  exists h, GetKV grow key (Plain (GoArr a)) None (NewReservedCapPointPool 1) = (Ok 0%nat, h) /\
    pf_Val <$> h_fields h !! 0%nat = Some (Some (PV_A None)) /\ Val (doNewKV key (GoArr a)) = None.
Proof. intros E. eexists. unfold GetKV, doNewKV, newVal. rewrite E. split_and!; reflexivity. Qed.

(** The counter of puts adds the gets of the array pool: an array that is put back is not
    counted, its next use is. *)
Theorem chanPut_counts_gets `{ArrayEnc} grow a :
  let put := (l <~ GetKV grow [] (Plain (GoPBAny a)) None ;; PutKV l) in
  let h1 := snd (put (NewReservedCapPointPool 1)) in
  let h2 := snd ((put ;;; GetKV grow [] (Plain (GoPBAny a)) None) (NewReservedCapPointPool 1)) in
  chanPut (kvpool h1 KA) = 1 /\ chanPut_total h1 = 0 /\ chanPut_total h2 = 1.
Proof. split_and!; reflexivity. Qed.

(** A run: a field with bytes is put back and used again for other bytes, in a point that is
    put back too. *)
Definition demo_array : ArrayEnc := {| NewArray := fun _ => None; AnyRaw := fun _ => GoNil |}.

Definition demo_ops : list pop :=
  [OGetKV [Byte.x61] (GoBytes [Byte.x01; Byte.x02]) None; OPutKV 0; OGetKV [Byte.x62] (GoBytes [Byte.x03]) None;
   OPoint [Byte.x6e] [0%nat] None; OPut 0; OGetKV [Byte.x63] (GoBytes []) None].

Lemma demo_grows : forall n, (n < S n)%nat.
Proof. lia. Qed.

(** The last field is at the address of the first, with the value of a new field. *)
Lemma pool_refines_witness : exists h, view h 0 = Some (@doNewKV demo_array [Byte.x63] (GoBytes [])).
Proof.
  destruct (@pool_refines demo_array S demo_grows 1 demo_ops I) as (r1 & h1 & E1 & F1 & A1 & W1).
  vm_compute in E1. injection E1 as <- <-.
  destruct W1 as (r2 & h2 & E2 & F2 & A2 & W2); [split; [eexists; reflexivity|intros p pt Q; discriminate Q]|].
  vm_compute in E2. injection E2 as <- <-.
  destruct (W2 I) as (r3 & h3 & E3 & F3 & A3 & W3). vm_compute in E3. injection E3 as <- <-.
  destruct W3 as (r4 & h4 & E4 & F4 & A4 & W4).
  { split; [repeat constructor; by intros Q%elem_of_nil|]. constructor; [|constructor]. split; [eexists; reflexivity|intros p pt Q; discriminate Q]. }
  vm_compute in E4. injection E4 as <- <-.
  destruct W4 as (r5 & h5 & E5 & F5 & A5 & W5); [eexists; reflexivity|]. vm_compute in E5. injection E5 as <- <-.
  destruct (W5 I) as (r6 & h6 & E6 & F6 & [A6 _] & _). vm_compute in E6. injection E6 as <- <-.
  eexists. apply A6. reflexivity.
Defined.
