(* ===== verification/AggrPacket.v ===== *)
(** * Tail sampling: packets and span predicates ([src/aggregate])

    [DataPacket] groups the points of one trace, log or session group.  [Preds] are its
    fields [Pred...] and [...DurationUs]: a summary of the points seen, computed when a
    point is added ([tail-sampling.go]) and merged when packets meet ([timewheel.go]).
    A point is seen through [Get], as the filter package sees it. *)

From S2P Require Import Prelude FilterAst.

Record Preds := mkPreds {
  PredError : bool;
  PredHttpError : bool;
  PredBizError : bool;
  PredTraceKeep : bool;
  MaxSpanDurationUs : Z;
  RootDurationUs : Z;
  MaxNonrootDurationUs : Z;
}.

Definition zero_preds : Preds := mkPreds false false false false 0 0 0.

Record DataPacket := mkPacket {
  GroupIdHash : Z;
  RawGroupId : string;
  Token : string;
  Source : string;
  DataType : string;
  ConfigVersion : Z;
  HasError : bool;
  GroupKey : string;
  PointCount : Z;
  TraceStart : Z;
  TraceEnd : Z;
  PointsPayload : bytes;
  MaxPointTime : Z;
  PayloadCompression : Z;
  preds : Preds;
}.

(** [packetHasSpanPredicates]. *)
Definition packetHasSpanPredicates (p : Preds) : bool :=
  PredError p || PredHttpError p || PredBizError p || PredTraceKeep p ||
  (0 <? MaxSpanDurationUs p) || (0 <? RootDurationUs p) || (0 <? MaxNonrootDurationUs p).

(** ** Compression ([zstd.go]): the codec is a parameter *)

Definition PayloadCompressionNone : Z := 0.
Definition PayloadCompressionZstd : Z := 1.

Definition CompressPointsPayload (EncodeAll : bytes -> bytes) (payload : bytes) : bytes * Z :=
  if zlen payload =? 0 then (payload, PayloadCompressionNone)
  else
    let compressed := EncodeAll payload in
    if zlen payload <=? zlen compressed then (payload, PayloadCompressionNone)
    else (compressed, PayloadCompressionZstd).

Definition DecompressPointsPayload (DecodeAll : bytes -> option bytes) (payload : bytes) (compression : Z)
    : option bytes :=
  if (zlen payload =? 0) || (compression =? PayloadCompressionNone) then Some payload
  else if negb (compression =? PayloadCompressionZstd) then None
  else DecodeAll payload.

(** ** Extraction *)

Definition isdigit (c : Ascii.ascii) : bool :=
  let n := Z.of_N (Ascii.N_of_ascii c) in (48 <=? n) && (n <=? 57).

Definition isHTTPErrorStatus (code : string) : bool :=
  match code with
  | String a (String b (String c EmptyString)) =>
      (let n := Z.of_N (Ascii.N_of_ascii a) in (n =? 52) || (n =? 53)) && isdigit b && isdigit c
  | _ => false
  end.

(** The conversion of a [float64] to [int64]: towards zero; a value out of range gives
    the smallest integer, as on amd64. *)
Definition int64_of_float (f : spec_float) : Z :=
  match f with
  | S754_zero _ => 0
  | S754_finite s m e =>
      let n := if 0 <=? e then Z.shiftl (Z.pos m) e else Z.shiftr (Z.pos m) (- e) in
      let n := if s then - n else n in
      if (- 2 ^ 63 <=? n) && (n <? 2 ^ 63) then n else - 2 ^ 63
  | S754_infinity _ | S754_nan => - 2 ^ 63
  end.

Definition set_flags (e h b k : bool) (p : Preds) : Preds :=
  mkPreds (e || PredError p) (h || PredHttpError p) (b || PredBizError p) (k || PredTraceKeep p)
          (MaxSpanDurationUs p) (RootDurationUs p) (MaxNonrootDurationUs p).

Definition set_durations (m r n : Z) (p : Preds) : Preds :=
  mkPreds (PredError p) (PredHttpError p) (PredBizError p) (PredTraceKeep p) m r n.

(** The flags of one point. *)
Definition is_error (v : option gval) : bool :=
  match v with Some (VStr s) => (s =? "error")%string | _ => false end.
Definition is_http_error (v : option gval) : bool :=
  match v with Some (VStr s) => isHTTPErrorStatus s | _ => false end.
Definition is_biz_error (v : option gval) : bool :=
  match v with Some (VStr s) => negb (s =? "0")%string && negb (s =? "200")%string | _ => false end.
Definition is_keep (v : option gval) : bool :=
  match v with Some (VBool b) => b | _ => false end.

Definition span_duration (v : option gval) : option Z :=
  match v with
  | Some (VInt Kint64 d) => Some d
  | Some (VFloat64 f) => Some (int64_of_float f)
  | _ => None
  end.

(** [applySpanPredicatesWith]. *)
Definition applySpanPredicatesWith (get : KVs) (p : Preds) : Preds :=
  let p := set_flags (is_error (get "status")) (is_http_error (get "http_status_code"))
                     (is_biz_error (get "body_code")) (is_keep (get "trace_keep")) p in
  match span_duration (get "duration") with
  | None => p
  | Some d =>
      let m := if MaxSpanDurationUs p <? d then d else MaxSpanDurationUs p in
      match get "parent_id" with
      | Some (VStr pid) =>
          if (pid =? "0")%string
          then set_durations m (if RootDurationUs p <? d then d else RootDurationUs p) (MaxNonrootDurationUs p) p
          else set_durations m (RootDurationUs p) (if MaxNonrootDurationUs p <? d then d else MaxNonrootDurationUs p) p
      | _ => set_durations m (RootDurationUs p) (MaxNonrootDurationUs p) p
      end
  end.

(** The summary of some points, as [PickTrace] and [ComputeSpanPredicates] build it. *)
Definition summary (spans : list KVs) (p : Preds) : Preds :=
  fold_left (fun p s => applySpanPredicatesWith s p) spans p.

(** [mergeSpanPredicates]. *)
Definition mergeSpanPredicates (dst src : Preds) : Preds :=
  mkPreds (PredError dst || PredError src) (PredHttpError dst || PredHttpError src)
          (PredBizError dst || PredBizError src) (PredTraceKeep dst || PredTraceKeep src)
          (if MaxSpanDurationUs dst <? MaxSpanDurationUs src then MaxSpanDurationUs src else MaxSpanDurationUs dst)
          (if RootDurationUs dst <? RootDurationUs src then RootDurationUs src else RootDurationUs dst)
          (if MaxNonrootDurationUs dst <? MaxNonrootDurationUs src then MaxNonrootDurationUs src
           else MaxNonrootDurationUs dst).

(** ** The merge is the summary of all points *)

Definition nonneg_preds (p : Preds) : Prop :=
  0 <= MaxSpanDurationUs p /\ 0 <= RootDurationUs p /\ 0 <= MaxNonrootDurationUs p.

Lemma if_ltb_max a b : (if a <? b then b else a) = Z.max a b.
Proof. destruct (Z.ltb_spec a b); lia. Qed.

Lemma merge_apply s p q : applySpanPredicatesWith s (mergeSpanPredicates p q)
  = mergeSpanPredicates p (applySpanPredicatesWith s q).
Proof.
  assert (forall a b c : bool, a || (b || c) = b || (a || c)) as Or by (intros [] [] []; done).
  unfold applySpanPredicatesWith, mergeSpanPredicates, set_flags, set_durations. rewrite ?if_ltb_max.
  cbn [PredError PredHttpError PredBizError PredTraceKeep MaxSpanDurationUs RootDurationUs MaxNonrootDurationUs].
  destruct (span_duration (s "duration")) as [d|].
  2:{ cbn. rewrite ?if_ltb_max. f_equal; apply Or. }
  rewrite ?if_ltb_max. destruct (s "parent_id") as [[| | | |pid| | | | |]|]; try destruct (pid =? "0")%string;
    cbn; rewrite ?if_ltb_max; f_equal; try apply Or; lia.
Qed.

Lemma merge_zero p : nonneg_preds p -> mergeSpanPredicates p zero_preds = p.
Proof.
  intros (A & B & C). unfold mergeSpanPredicates. cbn. rewrite ?if_ltb_max, !Z.max_l by done.
  rewrite !orb_false_r. by destruct p.
Qed.

Lemma apply_nonneg s p : nonneg_preds p -> nonneg_preds (applySpanPredicatesWith s p).
Proof.
  intros (A & B & C). unfold nonneg_preds, applySpanPredicatesWith, set_flags, set_durations.
  destruct (span_duration (s "duration")) as [d|]; [|done]. cbn. rewrite ?if_ltb_max.
  destruct (s "parent_id") as [[| | | |pid| | | | |]|]; try destruct (pid =? "0")%string; cbn; lia.
Qed.

Lemma summary_nonneg spans p : nonneg_preds p -> nonneg_preds (summary spans p).
Proof.
  revert p. induction spans as [|s spans IH]; intros p H; [done|]. cbn. by apply IH, apply_nonneg.
Qed.

Lemma summary_merge spans p q : summary spans (mergeSpanPredicates p q) = mergeSpanPredicates p (summary spans q).
Proof.
  revert q. induction spans as [|s spans IH]; intros q; [done|]. cbn. by rewrite merge_apply, IH.
Qed.

Lemma summary_app spans spans' : summary (spans ++ spans') zero_preds
  = mergeSpanPredicates (summary spans zero_preds) (summary spans' zero_preds).
Proof.
  unfold summary at 1. rewrite fold_left_app. fold (summary spans zero_preds).
  fold (summary spans' (summary spans zero_preds)).
  rewrite <- (merge_zero (summary spans zero_preds)) at 1 by by apply summary_nonneg.
  by rewrite summary_merge.
Qed.

(** The predicates of merged packets are those of all their points.  Merging the
    summaries of two packets gives the summary of the points of the first followed by
    those of the second, so it does not matter how the spans of a trace are spread over
    packets. *)
Theorem merge_is_union (spans spans' : list KVs) :
  mergeSpanPredicates (summary spans zero_preds) (summary spans' zero_preds)
  = summary (spans ++ spans') zero_preds.
Proof. symmetry. apply summary_app. Qed.
