(* ===== verification/AggrPred.v ===== *)
(** * Tail sampling: pipelines ([src/aggregate/tail-sampling.go], [pipeline_predicates.go])

    A pipeline decides about a packet.  [evaluatePipelines] walks the points of the
    packet; when every pipeline compiles to predicates over the packet's summary, it
    decides from the summary alone.  A predicate reads only the summary.  Decompression
    and the generated decoder of a point are parameters, regular expressions as in
    [FilterEval].  A nil pointer is [None]. *)

From S2P Require Import Prelude Wire PointKV PointCheck PointNew PointProto FilterAst FilterEval AggrPacket.

Definition PipelineTypeCondition : string := "condition".
Definition PipelineTypeSampling : string := "probabilistic".
Definition PipelineActionKeep : string := "keep".
Definition PipelineActionDrop : string := "drop".
Definition sampleRange : Z := 10000.

Record SamplingPipeline := mkPipeline {
  pl_Name : string;
  pl_Type : string;
  pl_Condition : string;
  pl_Action : string;
  pl_Rate : spec_float;
  conds : option (list (option Node));
}.

(** ** Predicates *)

Abbreviation spanPredicateExpr := (Preds -> bool).

Inductive parent : Set := ParentNone | ParentRoot | ParentNonRoot.

#[export] Instance parent_eq_dec : EqDecision parent.
Proof. solve_decision. Defined.

Record spanPred := mkPred {
  flag : option spanPredicateExpr;
  parentID : parent;
  durationGT : Z;
}.

(** [mergePreds]. *)
Definition merge_flag (a b : option spanPredicateExpr) : option spanPredicateExpr :=
  match a, b with
  | Some fa, Some fb => Some (fun p => fa p && fb p)
  | Some fa, None => Some fa
  | None, _ => b
  end.

Definition mergePreds (a b : spanPred) : option spanPred :=
  let fl := merge_flag (flag a) (flag b) in
  let d := Z.max (durationGT a) (durationGT b) in
  match parentID a, parentID b with
  | ParentNone, p | p, ParentNone => Some (mkPred fl p d)
  | p, q => if decide (p = q) then Some (mkPred fl p d) else None
  end.

(** [spanPred.eval]; [None]: no predicate covers it. *)
Definition pred_eval (p : spanPred) : option spanPredicateExpr :=
  let dur :=
    if 0 <? durationGT p then
      Some (fun q => durationGT p <?
              match parentID p with
              | ParentRoot => RootDurationUs q
              | ParentNonRoot => MaxNonrootDurationUs q
              | ParentNone => MaxSpanDurationUs q
              end)
    else None in
  match flag p, dur with
  | Some f, Some d => Some (fun q => f q && d q)
  | Some f, None => Some f
  | None, d => d
  end.

Definition isHTTPErrorRegex (n : Node) : bool :=
  match n with
  | NodeList [Regex re] =>
      existsb (String.eqb re)
        ["^[45][0-9][0-9]$"; "^4[0-9][0-9]$|^5[0-9][0-9]$"; "^[45]\d\d$"; "^4\d\d$|^5\d\d$";
         "^[45][0-9]{2}$"; "^4[0-9]{2}$|^5[0-9]{2}$"]
  | _ => false
  end.

Definition isBizErrorList (n : Node) : bool :=
  match n with
  | NodeList l =>
      (length l =? 3)%nat &&
      existsb (fun i => match i with StringLiteral v => (v =? "0")%string | _ => false end) l &&
      existsb (fun i => match i with StringLiteral v => (v =? "200")%string | _ => false end) l &&
      existsb (fun i => match i with NilLiteral => true | _ => false end) l
  | _ => false
  end.

Definition flag_only (f : spanPredicateExpr) : option spanPred := Some (mkPred (Some f) ParentNone 0).

(** [compileAtomic]. *)
Definition compileAtomic (op : ItemType) (lhs rhs : option Node) : option spanPred :=
  match lhs, rhs with
  | Some (Identifier name), Some r =>
      if (name =? "status")%string then
        match op, r with
        | EQ, StringLiteral s => if (s =? "error")%string then flag_only PredError else None
        | _, _ => None
        end
      else if (name =? "http_status_code")%string then
        match op with MATCH => if isHTTPErrorRegex r then flag_only PredHttpError else None | _ => None end
      else if (name =? "body_code")%string then
        match op with NOT_IN => if isBizErrorList r then flag_only PredBizError else None | _ => None end
      else if (name =? "trace_keep")%string then
        match op, r with
        | EQ, BoolLiteral true => flag_only PredTraceKeep
        | _, _ => None
        end
      else if (name =? "parent_id")%string then
        match r with
        | StringLiteral s =>
            if (s =? "0")%string then
              match op with
              | EQ => Some (mkPred None ParentRoot 0)
              | NEQ => Some (mkPred None ParentNonRoot 0)
              | _ => None
              end
            else None
        | _ => None
        end
      else if (name =? "duration")%string then
        match op, r with
        | GT, NumberInt n => if 0 <? n then Some (mkPred None ParentNone n) else None
        | _, _ => None
        end
      else None
  | _, _ => None
  end.

(** [compilePred] after [asBinaryExpr], which looks through parentheses.  A tree that
    the parser accepts has no nil [*BinaryExpr] in it. *)
Fixpoint compilePred (n : Node) : option spanPred :=
  match n with
  | ParenExpr (Some p) => compilePred p
  | BinaryExpr AND (Some l) (Some r) =>
      match compilePred l, compilePred r with
      | Some a, Some b => mergePreds a b
      | _, _ => None
      end
  | BinaryExpr OR (Some l) (Some r) =>
      match compilePred l, compilePred r with
      | Some a, Some b =>
          match pred_eval a, pred_eval b with
          | Some le, Some re => flag_only (fun p => le p || re p)
          | _, _ => None
          end
      | _, _ => None
      end
  | BinaryExpr AND _ _ | BinaryExpr OR _ _ => None
  | BinaryExpr op lhs rhs => compileAtomic op lhs rhs
  | _ => None
  end.

(** The loop of [compileWhereCondition]: only binary expressions. *)
Fixpoint compile_conds (l : list Node) (combined : spanPred) : option spanPred :=
  match l with
  | [] => Some combined
  | (BinaryExpr _ _ _ as be) :: l =>
      match compilePred be with
      | None => None
      | Some part => match mergePreds combined part with
                     | None => None
                     | Some m => compile_conds l m
                     end
      end
  | _ :: _ => None
  end.

(** [compileWhereCondition], and the test [expr == nil] of its caller. *)
Definition compileWhereCondition (wc : list Node) : option spanPredicateExpr :=
  match compile_conds wc (mkPred None ParentNone 0) with
  | Some p => pred_eval p
  | None => None
  end.

Definition compile_all (l : list (option Node)) : option (list spanPredicateExpr) :=
  fold_right (fun n acc =>
    match n, acc with
    | Some (WhereCondition wc), Some es =>
        match compileWhereCondition wc with Some e => Some (e :: es) | None => None end
    | _, _ => None
    end) (Some []) l.

Definition pos_rate (r : spec_float) : bool := SFltb (S754_zero false) r.

(** [Rate <= 0]; neither holds of a NaN. *)
Definition nonpos_rate (r : spec_float) : bool := SFleb r (S754_zero false).

Definition isMatchAllSampling (sp : SamplingPipeline) : bool :=
  (pl_Type sp =? PipelineTypeSampling)%string && (pl_Condition sp =? "")%string && pos_rate (pl_Rate sp).

(** [compilePipelinePredicate]. *)
Definition compilePipelinePredicate (pipeline : option SamplingPipeline) : option spanPredicateExpr :=
  match pipeline with
  | None => None
  | Some sp =>
      if isMatchAllSampling sp then Some (fun _ => true)
      else match conds sp with
           | None => None
           | Some l => match compile_all l with
                       | Some es => Some (fun p => existsb (fun e => e p) es)
                       | None => None
                       end
           end
  end.

Definition compilePipelinesFast (pipelines : list (option SamplingPipeline)) : option (list spanPredicateExpr) :=
  fold_right (fun pl acc =>
    match compilePipelinePredicate pl, acc with
    | Some e, Some es => Some (e :: es)
    | _, _ => None
    end) (Some []) pipelines.

(** ** Decisions *)

Definition f64_10000 : spec_float := S754_finite false 5497558138880000 (-39).

(** [uint64(math.Floor(rate * 10000))] for a rate that is not [<= 0]; what has no
    integer part converts to [2^63], as on amd64. *)
Definition threshold (rate : spec_float) : Z :=
  match SFmul 53 1024 rate f64_10000 with
  | S754_finite false m e => if 0 <=? e then Z.shiftl (Z.pos m) e else Z.shiftr (Z.pos m) (- e)
  | S754_finite true _ _ | S754_zero _ => 0
  | S754_infinity _ | S754_nan => 2 ^ 63
  end.

(** [pipelineMatchedPacket]: whether the packet is kept. *)
Definition pipelineMatchedPacket (groupIdHash : Z) (pipeline : option SamplingPipeline) : bool :=
  match pipeline with
  | None => false
  | Some sp =>
      if (pl_Type sp =? PipelineTypeSampling)%string then
        if nonpos_rate (pl_Rate sp) then true
        else groupIdHash mod sampleRange <? threshold (pl_Rate sp)
      else if (pl_Type sp =? PipelineTypeCondition)%string then
        negb (pl_Action sp =? PipelineActionDrop)%string
      else true
  end.

Section Walk.
Context (re_match : string -> string -> bool).

(** [pipelineMatchesPoint]; [None] is a panic of the evaluator. *)
Definition pipelineMatchesPoint (get : FilterAst.KVs) (pipeline : option SamplingPipeline) : option bool :=
  match pipeline with
  | None => Some false
  | Some sp =>
      match conds sp with
      | None => Some (isMatchAllSampling sp && negb ((pl_Type sp =? PipelineTypeSampling)%string && nonpos_rate (pl_Rate sp)))
      | Some l =>
          match WhereConditions_Eval re_match 0 l get with
          | None => None
          | Some x =>
              if x <? 0 then Some false
              else Some (negb ((pl_Type sp =? PipelineTypeSampling)%string && nonpos_rate (pl_Rate sp)))
          end
      end
  end.

(** One point against the pipelines that have not matched yet. *)
Fixpoint match_each (get : FilterAst.KVs) (pls : list (option SamplingPipeline)) (matched : list bool)
    : option (list bool) :=
  match pls, matched with
  | pl :: pls, m :: matched =>
      match (if m then Some true else pipelineMatchesPoint get pl), match_each get pls matched with
      | Some b, Some l => Some (b :: l)
      | _, _ => None
      end
  | _, _ => Some matched
  end.

(** ** Points as the filter sees them *)

(** [ptWrap.Get]; an array is a nil value that is present. *)
Definition val_gval (v : option FieldVal) : gval :=
  match v with
  | Some (Field_F x) => VFloat64 x
  | Some (Field_I x) => VInt Kint64 x
  | Some (Field_U x) => VInt Kuint64 x
  | Some (Field_S x) => VStr (of_bytes x)
  | Some (Field_D x) => VOther "[]uint8" 0
  | Some (Field_B x) => VBool x
  | Some (Field_A _) | None => VNil
  end.

Definition ptWrap_Get (fs : PointKV.KVs) : FilterAst.KVs :=
  fun k => match Get (to_bytes k) fs with Some f => Some (val_gval (Val f)) | None => None end.

(** [ptWrap.Reset]; [None] is an error. *)
Context (pb_Unmarshal : bytes -> option PointKV.KVs).
Context (DecodeAll : bytes -> option bytes).

Definition ptWrap_Reset (raw : bytes) : option PointKV.KVs :=
  match raw with [] => Some [] | _ => pb_Unmarshal raw end.

(** The callback of the walk. *)
Definition match_point (pls : list (option SamplingPipeline)) (raw : bytes) (matched : list bool)
    : visit (list bool) :=
  match ptWrap_Reset raw with
  | None => Halt matched
  | Some fs => match match_each (ptWrap_Get fs) pls matched with
               | Some m => Go m
               | None => Panics PanicTypeAssertion
               end
  end.

(** The first pipeline that has matched decides. *)
Fixpoint first_matched (h : Z) (pls : list (option SamplingPipeline)) (matched : list bool) : bool * bool :=
  match pls, matched with
  | pl :: pls, m :: matched => if m then (true, pipelineMatchedPacket h pl) else first_matched h pls matched
  | _, _ => (false, false)
  end.

(** [payloadHasDecodablePoint]. *)
Definition payloadHasDecodablePoint (payload : bytes) : bool :=
  match WalkPBPointsPayload payload (Some (fun raw (found : bool) =>
          match pb_Unmarshal raw with None => Halt found | Some _ => Halt true end)) false with
  | Ok (found, _) => found
  | Err _ => false
  end.

Definition walk_decides (td : DataPacket) (pls : list (option SamplingPipeline)) : Res panic (bool * bool) :=
  match DecompressPointsPayload DecodeAll (PointsPayload td) (PayloadCompression td) with
  | None => Ok (false, false)
  | Some payload =>
      match WalkPBPointsPayload payload (Some (match_point pls)) (repeat false (length pls)) with
      | Err p => Err p
      | Ok (_, Some _) => Ok (false, false)
      | Ok (matched, None) => Ok (first_matched (GroupIdHash td) pls matched)
      end
  end.

(** [evaluatePipelines]: whether a pipeline matches, and whether it keeps the packet. *)
Definition evaluatePipelines (td : DataPacket) (pls : list (option SamplingPipeline)) : Res panic (bool * bool) :=
  match pls with
  | [] => Ok (false, false)
  | _ =>
      if (0 <? zlen (PointsPayload td)) && packetHasSpanPredicates (preds td) then
        if (PayloadCompression td =? PayloadCompressionNone) && negb (payloadHasDecodablePoint (PointsPayload td)) then Ok (false, false)
        else match compilePipelinesFast pls with
             | Some es => Ok (first_matched (GroupIdHash td) pls ((fun e : spanPredicateExpr => e (preds td)) <$> es))
             | None => walk_decides td pls
             end
      else walk_decides td pls
  end.

(** [decideWithPredicates]. *)
Definition decideWithPredicates (td : DataPacket) (pls : list (option SamplingPipeline)) : bool * bool :=
  match compilePipelinesFast pls with
  | Some es => first_matched (GroupIdHash td) pls ((fun e : spanPredicateExpr => e (preds td)) <$> es)
  | None => (false, false)
  end.

End Walk.

(** ** Configuration *)

(** [normalizeSamplingPipelines]. *)
Definition normalizeSamplingPipelines (pls : list (option SamplingPipeline)) : list (option SamplingPipeline) :=
  filter (fun pl => match pl with
                    | Some sp => negb ((pl_Type sp =? PipelineTypeSampling)%string && nonpos_rate (pl_Rate sp))
                    | None => true
                    end = true) pls.
