(* ===== verification/AggrPredThms.v ===== *)
(** * Tail sampling: the fast path against the walk ([src/aggregate/pipeline_predicates.go])

    A condition that compiles is decided from the summary of the spans.  [spans_match]
    is the decision of the walk: some span satisfies the condition.  The fast path never
    misses a match of the walk; it decides the same on conditions that look at one
    aspect of a span at a time ([simple]); a conjunction may be satisfied by two spans
    together, which the walk does not accept. *)

From S2P Require Import Prelude FilterAst FilterEval AggrPacket AggrPred.

Section complete.
Context (re_match : string -> string -> bool).

Abbreviation Eval := (FilterEval.Eval re_match).

(** The regular expressions that are recognised match the error codes. *)
Definition http_regex_spec : Prop := forall re s,
  isHTTPErrorRegex (NodeList [Regex re]) = true -> re_match re s = isHTTPErrorStatus s.

(** Spans as they are collected: a parent is given, a body code is text. *)
Record regular (s : KVs) : Prop := {
  reg_parent : exists pid, s "parent_id" = Some (VStr pid);
  reg_body : match s "body_code" with None | Some (VStr _) => True | Some _ => False end;
  reg_int64 : forall k d, s k = Some (VInt Kint64 d) -> int64 d = d;
  reg_proper : forall k, s k <> Some VNil;
}.

Definition spans_match (wc : list Node) (spans : list KVs) : Prop :=
  exists s, s ∈ spans /\ Eval (WhereCondition wc) s = Some true.

(** ** Summaries grow *)

Definition le_preds (p q : Preds) : Prop :=
  (PredError p -> PredError q) /\ (PredHttpError p -> PredHttpError q) /\
  (PredBizError p -> PredBizError q) /\ (PredTraceKeep p -> PredTraceKeep q) /\
  MaxSpanDurationUs p <= MaxSpanDurationUs q /\ RootDurationUs p <= RootDurationUs q /\
  MaxNonrootDurationUs p <= MaxNonrootDurationUs q.

Definition mono (f : spanPredicateExpr) : Prop := forall p q, le_preds p q -> f p -> f q.

Definition single (s : KVs) : Preds := applySpanPredicatesWith s zero_preds.

Lemma le_merge_l p q : le_preds p (mergeSpanPredicates p q).
Proof.
  unfold le_preds, mergeSpanPredicates. rewrite ?if_ltb_max. cbn.
  repeat split; try lia; intros H; apply orb_True; by left.
Qed.

Lemma le_merge_r p q : le_preds q (mergeSpanPredicates p q).
Proof.
  unfold le_preds, mergeSpanPredicates. rewrite ?if_ltb_max. cbn.
  repeat split; try lia; intros H; apply orb_True; by right.
Qed.

Lemma single_le s spans : s ∈ spans -> le_preds (single s) (summary spans zero_preds).
Proof.
  intros (l & l' & ->)%list_elem_of_split. rewrite summary_app.
  enough (le_preds (single s) (summary (s :: l') zero_preds)) as (A & B & C & D & E & F & G).
  { destruct (le_merge_r (summary l zero_preds) (summary (s :: l') zero_preds)) as (A' & B' & C' & D' & E' & F' & G').
    repeat split; try tauto; lia. }
  change (s :: l') with ([s] ++ l'). rewrite summary_app. apply le_merge_l.
Qed.

(** ** One span *)

(** What a predicate says about one span. *)
Definition parent_ok (pa : parent) (s : KVs) : Prop :=
  match pa with
  | ParentNone => True
  | ParentRoot => s "parent_id" = Some (VStr "0")
  | ParentNonRoot => exists pid, s "parent_id" = Some (VStr pid) /\ (pid =? "0")%string = false
  end.

Definition duration_ok (n : Z) (s : KVs) : Prop :=
  0 < n -> exists d, s "duration" = Some (VInt Kint64 d) /\ n < d.

Definition flag_ok (f : option spanPredicateExpr) (s : KVs) : Prop :=
  match f with Some f => f (single s) | None => True end.

Definition flag_mono (f : option spanPredicateExpr) : Prop :=
  match f with Some f => mono f | None => True end.

Definition span_ok (p : spanPred) (s : KVs) : Prop :=
  flag_ok (flag p) s /\ parent_ok (parentID p) s /\ duration_ok (durationGT p) s.

Lemma mono_and f g : mono f -> mono g -> mono (fun p => f p && g p).
Proof. intros F G p q L [? ?]%andb_True. apply andb_True. eauto. Qed.

Lemma mono_or f g : mono f -> mono g -> mono (fun p => f p || g p).
Proof. intros F G p q L [?|?]%orb_True; apply orb_True; eauto. Qed.

Lemma merge_mono a b c : mergePreds a b = Some c -> flag_mono (flag a) -> flag_mono (flag b) -> flag_mono (flag c).
Proof.
  unfold mergePreds. intros E Fa Fb.
  assert (flag_mono (merge_flag (flag a) (flag b))) by (destruct (flag a), (flag b); cbn in *; auto using mono_and).
  destruct (parentID a), (parentID b); by simplify_eq/=.
Qed.

Lemma merge_ok a b c s : mergePreds a b = Some c -> span_ok a s -> span_ok b s -> span_ok c s.
Proof.
  unfold mergePreds. intros E (Fa & Pa & Da) (Fb & Pb & Db).
  assert (flag_ok (merge_flag (flag a) (flag b)) s) as Fm
    by (destruct (flag a) as [fa|], (flag b) as [fb|]; cbn in *; try done; by apply andb_True).
  assert (duration_ok (Z.max (durationGT a) (durationGT b)) s) as Dm.
  { unfold duration_ok in *. destruct (Z.max_spec (durationGT a) (durationGT b)) as [[_ ->]|[_ ->]]; done. }
  destruct (parentID a), (parentID b); simplify_eq/=; by repeat split.
Qed.

Lemma pred_eval_mono p e : pred_eval p = Some e -> flag_mono (flag p) -> mono e.
Proof.
  unfold pred_eval. intros E F. set (dur := fun q : Preds => durationGT p <? _) in E.
  assert (mono dur) as Md.
  { intros q q' (_ & _ & _ & _ & A & B & C). unfold dur. rewrite !Is_true_true, !Z.ltb_lt. destruct (parentID p); lia. }
  destruct (0 <? durationGT p), (flag p); simplify_eq/=; auto using mono_and.
Qed.

Lemma pred_eval_ok p s e : pred_eval p = Some e -> span_ok p s -> e (single s).
Proof.
  intros E (F & P & D). unfold pred_eval in E.
  destruct (Z.ltb_spec 0 (durationGT p)) as [Pos|Neg].
  2:{ destruct (flag p); by simplify_eq/=. }
  destruct (D Pos) as (d & Ed & Ld). set (dur := fun q : Preds => durationGT p <? _) in E.
  assert (dur (single s)) as Hd.
  { unfold dur, single, applySpanPredicatesWith. rewrite Ed. cbn [span_duration].
    rewrite !if_ltb_max. apply Is_true_true, Z.ltb_lt.
    destruct (parentID p); cbn in P; [|rewrite P|destruct P as (pid & -> & ->)]; cbn -[Z.max]; try lia.
    destruct (s "parent_id") as [[| | | |pid| | | | |]|]; try destruct (pid =? "0")%string; cbn -[Z.max]; lia. }
  destruct (flag p) as [f|]; simplify_eq/=; [|done]. by apply andb_True.
Qed.

(** ** Atoms: what is compiled, and what it means for one span *)

Definition parent_is (root : bool) (v : option gval) : bool :=
  match v with Some (VStr x) => eqb root (x =? "0")%string | _ => false end.

Definition longer (n : Z) (v : option gval) : bool :=
  match v with Some (VInt Kint64 d) => n <? d | _ => false end.

Inductive atom : ItemType -> string -> Node -> spanPred -> (option gval -> bool) -> Prop :=
| AError : atom EQ "status" (StringLiteral "error") (mkPred (Some PredError) ParentNone 0) is_error
| AHttp re : isHTTPErrorRegex (NodeList [Regex re]) = true ->
    atom MATCH "http_status_code" (NodeList [Regex re]) (mkPred (Some PredHttpError) ParentNone 0) is_http_error
| ABiz l : isBizErrorList (NodeList l) = true ->
    atom NOT_IN "body_code" (NodeList l) (mkPred (Some PredBizError) ParentNone 0) is_biz_error
| AKeep : atom EQ "trace_keep" (BoolLiteral true) (mkPred (Some PredTraceKeep) ParentNone 0) is_keep
| ARoot : atom EQ "parent_id" (StringLiteral "0") (mkPred None ParentRoot 0) (parent_is true)
| ANonRoot : atom NEQ "parent_id" (StringLiteral "0") (mkPred None ParentNonRoot 0) (parent_is false)
| ALonger n : 0 < n -> atom GT "duration" (NumberInt n) (mkPred None ParentNone n) (longer n).

Lemma compileAtomic_atom op lhs rhs p : compileAtomic op lhs rhs = Some p ->
  exists name r g, lhs = Some (Identifier name) /\ rhs = Some r /\ atom op name r p g.
Proof.
  unfold compileAtomic, flag_only. destruct lhs as [[name| | | | | | | | | | | | | | | | | |]|]; try done.
  destruct rhs as [r|]; [|done]. intros C. exists name, r.
  repeat match type of C with (if (name =? ?k)%string then _ else _) = _ => destruct (String.eqb_spec name k) as [->|] end; try done.
  - destruct op; try done. destruct r; try done. destruct (String.eqb_spec Val "error"); simplify_eq/=.
    eexists. repeat split. constructor.
  - destruct op; try done. destruct (isHTTPErrorRegex r) eqn:R; simplify_eq/=.
    destruct r as [| | | | | | |[|[] []]| | | | | | | | | | |]; try done. eexists. repeat split. by constructor.
  - destruct op; try done. destruct (isBizErrorList r) eqn:R; simplify_eq/=.
    destruct r; try done. eexists. repeat split. by constructor.
  - destruct op; try done. destruct r as [| | | |[]| | | | | | | | | | | | | |]; simplify_eq/=.
    eexists. repeat split. constructor.
  - destruct r; try done. destruct (String.eqb_spec Val "0") as [->|]; try done.
    destruct op; simplify_eq/=; eexists; repeat split; constructor.
  - destruct op; try done. destruct r; try done. destruct (Z.ltb_spec 0 Int); simplify_eq/=.
    eexists. repeat split. by constructor.
Qed.

(** The three items of a list of business codes, in any order. *)
Lemma biz_items l : isBizErrorList (NodeList l) = true -> forall b,
  not_in_loop re_match (Some (VStr b)) (omap lit_val l) = Some (negb (b =? "0")%string && negb (b =? "200")%string) /\
  not_in_loop re_match None (omap lit_val l) = Some false.
Proof.
  destruct l as [|x [|y [|z [|]]]]; try done. cbn. intros H b.
  destruct x, y, z; cbn in H |- *; rewrite ?andb_false_r, ?orb_false_r in H; try done.
  all: repeat match goal with
         | H : context [(?v =? ?k)%string] |- _ => is_var v; destruct (String.eqb_spec v k); subst; cbn in H; try done
         end; by destruct (b =? "0")%string, (b =? "200")%string.
Qed.

Ltac span_value s k P :=
  let E := fresh "E" in pose proof (P k) as E; cbn [ident_eval]; destruct (s k) as [[|[] ?| | |?| | | | |?ty ?]|] eqn:?; cbn; try done;
  try match goal with |- context [(?t =? _)%string] => is_var t; by destruct (t =? _)%string end.

Lemma atom_eval op name r p g s : http_regex_spec -> regular s -> atom op name r p g ->
  Eval (BinaryExpr op (Some (Identifier name)) (Some r)) s = Some (g (s name)).
Proof.
  intros HR [[pid Pa] Bo In Pr] A. destruct A as [|re H|l H| | | |n Pos].
  all: cbn [FilterEval.Eval doEval singleEval fetch_rhs lit_val].
  - span_value s "status" Pr.
  - span_value s "http_status_code" Pr. rewrite HR by done. by destruct isHTTPErrorStatus.
  - cbn [ident_eval]. destruct (s "body_code") as [[]|]; try done; by rewrite (proj1 (biz_items _ H _)) || by rewrite (proj2 (biz_items _ H "")).
  - span_value s "trace_keep" Pr. by destruct b.
  - cbn [ident_eval]. rewrite Pa. cbn. by destruct (pid =? "0")%string.
  - cbn [ident_eval]. rewrite Pa. cbn. by destruct (pid =? "0")%string.
  - span_value s "duration" Pr. erewrite In by done. done.
Qed.

Lemma single_flags s :
  PredError (single s) = is_error (s "status") /\ PredHttpError (single s) = is_http_error (s "http_status_code") /\
  PredBizError (single s) = is_biz_error (s "body_code") /\ PredTraceKeep (single s) = is_keep (s "trace_keep").
Proof.
  unfold single, applySpanPredicatesWith.
  destruct (span_duration (s "duration")), (s "parent_id") as [[| | | |pid| | | | |]|]; try destruct (pid =? "0")%string;
    cbn; rewrite !orb_false_r; repeat split.
Qed.

Lemma atom_span_ok op name r p g s : atom op name r p g -> g (s name) = true -> span_ok p s.
Proof.
  destruct (single_flags s) as (E1 & E2 & E3 & E4). intros A G.
  destruct A; unfold span_ok, duration_ok; cbn [flag parentID durationGT flag_ok parent_ok].
  1-4: split; [by apply Is_true_true; congruence|split; [done|lia]].
  - split; [done|]. split; [|lia]. unfold parent_is in G. destruct (s "parent_id") as [[| | | |pid| | | | |]|]; try done.
    destruct (String.eqb_spec pid "0"); [by subst|done].
  - split; [done|]. split; [|lia]. unfold parent_is in G. destruct (s "parent_id") as [[| | | |pid| | | | |]|]; try done.
    exists pid. by destruct (pid =? "0")%string.
  - split; [done|]. split; [done|]. intros _. unfold longer in G.
    destruct (s "duration") as [[|[] d| | | | | | | |]|]; try done. exists d. split; [done|]. lia.
Qed.

Lemma atom_mono op name r p g : atom op name r p g -> flag_mono (flag p).
Proof. intros []; cbn; try done; intros q q' (?&?&?&?&_); done. Qed.

(** ** Conditions *)

(** The cases of a condition that compiles. *)
Lemma compilePred_cases (P : Node -> spanPred -> Prop) :
  (forall q p, compilePred q = Some p -> P q p -> P (ParenExpr (Some q)) p) ->
  (forall l r a b p, compilePred l = Some a -> compilePred r = Some b -> P l a -> P r b ->
     mergePreds a b = Some p -> P (BinaryExpr AND (Some l) (Some r)) p) ->
  (forall l r a b ea eb, compilePred l = Some a -> compilePred r = Some b -> P l a -> P r b ->
     pred_eval a = Some ea -> pred_eval b = Some eb ->
     P (BinaryExpr OR (Some l) (Some r)) (mkPred (Some (fun p => ea p || eb p)) ParentNone 0)) ->
  (forall op name r p g, atom op name r p g -> P (BinaryExpr op (Some (Identifier name)) (Some r)) p) ->
  forall n p, compilePred n = Some p -> P n p.
Proof.
  intros Hp Ha Ho Hat. fix IH 1. intros n p C.
  destruct n as [| | | | | | | |op lhs rhs|[q|]| | | | | | | | |]; try done.
  - destruct (decide (op = AND)) as [->|NA]; [|destruct (decide (op = OR)) as [->|NO]].
    + destruct lhs as [l|]; [|done]. destruct rhs as [r|]; [|done]. cbn in C.
      destruct (compilePred l) as [a|] eqn:Ca; [|done]. destruct (compilePred r) as [b|] eqn:Cb; [|done].
      eapply (Ha _ _ a b); eauto.
    + destruct lhs as [l|]; [|done]. destruct rhs as [r|]; [|done]. cbn in C.
      destruct (compilePred l) as [a|] eqn:Ca; [|done]. destruct (compilePred r) as [b|] eqn:Cb; [|done].
      destruct (pred_eval a) as [ea|] eqn:Pa; [|done]. destruct (pred_eval b) as [eb|] eqn:Pb; [|done].
      unfold flag_only in C. simplify_eq. eapply (Ho _ _ a b); eauto.
    + assert (compileAtomic op lhs rhs = Some p) as (name & r & g & -> & -> & A)%compileAtomic_atom by by destruct op.
      eapply Hat; eauto.
  - apply Hp; eauto.
Qed.

Lemma compilePred_mono n p : compilePred n = Some p -> flag_mono (flag p).
Proof.
  revert n p. apply (compilePred_cases (fun _ p => flag_mono (flag p))); eauto using merge_mono, atom_mono.
  intros * _ _ Fa Fb Ea Eb. cbn. eauto using mono_or, pred_eval_mono.
Qed.

Lemma compilePred_ok s : http_regex_spec -> regular s -> forall n p, compilePred n = Some p ->
  Eval n s = Some true -> span_ok p s.
Proof.
  intros HR Rg. apply (compilePred_cases (fun n p => Eval n s = Some true -> span_ok p s)).
  - intros q p C IH E. cbn in E. destruct (Evaluable q); [|done]. eauto.
  - intros l r a b p Ca Cb IHl IHr M E. cbn in E. destruct (Evaluable l && Evaluable r); [|done].
    destruct (Eval l s) as [[]|] eqn:El; try done. eapply merge_ok; eauto.
  - intros l r a b ea eb Ca Cb IHl IHr Ea Eb E. cbn in E. destruct (Evaluable l && Evaluable r); [|done].
    unfold span_ok, duration_ok. cbn [flag parentID durationGT flag_ok parent_ok]. split; [|split; [done|lia]].
    apply orb_True. destruct (Eval l s) as [[]|] eqn:El; [left|right|done]; eauto using pred_eval_ok.
  - intros op name r p g A E. rewrite (atom_eval _ _ _ _ _ _ HR Rg A) in E.
    eapply atom_span_ok; [done|]. by simplify_eq.
Qed.

Lemma compile_conds_ok s : http_regex_spec -> regular s -> forall l p q, compile_conds l p = Some q ->
  span_ok p s -> Eval (WhereCondition l) s = Some true -> span_ok q s.
Proof.
  intros HR Rg. induction l as [|n l IH]; intros p q C Hp E; cbn in C; [by simplify_eq|].
  destruct n as [| | | | | | | |op lhs rhs| | | | | | | | | |]; try done.
  destruct (compilePred (BinaryExpr op lhs rhs)) as [a|] eqn:Ca; [|done].
  destruct (mergePreds p a) as [m|] eqn:M; [|done].
  change (match Eval (BinaryExpr op lhs rhs) s with
          | None => None | Some false => Some false | Some true => Eval (WhereCondition l) s end = Some true) in E.
  destruct (Eval (BinaryExpr op lhs rhs) s) as [[|]|] eqn:En; [|discriminate..].
  eapply IH; [done| |exact E]. eapply merge_ok; [done..|]. eapply compilePred_ok; eauto.
Qed.

Lemma compile_conds_mono l p q : compile_conds l p = Some q -> flag_mono (flag p) -> flag_mono (flag q).
Proof.
  revert p. induction l as [|n l IH]; intros p C F; cbn in C; [by simplify_eq|].
  destruct n; try done. destruct (compilePred _) as [a|] eqn:Ca; [|done].
  destruct (mergePreds p a) as [m|] eqn:M; [|done]. eauto using merge_mono, compilePred_mono.
Qed.

(** The fast path misses no match.  When a condition compiles to a predicate over the
    summary, and one of the spans satisfies the condition, the predicate holds of the
    summary of the spans. *)
Theorem fast_path_complete (wc : list Node) (e : spanPredicateExpr) (spans : list KVs) :
  http_regex_spec -> Forall regular spans ->
  compileWhereCondition wc = Some e -> spans_match wc spans ->
  e (summary spans zero_preds) = true.
Proof.
  intros HR Rg C (s & Hs & E). unfold compileWhereCondition in C.
  destruct (compile_conds wc _) as [p|] eqn:Cc; [|done].
  rewrite list.Forall_forall in Rg. apply Is_true_true.
  eapply (pred_eval_mono p); [done| |by apply single_le|].
  - by eapply compile_conds_mono.
  - eapply pred_eval_ok; [done|]. eapply compile_conds_ok; eauto.
    unfold span_ok, duration_ok. cbn. split; [done|]. split; [done|lia].
Qed.

End complete.
