(* ===== verification/AggrFast.v ===== *)
(** * Tail sampling: where the fast path decides as the walk does

    [simple] conditions look at one aspect of a span at a time: the flags, the duration,
    the duration of root or of other spans, and disjunctions of these.  On packets whose
    summary is that of their points, pipelines with simple conditions get the same
    decision from the summary as from the walk over the payload. *)

From S2P Require Import Prelude Wire WireThms PointKV PointCheck PointProto PointProtoThms FilterAst FilterEval AggrPacket AggrPred AggrPredThms PointFindings.

Definition is_parent_test (n : Node) : bool :=
  match n with
  | BinaryExpr op l r => match compileAtomic op l r with
                         | Some p => bool_decide (parentID p <> ParentNone)
                         | None => false
                         end
  | _ => false
  end.

Definition is_duration_test (n : Node) : bool :=
  match n with
  | BinaryExpr op l r => match compileAtomic op l r with Some p => 0 <? durationGT p | None => false end
  | _ => false
  end.

Fixpoint simple (n : Node) : bool :=
  match n with
  | ParenExpr (Some q) => simple q
  | BinaryExpr OR (Some l) (Some r) => simple l && simple r
  | BinaryExpr AND (Some l) (Some r) => is_parent_test l && is_duration_test r
  | BinaryExpr op l r => match compileAtomic op l r with
                         | Some p => bool_decide (parentID p = ParentNone)
                         | None => false
                         end
  | _ => false
  end.

(** ** Summaries as disjunctions over the spans *)

(** A duration is not a floating-point number, which only the summary looks at. *)
Definition int_duration (s : KVs) : Prop :=
  match s "duration" with Some (VFloat64 _) => False | _ => True end.

Lemma summary_cons s spans : summary (s :: spans) zero_preds
  = mergeSpanPredicates (single s) (summary spans zero_preds).
Proof. change (s :: spans) with ([s] ++ spans). by rewrite summary_app. Qed.

Lemma summary_flags spans : let p := summary spans zero_preds in
  PredError p = existsb (fun s => is_error (s "status")) spans /\
  PredHttpError p = existsb (fun s => is_http_error (s "http_status_code")) spans /\
  PredBizError p = existsb (fun s => is_biz_error (s "body_code")) spans /\
  PredTraceKeep p = existsb (fun s => is_keep (s "trace_keep")) spans.
Proof.
  cbn zeta. induction spans as [|s spans (A & B & C & D)]; [done|]. rewrite summary_cons.
  cbn [mergeSpanPredicates PredError PredHttpError PredBizError PredTraceKeep existsb].
  destruct (single_flags s) as (-> & -> & -> & ->). by rewrite A, B, C, D.
Qed.

Definition max_of (pa : parent) (p : Preds) : Z :=
  match pa with
  | ParentRoot => RootDurationUs p
  | ParentNonRoot => MaxNonrootDurationUs p
  | ParentNone => MaxSpanDurationUs p
  end.

(** Whether a span is of the kind and longer than [n]. *)
Definition span_longer (pa : parent) (n : Z) (s : KVs) : bool :=
  match pa with
  | ParentNone => true
  | ParentRoot => parent_is true (s "parent_id")
  | ParentNonRoot => parent_is false (s "parent_id")
  end && longer n (s "duration").

Lemma ltb_max n a b : (n <? Z.max a b) = (n <? a) || (n <? b).
Proof.
  destruct (Z.ltb_spec n a), (Z.ltb_spec n b), (Z.ltb_spec n (Z.max a b)); cbn; lia || done.
Qed.

Lemma single_longer pa n s : 0 < n -> int_duration s -> regular s ->
  (n <? max_of pa (single s)) = span_longer pa n s.
Proof.
  intros Pos I [[pid P] _ _ _]. unfold single, applySpanPredicatesWith, span_longer, longer, int_duration in *.
  rewrite P. assert ((n <? 0) = false) as N0 by lia.
  destruct (s "duration") as [[|[] d| | | | | | | |]|]; cbn [span_duration parent_is];
    try (by destruct pa; cbn -[Z.ltb]; rewrite ?andb_false_r).
  rewrite !if_ltb_max. by destruct pa, (pid =? "0")%string; cbn -[Z.max Z.ltb]; rewrite ?ltb_max, N0.
Qed.

Lemma summary_longer pa n spans : 0 < n -> Forall int_duration spans -> Forall regular spans ->
  (n <? max_of pa (summary spans zero_preds)) = existsb (span_longer pa n) spans.
Proof.
  intros Pos I Rg. induction spans as [|s spans IH]; [destruct pa; cbn; lia|].
  apply list.Forall_cons in I as [I1 I]. apply list.Forall_cons in Rg as [R1 Rg].
  rewrite summary_cons. cbn [existsb]. rewrite <- IH, <- single_longer by done.
  unfold mergeSpanPredicates. rewrite !if_ltb_max. by destruct pa; cbn -[Z.max Z.ltb]; rewrite ltb_max.
Qed.

Section exact.
Context (re_match : string -> string -> bool) (HR : http_regex_spec re_match).

Abbreviation Eval := (FilterEval.Eval re_match).

(** What the compiler gives for a simple condition: a predicate that holds of a summary
    exactly when the condition holds of one of the spans. *)
Definition exact (n : Node) : Prop :=
  exists p e g, compilePred n = Some p /\ pred_eval p = Some e /\
    (forall s, regular s -> Eval n s = Some (g s)) /\
    forall spans, Forall int_duration spans -> Forall regular spans ->
      e (summary spans zero_preds) = existsb g spans.

Lemma simple_Evaluable n : simple n = true -> Evaluable n = true.
Proof. by destruct n. Qed.

Lemma atom_exact op name r p g : atom op name r p g -> parentID p = ParentNone ->
  exact (BinaryExpr op (Some (Identifier name)) (Some r)).
Proof.
  intros A N. exists p.
  assert (compilePred (BinaryExpr op (Some (Identifier name)) (Some r)) = Some p) as C.
  { destruct A; try done; cbn -[isHTTPErrorRegex isBizErrorList]; [by rewrite H..|]. by ztest. }
  assert (forall s, regular s -> Eval (BinaryExpr op (Some (Identifier name)) (Some r)) s = Some (g (s name))) as E
    by (intros; by eapply atom_eval).
  destruct A as [|re H|l H| | | |n Pos]; cbn in N; try done; unfold pred_eval; cbn [flag durationGT parentID].
  5: replace (0 <? n) with true by lia.
  1-4: change (0 <? 0) with false.
  all: cbv iota; eexists _, (fun s => _ (s _)); split; [done|]; split; [done|]; split; [exact E|].
  1-4: intros spans _ _; by destruct (summary_flags spans) as (? & ? & ? & ?).
  intros spans I Rg. by rewrite (summary_longer ParentNone).
Qed.

Lemma existsb_or {A} (f g : A -> bool) l : existsb (fun x => f x || g x) l = existsb f l || existsb g l.
Proof. induction l as [|x l IH]; [done|]. cbn. rewrite IH. by destruct (f x), (g x), (existsb f l). Qed.

Lemma or_exact l r : exact l -> exact r -> Evaluable l = true -> Evaluable r = true ->
  exact (BinaryExpr OR (Some l) (Some r)).
Proof.
  intros (p & e & g & C & P & E & X) (p' & e' & g' & C' & P' & E' & X') Vl Vr.
  eexists _, (fun q => e q || e' q), (fun s => g s || g' s). cbn [compilePred]. rewrite C, C', P, P'.
  split; [done|]. split; [done|]. split.
  - intros s Rg. cbn. rewrite Vl, Vr, E, E' by done. cbn. by destruct (g s).
  - intros spans I Rg. by rewrite existsb_or, X, X'.
Qed.

Lemma compile_and l r a b : compilePred l = Some a -> compilePred r = Some b ->
  compilePred (BinaryExpr AND (Some l) (Some r)) = mergePreds a b.
Proof. cbn. by intros -> ->. Qed.

Lemma Eval_and l r s x y : Evaluable l = true -> Evaluable r = true -> Eval l s = Some x -> Eval r s = Some y ->
  Eval (BinaryExpr AND (Some l) (Some r)) s = Some (x && y).
Proof. intros Vl Vr El Er. cbn. rewrite Vl, Vr, El, Er. cbn. by destruct x. Qed.

Lemma and_exact l r : is_parent_test l = true -> is_duration_test r = true ->
  exact (BinaryExpr AND (Some l) (Some r)).
Proof.
  destruct l as [| | | | | | | |op a b| | | | | | | | | |]; try done. intros Tl Tr.
  destruct r as [| | | | | | | |op' a' b'| | | | | | | | | |]; try done. cbn [is_parent_test is_duration_test] in *.
  destruct (compileAtomic op a b) as [p|] eqn:C; [|done].
  destruct (compileAtomic op' a' b') as [p'|] eqn:C'; [|done].
  apply compileAtomic_atom in C as (name & r & g & -> & -> & A).
  apply compileAtomic_atom in C' as (name' & r' & g' & -> & -> & A').
  pose proof (fun s Rg => atom_eval re_match _ _ _ _ _ s HR Rg A) as E.
  pose proof (fun s Rg => atom_eval re_match _ _ _ _ _ s HR Rg A') as E'.
  destruct A' as [| | | | | |n Pos]; try done.
  assert (compilePred (BinaryExpr GT (Some (Identifier "duration")) (Some (NumberInt n))) = Some (mkPred None ParentNone n)) as Cn
    by (cbn; by replace (0 <? n) with true by lia).
  apply bool_decide_eq_true in Tl.
  assert (exists pa, p = mkPred None pa 0 /\ pa <> ParentNone /\ compilePred (BinaryExpr op (Some (Identifier name)) (Some r)) = Some p /\
    forall s, g (s name) && longer n (s "duration") = span_longer pa n s) as (pa & -> & Npa & C & G).
  { destruct A; try done; eexists; done. }
  exists (mkPred None pa n), (fun q => n <? max_of pa q), (span_longer pa n).
  split; [|split; [|split]].
  - rewrite (compile_and _ _ _ _ C Cn). unfold mergePreds. cbn. rewrite Z.max_r by lia. by destruct pa.
  - unfold pred_eval. cbn [flag durationGT parentID]. replace (0 <? n) with true by lia. by destruct pa.
  - intros s Rg. rewrite <- G. by apply Eval_and; [| |apply E|apply E'].
  - intros spans I Rg. by apply summary_longer.
Qed.

Lemma simple_exact n : simple n = true -> exact n.
Proof.
  revert n. fix IH 1. intros n S. destruct n as [| | | | | | | |op l r|[q|]| | | | | | | | |]; try done.
  - destruct (decide (op = AND)) as [->|NA]; [|destruct (decide (op = OR)) as [->|NO]].
    + destruct l as [l|]; [|done]. destruct r as [r|]; [|by destruct l]. apply andb_true_iff in S as [Sl Sr]. by apply and_exact.
    + destruct l as [l|]; [|done]. destruct r as [r|]; [|by destruct l]. apply andb_true_iff in S as [Sl Sr].
      apply or_exact; auto using simple_Evaluable.
    + assert (match compileAtomic op l r with
              | Some p => bool_decide (parentID p = ParentNone) | None => false end = true) as S' by by destruct op.
      destruct (compileAtomic op l r) as [p|] eqn:C; [|done]. apply bool_decide_eq_true in S'.
      apply compileAtomic_atom in C as (name & r' & g & -> & -> & A). by eapply atom_exact.
  - destruct (IH q S) as (p & e & g & C & P & E & X). exists p, e, g. split; [done|]. split; [done|]. split; [|done].
    intros s Rg. cbn. rewrite simple_Evaluable by done. auto.
Qed.

(** ** Pipelines *)

Definition simple_cond (n : option Node) : bool :=
  match n with Some (WhereCondition [BinaryExpr _ _ _ as c]) => simple c | _ => false end.

(** A pipeline that matches everything has no condition; a conditional one that samples
    has a positive rate. *)
Definition simple_pipeline (pl : option SamplingPipeline) : bool :=
  match pl with
  | None => false
  | Some sp =>
      match conds sp with
      | None => isMatchAllSampling sp
      | Some l => negb (isMatchAllSampling sp) && forallb simple_cond l &&
                  negb ((pl_Type sp =? PipelineTypeSampling)%string && nonpos_rate (pl_Rate sp))
      end
  end.

Definition usual (spans : list KVs) : Prop := Forall int_duration spans /\ Forall regular spans.

Lemma compiled_nonneg n p : compilePred n = Some p -> 0 <= durationGT p.
Proof.
  revert n p. apply (compilePred_cases (fun _ p => 0 <= durationGT p)); try done.
  - intros l r a b p _ _ Ha Hb. unfold mergePreds. destruct (parentID a), (parentID b); intros; simplify_eq/=; lia.
  - intros op name r p g []; cbn; lia.
Qed.

Lemma conds_exact l : forallb simple_cond l = true -> exists es g, compile_all l = Some es /\
  (forall idx s, 0 <= idx -> regular s -> exists x, WhereConditions_Eval re_match idx l s = Some x /\ (x <? 0) = negb (g s)) /\
  forall spans, usual spans -> existsb (fun e : spanPredicateExpr => e (summary spans zero_preds)) es = existsb g spans.
Proof.
  induction l as [|n l IH]; intros S.
  { exists [], (fun _ => false). split; [done|]. split; [intros; by exists (-1)|].
    intros spans _. induction spans; done. }
  apply andb_true_iff in S as [Sn S]. destruct (IH S) as (es & g & Ca & Ev & Ex).
  destruct n as [[| | | | | | | | | | | | | | | |[|[| | | | | | | |op a b| | | | | | | | | |] []]| |]|]; try done.
  cbn [simple_cond] in Sn. destruct (simple_exact _ Sn) as (p & e & g1 & C & P & E & X).
  exists (e :: es), (fun s => g1 s || g s). split; [|split].
  - cbn [compile_all fold_right]. fold (compile_all l). rewrite Ca. unfold compileWhereCondition, compile_conds.
    rewrite C. assert (mergePreds (mkPred None ParentNone 0) p = Some p) as -> ; [|by rewrite P].
    apply compiled_nonneg in C. destruct p as [f pa d]. unfold mergePreds. cbn in *. by rewrite Z.max_r.
  - intros idx s Hi Rg. cbn [WhereConditions_Eval].
    assert (Eval (WhereCondition [BinaryExpr op a b]) s = Some (g1 s)) as ->.
    { change (match Eval (BinaryExpr op a b) s with
          | None => None | Some false => Some false | Some true => Some true end = Some (g1 s)). rewrite E by done. by destruct (g1 s). }
    destruct (g1 s); cbn [orb]; [|by apply Ev; [lia|]]. exists idx. split; [done|]. cbn. lia.
  - intros spans [I Rg]. cbn [existsb]. by rewrite existsb_or, X, Ex.
Qed.

Definition point_matches (pl : option SamplingPipeline) (s : KVs) : bool :=
  match pipelineMatchesPoint re_match s pl with Some b => b | None => false end.

Lemma pos_rate_nonpos r : pos_rate r = true -> nonpos_rate r = false.
Proof. by destruct r as [[]|[]| |[] m e]. Qed.

Lemma pipeline_exact pl : simple_pipeline pl = true -> exists e, compilePipelinePredicate pl = Some e /\
  (forall s, regular s -> pipelineMatchesPoint re_match s pl = Some (point_matches pl s)) /\
  forall spans, usual spans -> spans <> [] -> e (summary spans zero_preds) = existsb (point_matches pl) spans.
Proof.
  unfold simple_pipeline, compilePipelinePredicate, point_matches, pipelineMatchesPoint.
  destruct pl as [sp|]; [|done]. destruct (conds sp) as [l|] eqn:Cs.
  - intros [[NM Sl]%andb_true_iff Rt]%andb_true_iff. rewrite (proj1 (negb_true_iff _) NM), Rt.
    destruct (conds_exact l Sl) as (es & g & -> & Ev & Ex). eexists. split; [done|].
    assert (forall s, regular s -> exists x, WhereConditions_Eval re_match 0 l s = Some x /\ (x <? 0) = negb (g s)) as Ev0
      by (intros; by apply Ev).
    split; [intros s (x & -> & ->)%Ev0; by destruct (g s)|].
    intros spans U _. rewrite Ex by done. destruct U as [_ Rg]. induction spans as [|s spans IH]; [done|].
    apply list.Forall_cons in Rg as [R1 Rg]. cbn [existsb]. rewrite <- IH by done.
    destruct (Ev0 s R1) as (x & -> & ->). by destruct (g s).
  - intros M. rewrite M. eexists. split; [done|]. split; [done|]. intros spans _ N. destruct spans as [|s spans]; [done|].
    unfold isMatchAllSampling in M. apply andb_true_iff in M as [[Ty _]%andb_true_iff Rt]. cbn.
    by rewrite Ty, pos_rate_nonpos.
Qed.

Lemma compiled_all pls : forallb simple_pipeline pls = true -> exists es, compilePipelinesFast pls = Some es /\
  forall spans, usual spans -> spans <> [] ->
    (fun e : spanPredicateExpr => e (summary spans zero_preds)) <$> es = (fun pl => existsb (point_matches pl) spans) <$> pls.
Proof.
  induction pls as [|pl pls IH]; [by exists []|]. intros [S1 S]%andb_true_iff.
  destruct (pipeline_exact _ S1) as (e & C & _ & X), (IH S) as (es & Cs & Xs).
  exists (e :: es). cbn [compilePipelinesFast fold_right]. fold (compilePipelinesFast pls). rewrite C, Cs. split; [done|].
  intros spans U N. cbn. by rewrite X, Xs.
Qed.

Lemma match_each_exact s pls (h : option SamplingPipeline -> bool) : forallb simple_pipeline pls = true -> regular s ->
  match_each re_match s pls (h <$> pls) = Some ((fun pl => h pl || point_matches pl s) <$> pls).
Proof.
  intros S Rg. induction pls as [|pl pls IH]; [done|]. apply andb_true_iff in S as [S1 S].
  destruct (pipeline_exact _ S1) as (e & _ & E & _). cbn. rewrite IH, E by done. by destruct (h pl).
Qed.

(** ** Packets *)

Section packet.
Context (pb_Unmarshal : bytes -> option PointKV.KVs) (DecodeAll : bytes -> option bytes).

Definition span_of (p : PBPoint) : KVs := ptWrap_Get (pb_Fields p).

(** The generated decoder reads the fields of a point that was marshalled. *)
Definition decodes (pts : list PBPoint) : Prop := forall p, p ∈ pts ->
  zlen (marshalPoint p []) < 2 ^ 64 /\ pb_Unmarshal (marshalPoint p []) = Some (pb_Fields p).

Lemma payload_msg pts : marshalPoints (Some <$> pts) [] = msg ((fun p => WLen 1 (marshalPoint p [])) <$> pts).
Proof.
  rewrite marshalPoints_msg. cbn [app]. f_equal. induction pts as [|p pts IH]; [done|].
  cbn [fmap list_fmap omap list_omap id]. by rewrite IH, (marshalPoint_msg p []).
Qed.

Lemma payload_ok pts : decodes pts -> Forall wire_ok ((fun p => WLen 1 (marshalPoint p [])) <$> pts).
Proof.
  intros D. apply list.Forall_fmap, list.Forall_forall. intros p Hp. split; [by vm_compute|by apply D].
Qed.

Lemma Reset_point pts p : decodes pts -> p ∈ pts -> ptWrap_Reset pb_Unmarshal (marshalPoint p []) = Some (pb_Fields p).
Proof.
  intros D Hp. unfold ptWrap_Reset. destruct (D p Hp) as [_ E].
  destruct (marshalPoint p []) eqn:M; [|done]. exfalso. rewrite marshalPoint_msg in M.
  unfold point_wires in M. cbn [app] in M. rewrite msg_cons in M. by destruct (wenc _) eqn:W.
Qed.

Lemma walk_matches pls pts : forallb simple_pipeline pls = true -> decodes pts -> Forall regular (span_of <$> pts) ->
  WalkPBPointsPayload (marshalPoints (Some <$> pts) []) (Some (match_point re_match pb_Unmarshal pls)) (repeat false (length pls))
  = Ok ((fun pl => existsb (point_matches pl) (span_of <$> pts)) <$> pls, None).
Proof.
  intros S D Rg. rewrite payload_msg. unfold WalkPBPointsPayload. rewrite fields_msg by by apply payload_ok.
  rewrite <- (app_nil_r (_ <$> pts)).
  edestruct (wires_acc (walk_body (match_point re_match pb_Unmarshal pls)) (fun s => @Ok panic _ (s, @None perr))
    (fun p => WLen 1 (marshalPoint p [])) (fun seen st => st = (fun pl => existsb (point_matches pl) (span_of <$> seen)) <$> pls)
    pts [] ) with (seen := @nil PBPoint) as (fc & st & -> & ->).
  - intros seen p fc st Hp ->. unfold walk_body. rewrite fc_Data_len. cbn [fc_of FieldNum negb].
    change (1 =? 1) with true. cbn [negb]. unfold match_point. rewrite (Reset_point pts) by done.
    change (ptWrap_Get (pb_Fields p)) with (span_of p). rewrite match_each_exact; [|done|].
    2:{ rewrite list.Forall_fmap, list.Forall_forall in Rg. by apply Rg. }
    eexists. split; [done|]. apply list_fmap_ext. intros _ pl _. rewrite fmap_app, existsb_app. cbn [existsb fmap list_fmap].
    by rewrite orb_false_r.
  - clear. induction pls as [|pl pls IH]; [done|]. cbn. by f_equal.
  - done.
Qed.

Lemma decodable pts : decodes pts -> pts <> [] ->
  payloadHasDecodablePoint pb_Unmarshal (marshalPoints (Some <$> pts) []) = true.
Proof.
  intros D N. unfold payloadHasDecodablePoint, WalkPBPointsPayload. rewrite payload_msg, fields_msg by by apply payload_ok.
  destruct pts as [|p pts]; [done|]. cbn [fmap list_fmap wires_loop]. unfold walk_body at 1. rewrite fc_Data_len.
  cbn [fc_of FieldNum]. change (1 =? 1) with true. cbn [negb]. by rewrite (proj2 (D p ltac:(left))).
Qed.

Lemma fast_walk (td : DataPacket) (pls : list (option SamplingPipeline)) (pts : list PBPoint) :
  forallb simple_pipeline pls = true -> decodes pts -> usual (span_of <$> pts) ->
  DecompressPointsPayload DecodeAll (PointsPayload td) (PayloadCompression td) = Some (marshalPoints (Some <$> pts) []) ->
  preds td = summary (span_of <$> pts) zero_preds ->
  evaluatePipelines re_match pb_Unmarshal DecodeAll td pls
  = Ok (first_matched (GroupIdHash td) pls ((fun pl => existsb (point_matches pl) (span_of <$> pts)) <$> pls)) /\
  walk_decides re_match pb_Unmarshal DecodeAll td pls = evaluatePipelines re_match pb_Unmarshal DecodeAll td pls.
Proof.
  intros S D U Pl Pr.
  assert (walk_decides re_match pb_Unmarshal DecodeAll td pls
    = Ok (first_matched (GroupIdHash td) pls ((fun pl => existsb (point_matches pl) (span_of <$> pts)) <$> pls))) as W.
  { unfold walk_decides. rewrite Pl. by rewrite walk_matches by (done || apply U). }
  rewrite W. enough (evaluatePipelines re_match pb_Unmarshal DecodeAll td pls
    = Ok (first_matched (GroupIdHash td) pls ((fun pl => existsb (point_matches pl) (span_of <$> pts)) <$> pls))) by done.
  unfold evaluatePipelines. destruct pls as [|pl0 pls]; [done|]. remember (pl0 :: pls) as l eqn:El.
  destruct ((0 <? zlen (PointsPayload td)) && packetHasSpanPredicates (preds td)) eqn:G; [|done].
  assert (pts <> []) as N.
  { intros ->. apply andb_true_iff in G as [_ G]. by rewrite Pr in G. }
  assert ((PayloadCompression td =? PayloadCompressionNone) && negb (payloadHasDecodablePoint pb_Unmarshal (PointsPayload td)) = false) as ->.
  { destruct (PayloadCompression td =? PayloadCompressionNone) eqn:Cm; [|done]. cbn [andb]. apply negb_false_iff.
    unfold DecompressPointsPayload in Pl. rewrite Cm, orb_true_r in Pl. injection Pl as ->. by rewrite decodable. }
  destruct (compiled_all l S) as (es & -> & X). rewrite Pr, X; [done|done|]. by destruct pts.
Qed.

(** C23: with simple conditions the fast path is the walk. On a packet whose payload,
    compressed or not, holds points that decode and whose spans are usual (a text
    parent_id, a body_code that is text if there is one, no floating-point duration,
    integers of 64 bits, no nil values), and whose summary is that of these points,
    pipelines with simple conditions get the same decision from the summary as from the
    walk over the decoded points: whether one matches, which one, and whether the packet
    is kept. *)
Theorem fast_path_is_walk (td : DataPacket) (pls : list (option SamplingPipeline)) (pts : list PBPoint) :
  forallb simple_pipeline pls = true -> decodes pts -> usual (span_of <$> pts) ->
  DecompressPointsPayload DecodeAll (PointsPayload td) (PayloadCompression td) = Some (marshalPoints (Some <$> pts) []) ->
  preds td = summary (span_of <$> pts) zero_preds ->
  evaluatePipelines re_match pb_Unmarshal DecodeAll td pls
  = Ok (first_matched (GroupIdHash td) pls ((fun pl => existsb (point_matches pl) (span_of <$> pts)) <$> pls)) /\
  walk_decides re_match pb_Unmarshal DecodeAll td pls = evaluatePipelines re_match pb_Unmarshal DecodeAll td pls.
Proof. apply fast_walk. Qed.

End packet.
End exact.

(** * Tail sampling: where the fast path and the walk differ, and concrete packets

    Conjunctions are evaluated on the summary of all spans together: parts of a
    condition that hold of different spans add up, and a test of the parent that stands
    without a duration is not evaluated at all. *)

Definition str_eq (k v : string) : Node := BinaryExpr EQ (Some (Identifier k)) (Some (StringLiteral v)).
Definition int_gt (k : string) (n : Z) : Node := BinaryExpr GT (Some (Identifier k)) (Some (NumberInt n)).
Definition both (l r : Node) : Node := BinaryExpr AND (Some l) (Some r).

Section findings.
Context (re_match : string -> string -> bool) (HR : http_regex_spec re_match).

(** The fast path accepts what no span satisfies.  [{status = "error" and duration > n}]
    is compiled; with one failed span and another that is long, the predicate holds
    although no span is both, so that the walk over the same spans finds no match. *)
Theorem fast_path_mixes_spans (s1 s2 : KVs) (n : Z) : 0 < n ->
  regular s1 -> regular s2 ->
  is_error (s1 "status") = true -> longer n (s1 "duration") = false ->
  is_error (s2 "status") = false -> longer n (s2 "duration") = true ->
  let wc := [both (str_eq "status" "error") (int_gt "duration" n)] in
  (exists e, compileWhereCondition wc = Some e /\ e (summary [s1; s2] zero_preds) = true) /\
  ~ spans_match re_match wc [s1; s2].
Proof.
  intros Pos R1 R2 E1 L1 E2 L2 wc. unfold wc, both, str_eq, int_gt. split.
  - unfold compileWhereCondition, compile_conds. cbn [compilePred compileAtomic String.eqb Ascii.eqb Bool.eqb].
    replace (0 <? n) with true by lia. unfold flag_only, mergePreds. cbn [parentID flag merge_flag durationGT].
    rewrite !Z.max_r by lia. unfold pred_eval. cbn [flag durationGT parentID]. replace (0 <? n) with true by lia.
    eexists. split; [done|]. cbv beta. destruct (summary_flags [s1; s2]) as (-> & _). cbn [existsb]. rewrite E1.
    destruct (single_le s2 [s1; s2] ltac:(right; left)) as (_ & _ & _ & _ & M & _). apply Z.ltb_lt.
    enough (n < MaxSpanDurationUs (single s2)) by lia. unfold longer in L2.
    destruct (s2 "duration") as [[|[] d| | | | | | | |]|] eqn:D; try done.
    unfold single, applySpanPredicatesWith. rewrite D. cbn [span_duration]. rewrite !if_ltb_max.
    destruct (s2 "parent_id") as [[| | | |pid| | | | |]|]; try destruct (pid =? "0")%string; cbn -[Z.max]; lia.
  - intros (s & Hs & E).
    assert (forall s, regular s -> FilterEval.Eval re_match (WhereCondition wc) s
      = Some (is_error (s "status") && longer n (s "duration"))) as Ev.
    { intros x Rx. unfold wc, both, str_eq, int_gt.
      assert (FilterEval.Eval re_match (both (str_eq "status" "error") (int_gt "duration" n)) x
        = Some (is_error (x "status") && longer n (x "duration"))) as E'.
      { apply Eval_and; [done..|apply (atom_eval re_match _ _ _ _ _ x HR Rx AError)|
          apply (atom_eval re_match _ _ _ _ _ x HR Rx (ALonger n Pos))]. }
      change (match FilterEval.Eval re_match (both (str_eq "status" "error") (int_gt "duration" n)) x with
          | None => None | Some false => Some false | Some true => Some true end
        = Some (is_error (x "status") && longer n (x "duration"))).
      rewrite E'. by destruct (_ && _). }
    apply elem_of_cons in Hs as [->|Hs]; [|apply list_elem_of_singleton in Hs as ->];
      rewrite Ev in E by done; rewrite ?L1, ?E2, ?andb_false_r in E; done.
Qed.

(** A test of the parent without a duration is forgotten.  [{status = "error" and
    parent_id = "0"}], a failed root span, compiles to the predicate that some span failed. *)
Theorem parent_test_forgotten : exists e,
  compileWhereCondition [both (str_eq "status" "error") (str_eq "parent_id" "0")] = Some e /\
  forall p, e p = PredError p.
Proof. eexists. split; [reflexivity|]. done. Qed.

End findings.

(** ** Concrete packets *)

Definition known_regexes (re s : string) : bool :=
  isHTTPErrorRegex (NodeList [Regex re]) && isHTTPErrorStatus s.

Lemma known_regexes_spec : http_regex_spec known_regexes.
Proof. intros re s H. unfold known_regexes. by rewrite H. Qed.

Definition kv (k : string) (v : FieldVal) : Field := mkField (to_bytes k) (Some v) false 0 [] [].
Definition span (pid status : string) (d : Z) : PBPoint :=
  mkPB (to_bytes "ddtrace") [kv "parent_id" (Field_S (to_bytes pid)); kv "status" (Field_S (to_bytes status)); kv "duration" (Field_I d)] 1 [] [].

Definition root_span : PBPoint := span "0" "ok" 5000000.
Definition child_span : PBPoint := span "a1" "error" 40.

Definition read_fields (raw : bytes) : option PointKV.KVs :=
  match unmarshalPoint id 0 None raw with Ok (_, p) => Some (pb_Fields p) | Err _ => None end.

Definition trace : DataPacket :=
  mkPacket 1234 "t1" "tkn" "ddtrace" "tracing" 1 true "trace_id" 2 0 0
    (marshalPoints (Some <$> [root_span; child_span]) []) 1 PayloadCompressionNone
    (summary (span_of <$> [root_span; child_span]) zero_preds).

Definition slow_root : SamplingPipeline :=
  mkPipeline "slow root" PipelineTypeCondition "{parent_id = '0' and duration > 6000000}" PipelineActionKeep (S754_zero false)
    (Some [Some (WhereCondition [both (str_eq "parent_id" "0") (int_gt "duration" 6000000)])]).
Definition failed : SamplingPipeline :=
  mkPipeline "failed" PipelineTypeCondition "{status = 'error'}" PipelineActionKeep (S754_zero false)
    (Some [Some (WhereCondition [str_eq "status" "error"])]).

Lemma trace_decodes : decodes read_fields [root_span; child_span].
Proof.
  intros p Hp. apply elem_of_cons in Hp as [->|Hp]; [|apply list_elem_of_singleton in Hp as ->];
    split; by vm_compute.
Qed.

Lemma Get_cons_name {A} k a (x y : A) :
  (if decide (to_bytes a = to_bytes k) then x else y) = if (k =? a)%string then x else y.
Proof.
  destruct (String.eqb_spec k a) as [->|N]; [by rewrite decide_True|]. rewrite decide_False; [done|].
  intros E. apply N. by rewrite <- (of_to_bytes k), <- E, of_to_bytes.
Qed.

Lemma span_cases pid status d k : span_of (span pid status d) k
  = if (k =? "parent_id")%string then Some (VStr pid)
    else if (k =? "status")%string then Some (VStr status)
    else if (k =? "duration")%string then Some (VInt Kint64 d) else None.
Proof.
  unfold span_of, ptWrap_Get, span, kv. cbn [pb_Fields Get Key].
  rewrite !(Get_cons_name k). repeat case_match; simplify_eq/=; by rewrite ?of_to_bytes.
Qed.

Lemma span_usual pid status d : int64 d = d -> int_duration (span_of (span pid status d)) /\ regular (span_of (span pid status d)).
Proof.
  intros Hd. unfold int_duration. rewrite span_cases. split; [done|]. split.
  - exists pid. by rewrite span_cases.
  - by rewrite span_cases.
  - intros k x. rewrite span_cases. repeat case_match; intros; by simplify_eq.
  - intros k. rewrite span_cases. by repeat case_match.
Qed.

Lemma trace_usual : usual (span_of <$> [root_span; child_span]).
Proof. split; repeat constructor; by apply span_usual. Qed.

(** The premises hold of the trace, which the second pipeline keeps. *)
Lemma fast_path_is_walk_witness :
  evaluatePipelines known_regexes read_fields Some trace [Some slow_root; Some failed] = Ok (true, true) /\
  walk_decides known_regexes read_fields Some trace [Some slow_root; Some failed] = Ok (true, true).
Proof.
  destruct (fast_path_is_walk known_regexes known_regexes_spec read_fields Some trace [Some slow_root; Some failed]
    [root_span; child_span] eq_refl trace_decodes trace_usual eq_refl eq_refl) as [A ->].
  split; rewrite A; by vm_compute.
Defined.

Lemma fast_path_complete_witness :
  PredError (summary (span_of <$> [root_span; child_span]) zero_preds) = true.
Proof.
  apply (fast_path_complete known_regexes [str_eq "status" "error"] PredError (span_of <$> [root_span; child_span]));
    [exact known_regexes_spec|apply trace_usual|reflexivity|].
  exists (span_of child_span). split; [right; left|by vm_compute].
Defined.

Lemma fast_path_mixes_spans_witness :
  ~ spans_match known_regexes [both (str_eq "status" "error") (int_gt "duration" 1000)] (span_of <$> [child_span; root_span]).
Proof.
  apply (fast_path_mixes_spans known_regexes known_regexes_spec (span_of child_span) (span_of root_span) 1000);
    [lia|by apply span_usual|by apply span_usual|by vm_compute..].
Defined.
