(* ===== verification/AggrConfig.v ===== *)
(** * Tail sampling: configurations ([src/aggregate/tail-sampling.go], [timewheel.go], [tail_sampling_processor.go])

    [Init] normalises and validates a configuration in place; its errors are values.  The
    parser of conditions is a parameter: [GetConds] gives the condition list of a text, or
    an error.  Durations are nanoseconds.  The derived metrics, which are refused, are
    kept as their names.  The groups of logs and of sessions have the same form. *)

From S2P Require Import Prelude GoNum FilterAst AggrPacket AggrPred.

Definition STracing : string := "tracing".
Definition SLogging : string := "logging".
Definition SRUM : string := "rum".

Definition Second : Z := 1000000000.
Definition Minute : Z := 60 * Second.

Record BuiltinMetricCfg := mkBuiltin { bm_Name : string; bm_Enabled : bool }.

(** [LoggingGroupDimension] and [RUMGroupDimension]. *)
Record GroupDimension := mkDim {
  gd_GroupKey : string;
  gd_Pipelines : list (option SamplingPipeline);
  gd_DerivedMetrics : list string;
}.

Record TraceTailSampling := mkTrace {
  tr_DataTTL : Z;
  tr_DerivedMetrics : list string;
  tr_BuiltinMetrics : list (option BuiltinMetricCfg);
  tr_Pipelines : list (option SamplingPipeline);
  tr_GroupKey : string;
}.

(** [LoggingTailSampling] and [RUMTailSampling]. *)
Record GroupTailSampling := mkGroups {
  gr_DataTTL : Z;
  gr_BuiltinMetrics : list (option BuiltinMetricCfg);
  gr_GroupDimensions : list (option GroupDimension);
}.

Record TailSamplingConfigs := mkConfigs {
  Tracing : option TraceTailSampling;
  Logging : option GroupTailSampling;
  RUM : option GroupTailSampling;
  Version : Z;
}.

(** ** Built-in metrics *)

Definition traceBuiltinMetricNames : list string :=
  ["trace_total_count"; "trace_kept_count"; "trace_dropped_count"; "trace_error_count"; "span_total_count"; "trace_duration"].
Definition loggingBuiltinMetricNames : list string :=
  ["logging_total_count"; "logging_error_count"; "logging_kept_count"; "logging_dropped_count"].
Definition rumBuiltinMetricNames : list string := ["rum_total_count"; "rum_kept_count"; "rum_dropped_count"].

Definition names_of (cfgs : list (option BuiltinMetricCfg)) : list string :=
  omap (fun c => match c with
                 | Some c => if (bm_Name c =? "")%string then None else Some (bm_Name c)
                 | None => None
                 end) cfgs.

(** [initBuiltinMetricCfgs]: the missing names are appended, enabled. *)
Definition initBuiltinMetricCfgs (cfgs : list (option BuiltinMetricCfg)) (defaults : list string)
    : list (option BuiltinMetricCfg) :=
  match defaults with
  | [] => cfgs
  | _ =>
      match cfgs with
      | [] => (fun n => Some (mkBuiltin n true)) <$> defaults
      | _ =>
          let set := names_of cfgs in
          cfgs ++ ((fun n => Some (mkBuiltin n true)) <$> List.filter (fun n => negb (existsb (String.eqb n) set)) defaults)
      end
  end.

(** The first configuration with the name decides; a metric that is not listed is on. *)
Fixpoint builtin_enabled (cfgs : list (option BuiltinMetricCfg)) (name : string) : bool :=
  match cfgs with
  | [] => true
  | None :: l => builtin_enabled l name
  | Some c :: l => if (bm_Name c =? name)%string then bm_Enabled c else builtin_enabled l name
  end.

(** ** Validation *)

Inductive pl_err : Set := PipelineNil | InvalidAction | InvalidRate | InvalidType | InvalidCondition.

Inductive cfg_err : Set :=
| InvalidGroupKey (k : string)
| TracePipeline (e : pl_err)
| DerivedUnsupported (key : string)
| GroupNil (idx : nat)
| GroupKeyMissing (idx : nat)
| GroupPipeline (key : string) (e : pl_err).

Section Init.
Context (GetConds : string -> option (list (option Node))).

Definition set_conds (c : option (list (option Node))) (sp : SamplingPipeline) : SamplingPipeline :=
  mkPipeline (pl_Name sp) (pl_Type sp) (pl_Condition sp) (pl_Action sp) (pl_Rate sp) c.

(** [SamplingPipeline.Apply]. *)
Definition Apply (sp : SamplingPipeline) : SamplingPipeline * bool :=
  if (pl_Condition sp =? "")%string then (set_conds None sp, true)
  else match GetConds (pl_Condition sp) with
       | None => (sp, false)
       | Some ast => (set_conds (Some ast) sp, true)
       end.

Definition f64_one : spec_float := S754_finite false 4503599627370496 (-52).

(** [validateSamplingPipeline]: the pipeline with its conditions, and the error. *)
Definition validateSamplingPipeline (pl : option SamplingPipeline) : option SamplingPipeline * option pl_err :=
  match pl with
  | None => (None, Some PipelineNil)
  | Some sp =>
      let conditions :=
        if (pl_Condition sp =? "")%string then (Some (set_conds None sp), None)
        else match Apply sp with
             | (sp, true) => (Some sp, None)
             | (sp, false) => (Some sp, Some InvalidCondition)
             end in
      if (pl_Type sp =? PipelineTypeCondition)%string then
        if negb (pl_Action sp =? PipelineActionKeep)%string && negb (pl_Action sp =? PipelineActionDrop)%string
        then (Some sp, Some InvalidAction) else conditions
      else if (pl_Type sp =? PipelineTypeSampling)%string then
        if SFltb (pl_Rate sp) (S754_zero false) || SFltb f64_one (pl_Rate sp)
        then (Some sp, Some InvalidRate) else conditions
      else (Some sp, Some InvalidType)
  end.

Definition validate_all (wrap : pl_err -> cfg_err) (pls : list (option SamplingPipeline))
    : list (option SamplingPipeline) * list cfg_err :=
  let r := validateSamplingPipeline <$> pls in
  (fst <$> r, omap (fun x => wrap <$> snd x) r).

(** [if ttl == 0 { ttl = d }] *)
Definition default_ttl (ttl d : Z) : Z := if ttl =? 0 then d else ttl.

Definition init_trace (t : TraceTailSampling) : TraceTailSampling * list cfg_err :=
  let '(pls, errs) := validate_all TracePipeline (normalizeSamplingPipelines (tr_Pipelines t)) in
  let key_errs := if (tr_GroupKey t =? "")%string || (tr_GroupKey t =? "trace_id")%string then [] else [InvalidGroupKey (tr_GroupKey t)] in
  let derived := match tr_DerivedMetrics t with [] => [] | _ => [DerivedUnsupported "trace"] end in
  (mkTrace (default_ttl (tr_DataTTL t) (5 * Minute)) (tr_DerivedMetrics t)
     (initBuiltinMetricCfgs (tr_BuiltinMetrics t) traceBuiltinMetricNames) pls
     (if (tr_GroupKey t =? "")%string then "trace_id" else tr_GroupKey t),
   key_errs ++ errs ++ derived).

Definition init_dim (idx : nat) (g : option GroupDimension) : option GroupDimension * list cfg_err :=
  match g with
  | None => (None, [GroupNil idx])
  | Some g =>
      let '(pls, errs) := validate_all (GroupPipeline (gd_GroupKey g)) (normalizeSamplingPipelines (gd_Pipelines g)) in
      (Some (mkDim (gd_GroupKey g) pls (gd_DerivedMetrics g)),
       (if (gd_GroupKey g =? "")%string then [GroupKeyMissing idx] else []) ++ errs ++
       match gd_DerivedMetrics g with [] => [] | _ => [DerivedUnsupported (gd_GroupKey g)] end)
  end.

Definition init_groups (defaults : list string) (t : GroupTailSampling) : GroupTailSampling * list cfg_err :=
  let r := imap init_dim (gr_GroupDimensions t) in
  (mkGroups (default_ttl (gr_DataTTL t) Minute) (initBuiltinMetricCfgs (gr_BuiltinMetrics t) defaults) (fst <$> r),
   concat (snd <$> r)).

Definition init_opt {A} (f : A -> A * list cfg_err) (o : option A) : option A * list cfg_err :=
  match o with Some x => let '(x, e) := f x in (Some x, e) | None => (None, []) end.

(** [TailSamplingConfigs.Init]: the configuration is changed even when it is refused. *)
Definition Init (t : TailSamplingConfigs) : TailSamplingConfigs * list cfg_err :=
  let '(tr, e1) := init_opt init_trace (Tracing t) in
  let '(lg, e2) := init_opt (init_groups loggingBuiltinMetricNames) (Logging t) in
  let '(ru, e3) := init_opt (init_groups rumBuiltinMetricNames) (RUM t) in
  (mkConfigs tr lg ru (Version t), e1 ++ e2 ++ e3).

(** ** The configurations of a sampler *)

Abbreviation configMap := (gmap string TailSamplingConfigs).

Definition wait_ttl (wait : Z) (t : TailSamplingConfigs) : TailSamplingConfigs :=
  mkConfigs ((fun x => mkTrace (default_ttl (tr_DataTTL x) wait) (tr_DerivedMetrics x) (tr_BuiltinMetrics x) (tr_Pipelines x) (tr_GroupKey x)) <$> Tracing t)
    ((fun x => mkGroups (default_ttl (gr_DataTTL x) wait) (gr_BuiltinMetrics x) (gr_GroupDimensions x)) <$> Logging t)
    ((fun x => mkGroups (default_ttl (gr_DataTTL x) wait) (gr_BuiltinMetrics x) (gr_GroupDimensions x)) <$> RUM t)
    (Version t).

(** [GlobalSampler.UpdateConfig]: the configurations and the errors. *)
Definition UpdateConfig (wait : Z) (token : string) (ts : option TailSamplingConfigs) (m : configMap)
    : configMap * list cfg_err :=
  match ts with
  | None => (m, [])
  | Some ts =>
      let ts := wait_ttl wait ts in
      let store := match Init ts with
                   | (ts, []) => (<[token := ts]> m, [])
                   | (_, errs) => (m, errs)
                   end in
      match m !! token with
      | None => store
      | Some old => if Version old =? Version ts then (m, []) else store
      end
  end.

End Init.

Definition GetTraceConfig (m : gmap string TailSamplingConfigs) (token : string) : option TraceTailSampling :=
  match m !! token with Some c => Tracing c | None => None end.
Definition GetLoggingConfig (m : gmap string TailSamplingConfigs) (token : string) : option GroupTailSampling :=
  match m !! token with Some c => Logging c | None => None end.
Definition GetRUMConfig (m : gmap string TailSamplingConfigs) (token : string) : option GroupTailSampling :=
  match m !! token with Some c => RUM c | None => None end.

(** The pipelines of the first dimension with the key. *)
Fixpoint dim_pipelines (dims : list (option GroupDimension)) (key : string) : list (option SamplingPipeline) :=
  match dims with
  | [] => []
  | Some g :: l => if (gd_GroupKey g =? key)%string then gd_Pipelines g else dim_pipelines l key
  | None :: l => dim_pipelines l key
  end.

(** [pipelinesFor]; a nil slice is the empty list. *)
Definition pipelinesFor (m : gmap string TailSamplingConfigs) (dataType token groupKey : string)
    : list (option SamplingPipeline) :=
  if (dataType =? STracing)%string then
    match GetTraceConfig m token with Some c => tr_Pipelines c | None => [] end
  else if (dataType =? SLogging)%string then
    match GetLoggingConfig m token with Some c => dim_pipelines (gr_GroupDimensions c) groupKey | None => [] end
  else if (dataType =? SRUM)%string then
    match GetRUMConfig m token with Some c => dim_pipelines (gr_GroupDimensions c) groupKey | None => [] end
  else [].

(** [isBuiltinMetricEnabled]. *)
Definition isBuiltinMetricEnabled (m : gmap string TailSamplingConfigs) (token dataType metricName : string) : bool :=
  if (dataType =? STracing)%string then
    match GetTraceConfig m token with Some c => builtin_enabled (tr_BuiltinMetrics c) metricName | None => true end
  else if (dataType =? SLogging)%string then
    match GetLoggingConfig m token with Some c => builtin_enabled (gr_BuiltinMetrics c) metricName | None => true end
  else if (dataType =? SRUM)%string then
    match GetRUMConfig m token with Some c => builtin_enabled (gr_BuiltinMetrics c) metricName | None => true end
  else true.

(** * Tail sampling: the configurations of a sampler stay well formed *)

Section valid.
Context (GetConds : string -> option (list (option Node))).

(** A rate above 0 and at most 1, or NaN. *)
Definition rate_ok (r : spec_float) : Prop := isNaN r = true \/ (SFltb (S754_zero false) r = true /\ SFleb r f64_one = true).

Lemma checked_rate r : nonpos_rate r = false -> SFltb f64_one r = false -> rate_ok r.
Proof.
  intros [N|[|L]]%SFleb_false [|[N'|U]]%SFltb_false; try done; [by left..|by right].
Qed.

(** A pipeline that a sampler may use: typed, with its conditions parsed. *)
Record valid_pipeline (sp : SamplingPipeline) : Prop := {
  vp_type : (pl_Type sp = PipelineTypeCondition /\ (pl_Action sp = PipelineActionKeep \/ pl_Action sp = PipelineActionDrop)) \/
            (pl_Type sp = PipelineTypeSampling /\ rate_ok (pl_Rate sp));
  vp_conds : if (pl_Condition sp =? "")%string then conds sp = None
             else conds sp = GetConds (pl_Condition sp) /\ conds sp <> None;
}.

Definition valid_pipelines (pls : list (option SamplingPipeline)) : Prop :=
  Forall (fun pl => exists sp, pl = Some sp /\ valid_pipeline sp) pls.

Definition valid_dim (g : option GroupDimension) : Prop :=
  exists d, g = Some d /\ gd_GroupKey d <> "" /\ valid_pipelines (gd_Pipelines d) /\ gd_DerivedMetrics d = [].

Definition covers (cfgs : list (option BuiltinMetricCfg)) (defaults : list string) : Prop :=
  Forall (fun n => n ∈ names_of cfgs) defaults.

Definition valid_trace (t : TraceTailSampling) : Prop :=
  tr_DataTTL t <> 0 /\ tr_GroupKey t = "trace_id" /\ valid_pipelines (tr_Pipelines t) /\
  tr_DerivedMetrics t = [] /\ covers (tr_BuiltinMetrics t) traceBuiltinMetricNames.

Definition valid_groups (defaults : list string) (t : GroupTailSampling) : Prop :=
  gr_DataTTL t <> 0 /\ Forall valid_dim (gr_GroupDimensions t) /\ covers (gr_BuiltinMetrics t) defaults.

Definition on_some {A} (P : A -> Prop) (o : option A) : Prop :=
  match o with Some x => P x | None => True end.

Definition valid_configs (t : TailSamplingConfigs) : Prop :=
  on_some valid_trace (Tracing t) /\ on_some (valid_groups loggingBuiltinMetricNames) (Logging t) /\
  on_some (valid_groups rumBuiltinMetricNames) (RUM t).

(** ** Parts *)

Lemma validate_valid sp pl' : (pl_Type sp = PipelineTypeSampling -> nonpos_rate (pl_Rate sp) = false) ->
  validateSamplingPipeline GetConds (Some sp) = (pl', None) -> exists sp', pl' = Some sp' /\ valid_pipeline sp'.
Proof.
  intros Nm V. unfold validateSamplingPipeline, Apply in V.
  assert (forall r, (if (pl_Condition sp =? "")%string then (Some (set_conds None sp), None)
        else match (if (pl_Condition sp =? "")%string then (set_conds None sp, true)
          else match GetConds (pl_Condition sp) with None => (sp, false) | Some ast => (set_conds (Some ast) sp, true) end) with
             | (sp, true) => (Some sp, None)
             | (sp, false) => (Some sp, Some InvalidCondition)
             end) = (r, None) ->
     exists c, r = Some (set_conds c sp) /\ if (pl_Condition sp =? "")%string then c = None
             else c = GetConds (pl_Condition sp) /\ c <> None) as Cs.
  { intros r. destruct (pl_Condition sp =? "")%string; [intros; simplify_eq; eauto|].
    destruct (GetConds _) as [ast|]; intros; simplify_eq. eauto. }
  destruct (String.eqb_spec (pl_Type sp) PipelineTypeCondition) as [Ty|_].
  - destruct (negb _ && negb _) eqn:Ac; [by simplify_eq|]. apply Cs in V as (c & -> & Hc). eexists. split; [done|].
    split; [left; split; [done|]|done]. cbn [pl_Action set_conds].
    destruct (String.eqb_spec (pl_Action sp) PipelineActionKeep), (String.eqb_spec (pl_Action sp) PipelineActionDrop); auto. done.
  - destruct (String.eqb_spec (pl_Type sp) PipelineTypeSampling) as [Ty|_]; [|by simplify_eq].
    destruct (SFltb _ _ || SFltb _ _) eqn:Rt; [by simplify_eq|]. apply Cs in V as (c & -> & Hc). eexists. split; [done|].
    apply orb_false_iff in Rt as [_ Rt]. split; [right|done]. split; [done|]. apply checked_rate; [by apply Nm|done].
Qed.

Lemma validate_all_valid wrap pls pls' : validate_all GetConds wrap (normalizeSamplingPipelines pls) = (pls', []) ->
  valid_pipelines pls'.
Proof.
  unfold validate_all, normalizeSamplingPipelines. revert pls'. induction pls as [|pl pls IH]; intros pls' E.
  { cbn in E. simplify_eq. by apply list.Forall_nil. }
  rewrite filter_cons in E. case_decide as D; [|by apply IH].
  cbn [fmap list_fmap omap list_omap] in E. injection E as <- E.
  destruct (validateSamplingPipeline GetConds pl) as [pl' [e|]] eqn:V; cbn in E; [done|].
  apply list.Forall_cons. split; [|apply IH; by f_equal]. cbn [fst].
  destruct pl as [sp|]; [|done]. eapply validate_valid; [|done].
  intros Ty. rewrite Ty in D. cbn in D. by destruct (nonpos_rate (pl_Rate sp)).
Qed.

Lemma initBuiltin_covers cfgs defaults : Forall (fun n => n <> "") defaults ->
  covers (initBuiltinMetricCfgs cfgs defaults) defaults.
Proof.
  intros Ne. unfold covers, initBuiltinMetricCfgs. apply list.Forall_forall. intros n Hn.
  assert (forall l, n ∈ l -> n ∈ names_of ((fun n => Some (mkBuiltin n true)) <$> l)) as New.
  { intros l Hl. unfold names_of. apply list_elem_of_omap. exists (Some (mkBuiltin n true)). split.
    - apply list_elem_of_fmap. eauto.
    - cbn. rewrite list.Forall_forall in Ne. destruct (String.eqb_spec n ""); [by apply Ne in Hn|done]. }
  destruct defaults as [|d ds] eqn:Ed; [by apply elem_of_nil in Hn|]. rewrite <- Ed in *. clear Ed.
  destruct cfgs as [|c cs] eqn:Ec; [by apply New|]. rewrite <- Ec. clear Ec.
  unfold names_of. rewrite omap_app. apply elem_of_app. fold (names_of cfgs).
  destruct (existsb (String.eqb n) (names_of cfgs)) eqn:Ex.
  - left. apply existsb_exists in Ex as (m & Hm & ->%String.eqb_eq). by apply list_elem_of_In.
  - right. apply New. apply list_elem_of_In, List.filter_In. split; [by apply list_elem_of_In|]. by rewrite Ex.
Qed.

Lemma default_ttl_nonzero t d : d <> 0 -> default_ttl t d <> 0.
Proof. unfold default_ttl. intros. destruct (Z.eqb_spec t 0); lia. Qed.

Lemma init_trace_valid t t' : init_trace GetConds t = (t', []) -> valid_trace t'.
Proof.
  unfold init_trace. destruct (validate_all _ _ _) as [pls errs] eqn:V. intros E. apply pair_equal_spec in E as [<- E].
  apply app_nil in E as [Ek [-> Ed]%app_nil]. split; [by apply default_ttl_nonzero|]. cbn [tr_GroupKey tr_Pipelines tr_DerivedMetrics tr_BuiltinMetrics].
  split; [|split; [by eapply validate_all_valid|split; [by destruct (tr_DerivedMetrics t)|apply initBuiltin_covers; by repeat constructor]]].
  destruct (String.eqb_spec (tr_GroupKey t) ""), (String.eqb_spec (tr_GroupKey t) "trace_id"); done.
Qed.

Lemma init_dim_valid i g g' : init_dim GetConds i g = (g', []) -> valid_dim g'.
Proof.
  unfold init_dim. destruct g as [g|]; [|done]. destruct (validate_all _ _ _) as [pls errs] eqn:V. intros E. apply pair_equal_spec in E as [<- E].
  apply app_nil in E as [Ek [-> Ed]%app_nil]. eexists. split; [done|]. cbn.
  split; [by destruct (String.eqb_spec (gd_GroupKey g) "")|]. split; [by eapply validate_all_valid|by destruct (gd_DerivedMetrics g)].
Qed.

Lemma init_groups_valid defaults t t' : Forall (fun n => n <> "") defaults ->
  init_groups GetConds defaults t = (t', []) -> valid_groups defaults t'.
Proof.
  intros Ne. unfold init_groups. intros E. apply pair_equal_spec in E as [<- E]. split; [by apply default_ttl_nonzero|].
  split; [|by apply initBuiltin_covers]. cbn [gr_GroupDimensions]. apply list.Forall_fmap, list.Forall_forall.
  intros [g' errs] Hg. cbn. pose proof Hg as (i & Hi)%list_elem_of_lookup. rewrite list_lookup_imap in Hi.
  destruct (gr_GroupDimensions t !! i) as [g|]; simplify_eq/=.
  eapply (init_dim_valid i g). rewrite Hi. f_equal.
  destruct errs as [|e errs]; [done|]. exfalso. clear -E Hg.
  enough (e ∈ @nil cfg_err) by by eapply elem_of_nil. rewrite <- E. apply list_elem_of_In, in_concat.
  exists (e :: errs). split; [|by left]. apply list_elem_of_In, list_elem_of_fmap. by exists (g', e :: errs).
Qed.

Lemma Init_valid t t' : Init GetConds t = (t', []) -> valid_configs t'.
Proof.
  unfold Init, init_opt. intros E.
  destruct (Tracing t) as [tr|]; [destruct (init_trace GetConds tr) as [tr' e1] eqn:E1|];
  (destruct (Logging t) as [lg|]; [destruct (init_groups _ _ lg) as [lg' e2] eqn:E2|]);
  (destruct (RUM t) as [ru|]; [destruct (init_groups _ rumBuiltinMetricNames ru) as [ru' e3] eqn:E3|]);
  apply pair_equal_spec in E as [<- E]; repeat (apply app_nil in E as [? E]); subst;
  (split; [|split]); cbn; eauto using init_trace_valid; eapply init_groups_valid; try done; by repeat constructor.
Qed.

(** ** The map of configurations *)

Definition valid_map (m : gmap string TailSamplingConfigs) : Prop := map_Forall (fun _ => valid_configs) m.

Lemma UpdateConfig_valid wait token ts m : valid_map m -> valid_map (fst (UpdateConfig GetConds wait token ts m)).
Proof.
  intros V. unfold UpdateConfig. destruct ts as [ts|]; [|done].
  destruct (Init GetConds (wait_ttl wait ts)) as [ts' [|e errs]] eqn:E.
  - apply Init_valid in E. destruct (m !! token) as [old|]; [case_match; [done|]|]; by apply map_Forall_insert_2.
  - destruct (m !! token) as [old|]; [case_match|]; done.
Qed.

Lemma dim_pipelines_valid dims key : Forall valid_dim dims -> valid_pipelines (dim_pipelines dims key).
Proof.
  induction dims as [|g dims IH]; intros V; [by apply list.Forall_nil|].
  apply list.Forall_cons in V as [(d & -> & _ & Vp & _) V]. cbn. destruct (_ =? _)%string; auto.
Qed.

Lemma pipelinesFor_valid m ty token key : valid_map m -> valid_pipelines (pipelinesFor m ty token key).
Proof.
  intros V. unfold pipelinesFor, GetTraceConfig, GetLoggingConfig, GetRUMConfig.
  destruct (m !! token) as [c|] eqn:E.
  - apply V in E as (Vt & Vl & Vr). repeat case_match; try by apply list.Forall_nil; simplify_eq.
    + apply Vt.
    + apply dim_pipelines_valid, Vl.
    + apply dim_pipelines_valid, Vr.
  - repeat case_match; by apply list.Forall_nil.
Qed.

(** C32: a sampler only ever uses validated pipelines.  Whatever configurations are
    offered, in whatever order, those that are stored are well formed: the time to live
    is not zero, every built-in metric is listed, and every pipeline that is looked up is
    a condition with the action keep or drop, or a sampler with a rate that is above 0 and
    at most 1 or else NaN, which the comparisons of the code let through; it has the parsed
    form of its own condition, if it has one. *)
Theorem stored_pipelines_valid (wait : Z) (updates : list (string * option TailSamplingConfigs)) (ty token key : string) :
  let m := fold_left (fun m u => fst (UpdateConfig GetConds wait (fst u) (snd u) m)) updates ∅ in
  valid_map m /\ valid_pipelines (pipelinesFor m ty token key).
Proof.
  cbn zeta. match goal with |- valid_map ?m /\ _ => enough (valid_map m) as V; [split; [done|by apply pipelinesFor_valid]|] end.
  assert (forall m, valid_map m -> valid_map (fold_left (fun m u => fst (UpdateConfig GetConds wait (fst u) (snd u) m)) updates m)) as H.
  { induction updates as [|u updates IH]; intros m V; [done|]. cbn. by apply IH, UpdateConfig_valid. }
  apply H, map_Forall_empty.
Qed.

(** A refused configuration changes nothing, and one with the version that is stored is ignored. *)
Theorem refused_config_keeps_old (wait : Z) (token : string) (ts : TailSamplingConfigs) (m : gmap string TailSamplingConfigs) :
  (snd (UpdateConfig GetConds wait token (Some ts) m) <> [] -> fst (UpdateConfig GetConds wait token (Some ts) m) = m) /\
  (forall old, m !! token = Some old -> Version old = Version ts -> UpdateConfig GetConds wait token (Some ts) m = (m, [])).
Proof.
  unfold UpdateConfig. split.
  - destruct (Init _ _) as [ts' [|e errs]]; destruct (m !! token); try case_match; done.
  - intros old -> E. by rewrite E, Z.eqb_refl.
Qed.

End valid.
