(* ===== verification/AggrWheel.v ===== *)
(** * Tail sampling: the time wheel ([src/aggregate/timewheel.go])

    A shard keeps the groups that wait for their decision in a map, and the keys of the
    groups that end in a given second in one of 3600 slots.  A slot is a linked list; its
    elements have an identity, a number here.  A slot that is not in the map of slots is
    empty.  The storage of large payloads is the class [PayloadSpiller], the hash function
    and the compression are parameters, the clock is an argument.  A group is changed in
    place, also when its new packet is refused in the end. *)

From S2P Require Import Prelude PointKV PointCheck PointProto FilterAst AggrPacket AggrPred AggrConfig.

(** ** Interface to the storage ([spill.go]) *)

Class PayloadSpiller (D : Type) := {
  sp_Put : bytes -> D -> option string * D;
  sp_Get : string -> D -> option bytes * D;
  sp_Delete : string -> D -> D;
}.

(** ** Keys *)

Definition Seed1 : Z := 0x9E3779B97F4A7C15.

Definition HashCombine (seed hash : Z) : Z :=
  uint64 (Z.lxor (uint64 (seed + 0x9e3779b9)) hash * 0x517cc1b727220a95).

Section Hash.
Context (Sum64 : string -> Z).

Definition HashToken (token : string) (hash64 : Z) : Z := HashCombine hash64 (Sum64 token).

Definition tailSamplingGroupMapKeyByFields (token : string) (groupIDHash : Z) (dataType groupKey : string) : Z :=
  HashCombine (HashCombine (HashToken token groupIDHash) (Sum64 dataType)) (Sum64 groupKey).

Definition tailSamplingGroupMapKey (p : DataPacket) : Z :=
  tailSamplingGroupMapKeyByFields (Token p) (GroupIdHash p) (DataType p) (GroupKey p).
End Hash.

(** ** Packets *)

Definition set_payload (b : bytes) (c : Z) (p : DataPacket) : DataPacket :=
  mkPacket (GroupIdHash p) (RawGroupId p) (Token p) (Source p) (DataType p) (ConfigVersion p) (HasError p)
    (GroupKey p) (PointCount p) (TraceStart p) (TraceEnd p) b (MaxPointTime p) c (preds p).

Section Payload.
Context (EncodeAll : bytes -> bytes) (DecodeAll : bytes -> option bytes).

(** [mergePacketPayload]; [None] is an error. *)
Definition mergePacketPayload (dst src : DataPacket) : option DataPacket :=
  if (PayloadCompression dst =? PayloadCompressionNone) && (PayloadCompression src =? PayloadCompressionNone) then
    Some (set_payload (PointsPayload dst ++ PointsPayload src) (PayloadCompression dst) dst)
  else
    match DecompressPointsPayload DecodeAll (PointsPayload dst) (PayloadCompression dst) with
    | None => None
    | Some d =>
        match DecompressPointsPayload DecodeAll (PointsPayload src) (PayloadCompression src) with
        | None => None
        | Some s => let '(b, c) := CompressPointsPayload EncodeAll (d ++ s) in Some (set_payload b c dst)
        end
    end.

(** The rest of the merge of a packet into the packet of its group. *)
Definition merge_meta (old packet : DataPacket) : DataPacket :=
  mkPacket (GroupIdHash old)
    (if (RawGroupId old =? "")%string then RawGroupId packet else RawGroupId old)
    (Token old)
    (if (Source old =? "")%string then Source packet else Source old)
    (DataType old)
    (if ConfigVersion old <? ConfigVersion packet then ConfigVersion packet else ConfigVersion old)
    (HasError old || HasError packet)
    (GroupKey old)
    (int32 (PointCount old + PointCount packet))
    (if (0 <? TraceStart packet) && ((TraceStart old =? 0) || (TraceStart packet <? TraceStart old))
     then TraceStart packet else TraceStart old)
    (if TraceEnd old <? TraceEnd packet then TraceEnd packet else TraceEnd old)
    (PointsPayload old)
    (if MaxPointTime old <? MaxPointTime packet then MaxPointTime packet else MaxPointTime old)
    (PayloadCompression old)
    (mergeSpanPredicates (preds old) (preds packet)).
End Payload.

(** ** Groups *)

(** A [DataGroup] without its place in the wheel. *)
Record Group := mkGroup {
  g_dataType : string;
  g_packet : DataPacket;
  g_FirstSeen : Z;
  g_ExpiredTime : Z;
  g_spillKey : string;
}.

Record DataGroup := mkDG { group : Group; slotIndex : Z; element : Z }.

Record Shard := mkShard {
  activeMap : gmap Z DataGroup;
  slots : gmap Z (list (Z * Z));
  currentPos : Z;
  nextElement : Z;
}.

Definition wheelSize : Z := 3600.

(** [NewGlobalSampler] makes every shard this way. *)
Definition newShard : Shard := mkShard ∅ ∅ 0 0.

Definition slot (sh : Shard) (i : Z) : list (Z * Z) := default [] (slots sh !! i).

(** [slots[i].Remove(e)], [slots[i].PushBack(key)]. *)
Definition Remove (i e : Z) (sh : Shard) : Shard :=
  mkShard (activeMap sh) (<[i := List.filter (fun x => negb (fst x =? e)) (slot sh i)]> (slots sh)) (currentPos sh) (nextElement sh).

Definition PushBack (i key : Z) (sh : Shard) : Shard :=
  mkShard (activeMap sh) (<[i := slot sh i ++ [(nextElement sh, key)]]> (slots sh)) (currentPos sh) (nextElement sh + 1).

Definition set_active (m : gmap Z DataGroup) (sh : Shard) : Shard :=
  mkShard m (slots sh) (currentPos sh) (nextElement sh).

Section Spill.
Context {D : Type} {spiller : PayloadSpiller D}.

(** [SetPayloadSpiller]; [None]: no spiller. *)
Definition SetPayloadSpiller (present : bool) (threshold : Z) : option Z :=
  if negb present || (threshold <=? 0) then None else Some threshold.

(** [spillIfNeeded]: the packet, the key when it spilled. *)
Definition spillIfNeeded (thr : option Z) (packet : DataPacket) (d : D) : DataPacket * option string * D :=
  match thr with
  | None => (packet, None, d)
  | Some t =>
      if zlen (PointsPayload packet) <=? t then (packet, None, d)
      else match sp_Put (PointsPayload packet) d with
           | (None, d) => (packet, None, d)
           | (Some key, d) => (set_payload [] (PayloadCompression packet) packet, Some key, d)
           end
  end.

(** [hydrateDataGroup]; [None] is an error. *)
Definition hydrateDataGroup (thr : option Z) (g : Group) (d : D) : option Group * D :=
  match thr with
  | None => (Some g, d)
  | Some _ =>
      if (g_spillKey g =? "")%string then (Some g, d)
      else match sp_Get (g_spillKey g) d with
           | (None, d) => (None, d)
           | (Some payload, d) =>
               (Some (mkGroup (g_dataType g) (set_payload payload (PayloadCompression (g_packet g)) (g_packet g))
                        (g_FirstSeen g) (g_ExpiredTime g) ""), d)
           end
  end.

Definition releaseSpill (thr : option Z) (key : string) (d : D) : D :=
  match thr with
  | None => d
  | Some _ => if (key =? "")%string then d else sp_Delete key d
  end.

(** ** Ingestion *)

Context (EncodeAll : bytes -> bytes) (DecodeAll : bytes -> option bytes).

(** A packet for a group that exists: the group as it is afterwards, whether it is
    scheduled again.  [None]: the group is left alone. *)
Definition update_group (thr : option Z) (now ttl : Z) (packet : DataPacket) (old : Group) (d : D)
    : option (Group * bool) * D :=
  let oldSpillKey := g_spillKey old in
  match hydrateDataGroup thr old d with
  | (None, d) => (None, d)
  | (Some old, d) =>
      match mergePacketPayload EncodeAll DecodeAll (g_packet old) packet with
      | None => (Some (old, false), d)
      | Some merged =>
          let '(p, key, d) := spillIfNeeded thr (merge_meta merged packet) d in
          let d := releaseSpill thr oldSpillKey d in
          (Some (mkGroup (g_dataType old) p (g_FirstSeen old) (now + ttl) (default "" key), true), d)
      end
  end.

(** The first packet of a group. *)
Definition new_group (thr : option Z) (now ttl : Z) (packet : DataPacket) (d : D) : Group * D :=
  let '(p, key, d) := spillIfNeeded thr packet d in
  (mkGroup (DataType packet) p now (now + ttl) (default "" key), d).

(** [Ingest] into the shard of the packet, with the time to live of its configuration. *)
Definition ingest_shard (thr : option Z) (now ttl key : Z) (packet : DataPacket) (sh : Shard) (d : D) : Shard * D :=
  let expirePos := (currentPos sh + ttl) mod wheelSize in
  match activeMap sh !! key with
  | Some old =>
      match update_group thr now ttl packet (group old) d with
      | (None, d) => (sh, d)
      | (Some (g, false), d) => (set_active (<[key := mkDG g (slotIndex old) (element old)]> (activeMap sh)) sh, d)
      | (Some (g, true), d) =>
          let sh := Remove (slotIndex old) (element old) sh in
          let e := nextElement sh in
          let sh := PushBack expirePos key sh in
          (set_active (<[key := mkDG g expirePos e]> (activeMap sh)) sh, d)
      end
  | None =>
      let '(g, d) := new_group thr now ttl packet d in
      let e := nextElement sh in
      let sh := PushBack expirePos key sh in
      (set_active (<[key := mkDG g expirePos e]> (activeMap sh)) sh, d)
  end.

(** [int(ttl.Seconds())] and the bounds: the seconds that a group waits.  [None]: the
    packet is refused. *)
Definition clamp_ttl (ttl : Z) : option Z :=
  let s := Z.quot ttl Second in
  if s <=? 0 then None else Some (if 3600 <=? s then 3599 else s).

Definition ttl_for (m : gmap string TailSamplingConfigs) (packet : DataPacket) : option Z :=
  let ttl :=
    if (DataType packet =? STracing)%string then tr_DataTTL <$> GetTraceConfig m (Token packet)
    else if (DataType packet =? SLogging)%string then gr_DataTTL <$> GetLoggingConfig m (Token packet)
    else if (DataType packet =? SRUM)%string then gr_DataTTL <$> GetRUMConfig m (Token packet)
    else None in
  match ttl with Some t => clamp_ttl t | None => None end.

Record GlobalSampler := mkSampler {
  shards : list Shard;
  configMap : gmap string TailSamplingConfigs;
  spillThreshold : option Z;
  disk : D;
}.

Definition NewGlobalSampler (shardCount : nat) (d : D) : GlobalSampler :=
  mkSampler (repeat newShard shardCount) ∅ None d.

Context (Sum64 : string -> Z).

(** [GlobalSampler.Ingest]. *)
Definition Ingest (now : Z) (packet : DataPacket) (s : GlobalSampler) : GlobalSampler :=
  let i := Z.to_nat (GroupIdHash packet mod zlen (shards s)) in
  match shards s !! i with
  | None => s
  | Some sh =>
      match ttl_for (configMap s) packet with
      | None => s
      | Some ttl =>
          let '(sh, d) := ingest_shard (spillThreshold s) now ttl (tailSamplingGroupMapKey Sum64 packet) packet sh (disk s) in
          mkSampler (<[i := sh]> (shards s)) (configMap s) (spillThreshold s) d
      end
  end.

(** ** Advancing *)

Fixpoint expire_loop (l : list (Z * Z)) (active frozen : gmap Z DataGroup) : gmap Z DataGroup * gmap Z DataGroup :=
  match l with
  | [] => (active, frozen)
  | (_, key) :: l =>
      match active !! key with
      | Some dg => expire_loop l (delete key active) (<[key := dg]> frozen)
      | None => expire_loop l active frozen
      end
  end.

Definition advance_shard (sh : Shard) (frozen : gmap Z DataGroup) : Shard * gmap Z DataGroup :=
  let pos := (currentPos sh + 1) mod wheelSize in
  let '(active, frozen) := expire_loop (slot sh pos) (activeMap sh) frozen in
  (mkShard active (<[pos := []]> (slots sh)) pos (nextElement sh), frozen).

Fixpoint advance_shards (l : list Shard) (frozen : gmap Z DataGroup) : list Shard * gmap Z DataGroup :=
  match l with
  | [] => ([], frozen)
  | sh :: l =>
      let '(sh, frozen) := advance_shard sh frozen in
      let '(l, frozen) := advance_shards l frozen in
      (sh :: l, frozen)
  end.

(** [GlobalSampler.AdvanceTime]. *)
Definition AdvanceTime (s : GlobalSampler) : GlobalSampler * gmap Z DataGroup :=
  let '(l, frozen) := advance_shards (shards s) ∅ in
  (mkSampler l (configMap s) (spillThreshold s) (disk s), frozen).

(** ** Decisions *)

Context (re_match : string -> string -> bool) (pb_Unmarshal : bytes -> option PointKV.KVs).

Record TailSamplingOutcome := mkOutcome {
  o_Packet : option DataPacket;
  o_SourcePacket : DataPacket;
  o_Kept : bool;
}.

Definition needsPayloadForDecision (m : gmap string TailSamplingConfigs) (dataType token groupKey : string) : bool :=
  match compilePipelinesFast (pipelinesFor m dataType token groupKey) with Some _ => false | None => true end.

(** The decision about one group of [TailSamplingOutcomes]; the group goes back to the pool. *)
Definition decide_group (m : gmap string TailSamplingConfigs) (thr : option Z) (g : Group) (d : D)
    : Res panic TailSamplingOutcome * D :=
  let spillKey := g_spillKey g in
  let spilled := negb (spillKey =? "")%string in
  let token := Token (g_packet g) in
  let groupKey := GroupKey (g_packet g) in
  let needs := needsPayloadForDecision m (g_dataType g) token groupKey in
  let trusted := packetHasSpanPredicates (preds (g_packet g)) in
  let '(g, d) :=
    if spilled && (needs || negb trusted) then
      match hydrateDataGroup thr g d with (Some g, d) => (g, d) | (None, d) => (g, d) end
    else (g, d) in
  let pipelines := pipelinesFor m (g_dataType g) token groupKey in
  let decision :=
    if spilled && negb needs && trusted then Ok (decideWithPredicates (g_packet g) pipelines)
    else evaluatePipelines re_match pb_Unmarshal DecodeAll (g_packet g) pipelines in
  match decision with
  | Err p => (Err p, d)
  | Ok (matched, keep) =>
      let kept := matched && keep in
      let '(g, d) :=
        if spilled && kept && (zlen (PointsPayload (g_packet g)) =? 0) then
          match hydrateDataGroup thr g d with (Some g, d) => (g, d) | (None, d) => (g, d) end
        else (g, d) in
      let d := releaseSpill thr spillKey d in
      (Ok (mkOutcome (if kept then Some (g_packet g) else None) (g_packet g) kept), d)
  end.

(** [TailSamplingOutcomes]; [order] is the order in which the range over the map visits
    its keys. *)
Fixpoint TailSamplingOutcomes (m : gmap string TailSamplingConfigs) (thr : option Z) (order : list Z)
    (groups : gmap Z DataGroup) (d : D) : list (Z * Res panic TailSamplingOutcome) * D :=
  match order with
  | [] => ([], d)
  | key :: order =>
      match groups !! key with
      | None => TailSamplingOutcomes m thr order groups d
      | Some dg =>
          let '(o, d) := decide_group m thr (group dg) d in
          let '(os, d) := TailSamplingOutcomes m thr order (delete key groups) d in
          ((key, o) :: os, d)
      end
  end.

(** [TailSamplingData]: the packets that are kept. *)
Definition TailSamplingData (outcomes : list (Z * Res panic TailSamplingOutcome)) : list (Z * DataPacket) :=
  omap (fun x => match snd x with Ok o => pair (fst x) <$> o_Packet o | Err _ => None end) outcomes.

End Spill.
