(* ===== verification/AggrWheelThms.v ===== *)
(** * Tail sampling: the time wheel is a map with deadlines

    The specification is a map from keys to groups and the number of seconds that each
    has left.  A packet sets the deadline of its group, each second takes one off, and a
    group with one second left is handed out.  The wheel implements it: every group has
    exactly one element in the slots, at the distance of its deadline. *)

From S2P Require Import Prelude PointKV PointCheck PointProto FilterAst AggrPacket AggrPred AggrConfig AggrWheel.

(** ** Specification *)

Abbreviation deadlines := (gmap Z (Group * Z)).

Definition expired (a : deadlines) : gmap Z Group := fst <$> filter (fun x => x.2.2 = 1) a.

Definition tick (a : deadlines) : deadlines :=
  (fun x => (x.1, x.2 - 1)) <$> filter (fun x => x.2.2 <> 1) a.

Section spec.
Context {D : Type} {spiller : PayloadSpiller D}.
Context (EncodeAll : bytes -> bytes) (DecodeAll : bytes -> option bytes).

Definition s_ingest (thr : option Z) (now ttl key : Z) (packet : DataPacket) (a : deadlines) (d : D) : deadlines * D :=
  match a !! key with
  | Some (old, due) =>
      match update_group EncodeAll DecodeAll thr now ttl packet old d with
      | (None, d) => (a, d)
      | (Some (g, again), d) => (<[key := (g, if again then ttl else due)]> a, d)
      end
  | None => let '(g, d) := new_group thr now ttl packet d in (<[key := (g, ttl)]> a, d)
  end.
End spec.

(** ** The invariant of a shard *)

Record wheel_ok (sh : Shard) : Prop := {
  wo_pos : 0 <= currentPos sh < wheelSize;
  wo_active : forall k dg, activeMap sh !! k = Some dg ->
    (element dg, k) ∈ slot sh (slotIndex dg) /\ 0 <= slotIndex dg < wheelSize /\ slotIndex dg <> currentPos sh;
  wo_entry : forall i e k, (e, k) ∈ slot sh i ->
    e < nextElement sh /\ exists dg, activeMap sh !! k = Some dg /\ element dg = e /\ slotIndex dg = i;
  wo_element : forall k k' dg dg', activeMap sh !! k = Some dg -> activeMap sh !! k' = Some dg' ->
    element dg = element dg' -> k = k';
  wo_nodup : forall i, NoDup (slot sh i);
}.

(** The seconds that a group has left. *)
Definition remaining (pos : Z) (dg : DataGroup) : Group * Z := (group dg, (slotIndex dg - pos) mod wheelSize).

Definition abs (sh : Shard) : deadlines := remaining (currentPos sh) <$> activeMap sh.

Lemma newShard_ok : wheel_ok newShard.
Proof. split; try done. - intros i e k H. by apply elem_of_nil in H. - intros i. constructor. Qed.

Lemma slot_insert sh m i l pos n j : slot (mkShard m (<[i := l]> (slots sh)) pos n) j = if decide (j = i) then l else slot sh j.
Proof.
  unfold slot. cbn [slots]. case_decide as E; [subst; by rewrite lookup_insert_eq|]. by rewrite lookup_insert_ne.
Qed.

(** ** Advancing *)

Lemma expire_loop_spec l A F : let '(A', F') := expire_loop l A F in
  forall k, A' !! k = (if decide (k ∈ snd <$> l) then None else A !! k) /\
    F' !! k = (if decide (k ∈ snd <$> l) then match A !! k with Some dg => Some dg | None => F !! k end else F !! k).
Proof.
  revert A F. induction l as [|[e x] l IH]; intros A F; cbn [expire_loop fmap list_fmap snd].
  { intros k. rewrite !decide_False by apply not_elem_of_nil. done. }
  destruct (A !! x) as [dg|] eqn:E.
  - specialize (IH (delete x A) (<[x:=dg]> F)). destruct (expire_loop _ _ _) as [A' F']. intros k. destruct (IH k) as [-> ->].
    destruct (decide (k = x)) as [->|N].
    + rewrite lookup_delete_eq, lookup_insert_eq, E. rewrite !(decide_True (P := x ∈ x :: _)) by left. by destruct (decide _).
    + rewrite lookup_delete_ne, lookup_insert_ne by done.
      destruct (decide (k ∈ l.*2)), (decide (k ∈ x :: l.*2)) as [H|H]; try done.
      * exfalso. apply H. by right.
      * by apply elem_of_cons in H as [?|?].
  - specialize (IH A F). destruct (expire_loop _ _ _) as [A' F']. intros k. destruct (IH k) as [-> ->].
    destruct (decide (k ∈ l.*2)), (decide (k ∈ x :: l.*2)) as [H|H]; try done.
    + exfalso. apply H. by right.
    + apply elem_of_cons in H as [->|?]; [|done]. by rewrite E.
Qed.

(** A key is in the slot that ends now exactly when its group has one second left. *)
Lemma ends_now sh k dg : wheel_ok sh -> activeMap sh !! k = Some dg ->
  k ∈ snd <$> slot sh ((currentPos sh + 1) mod wheelSize) <-> snd (remaining (currentPos sh) dg) = 1.
Proof.
  intros W A. destruct (wo_active _ W _ _ A) as (I & R & N). pose proof (wo_pos _ W) as P. unfold remaining, wheelSize in *. cbn [snd].
  split.
  - intros ([e k'] & -> & H)%list_elem_of_fmap. apply (wo_entry _ W) in H as (_ & dg' & A' & _ & S). cbn in A, A'. simplify_eq.
    rewrite S. rewrite Zminus_mod_idemp_l. replace (currentPos sh + 1 - currentPos sh) with 1 by lia. done.
  - intros L. apply list_elem_of_fmap. exists (element dg, k). split; [done|].
    replace ((currentPos sh + 1) mod 3600) with (slotIndex dg); [done|].
    rewrite <- L. rewrite Zplus_mod_idemp_r. replace (currentPos sh + (slotIndex dg - currentPos sh)) with (slotIndex dg) by lia.
    by rewrite Z.mod_small.
Qed.

Lemma advance_ok sh fr sh' fr' : wheel_ok sh -> advance_shard sh fr = (sh', fr') -> wheel_ok sh'.
Proof.
  intros W. unfold advance_shard. pose proof (expire_loop_spec (slot sh ((currentPos sh + 1) mod wheelSize)) (activeMap sh) fr) as X.
  destruct (expire_loop _ _ _) as [A F]. intros E. apply pair_equal_spec in E as [<- <-].
  pose proof (wo_pos _ W) as P. set (pos := (currentPos sh + 1) mod wheelSize) in *.
  assert (forall k dg, A !! k = Some dg -> activeMap sh !! k = Some dg /\ slotIndex dg <> pos) as Old.
  { intros k dg H. destruct (X k) as [E _]. rewrite E in H. case_decide as D; [done|]. split; [done|].
    intros Eq. apply D. apply list_elem_of_fmap. exists (element dg, k). split; [done|].
    rewrite <- Eq. by apply (wo_active _ W). }
  assert (forall j, slot (mkShard A (<[pos := []]> (slots sh)) pos (nextElement sh)) j = if decide (j = pos) then [] else slot sh j) as Sl
    by (intros; apply slot_insert).
  split; cbn [activeMap currentPos nextElement].
  - subst pos. apply Z.mod_pos_bound. done.
  - intros k dg (H & Np)%Old. rewrite Sl, decide_False by done. destruct (wo_active _ W _ _ H) as (? & ? & ?). done.
  - intros i e k H. rewrite Sl in H. case_decide as Di; [by apply elem_of_nil in H|].
    destruct (wo_entry _ W _ _ _ H) as (L & dg & Ha & <- & <-). split; [done|]. exists dg. split; [|done].
    destruct (X k) as [-> _]. rewrite decide_False; [done|]. intros ([e' k'] & -> & H')%list_elem_of_fmap. cbn in *.
    destruct (wo_entry _ W _ _ _ H') as (_ & dg' & Ha' & _ & S). by simplify_eq.
  - intros k k' dg dg' (H & _)%Old (H' & _)%Old. by apply (wo_element _ W).
  - intros i. rewrite Sl. case_decide; [constructor|]. apply (wo_nodup _ W).
Qed.

Lemma remaining_advance sh dg : wheel_ok sh -> 0 <= slotIndex dg < wheelSize -> slotIndex dg <> currentPos sh ->
  remaining ((currentPos sh + 1) mod wheelSize) dg = (group dg, snd (remaining (currentPos sh) dg) - 1).
Proof.
  intros W R N. pose proof (wo_pos _ W). unfold remaining, wheelSize in *. cbn [snd]. f_equal.
  rewrite Zminus_mod_idemp_r. replace (slotIndex dg - (currentPos sh + 1)) with (slotIndex dg - currentPos sh - 1) by lia.
  assert (0 < (slotIndex dg - currentPos sh) mod 3600).
  { destruct (Z.eq_dec ((slotIndex dg - currentPos sh) mod 3600) 0) as [E|]; [|pose proof (Z.mod_pos_bound (slotIndex dg - currentPos sh) 3600); lia].
    apply Z.mod_divide in E as [c E]; lia. }
  rewrite <- Zminus_mod_idemp_l. apply Z.mod_small. pose proof (Z.mod_pos_bound (slotIndex dg - currentPos sh) 3600). lia.
Qed.

Lemma advance_refines sh fr sh' fr' : wheel_ok sh -> advance_shard sh fr = (sh', fr') ->
  abs sh' = tick (abs sh) /\ group <$> fr' = expired (abs sh) ∪ (group <$> fr).
Proof.
  intros W. unfold advance_shard. pose proof (expire_loop_spec (slot sh ((currentPos sh + 1) mod wheelSize)) (activeMap sh) fr) as X.
  destruct (expire_loop _ _ _) as [A F]. intros E. apply pair_equal_spec in E as [<- <-].
  unfold abs, tick, expired. cbn [activeMap currentPos]. split; apply map_eq; intros k; destruct (X k) as [XA XF].
  - rewrite !lookup_fmap, map_lookup_filter, lookup_fmap, XA.
    destruct (activeMap sh !! k) as [dg|] eqn:Ea; cbn; [|by destruct (decide _)].
    pose proof (ends_now _ _ _ W Ea) as En. destruct (wo_active _ W _ _ Ea) as (_ & R & N).
    destruct (decide (k ∈ _)) as [I|I]; cbn.
    + rewrite option_guard_False; [done|]. cbn. tauto.
    + rewrite option_guard_True by (cbn; tauto). cbn. by rewrite remaining_advance.
  - rewrite lookup_union, !lookup_fmap, map_lookup_filter, lookup_fmap, XF.
    destruct (activeMap sh !! k) as [dg|] eqn:Ea; cbn; [|by destruct (decide _), (fr !! k)].
    pose proof (ends_now _ _ _ W Ea) as En.
    destruct (decide (k ∈ _)) as [I|I]; cbn.
    + rewrite option_guard_True by (cbn; tauto). cbn. by destruct (fr !! k).
    + rewrite option_guard_False by (cbn; tauto). cbn. by destruct (fr !! k).
Qed.

(** ** Ingesting *)

(** A group enters the wheel. *)
Definition schedule (key : Z) (g : Group) (i : Z) (sh : Shard) : Shard :=
  let sh' := PushBack i key sh in
  set_active (<[key := mkDG g i (nextElement sh)]> (activeMap sh')) sh'.

(** A group leaves it. *)
Definition unschedule (key : Z) (dg : DataGroup) (sh : Shard) : Shard :=
  set_active (delete key (activeMap sh)) (Remove (slotIndex dg) (element dg) sh).

Lemma unschedule_ok sh key dg : wheel_ok sh -> activeMap sh !! key = Some dg -> wheel_ok (unschedule key dg sh).
Proof.
  intros W A. unfold unschedule, set_active, Remove. cbn [activeMap slots currentPos nextElement].
  split; cbn [activeMap currentPos nextElement].
  - apply W.
  - intros k dg' [Nk H]%lookup_delete_Some. destruct (wo_active _ W _ _ H) as (I & R & N). split; [|done].
    rewrite slot_insert. case_decide as E; [|done]. rewrite <- E. apply list_elem_of_In, List.filter_In.
    split; [by apply list_elem_of_In|]. cbn. destruct (Z.eqb_spec (element dg') (element dg)) as [Ee|]; [|done].
    exfalso. apply Nk. symmetry. by eapply (wo_element _ W).
  - intros i e k H. rewrite slot_insert in H.
    assert ((e, k) ∈ slot sh i /\ (k = key -> False)) as [Hs Nk].
    { case_decide as E; [subst i|].
      - apply list_elem_of_In, List.filter_In in H as [H F]. apply list_elem_of_In in H. split; [done|]. intros ->.
        destruct (wo_entry _ W _ _ _ H) as (_ & dg' & A' & <- & _). simplify_eq. cbn in F. by rewrite Z.eqb_refl in F.
      - split; [done|]. intros ->. destruct (wo_entry _ W _ _ _ H) as (_ & dg' & A' & _ & S). by simplify_eq. }
    destruct (wo_entry _ W _ _ _ Hs) as (L & dg' & A' & E & S). split; [done|]. exists dg'. rewrite lookup_delete_ne; auto.
  - intros k k' d1 d2 [_ H1]%lookup_delete_Some [_ H2]%lookup_delete_Some. by apply (wo_element _ W).
  - intros i. rewrite slot_insert. case_decide; [|apply (wo_nodup _ W)].
    apply NoDup_ListNoDup, List.NoDup_filter, NoDup_ListNoDup, (wo_nodup _ W).
Qed.

Lemma schedule_ok sh key g i : wheel_ok sh -> activeMap sh !! key = None -> 0 <= i < wheelSize -> i <> currentPos sh ->
  wheel_ok (schedule key g i sh).
Proof.
  intros W A R N. unfold schedule, set_active, PushBack. cbn [activeMap slots currentPos nextElement].
  assert (forall k dg, activeMap sh !! k = Some dg -> element dg < nextElement sh) as Lt.
  { intros k dg H. apply (wo_active _ W) in H as (H & _). by apply (wo_entry _ W) in H as (? & _). }
  split; cbn [activeMap currentPos nextElement].
  - apply W.
  - intros k dg [[<- <-]|[Nk H]]%lookup_insert_Some; cbn [slotIndex element]; rewrite slot_insert.
    + rewrite decide_True by done. split; [apply elem_of_app; right; by left|done].
    + destruct (wo_active _ W _ _ H) as (I & Rr & Nn). split; [|done]. case_decide as E; [|done]. subst. apply elem_of_app. by left.
  - intros j e k H. rewrite slot_insert in H.
    assert ((e, k) ∈ slot sh j \/ (j = i /\ e = nextElement sh /\ k = key)) as [Hs|(-> & -> & ->)].
    { case_decide as E; [|auto]. subst. apply elem_of_app in H as [H|H]; [auto|]. apply list_elem_of_singleton in H. simplify_eq. auto. }
    + destruct (wo_entry _ W _ _ _ Hs) as (L & dg' & A' & E & S). split; [lia|]. exists dg'. rewrite lookup_insert_ne; [done|].
      intros ->. by rewrite A in A'.
    + split; [lia|]. eexists. by rewrite lookup_insert_eq.
  - intros k k' d1 d2 [[<- <-]|[N1 H1]]%lookup_insert_Some [[<- <-]|[N2 H2]]%lookup_insert_Some E; cbn in E; try done.
    + apply Lt in H2. lia.
    + apply Lt in H1. lia.
    + by eapply (wo_element _ W).
  - intros j. rewrite slot_insert. case_decide; [|apply (wo_nodup _ W)]. subst. apply list.NoDup_app.
    split; [apply (wo_nodup _ W)|]. split; [|apply NoDup_singleton].
    intros [e k] H H'. apply list_elem_of_singleton in H'. simplify_eq.
    apply (wo_entry _ W) in H as (? & _). lia.
Qed.

Lemma abs_schedule sh key g ttl : wheel_ok sh -> 0 < ttl < wheelSize ->
  abs (schedule key g ((currentPos sh + ttl) mod wheelSize) sh) = <[key := (g, ttl)]> (abs sh).
Proof.
  intros W R. unfold abs, schedule, set_active, PushBack. cbn [activeMap currentPos]. rewrite fmap_insert. f_equal.
  unfold remaining, wheelSize in *. cbn [group slotIndex]. f_equal. rewrite Zminus_mod_idemp_l.
  replace (currentPos sh + ttl - currentPos sh) with ttl by lia. apply Z.mod_small. lia.
Qed.

Lemma slot_free sh ttl : wheel_ok sh -> 0 < ttl < wheelSize ->
  0 <= (currentPos sh + ttl) mod wheelSize < wheelSize /\ (currentPos sh + ttl) mod wheelSize <> currentPos sh.
Proof.
  intros W R. pose proof (wo_pos _ W). unfold wheelSize in *. split; [apply Z.mod_pos_bound; lia|]. intros E.
  assert (currentPos sh + ttl < 3600 \/ 3600 <= currentPos sh + ttl) as [L|L] by lia.
  - rewrite Z.mod_small in E; lia.
  - rewrite <- (Z.mod_unique (currentPos sh + ttl) 3600 1 (currentPos sh + ttl - 3600)) in E; lia.
Qed.

Lemma abs_lookup sh key : abs sh !! key = remaining (currentPos sh) <$> activeMap sh !! key.
Proof. unfold abs. by rewrite lookup_fmap. Qed.

Section refine.
Context {D : Type} {spiller : PayloadSpiller D}.
Context (EncodeAll : bytes -> bytes) (DecodeAll : bytes -> option bytes).

(** Ingestion does to the wheel what the specification says. *)
Lemma ingest_refines thr now ttl key packet sh d sh' d' : wheel_ok sh -> 0 < ttl < wheelSize ->
  ingest_shard EncodeAll DecodeAll thr now ttl key packet sh d = (sh', d') ->
  wheel_ok sh' /\ currentPos sh' = currentPos sh /\
  s_ingest EncodeAll DecodeAll thr now ttl key packet (abs sh) d = (abs sh', d').
Proof.
  intros W R. destruct (slot_free sh ttl W R) as [Ri Ni].
  unfold ingest_shard, s_ingest. rewrite abs_lookup. destruct (activeMap sh !! key) as [old|] eqn:A; cbn [fmap option_fmap option_map].
  - unfold remaining at 1. destruct (update_group EncodeAll DecodeAll thr now ttl packet (group old) d) as [[[g []]|] d1]; intros E; simplify_eq.
    + pose proof (unschedule_ok _ _ _ W A) as U.
      assert (set_active (<[key := mkDG g ((currentPos sh + ttl) mod wheelSize) (nextElement (Remove (slotIndex old) (element old) sh))]>
          (activeMap (PushBack ((currentPos sh + ttl) mod wheelSize) key (Remove (slotIndex old) (element old) sh))))
          (PushBack ((currentPos sh + ttl) mod wheelSize) key (Remove (slotIndex old) (element old) sh))
        = schedule key g ((currentPos (unschedule key old sh) + ttl) mod wheelSize) (unschedule key old sh)) as ->.
      { unfold schedule, unschedule, set_active, PushBack, Remove, slot. cbn. f_equal. by rewrite insert_delete_eq. }
      split; [by apply schedule_ok; [|apply lookup_delete_eq| |]|]. split; [done|]. rewrite abs_schedule by done. f_equal.
      unfold abs, unschedule, set_active, Remove. cbn. by rewrite fmap_delete, insert_delete_eq.
    + split; [|split; [done|]].
      * split; cbn [set_active activeMap currentPos nextElement]; [apply W| | | |apply (wo_nodup _ W)].
        -- intros k dg [[<- <-]|[Nk H]]%lookup_insert_Some; cbn [slotIndex element]; by apply (wo_active _ W).
        -- intros i e k H. destruct (wo_entry _ W _ _ _ H) as (L & dg & Ha & He & Hs). split; [done|].
           destruct (decide (k = key)) as [->|Nk]; [|by exists dg; rewrite lookup_insert_ne].
           eexists. rewrite lookup_insert_eq. split; [done|]. cbn. by simplify_eq.
        -- intros k k' d1' d2 [[<- <-]|[N1 H1]]%lookup_insert_Some [[<- <-]|[N2 H2]]%lookup_insert_Some E; cbn in E; try done;
             by eapply (wo_element _ W).
      * unfold abs, set_active. cbn. rewrite fmap_insert. done.
    + done.
  - destruct (new_group thr now ttl packet d) as [g d1]. intros E. apply pair_equal_spec in E as [<- <-].
    fold (schedule key g ((currentPos sh + ttl) mod wheelSize) sh). split; [by apply schedule_ok|]. split; [done|].
    by rewrite abs_schedule.
Qed.

(** ** Runs of a shard *)

Inductive shard_op :=
| SIngest (thr : option Z) (now ttl key : Z) (packet : DataPacket)
| SAdvance.

(** The seconds that [Ingest] passes on. *)
Definition op_ok (o : shard_op) : Prop :=
  match o with SIngest _ _ ttl _ _ => 0 < ttl < wheelSize | SAdvance => True end.

Fixpoint run_shard (ops : list shard_op) (sh : Shard) (d : D) : Shard * D * list (gmap Z Group) :=
  match ops with
  | [] => (sh, d, [])
  | SIngest thr now ttl key packet :: ops =>
      let '(sh, d) := ingest_shard EncodeAll DecodeAll thr now ttl key packet sh d in run_shard ops sh d
  | SAdvance :: ops =>
      let '(sh, fr) := advance_shard sh ∅ in
      let '(sh, d, out) := run_shard ops sh d in (sh, d, (group <$> fr) :: out)
  end.

Fixpoint run_spec (ops : list shard_op) (a : deadlines) (d : D) : deadlines * D * list (gmap Z Group) :=
  match ops with
  | [] => (a, d, [])
  | SIngest thr now ttl key packet :: ops =>
      let '(a, d) := s_ingest EncodeAll DecodeAll thr now ttl key packet a d in run_spec ops a d
  | SAdvance :: ops =>
      let '(a', d, out) := run_spec ops (tick a) d in (a', d, expired a :: out)
  end.

(** C3: the time wheel is a map with deadlines.  Any sequence of packets and seconds on a
    well-formed shard hands out, second by second, the groups that the specification
    hands out, leaves the same groups with the same deadlines, and keeps the shard well
    formed: every active group has exactly one element in the slots. *)
Theorem wheel_refines (ops : list shard_op) (sh : Shard) (d : D) :
  wheel_ok sh -> Forall op_ok ops ->
  let '(sh', d', out) := run_shard ops sh d in
  wheel_ok sh' /\ run_spec ops (abs sh) d = (abs sh', d', out).
Proof.
  intros W Ok. revert sh d W. induction ops as [|o ops IH]; intros sh d W; [done|].
  apply list.Forall_cons in Ok as [O Ok]. specialize (IH Ok). destruct o as [thr now ttl key packet|]; cbn [run_shard run_spec].
  - destruct (ingest_shard _ _ thr now ttl key packet sh d) as [sh1 d1] eqn:E.
    destruct (ingest_refines thr now ttl key packet sh d sh1 d1 W O E) as (W1 & _ & ->). by apply IH.
  - destruct (advance_shard sh ∅) as [sh1 fr] eqn:E. destruct (advance_refines _ _ _ _ W E) as [<- F].
    specialize (IH sh1 d (advance_ok _ _ _ _ W E)). destruct (run_shard ops sh1 d) as [[sh' d'] out]. destruct IH as [W' ->].
    split; [done|]. rewrite F, fmap_empty. by rewrite (right_id_L ∅ _).
Qed.

End refine.

(** The specification, spelled out on the elements of the wheel. *)
Lemma one_element sh k dg i e : wheel_ok sh -> activeMap sh !! k = Some dg ->
  (e, k) ∈ slot sh i <-> e = element dg /\ i = slotIndex dg.
Proof.
  intros W A. split.
  - intros H. destruct (wo_entry _ W _ _ _ H) as (_ & dg' & A' & <- & <-). by simplify_eq.
  - intros [-> ->]. by apply (wo_active _ W).
Qed.
