(* ===== verification/AggrSampler.v ===== *)
(** * Tail sampling: the sampler as a whole

    Groups are handed out on time, and the keys of the groups of a token do not collide. *)

From S2P Require Import Prelude PointKV PointCheck PointProto FilterAst AggrPacket AggrPred AggrConfig AggrWheel AggrWheelThms.

(** ** Keys *)

(** The factor of [HashCombine] is odd, hence invertible modulo [2^64]. *)
Definition hash_inverse : Z := 0x2040003d780970bd.

Lemma uint64_mul_inj a b : 0 <= a < 2 ^ 64 -> 0 <= b < 2 ^ 64 ->
  uint64 (a * 0x517cc1b727220a95) = uint64 (b * 0x517cc1b727220a95) -> a = b.
Proof.
  intros Ra Rb E. unfold uint64, wrapU in *.
  assert (forall x, 0 <= x < 2 ^ 64 -> (x * 0x517cc1b727220a95) mod 2 ^ 64 * hash_inverse mod 2 ^ 64 = x) as Inv.
  { intros x Rx. rewrite Zmult_mod_idemp_l, <- Z.mul_assoc, <- Zmult_mod_idemp_r.
    change (0x517cc1b727220a95 * hash_inverse mod 2 ^ 64) with 1. rewrite Z.mul_1_r. by apply Z.mod_small. }
  by rewrite <- (Inv a), <- (Inv b), E.
Qed.

Lemma lxor_range a b : 0 <= a < 2 ^ 64 -> 0 <= b < 2 ^ 64 -> 0 <= Z.lxor a b < 2 ^ 64.
Proof.
  intros Ha Hb. split; [apply Z.lxor_nonneg; lia|].
  destruct (Z.eq_dec (Z.lxor a b) 0) as [->|N]; [lia|].
  assert (0 <= Z.lxor a b) by (apply Z.lxor_nonneg; lia).
  apply Z.log2_lt_pow2; [lia|]. eapply Z.le_lt_trans; [apply Z.log2_lxor; lia|].
  assert (forall x, 0 <= x < 2 ^ 64 -> Z.log2 x < 64) as L.
  { intros x Hx. destruct (Z.eq_dec x 0) as [->|]; [by vm_compute|]. apply Z.log2_lt_pow2; lia. }
  pose proof (L a Ha). pose proof (L b Hb). lia.
Qed.

Lemma uint64_add_inj a b c : 0 <= a < 2 ^ 64 -> 0 <= b < 2 ^ 64 -> uint64 (a + c) = uint64 (b + c) -> a = b.
Proof.
  intros Ra Rb E. unfold uint64, wrapU in E.
  assert (forall x, 0 <= x < 2 ^ 64 -> ((x + c) mod 2 ^ 64 - c) mod 2 ^ 64 = x) as Inv.
  { intros x Rx. rewrite Zminus_mod_idemp_l. replace (x + c - c) with x by lia. by apply Z.mod_small. }
  by rewrite <- (Inv a), <- (Inv b), E.
Qed.

(** For a given second argument, [HashCombine] is injective in the first. *)
Lemma HashCombine_seed a b h : 0 <= a < 2 ^ 64 -> 0 <= b < 2 ^ 64 -> 0 <= h < 2 ^ 64 ->
  HashCombine a h = HashCombine b h -> a = b.
Proof.
  intros Ra Rb Rh E. unfold HashCombine in E.
  pose proof (wrapU_range 64 (a + 0x9e3779b9) ltac:(lia)). pose proof (wrapU_range 64 (b + 0x9e3779b9) ltac:(lia)).
  apply uint64_mul_inj in E; [|by apply lxor_range..].
  eapply uint64_add_inj; [done..|]. rewrite <- (Z.lxor_0_r (uint64 (a + _))), <- (Z.lxor_nilpotent h), <- Z.lxor_assoc, E.
  by rewrite Z.lxor_assoc, Z.lxor_nilpotent, Z.lxor_0_r.
Qed.

Lemma HashCombine_range a h : 0 <= HashCombine a h < 2 ^ 64.
Proof. apply (wrapU_range 64). lia. Qed.

(** Groups of one token, data type and dimension never share a key.  The key of a
    group is an injective function of the hash of its identifier, so that two groups are
    mixed only when their identifiers have the same hash. *)
Theorem group_key_injective (Sum64 : string -> Z) (p q : DataPacket) :
  (forall s, 0 <= Sum64 s < 2 ^ 64) ->
  0 <= GroupIdHash p < 2 ^ 64 -> 0 <= GroupIdHash q < 2 ^ 64 ->
  Token p = Token q -> DataType p = DataType q -> GroupKey p = GroupKey q ->
  tailSamplingGroupMapKey Sum64 p = tailSamplingGroupMapKey Sum64 q -> GroupIdHash p = GroupIdHash q.
Proof.
  intros RS Rp Rq ET ED EK E. unfold tailSamplingGroupMapKey, tailSamplingGroupMapKeyByFields, HashToken in E.
  rewrite ET, ED, EK in E. do 2 (apply HashCombine_seed in E; auto using HashCombine_range).
  by apply HashCombine_seed in E.
Qed.

(** ** Groups are handed out on time *)

Section live.
Context {D : Type} {spiller : PayloadSpiller D}.
Context (EncodeAll : bytes -> bytes) (DecodeAll : bytes -> option bytes) (Sum64 : string -> Z).
Context (GetConds : string -> option (list (option Node))) (waitTime : Z).

Abbreviation sampler := (@GlobalSampler D).
Abbreviation key := (tailSamplingGroupMapKey Sum64).

(** What may happen to a sampler. *)
Inductive op :=
| OIngest (now : Z) (packet : DataPacket)
| OAdvance
| OConfig (token : string) (ts : option TailSamplingConfigs)
| OSpiller (present : bool) (threshold : Z).

Definition step (o : op) (s : sampler) : sampler * list (gmap Z DataGroup) :=
  match o with
  | OIngest now packet => (Ingest EncodeAll DecodeAll Sum64 now packet s, [])
  | OAdvance => let '(s, fr) := AdvanceTime s in (s, [fr])
  | OConfig token ts => (mkSampler (shards s) (fst (UpdateConfig GetConds waitTime token ts (configMap s))) (spillThreshold s) (disk s), [])
  | OSpiller present thr => (mkSampler (shards s) (configMap s) (SetPayloadSpiller present thr) (disk s), [])
  end.

Fixpoint run (ops : list op) (s : sampler) : sampler * list (gmap Z DataGroup) :=
  match ops with
  | [] => (s, [])
  | o :: ops => let '(s, out) := step o s in let '(s, outs) := run ops s in (s, out ++ outs)
  end.

Definition advances (ops : list op) : Z := zlen (List.filter (fun o => match o with OAdvance => true | _ => false end) ops).

Definition sampler_ok (s : sampler) : Prop := Forall wheel_ok (shards s).

(** Shard [i] holds the group with the seconds left, no other shard has the key. *)
Definition waits (i : nat) (k : Z) (x : option (Group * Z)) (s : sampler) : Prop :=
  forall j sh, shards s !! j = Some sh -> abs sh !! k = if decide (j = i) then x else None.

Lemma ttl_for_range m p t : ttl_for m p = Some t -> 0 < t < wheelSize.
Proof.
  unfold ttl_for, clamp_ttl, wheelSize. intros E.
  match type of E with match ?x with _ => _ end = _ => destruct x as [ttl|]; [|done] end.
  destruct (Z.leb_spec (Z.quot ttl Second) 0); [done|]. simplify_eq. destruct (Z.leb_spec 3600 (Z.quot ttl Second)); lia.
Qed.

Lemma s_ingest_other thr now ttl x packet a (d : D) k : k <> x ->
  fst (s_ingest EncodeAll DecodeAll thr now ttl x packet a d) !! k = a !! k.
Proof.
  intros N. unfold s_ingest. destruct (a !! x) as [[old due]|].
  - destruct (update_group _ _ _ _ _ _ _ _) as [[[g again]|] d1]; cbn; [|done]. by rewrite lookup_insert_ne.
  - destruct (new_group _ _ _ _ _) as [g d1]. cbn. by rewrite lookup_insert_ne.
Qed.

Lemma Ingest_ok now p s : sampler_ok s -> sampler_ok (Ingest EncodeAll DecodeAll Sum64 now p s).
Proof.
  intros W. unfold Ingest. destruct (shards s !! _) as [sh|] eqn:E; [|done]. destruct (ttl_for _ _) as [ttl|] eqn:T; [|done].
  destruct (ingest_shard _ _ _ _ _ _ _ _ _) as [sh' d'] eqn:I.
  assert (wheel_ok sh) as Wsh by (unfold sampler_ok in W; rewrite list.Forall_lookup in W; eauto).
  destruct (ingest_refines _ _ _ _ _ _ _ _ _ _ _ Wsh (ttl_for_range _ _ _ T) I) as (W' & _).
  unfold sampler_ok. cbn. by apply list.Forall_insert.
Qed.

Lemma Ingest_waits now p s i k x : sampler_ok s -> key p <> k -> waits i k x s ->
  waits i k x (Ingest EncodeAll DecodeAll Sum64 now p s).
Proof.
  intros W N H. unfold Ingest. destruct (shards s !! _) as [sh|] eqn:E; [|done]. destruct (ttl_for _ _) as [ttl|] eqn:T; [|done].
  destruct (ingest_shard _ _ _ _ _ _ _ _ _) as [sh' d'] eqn:I.
  assert (wheel_ok sh) as Wsh by (unfold sampler_ok in W; rewrite list.Forall_lookup in W; eauto).
  destruct (ingest_refines _ _ _ _ _ _ _ _ _ _ _ Wsh (ttl_for_range _ _ _ T) I) as (_ & _ & R).
  intros j shj Hj. cbn in Hj. apply list_lookup_insert_Some in Hj as [(<- & <- & _)|(_ & Hj)]; [|by apply H].
  rewrite <- (H _ _ E). rewrite <- (s_ingest_other (spillThreshold s) now ttl (key p) p (abs sh) (disk s) k) by done. by rewrite R.
Qed.

Lemma advance_shards_ok l fr l' fr' : Forall wheel_ok l -> advance_shards l fr = (l', fr') ->
  Forall wheel_ok l' /\ length l' = length l /\
  forall j sh, l' !! j = Some sh -> exists sh0, l !! j = Some sh0 /\ abs sh = tick (abs sh0).
Proof.
  revert fr l' fr'. induction l as [|sh l IH]; intros fr l' fr' W E; cbn in E; [by simplify_eq|].
  apply list.Forall_cons in W as [W1 W]. destruct (advance_shard sh fr) as [sh1 fr1] eqn:E1.
  destruct (advance_shards l fr1) as [l1 fr2] eqn:E2. simplify_eq.
  destruct (IH _ _ _ W E2) as (A & B & C). destruct (advance_refines _ _ _ _ W1 E1) as [R F].
  split; [|split].
  - apply list.Forall_cons. split; [by eapply advance_ok|done].
  - cbn. by rewrite B.
  - intros [|j] x Hx; cbn in Hx |- *; simplify_eq; eauto.
Qed.

(** What is handed out for a key: what one of the shards hands out. *)
Lemma advance_shards_out l fr l' fr' k (x : option Group) i : Forall wheel_ok l -> advance_shards l fr = (l', fr') ->
  (forall j sh, l !! j = Some sh -> expired (abs sh) !! k = if decide (j = i) then x else None) ->
  (group <$> fr') !! k = if decide (i < length l)%nat then match x with Some g => Some g | None => (group <$> fr) !! k end
                         else (group <$> fr) !! k.
Proof.
  revert fr l' fr' i. induction l as [|sh l IH]; intros fr l' fr' i W E H; cbn in E; [by simplify_eq|].
  apply list.Forall_cons in W as [W1 W]. destruct (advance_shard sh fr) as [sh1 fr1] eqn:E1.
  destruct (advance_shards l fr1) as [l1 fr2] eqn:E2. simplify_eq.
  destruct (advance_refines _ _ _ _ W1 E1) as [_ F]. pose proof (H O sh eq_refl) as H0.
  assert ((group <$> fr1) !! k = match expired (abs sh) !! k with Some g => Some g | None => (group <$> fr) !! k end) as E3
    by (rewrite F, lookup_union; destruct (expired _ !! k), ((group <$> fr) !! k); done).
  destruct i as [|i].
  - rewrite decide_True in H0 by done. rewrite (IH _ _ _ (length l) W E2).
    + rewrite (decide_False (P := (length l < length l)%nat)) by lia. rewrite decide_True by (cbn; lia). by rewrite E3, H0.
    + intros j shj Hj. rewrite (H (S j) shj Hj), decide_False by done. rewrite decide_False; [done|].
      apply lookup_lt_Some in Hj. lia.
  - rewrite decide_False in H0 by done. rewrite (IH _ _ _ i W E2).
    + rewrite E3, H0. cbn [length]. destruct (decide (i < length l)%nat), (decide (S i < S (length l))%nat); lia || done.
    + intros j shj Hj. rewrite (H (S j) shj Hj). destruct (decide (j = i)), (decide (S j = S i)); lia || done.
Qed.

Lemma expired_lookup a k : expired a !! k = match a !! k with Some (g, n) => if decide (n = 1) then Some g else None | None => None end.
Proof.
  unfold expired. rewrite lookup_fmap, map_lookup_filter. destruct (a !! k) as [[g n]|]; cbn; [|done].
  destruct (decide (n = 1)); [by rewrite option_guard_True|by rewrite option_guard_False].
Qed.

Lemma tick_lookup a k : tick a !! k = match a !! k with Some (g, n) => if decide (n = 1) then None else Some (g, n - 1) | None => None end.
Proof.
  unfold tick. rewrite lookup_fmap, map_lookup_filter. destruct (a !! k) as [[g n]|]; cbn; [|done].
  destruct (decide (n = 1)) as [->|]; [by rewrite option_guard_False by (cbn; lia)|by rewrite option_guard_True].
Qed.

(** One second: the group is handed out or has one second less. *)
Lemma advance_waits s i k g n : sampler_ok s -> (i < length (shards s))%nat -> waits i k (Some (g, n)) s ->
  let '(s', fr) := AdvanceTime s in
  sampler_ok s' /\ length (shards s') = length (shards s) /\
  waits i k (if decide (n = 1) then None else Some (g, n - 1)) s' /\
  (group <$> fr) !! k = if decide (n = 1) then Some g else None.
Proof.
  intros W L H. unfold AdvanceTime. destruct (advance_shards (shards s) ∅) as [l fr] eqn:E.
  destruct (advance_shards_ok _ _ _ _ W E) as (W' & Len & T). split; [done|]. split; [done|]. split.
  - intros j sh Hj. cbn in Hj. destruct (T j sh Hj) as (sh0 & H0 & ->). rewrite tick_lookup, (H j sh0 H0).
    destruct (decide (j = i)), (decide (n = 1)); done.
  - rewrite (advance_shards_out _ _ _ _ k (if decide (n = 1) then Some g else None) i W E).
    + rewrite decide_True by done. rewrite fmap_empty, lookup_empty. by destruct (decide (n = 1)).
    + intros j sh Hj. rewrite expired_lookup, (H j sh Hj). by destruct (decide (j = i)).
Qed.

Definition ingests (k : Z) (o : op) : Prop := match o with OIngest _ p => key p = k | _ => False end.

(** While a group has seconds left it stays, whatever else happens. *)
Lemma run_waits ops : forall s i k g n, sampler_ok s -> (i < length (shards s))%nat -> waits i k (Some (g, n)) s ->
  Forall (fun o => ~ ingests k o) ops -> advances ops < n ->
  let '(s', outs) := run ops s in
  sampler_ok s' /\ (i < length (shards s'))%nat /\ waits i k (Some (g, n - advances ops)) s' /\
  Forall (fun fr => (group <$> fr) !! k = None) outs.
Proof.
  induction ops as [|o ops IH]; intros s i k g n W L H Ok Lt; cbn [run].
  { change (advances []) with 0. rewrite Z.sub_0_r. by repeat split. }
  apply list.Forall_cons in Ok as [O Ok].
  assert (forall (P : Prop), (o = OAdvance -> P) -> ((forall s, snd (step o s) = []) ->
    sampler_ok (fst (step o s)) -> length (shards (fst (step o s))) = length (shards s) -> waits i k (Some (g, n)) (fst (step o s)) ->
    advances (o :: ops) = advances ops -> P) -> P) as Cases.
  { intros P Adv Oth. destruct o as [now p| |token ts|present thr]; [| by apply Adv |by apply Oth|by apply Oth].
    apply Oth; [done|by apply Ingest_ok| |by apply Ingest_waits|done]. cbn. unfold Ingest.
    repeat case_match; try done. cbn. by rewrite length_insert. }
  apply Cases; clear Cases.
  - intros ->. unfold step. pose proof (advance_waits s i k g n W L H) as A. destruct (AdvanceTime s) as [s1 fr].
    destruct A as (W1 & L1 & H1 & F1). assert (advances (OAdvance :: ops) = 1 + advances ops) as Ad by (unfold advances; cbn; unfold zlen; cbn; lia).
    assert (0 <= advances ops) by (unfold advances, zlen; lia).
    rewrite decide_False in H1 by lia. rewrite decide_False in F1 by lia.
    specialize (IH s1 i k g (n - 1) W1 ltac:(lia) H1 Ok ltac:(lia)). destruct (run ops s1) as [s2 outs].
    destruct IH as (W2 & L2 & H2 & F2). split; [done|]. split; [done|]. split; [|by apply list.Forall_cons].
    by replace (n - advances (OAdvance :: ops)) with (n - 1 - advances ops) by lia.
  - intros Out W1 L1 H1 Ad. destruct (step o s) as [s1 out] eqn:St. cbn [fst] in *.
    pose proof (Out s) as Oe. rewrite St in Oe. cbn in Oe. subst out. rewrite Ad in *.
    specialize (IH s1 i k g n W1 ltac:(lia) H1 Ok Lt). by destruct (run ops s1) as [s2 outs].
Qed.

(** C11: groups are handed out on time.  A packet of a new group, accepted with [t]
    seconds to live, is handed out by exactly the [t]-th advance that follows, provided no
    other packet for its key arrives in between: no earlier advance returns the key, that
    one returns the group of the packet, and afterwards no shard holds it. *)
Theorem expires_on_time (s : sampler) (now : Z) (packet : DataPacket) (t : Z) (ops : list op) :
  sampler_ok s -> shards s <> [] ->
  (forall j sh, shards s !! j = Some sh -> activeMap sh !! key packet = None) ->
  ttl_for (configMap s) packet = Some t ->
  Forall (fun o => ~ ingests (key packet) o) ops -> advances ops = t - 1 ->
  let '(s1, outs) := run ops (Ingest EncodeAll DecodeAll Sum64 now packet s) in
  let '(s2, fr) := AdvanceTime s1 in
  Forall (fun fr => (group <$> fr) !! key packet = None) outs /\
  (group <$> fr) !! key packet = Some (fst (new_group (spillThreshold s) now t packet (disk s))) /\
  forall j sh, shards s2 !! j = Some sh -> activeMap sh !! key packet = None.
Proof.
  intros W N Fresh T Ok Ad. set (k := key packet) in *. set (i := Z.to_nat (GroupIdHash packet mod zlen (shards s))).
  set (g := fst (new_group (spillThreshold s) now t packet (disk s))).
  assert (i < length (shards s))%nat as Li.
  { subst i. assert (0 < zlen (shards s)) by (unfold zlen; destruct (shards s); cbn; [done|lia]).
    pose proof (Z.mod_pos_bound (GroupIdHash packet) (zlen (shards s))). unfold zlen in *. lia. }
  assert (waits i k (Some (g, t)) (Ingest EncodeAll DecodeAll Sum64 now packet s) /\
    length (shards (Ingest EncodeAll DecodeAll Sum64 now packet s)) = length (shards s)) as [Wt Len].
  { unfold Ingest. fold i. destruct (shards s !! i) as [sh|] eqn:E; [|by apply lookup_ge_None in E; lia]. rewrite T. fold k.
    destruct (ingest_shard _ _ _ _ _ _ _ _ _) as [sh' d'] eqn:I. split; [|cbn; by rewrite length_insert].
    assert (wheel_ok sh) as Wsh by (unfold sampler_ok in W; rewrite list.Forall_lookup in W; eauto).
    destruct (ingest_refines _ _ _ _ _ _ _ _ _ _ _ Wsh (ttl_for_range _ _ _ T) I) as (_ & _ & R).
    intros j shj Hj. cbn in Hj. apply list_lookup_insert_Some in Hj as [(<- & <- & _)|(Nj & Hj)].
    - rewrite decide_True by done. unfold s_ingest in R. rewrite abs_lookup, (Fresh _ _ E) in R. cbn in R.
      subst g. destruct (new_group _ _ _ _ _) as [g d1]. apply pair_equal_spec in R as [<- _].
      by rewrite lookup_insert_eq.
    - rewrite decide_False by done. rewrite abs_lookup. by rewrite (Fresh _ _ Hj). }
  pose proof (run_waits ops _ i k g t (Ingest_ok now packet s W) ltac:(lia) Wt Ok ltac:(lia)) as Rn.
  destruct (run ops _) as [s1 outs]. destruct Rn as (W1 & L1 & H1 & F1).
  rewrite Ad in H1. replace (t - (t - 1)) with 1 in H1 by lia.
  pose proof (advance_waits s1 i k g 1 W1 L1 H1) as A. destruct (AdvanceTime s1) as [s2 fr]. destruct A as (W2 & L2 & H2 & F2).
  split; [done|]. split; [done|]. intros j sh Hj. specialize (H2 j sh Hj).
  rewrite (decide_True (P := 1 = 1)) in H2 by done. rewrite abs_lookup in H2. destruct (activeMap sh !! k); [|done].
  by destruct (decide (j = i)).
Qed.

End live.
