(* ===== verification/AggrSpill.v ===== *)
(** * Tail sampling: spilling payloads is invisible ([src/aggregate/timewheel.go], [spill.go])

    [SpillerLaws] is what the sampler relies on.  A shard that spills its large payloads
    and one that keeps them in memory take the same packets in, hand out the same groups
    and decide the same about them. *)

From S2P Require Import Prelude PointKV PointCheck PointProto FilterAst AggrPacket AggrPred AggrConfig AggrWheel AggrWheelThms.

(** ** The contract of a spiller

    [contents] is what is stored, [good] its own invariant, [reliable] that no operation
    will fail, [room] how often [Put] may still be called. *)

Class SpillerLaws (D : Type) {spiller : PayloadSpiller D} := {
  contents : D -> gmap string bytes;
  good : D -> Prop;
  reliable : D -> Prop;
  room : D -> Z;
  put_law p d r d' : good d -> 0 < room d -> sp_Put p d = (r, d') ->
    good d' /\ (reliable d -> reliable d') /\ room d - 1 <= room d' /\
    match r with
    | Some k => k <> "" /\ contents d !! k = None /\ contents d' = <[k := p]> (contents d)
    | None => contents d ⊆ contents d'
    end;
  get_law k d r d' : good d -> sp_Get k d = (r, d') ->
    good d' /\ (reliable d -> reliable d') /\ room d <= room d' /\ contents d' = contents d /\
    match r with Some p => contents d !! k = Some p | None => contents d !! k = None \/ ~ reliable d end;
  delete_law k d : good d -> good (sp_Delete k d) /\ (reliable d -> reliable (sp_Delete k d)) /\ room d <= room (sp_Delete k d) /\
    delete k (contents d) ⊆ contents (sp_Delete k d);
}.

Section transparent.
Context {D : Type} {spiller : PayloadSpiller D} {laws : SpillerLaws D}.
Context (EncodeAll : bytes -> bytes) (DecodeAll : bytes -> option bytes).
Context (re_match : string -> string -> bool) (pb_Unmarshal : bytes -> option PointKV.KVs).

Definition fine (n : nat) (d : D) : Prop := good d /\ reliable d /\ Z.of_nat n <= room d.

(** What is stored under other keys stays. *)
Definition frame (k : string) (d d' : D) : Prop :=
  forall k' p, k' <> k -> contents d !! k' = Some p -> contents d' !! k' = Some p.

(** The group of a shard that keeps everything in memory, and the group of one that spills. *)
Definition sim (d : D) (gm gs : Group) : Prop :=
  g_spillKey gm = "" /\
  (gs = gm \/
   exists k, k <> "" /\ contents d !! k = Some (PointsPayload (g_packet gm)) /\ PointsPayload (g_packet gm) <> [] /\
     gs = mkGroup (g_dataType gm) (set_payload [] (PayloadCompression (g_packet gm)) (g_packet gm))
                  (g_FirstSeen gm) (g_ExpiredTime gm) k).

Lemma sim_frame k d d' gm gs : frame k d d' -> sim d gm gs -> g_spillKey gs <> k \/ g_spillKey gs = "" -> sim d' gm gs.
Proof.
  intros F [E S] N. split; [done|]. destruct S as [->|(x & Nx & C & Ne & ->)]; [by left|]. right. exists x.
  cbn in N. destruct N as [N|N]; [|done]. eauto 10.
Qed.

Lemma frame_trans k d d1 d2 : frame k d d1 -> frame k d1 d2 -> frame k d d2.
Proof. intros F1 F2 k' p N H. eauto. Qed.

(** Reading back gives the group that was never spilled. *)
Lemma hydrate_sim n t d gm gs : fine n d -> sim d gm gs ->
  exists d', hydrateDataGroup (Some t) gs d = (Some gm, d') /\ fine n d' /\ contents d' = contents d.
Proof.
  intros (Gd & Rd & Rm) [E S]. unfold hydrateDataGroup. destruct S as [->|(k & Nk & C & Ne & ->)].
  - rewrite E. exists d. by split; [|split].
  - cbn [g_spillKey]. destruct (String.eqb_spec k "") as [|_]; [done|]. destruct (sp_Get k d) as [r d'] eqn:G.
    destruct (get_law _ _ _ _ Gd G) as (G' & R' & Rm' & C' & H). exists d'. destruct r as [p|].
    + rewrite C in H. simplify_eq. split; [|split; [split; [done|]; split; [auto|lia]|done]]. do 2 f_equal.
      destruct gm as [dt pk fs ex sk]; cbn in *. rewrite E. f_equal. by destruct pk.
    + exfalso. destruct H as [H|H]; [by rewrite C in H|auto].
Qed.

Lemma spill_sim n t p dt fs ex d p' key d' : 0 < t -> fine (S n) d -> spillIfNeeded (Some t) p d = (p', key, d') ->
  fine n d' /\ contents d ⊆ contents d' /\ sim d' (mkGroup dt p fs ex "") (mkGroup dt p' fs ex (default "" key)) /\
  (default "" key <> "" -> contents d !! default "" key = None).
Proof.
  intros Pt (Gd & Rd & Rm). unfold spillIfNeeded. destruct (Z.leb_spec (zlen (PointsPayload p)) t).
  { intros E. simplify_eq. split; [split; [done|]; split; [done|lia]|]. split; [done|]. split; [split; [done|by left]|done]. }
  destruct (sp_Put (PointsPayload p) d) as [[k|] d1] eqn:P; intros E; simplify_eq;
    destruct (put_law _ _ _ _ Gd ltac:(lia) P) as (G' & R' & Rm' & L);
    (assert (fine n d') as F' by (split; [done|]; split; [auto|lia])).
  - destruct L as (Nk & Nc & C). split; [done|]. split; [|split; [|done]].
    + rewrite C. by apply insert_subseteq.
    + split; [done|]. right. exists k. split; [done|]. split; [by rewrite C, lookup_insert_eq|]. split; [|done].
      cbn. intros E. rewrite E in H. change (zlen (@nil Byte.byte)) with 0 in H. lia.
  - split; [done|]. split; [done|]. split; [split; [done|by left]|done].
Qed.

Lemma release_sim n t key d : fine n d -> fine n (releaseSpill (Some t) key d) /\ frame key d (releaseSpill (Some t) key d).
Proof.
  intros (Gd & Rd & Rm). unfold releaseSpill. destruct (String.eqb_spec key "") as [->|N].
  - split; [done|]. by intros ?.
  - destruct (delete_law key d Gd) as (G' & R' & Rm' & S). split; [split; [done|]; split; [auto|lia]|].
    intros k' p Nk H. eapply lookup_weaken; [|done]. by rewrite lookup_delete_ne.
Qed.

(** The two ways to take a packet in stay in step. *)
Lemma update_sim n t now ttl p gm gs (dm d : D) : 0 < t -> fine (S n) d -> sim d gm gs ->
  exists r d', update_group EncodeAll DecodeAll None now ttl p gm dm = (fst <$> r, dm) /\
    update_group EncodeAll DecodeAll (Some t) now ttl p gs d = (snd <$> r, d') /\ fine n d' /\ frame (g_spillKey gs) d d' /\
    match r with
    | Some ((gm', b), (gs', b')) => b' = b /\ sim d' gm' gs' /\
        (g_spillKey gs' <> "" -> contents d !! g_spillKey gs' = None)
    | None => False
    end.
Proof.
  intros Pt F S. pose proof S as [Em _]. unfold update_group.
  destruct (hydrate_sim _ t d gm gs F S) as (d1 & -> & F1 & C1). cbn [hydrateDataGroup].
  assert (frame (g_spillKey gs) d d1) as Fr1 by (intros k x _ H; by rewrite C1).
  destruct (mergePacketPayload EncodeAll DecodeAll (g_packet gm) p) as [merged|].
  - change (spillIfNeeded None (merge_meta merged p) dm) with (merge_meta merged p, @None string, dm).
    change (releaseSpill None (g_spillKey gm) dm) with dm. destruct (spillIfNeeded (Some t) (merge_meta merged p) d1) as [[p' key] d2] eqn:Sp.
    destruct (spill_sim n t _ (g_dataType gm) (g_FirstSeen gm) (now + ttl) _ _ _ _ Pt F1 Sp) as (F2 & Fr2 & S2 & N2).
    destruct (release_sim n t (g_spillKey gs) d2 F2) as (F3 & Fr3).
    eexists (Some ((_, true), (_, true))), _. split; [reflexivity|]. split; [reflexivity|]. split; [done|]. split.
    { intros k x Nk H. apply Fr3; [done|]. eapply lookup_weaken; [|done]. by rewrite C1. }
    split; [done|]. split; [|cbn; by rewrite <- C1].
    eapply sim_frame; [exact Fr3|done|]. cbn [g_spillKey]. destruct (decide (default "" key = "")) as [->|Nk]; [by right|left].
    intros E. specialize (N2 Nk). rewrite E, C1 in N2. destruct S as [_ [->|(k & _ & Ck & _ & ->)]]; [by rewrite Em in E|].
    cbn in N2. by rewrite Ck in N2.
  - eexists (Some ((gm, false), (gm, false))), _. split; [reflexivity|]. split; [reflexivity|].
    split; [destruct F1 as (? & ? & ?); split; [done|]; split; [done|lia]|]. split; [done|].
    split; [done|]. split; [split; [done|by left]|]. by rewrite Em.
Qed.
(** ** Decisions *)

(** What the caller of [TailSamplingOutcomes] acts on. *)
Definition visible (o : Res panic TailSamplingOutcome) : Res panic (option DataPacket * bool) :=
  match o with Ok o => Ok (o_Packet o, o_Kept o) | Err p => Err p end.

(** The payload is compressed, or its first point can be decoded. *)
Definition readable (p : DataPacket) : Prop :=
  (PayloadCompression p =? PayloadCompressionNone) && negb (payloadHasDecodablePoint pb_Unmarshal (PointsPayload p)) = false.

Abbreviation verdict := (decide_group DecodeAll re_match pb_Unmarshal).

Lemma fast_decision p m ty tk gk : readable p -> PointsPayload p <> [] -> packetHasSpanPredicates (preds p) = true ->
  needsPayloadForDecision m ty tk gk = false ->
  evaluatePipelines re_match pb_Unmarshal DecodeAll p (pipelinesFor m ty tk gk) = Ok (decideWithPredicates p (pipelinesFor m ty tk gk)).
Proof.
  intros Rd Ne Tr Nd. unfold needsPayloadForDecision in Nd. unfold evaluatePipelines, decideWithPredicates.
  destruct (compilePipelinesFast _) as [es|] eqn:C; [|done].
  destruct (pipelinesFor m ty tk gk) as [|pl pls]; [cbn in C; by simplify_eq|].
  rewrite Tr, Rd, andb_true_r. replace (0 <? zlen (PointsPayload p)) with true; [done|].
  symmetry. apply Z.ltb_lt. destruct (PointsPayload p) as [|b l]; [done|]. unfold zlen. rewrite length_cons. lia.
Qed.

(** The outcome when the payload is at hand. *)
Definition outcome (g : Group) (r : Res panic (bool * bool)) : Res panic TailSamplingOutcome :=
  match r with
  | Err p => Err p
  | Ok (matched, keep) => Ok (mkOutcome (if matched && keep then Some (g_packet g) else None) (g_packet g) (matched && keep))
  end.

Definition evaluate (m : gmap string TailSamplingConfigs) (g : Group) : Res panic (bool * bool) :=
  evaluatePipelines re_match pb_Unmarshal DecodeAll (g_packet g)
    (pipelinesFor m (g_dataType g) (Token (g_packet g)) (GroupKey (g_packet g))).

Lemma release_none thr (d : D) : releaseSpill thr "" d = d.
Proof. by destruct thr. Qed.

Lemma decide_memory m thr g (d : D) : g_spillKey g = "" -> verdict m thr g d = (outcome g (evaluate m g), d).
Proof.
  intros E. unfold decide_group, outcome, evaluate. rewrite E. cbn [String.eqb negb andb].
  destruct (evaluatePipelines _ _ _ _ _) as [[mt kp]|p]; [|done]. by rewrite release_none.
Qed.

Lemma decide_spilled n m t gm k d : fine n d -> k <> "" -> g_spillKey gm = "" -> PointsPayload (g_packet gm) <> [] ->
  contents d !! k = Some (PointsPayload (g_packet gm)) -> readable (g_packet gm) ->
  let gs := mkGroup (g_dataType gm) (set_payload [] (PayloadCompression (g_packet gm)) (g_packet gm))
                    (g_FirstSeen gm) (g_ExpiredTime gm) k in
  exists o d', verdict m (Some t) gs d = (o, d') /\ visible o = visible (outcome gm (evaluate m gm)) /\ fine n d' /\ frame k d d'.
Proof.
  intros F Nk Em Ne Ck Rd gs.
  assert (sim d gm gs) as S by (split; [done|]; right; by exists k).
  destruct (hydrate_sim n t d gm gs F S) as (d1 & Hy & F1 & C1).
  assert (forall d2, fine n d2 -> contents d2 = contents d ->
    fine n (releaseSpill (Some t) k d2) /\ frame k d (releaseSpill (Some t) k d2)) as Rel.
  { intros d2 F2 E2. destruct (release_sim n t k d2 F2) as [? Fr]. split; [done|]. intros x y Nx Hx. apply Fr; [done|]. by rewrite E2. }
  unfold decide_group. change (g_spillKey gs) with k.
  destruct (String.eqb_spec k "") as [|_]; [done|]. cbn [negb andb].
  change (g_dataType gs) with (g_dataType gm). change (Token (g_packet gs)) with (Token (g_packet gm)).
  change (GroupKey (g_packet gs)) with (GroupKey (g_packet gm)). change (preds (g_packet gs)) with (preds (g_packet gm)).
  set (needs := needsPayloadForDecision m (g_dataType gm) (Token (g_packet gm)) (GroupKey (g_packet gm))).
  set (trusted := packetHasSpanPredicates (preds (g_packet gm))).
  destruct (needs || negb trusted) eqn:Path.
  - rewrite Hy. assert (negb needs && trusted = false) as -> by by destruct needs, trusted.
    fold (evaluate m gm). unfold outcome. destruct (evaluate m gm) as [[mt kp]|p].
    + assert ((zlen (PointsPayload (g_packet gm)) =? 0) = false) as -> by (destruct (PointsPayload (g_packet gm)); done).
      rewrite andb_false_r. eexists _, _. split; [reflexivity|]. split; [done|]. by apply Rel.
    + eexists _, _. split; [reflexivity|]. split; [done|]. split; [done|]. intros x y _ H. by rewrite C1.
  - assert (needs = false /\ trusted = true) as [Nd Tr] by by destruct needs, trusted. rewrite Nd, Tr. cbn [negb andb].
    unfold evaluate, outcome. rewrite (fast_decision _ m _ _ _ Rd Ne Tr Nd).
    change (decideWithPredicates (g_packet gs)) with (decideWithPredicates (g_packet gm)).
    destruct (decideWithPredicates (g_packet gm) _) as [mt kp]. cbn [g_packet set_payload PointsPayload gs].
    change (zlen (@nil Byte.byte) =? 0) with true. rewrite andb_true_r. destruct (mt && kp).
    + rewrite Hy. eexists _, _. split; [reflexivity|]. split; [done|]. by apply Rel.
    + eexists _, _. split; [reflexivity|]. split; [done|]. by apply Rel.
Qed.

Lemma decide_sim n m t gm gs (dm d : D) : fine n d -> sim d gm gs -> readable (g_packet gm) ->
  exists om os d', verdict m None gm dm = (om, dm) /\ verdict m (Some t) gs d = (os, d') /\
    visible os = visible om /\ fine n d' /\ frame (g_spillKey gs) d d'.
Proof.
  intros F [Em S] Rd. rewrite (decide_memory m None gm dm Em). destruct S as [->|(k & Nk & Ck & Ne & ->)].
  - rewrite (decide_memory m (Some t) gm d Em). eexists _, _, _. split; [done|]. split; [done|]. split; [done|]. split; [done|]. by intros ?.
  - destruct (decide_spilled n m t gm k d F Nk Em Ne Ck Rd) as (o & d' & E & V & F' & Fr). by eexists _, o, d'.
Qed.

(** ** Shards in step *)

Definition sim_entry (d : D) (a b : option DataGroup) : Prop :=
  match a, b with
  | Some a, Some b => slotIndex b = slotIndex a /\ element b = element a /\ sim d (group a) (group b)
  | None, None => True
  | _, _ => False
  end.

Definition sim_map (d : D) (Mm Ms : gmap Z DataGroup) : Prop := forall k, sim_entry d (Mm !! k) (Ms !! k).

(** No two groups share stored data. *)
Definition own_keys (Ms : gmap Z DataGroup) : Prop := forall k k' b b', Ms !! k = Some b -> Ms !! k' = Some b' ->
  g_spillKey (group b) <> "" -> g_spillKey (group b) = g_spillKey (group b') -> k = k'.

Record sim_shard (d : D) (shm shs : Shard) : Prop := {
  ss_slots : slots shs = slots shm;
  ss_pos : currentPos shs = currentPos shm;
  ss_next : nextElement shs = nextElement shm;
  ss_map : sim_map d (activeMap shm) (activeMap shs);
  ss_own : own_keys (activeMap shs);
}.

Lemma sim_stored d gm gs : sim d gm gs -> g_spillKey gs <> "" -> contents d !! g_spillKey gs = Some (PointsPayload (g_packet gm)).
Proof. intros [E [->|(k & _ & C & _ & ->)]] N; [done|exact C]. Qed.

Lemma sim_entry_frame x d d' a b : frame x d d' -> sim_entry d a b ->
  (forall dg, b = Some dg -> g_spillKey (group dg) <> x \/ g_spillKey (group dg) = "") -> sim_entry d' a b.
Proof.
  intros F S N. destruct a as [a|], b as [b|]; try done. destruct S as (? & ? & S). split; [done|]. split; [done|].
  eapply sim_frame; eauto.
Qed.

Lemma sim_insert x d d' Mm Ms key gm gs i e : frame x d d' -> sim_map d Mm Ms -> own_keys Ms ->
  (forall k b, k <> key -> Ms !! k = Some b -> g_spillKey (group b) <> x \/ g_spillKey (group b) = "") ->
  sim d' gm gs -> (g_spillKey gs <> "" -> contents d !! g_spillKey gs = None) ->
  sim_map d' (<[key := mkDG gm i e]> Mm) (<[key := mkDG gs i e]> Ms) /\ own_keys (<[key := mkDG gs i e]> Ms).
Proof.
  intros F S O N Sg Fresh. split.
  - intros k. destruct (decide (k = key)) as [->|Nk]; [rewrite !lookup_insert_eq; cbn; by split; [|split]|].
    rewrite !lookup_insert_ne by done. eapply sim_entry_frame; [done|apply S|]. intros dg E. by eapply N.
  - assert (forall k b, Ms !! k = Some b -> g_spillKey (group b) <> "" -> g_spillKey (group b) <> g_spillKey gs) as Dist.
    { intros k b E Ne Eq. pose proof (S k) as Sk. rewrite E in Sk. destruct (Mm !! k) as [a|]; [|done]. destruct Sk as (_ & _ & Sk).
      pose proof (sim_stored _ _ _ Sk Ne) as C. rewrite Eq in C, Ne. by rewrite Fresh in C. }
    intros k k' b b' [[<- <-]|[Nk E]]%lookup_insert_Some [[<- <-]|[Nk' E']]%lookup_insert_Some Ne Eq; try done; cbn in *.
    + exfalso. eapply (Dist k' b' E'); congruence.
    + exfalso. by eapply (Dist k b E).
    + by eapply (O k k').
Qed.

Lemma own_other Ms key b0 : own_keys Ms -> Ms !! key = Some b0 ->
  forall k b, k <> key -> Ms !! k = Some b -> g_spillKey (group b) <> g_spillKey (group b0) \/ g_spillKey (group b) = "".
Proof.
  intros O E0 k b N E. destruct (decide (g_spillKey (group b) = "")); [by right|left]. intros Eq. apply N. by eapply (O k key).
Qed.

Lemma ingest_sim n t now ttl key p shm shs (dm d : D) : 0 < t -> fine (S n) d -> sim_shard d shm shs ->
  exists shm' shs' d', ingest_shard EncodeAll DecodeAll None now ttl key p shm dm = (shm', dm) /\
    ingest_shard EncodeAll DecodeAll (Some t) now ttl key p shs d = (shs', d') /\ fine n d' /\ sim_shard d' shm' shs'.
Proof.
  intros Pt F [Sl Po Nx Mp Ow]. assert (forall i, slot shs i = slot shm i) as Slot by (intros; unfold slot; by rewrite Sl).
  unfold ingest_shard. rewrite Po. pose proof (Mp key) as Sk.
  destruct (activeMap shm !! key) as [om|] eqn:Em, (activeMap shs !! key) as [os|] eqn:Es; try done.
  - destruct Sk as (Ei & Ee & Sg).
    destruct (update_sim n t now ttl p (group om) (group os) dm d Pt F Sg) as (r & d' & Um & Us & F' & Fr & H).
    rewrite Um, Us. destruct r as [[[gm' b] [gs' b']]|]; [|done]. destruct H as (-> & S' & Fresh).
    pose proof (own_other _ _ _ Ow Es) as Oth. cbn [fmap option_fmap option_map fst snd]. rewrite Ei, Ee. destruct b.
    + eexists _, _, d'. split; [reflexivity|]. split; [reflexivity|]. split; [done|].
      destruct (sim_insert _ d d' _ _ key gm' gs' ((currentPos shm + ttl) mod wheelSize) (nextElement shm) Fr Mp Ow Oth S' Fresh) as [M' O'].
      split; cbn [set_active PushBack Remove slots currentPos nextElement activeMap]; rewrite ?Nx; try done.
      unfold Remove, slot. cbn [slots]. by rewrite !Sl.
    + eexists _, _, d'. split; [reflexivity|]. split; [reflexivity|]. split; [done|].
      destruct (sim_insert _ d d' _ _ key gm' gs' (slotIndex om) (element om) Fr Mp Ow Oth S' Fresh) as [M' O']. by split.
  - unfold new_group. change (spillIfNeeded None p dm) with (p, @None string, dm).
    destruct (spillIfNeeded (Some t) p d) as [[p' k] d'] eqn:Sp.
    destruct (spill_sim n t p (DataType p) now (now + ttl) d p' k d' Pt F Sp) as (F' & Sub & S' & Fresh).
    assert (frame "" d d') as Fr by (intros x y _ H; by eapply lookup_weaken).
    eexists _, _, d'. split; [reflexivity|]. split; [reflexivity|]. split; [done|].
    destruct (sim_insert "" d d' _ _ key (mkGroup (DataType p) p now (now + ttl) "") (mkGroup (DataType p) p' now (now + ttl) (default "" k))
      ((currentPos shm + ttl) mod wheelSize) (nextElement shm) Fr Mp Ow) as [M' O'];
      [| exact S' | exact Fresh |].
    { intros k0 b0 _ _. destruct (decide (g_spillKey (group b0) = "")); auto. }
    split; cbn [set_active PushBack slots currentPos nextElement activeMap default]; by rewrite ?Nx, ?Slot, ?Sl.
Qed.

(** ** Seconds *)

Lemma expire_lookup l (A : gmap Z DataGroup) k : let '(A', F') := expire_loop l A ∅ in
  A' !! k = (if decide (k ∈ snd <$> l) then None else A !! k) /\ F' !! k = (if decide (k ∈ snd <$> l) then A !! k else None).
Proof.
  pose proof (expire_loop_spec l A ∅) as X. destruct (expire_loop l A ∅) as [A' F']. destruct (X k) as [-> ->]. split; [done|].
  rewrite lookup_empty. case_decide; [|done]. by destruct (A !! k).
Qed.

(** The groups of a shard and those it has handed out, apart but with their own data. *)
Record apart (d : D) (Am As Fm Fs : gmap Z DataGroup) : Prop := {
  ap_active : sim_map d Am As;
  ap_frozen : sim_map d Fm Fs;
  ap_disjoint : As ##ₘ Fs;
  ap_own : own_keys (As ∪ Fs);
}.

Lemma advance_sim d shm shs : sim_shard d shm shs ->
  exists shm' shs' Fm Fs, advance_shard shm ∅ = (shm', Fm) /\ advance_shard shs ∅ = (shs', Fs) /\
    slots shs' = slots shm' /\ currentPos shs' = currentPos shm' /\ nextElement shs' = nextElement shm' /\
    apart d (activeMap shm') (activeMap shs') Fm Fs.
Proof.
  intros [Sl Po Nx Mp Ow]. unfold advance_shard. rewrite Po.
  replace (slot shs) with (slot shm) by (unfold slot; by rewrite Sl).
  set (l := slot shm ((currentPos shm + 1) mod wheelSize)).
  pose proof (fun k => expire_lookup l (activeMap shm) k) as Xm. pose proof (fun k => expire_lookup l (activeMap shs) k) as Xs.
  destruct (expire_loop l (activeMap shm) ∅) as [Am Fm], (expire_loop l (activeMap shs) ∅) as [As Fs].
  eexists _, _, _, _. split; [reflexivity|]. split; [reflexivity|]. split; [cbn; by rewrite Sl|]. split; [done|]. split; [done|].
  cbn [activeMap]. assert (As ∪ Fs = activeMap shs) as U.
  { apply map_eq. intros k. rewrite lookup_union. destruct (Xs k) as [-> ->]. case_decide; by destruct (activeMap shs !! k). }
  split.
  - intros k. destruct (Xm k) as [-> _], (Xs k) as [-> _]. case_decide; [done|apply Mp].
  - intros k. destruct (Xm k) as [_ ->], (Xs k) as [_ ->]. case_decide; [apply Mp|done].
  - apply map_disjoint_spec. intros k x y H1 H2. destruct (Xs k) as [E1 E2]. rewrite E1 in H1. rewrite E2 in H2. by case_decide.
  - by rewrite U.
Qed.

Definition seen (l : list (Z * Res panic TailSamplingOutcome)) : list (Z * Res panic (option DataPacket * bool)) :=
  (fun x => (fst x, visible (snd x))) <$> l.

Definition all_readable (F : gmap Z DataGroup) : Prop := map_Forall (fun _ dg => readable (g_packet (group dg))) F.

Abbreviation outcomes := (TailSamplingOutcomes DecodeAll re_match pb_Unmarshal).

Lemma outcomes_sim n m t order : forall (dm d : D) Am As Fm Fs, fine n d -> apart d Am As Fm Fs -> all_readable Fm ->
  exists om os d', outcomes m None order Fm dm = (om, dm) /\ outcomes m (Some t) order Fs d = (os, d') /\
    seen os = seen om /\ fine n d' /\ sim_map d' Am As.
Proof.
  induction order as [|key order IH]; intros dm d Am As Fm Fs F [SA SF Dj Ow] Rd; cbn [TailSamplingOutcomes].
  { exists [], [], d. do 3 (split; [done|]). by split. }
  pose proof (SF key) as Sk. destruct (Fm !! key) as [gm|] eqn:Em, (Fs !! key) as [gs|] eqn:Es; try done.
  2:{ apply (IH dm d Am As Fm Fs F); [by split|done]. }
  destruct Sk as (_ & _ & Sk). destruct (decide_sim n m t (group gm) (group gs) dm d F Sk (Rd _ _ Em)) as (om & os & d1 & -> & -> & V & F1 & Fr).
  pose proof (own_other _ key gs Ow ltac:(rewrite lookup_union_r; [done|by eapply map_disjoint_Some_r])) as Oth.
  assert (apart d1 Am As (delete key Fm) (delete key Fs)) as Ap.
  { split.
    - intros k. eapply sim_entry_frame; [exact Fr|apply SA|]. intros dg E. eapply (Oth k); [|by apply lookup_union_Some_l].
      intros ->. by eapply map_disjoint_spec.
    - intros k. destruct (decide (k = key)) as [->|N]; [by rewrite !lookup_delete_eq|]. rewrite !lookup_delete_ne by done.
      eapply sim_entry_frame; [exact Fr|apply SF|]. intros dg E. eapply (Oth k); [done|]. by apply lookup_union_Some_r.
    - by apply map_disjoint_delete_r.
    - intros k k' b b' H H'. apply (Ow k k' b b'); (eapply lookup_weaken; [done|]); apply map_union_mono_l, delete_subseteq. }
  destruct (IH dm d1 Am As _ _ F1 Ap (map_Forall_delete _ _ _ Rd)) as (oms & oss & d2 & -> & -> & V' & F2 & S2).
  eexists _, _, d2. split; [reflexivity|]. split; [reflexivity|]. split; [|done].
  change (seen ((key, os) :: oss)) with ((key, visible os) :: seen oss). by rewrite V, V'.
Qed.

(** ** Runs *)

Inductive spill_op :=
| TIngest (now ttl key : Z) (packet : DataPacket)
| TTick (m : gmap string TailSamplingConfigs) (order : list Z).

(** The decisions of each second, and the groups they are about. *)
Fixpoint run_decisions (thr : option Z) (ops : list spill_op) (sh : Shard) (d : D)
    : list (gmap Z DataGroup * list (Z * Res panic TailSamplingOutcome)) :=
  match ops with
  | [] => []
  | TIngest now ttl key packet :: ops =>
      let '(sh, d) := ingest_shard EncodeAll DecodeAll thr now ttl key packet sh d in run_decisions thr ops sh d
  | TTick m order :: ops =>
      let '(sh, fr) := advance_shard sh ∅ in
      let '(os, d) := outcomes m thr order fr d in
      (fr, os) :: run_decisions thr ops sh d
  end.

Lemma run_sim t ops : 0 < t -> forall shm shs (dm d : D), fine (length ops) d -> sim_shard d shm shs ->
  Forall (fun x => all_readable (fst x)) (run_decisions None ops shm dm) ->
  (fun x => seen (snd x)) <$> run_decisions (Some t) ops shs d = (fun x => seen (snd x)) <$> run_decisions None ops shm dm.
Proof.
  intros Pt. induction ops as [|[now ttl key p|m order] ops IH]; intros shm shs dm d F S Rd; [done| |]; cbn [run_decisions] in *.
  - destruct (ingest_sim (length ops) t now ttl key p shm shs dm d Pt F S) as (shm' & shs' & d' & Em & Es & F' & S'). rewrite Em in *. rewrite Es. by apply IH.
  - destruct (advance_sim d shm shs S) as (shm' & shs' & Fm & Fs & Em & Es & Sl & Po & Nx & Ap). rewrite Em in *. rewrite Es.
    assert (fine (length ops) d) as F' by (destruct F as (? & ? & ?); split; [done|]; split; [done|cbn [length] in *; lia]).
    destruct (outcomes m None order Fm dm) as [om dm'] eqn:Om. apply list.Forall_cons in Rd as [R1 Rd].
    destruct (outcomes_sim (length ops) m t order dm d _ _ _ _ F' Ap R1) as (om' & os & d' & Om' & -> & V & F'' & SA). rewrite Om in Om'. simplify_eq.
    cbn [fmap list_fmap snd]. f_equal; [done|]. apply IH; [done| |done]. split; try done.
    intros k k' b b' H H'. apply (ap_own _ _ _ _ _ Ap k k' b b'); by apply lookup_union_Some_l.
Qed.

(** C9: spilling is invisible for payloads that can be read. A shard that writes the
    payloads over a threshold to a spiller, and reads them back only when a decision needs
    them, takes for any sequence of packets and seconds the same decisions and keeps the
    same packets, payloads included, as a shard that holds everything in memory, provided
    that the spiller keeps its laws, has room and does not fail, and that each payload of
    a group that is handed out is compressed or has a first point that can be decoded.
    (For a payload that cannot be decoded the decision in memory is no match, and the one
    from the stored summary may differ.) *)
Theorem spill_transparent (t : Z) (ops : list spill_op) (d : D) :
  0 < t -> good d -> reliable d -> zlen ops <= room d ->
  Forall (fun x => all_readable (fst x)) (run_decisions None ops newShard d) ->
  (fun x => seen (snd x)) <$> run_decisions (Some t) ops newShard d
  = (fun x => seen (snd x)) <$> run_decisions None ops newShard d.
Proof.
  intros Pt G R Rm Rd. by apply run_sim.
Qed.

(** A merge that fails leaks the stored payload.  When a packet arrives for a group
    whose payload is stored, the payload is read back before the merge; if the merge
    fails, the group forgets the key, and the stored data is never deleted. *)
Theorem failed_merge_leaks (t now ttl : Z) (packet : DataPacket) (gm gs : Group) (d : D) :
  good d -> reliable d -> 0 <= room d -> sim d gm gs -> g_spillKey gs <> "" ->
  mergePacketPayload EncodeAll DecodeAll (g_packet gm) packet = None ->
  exists d', update_group EncodeAll DecodeAll (Some t) now ttl packet gs d = (Some (gm, false), d') /\
    g_spillKey gm = "" /\ contents d' !! g_spillKey gs = Some (PointsPayload (g_packet gm)).
Proof.
  intros G R Rm S N M. destruct (hydrate_sim O t d gm gs ltac:(by split) S) as (d' & H & _ & C).
  exists d'. unfold update_group. rewrite H, M. split; [done|]. split; [apply S|]. rewrite C. by apply sim_stored.
Qed.

End transparent.
