(* ===== verification/AggrSpillFile.v ===== *)
(** * Tail sampling: payloads in files ([src/aggregate/spill.go])

    [FilePayloadSpiller] keeps one file per payload in a directory of its own.  The model
    has the files of the directory, the counter, the readings of the clock by call, and
    the I/O errors to come: [None] is success, [Some kept] a failure, for a write one that
    leaves the first [kept] bytes, or no file.  It satisfies the contract of [AggrSpill]. *)

From S2P Require Import Prelude GoNum PointKV PointCheck PointProto FilterAst AggrPacket AggrPred AggrConfig AggrWheel AggrWheelThms AggrSpill AggrPredThms AggrFast AggrSampler.
From Stdlib Require Import Ascii.

(** [fmt.Sprintf("%x_%d", nanos, seq)] *)
Definition spill_key (nanos seq : Z) : string := (FormatUint 16 nanos ++ "_" ++ FormatUint 10 seq)%string.

(** ** The spiller *)

Definition spill_char (c : ascii) : bool :=
  let n := Z.of_N (N_of_ascii c) in
  ((48 <=? n) && (n <=? 57)) || ((97 <=? n) && (n <=? 102)) || (n =? 95).

Fixpoint all_chars (P : ascii -> bool) (s : string) : bool :=
  match s with EmptyString => true | String c s => P c && all_chars P s end.

Definition validSpillKey (key : string) : bool :=
  negb ((key =? "")%string || (64 <? Z.of_nat (String.length key))) && all_chars spill_char key.

Record FileSpiller := mkFS {
  dir_files : gmap string bytes;
  fs_seq : Z;
  clock : Z -> Z;
  faults : list (option (option nat));
}.

(** [NewFilePayloadSpiller] on a directory that can be cleared. *)
Definition NewFilePayloadSpiller (clk : Z -> Z) (flt : list (option (option nat))) : FileSpiller := mkFS ∅ 0 clk flt.

Definition next_io (d : FileSpiller) : option (option nat) := default None (head (faults d)).

Definition file_Put (payload : bytes) (d : FileSpiller) : option string * FileSpiller :=
  let n := int64 (fs_seq d + 1) in
  let key := spill_key (clock d n) n in
  match next_io d with
  | None => (Some key, mkFS (<[key := payload]> (dir_files d)) n (clock d) (tail (faults d)))
  | Some (Some kept) => (None, mkFS (<[key := take kept payload]> (dir_files d)) n (clock d) (tail (faults d)))
  | Some None => (None, mkFS (dir_files d) n (clock d) (tail (faults d)))
  end.

Definition file_Get (key : string) (d : FileSpiller) : option bytes * FileSpiller :=
  if validSpillKey key then
    (match next_io d with None => dir_files d !! key | Some _ => None end,
     mkFS (dir_files d) (fs_seq d) (clock d) (tail (faults d)))
  else (None, d).

Definition file_Delete (key : string) (d : FileSpiller) : FileSpiller :=
  if validSpillKey key then
    mkFS (match next_io d with None => delete key (dir_files d) | Some _ => dir_files d end) (fs_seq d) (clock d) (tail (faults d))
  else d.

#[export] Instance file_spiller : PayloadSpiller FileSpiller :=
  {| sp_Put := file_Put; sp_Get := file_Get; sp_Delete := file_Delete |}.

(** ** Keys are well formed and distinct *)

Lemma digits_chars P f b : 2 <= b <= 16 -> (forall d, 0 <= d < b -> P (base_digit d) = true) ->
  forall n acc, all_chars P acc = true -> all_chars P (digits_of f b n acc) = true.
Proof.
  intros Hb HP. induction f as [|f IH]; intros n acc Ha; [done|]. cbn [digits_of].
  assert (all_chars P (String (base_digit (n mod b)) acc) = true).
  { cbn. rewrite HP by (apply Z.mod_pos_bound; lia). done. }
  destruct (n <? b); auto.
Qed.

Lemma digits_length f b : 2 <= b <= 16 -> forall k n acc, (0 < k)%nat -> 0 <= n < b ^ Z.of_nat k ->
  (String.length (digits_of f b n acc) <= k + String.length acc)%nat.
Proof.
  intros Hb. induction f as [|f IH]; intros k n acc Hk Hn; [cbn; lia|]. cbn [digits_of].
  destruct (Z.ltb_spec n b); [cbn; lia|]. destruct k as [|[|k]]; [lia|cbn in Hn; lia|].
  assert (n / b < b ^ Z.of_nat (S k)).
  { apply Z.div_lt_upper_bound; [lia|]. rewrite (Nat2Z.inj_succ (S k)), Z.pow_succ_r in Hn by lia. lia. }
  assert (0 <= n / b) by (apply Z.div_pos; lia).
  specialize (IH (S k) (n / b) (String (base_digit (n mod b)) acc) ltac:(lia) ltac:(lia)). cbn [String.length] in IH. lia.
Qed.

Definition no_underscore (c : ascii) : bool := negb (Z.of_N (N_of_ascii c) =? 95).

Lemma base_digit_chars d : 0 <= d < 16 -> spill_char (base_digit d) = true /\ no_underscore (base_digit d) = true.
Proof. intros H. by hex_cases d. Qed.

Lemma append_cons c s t : (String c s ++ t)%string = String c (s ++ t).
Proof. reflexivity. Qed.

Lemma all_chars_app P s t : all_chars P (s ++ t) = all_chars P s && all_chars P t.
Proof. induction s as [|c s IH]; [done|]. rewrite append_cons. cbn [all_chars]. by rewrite IH, andb_assoc. Qed.

Lemma length_append s t : String.length (s ++ t) = (String.length s + String.length t)%nat.
Proof. induction s as [|c s IH]; [done|]. rewrite append_cons. cbn [String.length]. by rewrite IH. Qed.

Lemma key_valid t n : 0 <= t < 2 ^ 63 -> 0 <= n < 2 ^ 63 -> validSpillKey (spill_key t n) = true.
Proof.
  intros Ht Hn. unfold validSpillKey, spill_key. rewrite !all_chars_app, !length_append.
  assert (forall b m, 2 <= b <= 16 -> all_chars spill_char (FormatUint b m) = true) as C.
  { intros b m Hb. unfold FormatUint. apply digits_chars; [done| |done]. intros d Hd. apply base_digit_chars. lia. }
  rewrite !C by lia. cbn [all_chars andb String.length].
  pose proof (digits_length (S (Z.to_nat (Z.log2 t))) 16 ltac:(lia) 16 t "" ltac:(lia) ltac:(cbn; lia)) as L1.
  pose proof (digits_length (S (Z.to_nat (Z.log2 n))) 10 ltac:(lia) 19 n "" ltac:(lia) ltac:(cbn; lia)) as L2.
  fold (FormatUint 16 t) in L1. fold (FormatUint 10 n) in L2. cbn [String.length] in L1, L2.
  match goal with |- context [64 <? ?x] => destruct (Z.ltb_spec 64 x) as [G|_]; [exfalso; lia|] end.
  by destruct (FormatUint 16 t).
Qed.

(** The part behind the underscore determines the counter. *)
Fixpoint after_underscore (s : string) : string :=
  match s with EmptyString => EmptyString | String c s => if no_underscore c then after_underscore s else s end.

Lemma after_underscore_app s t : all_chars no_underscore s = true -> after_underscore (s ++ ("_" ++ t)) = t.
Proof. induction s as [|c s IH]; [done|]. rewrite append_cons. cbn. intros [-> H]%andb_true_iff. auto. Qed.

Lemma key_inj t n t' n' : 0 <= n -> 0 <= n' -> spill_key t n = spill_key t' n' -> n = n'.
Proof.
  intros Hn Hn' E.
  assert (forall m, all_chars no_underscore (FormatUint 16 m) = true) as C.
  { intros m. unfold FormatUint. apply digits_chars; [lia| |done]. intros d Hd. by apply base_digit_chars. }
  apply (f_equal after_underscore) in E. unfold spill_key in E.
  rewrite !after_underscore_app in E by apply C.
  by rewrite <- (value_Format 10 n), <- (value_Format 10 n'), E by lia.
Qed.

(** ** The contract *)

Record file_good (d : FileSpiller) : Prop := {
  fg_seq : 0 <= fs_seq d < 2 ^ 63;
  fg_clock : forall n, 0 <= clock d n < 2 ^ 63;
  fg_keys : forall k b, dir_files d !! k = Some b -> exists t n, k = spill_key t n /\ 0 <= t < 2 ^ 63 /\ 0 <= n <= fs_seq d;
}.

Lemma file_fresh d : file_good d -> fs_seq d < 2 ^ 63 - 1 ->
  int64 (fs_seq d + 1) = fs_seq d + 1 /\ dir_files d !! spill_key (clock d (fs_seq d + 1)) (fs_seq d + 1) = None.
Proof.
  intros [Sq Ck Ks] Rm. split; [apply int64_small; unfold in_int64; lia|].
  destruct (dir_files d !! _) as [b|] eqn:E; [|done]. destruct (Ks _ _ E) as (t & n & Eq & Ht & Hn).
  apply key_inj in Eq; lia.
Qed.

Lemma file_put_good d b kf : file_good d -> fs_seq d < 2 ^ 63 - 1 ->
  let n := fs_seq d + 1 in
  file_good (mkFS (<[spill_key (clock d n) n := b]> (dir_files d)) n (clock d) kf) /\ file_good (mkFS (dir_files d) n (clock d) kf).
Proof.
  intros [Sq Ck Ks] Rm n. assert (forall k x, dir_files d !! k = Some x -> exists t m, k = spill_key t m /\ 0 <= t < 2 ^ 63 /\ 0 <= m <= n) as Old.
  { intros k x (t & m & -> & Ht & Hm)%Ks. exists t, m. split; [done|]. subst n. lia. }
  split; split; cbn; try done; try (subst n; lia).
  intros k x [[<- <-]|[_ H]]%lookup_insert_Some; [|eauto]. exists (clock d n), n. split; [done|]. split; [done|]. subst n. lia.
Qed.

Definition no_faults (d : FileSpiller) : Prop := Forall (eq None) (faults d).

Lemma no_faults_tail l : Forall (eq (@None (option nat))) l -> Forall (eq None) (tail l) /\ default None (head l) = None.
Proof. destruct l as [|x l]; [done|]. by intros [<- H]%list.Forall_cons. Qed.

Lemma file_put_law p d r d' : file_good d -> 0 < 2 ^ 63 - 1 - fs_seq d -> file_Put p d = (r, d') ->
  file_good d' /\ (no_faults d -> no_faults d') /\ 2 ^ 63 - 1 - fs_seq d - 1 <= 2 ^ 63 - 1 - fs_seq d' /\
  match r with
  | Some k => k <> "" /\ dir_files d !! k = None /\ dir_files d' = <[k := p]> (dir_files d)
  | None => dir_files d ⊆ dir_files d'
  end.
Proof.
  intros G Rm E. destruct (file_fresh d G ltac:(lia)) as [Sq Fr]. unfold file_Put, next_io in E. rewrite Sq in E.
  set (n := fs_seq d + 1) in *.
  assert (no_faults d -> Forall (eq None) (tail (faults d))) as Nf by (intros H; by apply no_faults_tail in H as [H _]).
  destruct (default None (head (faults d))) as [[kept|]|]; simplify_eq.
  - destruct (file_put_good d (take kept p) (tail (faults d)) G ltac:(lia)) as [G1 _]. split; [done|]. split; [done|]. cbn. split; [lia|].
    by apply insert_subseteq.
  - destruct (file_put_good d p (tail (faults d)) G ltac:(lia)) as [_ G1]. split; [done|]. split; [done|]. cbn. split; [lia|]. done.
  - destruct (file_put_good d p (tail (faults d)) G ltac:(lia)) as [G1 _]. split; [done|]. split; [done|]. cbn. split; [lia|].
    split; [|done]. unfold spill_key. by destruct (FormatUint 16 _).
Qed.

Lemma file_good_files d m kf : file_good d -> m ⊆ dir_files d -> file_good (mkFS m (fs_seq d) (clock d) kf).
Proof. intros [Sq Ck Ks] S. split; try done. cbn. intros k b H. eapply Ks. by eapply lookup_weaken. Qed.

Lemma file_get_law k d r d' : file_good d -> file_Get k d = (r, d') ->
  file_good d' /\ (no_faults d -> no_faults d') /\ 2 ^ 63 - 1 - fs_seq d <= 2 ^ 63 - 1 - fs_seq d' /\ dir_files d' = dir_files d /\
  match r with Some p => dir_files d !! k = Some p | None => dir_files d !! k = None \/ ~ no_faults d end.
Proof.
  intros G E. unfold file_Get in E. destruct (validSpillKey k) eqn:V; simplify_eq.
  - split; [by apply file_good_files|]. split; [intros H; by apply no_faults_tail in H as [H _]|]. split; [done|]. split; [done|].
    unfold next_io. destruct (default None (head (faults d))) eqn:F.
    + right. intros H. apply no_faults_tail in H as [_ H]. by rewrite F in H.
    + destruct (dir_files d !! k); auto.
  - split; [done|]. split; [done|]. split; [done|]. split; [done|]. left. destruct (dir_files d' !! k) as [b|] eqn:L; [|done].
    destruct G as [Sq Ck Ks]. destruct (Ks _ _ L) as (t & n & -> & Ht & Hn). by rewrite key_valid in V by lia.
Qed.

Lemma file_delete_law k d : file_good d -> file_good (file_Delete k d) /\ (no_faults d -> no_faults (file_Delete k d)) /\
  2 ^ 63 - 1 - fs_seq d <= 2 ^ 63 - 1 - fs_seq (file_Delete k d) /\ delete k (dir_files d) ⊆ dir_files (file_Delete k d).
Proof.
  intros G. unfold file_Delete. pose proof (delete_subseteq (dir_files d) k) as S. destruct (validSpillKey k); [|done].
  split; [apply file_good_files; [done|]; by destruct (next_io d)|].
  split; [intros H; by apply no_faults_tail in H as [H _]|]. split; [done|]. cbn. by destruct (next_io d).
Qed.

(** The directory of files keeps the contract that the sampler relies on. *)
#[export] Instance file_laws : SpillerLaws FileSpiller :=
  {| contents := dir_files; good := file_good; reliable := no_faults; room := fun d => 2 ^ 63 - 1 - fs_seq d;
     put_law := file_put_law; get_law := file_get_law; delete_law := file_delete_law |}.

(** ** Round trip *)

Inductive file_op := FPut (b : bytes) | FGet (k : string) | FDelete (k : string).

Definition file_step (o : file_op) (d : FileSpiller) : FileSpiller :=
  match o with
  | FPut b => snd (file_Put b d)
  | FGet k => snd (file_Get k d)
  | FDelete k => file_Delete k d
  end.

Lemma file_steps_keep ops : forall d k b, file_good d -> no_faults d -> fs_seq d + zlen ops < 2 ^ 63 ->
  dir_files d !! k = Some b -> FDelete k ∉ ops ->
  let d' := fold_left (fun d o => file_step o d) ops d in file_good d' /\ no_faults d' /\ dir_files d' !! k = Some b.
Proof.
  induction ops as [|o ops IH]; intros d k b G Nf Sq H Nd; [done|]. cbn [fold_left].
  apply not_elem_of_cons in Nd as [No Nd]. assert (zlen (o :: ops) = zlen ops + 1) as Zl by (unfold zlen; cbn; lia).
  assert (0 <= zlen ops) by (unfold zlen; lia).
  destruct o as [x|x|x]; cbn [file_step].
  - destruct (file_Put x d) as [r d1] eqn:E. destruct (file_put_law _ _ _ _ G ltac:(lia) E) as (G1 & N1 & R1 & L1). cbn [snd].
    apply IH; [done|auto|lia| |done]. destruct r as [k'|]; [|by eapply lookup_weaken].
    destruct L1 as (_ & Fr & ->). rewrite lookup_insert_ne; [done|]. intros ->. by rewrite Fr in H.
  - destruct (file_Get x d) as [r d1] eqn:E. destruct (file_get_law _ _ _ _ G E) as (G1 & N1 & R1 & C1 & _). cbn [snd].
    apply IH; [done|auto|lia|by rewrite C1|done].
  - destruct (file_delete_law x d G) as (G1 & N1 & R1 & C1). apply IH; [done|auto|lia| |done].
    eapply lookup_weaken; [|done]. rewrite lookup_delete_ne; [done|]. intros ->. by apply No.
Qed.

(** A payload that was stored is read back.  Whatever else is stored or deleted in
    between, and whatever the clock shows, reading the key that [Put] returned gives the
    bytes that were put, until the key is deleted; every key that is handed out passes the
    test for keys and differs from all others. *)
Theorem spilled_read_back (b : bytes) (d d1 : FileSpiller) (k : string) (ops : list file_op) :
  file_good d -> no_faults d -> fs_seq d + zlen ops + 1 < 2 ^ 63 ->
  file_Put b d = (Some k, d1) -> FDelete k ∉ ops ->
  validSpillKey k = true /\ fst (file_Get k (fold_left (fun d o => file_step o d) ops d1)) = Some b /\
  dir_files d !! k = None.
Proof.
  intros G Nf Sq E Nd. assert (0 <= zlen ops) by (unfold zlen; lia).
  destruct (file_put_law _ _ _ _ G ltac:(lia) E) as (G1 & N1 & R1 & Nk & Fr & C).
  assert (dir_files d1 !! k = Some b) as L by by rewrite C, lookup_insert_eq.
  destruct (file_steps_keep ops d1 k b G1 (N1 Nf) ltac:(lia) L Nd) as (G2 & N2 & L2).
  assert (validSpillKey k = true) as V.
  { destruct G1 as [S1 Ck Ks]. destruct (Ks _ _ L) as (t & n & -> & Ht & Hn). apply key_valid; lia. }
  split; [done|]. split; [|done]. unfold file_Get, next_io. rewrite V. cbn [fst].
  apply no_faults_tail in N2 as [_ ->]. done.
Qed.

Definition a_spiller : FileSpiller := NewFilePayloadSpiller (fun _ => 1700000000000000000) [].

Lemma a_spiller_good : file_good a_spiller.
Proof. split; [cbn; lia|cbn; lia|]. cbn. intros k b. by rewrite lookup_empty. Qed.

Lemma spilled_read_back_witness :
  fst (file_Get "17979cfe362a0000_1" (fold_left (fun d o => file_step o d) [FPut (to_bytes "other"); FGet "zz"] (snd (file_Put (to_bytes "payload") a_spiller))))
  = Some (to_bytes "payload").
Proof.
  apply (spilled_read_back (to_bytes "payload") a_spiller (snd (file_Put (to_bytes "payload") a_spiller)) "17979cfe362a0000_1"
    [FPut (to_bytes "other"); FGet "zz"]); [exact a_spiller_good|by apply Forall_nil|by vm_compute|by vm_compute|].
  intros H. by repeat (apply elem_of_cons in H as [H|H]; [done|]); apply elem_of_nil in H.
Defined.

(** * Tail sampling: a sampler at work

    Concrete runs that satisfy the premises of the theorems about the wheel, the sampler
    and the storage of payloads. *)

Definition a_config : TailSamplingConfigs :=
  mkConfigs (Some (mkTrace (2 * Second) [] [] [Some slow_root; Some failed] "trace_id")) None None 1.

Definition configs : gmap string TailSamplingConfigs := {["tkn" := a_config]}.

(** A hash function for the examples. *)
Definition len_hash (s : string) : Z := Z.of_nat (String.length s) mod 2 ^ 64.

Definition wheel_ops : list shard_op := [SIngest None 100 2 7 trace; SAdvance; SAdvance].

Lemma wheel_ops_ok : Forall op_ok wheel_ops.
Proof. apply Forall_cons; [cbn; unfold wheelSize; lia|]. by repeat apply Forall_cons. Qed.

Lemma wheel_refines_witness :
  snd (run_spec id Some wheel_ops ∅ a_spiller) = [∅; {[7 := mkGroup "tracing" trace 100 102 ""]}].
Proof.
  pose proof (wheel_refines id Some wheel_ops newShard a_spiller newShard_ok wheel_ops_ok) as H.
  destruct (run_shard id Some wheel_ops newShard a_spiller) as [[sh d] out] eqn:E. destruct H as [_ H].
  change (abs newShard) with (∅ : deadlines) in H. rewrite H. cbn [snd].
  apply (f_equal snd) in E. cbn [snd] in E. rewrite <- E. by vm_compute.
Defined.

(** Another packet of the same trace. *)
Definition later : DataPacket := set_payload (to_bytes "more") PayloadCompressionNone trace.

Lemma group_key_injective_witness : GroupIdHash later = GroupIdHash trace.
Proof.
  apply (group_key_injective len_hash later trace); [intros s; apply Z.mod_pos_bound; lia|by vm_compute..].
Defined.

Definition a_sampler : @GlobalSampler FileSpiller := mkSampler [newShard; newShard] configs (Some 10) a_spiller.

Lemma expires_on_time_witness :
  match AdvanceTime (fst (AdvanceTime (Ingest id Some len_hash 100 trace a_sampler))) with
  | (_, fr) => (group <$> fr) !! tailSamplingGroupMapKey len_hash trace
               = Some (fst (new_group (Some 10) 100 2 trace a_spiller))
  end.
Proof.
  pose proof (expires_on_time id Some len_hash (fun _ => None) 0 a_sampler 100 trace 2 [OAdvance]) as H.
  assert (sampler_ok a_sampler) as W by (repeat apply Forall_cons; by apply newShard_ok || apply Forall_nil).
  specialize (H W ltac:(done)).
  assert (forall j sh, shards a_sampler !! j = Some sh -> activeMap sh !! tailSamplingGroupMapKey len_hash trace = None) as Fresh
    by (intros [|[|j]] sh Hj; cbn in Hj; by simplify_eq).
  specialize (H Fresh eq_refl ltac:(apply Forall_cons; [by intros ?|apply Forall_nil]) eq_refl). unfold run, step in H.
  destruct (AdvanceTime (Ingest id Some len_hash 100 trace a_sampler)) as [s1 fr1]. cbn [fst].
  destruct (AdvanceTime s1) as [s2 fr2]. by destruct H as (_ & H & _).
Defined.

Definition spill_ops : list spill_op := [TIngest 100 2 7 trace; TTick configs []; TTick configs [7]].

#[export] Instance readable_dec pb p : Decision (readable pb p).
Proof. unfold readable. apply _. Defined.

#[export] Instance all_readable_dec pb F : Decision (all_readable pb F).
Proof. unfold all_readable. apply _. Defined.

Lemma spill_transparent_witness :
  (fun x => seen (snd x)) <$> run_decisions id Some known_regexes read_fields (Some 10) spill_ops newShard a_spiller
  = [[]; [(7, Ok (Some trace, true))]].
Proof.
  rewrite (spill_transparent id Some known_regexes read_fields 10 spill_ops a_spiller);
    [by vm_compute|done|exact a_spiller_good|by apply Forall_nil|by vm_compute|].
  refine (proj1 (bool_decide_eq_true _) _). by vm_compute.
Defined.

(** The group of the trace, spilled; a packet with a broken compressed payload arrives. *)
Definition spilled_trace : Group * FileSpiller := new_group (Some 10) 100 2 trace a_spiller.
Definition broken : DataPacket := set_payload (to_bytes "x") PayloadCompressionZstd trace.

Lemma failed_merge_leaks_witness :
  exists d', update_group id (fun _ => None) (Some 10) 101 2 broken (fst spilled_trace) (snd spilled_trace)
    = (Some (mkGroup "tracing" trace 100 102 "", false), d') /\
    dir_files d' !! g_spillKey (fst spilled_trace) = Some (PointsPayload trace).
Proof.
  assert (sim (snd spilled_trace) (mkGroup "tracing" trace 100 102 "") (fst spilled_trace)) as S.
  { split; [done|]. right. exists (g_spillKey (fst spilled_trace)). split; [by vm_compute|]. split; [by vm_compute|].
    split; [by vm_compute|reflexivity]. }
  destruct (file_put_law (PointsPayload trace) a_spiller (fst (file_Put (PointsPayload trace) a_spiller))
    (snd (file_Put (PointsPayload trace) a_spiller)) a_spiller_good ltac:(by vm_compute) ltac:(by destruct (file_Put _ _))) as (G & Nf & _).
  destruct (failed_merge_leaks id (fun _ => None) 10 101 2 broken (mkGroup "tracing" trace 100 102 "") (fst spilled_trace) (snd spilled_trace))
    as (d' & E & _ & C); [exact G|by apply Nf, Forall_nil|by vm_compute|exact S|by vm_compute|reflexivity|].
  exists d'. by split.
Defined.
