(* ===== verification/AggrGroup.v ===== *)
(** * Tail sampling: grouping points into packets ([src/aggregate/tail-sampling.go], [point.go])

    [PickTrace] and [pickByGroupKey] append each point to the packet of its group and keep
    the summary of the packet.  A point is its protobuf message.  [FormatFloat] is a
    parameter; the compression of the finished packets is that of [AggrPacket]. *)

From S2P Require Import Prelude GoNum Wire PointKV PointCheck PointNew PointProto FilterAst AggrPacket AggrPred AggrConfig AggrWheel WireThms PointFindings PointProtoThms FilterEval AggrPredThms AggrFast.

(** [Point.Get] as the grouping code looks at it; a value that is nil is absent, an array
    is a value of another type. *)
Definition point_get (fs : PointKV.KVs) : FilterAst.KVs :=
  fun k => match Get (to_bytes k) fs with
           | Some f => match Val f with
                       | Some (Field_A _) => Some (VOther "array" 0)
                       | None => None
                       | v => Some (val_gval v)
                       end
           | None => None
           end.

(** [getTime]: start and duration in nanoseconds; [GetI], then [GetF]. *)
Definition int_field (fs : PointKV.KVs) (k : string) : Z :=
  match Get (to_bytes k) fs with
  | Some f => match Val f with
              | Some (Field_I x) => x
              | Some (Field_F x) => if SFeqb x (S754_zero false) then 0 else int64_of_float x
              | _ => 0
              end
  | None => 0
  end.

Definition getTime (fs : PointKV.KVs) : Z * Z :=
  (int64 (int_field fs "start_time" * 1000), int64 (int_field fs "duration" * 1000)).

(** [hashTraceID]. *)
Definition hashTraceID (s : bytes) : Z := fnv64a s.

(** ** Packets *)

Definition new_packet (id : Z) (tid source dataType : string) (version : Z) (groupKey : string) : DataPacket :=
  mkPacket id tid "" source dataType version false groupKey 0 0 0 [] 0 PayloadCompressionNone zero_preds.

(** [appendPointPayload]. *)
Definition appendPointPayload (pt : PBPoint) (p : DataPacket) : DataPacket :=
  mkPacket (GroupIdHash p) (RawGroupId p) (Token p) (Source p) (DataType p) (ConfigVersion p) (HasError p)
    (GroupKey p) (int32 (PointCount p + 1)) (TraceStart p) (TraceEnd p)
    (AppendPointToPBPointsPayload (PointsPayload p) (Some pt))
    (if MaxPointTime p <? pb_Time pt then pb_Time pt else MaxPointTime p)
    (PayloadCompression p) (preds p).

Definition set_error (pt : PBPoint) (p : DataPacket) : DataPacket :=
  mkPacket (GroupIdHash p) (RawGroupId p) (Token p) (Source p) (DataType p) (ConfigVersion p)
    (HasError p || bool_decide (GetTag (to_bytes "status") (pb_Fields pt) = to_bytes "error"))
    (GroupKey p) (PointCount p) (TraceStart p) (TraceEnd p) (PointsPayload p) (MaxPointTime p)
    (PayloadCompression p) (preds p).

Definition set_times (pt : PBPoint) (p : DataPacket) : DataPacket :=
  let '(start, duration) := getTime (pb_Fields pt) in
  let stop := int64 (start + duration) in
  let s := if TraceStart p =? 0 then start else TraceStart p in
  let s := if start <? s then start else s in
  let e := if TraceEnd p =? 0 then stop else TraceEnd p in
  let e := if e <? stop then stop else e in
  mkPacket (GroupIdHash p) (RawGroupId p) (Token p) (Source p) (DataType p) (ConfigVersion p) (HasError p)
    (GroupKey p) (PointCount p) s e (PointsPayload p) (MaxPointTime p) (PayloadCompression p) (preds p).

Definition applySpanPredicates (pt : PBPoint) (p : DataPacket) : DataPacket :=
  mkPacket (GroupIdHash p) (RawGroupId p) (Token p) (Source p) (DataType p) (ConfigVersion p) (HasError p)
    (GroupKey p) (PointCount p) (TraceStart p) (TraceEnd p) (PointsPayload p) (MaxPointTime p) (PayloadCompression p)
    (applySpanPredicatesWith (point_get (pb_Fields pt)) (preds p)).

(** [compressPacketPayload]. *)
Definition compressPacketPayload (EncodeAll : bytes -> bytes) (p : DataPacket) : DataPacket :=
  let '(b, c) := CompressPointsPayload EncodeAll (PointsPayload p) in set_payload b c p.

(** ** Grouping *)

Section Pick.
Context (EncodeAll : bytes -> bytes) (FormatFloat : spec_float -> string).

(** One point of a trace. *)
Definition trace_point (source : string) (version : Z) (pt : PBPoint) (m : gmap Z DataPacket) : gmap Z DataPacket :=
  match point_get (pb_Fields pt) "trace_id" with
  | Some (VStr tid) =>
      let id := hashTraceID (to_bytes tid) in
      let p := default (new_packet id tid source STracing version "") (m !! id) in
      <[id := applySpanPredicates pt (set_times pt (set_error pt (appendPointPayload pt p)))]> m
  | _ => m
  end.

Definition PickTrace (source : string) (pts : list PBPoint) (version : Z) : gmap Z DataPacket :=
  compressPacketPayload EncodeAll <$> fold_left (fun m pt => trace_point source version pt m) pts ∅.

(** [fieldToString]; arrays are of the types that are ignored. *)
Definition fieldToString (v : option FieldVal) : string :=
  match v with
  | Some (Field_F x) => FormatFloat x
  | Some (Field_I x) => FormatInt x
  | Some (Field_U x) => FormatUint 10 x
  | Some (Field_S x) | Some (Field_D x) => of_bytes x
  | Some (Field_B x) => if x then "true" else "false"
  | Some (Field_A _) | None => ""
  end.

(** The identifier of the group of a point; [None]: it passes through. *)
Definition group_id (groupKey : string) (pt : PBPoint) : option string :=
  match Get (to_bytes groupKey) (pb_Fields pt) with
  | Some f => let tid := fieldToString (Val f) in if (tid =? "")%string then None else Some tid
  | None => None
  end.

Definition group_point (groupKey source category : string) (pt : PBPoint) (st : gmap Z DataPacket * list PBPoint)
    : gmap Z DataPacket * list PBPoint :=
  let '(m, passed) := st in
  match group_id groupKey pt with
  | None => (m, passed ++ [pt])
  | Some tid =>
      let id := hashTraceID (to_bytes tid) in
      let p := default (new_packet id tid source category 0 groupKey) (m !! id) in
      (<[id := applySpanPredicates pt (set_error pt (appendPointPayload pt p))]> m, passed)
  end.

(** [pickByGroupKey]; [PickLogging] and [PickRUM] call it with their category. *)
Definition pickByGroupKey (groupKey source : string) (pts : list PBPoint) (category : string)
    : gmap Z DataPacket * list PBPoint :=
  let '(m, passed) := fold_left (fun st pt => group_point groupKey source category pt st) pts (∅, []) in
  (compressPacketPayload EncodeAll <$> m, passed).

End Pick.

(** ** Backfilling the summary *)

Section Compute.
Context (pb_Unmarshal : bytes -> option PointKV.KVs) (DecodeAll : bytes -> option bytes).

Inductive compute_err : Type := CDecompress | CWalk (e : perr) | CDecode.

(** [ComputeSpanPredicates]: nothing is written on an error. *)
Definition ComputeSpanPredicates (packet : DataPacket) : Res panic (DataPacket * option compute_err) :=
  if packetHasSpanPredicates (preds packet) then Ok (packet, None)
  else
    match DecompressPointsPayload DecodeAll (PointsPayload packet) (PayloadCompression packet) with
    | None => Ok (packet, Some CDecompress)
    | Some payload =>
        match WalkPBPointsPayload payload
                (Some (fun raw (st : Preds * bool) =>
                   match ptWrap_Reset pb_Unmarshal raw with
                   | None => Halt (fst st, true)
                   | Some fs => Go (applySpanPredicatesWith (ptWrap_Get fs) (fst st), snd st)
                   end)) (zero_preds, false) with
        | Err p => Err p
        | Ok (_, Some e) => Ok (packet, Some (CWalk e))
        | Ok ((_, true), None) => Ok (packet, Some CDecode)
        | Ok ((tmp, false), None) =>
            Ok (mkPacket (GroupIdHash packet) (RawGroupId packet) (Token packet) (Source packet) (DataType packet)
                  (ConfigVersion packet) (HasError packet) (GroupKey packet) (PointCount packet) (TraceStart packet)
                  (TraceEnd packet) (PointsPayload packet) (MaxPointTime packet) (PayloadCompression packet) tmp, None)
        end
    end.

End Compute.

(** * Tail sampling: a packet is exactly the points of its group

    Grouping loses nothing and mixes nothing: the packet of a group holds the points of
    the group in their order, and its summary and its count are those of these points.
    Together with [AggrFast] this gives the decision about a trace from its points. *)

(** ** Grouping in general *)

Section fold.
Context (tid_of : PBPoint -> option string) (fresh : Z -> string -> DataPacket) (add : PBPoint -> DataPacket -> DataPacket).

Definition in_group (id : Z) (pt : PBPoint) : bool :=
  match tid_of pt with Some tid => hashTraceID (to_bytes tid) =? id | None => false end.

Definition pick_step (m : gmap Z DataPacket) (pt : PBPoint) : gmap Z DataPacket :=
  match tid_of pt with
  | Some tid =>
      let id := hashTraceID (to_bytes tid) in
      <[id := add pt (default (fresh id tid) (m !! id))]> m
  | None => m
  end.

(** What the points of a group make of its packet. *)
Definition packet_of (id : Z) (pts : list PBPoint) (p : option DataPacket) : option DataPacket :=
  fold_left (fun p pt => Some (add pt (default (fresh id (default "" (tid_of pt))) p))) (List.filter (in_group id) pts) p.

Lemma pick_lookup pts : forall m id, fold_left pick_step pts m !! id = packet_of id pts (m !! id).
Proof.
  unfold packet_of. induction pts as [|pt pts IH]; intros m id; [done|]. cbn [fold_left List.filter]. rewrite IH.
  unfold pick_step, in_group. destruct (tid_of pt) as [tid|] eqn:T; [|done].
  destruct (Z.eqb_spec (hashTraceID (to_bytes tid)) id) as [->|N].
  - cbn [fold_left]. by rewrite lookup_insert_eq, T.
  - by rewrite lookup_insert_ne.
Qed.

(** What is recorded of the points seen. *)
Record records (pts : list PBPoint) (p : DataPacket) : Prop := {
  rec_payload : PointsPayload p = marshalPoints (Some <$> pts) [];
  rec_count : PointCount p = int32 (zlen pts);
  rec_preds : preds p = summary (span_of <$> pts) zero_preds;
  rec_plain : PayloadCompression p = PayloadCompressionNone;
}.

Context (fresh_records : forall id tid, records [] (fresh id tid)).
Context (add_records : forall pts pt p, records pts p -> records (pts ++ [pt]) (add pt p)).

Lemma packet_records id pts : match packet_of id pts None with
  | None => List.filter (in_group id) pts = []
  | Some p => List.filter (in_group id) pts <> [] /\ records (List.filter (in_group id) pts) p
  end.
Proof.
  unfold packet_of. set (l := List.filter (in_group id) pts). clearbody l.
  assert (forall seen p, records seen p -> exists q, fold_left (fun p pt => Some (add pt (default (fresh id (default "" (tid_of pt))) p))) l (Some p) = Some q /\ records (seen ++ l) q) as H.
  { induction l as [|pt l IH]; intros seen p R; [exists p; by rewrite app_nil_r|]. cbn [fold_left default].
    destruct (IH (seen ++ [pt]) (add pt p) (add_records _ _ _ R)) as (q & E & Rq). exists q. by rewrite <- app_assoc in Rq. }
  destruct l as [|pt l]; [done|]. set (step := fun p pt => _) in *.
  enough (exists q, fold_left step (pt :: l) None = Some q /\ records (pt :: l) q) as (q & -> & Rq) by done.
  exact (H [] (fresh id (default "" (tid_of pt))) (fresh_records _ _)).
Qed.

End fold.

(** ** The steps of the two functions *)

Lemma preds_same fs p : applySpanPredicatesWith (point_get fs) p = applySpanPredicatesWith (ptWrap_Get fs) p.
Proof.
  assert (forall A (f : option gval -> A), (forall t n, f (Some (VOther t n)) = f None) -> f (Some VNil) = f None ->
    forall k, f (point_get fs k) = f (ptWrap_Get fs k)) as Same.
  { intros A f Ho Hn k. unfold point_get, ptWrap_Get. destruct (Get _ fs) as [x|]; [|done].
    destruct (Val x) as [[]|]; cbn; by rewrite ?Ho, ?Hn. }
  unfold applySpanPredicatesWith.
  rewrite (Same _ is_error), (Same _ is_http_error), (Same _ is_biz_error), (Same _ is_keep), (Same _ span_duration) by done.
  destruct (span_duration _); [|done]. by rewrite (Same _ (fun v => match v with Some (VStr pid) => _ | _ => _ end)).
Qed.

Lemma int32_succ n : int32 (int32 n + 1) = int32 (n + 1).
Proof.
  unfold int32, wrapS. f_equal.
  replace ((n + 2 ^ (32 - 1)) mod 2 ^ 32 - 2 ^ (32 - 1) + 1 + 2 ^ (32 - 1)) with ((n + 2 ^ (32 - 1)) mod 2 ^ 32 + 1) by lia.
  rewrite Zplus_mod_idemp_l. f_equal. lia.
Qed.

Lemma records_append pts pt p : records pts p -> records (pts ++ [pt]) (applySpanPredicates pt (appendPointPayload pt p)).
Proof.
  intros [Pl Cn Pr Co]. split; cbn [applySpanPredicates appendPointPayload PointsPayload PointCount preds PayloadCompression].
  - rewrite Pl, <- !payload_append, fmap_app, fold_left_app. done.
  - rewrite Cn. assert (zlen (pts ++ [pt]) = zlen pts + 1) as -> by (unfold zlen; rewrite length_app; cbn; lia). apply int32_succ.
  - rewrite Pr, fmap_app. unfold summary. rewrite fold_left_app. cbn. by rewrite preds_same.
  - done.
Qed.

Lemma records_meta pts p q : PointsPayload q = PointsPayload p -> PointCount q = PointCount p -> preds q = preds p ->
  PayloadCompression q = PayloadCompression p -> records pts p -> records pts q.
Proof. intros E1 E2 E3 E4 [P C R Z]. split; congruence. Qed.

Lemma new_packet_records id tid source ty version key : records [] (new_packet id tid source ty version key).
Proof. by split. Qed.

Definition trace_tid (pt : PBPoint) : option string :=
  match point_get (pb_Fields pt) "trace_id" with Some (VStr tid) => Some tid | _ => None end.

Definition add_trace (pt : PBPoint) (p : DataPacket) : DataPacket :=
  applySpanPredicates pt (set_times pt (set_error pt (appendPointPayload pt p))).

Definition add_group (pt : PBPoint) (p : DataPacket) : DataPacket :=
  applySpanPredicates pt (set_error pt (appendPointPayload pt p)).

Lemma add_group_records pts pt p : records pts p -> records (pts ++ [pt]) (add_group pt p).
Proof. intros R. by apply (records_meta _ (applySpanPredicates pt (appendPointPayload pt p))), records_append. Qed.

Lemma add_trace_records pts pt p : records pts p -> records (pts ++ [pt]) (add_trace pt p).
Proof.
  intros R. apply (records_meta _ (applySpanPredicates pt (appendPointPayload pt p))); [..|by apply records_append];
    unfold add_trace, set_times; by destruct (getTime _).
Qed.

Lemma trace_point_step source version pt m : trace_point source version pt m
  = pick_step trace_tid (fun id tid => new_packet id tid source STracing version "") add_trace m pt.
Proof. unfold trace_point, pick_step, trace_tid. by destruct (point_get _ _) as [[]|]. Qed.

(** ** Compression does not change what is in a packet *)

Section compress.
Context (EncodeAll : bytes -> bytes) (DecodeAll : bytes -> option bytes).

(** Frames are not empty and decode to what was encoded. *)
Definition zstd_spec : Prop := forall b, b <> [] -> EncodeAll b <> [] /\ DecodeAll (EncodeAll b) = Some b.

Context (zstd : zstd_spec).

Lemma compress_payload p : PayloadCompression p = PayloadCompressionNone ->
  let q := compressPacketPayload EncodeAll p in
  DecompressPointsPayload DecodeAll (PointsPayload q) (PayloadCompression q) = Some (PointsPayload p) /\
  preds q = preds p /\ PointCount q = PointCount p /\ GroupIdHash q = GroupIdHash p.
Proof.
  intros Co. unfold compressPacketPayload, CompressPointsPayload. destruct (Z.eqb_spec (zlen (PointsPayload p)) 0) as [Z0|Nz].
  { cbn. unfold DecompressPointsPayload. split; [|done]. by rewrite orb_true_r. }
  destruct (Z.leb_spec (zlen (PointsPayload p)) (zlen (EncodeAll (PointsPayload p)))).
  { cbn. unfold DecompressPointsPayload. split; [|done]. by rewrite orb_true_r. }
  cbn [set_payload PointsPayload PayloadCompression]. split; [|done]. unfold DecompressPointsPayload.
  change (PayloadCompressionZstd =? PayloadCompressionNone) with false. change (PayloadCompressionZstd =? PayloadCompressionZstd) with true.
  rewrite orb_false_r. cbn [negb].
  assert (PointsPayload p <> []) as Ne by (intros E; by rewrite E in Nz). destruct (zstd _ Ne) as [Ne' Dec].
  destruct (EncodeAll (PointsPayload p)) as [|x l] eqn:E; [done|]. exact Dec.
Qed.

(** The points of a trace. *)
Definition trace_points (id : Z) (pts : list PBPoint) : list PBPoint := List.filter (in_group trace_tid id) pts.

Definition holds_points (l : list PBPoint) (p : DataPacket) : Prop :=
  DecompressPointsPayload DecodeAll (PointsPayload p) (PayloadCompression p) = Some (marshalPoints (Some <$> l) []) /\
  PointCount p = int32 (zlen l) /\ preds p = summary (span_of <$> l) zero_preds.

Lemma compress_holds l p : records l p -> holds_points l (compressPacketPayload EncodeAll p).
Proof.
  intros [Pl Cn Pr Co]. destruct (compress_payload p Co) as (D & P & C & _). unfold holds_points. rewrite D, P, C. by rewrite Pl, Cn, Pr.
Qed.

Lemma trace_lookup source pts version id :
  match PickTrace EncodeAll source pts version !! id with
  | None => trace_points id pts = []
  | Some p => trace_points id pts <> [] /\ holds_points (trace_points id pts) p
  end.
Proof.
  unfold PickTrace. rewrite lookup_fmap.
  assert (forall m, fold_left (fun m pt => trace_point source version pt m) pts m
    = fold_left (pick_step trace_tid (fun id tid => new_packet id tid source STracing version "") add_trace) pts m) as ->.
  { clear. induction pts as [|pt pts IH]; intros m; [done|]. cbn [fold_left]. by rewrite IH, trace_point_step. }
  rewrite pick_lookup, lookup_empty.
  pose proof (packet_records trace_tid (fun id tid => new_packet id tid source STracing version "") add_trace
    (fun _ _ => new_packet_records _ _ _ _ _ _) add_trace_records id pts) as R.
  destruct (packet_of _ _ _ _ _ _) as [p|]; cbn; [|done].
  destruct R as [N R]. split; [done|]. by apply compress_holds.
Qed.

(** A packet is exactly the points of its trace.  For every identifier, [PickTrace]
    has a packet just when some point belongs to it; the payload, decompressed, is the
    encoding of the points of the trace in their order, the count is their number and the
    summary is theirs, whatever other traces the points are mixed with. *)
Theorem pick_trace_groups (source : string) (pts : list PBPoint) (version id : Z) :
  (PickTrace EncodeAll source pts version !! id = None <-> trace_points id pts = []) /\
  forall p, PickTrace EncodeAll source pts version !! id = Some p -> holds_points (trace_points id pts) p.
Proof.
  pose proof (trace_lookup source pts version id) as H. destruct (PickTrace _ _ _ _ !! id) as [p|].
  - destruct H as [N H]. split; [done|]. by intros q [= <-].
  - split; [done|]. by intros q E.
Qed.

(** C20: the decision about a trace is that of its points. For the packet that [PickTrace]
    makes of a trace whose points decode and whose spans are usual (a text parent_id, a
    body_code that is text if there is one, no floating-point duration, integers of 64
    bits, no nil values), pipelines with simple conditions decide by whether one of the
    points of that trace satisfies the condition: grouping, summaries, compression and the
    fast path together do not change the outcome. *)
Theorem picked_trace_decision (re_match : string -> string -> bool) (pb_Unmarshal : bytes -> option PointKV.KVs)
    (pls : list (option SamplingPipeline)) (source : string) (pts : list PBPoint) (version id : Z) (p : DataPacket) :
  http_regex_spec re_match -> forallb simple_pipeline pls = true ->
  decodes pb_Unmarshal (trace_points id pts) -> usual (span_of <$> trace_points id pts) ->
  PickTrace EncodeAll source pts version !! id = Some p ->
  evaluatePipelines re_match pb_Unmarshal DecodeAll p pls
  = Ok (first_matched (GroupIdHash p) pls ((fun pl => existsb (point_matches re_match pl) (span_of <$> trace_points id pts)) <$> pls)).
Proof.
  intros HR S D U E. pose proof (trace_lookup source pts version id) as H. rewrite E in H. destruct H as (_ & Pl & _ & Pr).
  by apply (fast_walk re_match HR pb_Unmarshal DecodeAll p pls (trace_points id pts)).
Qed.

End compress.

(** ** Groups of logs and sessions *)

Section groups.
Context (EncodeAll : bytes -> bytes) (DecodeAll : bytes -> option bytes) (FormatFloat : spec_float -> string).
Context (zstd : zstd_spec EncodeAll DecodeAll).

Lemma group_fold key source cat pts : forall m passed,
  fold_left (fun st pt => group_point FormatFloat key source cat pt st) pts (m, passed)
  = (fold_left (pick_step (group_id FormatFloat key) (fun id tid => new_packet id tid source cat 0 key) add_group) pts m,
     passed ++ List.filter (fun pt => bool_decide (group_id FormatFloat key pt = None)) pts).
Proof.
  induction pts as [|pt pts IH]; intros m passed; cbn [fold_left List.filter]; [by rewrite app_nil_r|].
  unfold group_point at 2, pick_step at 2. destruct (group_id FormatFloat key pt) as [tid|]; rewrite IH.
  - done.
  - by rewrite <- app_assoc.
Qed.

(** Grouping by a key loses no point.  Every point either passes through, in order,
    because it has no usable value under the key, or is in the packet of its value, which
    holds exactly the points with that value, in order, with their count and summary. *)
Theorem pick_by_key_groups (key source cat : string) (pts : list PBPoint) (id : Z) :
  let '(m, passed) := pickByGroupKey EncodeAll FormatFloat key source pts cat in
  let mine := List.filter (in_group (group_id FormatFloat key) id) pts in
  passed = List.filter (fun pt => bool_decide (group_id FormatFloat key pt = None)) pts /\
  match m !! id with
  | None => mine = []
  | Some p => mine <> [] /\ holds_points DecodeAll mine p
  end.
Proof.
  unfold pickByGroupKey. rewrite group_fold. cbn [app]. split; [done|]. rewrite lookup_fmap, pick_lookup, lookup_empty.
  pose proof (packet_records (group_id FormatFloat key) (fun id tid => new_packet id tid source cat 0 key) add_group
    (fun _ _ => new_packet_records _ _ _ _ _ _) add_group_records id pts) as R.
  destruct (packet_of _ _ _ _ _ _) as [p|]; cbn; [|done]. destruct R as [N R]. split; [done|]. by eapply compress_holds.
Qed.

End groups.

(** ** Two traces, interleaved *)

Definition tspan (tid pid status : string) (d : Z) : PBPoint :=
  mkPB (to_bytes "ddtrace") (kv "trace_id" (Field_S (to_bytes tid)) :: pb_Fields (span pid status d)) 1 [] [].

Definition two_traces : list PBPoint :=
  [tspan "t1" "0" "ok" 5000000; tspan "t2" "0" "ok" 70; tspan "t1" "a1" "error" 40].

Definition t1 : Z := hashTraceID (to_bytes "t1").

Lemma tspan_usual tid pid status d : int64 d = d ->
  int_duration (span_of (tspan tid pid status d)) /\ regular (span_of (tspan tid pid status d)).
Proof.
  intros Hd. assert (forall k, span_of (tspan tid pid status d) k
    = if (k =? "trace_id")%string then Some (VStr tid) else span_of (span pid status d) k) as E.
  { intros k. unfold span_of, ptWrap_Get, tspan, kv. cbn [pb_Fields Get Key]. rewrite Get_cons_name.
    destruct (k =? "trace_id")%string; [cbn; by rewrite of_to_bytes|done]. }
  destruct (span_usual pid status d Hd) as [I [Pa Bo In Pr]]. split; [unfold int_duration in *; by rewrite E|]. split.
  - by rewrite E.
  - by rewrite E.
  - intros k x. rewrite E. destruct (k =? "trace_id")%string; [done|apply In].
  - intros k. rewrite E. destruct (k =? "trace_id")%string; [done|apply Pr].
Qed.

Lemma t1_points : trace_points t1 two_traces = [tspan "t1" "0" "ok" 5000000; tspan "t1" "a1" "error" 40].
Proof. by vm_compute. Qed.

Lemma t1_usual : usual (span_of <$> trace_points t1 two_traces).
Proof. rewrite t1_points. split; repeat constructor; by apply tspan_usual. Qed.

Lemma t1_decodes : decodes read_fields (trace_points t1 two_traces).
Proof.
  rewrite t1_points. intros p Hp. apply elem_of_cons in Hp as [->|Hp]; [|apply list_elem_of_singleton in Hp as ->];
    split; by vm_compute.
Qed.

Lemma plain_zstd : zstd_spec id Some.
Proof. by intros b. Qed.

Lemma pick_trace_groups_witness :
  exists p, PickTrace id "ddtrace" two_traces 1 !! t1 = Some p /\ PointCount p = 2 /\
    holds_points Some (trace_points t1 two_traces) p.
Proof.
  destruct (PickTrace id "ddtrace" two_traces 1 !! t1) as [p|] eqn:E; [|by vm_compute in E].
  exists p. split; [done|]. pose proof (proj2 (pick_trace_groups id Some plain_zstd "ddtrace" two_traces 1 t1) p E) as H.
  split; [|exact H]. destruct H as (_ & -> & _). by rewrite t1_points.
Defined.

Lemma picked_trace_decision_witness :
  exists p, PickTrace id "ddtrace" two_traces 1 !! t1 = Some p /\
    evaluatePipelines known_regexes read_fields Some p [Some slow_root; Some failed] = Ok (true, true).
Proof.
  destruct (PickTrace id "ddtrace" two_traces 1 !! t1) as [p|] eqn:E; [|by vm_compute in E]. exists p. split; [done|].
  rewrite (picked_trace_decision id Some plain_zstd known_regexes read_fields [Some slow_root; Some failed] "ddtrace" two_traces 1 t1 p
    known_regexes_spec eq_refl t1_decodes t1_usual E).
  rewrite t1_points. by vm_compute.
Defined.

Lemma pick_by_key_groups_witness :
  snd (pickByGroupKey id (fun _ => "") "status" "app" two_traces "logging") = [] /\
  exists p, fst (pickByGroupKey id (fun _ => "") "status" "app" two_traces "logging") !! hashTraceID (to_bytes "ok") = Some p /\ PointCount p = 2.
Proof.
  pose proof (pick_by_key_groups id Some (fun _ => "") plain_zstd "status" "app" "logging" two_traces (hashTraceID (to_bytes "ok"))) as H.
  destruct (pickByGroupKey id (fun _ => "") "status" "app" two_traces "logging") as [m passed] eqn:E. destruct H as [-> H].
  split; [by vm_compute|]. cbn [fst]. destruct (m !! hashTraceID (to_bytes "ok")) as [p|]; [|by vm_compute in H].
  exists p. split; [done|]. destruct H as (_ & _ & -> & _). by vm_compute.
Defined.
