(* ===== verification/AggrCalc.v ===== *)
(** * Metric aggregation: calculators ([src/aggregate/calculator.go], [algo_*.go],
    [metricbase.go], [algo_method.go])

    A calculator accumulates the values of one metric in one window.  Each algorithm is
    a record, [Calculator] their sum with the interface's operations.  The tags of a
    calculator are a slice: all calculators made for one algorithm of a batch start with
    the same slice, and [build] appends to it, so that the store of arrays is explicit.
    A Go map that is iterated over is the list of its entries in the order of the
    iteration.  xxhash, the natural logarithm and the printing of floats and arrays are
    parameters; a panic is an error value. *)

From S2P Require Import Prelude GoNum GoStrings GoSlice PointKV PointCheck PointNew PointProto FilterLex AggrPacket AggrWheel.

(** ** Methods *)

Definition METHOD_UNSPECIFIED : string := "".
Definition SUM : string := "sum".
Definition AVG : string := "avg".
Definition COUNT : string := "count".
Definition MIN : string := "min".
Definition MAX : string := "max".
Definition HISTOGRAM : string := "histogram".
Definition EXPO_HISTOGRAM : string := "expo_histogram".
Definition STDEV : string := "stdev".
Definition QUANTILES : string := "quantiles".
Definition COUNT_DISTINCT : string := "count_distinct".
Definition LAST : string := "last".
Definition FIRST : string := "first".

Definition NormalizeAlgoMethod (raw : string) : string :=
  let m := ToLower (TrimSpace raw) in
  if (m =? "")%string || (m =? "method_unspecified")%string then METHOD_UNSPECIFIED
  else if (m =? "merge_histogram")%string then HISTOGRAM
  else m.

(** ** Times

    An instant is the number of nanoseconds since 1970; [Truncate] counts from the year
    1. *)

Definition second : Z := 1000000000.

Definition unixToInternal : Z := 62135596800.

Definition Truncate (t d : Z) : Z := if d <=? 0 then t else t - (t + unixToInternal * second) mod d.

Definition Unix (t : Z) : Z := t / second.

Definition AlignNextWallTime (t align : Z) : Z :=
  let truncated := Truncate t align in
  if truncated =? t then Unix t else Unix (truncated + align).

(** ** The common part of the calculators *)

Abbreviation tag := (bytes * bytes)%type.

Record MetricBase := mkBase {
  mb_pt : PBPoint;
  aggrTags : option Slice;
  mb_key : bytes;
  mb_name : bytes;
  mb_hash : Z;
  mb_window : Z;
  nextWallTime : Z;
}.

Definition set_hash (h : Z) (mb : MetricBase) : MetricBase :=
  mkBase (mb_pt mb) (aggrTags mb) (mb_key mb) (mb_name mb) h (mb_window mb) (nextWallTime mb).

Definition set_aggrTags (s : option Slice) (mb : MetricBase) : MetricBase :=
  mkBase (mb_pt mb) s (mb_key mb) (mb_name mb) (mb_hash mb) (mb_window mb) (nextWallTime mb).

Definition point_tags (fs : KVs) : list tag :=
  map (fun kv => (Key kv, GetS kv)) (List.filter IsTag fs).

Section build.
Context (grow : nat -> nat).

Definition build (st : Store tag) (mb : MetricBase) : Store tag * MetricBase :=
  let '(st', s) := sl_appends grow st (aggrTags mb) (point_tags (pb_Fields (mb_pt mb))) in
  (st', set_aggrTags s mb).
End build.

(** ** The algorithms: state and [Add] *)

Definition later (a b : Z) : Z := if a <? b then b else a.

Record algoCount := mkCount { cnt_base : MetricBase; cnt_maxTime : Z; cnt_count : Z }.

Definition count_Add (c i : algoCount) : algoCount :=
  mkCount (cnt_base c) (later (cnt_maxTime c) (cnt_maxTime i)) (int64 (cnt_count c + 1)).

Record algoMax := mkMax { max_base : MetricBase; max_maxTime : Z; max_count : Z; max_max : spec_float }.

Definition max_Add (c i : algoMax) : algoMax :=
  mkMax (max_base c) (later (max_maxTime c) (max_maxTime i)) (int64 (max_count c + 1))
        (if SFltb (max_max c) (max_max i) then max_max i else max_max c).

Record algoMin := mkMin { min_base : MetricBase; min_maxTime : Z; min_count : Z; min_min : spec_float }.

Definition min_Add (c i : algoMin) : algoMin :=
  mkMin (min_base c) (later (min_maxTime c) (min_maxTime i)) (int64 (min_count c + 1))
        (if SFltb (min_min i) (min_min c) then min_min i else min_min c).

Record algoSum := mkSum { sum_base : MetricBase; sum_delta : spec_float; sum_maxTime : Z; sum_count : Z }.

Definition sum_Add (c i : algoSum) : algoSum :=
  mkSum (sum_base c) (fadd (sum_delta c) (sum_delta i)) (later (sum_maxTime c) (sum_maxTime i))
        (int64 (sum_count c + 1)).

Record algoAvg := mkAvg { avg_base : MetricBase; avg_delta : spec_float; avg_maxTime : Z; avg_count : Z }.

Definition avg_Add (c i : algoAvg) : algoAvg :=
  mkAvg (avg_base c) (fadd (avg_delta c) (avg_delta i)) (later (avg_maxTime c) (avg_maxTime i))
        (int64 (avg_count c + 1)).

Record algoCountFirst := mkFirst { fst_base : MetricBase; fst_first : spec_float; firstTime : Z; fst_count : Z }.

Definition first_Add (a i : algoCountFirst) : algoCountFirst :=
  let n := int64 (fst_count a + 1) in
  if (firstTime a =? 0) || (firstTime i <? firstTime a)
  then mkFirst (fst_base a) (fst_first i) (firstTime i) n
  else mkFirst (fst_base a) (fst_first a) (firstTime a) n.

Record algoCountLast := mkLast { lst_base : MetricBase; lst_last : spec_float; lastTime : Z; lst_count : Z }.

Definition last_Add (a i : algoCountLast) : algoCountLast :=
  let n := int64 (lst_count a + 1) in
  if lastTime a <? lastTime i
  then mkLast (lst_base a) (lst_last i) (lastTime i) n
  else mkLast (lst_base a) (lst_last a) (lastTime a) n.

Record algoHistogram := mkHist {
  hst_base : MetricBase;
  hst_count : Z;
  hst_val : spec_float;
  leBucket : gmap bytes spec_float;
  hst_maxTime : Z;
}.

Definition le_tag : bytes := to_bytes "le".

Definition histogram_Add (c i : algoHistogram) : algoHistogram :=
  let le := GetTag le_tag (pb_Fields (mb_pt (hst_base i))) in
  mkHist (hst_base c) (int64 (hst_count c + 1)) (hst_val c)
         (match le with
          | [] => leBucket c
          | _ => <[le := fadd (default fzero (leBucket c !! le)) (hst_val i)]> (leBucket c)
          end)
         (later (hst_maxTime c) (hst_maxTime i)).

(** *** Quantiles: a reservoir of samples *)

Definition quantileSampleLimit : Z := 8192.

Record algoQuantiles := mkQuant {
  qnt_maxTime : Z;
  qnt_base : MetricBase;
  qnt_all : list spec_float;
  qnt_count : Z;
  quantiles : list spec_float;
}.

Definition quant_addValue (v : spec_float) (a : algoQuantiles) : algoQuantiles :=
  let n := int64 (qnt_count a + 1) in
  mkQuant (qnt_maxTime a) (qnt_base a)
    (if zlen (qnt_all a) <? quantileSampleLimit then qnt_all a ++ [v]
     else
       let j := HashCombine Seed1 (uint64 n) mod uint64 n in
       if j <? quantileSampleLimit then <[Z.to_nat j := v]> (qnt_all a) else qnt_all a)
    n (quantiles a).

Definition newAlgoQuantiles (mb : MetricBase) (maxTime : Z) (value : spec_float) : algoQuantiles :=
  quant_addValue value (mkQuant maxTime mb [] 0 []).

Definition quantiles_Add (a i : algoQuantiles) : algoQuantiles :=
  let b := fold_left (fun a v => quant_addValue v a) (qnt_all i) a in
  let missing := int64 (qnt_count i - int64 (qnt_count b - qnt_count a)) in
  mkQuant (later (qnt_maxTime a) (qnt_maxTime i)) (qnt_base b) (qnt_all b)
    (if 0 <? missing then int64 (qnt_count b + missing) else qnt_count b) (quantiles b).

(** *** Standard deviation: Welford's algorithm *)

Record algoStdev := mkStdev {
  std_base : MetricBase;
  std_count : Z;
  std_mean : spec_float;
  std_m2 : spec_float;
  std_maxTime : Z;
}.

Definition stdev_addValue (value : spec_float) (c : algoStdev) : algoStdev :=
  let n := int64 (std_count c + 1) in
  let delta := fsub value (std_mean c) in
  let mean := fadd (std_mean c) (fdiv delta (float_of_int n)) in
  let delta2 := fsub value mean in
  mkStdev (std_base c) n mean (fadd (std_m2 c) (fmul delta delta2)) (std_maxTime c).

Definition newAlgoStdev (mb : MetricBase) (maxTime : Z) (value : spec_float) : algoStdev :=
  stdev_addValue value (mkStdev mb 0 fzero fzero maxTime).

Definition stdev_Add (c i : algoStdev) : algoStdev :=
  if std_count i =? 0 then c
  else
    let t := later (std_maxTime c) (std_maxTime i) in
    if std_count c =? 0 then mkStdev (std_base c) (std_count i) (std_mean i) (std_m2 i) t
    else
      let delta := fsub (std_mean i) (std_mean c) in
      let total := int64 (std_count c + std_count i) in
      let nc := float_of_int (std_count c) in
      let ni := float_of_int (std_count i) in
      let nt := float_of_int total in
      mkStdev (std_base c) total
        (fadd (std_mean c) (fdiv (fmul delta ni) nt))
        (fadd (std_m2 c) (fadd (std_m2 i) (fdiv (fmul (fmul (fmul delta delta) nc) ni) nt)))
        t.

(** [algoStdev.SampleStdDev]: [None] with fewer than two points. *)
Definition SampleStdDev (c : algoStdev) : option spec_float :=
  if std_count c <? 2 then None
  else Some (fsqrt (fdiv (std_m2 c) (float_of_int (int64 (std_count c - 1))))).

(** *** Distinct values: a set of hashes, or a bitmap when there are many *)

Definition countDistinctExactLimit : Z := 4096.

Definition countDistinctSketchBits : Z := 262144.

Record algoCountDistinct := mkDistinct {
  dst_base : MetricBase;
  dst_maxTime : Z;
  distinctValues : gset Z;
  sketch : option (list Z);
}.

Definition addSketchHash (hash : Z) (w : list Z) : list Z :=
  let idx := hash mod countDistinctSketchBits in
  let i := Z.to_nat (idx / 64) in
  <[i := Z.lor (nth i w 0) (Z.shiftl 1 (idx mod 64))]> w.

Definition ensureSketch (c : algoCountDistinct) : algoCountDistinct :=
  match sketch c with
  | Some _ => c
  | None =>
      mkDistinct (dst_base c) (dst_maxTime c) ∅
        (Some (fold_left (fun w h => addSketchHash h w) (elements (distinctValues c)) (replicate 4096 0)))
  end.

Definition add_to_sketch (hash : Z) (c : algoCountDistinct) : algoCountDistinct :=
  match sketch c with
  | Some w => mkDistinct (dst_base c) (dst_maxTime c) (distinctValues c) (Some (addSketchHash hash w))
  | None => c
  end.

Definition addHash (hash : Z) (c : algoCountDistinct) : algoCountDistinct :=
  match sketch c with
  | Some _ => add_to_sketch hash c
  | None =>
      if bool_decide (hash ∈ distinctValues c)
         || (Z.of_nat (size (distinctValues c)) <? countDistinctExactLimit)
      then mkDistinct (dst_base c) (dst_maxTime c) ({[hash]} ∪ distinctValues c) None
      else add_to_sketch hash (ensureSketch c)
  end.

Definition or_words (a b : list Z) : list Z := zip_with Z.lor a b.

Definition distinct_Add (c i : algoCountDistinct) : algoCountDistinct :=
  let c' :=
    match sketch i with
    | Some wi =>
        let c' := ensureSketch c in
        mkDistinct (dst_base c') (dst_maxTime c') (distinctValues c')
          (match sketch c' with Some w => Some (or_words w wi) | None => None end)
    | None => fold_left (fun c h => addHash h c) (elements (distinctValues i)) c
    end in
  mkDistinct (dst_base c') (later (dst_maxTime c) (dst_maxTime i)) (distinctValues c') (sketch c').

Section Distinct.
Context (Log : spec_float -> spec_float).

Definition zero_bits (word : Z) : Z :=
  zlen (List.filter (fun bit => Z.land word (Z.shiftl 1 (Z.of_nat bit)) =? 0) (seq 0 64)).

Definition sum_zero_bits (ws : list Z) : Z :=
  fold_left (fun n word => if word =? 2 ^ 64 - 1 then n else n + zero_bits word) ws 0.

Definition half : spec_float := S754_finite false 4503599627370496 (-53).

(** [algoCountDistinct.count]. *)
Definition distinct_count (c : algoCountDistinct) : Z :=
  match sketch c with
  | None => Z.of_nat (size (distinctValues c))
  | Some ws =>
      let zeroBits := sum_zero_bits ws in
      if zeroBits =? 0 then countDistinctSketchBits
      else
        let m := float_of_int countDistinctSketchBits in
        let estimate := fmul (SFopp m) (Log (fdiv (float_of_int zeroBits) m)) in
        int64_of_float (fadd estimate half)
  end.

(** [fmt.Fprintf(h, "%T:%v", ...)]; floats and arrays are printed by [fmt_rest]. *)
Context (fmt_rest : any -> bytes).

Definition fmtTV (v : any) : bytes :=
  match v with
  | GoInt n => to_bytes (String.append "int64:" (FormatInt n))
  | GoUint n => to_bytes (String.append "uint64:" (FormatUint 10 n))
  | GoString s => to_bytes "string:" ++ s
  | GoBool b => to_bytes (if b then "bool:true" else "bool:false")
  | GoBytes b =>
      to_bytes (String.append "[]uint8:["
                  (String.append (String.concat " " (map (fun x => FormatUint 10 (byte.unsigned x)) b)) "]"))
  | v => fmt_rest v
  end.

Definition hashDistinctValue (v : any) : Z := fnv64a (fmtTV v).

Definition newAlgoCountDistinct (mb : MetricBase) (maxTime : Z) (value : any) : algoCountDistinct :=
  addHash (hashDistinctValue value) (mkDistinct mb maxTime ∅ None).
End Distinct.

(** ** The interface *)

Inductive Calculator : Type :=
| CCount (c : algoCount)
| CMax (c : algoMax)
| CMin (c : algoMin)
| CSum (c : algoSum)
| CAvg (c : algoAvg)
| CFirst (c : algoCountFirst)
| CLast (c : algoCountLast)
| CHistogram (c : algoHistogram)
| CQuantiles (c : algoQuantiles)
| CStdev (c : algoStdev)
| CDistinct (c : algoCountDistinct).

(** [Add]: an argument of another type is ignored. *)
Definition calc_Add (x inst : Calculator) : Calculator :=
  match x, inst with
  | CCount c, CCount i => CCount (count_Add c i)
  | CMax c, CMax i => CMax (max_Add c i)
  | CMin c, CMin i => CMin (min_Add c i)
  | CSum c, CSum i => CSum (sum_Add c i)
  | CAvg c, CAvg i => CAvg (avg_Add c i)
  | CFirst c, CFirst i => CFirst (first_Add c i)
  | CLast c, CLast i => CLast (last_Add c i)
  | CHistogram c, CHistogram i => CHistogram (histogram_Add c i)
  | CQuantiles c, CQuantiles i => CQuantiles (quantiles_Add c i)
  | CStdev c, CStdev i => CStdev (stdev_Add c i)
  | CDistinct c, CDistinct i => CDistinct (distinct_Add c i)
  | _, _ => x
  end.

Definition Base (x : Calculator) : MetricBase :=
  match x with
  | CCount c => cnt_base c
  | CMax c => max_base c
  | CMin c => min_base c
  | CSum c => sum_base c
  | CAvg c => avg_base c
  | CFirst c => fst_base c
  | CLast c => lst_base c
  | CHistogram c => hst_base c
  | CQuantiles c => qnt_base c
  | CStdev c => std_base c
  | CDistinct c => dst_base c
  end.

(** A change of the common part through the pointer that [Base] returns. *)
Definition on_base (f : MetricBase -> MetricBase) (x : Calculator) : Calculator :=
  match x with
  | CCount c => CCount (mkCount (f (cnt_base c)) (cnt_maxTime c) (cnt_count c))
  | CMax c => CMax (mkMax (f (max_base c)) (max_maxTime c) (max_count c) (max_max c))
  | CMin c => CMin (mkMin (f (min_base c)) (min_maxTime c) (min_count c) (min_min c))
  | CSum c => CSum (mkSum (f (sum_base c)) (sum_delta c) (sum_maxTime c) (sum_count c))
  | CAvg c => CAvg (mkAvg (f (avg_base c)) (avg_delta c) (avg_maxTime c) (avg_count c))
  | CFirst c => CFirst (mkFirst (f (fst_base c)) (fst_first c) (firstTime c) (fst_count c))
  | CLast c => CLast (mkLast (f (lst_base c)) (lst_last c) (lastTime c) (lst_count c))
  | CHistogram c => CHistogram (mkHist (f (hst_base c)) (hst_count c) (hst_val c) (leBucket c) (hst_maxTime c))
  | CQuantiles c => CQuantiles (mkQuant (qnt_maxTime c) (f (qnt_base c)) (qnt_all c) (qnt_count c) (quantiles c))
  | CStdev c => CStdev (mkStdev (f (std_base c)) (std_count c) (std_mean c) (std_m2 c) (std_maxTime c))
  | CDistinct c => CDistinct (mkDistinct (f (dst_base c)) (dst_maxTime c) (distinctValues c) (sketch c))
  end.

(** The [Reset] methods; a histogram keeps its value, quantiles their list of
    percentiles. *)
Definition count_Reset (c : algoCount) : algoCount := mkCount (cnt_base c) 0 0.

Definition max_Reset (c : algoMax) : algoMax := mkMax (max_base c) 0 0 fzero.

Definition min_Reset (c : algoMin) : algoMin := mkMin (min_base c) 0 0 fzero.

Definition sum_Reset (c : algoSum) : algoSum := mkSum (sum_base c) fzero 0 0.

Definition avg_Reset (c : algoAvg) : algoAvg := mkAvg (avg_base c) fzero 0 0.

Definition first_Reset (c : algoCountFirst) : algoCountFirst := mkFirst (fst_base c) fzero 0 0.

Definition last_Reset (c : algoCountLast) : algoCountLast := mkLast (lst_base c) fzero 0 0.

Definition histogram_Reset (c : algoHistogram) : algoHistogram := mkHist (hst_base c) 0 (hst_val c) ∅ 0.

Definition quantiles_Reset (c : algoQuantiles) : algoQuantiles := mkQuant 0 (qnt_base c) [] 0 (quantiles c).

Definition stdev_Reset (c : algoStdev) : algoStdev := mkStdev (std_base c) 0 fzero fzero 0.

Definition distinct_Reset (c : algoCountDistinct) : algoCountDistinct := mkDistinct (dst_base c) 0 ∅ None.

Definition calc_Reset (x : Calculator) : Calculator :=
  match x with
  | CCount c => CCount (count_Reset c)
  | CMax c => CMax (max_Reset c)
  | CMin c => CMin (min_Reset c)
  | CSum c => CSum (sum_Reset c)
  | CAvg c => CAvg (avg_Reset c)
  | CFirst c => CFirst (first_Reset c)
  | CLast c => CLast (last_Reset c)
  | CHistogram c => CHistogram (histogram_Reset c)
  | CQuantiles c => CQuantiles (quantiles_Reset c)
  | CStdev c => CStdev (stdev_Reset c)
  | CDistinct c => CDistinct (distinct_Reset c)
  end.

(** The name that [doHash] mixes in. *)
Definition hash_name (x : Calculator) : string :=
  match x with
  | CCount _ => "count"
  | CMax _ => "max"
  | CMin _ => "min"
  | CSum _ => "sum"
  | CAvg _ => "avg"
  | CFirst _ => "first"
  | CLast _ => "last"
  | CHistogram _ => "histogram"
  | CQuantiles _ => "quantiles"
  | CStdev _ => "stdev"
  | CDistinct _ => "count_distinct"
  end.

Section Hash.
Context (Sum64 : string -> Z).

Definition doHash (h1 : Z) (x : Calculator) : Calculator :=
  let h := HashCombine h1 (Sum64 (hash_name x)) in
  let h := HashCombine h (Sum64 (of_bytes (mb_key (Base x)))) in
  on_base (set_hash (HashCombine h (Sum64 (of_bytes (mb_name (Base x)))))) x.
End Hash.

(** ** Results ([Aggr]) *)

Inductive aggr_err : Set := TooFewPoints | AggrPanic (p : panic).

Section Aggr.
Context `{ArrayEnc} (sort : KVs -> KVs) (now : Z) (pooled : option cfg) (Log : spec_float -> spec_float).

Definition set_tags (tags : list tag) (x : KVs) : KVs :=
  fold_left (fun x kv => SetTag (fst kv) (snd kv) x) tags x.

Definition count_key (k : bytes) : bytes := k ++ to_bytes "_count".

Definition new_metric (name : bytes) (x : KVs) (ts : Z) : Res aggr_err Point :=
  match fst (NewPoint sort now pooled name x [Some (WithTimestamp ts)]) with
  | Ok p => Ok p
  | Err e => Err (AggrPanic e)
  end.

Definition one_point (mb : MetricBase) (tags : list tag) (v : any) (count ts : Z) : Res aggr_err (list Point) :=
  match new_metric (mb_name mb)
          (set_tags tags (Add (count_key (mb_key mb)) (GoInt count) [] (Add (mb_key mb) v [] []))) ts with
  | Ok p => Ok [p]
  | Err e => Err e
  end.

(** The points in sequence, or the first panic. *)
Fixpoint all_points (l : list (Res aggr_err Point)) : Res aggr_err (list Point) :=
  match l with
  | [] => Ok []
  | Err e :: _ => Err e
  | Ok p :: l' => match all_points l' with Ok ps => Ok (p :: ps) | Err e => Err e end
  end.

Definition count_Aggr (tags : list tag) (c : algoCount) : Res aggr_err (list Point) :=
  one_point (cnt_base c) tags (GoInt (cnt_count c)) (cnt_count c) (cnt_maxTime c).

Definition max_Aggr (tags : list tag) (c : algoMax) : Res aggr_err (list Point) :=
  one_point (max_base c) tags (GoFloat (max_max c)) (max_count c) (max_maxTime c).

Definition min_Aggr (tags : list tag) (c : algoMin) : Res aggr_err (list Point) :=
  one_point (min_base c) tags (GoFloat (min_min c)) (min_count c) (min_maxTime c).

Definition sum_Aggr (tags : list tag) (c : algoSum) : Res aggr_err (list Point) :=
  one_point (sum_base c) tags (GoFloat (sum_delta c)) (sum_count c) (sum_maxTime c).

Definition avg_Aggr (tags : list tag) (c : algoAvg) : Res aggr_err (list Point) :=
  let avg := fdiv (avg_delta c) (float_of_int (avg_count c)) in
  one_point (avg_base c) tags (GoFloat avg) (avg_count c) (avg_maxTime c).

Definition first_Aggr (tags : list tag) (c : algoCountFirst) : Res aggr_err (list Point) :=
  one_point (fst_base c) tags (GoFloat (fst_first c)) (fst_count c) (firstTime c).

Definition last_Aggr (tags : list tag) (c : algoCountLast) : Res aggr_err (list Point) :=
  one_point (lst_base c) tags (GoFloat (lst_last c)) (lst_count c) (lastTime c).

Definition stdev_Aggr (tags : list tag) (c : algoStdev) : Res aggr_err (list Point) :=
  match SampleStdDev c with
  | None => Err TooFewPoints
  | Some s => one_point (std_base c) tags (GoFloat s) (std_count c) (std_maxTime c)
  end.

Definition distinct_Aggr (tags : list tag) (c : algoCountDistinct) : Res aggr_err (list Point) :=
  let n := distinct_count Log c in
  one_point (dst_base c) tags (GoInt n) n (dst_maxTime c).

(** [algoHistogram.Aggr]; [buckets] are the entries of the map in the order of the
    iteration. *)
Definition histogram_Aggr (tags : list tag) (buckets : list (bytes * spec_float)) (c : algoHistogram)
    : Res aggr_err (list Point) :=
  let mb := hst_base c in
  all_points
    (map (fun '(le, f) =>
            new_metric (mb_name mb) (set_tags tags (Add (mb_key mb) (GoFloat f) [] (AddTag le_tag le [])))
              (hst_maxTime c)) buckets
     ++ [new_metric (mb_name mb) (set_tags tags (Add (count_key (mb_key mb)) (GoInt (hst_count c)) [] []))
           (hst_maxTime c)]).

Definition f64_100 : spec_float := float_of_int 100.

(** [percentileFromSorted]: [None] is an index out of range. *)
Definition percentileFromSorted (sorted : list spec_float) (p : spec_float) : option spec_float :=
  let n := zlen sorted in
  if n =? 0 then Some fzero
  else
    let fraction := fdiv p f64_100 in
    let pos := fmul fraction (float_of_int (n - 1)) in
    let index := int64_of_float pos in
    let rest := fsub pos (float_of_int index) in
    if n - 1 <=? index then sorted !! Z.to_nat (n - 1)
    else if index <? 0 then None
    else
      match sorted !! Z.to_nat index, sorted !! Z.to_nat (index + 1) with
      | Some a, Some b => Some (fadd a (fmul rest (fsub b a)))
      | _, _ => None
      end.

Definition quantile_key (k : bytes) (q : spec_float) : bytes :=
  k ++ to_bytes (String.append "_P" (fmt_f0 (fmul q f64_100))).

(** [algoQuantiles.Aggr]: the samples are left sorted. *)
Definition quantiles_Aggr (tags : list tag) (a : algoQuantiles) : Res aggr_err (list Point) * algoQuantiles :=
  let mb := qnt_base a in
  let all := Float64s (qnt_all a) in
  let a' := mkQuant (qnt_maxTime a) mb all (qnt_count a) (quantiles a) in
  let kvs := fold_left (fun x q =>
      match x with
      | None => None
      | Some x =>
          match percentileFromSorted all (fmul q f64_100) with
          | None => None
          | Some v => Some (Add (quantile_key (mb_key mb) q) (GoFloat v) [] x)
          end
      end) (quantiles a) (Some (Add (count_key (mb_key mb)) (GoInt (qnt_count a)) [] [])) in
  match kvs with
  | None => (Err (AggrPanic PanicIndex), a')
  | Some x =>
      (match new_metric (mb_name mb) (set_tags tags x) (qnt_maxTime a) with
       | Ok p => Ok [p]
       | Err e => Err e
       end, a')
  end.

(** [Aggr]; [tags] is what the slice of tags reads, [order] the order in which a map of
    buckets is iterated over. *)
Definition calc_Aggr (order : list (bytes * spec_float) -> list (bytes * spec_float)) (st : Store tag) (x : Calculator)
    : Res aggr_err (list Point) * Calculator :=
  let tags := sl_read st (aggrTags (Base x)) in
  match x with
  | CCount c => (count_Aggr tags c, x)
  | CMax c => (max_Aggr tags c, x)
  | CMin c => (min_Aggr tags c, x)
  | CSum c => (sum_Aggr tags c, x)
  | CAvg c => (avg_Aggr tags c, x)
  | CFirst c => (first_Aggr tags c, x)
  | CLast c => (last_Aggr tags c, x)
  | CStdev c => (stdev_Aggr tags c, x)
  | CDistinct c => (distinct_Aggr tags c, x)
  | CHistogram c => (histogram_Aggr tags (order (map_to_list (leBucket c))) c, x)
  | CQuantiles c => let '(r, c') := quantiles_Aggr tags c in (r, CQuantiles c')
  end.
End Aggr.

(** ** Batches and the calculators made from them *)

Inductive algo_options : Type :=
| HistogramOpts (buckets : list spec_float)
| ExpoOpts
| QuantileOpts (percentiles : option (list spec_float)).

Record AggregationAlgo := mkAlgo {
  Method : string;
  SourceField : bytes;
  Window : Z;
  AddTags : list tag;
  Options : option algo_options;
}.

Record AggregationBatch := mkBatch {
  RoutingKey : Z;
  ConfigHash : Z;
  AggregationOpts : list (bytes * option AggregationAlgo);
  BPoints : option (list PBPoint);
  PickKey : Z;
}.

Section New.
Context `{ArrayEnc} (grow : nat -> nat) (Sum64 : string -> Z) (fmt_rest : any -> bytes).

(** [Point.Get] on a wrapped message. *)
Definition pb_get (pt : PBPoint) (k : bytes) : any :=
  match Get k (pb_Fields pt) with Some f => Raw f | None => GoNil end.

(** [GetS("le")]. *)
Definition pb_getS (pt : PBPoint) (k : bytes) : bytes :=
  match Get k (pb_Fields pt) with Some f => GetS f | None => [] end.

(** [addOpts]. *)
Definition addOpts (o : option algo_options) (a : algoQuantiles) : algoQuantiles :=
  match o with
  | Some (QuantileOpts (Some ps)) => mkQuant (qnt_maxTime a) (qnt_base a) (qnt_all a) (qnt_count a) ps
  | _ => a
  end.

(** The number a value is converted to; [None]: not a number. *)
Definition number (v : any) : option spec_float :=
  match v with GoFloat f => Some f | GoInt n => Some (float_of_int n) | _ => None end.

(** The [switch] over the methods. *)
Definition calc_of (method : string) (algo : AggregationAlgo) (mb : MetricBase) (t : Z) (v : any) (f64 : spec_float)
    : option Calculator :=
  if (method =? MAX)%string then Some (CMax (mkMax mb t 1 f64))
  else if (method =? SUM)%string then Some (CSum (mkSum mb f64 t 1))
  else if (method =? AVG)%string then Some (CAvg (mkAvg mb f64 t 1))
  else if (method =? COUNT)%string then Some (CCount (mkCount mb t 1))
  else if (method =? MIN)%string then Some (CMin (mkMin mb t 1 f64))
  else if (method =? HISTOGRAM)%string then
    Some (CHistogram (mkHist mb 1 f64 {[ pb_getS (mb_pt mb) le_tag := f64 ]} t))
  else if (method =? QUANTILES)%string then Some (CQuantiles (addOpts (Options algo) (newAlgoQuantiles mb t f64)))
  else if (method =? STDEV)%string then Some (CStdev (newAlgoStdev mb t f64))
  else if (method =? COUNT_DISTINCT)%string then Some (CDistinct (newAlgoCountDistinct fmt_rest mb t v))
  else if (method =? LAST)%string then Some (CLast (mkLast mb f64 t 1))
  else if (method =? FIRST)%string then Some (CFirst (mkFirst mb f64 t 1))
  else None.

(** The body of the loop over the points. *)
Definition calc_point (routing : Z) (key : bytes) (algo : AggregationAlgo) (extraTags : option Slice) (pt : PBPoint)
    : option Calculator :=
  let v := pb_get pt (match SourceField algo with [] => key | k => k end) in
  match v with
  | GoNil => None
  | _ =>
      match key with
      | [] => None
      | _ =>
          let mb := mkBase pt extraTags key (pb_Name pt) 0 (Window algo)
                      (AlignNextWallTime (pb_Time pt) (Window algo)) in
          let method := NormalizeAlgoMethod (Method algo) in
          match number v with
          | None =>
              if (method =? COUNT_DISTINCT)%string || (method =? COUNT)%string
              then option_map (doHash Sum64 routing) (calc_of method algo mb (pb_Time pt) v fzero)
              else None
          | Some f64 => option_map (doHash Sum64 routing) (calc_of method algo mb (pb_Time pt) v f64)
          end
      end
  end.

Fixpoint calc_algos (routing : Z) (pts : list PBPoint) (opts : list (bytes * option AggregationAlgo))
    (st : Store tag) : list Calculator * Store tag :=
  match opts with
  | [] => ([], st)
  | (_, None) :: opts' => calc_algos routing pts opts' st
  | (key, Some algo) :: opts' =>
      let '(st1, extraTags) := sl_appends grow st None (AddTags algo) in
      let '(cs, st2) := calc_algos routing pts opts' st1 in
      (omap (calc_point routing key algo extraTags) pts ++ cs, st2)
  end.

Definition newCalculators (batch : option AggregationBatch) (st : Store tag) : list Calculator * Store tag :=
  match batch with
  | None => ([], st)
  | Some b =>
      match BPoints b with
      | None => ([], st)
      | Some pts => calc_algos (RoutingKey b) pts (AggregationOpts b) st
      end
  end.
End New.
