(* ===== verification/AggrWindow.v ===== *)
(** * Metric aggregation: windows ([src/aggregate/windows.go])

    The cache has a bucket per expiry time, a bucket a window per token, a window a
    calculator per hash.  Buckets are pointers: a goroutine that has looked one up may
    find it closed when it adds to it, so buckets live in a heap and the critical
    sections of the two locks are separate operations, which [step] interleaves for any
    number of goroutines.  The windows that a closed bucket hands out belong to the
    caller.  The pool of windows is an argument: the window it returns. *)

From S2P Require Import Prelude GoNum GoSlice PointKV PointCheck PointNew PointProto AggrCalc.

(** ** Windows *)

Record Win := mkWin { w_cache : gmap Z Calculator; w_Token : string }.

(** [Window.Reset]: whichever branch, an empty map. *)
Definition Win_Reset (w : Win) : Win := mkWin ∅ "".

Record Windows := mkWindows { closed : bool; IDs : gmap string nat; WS : list Win }.

Definition new_windows : Windows := mkWindows false ∅ [].

Section Windows.
Context (grow : nat -> nat).

(** [cal.Base().build()]. *)
Definition calc_build (st : Store tag) (cal : Calculator) : Store tag * Calculator :=
  let '(st', mb) := build grow st (Base cal) in (st', on_base (fun _ => mb) cal).

(** [Window.AddCal]. *)
Definition Win_AddCal (st : Store tag) (cal : Calculator) (w : Win) : Store tag * Win :=
  let h := mb_hash (Base cal) in
  match w_cache w !! h with
  | Some calc => (st, mkWin (<[h := calc_Add calc cal]> (w_cache w)) (w_Token w))
  | None => let '(st', cal') := calc_build st cal in (st', mkWin (<[h := cal']> (w_cache w)) (w_Token w))
  end.

(** [Windows.addCal]; [pw] is what [windowPool.Get] returns. *)
Definition addCal (pw : Win) (st : Store tag) (token : string) (cal : Calculator) (ws : Windows)
    : bool * Store tag * Windows :=
  if closed ws then (false, st, ws)
  else
    let '(id, ids, wins) :=
      match IDs ws !! token with
      | Some id => (id, IDs ws, WS ws)
      | None =>
          let newW := mkWin (w_cache (Win_Reset pw)) token in
          (length (WS ws), <[token := length (WS ws)]> (IDs ws), WS ws ++ [newW])
      end in
    match wins !! id with
    | None => (true, st, mkWindows false ids wins)
    | Some w => let '(st', w') := Win_AddCal st cal w in (true, st', mkWindows false ids (<[id := w']> wins))
    end.

(** [Windows.Close]. *)
Definition Windows_Close (ws : Windows) : list Win * Windows := (WS ws, mkWindows true ∅ []).

(** ** The cache *)

Record Cache := mkCache {
  WindowsBuckets : gmap Z nat;
  heap : list Windows;
  tagStore : Store tag;
  Expired : Z;
}.

Definition NewCache (exp : Z) : Cache := mkCache ∅ [] [] exp.

Definition set_store (st : Store tag) (c : Cache) : Cache := mkCache (WindowsBuckets c) (heap c) st (Expired c).

(** The section of [getAndSetBucket] under the lock of the cache. *)
Definition get_bucket (exp : Z) (c : Cache) : nat * Cache :=
  match WindowsBuckets c !! exp with
  | Some ws => (ws, c)
  | None =>
      let p := length (heap c) in
      (p, mkCache (<[exp := p]> (WindowsBuckets c)) (heap c ++ [new_windows]) (tagStore c) (Expired c))
  end.

(** [ws.addCal] through the pointer [p]. *)
Definition add_at (pw : Win) (p : nat) (token : string) (cal : Calculator) (c : Cache) : bool * Cache :=
  match heap c !! p with
  | None => (false, c)
  | Some ws =>
      let '(ok, st, ws') := addCal pw (tagStore c) token cal ws in
      (ok, mkCache (WindowsBuckets c) (<[p := ws']> (heap c)) st (Expired c))
  end.

(** The loop of [getAndSetBucket] when nothing runs in between; [None]: out of fuel. *)
Fixpoint getAndSetBucket (fuel : nat) (now : Z) (pw : Win) (exp : Z) (token : string) (cal : Calculator) (c : Cache)
    : option bool * Cache :=
  match fuel with
  | O => (None, c)
  | S fuel =>
      let '(p, c) := get_bucket exp c in
      let '(ok, c) := add_at pw p token cal c in
      if ok then (Some true, c)
      else if exp <=? now then (Some false, c)
      else getAndSetBucket fuel now pw exp token cal c
  end.

Definition expiry (c : Cache) (cal : Calculator) : Z :=
  int64 (nextWallTime (Base cal) + Z.quot (Expired c) second).

(** The loop of [AddBatch]: the numbers of accepted and of expired calculators. *)
Fixpoint add_calcs (now : Z) (pw : Win) (token : string) (cals : list Calculator) (n expN : Z) (c : Cache)
    : option (Z * Z) * Cache :=
  match cals with
  | [] => (Some (n, expN), c)
  | cal :: cals' =>
      let exp := expiry c cal in
      if exp <=? now then add_calcs now pw token cals' n (expN + 1) c
      else
        match getAndSetBucket 1 now pw exp token cal c with
        | (Some true, c') => add_calcs now pw token cals' (n + 1) expN c'
        | (Some false, c') => add_calcs now pw token cals' n (expN + 1) c'
        | (None, c') => (None, c')
        end
  end.

Section Batch.
Context `{ArrayEnc} (Sum64 : string -> Z) (fmt_rest : any -> bytes).

Definition AddBatch (now : Z) (pw : Win) (token : string) (batch : option AggregationBatch) (c : Cache)
    : option (Z * Z) * Cache :=
  let '(cals, st) := newCalculators grow Sum64 fmt_rest batch (tagStore c) in
  add_calcs now pw token cals 0 0 (set_store st c).

(** [AddBatchs], at one instant. *)
Fixpoint AddBatchs (now : Z) (pw : Win) (token : string) (batchs : list (option AggregationBatch)) (n expN : Z)
    (c : Cache) : option (Z * Z) * Cache :=
  match batchs with
  | [] => (Some (n, expN), c)
  | b :: batchs' =>
      match AddBatch now pw token b c with
      | (Some (n1, expN1), c') => AddBatchs now pw token batchs' (n + n1) (expN + expN1) c'
      | (None, c') => (None, c')
      end
  end.
End Batch.
End Windows.

(** The body of the loop of [GetExpWidows]. *)
Definition close_bucket (now : Z) (r : list Win * Cache) (e : Z * nat) : list Win * Cache :=
  let '(wss, c) := r in
  let '(t, p) := e in
  if t <=? now then
    match heap c !! p with
    | None => r
    | Some ws =>
        let '(l, ws') := Windows_Close ws in
        (wss ++ l, mkCache (delete t (WindowsBuckets c)) (<[p := ws']> (heap c)) (tagStore c) (Expired c))
    end
  else r.

(** [GetExpWidows]; [order] is the order in which the map is iterated over. *)
Definition GetExpWidows (order : list (Z * nat) -> list (Z * nat)) (now : Z) (c : Cache) : list Win * Cache :=
  fold_left (close_bucket now) (order (map_to_list (WindowsBuckets c))) ([], c).

(** ** Points of expired windows *)

Record PointsData := mkData { PTS : list Point; PToken : string }.

Section Data.
Context `{ArrayEnc} (sort : KVs -> KVs) (now : Z) (pooled : option cfg) (Log : spec_float -> spec_float).
Context (le_order : list (bytes * spec_float) -> list (bytes * spec_float)).
Context (order : list (Z * Calculator) -> list (Z * Calculator)).

(** The points of the calculators of a window; one that fails is skipped. *)
Fixpoint window_points (st : Store tag) (cals : list (Z * Calculator)) : Res panic (list Point) :=
  match cals with
  | [] => Ok []
  | (_, cal) :: cals' =>
      match fst (calc_Aggr sort now pooled Log le_order st cal) with
      | Err (AggrPanic e) => Err e
      | Err TooFewPoints => window_points st cals'
      | Ok pbs =>
          match window_points st cals' with
          | Ok pts => Ok (pbs ++ pts)
          | Err e => Err e
          end
      end
  end.

(** [WindowsToData]: the data, and the windows as they go back to the pool. *)
Fixpoint WindowsToData (st : Store tag) (ws : list Win) : Res panic (list PointsData * list Win) :=
  match ws with
  | [] => Ok ([], [])
  | w :: ws' =>
      match window_points st (order (map_to_list (w_cache w))) with
      | Err e => Err e
      | Ok pts =>
          match WindowsToData st ws' with
          | Err e => Err e
          | Ok (pds, pool) =>
              Ok (match pts with [] => pds | _ => mkData pts (w_Token w) :: pds end, Win_Reset w :: pool)
          end
      end
  end.
End Data.

(** ** Goroutines

    A goroutine that adds a calculator is before the lookup, holds a bucket, has found it
    closed and is about to read the clock, or has returned.  The calculators of a batch
    are added by goroutines of their own, in any order.  [GetExpWidows] holds the lock of
    the cache and closes the buckets one by one: what is added meanwhile goes to a bucket
    not closed yet, as if it had been added before. *)

Inductive apc : Set := ALookup | AAdd (p : nat) | ACheck | ADone (ok : bool).

Record adder := mkAdder { ad_exp : Z; ad_token : string; ad_cal : Calculator; ad_pc : apc }.

Definition set_pc (pc : apc) (a : adder) : adder := mkAdder (ad_exp a) (ad_token a) (ad_cal a) pc.

Record Sys := mkSys { s_cache : Cache; s_clock : Z; s_adders : list adder }.

Inductive event : Type :=
| EAccept (tid : nat) (exp : Z) (token : string) (cal : Calculator)
| EFlush (now : Z) (wins : list Win).

Section Steps.
Context `{ArrayEnc} (grow : nat -> nat) (Sum64 : string -> Z) (fmt_rest : any -> bytes).

(** The goroutines that [AddBatch] stands for: one per calculator that is not expired
    when it starts. *)
Definition new_adders (token : string) (cals : list Calculator) (s : Sys) : list adder :=
  map (fun cal => mkAdder (expiry (s_cache s) cal) token cal ALookup)
      (List.filter (fun cal => s_clock s <? expiry (s_cache s) cal) cals).

Inductive step : Sys -> option event -> Sys -> Prop :=
| step_tick s t : s_clock s <= t ->
    step s None (mkSys (s_cache s) t (s_adders s))
| step_batch s token b cals st :
    newCalculators grow Sum64 fmt_rest b (tagStore (s_cache s)) = (cals, st) ->
    step s None (mkSys (set_store st (s_cache s)) (s_clock s) (s_adders s ++ new_adders token cals s))
| step_lookup s i a p c :
    s_adders s !! i = Some a -> ad_pc a = ALookup -> get_bucket (ad_exp a) (s_cache s) = (p, c) ->
    step s None (mkSys c (s_clock s) (<[i := set_pc (AAdd p) a]> (s_adders s)))
| step_add s i a p pw c :
    s_adders s !! i = Some a -> ad_pc a = AAdd p ->
    add_at grow pw p (ad_token a) (ad_cal a) (s_cache s) = (true, c) ->
    step s (Some (EAccept i (ad_exp a) (ad_token a) (ad_cal a)))
         (mkSys c (s_clock s) (<[i := set_pc (ADone true) a]> (s_adders s)))
| step_closed s i a p pw c :
    s_adders s !! i = Some a -> ad_pc a = AAdd p ->
    add_at grow pw p (ad_token a) (ad_cal a) (s_cache s) = (false, c) ->
    step s None (mkSys c (s_clock s) (<[i := set_pc ACheck a]> (s_adders s)))
| step_check s i a :
    s_adders s !! i = Some a -> ad_pc a = ACheck ->
    step s None (mkSys (s_cache s) (s_clock s)
      (<[i := set_pc (if ad_exp a <=? s_clock s then ADone false else ALookup) a]> (s_adders s)))
| step_flush s order wss c :
    (forall l, order l ≡ₚ l) -> GetExpWidows order (s_clock s) (s_cache s) = (wss, c) ->
    step s (Some (EFlush (s_clock s) wss)) (mkSys c (s_clock s) (s_adders s)).
End Steps.
