(* ===== verification/AggrWindowThms.v ===== *)
(** * Metric aggregation: what windows hand out

    The specification is a map from expiry time, token and hash to the list of the
    calculators accepted there.  [crel] relates a cache to it, whatever goroutines are at
    work; the values of a calculator are compared without its slice of tags. *)

From S2P Require Import Prelude GoNum GoSlice PointKV PointCheck PointNew PointProto AggrCalc AggrWindow.

(** ** Specification *)

Definition strip (x : Calculator) : Calculator := on_base (set_aggrTags None) x.

(** What a calculator holds after the calculators [l] were given to it in order. *)
Definition agg (l : list Calculator) : option Calculator :=
  match l with
  | [] => None
  | c :: l' => Some (fold_left calc_Add l' (strip c))
  end.

Abbreviation tokmap := (gmap string (gmap Z (list Calculator))).
Abbreviation spec := (gmap Z tokmap).

Definition spec_add (exp : Z) (token : string) (cal : Calculator) (m : spec) : spec :=
  let tm := default ∅ (m !! exp) in
  let hm := default ∅ (tm !! token) in
  let h := mb_hash (Base cal) in
  <[exp := <[token := <[h := default [] (hm !! h) ++ [cal]]> hm]> tm]> m.

Definition view (w : Win) : string * gmap Z Calculator := (w_Token w, strip <$> w_cache w).

Definition tok_views (tm : tokmap) : list (string * gmap Z Calculator) := map_to_list (omap agg <$> tm).

Definition spec_windows (now : Z) (m : spec) : list (string * gmap Z Calculator) :=
  flat_map (fun e => if fst e <=? now then tok_views (snd e) else []) (map_to_list m).

Definition spec_flush (now : Z) (m : spec) : spec := filter (fun e => now < fst e) m.

Inductive spec_step : spec -> event -> spec -> Prop :=
| spec_accept m tid exp token cal : spec_step m (EAccept tid exp token cal) (spec_add exp token cal m)
| spec_expire m now wins : map view wins ≡ₚ spec_windows now m ->
    spec_step m (EFlush now wins) (spec_flush now m).

Inductive spec_run : list event -> spec -> Prop :=
| spec_run_nil : spec_run [] ∅
| spec_run_snoc tr m e m' : spec_run tr m -> spec_step m e m' -> spec_run (tr ++ [e]) m'.

(** ** Calculators *)

Lemma strip_Add x c : strip (calc_Add x c) = calc_Add (strip x) c.
Proof.
  destruct x as [x|x|x|x|x|x|x|x|x|x|x], c as [c|c|c|c|c|c|c|c|c|c|c]; try done; cbn [calc_Add strip on_base].
  - unfold first_Add. cbn [firstTime fst_count]. by destruct (_ || _).
  - unfold last_Add. cbn [lastTime lst_count]. by destruct (_ <? _).
  - unfold quantiles_Add. cbn [qnt_maxTime qnt_count].
    assert (forall l a, fold_left (fun a v => quant_addValue v a) l
        (mkQuant (qnt_maxTime a) (set_aggrTags None (qnt_base a)) (qnt_all a) (qnt_count a) (quantiles a))
      = let b := fold_left (fun a v => quant_addValue v a) l a in
        mkQuant (qnt_maxTime b) (set_aggrTags None (qnt_base b)) (qnt_all b) (qnt_count b) (quantiles b)) as ->.
    { induction l as [|v l IH]; intros a; [done|]. cbn [fold_left].
      etransitivity; [|apply (IH (quant_addValue v a))]. done. }
    done.
  - unfold stdev_Add. cbn [std_count std_mean std_m2 std_maxTime std_base].
    destruct (std_count c =? 0); [done|]. by destruct (std_count x =? 0).
  - unfold distinct_Add.
    set (g := fun d : algoCountDistinct =>
                mkDistinct (set_aggrTags None (dst_base d)) (dst_maxTime d) (distinctValues d) (sketch d)).
    assert (forall d, ensureSketch (g d) = g (ensureSketch d)) as E.
    { intros d. unfold ensureSketch. cbn. by destruct (sketch d). }
    assert (forall h d, add_to_sketch h (g d) = g (add_to_sketch h d)) as T.
    { intros h d. unfold add_to_sketch. cbn. by destruct (sketch d). }
    assert (forall h d, addHash h (g d) = g (addHash h d)) as A.
    { intros h d. unfold addHash. cbn [sketch distinctValues g]. rewrite E, !T. destruct (sketch d); [done|].
      by destruct (_ || _). }
    assert (forall l d, fold_left (fun c h => addHash h c) l (g d) = g (fold_left (fun c h => addHash h c) l d)) as F.
    { induction l as [|h l IH]; intros d; [done|]. cbn [fold_left]. by rewrite A, IH. }
    fold (g x). destruct (sketch c); [by rewrite E | by rewrite F].
Qed.

Lemma strip_build grow st cal st' cal' : calc_build grow st cal = (st', cal') ->
  strip cal' = strip cal /\ mb_hash (Base cal') = mb_hash (Base cal).
Proof.
  unfold calc_build, build. destruct (sl_appends _ _ _ _) as [st1 s]. intros [= <- <-]. by destruct cal.
Qed.

Lemma agg_snoc l cal : agg (l ++ [cal]) = Some match agg l with None => strip cal | Some x => calc_Add x cal end.
Proof. destruct l as [|c l]; [done|]. cbn. by rewrite fold_left_app. Qed.

Lemma agg_None l : agg l = None -> l = [].
Proof. by destruct l. Qed.

(** ** Windows against the specification *)

Definition win_rel (w : Win) (hm : gmap Z (list Calculator)) : Prop := strip <$> w_cache w = omap agg hm.

Record wins_rel (ws : Windows) (tm : tokmap) : Prop := {
  wr_ids : forall token i, IDs ws !! token = Some i <-> exists w, WS ws !! i = Some w /\ w_Token w = token;
  wr_some : forall token i w, IDs ws !! token = Some i -> WS ws !! i = Some w ->
    exists hm, tm !! token = Some hm /\ win_rel w hm;
  wr_none : forall token, IDs ws !! token = None -> tm !! token = None;
}.

Lemma win_add_rel grow st cal w hm st' w' : win_rel w hm -> Win_AddCal grow st cal w = (st', w') ->
  w_Token w' = w_Token w /\
  win_rel w' (<[mb_hash (Base cal) := default [] (hm !! mb_hash (Base cal)) ++ [cal]]> hm).
Proof.
  unfold win_rel, Win_AddCal. intros R E. set (h := mb_hash (Base cal)) in *.
  assert (forall x, strip x = match agg (default [] (hm !! h)) with None => strip cal | Some x => calc_Add x cal end ->
    strip <$> <[h := x]> (w_cache w) = omap agg (<[h := default [] (hm !! h) ++ [cal]]> hm)) as K.
  { intros x Ex. rewrite fmap_insert, R, Ex. symmetry. apply map_eq. intros i. rewrite lookup_omap.
    destruct (decide (i = h)) as [->|N].
    - rewrite !lookup_insert_eq. cbn. apply agg_snoc.
    - rewrite !lookup_insert_ne by done. by rewrite lookup_omap. }
  assert (strip <$> (w_cache w !! h) = agg (default [] (hm !! h))) as L.
  { rewrite <- lookup_fmap, R, lookup_omap. by destruct (hm !! h). }
  destruct (w_cache w !! h) as [calc|] eqn:C; cbn in L.
  - injection E as <- <-. split; [done|]. cbn. apply K. rewrite <- L. by rewrite strip_Add.
  - destruct (calc_build grow st cal) as [st1 cal'] eqn:B. injection E as <- <-. split; [done|]. cbn. apply K.
    rewrite <- L. by apply strip_build in B as [-> _].
Qed.

(** A window for the token is there after the first part of [addCal]. *)
Lemma wins_token ws tm token pw : wins_rel ws tm ->
  exists ids wins id w hm,
    (match IDs ws !! token with
     | Some id => (id, IDs ws, WS ws)
     | None => (length (WS ws), <[token := length (WS ws)]> (IDs ws), WS ws ++ [mkWin (w_cache (Win_Reset pw)) token])
     end) = (id, ids, wins) /\
    wins !! id = Some w /\ w_Token w = token /\ ids !! token = Some id /\
    hm = default ∅ (tm !! token) /\ win_rel w hm /\ wins_rel (mkWindows false ids wins) (<[token := hm]> tm).
Proof.
  intros R. destruct (IDs ws !! token) as [id|] eqn:E.
  - destruct (proj1 (wr_ids ws tm R token id) E) as (w & Lw & Tw).
    destruct (wr_some ws tm R token id w E Lw) as (hm & Lm & Rw).
    exists (IDs ws), (WS ws), id, w, hm. rewrite Lm, insert_id by done. split_and!; try done.
    destruct R. by constructor.
  - pose proof (wr_none ws tm R token E) as N.
    exists (<[token := length (WS ws)]> (IDs ws)), (WS ws ++ [mkWin ∅ token]), (length (WS ws)), (mkWin ∅ token), ∅.
    rewrite N, lookup_insert_eq, lookup_app_r, Nat.sub_diag by done. split_and!; try done.
    constructor; cbn.
    + intros tok i. destruct (decide (tok = token)) as [->|Nt].
      * rewrite lookup_insert_eq. split.
        { intros [= <-]. exists (mkWin ∅ token). by rewrite lookup_app_r, Nat.sub_diag by done. }
        intros (w & Lw & Tw). apply lookup_app_Some in Lw as [Lw|[Li Lw]].
        { assert (IDs ws !! token = Some i) by (apply (wr_ids ws tm R); eauto). congruence. }
        apply list_lookup_singleton_Some in Lw as [? _]. f_equal. lia.
      * rewrite lookup_insert_ne by done. rewrite (wr_ids ws tm R tok i). split; intros (w & Lw & Tw).
        { exists w. by rewrite (lookup_app_l_Some _ _ _ _ Lw). }
        apply lookup_app_Some in Lw as [Lw|[Li Lw]]; [by exists w|].
        apply list_lookup_singleton_Some in Lw as [_ <-]. cbn in Tw. congruence.
    + intros tok i w Li Lw. destruct (decide (tok = token)) as [->|Nt].
      * rewrite lookup_insert_eq in Li. injection Li as <-.
        rewrite lookup_app_r, Nat.sub_diag in Lw by done. injection Lw as <-.
        exists ∅. rewrite lookup_insert_eq. split; [done|]. reflexivity.
      * rewrite lookup_insert_ne in Li by done. rewrite lookup_insert_ne by done.
        destruct (proj1 (wr_ids ws tm R tok i) Li) as (w' & Lw' & _).
        rewrite (lookup_app_l_Some _ _ _ _ Lw') in Lw. injection Lw as <-. by apply (wr_some ws tm R tok i).
    + intros tok Ln. destruct (decide (tok = token)) as [->|Nt]; [by rewrite lookup_insert_eq in Ln|].
      rewrite lookup_insert_ne in Ln by done. rewrite lookup_insert_ne by done. by apply (wr_none ws tm R).
Qed.

Lemma addCal_rel grow pw st token cal ws tm ok st' ws' : wins_rel ws tm -> closed ws = false ->
  addCal grow pw st token cal ws = (ok, st', ws') ->
  ok = true /\ closed ws' = false /\
  wins_rel ws' (<[token := let hm := default ∅ (tm !! token) in
                          <[mb_hash (Base cal) := default [] (hm !! mb_hash (Base cal)) ++ [cal]]> hm]> tm).
Proof.
  intros R C E. unfold addCal in E. rewrite C in E.
  destruct (wins_token ws tm token pw R) as (ids & wins & id & w & hm & Ew & Lw & Tw & Li & Eh & Rw & R').
  rewrite Ew, Lw in E. destruct (Win_AddCal grow st cal w) as [st1 w'] eqn:A. injection E as <- <- <-.
  destruct (win_add_rel _ _ _ _ _ _ _ Rw A) as [Tw' Rw']. rewrite Tw in Tw'.
  pose proof (lookup_lt_Some _ _ _ Lw) as Hlt.
  split_and!; [done..|]. rewrite <- Eh. cbn zeta. constructor; cbn.
  - intros tok i. rewrite (wr_ids _ _ R' tok i). cbn. destruct (decide (i = id)) as [->|N].
    + rewrite list_lookup_insert_eq by done. rewrite Lw. split; intros (v & [= <-] & T); eexists; split; [done|congruence|done|congruence].
    + by rewrite list_lookup_insert_ne.
  - intros tok i v Lt Lv. destruct (decide (i = id)) as [->|N].
    + rewrite list_lookup_insert_eq in Lv by done. injection Lv as <-.
      apply (wr_ids _ _ R' tok id) in Lt as (v & Lv & Tv). cbn in Lv. rewrite Lw in Lv. injection Lv as <-.
      assert (tok = token) as -> by congruence. rewrite lookup_insert_eq. eauto.
    + rewrite list_lookup_insert_ne in Lv by done.
      destruct (wr_some _ _ R' tok i v Lt Lv) as (hm' & Lm & Rv).
      assert (tok <> token) as Nt. { intros ->. cbn in Lt. congruence. }
      rewrite lookup_insert_ne in Lm by done. rewrite lookup_insert_ne by done. eauto.
  - intros tok Ln. pose proof (wr_none _ _ R' tok Ln) as Nm.
    assert (tok <> token) as Nt. { intros ->. cbn in Ln. congruence. }
    rewrite lookup_insert_ne in Nm by done. by rewrite lookup_insert_ne.
Qed.

(** The windows of a bucket, as the specification lists them. *)
Lemma wins_views ws tm : wins_rel ws tm -> map view (WS ws) ≡ₚ tok_views tm.
Proof.
  intros R.
  assert (forall i j v w, WS ws !! i = Some v -> WS ws !! j = Some w -> w_Token v = w_Token w -> i = j) as Inj.
  { intros i j v w Lv Lw T.
    assert (IDs ws !! w_Token v = Some i) by (apply (wr_ids _ _ R); eauto).
    assert (IDs ws !! w_Token v = Some j) by (apply (wr_ids _ _ R); rewrite T; eauto). congruence. }
  apply NoDup_Permutation.
  - apply (NoDup_fmap_1 fst). apply NoDup_alt. intros i j t Hi Hj.
    rewrite !list_lookup_fmap in Hi, Hj.
    destruct (WS ws !! i) as [v|] eqn:Lv; [|done]. destruct (WS ws !! j) as [w|] eqn:Lw; [|done].
    cbn in Hi, Hj. eapply Inj; eauto. congruence.
  - apply NoDup_map_to_list.
  - intros [token cs]. unfold tok_views. rewrite elem_of_map_to_list, lookup_fmap. split.
    + intros Hin. apply list_elem_of_fmap in Hin as (w & [= -> ->] & Hw).
      apply list_elem_of_lookup in Hw as [i Li].
      assert (IDs ws !! w_Token w = Some i) as Hi by (apply (wr_ids _ _ R); eauto).
      destruct (wr_some _ _ R _ _ _ Hi Li) as (hm & Lm & Rw). rewrite Lm. cbn. by rewrite Rw.
    + intros Hin. destruct (tm !! token) as [hm|] eqn:Lm; [|done]. injection Hin as <-.
      destruct (IDs ws !! token) as [i|] eqn:Hi; [|by rewrite (wr_none _ _ R) in Lm].
      destruct (proj1 (wr_ids _ _ R _ _) Hi) as (w & Lw & Tw).
      destruct (wr_some _ _ R _ _ _ Hi Lw) as (hm' & Lm' & Rw).
      apply list_elem_of_fmap. exists w. split; [|by eapply list_elem_of_lookup_2].
      unfold view. rewrite Rw, Tw. congruence.
Qed.

(** ** The cache against the specification *)

Record crel (c : Cache) (m : spec) : Prop := {
  cr_bucket : forall exp p, WindowsBuckets c !! exp = Some p ->
    exists ws, heap c !! p = Some ws /\ closed ws = false /\ wins_rel ws (default ∅ (m !! exp));
  cr_none : forall exp, WindowsBuckets c !! exp = None -> m !! exp = None;
  cr_open : forall p ws, heap c !! p = Some ws -> closed ws = false -> exists exp, WindowsBuckets c !! exp = Some p;
  cr_inj : forall e e' p, WindowsBuckets c !! e = Some p -> WindowsBuckets c !! e' = Some p -> e = e';
}.

Lemma new_windows_rel : wins_rel new_windows ∅.
Proof.
  constructor; cbn; [|intros ? ? ? H; by rewrite lookup_empty in H | done].
  intros token i. rewrite lookup_empty. split; [done|]. intros (w & Lw & _). by rewrite lookup_nil in Lw.
Qed.

Lemma crel_new d : crel (NewCache d) ∅.
Proof. constructor; cbn; intros *; rewrite ?lookup_empty, ?lookup_nil; done. Qed.

Lemma crel_store c m st : crel c m -> crel (set_store st c) m.
Proof. by intros []. Qed.

Lemma get_bucket_rel exp c m p c' : crel c m -> get_bucket exp c = (p, c') ->
  crel c' m /\ WindowsBuckets c' !! exp = Some p /\ Expired c' = Expired c /\
  (forall q ws, heap c !! q = Some ws -> heap c' !! q = Some ws) /\
  (forall e q, WindowsBuckets c !! e = Some q -> WindowsBuckets c' !! e = Some q).
Proof.
  intros R E. unfold get_bucket in E. destruct (WindowsBuckets c !! exp) as [q|] eqn:B; injection E as <- <-; [done|].
  assert (forall q ws, heap c !! q = Some ws -> (heap c ++ [new_windows]) !! q = Some ws) as K
    by (intros; by apply lookup_app_l_Some).
  split_and!; cbn; [|by rewrite lookup_insert_eq | done | done |].
  2: { intros e q Lq. rewrite lookup_insert_ne; [done|]. congruence. }
  constructor; cbn.
  - intros e q. destruct (decide (e = exp)) as [->|N].
    + rewrite lookup_insert_eq. intros [= <-]. exists new_windows.
      rewrite lookup_app_r, Nat.sub_diag by done. rewrite (cr_none _ _ R exp B). split_and!; [done..|].
      apply new_windows_rel.
    + rewrite lookup_insert_ne by done. intros Lq. destruct (cr_bucket _ _ R e q Lq) as (ws & Lw & ?). eauto.
  - intros e. destruct (decide (e = exp)) as [->|N]; [by rewrite lookup_insert_eq|].
    rewrite lookup_insert_ne by done. apply (cr_none _ _ R).
  - intros q ws Lq Cw. apply lookup_app_Some in Lq as [Lq|[Lq1 Lq2]].
    + destruct (cr_open _ _ R q ws Lq Cw) as [e Le]. exists e. rewrite lookup_insert_ne; [done|]. congruence.
    + apply list_lookup_singleton_Some in Lq2 as [Lq2 _]. exists exp. rewrite lookup_insert_eq. f_equal. lia.
  - assert (forall e, WindowsBuckets c !! e <> Some (length (heap c))) as Nl.
    { intros e Le. destruct (cr_bucket _ _ R e _ Le) as (ws & Lw & _). apply lookup_lt_Some in Lw. lia. }
    intros e e' q. destruct (decide (e = exp)) as [->|N], (decide (e' = exp)) as [->|N']; [done| | |];
      rewrite ?lookup_insert_eq, ?lookup_insert_ne by done.
    + intros [= <-] L. by apply Nl in L.
    + intros L [= <-]. by apply Nl in L.
    + apply (cr_inj _ _ R).
Qed.

(** Adding through a pointer to an open bucket. *)
Lemma add_at_open grow pw p token cal c m exp ok c' : crel c m -> WindowsBuckets c !! exp = Some p ->
  add_at grow pw p token cal c = (ok, c') ->
  ok = true /\ crel c' (spec_add exp token cal m) /\ WindowsBuckets c' = WindowsBuckets c /\ Expired c' = Expired c /\
  (forall q ws, heap c !! q = Some ws -> closed ws = true -> heap c' !! q = Some ws).
Proof.
  intros R B E. destruct (cr_bucket _ _ R _ _ B) as (ws & Lw & Cw & Rw).
  unfold add_at in E. rewrite Lw in E. destruct (addCal grow pw (tagStore c) token cal ws) as [[ok1 st1] ws1] eqn:A.
  injection E as <- <-. destruct (addCal_rel _ _ _ _ _ _ _ _ _ _ Rw Cw A) as (-> & Cw1 & Rw1).
  pose proof (lookup_lt_Some _ _ _ Lw) as Hlt. split_and!; cbn; [done| |done|done|].
  2: { intros q v Lq Cv. rewrite list_lookup_insert_ne; [done|]. congruence. }
  constructor; cbn.
  - intros e q Lq. destruct (decide (e = exp)) as [->|N].
    + assert (q = p) as -> by congruence. exists ws1. rewrite list_lookup_insert_eq by done.
      unfold spec_add. by rewrite lookup_insert_eq.
    + assert (q <> p) as Nq by (intros ->; by apply N, (cr_inj _ _ R e exp p)).
      rewrite list_lookup_insert_ne by done. unfold spec_add. rewrite lookup_insert_ne by done.
      by apply (cr_bucket _ _ R).
  - intros e Le. unfold spec_add. rewrite lookup_insert_ne; [by apply (cr_none _ _ R)|]. congruence.
  - intros q v Lq Cv. destruct (decide (q = p)) as [->|N]; [by exists exp|].
    rewrite list_lookup_insert_ne in Lq by done. by eapply cr_open.
  - apply (cr_inj _ _ R).
Qed.

Lemma add_at_closed grow pw p token cal c ws : heap c !! p = Some ws -> closed ws = true ->
  add_at grow pw p token cal c = (false, c).
Proof.
  intros Lw Cw. unfold add_at, addCal. rewrite Lw, Cw. rewrite list_insert_id by done. by destruct c.
Qed.

(** ** Closing the expired buckets *)

Lemma spec_windows_delete now m t : t <= now ->
  spec_windows now m ≡ₚ tok_views (default ∅ (m !! t)) ++ spec_windows now (delete t m).
Proof.
  intros Ht. unfold spec_windows. destruct (m !! t) as [tm|] eqn:L; cbn [default].
  - rewrite <- (insert_delete_id m t tm L) at 1.
    rewrite (Permutation_flat_map _ (map_to_list_insert (delete t m) t tm (lookup_delete_eq _ _))).
    cbn [flat_map fst snd]. destruct (Z.leb_spec t now); [done|lia].
  - rewrite delete_id by done. unfold tok_views. change (default ∅ None) with (∅ : tokmap).
    rewrite fmap_empty, map_to_list_empty. done.
Qed.

Lemma spec_windows_none now m : (forall e tm, m !! e = Some tm -> now < e) -> spec_windows now m = [].
Proof.
  intros H. unfold spec_windows.
  assert (Forall (fun e => now < fst e) (map_to_list m)) as F.
  { apply list.Forall_forall. intros [e tm] Hin. apply elem_of_map_to_list in Hin. cbn. eauto. }
  induction F as [|e l He _ IH]; [done|]. cbn [flat_map]. rewrite IH. destruct (Z.leb_spec (fst e) now); [lia|done].
Qed.

Lemma close_bucket_rel now c m t p wss : crel c m -> WindowsBuckets c !! t = Some p -> t <= now ->
  exists l c', close_bucket now (wss, c) (t, p) = (wss ++ l, c') /\ crel c' (delete t m) /\
    map view l ≡ₚ tok_views (default ∅ (m !! t)) /\ WindowsBuckets c' = delete t (WindowsBuckets c) /\
    Expired c' = Expired c /\ (exists ws, heap c' !! p = Some ws /\ closed ws = true) /\
    (forall q ws, heap c !! q = Some ws -> closed ws = true -> heap c' !! q = Some ws).
Proof.
  intros R B Ht. destruct (cr_bucket _ _ R _ _ B) as (ws & Lw & Cw & Rw). unfold close_bucket. rewrite Lw.
  destruct (Z.leb_spec t now) as [_|]; [|lia]. cbn [Windows_Close].
  pose proof (lookup_lt_Some _ _ _ Lw) as Hlt. eexists _, _. split; [done|]. split_and!; cbn.
  - constructor; cbn.
    + intros e q. destruct (decide (e = t)) as [->|N]; [by rewrite lookup_delete_eq|].
      rewrite !lookup_delete_ne by done. intros Lq.
      assert (q <> p) by (intros ->; by apply N, (cr_inj _ _ R e t p)).
      rewrite list_lookup_insert_ne by done. by apply (cr_bucket _ _ R).
    + intros e. destruct (decide (e = t)) as [->|N]; [by rewrite !lookup_delete_eq|].
      rewrite !lookup_delete_ne by done. apply (cr_none _ _ R).
    + intros q v Lq Cv. destruct (decide (q = p)) as [->|N].
      { rewrite list_lookup_insert_eq in Lq by done. by injection Lq as <-. }
      rewrite list_lookup_insert_ne in Lq by done. destruct (cr_open _ _ R q v Lq Cv) as [e Le].
      exists e. rewrite lookup_delete_ne; [done|]. congruence.
    + intros e e' q He He'. apply lookup_delete_Some in He as [_ He]. apply lookup_delete_Some in He' as [_ He'].
      by apply (cr_inj _ _ R e e' q).
  - by apply wins_views.
  - done.
  - done.
  - exists (mkWindows true ∅ []). by rewrite list_lookup_insert_eq.
  - intros q v Lq Cv. rewrite list_lookup_insert_ne; [done|]. congruence.
Qed.

(** [t] is due in [l]. *)
Definition due (now : Z) (l : list (Z * nat)) (t : Z) : Prop := t <= now /\ exists p, (t, p) ∈ l.

Lemma close_all now l wss c m : crel c m -> NoDup (l.*1) ->
  (forall t p, (t, p) ∈ l -> WindowsBuckets c !! t = Some p) ->
  exists out c' m', fold_left (close_bucket now) l (wss, c) = (wss ++ out, c') /\ crel c' m' /\
    Expired c' = Expired c /\
    (forall t, due now l t -> m' !! t = None) /\ (forall t, ~ due now l t -> m' !! t = m !! t) /\
    (forall t, ~ due now l t -> WindowsBuckets c' !! t = WindowsBuckets c !! t) /\
    (forall t p, (t, p) ∈ l -> t <= now -> exists ws, heap c' !! p = Some ws /\ closed ws = true) /\
    (forall q ws, heap c !! q = Some ws -> closed ws = true -> heap c' !! q = Some ws) /\
    map view out ++ spec_windows now m' ≡ₚ spec_windows now m.
Proof.
  revert wss c m. induction l as [|[t p] l IH]; intros wss c m R ND B.
  { exists [], c, m. rewrite app_nil_r. split_and!; try done.
    - intros t [_ [p Hp]]. by apply elem_of_nil in Hp.
    - intros t p Hp. by apply elem_of_nil in Hp. }
  apply list.NoDup_cons in ND as [Nt ND]. cbn [fold_left].
  assert (forall t', (exists p', (t', p') ∈ l) -> t' <> t) as Ne.
  { intros t' [p' Hp] ->. apply Nt. apply list_elem_of_fmap. by exists (t, p'). }
  destruct (Z.leb_spec t now) as [Ht|Ht].
  - destruct (close_bucket_rel now c m t p wss R) as (o & c1 & -> & R1 & V & B1 & X1 & (ws & Lp & Cp) & K1);
      [apply B; by left | done |].
    destruct (IH (wss ++ o) c1 (delete t m) R1 ND) as (out & c' & m' & -> & R' & X' & D' & U' & W' & H' & K' & V').
    { intros t' p' Hp. rewrite B1, lookup_delete_ne; [apply B; by right|]. symmetry. apply Ne. eauto. }
    exists (o ++ out), c', m'. rewrite app_assoc. split_and!; [done|done|congruence| | | | |naive_solver|].
    + intros t' [Hle [p' Hp]]. destruct (decide (t' = t)) as [->|N].
      * rewrite U'; [by rewrite lookup_delete_eq|]. intros [_ Hx]. by apply Ne in Hx.
      * apply D'. split; [done|]. exists p'. apply elem_of_cons in Hp as [[= -> ->]|Hp]; done.
    + intros t' N. rewrite U'; [rewrite lookup_delete_ne; [done|] |].
      * intros <-. apply N. split; [done|]. exists p. by left.
      * intros [Hle [p' Hp]]. apply N. split; [done|]. exists p'. by right.
    + intros t' N. rewrite W'; [rewrite B1, lookup_delete_ne; [done|] |].
      * intros <-. apply N. split; [done|]. exists p. by left.
      * intros [Hle [p' Hp]]. apply N. split; [done|]. exists p'. by right.
    + intros t' p' Hp Hle. apply elem_of_cons in Hp as [[= -> ->]|Hp]; [|by apply (H' t')]. exists ws. eauto.
    + rewrite map_app, <- app_assoc, V'. rewrite V. symmetry. by apply spec_windows_delete.
  - assert (close_bucket now (wss, c) (t, p) = (wss, c)) as ->.
    { unfold close_bucket. destruct (Z.leb_spec t now); [lia|done]. }
    destruct (IH wss c m R ND) as (out & c' & m' & -> & R' & X' & D' & U' & W' & H' & K' & V').
    { intros t' p' Hp. apply B. by right. }
    assert (forall t', due now ((t, p) :: l) t' <-> due now l t') as Ed.
    { intros t'. unfold due. split; intros [Hle [p' Hp]]; (split; [done|]); exists p'; [|by right].
      apply elem_of_cons in Hp as [[= -> ->]|Hp]; [lia|done]. }
    exists out, c', m'. split_and!; try done; try (intros t' Hd; rewrite Ed in Hd; auto).
    intros t' p' Hp Hle. apply elem_of_cons in Hp as [[= -> ->]|Hp]; [lia|by apply (H' t')].
Qed.

(** [GetExpWidows] hands out what the specification does, closes every bucket it takes
    out, and leaves nothing expired. *)
Lemma flush_rel order now c m wss c' : crel c m -> (forall l, order l ≡ₚ l) ->
  GetExpWidows order now c = (wss, c') ->
  crel c' (spec_flush now m) /\ map view wss ≡ₚ spec_windows now m /\ Expired c' = Expired c /\
  (forall t p, WindowsBuckets c !! t = Some p -> WindowsBuckets c' !! t = Some p \/
     t <= now /\ exists ws, heap c' !! p = Some ws /\ closed ws = true) /\
  (forall q ws, heap c !! q = Some ws -> closed ws = true -> heap c' !! q = Some ws).
Proof.
  intros R O E. unfold GetExpWidows in E. set (l := order (map_to_list (WindowsBuckets c))) in E.
  assert (forall t p, (t, p) ∈ l <-> WindowsBuckets c !! t = Some p) as L.
  { intros t p. unfold l. rewrite O. apply elem_of_map_to_list. }
  destruct (close_all now l [] c m R) as (out & c1 & m1 & E1 & R1 & X1 & D1 & U1 & W1 & H1 & K1 & V1).
  { unfold l. rewrite O. apply NoDup_fst_map_to_list. }
  { intros t p. by rewrite L. }
  rewrite E1 in E. injection E as <- <-. cbn [app].
  assert (forall t, m !! t <> None -> t <= now -> due now l t) as Due.
  { intros t Nm Hle. split; [done|]. destruct (WindowsBuckets c !! t) as [p|] eqn:B.
    - exists p. by rewrite L.
    - by rewrite (cr_none _ _ R t B) in Nm. }
  assert (m1 = spec_flush now m) as <-.
  { apply map_eq. intros t. unfold spec_flush. destruct (Z.le_gt_cases t now) as [Hle|Hgt].
    - rewrite (map_lookup_filter_None_2 _ m t) by (right; cbn; intros; lia).
      destruct (m !! t) as [tm|] eqn:Lm; [apply D1, Due; congruence|].
      destruct (m1 !! t) eqn:L1; [|done]. destruct (WindowsBuckets c !! t) as [p|] eqn:B.
      + rewrite D1 in L1; [done|]. split; [done|]. exists p. by rewrite L.
      + rewrite U1 in L1; [congruence|]. intros [_ [p Hp]]. rewrite L in Hp. congruence.
    - rewrite U1 by (intros [? _]; lia). destruct (m !! t) as [tm|] eqn:Lm.
      + symmetry. apply map_lookup_filter_Some_2; [done|]. cbn. lia.
      + symmetry. apply map_lookup_filter_None_2. by left. }
  split_and!; [done| |done| |done].
  - rewrite (spec_windows_none now (m1)), app_nil_r in V1; [done|].
    intros e tm Le. destruct (Z.le_gt_cases e now) as [Hle|Hgt]; [|lia]. exfalso.
    destruct (WindowsBuckets c !! e) as [p|] eqn:B.
    + rewrite D1 in Le; [done|]. split; [done|]. exists p. by rewrite L.
    + rewrite U1 in Le; [|intros [_ [p Hp]]; rewrite L in Hp; congruence]. by rewrite (cr_none _ _ R e B) in Le.
  - intros t p B. destruct (Z.le_gt_cases t now) as [Hle|Hgt].
    + right. split; [done|]. apply (H1 t); [by rewrite L | done].
    + left. rewrite W1; [done|]. intros [? _]. lia.
Qed.

(** ** Goroutines *)

Definition accepts (i : nat) (tr : list event) : list event :=
  List.filter (fun e => match e with EAccept j _ _ _ => (j =? i)%nat | EFlush _ _ => false end) tr.

Lemma accepts_app i tr tr' : accepts i (tr ++ tr') = accepts i tr ++ accepts i tr'.
Proof. apply List.filter_app. Qed.

(** Bucket [p] is the one of [exp], or it was closed after [exp]. *)
Definition holds (c : Cache) (clock exp : Z) (p : nat) : Prop :=
  WindowsBuckets c !! exp = Some p \/ exp <= clock /\ exists ws, heap c !! p = Some ws /\ closed ws = true.

Definition adder_ok (c : Cache) (clock : Z) (tr : list event) (i : nat) (a : adder) : Prop :=
  match ad_pc a with
  | ALookup => accepts i tr = []
  | AAdd p => accepts i tr = [] /\ holds c clock (ad_exp a) p
  | ACheck | ADone false => accepts i tr = [] /\ ad_exp a <= clock
  | ADone true => accepts i tr = [EAccept i (ad_exp a) (ad_token a) (ad_cal a)]
  end.

Record sys_ok (s : Sys) (m : spec) (tr : list event) : Prop := {
  so_cache : crel (s_cache s) m;
  so_adders : forall i a, s_adders s !! i = Some a -> adder_ok (s_cache s) (s_clock s) tr i a;
  so_fresh : forall i, (length (s_adders s) <= i)%nat -> accepts i tr = [];
}.

Lemma adder_ok_mono c clock tr i a c' clock' : adder_ok c clock tr i a -> clock <= clock' ->
  (forall exp p, holds c clock exp p -> holds c' clock' exp p) -> adder_ok c' clock' tr i a.
Proof.
  unfold adder_ok. intros H Hle K. destruct (ad_pc a) as [|p| |[]]; try done; destruct H as [H1 H2]; auto with lia.
Qed.

(** The adders other than [i] after a step of [i]. *)
Lemma sys_ok_update s m tr i a pc c m' tr' : sys_ok s m tr -> s_adders s !! i = Some a -> crel c m' ->
  (forall j, j <> i -> accepts j tr' = accepts j tr) ->
  adder_ok c (s_clock s) tr' i (set_pc pc a) ->
  (forall exp p, holds (s_cache s) (s_clock s) exp p -> holds c (s_clock s) exp p) ->
  sys_ok (mkSys c (s_clock s) (<[i := set_pc pc a]> (s_adders s))) m' tr'.
Proof.
  intros [R A F] Li R' T Ai K. pose proof (lookup_lt_Some _ _ _ Li) as Hlt. constructor; cbn; [done| |].
  - intros j b Lj. destruct (decide (j = i)) as [->|N].
    + rewrite list_lookup_insert_eq in Lj by done. by injection Lj as <-.
    + rewrite list_lookup_insert_ne in Lj by done. specialize (A j b Lj).
      apply (adder_ok_mono (s_cache s) (s_clock s)); [|lia|done]. unfold adder_ok in *. by rewrite T.
  - intros j. rewrite length_insert. intros Hj. rewrite T by lia. auto.
Qed.

Lemma holds_get_bucket exp c m p c' clock e q : crel c m -> get_bucket exp c = (p, c') ->
  holds c clock e q -> holds c' clock e q.
Proof.
  intros R E. destruct (get_bucket_rel exp c m p c' R E) as (_ & _ & _ & K & B).
  intros [H|[H (ws & L & C)]]; [left; auto | right; split; [done|]; exists ws; auto].
Qed.

Section Runs.
Context `{ArrayEnc} (grow : nat -> nat) (Sum64 : string -> Z) (fmt_rest : any -> bytes).

Lemma step_ok s o s' m tr : sys_ok s m tr -> step grow Sum64 fmt_rest s o s' ->
  exists m', sys_ok s' m' (tr ++ option_list o) /\ match o with None => m' = m | Some e => spec_step m e m' end.
Proof.
  intros I S. pose proof I as [R A F]. destruct S as
    [s t Ht | s token b cals st En | s i a p c Li Pc E | s i a p pw c Li Pc E | s i a p pw c Li Pc E
    | s i a Li Pc | s order wss c O E]; cbn [option_list]; rewrite ?app_nil_r.
  - exists m. split; [|done]. constructor; cbn; [done| |done]. intros i a Li.
    apply (adder_ok_mono (s_cache s) (s_clock s)); [auto|done|].
    intros e p [Hb|[He Hc]]; [by left|right; split; [lia|done]].
  - exists m. split; [|done]. constructor; cbn; [by apply crel_store| |].
    + intros i a Li. apply lookup_app_Some in Li as [Li|[Hi Li]]; [by apply A|].
      unfold new_adders in Li. rewrite list_lookup_fmap in Li.
      destruct (List.filter _ cals !! (i - length (s_adders s))%nat) as [cal|]; [|done].
      injection Li as <-. cbn. auto.
    + intros i. rewrite length_app. intros Hi. apply F. lia.
  - exists m. split; [|done]. destruct (get_bucket_rel _ _ _ _ _ R E) as (R' & B' & _).
    apply (sys_ok_update s m tr i a); try done.
    + unfold adder_ok. cbn. specialize (A i a Li). unfold adder_ok in A. rewrite Pc in A. split; [done|by left].
    + intros e q. by eapply holds_get_bucket.
  - specialize (A i a Li) as Ai. unfold adder_ok in Ai. rewrite Pc in Ai. destruct Ai as [Ac [B|[_ (ws & L & C)]]].
    2: { rewrite (add_at_closed _ _ _ _ _ _ _ L C) in E. done. }
    destruct (add_at_open _ _ _ _ _ _ _ _ _ _ R B E) as (_ & R' & B' & _ & K).
    exists (spec_add (ad_exp a) (ad_token a) (ad_cal a) m). split; [|constructor].
    apply (sys_ok_update s m tr i a); try done.
    + intros j Nj. rewrite accepts_app. cbn. rewrite (proj2 (Nat.eqb_neq i j)) by done. by rewrite app_nil_r.
    + unfold adder_ok. cbn. rewrite accepts_app, Ac. cbn. by rewrite Nat.eqb_refl.
    + intros e q [Hb|[He (v & Lv & Cv)]]; [left; congruence|right; split; [done|]; exists v; auto].
  - specialize (A i a Li) as Ai. unfold adder_ok in Ai. rewrite Pc in Ai. destruct Ai as [Ac [B|[He (ws & L & C)]]].
    { destruct (add_at_open _ _ _ _ _ _ _ _ _ _ R B E) as (? & _). done. }
    rewrite (add_at_closed _ _ _ _ _ _ _ L C) in E. injection E as <-.
    exists m. split; [|done]. by apply (sys_ok_update s m tr i a).
  - specialize (A i a Li) as Ai. unfold adder_ok in Ai. rewrite Pc in Ai. destruct Ai as [Ac He].
    exists m. split; [|done]. apply (sys_ok_update s m tr i a); try done.
    destruct (Z.leb_spec (ad_exp a) (s_clock s)); [done|lia].
  - destruct (flush_rel order (s_clock s) (s_cache s) m wss c R O E) as (R' & V & _ & B & K).
    assert (forall j, accepts j (tr ++ [EFlush (s_clock s) wss]) = accepts j tr) as T.
    { intros j. rewrite accepts_app. cbn. apply app_nil_r. }
    exists (spec_flush (s_clock s) m). split; [|by constructor]. constructor; cbn; [done| |].
    + intros i a Li. specialize (A i a Li). apply (adder_ok_mono (s_cache s) (s_clock s)); [|lia|].
      * unfold adder_ok in *. by rewrite T.
      * intros e p [Hb|[He (v & Lv & Cv)]].
        { destruct (B e p Hb) as [?|?]; [by left|by right]. }
        right. split; [done|]. exists v. auto.
    + intros j Hj. rewrite T. auto.
Qed.

Inductive run (s0 : Sys) : list event -> Sys -> Prop :=
| run_nil : run s0 [] s0
| run_snoc tr s o s' : run s0 tr s -> step grow Sum64 fmt_rest s o s' -> run s0 (tr ++ option_list o) s'.

(** C6: whatever goroutines add calculators and take out expired windows, in any
    interleaving, the acceptances and deliveries are a run of the specification, in
    which accepting appends a calculator to the list of its expiry time, token and hash,
    and a delivery hands out, and forgets, exactly the lists due, each combined in the
    order of acceptance; a call that has returned true was accepted exactly once, any
    other never, and a call that finds its bucket closed has expired, so that the retry
    loop ends there. *)
Theorem windows_linearizable (d clock : Z) (tr : list event) (s : Sys) :
  run (mkSys (NewCache d) clock []) tr s ->
  (exists m, spec_run tr m /\ crel (s_cache s) m) /\
  (forall i a, s_adders s !! i = Some a ->
     (ad_pc a = ADone true -> accepts i tr = [EAccept i (ad_exp a) (ad_token a) (ad_cal a)]) /\
     (ad_pc a <> ADone true -> accepts i tr = []) /\
     (ad_pc a = ACheck -> ad_exp a <= s_clock s)).
Proof.
  intros Hr.
  assert (exists m, spec_run tr m /\ sys_ok s m tr) as (m & Sm & I).
  { induction Hr as [|tr s o s' Hr (m & Sm & I) Hs].
    - exists ∅. split; [constructor|]. constructor; cbn; [apply crel_new | by intros i a; rewrite lookup_nil | done].
    - destruct (step_ok s o s' m tr I Hs) as (m' & I' & E). exists m'. split; [|done].
      destruct o as [e|]; cbn in *; [by econstructor|]. subst m'. by rewrite app_nil_r. }
  split; [exists m; split; [done|apply I]|].
  intros i a Li. pose proof (so_adders s m tr I i a Li) as A. unfold adder_ok in A.
  destruct (ad_pc a) as [|p| |[]]; (split_and!; [intros E | intros E | intros E]); try done; tauto.
Qed.
End Runs.

(** * Metric aggregation: batches from end to end

    [AddBatch] and [AddBatchs] when nothing interleaves: what they count, what is
    delivered later, and the points made of it. *)

Section Seq.
Context `{ArrayEnc} (grow : nat -> nat) (Sum64 : string -> Z) (fmt_rest : any -> bytes).

(** One round of the loop is enough: a bucket of the cache is open. *)
Lemma getAndSetBucket_rel fuel now pw exp token cal c m : crel c m ->
  exists c', getAndSetBucket grow (S fuel) now pw exp token cal c = (Some true, c') /\
    crel c' (spec_add exp token cal m) /\ Expired c' = Expired c.
Proof.
  intros R. cbn [getAndSetBucket]. destruct (get_bucket exp c) as [p c1] eqn:G.
  destruct (get_bucket_rel _ _ _ _ _ R G) as (R1 & B1 & X1 & _).
  destruct (add_at grow pw p token cal c1) as [ok c2] eqn:A.
  destruct (add_at_open _ _ _ _ _ _ _ _ _ _ R1 B1 A) as (-> & R2 & _ & X2 & _).
  exists c2. split_and!; [done|done|congruence].
Qed.

(** The time a calculator is due with tolerance [d]. *)
Definition due_at (d : Z) (cal : Calculator) : Z := int64 (nextWallTime (Base cal) + Z.quot d second).

Definition accept_all (d now : Z) (token : string) (cals : list Calculator) (m : spec) : spec :=
  fold_left (fun m cal => spec_add (due_at d cal) token cal m)
    (List.filter (fun cal => now <? due_at d cal) cals) m.

Lemma add_calcs_rel now pw token cals n e c m : crel c m ->
  exists c', add_calcs grow now pw token cals n e c
    = (Some (n + zlen (List.filter (fun cal => now <? due_at (Expired c) cal) cals),
             e + zlen (List.filter (fun cal => due_at (Expired c) cal <=? now) cals)), c') /\
    crel c' (accept_all (Expired c) now token cals m) /\ Expired c' = Expired c.
Proof.
  revert n e c m. induction cals as [|cal cals IH]; intros n e c m R.
  { exists c. rewrite !Z.add_0_r. done. }
  cbn [add_calcs]. unfold expiry. fold (due_at (Expired c) cal). unfold accept_all. cbn [List.filter].
  rewrite (Z.ltb_antisym (due_at (Expired c) cal) now).
  destruct (due_at (Expired c) cal <=? now) eqn:D; cbn [negb].
  - destruct (IH n (e + 1) c m R) as (c' & -> & R' & X'). exists c'. split; [|done]. do 3 f_equal.
    unfold zlen. cbn [length]. lia.
  - destruct (getAndSetBucket_rel 0 now pw (due_at (Expired c) cal) token cal c m R) as (c1 & -> & R1 & X1).
    destruct (IH (n + 1) e c1 _ R1) as (c' & -> & R' & X'). rewrite X1 in *. exists c'. split; [|done].
    do 3 f_equal. unfold zlen. cbn [length]. lia.
Qed.

(** The calculators of a batch; the store matters for their tags only. *)
Definition batch_calcs (st : Store tag) (b : option AggregationBatch) : list Calculator :=
  fst (newCalculators grow Sum64 fmt_rest b st).

(** C21: [AddBatch] never gets stuck: it accepts exactly the calculators that are not yet
    due, counts them and the others, and what the cache holds is what it held with the
    accepted ones appended. *)
Theorem add_batch_accounts (now : Z) (pw : Win) (token : string) (b : option AggregationBatch) (c : Cache) (m : spec) :
  crel c m ->
  let cals := batch_calcs (tagStore c) b in
  exists n expN c', AddBatch grow Sum64 fmt_rest now pw token b c = (Some (n, expN), c') /\
    n + expN = zlen cals /\ n = zlen (List.filter (fun cal => now <? due_at (Expired c) cal) cals) /\
    crel c' (accept_all (Expired c) now token cals m).
Proof.
  intros R. unfold AddBatch, batch_calcs. destruct (newCalculators grow Sum64 fmt_rest b (tagStore c)) as [cals st].
  cbn [fst]. destruct (add_calcs_rel now pw token cals 0 0 (set_store st c) m) as (c' & E & R' & _).
  { by apply crel_store. }
  cbn [set_store Expired] in *. eexists _, _, c'. split; [exact E|]. split_and!; [|done|done].
  clear. unfold zlen. induction cals as [|cal cals IH]; [done|]. cbn [List.filter].
  rewrite (Z.ltb_antisym (due_at (Expired c) cal) now). destruct (_ <=? now); cbn [negb length]; lia.
Qed.
End Seq.
