(* ===== verification/AggrCalcThms.v ===== *)
(** * Metric aggregation: what the calculators compute

    [agg l] is what a window's calculator holds after the calculators [l] were accepted
    in order.  For each algorithm the theorems relate it to the values given. *)

From S2P Require Import Prelude GoNum GoSlice PointKV PointCheck PointNew PointProto AggrPacket AggrWheel AggrCalc AggrWindow AggrWindowThms.

(** ** The order on floats *)

(** Three numbers that compare lexicographically as the floats do. *)
Definition rank (f : spec_float) : Z * Z * Z :=
  match f with
  | S754_nan => (0, 0, 0)
  | S754_infinity s => (if s then -2 else 2, 0, 0)
  | S754_zero _ => (0, 0, 0)
  | S754_finite s m e => if s then (-1, - e, Z.neg m) else (1, e, Z.pos m)
  end.

Definition lex_lt (a b : Z * Z * Z) : Prop :=
  let '(a1, a2, a3) := a in let '(b1, b2, b3) := b in
  a1 < b1 \/ a1 = b1 /\ (a2 < b2 \/ a2 = b2 /\ a3 < b3).

Lemma SFltb_rank a b : SFltb a b = true <-> isNaN a = false /\ isNaN b = false /\ lex_lt (rank a) (rank b).
Proof.
  unfold SFltb, SFcompare.
  destruct a as [sa|sa| |sa ma ea], b as [sb|sb| |sb mb eb]; cbn; try destruct sa; try destruct sb; cbn;
    try solve [split; [done|intros (? & ? & ?); (done || lia)] | split; [intros _; split_and!; (done || lia)|done]].
  - destruct (Z.compare_spec ea eb); cbn.
    + subst. change (Pos.compare_cont Eq ma mb) with (ma ?= mb)%positive.
      destruct (Pos.compare_spec ma mb) as [->|Hm|Hm]; cbn;
        (split; [try done; intros _; split_and!; (done || lia) | try done; intros (_ & _ & ?); lia]).
    + split; [done|intros (_ & _ & ?); lia].
    + split; [intros _; split_and!; (done || lia)|done].
  - destruct (Z.compare_spec ea eb); cbn.
    + subst. change (Pos.compare_cont Eq ma mb) with (ma ?= mb)%positive.
      destruct (Pos.compare_spec ma mb) as [->|Hm|Hm]; cbn;
        (split; [try done; intros _; split_and!; (done || lia) | try done; intros (_ & _ & ?); lia]).
    + split; [intros _; split_and!; (done || lia)|done].
    + split; [done|intros (_ & _ & ?); lia].
Qed.

Lemma SFltb_trans a b c : SFltb a b = true -> SFltb b c = true -> SFltb a c = true.
Proof.
  rewrite !SFltb_rank. intros (Na & Nb & H1) (_ & Nc & H2). split_and!; [done|done|].
  destruct (rank a) as [[]], (rank b) as [[]], (rank c) as [[]]. cbn in *. lia.
Qed.

(** ** Folds *)

Lemma agg_map {T} (K : T -> Calculator) (add : T -> T -> T) (f : T -> T) c l :
  (forall x y, calc_Add (K x) (K y) = K (add x y)) -> (forall x, strip (K x) = K (f x)) ->
  agg (map K (c :: l)) = Some (K (fold_left add l (f c))).
Proof.
  intros A S. cbn. rewrite S. f_equal. generalize (f c) as x. induction l as [|y l IH]; intros x; [done|].
  cbn. by rewrite A, IH.
Qed.

Lemma fold_counts {T} (add : T -> T -> T) (cnt : T -> Z) l : (forall x y, cnt (add x y) = int64 (cnt x + 1)) ->
  forall c, 0 <= cnt c -> cnt c + zlen l < 2 ^ 63 -> cnt (fold_left add l c) = cnt c + zlen l.
Proof.
  intros A. unfold zlen. induction l as [|y l IH]; intros c H0 Hl; cbn [fold_left length] in *; [lia|].
  assert (cnt (add c y) = cnt c + 1) as E by (rewrite A; apply int64_small; unfold in_int64; lia).
  rewrite IH; lia.
Qed.

(** A fold that keeps the better of two values ends with the best of all. *)
Lemma fold_pick {T V} (P : T -> Prop) (add : T -> T -> T) (v : T -> V) (lt : V -> V -> bool) l :
  (forall a, lt a a = false) -> (forall a b c, lt a b = true -> lt b c = true -> lt a c = true) ->
  (forall x y, P x -> P y -> P (add x y) /\ v (add x y) = if lt (v x) (v y) then v y else v x) ->
  forall c, Forall P (c :: l) ->
  v (fold_left add l c) ∈ map v (c :: l) /\ Forall (fun x => lt (v (fold_left add l c)) (v x) = false) (c :: l) /\
  (v (fold_left add l c) = v c \/ lt (v c) (v (fold_left add l c)) = true).
Proof.
  intros Irr Tr A. induction l as [|y l IH]; intros c F.
  { cbn. split; [by left|]. split; [|by left]. constructor; [apply Irr|constructor]. }
  apply list.Forall_cons in F as [Pc F]. apply list.Forall_cons in F as [Py F].
  destruct (A c y Pc Py) as [Pa Va]. destruct (IH (add c y)) as (Hin & Hall & Up); [by constructor|].
  cbn [fold_left]. set (r := v (fold_left add l (add c y))) in *.
  apply list.Forall_cons in Hall as [Ha Hl]. rewrite Va in *. split_and!.
  - cbn [map] in Hin |- *. rewrite Va in Hin. rewrite !elem_of_cons in *.
    destruct Hin as [E|Hin]; [|by right; right]. destruct (lt (v c) (v y)); [by right; left|by left].
  - constructor; [|constructor; [|done]].
    + destruct (lt (v c) (v y)) eqn:L; [|done]. destruct (lt r (v c)) eqn:R; [|done].
      rewrite (Tr _ _ _ R L) in Ha. done.
    + destruct (lt (v c) (v y)) eqn:L; [done|]. destruct (lt r (v y)) eqn:R; [|done].
      destruct Up as [E|U]; [congruence|]. rewrite (Tr _ _ _ U R) in L. done.
  - destruct (lt (v c) (v y)) eqn:L; [|done]. right. destruct Up as [->|U]; [done|by eapply Tr].
Qed.

Lemma later_pick {T} (add : T -> T -> T) (time : T -> Z) c l :
  (forall x y, time (add x y) = later (time x) (time y)) ->
  time (fold_left add l c) ∈ map time (c :: l) /\ Forall (fun x => time x <= time (fold_left add l c)) (c :: l).
Proof.
  intros A. destruct (fold_pick (fun _ => True) add time Z.ltb l) with (c := c) as (Hin & F & _).
  - intros a. apply Z.ltb_irrefl.
  - intros a b d. rewrite !Z.ltb_lt. lia.
  - intros x y _ _. split; [done|]. apply A.
  - by apply list.Forall_true.
  - split; [done|]. eapply list.Forall_impl; [exact F|]. intros x. cbn. rewrite Z.ltb_ge. lia.
Qed.

(** ** The simple algorithms *)

Definition best {V} (lt : V -> V -> bool) (r : V) (l : list V) : Prop :=
  r ∈ l /\ Forall (fun x => lt r x = false) l.

Lemma SFltb_irrefl a : SFltb a a = false.
Proof.
  destruct (SFltb a a) eqn:E; [|done]. apply SFltb_rank in E as (_ & _ & E).
  destruct (rank a) as [[]]. cbn in E. lia.
Qed.

Lemma best_map {T V} (lt : V -> V -> bool) (v : T -> V) r l :
  r ∈ map v l /\ Forall (fun x => lt r (v x) = false) l -> best lt r (map v l).
Proof. intros [H F]. split; [done|]. by apply list.Forall_fmap. Qed.

Lemma pick_float {T} (lt : spec_float -> spec_float -> bool) (add : T -> T -> T) (v : T -> spec_float) c c0 l :
  (forall a, lt a a = false) -> (forall a b c, lt a b = true -> lt b c = true -> lt a c = true) ->
  (forall x y, v (add x y) = if lt (v x) (v y) then v y else v x) -> v c0 = v c ->
  best lt (v (fold_left add l c0)) (map v (c :: l)).
Proof.
  intros Irr Tr A E. destruct (fold_pick (fun _ => True) add v lt l Irr Tr) with (c := c0) as (Hin & F & _);
    [intros x y _ _; split; [done|apply A] | by apply list.Forall_true |].
  cbn [map]. rewrite <- E. by apply (best_map lt v _ (c0 :: l)).
Qed.

Lemma best_time {T} (add : T -> T -> T) (time : T -> Z) c c0 l :
  (forall x y, time (add x y) = later (time x) (time y)) -> time c0 = time c ->
  best Z.ltb (time (fold_left add l c0)) (map time (c :: l)).
Proof.
  intros A E. destruct (later_pick add time c0 l A) as [Hin F].
  cbn [map]. rewrite <- E. apply (best_map Z.ltb time _ (c0 :: l)). split; [done|].
  eapply list.Forall_impl; [exact F|]. intros x Hx. by apply Z.ltb_ge.
Qed.

Lemma fold_adds {T} (add : T -> T -> T) (v : T -> spec_float) c l :
  (forall x y, v (add x y) = fadd (v x) (v y)) -> v (fold_left add l c) = fold_left fadd (map v l) (v c).
Proof. intros A. revert c. induction l as [|y l IH]; intros c; [done|]. cbn. by rewrite IH, A. Qed.

(** The result of the fold, then its count. *)
Ltac agg_fold lem := eexists; split; [apply lem; done | split_and!].

Ltac agg_count add cnt Hc Hl :=
  rewrite (fold_counts add cnt _ (fun _ _ => eq_refl)) by (cbn; rewrite Hc; unfold zlen in *; cbn [length] in *; lia);
  cbn; rewrite Hc; unfold zlen; cbn [length]; lia.

(** C30: the calculator that has taken in the calculators made of a list of values holds
    their number and latest time and: for [max] and [min], a value of the list that none
    exceeds or falls below, NaN values included; for [sum] and [avg], the sum from left
    to right. *)
Theorem agg_values :
  (forall c l, max_count c = 1 -> zlen (c :: l) < 2 ^ 63 ->
     exists r, agg (map CMax (c :: l)) = Some (CMax r) /\ max_count r = zlen (c :: l) /\
       best SFltb (max_max r) (map max_max (c :: l)) /\ best Z.ltb (max_maxTime r) (map max_maxTime (c :: l))) /\
  (forall c l, min_count c = 1 -> zlen (c :: l) < 2 ^ 63 ->
     exists r, agg (map CMin (c :: l)) = Some (CMin r) /\ min_count r = zlen (c :: l) /\
       best (fun a b => SFltb b a) (min_min r) (map min_min (c :: l)) /\
       best Z.ltb (min_maxTime r) (map min_maxTime (c :: l))) /\
  (forall c l, sum_count c = 1 -> zlen (c :: l) < 2 ^ 63 ->
     exists r, agg (map CSum (c :: l)) = Some (CSum r) /\ sum_count r = zlen (c :: l) /\
       sum_delta r = fold_left fadd (map sum_delta l) (sum_delta c) /\
       best Z.ltb (sum_maxTime r) (map sum_maxTime (c :: l))) /\
  (forall c l, avg_count c = 1 -> zlen (c :: l) < 2 ^ 63 ->
     exists r, agg (map CAvg (c :: l)) = Some (CAvg r) /\ avg_count r = zlen (c :: l) /\
       avg_delta r = fold_left fadd (map avg_delta l) (avg_delta c) /\
       best Z.ltb (avg_maxTime r) (map avg_maxTime (c :: l))) /\
  (forall c l, cnt_count c = 1 -> zlen (c :: l) < 2 ^ 63 ->
     exists r, agg (map CCount (c :: l)) = Some (CCount r) /\ cnt_count r = zlen (c :: l) /\
       best Z.ltb (cnt_maxTime r) (map cnt_maxTime (c :: l))).
Proof.
  split_and!; intros c l Hc Hl.
  - agg_fold (agg_map CMax max_Add (fun x => mkMax (set_aggrTags None (max_base x)) (max_maxTime x) (max_count x) (max_max x))).
    + agg_count max_Add max_count Hc Hl.
    + apply (pick_float SFltb max_Add max_max); [apply SFltb_irrefl | apply SFltb_trans | done | done].
    + by apply (best_time max_Add max_maxTime).
  - agg_fold (agg_map CMin min_Add (fun x => mkMin (set_aggrTags None (min_base x)) (min_maxTime x) (min_count x) (min_min x))).
    + agg_count min_Add min_count Hc Hl.
    + apply (pick_float (fun a b => SFltb b a) min_Add min_min);
        [apply SFltb_irrefl | intros a b d ? ?; by apply (SFltb_trans d b a) | done | done].
    + by apply (best_time min_Add min_maxTime).
  - agg_fold (agg_map CSum sum_Add (fun x => mkSum (set_aggrTags None (sum_base x)) (sum_delta x) (sum_maxTime x) (sum_count x))).
    + agg_count sum_Add sum_count Hc Hl.
    + by rewrite (fold_adds sum_Add sum_delta).
    + by apply (best_time sum_Add sum_maxTime).
  - agg_fold (agg_map CAvg avg_Add (fun x => mkAvg (set_aggrTags None (avg_base x)) (avg_delta x) (avg_maxTime x) (avg_count x))).
    + agg_count avg_Add avg_count Hc Hl.
    + by rewrite (fold_adds avg_Add avg_delta).
    + by apply (best_time avg_Add avg_maxTime).
  - agg_fold (agg_map CCount count_Add (fun x => mkCount (set_aggrTags None (cnt_base x)) (cnt_maxTime x) (cnt_count x))).
    + agg_count count_Add cnt_count Hc Hl.
    + by apply (best_time count_Add cnt_maxTime).
Qed.

Lemma count_step c1 n : 0 <= c1 -> c1 + n < 2 ^ 63 -> 0 <= n -> int64 (c1 + n) = c1 + n.
Proof. intros. apply int64_small. unfold in_int64. lia. Qed.

Definition last_value (x : algoCountLast) : spec_float * Z := (lst_last x, lastTime x).

Definition first_value (x : algoCountFirst) : spec_float * Z := (fst_first x, firstTime x).

(** [last] holds a value of the latest time; [first], when no time is the epoch itself,
    a value of the earliest. *)
Theorem agg_first_last :
  (forall c l, lst_count c = 1 -> zlen (c :: l) < 2 ^ 63 ->
     exists r, agg (map CLast (c :: l)) = Some (CLast r) /\ lst_count r = zlen (c :: l) /\
       best (fun a b => snd a <? snd b) (last_value r) (map last_value (c :: l))) /\
  (forall c l, fst_count c = 1 -> zlen (c :: l) < 2 ^ 63 -> Forall (fun x => firstTime x <> 0) (c :: l) ->
     exists r, agg (map CFirst (c :: l)) = Some (CFirst r) /\ fst_count r = zlen (c :: l) /\
       best (fun a b => snd b <? snd a) (first_value r) (map first_value (c :: l))).
Proof.
  split.
  - intros c l Hc Hl.
    agg_fold (agg_map CLast last_Add (fun x => mkLast (set_aggrTags None (lst_base x)) (lst_last x) (lastTime x) (lst_count x))).
    + rewrite (fold_counts last_Add lst_count);
        [cbn; rewrite Hc; unfold zlen; cbn [length]; lia | |cbn; lia | cbn; rewrite Hc; unfold zlen in *; cbn [length] in *; lia].
      intros x y. unfold last_Add. by destruct (_ <? _).
    + set (c0 := mkLast _ _ _ _). change (map last_value (c :: l)) with (map last_value (c0 :: l)). apply best_map.
      destruct (fold_pick (fun _ => True) last_Add last_value (fun a b => snd a <? snd b) l) with (c := c0)
        as (Hin & F & _); [intros a; apply Z.ltb_irrefl | | | by apply list.Forall_true | done].
      * intros a b d. rewrite !Z.ltb_lt. lia.
      * intros x y _ _. split; [done|]. unfold last_Add, last_value. cbn [snd]. by destruct (_ <? _).
  - intros c l Hc Hl Nz.
    agg_fold (agg_map CFirst first_Add (fun x => mkFirst (set_aggrTags None (fst_base x)) (fst_first x) (firstTime x) (fst_count x))).
    + rewrite (fold_counts first_Add fst_count);
        [cbn; rewrite Hc; unfold zlen; cbn [length]; lia | |cbn; lia | cbn; rewrite Hc; unfold zlen in *; cbn [length] in *; lia].
      intros x y. unfold first_Add. by destruct (_ || _).
    + set (c0 := mkFirst _ _ _ _). change (map first_value (c :: l)) with (map first_value (c0 :: l)). apply best_map.
      destruct (fold_pick (fun x => firstTime x <> 0) first_Add first_value (fun a b => snd b <? snd a) l) with (c := c0)
        as (Hin & F & _); [intros a; apply Z.ltb_irrefl | | | | done].
      * intros a b d. rewrite !Z.ltb_lt. lia.
      * intros x y Hx Hy. unfold first_Add, first_value. cbn [snd].
        rewrite (proj2 (Z.eqb_neq _ _) Hx). cbn [orb]. by destruct (_ <? _).
      * apply list.Forall_cons in Nz as [N0 Nz]. by constructor.
Qed.

(** ** Distinct values *)

Definition bit (w : list Z) (j : Z) : bool := Z.testbit (nth (Z.to_nat (j / 64)) w 0) (j mod 64).

(** The calculator stands for the set [X] of hashes. *)
Definition drep (c : algoCountDistinct) (X : gset Z) : Prop :=
  match sketch c with
  | None => distinctValues c = X /\ Z.of_nat (size X) <= countDistinctExactLimit
  | Some w =>
      distinctValues c = ∅ /\ countDistinctExactLimit < Z.of_nat (size X) /\ length w = 4096%nat /\
      forall j, 0 <= j < countDistinctSketchBits ->
        bit w j = true <-> exists h, h ∈ X /\ h mod countDistinctSketchBits = j
  end.

Lemma length_addSketch h w : length (addSketchHash h w) = length w.
Proof. apply length_insert. Qed.

Lemma bit_addSketch h w j : length w = 4096%nat -> 0 <= j < countDistinctSketchBits ->
  bit (addSketchHash h w) j = bit w j || (h mod countDistinctSketchBits =? j).
Proof.
  intros Hw Hj. unfold bit, addSketchHash. set (idx := h mod countDistinctSketchBits).
  assert (0 <= idx < countDistinctSketchBits) as Hi by (apply Z.mod_pos_bound; done).
  unfold countDistinctSketchBits in Hi, Hj.
  assert (0 <= idx / 64 < 4096 /\ 0 <= j / 64 < 4096) as [Di Dj] by (split; split;
    (apply Z.div_pos || apply Z.div_lt_upper_bound); lia).
  rewrite !nth_lookup. destruct (decide (j / 64 = idx / 64)) as [E|N].
  - rewrite E. rewrite list_lookup_insert_eq by lia. cbn [from_option id]. rewrite Z.lor_spec.
    rewrite Z.shiftl_1_l, Z.pow2_bits_eqb by (apply Z.mod_pos_bound; lia). f_equal.
    pose proof (Z.div_mod idx 64). pose proof (Z.div_mod j 64).
    destruct (Z.eqb_spec (idx mod 64) (j mod 64)), (Z.eqb_spec idx j); (done || lia).
  - rewrite list_lookup_insert_ne by lia.
    destruct (Z.eqb_spec idx j); [congruence|]. by rewrite orb_false_r.
Qed.

Lemma sketch_fold l w : length w = 4096%nat ->
  let w' := fold_left (fun w h => addSketchHash h w) l w in
  length w' = 4096%nat /\ forall j, 0 <= j < countDistinctSketchBits ->
    bit w' j = true <-> bit w j = true \/ exists h, h ∈ l /\ h mod countDistinctSketchBits = j.
Proof.
  revert w. induction l as [|h l IH]; intros w Hw; cbn [fold_left].
  { split; [done|]. intros j _. split; [by left|]. intros [?|(h & Hh & _)]; [done|by apply elem_of_nil in Hh]. }
  destruct (IH (addSketchHash h w)) as [L K]; [by rewrite length_addSketch|]. split; [done|].
  intros j Hj. rewrite K, bit_addSketch, orb_true_iff, Z.eqb_eq by done. split.
  - intros [[?|?]|(g & Hg & ?)]; [by left | right; exists h; split; [by left|done] | right; exists g; split; [by right|done]].
  - intros [?|(g & Hg & ?)]; [by left; left|]. apply elem_of_cons in Hg as [->|Hg]; [by left; right|right; eauto].
Qed.

Lemma bit_zero j : 0 <= j < countDistinctSketchBits -> bit (replicate 4096 0) j = false.
Proof.
  intros Hj. unfold bit. rewrite nth_lookup. destruct (replicate 4096 0 !! _) as [x|] eqn:E.
  - apply lookup_replicate in E as [-> _]. apply Z.bits_0.
  - apply Z.bits_0.
Qed.

(** Once there is a sketch: the bits of [X] and one more hash. *)
Lemma add_to_sketch_rep h c X w : sketch c = Some w -> distinctValues c = ∅ -> length w = 4096%nat ->
  countDistinctExactLimit < Z.of_nat (size ({[h]} ∪ X)) ->
  (forall j, 0 <= j < countDistinctSketchBits ->
     bit w j = true <-> exists h, h ∈ X /\ h mod countDistinctSketchBits = j) ->
  drep (add_to_sketch h c) ({[h]} ∪ X).
Proof.
  intros E D L S K. unfold drep, add_to_sketch. rewrite E. cbn. split_and!; [done|done|by rewrite length_addSketch|].
  intros j Hj. rewrite bit_addSketch, orb_true_iff, Z.eqb_eq, K by done. split.
  - intros [(g & Hg & ?)|?]; [exists g|exists h]; set_solver.
  - intros (g & Hg & ?). apply elem_of_union in Hg as [->%elem_of_singleton|Hg]; [by right|left; eauto].
Qed.

Lemma ensureSketch_bits c X : drep c X -> exists w, sketch (ensureSketch c) = Some w /\
  distinctValues (ensureSketch c) = ∅ /\ length w = 4096%nat /\
  forall j, 0 <= j < countDistinctSketchBits ->
    bit w j = true <-> exists h, h ∈ X /\ h mod countDistinctSketchBits = j.
Proof.
  unfold drep, ensureSketch. destruct (sketch c) as [w|] eqn:E.
  { intros (D & _ & L & K). exists w. by rewrite E. }
  intros [<- _]. cbn. destruct (sketch_fold (elements (distinctValues c)) (replicate 4096 0)) as [L K];
    [apply length_replicate|].
  eexists. split_and!; [done|done|exact L|]. intros j Hj. rewrite K by done. rewrite bit_zero by done. split.
  - intros [?|(h & Hh & ?)]; [done|]. exists h. by rewrite <- elem_of_elements.
  - intros (h & Hh & ?). right. exists h. by rewrite elem_of_elements.
Qed.

Lemma addHash_rep h c X : drep c X -> drep (addHash h c) ({[h]} ∪ X).
Proof.
  intros R. unfold addHash. pose proof R as R0. unfold drep in R. destruct (sketch c) as [w|] eqn:E.
  - destruct R as (D & S & L & K). apply (add_to_sketch_rep h c X w); try done.
    pose proof (subseteq_size X ({[h]} ∪ X)) as Hs. assert (X ⊆ {[h]} ∪ X) as Hx by set_solver. apply Hs in Hx. lia.
  - destruct R as [D S]. destruct (bool_decide _ || _) eqn:B.
    + unfold drep. cbn. rewrite D. split; [done|]. apply orb_true_iff in B as [B|B].
      * apply bool_decide_eq_true in B. rewrite D in B. replace ({[h]} ∪ X) with X by set_solver. done.
      * apply Z.ltb_lt in B. rewrite D in B. destruct (decide (h ∈ X)) as [Hin|Hn].
        { replace ({[h]} ∪ X) with X by set_solver. lia. }
        rewrite size_union, size_singleton by set_solver. lia.
    + apply orb_false_iff in B as [B1 B2]. apply bool_decide_eq_false in B1. apply Z.ltb_ge in B2. rewrite D in *.
      destruct (ensureSketch_bits c X R0) as (w & Ew & Dw & Lw & Kw).
      apply (add_to_sketch_rep h _ X w); try done. rewrite size_union, size_singleton by set_solver. lia.
Qed.

Lemma addHashes_rep l c X : drep c X -> drep (fold_left (fun c h => addHash h c) l c) (list_to_set l ∪ X).
Proof.
  revert c X. induction l as [|h l IH]; intros c X R; cbn [fold_left list_to_set].
  { by rewrite (left_id_L ∅ (∪)). }
  replace ({[h]} ∪ list_to_set l ∪ X) with (list_to_set l ∪ ({[h]} ∪ X)) by (clear; set_solver).
  by apply IH, addHash_rep.
Qed.

Lemma or_words_bit a b j : length a = 4096%nat -> length b = 4096%nat -> 0 <= j < countDistinctSketchBits ->
  bit (or_words a b) j = bit a j || bit b j.
Proof.
  intros La Lb Hj. unfold bit, or_words. rewrite !nth_lookup, lookup_zip_with.
  assert (Z.to_nat (j / 64) < 4096)%nat as Hi.
  { unfold countDistinctSketchBits in Hj. assert (j / 64 < 4096) by (apply Z.div_lt_upper_bound; lia).
    assert (0 <= j / 64) by (apply Z.div_pos; lia). lia. }
  destruct (lookup_lt_is_Some_2 a (Z.to_nat (j / 64))) as [x ->]; [lia|].
  destruct (lookup_lt_is_Some_2 b (Z.to_nat (j / 64))) as [y ->]; [lia|]. cbn. apply Z.lor_spec.
Qed.

(** Only the values of the calculator matter. *)
Lemma drep_time c X t mb : drep c X -> drep (mkDistinct mb t (distinctValues c) (sketch c)) X.
Proof. done. Qed.

(** C31: a calculator of distinct values stands for a set of hashes, exactly up to 4096
    of them and by the bits they hash to above; a new one stands for its value, and
    combining two gives the union, on whichever side of the limit each of them is: the
    estimate does not depend on how the values were spread. *)
Theorem distinct_union :
  (forall fmt_rest mb t v, drep (newAlgoCountDistinct fmt_rest mb t v) {[hashDistinctValue fmt_rest v]}) /\
  (forall c i X Y, drep c X -> drep i Y -> drep (distinct_Add c i) (X ∪ Y)).
Proof.
  split.
  - intros f mb t v. unfold newAlgoCountDistinct.
    replace ({[hashDistinctValue f v]} : gset Z) with ({[hashDistinctValue f v]} ∪ (∅ : gset Z)) by apply (right_id_L ∅ (∪)).
    by apply addHash_rep.
  - intros c i X Y Rc Ri. unfold distinct_Add. apply drep_time. destruct (sketch i) as [wi|] eqn:Ei.
    + unfold drep in Ri. rewrite Ei in Ri. destruct Ri as (Di & Si & Li & Ki).
      destruct (ensureSketch_bits c X Rc) as (w & Ew & Dw & Lw & Kw). rewrite Ew.
      unfold drep. cbn. split_and!; [done| | |].
      * assert (Y ⊆ X ∪ Y) as Hs%subseteq_size by (clear; set_solver). lia.
      * unfold or_words. rewrite length_zip_with. lia.
      * intros j Hj. rewrite or_words_bit, orb_true_iff, Kw, Ki by done. split.
        { intros [(h & Hh & ?)|(h & Hh & ?)]; exists h; (split; [|done]); apply elem_of_union; auto. }
        intros (h & Hh & ?). apply elem_of_union in Hh as [?|?]; [left|right]; eauto.
    + unfold drep in Ri. rewrite Ei in Ri. destruct Ri as [<- _].
      replace (X ∪ distinctValues i) with (list_to_set (elements (distinctValues i)) ∪ X).
      * by apply addHashes_rep.
      * rewrite list_to_set_elements_L. apply (comm_L (∪)).
Qed.

(** ** Quantiles *)

(** The calculator has seen [vs]. *)
Record qrep (a : algoQuantiles) (vs : list spec_float) : Prop := {
  qr_count : qnt_count a = zlen vs;
  qr_length : zlen (qnt_all a) = Z.min (zlen vs) quantileSampleLimit;
  qr_exact : zlen vs <= quantileSampleLimit -> qnt_all a = vs;
  qr_sample : forall v, v ∈ qnt_all a -> v ∈ vs;
}.

Lemma quant_addValue_rep v a vs : qrep a vs -> zlen vs + 1 < 2 ^ 63 -> qrep (quant_addValue v a) (vs ++ [v]).
Proof.
  intros [Cn Ln Ex Sm] Hb. assert (zlen (vs ++ [v]) = zlen vs + 1) as E.
  { unfold zlen. rewrite length_app. cbn. lia. }
  assert (int64 (qnt_count a + 1) = zlen vs + 1) as En.
  { rewrite Cn. apply count_step; unfold zlen in *; lia. }
  unfold quant_addValue. rewrite En. unfold quantileSampleLimit in *. constructor; unfold quantileSampleLimit; cbn [qnt_count qnt_all]; rewrite ?E.
  - done.
  - destruct (Z.ltb_spec (zlen (qnt_all a)) 8192).
    + unfold zlen in *. rewrite length_app. cbn [length]. lia.
    + destruct (_ <? 8192); unfold zlen in *; rewrite ?length_insert; lia.
  - intros Hl. destruct (Z.ltb_spec (zlen (qnt_all a)) 8192); [by rewrite Ex by lia|lia].
  - intros x. destruct (Z.ltb_spec (zlen (qnt_all a)) 8192); [|destruct (_ <? 8192)]; intros Hx.
    + apply elem_of_app in Hx as [Hx|Hx]; apply elem_of_app; auto.
    + apply elem_of_app. apply list_elem_of_lookup in Hx as [k Hk].
      apply list_lookup_insert_Some in Hk as [(_ & <- & _)|(_ & Hk)]; [right; by left|].
      left. apply Sm. by eapply list_elem_of_lookup_2.
    + apply elem_of_app. auto.
Qed.

Lemma quant_addValues_rep ws a vs : qrep a vs -> zlen vs + zlen ws < 2 ^ 63 ->
  qrep (fold_left (fun a v => quant_addValue v a) ws a) (vs ++ ws).
Proof.
  revert a vs. induction ws as [|w ws IH]; intros a vs R Hb; [by rewrite app_nil_r|]. cbn [fold_left].
  replace (vs ++ w :: ws) with ((vs ++ [w]) ++ ws) by (by rewrite <- app_assoc).
  apply IH; [apply quant_addValue_rep; [done|]|]; unfold zlen in *; rewrite ?length_app in *; cbn [length] in *; lia.
Qed.

(** A quantile calculator counts every value it has seen, of its own and of those
    combined into it; it keeps all values, in order, up to 8192 of them, and 8192 of the
    values seen above. *)
Theorem quantiles_reservoir :
  (forall mb t v, qrep (newAlgoQuantiles mb t v) [v]) /\
  (forall a i vs ws, qrep a vs -> qrep i ws -> zlen (vs ++ ws) < 2 ^ 63 -> qrep (quantiles_Add a i) (vs ++ ws)).
Proof.
  split.
  - intros mb t v. apply (quant_addValue_rep v _ []); [|done]. constructor; done.
  - intros a i vs ws Ra [Ci Li Xi Si] Hb.
    assert (zlen (vs ++ ws) = zlen vs + zlen ws) as E by (unfold zlen; rewrite length_app; lia).
    assert (zlen (qnt_all i) <= zlen ws) as Hi by lia.
    unfold quantiles_Add. set (b := fold_left _ _ _).
    assert (qrep b (vs ++ qnt_all i)) as [Cb Lb Xb Sb] by (apply quant_addValues_rep; [done|lia]).
    assert (zlen (vs ++ qnt_all i) = zlen vs + zlen (qnt_all i)) as Eb by (unfold zlen; rewrite length_app; lia).
    pose proof (qr_count _ _ Ra) as Ca.
    assert (0 <= zlen vs /\ 0 <= zlen ws /\ 0 <= zlen (qnt_all i)) as (? & ? & ?) by (unfold zlen; lia).
    assert (int64 (qnt_count b - qnt_count a) = zlen (qnt_all i)) as ->.
    { rewrite Cb, Ca, Eb. rewrite int64_small by (unfold in_int64; lia). lia. }
    rewrite (int64_small (qnt_count i - zlen (qnt_all i))) by (unfold in_int64; lia).
    assert ((if 0 <? qnt_count i - zlen (qnt_all i) then int64 (qnt_count b + (qnt_count i - zlen (qnt_all i)))
             else qnt_count b) = zlen vs + zlen ws) as ->.
    { rewrite Ci, Cb, Eb. destruct (Z.ltb_spec 0 (zlen ws - zlen (qnt_all i))); [|lia].
      rewrite int64_small by (unfold in_int64; lia). lia. }
    unfold quantileSampleLimit in *. constructor; unfold quantileSampleLimit; cbn [qnt_count qnt_all]; rewrite ?E.
    + done.
    + rewrite Lb, Eb. lia.
    + intros Hl. rewrite Xb by lia. by rewrite Xi by lia.
    + intros v Hv. apply Sb in Hv. rewrite elem_of_app in *. destruct Hv; auto.
Qed.

(** ** The end of a window *)

(** With a window of whole seconds, the end that a point is assigned to is the first
    multiple of the window, counted from the year 1, that is not before the point: a
    point on a boundary belongs to the window that ends there. *)
Theorem align_next_boundary (t d : Z) : 0 < d -> d mod second = 0 ->
  let w := AlignNextWallTime t d * second in
  t <= w < t + d /\ (w + unixToInternal * second) mod d = 0.
Proof.
  intros Hd Hs. cbn zeta. set (o := unixToInternal * second).
  assert (forall x, (x + o) mod d = 0 -> Unix x * second = x) as U.
  { intros x Hx. unfold Unix. apply Z.div_exact in Hs; [|done]. apply Z.div_exact in Hx; [|lia].
    assert (exists k, x = k * second) as [k ->].
    { exists (d / second * ((x + o) / d) - unixToInternal). unfold o in *. nia. }
    by rewrite Z.div_mul. }
  unfold AlignNextWallTime, Truncate. fold o. destruct (Z.leb_spec d 0); [lia|].
  pose proof (Z.mod_pos_bound (t + o) d Hd) as Hm. destruct (Z.eqb_spec (t - (t + o) mod d) t) as [E|N].
  - assert ((t + o) mod d = 0) as E0 by lia. rewrite (U t E0). split; [lia|done].
  - assert ((t - (t + o) mod d + d + o) mod d = 0) as E0.
    { replace (t - (t + o) mod d + d + o) with (((t + o) / d + 1) * d) by (pose proof (Z.div_mod (t + o) d); nia).
      apply Z.mod_mul. lia. }
    rewrite (U _ E0). split; [lia|done].
Qed.

Lemma align_next_boundary_witness :
  let w := AlignNextWallTime 1700000003500000000 (10 * second) * second in
  1700000003500000000 <= w < 1700000003500000000 + 10 * second /\ (w + unixToInternal * second) mod (10 * second) = 0.
Proof. apply align_next_boundary; reflexivity. Defined.
