(* ===== verification/AggrWindowEx.v ===== *)
(** * Metric aggregation: a concrete cache, and behaviours at the edges

    A batch of two points, the run in which it is added and delivered, and what batches
    with several points can do to tags. *)

From S2P Require Import Prelude GoNum GoSlice PointKV PointCheck PointNew PointProto PointFindings AggrCalc AggrWindow AggrWindowThms.

(** A stand-in for the hash of strings. *)
Definition toy_sum (s : string) : Z := fnv64a (to_bytes s).

Definition no_fmt (v : any) : bytes := [].

Definition no_log (f : spec_float) : spec_float := fzero.

(** Slices double. *)
Definition doubling (n : nat) : nat := match n with O => 1 | _ => 2 * n end.

Definition sec (n : Z) : Z := n * second.

Definition metric (name : string) (t v : Z) (tags : list Field) : PBPoint :=
  mkPB (to_bytes name) (int_field "v" v :: tags) (sec t) [] [].

Definition algo (method : string) (tags : list (string * string)) : AggregationAlgo :=
  mkAlgo method [] (sec 10) (map (fun '(k, v) => (to_bytes k, to_bytes v)) tags) None.

Definition batch (method : string) (tags : list (string * string)) (pts : list PBPoint) : AggregationBatch :=
  mkBatch 7 0 [(to_bytes "v", Some (algo method tags))] (Some pts) 0.

Definition spare : Win := mkWin ∅ "used".

(** ** Witnesses *)

Definition sums : AggregationBatch := batch "SUM" [] [metric "cpu" 3 40 []; metric "cpu" 4 2 []].

Lemma add_batch_accounts_witness :
  exists n expN c', AddBatch doubling toy_sum no_fmt 5 spare "tkn" (Some sums) (NewCache (sec 2)) = (Some (n, expN), c') /\
    n + expN = zlen (batch_calcs doubling toy_sum no_fmt [] (Some sums)) /\
    n = zlen (List.filter (fun cal => 5 <? due_at (sec 2) cal) (batch_calcs doubling toy_sum no_fmt [] (Some sums))) /\
    crel c' (accept_all (sec 2) 5 "tkn" (batch_calcs doubling toy_sum no_fmt [] (Some sums)) ∅).
Proof. exact (add_batch_accounts doubling toy_sum no_fmt 5 spare "tkn" (Some sums) (NewCache (sec 2)) ∅ (crel_new (sec 2))). Defined.

(** Both values end in one window of one sum. *)
Example sums_delivered :
  let '(r, c) := AddBatch doubling toy_sum no_fmt 5 spare "tkn" (Some sums) (NewCache (sec 2)) in
  r = Some (2, 0) /\
  match GetExpWidows id 12 c with
  | ([w], _) => exists x, map snd (map_to_list (w_cache w)) = [CSum x] /\ sum_delta x = float_of_int 42 /\ sum_count x = 2
  | _ => False
  end.
Proof. vm_compute. split; [done|]. eexists. split; [reflexivity|]. split; reflexivity. Qed.

(** A run of three goroutines: one adds before the window is closed, one finds it closed,
    and the window is delivered in between. *)
Definition ev_cal : Calculator :=
  hd (CCount (mkCount (mkBase (metric "" 0 0 []) None [] [] 0 0 0) 0 0)) (batch_calcs doubling toy_sum no_fmt [] (Some sums)).

Definition sys0 : Sys := mkSys (NewCache (sec 2)) 5 [].

(** The states of the run, computed. *)
Definition nxt_batch (s : Sys) : Sys :=
  let '(cals, st) := newCalculators doubling toy_sum no_fmt (Some sums) (tagStore (s_cache s)) in
  mkSys (set_store st (s_cache s)) (s_clock s) (s_adders s ++ new_adders "tkn" cals s).

Definition nxt_lookup (i : nat) (s : Sys) : Sys :=
  match s_adders s !! i with
  | Some a => let '(p, c) := get_bucket (ad_exp a) (s_cache s) in
              mkSys c (s_clock s) (<[i := set_pc (AAdd p) a]> (s_adders s))
  | None => s
  end.

Definition nxt_add (i : nat) (s : Sys) : Sys :=
  match s_adders s !! i with
  | Some a =>
      match ad_pc a with
      | AAdd p => let '(ok, c) := add_at doubling spare p (ad_token a) (ad_cal a) (s_cache s) in
                  mkSys c (s_clock s) (<[i := set_pc (if ok then ADone true else ACheck) a]> (s_adders s))
      | _ => s
      end
  | None => s
  end.

Definition nxt_flush (s : Sys) : list Win * Sys :=
  let '(wss, c) := GetExpWidows id (s_clock s) (s_cache s) in (wss, mkSys c (s_clock s) (s_adders s)).

Lemma nxt_batch_step s : step doubling toy_sum no_fmt s None (nxt_batch s).
Proof. unfold nxt_batch. destruct (newCalculators _ _ _ _ _) as [cals st] eqn:E. by econstructor. Qed.

Lemma nxt_lookup_step i s a : s_adders s !! i = Some a -> ad_pc a = ALookup ->
  step doubling toy_sum no_fmt s None (nxt_lookup i s).
Proof. intros L P. unfold nxt_lookup. rewrite L. destruct (get_bucket _ _) as [p c] eqn:E. by eapply step_lookup. Qed.

Lemma nxt_add_step i s a p ok : s_adders s !! i = Some a -> ad_pc a = AAdd p ->
  fst (add_at doubling spare p (ad_token a) (ad_cal a) (s_cache s)) = ok ->
  step doubling toy_sum no_fmt s (if ok then Some (EAccept i (ad_exp a) (ad_token a) (ad_cal a)) else None) (nxt_add i s).
Proof.
  intros L P E. unfold nxt_add. rewrite L, P. destruct (add_at _ _ _ _ _ _) as [ok' c] eqn:A. cbn in E. subst ok'.
  destruct ok; [by eapply step_add | by eapply step_closed].
Qed.

Lemma nxt_flush_step s :
  step doubling toy_sum no_fmt s (Some (EFlush (s_clock s) (fst (nxt_flush s)))) (snd (nxt_flush s)).
Proof.
  unfold nxt_flush. destruct (GetExpWidows id _ _) as [wss c] eqn:E. by apply (step_flush _ _ _ s id).
Qed.

Definition adder_at (i : nat) (s : Sys) : adder := nth i (s_adders s) (mkAdder 0 "" ev_cal ALookup).

Definition sys1 : Sys := nxt_lookup 1 (nxt_lookup 0 (nxt_batch sys0)).
Definition sys2 : Sys := nxt_add 0 sys1.
Definition sys3 : Sys := mkSys (s_cache sys2) 12 (s_adders sys2).
Definition sys4 : Sys := nxt_add 1 (snd (nxt_flush sys3)).

Definition ex_accept : event :=
  EAccept 0 (ad_exp (adder_at 0 sys1)) (ad_token (adder_at 0 sys1)) (ad_cal (adder_at 0 sys1)).

Definition ex_trace : list event := [ex_accept; EFlush 12 (fst (nxt_flush sys3))].

Lemma adder_lookup i s : (i <? length (s_adders s))%nat = true -> s_adders s !! i = Some (adder_at i s).
Proof.
  intros L%Nat.ltb_lt. unfold adder_at. destruct (lookup_lt_is_Some_2 _ _ L) as [a La].
  rewrite nth_lookup, La. done.
Qed.

Lemma ex_run : run doubling toy_sum no_fmt sys0 ex_trace sys4.
Proof.
  apply (run_snoc doubling toy_sum no_fmt sys0 ex_trace (snd (nxt_flush sys3)) None sys4).
  2: { apply (nxt_add_step 1 _ (adder_at 1 (snd (nxt_flush sys3))) 0 false);
         [apply adder_lookup | |]; vm_compute; reflexivity. }
  apply (run_snoc doubling toy_sum no_fmt sys0 [ex_accept] sys3 (Some (EFlush 12 _))).
  2: { apply (nxt_flush_step sys3). }
  apply (run_snoc doubling toy_sum no_fmt sys0 [ex_accept] sys2 None sys3).
  2: { apply step_tick. vm_compute. done. }
  apply (run_snoc doubling toy_sum no_fmt sys0 [] sys1 (Some ex_accept) sys2).
  2: { apply (nxt_add_step 0 sys1 (adder_at 0 sys1) 0 true); [apply adder_lookup | |]; vm_compute; reflexivity. }
  apply (run_snoc doubling toy_sum no_fmt sys0 [] (nxt_lookup 0 (nxt_batch sys0)) None sys1).
  2: { apply (nxt_lookup_step 1 _ (adder_at 1 (nxt_lookup 0 (nxt_batch sys0)))); [apply adder_lookup|]; vm_compute; reflexivity. }
  apply (run_snoc doubling toy_sum no_fmt sys0 [] (nxt_batch sys0) None).
  2: { apply (nxt_lookup_step 0 _ (adder_at 0 (nxt_batch sys0))); [apply adder_lookup|]; vm_compute; reflexivity. }
  apply (run_snoc doubling toy_sum no_fmt sys0 [] sys0 None); [constructor | apply nxt_batch_step].
Qed.

Lemma windows_linearizable_witness :
  run doubling toy_sum no_fmt sys0 ex_trace sys4 /\
  (exists m, spec_run ex_trace m /\ crel (s_cache sys4) m) /\
  (forall i a, s_adders sys4 !! i = Some a ->
     (ad_pc a = ADone true -> accepts i ex_trace = [EAccept i (ad_exp a) (ad_token a) (ad_cal a)]) /\
     (ad_pc a <> ADone true -> accepts i ex_trace = []) /\
     (ad_pc a = ACheck -> ad_exp a <= s_clock sys4)).
Proof. split; [exact ex_run|]. exact (windows_linearizable doubling toy_sum no_fmt (sec 2) 5 ex_trace sys4 ex_run). Defined.

(** ** Edges *)

Definition run_batch (b : AggregationBatch) : Res panic (list PointsData) :=
  let '(_, c) := AddBatch doubling toy_sum no_fmt 5 spare "tkn" (Some b) (NewCache 0) in
  let '(wss, c) := GetExpWidows id 100 c in
  match WindowsToData id 0 None no_log id id (tagStore c) wss with
  | Ok (pds, _) => Ok pds
  | Err e => Err e
  end.

Definition tags_of (p : Point) : list (string * string) :=
  map (fun '(k, v) => (of_bytes k, of_bytes v)) (point_tags (PFields p)).

(** The tags of the points of each window. *)
Definition out_tags (r : Res panic (list PointsData)) : list (list (list (string * string))) :=
  match r with Ok pds => map (fun d => map tags_of (PTS d)) pds | Err _ => [] end.

(** Every bucket of a histogram is reported with the label of the point that came
    first: [build] puts its [le] among the tags, which override the label of the
    bucket. *)
Theorem histogram_labels_lost :
  out_tags (run_batch (batch "histogram" [] [metric "h" 3 1 [str_tag "le" "10"]; metric "h" 4 5 [str_tag "le" "20"]]))
  = [[[("le", "10")]; [("le", "10")]; [("le", "10")]]].
Proof. vm_compute. reflexivity. Qed.

(** With three configured tags the slices of two calculators share the fourth place of
    one array: the tag of the first point is replaced by that of the second.  With two,
    each gets an array of its own. *)
Theorem shared_tags_overwritten :
  let pts := [metric "cpu" 3 1 [str_tag "host" "a"]; metric "mem" 3 2 [str_tag "host" "b"]] in
  let extra := [("e1", "x"); ("e2", "y")] in
  out_tags (run_batch (batch "sum" extra pts))
  = [[[("e1", "x"); ("e2", "y"); ("host", "b")]; [("e1", "x"); ("e2", "y"); ("host", "a")]]] /\
  out_tags (run_batch (batch "sum" (extra ++ [("e3", "z")]) pts))
  = [[[("e1", "x"); ("e2", "y"); ("e3", "z"); ("host", "b")]; [("e1", "x"); ("e2", "y"); ("e3", "z"); ("host", "b")]]].
Proof. vm_compute. done. Qed.
