(* ===== verification/AggrRules.v ===== *)
(** * Metric aggregation: rules ([src/aggregate/aggr.go], [aggr_selector.go],
    [aggr_config.go], the hashes of [point.go], [src/whitelist.go])

    A configuration has rules; a rule selects fields of points, and makes a batch of each
    selected field with the hash of its group.  Maps that are iterated over are lists in
    the order of the iteration.  The parser of conditions, regular expressions, the JSON
    form of a configuration, the hash function and the texts of warnings are parameters.
    An operation that changes a structure and fails returns the structure as it is then. *)

From S2P Require Import Prelude GoNum GoStrings GoSlice PointKV PointCheck PointNew PointProto PointDecode FilterAst FilterEval AggrPacket AggrPred AggrWheel AggrCalc PointFindings.

(** ** White lists *)

Record WhiteListItem := mkItem { wl_s : string; wl_re : bool }.

Inductive setup_err : Type :=
| EPanic                        (* a regular expression that does not compile *)
| EAction
| ERuleNil
| ENoSelector (rule : string)
| ECategory (c : string)
| ECondition
| EAlgo (rule : string) (why : string).

Section Lists.
Context (re_valid : string -> bool) (re_match : string -> string -> bool).

(** [None] is the panic of [MustCompile]. *)
Definition NewWhiteListItem (pattern : string) : option WhiteListItem :=
  let pattern := TrimSpace pattern in
  if String.prefix "reg:" pattern then
    let re := String.substring 4 (String.length pattern - 4) pattern in
    if re_valid re then Some (mkItem re true) else None
  else Some (mkItem pattern false).

Definition Item_Match (v : string) (i : WhiteListItem) : bool :=
  if wl_re i then re_match (wl_s i) v else (wl_s i =? v)%string.

Definition WhiteListMatched (v : string) (l : list WhiteListItem) : bool := existsb (Item_Match v) l.

(** The loop that appends the items of a list of patterns. *)
Fixpoint add_items (l : list string) (items : list WhiteListItem) : option (list WhiteListItem) :=
  match l with
  | [] => Some items
  | m :: l' => match NewWhiteListItem m with None => None | Some i => add_items l' (items ++ [i]) end
  end.
End Lists.

(** ** Selectors *)

Record RuleSelector := mkSelector {
  rs_Category : string;
  Measurements : list string;
  MetricName : list string;
  Condition : string;
  measurementsWhitelist : list WhiteListItem;
  fieldsWhitelist : list WhiteListItem;
  conds : list (option Node);
}.

Definition set_conds (c : list (option Node)) (rs : RuleSelector) : RuleSelector :=
  mkSelector (rs_Category rs) (Measurements rs) (MetricName rs) (Condition rs)
    (measurementsWhitelist rs) (fieldsWhitelist rs) c.

Definition set_lists (m f : list WhiteListItem) (rs : RuleSelector) : RuleSelector :=
  mkSelector (rs_Category rs) (Measurements rs) (MetricName rs) (Condition rs) m f (conds rs).

Definition valid_category (c : Category) : bool :=
  match c with
  | Metric | Network | KeyEvent | Object | ObjectChange | CustomObject | Logging | Tracing | RUM | Security
  | Profiling | DialTesting | AgentLLM => true
  | _ => false
  end.

Section Selector.
Context (cat_order : list (Category * string)) (GetConds : string -> option (list (option Node))).
Context (re_valid : string -> bool) (re_match : string -> string -> bool).

(** [RuleSelector.Setup]. *)
Definition RuleSelector_Setup (rs : RuleSelector) : option setup_err * RuleSelector :=
  if negb (valid_category (CatString cat_order (rs_Category rs))) then (Some (ECategory (rs_Category rs)), rs)
  else
    match (if (Condition rs =? "")%string then Some rs
           else match GetConds (Condition rs) with None => None | Some ast => Some (set_conds ast rs) end) with
    | None => (Some ECondition, rs)
    | Some rs =>
        match add_items re_valid (Measurements rs) (measurementsWhitelist rs) with
        | None => (Some EPanic, rs)
        | Some ms =>
            match add_items re_valid (MetricName rs) (fieldsWhitelist rs) with
            | None => (Some EPanic, set_lists ms (fieldsWhitelist rs) rs)
            | Some fs => (None, set_lists ms fs rs)
            end
        end
    end.

Context `{ArrayEnc} (sort : PointKV.KVs -> PointKV.KVs) (now : Z) (pooled : option cfg).

(** The field of a forked point; an array has none. *)
Definition fork_kvs (kv : Field) : PointKV.KVs :=
  match Val kv with
  | Some (Field_F x) => Add (Key kv) (GoFloat x) [] []
  | Some (Field_I x) | Some (Field_U x) => Add (Key kv) (GoFloat (float_of_int x)) [] []
  | Some (Field_S x) => Add (Key kv) (GoString x) [] []
  | Some (Field_D x) => Add (Key kv) (GoBytes x) [] []
  | Some (Field_B x) => Add (Key kv) (GoBool x) [] []
  | Some (Field_A _) | None => []
  end.

(** The fields of a point that are selected. *)
Definition selected (rs : RuleSelector) (kv : Field) : bool :=
  WhiteListMatched re_match (of_bytes (Key kv)) (fieldsWhitelist rs) && negb (IsTag kv) &&
  match fork_kvs kv with [] => false | _ => true end.

Fixpoint fork_all (pt : Point) (l : PointKV.KVs) : Res panic (list Point) :=
  match l with
  | [] => Ok []
  | kv :: l' =>
      match fst (NewPoint sort now pooled (Name pt) (fork_kvs kv) [Some (WithTime (Time pt))]) with
      | Err e => Err e
      | Ok p => match fork_all pt l' with Ok ps => Ok (p :: ps) | Err e => Err e end
      end
  end.

(** [selectKVS(false, pt)], the only way it is called. *)
Definition selectKVS (rs : RuleSelector) (pt : Point) : Res panic (list Point) :=
  match fieldsWhitelist rs with
  | [] => Ok []
  | _ => fork_all pt (List.filter (selected rs) (PFields pt))
  end.

(** One key of [groupby]: the tag, or the value, of the point is given to each fork. *)
Definition add_group (pt : Point) (tagKey : bytes) (forks : list Point) : list Point :=
  let forks := match Point_GetTag tagKey pt with [] => forks | v => map (Point_SetTag tagKey v) forks end in
  match Point_Get tagKey pt with GoNil => forks | v => map (Point_Add tagKey v) forks end.

(** Whether the measurement and the conditions accept the point. *)
Definition accepts_point (rs : RuleSelector) (pt : Point) : Res panic bool :=
  if match measurementsWhitelist rs with
     | [] => false
     | l => negb (WhiteListMatched re_match (of_bytes (Name pt)) l)
     end then Ok false
  else
    match conds rs with
    | [] => Ok true
    | l =>
        match WhereConditions_Eval re_match 0 l (ptWrap_Get (PFields pt)) with
        | None => Err PanicTypeAssertion
        | Some x => Ok (negb (x <? 0))
        end
    end.

(** [doSelect]. *)
Fixpoint doSelect (rs : RuleSelector) (groupby : list bytes) (pts : list Point) : Res panic (list Point) :=
  match pts with
  | [] => Ok []
  | pt :: pts' =>
      match accepts_point rs pt with
      | Err e => Err e
      | Ok false => doSelect rs groupby pts'
      | Ok true =>
          match selectKVS rs pt with
          | Err e => Err e
          | Ok forks =>
              match doSelect rs groupby pts' with
              | Err e => Err e
              | Ok res => Ok (fold_left (fun fs k => add_group pt k fs) groupby forks ++ res)
              end
          end
      end
  end.
End Selector.

(** ** Hashes of points *)

Section Hashes.
Context (Sum64 : string -> Z).

Definition sum_bytes (b : bytes) : Z := Sum64 (of_bytes b).

(** [GetS]. *)
Definition pt_getS (k : bytes) (x : PointKV.KVs) : option bytes :=
  match Get k x with
  | Some f => match Val f with Some (Field_S s) => Some s | _ => None end
  | None => None
  end.

Definition hash_tags (x : PointKV.KVs) (keys : list bytes) (h : Z) : Z :=
  fold_left (fun h k => match pt_getS k x with
                        | Some s => HashCombine (HashCombine h (sum_bytes k)) (sum_bytes s)
                        | None => h
                        end) keys h.

(** [hash]. *)
Definition point_hash (pt : Point) (sortedTagKeys : list bytes) : Z :=
  let h := hash_tags (PFields pt) sortedTagKeys (HashCombine Seed1 (sum_bytes (Name pt))) in
  match List.find (fun kv => negb (IsTag kv)) (PFields pt) with
  | Some kv => HashCombine h (sum_bytes (Key kv))
  | None => h
  end.

Definition pickHash (pt : Point) (sortedTagKeys : list bytes) : Z :=
  fold_left (fun h k => HashCombine h (sum_bytes k)) sortedTagKeys (HashCombine Seed1 (sum_bytes (Name pt))).

(** [pointAggrTags]. *)
Definition pointAggrTags (pt : Point) (sortedKeys : list bytes) : list tag :=
  omap (fun k => match pt_getS k (PFields pt) with Some v => Some (k, v) | None => None end) sortedKeys.
End Hashes.

(** ** Algorithms and rules *)

Record AggregationAlgoConfig := mkAlgoCfg {
  ac_Method : string;
  ac_SourceField : bytes;
  ac_Window : Z;
  ac_AddTags : list tag;
  ac_HistogramOpts : option (list spec_float);
  ac_ExpoOpts : bool;
  ac_QuantileOpts : option (list spec_float);
}.

Definition ToAggregationAlgo (cfg : option AggregationAlgoConfig) : option AggregationAlgo :=
  match cfg with
  | None => None
  | Some c =>
      Some (mkAlgo (ac_Method c) (ac_SourceField c) (ac_Window c) (ac_AddTags c)
              (match ac_HistogramOpts c with
               | Some b => Some (HistogramOpts b)
               | None =>
                   if ac_ExpoOpts c then Some ExpoOpts
                   else match ac_QuantileOpts c with Some p => Some (QuantileOpts (Some p)) | None => None end
               end))
  end.

Definition supported (m : string) : bool :=
  existsb (String.eqb m) [SUM; AVG; COUNT; MIN; MAX; HISTOGRAM; STDEV; QUANTILES; COUNT_DISTINCT; LAST; FIRST].

Definition fone : spec_float := float_of_int 1.

(** [validateAggregationAlgo]: the reason of an error. *)
Definition validateAggregationAlgo (key : bytes) (algo : option AggregationAlgo) : option string :=
  if (TrimSpace (of_bytes key) =? "")%string then Some "name is empty"
  else
    match algo with
    | None => Some "is nil"
    | Some a =>
        let method := NormalizeAlgoMethod (Method a) in
        if negb (supported method) then
          Some (if (method =? EXPO_HISTOGRAM)%string then "not supported"
                else if (method =? METHOD_UNSPECIFIED)%string then "missing method" else "unknown method")
        else if (method =? QUANTILES)%string then
          match Options a with
          | Some (QuantileOpts (Some (p :: ps))) =>
              if existsb (fun x => SFltb x fzero || SFltb fone x) (p :: ps) then Some "out of range" else None
          | _ => Some "requires percentiles"
          end
        else None
    end.

Record AggregateRule := mkRule {
  ar_Name : string;
  ar_Selector : option RuleSelector;
  Groupby : list bytes;
  Algorithms : list (bytes * option AggregationAlgoConfig);
  aggregationOpts : list (bytes * option AggregationAlgo);
}.

Record AggregatorConfigure := mkConf {
  DefaultWindow : Z;
  AggregateRules : list (option AggregateRule);
  DefaultAction : string;
  DeleteRulesPoint : bool;
  ac_hash : Z;
  ac_raw : string;
}.

(** [sort.Strings]. *)
Fixpoint bytes_ltb (a b : bytes) : bool :=
  match a, b with
  | _, [] => false
  | [], _ :: _ => true
  | x :: a', y :: b' =>
      if byte.unsigned x <? byte.unsigned y then true
      else if byte.unsigned y <? byte.unsigned x then false else bytes_ltb a' b'
  end.

Fixpoint ins_string (s : bytes) (l : list bytes) : list bytes :=
  match l with
  | [] => [s]
  | x :: l' => if bytes_ltb x s then x :: ins_string s l' else s :: l
  end.

Definition sort_Strings (l : list bytes) : list bytes := fold_right ins_string [] l.

(** The loop over the algorithms of a rule. *)
Fixpoint check_algos (dflt : Z) (l : list (bytes * option AggregationAlgo)) : string + list (bytes * option AggregationAlgo) :=
  match l with
  | [] => inr []
  | (key, algo) :: l' =>
      match validateAggregationAlgo key algo with
      | Some why => inl why
      | None =>
          let algo := option_map (fun a => if Window a <=? 10
            then mkAlgo (Method a) (SourceField a) dflt (AddTags a) (Options a) else a) algo in
          match check_algos dflt l' with inl why => inl why | inr r => inr ((key, algo) :: r) end
      end
  end.

Definition set_selector (s : RuleSelector) (ar : AggregateRule) : AggregateRule :=
  mkRule (ar_Name ar) (Some s) (Groupby ar) (Algorithms ar) (aggregationOpts ar).

Section Setup.
Context (cat_order : list (Category * string)) (GetConds : string -> option (list (option Node))).
Context (re_valid : string -> bool).
Context (Marshal : AggregatorConfigure -> option string) (Sum64 : string -> Z).

(** [setupAlgorithms]. *)
Definition setupAlgorithms (ar : AggregateRule) : list (bytes * option AggregationAlgo) :=
  map (fun '(k, c) => (k, ToAggregationAlgo c)) (Algorithms ar).

(** The body of the loop over the rules. *)
Definition rule_Setup (dflt : Z) (rule : option AggregateRule) : option setup_err * option AggregateRule :=
  match rule with
  | None => (Some ERuleNil, None)
  | Some ar =>
      match ar_Selector ar with
      | None => (Some (ENoSelector (ar_Name ar)), Some ar)
      | Some rs =>
          match RuleSelector_Setup cat_order GetConds re_valid rs with
          | (Some e, rs') => (Some e, Some (set_selector rs' ar))
          | (None, rs') =>
              let ar := set_selector rs' ar in
              match check_algos dflt (setupAlgorithms ar) with
              | inl why => (Some (EAlgo (ar_Name ar) why), Some ar)
              | inr algos =>
                  (None, Some (mkRule (ar_Name ar) (ar_Selector ar) (sort_Strings (Groupby ar)) (Algorithms ar) algos))
              end
          end
      end
  end.

Fixpoint rules_Setup (dflt : Z) (rules : list (option AggregateRule)) : option setup_err * list (option AggregateRule) :=
  match rules with
  | [] => (None, [])
  | r :: rules' =>
      match rule_Setup dflt r with
      | (Some e, r') => (Some e, r' :: rules')
      | (None, r') => let '(e, rs) := rules_Setup dflt rules' in (e, r' :: rs)
      end
  end.

(** [AggregatorConfigure.doHash]: nothing changes when the configuration has no JSON
    form. *)
Definition conf_doHash (ac : AggregatorConfigure) : AggregatorConfigure :=
  match Marshal ac with
  | None => ac
  | Some j => mkConf (DefaultWindow ac) (AggregateRules ac) (DefaultAction ac) (DeleteRulesPoint ac) (Sum64 j) j
  end.

(** [Setup]. *)
Definition conf_Setup (ac : AggregatorConfigure) : option setup_err * AggregatorConfigure :=
  if negb (existsb (String.eqb (DefaultAction ac)) [""; "passthrough"; "drop"]) then (Some EAction, ac)
  else
    let '(e, rules) := rules_Setup (DefaultWindow ac) (AggregateRules ac) in
    let ac := mkConf (DefaultWindow ac) rules (DefaultAction ac) (DeleteRulesPoint ac) (ac_hash ac) (ac_raw ac) in
    match e with
    | Some _ => (e, ac)
    | None => (None, conf_doHash ac)
    end.
End Setup.

(** ** Picking points *)

Section PickPoints.
Context (re_match : string -> string -> bool).
Context `{ArrayEnc} (sort : PointKV.KVs -> PointKV.KVs) (now : Z) (pooled : option cfg) (Sum64 : string -> Z).
Context (warn_text : Warn -> PBWarn).

(** [Point.PBPoint]. *)
Definition to_pb (p : Point) : PBPoint :=
  mkPB (Name p) (PFields p) (Time p) (map warn_text (Warns p)) (Debugs p).

(** [AggregateRule.SelectPoints]; the selector was checked by [Setup]. *)
Definition SelectPoints (ar : AggregateRule) (pts : list Point) : Res panic (list Point) :=
  match ar_Selector ar with
  | None => Err PanicTypeAssertion
  | Some rs => doSelect re_match sort now pooled rs (Groupby ar) pts
  end.

(** [GroupbyPoints]. *)
Definition GroupbyPoints (ar : AggregateRule) (pts : list Point) : gmap Z (list Point) :=
  fold_left (fun m pt => let h := point_hash Sum64 pt (Groupby ar) in <[h := default [] (m !! h) ++ [pt]]> m) pts ∅.

(** [GroupbyBatch]. *)
Definition GroupbyBatch (confHash : Z) (ar : AggregateRule) (pts : list Point) : list AggregationBatch :=
  map (fun pt => mkBatch (point_hash Sum64 pt (Groupby ar)) confHash (aggregationOpts ar) (Some [to_pb pt])
                   (pickHash Sum64 pt (Groupby ar))) pts.

(** The batches of all rules of a category. *)
Fixpoint rule_batches (ac : AggregatorConfigure) (category : string) (rules : list (option AggregateRule))
    (pts : list Point) : Res panic (list AggregationBatch) :=
  match rules with
  | [] => Ok []
  | None :: _ => Err PanicTypeAssertion
  | Some ar :: rules' =>
      match ar_Selector ar with
      | None => Err PanicTypeAssertion
      | Some rs =>
          if (rs_Category rs =? category)%string then
            match SelectPoints ar pts with
            | Err e => Err e
            | Ok sPts =>
                match rule_batches ac category rules' pts with
                | Err e => Err e
                | Ok abs => Ok (GroupbyBatch (ac_hash ac) ar sPts ++ abs)
                end
            end
          else rule_batches ac category rules' pts
      end
  end.

Definition add_batch (m : gmap Z (list AggregationBatch)) (ab : AggregationBatch) : gmap Z (list AggregationBatch) :=
  <[PickKey ab := default [] (m !! PickKey ab) ++ [ab]]> m.

(** [PickPoints]. *)
Definition PickPoints (ac : AggregatorConfigure) (category : string) (pts : list Point)
    : Res panic (gmap Z (list AggregationBatch)) :=
  match rule_batches ac category (AggregateRules ac) pts with
  | Err e => Err e
  | Ok abs => Ok (fold_left add_batch abs ∅)
  end.
End PickPoints.

(** * Metric aggregation: what rules guarantee

    A configuration that [Setup] accepts has well-formed rules; [PickPoints] loses no
    batch and does not mix groups. *)

(** ** Setup *)

Lemma bytes_ltb_asym a b : bytes_ltb a b = true -> bytes_ltb b a = false.
Proof.
  revert b. induction a as [|x a IH]; intros [|y b]; cbn; try done.
  destruct (Z.ltb_spec (byte.unsigned x) (byte.unsigned y)), (Z.ltb_spec (byte.unsigned y) (byte.unsigned x));
    try done; try lia. apply IH.
Qed.

Abbreviation str_le := (fun a b => bytes_ltb b a = false).

Lemma ins_string_sorted s l : Sorted str_le l -> Sorted str_le (ins_string s l).
Proof.
  induction 1 as [|x l S IH Hd]; cbn; [by repeat constructor|].
  destruct (bytes_ltb x s) eqn:B; [|by repeat constructor]. constructor; [done|].
  destruct Hd as [|y l Hy]; cbn; [by constructor; apply bytes_ltb_asym|].
  destruct (bytes_ltb y s); constructor; [done|by apply bytes_ltb_asym].
Qed.

Lemma ins_string_perm s l : ins_string s l ≡ₚ s :: l.
Proof.
  induction l as [|x l IH]; [done|]. cbn. destruct (bytes_ltb x s); [|done]. rewrite IH. apply perm_swap.
Qed.

Lemma sort_Strings_ok l : Sorted str_le (sort_Strings l) /\ sort_Strings l ≡ₚ l.
Proof.
  induction l as [|s l [S P]]; [split; [constructor|done]|]. cbn. split; [by apply ins_string_sorted|].
  by rewrite ins_string_perm, P.
Qed.

Definition quantiles_ok (a : AggregationAlgo) : Prop :=
  NormalizeAlgoMethod (Method a) = QUANTILES ->
  exists p ps, Options a = Some (QuantileOpts (Some (p :: ps))) /\
    Forall (fun x => isNaN x = true \/ (SFleb fzero x = true /\ SFleb x fone = true)) (p :: ps).

(** An algorithm that [newCalculators] knows. *)
Definition algo_ok (dflt : Z) (e : bytes * option AggregationAlgo) : Prop :=
  TrimSpace (of_bytes (fst e)) <> ""%string /\
  exists a, snd e = Some a /\ supported (NormalizeAlgoMethod (Method a)) = true /\
    (10 < Window a \/ Window a = dflt) /\ quantiles_ok a.

Definition rule_ok (cat_order : list (Category * string)) (dflt : Z) (rule : option AggregateRule) : Prop :=
  exists ar rs, rule = Some ar /\ ar_Selector ar = Some rs /\
    valid_category (CatString cat_order (rs_Category rs)) = true /\
    Sorted str_le (Groupby ar) /\ map fst (aggregationOpts ar) = map fst (Algorithms ar) /\
    Forall (algo_ok dflt) (aggregationOpts ar).

Lemma existsb_Forall {A} (f : A -> bool) l : existsb f l = false -> Forall (fun x => f x = false) l.
Proof. induction l as [|x l IH]; [constructor|]. cbn. intros [H1 H2]%orb_false_iff. constructor; auto. Qed.

Lemma validate_ok key algo : validateAggregationAlgo key algo = None ->
  TrimSpace (of_bytes key) <> ""%string /\
  exists a, algo = Some a /\ supported (NormalizeAlgoMethod (Method a)) = true /\ quantiles_ok a.
Proof.
  unfold validateAggregationAlgo. destruct (String.eqb_spec (TrimSpace (of_bytes key)) ""); [done|].
  destruct algo as [a|]; [|done]. destruct (supported _) eqn:Sp; cbn [negb]; [|done]. intros V. split; [done|].
  exists a. split_and!; [done..|]. intros Q. rewrite Q, String.eqb_refl in V.
  destruct (Options a) as [[| |[[|p ps]|]]|]; try done. exists p, ps. split; [done|].
  set (f := fun x : spec_float => _) in V. destruct (existsb f (p :: ps)) eqn:E; [done|]. apply existsb_Forall in E.
  eapply list.Forall_impl; [exact E|]. intros x [[N|[|L]]%SFltb_false [|[N'|U]]%SFltb_false]%orb_false_iff; try done; [by left..|by right].
Qed.

Lemma check_algos_ok dflt l r : check_algos dflt l = inr r -> map fst r = map fst l /\ Forall (algo_ok dflt) r.
Proof.
  revert r. induction l as [|[key algo] l IH]; intros r; cbn [check_algos]; [intros [= <-]; by split|].
  destruct (validateAggregationAlgo key algo) eqn:V; [done|]. destruct (check_algos dflt l) as [|r']; [done|].
  intros [= <-]. destruct (IH r' eq_refl) as [M F]. cbn [map fst]. rewrite M. split; [done|]. constructor; [|done].
  apply validate_ok in V as (Nk & a & -> & Sp & Qo). split; [done|]. cbn [snd option_map].
  destruct (Z.leb_spec (Window a) 10); eexists; (split; [done|]); (split_and!; [done| |done]); [by right|by left].
Qed.

Lemma selector_keeps cat_order GetConds re_valid rs rs' :
  RuleSelector_Setup cat_order GetConds re_valid rs = (None, rs') ->
  rs_Category rs' = rs_Category rs /\ valid_category (CatString cat_order (rs_Category rs)) = true.
Proof.
  unfold RuleSelector_Setup. destruct (valid_category _) eqn:V; cbn [negb]; [|done].
  destruct (if (_ =? "")%string then _ else _) as [rs1|] eqn:E; [|done].
  assert (rs_Category rs1 = rs_Category rs) as C.
  { destruct (_ =? "")%string; [by injection E as <-|]. destruct (GetConds _); [by injection E as <-|done]. }
  destruct (add_items _ _ (measurementsWhitelist rs1)); [|done]. destruct (add_items _ _ (fieldsWhitelist rs1)); [|done].
  intros [= <-]. done.
Qed.

Section Conf.
Context (cat_order : list (Category * string)) (GetConds : string -> option (list (option Node))).
Context (re_valid : string -> bool).

Lemma rule_Setup_ok dflt r r' : rule_Setup cat_order GetConds re_valid dflt r = (None, r') -> rule_ok cat_order dflt r'.
Proof.
  unfold rule_Setup. destruct r as [ar|]; [|done]. destruct (ar_Selector ar) as [rs|]; [|done].
  destruct (RuleSelector_Setup _ _ _ rs) as [[e|] rs'] eqn:S; [done|]. apply selector_keeps in S as [C V].
  destruct (check_algos _ _) as [|algos] eqn:K; [done|]. intros [= <-]. apply check_algos_ok in K as [M F].
  eexists _, rs'. split_and!; [done|done|congruence|apply sort_Strings_ok| |done].
  cbn. rewrite M. unfold setupAlgorithms. cbn. rewrite map_map. apply map_ext. by intros [].
Qed.

Lemma rules_Setup_ok dflt rules rules' :
  rules_Setup cat_order GetConds re_valid dflt rules = (None, rules') -> Forall (rule_ok cat_order dflt) rules'.
Proof.
  revert rules'. induction rules as [|r rules IH]; intros rules'; cbn [rules_Setup]; [intros [= <-]; constructor|].
  destruct (rule_Setup _ _ _ _ r) as [[e|] r'] eqn:R; [done|].
  destruct (rules_Setup _ _ _ _ rules) as [e rs] eqn:E. intros [= -> <-].
  constructor; [by eapply rule_Setup_ok | by apply IH].
Qed.
End Conf.

(** C33: after a [Setup] without error every rule has a selector of a category that can be
    aggregated, sorted grouping keys, and for each configured algorithm a field name that
    is not blank, a supported method, a window of more than 10ns or else the default window
    of the configuration (which is not checked), and for quantiles a non-empty list of
    percentiles, each between 0 and 1 or else NaN, which the comparisons of the code let
    through. *)
Theorem setup_well_formed (cat_order : list (Category * string)) (GetConds : string -> option (list (option Node)))
    (re_valid : string -> bool) (Marshal : AggregatorConfigure -> option string) (Sum64 : string -> Z)
    (ac ac' : AggregatorConfigure) :
  conf_Setup cat_order GetConds re_valid Marshal Sum64 ac = (None, ac') ->
  DefaultWindow ac' = DefaultWindow ac /\ Forall (rule_ok cat_order (DefaultWindow ac)) (AggregateRules ac').
Proof.
  unfold conf_Setup. destruct (negb _); [done|].
  destruct (rules_Setup _ _ _ _ _) as [[e|] rules] eqn:R; [done|]. intros [= <-]. apply rules_Setup_ok in R.
  unfold conf_doHash. by destruct (Marshal _).
Qed.

Definition demo_rule : AggregateRule :=
  mkRule "r" (Some (mkSelector "metric" ["cpu"] ["reg:.*"] "" [] [] [])) [to_bytes "zone"; to_bytes "host"]
    [(to_bytes "load", Some (mkAlgoCfg "quantiles" [] 0 [] None false (Some [fone])))] [].

Definition demo_conf : AggregatorConfigure := mkConf (10 * second) [Some demo_rule] "drop" false 0 "".

Lemma setup_well_formed_witness :
  DefaultWindow (snd (conf_Setup categoryShort (fun _ => None) (fun _ => true) (fun _ => None) (fun _ => 0) demo_conf))
    = DefaultWindow demo_conf /\
  Forall (rule_ok categoryShort (10 * second))
    (AggregateRules (snd (conf_Setup categoryShort (fun _ => None) (fun _ => true) (fun _ => None) (fun _ => 0) demo_conf))).
Proof.
  apply (setup_well_formed categoryShort (fun _ => None) (fun _ => true) (fun _ => None) (fun _ => 0) demo_conf).
  vm_compute. reflexivity.
Defined.

(** ** Picking points *)

Definition picked_as (k : Z) (ab : AggregationBatch) : bool := PickKey ab =? k.

Lemma add_batches m abs k :
  default [] (fold_left add_batch abs m !! k) = default [] (m !! k) ++ List.filter (picked_as k) abs.
Proof.
  revert m. induction abs as [|ab abs IH]; intros m; cbn [fold_left List.filter]; [by rewrite app_nil_r|].
  rewrite IH. unfold add_batch at 1, picked_as at 2. destruct (Z.eqb_spec (PickKey ab) k) as [<-|N].
  - rewrite lookup_insert_eq. cbn. by rewrite <- app_assoc.
  - by rewrite lookup_insert_ne.
Qed.

Section Pick.
Context (re_match : string -> string -> bool).
Context {arrays : ArrayEnc} (sort : PointKV.KVs -> PointKV.KVs) (now : Z) (pooled : option cfg) (Sum64 : string -> Z).
Context (warn_text : Warn -> PBWarn).

(** The batch of a selected point. *)
Definition batch_of (ac : AggregatorConfigure) (category : string) (pts : list Point) (ab : AggregationBatch) : Prop :=
  exists ar rs sel pt, Some ar ∈ AggregateRules ac /\ ar_Selector ar = Some rs /\ rs_Category rs = category /\
    doSelect re_match sort now pooled rs (Groupby ar) pts = Ok sel /\ pt ∈ sel /\
    BPoints ab = Some [to_pb warn_text pt] /\ RoutingKey ab = point_hash Sum64 pt (Groupby ar) /\
    PickKey ab = pickHash Sum64 pt (Groupby ar) /\ AggregationOpts ab = aggregationOpts ar.

(** The points that the rules of a category select, in order. *)
Fixpoint selections (category : string) (rules : list (option AggregateRule)) (pts : list Point) : list Point :=
  match rules with
  | Some ar :: rules' =>
      match ar_Selector ar with
      | Some rs =>
          if (rs_Category rs =? category)%string
          then match doSelect re_match sort now pooled rs (Groupby ar) pts with Ok l => l | Err _ => [] end ++
               selections category rules' pts
          else selections category rules' pts
      | None => []
      end
  | _ => []
  end.

Lemma rule_batches_ok ac category rules pts abs : (forall r, r ∈ rules -> r ∈ AggregateRules ac) ->
  rule_batches re_match sort now pooled Sum64 warn_text ac category rules pts = Ok abs ->
  map BPoints abs = map (fun pt => Some [to_pb warn_text pt]) (selections category rules pts) /\
  Forall (batch_of ac category pts) abs.
Proof.
  revert abs. induction rules as [|[ar|] rules IH]; intros abs Hr; cbn [rule_batches selections]; [intros [= <-]; by split| |done].
  destruct (ar_Selector ar) as [rs|] eqn:Sl; [|done]. assert (forall r, r ∈ rules -> r ∈ AggregateRules ac) as Hr'.
  { intros r Hin. apply Hr. by right. }
  destruct (String.eqb_spec (rs_Category rs) category) as [C|]; [|by apply IH].
  unfold SelectPoints. rewrite Sl. destruct (doSelect _ _ _ _ _ _ _) as [sel|] eqn:D; [|done].
  destruct (rule_batches _ _ _ _ _ _ _ _ rules pts) as [abs'|]; [|done]. intros [= <-].
  destruct (IH abs' Hr' eq_refl) as [M F]. unfold GroupbyBatch. rewrite !map_app, map_map, M. split; [done|].
  apply list.Forall_app. split; [|done]. apply list.Forall_forall. intros ab Hin.
  apply list_elem_of_fmap in Hin as (pt & -> & Hpt). exists ar, rs, sel, pt. split_and!; try done. apply Hr. by left.
Qed.

(** C34: what [PickPoints] returns is a partition of the batches of the selected points:
    each selected point of each rule of the category is the one point of one batch, with
    the routing and pick keys of its own group and its rule's algorithms, and the batches
    under a key are those with that pick key, in order. *)
Theorem pick_points_partition (ac : AggregatorConfigure) (category : string) (pts : list Point)
    (m : gmap Z (list AggregationBatch)) :
  PickPoints re_match sort now pooled Sum64 warn_text ac category pts = Ok m ->
  exists abs,
    map BPoints abs = map (fun pt => Some [to_pb warn_text pt]) (selections category (AggregateRules ac) pts) /\
    Forall (batch_of ac category pts) abs /\
    forall k, default [] (m !! k) = List.filter (picked_as k) abs.
Proof.
  unfold PickPoints. destruct (rule_batches _ _ _ _ _ _ _ _ _ _) as [abs|] eqn:E; [|done]. intros [= <-].
  apply rule_batches_ok in E as [M F]; [|done]. exists abs. split_and!; [done..|]. intros k. by rewrite add_batches.
Qed.
End Pick.

Definition demo_ready : AggregatorConfigure :=
  snd (conf_Setup categoryShort (fun _ => None) (fun _ => true) (fun _ => None) (fun _ => 0) demo_conf).

Definition demo_points : list Point :=
  [point_of "cpu" [int_field "load" 3; int_field "idle" 5; str_tag "host" "a"]; point_of "mem" [int_field "free" 1]].

Definition demo_pick : Res panic (gmap Z (list AggregationBatch)) :=
  PickPoints (fun _ _ => true) id 0 None (fun s => fnv64a (to_bytes s)) (fun _ => mkPBWarn [] []) demo_ready "metric"
    demo_points.

Definition demo_batches : gmap Z (list AggregationBatch) := match demo_pick with Ok m => m | Err _ => ∅ end.

(** The two fields of the first point make two batches of one group of keys. *)
Example demo_pick_two : map length (map snd (map_to_list demo_batches)) = [2%nat].
Proof. vm_compute. reflexivity. Qed.

Lemma pick_points_partition_witness :
  exists abs,
    map BPoints abs
    = map (fun pt => Some [to_pb (fun _ => mkPBWarn [] []) pt])
        (selections (fun _ _ => true) id 0 None "metric" (AggregateRules demo_ready) demo_points) /\
    Forall (batch_of (fun _ _ => true) id 0 None (fun s => fnv64a (to_bytes s)) (fun _ => mkPBWarn [] []) demo_ready
              "metric" demo_points) abs /\
    forall k, default [] (demo_batches !! k) = List.filter (picked_as k) abs.
Proof.
  apply (pick_points_partition (fun _ _ => true) id 0 None (fun s => fnv64a (to_bytes s)) (fun _ => mkPBWarn [] [])
           demo_ready "metric" demo_points demo_batches).
  vm_compute. reflexivity.
Defined.

(** A percentile that is not a number passes the validation, and the calculator then
    indexes its samples with the smallest integer. *)
Theorem nan_percentile_panics (mb : MetricBase) (a b : spec_float) :
  validateAggregationAlgo (to_bytes "q")
    (Some (mkAlgo "quantiles" [] 0 [] (Some (QuantileOpts (Some [S754_nan]))))) = None /\
  fst (quantiles_Aggr id 0 None [] (mkQuant 0 mb [a; b] 2 [S754_nan])) = Err (AggrPanic PanicIndex).
Proof.
  split; [vm_compute; reflexivity|]. unfold quantiles_Aggr.
  cbn [qnt_base qnt_all quantiles qnt_count qnt_maxTime fold_left].
  assert (zlen (Float64s [a; b]) = 2) as L.
  { unfold zlen. by rewrite (Permutation_length (Float64s_perm [a; b])). }
  unfold percentileFromSorted. rewrite L. reflexivity.
Qed.
