(* ===== verification/AggrDerived.v ===== *)
(** * Tail sampling: derived metrics ([src/aggregate/derived_metric_record.go],
    [derived_metric_collector.go], [tail_sampling_builtin_metrics.go],
    [tail_sampling_processor.go])

    Built-in metrics turn the events of a packet into records; the collector sums them,
    or counts them in histograms, per time window; the processor joins sampler and
    collector.  An instant is a number of nanoseconds, [None] the zero time.  A map that
    is iterated over has the order of the iteration as an argument; the printing of
    floats and the hash function are parameters. *)

From S2P Require Import Prelude GoNum GoSlice PointKV PointCheck PointNew PointProto FilterAst AggrPacket AggrPred AggrConfig AggrWheel AggrCalc AggrRules.

(** ** Records *)

Definition TailSamplingDerivedMeasurement : string := "tail_sampling".

Definition StageIngest : string := "ingest".
Definition StagePreDecision : string := "pre_decision".
Definition StageDecision : string := "decision".
Definition KindSum : string := "sum".
Definition KindHistogram : string := "histogram".
Definition DecisionUnknown : string := "".
Definition DecisionKept : string := "kept".
Definition DecisionDropped : string := "dropped".

Record DerivedMetricRecord := mkRecord {
  dr_Token : string;
  dr_DataType : string;
  dr_MetricName : string;
  dr_Kind : string;
  dr_Stage : string;
  dr_Decision : string;
  dr_Measurement : string;
  dr_Tags : gmap string string;
  dr_Value : spec_float;
  dr_Buckets : list spec_float;
  dr_Time : option Z;
}.

Definition measurement (r : DerivedMetricRecord) : string :=
  if (dr_Measurement r =? "")%string then TailSamplingDerivedMeasurement else dr_Measurement r.

(** ** The collector *)

Definition sortedTagKeys (tags : gmap string string) : list string :=
  map of_bytes (sort_Strings (map (fun e => to_bytes (fst e)) (map_to_list tags))).

Definition tag_value (tags : gmap string string) (k : string) : string := default ""%string (tags !! k).

Section Key.
Context (Sum64 : string -> Z).

Definition hashDerivedMetricTags (tags : gmap string string) : Z :=
  if decide (tags = ∅) then 0
  else fold_left (fun h k => HashCombine (HashCombine h (Sum64 k)) (Sum64 (tag_value tags k))) (sortedTagKeys tags) Seed1.

Definition derivedMetricKey : Type := string * string * string * string * string * Z.

Definition newDerivedMetricKey (r : DerivedMetricRecord) : derivedMetricKey :=
  (dr_Token r, measurement r, dr_MetricName r, dr_Stage r, dr_Decision r, hashDerivedMetricTags (dr_Tags r)).
End Key.

#[global] Instance derivedMetricKey_eq : EqDecision derivedMetricKey.
Proof. unfold derivedMetricKey. solve_decision. Defined.

#[global] Instance derivedMetricKey_countable : Countable derivedMetricKey.
Proof. unfold derivedMetricKey. apply _. Defined.

Record derivedMetricValue := mkDValue {
  dv_token : string;
  dv_measurement : string;
  dv_metricName : string;
  dv_stage : string;
  dv_decision : string;
  dv_tags : gmap string string;
  dv_sum : spec_float;
}.

Record derivedHistogramValue := mkDHist {
  dh_value : derivedMetricValue;     (* its [dv_sum] is the sum of the observations *)
  dh_buckets : list spec_float;
  dh_counts : list spec_float;
  dh_count : spec_float;
}.

(** A new value of a record, with nothing added. *)
Definition new_value (r : DerivedMetricRecord) : derivedMetricValue :=
  mkDValue (dr_Token r) (measurement r) (dr_MetricName r) (dr_Stage r) (dr_Decision r) (dr_Tags r) fzero.

Definition add_sum (v : spec_float) (x : derivedMetricValue) : derivedMetricValue :=
  mkDValue (dv_token x) (dv_measurement x) (dv_metricName x) (dv_stage x) (dv_decision x) (dv_tags x) (fadd (dv_sum x) v).

Definition newDerivedHistogramValue (r : DerivedMetricRecord) : derivedHistogramValue :=
  let buckets := Float64s (dr_Buckets r) in
  mkDHist (new_value r) buckets (replicate (S (length buckets)) fzero) fzero.

(** The first bucket that holds the value, or the last one. *)
Fixpoint slot (v : spec_float) (buckets : list spec_float) : nat :=
  match buckets with
  | [] => 0
  | le :: l => if SFleb v le then 0 else S (slot v l)
  end.

Definition observe (v : spec_float) (h : derivedHistogramValue) : derivedHistogramValue :=
  mkDHist (add_sum v (dh_value h)) (dh_buckets h)
    (alter (fun c => fadd c fone) (slot v (dh_buckets h)) (dh_counts h)) (fadd (dh_count h) fone).

Record derivedMetricBucket := mkDBucket {
  sums : gmap derivedMetricKey derivedMetricValue;
  hist : gmap derivedMetricKey derivedHistogramValue;
}.

Definition empty_bucket : derivedMetricBucket := mkDBucket ∅ ∅.

Record DerivedMetricCollector := mkCollector { dc_window : Z; dc_buckets : gmap Z derivedMetricBucket }.

Definition DefaultDerivedMetricFlushWindow : Z := 30 * second.

Definition NewDerivedMetricCollector (window : Z) : DerivedMetricCollector :=
  mkCollector (if window <=? 0 then DefaultDerivedMetricFlushWindow else window) ∅.

Section Collector.
Context (Sum64 : string -> Z).

(** The [switch] over the kinds. *)
Definition add_record (r : DerivedMetricRecord) (b : derivedMetricBucket) : derivedMetricBucket :=
  let key := newDerivedMetricKey Sum64 r in
  if (dr_Kind r =? KindHistogram)%string then
    let current := default (newDerivedHistogramValue r) (hist b !! key) in
    mkDBucket (sums b) (<[key := observe (dr_Value r) current]> (hist b))
  else if (dr_Kind r =? "")%string || (dr_Kind r =? KindSum)%string then
    let current := default (new_value r) (sums b !! key) in
    mkDBucket (<[key := add_sum (dr_Value r) current]> (sums b)) (hist b)
  else b.

Definition record_exp (window now : Z) (r : DerivedMetricRecord) : Z :=
  AlignNextWallTime (default now (dr_Time r)) window.

Definition collect (now : Z) (c : DerivedMetricCollector) (r : DerivedMetricRecord) : DerivedMetricCollector :=
  let exp := record_exp (dc_window c) now r in
  mkCollector (dc_window c) (<[exp := add_record r (default empty_bucket (dc_buckets c !! exp))]> (dc_buckets c)).

(** [DerivedMetricCollector.Add]. *)
Definition Collector_Add (now : Z) (records : list DerivedMetricRecord) (c : DerivedMetricCollector)
    : DerivedMetricCollector := fold_left (collect now) records c.
End Collector.

(** ** Points of a bucket *)

Section Points.
Context `{ArrayEnc} (sort : PointKV.KVs -> PointKV.KVs) (now : Z) (pooled : option cfg).
Context (trimFloat : spec_float -> string).

(** [buildKVs], also the fields of [toPoint]. *)
Definition buildKVs (v : derivedMetricValue) (field : string) (value : spec_float) (extra : option (string * string))
    : PointKV.KVs :=
  let x := Add (to_bytes field) (GoFloat value) [] [] in
  let x := if (dv_stage v =? "")%string then x else AddTag (to_bytes "stage") (to_bytes (dv_stage v)) x in
  let x := if (dv_decision v =? "")%string then x else AddTag (to_bytes "decision") (to_bytes (dv_decision v)) x in
  let x := fold_left (fun x k => AddTag (to_bytes k) (to_bytes (tag_value (dv_tags v) k)) x) (sortedTagKeys (dv_tags v)) x in
  match extra with Some (k, t) => AddTag (to_bytes k) (to_bytes t) x | None => x end.

Definition derived_point (v : derivedMetricValue) (x : PointKV.KVs) (exp : Z) : Res panic Point :=
  fst (NewPoint sort now pooled (to_bytes (dv_measurement v)) x [Some (WithTimestamp (int64 (exp * second)))]).

Definition toPoint (v : derivedMetricValue) (exp : Z) : Res panic Point :=
  derived_point v (buildKVs v (dv_metricName v) (dv_sum v) None) exp.

(** The points of the buckets: the running total of the counts. *)
Fixpoint bucket_points (h : derivedHistogramValue) (exp : Z) (counts buckets : list spec_float) (cumulative : spec_float)
    : list (Res panic Point) :=
  match counts with
  | [] => []
  | c :: counts' =>
      let cumulative := fadd cumulative c in
      let le := match buckets with [] => "+Inf"%string | b :: _ => trimFloat b end in
      let v := dh_value h in
      derived_point v (buildKVs v (String.append (dv_metricName v) "_bucket") cumulative (Some ("le", le)%string)) exp
      :: bucket_points h exp counts' (tail buckets) cumulative
  end.

Definition toPoints (h : derivedHistogramValue) (exp : Z) : list (Res panic Point) :=
  let v := dh_value h in
  bucket_points h exp (dh_counts h) (dh_buckets h) fzero ++
  [derived_point v (buildKVs v (String.append (dv_metricName v) "_sum") (dv_sum v) None) exp;
   derived_point v (buildKVs v (String.append (dv_metricName v) "_count") (dh_count h) None) exp].

(** The points of a bucket with their tokens; the entries come in the order of the
    iterations. *)
Definition flush_bucket (exp : Z) (s : list (derivedMetricKey * derivedMetricValue))
    (h : list (derivedMetricKey * derivedHistogramValue)) : list (string * Res panic Point) :=
  map (fun e => (dv_token (snd e), toPoint (snd e) exp)) s ++
  flat_map (fun e => map (pair (dv_token (dh_value (snd e)))) (toPoints (snd e) exp)) h.

Definition group_by_token (m : gmap string (list (Res panic Point))) (e : string * Res panic Point)
    : gmap string (list (Res panic Point)) := <[fst e := default [] (m !! fst e) ++ [snd e]]> m.

Context (order : list (Z * derivedMetricBucket) -> list (Z * derivedMetricBucket)).
Context (sum_order : list (derivedMetricKey * derivedMetricValue) -> list (derivedMetricKey * derivedMetricValue)).
Context (hist_order : list (derivedMetricKey * derivedHistogramValue) -> list (derivedMetricKey * derivedHistogramValue)).

(** [Flush] at the second [nowUnix]: the points per token, and the collector left. *)
Definition Flush (nowUnix : Z) (c : DerivedMetricCollector) : gmap string (list (Res panic Point)) * DerivedMetricCollector :=
  let due := List.filter (fun e => fst e <=? nowUnix) (order (map_to_list (dc_buckets c))) in
  let pts := flat_map (fun e => flush_bucket (fst e) (sum_order (map_to_list (sums (snd e))))
                                  (hist_order (map_to_list (hist (snd e))))) due in
  (fold_left group_by_token pts ∅,
   mkCollector (dc_window c) (fold_left (fun m e => delete (fst e) m) due (dc_buckets c))).
End Points.

(** ** Built-in metrics *)

(** [packetTime]; [None]: the clock. *)
Definition packetTime (p : DataPacket) : option Z :=
  if 0 <? MaxPointTime p then Some (MaxPointTime p)
  else if 0 <? TraceEnd p then Some (TraceEnd p) else None.

Definition builtinRecordTags (p : DataPacket) : gmap string string :=
  let tags : gmap string string := {[ "data_type"%string := DataType p ]} in
  let tags := if (Source p =? "")%string then tags else <[ "source"%string := Source p ]> tags in
  if (GroupKey p =? "")%string then tags else <[ "group_key"%string := GroupKey p ]> tags.

Section Builtin.
Context (now : Z).

Definition SMetric : string := "metric".

Definition newDerivedMetricRecord (p : DataPacket) (name stage decision : string) (value : spec_float)
    : DerivedMetricRecord :=
  mkRecord (Token p) SMetric name KindSum stage decision TailSamplingDerivedMeasurement (builtinRecordTags p) value []
    (Some (default now (packetTime p))).

Definition newHistogramDerivedMetricRecord (p : DataPacket) (name stage decision : string) (value : spec_float)
    (tags : gmap string string) (buckets : list spec_float) : DerivedMetricRecord :=
  mkRecord (Token p) SMetric name KindHistogram stage decision TailSamplingDerivedMeasurement tags value buckets
    (Some (default now (packetTime p))).

(** [TailSamplingBuiltinMetric]: the two implementations; a function that is nil is
    [None], one that returns false gives [None]. *)
Inductive BuiltinMetric : Type :=
| countMetric (name : string) (onIngest : option (DataPacket -> option spec_float))
    (onDecision : option (DataPacket -> string -> option spec_float))
| histogramMetric (name : string) (buckets : list spec_float) (onObserve : DataPacket -> option spec_float).

Definition record_list (r : option DerivedMetricRecord) : list DerivedMetricRecord :=
  match r with Some r => [r] | None => [] end.

Definition OnIngest (p : DataPacket) (m : BuiltinMetric) : list DerivedMetricRecord :=
  match m with
  | countMetric name (Some f) _ =>
      record_list (newDerivedMetricRecord p name StageIngest DecisionUnknown <$> f p)
  | _ => []
  end.

Definition OnDecision (p : DataPacket) (decision : string) (m : BuiltinMetric) : list DerivedMetricRecord :=
  match m with
  | countMetric name _ (Some f) => record_list (newDerivedMetricRecord p name StageDecision decision <$> f p decision)
  | _ => []
  end.

Definition OnPreDecision (p : DataPacket) (m : BuiltinMetric) : list DerivedMetricRecord :=
  match m with
  | histogramMetric name buckets f =>
      record_list ((fun v => newHistogramDerivedMetricRecord p name StagePreDecision DecisionUnknown v
                               (builtinRecordTags p) buckets) <$> f p)
  | _ => []
  end.

Definition builtinDataTypeCount (dataType : string) (p : DataPacket) : option spec_float :=
  if (DataType p =? dataType)%string then Some fone else None.

Definition decided (dataType decision : string) (p : DataPacket) (d : string) : option spec_float :=
  if (DataType p =? dataType)%string && (d =? decision)%string then Some fone else None.

Definition failed (dataType : string) (p : DataPacket) : option spec_float :=
  if (DataType p =? dataType)%string && HasError p then Some fone else None.

Definition span_count (p : DataPacket) : option spec_float :=
  if negb (DataType p =? STracing)%string then None
  else if PointCount p <=? 0 then None else Some (float_of_int (PointCount p)).

Definition duration_ms (p : DataPacket) : option spec_float :=
  if negb (DataType p =? STracing)%string then None
  else if TraceEnd p <=? TraceStart p then None
  else Some (fdiv (float_of_int (int64 (TraceEnd p - TraceStart p))) (float_of_int 1000000)).

Definition defaultTraceDurationBucketsMS : list spec_float :=
  map float_of_int [1; 10; 20; 50; 100; 200; 500; 1000; 2000; 5000].

Definition DefaultTailSamplingBuiltinMetrics : list BuiltinMetric :=
  [countMetric "trace_total_count" (Some (builtinDataTypeCount STracing)) None;
   countMetric "trace_kept_count" None (Some (decided STracing DecisionKept));
   countMetric "trace_dropped_count" None (Some (decided STracing DecisionDropped));
   countMetric "trace_error_count" (Some (failed STracing)) None;
   countMetric "span_total_count" (Some span_count) None;
   histogramMetric "trace_duration" defaultTraceDurationBucketsMS duration_ms;
   countMetric "logging_total_count" (Some (builtinDataTypeCount SLogging)) None;
   countMetric "logging_error_count" (Some (failed SLogging)) None;
   countMetric "logging_kept_count" None (Some (decided SLogging DecisionKept));
   countMetric "logging_dropped_count" None (Some (decided SLogging DecisionDropped));
   countMetric "rum_total_count" (Some (builtinDataTypeCount SRUM)) None;
   countMetric "rum_kept_count" None (Some (decided SRUM DecisionKept));
   countMetric "rum_dropped_count" None (Some (decided SRUM DecisionDropped))].

(** [filterBuiltinRecords]. *)
Definition filterBuiltinRecords (m : gmap string TailSamplingConfigs) (p : DataPacket) (records : list DerivedMetricRecord)
    : list DerivedMetricRecord :=
  List.filter (fun r => isBuiltinMetricEnabled m (Token p) (DataType p) (dr_MetricName r)) records.
End Builtin.

(** ** The processor *)

Section Processor.
Context {D : Type} {spiller : PayloadSpiller D}.
Context (EncodeAll : bytes -> bytes) (DecodeAll : bytes -> option bytes) (Sum64 : string -> Z).
Context (re_match : string -> string -> bool) (pb_Unmarshal : bytes -> option PointKV.KVs).

Record TailSamplingProcessor := mkProcessor {
  p_sampler : GlobalSampler (D := D);
  p_collector : DerivedMetricCollector;
  p_metrics : list BuiltinMetric;
}.

(** Records of a packet, filtered, into the collector. *)
Definition record (now : Z) (p : DataPacket) (records : list DerivedMetricRecord) (r : TailSamplingProcessor)
    : TailSamplingProcessor :=
  mkProcessor (p_sampler r)
    (Collector_Add Sum64 now (filterBuiltinRecords (configMap (p_sampler r)) p records) (p_collector r)) (p_metrics r).

(** [IngestPacket]. *)
Definition IngestPacket (now : Z) (p : DataPacket) (r : TailSamplingProcessor) : TailSamplingProcessor :=
  let r := record now p (flat_map (OnIngest now p) (p_metrics r)) r in
  mkProcessor (Ingest EncodeAll DecodeAll Sum64 now p (p_sampler r)) (p_collector r) (p_metrics r).

(** [AdvanceTime]. *)
Definition Processor_AdvanceTime (r : TailSamplingProcessor) : TailSamplingProcessor * gmap Z DataGroup :=
  let '(s, groups) := AdvanceTime (p_sampler r) in (mkProcessor s (p_collector r) (p_metrics r), groups).

(** [RecordDecision]. *)
Definition RecordDecision (now : Z) (p : DataPacket) (decision : string) (r : TailSamplingProcessor)
    : TailSamplingProcessor := record now p (flat_map (OnDecision now p decision) (p_metrics r)) r.

Definition decision_of (o : TailSamplingOutcome) : string := if o_Kept o then DecisionKept else DecisionDropped.

(** [TailSamplingProcessor.TailSamplingOutcomes]; [order] is the order of the iteration
    of the sampler over the groups, [pre] and [post] those of the two loops here. *)
Definition Processor_Outcomes (now : Z) (order pre : list Z) (groups : gmap Z DataGroup)
    (post : list (Z * Res panic TailSamplingOutcome) -> list (Z * Res panic TailSamplingOutcome))
    (r : TailSamplingProcessor) : list (Z * Res panic TailSamplingOutcome) * TailSamplingProcessor :=
  let r := fold_left (fun r k =>
      match groups !! k with
      | Some dg => let p := g_packet (group dg) in record now p (flat_map (OnPreDecision now p) (p_metrics r)) r
      | None => r
      end) pre r in
  let s := p_sampler r in
  let '(outcomes, d) := TailSamplingOutcomes DecodeAll re_match pb_Unmarshal (configMap s) (spillThreshold s) order groups (disk s) in
  let r := mkProcessor (mkSampler (shards s) (configMap s) (spillThreshold s) d) (p_collector r) (p_metrics r) in
  (outcomes,
   fold_left (fun r e =>
      match snd e with
      | Ok o => RecordDecision now (o_SourcePacket o) (decision_of o) r
      | Err _ => r
      end) (post outcomes) r).
End Processor.
