(* ===== verification/AggrDerivedThms.v ===== *)
(** * Tail sampling: what derived metrics count *)

From S2P Require Import Prelude GoNum GoSlice PointKV PointCheck PointNew PointProto PointFindings FilterAst AggrPacket AggrPred AggrConfig AggrWheel AggrCalc AggrCalcThms AggrRules AggrDerived.

(** ** Sums and histograms of a bucket *)

Definition is_hist (r : DerivedMetricRecord) : bool := (dr_Kind r =? KindHistogram)%string.

Definition is_sum (r : DerivedMetricRecord) : bool :=
  negb (is_hist r) && ((dr_Kind r =? "")%string || (dr_Kind r =? KindSum)%string).

(** [n] increments. *)
Definition ticks (n : nat) : spec_float := Nat.iter n (fun c => fadd c fone) fzero.

(** A value belongs to the [i]-th bucket: it is not above its bound and above those before; to
    the one after the last bound when it is above all of them. *)
Definition belongs (bs : list spec_float) (i : nat) (v : spec_float) : bool :=
  forallb (fun b => negb (SFleb v b)) (take i bs) && match bs !! i with Some b => SFleb v b | None => true end.

(** The histogram has observed [vs]. *)
Record observed (h : derivedHistogramValue) (vs : list spec_float) : Prop := {
  ob_length : length (dh_counts h) = S (length (dh_buckets h));
  ob_counts : forall i, (i <= length (dh_buckets h))%nat ->
    dh_counts h !! i = Some (ticks (length (List.filter (belongs (dh_buckets h) i) vs)));
  ob_count : dh_count h = ticks (length vs);
  ob_sum : dv_sum (dh_value h) = fold_left fadd vs fzero;
}.

(** A value belongs to one bucket, the one that the loop finds. *)
Lemma slot_le v bs : (slot v bs <= length bs)%nat.
Proof. induction bs as [|le bs IH]; cbn [slot]; [done|]. destruct (SFleb v le); cbn; lia. Qed.

Lemma belongs_slot v bs : forall i, (i <= length bs)%nat -> belongs bs i v = (slot v bs =? i)%nat.
Proof.
  unfold belongs. induction bs as [|le bs IH]; intros [|i] Hi; cbn in *; [done|lia| |].
  - by destruct (SFleb v le).
  - destruct (SFleb v le); cbn; [done|]. apply IH. lia.
Qed.

Lemma new_observed r : observed (newDerivedHistogramValue r) [].
Proof.
  constructor; cbn [newDerivedHistogramValue dh_counts dh_buckets dh_count dh_value]; [apply length_replicate| |done|done].
  intros i Hi. apply (lookup_replicate_2 (S (length _)) fzero i). lia.
Qed.

Lemma ticks_S n : ticks (S n) = fadd (ticks n) fone.
Proof. done. Qed.

Lemma observe_observed v h vs : observed h vs -> observed (observe v h) (vs ++ [v]).
Proof.
  intros [Ln Cs Ct Sm]. pose proof (slot_le v (dh_buckets h)) as Hs.
  constructor; cbn [observe dh_counts dh_buckets dh_count dh_value add_sum dv_sum].
  - by rewrite length_alter.
  - intros i Hi. rewrite List.filter_app, length_app. cbn [List.filter]. rewrite (belongs_slot v) by done.
    destruct (Nat.eqb_spec (slot v (dh_buckets h)) i) as [<-|N]; cbn [length].
    + rewrite list_lookup_alter_eq, (Cs _ Hs), Nat.add_1_r. done.
    + rewrite list_lookup_alter_ne by done. by rewrite (Cs _ Hi), Nat.add_0_r.
  - rewrite Ct, length_app, Nat.add_1_r. done.
  - by rewrite Sm, fold_left_app.
Qed.

Section Collect.
Context (Sum64 : string -> Z).

Definition of_key (key : derivedMetricKey) (r : DerivedMetricRecord) : bool :=
  bool_decide (newDerivedMetricKey Sum64 r = key).

(** The records of a kind under a key, and their values. *)
Definition records_of (key : derivedMetricKey) (kind : DerivedMetricRecord -> bool) (rs : list DerivedMetricRecord)
    : list DerivedMetricRecord := List.filter (fun r => kind r && of_key key r) rs.

Definition values (key : derivedMetricKey) (kind : DerivedMetricRecord -> bool) (rs : list DerivedMetricRecord)
    : list spec_float := map dr_Value (records_of key kind rs).

(** The bucket holds the records [rs]. *)
Record bucket_rep (b : derivedMetricBucket) (rs : list DerivedMetricRecord) : Prop := {
  br_sum : forall key, match sums b !! key with
    | Some x => values key is_sum rs <> [] /\ dv_sum x = fold_left fadd (values key is_sum rs) fzero
    | None => values key is_sum rs = []
    end;
  br_hist : forall key, match hist b !! key with
    | Some h => observed h (values key is_hist rs) /\
                exists r0, head (records_of key is_hist rs) = Some r0 /\ dh_buckets h = Float64s (dr_Buckets r0)
    | None => values key is_hist rs = []
    end;
}.

Lemma values_snoc key kind rs r :
  values key kind (rs ++ [r]) = values key kind rs ++ (if kind r && of_key key r then [dr_Value r] else []).
Proof.
  unfold values, records_of. rewrite List.filter_app, map_app. cbn [List.filter]. by destruct (kind r && of_key key r).
Qed.

Lemma records_snoc key kind rs r :
  records_of key kind (rs ++ [r]) = records_of key kind rs ++ (if kind r && of_key key r then [r] else []).
Proof. unfold records_of. rewrite List.filter_app. cbn [List.filter]. by destruct (kind r && of_key key r). Qed.

Lemma of_key_self r : of_key (newDerivedMetricKey Sum64 r) r = true.
Proof. by apply bool_decide_eq_true. Qed.

Lemma of_key_other r key : key <> newDerivedMetricKey Sum64 r -> of_key key r = false.
Proof. intros N. apply bool_decide_eq_false. congruence. Qed.

Lemma add_record_rep r b rs : bucket_rep b rs -> bucket_rep (add_record Sum64 r b) (rs ++ [r]).
Proof.
  intros [Sm Hs]. unfold add_record. set (key := newDerivedMetricKey Sum64 r).
  assert (forall l (v : spec_float), l ++ [v] <> []) as Ne by (intros l v [_ ?]%app_eq_nil; done).
  destruct (dr_Kind r =? KindHistogram)%string eqn:K.
  - assert (is_hist r = true /\ is_sum r = false) as [Kh Ks] by (unfold is_sum, is_hist; by rewrite K).
    constructor; cbn [sums hist]; intros k; rewrite values_snoc, ?records_snoc, ?Kh, ?Ks; cbn [andb].
    + rewrite app_nil_r. apply Sm.
    + destruct (decide (k = key)) as [->|N].
      * rewrite lookup_insert_eq, (of_key_self r : of_key key r = true). specialize (Hs key).
        destruct (hist b !! key) as [h|].
        { destruct Hs as (Ho & r0 & H0 & Hb). split; [by apply observe_observed|]. exists r0. split; [|done].
          by destruct (records_of key is_hist rs). }
        unfold values in *. apply map_eq_nil in Hs. rewrite Hs. split; [apply (observe_observed _ _ []), new_observed|by exists r].
      * rewrite lookup_insert_ne, (of_key_other r k N), !app_nil_r by done. apply Hs.
  - destruct ((dr_Kind r =? "")%string || (dr_Kind r =? KindSum)%string) eqn:K2.
    + assert (is_hist r = false /\ is_sum r = true) as [Kh Ks] by (unfold is_sum, is_hist; by rewrite K, K2).
      constructor; cbn [sums hist]; intros k; rewrite values_snoc, ?records_snoc, ?Kh, ?Ks; cbn [andb].
      * destruct (decide (k = key)) as [->|N].
        { rewrite lookup_insert_eq, (of_key_self r : of_key key r = true). specialize (Sm key). split; [apply Ne|].
          rewrite fold_left_app. cbn [fold_left add_sum dv_sum]. f_equal.
          destruct (sums b !! key) as [x|]; [apply Sm|]. by rewrite Sm. }
        rewrite lookup_insert_ne, (of_key_other r k N), app_nil_r by done. apply Sm.
      * rewrite !app_nil_r. apply Hs.
    + assert (is_hist r = false /\ is_sum r = false) as [Kh Ks] by (unfold is_sum, is_hist; by rewrite K, K2).
      constructor; intros k; rewrite values_snoc, ?records_snoc, ?Kh, ?Ks; cbn [andb]; rewrite !app_nil_r; [apply Sm | apply Hs].
Qed.

Definition in_window (window now exp : Z) (r : DerivedMetricRecord) : bool := record_exp window now r =? exp.

Lemma collect_window now c r : dc_window (collect Sum64 now c r) = dc_window c.
Proof. done. Qed.

(** The collector holds, per window end, the records [rs exp]. *)
Definition collector_rep (c : DerivedMetricCollector) (rs : Z -> list DerivedMetricRecord) : Prop :=
  forall exp, bucket_rep (default empty_bucket (dc_buckets c !! exp)) (rs exp).

Lemma new_collector_rep w : collector_rep (NewDerivedMetricCollector w) (fun _ => []).
Proof.
  intros exp. unfold NewDerivedMetricCollector. cbn [dc_buckets]. rewrite lookup_empty. cbn.
  constructor; intros k; cbn; by rewrite lookup_empty.
Qed.

Lemma collector_adds (now : Z) (records : list DerivedMetricRecord) (c : DerivedMetricCollector)
    (rs : Z -> list DerivedMetricRecord) :
  collector_rep c rs ->
  collector_rep (Collector_Add Sum64 now records c)
    (fun exp => rs exp ++ List.filter (in_window (dc_window c) now exp) records).
Proof.
  unfold Collector_Add. revert c rs. induction records as [|r records IH]; intros c rs R; cbn [fold_left].
  { intros exp. cbn. rewrite app_nil_r. apply R. }
  specialize (IH (collect Sum64 now c r) (fun exp => rs exp ++ if in_window (dc_window c) now exp r then [r] else [])).
  intros exp. cbn [List.filter].
  assert (rs exp ++ (if in_window (dc_window c) now exp r then r :: List.filter (in_window (dc_window c) now exp) records
                     else List.filter (in_window (dc_window c) now exp) records)
          = (rs exp ++ if in_window (dc_window c) now exp r then [r] else []) ++
            List.filter (in_window (dc_window c) now exp) records) as ->.
  { destruct (in_window _ _ exp r); [by rewrite <- app_assoc | by rewrite app_nil_r]. }
  apply IH. clear IH exp. intros exp. unfold collect. cbn [dc_buckets]. unfold in_window.
  destruct (Z.eqb_spec (record_exp (dc_window c) now r) exp) as [<-|N].
  - rewrite lookup_insert_eq. cbn. apply add_record_rep, R.
  - rewrite lookup_insert_ne, app_nil_r by done. apply R.
Qed.

(** C35: a record goes to the bucket of its own window only, which for windows of whole
    seconds ends at the first multiple of the window, counted from the year 1, that is not
    before the record (or the present, when it has no time); there the sum under a key
    is the sum, in order, of the values of the records with that key; the histogram under
    a key has the sorted bounds of the first of its records, and one observation per record,
    each in the first bucket whose bound is not below the value, or after the last bound; a
    key without records has no value. *)
Theorem collector_accounts (now : Z) (records : list DerivedMetricRecord) (c : DerivedMetricCollector)
    (rs : Z -> list DerivedMetricRecord) :
  collector_rep c rs ->
  collector_rep (Collector_Add Sum64 now records c)
    (fun exp => rs exp ++ List.filter (in_window (dc_window c) now exp) records) /\
  (0 < dc_window c -> dc_window c mod second = 0 -> forall exp r, in_window (dc_window c) now exp r = true ->
     let t := default now (dr_Time r) in
     t <= exp * second < t + dc_window c /\ (exp * second + unixToInternal * second) mod dc_window c = 0).
Proof.
  intros R. split; [by apply collector_adds|]. intros Hd Hs exp r Hw. apply Z.eqb_eq in Hw as <-.
  by apply align_next_boundary.
Qed.
End Collect.

(** ** Flushing *)

Lemma group_tokens pts m token :
  default [] (fold_left group_by_token pts m !! token)
  = default [] (m !! token) ++ map snd (List.filter (fun e => (fst e =? token)%string) pts).
Proof.
  revert m. induction pts as [|[t p] pts IH]; intros m; cbn [fold_left List.filter map fst snd]; [by rewrite app_nil_r|].
  rewrite IH. unfold group_by_token at 1. cbn [fst snd]. destruct (String.eqb_spec t token) as [->|N].
  - rewrite lookup_insert_eq. cbn. by rewrite <- app_assoc.
  - by rewrite lookup_insert_ne.
Qed.

Lemma delete_all {A} (l : list (Z * A)) (m : gmap Z A) k :
  fold_left (fun m e => delete (fst e) m) l m !! k = if decide (k ∈ l.*1) then None else m !! k.
Proof.
  revert m. induction l as [|[t x] l IH]; intros m; cbn [fold_left fst]; [by rewrite decide_False by apply not_elem_of_nil|].
  rewrite IH. destruct (decide (k = t)) as [->|N].
  - rewrite lookup_delete_eq. rewrite (decide_True (P := t ∈ ((t, x) :: l).*1)) by (cbn; by left). by destruct (decide _).
  - rewrite lookup_delete_ne by done. apply decide_ext. cbn. rewrite elem_of_cons. tauto.
Qed.

Section Flushing.
Context {arrays : ArrayEnc} (sort : PointKV.KVs -> PointKV.KVs) (now : Z) (pooled : option cfg).
Context (trimFloat : spec_float -> string).
Context (order : list (Z * derivedMetricBucket) -> list (Z * derivedMetricBucket)).
Context (sum_order : list (derivedMetricKey * derivedMetricValue) -> list (derivedMetricKey * derivedMetricValue)).
Context (hist_order : list (derivedMetricKey * derivedHistogramValue) -> list (derivedMetricKey * derivedHistogramValue)).

(** The points of a bucket, in the order of its maps. *)
Definition bucket_out (e : Z * derivedMetricBucket) : list (string * Res panic Point) :=
  flush_bucket sort now pooled trimFloat (fst e) (map_to_list (sums (snd e))) (map_to_list (hist (snd e))).

(** What is due at a second, over all buckets. *)
Definition due_out (nowUnix : Z) (m : gmap Z derivedMetricBucket) : list (string * Res panic Point) :=
  flat_map bucket_out (List.filter (fun e => fst e <=? nowUnix) (map_to_list m)).

Lemma flush_bucket_perm exp s s' h h' : s ≡ₚ s' -> h ≡ₚ h' ->
  flush_bucket sort now pooled trimFloat exp s h ≡ₚ flush_bucket sort now pooled trimFloat exp s' h'.
Proof.
  intros Hs Hh. unfold flush_bucket. by rewrite (Permutation_map _ Hs), (Permutation_flat_map _ Hh).
Qed.

Lemma filter_perm {A} (f : A -> bool) l l' : l ≡ₚ l' -> List.filter f l ≡ₚ List.filter f l'.
Proof.
  induction 1 as [|x l l' _ IH|x y l|l1 l2 l3 _ IH1 _ IH2]; cbn; [done| | |by rewrite IH1].
  - destruct (f x); [by constructor|done].
  - destruct (f x), (f y); try done. apply perm_swap.
Qed.

Lemma flat_map_perm {A B} (f g : A -> list B) l : (forall x, f x ≡ₚ g x) -> flat_map f l ≡ₚ flat_map g l.
Proof. intros H. induction l as [|x l IH]; [done|]. cbn. by rewrite H, IH. Qed.

(** A flush hands every token exactly the points of its values in the buckets that
    are due, whatever the order of the iterations, and keeps exactly the other buckets,
    unchanged. *)
Theorem flush_delivers (nowUnix : Z) (c c' : DerivedMetricCollector) (m : gmap string (list (Res panic Point))) :
  (forall l, order l ≡ₚ l) -> (forall l, sum_order l ≡ₚ l) -> (forall l, hist_order l ≡ₚ l) ->
  Flush sort now pooled trimFloat order sum_order hist_order nowUnix c = (m, c') ->
  (forall token, default [] (m !! token)
     ≡ₚ map snd (List.filter (fun e => (fst e =? token)%string) (due_out nowUnix (dc_buckets c)))) /\
  (forall exp, dc_buckets c' !! exp = if exp <=? nowUnix then None else dc_buckets c !! exp).
Proof.
  intros O1 O2 O3 E. unfold Flush in E. injection E as <- <-.
  set (due := List.filter _ (order _)).
  assert (due ≡ₚ List.filter (fun e => fst e <=? nowUnix) (map_to_list (dc_buckets c))) as P
    by (apply filter_perm, O1).
  split.
  - intros token. rewrite group_tokens, lookup_empty. cbn [default from_option app].
    apply Permutation_map, filter_perm. unfold due_out. rewrite <- (Permutation_flat_map bucket_out P).
    apply flat_map_perm. intros [exp b]. apply flush_bucket_perm; [apply O2 | apply O3].
  - intros exp. cbn [dc_buckets]. rewrite delete_all.
    assert (exp ∈ due.*1 <-> exp <= nowUnix /\ dc_buckets c !! exp <> None) as M.
    { rewrite P, list_elem_of_fmap. split.
      - intros ([t b] & -> & Hin). apply list_elem_of_In, filter_In in Hin as [Hin Hle].
        apply list_elem_of_In, elem_of_map_to_list in Hin. cbn in *. apply Z.leb_le in Hle. by rewrite Hin.
      - intros [Hle Hb]. destruct (dc_buckets c !! exp) as [b|] eqn:L; [|done]. exists (exp, b). split; [done|].
        apply list_elem_of_In, filter_In. split; [by apply list_elem_of_In, elem_of_map_to_list|]. by apply Z.leb_le. }
    destruct (decide (exp ∈ due.*1)) as [Hin|Hn].
    + apply M in Hin as [Hle _]. by rewrite (proj2 (Z.leb_le _ _) Hle).
    + destruct (Z.leb_spec exp nowUnix); [|done]. destruct (dc_buckets c !! exp) eqn:L; [|done].
      exfalso. apply Hn, M. by split.
Qed.
End Flushing.

(** ** Built-in metrics *)

Definition type_prefix (dataType : string) : option string :=
  if (dataType =? STracing)%string then Some "trace"%string
  else if (dataType =? SLogging)%string then Some "logging"%string
  else if (dataType =? SRUM)%string then Some "rum"%string
  else None.

(** A decision on a packet of one of the three data types yields exactly one record,
    of value one, named after the type and the decision; a packet of another type yields
    none. *)
Theorem decision_counted_once (now : Z) (p : DataPacket) (kept : bool) :
  let d := if kept then DecisionKept else DecisionDropped in
  flat_map (OnDecision now p d) DefaultTailSamplingBuiltinMetrics
  = match type_prefix (DataType p) with
    | Some t => [newDerivedMetricRecord now p (t ++ "_" ++ d ++ "_count")%string StageDecision d fone]
    | None => []
    end.
Proof.
  cbn zeta. unfold type_prefix, DefaultTailSamplingBuiltinMetrics.
  cbn [flat_map OnDecision app]. unfold decided.
  destruct (String.eqb_spec (DataType p) STracing) as [E1|N1]; [rewrite ?E1; by destruct kept|].
  destruct (String.eqb_spec (DataType p) SLogging) as [E2|N2]; [rewrite ?E2; by destruct kept|].
  destruct (String.eqb_spec (DataType p) SRUM) as [E3|N3]; [rewrite ?E3; by destruct kept|].
  done.
Qed.

(** ** The processor *)

Section Proc.
Context {D : Type} {spiller : PayloadSpiller D}.
Context (EncodeAll : bytes -> bytes) (DecodeAll : bytes -> option bytes) (Sum64 : string -> Z).
Context (re_match : string -> string -> bool) (pb_Unmarshal : bytes -> option PointKV.KVs).

Lemma record_sampler now p rs (r : TailSamplingProcessor (D := D)) :
  p_sampler (record Sum64 now p rs r) = p_sampler r /\ p_metrics (record Sum64 now p rs r) = p_metrics r.
Proof. done. Qed.

(** Metrics do not influence sampling: the outcomes and the sampler are those of the
    sampler alone. *)
Theorem metrics_do_not_interfere (now : Z) (order pre : list Z) (groups : gmap Z DataGroup)
    (post : list (Z * Res panic TailSamplingOutcome) -> list (Z * Res panic TailSamplingOutcome))
    (r : TailSamplingProcessor (D := D)) :
  let s := p_sampler r in
  let '(outcomes, d) := TailSamplingOutcomes DecodeAll re_match pb_Unmarshal (configMap s) (spillThreshold s) order groups (disk s) in
  let '(outcomes', r') := Processor_Outcomes DecodeAll Sum64 re_match pb_Unmarshal now order pre groups post r in
  outcomes' = outcomes /\ p_sampler r' = mkSampler (shards s) (configMap s) (spillThreshold s) d /\
  p_metrics r' = p_metrics r.
Proof.
  cbn zeta. unfold Processor_Outcomes. set (r1 := fold_left _ pre r).
  assert (p_sampler r1 = p_sampler r /\ p_metrics r1 = p_metrics r) as [-> M].
  { unfold r1. clear. revert r. induction pre as [|k pre IH]; intros r; [done|]. cbn [fold_left].
    destruct (IH (match groups !! k with
                  | Some dg => record Sum64 now (g_packet (group dg)) (flat_map (OnPreDecision now (g_packet (group dg))) (p_metrics r)) r
                  | None => r end)) as [E1 E2]. rewrite E1, E2. by destruct (groups !! k). }
  destruct (TailSamplingOutcomes _ _ _ _ _ _ _ _) as [outcomes d]. split; [done|].
  assert (forall (l : list (Z * Res panic TailSamplingOutcome)) (q : TailSamplingProcessor (D := D)),
    let q' := fold_left (fun r e => match snd e with
                                    | Ok o => RecordDecision Sum64 now (o_SourcePacket o) (decision_of o) r
                                    | Err _ => r end) l q in
    p_sampler q' = p_sampler q /\ p_metrics q' = p_metrics q) as K.
  { induction l as [|e l IH]; intros q; [done|]. cbn [fold_left].
    destruct (IH (match snd e with
                  | Ok o => RecordDecision Sum64 now (o_SourcePacket o) (decision_of o) q | Err _ => q end)) as [E1 E2].
    cbn zeta in *. rewrite E1, E2. by destruct (snd e). }
  destruct (K (post outcomes) (mkProcessor (mkSampler (shards (p_sampler r)) (configMap (p_sampler r))
    (spillThreshold (p_sampler r)) d) (p_collector r1) (p_metrics r1))) as [-> ->]. done.
Qed.
End Proc.

(** ** Witnesses *)

Definition demo_packet : DataPacket :=
  mkPacket 1 "t" "tkn" "src" STracing 0 false "" 3 0 (5 * second) [] (5 * second) 0 zero_preds.

Definition demo_records : list DerivedMetricRecord :=
  flat_map (OnDecision 0 demo_packet DecisionKept) DefaultTailSamplingBuiltinMetrics ++
  flat_map (OnPreDecision 0 demo_packet) DefaultTailSamplingBuiltinMetrics.

Definition demo_collector : DerivedMetricCollector :=
  Collector_Add (fun s => fnv64a (to_bytes s)) 0 demo_records (NewDerivedMetricCollector 0).

Lemma collector_accounts_witness :
  collector_rep (fun s => fnv64a (to_bytes s)) demo_collector
    (fun exp => [] ++ List.filter (in_window (30 * second) 0 exp) demo_records).
Proof.
  exact (proj1 (collector_accounts (fun s => fnv64a (to_bytes s)) 0 demo_records (NewDerivedMetricCollector 0) (fun _ => [])
           (new_collector_rep _ 0))).
Defined.

(** The window of the packet ends at second 30: a kept trace, and its duration in the
    last of eleven buckets with a sum and a count. *)
Example demo_flush :
  let '(m, c) := Flush id 0 None (fun _ => "b"%string) id id id 30 demo_collector in
  map (fun e => (fst e, length (snd e))) (map_to_list m) = [("tkn"%string, 14%nat)] /\
  map_to_list (dc_buckets c) = [].
Proof. vm_compute. done. Qed.

Lemma flush_delivers_witness :
  let '(m, c') := Flush id 0 None (fun _ => "b"%string) id id id 30 demo_collector in
  (forall token, default [] (m !! token)
     ≡ₚ map snd (List.filter (fun e => (fst e =? token)%string)
                   (due_out id 0 None (fun _ => "b"%string) 30 (dc_buckets demo_collector)))) /\
  (forall exp, dc_buckets c' !! exp = if exp <=? 30 then None else dc_buckets demo_collector !! exp).
Proof.
  destruct (Flush id 0 None (fun _ => "b"%string) id id id 30 demo_collector) as [m c'] eqn:E.
  apply (flush_delivers id 0 None (fun _ => "b"%string) id id id 30 demo_collector c' m); done.
Defined.
