(* ===== verification/GoStrconv.v ===== *)
(** * Number texts: [strconv.ParseInt(s, 0, 64)] and [strconv.ParseFloat(s, 64)]

    The parser of conditions reads the text of a NUMBER token first as an integer in the
    base of its prefix, then as a float.  [None] stands for the error of an integer.  A
    float is the nearest float64 of the text, ties to even, which is what [strconv]
    documents. *)

From S2P Require Import Prelude FilterLex.
From Stdlib Require Import Ascii.
From Stdlib Require Export SpecFloat.

(** [lower] of [strconv/atoi.go] sets the letter-case bit. *)
Definition lower_bit (c : Z) : Z := Z.lor c 32.

Definition is_char (c x : Z) : bool := lower_bit c =? x.

(** ** Underscores between digits *)

Inductive saw : Set := SawBegin | SawDigit | SawUnderscore | SawOther.

Fixpoint underscore_loop (hex : bool) (seen : saw) (s : list Z) : bool :=
  match s with
  | [] => match seen with SawUnderscore => false | _ => true end
  | c :: s' =>
      if isDigit c || (hex && in_range (ch "a") (ch "f") (lower_bit c))
      then underscore_loop hex SawDigit s'
      else if c =? ch "_" then
        match seen with SawDigit => underscore_loop hex SawUnderscore s' | _ => false end
      else
        match seen with SawUnderscore => false | _ => underscore_loop hex SawOther s' end
  end.

Definition drop_sign (s : list Z) : bool * list Z :=
  match s with
  | c :: s' => if c =? ch "-" then (true, s') else if c =? ch "+" then (false, s') else (false, s)
  | [] => (false, s)
  end.

Definition underscoreOK (s : list Z) : bool :=
  let s := snd (drop_sign s) in
  match s with
  | z :: x :: s' =>
      if (z =? ch "0") && (is_char x (ch "b") || is_char x (ch "o") || is_char x (ch "x"))
      then underscore_loop (is_char x (ch "x")) SawDigit s'
      else underscore_loop false SawBegin s
  | _ => underscore_loop false SawBegin s
  end.

(** ** Integers *)

(** The value of a digit or letter. *)
Definition digit_of (c : Z) : option Z :=
  if isDigit c then Some (c - ch "0")
  else if in_range (ch "a") (ch "z") (lower_bit c) then Some (lower_bit c - ch "a" + 10)
  else None.

Fixpoint uint_loop (base : Z) (s : list Z) (n : Z) : option Z :=
  match s with
  | [] => Some n
  | c :: s' =>
      if c =? ch "_" then uint_loop base s' n
      else
        d ← digit_of c;
        if base <=? d then None
        else if 2 ^ 64 <=? n * base + d then None
        else uint_loop base s' (n * base + d)
  end.

(** The base of a prefix, and what follows it. *)
Definition base_prefix (s : list Z) : Z * list Z :=
  match s with
  | z :: s1 =>
      if z =? ch "0" then
        match s1 with
        | x :: ((_ :: _) as rest) =>
            if is_char x (ch "b") then (2, rest)
            else if is_char x (ch "o") then (8, rest)
            else if is_char x (ch "x") then (16, rest)
            else (8, s1)
        | _ => (8, s1)
        end
      else (10, s)
  | [] => (10, s)
  end.

Definition ParseUint0 (s : list Z) : option Z :=
  match s with
  | [] => None
  | _ =>
      let '(base, ds) := base_prefix s in
      n ← uint_loop base ds 0;
      if existsb (Z.eqb (ch "_")) s && negb (underscoreOK s) then None else Some n
  end.

Definition ParseInt0 (v : bytes) : option Z :=
  let s := map bz v in
  match s with
  | [] => None
  | _ =>
      let '(neg, us) := drop_sign s in
      un ← ParseUint0 us;
      if (negb neg && (2 ^ 63 <=? un)) || (neg && (2 ^ 63 <? un)) then None
      else Some (if neg then - un else un)
  end.

(** ** Floats *)

(** Digits and at most one point: the digits as a number, how many of them there are,
    how many follow the point, and the rest. *)
Fixpoint mantissa_loop (hex dot : bool) (s : list Z) (m : Z) (nd frac : nat) : Z * nat * nat * list Z :=
  match s with
  | [] => (m, nd, frac, s)
  | c :: s' =>
      let base := if hex then 16 else 10 in
      let digit d := mantissa_loop hex dot s' (m * base + d) (S nd) (if dot then S frac else frac) in
      if c =? ch "_" then mantissa_loop hex dot s' m nd frac
      else if c =? ch "." then if dot then (m, nd, frac, s) else mantissa_loop hex true s' m nd frac
      else if isDigit c then digit (c - ch "0")
      else if hex && in_range (ch "a") (ch "f") (lower_bit c) then digit (lower_bit c - ch "a" + 10)
      else (m, nd, frac, s)
  end.

(** Exponents from 10000 on take no further digits. *)
Fixpoint exponent_loop (s : list Z) (e : Z) : Z * list Z :=
  match s with
  | c :: s' =>
      if c =? ch "_" then exponent_loop s' e
      else if isDigit c then exponent_loop s' (if e <? 10000 then e * 10 + (c - ch "0") else e)
      else (e, s)
  | [] => (e, s)
  end.

Definition exponent (s : list Z) : option (Z * list Z) :=
  let '(neg, ds) := drop_sign s in
  match ds with
  | d :: _ =>
      if isDigit d then
        let '(e, rest) := exponent_loop ds 0 in Some (if neg then - e else e, rest)
      else None
  | [] => None
  end.

(** The float64 nearest to [m * 10 ^ e]. *)
Definition round_decimal (m e : Z) : spec_float :=
  match m with
  | Z.pos p =>
      if 0 <=? e then binary_normalize 53 1024 (m * 10 ^ e) 0 false
      else SFdiv 53 1024 (S754_finite false p 0) (S754_finite false (Z.to_pos (10 ^ (- e))) 0)
  | _ => S754_zero false
  end.

Definition round_binary (m e : Z) : spec_float := binary_normalize 53 1024 m e false.

(** [readFloat] and the conversion; [s] has no sign. *)
Definition readFloat (s : list Z) : option spec_float :=
  let hex := match s with
             | z :: x :: _ :: _ => (z =? ch "0") && is_char x (ch "x")
             | _ => false
             end in
  let '(m, nd, frac, rest) := mantissa_loop hex false (if hex then drop 2 s else s) 0 0 0 in
  if (nd =? 0)%nat then None
  else
    let fr := Z.of_nat frac in
    let value e := if hex then round_binary m (e - 4 * fr) else round_decimal m (e - fr) in
    match rest with
    | [] => if hex then None else Some (value 0)
    | c :: s' =>
        if is_char c (if hex then ch "p" else ch "e") then
          '(e, rest') ← exponent s';
          match rest' with [] => Some (value e) | _ => None end
        else None
    end.

Definition eq_fold (s : list Z) (t : string) : bool :=
  bool_decide (map lower_bit s = map bz (to_bytes t)).

(** [special]: infinities and not-a-number, in any letter case. *)
Definition special_float (neg signed : bool) (s : list Z) : option spec_float :=
  if eq_fold s "inf" || eq_fold s "infinity" then Some (S754_infinity neg)
  else if negb signed && eq_fold s "nan" then Some S754_nan
  else None.

(** The float, and whether there is no error: a text that is no number gives 0, and one
    beyond the largest float64 an infinity. *)
Definition ParseFloat (v : bytes) : spec_float * bool :=
  let s := map bz v in
  let '(neg, us) := drop_sign s in
  let signed (f : spec_float) := if (neg : bool) then SFopp f else f in
  match special_float neg (negb (bool_decide (us = s))) us with
  | Some f => (f, true)
  | None =>
      match readFloat us with
      | None => (S754_zero false, false)
      | Some f =>
          if existsb (Z.eqb (ch "_")) s && negb (underscoreOK s) then (S754_zero false, false)
          else (signed f, match f with S754_infinity _ => false | _ => true end)
      end
  end.
