(* ===== verification/FilterParser.v ===== *)
(** * Filter conditions: the texts of syntax trees ([src/filter/ast.go], [lex.go])

    The [String] methods of the nodes that the parser builds.  [None] is a run-time panic:
    a nil interface or a nil pointer among the children.  Two inputs are parameters:
    [toLower] is [strings.ToLower] on any text, and [not_in] is the text of the operator
    NOT_IN, which two keywords have, so that the iteration order of the keyword map picks
    one of them when the program starts. *)

From S2P Require Import Prelude GoNum FilterAst FilterLex GoStrconv.

(** [strings.Join(arr, sep)]. *)
Definition Join : string -> list string -> string := String.concat.

(** The verb [%f]: six digits after the point, the exact value rounded to nearest even. *)
Definition pad6 (s : string) : string :=
  String.append (String.concat "" (repeat "0" (6 - String.length s))) s.

Definition fmt_f (f : spec_float) : string :=
  let signed (neg : bool) (s : string) := if neg then "-" +:+ s else s in
  match f with
  | S754_zero neg => signed neg "0.000000"
  | S754_infinity neg => if neg then "-Inf" else "+Inf"
  | S754_nan => "NaN"
  | S754_finite neg m e =>
      let n := round_int (m * 1000000) e in
      signed neg (FormatUint 10 (n / 1000000) +:+ "." +:+ pad6 (FormatUint 10 (n mod 1000000)))
  end.

(** ** Operators ([ItemTypeStr], with the keywords that [init] adds) *)

Section print.
Context (toLower : string -> string) (not_in : string).

Definition ItemTypeStr (t : ItemType) : option string :=
  match t with
  | LEFT_PAREN => Some "(" | RIGHT_PAREN => Some ")"
  | LEFT_BRACE => Some "{" | RIGHT_BRACE => Some "}"
  | LEFT_BRACKET => Some "[" | RIGHT_BRACKET => Some "]"
  | COMMA => Some "," | EQ => Some "=" | COLON => Some ":" | SEMICOLON => Some ";"
  | SPACE => Some "<space>" | DOT => Some "." | NAMESPACE => Some "::"
  | SUB => Some "-" | ADD => Some "+" | MUL => Some "*" | MOD => Some "%" | DIV => Some "/"
  | NEQ => Some "!=" | LTE => Some "<=" | LT => Some "<" | GTE => Some ">=" | GT => Some ">"
  | POW => Some "^"
  | NOT_IN => Some not_in
  | NUMBER => None
  | _ => option_map fst (List.find (fun kv => bool_decide (snd kv = t)) keywords)
  end.

(** The number that the grammar gives a token. *)
Definition item_code (t : ItemType) : Z :=
  match t with
  | EQ => 57346 | COLON => 57347 | SEMICOLON => 57348 | COMMA => 57349 | COMMENT => 57350
  | DURATION => 57351 | EOF => 57352 | ERROR => 57353 | ID => 57354 | LEFT_BRACE => 57355
  | LEFT_BRACKET => 57356 | LEFT_PAREN => 57357 | NUMBER => 57358 | RIGHT_BRACE => 57359
  | RIGHT_BRACKET => 57360 | RIGHT_PAREN => 57361 | SPACE => 57362 | STRING => 57363
  | QUOTED_STRING => 57364 | NAMESPACE => 57365 | DOT => 57366
  | ADD => 57368 | DIV => 57369 | GTE => 57370 | GT => 57371 | LT => 57372 | LTE => 57373
  | MOD => 57374 | MUL => 57375 | NEQ => 57376 | POW => 57377 | SUB => 57378
  | AS => 57381 | ASC => 57382 | AUTO => 57383 | BY => 57384 | MATCH => 57385
  | NOT_MATCH => 57386 | DESC => 57387 | TRUE => 57388 | FALSE => 57389 | FILTER => 57390
  | IDENTIFIER => 57391 | IN => 57392 | NOT_IN => 57393 | AND => 57394 | LINK => 57395
  | LIMIT => 57396 | SLIMIT => 57397 | OR => 57398 | NIL => 57399 | NULL => 57400
  | OFFSET => 57401 | SOFFSET => 57402 | ORDER => 57403 | RE => 57404 | INT => 57405
  | FLOAT => 57406 | POINT => 57407 | TIMEZONE => 57408 | WITH => 57409
  end.

Definition IsOperator (t : ItemType) : bool := (57367 <? item_code t) && (item_code t <? 57379).

Definition IsKeyword (t : ItemType) : bool := (57380 <? item_code t) && (item_code t <? 57410).

Definition ItemType_String (t : ItemType) : string :=
  match ItemTypeStr t with
  | Some s => s
  | None => "<Item " +:+ FormatInt (item_code t) +:+ ">"
  end.

(** ** Nodes *)

(** The elements of a MATCH list as texts; another node is logged, with its text. *)
Definition match_elem (str : Node -> option string) (n : Node) : option (list string) :=
  match n with
  | Regex re => Some ["'" +:+ re +:+ "'"]
  | NilRegex => None
  | _ => _ ← str n; Some []
  end.

Definition strings (str : Node -> option string) : list Node -> option (list string) :=
  fix go (l : list Node) : option (list string) :=
    match l with
    | [] => Some []
    | n :: l' => s ← str n; rest ← go l'; Some (s :: rest)
    end.

Definition match_strings (str : Node -> option string) : list Node -> option (list string) :=
  fix go (l : list Node) : option (list string) :=
    match l with
    | [] => Some []
    | n :: l' => s ← match_elem str n; rest ← go l'; Some (s ++ rest)
    end.

Definition bracketed (l : list string) : string := "[" +:+ Join ", " l +:+ "]".

Fixpoint Node_String (n : Node) : option string :=
  let opt (o : option Node) : option string := match o with Some m => Node_String m | None => None end in
  match n with
  | Identifier name => Some name
  | StringLiteral v => Some ("'" +:+ v +:+ "'")
  | NumberInt i => Some (FormatInt i)
  | NumberFloat f => Some (fmt_f f)
  | BoolLiteral b => Some (if b then "true" else "false")
  | NilLiteral => Some "nil"
  | Regex re => Some ("re('" +:+ re +:+ "')")
  | NodeList l => option_map bracketed (strings Node_String l)
  | BinaryExpr op lhs rhs =>
      let text (r : option string) : option string :=
        a ← opt lhs; b ← r; Some (a +:+ " " +:+ ItemType_String op +:+ " " +:+ b) in
      match op with
      | MATCH | NOT_MATCH =>
          match rhs with
          | Some (NodeList l) => text (option_map bracketed (match_strings Node_String l))
          | _ => None
          end
      | _ => text (opt rhs)
      end
  | ParenExpr p => s ← opt p; Some ("(" +:+ s +:+ ")")
  | AttrExpr obj attr => a ← Node_String obj; b ← Node_String attr; Some (a +:+ "." +:+ b)
  | Star => Some "*"
  | FuncExpr name params => l ← strings Node_String params; Some (toLower name +:+ "(" +:+ Join ", " l +:+ ")")
  | CascadeFunctions fs => option_map (Join ".") (strings Node_String fs)
  | FuncArg name v =>
      match v with Some m => s ← Node_String m; Some (name +:+ "=" +:+ s) | None => Some name end
  | FuncArgList l => option_map bracketed (strings Node_String l)
  | WhereCondition l => l ← strings Node_String l; Some ("{" +:+ Join " and " l +:+ "}")
  | NilRegex | NilBinaryExpr => None
  end.

(** [WhereConditions.String]: nil conditions are left out. *)
Definition WhereConditions_String (l : list (option Node)) : option string :=
  option_map (Join "; ") (strings Node_String (omap id l)).
End print.

(** * Filter conditions: the parser's state and its helpers ([src/filter/parse.go])

    [parser] is what the generated automaton drives: the lexer, the value stack and the
    lookahead of the automaton, the result, and the errors and warnings found so far.  A
    parser comes from a pool, so every field that [newParser] does not reset holds what an
    earlier text left there.  Code outside the repository is a parameter: [Unquote] is
    [strutil.Unquote] of Prometheus, [re_valid] says whether [regexp.Compile] accepts a
    pattern. *)

(** ** Values of grammar symbols ([yySymType]) *)

(** An [Item] on the stack; its zero value has no type. *)
Record yyItem := mkYyItem {
  iTyp : option ItemType;
  iPos : nat;
  iVal : bytes
}.

Definition of_item (i : Item) : yyItem := mkYyItem (Some (Typ i)) (Pos i) (Val i).

(** The field [node]: nil, a tree, or a list of conditions, which may hold nil. *)
Inductive symNode : Set :=
| SNil
| SNode (n : Node)
| SConds (l : list (option Node)).

(** The fields that the actions use. *)
Record yySymType := mkSym {
  yys : Z;
  node : symNode;
  nodes : list Node;
  sitem : yyItem
}.

Definition zero_item : yyItem := mkYyItem None 0 [].
Definition zero_sym : yySymType := mkSym 0 SNil [] zero_item.

Definition set_yys (s : Z) (v : yySymType) : yySymType := mkSym s (node v) (nodes v) (sitem v).
Definition set_node (n : symNode) (v : yySymType) : yySymType := mkSym (yys v) n (nodes v) (sitem v).
Definition set_nodes (l : list Node) (v : yySymType) : yySymType := mkSym (yys v) (node v) l (sitem v).
Definition set_sitem (i : yyItem) (v : yySymType) : yySymType := mkSym (yys v) (node v) (nodes v) i.
Definition set_sval (t : bytes) (v : yySymType) : yySymType :=
  set_sitem (mkYyItem (iTyp (sitem v)) (iPos (sitem v)) t) v.

(** ** Errors *)

Record PositionRange := mkRange { Start : nat; End : nat }.

Definition item_range (i : yyItem) : PositionRange := mkRange (iPos i) (iPos i + length (iVal i)).

(** What an error reports. *)
Inductive parseMsg : Type :=
| MsgLex (text : bytes)                    (* an error item of the lexer *)
| MsgUnexpected (i : yyItem)               (* unexpected: ... *)
| MsgUnquote (s : bytes)                   (* error unquoting string *)
| MsgNumber (v : bytes)                    (* error parsing number *)
| MsgDivZero                               (* division or modulo by zero *)
| MsgRegex (s : string)                    (* invalid regex, ignored: a warning *)
| MsgListElem (n : Node)                   (* invalid element type in a MATCH list *)
| MsgListType (l : option Node).           (* not a list after MATCH *)

Record ParseError := mkParseError {
  pePos : PositionRange;
  peErr : parseMsg;
  peQuery : bytes
}.

(** ** The parser *)

Record parser := mkParser {
  plex : Lexer;
  lexState : option stateFn;      (* the field [state] of the lexer *)
  lval : yySymType;               (* [yyParser.lval] *)
  stack : list yySymType;         (* [yyParser.stack], 16 entries *)
  char : Z;                       (* [yyParser.char] *)
  parseResult : symNode;
  lastClosing : nat;
  errs : list ParseError;
  warns : list ParseError;
  inject : Z;
  injecting : bool
}.

Definition set_lexing (l : Lexer) (s : option stateFn) (i : yyItem) (p : parser) : parser :=
  mkParser l s (set_sitem i (lval p)) (stack p) (char p) (parseResult p) (lastClosing p) (errs p)
    (warns p) (inject p) (injecting p).
Definition set_char (c : Z) (p : parser) : parser :=
  mkParser (plex p) (lexState p) (lval p) (stack p) c (parseResult p) (lastClosing p) (errs p)
    (warns p) (inject p) (injecting p).
Definition set_stack (s : list yySymType) (p : parser) : parser :=
  mkParser (plex p) (lexState p) (lval p) s (char p) (parseResult p) (lastClosing p) (errs p)
    (warns p) (inject p) (injecting p).
Definition set_result (r : symNode) (p : parser) : parser :=
  mkParser (plex p) (lexState p) (lval p) (stack p) (char p) r (lastClosing p) (errs p)
    (warns p) (inject p) (injecting p).
Definition set_lastClosing (c : nat) (p : parser) : parser :=
  mkParser (plex p) (lexState p) (lval p) (stack p) (char p) (parseResult p) c (errs p)
    (warns p) (inject p) (injecting p).
Definition set_errs (e w : list ParseError) (p : parser) : parser :=
  mkParser (plex p) (lexState p) (lval p) (stack p) (char p) (parseResult p) (lastClosing p) e w
    (inject p) (injecting p).
Definition set_inject (i : Z) (b : bool) (p : parser) : parser :=
  mkParser (plex p) (lexState p) (lval p) (stack p) (char p) (parseResult p) (lastClosing p) (errs p)
    (warns p) i b.

(** [newParser]: [p] is the parser that the pool gave. *)
Definition newParser (input : bytes) (p : parser) : parser :=
  mkParser (FilterLex.Lex input) (Some lexStatements) (lval p) (stack p) (char p) SNil (lastClosing p)
    [] [] (inject p) false.

(** A parser that the pool makes. *)
Definition fresh_parser : parser :=
  mkParser (FilterLex.Lex []) None zero_sym (repeat zero_sym 16) 0 SNil 0 [] [] 0 false.

Definition addParseErr (pr : PositionRange) (m : parseMsg) (p : parser) : parser :=
  set_errs (errs p ++ [mkParseError pr m (input (plex p))]) (warns p) p.

Definition addParseWarn (pr : PositionRange) (m : parseMsg) (p : parser) : parser :=
  set_errs (errs p) (warns p ++ [mkParseError pr m (input (plex p))]) p.

(** An error at the last token. *)
Definition errHere (m : parseMsg) (p : parser) : parser :=
  addParseErr (item_range (sitem (lval p))) m p.

(** [unexpected("", "")]: an error of the lexer has been reported already. *)
Definition unexpected (p : parser) : parser :=
  match iTyp (sitem (lval p)) with
  | Some ERROR => p
  | _ => errHere (MsgUnexpected (sitem (lval p))) p
  end.

(** ** Tokens *)

(** START_WHERE_CONDITION, and the bounds of the start symbols. *)
Definition START_WHERE_CONDITION : Z := 57415.
Definition startSymbolsStart : Z := 57411.
Definition startSymbolsEnd : Z := 57416.

(** [None] is a panic: a second injection, or one of another symbol. *)
Definition InjectItem (typ : Z) (p : parser) : option parser :=
  if injecting p then None
  else if negb (typ =? 0) && ((typ <=? startSymbolsStart) || (startSymbolsEnd <=? typ)) then None
  else Some (set_inject typ true p).

(** The loop that skips comments: each round scans one item. *)
Fixpoint next_token (fuel : nat) (p : parser) : option parser :=
  match fuel with
  | O => None
  | S fuel' =>
      '(s, l) ← NextItem (lexState p) (plex p);
      let p1 := set_lexing l s (of_item (item l)) p in
      match Typ (item l) with
      | COMMENT => next_token fuel' p1
      | _ => Some p1
      end
  end.

(** The length of the text bounds the number of comments. *)
Definition comment_fuel (p : parser) : nat := S (length (input (plex p))).

(** [Lex]: the number of the next token. *)
Definition Lex (p : parser) : option (Z * parser) :=
  if injecting p then Some (inject p, set_inject (inject p) false p)
  else
    p1 ← next_token (comment_fuel p) p;
    let i := sitem (lval p1) in
    match iTyp i with
    | None => None
    | Some ERROR =>
        Some (0, addParseErr (mkRange (start (plex p1)) (length (input (plex p1)))) (MsgLex (iVal i)) p1)
    | Some EOF => p2 ← InjectItem 0 p1; Some (item_code EOF, p2)
    | Some (RIGHT_BRACE | RIGHT_PAREN | RIGHT_BRACKET | DURATION) =>
        Some (default 0 (item_code <$> iTyp i), set_lastClosing (iPos i + length (iVal i)) p1)
    | Some t => Some (item_code t, p1)
    end.

(** ** Building nodes *)

Section helpers.
Context (Unquote : bytes -> bytes * bool) (re_valid : string -> bool) (toLower : string -> string).

(** [Unquote] gives a text, and whether it succeeded. *)
Definition unquoteString (s : bytes) (p : parser) : bytes * parser :=
  let '(unq, ok) := Unquote s in
  (unq, if ok then p else errHere (MsgUnquote s) p).

(** A text that is no number gives an error, and the float that [ParseFloat] returns with
    its error: zero, or an infinity when the text is too large. *)
Definition number (v : bytes) (p : parser) : Node * parser :=
  match ParseInt0 v with
  | Some n => (NumberInt n, p)
  | None =>
      let '(f, ok) := ParseFloat v in
      (NumberFloat f, if (ok : bool) then p else errHere (MsgNumber v) p)
  end.

Definition newRegex (s : string) (p : parser) : Node * parser :=
  if re_valid s then (Regex s, p)
  else (NilRegex, addParseWarn (item_range (sitem (lval p))) (MsgRegex s) p).

(** The elements of a MATCH list: patterns that do not compile are left out. *)
Fixpoint regex_list (l : list Node) (p : parser) : list Node * parser :=
  match l with
  | [] => ([], p)
  | StringLiteral v :: l' =>
      let '(re, p1) := newRegex v p in
      let '(rest, p2) := regex_list l' p1 in
      (match re with NilRegex => rest | _ => re :: rest end, p2)
  | n :: l' => regex_list l' (errHere (MsgListElem n) p)
  end.

Definition is_zero (n : Node) : bool :=
  match n with
  | NumberInt i => i =? 0
  | NumberFloat (S754_zero _) => true
  | _ => false
  end.

Definition newBinExpr (l r : option Node) (op : ItemType) (p : parser) : Node * parser :=
  let plain := BinaryExpr op l r in
  match op with
  | DIV | MOD =>
      match r with
      | Some n => if is_zero n then (NilBinaryExpr, errHere MsgDivZero p) else (plain, p)
      | None => (plain, p)
      end
  | MATCH | NOT_MATCH =>
      match r with
      | Some (NodeList nl) =>
          let '(res, p1) := regex_list nl p in (BinaryExpr op l (Some (NodeList res)), p1)
      | _ => (plain, errHere (MsgListType l) p)
      end
  | _ => (plain, p)
  end.

Definition newFunc (fname : string) (args : list Node) : Node := FuncExpr (toLower fname) args.

Definition newWhereConditions (conditions : list Node) : Node := WhereCondition conditions.

Definition getFuncArgList (nl : list Node) : Node := FuncArgList nl.
End helpers.

(** ** Positions in messages ([ParseError.Error]) *)

(** Lines before a position, and the offset of the last line break among its runes. *)
Fixpoint line_breaks (fuel : nat) (s : bytes) (i : nat) (ln lastBrk : Z) : Z * Z :=
  match fuel, s with
  | S fuel', _ :: _ =>
      let '(r, w) := DecodeRune s in
      if r =? 10 then line_breaks fuel' (drop w s) (i + w) (ln + 1) (Z.of_nat i)
      else line_breaks fuel' (drop w s) (i + w) ln lastBrk
  | _, _ => (ln, lastBrk)
  end.

(** Line and column, or an invalid position. *)
Definition line_col (e : ParseError) (offset : Z) : option (Z * Z) :=
  let pos := Start (pePos e) in
  if (length (peQuery e) <? pos)%nat then None
  else
    let '(ln, lastBrk) := line_breaks pos (take pos (peQuery e)) 0 (offset + 1) (-1) in
    Some (ln, Z.of_nat pos - lastBrk).
