(* ===== verification/FilterYacc.v ===== *)
(** * Filter conditions: the tables of the generated parser ([src/filter/gram_y.go], [gram.y])

    The tables that goyacc wrote, and the productions of the grammar they were made from.
    Symbols are numbered as in the tables: a token by its position in [yyToknames], a
    nonterminal by its number in [yyR1], negated as in [yyChk]. *)

From S2P Require Import Prelude FilterAst FilterLex FilterParser GoStrconv.

(** Indexing of a table; [None] is an index out of range, which panics. *)
Definition at_ (t : list Z) (i : Z) : option Z :=
  if i <? 0 then None else t !! Z.to_nat i.

Definition yyEofCode : Z := 1.
Definition yyErrCode : Z := 2.
Definition yyPrivate : Z := 57344.
Definition yyLast : Z := 342.
Definition yyFlag : Z := -1000.

(** Exceptions of default reductions: a state, then pairs of a token and a rule. *)
Definition yyExca : list Z :=
  [-1; 1; 1; -1; -2; 0; -1; 11; 7; 52; 17; 52; -2; 10; -1; 12; 7; 53; 17; 53; -2; 8; -1; 20; 15;
   72; -2; 12; -1; 21; 15; 73; -2; 13; -1; 107; 15; 72; -2; 12].

(** Shared shifts and gotos. *)
Definition yyAct : list Z :=
  [20; 103; 56; 13; 69; 3; 21; 23; 68; 67; 14; 122; 66; 109; 18; 34; 58; 61; 62; 63; 64; 65; 34;
   101; 59; 60; 29; 123; 12; 11; 118; 68; 10; 73; 117; 72; 30; 16; 45; 46; 47; 48; 51; 52; 53; 54;
   55; 56; 57; 75; 76; 77; 78; 79; 80; 81; 82; 83; 84; 85; 86; 87; 88; 31; 49; 12; 11; 95; 95; 98;
   99; 120; 107; 96; 96; 105; 2; 74; 100; 46; 108; 94; 97; 119; 53; 54; 71; 56; 70; 92; 112; 112;
   112; 112; 91; 90; 113; 113; 113; 113; 111; 111; 111; 111; 114; 115; 116; 112; 89; 45; 46; 7;
   124; 113; 4; 53; 54; 111; 56; 57; 121; 107; 129; 135; 105; 112; 131; 110; 110; 110; 110; 113;
   8; 112; 1; 111; 26; 19; 22; 113; 24; 124; 124; 111; 110; 29; 134; 132; 15; 32; 124; 6; 130;
   128; 34; 30; 124; 124; 25; 40; 42; 127; 133; 44; 17; 104; 39; 126; 125; 41; 110; 5; 102; 43; 9;
   28; 33; 0; 0; 37; 38; 0; 31; 29; 0; 106; 15; 32; 0; 0; 35; 36; 34; 30; 0; 27; 0; 40; 0; 0; 0;
   0; 29; 0; 39; 15; 32; 41; 0; 0; 0; 34; 30; 0; 0; 0; 40; 37; 38; 0; 31; 0; 0; 39; 0; 0; 41; 0;
   35; 36; 0; 58; 0; 27; 0; 0; 37; 38; 0; 31; 0; 0; 0; 0; 0; 0; 93; 35; 36; 0; 0; 0; 27; 45; 46;
   47; 48; 51; 52; 53; 54; 55; 56; 57; 29; 0; 0; 0; 32; 0; 0; 0; 0; 34; 30; 0; 0; 0; 40; 49; 0; 0;
   0; 50; 0; 39; 0; 0; 41; 58; 0; 0; 0; 0; 0; 0; 0; 0; 37; 38; 58; 31; 0; 0; 0; 0; 0; 0; 0; 35;
   36; 45; 46; 47; 48; 51; 52; 53; 54; 55; 56; 57; 45; 46; 47; 48; 51; 52; 53; 54; 55; 56; 57; 0;
   0; 0; 0; 49; 0; 0; 0; 50].

(** The offset of a state in [yyAct]. *)
Definition yyPact : list Z :=
  [3; 104; 98; -1000; -1000; 126; -1000; 190; 98; 156; -1000; -1000; -1000; 285; -26; 190; -1000;
   -1000; -12; -15; -16; -20; -1000; -1000; -1000; -1000; -1000; 73; 71; -1000; -1000; 20; -1000;
   17; -1000; -1000; -1000; -1000; -1000; -1000; -1000; -1000; -1000; -1000; 190; 190; 190; 190;
   190; 190; 190; 190; 190; 190; 190; 190; 190; 190; 190; 94; 81; 80; 75; 227; -1000; -1000; 14;
   14; 14; 14; 1; 171; -6; -1000; -1000; 52; -33; 83; 83; 296; 12; 83; 83; -33; -33; 83; -33; 52;
   83; 252; 252; 252; 252; -1000; -1000; -16; -20; -1000; -1000; -1000; 15; 11; 64; -1000; -1000;
   285; 252; 7; 8; 150; -1000; -1000; -16; -20; 149; 143; 135; -1000; -1000; -1000; 171; 134; 133;
   -1000; 252; -1000; -1000; -1000; -1000; -1000; -1000; 285; 252; -1000; 105; -1000].

(** The offset of a nonterminal in [yyAct]. *)
Definition yyPgo : list Z :=
  [0; 176; 175; 0; 174; 172; 171; 151; 37; 13; 6; 21; 3; 1; 14; 165; 20; 32; 164; 10; 158; 7; 140;
   138; 137; 136; 134].

(** The nonterminal of a rule. *)
Definition yyR1 : list Z :=
  [0; 26; 26; 26; 6; 6; 12; 12; 12; 12; 12; 12; 19; 19; 10; 10; 1; 1; 21; 22; 22; 20; 20; 16; 14;
   24; 24; 5; 5; 5; 5; 9; 9; 9; 8; 8; 8; 8; 8; 8; 25; 13; 13; 13; 15; 15; 7; 7; 4; 4; 4; 4; 17;
   17; 11; 11; 11; 11; 11; 11; 11; 11; 11; 11; 11; 11; 11; 11; 11; 11; 11; 11; 2; 2; 23; 23; 18;
   18; 3; 3; 3].

(** The length of a rule. *)
Definition yyR2 : list Z :=
  [0; 2; 2; 1; 1; 3; 1; 1; 1; 1; 1; 1; 1; 1; 3; 3; 1; 1; 1; 1; 1; 1; 1; 3; 4; 3; 3; 3; 2; 1; 0; 3;
   1; 0; 1; 1; 1; 1; 1; 1; 1; 1; 1; 3; 3; 5; 3; 0; 1; 3; 2; 0; 1; 1; 3; 3; 3; 3; 3; 3; 3; 3; 3; 3;
   3; 3; 3; 3; 5; 5; 5; 5; 1; 1; 1; 2; 4; 4; 1; 1; 4].

(** The symbol that leads to a state. *)
Definition yyChk : list Z :=
  [-1000; -26; 73; 2; 10; -6; -7; 13; 6; -4; -17; -11; -16; -12; -19; 15; -8; -18; -14; -24; -3;
   -10; -23; -21; -22; -20; -25; 62; -2; 12; 22; 49; 16; -1; 21; 57; 58; 46; 47; 33; 26; 36; -7;
   17; 7; 26; 27; 28; 29; 52; 56; 30; 31; 32; 33; 34; 35; 36; 4; 50; 51; 43; 44; -12; -16; -11;
   24; 24; 24; 24; 15; 15; 15; 16; -17; -12; -12; -12; -12; -12; -12; -12; -12; -12; -12; -12;
   -12; -12; -12; 14; 14; 14; 14; 19; -14; -3; -10; -14; -3; -3; -21; 22; -5; -13; -15; -12; 14;
   -3; -21; -9; -8; -19; -3; -10; -9; -9; -9; 19; 19; 19; 7; -9; 4; 19; 7; 18; 18; 18; 18; -13;
   18; -12; 14; -8; -9; 18].

(** The default rule of a state; -2 for the exceptions. *)
Definition yyDef : list Z :=
  [0; -2; 47; 3; 2; 1; 4; 51; 47; 0; 48; -2; -2; 0; 36; 0; 6; 7; 9; 11; -2; -2; 34; 35; 37; 38;
   39; 0; 0; 78; 79; 0; 74; 0; 18; 19; 20; 21; 22; 40; 16; 17; 5; 46; 50; 0; 0; 0; 0; 0; 0; 0; 0;
   0; 0; 0; 0; 0; 0; 0; 0; 0; 0; 0; 8; 10; 0; 0; 0; 0; 0; 30; 0; 75; 49; 54; 55; 56; 57; 58; 59;
   60; 61; 62; 63; 64; 65; 66; 67; 33; 33; 33; 33; 23; 25; 72; 73; 26; 14; 15; 0; 0; 0; 29; 41;
   42; 33; -2; 0; 0; 32; 36; 12; 13; 0; 0; 0; 76; 77; 24; 28; 0; 0; 80; 0; 68; 69; 70; 71; 27; 43;
   44; 33; 31; 0; 45].

(** Tokens of small characters. *)
Definition yyTok1 : list Z :=
  [1].

(** Tokens from [yyPrivate] on. *)
Definition yyTok2 : list Z :=
  [2; 3; 4; 5; 6; 7; 8; 9; 10; 11; 12; 13; 14; 15; 16; 17; 18; 19; 20; 21; 22; 23; 24; 25; 26; 27;
   28; 29; 30; 31; 32; 33; 34; 35; 36; 37; 38; 39; 40; 41; 42; 43; 44; 45; 46; 47; 48; 49; 50; 51;
   52; 53; 54; 55; 56; 57; 58; 59; 60; 61; 62; 63; 64; 65; 66; 67; 68; 69; 70; 71; 72; 73; 74].

(** Other characters, in pairs. *)
Definition yyTok3 : list Z :=
  [0].

(** ** Nonterminals *)

Definition N_unary_op : Z := -1.
Definition N_function_name : Z := -2.
Definition N_identifier : Z := -3.
Definition N_filter_list : Z := -4.
Definition N_function_args : Z := -5.
Definition N_stmts : Z := -6.
Definition N_where_conditions : Z := -7.
Definition N_array_elem : Z := -8.
Definition N_array_list : Z := -9.
Definition N_attr_expr : Z := -10.
Definition N_binary_expr : Z := -11.
Definition N_expr : Z := -12.
Definition N_function_arg : Z := -13.
Definition N_function_expr : Z := -14.
Definition N_naming_arg : Z := -15.
Definition N_paren_expr : Z := -16.
Definition N_filter_elem : Z := -17.
Definition N_regex : Z := -18.
Definition N_columnref : Z := -19.
Definition N_bool_literal : Z := -20.
Definition N_string_literal : Z := -21.
Definition N_nil_literal : Z := -22.
Definition N_number_literal : Z := -23.
Definition N_cascade_functions : Z := -24.
Definition N_star : Z := -25.
Definition N_start : Z := -26.

(** ** Tokens by their internal numbers *)

Definition tok (t : ItemType) : Z := item_code t - 57342.

(** The internal number of START_WHERE_CONDITION. *)
Definition tok_START : Z := 57415 - 57342.

(** ** The productions of [gram.y], in the order of the tables; number 0 accepts *)

Definition productions : list (Z * list Z) :=
  [(0, [N_start; yyEofCode]);
   (N_start, [tok_START; N_stmts]);
   (N_start, [N_start; tok EOF]);
   (N_start, [yyErrCode]);
   (N_stmts, [N_where_conditions]);
   (N_stmts, [N_stmts; tok SEMICOLON; N_where_conditions]);
   (N_expr, [N_array_elem]);
   (N_expr, [N_regex]);
   (N_expr, [N_paren_expr]);
   (N_expr, [N_function_expr]);
   (N_expr, [N_binary_expr]);
   (N_expr, [N_cascade_functions]);
   (N_columnref, [N_identifier]);
   (N_columnref, [N_attr_expr]);
   (N_attr_expr, [N_identifier; tok DOT; N_identifier]);
   (N_attr_expr, [N_attr_expr; tok DOT; N_identifier]);
   (N_unary_op, [tok ADD]);
   (N_unary_op, [tok SUB]);
   (N_string_literal, [tok STRING]);
   (N_nil_literal, [tok NIL]);
   (N_nil_literal, [tok NULL]);
   (N_bool_literal, [tok TRUE]);
   (N_bool_literal, [tok FALSE]);
   (N_paren_expr, [tok LEFT_PAREN; N_expr; tok RIGHT_PAREN]);
   (N_function_expr, [N_function_name; tok LEFT_PAREN; N_function_args; tok RIGHT_PAREN]);
   (N_cascade_functions, [N_function_expr; tok DOT; N_function_expr]);
   (N_cascade_functions, [N_cascade_functions; tok DOT; N_function_expr]);
   (N_function_args, [N_function_args; tok COMMA; N_function_arg]);
   (N_function_args, [N_function_args; tok COMMA]);
   (N_function_args, [N_function_arg]);
   (N_function_args, []);
   (N_array_list, [N_array_list; tok COMMA; N_array_elem]);
   (N_array_list, [N_array_elem]);
   (N_array_list, []);
   (N_array_elem, [N_number_literal]);
   (N_array_elem, [N_string_literal]);
   (N_array_elem, [N_columnref]);
   (N_array_elem, [N_nil_literal]);
   (N_array_elem, [N_bool_literal]);
   (N_array_elem, [N_star]);
   (N_star, [tok MUL]);
   (N_function_arg, [N_naming_arg]);
   (N_function_arg, [N_expr]);
   (N_function_arg, [tok LEFT_BRACKET; N_array_list; tok RIGHT_BRACKET]);
   (N_naming_arg, [N_identifier; tok EQ; N_expr]);
   (N_naming_arg, [N_identifier; tok EQ; tok LEFT_BRACKET; N_array_list; tok RIGHT_BRACKET]);
   (N_where_conditions, [tok LEFT_BRACE; N_filter_list; tok RIGHT_BRACE]);
   (N_where_conditions, []);
   (N_filter_list, [N_filter_elem]);
   (N_filter_list, [N_filter_list; tok COMMA; N_filter_elem]);
   (N_filter_list, [N_filter_list; tok COMMA]);
   (N_filter_list, []);
   (N_filter_elem, [N_binary_expr]);
   (N_filter_elem, [N_paren_expr]);
   (N_binary_expr, [N_expr; tok ADD; N_expr]);
   (N_binary_expr, [N_expr; tok DIV; N_expr]);
   (N_binary_expr, [N_expr; tok GTE; N_expr]);
   (N_binary_expr, [N_expr; tok GT; N_expr]);
   (N_binary_expr, [N_expr; tok AND; N_expr]);
   (N_binary_expr, [N_expr; tok OR; N_expr]);
   (N_binary_expr, [N_expr; tok LT; N_expr]);
   (N_binary_expr, [N_expr; tok LTE; N_expr]);
   (N_binary_expr, [N_expr; tok MOD; N_expr]);
   (N_binary_expr, [N_expr; tok MUL; N_expr]);
   (N_binary_expr, [N_expr; tok NEQ; N_expr]);
   (N_binary_expr, [N_expr; tok POW; N_expr]);
   (N_binary_expr, [N_expr; tok SUB; N_expr]);
   (N_binary_expr, [N_expr; tok EQ; N_expr]);
   (N_binary_expr, [N_columnref; tok IN; tok LEFT_BRACKET; N_array_list; tok RIGHT_BRACKET]);
   (N_binary_expr, [N_columnref; tok NOT_IN; tok LEFT_BRACKET; N_array_list; tok RIGHT_BRACKET]);
   (N_binary_expr, [N_columnref; tok MATCH; tok LEFT_BRACKET; N_array_list; tok RIGHT_BRACKET]);
   (N_binary_expr, [N_columnref; tok NOT_MATCH; tok LEFT_BRACKET; N_array_list; tok RIGHT_BRACKET]);
   (N_function_name, [N_identifier]);
   (N_function_name, [N_attr_expr]);
   (N_number_literal, [tok NUMBER]);
   (N_number_literal, [N_unary_op; tok NUMBER]);
   (N_regex, [tok RE; tok LEFT_PAREN; N_string_literal; tok RIGHT_PAREN]);
   (N_regex, [tok RE; tok LEFT_PAREN; tok QUOTED_STRING; tok RIGHT_PAREN]);
   (N_identifier, [tok ID]);
   (N_identifier, [tok QUOTED_STRING]);
   (N_identifier, [tok IDENTIFIER; tok LEFT_PAREN; N_string_literal; tok RIGHT_PAREN])].

(** * Filter conditions: the generated parser ([src/filter/gram_y.go], [parse.go])

    [Parse] as goyacc wrote it.  The value stack [yyS] is split at the index [yyp]: [live]
    holds the entries up to [yyp], the top first, and [dead] those above it, which keep
    stale values that an empty production reads back.  A state of the loop is a point
    [yynewstate]; [step] runs from there to the next one.  [None] is a panic: an index out
    of range, a failed type assertion, or a value that cannot be part of a tree (a list of
    conditions inside an expression).  [FilterYaccThms] shows that none occurs, and that
    [parse_fuel] rounds are enough. *)

(** ** Lexing one token *)

(** [yylex1]: the character and the token number. *)
Fixpoint tok3 (t : list Z) (c : Z) : option Z :=
  match t with
  | x :: y :: t' => if x =? c then Some y else tok3 t' c
  | _ => None
  end.

(** The token of a character; when no entry matches, the last token read from [yyTok3]. *)
Definition token_of (c : Z) : option Z :=
  token ← (if c <=? 0 then at_ yyTok1 0
           else if c <? zlen yyTok1 then at_ yyTok1 c
           else if (yyPrivate <=? c) && (c <? yyPrivate + zlen yyTok2) then at_ yyTok2 (c - yyPrivate)
           else match tok3 yyTok3 c with Some t => Some t | None => Some 0 end);
  if token =? 0 then at_ yyTok2 1 else Some token.

Definition yylex1 (p : parser) : option (Z * Z * parser) :=
  '(c, p1) ← Lex p;
  t ← token_of c;
  Some (c, t, p1).

(** ** Semantic actions *)

Section yacc.
Context (Unquote : bytes -> bytes * bool) (re_valid : string -> bool) (toLower : string -> string)
  (not_in : string).

(** An interface value that goes into a tree, and one that must be there. *)
Definition as_opt (n : symNode) : option (option Node) :=
  match n with
  | SNil => Some None
  | SNode m => Some (Some m)
  | SConds _ => None
  end.

Definition as_node (n : symNode) : option Node :=
  match n with SNode m => Some m | _ => None end.

Definition as_list (n : symNode) : option (list Node) :=
  match n with SNode (NodeList l) => Some l | _ => None end.

Definition as_string (n : symNode) : option string :=
  match n with SNode (StringLiteral s) => Some s | _ => None end.

Definition as_attr (n : symNode) : option Node :=
  match n with SNode (AttrExpr o a) => Some (AttrExpr o a) | _ => None end.

Definition as_func (n : symNode) : option Node :=
  match n with SNode (FuncExpr f l) => Some (FuncExpr f l) | _ => None end.

Definition ident (i : yyItem) : Node := Identifier (of_bytes (iVal i)).

(** [bexpr.ReturnBool = true] panics on a nil pointer; the field is never read. *)
Definition set_ReturnBool (n : Node) : option Node :=
  match n with NilBinaryExpr => None | _ => Some n end.

(** A binary expression [$l op $r]; [ret] when the action sets [ReturnBool]. *)
Definition bin_action (ret : bool) (l op r : yySymType) (v : yySymType) (p : parser)
    : option (yySymType * parser) :=
  a ← as_opt (node l);
  b ← as_opt (node r);
  t ← iTyp (sitem op);
  let '(e, p1) := newBinExpr re_valid a b t p in
  e' ← (if ret then set_ReturnBool e else Some e);
  Some (set_node (SNode e') v, p1).

Definition negate (n : Node) : Node :=
  match n with
  | NumberInt i => NumberInt (int64 (- i))
  | NumberFloat f => NumberFloat (SFopp f)
  | _ => n
  end.

(** The switch on the rule: [d] is [yyDollar] without its first entry, [v] is [yyVAL]. *)
Definition action (r : Z) (d : list yySymType) (v : yySymType) (p : parser)
    : option (yySymType * parser) :=
  let ret (x : Node) (p : parser) := Some (set_node (SNode x) v, p) in
  match r, d with
  | 1, [_; d2] => Some (v, set_result (node d2) p)
  | 3, [_] => Some (v, unexpected p)
  | 4, [d1] => n ← as_opt (node d1); Some (set_node (SConds [n]) v, p)
  | 5, [d1; _; d3] =>
      match node d3 with
      | SNil => Some (set_node (node d1) v, p)
      | _ =>
          match node d1 with
          | SConds arr => n ← as_opt (node d3); Some (set_node (SConds (arr ++ [n])) v, p)
          | _ => None
          end
      end
  | 12, [d1] => ret (ident (sitem d1)) p
  | 13, [d1] => Some (set_node (node d1) v, p)
  | 14, [d1; _; d3] => ret (AttrExpr (ident (sitem d1)) (ident (sitem d3))) p
  | 15, [d1; _; d3] => o ← as_attr (node d1); ret (AttrExpr o (ident (sitem d3))) p
  | 18, [d1] =>
      let '(s, p1) := unquoteString Unquote (iVal (sitem d1)) p in ret (StringLiteral (of_bytes s)) p1
  | 19, [_] | 20, [_] => ret NilLiteral p
  | 21, [_] => ret (BoolLiteral true) p
  | 22, [_] => ret (BoolLiteral false) p
  | 23, [_; d2; _] => n ← as_opt (node d2); ret (ParenExpr n) p
  | 24, [d1; _; d3; _] => ret (newFunc toLower (of_bytes (iVal (sitem d1))) (nodes d3)) p
  | 25, [d1; _; d3] =>
      f ← as_func (node d1); g ← as_func (node d3); ret (CascadeFunctions [f; g]) p
  | 26, [d1; _; d3] =>
      match node d1 with
      | SNode (CascadeFunctions fs) => g ← as_func (node d3); ret (CascadeFunctions (fs ++ [g])) p
      | _ => None
      end
  | 27, [_; _; d3] => n ← as_node (node d3); Some (set_nodes (nodes v ++ [n]) v, p)
  | 29, [d1] => n ← as_node (node d1); Some (set_nodes [n] v, p)
  | 30, [] => Some (set_nodes [] v, p)
  | 31, [_; _; d3] =>
      nl ← as_list (node v); n ← as_node (node d3); ret (NodeList (nl ++ [n])) p
  | 32, [d1] => n ← as_node (node d1); ret (NodeList [n]) p
  | 33, [] => ret (NodeList []) p
  | 40, [_] => ret Star p
  | 43, [_; d2; _] => nl ← as_list (node d2); ret (getFuncArgList nl) p
  | 44, [d1; _; d3] => n ← as_opt (node d3); ret (FuncArg (of_bytes (iVal (sitem d1))) n) p
  | 45, [d1; _; _; d4; _] =>
      nl ← as_list (node d4);
      ret (FuncArg (of_bytes (iVal (sitem d1))) (Some (getFuncArgList nl))) p
  | 46, [_; d2; _] => ret (newWhereConditions (nodes d2)) p
  | 47, [] => Some (set_node SNil v, p)
  | 48, [d1] => n ← as_node (node d1); Some (set_nodes [n] v, p)
  | 49, [_; _; d3] => n ← as_node (node d3); Some (set_nodes (nodes v ++ [n]) v, p)
  | 51, [] => Some (set_nodes [] v, p)
  | 54, [d1; d2; d3] | 55, [d1; d2; d3] | 62, [d1; d2; d3] | 63, [d1; d2; d3]
  | 65, [d1; d2; d3] | 66, [d1; d2; d3] => bin_action false d1 d2 d3 v p
  | 56, [d1; d2; d3] | 57, [d1; d2; d3] | 58, [d1; d2; d3] | 59, [d1; d2; d3]
  | 60, [d1; d2; d3] | 61, [d1; d2; d3] | 64, [d1; d2; d3] | 67, [d1; d2; d3] =>
      bin_action true d1 d2 d3 v p
  | 68, [d1; d2; _; d4; _] | 69, [d1; d2; _; d4; _] | 70, [d1; d2; _; d4; _]
  | 71, [d1; d2; _; d4; _] => bin_action true d1 d2 d4 v p
  | 72, [d1] => Some (set_sitem (sitem d1) v, p)
  | 73, [d1] =>
      a ← as_attr (node d1);
      s ← Node_String toLower not_in a;
      Some (set_sitem (mkYyItem None 0 (to_bytes s)) v, p)
  | 74, [d1] => let '(n, p1) := number (iVal (sitem d1)) p in ret n p1
  | 75, [d1; d2] =>
      let '(n, p1) := number (iVal (sitem d2)) p in
      ret (match iTyp (sitem d1) with Some SUB => negate n | _ => n end) p1
  | 76, [_; _; d3; _] =>
      s ← as_string (node d3); let '(x, p1) := newRegex re_valid s p in ret x p1
  | 77, [_; _; d3; _] =>
      let '(s, p1) := unquoteString Unquote (iVal (sitem d3)) p in
      let '(x, p2) := newRegex re_valid (of_bytes s) p1 in ret x p2
  | 79, [d1] =>
      let '(s, p1) := unquoteString Unquote (iVal (sitem d1)) p in Some (set_sval s v, p1)
  | 80, [_; _; d3; _] => s ← as_string (node d3); Some (set_sval (to_bytes s) v, p)
  | _, _ => Some (v, p)
  end.

(** ** The automaton *)

Record yyState := mkYy {
  yp : parser;
  live : list yySymType;
  dead : list yySymType;
  yystate : Z;
  yytoken : Z;
  Errflag : Z;
  Nerrs : Z
}.

Inductive outcome := Next (st : yyState) | Ret (code : Z) (st : yyState).

(** [len(yyS)] doubles when there is no room above [yyp]. *)
Definition grow (lv dd : list yySymType) : list yySymType :=
  match dd with [] => repeat zero_sym (length lv) | _ => dd end.

(** [yystack]: push a value in state [s]. *)
Definition yystack (s : Z) (v : yySymType) (st : yyState) : yyState :=
  mkYy (yp st) (set_yys s v :: live st) (tail (grow (live st) (dead st))) s (yytoken st)
    (Errflag st) (Nerrs st).

(** The lookahead, read when there is none. *)
Definition lookahead (st : yyState) : option yyState :=
  if char (yp st) <? 0 then
    '(c, t, p) ← yylex1 (yp st);
    Some (mkYy (set_char c p) (live st) (dead st) (yystate st) t (Errflag st) (Nerrs st))
  else Some st.

(** The two loops through [yyExca]. *)
Fixpoint exca_find (t : list Z) (s : Z) : option (list Z) :=
  match t with
  | a :: b :: t' => if (a =? -1) && (b =? s) then Some t' else exca_find t' s
  | _ => None
  end.

Fixpoint exca_rule (t : list Z) (token : Z) : option Z :=
  match t with
  | a :: b :: t' => if (a <? 0) || (a =? token) then Some b else exca_rule t' token
  | _ => None
  end.

(** The goto of a nonterminal from the state below the popped entries. *)
Definition goto (n below : Z) : option Z :=
  yyg ← at_ yyPgo n;
  let yyj := yyg + below + 1 in
  if yyLast <=? yyj then at_ yyAct yyg
  else
    s ← at_ yyAct yyj;
    c ← at_ yyChk s;
    if c =? - n then Some s else at_ yyAct yyg.

(** A reduction: [yyDollar] is popped and stays above [yyp] as stale entries. *)
Definition reduce (r : Z) (st : yyState) : option yyState :=
  len ← at_ yyR2 r;
  let k := Z.to_nat len in
  let popped := take k (live st) in
  let below := drop k (live st) in
  let above := grow below (rev popped ++ dead st) in
  v ← head above;
  n ← at_ yyR1 r;
  b ← head below;
  s ← goto n (yys b);
  '(v', p) ← action r (rev popped) v (yp st);
  Some (yystack s v' (mkYy p below above (yystate st) (yytoken st) (Errflag st) (Nerrs st))).

(** The search for a state that shifts [error]; [None] when the stack is exhausted. *)
Fixpoint recover_pop (lv dd : list yySymType) : option (Z * list yySymType * list yySymType) :=
  match lv with
  | [] => None
  | v :: lv' =>
      match pact ← at_ yyPact (yys v);
            let yyn := pact + yyErrCode in
            if (0 <=? yyn) && (yyn <? yyLast) then
              s ← at_ yyAct yyn; c ← at_ yyChk s;
              if c =? yyErrCode then Some s else None
            else None
      with
      | Some s => Some (s, lv, dd)
      | None => recover_pop lv' (v :: dd)
      end
  end.

(** The values that [yyVAL] holds when an error is shifted are those of the last push. *)
Definition yyVAL (st : yyState) : yySymType := default zero_sym (head (live st)).

Definition yyerror (st : yyState) : outcome :=
  if Errflag st =? 3 then
    if yytoken st =? yyEofCode then Ret 1 st
    else Next (mkYy (set_char (-1) (yp st)) (live st) (dead st) (yystate st) (-1) 3 (Nerrs st))
  else
    let nerrs := if Errflag st =? 0 then Nerrs st + 1 else Nerrs st in
    match recover_pop (live st) (dead st) with
    | Some (s, lv, dd) => Next (yystack s (yyVAL st) (mkYy (yp st) lv dd s (yytoken st) 3 nerrs))
    | None => Ret 1 st
    end.

Definition yydefault (st : yyState) : option outcome :=
  d ← at_ yyDef (yystate st);
  if d =? -2 then
    st1 ← lookahead st;
    t ← exca_find yyExca (yystate st);
    r ← exca_rule t (yytoken st1);
    if r <? 0 then Some (Ret 0 st1)
    else if r =? 0 then Some (yyerror st1)
    else Next <$> reduce r st1
  else if d =? 0 then Some (yyerror st)
  else Next <$> reduce d st.

(** From [yynewstate] to the next one. *)
Definition step (st : yyState) : option outcome :=
  pact ← at_ yyPact (yystate st);
  if pact <=? yyFlag then yydefault st
  else
    st1 ← lookahead st;
    let yyn := pact + yytoken st1 in
    if (yyn <? 0) || (yyLast <=? yyn) then yydefault st1
    else
      s ← at_ yyAct yyn;
      c ← at_ yyChk s;
      if c =? yytoken st1 then
        Some (Next (yystack s (lval (yp st1))
          (mkYy (set_char (-1) (yp st1)) (live st1) (dead st1) s (-1)
             (if 0 <? Errflag st1 then Errflag st1 - 1 else Errflag st1) (Nerrs st1))))
      else yydefault st1.

Fixpoint parse_loop (fuel : nat) (st : yyState) : option (Z * yyState) :=
  match fuel with
  | O => None
  | S fuel' =>
      o ← step st;
      match o with
      | Next st' => parse_loop fuel' st'
      | Ret c st' => Some (c, st')
      end
  end.

(** The stack starts as [yyrcvr.stack], which keeps the entries of earlier texts. *)
Definition Parse_start (p : parser) : yyState :=
  yystack 0 zero_sym (mkYy (set_char (-1) p) [] (stack p) 0 (-1) 0 0).

Definition parse_fuel (p : parser) : nat := (40 * (length (input (plex p)) + 3))%nat.

Definition Parse (p : parser) : option (Z * parser) :=
  '(c, st) ← parse_loop (parse_fuel p) (Parse_start p);
  Some (c, set_char (-1) (yp st)).

(** ** GetConds *)

Definition doParse (p : parser) : option parser :=
  p1 ← InjectItem START_WHERE_CONDITION p;
  '(_, p2) ← Parse p1;
  Some p2.

(** The conditions or the first error, and the parser with its errors and warnings.  The
    entries that the run leaves in its [stack] are not tracked: [pool] is any parser.  A
    result that is no list of conditions panics in the type assertion. *)
Definition GetConds (pool : parser) (text : bytes) : option (Res ParseError (list (option Node)) * parser) :=
  p ← doParse (newParser text pool);
  match errs p with
  | e :: _ => Some (Err e, p)
  | [] => match parseResult p with SConds l => Some (Ok l, p) | _ => None end
  end.
End yacc.
