(* ===== verification/FilterAutomaton.v ===== *)
(** * Filter conditions: what the parser tables say about the grammar

    [edges] lists the transitions of the automaton: the shifts, and the gotos after the
    reductions, closed under each other.  The checks of this file run over the whole
    tables: every index stays in range, every reduction finds the symbols of its
    production on the stack, and every goto is a transition.  A weight of the stack that
    every reduction lowers bounds the reductions between two shifts. *)

From S2P Require Import Prelude FilterAst FilterParser FilterYacc.

(** ** States, shifts and reductions *)

Definition nstates : nat := 136.
Definition states : list Z := Z.of_nat <$> seq 0 nstates.
Definition is_state (s : Z) : Prop := 0 <= s < 136.

(** The symbol that leads to a state. *)
Definition sym_of (s : Z) : Z := default 0 (at_ yyChk s).

(** The state that a token leads to. *)
Definition shift (s t : Z) : option Z :=
  pact ← at_ yyPact s;
  if pact <=? yyFlag then None
  else
    let n := pact + t in
    if (n <? 0) || (yyLast <=? n) then None
    else
      s' ← at_ yyAct n;
      c ← at_ yyChk s';
      if c =? t then Some s' else None.

(** The rules of an exception list, up to its default. *)
Fixpoint exca_rules (t : list Z) : list Z :=
  match t with
  | a :: b :: t' => if a <? 0 then [b] else b :: exca_rules t'
  | _ => []
  end.

(** The rules that a state may reduce by. *)
Definition reduces (s : Z) : list Z :=
  match at_ yyDef s with
  | Some d =>
      if d =? -2 then
        match exca_find yyExca s with Some t => List.filter (Z.ltb 0) (exca_rules t) | None => [] end
      else if d =? 0 then [] else [d]
  | None => []
  end.

(** The rule that a state reduces by on a token: 0 is an error, -1 accepts. *)
Definition rule_on (s t : Z) : option Z :=
  d ← at_ yyDef s;
  if d =? -2 then e ← exca_find yyExca s; exca_rule e t else Some d.

(** ** Transitions *)

Definition tokens_all : list Z := Z.of_nat <$> seq 1 74.

Definition edge_eqb (a b : Z * Z) : bool := (fst a =? fst b) && (snd a =? snd b).

Definition mem_edge (E : list (Z * Z)) (s s' : Z) : bool := existsb (edge_eqb (s, s')) E.

Definition preds_in (E : list (Z * Z)) (s : Z) : list Z :=
  fst <$> List.filter (fun e => snd e =? s) E.

Fixpoint back (E : list (Z * Z)) (k : nat) (s : Z) : list Z :=
  match k with O => [s] | S k => flat_map (back E k) (preds_in E s) end.

Definition add_edge (e : Z * Z) (E : list (Z * Z)) : list (Z * Z) :=
  if mem_edge E (fst e) (snd e) then E else e :: E.

Definition shift_edges : list (Z * Z) :=
  flat_map (fun s => omap (fun t => option_map (pair s) (shift s t)) tokens_all) states.

Definition goto_edges (E : list (Z * Z)) : list (Z * Z) :=
  flat_map (fun s => flat_map (fun r =>
    match productions !! Z.to_nat r with
    | Some (lhs, rhs) => omap (fun q => option_map (pair q) (goto (- lhs) q)) (back E (length rhs) s)
    | None => []
    end) (reduces s)) states.

Fixpoint close_edges (rounds : nat) (E : list (Z * Z)) : list (Z * Z) :=
  match rounds with
  | O => E
  | S n => close_edges n (foldr add_edge E (goto_edges E))
  end.

Definition edges : list (Z * Z) := Eval vm_compute in close_edges 12 shift_edges.

Definition edge (s s' : Z) : bool := mem_edge edges s s'.

Definition preds (s : Z) : list Z := preds_in edges s.

(** ** Weights *)

(** Unit productions lower the weight, and a token weighs more than what it becomes. *)
Definition weight (x : Z) : Z :=
  if 0 <? x then 8
  else
    if (x =? N_identifier) || (x =? N_attr_expr) then 6
    else if existsb (Z.eqb x) [N_columnref; N_number_literal; N_string_literal; N_nil_literal; N_bool_literal; N_star]
    then 5
    else if existsb (Z.eqb x) [N_array_elem; N_paren_expr; N_function_expr; N_cascade_functions; N_binary_expr; N_regex]
    then 4
    else if (x =? N_expr) || (x =? N_naming_arg) then 3
    else if existsb (Z.eqb x) [N_where_conditions; N_filter_elem; N_function_arg] then 2
    else if x <? -26 then 0 else 1.

(** A state that reduces by an empty production keeps the weight of what that adds. *)
Definition bonus (s : Z) : Z :=
  if existsb (fun r => match productions !! Z.to_nat r with Some (_, []) => true | _ => false end) (reduces s)
  then 3 else 0.

Definition weights (l : list Z) : Z := foldr (fun x n => weight x + n) 0 l.

(** ** Checks over the tables *)

(** Below a state: the symbols of a production from its end, then a goto. *)
Fixpoint back_ok (lhs gain : Z) (rhs_rev : list Z) (s : Z) : bool :=
  match rhs_rev with
  | [] =>
      match goto (- lhs) s with
      | Some s' => edge s s' && (sym_of s' =? lhs) && (weight lhs + bonus s' <? gain)
      | None => false
      end
  | x :: rest => (sym_of s =? x) && (0 <? s) && forallb (back_ok lhs gain rest) (preds s)
  end.

Definition rule_ok (s r : Z) : bool :=
  match productions !! Z.to_nat r with
  | Some (lhs, rhs) =>
      (1 <=? r) && (r <=? 80) && bool_decide (at_ yyR1 r = Some (- lhs)) &&
      bool_decide (at_ yyR2 r = Some (zlen rhs)) && back_ok lhs (weights rhs + bonus s) (rev rhs) s
  | None => false
  end.

Definition state_ok (s : Z) : bool :=
  match at_ yyPact s, at_ yyDef s with
  | Some pact, Some d =>
      forallb (rule_ok s) (reduces s) &&
      (if d =? -2 then
         match exca_find yyExca s with
         | Some e => match exca_rule e (-1) with Some _ => true | None => false end &&
                     forallb (fun r => ((0 <=? r) || (s =? 1)) && ((0 <? r) || (yyFlag <? pact))) (exca_rules e)
         | None => false
         end
       else (0 <=? d) && ((0 <? d) || (yyFlag <? pact))) &&
      negb (sym_of s =? yyEofCode) &&
      (if sym_of s =? yyErrCode then s =? 3 else true)
  | _, _ => false
  end.

(** An entry of [yyAct] is a state; a shift through it is a transition. *)
Definition act_ok (n : Z) : bool :=
  match at_ yyAct n with
  | Some s' =>
      (0 <=? s') && (s' <? 136) && negb (bool_decide (at_ yyChk s' = None)) &&
      let c := sym_of s' in
      forallb (fun s => match at_ yyPact s with
                        | Some pact => if (c =? n - pact) && (0 <? c) then edge s s' else true
                        | None => false
                        end) states
  | None => false
  end.

(** Both ends of a transition are states; none leads to state 0. *)
Definition edge_ok (e : Z * Z) : bool :=
  (0 <=? fst e) && (fst e <? 136) && (0 <? snd e) && (snd e <? 136).

Lemma states_checked : forallb state_ok states = true.
Proof. vm_compute. reflexivity. Qed.

Definition act_indices : list Z := Z.of_nat <$> seq 0 342.

Lemma acts_checked : forallb act_ok act_indices = true.
Proof. vm_compute. reflexivity. Qed.

Lemma edges_checked : forallb edge_ok edges = true.
Proof. vm_compute. reflexivity. Qed.

(** ** What the checks give *)

Lemma elem_states s : is_state s -> s ∈ states.
Proof.
  unfold is_state, states. intros H. apply list_elem_of_fmap. exists (Z.to_nat s). split; [lia|].
  apply elem_of_seq. unfold nstates. lia.
Qed.

Lemma forallb_elem {A} (f : A -> bool) l x : forallb f l = true -> x ∈ l -> f x = true.
Proof. intros H. rewrite forallb_forall in H. intros I. by apply H, list_elem_of_In. Qed.

Lemma exca_rule_total e t : (exists r, exca_rule e (-1) = Some r) ->
  exists r, exca_rule e t = Some r /\ r ∈ exca_rules e.
Proof.
  revert e. fix IH 1. intros [|a [|b e]] [r0 H]; [done..|]. cbn [exca_rule exca_rules] in *.
  destruct (Z.ltb_spec a 0) as [L|L]; [exists b; split; [done|by apply list_elem_of_singleton]|].
  destruct (Z.eqb_spec a (-1)) as [E|_]; [lia|]. destruct (a =? t).
  - exists b. split; [done|]. apply elem_of_cons. by left.
  - destruct (IH e (ex_intro _ r0 H)) as (r & E & I). exists r. split; [done|]. apply elem_of_cons. by right.
Qed.

(** The tables of a state are in range, and it reduces, accepts or errs. *)
Lemma state_facts s : is_state s ->
  (exists pact, at_ yyPact s = Some pact /\ (pact <= yyFlag -> forall t, rule_on s t <> Some 0)) /\
  sym_of s <> yyEofCode /\ (sym_of s = yyErrCode -> s = 3) /\
  forall t, exists r, rule_on s t = Some r /\
    (r = 0 \/ r < 0 /\ s = 1 \/ 0 < r /\ rule_ok s r = true).
Proof.
  intros H. pose proof (forallb_elem _ _ _ states_checked (elem_states s H)) as K. unfold state_ok in K.
  destruct (at_ yyPact s) as [pact|]; [|done]. destruct (at_ yyDef s) as [d|] eqn:Ed; [|done].
  apply andb_prop in K as [K K3]. apply andb_prop in K as [K Ks]. apply andb_prop in K as [Kr Kd].
  split.
  { exists pact. split; [done|]. intros Hp t. unfold rule_on. rewrite Ed. cbn [mbind option_bind].
    destruct (Z.eqb_spec d (-2)) as [->|N]; [|intros [=]; lia].
    destruct (exca_find yyExca s) as [e|]; [|done]. cbn [mbind option_bind]. apply andb_prop in Kd as [Ke Kn].
    destruct (exca_rule_total e t) as (r & E & I); [destruct (exca_rule e (-1)); [by eexists|done]|].
    rewrite E. intros [=]. subst. pose proof (forallb_elem _ _ _ Kn I) as Q. cbv beta in Q. lia. }
  split; [by apply negb_true_iff, Z.eqb_neq in Ks|].
  split; [intros E3; rewrite E3 in K3; by apply Z.eqb_eq in K3|]. intros t. unfold rule_on. rewrite Ed.
  cbn [mbind option_bind]. unfold reduces in Kr. rewrite Ed in Kr. destruct (Z.eqb_spec d (-2)) as [->|N].
  - destruct (exca_find yyExca s) as [e|]; [|done]. cbn [mbind option_bind].
    apply andb_prop in Kd as [Ke Kn]. destruct (exca_rule_total e t) as (r & E & I).
    { destruct (exca_rule e (-1)); [by eexists|done]. }
    exists r. split; [done|]. destruct (Z.lt_trichotomy r 0) as [L|[->|L]]; [|by left|].
    + right; left. split; [done|]. pose proof (forallb_elem _ _ _ Kn I) as Q. cbv beta in Q. lia.
    + right; right. split; [done|]. apply (forallb_elem _ _ _ Kr). apply list_elem_of_In, filter_In.
      split; [by apply list_elem_of_In|lia].
  - exists d. split; [done|]. destruct (Z.eqb_spec d 0) as [->|N0]; [by left|]. right; right.
    split; [lia|]. by destruct (andb_prop _ _ Kr).
Qed.

Lemma edge_states s s' : edge s s' = true -> is_state s /\ is_state s' /\ s' <> 0.
Proof.
  unfold edge, mem_edge. intros H. apply existsb_exists in H as ([a b] & I & E).
  unfold edge_eqb in E. cbn in E. apply andb_prop in E as [E1 E2]. apply Z.eqb_eq in E1, E2. subst.
  pose proof edges_checked as C. rewrite forallb_forall in C. specialize (C _ I). unfold edge_ok, is_state in *.
  cbn in C. lia.
Qed.

(** An entry of the action table is a state, and a transition where its symbol is a token. *)
Lemma act_facts n : 0 <= n < yyLast ->
  exists s', at_ yyAct n = Some s' /\ is_state s' /\ at_ yyChk s' = Some (sym_of s') /\
  forall s pact, is_state s -> at_ yyPact s = Some pact -> sym_of s' = n - pact -> 0 < sym_of s' ->
    edge s s' = true.
Proof.
  intros H. assert (n ∈ act_indices) as I.
  { unfold act_indices. apply list_elem_of_fmap. exists (Z.to_nat n). unfold yyLast in H. split; [lia|]. apply elem_of_seq. lia. }
  pose proof (forallb_elem _ _ _ acts_checked I) as K. unfold act_ok in K.
  destruct (at_ yyAct n) as [s'|]; [|done]. apply andb_prop in K as [K Ke]. apply andb_prop in K as [K Kc].
  apply andb_prop in K as [K1 K2]. exists s'. unfold sym_of in *.
  destruct (at_ yyChk s') as [c|]; [|done]. change (default 0 (Some c)) with c in *. split_and!; [done|unfold is_state; lia|done|].
  intros s pact Hs Hp E L. pose proof (forallb_elem _ _ _ Ke (elem_states s Hs)) as Q. cbv beta in Q.
  rewrite Hp in Q. rewrite (proj2 (Z.eqb_eq _ _) E), (proj2 (Z.ltb_lt _ _) L) in Q. done.
Qed.

Lemma elem_preds s s' : edge s s' = true -> s ∈ preds s'.
Proof.
  unfold edge, mem_edge, preds, preds_in. intros H. apply existsb_exists in H as ([a b] & I & E).
  unfold edge_eqb in E. cbn in E. apply andb_prop in E as [E1 E2]. apply Z.eqb_eq in E1, E2. subst.
  apply list_elem_of_fmap. exists (a, b). split; [done|]. apply list_elem_of_In, filter_In.
  split; [done|]. cbn. apply Z.eqb_refl.
Qed.
