(* ===== verification/FilterStream.v ===== *)
(** * Filter conditions: the tokens that the parser reads

    [stream] relates a lexer to the items it will produce, [tokens_of] gives the tokens
    that [Lex] makes of them, and [feeds] says which tokens a parser will read. *)

From S2P Require Import Prelude FilterAst FilterLex FilterLexThms FilterParser FilterYacc.

(** ** Items *)

Lemma next_item l : SInv lexStatements l -> exists s' l', NextItem (Some lexStatements) l = Some (s', l') /\
  input l' = input l /\
  (Typ (item l') = ERROR \/ Typ (item l') = EOF \/
   special (Typ (item l')) = false /\ s' = Some lexStatements /\ SInv lexStatements l' /\ (start l < start l')%nat).
Proof.
  intros (W & O & S).
  destruct (scan_item (scan_fuel (set_unscanned l)) lexStatements (set_unscanned l))
    as (s' & l' & l0 & f0 & E & G1 & G2 & Gb & G3 & G4 & G5); [done|done|unfold mu, scan_fuel; simpl; lia|].
  simpl in G1, G2. exists s', l'. split; [done|].
  assert (start l0 <= pos l0)%nat as Hsp.
  { destruct G3 as (_ & _ & G3). destruct f0; lia || (destruct G3; lia). }
  inversion G5 as [? ? Hi [_ He]|t ? [Ei Es Et Est Eop Ep] Hlt Ht|? [Ei Es Et Est Eop Ep]|? ? Hi Hsc]; subst.
  - split; [congruence|]. by left.
  - split; [congruence|]. right; right. rewrite Et. split; [done|]. split; [done|]. rewrite Est.
    split; [|lia]. split; [unfold within; rewrite Ei; lia|]. split; [|by rewrite Est].
    apply Eop. by destruct G3 as (_ & ? & _).
  - split; [congruence|]. right; left. by rewrite Et.
  - congruence.
Qed.

(** The items to come, up to EOF or an error. *)
Inductive stream : option stateFn -> Lexer -> list Item -> Prop :=
| stream_last s l s' l' :
    NextItem s l = Some (s', l') -> input l' = input l -> special (Typ (item l')) = true ->
    stream s l [item l']
| stream_item s l s' l' its :
    NextItem s l = Some (s', l') -> input l' = input l -> special (Typ (item l')) = false ->
    stream s' l' its -> stream s l (item l' :: its).

Lemma stream_total n : forall l, SInv lexStatements l -> (length (input l) - start l < n)%nat ->
  exists its, stream (Some lexStatements) l its /\ items n (Some lexStatements) l = Some its /\
    (length its <= n)%nat.
Proof.
  induction n as [|n IH]; intros l S L; [lia|].
  destruct (next_item l S) as (s' & l' & E & I & C). cbn [items]. rewrite E. cbn [mbind option_bind].
  destruct C as [C|[C|(C & -> & S' & L')]].
  1-2: exists [item l']; rewrite C; split; [|split; [done|cbn; lia]]; eapply stream_last; [done..|by rewrite C].
  destruct (IH l') as (its & T & Ei & Ll); [done| |].
  { destruct S' as (W & _ & E'). unfold within in W. rewrite I in *. lia. }
  exists (item l' :: its). split; [by eapply stream_item|]. split; [|cbn; lia].
  rewrite Ei. cbn [mbind option_bind]. by destruct (Typ (item l')).
Qed.

(** The items of a text are those of [lex_all]. *)
Lemma stream_text s : exists its, stream (Some lexStatements) (FilterLex.Lex s) its /\
  lex_all s = Some its /\ (length its <= S (length s))%nat.
Proof.
  destruct (stream_total (S (length s)) (FilterLex.Lex s)) as (its & T & E & L); [|cbn; lia|by exists its].
  split; [unfold within; cbn; lia|]. by split.
Qed.

(** ** Tokens *)

Inductive token :=
| TStart                  (* the injected START_WHERE_CONDITION *)
| TItem (i : Item)
| TErr (i : Item)         (* an error of the lexer, reported as the end of the input *)
| TEnd.                   (* the injected end after EOF *)

Definition num (t : token) : Z :=
  match t with
  | TStart => tok_START
  | TItem i => tok (Typ i)
  | TErr _ | TEnd => yyEofCode
  end.

(** The tokens of items: comments are skipped. *)
Definition tokens_of_item (i : Item) : list token :=
  match Typ i with
  | COMMENT => []
  | EOF => [TItem i; TEnd]
  | ERROR => [TErr i]
  | _ => [TItem i]
  end.

Definition tokens_of (its : list Item) : list token := flat_map tokens_of_item its.

(** Ends with the first token numbered as the end; no error is an item. *)
Inductive complete : list token -> Prop :=
| complete_last t : num t = yyEofCode -> complete [t]
| complete_cons t ts : num t <> yyEofCode -> (forall i, t = TItem i -> Typ i <> ERROR) -> complete ts ->
    complete (t :: ts).

Lemma tok_range t : 4 <= tok t <= 67.
Proof. unfold tok. destruct t; cbn; lia. Qed.

Lemma stream_complete s l its : stream s l its -> complete (tokens_of its).
Proof.
  induction 1 as [? ? ? ? _ _ Sp|? ? ? l' its _ _ Sp _ IH]; unfold tokens_of; cbn [flat_map].
  - unfold tokens_of_item. destruct (Typ (item l')) eqn:T; try done; cbn [app].
    + apply complete_cons; [|intros ? [= <-]; by rewrite T|by apply complete_last]. cbn. rewrite T. done.
    + by apply complete_last.
  - fold (tokens_of its). unfold tokens_of_item.
    assert (complete (TItem (item l') :: tokens_of its)).
    { apply complete_cons; [|intros ? [= <-] E; by rewrite E in Sp|done]. cbn [num]. pose proof (tok_range (Typ (item l'))). unfold yyEofCode. lia. }
    by destruct (Typ (item l')).
Qed.

(** What [Lex] will return, token by token. *)
Inductive feeds (p : parser) : list token -> Prop :=
| feeds_start its : injecting p = true -> inject p = START_WHERE_CONDITION ->
    stream (lexState p) (plex p) its -> (length its <= S (length (input (plex p))))%nat ->
    feeds p (TStart :: tokens_of its)
| feeds_items its : injecting p = false -> stream (lexState p) (plex p) its ->
    (length its <= S (length (input (plex p))))%nat -> feeds p (tokens_of its)
| feeds_end : injecting p = true -> inject p = 0 -> feeds p [TEnd]
| feeds_done : injecting p = false -> feeds p [].

(** What reading the token [t] leaves: its item, and an error when it is one. *)
Definition after_token (t : token) (p p' : parser) : Prop :=
  sitem (lval p') = match t with TItem i | TErr i => of_item i | _ => sitem (lval p) end /\
  node (lval p') = node (lval p) /\ nodes (lval p') = nodes (lval p) /\
  errs p' = errs p ++ (match t with
                       | TErr i => [mkParseError (mkRange (start (plex p')) (length (input (plex p)))) (MsgLex (Val i)) (input (plex p))]
                       | _ => [] end) /\
  warns p' = warns p /\ parseResult p' = parseResult p /\ input (plex p') = input (plex p).

Lemma token_of_item t : token_of (item_code t) = Some (tok t).
Proof. by destruct t. Qed.

(** The first item that is no comment. *)
Lemma next_token_spec n : forall p its t ts, stream (lexState p) (plex p) its -> (length its <= n)%nat ->
  tokens_of its = t :: ts -> exists p' i, next_token n p = Some p' /\
  p' = set_lexing (plex p') (lexState p') (of_item i) p /\ input (plex p') = input (plex p) /\
  Typ i <> COMMENT /\
  (if special (Typ i) then tokens_of_item i = t :: ts
   else t = TItem i /\ exists its', ts = tokens_of its' /\ stream (lexState p') (plex p') its' /\ (length its' <= length its)%nat).
Proof.
  induction n as [|n IH]; intros p its t ts S L T; [destruct S; cbn in L; lia|].
  cbn [next_token]. destruct S as [? ? s' l' E I Sp|? ? s' l' its E I Sp S]; rewrite E; cbn [mbind option_bind].
  - exists (set_lexing l' s' (of_item (item l')) p), (item l'). unfold tokens_of in T. cbn [flat_map] in T.
    rewrite app_nil_r in T. rewrite Sp. split; [by destruct (Typ (item l'))|]. split; [done|]. split; [done|].
    split; [by destruct (Typ (item l'))|done].
  - unfold tokens_of in T. cbn [flat_map] in T. fold (tokens_of its) in T.
    destruct (decide (Typ (item l') = COMMENT)) as [C|C].
    + rewrite C. unfold tokens_of_item in T. rewrite C in T.
      destruct (IH (set_lexing l' s' (of_item (item l')) p) its t ts) as (p' & i & E1 & E2 & E3 & E4 & E5); [done|cbn in L; lia|done|].
      exists p', i. split; [done|]. split; [by rewrite E2|]. split; [cbn in E3; congruence|]. split; [done|].
      destruct (special (Typ i)); [done|]. destruct E5 as (-> & its' & -> & S' & L'). split; [done|].
      exists its'. split; [done|]. split; [done|]. cbn. lia.
    + exists (set_lexing l' s' (of_item (item l')) p), (item l'). rewrite Sp.
      split; [by destruct (Typ (item l'))|]. split; [done|]. split; [done|]. split; [done|].
      assert (tokens_of_item (item l') = [TItem (item l')]) as Ti.
      { unfold tokens_of_item. by destruct (Typ (item l')). }
      rewrite Ti in T. cbn in T. injection T as <- <-. split; [done|]. exists its. split; [done|]. split; [done|]. cbn. lia.
Qed.

Lemma yylex1_feeds p t ts : feeds p (t :: ts) -> exists c p', yylex1 p = Some (c, num t, p') /\ 0 <= c /\
  feeds p' ts /\ after_token t p p' /\ char p' = char p.
Proof.
  intros F. remember (t :: ts) as all eqn:A. unfold yylex1, Lex. destruct F as [its Hi Hj S L|its Hi S L|Hi Hj|Hi].
  - injection A as <- <-. rewrite Hi, Hj. cbn [mbind option_bind]. do 2 eexists. split; [done|]. split; [done|].
    split; [by apply feeds_items|]. split; [|done]. repeat split; try done. cbn. by rewrite app_nil_r.
  - rewrite Hi. destruct (next_token_spec (comment_fuel p) p its t ts S) as (p1 & i & E & Ep & Ei & Ec & Sp); [done|done|].
    rewrite E. cbn [mbind option_bind].
    assert (sitem (lval p1) = of_item i) as Hit by (by rewrite Ep). rewrite Hit. cbn [iTyp of_item].
    destruct (special (Typ i)) eqn:Es.
    + unfold tokens_of_item in Sp. destruct (Typ i) eqn:Et; try done; injection Sp as <- <-.
      * unfold InjectItem. rewrite Ep. cbn [injecting set_lexing]. rewrite Hi. cbn. do 2 eexists. split; [by rewrite Et|].
        split; [done|]. split; [by apply feeds_end|]. split; [|done]. repeat split; try done; cbn; by rewrite ?app_nil_r.
      * do 2 eexists. split; [done|]. split; [done|]. split; [apply feeds_done; by rewrite Ep|]. rewrite Ep. split; [|done].
        repeat split; try done. cbn. by rewrite Ei.
    + destruct Sp as (-> & its' & -> & S' & L').
      assert (feeds p1 (tokens_of its')) as F' by (apply feeds_items; [by rewrite Ep|done|rewrite Ei; lia]).
      assert (forall q, (exists c, q = set_lastClosing c p1) \/ q = p1 -> feeds q (tokens_of its') /\ after_token (TItem i) p q /\ char q = char p) as Q.
      { intros q [[c ->]| ->].
        - split; [inversion F'; [by apply feeds_start|by apply feeds_items|by apply feeds_end|by apply feeds_done]|]. rewrite Ep. split; [|done].
          repeat split; try done. cbn. by rewrite app_nil_r.
        - split; [done|]. rewrite Ep. split; [|done]. repeat split; try done. cbn. by rewrite app_nil_r. }
      destruct (Typ i) eqn:Et; try done; do 2 eexists; (split; [cbn [num iTyp of_item fmap option_fmap option_map default]; rewrite ?Et; cbn [fmap option_fmap option_map default]; done|]); (split; [done|]); apply Q; eauto.
  - injection A as <- <-. rewrite Hi, Hj. cbn. do 2 eexists. split; [done|]. split; [done|].
    split; [by apply feeds_done|]. split; [|done]. repeat split; try done. cbn. by rewrite app_nil_r.
  - done.
Qed.
