(* ===== verification/FilterShapes.v ===== *)
(** * Filter conditions: the values that the parser builds

    [shape] says what the value of a grammar symbol looks like; every semantic action maps
    values of the symbols of its production to a value of its nonterminal, and no type
    assertion fails.  While nothing has been reported, the trees are [good]: without nil
    pointers, and with lists exactly after IN, NOT_IN, MATCH and NOT_MATCH. *)

From S2P Require Import Prelude FilterAst FilterLex FilterParser GoStrconv FilterYacc.

(** ** Trees *)

Definition is_column (n : Node) : bool := match n with Identifier _ | AttrExpr _ _ => true | _ => false end.
Definition is_list (n : Node) : bool := match n with NodeList _ => true | _ => false end.
Definition is_Regex (n : Node) : bool := match n with Regex _ => true | _ => false end.

Definition is_list_op (op : ItemType) : bool :=
  match op with IN | NOT_IN | MATCH | NOT_MATCH => true | _ => false end.

(** Operands that fit an operator. *)
Definition fits (op : ItemType) (l r : Node) : bool :=
  match r with
  | NodeList rs =>
      is_list_op op && is_column l &&
      match op with MATCH | NOT_MATCH => forallb is_Regex rs | _ => true end
  | _ => negb (is_list_op op)
  end.

Fixpoint good (n : Node) : bool :=
  match n with
  | BinaryExpr op (Some l) (Some r) => good l && good r && fits op l r
  | BinaryExpr _ _ _ => false
  | ParenExpr (Some p) => good p
  | ParenExpr None => false
  | NodeList l | WhereCondition l => forallb good l
  | NilRegex | NilBinaryExpr => false
  | _ => true
  end.

(** A condition of the result: nil, or a tree. *)
Definition good_cond (c : option Node) : bool :=
  match c with None => true | Some (WhereCondition l) => forallb good l | Some _ => false end.

(** Dotted names. *)
Fixpoint is_attr (n : Node) : bool :=
  match n with
  | AttrExpr o (Identifier _) => match o with Identifier _ => true | _ => is_attr o end
  | _ => false
  end.

(** ** Shapes *)

(** Nothing reported. *)
Definition clean (p : parser) : Prop := errs p = [] /\ warns p = [].

(** There is an error, or the result is a list of conditions. *)
Definition result_ok (p : parser) : Prop :=
  errs p <> [] \/ exists l, parseResult p = SConds l /\ (clean p -> forallb good_cond l = true).

Inductive kind :=
| KStart | KStmts | KWhere | KFilters | KArgs | KArray | KAttr | KString | KFunc | KCascade | KColumn
| KText | KTree | KToken.

Definition kind_of (x : Z) : kind :=
  if 0 <? x then KToken
  else if x =? N_start then KStart
  else if x =? N_stmts then KStmts
  else if x =? N_where_conditions then KWhere
  else if x =? N_filter_list then KFilters
  else if x =? N_function_args then KArgs
  else if x =? N_array_list then KArray
  else if x =? N_attr_expr then KAttr
  else if x =? N_string_literal then KString
  else if x =? N_function_expr then KFunc
  else if x =? N_cascade_functions then KCascade
  else if x =? N_columnref then KColumn
  else if (x =? N_identifier) || (x =? N_unary_op) || (x =? N_function_name) then KText
  else KTree.

Definition kshape (p : parser) (k : kind) (x : Z) (v : yySymType) : Prop :=
  match k with
  | KStart => result_ok p
  | KStmts => exists l, node v = SConds l /\ (clean p -> forallb good_cond l = true)
  | KWhere => node v = SNil \/ exists l, node v = SNode (WhereCondition l) /\ (clean p -> forallb good l = true)
  | KFilters => clean p -> forallb good (nodes v) = true
  | KArgs | KText => True
  | KArray => exists l, node v = SNode (NodeList l) /\ (clean p -> forallb good l = true)
  | KAttr => exists n, node v = SNode n /\ is_attr n = true
  | KString => exists s, node v = SNode (StringLiteral s)
  | KFunc => exists f l, node v = SNode (FuncExpr f l)
  | KCascade => exists l, node v = SNode (CascadeFunctions l)
  | KColumn => exists n, node v = SNode n /\ is_column n = true
  | KTree => exists n, node v = SNode n /\ is_list n = false /\ (clean p -> good n = true)
  | KToken => x <> tok_START -> x <> yyErrCode -> exists t, iTyp (sitem v) = Some t /\ tok t = x
  end.

Definition shape (p : parser) (x : Z) (v : yySymType) : Prop := kshape p (kind_of x) x v.

(** ** What an action may change *)

Record grows (p p' : parser) : Prop := {
  g_errs : exists l, errs p' = errs p ++ l;
  g_warns : exists l, warns p' = warns p ++ l;
  g_lex : plex p' = plex p;
  g_state : lexState p' = lexState p;
  g_lval : lval p' = lval p;
  g_char : char p' = char p;
  g_inject : inject p' = inject p;
  g_injecting : injecting p' = injecting p;
  g_result : parseResult p' = parseResult p \/ result_ok p'
}.

Lemma grows_refl p : grows p p.
Proof. split; try done; try (exists []; by rewrite app_nil_r). by left. Qed.

Lemma grows_errHere m p : grows p (errHere m p).
Proof. split; try done; [by eexists|exists []; by rewrite app_nil_r|by left]. Qed.

Lemma grows_addParseWarn r m p : grows p (addParseWarn r m p).
Proof. split; try done; [exists []; by rewrite app_nil_r|by eexists|by left]. Qed.

Lemma clean_back p p' : grows p p' -> clean p' -> clean p.
Proof.
  intros [[l Hl] [w Hw] _ _ _ _ _ _ _] [A B]. rewrite A in Hl. rewrite B in Hw.
  symmetry in Hl, Hw. apply app_nil in Hl as [? _]. by apply app_nil in Hw as [? _].
Qed.

Lemma errs_forward p p' : grows p p' -> errs p <> [] -> errs p' <> [].
Proof. intros G N E. destruct (g_errs _ _ G) as [l Hl]. rewrite E in Hl. by symmetry in Hl; apply app_nil in Hl as [? _]. Qed.

(** Reports are kept, and the result stays good. *)
Record keeps (p p' : parser) : Prop := {
  k_clean : clean p' -> clean p;
  k_errs : errs p <> [] -> errs p' <> [];
  k_result : parseResult p' = parseResult p \/ result_ok p'
}.

Lemma grows_keeps p p' : grows p p' -> keeps p p'.
Proof. intros G. split; [by eapply clean_back|by eapply errs_forward|apply G]. Qed.

Lemma result_ok_keeps p p' : keeps p p' -> result_ok p -> result_ok p'.
Proof.
  intros [C F [E|R']] R; [|done]. destruct R as [R|(l & El & Hl)]; [left; auto|].
  right. exists l. split; [congruence|auto].
Qed.

Lemma shape_keeps p p' x v : keeps p p' -> shape p x v -> shape p' x v.
Proof.
  intros K. pose proof (k_clean _ _ K). unfold shape.
  destruct (kind_of x); cbn [kshape]; try naive_solver. by apply result_ok_keeps.
Qed.

Lemma grows_trans p1 p2 p3 : grows p1 p2 -> grows p2 p3 -> grows p1 p3.
Proof.
  intros G1 G2. destruct G1 as [[l1 E1] [w1 W1]], G2 as [[l2 E2] [w2 W2]]. split; try congruence.
  - exists (l1 ++ l2). by rewrite app_assoc, <- E1.
  - exists (w1 ++ w2). by rewrite app_assoc, <- W1.
  - destruct g_result1; [|by right]. destruct g_result0; [left; congruence|].
    right. eapply result_ok_keeps; [|done]. apply grows_keeps. split; try done; [by eexists|by eexists|by left].
Qed.

#[export] Hint Resolve grows_refl grows_errHere grows_addParseWarn : core.

(** ** Helpers *)

Section actions.
Context (Unquote : bytes -> bytes * bool) (re_valid : string -> bool) (toLower : string -> string)
  (not_in : string).

Lemma unquoteString_grows s p t p' : unquoteString Unquote s p = (t, p') -> grows p p'.
Proof. unfold unquoteString. destruct (Unquote s) as [? []]; intros [= <- <-]; auto. Qed.

Lemma number_ok s p n p' : number s p = (n, p') ->
  grows p p' /\ is_list n = false /\ good n = true /\ is_list (negate n) = false /\ good (negate n) = true.
Proof.
  unfold number. destruct (ParseInt0 s); [intros [= <- <-]; auto|].
  destruct (ParseFloat s) as [f []]; intros [= <- <-]; auto.
Qed.

Lemma newRegex_ok s p n p' : newRegex re_valid s p = (n, p') ->
  grows p p' /\ is_list n = false /\ (clean p' -> good n = true) /\ (n = NilRegex \/ is_Regex n = true).
Proof.
  unfold newRegex. destruct (re_valid s); intros [= <- <-]; split; auto.
  split; [done|]. split; [|by left]. intros [_ W]. cbn in W. by apply app_nil in W as [_ ?].
Qed.

Lemma regex_list_ok l : forall p rs p', regex_list re_valid l p = (rs, p') ->
  grows p p' /\ forallb is_Regex rs = true /\ forallb good rs = true.
Proof.
  induction l as [|n l IH]; intros p rs p'; cbn [regex_list]; [intros [= <- <-]; auto|].
  assert (forall n', regex_list re_valid l (errHere (MsgListElem n') p) = (rs, p') ->
    grows p p' /\ forallb is_Regex rs = true /\ forallb good rs = true) as D.
  { intros n' E. apply IH in E as [G ?]. split; [|done]. eapply grows_trans; [|exact G]; auto. }
  destruct n; try (exact (D _)).
  destruct (newRegex re_valid Val p) as [re p1] eqn:E1. apply newRegex_ok in E1 as (G1 & _ & _ & R).
  destruct (regex_list re_valid l p1) as [rest p2] eqn:E2. apply IH in E2 as (G2 & F1 & F2).
  intros [= <- <-]. split; [by eapply grows_trans|]. destruct R as [-> |R]; [done|]. by destruct re.
Qed.

Lemma errHere_dirty m p : clean (errHere m p) -> False.
Proof. intros [E _]. cbn in E. by apply app_nil in E as [_ ?]. Qed.

(** A binary expression of a tree and a tree, with an operator that takes no list. *)
Lemma newBinExpr_tree a b op p e p' : is_list b = false -> is_list_op op = false ->
  (clean p -> good a = true) -> (clean p -> good b = true) ->
  newBinExpr re_valid (Some a) (Some b) op p = (e, p') ->
  grows p p' /\ is_list e = false /\ (clean p' -> good e = true) /\
  (e = NilBinaryExpr -> op = DIV \/ op = MOD).
Proof.
  intros Lb Lo Ga Gb. assert (clean p -> good (BinaryExpr op (Some a) (Some b)) = true) as GBp.
  { intros C. cbn. rewrite Ga, Gb by auto. unfold fits. rewrite Lo. by destruct b. }
  unfold newBinExpr.
  destruct op; try done; try (intros [= <- <-]; split_and!; [by auto|done|exact GBp|done]).
  all: destruct (is_zero b); intros [= <- <-]; split_and!; auto; try done;
    intros C; exfalso; eapply errHere_dirty; exact C.
Qed.

(** A column and a list, with an operator that takes one. *)
Lemma newBinExpr_list a l op p e p' : is_list_op op = true -> is_column a = true ->
  (clean p -> forallb good l = true) ->
  newBinExpr re_valid (Some a) (Some (NodeList l)) op p = (e, p') ->
  grows p p' /\ is_list e = false /\ (clean p' -> good e = true) /\ e <> NilBinaryExpr.
Proof.
  intros Lo Ca Gl. assert (good a = true) as Ga by (by destruct a).
  unfold newBinExpr. destruct op; try done.
  1-2: destruct (regex_list re_valid l p) as [rs p1] eqn:R; apply regex_list_ok in R as (G & F1 & F2);
    intros [= <- <-]; split_and!; try done; intros _; cbn; by rewrite Ga, F2, Ca, F1.
  all: intros [= <- <-]; split_and!; auto; intros C; cbn; by rewrite Ga, Ca, (Gl C).
Qed.

Lemma attr_String n : is_attr n = true -> exists s, Node_String toLower not_in n = Some s.
Proof.
  induction n; try done. cbn [is_attr Node_String]. destruct n2; try done. intros H.
  destruct n1; try done; cbn; [by eexists|]. destruct (IHn1 H) as [s E]. cbn in E. rewrite E. by eexists.
Qed.

(** ** Actions *)

(** The result of an action: a value of [x], in a parser that has grown. *)
Definition acts (p : parser) (x : Z) (o : option (yySymType * parser)) : Prop :=
  exists v' p', o = Some (v', p') /\ shape p' x v' /\ grows p p'.

Lemma acts_tree p p' x v n : kind_of x = KTree -> grows p p' -> is_list n = false -> (clean p' -> good n = true) ->
  acts p x (Some (set_node (SNode n) v, p')).
Proof. intros K G L Gn. exists (set_node (SNode n) v), p'. split; [done|]. split; [|done]. unfold shape. rewrite K. by eexists. Qed.

Lemma bin_tree_acts ret p x d1 d2 d3 v :
  kshape p KTree N_expr d1 -> kshape p KToken x d2 -> kshape p KTree N_expr d3 ->
  x <> tok_START -> x <> yyErrCode ->
  (forall t, tok t = x -> is_list_op t = false /\ (ret = true -> t <> DIV /\ t <> MOD)) ->
  acts p N_binary_expr (bin_action re_valid ret d1 d2 d3 v p).
Proof.
  intros (a & Ea & La & Ga) T (b & Eb & Lb & Gb) N1 N2 Op. destruct (T N1 N2) as (t & Et & Tt).
  destruct (Op t Tt) as [Lo Ret]. unfold bin_action. rewrite Ea, Eb, Et. cbn [as_opt mbind option_bind].
  destruct (newBinExpr re_valid (Some a) (Some b) t p) as [e p1] eqn:E.
  apply newBinExpr_tree in E as (G & Le & Ge & Ne); [|done..].
  assert ((if ret then set_ReturnBool e else Some e) = Some e) as ->.
  { destruct ret; [|done]. destruct (Ret eq_refl). destruct e; try done. by destruct (Ne eq_refl). }
  cbn [mbind option_bind]. by apply acts_tree.
Qed.

Lemma bin_list_acts p x d1 d2 d4 v :
  kshape p KColumn N_columnref d1 -> kshape p KToken x d2 -> kshape p KArray N_array_list d4 ->
  x <> tok_START -> x <> yyErrCode -> (forall t, tok t = x -> is_list_op t = true) ->
  acts p N_binary_expr (bin_action re_valid true d1 d2 d4 v p).
Proof.
  intros (a & Ea & Ca) T (l & Eb & Gl) N1 N2 Op. destruct (T N1 N2) as (t & Et & Tt).
  specialize (Op t Tt). unfold bin_action. rewrite Ea, Eb, Et. cbn [as_opt mbind option_bind].
  destruct (newBinExpr re_valid (Some a) (Some (NodeList l)) t p) as [e p1] eqn:E.
  apply newBinExpr_list in E as (G & Le & Ge & Ne); [|done..].
  assert (set_ReturnBool e = Some e) as -> by (by destruct e).
  cbn [mbind option_bind]. by apply acts_tree.
Qed.

(** The parser reports an error of the lexer before it reads on. *)
Definition lexerr_ok (p : parser) : Prop := iTyp (sitem (lval p)) = Some ERROR -> errs p <> [].

Lemma unexpected_acts p v : lexerr_ok p -> acts p N_start (Some (v, unexpected p)).
Proof.
  intros H. exists v, (unexpected p). unfold unexpected. split; [done|].
  assert (result_ok (errHere (MsgUnexpected (sitem (lval p))) p)) as R.
  { left. cbn. intros E. by apply app_nil in E as [_ ?]. }
  unfold lexerr_ok in H.
  destruct (iTyp (sitem (lval p))) as [[]|]; (split; [first [exact R|left; by apply H]|auto]).
Qed.

(** The shapes of the popped values, by their position. *)
Ltac open_shapes :=
  repeat match goal with
  | H : Forall2 _ (_ :: _) _ |- _ => inversion H; subst; clear H
  | H : Forall2 _ [] _ |- _ => inversion H; subst; clear H
  end;
  repeat match goal with
  | H : shape ?p ?x ?v |- _ => let k := eval vm_compute in (kind_of x) in change (kshape p k x v) in H
  end.

Ltac use_shapes :=
  repeat match goal with
  | H : kshape _ KToken _ _ |- _ => clear H
  | H : kshape _ _ _ _ |- _ => cbn [kshape] in H
  | H : exists _, _ |- _ => destruct H
  | H : _ /\ _ |- _ => destruct H
  | H : node ?d = _ |- _ => rewrite H in *; clear H
  end.

Ltac bin_rule :=
  first [eapply bin_tree_acts; [eassumption..| | |] | eapply bin_list_acts; [eassumption..| | |]];
  [done|done|let t := fresh in intros t; destruct t; done].

(** Values that a production leaves as they are. *)
Lemma acts_same p x y v : kshape p (kind_of y) y v -> kind_of y = kind_of x -> kind_of x <> KToken ->
  acts p x (Some (v, p)).
Proof.
  intros S K N. exists v, p. split; [done|]. split; [|by auto]. unfold shape. rewrite <- K. by destruct (kind_of y).
Qed.

(** A tree that is another kind of tree. *)
Lemma acts_as_tree p x v n : kind_of x = KTree -> node v = SNode n -> is_list n = false ->
  (clean p -> good n = true) -> acts p x (Some (v, p)).
Proof. intros K E L G. exists v, p. split; [done|]. split; [|by auto]. unfold shape. rewrite K. by exists n. Qed.

Lemma forallb_snoc {A} (f : A -> bool) l x : forallb f l = true -> f x = true -> forallb f (l ++ [x]) = true.
Proof. intros H1 H2. rewrite forallb_app. cbn. by rewrite H1, H2. Qed.

Lemma column_good n : is_column n = true -> is_list n = false /\ good n = true.
Proof. by destruct n. Qed.

(** Runs the helper functions and builds the value. *)
Ltac run_helpers :=
  repeat match goal with
  | |- context [unquoteString ?u ?s ?p] =>
      let E := fresh "E" in destruct (unquoteString u s p) eqn:E; apply unquoteString_grows in E
  | |- context [number ?s ?p] =>
      let E := fresh "E" in destruct (number s p) eqn:E; apply number_ok in E as (? & ? & ? & ? & ?)
  | |- context [newRegex ?v ?s ?p] =>
      let E := fresh "E" in destruct (newRegex v s p) eqn:E; apply newRegex_ok in E as (? & ? & ? & ?)
  end.

Ltac finish_rule :=
  use_shapes; run_helpers; cbn [as_opt as_node as_list as_string as_func mbind option_bind];
  eexists _, _; split; [reflexivity|]; split;
  [match goal with |- shape ?p ?x ?v =>
     let k := eval vm_compute in (kind_of x) in change (kshape p k x v); cbn [kshape node nodes set_node set_nodes] end
  |eauto using grows_trans].

Ltac where_cases :=
  match goal with H : _ \/ _ |- _ => let l := fresh "l" in let G := fresh "G" in destruct H as [->|(l & -> & G)] end.

(** One goal per rule, its shapes opened. *)
Ltac one_rule E V :=
  vm_compute in E; injection E as <- <-; open_shapes;
  try (specialize (V _ _ eq_refl); subst);
  match goal with |- acts _ _ (action _ _ _ _ ?k _ _ _) => let z := eval vm_compute in k in change k with z end;
  cbn [action]; try bin_rule.

Ltac each_rule k n E V :=
  lazymatch k with
  | O => try (exfalso; lia)
  | S ?k' => destruct n as [|n]; [one_rule E V|each_rule k' n E V]
  end.

Lemma action_ok r lhs rhs d v p :
  1 <= r <= 80 -> productions !! Z.to_nat r = Some (lhs, rhs) -> Forall2 (shape p) rhs d ->
  (forall d1 ds, d = d1 :: ds -> v = d1) -> lexerr_ok p ->
  acts p lhs (action Unquote re_valid toLower not_in r d v p).
Proof.
  intros R E F V X. remember (Z.to_nat r) as n eqn:Hn. assert (r = Z.of_nat n) as -> by lia. clear Hn.
  destruct n as [|n]; [lia|]. each_rule 80%nat n E V.
  all: try (finish_rule; eauto 6 using column_good; fail).
  - use_shapes. exists y, (set_result (SConds x) p). split; [done|].
    assert (result_ok (set_result (SConds x) p)) as Rk by (right; eauto).
    split; [exact Rk|]. split; try done; try (exists []; by rewrite app_nil_r). by right.
  - by apply unexpected_acts.
  - use_shapes. where_cases; finish_rule; eexists; (split; [done|]); [done|]. intros C. cbn. by rewrite G.
  - use_shapes. where_cases; finish_rule; eexists; (split; [done|]); [done|].
    intros C. apply forallb_snoc; auto.
  - finish_rule. eexists. split; [done|]. by destruct x.
  - use_shapes. destruct x as [| | | | | | | | | |o a| | | | | | | |]; try done. cbn [as_attr]. finish_rule.
    eexists. split; [done|]. by destruct o.
  - finish_rule. eexists. split; [done|]. intros C. apply forallb_snoc; auto.
  - finish_rule. eexists. split; [done|]. intros C. apply (forallb_snoc _ []); auto.
  - finish_rule. eexists. split; [done|]. by destruct x.
  - finish_rule. intros C. apply (forallb_snoc _ []); auto.
  - finish_rule. intros C. apply forallb_snoc; auto.
  - use_shapes. destruct (attr_String x) as [s E]; [done|]. destruct x; try done. cbn [as_attr mbind option_bind].
    rewrite E. by finish_rule.
  - finish_rule. eexists. split; [done|]. by destruct (iTyp (sitem y)) as [[]|].
  - use_shapes. cbn [as_string mbind option_bind]. finish_rule. eauto.
Qed.
End actions.
