(* ===== verification/FilterYaccThms.v ===== *)
(** * Filter conditions: the parser is total and accepts only the grammar

    The invariant of the automaton: the states on the stack follow the transitions of the
    tables, every value has the shape of its symbol, and, as long as there has been no
    syntax error, the values derive the tokens read so far.  A measure of the remaining
    tokens and the stack drops with every step. *)

From S2P Require Import Prelude FilterAst FilterLex FilterParser FilterYacc FilterAutomaton FilterStream FilterShapes.

(** ** Derivations *)

(** A symbol derives tokens by the productions of [gram.y]; the rule for errors is not
    used. *)
Inductive derives : Z -> list token -> Prop :=
| derives_token t : derives (num t) [t]
| derives_rule r lhs rhs segs :
    productions !! Z.to_nat r = Some (lhs, rhs) -> derives_all rhs segs -> derives lhs (concat segs)
with derives_all : list Z -> list (list token) -> Prop :=
| derives_nil : derives_all [] []
| derives_cons x rhs seg segs : derives x seg -> derives_all rhs segs -> derives_all (x :: rhs) (seg :: segs).

Lemma derives_all_snoc rhs segs x seg :
  derives_all rhs segs -> derives x seg -> derives_all (rhs ++ [x]) (segs ++ [seg]).
Proof. induction 1; intros; cbn; repeat constructor; auto. Qed.

(** ** The stack *)

(** [ok]: no syntax error so far.  The list is what the entries derive. *)
Inductive stk (p : parser) (ok : bool) : list yySymType -> list token -> Prop :=
| stk_bot v : yys v = 0 -> stk p ok [v] []
| stk_push v b lv seg ts :
    edge (yys b) (yys v) = true -> shape p (sym_of (yys v)) v ->
    (ok = true -> derives (sym_of (yys v)) seg) -> stk p ok (b :: lv) ts ->
    stk p ok (v :: b :: lv) (ts ++ seg).

Definition pot (lv : list yySymType) : Z := weights ((fun v => sym_of (yys v)) <$> lv).

Lemma weight_nonneg x : 0 <= weight x.
Proof.
  unfold weight. repeat match goal with |- context [if ?b then _ else _] => destruct b end; lia.
Qed.

Lemma bonus_nonneg s : 0 <= bonus s.
Proof. unfold bonus. destruct (existsb _ _); lia. Qed.

Lemma weights_app a b : weights (a ++ b) = weights a + weights b.
Proof. induction a as [|x a IH]; [done|]. unfold weights in *. cbn. rewrite IH. lia. Qed.

Lemma weights_rev a : weights (rev a) = weights a.
Proof. induction a as [|x a IH]; [done|]. cbn [rev]. rewrite weights_app, IH. unfold weights. cbn. lia. Qed.

Lemma pot_nonneg lv : 0 <= pot lv.
Proof.
  unfold pot, weights. induction lv as [|v lv IH]; cbn; [lia|]. pose proof (weight_nonneg (sym_of (yys v))). lia.
Qed.

Lemma pot_cons v lv : pot (v :: lv) = weight (sym_of (yys v)) + pot lv.
Proof. done. Qed.

Lemma pot_app a b : pot (a ++ b) = pot a + pot b.
Proof. unfold pot. by rewrite fmap_app, weights_app. Qed.

Lemma stk_state p ok v lv ts : stk p ok (v :: lv) ts -> is_state (yys v).
Proof. inversion 1; subst; [unfold is_state; lia|]. by eapply edge_states. Qed.

Lemma stk_weaken p p' ok ok' lv ts : keeps p p' -> (ok' = true -> ok = true) -> stk p ok lv ts -> stk p' ok' lv ts.
Proof.
  intros K O. induction 1; [by apply stk_bot|]. apply stk_push; auto. by eapply shape_keeps.
Qed.

(** The entries of a production are on top of the stack. *)
Lemma stk_pop p ok lhs gain rhs : forall v lv ts,
  back_ok lhs gain rhs (yys v) = true -> stk p ok (v :: lv) ts ->
  exists popped b below segs ts' s',
    v :: lv = popped ++ b :: below /\ Forall2 (shape p) rhs popped /\
    (ok = true -> derives_all (rev rhs) segs) /\ ts = ts' ++ concat segs /\ stk p ok (b :: below) ts' /\
    goto (- lhs) (yys b) = Some s' /\ edge (yys b) s' = true /\ sym_of s' = lhs /\
    weight lhs + bonus s' < gain /\ pot popped = weights rhs.
Proof.
  induction rhs as [|x rhs IH]; intros v lv ts B S; cbn [back_ok] in B.
  - destruct (goto (- lhs) (yys v)) as [s'|] eqn:G; [|done].
    apply andb_prop in B as [B B3]. apply andb_prop in B as [B1 B2].
    exists [], v, lv, [], ts, s'. split_and!; try done; [intros; constructor|by rewrite app_nil_r|lia|lia].
  - apply andb_prop in B as [B B3]. apply andb_prop in B as [B1 B2]. apply Z.eqb_eq in B1.
    inversion S as [? E|? b lv' seg ts' Ed Sh D S']; subst; [lia|].
    pose proof (forallb_elem _ _ _ B3 (elem_preds _ _ Ed)) as B'.
    destruct (IH b lv' ts' B' S') as (popped & b' & below & segs & ts1 & s' & E1 & F & D1 & E2 & S1 & G & Eg & Sy & W & P).
    exists (v :: popped), b', below, (segs ++ [seg]), ts1, s'. split_and!; try done.
    + cbn. by rewrite E1.
    + by constructor.
    + intros O. cbn [rev]. apply derives_all_snoc; auto.
    + rewrite E2, concat_app. cbn. by rewrite app_nil_r, app_assoc.
    + rewrite pot_cons, P. done.
Qed.

(** ** The invariant *)

(** The tokens that the parser has not shifted: the first one may have been read. *)
Definition pending (st : yyState) (ts : list token) : Prop :=
  if char (yp st) <? 0 then feeds (yp st) ts
  else exists t rest, ts = t :: rest /\ yytoken st = num t /\ feeds (yp st) rest /\
    match t with
    | TItem i => sitem (lval (yp st)) = of_item i
    | TErr _ => errs (yp st) <> []
    | _ => True
    end.

Record Inv (all : list token) (st : yyState) (pend : list token) : Prop := {
  i_stk : exists ts, stk (yp st) (Nerrs st =? 0) (live st) ts /\ (Nerrs st = 0 -> all = ts ++ pend);
  i_top : exists v lv, live st = v :: lv /\ yys v = yystate st;
  i_pend : pending st pend;
  i_complete : complete pend;
  i_lex : lexerr_ok (yp st);
  i_flag : 0 <= Errflag st <= 3 /\ 0 <= Nerrs st /\ (Errflag st <> 0 -> Nerrs st <> 0);
  i_errs : Nerrs st <> 0 -> yystate st = 3 \/ errs (yp st) <> []
}.

Definition measure (st : yyState) (pend : list token) : Z :=
  21 * zlen pend + (if Errflag st =? 3 then 0 else 9) + pot (live st) + bonus (yystate st).

(** A run that returns has an error or a result; without an error the tokens before the
    end derive from the start symbol. *)
Definition accepted (all : list token) (p : parser) : Prop :=
  result_ok p /\
  (errs p = [] -> exists ts, all = ts ++ [TEnd] /\ derives N_start ts).

Definition good_outcome (all : list token) (st : yyState) (pend : list token) (o : outcome) : Prop :=
  match o with
  | Next st' => exists pend', Inv all st' pend' /\ measure st' pend' < measure st pend
  | Ret _ st' => accepted all (yp st')
  end.

Lemma Inv_state all st pend : Inv all st pend -> is_state (yystate st).
Proof.
  intros I. destruct (i_stk _ _ _ I) as (ts & S & _), (i_top _ _ _ I) as (v & lv & E & <-).
  rewrite E in S. by eapply stk_state.
Qed.

Lemma after_token_keeps t p p' : after_token t p p' -> keeps p p'.
Proof.
  intros (_ & _ & _ & E & W & R & _). split; [|rewrite E; intros N; by destruct (errs p)|by left].
  intros [C1 C2]. rewrite E in C1. apply app_nil in C1 as [? _]. split; congruence.
Qed.

(** Reading the lookahead changes neither the stack nor the measure. *)
Lemma lookahead_char st : 0 <= char (yp st) -> lookahead st = Some st.
Proof. intros H. unfold lookahead. by rewrite (proj2 (Z.ltb_ge _ _)) by done. Qed.

Record same_but_lex (st st' : yyState) : Prop := {
  sl_live : live st' = live st;
  sl_dead : dead st' = dead st;
  sl_state : yystate st' = yystate st;
  sl_flag : Errflag st' = Errflag st;
  sl_nerrs : Nerrs st' = Nerrs st;
  sl_char : 0 <= char (yp st')
}.

Lemma feeds_set_char c p ts : feeds p ts -> feeds (set_char c p) ts.
Proof. inversion 1; [by apply feeds_start|by apply feeds_items|by apply feeds_end|by apply feeds_done]. Qed.

Lemma pending_read st ts : complete ts -> pending st ts -> exists st', lookahead st = Some st' /\
  same_but_lex st st' /\ pending st' ts /\ keeps (yp st) (yp st') /\
  (0 <= char (yp st) \/ exists t, head ts = Some t /\ after_token t (yp st) (yp st')).
Proof.
  intros C P. destruct (Z.ltb_spec (char (yp st)) 0) as [L|L].
  - unfold pending in P. rewrite (proj2 (Z.ltb_lt _ _)) in P by done.
    destruct ts as [|t ts]; [inversion C|].
    destruct (yylex1_feeds _ _ _ P) as (c & p' & E & Hc & F & A & Ch).
    unfold lookahead. rewrite (proj2 (Z.ltb_lt _ _)) by done. rewrite E. cbn [mbind option_bind].
    eexists. split; [done|]. split; [by split|].
    assert (after_token t (yp st) (set_char c p')) as A' by exact A.
    split; [|split; [by eapply after_token_keeps|right; eauto]].
    unfold pending. cbn. rewrite (proj2 (Z.ltb_ge _ _)) by done. exists t, ts. split; [done|].
    split; [done|]. split; [by apply feeds_set_char|]. destruct A as (A1 & _ & _ & A2 & _).
    destruct t; try done. rewrite A2. intros N. by apply app_nil in N as [_ ?].
  - rewrite lookahead_char by done. exists st. split; [done|]. split; [by split|]. split; [done|].
    split; [apply grows_keeps, grows_refl|by left].
Qed.

Lemma Inv_lookahead all st pend : Inv all st pend -> exists st', lookahead st = Some st' /\
  same_but_lex st st' /\ Inv all st' pend.
Proof.
  intros I. destruct (pending_read st pend (i_complete _ _ _ I) (i_pend _ _ _ I)) as (st' & E & [] & P & K & A).
  exists st'. split; [done|]. split; [by split|]. destruct I as [(ts & S & D) (v & lv & T1 & T2) _ C X Fl Er].
  split.
  - exists ts. rewrite sl_live0, sl_nerrs0. split; [|done]. by apply (stk_weaken _ _ _ _ _ _ K (fun O => O)).
  - exists v, lv. by rewrite sl_live0, sl_state0.
  - done.
  - done.
  - destruct A as [A|(t & Ht & A)]; [rewrite lookahead_char in E by done; by injection E as <-|].
    destruct A as (A1 & _ & _ & A2 & _). unfold lexerr_ok. rewrite A1, A2. destruct pend as [|t' pend]; [done|].
    injection Ht as ->. unfold pending in P. rewrite (proj2 (Z.ltb_ge _ _)) in P by done.
    destruct P as (? & ? & [= <- <-] & _ & _ & Q). destruct t; cbn.
    + rewrite app_nil_r. by apply X.
    + intros [= Te]. inversion C as [? Nn|? ? _ Nn]; subst; [|by destruct (Nn i eq_refl)].
      cbn in Nn. pose proof (tok_range (Typ i)). unfold yyEofCode in Nn. lia.
    + intros _ N. by apply app_nil in N as [_ ?].
    + rewrite app_nil_r. by apply X.
  - by rewrite sl_flag0, sl_nerrs0.
  - rewrite sl_nerrs0, sl_state0. intros N. destruct (Er N); [by left|right]. by apply (k_errs _ _ K).
Qed.

(** ** Reductions *)

Lemma shape_set_yys p x s v : shape p x v -> shape p x (set_yys s v).
Proof. done. Qed.

(** The reading side of a parser is untouched, and errors are kept. *)
Record calm (p p' : parser) : Prop := {
  c_errs : errs p <> [] -> errs p' <> [];
  c_lex : plex p' = plex p;
  c_state : lexState p' = lexState p;
  c_lval : lval p' = lval p;
  c_char : char p' = char p;
  c_inject : inject p' = inject p;
  c_injecting : injecting p' = injecting p
}.

Lemma grows_calm p p' : grows p p' -> calm p p'.
Proof. intros G. split; [by eapply errs_forward|apply G..]. Qed.

Lemma calm_refl p : calm p p.
Proof. by split. Qed.

Lemma pending_calm st st' pend : calm (yp st) (yp st') -> yytoken st' = yytoken st -> pending st pend -> pending st' pend.
Proof.
  intros G T. unfold pending. rewrite (c_char _ _ G), T.
  assert (forall ts, feeds (yp st) ts -> feeds (yp st') ts) as F.
  { destruct G. intros ts. inversion 1; [apply feeds_start|apply feeds_items|apply feeds_end|apply feeds_done]; congruence. }
  destruct (_ <? 0); [by apply F|]. intros (t & rest & E1 & E2 & E3 & Q). exists t, rest. split_and!; auto.
  rewrite (c_lval _ _ G). destruct t; auto. by apply (c_errs _ _ G).
Qed.

#[export] Hint Resolve grows_calm calm_refl : core.

Lemma Forall2_rev {A B} (R : A -> B -> Prop) l k : Forall2 R l k -> Forall2 R (rev l) (rev k).
Proof. induction 1; cbn [rev]; [done|]. apply Forall2_app; [done|]. by repeat constructor. Qed.

Lemma unexpected_errs p : lexerr_ok p -> errs (unexpected p) <> [].
Proof.
  unfold lexerr_ok, unexpected. intros H.
  assert (errs (errHere (MsgUnexpected (sitem (lval p))) p) <> []) by (cbn; intros E; by apply app_nil in E as [_ ?]).
  destruct (iTyp _) as [[]|]; auto.
Qed.

Section run.
Context (Unquote : bytes -> bytes * bool) (re_valid : string -> bool) (toLower : string -> string)
  (not_in : string) (all : list token).

Local Notation action := (action Unquote re_valid toLower not_in).
Local Notation reduce := (reduce Unquote re_valid toLower not_in).
Local Notation yydefault := (yydefault Unquote re_valid toLower not_in).
Local Notation step := (step Unquote re_valid toLower not_in).
Local Notation parse_loop := (parse_loop Unquote re_valid toLower not_in).

Lemma rule_facts s r : rule_ok s r = true -> exists lhs rhs, productions !! Z.to_nat r = Some (lhs, rhs) /\
  1 <= r <= 80 /\ at_ yyR1 r = Some (- lhs) /\ at_ yyR2 r = Some (zlen rhs) /\
  back_ok lhs (weights rhs + bonus s) (rev rhs) s = true.
Proof.
  unfold rule_ok. destruct (productions !! _) as [[lhs rhs]|]; [|done]. intros H.
  apply andb_prop in H as [H B]. apply andb_prop in H as [H B2]. apply andb_prop in H as [H B1].
  apply bool_decide_eq_true_1 in B1, B2. exists lhs, rhs. split_and!; done || lia.
Qed.

(** The popped values as the action sees them, and the stale value that it starts from. *)
Lemma popped_first popped b below dd : exists v, head (grow (b :: below) (rev popped ++ dd)) = Some v /\
  forall d1 ds, rev popped = d1 :: ds -> v = d1.
Proof.
  unfold grow. destruct (rev popped) as [|d1 ds]; cbn [app].
  - destruct dd as [|v dd]; [exists zero_sym|exists v]; (split; [done|]); intros ? ? [=].
  - exists d1. split; [done|]. by intros ? ? [= ->].
Qed.

Lemma reduce_ok st pend r : Inv all st pend -> rule_ok (yystate st) r = true -> (yystate st = 3 -> r = 3) ->
  exists st', reduce r st = Some st' /\ Inv all st' pend /\ measure st' pend < measure st pend.
Proof.
  intros [(ts & S & D) (v0 & lv & T1 & T2) P C X Fl Er] R R3.
  destruct (rule_facts _ _ R) as (lhs & rhs & Ep & Rr & E1 & E2 & B). rewrite <- T2 in B. rewrite T1 in S.
  destruct (stk_pop _ _ _ _ _ _ _ _ B S) as (popped & b & below & segs & ts' & s' & Ev & F & Dv & Et & S' & G & Eg & Sy & W & Pp).
  unfold FilterYacc.reduce. rewrite E2. cbn [mbind option_bind].
  assert (length popped = Z.to_nat (zlen rhs)) as Lp.
  { apply Forall2_length in F. rewrite length_rev in F. unfold zlen. lia. }
  rewrite T1, Ev, <- Lp, take_app_length, drop_app_length.
  destruct (popped_first popped b below (dead st)) as (v & Ea & Hv). rewrite Ea, E1. cbn [mbind option_bind head].
  rewrite G. cbn [mbind option_bind].
  assert (Forall2 (shape (yp st)) rhs (rev popped)) as F'.
  { rewrite <- (rev_involutive rhs). by apply Forall2_rev. }
  destruct (action_ok Unquote re_valid toLower not_in r lhs rhs (rev popped) v (yp st) Rr Ep F' Hv X)
    as (v' & p' & A & Sh & Gr).
  rewrite A. cbn [mbind option_bind]. eexists. split; [done|].
  pose proof (grows_keeps _ _ Gr) as K. split.
  - split; cbn [yystack live yystate yytoken yp Nerrs Errflag].
    + exists (ts' ++ concat segs). rewrite <- Et. split; [|done]. rewrite Et. apply stk_push; cbn [yys set_yys].
      * done.
      * rewrite Sy. by apply shape_set_yys.
      * intros O. rewrite Sy. eapply derives_rule; [done|]. rewrite <- (rev_involutive rhs). by apply Dv.
      * by apply (stk_weaken _ _ _ _ _ _ K (fun O => O)).
    + by do 2 eexists.
    + apply (pending_calm st); [by apply grows_calm|done|exact P].
    + done.
    + unfold lexerr_ok. rewrite (g_lval _ _ Gr). intros H. by apply (errs_forward _ _ Gr), X.
    + done.
    + intros N. destruct (Er N) as [E3|E3]; right; [|by apply (errs_forward _ _ Gr)].
      rewrite (R3 E3) in A, Ep. vm_compute in Ep. injection Ep as <- <-.
      apply Forall2_length in F'. destruct (rev popped) as [|d1 [|? ?]]; try done. cbn [FilterYacc.action] in A. injection A as _ <-. by apply unexpected_errs.
  - unfold measure. cbn [yystack live yystate Errflag]. rewrite T1, Ev, pot_app, pot_cons, Pp, weights_rev.
    cbn [yys set_yys]. rewrite Sy, <- T2. lia.
Qed.

(** ** Errors *)

Lemma recover_ok p ok lv ts : stk p ok lv ts -> forall dd, exists s b below dd' ts',
  recover_pop lv dd = Some (s, b :: below, dd') /\ edge (yys b) s = true /\ sym_of s = yyErrCode /\
  stk p false (b :: below) ts' /\ pot (b :: below) <= pot lv.
Proof.
  induction 1 as [v E|v b lv seg ts Ed Sh D S IH]; intros dd; cbn [recover_pop].
  - rewrite E. exists 3, v, [], dd, []. split; [done|]. rewrite E. split; [done|]. split; [done|].
    split; [by apply stk_bot|done].
  - assert (stk p false (v :: b :: lv) (ts ++ seg)) as S0.
    { apply stk_push; [done|done|done|]. eapply stk_weaken; [apply grows_keeps, grows_refl| |exact S]. done. }
    destruct (edge_states _ _ Ed) as (_ & Sv & _). destruct (state_facts _ Sv) as ((pact & Ep & _) & _).
    rewrite Ep. cbn [mbind option_bind].
    assert (forall o : option Z, (forall s, o = Some s -> edge (yys v) s = true /\ sym_of s = yyErrCode) ->
      exists s b0 below dd' ts', match o with Some s => Some (s, v :: b :: lv, dd) | None => recover_pop (b :: lv) (v :: dd) end
        = Some (s, b0 :: below, dd') /\ edge (yys b0) s = true /\ sym_of s = yyErrCode /\
        stk p false (b0 :: below) ts' /\ pot (b0 :: below) <= pot (v :: b :: lv)) as K.
    { intros [s|] H.
      - destruct (H s eq_refl). exists s, v, (b :: lv), dd, (ts ++ seg). by split_and!.
      - destruct (IH (v :: dd)) as (s & b0 & below & dd' & ts' & E & ? & ? & ? & Pt).
        exists s, b0, below, dd', ts'. split_and!; try done. rewrite (pot_cons v). pose proof (weight_nonneg (sym_of (yys v))). lia. }
    apply K. intros s. destruct (_ && _) eqn:Rg; [|done].
    destruct (act_facts (pact + yyErrCode)) as (s0 & Ea & St & Ec & Edg); [lia|]. rewrite Ea. cbn [mbind option_bind].
    rewrite Ec. cbn [mbind option_bind]. destruct (Z.eqb_spec (sym_of s0) yyErrCode) as [Es|]; [|done]. intros [= <-].
    split; [|done]. eapply Edg; [done|done|lia|]. rewrite Es. done.
Qed.

Lemma complete_tail t ts : complete (t :: ts) -> num t <> yyEofCode -> complete ts.
Proof. inversion 1; done. Qed.

Lemma complete_end t ts : complete (t :: ts) -> num t = yyEofCode -> ts = [].
Proof. inversion 1; done. Qed.

Lemma pending_next st pend : 0 <= char (yp st) -> pending st pend -> exists t rest, pend = t :: rest /\
  yytoken st = num t /\ feeds (yp st) rest /\
  match t with
  | TItem i => sitem (lval (yp st)) = of_item i
  | TErr _ => errs (yp st) <> []
  | _ => True
  end.
Proof. intros H. unfold pending. by rewrite (proj2 (Z.ltb_ge _ _)) by done. Qed.

Lemma error_ok st pend : Inv all st pend -> 0 <= char (yp st) -> yystate st <> 3 ->
  good_outcome all st pend (yyerror st).
Proof.
  intros [(ts & S & D) (v0 & lv & T1 & T2) P C X (F1 & F2 & F3) Er] Ch N3.
  destruct (pending_next _ _ Ch P) as (t & rest & -> & Et & Fd & _).
  unfold yyerror. destruct (Z.eqb_spec (Errflag st) 3) as [E3|E3].
  - assert (Nerrs st <> 0) as Nn by (apply F3; lia). destruct (Er Nn) as [|Ne]; [done|].
    destruct (Z.eqb_spec (yytoken st) yyEofCode) as [Ee|Ee]; cbn [good_outcome].
    + split; [by left|done].
    + exists rest. split.
      * split; cbn [live yystate yytoken yp Nerrs Errflag].
        -- exists ts. split; [|done]. refine (stk_weaken (yp st) _ _ _ _ _ _ (fun O => O) S). by split; [| |left].
        -- eauto.
        -- unfold pending. cbn. by apply feeds_set_char.
        -- eapply complete_tail; [exact C|congruence].
        -- exact X.
        -- split; [lia|done].
        -- by right.
      * unfold measure, zlen. cbn [live yystate Errflag length]. rewrite E3. lia.
  - assert (Nerrs st <> 0 \/ Errflag st = 0) as Cs by (destruct (Z.eq_dec (Errflag st) 0); [by right|left; auto]).
    set (nerrs := if _ =? 0 then _ else _).
    assert (nerrs <> 0 /\ 0 <= nerrs) as [Nn1 Nn2] by (unfold nerrs; destruct (Z.eqb_spec (Errflag st) 0); lia).
    destruct (recover_ok _ _ _ _ S (dead st)) as (s & b & below & dd' & ts' & E & Ed & Es & S' & Pt). rewrite E.
    assert (s = 3) as ->.
    { destruct (edge_states _ _ Ed) as (_ & Sv & _). by apply (proj1 (proj2 (proj2 (state_facts _ Sv)))). }
    cbn [good_outcome]. exists (t :: rest). split.
    + split; cbn [yystack live yystate yytoken yp Nerrs Errflag].
      * exists (ts' ++ []). rewrite (proj2 (Z.eqb_neq nerrs 0)) by done. split; [|done].
        apply stk_push; cbn [yys set_yys]; [done| |done|done]. rewrite Es. intros _ N. by destruct N.
      * by do 2 eexists.
      * exact P.
      * exact C.
      * exact X.
      * split; [lia|done].
      * by left.
    + unfold measure. cbn [yystack live yystate Errflag]. rewrite (proj2 (Z.eqb_neq (Errflag st) 3)) by done.
      rewrite pot_cons. cbn [yys set_yys]. rewrite Es. pose proof (bonus_nonneg (yystate st)).
      change (weight yyErrCode) with 8. change (bonus 3) with 0. change (3 =? 3) with true. cbn [yys]. lia.
Qed.

(** ** Steps *)

Lemma only_below_start s : edge s 1 = true -> s = 0.
Proof.
  intros H. apply elem_preds in H. assert (preds 1 = [0]) as E by reflexivity. rewrite E in H.
  by apply list_elem_of_singleton in H.
Qed.

Lemma accept_token t r : rule_on 1 t = Some r -> r < 0 -> t = yyEofCode.
Proof.
  change (rule_on 1 t) with (exca_rule [1; -1; -2; 0; -1; 11; 7; 52; 17; 52; -2; 10; -1; 12; 7; 53; 17; 53; -2; 8; -1; 20; 15; 72; -2; 12; -1; 21; 15; 73; -2; 13; -1; 107; 15; 72; -2; 12] t).
  cbn [exca_rule]. change (1 <? 0) with false. change (-2 <? 0) with true. cbn [orb].
  destruct (Z.eqb_spec 1 t) as [<-|]; [done|]. intros [= <-]. lia.
Qed.

Lemma accept_ok st pend r : Inv all st pend -> 0 <= char (yp st) -> yystate st = 1 ->
  rule_on 1 (yytoken st) = Some r -> r < 0 -> accepted all (yp st).
Proof.
  intros [(ts & S & D) (v0 & lv & T1 & T2) P C X Fl Er] Ch E1 R N. rewrite T1 in S. rewrite E1 in T2.
  inversion S as [? E|? b lv' seg ts' Ed Sh Dv S']; subst; [lia|].
  rewrite T2 in *. pose proof (only_below_start _ Ed) as E0.
  inversion S' as [|? b' ? ? ? Ed']; subst.
  2:{ rewrite E0 in Ed'. by destruct (edge_states _ _ Ed') as (_ & _ & []). }
  split; [exact Sh|]. intros Ee. assert (Nerrs st = 0) as N0.
  { destruct (Z.eq_dec (Nerrs st) 0); [done|]. destruct (Er n); [congruence|done]. }
  destruct (pending_next _ _ Ch P) as (t & rest & -> & Et & _ & Q).
  pose proof (accept_token _ _ R N) as Te. rewrite Et in Te. rewrite (complete_end _ _ C Te) in D.
  assert (t = TEnd) as ->.
  { destruct t; try done. cbn in Te. pose proof (tok_range (Typ i)). unfold yyEofCode in Te. lia. }
  exists seg. split; [by apply D|]. apply Dv. by rewrite N0.
Qed.

(** The default action: with the lookahead read where the rule depends on it. *)
Lemma default_ok st pend : Inv all st pend ->
  (0 <= char (yp st) \/ forall t, rule_on (yystate st) t <> Some 0) ->
  exists o, yydefault st = Some o /\ good_outcome all st pend o.
Proof.
  intros I Ch. pose proof (Inv_state _ _ _ I) as Hs. destruct (state_facts _ Hs) as (_ & _ & _ & Hr).
  destruct (Inv_lookahead _ _ _ I) as (st1 & El & Sl & I1).
  assert (measure st1 pend = measure st pend) as M.
  { unfold measure. by rewrite (sl_live _ _ Sl), (sl_state _ _ Sl), (sl_flag _ _ Sl). }
  assert (forall st' r, (st' = st \/ st' = st1) -> Inv all st' pend -> rule_on (yystate st) (yytoken st') = Some r ->
    0 < r -> rule_ok (yystate st) r = true -> exists o, (Next <$> reduce r st') = Some o /\ good_outcome all st pend o) as Red.
  { intros st' r Eq I' R L Rk. assert (yystate st' = yystate st) as Ey by (destruct Eq as [->| ->]; [done|apply Sl]).
    assert (measure st' pend = measure st pend) as M' by (by destruct Eq as [->| ->]).
    destruct (reduce_ok st' pend r I') as (st2 & E & I2 & M2).
    - by rewrite Ey.
    - rewrite Ey. intros E3. rewrite E3 in R. by injection R.
    - rewrite E. exists (Next st2). split; [done|]. exists pend. split; [done|lia]. }
  unfold FilterYacc.yydefault, rule_on in *.
  destruct (at_ yyDef (yystate st)) as [d|] eqn:Ed; [|by destruct (Hr 0) as (? & ? & _)]. cbn [mbind option_bind] in *.
  destruct (Z.eqb_spec d (-2)) as [->|Nd].
  - rewrite El. cbn [mbind option_bind]. destruct (exca_find yyExca (yystate st)) as [e|] eqn:Ee; [|by destruct (Hr 0) as (? & ? & _)].
    cbn [mbind option_bind] in *. destruct (Hr (yytoken st1)) as (r & R & Cs). rewrite R. cbn [mbind option_bind].
    destruct (Z.ltb_spec r 0) as [Lr|Lr].
    + destruct Cs as [->|[[_ E1]|[? _]]]; [lia| |lia]. exists (Ret 0 st1). split; [done|]. cbn [good_outcome].
      eapply (accept_ok st1 pend r I1); [apply Sl|by rewrite (sl_state _ _ Sl)| |done].
      unfold rule_on. rewrite E1 in Ed, Ee. rewrite Ed. cbn [mbind option_bind]. rewrite Ee. exact R.
    + destruct (Z.eqb_spec r 0) as [->|N0].
      * exists (yyerror st1). split; [done|].
        assert (good_outcome all st1 pend (yyerror st1)) as G.
        { apply error_ok; [done|apply Sl|]. rewrite (sl_state _ _ Sl). intros E3. rewrite E3 in Ed. by injection Ed. }
        destruct (yyerror st1); [|done]. destruct G as (pend' & ? & ?). exists pend'. split; [done|lia].
      * eapply Red; [by right|done| |lia|]; [by rewrite R|]. destruct Cs as [?|[[? _]|[_ ?]]]; [lia|lia|done].
  - destruct (Hr (yytoken st)) as (r & [= <-] & Cs). destruct (Z.eqb_spec d 0) as [->|N0].
    + exists (yyerror st). split; [done|]. destruct Ch as [Ch|Ch]; [|by destruct (Ch 0)].
      apply error_ok; [done|done|]. intros E3. rewrite E3 in Ed. by injection Ed.
    + destruct Cs as [?|[[L E1]|[L Rk]]]; [lia| |].
      * rewrite E1 in Ed. vm_compute in Ed. congruence.
      * eapply Red; [by left|done|reflexivity|done|done].
Qed.

Lemma yystep_ok st pend : Inv all st pend -> exists o, step st = Some o /\ good_outcome all st pend o.
Proof.
  intros I. pose proof (Inv_state _ _ _ I) as Hs. destruct (state_facts _ Hs) as ((pact & Ep & Hp) & _).
  unfold FilterYacc.step. rewrite Ep. cbn [mbind option_bind].
  destruct (Z.leb_spec pact yyFlag) as [Lp|Lp]; [apply default_ok; [done|right; auto]|].
  destruct (Inv_lookahead _ _ _ I) as (st1 & El & Sl & I1). rewrite El. cbn [mbind option_bind].
  assert (measure st1 pend = measure st pend) as M.
  { unfold measure. by rewrite (sl_live _ _ Sl), (sl_state _ _ Sl), (sl_flag _ _ Sl). }
  assert (exists o, yydefault st1 = Some o /\ good_outcome all st pend o) as Df.
  { destruct (default_ok st1 pend I1) as (o & E & G); [left; apply Sl|]. exists o. split; [done|].
    destruct o; [|done]. destruct G as (pend' & ? & ?). exists pend'. split; [done|lia]. }
  destruct (_ || _) eqn:Rg; [done|]. apply orb_false_iff in Rg as [R1 R2]. apply Z.ltb_ge in R1. apply Z.leb_gt in R2.
  destruct (act_facts (pact + yytoken st1)) as (s & Ea & St & Ec & Edg); [done|]. rewrite Ea. cbn [mbind option_bind].
  rewrite Ec. cbn [mbind option_bind]. destruct (Z.eqb_spec (sym_of s) (yytoken st1)) as [Es|]; [|done].
  eexists. split; [done|]. cbn [good_outcome].
  destruct I1 as [(ts & S & D) (v0 & lv & T1 & T2) P C X (F1 & F2 & F3) Er].
  destruct (pending_next _ _ (sl_char _ _ Sl) P) as (t & rest & -> & Et & Fd & Q).
  destruct (state_facts _ St) as (_ & Ne & _). assert (num t <> yyEofCode) as Nt by congruence.
  assert (0 < num t) as Pt.
  { destruct t; cbn; [done| |done|done]. pose proof (tok_range (Typ i)). lia. }
  assert (edge (yys v0) s = true) as Ed.
  { eapply (Edg _ pact); [by rewrite T2, (sl_state _ _ Sl)|by rewrite T2, (sl_state _ _ Sl)|lia|lia]. }
  exists rest. split.
  - split; cbn [yystack live yystate yytoken yp Nerrs Errflag].
    + exists (ts ++ [t]). split; [|intros N; rewrite (D N); by rewrite <- app_assoc].
      rewrite T1 in *. apply stk_push; cbn [yys set_yys]; [done| | |].
      * rewrite Es, Et. unfold shape, kind_of. rewrite (proj2 (Z.ltb_lt _ _) Pt). intros N1 N2.
        destruct t; try done. cbn. rewrite Q. by eexists.
      * intros _. rewrite Es, Et. constructor.
      * refine (stk_weaken (yp st1) _ _ _ _ _ _ (fun O => O) S). by split; [| |left].
    + by do 2 eexists.
    + unfold pending. cbn. by apply feeds_set_char.
    + by eapply complete_tail.
    + exact X.
    + destruct (Z.ltb_spec 0 (Errflag st1)); (split; [lia|]); (split; [done|]); intros ?; apply F3; lia.
    + intros N. right. destruct (Er N) as [E3|]; [|done]. exfalso.
      rewrite (sl_state _ _ Sl) in E3. rewrite E3 in Ep. vm_compute in Ep. injection Ep as <-. unfold yyFlag in Lp. lia.
  - rewrite <- M. unfold measure, zlen. cbn [yystack live yystate Errflag length]. rewrite pot_cons. cbn [yys set_yys].
    rewrite Es, Et. assert (weight (num t) = 8) as -> by (unfold weight; by rewrite (proj2 (Z.ltb_lt _ _) Pt)).
    assert (bonus s <= 3) by (unfold bonus; destruct (existsb _ _); lia). pose proof (bonus_nonneg (yystate st1)).
    destruct (_ =? 3), (_ =? 3); lia.
Qed.

Lemma loop_ok n : forall st pend, Inv all st pend -> measure st pend < Z.of_nat n ->
  exists c st', parse_loop n st = Some (c, st') /\ accepted all (yp st').
Proof.
  induction n as [|n IH]; intros st pend I M.
  - pose proof (pot_nonneg (live st)). pose proof (bonus_nonneg (yystate st)). unfold measure, zlen in M.
    destruct (Errflag st =? 3); lia.
  - cbn [FilterYacc.parse_loop]. destruct (yystep_ok _ _ I) as (o & E & G). rewrite E. cbn [mbind option_bind].
    destruct o as [st'|c st']; [|by exists c, st']. destruct G as (pend' & I' & M'). apply (IH st' pend' I'). lia.
Qed.

(** ** A whole run *)

Lemma tokens_head its t ts : tokens_of its = t :: ts -> match t with TItem _ | TErr _ => True | _ => False end.
Proof.
  unfold tokens_of. induction its as [|i its IH]; [done|]. cbn [flat_map]. unfold tokens_of_item.
  destruct (Typ i); cbn [app]; try (by intros [= <- _]); exact IH.
Qed.

Lemma tokens_length s l its : stream s l its -> (length (tokens_of its) <= S (length its))%nat.
Proof.
  induction 1 as [? ? ? l' _ _ _|? ? ? l' its _ _ Sp _ IH]; unfold tokens_of in *; cbn [flat_map length];
    rewrite length_app; unfold tokens_of_item at 1; destruct (Typ (item l')); cbn in *; done || lia.
Qed.

(** The first two tokens: START_WHERE_CONDITION is shifted, and the next one is read before
    the parser can report anything. *)
Lemma start_ok p its : injecting p = true -> inject p = START_WHERE_CONDITION ->
  stream (lexState p) (plex p) its -> (length its <= S (length (input (plex p))))%nat ->
  all = TStart :: tokens_of its ->
  exists st1 st2, step (Parse_start p) = Some (Next st1) /\ step st1 = step st2 /\
    Inv all st2 (tokens_of its) /\ measure st2 (tokens_of its) = 21 * zlen (tokens_of its) + 20.
Proof.
  intros Hi Hj S L A.
  assert (feeds (set_char (-1) p) (TStart :: tokens_of its)) as F by (apply feeds_set_char; by apply feeds_start).
  destruct (yylex1_feeds _ _ _ F) as (c & p1 & E & Hc & F1 & _ & _).
  set (st1 := yystack 2 (lval (set_char c p1)) (mkYy (set_char (-1) (set_char c p1)) [set_yys 0 zero_sym]
    (tail (grow [] (stack p))) 2 (-1) 0 0)).
  assert (step (Parse_start p) = Some (Next st1)) as E1.
  { unfold FilterYacc.step. change (at_ yyPact (yystate (Parse_start p))) with (Some 3). cbn [mbind option_bind].
    change (3 <=? yyFlag) with false. cbv iota. unfold lookahead.
    change (char (yp (Parse_start p)) <? 0) with true. cbv iota.
    change (yp (Parse_start p)) with (set_char (-1) p). rewrite E. reflexivity. }
  pose proof (stream_complete _ _ _ S) as C.
  destruct (pending_read st1 (tokens_of its)) as (st2 & El & Sl & P & K & R); [done|by apply feeds_set_char, feeds_set_char|].
  exists st1, st2. split; [exact E1|]. split.
  { unfold FilterYacc.step. rewrite (sl_state _ _ Sl). change (at_ yyPact (yystate st1)) with (Some 98).
    cbn [mbind option_bind]. change (98 <=? yyFlag) with false. cbv iota. rewrite El, lookahead_char by apply Sl. done. }
  destruct R as [R|(t & Ht & Af)]; [cbn in R; lia|]. destruct (tokens_of its) as [|t' ts] eqn:Et; [done|].
  injection Ht as ->. split.
  - destruct Sl. split.
    + exists ([] ++ [TStart]). rewrite sl_live0, sl_nerrs0. split; [|done]. apply stk_push; [reflexivity| |intros _; apply (derives_token TStart)|by apply stk_bot].
      intros N. by destruct N.
    + rewrite sl_live0, sl_state0. by do 2 eexists.
    + done.
    + done.
    + destruct Af as (A1 & _ & _ & A2 & _). unfold lexerr_ok. rewrite A1, A2.
      pose proof (tokens_head _ _ _ Et). destruct t; try done.
      * intros [= Te]. inversion C as [? Nn|? ? _ Nn]; subst; [|by destruct (Nn i eq_refl)].
        cbn in Nn. pose proof (tok_range (Typ i)). unfold yyEofCode in Nn. lia.
      * intros _ N. by apply app_nil in N as [_ ?].
    + rewrite sl_flag0, sl_nerrs0. done.
    + by rewrite sl_nerrs0.
  - unfold measure. rewrite (sl_live _ _ Sl), (sl_state _ _ Sl), (sl_flag _ _ Sl).
    change (pot (live st1)) with 8. change (bonus (yystate st1)) with 3. change (Errflag st1 =? 3) with false. cbv iota. lia.
Qed.
End run.

Section conds.
Context (Unquote : bytes -> bytes * bool) (re_valid : string -> bool) (toLower : string -> string)
  (not_in : string).

Local Notation GetConds := (GetConds Unquote re_valid toLower not_in).

(** Every text is parsed: the run ends within its fuel and without a panic. *)
Lemma doParse_ok pool text its : stream (Some lexStatements) (FilterLex.Lex text) its ->
  (length its <= S (length text))%nat ->
  exists p, doParse Unquote re_valid toLower not_in (newParser text pool) = Some p /\
    accepted (TStart :: tokens_of its) p.
Proof.
  intros St L. unfold doParse. change (InjectItem START_WHERE_CONDITION (newParser text pool))
    with (Some (set_inject START_WHERE_CONDITION true (newParser text pool))). cbn [mbind option_bind].
  set (p0 := set_inject _ _ _).
  destruct (start_ok Unquote re_valid toLower not_in (TStart :: tokens_of its) p0 its) as (st1 & st2 & E1 & E2 & I & M);
    [done|done|done|done|done|].
  unfold Parse, parse_fuel. change (length (input (plex p0))) with (length text).
  pose proof (tokens_length _ _ _ St) as Lt.
  destruct (40 * (length text + 3))%nat as [|[|n]] eqn:Hn; [lia|lia|].
  destruct (loop_ok Unquote re_valid toLower not_in _ (S n) st2 (tokens_of its) I) as (c & st' & E & A); [rewrite M; unfold zlen; lia|].
  cbn [FilterYacc.parse_loop]. rewrite E1. cbn [mbind option_bind]. rewrite E2.
  cbn [FilterYacc.parse_loop] in E. rewrite E. cbn [mbind option_bind]. by eexists.
Qed.

Lemma getconds_total pool text : exists res p its, GetConds pool text = Some (res, p) /\
  lex_all text = Some its /\
  match res with
  | Ok l => errs p = [] /\ (warns p = [] -> forallb good_cond l = true) /\
            exists ts, TStart :: tokens_of its = ts ++ [TEnd] /\ derives N_start ts
  | Err e => head (errs p) = Some e
  end.
Proof.
  destruct (stream_text text) as (its & St & E & L).
  destruct (doParse_ok pool text its St L) as (p & Ep & R & D). unfold FilterYacc.GetConds. rewrite Ep.
  cbn [mbind option_bind]. destruct (errs p) as [|e es] eqn:Ee.
  - destruct R as [|(l & El & G)]; [done|]. rewrite El. exists (Ok l), p, its. split; [done|]. split; [done|].
    split; [done|]. split; [|by apply D]. intros W. apply G. by split.
  - exists (Err e), p, its. by rewrite Ee.
Qed.

(** C5: every text is parsed, whatever parser the pool hands out: the run ends within its
    fuel and without a panic, and it gives a list of conditions or the first error.  The
    tokens of an accepted text derive from the grammar of [gram.y], and when there was no
    warning either, its trees hold no nil pointer and every operator has operands that
    fit it. *)
Theorem parser_total pool text : exists res p its, GetConds pool text = Some (res, p) /\
  lex_all text = Some its /\
  match res with
  | Ok l => errs p = [] /\ (warns p = [] -> forallb good_cond l = true) /\
            exists ts, TStart :: tokens_of its = ts ++ [TEnd] /\ derives N_start ts
  | Err e => head (errs p) = Some e
  end.
Proof. apply getconds_total. Qed.
End conds.
