(* ===== verification/FilterDrive.v ===== *)
(** * Filter conditions: the language of conditions

    Conditions as a user writes them: operands, names, operators with the precedences of
    [gram.y], and lists; the tokens that they consist of, and the trees that they mean. *)

From S2P Require Import Prelude FilterAst FilterLex FilterParser GoStrconv FilterYacc FilterStream FilterAutomaton FilterShapes FilterYaccThms.

(** ** Surface syntax *)

(** Operands; the texts are those of the tokens. *)
Inductive atom : Type :=
| ANum (sign : option bool) (text : bytes)      (* a number, and its sign: true for minus *)
| AStr (text : bytes)
| AId (text : bytes)
| AQuoted (text : bytes)                        (* a name in back quotes *)
| AIdent (text : bytes)                         (* identifier('...') *)
| ANil | ANull | ATrue | AFalse | AStar.

Inductive sx : Type :=
| XAtom (a : atom)
| XRe (quoted : bool) (text : bytes)
| XParen (e : sx)
| XBin (op : ItemType) (l r : sx)
| XList (op : ItemType) (col : atom) (elems : list atom).

(** Precedences of [gram.y]; only [^] associates to the right. *)
Definition prec (op : ItemType) : option Z :=
  match op with
  | OR => Some 1
  | AND => Some 2
  | GTE | GT | NEQ | EQ | LTE | LT => Some 3
  | ADD | SUB => Some 4
  | MUL | DIV | MOD => Some 5
  | POW => Some 6
  | _ => None
  end.

Definition level (e : sx) : Z := match e with XBin op _ _ => default 7 (prec op) | _ => 7 end.

(** The least level of the operand to the right of an operator. *)
Definition right_level (p : Z) : Z := if p =? 6 then 6 else p + 1.

Definition is_name (a : atom) : bool := match a with AId _ | AQuoted _ | AIdent _ => true | _ => false end.
Definition is_str (a : atom) : bool := match a with AStr _ => true | _ => false end.

(** ** Tokens *)

(** A type, and a text where it matters. *)
Definition spec : Type := ItemType * option bytes.

Definition atom_toks (a : atom) : list spec :=
  match a with
  | ANum None t => [(NUMBER, Some t)]
  | ANum (Some neg) t => [(if (neg : bool) then SUB else ADD, None); (NUMBER, Some t)]
  | AStr t => [(STRING, Some t)]
  | AId t => [(ID, Some t)]
  | AQuoted t => [(QUOTED_STRING, Some t)]
  | AIdent t => [(IDENTIFIER, None); (LEFT_PAREN, None); (STRING, Some t); (RIGHT_PAREN, None)]
  | ANil => [(NIL, None)]
  | ANull => [(NULL, None)]
  | ATrue => [(TRUE, None)]
  | AFalse => [(FALSE, None)]
  | AStar => [(MUL, None)]
  end.

Fixpoint sep_toks {A} (f : A -> list spec) (sep : ItemType) (l : list A) : list spec :=
  match l with
  | [] => []
  | [x] => f x
  | x :: l' => f x ++ (sep, None) :: sep_toks f sep l'
  end.

Fixpoint toks (e : sx) : list spec :=
  match e with
  | XAtom a => atom_toks a
  | XRe q t => [(RE, None); (LEFT_PAREN, None); (if q then QUOTED_STRING else STRING, Some t); (RIGHT_PAREN, None)]
  | XParen e => (LEFT_PAREN, None) :: toks e ++ [(RIGHT_PAREN, None)]
  | XBin op l r => toks l ++ (op, None) :: toks r
  | XList op c l =>
      atom_toks c ++ (op, None) :: (LEFT_BRACKET, None) :: sep_toks atom_toks COMMA l ++ [(RIGHT_BRACKET, None)]
  end.

Definition is_tok (t : token) (x : spec) : Prop :=
  exists i, t = TItem i /\ Typ i = fst x /\ forall b, snd x = Some b -> Val i = b.

(** ** Trees *)

Section trees.
Context (Unquote : bytes -> bytes * bool) (re_valid : string -> bool).

Definition unq (t : bytes) : string := of_bytes (fst (Unquote t)).

Definition num_node (t : bytes) : Node :=
  match ParseInt0 t with Some n => NumberInt n | None => NumberFloat (fst (ParseFloat t)) end.

Definition regex_node (s : string) : Node := if re_valid s then Regex s else NilRegex.

Definition atom_node (a : atom) : Node :=
  match a with
  | ANum (Some true) t => negate (num_node t)
  | ANum _ t => num_node t
  | AStr t => StringLiteral (unq t)
  | AId t => Identifier (of_bytes t)
  | AQuoted t | AIdent t => Identifier (unq t)
  | ANil | ANull => NilLiteral
  | ATrue => BoolLiteral true
  | AFalse => BoolLiteral false
  | AStar => Star
  end.

(** The patterns of a MATCH list that compile. *)
Definition pattern (a : atom) : option Node :=
  match a with AStr t => if re_valid (unq t) then Some (Regex (unq t)) else None | _ => None end.

Definition list_node (op : ItemType) (l : list atom) : Node :=
  NodeList (match op with MATCH | NOT_MATCH => omap pattern l | _ => map atom_node l end).

Fixpoint build (e : sx) : Node :=
  match e with
  | XAtom a => atom_node a
  | XRe _ t => regex_node (unq t)
  | XParen e => ParenExpr (Some (build e))
  | XBin op l r => BinaryExpr op (Some (build l)) (Some (build r))
  | XList op c l => BinaryExpr op (Some (atom_node c)) (Some (list_node op l))
  end.

(** ** Well-formed conditions *)

Definition atom_ok (a : atom) : bool :=
  match a with
  | ANum _ t => match ParseInt0 t with Some _ => true | None => snd (ParseFloat t) end
  | AStr t | AQuoted t | AIdent t => snd (Unquote t)
  | _ => true
  end.

(** Texts that are well quoted, numbers, operators between operands of their levels, no
    division by zero, and names and strings where MATCH wants them. *)
Fixpoint sx_ok (e : sx) : bool :=
  match e with
  | XAtom a => atom_ok a
  | XRe _ t => snd (Unquote t)
  | XParen e => sx_ok e
  | XBin op l r =>
      match prec op with
      | Some p =>
          sx_ok l && sx_ok r && (p <=? level l) && (if p =? 6 then p <? level l else true) &&
          (right_level p <=? level r) &&
          negb (match op with DIV | MOD => is_zero (build r) | _ => false end)
      | None => false
      end
  | XList op c l =>
      is_name c && atom_ok c && forallb atom_ok l &&
      match op with
      | IN | NOT_IN => true
      | MATCH | NOT_MATCH => forallb is_str l
      | _ => false
      end
  end.
End trees.

(** ** Lists of conditions *)

(** A statement: nothing, or filters in braces, which are conjoined. *)
Definition stmt : Type := option (list sx).

Definition stmt_toks (s : stmt) : list spec :=
  match s with
  | None => []
  | Some fs => (LEFT_BRACE, None) :: sep_toks toks COMMA fs ++ [(RIGHT_BRACE, None)]
  end.

(** A filter is a comparison, or an expression in parentheses. *)
Definition is_filter (e : sx) : bool := match e with XAtom _ | XRe _ _ => false | _ => true end.

Section stmts.
Context (Unquote : bytes -> bytes * bool) (re_valid : string -> bool).

Definition stmt_node (s : stmt) : option Node :=
  option_map (fun fs => WhereCondition (map (build Unquote re_valid) fs)) s.

Definition stmt_ok (s : stmt) : bool :=
  match s with None => true | Some fs => forallb (fun e => is_filter e && sx_ok Unquote re_valid e) fs end.

(** The result: the first statement counts even when it is empty, the others do not. *)
Definition stmts_result (s : stmt) (ss : list stmt) : list (option Node) :=
  stmt_node s :: (Some <$> omap stmt_node ss).
End stmts.

(** * Filter conditions: driving the parser through known tokens

    [ready] describes a parser with a known stack and known tokens to come, and nothing
    reported.  A shift or a reduction that the tables prescribe takes it to the next such
    state; [reaches] chains such steps. *)

Section drive.
Context (Unquote : bytes -> bytes * bool) (re_valid : string -> bool) (toLower : string -> string)
  (not_in : string).

Local Notation action := (action Unquote re_valid toLower not_in).
Local Notation reduce := (reduce Unquote re_valid toLower not_in).
Local Notation yydefault := (yydefault Unquote re_valid toLower not_in).
Local Notation step := (step Unquote re_valid toLower not_in).
Local Notation parse_loop := (parse_loop Unquote re_valid toLower not_in).

(** ** Runs *)

Inductive steps : yyState -> yyState -> Prop :=
| steps_refl st : steps st st
| steps_next st st1 st2 : step st = Some (Next st1) -> steps st1 st2 -> steps st st2.

Lemma steps_trans st1 st2 st3 : steps st1 st2 -> steps st2 st3 -> steps st1 st3.
Proof. induction 1; [done|]. intros. eapply steps_next; [done|auto]. Qed.

Definition reaches (st : yyState) (Q : yyState -> Prop) : Prop := exists st', steps st st' /\ Q st'.

Lemma reaches_now st (Q : yyState -> Prop) : Q st -> reaches st Q.
Proof. intros H. exists st. split; [constructor|done]. Qed.

Lemma reaches_bind st (Q R : yyState -> Prop) : reaches st Q -> (forall st', Q st' -> reaches st' R) -> reaches st R.
Proof.
  intros (st1 & S1 & H) K. destruct (K st1 H) as (st2 & S2 & H2). exists st2. split; [by eapply steps_trans|done].
Qed.

Lemma reaches_step st st' (Q : yyState -> Prop) : step st = Some (Next st') -> Q st' -> reaches st Q.
Proof. intros E H. exists st'. split; [eapply steps_next; [done|constructor]|done]. Qed.

(** Where a run ends does not depend on the fuel that it ends with. *)
Lemma loop_steps st st' : steps st st' -> forall n r, parse_loop n st = Some r ->
  forall c stf, step st' = Some (Ret c stf) -> r = (c, stf).
Proof.
  induction 1 as [st|st st1 st2 E S IH]; intros n r P c stf F; destruct n as [|n]; try done; cbn [FilterYacc.parse_loop] in P.
  - rewrite F in P. cbn in P. congruence.
  - rewrite E in P. cbn [mbind option_bind] in P. by eapply IH.
Qed.

(** ** Known states *)

(** No error of the lexer among the tokens. *)
Definition sound (ts : list token) : Prop := complete ts /\ Forall (fun t => forall i, t <> TErr i) ts.

Record ready (r : symNode) (st : yyState) (lv : list yySymType) (ts : list token) : Prop := {
  r_live : live st = lv;
  r_top : exists b l, lv = b :: l /\ yys b = yystate st;
  r_pend : pending st ts;
  r_sound : sound ts;
  r_errs : errs (yp st) = [];
  r_result : parseResult (yp st) = r
}.

Lemma sound_tail t ts : sound (t :: ts) -> num t <> yyEofCode -> sound ts.
Proof. intros [C F] N. split; [by eapply complete_tail|by inversion F]. Qed.

Lemma ready_look r st lv ts : ready r st lv ts -> exists st', lookahead st = Some st' /\
  ready r st' lv ts /\ 0 <= char (yp st') /\ yystate st' = yystate st.
Proof.
  intros [L (b & l & T1 & T2) P [C F] E R].
  destruct (pending_read st ts C P) as (st' & El & [] & P' & K & A). exists st'. split; [done|].
  split; [|done]. destruct A as [A|(t & Ht & A)].
  { rewrite lookahead_char in El by done. injection El as <-. split; eauto. by split. }
  destruct A as (_ & _ & _ & A1 & _ & A2 & _). destruct ts as [|t' ts]; [done|]. injection Ht as ->.
  inversion F as [|? ? Nt F']; subst. split; [congruence| |done|by split| |congruence].
  - exists b, l. split; [done|congruence].
  - rewrite A1, E. destruct t; try done. by destruct (Nt i).
Qed.

Lemma shift_facts s t s' : shift s t = Some s' -> exists pact, at_ yyPact s = Some pact /\ yyFlag < pact /\
  0 <= pact + t < yyLast /\ at_ yyAct (pact + t) = Some s' /\ at_ yyChk s' = Some t.
Proof.
  unfold shift. destruct (at_ yyPact s) as [pact|]; [|done]. cbn [mbind option_bind].
  destruct (Z.leb_spec pact yyFlag); [done|]. destruct (_ || _) eqn:Rg; [done|].
  apply orb_false_iff in Rg as [R1 R2]. apply Z.ltb_ge in R1. apply Z.leb_gt in R2.
  destruct (at_ yyAct _) as [s0|] eqn:Ea; [|done]. cbn [mbind option_bind]. destruct (at_ yyChk s0) as [c|] eqn:Ec; [|done].
  cbn [mbind option_bind]. destruct (Z.eqb_spec c t) as [->|]; [|done]. intros [= ->]. eauto 10.
Qed.

(** The step of a state that shifts. *)
Lemma step_shift r st b l t ts s' : ready r st (b :: l) (t :: ts) -> shift (yys b) (num t) = Some s' ->
  num t <> yyEofCode ->
  reaches st (fun st' => exists v, ready r st' (v :: b :: l) ts /\ yys v = s' /\
    forall i, t = TItem i -> sitem v = of_item i).
Proof.
  intros R Hs Nt. destruct (ready_look _ _ _ _ R) as (st1 & El & R1 & Ch & Ey).
  destruct R as [_ (b0 & l0 & [= <- <-] & T2) _ _ _ _].
  destruct R1 as [L (b1 & l1 & [= <- <-] & T1) P Sd E Rs].
  destruct (pending_next _ _ Ch P) as (t1 & rest & [= <- <-] & Et & Fd & Q).
  destruct (shift_facts _ _ _ Hs) as (pact & Ep & Lp & Rg & Ea & Ec).
  eapply reaches_step.
  - unfold FilterYacc.step. rewrite <- T2, Ep. cbn [mbind option_bind]. rewrite (proj2 (Z.leb_gt _ _) Lp), El.
    cbn [mbind option_bind]. rewrite Et, (proj2 (Z.ltb_ge _ _)) by lia. rewrite (proj2 (Z.leb_gt _ _)) by lia.
    cbn [orb]. rewrite Ea. cbn [mbind option_bind]. rewrite Ec. cbn [mbind option_bind]. rewrite Z.eqb_refl. reflexivity.
  - exists (set_yys s' (lval (yp st1))). split; [|split; [done|]].
    + split; cbn [yystack live yystate yytoken yp]; try done.
      * by rewrite L.
      * by do 2 eexists.
      * unfold pending. cbn. by apply feeds_set_char.
      * by eapply sound_tail.
    + intros i ->. exact Q.
Qed.

(** The step of a state that reduces: the lookahead may have been read. *)
Lemma step_rule r st b l t ts rule : ready r st (b :: l) (t :: ts) -> shift (yys b) (num t) = None ->
  rule_on (yys b) (num t) = Some rule -> 0 < rule -> is_state (yys b) ->
  exists st1, ready r st1 (b :: l) (t :: ts) /\ step st = Next <$> reduce rule st1.
Proof.
  intros R Hs Hr Lr Hb. destruct (ready_look _ _ _ _ R) as (st1 & El & R1 & Ch & Ey).
  pose proof (r_top _ _ _ _ R) as (b0 & l0 & [= <- <-] & T2).
  destruct (pending_next _ _ Ch (r_pend _ _ _ _ R1)) as (t1 & rest & [= <- <-] & Et & _ & _).
  destruct (state_facts _ Hb) as ((pact & Ep & _) & _).
  assert (forall st', (st' = st \/ st' = st1) -> exists st2, ready r st2 (b :: l) (t :: ts) /\
    yydefault st' = Next <$> reduce rule st2) as D.
  { intros st' Eq. assert (yystate st' = yys b) as Ey' by (destruct Eq as [->| ->]; congruence).
    assert (lookahead st' = Some st1) as El'.
    { destruct Eq as [->| ->]; [done|by rewrite lookahead_char]. }
    assert (ready r st' (b :: l) (t :: ts)) as R' by (destruct Eq as [->| ->]; done).
    unfold rule_on in Hr. unfold FilterYacc.yydefault. rewrite Ey'.
    destruct (at_ yyDef (yys b)) as [df|]; [|done]. cbn [mbind option_bind] in Hr |- *.
    destruct (df =? -2).
    - exists st1. split; [done|]. rewrite El'. cbn [mbind option_bind].
      destruct (exca_find _ _) as [e|]; [|done]. cbn [mbind option_bind] in Hr |- *. rewrite Et, Hr. cbn [mbind option_bind].
      rewrite (proj2 (Z.ltb_ge _ _)) by lia. by rewrite (proj2 (Z.eqb_neq rule 0)) by lia.
    - exists st'. split; [done|]. injection Hr as ->. by rewrite (proj2 (Z.eqb_neq rule 0)) by lia. }
  unfold FilterYacc.step. rewrite <- T2, Ep. cbn [mbind option_bind].
  destruct (Z.leb_spec pact yyFlag) as [Lp|Lp]; [apply D; by left|].
  rewrite El. cbn [mbind option_bind]. unfold shift in Hs. rewrite Ep in Hs. cbn [mbind option_bind] in Hs.
  rewrite (proj2 (Z.leb_gt _ _) Lp) in Hs. rewrite Et. destruct (_ || _) eqn:Rg; [apply D; by right|].
  apply orb_false_iff in Rg as [G1 G2]. apply Z.ltb_ge in G1. apply Z.leb_gt in G2.
  destruct (act_facts (pact + num t)) as (s0 & Ea & _ & Ec & _); [done|]. rewrite Ea in *. cbn [mbind option_bind] in *.
  rewrite Ec in *. cbn [mbind option_bind] in *. destruct (_ =? _); [done|]. apply D; by right.
Qed.

(** What an action does to a parser without errors: it reports none, and gives [v']. *)
Definition quiet (rule : Z) (d : list yySymType) (r r' : symNode) (Q : yySymType -> Prop) : Prop :=
  forall v p, errs p = [] -> parseResult p = r -> (forall d1 ds, d = d1 :: ds -> v = d1) ->
  exists v' p', action rule d v p = Some (v', p') /\ calm p p' /\ errs p' = [] /\ parseResult p' = r' /\ Q v'.

Lemma step_reduce r r' st popped b below t ts rule n s' (Q : yySymType -> Prop) (top : yySymType) :
  ready r st (popped ++ b :: below) (t :: ts) ->
  head (popped ++ [b]) = Some top -> is_state (yys top) -> shift (yys top) (num t) = None ->
  rule_on (yys top) (num t) = Some rule -> 0 < rule -> at_ yyR1 rule = Some n ->
  at_ yyR2 rule = Some (zlen popped) -> goto n (yys b) = Some s' ->
  quiet rule (rev popped) r r' Q ->
  reaches st (fun st' => exists v, ready r' st' (set_yys s' v :: b :: below) (t :: ts) /\ Q v).
Proof.
  intros R Ht Hst Hs Hr Lr E1 E2 G A.
  assert (exists l, popped ++ b :: below = top :: l) as [l El].
  { destruct popped as [|x popped]; cbn in *; injection Ht as ->; by eexists. }
  rewrite El in R. destruct (step_rule _ _ _ _ _ _ _ R Hs Hr Lr Hst) as (st1 & R1 & Es).
  pose proof (r_live _ _ _ _ R1) as L1. rewrite <- El in L1.
  destruct (popped_first popped b below (dead st1)) as (v & Ea & Hv).
  destruct (A v (yp st1) (r_errs _ _ _ _ R1) (r_result _ _ _ _ R1) Hv) as (v' & p' & Eact & Gr & Ee & Er & Qv).
  eapply reaches_step.
  - rewrite Es. unfold FilterYacc.reduce. rewrite E2. cbn [mbind option_bind].
    assert (Z.to_nat (zlen popped) = length popped) as -> by (unfold zlen; lia).
    rewrite L1, take_app_length, drop_app_length, Ea, E1. cbn [mbind option_bind head]. rewrite G.
    cbn [mbind option_bind]. rewrite Eact. reflexivity.
  - exists v'. split; [|done]. split; cbn [yystack live yystate yytoken yp]; try done.
    + by do 2 eexists.
    + apply (pending_calm st1); [exact Gr|done|apply R1].
    + apply R1.
Qed.
End drive.
