(* ===== verification/FilterComplete.v ===== *)
(** * Filter conditions: the parser finds the tree of every condition

    The converse of [FilterYaccThms]: a text whose tokens are those of conditions, written
    with the usual precedences, is accepted, and the result is the list of their trees. *)

From S2P Require Import Prelude FilterAst FilterLex FilterParser GoStrconv FilterYacc FilterAutomaton FilterStream FilterShapes FilterYaccThms FilterDrive.

(** ** Facts about rows of the tables *)

Definition opt_eqb (x y : option Z) : bool :=
  match x, y with Some a, Some b => a =? b | None, None => true | _, _ => false end.

Lemma opt_eqb_eq x y : opt_eqb x y = true -> x = y.
Proof. destruct x, y; cbn; try done. intros H. by apply Z.eqb_eq in H as ->. Qed.

Lemma table_elem2 (f g : Z -> Z -> option Z) (L M : list Z) s t :
  forallb (fun x => forallb (fun y => opt_eqb (f x y) (g x y)) M) L = true -> s ∈ L -> t ∈ M -> f s t = g s t.
Proof.
  intros H Is It. apply opt_eqb_eq. exact (forallb_elem _ _ _ (forallb_elem _ _ _ H Is) It).
Qed.

Lemma table_elem (f g : Z -> option Z) (L : list Z) s :
  forallb (fun x => opt_eqb (f x) (g x)) L = true -> s ∈ L -> f s = g s.
Proof. intros H I. apply opt_eqb_eq. exact (forallb_elem _ _ _ H I). Qed.

(** Prove an equation about a state or token in a finite list by running through it. *)
Ltac table H :=
  match type of H with ?s ∈ ?L => match goal with |- ?a = ?b =>
    let f := match eval pattern s in a with ?f _ => f end in
    let g := match eval pattern s in b with ?g _ => g end in
    apply (table_elem f g L s); [vm_compute; reflexivity|exact H]
  end end.

Ltac table2 H1 H2 :=
  match type of H1 with ?s ∈ ?L => match type of H2 with ?t ∈ ?M => match goal with |- ?a = ?b =>
    let f := match eval pattern s, t in a with ?f _ _ => f end in
    let g := match eval pattern s, t in b with ?g _ _ => g end in
    apply (table_elem2 f g L M s t); [vm_compute; reflexivity|exact H1|exact H2]
  end end end.

Lemma list_in (f : Z -> bool) (L : list Z) s : forallb f L = true -> s ∈ L -> f s = true.
Proof. apply forallb_elem. Qed.

(** The same for a boolean test. *)
Ltac tabb H :=
  match type of H with ?s ∈ ?L => match goal with |- ?a = true =>
    let f := match eval pattern s in a with ?f _ => f end in
    apply (list_in f L s); [vm_compute; reflexivity|exact H]
  end end.

Definition memb (L : list Z) (s : Z) : bool := existsb (Z.eqb s) L.

Lemma memb_elem L s : memb L s = true -> s ∈ L.
Proof.
  unfold memb. intros H. apply existsb_exists in H as (x & I & E). apply Z.eqb_eq in E as ->. by apply list_elem_of_In.
Qed.

Definition stateb (s : Z) : bool := (0 <=? s) && (s <? 136).

Lemma stateb_ok s : stateb s = true -> is_state s.
Proof. unfold stateb, is_state. lia. Qed.

(** States in which an expression, or an element of a list, may start. *)
Definition op_states : list Z := [45; 46; 47; 48; 49; 50; 51; 52; 53; 54; 55; 56; 57; 58].
Definition expr_starts : list Z := [7; 15; 44] ++ op_states.
Definition elem_starts : list Z := [7; 15; 44; 45; 46; 47; 48; 49; 50; 51; 52; 53; 54; 55; 56; 57; 58; 89; 90; 91; 92; 124].

Definition bin_ops : list ItemType := [ADD; DIV; GTE; GT; AND; OR; LT; LTE; MOD; MUL; NEQ; POW; SUB; EQ].

(** Tokens that may follow an operand, and a name. *)
Definition follow : list Z := map tok (bin_ops ++ [RIGHT_PAREN; COMMA; RIGHT_BRACE; RIGHT_BRACKET]).
Definition follow_name : list Z := map tok (bin_ops ++ [RIGHT_PAREN; COMMA; RIGHT_BRACE; RIGHT_BRACKET; IN; NOT_IN; MATCH; NOT_MATCH]).

Lemma follow_is_name t : t ∈ follow -> t ∈ follow_name.
Proof. intros H. apply memb_elem. tabb H. Qed.

(** Where gotos lead from these states. *)
Definition to (n s : Z) : Z := default 0 (goto n s).

Lemma prec_ops op p : prec op = Some p -> op ∈ bin_ops /\ 1 <= p <= 6.
Proof.
  intros H. split; [|destruct op; cbn in H; try done; injection H as <-; lia].
  apply list_elem_of_In. destruct op; cbn in *; try done; tauto.
Qed.

Lemma level_nonneg e : 0 <= level e.
Proof. destruct e; cbn; try lia. destruct (prec op) as [p|] eqn:P; cbn; [|lia]. apply prec_ops in P. lia. Qed.

Section complete.
Context (Unquote : bytes -> bytes * bool) (re_valid : string -> bool) (toLower : string -> string)
  (not_in : string).

Local Notation quiet := (quiet Unquote re_valid toLower not_in).
Local Notation reaches := (reaches Unquote re_valid toLower not_in).
Local Notation action := (action Unquote re_valid toLower not_in).
Local Notation step_shift := (step_shift Unquote re_valid toLower not_in).
Local Notation step_reduce := (step_reduce Unquote re_valid toLower not_in).
Local Notation atom_node := (atom_node Unquote).
Local Notation atom_ok := (atom_ok Unquote).

(** ** Single steps *)

Lemma shift_tok s' r st b l u ts ty o : ready r st (b :: l) (u :: ts) -> is_tok u (ty, o) ->
  shift (yys b) (tok ty) = Some s' ->
  reaches st (fun st' => exists v, ready r st' (v :: b :: l) ts /\ yys v = s' /\
    iTyp (sitem v) = Some ty /\ forall x, o = Some x -> iVal (sitem v) = x).
Proof.
  intros R (i & -> & Et & V) S. cbn in Et, V. subst ty. eapply reaches_bind.
  - eapply step_shift; [exact R|exact S|]. cbn. pose proof (tok_range (Typ i)). unfold yyEofCode. lia.
  - intros st' (v & R' & E & I). apply reaches_now. exists v. split; [done|]. split; [done|].
    rewrite (I i eq_refl). split; [done|]. exact V.
Qed.

(** A reduction by one symbol, with its action. *)
Lemma unit_rule r st x b l t ts rule n s s' (Q : yySymType -> Prop) :
  ready r st (x :: b :: l) (t :: ts) -> yys x = s -> is_state s ->
  shift s (num t) = None -> rule_on s (num t) = Some rule -> 0 < rule ->
  at_ yyR1 rule = Some n -> at_ yyR2 rule = Some 1 -> goto n (yys b) = Some s' ->
  quiet rule [x] r r Q ->
  reaches st (fun st' => exists v, ready r st' (set_yys s' v :: b :: l) (t :: ts) /\ Q v).
Proof.
  intros R <- Hs Sh Ru L E1 E2 G A. by apply (step_reduce r r st [x] b l t ts rule n s' Q x).
Qed.

(** Productions that hand their value on. *)
Definition plain_rules : list Z := [6; 7; 8; 10; 34; 35; 36; 37; 38; 39; 52; 53].

Definition plainb (rule : Z) : bool := memb plain_rules rule.

Lemma plainb_elem rule : plainb rule = true -> rule ∈ plain_rules.
Proof. apply memb_elem. Qed.

Lemma quiet_plain rule x r : plainb rule = true -> quiet rule [x] r r (eq x).
Proof.
  intros H%plainb_elem v p Ee Er V. rewrite (V x [] eq_refl). exists x, p. split; [|auto].
  unfold plain_rules in H. repeat (apply elem_of_cons in H as [->|H]; [done|]). by apply elem_of_nil in H.
Qed.

Lemma plain_rule r st x b l t ts rule n s s' :
  plainb rule = true -> ready r st (x :: b :: l) (t :: ts) -> yys x = s -> is_state s ->
  shift s (num t) = None -> rule_on s (num t) = Some rule ->
  at_ yyR1 rule = Some n -> at_ yyR2 rule = Some 1 -> goto n (yys b) = Some s' ->
  reaches st (fun st' => ready r st' (set_yys s' x :: b :: l) (t :: ts)).
Proof.
  intros Hr R Ey Hs Sh Ru E1 E2 G. eapply reaches_bind.
  - eapply unit_rule; [exact R|exact Ey|exact Hs|exact Sh|exact Ru| |exact E1|exact E2|exact G|by apply quiet_plain].
    apply plainb_elem in Hr. apply Z.ltb_lt. tabb Hr.
  - intros st' (v & R' & <-). by apply reaches_now.
Qed.

(** An action that only sets the tree. *)
Lemma quiet_tree rule d r n :
  (forall v p, errs p = [] -> (forall d1 ds, d = d1 :: ds -> v = d1) ->
     exists p', action rule d v p = Some (set_node (SNode n) v, p') /\ grows p p' /\ errs p' = [] /\ parseResult p' = parseResult p) ->
  quiet rule d r r (fun v => node v = SNode n).
Proof.
  intros H v p Ee Er V. destruct (H v p Ee V) as (p' & A & G & E' & R'). exists (set_node (SNode n) v), p'.
  split; [done|]. split; [by apply grows_calm|]. split; [done|]. split; [congruence|done].
Qed.

Lemma unquote_quiet s p : snd (Unquote s) = true -> unquoteString Unquote s p = (fst (Unquote s), p).
Proof. unfold unquoteString. by destruct (Unquote s) as [? []]. Qed.

Lemma number_quiet t p : (match ParseInt0 t with Some _ => true | None => snd (ParseFloat t) end) = true ->
  number t p = (num_node t, p).
Proof.
  unfold number, num_node. destruct (ParseInt0 t); [done|]. by destruct (ParseFloat t) as [f []].
Qed.

Ltac same_parser p := exists p; split; [reflexivity|]; split; [by auto|]; split; done.

(** ** Names *)

(** One of the three forms of an identifier. *)
Lemma identifier_ok a r st b l us t ts : is_name a = true -> atom_ok a = true -> yys b ∈ elem_starts ->
  Forall2 is_tok us (atom_toks a) -> ready r st (b :: l) (us ++ t :: ts) ->
  reaches st (fun st' => exists v, ready r st' (v :: b :: l) (t :: ts) /\ yys v = to 3 (yys b) /\
    ident (sitem v) = atom_node a).
Proof.
  intros Na Oa Hb F R. destruct a as [sg x|x|x|x|x| | | | |]; try done; cbn [atom_toks] in F.
  - inversion F as [|u ? us' ? T1 F1]; subst. inversion F1; subst. cbn [app] in R.
    eapply reaches_bind; [eapply (shift_tok 29); [exact R|exact T1|table Hb]|]. intros st1 (v & R1 & Ey & _ & V).
    eapply reaches_bind.
    + eapply (unit_rule _ _ _ _ _ _ _ 78 3 29 (to 3 (yys b)) (eq v)); [exact R1|exact Ey|done|reflexivity|reflexivity|done|reflexivity|reflexivity|table Hb|].
      intros v0 p Ee Er V0. rewrite (V0 v [] eq_refl). by exists v, p.
    + intros st2 (v2 & R2 & <-). apply reaches_now. exists (set_yys (to 3 (yys b)) v). split; [done|]. split; [done|].
      unfold ident. cbn. by rewrite (V _ eq_refl).
  - inversion F as [|u ? us' ? T1 F1]; subst. inversion F1; subst. cbn [app] in R.
    eapply reaches_bind; [eapply (shift_tok 30); [exact R|exact T1|table Hb]|]. intros st1 (v & R1 & Ey & _ & V).
    eapply reaches_bind.
    + eapply (unit_rule _ _ _ _ _ _ _ 79 3 30 (to 3 (yys b)) (fun w => iVal (sitem w) = fst (Unquote x)));
        [exact R1|exact Ey|done|reflexivity|reflexivity|done|reflexivity|reflexivity|table Hb|].
      intros v0 p Ee Er V0. cbn [FilterYacc.action]. rewrite (V _ eq_refl), unquote_quiet by done. by do 2 eexists.
    + intros st2 (v2 & R2 & Q). apply reaches_now. exists (set_yys (to 3 (yys b)) v2). split; [done|]. split; [done|].
      unfold ident. cbn. by rewrite Q.
  - inversion F as [|u1 ? us1 ? T1 F1]; subst. inversion F1 as [|u2 ? us2 ? T2 F2]; subst.
    inversion F2 as [|u3 ? us3 ? T3 F3]; subst. inversion F3 as [|u4 ? us4 ? T4 F4]; subst. inversion F4; subst. cbn [app] in R.
    eapply reaches_bind; [eapply (shift_tok 31); [exact R|exact T1|table Hb]|]. intros st1 (v1 & R1 & Ey1 & _ & _).
    eapply reaches_bind; [eapply (shift_tok 72); [exact R1|exact T2|rewrite Ey1; reflexivity]|]. intros st2 (v2 & R2 & Ey2 & _ & _).
    eapply reaches_bind; [eapply (shift_tok 34); [exact R2|exact T3|rewrite Ey2; reflexivity]|]. intros st3 (v3 & R3 & Ey3 & _ & V3).
    destruct T4 as (i4 & -> & T4 & V4). assert (is_tok (TItem i4) (RIGHT_PAREN, None)) as T4' by (by exists i4).
    eapply reaches_bind.
    + eapply (unit_rule _ _ _ _ _ _ _ 18 21 34 108 (fun w => node w = SNode (StringLiteral (unq Unquote x))));
        [exact R3|exact Ey3|done|reflexivity|reflexivity|done|reflexivity|reflexivity|rewrite Ey2; reflexivity|].
      apply quiet_tree. intros v0 p Ee V0. cbn [FilterYacc.action]. rewrite (V3 _ eq_refl), unquote_quiet by done. same_parser p.
    + intros st4 (v4 & R4 & Q4). eapply reaches_bind; [eapply (shift_tok 123); [exact R4|exact T4'|reflexivity]|].
      intros st5 (v5 & R5 & Ey5 & _ & _). eapply reaches_bind.
      * eapply (step_reduce _ r _ [v5; set_yys 108 v4; v2; v1] b l t ts 80 3 (to 3 (yys b)) (fun w => iVal (sitem w) = fst (Unquote x)));
          [exact R5|reflexivity|rewrite Ey5; done|rewrite Ey5; reflexivity|rewrite Ey5; reflexivity|done|reflexivity|reflexivity|table Hb|].
        intros v0 p Ee Er V0. cbn [rev app FilterYacc.action]. cbn [node set_yys]. rewrite Q4. cbn [as_string mbind option_bind].
        eexists _, p. split; [reflexivity|]. split_and!; auto. cbn. unfold unq. by rewrite to_of_bytes.
      * intros st6 (v6 & R6 & Q6). apply reaches_now. exists (set_yys (to 3 (yys b)) v6). split; [done|]. split; [done|].
        unfold ident. cbn. by rewrite Q6.
Qed.

Lemma column_ok a r st b l us t ts : is_name a = true -> atom_ok a = true -> yys b ∈ elem_starts ->
  Forall2 is_tok us (atom_toks a) -> num t ∈ follow_name -> ready r st (b :: l) (us ++ t :: ts) ->
  reaches st (fun st' => exists v, ready r st' (v :: b :: l) (t :: ts) /\ yys v = to 19 (yys b) /\
    node v = SNode (atom_node a)).
Proof.
  intros Na Oa Hb F Ht R. eapply reaches_bind; [by eapply identifier_ok|]. intros st1 (v & R1 & Ey & I).
  eapply reaches_bind.
  - eapply (unit_rule _ _ _ _ _ _ _ 12 19 (to 3 (yys b)) (to 19 (yys b)) (fun w => node w = SNode (atom_node a)));
      [exact R1|exact Ey|apply stateb_ok; tabb Hb|table2 Hb Ht|table2 Hb Ht|done|reflexivity|reflexivity|table Hb|].
    apply quiet_tree. intros v0 p Ee V0. cbn [FilterYacc.action]. rewrite I. same_parser p.
  - intros st2 (v2 & R2 & Q). apply reaches_now. by exists (set_yys (to 19 (yys b)) v2).
Qed.

(** ** Operands *)

(** A literal of one token: shifted to [s1], reduced by [rule] and then by [rule2]. *)
Lemma literal_ok s1 ty o rule n rule2 nd r st b l u t ts : yys b ∈ elem_starts -> is_tok u (ty, o) ->
  shift (yys b) (tok ty) = Some s1 -> is_state s1 -> shift s1 (num t) = None -> rule_on s1 (num t) = Some rule ->
  0 < rule -> at_ yyR1 rule = Some n -> at_ yyR2 rule = Some 1 -> goto n (yys b) = Some (to n (yys b)) ->
  is_state (to n (yys b)) -> shift (to n (yys b)) (num t) = None -> rule_on (to n (yys b)) (num t) = Some rule2 ->
  plainb rule2 = true -> at_ yyR1 rule2 = Some 8 -> at_ yyR2 rule2 = Some 1 ->
  (forall v, (forall x, o = Some x -> iVal (sitem v) = x) -> quiet rule [v] r r (fun w => node w = SNode nd)) ->
  ready r st (b :: l) (u :: t :: ts) ->
  reaches st (fun st' => exists v, ready r st' (v :: b :: l) (t :: ts) /\ yys v = to 8 (yys b) /\ node v = SNode nd).
Proof.
  intros Hb T S1 Hs1 N1 Ru Lr E1 E2 G Hg N2 Ru2 Hr2 E3 E4 Q R.
  eapply reaches_bind; [eapply (shift_tok s1); [exact R|exact T|exact S1]|]. intros st1 (v & R1 & Ey & _ & V).
  eapply reaches_bind; [by eapply (unit_rule _ _ _ _ _ _ _ rule n s1 (to n (yys b)) (fun w => node w = SNode nd)); eauto|].
  intros st2 (v2 & R2 & Q2). eapply reaches_bind.
  - eapply (plain_rule _ _ _ _ _ _ _ rule2 8 (to n (yys b)) (to 8 (yys b))); [done|exact R2|done|done|done|done|done|done|table Hb].
  - intros st3 R3. apply reaches_now. eexists. split; [exact R3|]. by split.
Qed.

(** A number with a sign. *)
Lemma signed_ok neg x r st b l u1 u2 t ts : atom_ok (ANum (Some neg) x) = true -> yys b ∈ elem_starts ->
  is_tok u1 (if (neg : bool) then SUB else ADD, None) -> is_tok u2 (NUMBER, Some x) -> num t ∈ follow ->
  ready r st (b :: l) (u1 :: u2 :: t :: ts) ->
  reaches st (fun st' => exists v, ready r st' (v :: b :: l) (t :: ts) /\ yys v = to 8 (yys b) /\
    node v = SNode (atom_node (ANum (Some neg) x))).
Proof.
  intros Oa Hb T1 T2 Ht R.
  eapply reaches_bind; [eapply (shift_tok (if neg then 41 else 40)); [exact R|exact T1|destruct neg; table Hb]|].
  intros st1 (v1 & R1 & Ey1 & Ty1 & _). destruct T2 as (i2 & -> & T2 & V2). cbn in T2, V2.
  assert (is_tok (TItem i2) (NUMBER, Some x)) as T2' by (by exists i2).
  eapply reaches_bind.
  - eapply (unit_rule _ _ _ _ _ _ _ (if neg then 17 else 16) 1 (if neg then 41 else 40) 33 (eq v1));
      [exact R1|exact Ey1|by destruct neg|by destruct neg|by destruct neg|by destruct neg|by destruct neg|by destruct neg|table Hb|].
    intros v0 p Ee Er V0. rewrite (V0 v1 [] eq_refl). exists v1, p. by destruct neg; auto.
  - intros st2 (v2 & R2 & <-). eapply reaches_bind; [eapply (shift_tok 73); [exact R2|exact T2'|reflexivity]|].
    intros st3 (v3 & R3 & Ey3 & _ & V3). eapply reaches_bind.
    + eapply (step_reduce _ r _ [v3; set_yys 33 v1] b l t ts 75 23 22 (fun w => node w = SNode (atom_node (ANum (Some neg) x))));
        [exact R3|reflexivity|rewrite Ey3; done|rewrite Ey3; reflexivity|rewrite Ey3; reflexivity|done|reflexivity|reflexivity|table Hb|].
      apply quiet_tree. intros v0 p Ee V0. cbn [rev app FilterYacc.action]. cbn [sitem set_yys].
      rewrite (V3 _ eq_refl), number_quiet by done. rewrite Ty1. destruct neg; same_parser p.
    + intros st4 (v4 & R4 & Q4). eapply reaches_bind.
      * eapply (plain_rule _ _ _ _ _ _ _ 34 8 22 (to 8 (yys b))); [reflexivity|exact R4|done|done|reflexivity|reflexivity|reflexivity|reflexivity|table Hb].
      * intros st5 R5. apply reaches_now. eexists. split; [exact R5|]. by split.
Qed.

(** A literal of one token, of given states and rules. *)
Ltac lit s1 ty rule n rule2 :=
  match goal with F : Forall2 is_tok _ _ |- _ => inversion F as [|u ? us' ? T1 F1]; subst; inversion F1; subst end;
  match goal with Hb : yys _ ∈ elem_starts, T1 : is_tok ?u _ |- _ =>
    eapply (literal_ok s1 ty _ rule n rule2); [exact Hb|exact T1|table Hb|done|reflexivity|reflexivity|done|reflexivity|reflexivity|table Hb|apply stateb_ok; tabb Hb| | |reflexivity|reflexivity|reflexivity| |] end.

Lemma elem_ok a r st b l us t ts : atom_ok a = true -> yys b ∈ elem_starts ->
  Forall2 is_tok us (atom_toks a) -> num t ∈ follow -> ready r st (b :: l) (us ++ t :: ts) ->
  reaches st (fun st' => exists v, ready r st' (v :: b :: l) (t :: ts) /\ yys v = to 8 (yys b) /\
    node v = SNode (atom_node a)).
Proof.
  intros Oa Hb F Ht R. destruct (is_name a) eqn:Na.
  { eapply reaches_bind; [eapply column_ok; [exact Na|exact Oa|exact Hb|exact F|by apply follow_is_name|exact R]|].
    intros st1 (v & R1 & Ey & Q). eapply reaches_bind.
    - eapply (plain_rule _ _ _ _ _ _ _ 36 8 (to 19 (yys b)) (to 8 (yys b)));
        [reflexivity|exact R1|exact Ey|apply stateb_ok; tabb Hb|table2 Hb Ht|table2 Hb Ht|reflexivity|reflexivity|table Hb].
    - intros st2 R2. apply reaches_now. eexists. split; [exact R2|]. by split. }
  destruct a as [[neg|] x|x|x|x|x| | | | |]; try done; cbn [atom_toks] in F.
  - inversion F as [|u1 ? us1 ? T1 F1]; subst. inversion F1 as [|u2 ? us2 ? T2 F2]; subst. inversion F2; subst.
    cbn [app] in R. eapply signed_ok; [exact Oa|exact Hb|exact T1|exact T2|exact Ht|exact R].
  - lit 32 NUMBER 74 23 34; [table2 Hb Ht|table2 Hb Ht| |exact R].
    intros v V. apply quiet_tree. intros v0 p Ee V0. cbn [FilterYacc.action]. rewrite (V _ eq_refl), number_quiet by done. same_parser p.
  - lit 34 STRING 18 21 35; [table2 Hb Ht|table2 Hb Ht| |exact R].
    intros v V. apply quiet_tree. intros v0 p Ee V0. cbn [FilterYacc.action]. rewrite (V _ eq_refl), unquote_quiet by done. same_parser p.
  - lit 35 NIL 19 22 37; [table2 Hb Ht|table2 Hb Ht| |exact R].
    intros v V. apply quiet_tree. intros v0 p Ee V0. cbn [FilterYacc.action]. same_parser p.
  - lit 36 NULL 20 22 37; [table2 Hb Ht|table2 Hb Ht| |exact R].
    intros v V. apply quiet_tree. intros v0 p Ee V0. cbn [FilterYacc.action]. same_parser p.
  - lit 37 TRUE 21 20 38; [table2 Hb Ht|table2 Hb Ht| |exact R].
    intros v V. apply quiet_tree. intros v0 p Ee V0. cbn [FilterYacc.action]. same_parser p.
  - lit 38 FALSE 22 20 38; [table2 Hb Ht|table2 Hb Ht| |exact R].
    intros v V. apply quiet_tree. intros v0 p Ee V0. cbn [FilterYacc.action]. same_parser p.
  - lit 39 MUL 40 25 39; [table2 Hb Ht|table2 Hb Ht| |exact R].
    intros v V. apply quiet_tree. intros v0 p Ee V0. cbn [FilterYacc.action]. same_parser p.
Qed.

(** ** Regular expressions *)

Lemma regex_quiet s p : exists p', newRegex re_valid s p = (regex_node re_valid s, p') /\
  grows p p' /\ errs p' = errs p /\ parseResult p' = parseResult p.
Proof. unfold newRegex, regex_node. destruct (re_valid s); eexists; (split; [done|]); split_and!; auto; done. Qed.

Lemma regex_ok q x r st b l us t ts : snd (Unquote x) = true -> yys b ∈ expr_starts ->
  Forall2 is_tok us (toks (XRe q x)) -> ready r st (b :: l) (us ++ t :: ts) ->
  reaches st (fun st' => exists v, ready r st' (v :: b :: l) (t :: ts) /\ yys v = to 18 (yys b) /\
    node v = SNode (regex_node re_valid (unq Unquote x))).
Proof.
  intros Oq Hb F R. cbn [toks] in F.
  inversion F as [|u1 ? us1 ? T1 F1]; subst. inversion F1 as [|u2 ? us2 ? T2 F2]; subst.
  inversion F2 as [|u3 ? us3 ? T3 F3]; subst. inversion F3 as [|u4 ? us4 ? T4 F4]; subst. inversion F4; subst. cbn [app] in R.
  eapply reaches_bind; [eapply (shift_tok 27); [exact R|exact T1|table Hb]|]. intros st1 (v1 & R1 & Ey1 & _ & _).
  eapply reaches_bind; [eapply (shift_tok 70); [exact R1|exact T2|rewrite Ey1; reflexivity]|]. intros st2 (v2 & R2 & Ey2 & _ & _).
  destruct T4 as (i4 & -> & T4 & V4). assert (is_tok (TItem i4) (RIGHT_PAREN, None)) as T4' by (by exists i4).
  destruct q.
  - eapply reaches_bind; [eapply (shift_tok 101); [exact R2|exact T3|rewrite Ey2; reflexivity]|]. intros st3 (v3 & R3 & Ey3 & _ & V3).
    eapply reaches_bind; [eapply (shift_tok 118); [exact R3|exact T4'|rewrite Ey3; reflexivity]|]. intros st4 (v4 & R4 & Ey4 & _ & _).
    eapply reaches_bind.
    + eapply (step_reduce _ r _ [v4; v3; v2; v1] b l t ts 77 18 (to 18 (yys b)) (fun w => node w = SNode (regex_node re_valid (unq Unquote x))));
        [exact R4|reflexivity|rewrite Ey4; done|rewrite Ey4; reflexivity|rewrite Ey4; reflexivity|done|reflexivity|reflexivity|table Hb|].
      apply quiet_tree. intros v0 p Ee V0. cbn [rev app FilterYacc.action]. rewrite (V3 _ eq_refl), unquote_quiet by done.
      destruct (regex_quiet (unq Unquote x) p) as (p' & E & G & E1 & E2). unfold unq in *. rewrite E. exists p'.
      split; [done|]. split; [done|]. split; [congruence|done].
    + intros st5 (v5 & R5 & Q5). apply reaches_now. by exists (set_yys (to 18 (yys b)) v5).
  - eapply reaches_bind; [eapply (shift_tok 34); [exact R2|exact T3|rewrite Ey2; reflexivity]|]. intros st3 (v3 & R3 & Ey3 & _ & V3).
    eapply reaches_bind.
    + eapply (unit_rule _ _ _ _ _ _ _ 18 21 34 100 (fun w => node w = SNode (StringLiteral (unq Unquote x))));
        [exact R3|exact Ey3|done|reflexivity|reflexivity|done|reflexivity|reflexivity|rewrite Ey2; reflexivity|].
      apply quiet_tree. intros v0 p Ee V0. cbn [FilterYacc.action]. rewrite (V3 _ eq_refl), unquote_quiet by done. same_parser p.
    + intros st4 (v4 & R4 & Q4). eapply reaches_bind; [eapply (shift_tok 117); [exact R4|exact T4'|reflexivity]|].
      intros st5 (v5 & R5 & Ey5 & _ & _). eapply reaches_bind.
      * eapply (step_reduce _ r _ [v5; set_yys 100 v4; v2; v1] b l t ts 76 18 (to 18 (yys b)) (fun w => node w = SNode (regex_node re_valid (unq Unquote x))));
          [exact R5|reflexivity|rewrite Ey5; done|rewrite Ey5; reflexivity|rewrite Ey5; reflexivity|done|reflexivity|reflexivity|table Hb|].
        apply quiet_tree. intros v0 p Ee V0. cbn [rev app FilterYacc.action]. cbn [node set_yys]. rewrite Q4. cbn [as_string mbind option_bind].
        destruct (regex_quiet (unq Unquote x) p) as (p' & E & G & E1 & E2). rewrite E. exists p'.
        split; [done|]. split; [done|]. split; [congruence|done].
      * intros st6 (v6 & R6 & Q6). apply reaches_now. by exists (set_yys (to 18 (yys b)) v6).
Qed.

(** ** Lists *)

Definition list_starts : list Z := [89; 90; 91; 92].

Lemma list_start_elem s : s ∈ list_starts -> s ∈ elem_starts.
Proof. intros H. apply memb_elem. tabb H. Qed.

(** The tokens after the first element, each element after a comma. *)
Definition rest_toks (l : list atom) : list spec := flat_map (fun a => (COMMA, None) :: atom_toks a) l.

Lemma sep_toks_cons a l : sep_toks atom_toks COMMA (a :: l) = atom_toks a ++ rest_toks l.
Proof.
  revert a. induction l as [|a' l IH]; intros a; [cbn; by rewrite app_nil_r|].
  change (sep_toks atom_toks COMMA (a :: a' :: l)) with (atom_toks a ++ (COMMA, None) :: sep_toks atom_toks COMMA (a' :: l)).
  by rewrite IH.
Qed.

(** What follows an element: another one, or the bracket. *)
Lemma rest_head us t l : Forall2 is_tok us (rest_toks l) -> num t = tok RIGHT_BRACKET -> forall ts,
  exists t' ts', us ++ t :: ts = t' :: ts' /\ num t' ∈ map tok [COMMA; RIGHT_BRACKET].
Proof.
  intros F E ts. destruct l as [|a l]; cbn in F; inversion F as [|u x ? ? T ?]; subst; cbn [app].
  - exists t, ts. split; [done|]. rewrite E. cbn. rewrite !elem_of_cons. tauto.
  - do 2 eexists. split; [done|]. destruct T as (i & -> & Ti & _). cbn. cbn in Ti. rewrite Ti. rewrite !elem_of_cons. tauto.
Qed.

Lemma in_follow t : t ∈ map tok [COMMA; RIGHT_BRACKET] -> t ∈ follow.
Proof. intros H. apply memb_elem. tabb H. Qed.

Lemma array_rest l : forall r st v b lv us t ts acc, forallb atom_ok l = true -> yys b ∈ list_starts ->
  Forall2 is_tok us (rest_toks l) -> num t = tok RIGHT_BRACKET -> yys v = to 9 (yys b) -> node v = SNode (NodeList acc) ->
  ready r st (v :: b :: lv) (us ++ t :: ts) ->
  reaches st (fun st' => exists v', ready r st' (v' :: b :: lv) (t :: ts) /\ yys v' = to 9 (yys b) /\
    node v' = SNode (NodeList (acc ++ map atom_node l))).
Proof.
  induction l as [|a l IH]; intros r st v b lv us t ts acc O Hb F Et Ey Nv R.
  - inversion F; subst. apply reaches_now. exists v. cbn. by rewrite app_nil_r.
  - cbn in O. apply andb_prop in O as [Oa O]. cbn [rest_toks flat_map] in F. fold (rest_toks l) in F.
    cbn [app] in F. inversion F as [|u1 ? us1 ? T1 F1]; subst. apply Forall2_app_inv_r in F1 as (ua & ur & Fa & Fr & ->).
    cbn [app] in R. rewrite <- app_assoc in R.
    eapply reaches_bind; [eapply (shift_tok 124); [exact R|exact T1|rewrite Ey; table Hb]|]. intros st1 (v1 & R1 & Ey1 & _ & _).
    destruct (rest_head ur t l Fr Et ts) as (t' & ts' & E' & Ht'). rewrite E' in R1.
    eapply reaches_bind.
    { refine (elem_ok a r st1 v1 _ ua t' ts' Oa _ Fa _ R1); [rewrite Ey1, list_elem_of_In; cbn; tauto|by apply in_follow]. }
    intros st2 (v2 & R2 & Ey2 & Q2). rewrite Ey1 in Ey2. change (to 8 124) with 133 in Ey2.
    eapply reaches_bind.
    + eapply (step_reduce _ r _ [v2; v1; v] b lv t' ts' 31 9 (to 9 (yys b)) (fun w => node w = SNode (NodeList (acc ++ [atom_node a]))));
        [exact R2|reflexivity|rewrite Ey2; done|rewrite Ey2; reflexivity|rewrite Ey2; reflexivity|done|reflexivity|reflexivity|table Hb|].
      apply quiet_tree. intros v0 p Ee V0. cbn [rev app FilterYacc.action]. rewrite (V0 v _ eq_refl), Nv, Q2.
      cbn [as_list as_node mbind option_bind]. same_parser p.
    + intros st3 (v3 & R3 & Q3). rewrite <- E' in R3.
      assert (acc ++ map atom_node (a :: l) = (acc ++ [atom_node a]) ++ map atom_node l) as -> by (by rewrite <- app_assoc).
      by apply (IH r st3 (set_yys (to 9 (yys b)) v3) b lv ur t ts _ O Hb Fr Et eq_refl Q3 R3).
Qed.

Lemma array_ok l r st b lv us t ts : forallb atom_ok l = true -> yys b ∈ list_starts ->
  Forall2 is_tok us (sep_toks atom_toks COMMA l) -> num t = tok RIGHT_BRACKET ->
  ready r st (b :: lv) (us ++ t :: ts) ->
  reaches st (fun st' => exists v', ready r st' (v' :: b :: lv) (t :: ts) /\ yys v' = to 9 (yys b) /\
    node v' = SNode (NodeList (map atom_node l))).
Proof.
  intros O Hb F Et R. destruct l as [|a l].
  - inversion F; subst. cbn [app] in R. eapply reaches_bind.
    + eapply (step_reduce _ r _ [] b lv t ts 33 9 (to 9 (yys b)) (fun w => node w = SNode (NodeList [])));
        [exact R|reflexivity|apply stateb_ok; tabb Hb|rewrite Et; table Hb|rewrite Et; table Hb|done|reflexivity|reflexivity|table Hb|].
      apply quiet_tree. intros v0 p Ee V0. cbn [rev FilterYacc.action]. same_parser p.
    + intros st1 (v & R1 & Q). apply reaches_now. by exists (set_yys (to 9 (yys b)) v).
  - rewrite sep_toks_cons in F. apply Forall2_app_inv_r in F as (ua & ur & Fa & Fr & ->).
    cbn in O. apply andb_prop in O as [Oa O]. rewrite <- app_assoc in R.
    destruct (rest_head ur t l Fr Et ts) as (t' & ts' & E' & Ht'). rewrite E' in R.
    eapply reaches_bind; [eapply (elem_ok a); [exact Oa|by apply list_start_elem|exact Fa|by apply in_follow|exact R]|].
    intros st1 (v1 & R1 & Ey1 & Q1). eapply reaches_bind.
    + eapply (unit_rule _ _ _ _ _ _ _ 32 9 (to 8 (yys b)) (to 9 (yys b)) (fun w => node w = SNode (NodeList [atom_node a])));
        [exact R1|exact Ey1|apply stateb_ok; tabb Hb|table2 Hb Ht'|table2 Hb Ht'|done|reflexivity|reflexivity|table Hb|].
      apply quiet_tree. intros v0 p Ee V0. cbn [FilterYacc.action]. rewrite Q1. cbn [as_node mbind option_bind]. same_parser p.
    + intros st2 (v2 & R2 & Q2). rewrite <- E' in R2. change (map atom_node (a :: l)) with ([atom_node a] ++ map atom_node l).
      by apply (array_rest l r st2 (set_yys (to 9 (yys b)) v2) b lv ur t ts _ O Hb Fr Et eq_refl Q2 R2).
Qed.

(** ** Expressions *)

(** The state after an operator, and the rule of its binary expression. *)
Definition op_state (op : ItemType) : Z :=
  match op with
  | ADD => 45 | DIV => 46 | GTE => 47 | GT => 48 | AND => 49 | OR => 50 | LT => 51 | LTE => 52 | MOD => 53
  | MUL => 54 | NEQ => 55 | POW => 56 | SUB => 57 | EQ => 58 | _ => 0
  end.

Definition op_rule (op : ItemType) : Z := op_state op + 9.

(** The least level of an expression that starts in a state. *)
Definition need (s : Z) : Z :=
  match List.find (fun op => op_state op =? s) bin_ops with
  | Some op => right_level (default 7 (prec op))
  | None => 0
  end.

(** Tokens after which an expression of a level is complete. *)
Definition closers (lvl : Z) : list ItemType :=
  List.filter (fun ty => match prec ty with
                         | Some p => if lvl =? 6 then p <? 6 else p <=? lvl
                         | None => true
                         end) (bin_ops ++ [RIGHT_PAREN; COMMA; RIGHT_BRACE]).

(** In a list of filters a comma or a brace makes the expression a filter. *)
Definition exits (s : Z) (ty : ItemType) : bool :=
  match prec ty with Some _ => true | None => negb ((s =? 7) || (s =? 44)) end.

(** The nonterminal of an expression before it becomes one. *)
Definition sort (e : sx) : Z :=
  match e with XAtom _ => 8 | XRe _ _ => 18 | XParen _ => 16 | XBin _ _ _ | XList _ _ _ => 11 end.

Definition expr_rule (n : Z) : Z := if n =? 8 then 6 else if n =? 18 then 7 else if n =? 16 then 8 else 10.

Local Notation build := (build Unquote re_valid).
Local Notation sx_ok := (sx_ok Unquote re_valid).

Lemma expr_start_elem s : s ∈ expr_starts -> s ∈ elem_starts.
Proof. intros H. apply memb_elem. tabb H. Qed.

Lemma closers_follow lvl ty : ty ∈ closers lvl -> tok ty ∈ follow.
Proof.
  unfold closers, follow. rewrite list_elem_of_In, filter_In. intros [I _]. apply list_elem_of_In, in_map.
  rewrite in_app_iff in *. cbn in *. intuition.
Qed.

Lemma closers_up l1 l2 ty : 1 <= l1 <= l2 -> (l1 = 6 -> l2 = 6 \/ l2 = 7) -> (l2 = 6 -> l1 <= 6) -> ty ∈ closers l1 -> ty ∈ closers l2.
Proof.
  intros L H6 _. unfold closers. rewrite !list_elem_of_In, !filter_In. intros [I C]. split; [done|].
  destruct (prec ty) as [p|] eqn:P; [|done].
  assert (p <= 6) by (destruct ty; cbn in P; try done; injection P as <-; lia).
  destruct (Z.eqb_spec l1 6), (Z.eqb_spec l2 6); lia.
Qed.

(** The binary operators. *)
Definition expr_spec (n : Z) (e : sx) : Prop := forall r st b l us i ts,
  yys b ∈ expr_starts -> need (yys b) <= level e -> Forall2 is_tok us (toks e) ->
  Typ i ∈ closers (level e) -> (n = 12 -> exits (yys b) (Typ i) = true) ->
  ready r st (b :: l) (us ++ TItem i :: ts) ->
  reaches st (fun st' => exists v, ready r st' (v :: b :: l) (TItem i :: ts) /\ yys v = to n (yys b) /\
    node v = SNode (build e)).

Definition inner_starts : list Z := [15; 45; 46; 47; 48; 49; 50; 51; 52; 53; 54; 55; 56; 57; 58].
Definition op_toks : list Z := map tok bin_ops.

Lemma starts_split s : s ∈ expr_starts -> s ∈ [7; 44] \/ s ∈ inner_starts.
Proof.
  intros H. assert (memb [7; 44] s || memb inner_starts s = true) as K by tabb H.
  apply orb_prop in K as [K|K]; [left|right]; by apply memb_elem.
Qed.

Lemma op_tok op : op ∈ bin_ops -> tok op ∈ op_toks.
Proof. intros H. unfold op_toks. apply list_elem_of_In, in_map. by apply list_elem_of_In. Qed.

(** The last reduction to an expression. *)
Lemma to_expr e : expr_spec (sort e) e -> expr_spec 12 e.
Proof.
  intros H r st b l us i ts Hb Ne F C X R.
  eapply reaches_bind; [apply (H r st b l us i ts Hb Ne F C); [by destruct e|exact R]|].
  intros st1 (v & R1 & Ey & Q). specialize (X eq_refl). pose proof (closers_follow _ _ C) as Ht.
  assert ((yys b ∈ inner_starts /\ tok (Typ i) ∈ follow) \/ (yys b ∈ [7; 44] /\ tok (Typ i) ∈ op_toks)) as Cs.
  { unfold exits in X. destruct (starts_split _ Hb) as [B|B]; [right|by left]. split; [done|].
    destruct (prec (Typ i)) as [p|] eqn:P; [apply op_tok; by eapply prec_ops|].
    rewrite !elem_of_cons, elem_of_nil in B. destruct B as [B|[B|[]]]; by rewrite B in X. }
  eapply reaches_bind.
  - eapply (plain_rule _ _ _ _ _ _ _ (expr_rule (sort e)) 12 (to (sort e) (yys b)) (to 12 (yys b)));
      [by destruct e|exact R1|exact Ey| | | |by destruct e|by destruct e|table Hb].
    + apply stateb_ok. destruct e; tabb Hb.
    + cbn [num]. destruct Cs as [[B T]|[B T]]; destruct e; table2 B T.
    + cbn [num]. destruct Cs as [[B T]|[B T]]; destruct e; table2 B T.
  - intros st2 R2. apply reaches_now. eexists. split; [exact R2|]. by split.
Qed.

(** The operator after the left operand, in a state whose level allows it. *)
Lemma op_shift op p s : prec op = Some p -> s ∈ expr_starts -> need s <= p ->
  shift (to 12 s) (tok op) = Some (op_state op).
Proof.
  intros P Hs N. assert (s ∈ List.filter (fun s => need s <=? p) expr_starts) as H.
  { apply list_elem_of_In, filter_In. split; [by apply list_elem_of_In|lia]. }
  destruct op; cbn in P; try done; injection P as <-; table H.
Qed.

(** The reduction of a binary expression. *)
Lemma op_reduce op p ty : prec op = Some p -> ty ∈ closers p ->
  shift (to 12 (op_state op)) (tok ty) = None /\ rule_on (to 12 (op_state op)) (tok ty) = Some (op_rule op).
Proof.
  intros P C. assert (tok ty ∈ map tok (closers p)) as H.
  { apply list_elem_of_In, in_map. by apply list_elem_of_In. }
  clear C. destruct op; cbn in P; try done; injection P as <-; split; table H.
Qed.

Lemma bin_quiet op p x y z r l' r' : prec op = Some p -> node x = SNode l' -> iTyp (sitem y) = Some op ->
  node z = SNode r' -> (match op with DIV | MOD => is_zero r' | _ => false end) = false ->
  quiet (op_rule op) [x; y; z] r r (fun w => node w = SNode (BinaryExpr op (Some l') (Some r'))).
Proof.
  intros P Nx Ty Nz Z. apply quiet_tree. intros v q Ee V. exists q.
  destruct op; cbn in P; try done; cbn [op_rule op_state FilterYacc.action Z.add];
    match goal with |- context [FilterYacc.action _ _ _ _ ?k _ _ _] => let k' := eval vm_compute in k in change k with k' | _ => idtac end;
    cbn [FilterYacc.action]; unfold bin_action; rewrite Nx, Ty, Nz; cbn [as_opt mbind option_bind newBinExpr]; rewrite ?Z;
    (split; [reflexivity|]); auto.
Qed.

Lemma binary_ok op e1 e2 : sx_ok (XBin op e1 e2) = true -> expr_spec 12 e1 -> expr_spec 12 e2 ->
  expr_spec 11 (XBin op e1 e2).
Proof.
  cbn [FilterDrive.sx_ok]. destruct (prec op) as [p|] eqn:P; [|done]. intros O H1 H2 r st b l us i ts Hb Ne F C _ R.
  do 5 (apply andb_prop in O as [O ?]). destruct (prec_ops _ _ P) as [Pb Pr].
  cbn [level] in Ne, C. rewrite P in Ne, C. change (default 7 (Some p)) with p in *.
  cbn [toks] in F. apply Forall2_app_inv_r in F as (u1 & ur & F1 & Fr & ->).
  inversion Fr as [|uo ? u2 ? To F2]; subst. destruct To as (io & -> & Eo & Vo). cbn in Eo.
  rewrite <- app_assoc in R. cbn [app] in R.
  assert (is_tok (TItem io) (op, None)) as To by (by exists io).
  eapply reaches_bind.
  { apply (H1 r st b l u1 io (u2 ++ TItem i :: ts)); [done|lia|done| | |exact R].
    - rewrite Eo. unfold closers. apply list_elem_of_In, filter_In. split; [|rewrite P; destruct (Z.eqb_spec (level e1) 6), (Z.eqb_spec p 6); lia].
      apply in_app_iff. left. by apply list_elem_of_In.
    - intros _. unfold exits. by rewrite Eo, P. }
  intros st1 (v1 & R1 & Ey1 & Q1).
  eapply reaches_bind; [eapply (shift_tok (op_state op)); [exact R1|exact To|rewrite Ey1; by eapply op_shift]|].
  intros st2 (v2 & R2 & Ey2 & Ty2 & _).
  eapply reaches_bind.
  { apply (H2 r st2 v2 (v1 :: b :: l) u2 i ts); [rewrite Ey2| |done| | |exact R2].
    - apply memb_elem. clear - P. by destruct op.
    - rewrite Ey2. assert (need (op_state op) = right_level p) as -> by (destruct op; cbn in P; try done; by injection P as <-). lia.
    - unfold right_level in *. apply (closers_up p); [destruct (p =? 6); lia| |lia|done].
      intros ->. cbn in *. destruct e2 as [| | |op2| ]; cbn in *; try lia. destruct (prec op2) as [p2|] eqn:P2; cbn in *; [|lia].
      apply prec_ops in P2. lia.
    - intros _. rewrite Ey2. unfold exits. destruct (prec (Typ i)); [done|]. destruct op; done. }
  intros st3 (v3 & R3 & Ey3 & Q3). rewrite Ey2 in Ey3.
  destruct (op_reduce op p (Typ i) P C) as [Sn Rl]. eapply reaches_bind.
  - eapply (step_reduce _ r _ [v3; v2; v1] b l (TItem i) ts (op_rule op) 11 (to 11 (yys b)) (fun w => node w = SNode (build (XBin op e1 e2))));
      [exact R3|reflexivity|rewrite Ey3; apply stateb_ok; by destruct op|rewrite Ey3; exact Sn|rewrite Ey3; exact Rl| | | |table Hb|].
    + clear - P. by destruct op.
    + clear - P. by destruct op.
    + clear - P. by destruct op.
    + cbn [rev app FilterDrive.build]. eapply bin_quiet; [exact P|done|done|done|]. by apply negb_true_iff.
  - intros st4 (v4 & R4 & Q4). apply reaches_now. by exists (set_yys (to 11 (yys b)) v4).
Qed.

(** A column and a list. *)
Definition list_state (op : ItemType) : Z :=
  match op with IN => 59 | NOT_IN => 60 | MATCH => 61 | NOT_MATCH => 62 | _ => 0 end.

Lemma regex_list_quiet l p : forallb is_str l = true -> exists p',
  regex_list re_valid (map atom_node l) p = (omap (pattern Unquote re_valid) l, p') /\
  grows p p' /\ errs p' = errs p /\ parseResult p' = parseResult p.
Proof.
  revert p. induction l as [|a l IH]; intros p H; [by exists p; split; auto|]. destruct a; try done.
  cbn in H. cbn [map FilterDrive.atom_node regex_list]. destruct (regex_quiet (unq Unquote text) p) as (p1 & E1 & G1 & A1 & B1).
  rewrite E1. destruct (IH p1 H) as (p2 & E2 & G2 & A2 & B2). rewrite E2. exists p2.
  split; [|split; [by eapply grows_trans|split; congruence]]. unfold regex_node. cbn. by destruct (re_valid _).
Qed.

Lemma list_quiet op l c d1 d2 d3 d4 d5 r : is_list_op op = true ->
  (match op with MATCH | NOT_MATCH => forallb is_str l = true | _ => True end) ->
  node d1 = SNode c -> iTyp (sitem d2) = Some op -> node d4 = SNode (NodeList (map atom_node l)) ->
  quiet (list_state op + 9) [d1; d2; d3; d4; d5] r r
    (fun w => node w = SNode (BinaryExpr op (Some c) (Some (list_node Unquote re_valid op l)))).
Proof.
  intros Lo Hs N1 T2 N4. apply quiet_tree. intros v p Ee V.
  assert (FilterYacc.action Unquote re_valid toLower not_in (list_state op + 9) [d1; d2; d3; d4; d5] v p
    = bin_action re_valid true d1 d2 d4 v p) as -> by (by destruct op).
  unfold bin_action. rewrite N1, T2, N4. cbn [as_opt mbind option_bind].
  destruct op; try done; cbn [newBinExpr list_node].
  1-2: destruct (regex_list_quiet l p Hs) as (p' & E & G & A & B); rewrite E; exists p'; split; [reflexivity|]; split; [done|]; split; congruence.
  all: same_parser p.
Qed.

Lemma list_ok op c l : sx_ok (XList op c l) = true -> expr_spec 11 (XList op c l).
Proof.
  cbn [FilterDrive.sx_ok]. intros O r st b lv us i ts Hb Ne F C _ R.
  apply andb_prop in O as [O Op]. apply andb_prop in O as [O Ol]. apply andb_prop in O as [Nc Oc].
  assert (is_list_op op = true) as Lo by (by destruct op).
  cbn [toks] in F. apply Forall2_app_inv_r in F as (uc & ur & Fc & Fr & ->).
  inversion Fr as [|uo ? ur1 ? To Fr1]; subst. inversion Fr1 as [|ub ? ur2 ? Tb Fr2]; subst.
  apply Forall2_app_inv_r in Fr2 as (ul & ue & Fl & Fe & ->). inversion Fe as [|uk ? ur3 ? Tk Fe']; subst. inversion Fe'; subst.
  destruct To as (io & -> & Eo & Vo). cbn in Eo. assert (is_tok (TItem io) (op, None)) as To by (by exists io).
  destruct Tk as (ik & -> & Ek & Vk). cbn in Ek. assert (is_tok (TItem ik) (RIGHT_BRACKET, None)) as Tk by (by exists ik).
  rewrite <- app_assoc in R. cbn [app] in R. rewrite <- app_assoc in R. cbn [app] in R.
  eapply reaches_bind.
  { refine (column_ok c r st b lv uc (TItem io) _ Nc Oc (expr_start_elem _ Hb) Fc _ R).
    cbn [num]. rewrite Eo. apply memb_elem. clear - Lo. by destruct op. }
  intros st1 (v1 & R1 & Ey1 & Q1). assert (yys v1 = 14) as E14.
  { rewrite Ey1. assert (Some (to 19 (yys b)) = Some 14) as K by table Hb. by injection K. }
  eapply reaches_bind; [eapply (shift_tok (list_state op)); [exact R1|exact To|rewrite E14; clear - Lo; by destruct op]|].
  intros st2 (v2 & R2 & Ey2 & Ty2 & _).
  eapply reaches_bind; [eapply (shift_tok (list_state op + 30)); [exact R2|exact Tb|rewrite Ey2; clear - Lo; by destruct op]|].
  intros st3 (v3 & R3 & Ey3 & _ & _).
  assert (yys v3 ∈ list_starts) as H3 by (rewrite Ey3; apply memb_elem; clear - Lo; by destruct op).
  eapply reaches_bind; [refine (array_ok l r st3 v3 _ ul (TItem ik) _ Ol H3 Fl _ R3); cbn; by rewrite Ek|].
  intros st4 (v4 & R4 & Ey4 & Q4).
  eapply reaches_bind; [eapply (shift_tok (list_state op + 66)); [exact R4|exact Tk|rewrite Ey4, Ey3; clear - Lo; by destruct op]|].
  intros st5 (v5 & R5 & Ey5 & _ & _). eapply reaches_bind.
  - eapply (step_reduce _ r _ [v5; v4; v3; v2; v1] b lv (TItem i) ts (list_state op + 9) 11 (to 11 (yys b)) (fun w => node w = SNode (build (XList op c l))));
      [exact R5|reflexivity|rewrite Ey5; apply stateb_ok; clear - Lo; by destruct op|rewrite Ey5; clear - Lo; by destruct op
      |rewrite Ey5; clear - Lo; by destruct op|clear - Lo; by destruct op|clear - Lo; by destruct op|clear - Lo; by destruct op|table Hb|].
    cbn [rev app FilterDrive.build]. eapply list_quiet; [done| |done|done|done]. clear - Op. by destruct op.
  - intros st6 (v6 & R6 & Q6). apply reaches_now. by exists (set_yys (to 11 (yys b)) v6).
Qed.

Lemma paren_ok e : expr_spec 12 e -> expr_spec 16 (XParen e).
Proof.
  intros H r st b l us i ts Hb Ne F C _ R. cbn [toks] in F. inversion F as [|u1 ? ur ? T1 Fr]; subst.
  apply Forall2_app_inv_r in Fr as (ue & uk & Fe & Fk & ->). inversion Fk as [|u2 ? ur2 ? T2 Fk']; subst. inversion Fk'; subst.
  destruct T2 as (ik & -> & Ek & Vk). cbn in Ek. assert (is_tok (TItem ik) (RIGHT_PAREN, None)) as T2 by (by exists ik).
  cbn [app] in R. rewrite <- app_assoc in R. cbn [app] in R.
  eapply reaches_bind; [eapply (shift_tok 15); [exact R|exact T1|table Hb]|]. intros st1 (v1 & R1 & Ey1 & _ & _).
  eapply reaches_bind.
  { apply (H r st1 v1 (b :: l) ue ik (TItem i :: ts)); [rewrite Ey1; by apply memb_elem| |done| | |exact R1].
    - rewrite Ey1. change (need 15) with 0. apply level_nonneg.
    - rewrite Ek. unfold closers. apply list_elem_of_In, filter_In. split; [|done]. apply in_app_iff. right. by left.
    - intros _. rewrite Ey1, Ek. done. }
  intros st2 (v2 & R2 & Ey2 & Q2). rewrite Ey1 in Ey2.
  eapply reaches_bind; [eapply (shift_tok 93); [exact R2|exact T2|rewrite Ey2; reflexivity]|]. intros st3 (v3 & R3 & Ey3 & _ & _).
  eapply reaches_bind.
  - eapply (step_reduce _ r _ [v3; v2; v1] b l (TItem i) ts 23 16 (to 16 (yys b)) (fun w => node w = SNode (build (XParen e))));
      [exact R3|reflexivity|rewrite Ey3; done|rewrite Ey3; reflexivity|rewrite Ey3; reflexivity|done|reflexivity|reflexivity|table Hb|].
    apply quiet_tree. intros v0 p Ee V0. cbn [rev app FilterYacc.action]. rewrite Q2. cbn [as_opt mbind option_bind]. same_parser p.
  - intros st4 (v4 & R4 & Q4). apply reaches_now. by exists (set_yys (to 16 (yys b)) v4).
Qed.

Lemma expr_ok e : sx_ok e = true -> expr_spec (sort e) e.
Proof.
  induction e as [a|q x|e IH|op e1 IH1 e2 IH2|op c l]; intros O.
  - intros r st b l us i ts Hb Ne F C _ R.
    refine (elem_ok a r st b l us (TItem i) ts O (expr_start_elem _ Hb) F (closers_follow _ _ C) R).
  - intros r st b l us i ts Hb Ne F C _ R. exact (regex_ok q x r st b l us (TItem i) ts O Hb F R).
  - apply paren_ok, to_expr, IH, O.
  - apply binary_ok; [done| |]; apply to_expr; [apply IH1|apply IH2]; cbn in O; destruct (prec op); try done;
      do 5 (apply andb_prop in O as [O ?]); done.
  - by apply list_ok.
Qed.
End complete.
