(* ===== verification/FilterParseThms.v ===== *)
(** * Filter conditions: whole texts

    [parse_complete] takes the parser through statements, from the first token to the
    result; [parsed_conditions_safe] and [condition_means] join the parser with the
    evaluator: what the parser accepts evaluates without a panic, and a condition written
    down evaluates to its meaning. *)

From S2P Require Import Prelude FilterAst FilterEval FilterThms FilterLex FilterParser GoStrconv FilterYacc FilterAutomaton FilterStream FilterShapes FilterYaccThms FilterDrive FilterComplete.

Section whole.
Context (Unquote : bytes -> bytes * bool) (re_valid : string -> bool) (toLower : string -> string)
  (not_in : string).

Local Notation quiet := (quiet Unquote re_valid toLower not_in).
Local Notation reaches := (reaches Unquote re_valid toLower not_in).
Local Notation shift_tok := (shift_tok Unquote re_valid toLower not_in).
Local Notation step_reduce := (step_reduce Unquote re_valid toLower not_in).
Local Notation unit_rule := (unit_rule Unquote re_valid toLower not_in).
Local Notation plain_rule := (plain_rule Unquote re_valid toLower not_in).
Local Notation build := (build Unquote re_valid).
Local Notation sx_ok := (sx_ok Unquote re_valid).
Local Notation stmt_node := (stmt_node Unquote re_valid).
Local Notation stmt_ok := (stmt_ok Unquote re_valid).

Ltac same_parser p := eexists _, p; split; [reflexivity|]; split; [by auto|]; split; [done|]; split; [done|].

(** ** Filters *)

Definition filter_starts : list Z := [7; 44].
Definition filter_ends : list Z := map tok [COMMA; RIGHT_BRACE].

Lemma filter_ok e r st b l us i ts : is_filter e = true -> sx_ok e = true -> yys b ∈ filter_starts ->
  Forall2 is_tok us (toks e) -> tok (Typ i) ∈ filter_ends -> ready r st (b :: l) (us ++ TItem i :: ts) ->
  reaches st (fun st' => exists v, ready r st' (v :: b :: l) (TItem i :: ts) /\ yys v = to 17 (yys b) /\
    node v = SNode (build e)).
Proof.
  intros If Oe Hb F Ht R.
  assert (Typ i = COMMA \/ Typ i = RIGHT_BRACE) as Ti.
  { unfold filter_ends in Ht. cbn in Ht. rewrite !elem_of_cons, elem_of_nil in Ht.
    destruct Ht as [Ht|[Ht|[]]]; [left|right]; clear - Ht; by destruct (Typ i). }
  eapply reaches_bind.
  { refine (expr_ok Unquote re_valid toLower not_in e Oe r st b l us i ts _ _ F _ _ R).
    - apply memb_elem. tabb Hb.
    - assert (need (yys b) = 0) as ->.
      { assert (Some (need (yys b)) = Some 0) as K by table Hb. by injection K. }
      apply level_nonneg.
    - unfold closers. apply list_elem_of_In, filter_In. rewrite in_app_iff. destruct Ti as [-> | ->]; cbn; tauto.
    - by destruct e. }
  intros st1 (v & R1 & Ey & Q). eapply reaches_bind.
  - eapply (plain_rule _ _ _ _ _ _ _ (if sort e =? 16 then 53 else 52) 17 (to (sort e) (yys b)) (to 17 (yys b)));
      [by destruct e|exact R1|exact Ey| | | |by destruct e|by destruct e|table Hb].
    + apply stateb_ok. destruct e; tabb Hb.
    + cbn [num]. destruct e; try done; table2 Hb Ht.
    + cbn [num]. destruct e; try done; table2 Hb Ht.
  - intros st2 R2. apply reaches_now. eexists. split; [exact R2|]. by split.
Qed.

(** The filters after the first one. *)
Definition more_filters (l : list sx) : list spec := flat_map (fun e => (COMMA, None) :: toks e) l.

Lemma sep_filters e l : sep_toks toks COMMA (e :: l) = toks e ++ more_filters l.
Proof.
  revert e. induction l as [|e' l IH]; intros e; [cbn; by rewrite app_nil_r|].
  change (sep_toks toks COMMA (e :: e' :: l)) with (toks e ++ (COMMA, None) :: sep_toks toks COMMA (e' :: l)).
  by rewrite IH.
Qed.

Lemma more_head us i l : Forall2 is_tok us (more_filters l) -> Typ i = RIGHT_BRACE -> forall ts,
  exists i' ts', us ++ TItem i :: ts = TItem i' :: ts' /\ tok (Typ i') ∈ filter_ends.
Proof.
  intros F E ts. destruct l as [|e l]; cbn in F; inversion F as [|u x ? ? T ?]; subst; cbn [app].
  - exists i, ts. split; [done|]. rewrite E. by apply memb_elem.
  - destruct T as (i' & -> & Ti & _). exists i'. eexists. split; [done|]. cbn in Ti. rewrite Ti. by apply memb_elem.
Qed.

Lemma filters_rest l : forall r st v b lv us i ts acc,
  forallb (fun e => is_filter e && sx_ok e) l = true -> yys b = 7 -> Forall2 is_tok us (more_filters l) ->
  Typ i = RIGHT_BRACE -> yys v = 9 -> nodes v = acc -> ready r st (v :: b :: lv) (us ++ TItem i :: ts) ->
  reaches st (fun st' => exists v', ready r st' (v' :: b :: lv) (TItem i :: ts) /\ yys v' = 9 /\
    nodes v' = acc ++ map build l).
Proof.
  induction l as [|e l IH]; intros r st v b lv us i ts acc O Hb F Et Ey Nv R.
  - inversion F; subst. apply reaches_now. exists v. cbn. by rewrite app_nil_r.
  - cbn in O. apply andb_prop in O as [Oe O]. apply andb_prop in Oe as [If Oe].
    cbn [more_filters flat_map] in F. fold (more_filters l) in F. cbn [app] in F.
    inversion F as [|u1 ? us1 ? T1 F1]; subst. apply Forall2_app_inv_r in F1 as (ua & ur & Fa & Fr & ->).
    cbn [app] in R. rewrite <- app_assoc in R.
    eapply reaches_bind; [eapply (shift_tok 44); [exact R|exact T1|rewrite Ey; reflexivity]|]. intros st1 (v1 & R1 & Ey1 & _ & _).
    destruct (more_head ur i l Fr Et ts) as (i' & ts' & E' & Ht'). rewrite E' in R1.
    eapply reaches_bind; [refine (filter_ok e r st1 v1 _ ua i' ts' If Oe _ Fa Ht' R1); rewrite Ey1; by apply memb_elem|].
    intros st2 (v2 & R2 & Ey2 & Q2). rewrite Ey1 in Ey2. change (to 17 44) with 74 in Ey2.
    eapply reaches_bind.
    + eapply (step_reduce _ r _ [v2; v1; v] b lv (TItem i') ts' 49 4 9 (fun w => nodes w = nodes v ++ [build e]));
        [exact R2|reflexivity|rewrite Ey2; done|rewrite Ey2; cbn [num]; table Ht'|rewrite Ey2; cbn [num]; table Ht'|done|reflexivity|reflexivity|rewrite Hb; reflexivity|].
      intros v0 p Ee Er V0. cbn [rev app FilterYacc.action]. rewrite (V0 v _ eq_refl), Q2. cbn [as_node mbind option_bind].
      same_parser p. done.
    + intros st3 (v3 & R3 & Q3). rewrite <- E' in R3.
      assert (nodes v ++ map build (e :: l) = (nodes v ++ [build e]) ++ map build l) as -> by (by rewrite <- app_assoc).
      by apply (IH r st3 (set_yys 9 v3) b lv ur i ts _ O Hb Fr Et eq_refl Q3 R3).
Qed.

Lemma filters_ok l r st b lv us i ts : forallb (fun e => is_filter e && sx_ok e) l = true -> yys b = 7 ->
  Forall2 is_tok us (sep_toks toks COMMA l) -> Typ i = RIGHT_BRACE -> ready r st (b :: lv) (us ++ TItem i :: ts) ->
  reaches st (fun st' => exists v', ready r st' (v' :: b :: lv) (TItem i :: ts) /\ yys v' = 9 /\ nodes v' = map build l).
Proof.
  intros O Hb F Et R. destruct l as [|e l].
  - inversion F; subst. cbn [app] in R. eapply reaches_bind.
    + eapply (step_reduce _ r _ [] b lv (TItem i) ts 51 4 9 (fun w => nodes w = []));
        [exact R|reflexivity|rewrite Hb; done|rewrite Hb; cbn [num]; rewrite Et; reflexivity|rewrite Hb; cbn [num]; rewrite Et; reflexivity|done|reflexivity|reflexivity|rewrite Hb; reflexivity|].
      intros v0 p Ee Er V0. cbn [rev FilterYacc.action]. same_parser p. done.
    + intros st1 (v & R1 & Q). apply reaches_now. by exists (set_yys 9 v).
  - rewrite sep_filters in F. apply Forall2_app_inv_r in F as (ua & ur & Fa & Fr & ->).
    cbn in O. apply andb_prop in O as [Oe O]. apply andb_prop in Oe as [If Oe]. rewrite <- app_assoc in R.
    destruct (more_head ur i l Fr Et ts) as (i' & ts' & E' & Ht'). rewrite E' in R.
    eapply reaches_bind; [refine (filter_ok e r st b _ ua i' ts' If Oe _ Fa Ht' R); rewrite Hb; by apply memb_elem|].
    intros st1 (v1 & R1 & Ey1 & Q1). rewrite Hb in Ey1. change (to 17 7) with 10 in Ey1. eapply reaches_bind.
    + eapply (unit_rule _ _ _ _ _ _ _ 48 4 10 9 (fun w => nodes w = [build e]));
        [exact R1|exact Ey1|done|reflexivity|reflexivity|done|reflexivity|reflexivity|rewrite Hb; reflexivity|].
      intros v0 p Ee Er V0. cbn [FilterYacc.action]. rewrite Q1. cbn [as_node mbind option_bind]. same_parser p. done.
    + intros st2 (v2 & R2 & Q2). rewrite <- E' in R2. change (map build (e :: l)) with ([build e] ++ map build l).
      by apply (filters_rest l r st2 (set_yys 9 v2) b lv ur i ts _ O Hb Fr Et eq_refl Q2 R2).
Qed.

(** ** Statements *)

Definition stmt_starts : list Z := [2; 8].
Definition stmt_ends : list Z := map tok [SEMICOLON; EOF].

Definition sym_tree (o : option Node) : symNode := match o with Some n => SNode n | None => SNil end.

Lemma stmt_parsed s r st b lv us i ts : stmt_ok s = true -> yys b ∈ stmt_starts ->
  Forall2 is_tok us (stmt_toks s) -> tok (Typ i) ∈ stmt_ends -> ready r st (b :: lv) (us ++ TItem i :: ts) ->
  reaches st (fun st' => exists v, ready r st' (v :: b :: lv) (TItem i :: ts) /\ yys v = to 7 (yys b) /\
    node v = sym_tree (stmt_node s)).
Proof.
  intros O Hb F Ht R. destruct s as [fs|]; cbn [stmt_toks] in F.
  - inversion F as [|u1 ? ur ? T1 Fr]; subst. apply Forall2_app_inv_r in Fr as (uf & uk & Ff & Fk & ->).
    inversion Fk as [|u2 ? ur2 ? T2 Fk']; subst. inversion Fk'; subst.
    destruct T2 as (ik & -> & Ek & Vk). cbn in Ek. assert (is_tok (TItem ik) (RIGHT_BRACE, None)) as T2 by (by exists ik).
    cbn [app] in R. rewrite <- app_assoc in R. cbn [app] in R.
    eapply reaches_bind; [eapply (shift_tok 7); [exact R|exact T1|table Hb]|]. intros st1 (v1 & R1 & Ey1 & _ & _).
    eapply reaches_bind; [exact (filters_ok fs r st1 v1 _ uf ik _ O Ey1 Ff Ek R1)|]. intros st2 (v2 & R2 & Ey2 & Q2).
    eapply reaches_bind; [eapply (shift_tok 43); [exact R2|exact T2|rewrite Ey2; reflexivity]|]. intros st3 (v3 & R3 & Ey3 & _ & _).
    eapply reaches_bind.
    + eapply (step_reduce _ r _ [v3; v2; v1] b lv (TItem i) ts 46 7 (to 7 (yys b)) (fun w => node w = sym_tree (stmt_node (Some fs))));
        [exact R3|reflexivity|rewrite Ey3; done|rewrite Ey3; reflexivity|rewrite Ey3; reflexivity|done|reflexivity|reflexivity|table Hb|].
      intros v0 p Ee Er V0. cbn [rev app FilterYacc.action]. same_parser p. cbn. by rewrite Q2.
    + intros st4 (v4 & R4 & Q4). apply reaches_now. by exists (set_yys (to 7 (yys b)) v4).
  - inversion F; subst. cbn [app] in R. eapply reaches_bind.
    + eapply (step_reduce _ r _ [] b lv (TItem i) ts 47 7 (to 7 (yys b)) (fun w => node w = SNil));
        [exact R|reflexivity|apply stateb_ok; tabb Hb|cbn [num]; table2 Hb Ht|cbn [num]; table2 Hb Ht|done|reflexivity|reflexivity|table Hb|].
      intros v0 p Ee Er V0. cbn [rev FilterYacc.action]. same_parser p. done.
    + intros st1 (v1 & R1 & Q1). apply reaches_now. by exists (set_yys (to 7 (yys b)) v1).
Qed.

(** The statements after the first one. *)
Definition more_stmts (l : list stmt) : list spec := flat_map (fun s => (SEMICOLON, None) :: stmt_toks s) l.

Lemma sep_stmts s l : sep_toks stmt_toks SEMICOLON (s :: l) = stmt_toks s ++ more_stmts l.
Proof.
  revert s. induction l as [|s' l IH]; intros s; [cbn; by rewrite app_nil_r|].
  change (sep_toks stmt_toks SEMICOLON (s :: s' :: l)) with (stmt_toks s ++ (SEMICOLON, None) :: sep_toks stmt_toks SEMICOLON (s' :: l)).
  by rewrite IH.
Qed.

Lemma more_stmts_head us i l : Forall2 is_tok us (more_stmts l) -> Typ i = EOF -> forall ts,
  exists i' ts', us ++ TItem i :: ts = TItem i' :: ts' /\ tok (Typ i') ∈ stmt_ends.
Proof.
  intros F E ts. destruct l as [|s l]; cbn in F; inversion F as [|u x ? ? T ?]; subst; cbn [app].
  - exists i, ts. split; [done|]. rewrite E. by apply memb_elem.
  - destruct T as (i' & -> & Ti & _). exists i'. eexists. split; [done|]. cbn in Ti. rewrite Ti. by apply memb_elem.
Qed.

Lemma stmts_rest l : forall r st v b lv us i ts acc, forallb stmt_ok l = true -> yys b = 2 ->
  Forall2 is_tok us (more_stmts l) -> Typ i = EOF -> yys v = 5 -> node v = SConds acc ->
  ready r st (v :: b :: lv) (us ++ TItem i :: ts) ->
  reaches st (fun st' => exists v', ready r st' (v' :: b :: lv) (TItem i :: ts) /\ yys v' = 5 /\
    node v' = SConds (acc ++ (Some <$> omap stmt_node l))).
Proof.
  induction l as [|s l IH]; intros r st v b lv us i ts acc O Hb F Et Ey Nv R.
  - inversion F; subst. apply reaches_now. exists v. cbn. by rewrite app_nil_r.
  - cbn in O. apply andb_prop in O as [Os O]. cbn [more_stmts flat_map] in F. fold (more_stmts l) in F. cbn [app] in F.
    inversion F as [|u1 ? us1 ? T1 F1]; subst. apply Forall2_app_inv_r in F1 as (ua & ur & Fa & Fr & ->).
    cbn [app] in R. rewrite <- app_assoc in R.
    eapply reaches_bind; [eapply (shift_tok 8); [exact R|exact T1|rewrite Ey; reflexivity]|]. intros st1 (v1 & R1 & Ey1 & _ & _).
    destruct (more_stmts_head ur i l Fr Et ts) as (i' & ts' & E' & Ht'). rewrite E' in R1.
    eapply reaches_bind; [refine (stmt_parsed s r st1 v1 _ ua i' ts' Os _ Fa Ht' R1); rewrite Ey1; by apply memb_elem|].
    intros st2 (v2 & R2 & Ey2 & Q2). rewrite Ey1 in Ey2. change (to 7 8) with 42 in Ey2.
    eapply reaches_bind.
    + eapply (step_reduce _ r _ [v2; v1; v] b lv (TItem i') ts' 5 6 5 (fun w => node w = SConds (acc ++ (Some <$> omap stmt_node [s]))));
        [exact R2|reflexivity|rewrite Ey2; done|rewrite Ey2; cbn [num]; table Ht'|rewrite Ey2; cbn [num]; table Ht'|done|reflexivity|reflexivity|rewrite Hb; reflexivity|].
      intros v0 p Ee Er V0. cbn [rev app FilterYacc.action]. rewrite Q2, Nv.
      destruct s as [fs|]; cbn; same_parser p; cbn; by rewrite ?app_nil_r.
    + intros st3 (v3 & R3 & Q3). rewrite <- E' in R3.
      assert (acc ++ (Some <$> omap stmt_node (s :: l)) = (acc ++ (Some <$> omap stmt_node [s])) ++ (Some <$> omap stmt_node l)) as ->.
      { cbn. destruct (stmt_node s); cbn; [by rewrite <- app_assoc|by rewrite app_nil_r]. }
      by apply (IH r st3 (set_yys 5 v3) b lv ur i ts _ O Hb Fr Et eq_refl Q3 R3).
Qed.

Lemma stmts_parsed s ss r st b lv us i ts : forallb stmt_ok (s :: ss) = true -> yys b = 2 ->
  Forall2 is_tok us (sep_toks stmt_toks SEMICOLON (s :: ss)) -> Typ i = EOF -> ready r st (b :: lv) (us ++ TItem i :: ts) ->
  reaches st (fun st' => exists v', ready r st' (v' :: b :: lv) (TItem i :: ts) /\ yys v' = 5 /\
    node v' = SConds (stmts_result Unquote re_valid s ss)).
Proof.
  intros O Hb F Et R. rewrite sep_stmts in F. apply Forall2_app_inv_r in F as (ua & ur & Fa & Fr & ->).
  cbn in O. apply andb_prop in O as [Os O]. rewrite <- app_assoc in R.
  destruct (more_stmts_head ur i ss Fr Et ts) as (i' & ts' & E' & Ht'). rewrite E' in R.
  eapply reaches_bind; [refine (stmt_parsed s r st b _ ua i' ts' Os _ Fa Ht' R); rewrite Hb; by apply memb_elem|].
  intros st1 (v1 & R1 & Ey1 & Q1). rewrite Hb in Ey1. change (to 7 2) with 6 in Ey1. eapply reaches_bind.
  - eapply (unit_rule _ _ _ _ _ _ _ 4 6 6 5 (fun w => node w = SConds [stmt_node s]));
      [exact R1|exact Ey1|done|cbn [num]; table Ht'|cbn [num]; table Ht'|done|reflexivity|reflexivity|rewrite Hb; reflexivity|].
    intros v0 p Ee Er V0. cbn [FilterYacc.action]. rewrite Q1. destruct s as [fs|]; cbn; same_parser p; done.
  - intros st2 (v2 & R2 & Q2). rewrite <- E' in R2. unfold stmts_result. change (?a :: ?l) with ([a] ++ l).
    by apply (stmts_rest ss r st2 (set_yys 5 v2) b lv ur i ts _ O Hb Fr Et eq_refl Q2 R2).
Qed.

(** ** Runs *)

(** The last reductions: the result is stored, the end is read twice. *)
Lemma stmts_end conds st v b b0 i : yys v = 5 -> node v = SConds conds -> yys b = 2 -> yys b0 = 0 -> Typ i = EOF ->
  ready SNil st [v; b; b0] [TItem i; TEnd] ->
  reaches st (fun st' => exists v', ready (SConds conds) st' [v'; b0] [TEnd] /\ yys v' = 1).
Proof.
  intros Ey Nv Eb E0 Et R. eapply reaches_bind.
  { eapply (step_reduce SNil (SConds conds) _ [v; b] b0 [] (TItem i) [TEnd] 1 26 1 (fun _ => True));
      [exact R|reflexivity|rewrite Ey; done|rewrite Ey; cbn [num]; rewrite Et; reflexivity
      |rewrite Ey; cbn [num]; rewrite Et; reflexivity|done|reflexivity|reflexivity|rewrite E0; reflexivity|].
    intros v0 p Ee Er V0. cbn [rev app FilterYacc.action]. rewrite Nv. do 2 eexists. split; [reflexivity|]. split; [by split|]. done. }
  intros st1 (v1 & R1 & _). assert (is_tok (TItem i) (EOF, None)) as T by (by exists i).
  eapply reaches_bind; [eapply (shift_tok 4); [exact R1|exact T|reflexivity]|]. intros st2 (v2 & R2 & Ey2 & _ & _).
  eapply reaches_bind.
  { eapply (step_reduce _ (SConds conds) _ [v2; set_yys 1 v1] b0 [] TEnd [] 2 26 1 (fun _ => True));
      [exact R2|reflexivity|rewrite Ey2; done|rewrite Ey2; reflexivity|rewrite Ey2; reflexivity|done|reflexivity|reflexivity|rewrite E0; reflexivity|].
    intros v0 p Ee Er V0. cbn [rev app FilterYacc.action]. do 2 eexists. split; [reflexivity|]. by split; [by auto|]. }
  intros st3 (v3 & R3 & _). apply reaches_now. by exists (set_yys 1 v3).
Qed.

Lemma step_accept r st v b0 : ready r st [v; b0] [TEnd] -> yys v = 1 ->
  exists st', step Unquote re_valid toLower not_in st = Some (Ret 0 st') /\ errs (yp st') = [] /\ parseResult (yp st') = r.
Proof.
  intros R Ey. destruct (ready_look _ _ _ _ R) as (st1 & El & R1 & Ch & E1).
  pose proof (r_top _ _ _ _ R) as (b & l & [= <- <-] & Ht). rewrite Ey in Ht.
  destruct (pending_next _ _ Ch (r_pend _ _ _ _ R1)) as (t & rest & [= <- <-] & Et & _ & _). cbn in Et.
  exists st1. split; [|split; apply R1]. unfold FilterYacc.step. rewrite <- Ht.
  change (at_ yyPact 1) with (Some 104). cbn [mbind option_bind]. change (104 <=? yyFlag) with false. cbv iota.
  rewrite El. cbn [mbind option_bind]. rewrite Et. change (104 + yyEofCode) with 105.
  change (at_ yyAct 105) with (Some 115). cbn [mbind option_bind]. change (at_ yyChk 115) with (Some (-9)).
  cbn -[FilterYacc.yydefault]. unfold FilterYacc.yydefault. rewrite E1, <- Ht. change (at_ yyDef 1) with (Some (-2)).
  cbn [mbind option_bind Z.eqb Pos.eqb]. rewrite (lookahead_char _ Ch). cbn [mbind option_bind].
  change (exca_find yyExca 1) with (Some (1 :: -1 :: drop 4 yyExca)). cbn [mbind option_bind]. by rewrite Et.
Qed.

(** The parser before its first step. *)
Lemma ready_start text pool its : stream (Some lexStatements) (FilterLex.Lex text) its ->
  (length its <= S (length text))%nat -> sound (tokens_of its) ->
  ready SNil (Parse_start (set_inject START_WHERE_CONDITION true (newParser text pool))) [set_yys 0 zero_sym]
    (TStart :: tokens_of its).
Proof.
  intros St L [C F]. split; [done|by do 2 eexists| | |done|done].
  - unfold pending. cbn. apply feeds_set_char. by apply feeds_start.
  - split; [by apply complete_cons|by constructor].
Qed.

Lemma spec_tokens_sound us xs i : Forall2 is_tok us xs -> complete (us ++ [TItem i; TEnd]) -> sound (us ++ [TItem i; TEnd]).
Proof.
  intros F C. split; [done|]. apply Forall_app. split; [|by repeat constructor]. clear C.
  induction F as [|u x us xs (j & -> & _) _ IH]; [constructor|]. by constructor.
Qed.

Lemma statements_parse pool text its us i s ss : lex_all text = Some its ->
  tokens_of its = us ++ [TItem i; TEnd] -> Typ i = EOF ->
  Forall2 is_tok us (sep_toks stmt_toks SEMICOLON (s :: ss)) -> forallb stmt_ok (s :: ss) = true ->
  exists p, GetConds Unquote re_valid toLower not_in pool text = Some (Ok (stmts_result Unquote re_valid s ss), p) /\
    errs p = [].
Proof.
  intros El Et Ei F O. destruct (stream_text text) as (its' & St & El' & L). rewrite El in El'. injection El' as <-.
  pose proof (stream_complete _ _ _ St) as C. rewrite Et in C. pose proof (spec_tokens_sound _ _ _ F C) as Sd.
  destruct (doParse_ok Unquote re_valid toLower not_in pool text its St L) as (p & Ep & _).
  rewrite <- Et in Sd. pose proof (ready_start text pool its St L Sd) as R. rewrite Et in R.
  assert (reaches (Parse_start (set_inject START_WHERE_CONDITION true (newParser text pool))) (fun st' => exists v' b0,
    ready (SConds (stmts_result Unquote re_valid s ss)) st' [v'; b0] [TEnd] /\ yys v' = 1)) as (st' & Ss & v' & b0 & R' & Ey).
  { eapply reaches_bind; [eapply (step_shift Unquote re_valid toLower not_in _ _ _ _ TStart _ 2); [exact R|reflexivity|done]|].
    intros st1 (v1 & R1 & Ey1 & _).
    eapply reaches_bind; [exact (stmts_parsed s ss SNil st1 v1 _ us i [TEnd] O Ey1 F Ei R1)|]. intros st2 (v2 & R2 & Ey2 & N2).
    eapply reaches_bind; [exact (stmts_end _ st2 v2 v1 (set_yys 0 zero_sym) i Ey2 N2 Ey1 eq_refl Ei R2)|]. intros st3 (v3 & R3 & Ey3).
    apply reaches_now. by do 2 eexists. }
  destruct (step_accept _ _ _ _ R' Ey) as (stf & Ef & Ee & Er).
  exists p. unfold FilterYacc.GetConds. rewrite Ep. cbn [mbind option_bind].
  unfold doParse in Ep. change (InjectItem START_WHERE_CONDITION (newParser text pool))
    with (Some (set_inject START_WHERE_CONDITION true (newParser text pool))) in Ep. cbn [mbind option_bind] in Ep.
  unfold Parse in Ep. destruct (parse_loop _ _ _ _ _ _) as [[c st]|] eqn:Pl; [|done]. cbn [mbind option_bind] in Ep.
  injection Ep as <-. pose proof (loop_steps _ _ _ _ _ _ Ss _ _ Pl _ _ Ef) as [= -> ->].
  cbn [errs parseResult set_char]. by rewrite Ee, Er.
Qed.

(** C24: a text whose tokens are those of statements - filters in braces, separated by
    semicolons, each a comparison, a membership test or a parenthesized expression, with
    the precedences of the operators - is accepted whatever parser the pool hands out, and
    the result holds exactly the trees of the statements. *)
Theorem parse_complete pool text its us i s ss : lex_all text = Some its ->
  tokens_of its = us ++ [TItem i; TEnd] -> Typ i = EOF ->
  Forall2 is_tok us (sep_toks stmt_toks SEMICOLON (s :: ss)) -> forallb stmt_ok (s :: ss) = true ->
  exists p, GetConds Unquote re_valid toLower not_in pool text = Some (Ok (stmts_result Unquote re_valid s ss), p) /\
    errs p = [].
Proof. apply statements_parse. Qed.
End whole.
