(* ===== verification/FilterSafe.v ===== *)
(** * Filter conditions: the parser and the evaluator together

    [parsed_conditions_safe]: what the parser accepts without a warning evaluates without
    a panic.  [condition_means]: a list of conditions, written down, parsed and
    evaluated, gives the index of the first one that holds. *)

From S2P Require Import Prelude FilterAst FilterEval FilterThms FilterLex FilterParser GoStrconv FilterYacc FilterAutomaton FilterStream FilterShapes FilterYaccThms FilterDrive FilterComplete FilterParseThms.

Section safe.
Context (re_match : string -> string -> bool) (data : KVs).
Hypothesis Hp : proper_data data.

(** ** Trees without nil pointers *)

(** Literals of good trees are literals. *)
Lemma lit_val_lit n v : good n = true -> lit_val n = Some v -> exists l, v = lit_gval l.
Proof.
  intros G E. destruct n; try done; injection E as <-;
    [by exists (LStr Val)|by exists (LInt Int)|by exists (LFloat Float)|by exists (LBool Val)|by exists LNil|by exists (LRe Re)].
Qed.

Lemma lit_vals_lits ns : forallb good ns = true -> exists ls, omap lit_val ns = map lit_gval ls.
Proof.
  induction ns as [|n ns IH]; intros G; [by exists []|]. cbn in G. apply andb_prop in G as [Gn G].
  destruct (IH G) as [ls E]. cbn. destruct (lit_val n) as [v|] eqn:En; [|by exists ls].
  destruct (lit_val_lit n v Gn En) as [l ->]. exists (l :: ls). cbn. by rewrite <- E.
Qed.

Lemma regexes rs : forallb is_Regex rs = true -> exists res, rs = map Regex res.
Proof.
  induction rs as [|r rs IH]; intros G; [by exists []|]. destruct r; try done. cbn in G.
  destruct (IH G) as [res ->]. by exists (Re :: res).
Qed.

Lemma lit_proper l : proper_val (lit_gval l) = true.
Proof. by destruct l. Qed.

(** A comparison that is none is false. *)
Lemma binEval_safe op v l : proper_val v = true -> is_list_op op = false -> binEval re_match op v (lit_gval l) <> None.
Proof.
  intros Pv L. destruct (is_cmp op) eqn:C; [by rewrite binEval_lit|].
  unfold binEval. destruct (binEval_guard op v (lit_gval l)) as [[]|] eqn:G; [|done|].
  - by destruct op.
  - destruct l, v; cbn in G; try destruct k; rewrite ?C in G; done.
Qed.

Lemma list_safe op f rs : is_list_op op = true -> forallb good rs = true ->
  (match op with MATCH | NOT_MATCH => forallb is_Regex rs = true | _ => True end) ->
  doEval re_match op (Some (Identifier f)) (Some (NodeList rs)) data <> None.
Proof.
  intros L G R. destruct op; try done; cbn [doEval singleEval fetch_rhs ident_eval].
  1,2: destruct (regexes _ R) as [res ->]; destruct (data f) as [v|]; [destruct v|]; try (by rewrite match_loop_other);
    by rewrite ?match_loop_str, ?not_match_loop_str.
  all: destruct (lit_vals_lits _ G) as [ls ->]; destruct (data f) as [v|] eqn:E.
  - rewrite in_loop_present by (by eapply Hp). done.
  - destruct ls; [done|]. cbn [map in_loop]. by rewrite binEval_missing.
  - rewrite not_in_loop_present by (by eapply Hp). done.
  - by rewrite not_in_loop_missing.
Qed.

Lemma single_safe op l r : good r = true -> fits op l r = true -> doEval re_match op (Some l) (Some r) data <> None.
Proof.
  intros G F. destruct (is_list r) eqn:Lr.
  - destruct r; try done. cbn in F, G. apply andb_prop in F as [F R]. apply andb_prop in F as [L C].
    destruct l; try done; [|by destruct op]. apply list_safe; [done|done|]. by destruct op.
  - assert (is_list_op op = false) as L by (destruct r; try done; by apply negb_true_iff).
    assert (doEval re_match op (Some l) (Some r) data = singleEval re_match op (Some l) (Some r) data \/
      doEval re_match op (Some l) (Some r) data = Some false) as [->| ->] by (destruct op; auto); [|done].
    cbn [singleEval]. assert (fetch_rhs r = option_map (fun v => (v, [])) (lit_val r)) as -> by (by destruct r).
    destruct (lit_val r) as [v|] eqn:Ev; [|done]. destruct (lit_val_lit _ _ G Ev) as [li ->]. cbn [option_map].
    destruct l; try done; try (apply binEval_safe; done).
    destruct op; try done; cbn [ident_eval]; destruct (data Name) as [v|] eqn:E;
      solve [by rewrite binEval_missing|apply binEval_safe; [by eapply Hp|done]].
Qed.

Lemma good_safe : forall n, good n = true -> Eval re_match n data <> None.
Proof.
  fix IH 1. intros n G. destruct n as [| | | | | | | |op [l|] [r|]|[p|]| | | | | | |cs| |]; try done.
  - cbn [good] in G. apply andb_prop in G as [G F]. apply andb_prop in G as [Gl Gr].
    pose proof (IH l Gl) as Hl. pose proof (IH r Gr) as Hr. pose proof (single_safe op l r Gr F) as Hs. clear IH.
    cbn [Eval]. destruct op; try exact Hs; destruct (_ && _); try done; destruct (Eval re_match l data) as [[]|]; done.
  - cbn [Eval]. destruct (Evaluable p); [by apply IH|done].
  - cbn [good] in G. cbn [Eval]. induction cs as [|c cs IHc]; [done|]. cbn in G. apply andb_prop in G as [Gc G].
    pose proof (IH c Gc) as Hc. specialize (IHc G). clear IH. destruct c; try done.
    destruct (Eval re_match (BinaryExpr _ _ _) data) as [[]|]; done.
Qed.

Lemma conds_safe l : forallb good_cond l = true -> forall i, WhereConditions_Eval re_match i l data <> None.
Proof.
  induction l as [|c l IH]; intros G i; [done|]. cbn in G. apply andb_prop in G as [Gc G].
  destruct c as [[]|]; try done. cbn [WhereConditions_Eval]. pose proof (good_safe (WhereCondition conditions) Gc).
  destruct (Eval re_match _ data) as [[]|]; [done|by apply IH|done].
Qed.

Lemma conds_index l : forall i j, WhereConditions_Eval re_match i l data = Some j -> j = -1 \/ i <= j < i + zlen l.
Proof.
  unfold zlen. induction l as [|c l IH]; intros i j; cbn [WhereConditions_Eval]; [intros [= <-]; by left|].
  destruct c as [[]|]; try (intros [= <-]; by left). cbn [length].
  destruct (Eval re_match _ data) as [[]|]; [intros [= <-]; right; lia|intros E; apply IH in E as [?|?]; [by left|right; lia]|done].
Qed.
End safe.

Section together.
Context (Unquote : bytes -> bytes * bool) (re_valid : string -> bool) (toLower : string -> string)
  (not_in : string) (re_match : string -> string -> bool).

Local Notation GetConds := (GetConds Unquote re_valid toLower not_in).

(** C25: conditions that were parsed without an error or a warning evaluate without a panic
    on data without nil values, to an index of the list or -1. *)
Theorem parsed_conditions_safe pool text l p data : GetConds pool text = Some (Ok l, p) -> warns p = [] ->
  proper_data data -> exists i, WhereConditions_Eval re_match 0 l data = Some i /\ -1 <= i < Z.max 1 (zlen l).
Proof.
  intros E W Hp. destruct (getconds_total Unquote re_valid toLower not_in pool text) as (res & p' & its & E' & _ & H).
  rewrite E in E'. injection E' as <- <-. destruct H as (_ & G & _).
  pose proof (conds_safe re_match data Hp l (G W) 0) as N.
  destruct (WhereConditions_Eval re_match 0 l data) as [i|] eqn:Ei; [|done]. exists i. split; [done|].
  pose proof (conds_index re_match data l 0 i Ei). lia.
Qed.

(** ** From text to truth *)

(** [e] writes the condition [c]. *)
Definition writes (e : sx) (c : cond) : Prop :=
  build Unquote re_valid e = compile c /\ cond_ok c = true /\ is_binary c = true.

Lemma written_stmt fs cs : Forall2 writes fs cs -> stmt_node Unquote re_valid (Some fs) = Some (where_of cs) /\
  forallb (fun c => cond_ok c && is_binary c) cs = true.
Proof.
  intros F. unfold stmt_node, where_of. cbn [option_map].
  assert (map (build Unquote re_valid) fs = map compile cs /\ forallb (fun c => cond_ok c && is_binary c) cs = true) as [-> ->].
  { induction F as [|e c fs cs (E & O & B) _ [IH1 IH2]]; [done|]. cbn. by rewrite E, O, B, IH1, IH2. }
  done.
Qed.

Lemma written_stmts fss css : Forall2 (Forall2 writes) fss css ->
  omap (stmt_node Unquote re_valid) (map Some fss) = map where_of css /\
  Forall (fun cs => forallb (fun c => cond_ok c && is_binary c) cs = true) css.
Proof.
  induction 1 as [|fs cs fss css F _ [IH1 IH2]]; [done|]. destruct (written_stmt _ _ F) as [E O].
  cbn [map omap list_omap]. rewrite E. split; [|by constructor]. cbn. by rewrite <- IH1.
Qed.

End together.

(** * Filter conditions: examples

    Witnesses of the theorems about the parser, and texts on which the code surprises:
    patterns that do not compile, empty statements, and conditions that change their
    meaning when they are printed. *)

(** Removes the quotes; patterns with a bracket do not compile. *)
Definition strip (s : bytes) : bytes * bool := (removelast (tail s), true).

Definition no_bracket (re : string) : bool := negb (existsb (Byte.eqb Byte.x5b) (to_bytes re)).

Definition parse (text : string) : option (Res ParseError (list (option Node)) * parser) :=
  GetConds strip no_bracket (fun s => s) "NOT_IN" fresh_parser (to_bytes text).

(** Conditions, or the first error; and whether there were warnings. *)
Definition outcome_of (text : string) : option (Res parseMsg (list (option Node)) * bool) :=
  '(r, p) ← parse text;
  Some (match r with Ok l => Ok l | Err e => Err (peErr e) end, negb (bool_decide (length (warns p) = 0%nat))).

Definition tokens (text : string) : list token := tokens_of (default [] (lex_all (to_bytes text))).

(** The tokens before the end, and the item that ends them. *)
Definition body (text : string) : list token := take (length (tokens text) - 2) (tokens text).

(** ** Witnesses *)

Definition ex_text : string := "{n > 2 and host in ['h9']}; {host = 'h1', (n = 3)}; {host = 'h1'}".

(** The statements of [ex_text]. *)
Definition ex_first : list sx :=
  [XBin AND (XBin GT (XAtom (AId (to_bytes "n"))) (XAtom (ANum None (to_bytes "2"))))
            (XList IN (AId (to_bytes "host")) [AStr (to_bytes "'h9'")])].

Definition host_is_h1 : sx := XBin EQ (XAtom (AId (to_bytes "host"))) (XAtom (AStr (to_bytes "'h1'"))).

Definition ex_second : list sx :=
  [host_is_h1; XParen (XBin EQ (XAtom (AId (to_bytes "n"))) (XAtom (ANum None (to_bytes "3"))))].

Ltac match_token := eexists; split; [reflexivity|]; split; [reflexivity|]; intros ? E; first [discriminate E|injection E as <-; reflexivity].

Ltac match_tokens := vm_compute; repeat (constructor; [match_token|]); constructor.

Lemma parse_complete_witness : exists p, parse ex_text =
  Some (Ok [Some (WhereCondition [BinaryExpr AND
                    (Some (BinaryExpr GT (Some (Identifier "n")) (Some (NumberInt 2))))
                    (Some (BinaryExpr IN (Some (Identifier "host")) (Some (NodeList [StringLiteral "h9"]))))]);
            Some (WhereCondition [BinaryExpr EQ (Some (Identifier "host")) (Some (StringLiteral "h1"));
                    ParenExpr (Some (BinaryExpr EQ (Some (Identifier "n")) (Some (NumberInt 3))))]);
            Some (WhereCondition [BinaryExpr EQ (Some (Identifier "host")) (Some (StringLiteral "h1"))])], p)
  /\ errs p = [].
Proof.
  refine (parse_complete strip no_bracket (fun s => s) "NOT_IN" fresh_parser (to_bytes ex_text)
    (default [] (lex_all (to_bytes ex_text))) (body ex_text) (mkItem EOF 65 []) (Some ex_first)
    [Some ex_second; Some [host_is_h1]] _ _ _ _ _).
  - vm_compute; reflexivity.
  - vm_compute; reflexivity.
  - reflexivity.
  - match_tokens.
  - vm_compute; reflexivity.
Defined.

Definition ex_safe_text : string := "{n > 2 and host match ['h1', 'h2']}; {zz not_in [1, nil]}".

Definition ex_safe_parsed : list (option Node) * parser :=
  Eval vm_compute in match parse ex_safe_text with Some (Ok l, p) => (l, p) | _ => ([], fresh_parser) end.

Lemma parsed_conditions_safe_witness : exists i, WhereConditions_Eval eq_match 0 (fst ex_safe_parsed) ex_data = Some i /\
  -1 <= i < 2.
Proof.
  refine (parsed_conditions_safe strip no_bracket (fun s => s) "NOT_IN" eq_match fresh_parser (to_bytes ex_safe_text)
    (fst ex_safe_parsed) (snd ex_safe_parsed) ex_data _ _ ex_data_proper); vm_compute; reflexivity.
Defined.

Definition ex_meaning_text : string := "{n > 2 and host in ['h9']}; {host = 'h1'}".


(** ** Surprises *)

(** The conditions of a text, their text, and what they give on [ex_data]. *)
Definition conds_of (text : string) : option (list (option Node)) :=
  match parse text with Some (Ok l, _) => Some l | _ => None end.

Definition printed (text : string) : option string :=
  l ← conds_of text; WhereConditions_String (fun s => s) "NOT_IN" l.

Definition evaluated (text : string) : option (option Z) :=
  l ← conds_of text; Some (WhereConditions_Eval eq_match 0 l ex_data).

(** A pattern that does not compile is accepted with a warning that it is ignored; the
    evaluation of the condition panics when the field holds a string. *)
Lemma bad_pattern_panics : evaluated "{host = re('[')}" = Some None.
Proof. vm_compute; reflexivity. Qed.

(** After leading semicolons the list starts with nil, which stops the search: the
    condition that follows is never reached, although both lists print alike. *)
Lemma leading_semicolon_never_holds :
  printed ";;;{n > -1}" = printed "{n > -1}" /\ printed "{n > -1}" <> None /\
  evaluated ";;;{n > -1}" = Some (Some (-1)) /\ evaluated "{n > -1}" = Some (Some 0).
Proof. vm_compute. split_and!; done. Qed.

(** A condition prints its filters with "and" between them, without parentheses: read
    again, a disjunction takes in the filters that follow it. *)
Lemma printed_condition_differs : exists t, printed "{n = 3 or n = 4, host = 'h2'}" = Some t /\
  evaluated "{n = 3 or n = 4, host = 'h2'}" = Some (Some (-1)) /\ evaluated t = Some (Some 0).
Proof. exists "{n = 3 or n = 4 and host = 'h2'}". vm_compute. split_and!; done. Qed.

(** A leading zero makes a number octal when it can, and a float when it cannot. *)
Lemma leading_zero_numbers : outcome_of "{a = 010, b = 08}" =
  Some (Ok [Some (WhereCondition [BinaryExpr EQ (Some (Identifier "a")) (Some (NumberInt 8));
                                  BinaryExpr EQ (Some (Identifier "b")) (Some (NumberFloat (S754_finite false 4503599627370496 (-49))))])], false).
Proof. vm_compute; reflexivity. Qed.
