(* ===== verification/DialTask.v ===== *)
(** * Dial testing: tasks ([src/dialtesting/task.go], [success.go])

    A task embeds the record [Task]; what the kinds of tasks implement is the class
    [TaskChild], over the type [N] of what the network answers during a run.  Methods that
    change a task and may fail are computations over it.  What the code uses of the
    standard library and of the cron parser is the class [Std]: regular expressions,
    templates, durations, JSON texts, printing of floats and durations.  Two functions of
    templates read the clock; its readings are an argument of each rendering. *)

From S2P Require Import Prelude GoStrings.
From Stdlib Require Export SpecFloat.
From coqutil Require Export Datatypes.RecordSetters.

Export DoubleBraceUpdate.

(** ** Values *)

Record ConfigVar := mkVar {
  v_ID : string; v_Type : string; v_Name : string; v_Value : string; v_Example : string; v_Secure : bool
}.

Record HTTPOptBodyFile := mkFile {
  f_Name : string; f_Content : string; f_Encoding : string; f_OriginalFileName : string
}.

(** [bodyType] is the content type that is sent. *)
Record HTTPOptBody := mkBody {
  BodyType : string; Body : string; Files : list HTTPOptBodyFile; Form : gmap string string;
  bodyType : string
}.

(** Values of results; a JSON text of configuration variables is its variables. *)
Inductive fval : Type :=
| FNil
| FInt (n : Z)
| FFloat (f : spec_float)
| FStr (s : string)
| FBool (b : bool)
| FVars (l : list ConfigVar)
| FHeader (h : gmap string (list string))
| FStrs (m : option (gmap string string))
| FBody (b : option HTTPOptBody).

(** A hop of a trace. *)
Record RouteItem := mkRouteItem { ri_IP : string; ri_ResponseTime : spec_float }.

Record Route := mkRoute {
  rt_Total : Z; rt_Failed : Z; rt_Loss : spec_float; rt_AvgCost : spec_float; rt_MinCost : spec_float;
  rt_MaxCost : spec_float; rt_StdCost : spec_float; rt_Items : list RouteItem
}.

(** The parts of a [url.URL]. *)
Record URL := mkURL { u_Scheme : string; u_Host : string; u_Rest : string }.

Abbreviation header := (gmap string (list string)).
Abbreviation tagmap := (gmap string string).
Abbreviation fieldmap := (gmap string fval).

(** The clock during a rendering: the readings, in nanoseconds, that are taken one after the
    other while a text is executed. *)
Abbreviation Clock := (string -> nat -> Z).

(** Functions of templates: the three default ones, two of which read the clock, and one
    per variable. *)
Inductive tfunc := FTimestamp (now : Clock) | FDate (now : Clock) | FUrlencode | FVar (value : string).

Abbreviation FuncMap := (gmap string tfunc).

(** The same functions when they are called at another time. *)
Definition tfunc_at (now : Clock) (g : tfunc) : tfunc :=
  match g with FTimestamp _ => FTimestamp now | FDate _ => FDate now | _ => g end.

Definition funcs_at (now : Clock) (f : FuncMap) : FuncMap := tfunc_at now <$> f.

(** Errors; a panic is one of them. *)
Inductive derr := EPanic | EMsg (s : string).

Definition ewrap (s : string) (e : derr) : derr :=
  match e with EPanic => EPanic | EMsg t => EMsg (s +:+ ": " +:+ t) end.

(** ** What is used of the standard library *)

Class Std := {
  re_compile : string -> option string;             (* the error of regexp.Compile *)
  re_match : string -> string -> bool;
  fmt_float : spec_float -> string;                 (* the verb %v *)
  fmt_dur : Z -> string;
  ParseDuration : string -> Res string Z;
  ParseCron : string -> option string;              (* the error of cron.ParseStandard *)
  parse_template : string -> FuncMap -> option string;  (* the error, as getTemplateError words it *)
  execute : string -> FuncMap -> Res string string;     (* executes a template that parses *)
  Marshal : fieldmap -> Res string string;          (* json.Marshal of a message *)
  GOOS : string;                                    (* runtime.GOOS *)
  MarshalRoutes : list Route -> Res string string;
  ParseIP : string -> option string;                (* the address as it is printed *)
  To4 : string -> bool;                             (* whether it is an IPv4 address *)
  ParseURL : string -> Res string URL;
  header_Get : header -> string -> string;
  base64 : string -> string;
  base64_decode : string -> Res string string;
  canonical : string -> string;                     (* the canonical form of a header key *)
  multipart : tagmap -> list (string * string * string) -> string * string;  (* content type and body *)
  X509KeyPair : string -> string -> option string;  (* the error *)
  AppendCertsFromPEM : string -> bool;
  quote : string -> string;                         (* the verb %q *)
  json_string : string -> string;                   (* the JSON text of a string *)
  MaxMsgSize : Z
}.

(** ** success.go *)

Record SuccessOption := mkOption {
  Is : string; IsNot : string; MatchRegex : string; NotMatchRegex : string;
  matchRe : option string; notMatchRe : option string;
  Contains : string; NotContains : string
}.

Record ValueSuccess := mkValue { Op : string; Target : spec_float }.

Section success.
Context `{Std}.

(** The error, or none. *)
Definition check (s : SuccessOption) (val prompt : string) : option string :=
  if negb (Is s =? "")%string then
    if negb (Is s =? val)%string then Some (prompt +:+ ": expect to be `" +:+ Is s +:+ "', got `" +:+ val +:+ "'") else None
  else if negb (IsNot s =? "")%string then
    if (IsNot s =? val)%string then Some (prompt +:+ ": shoud not be " +:+ IsNot s) else None
  else
    match matchRe s with
    | Some re =>
        if negb (re_match re val)
        then Some (prompt +:+ ": regex `" +:+ MatchRegex s +:+ "` match `" +:+ val +:+ "' failed") else None
    | None => None
    end ∪
    match notMatchRe s with
    | Some re =>
        if re_match re val
        then Some (prompt +:+ ": regex `" +:+ NotMatchRegex s +:+ "' should not match `" +:+ val +:+ "'") else None
    | None => None
    end ∪
    (if negb (Contains s =? "")%string then
       if negb (has_substring val (Contains s))
       then Some (prompt +:+ ": do not contains `" +:+ Contains s +:+ "', got `" +:+ val +:+ "'") else None
     else None) ∪
    (if negb (NotContains s =? "")%string then
       if has_substring val (NotContains s)
       then Some (prompt +:+ ": should not contains `" +:+ NotContains s +:+ "', got `" +:+ val +:+ "'") else None
     else None).

Definition vcheck (v : ValueSuccess) (val : spec_float) : option string :=
  let say (s : string) := Some (fmt_float val +:+ s +:+ fmt_float (Target v)) in
  match Op v with
  | "eq" => if negb (SFeqb val (Target v)) then say " is not equal to target " else None
  | "lt" => if SFleb (Target v) val then say " is greater equal than target " else None
  | "leq" => if SFltb (Target v) val then say " is greater than target " else None
  | "gt" => if SFleb val (Target v) then say " is less than target " else None
  | "geq" => if SFltb val (Target v) then say " is less equal than target " else None
  | _ => None
  end%string.

(** Regular expressions are compiled in place. *)
Definition genReg : SM SuccessOption derr unit :=
  v <~ sget ;;
  swhen (negb (MatchRegex v =? "")%string)
    match re_compile (MatchRegex v) with
    | Some e => sfail (EMsg e)
    | None => smod (fun v => v{{matchRe := Some (MatchRegex v)}})
    end ;;;
  swhen (negb (NotMatchRegex v =? "")%string)
    match re_compile (NotMatchRegex v) with
    | Some e => sfail (EMsg e)
    | None => smod (fun v => v{{notMatchRe := Some (NotMatchRegex v)}})
    end.
End success.

(** ** Computations on parts *)

(** On each element of a list in place, up to the first error. *)
Fixpoint each {A E} (m : SM A E unit) (l : list A) : Res E unit * list A :=
  match l with
  | [] => (Ok tt, [])
  | x :: l' =>
      match m x with
      | (Ok _, x') => let '(r, l'') := each m l' in (r, x' :: l'')
      | (Err e, x') => (Err e, x' :: l')
      end
  end.

(** On each element of two lists of one shape: the raw one is read, the other changed; a
    missing element of the other one is an index out of range. *)
Fixpoint each2 {A B} (m : A -> SM B derr unit) (raw : list A) (l : list B) : Res derr unit * list B :=
  match raw, l with
  | [], _ => (Ok tt, l)
  | _ :: _, [] => (Err EPanic, [])
  | a :: raw', x :: l' =>
      match m a x with
      | (Ok _, x') => let '(r, l'') := each2 m raw' l' in (r, x' :: l'')
      | (Err e, x') => (Err e, x' :: l')
      end
  end.

(** A computation on a part, within the whole. *)
Definition zoom {S P E A} (get : S -> P) (put : P -> S -> S) (m : SM P E A) : SM S E A :=
  fun s => let '(r, p) := m (get s) in (r, put p s).

(** ** task.go *)

Record Task := mkTask {
  ExternalID : string; Name : string; AK : string; PostURL : string; CurStatus : string;
  Frequency : string; Region : string; OwnerExternalID : string; WorkspaceLanguage : string;
  TagsInfo : string; DFLabel : string; ScheduleType : string; Crontab : string;
  Tags : tagmap; UpdateTime : Z;
  ConfigVars : list ConfigVar; ExtractedVars : list ConfigVar; CustomVars : list ConfigVar;
  taskJSONString : string; t_rawTask : string; Disabled : Z; isTemplate : bool;
  globalVars : gmap string (string * bool);     (* values and secrecy by identifier *)
  t_option : option tagmap; fm : option FuncMap
}.

Definition zero_task : Task :=
  mkTask "" "" "" "" "" "" "" "" "" "" "" "" "" ∅ 0 [] [] [] "" "" 0 false ∅ None None.

(** What a kind of task implements; [N] is what the network answers. *)
Class TaskChild (C N : Type) := {
  c_task : C -> Task;
  c_put : Task -> C -> C;
  c_run : N -> SM C derr unit;
  c_init : SM C derr unit;
  c_check : C -> option derr;
  c_clear : C -> C;
  c_checkResult : C -> list string * bool;
  c_getResults : Z -> C -> tagmap * fieldmap;     (* at a time in microseconds *)
  c_renderTemplate : FuncMap -> SM C derr unit;
  c_getRawTask : C -> string -> Res string string;
  c_setReqError : string -> C -> C;
  c_getHostName : C -> Res string (list string);
  c_class : C -> string
}.

#[global] Hint Mode TaskChild ! - : typeclass_instances.

Definition ClassHTTP : string := "HTTP".
Definition ClassTCP : string := "TCP".
Definition ClassWebsocket : string := "WEBSOCKET".
Definition ClassICMP : string := "ICMP".
Definition ClassSSL : string := "SSL".
Definition ClassMulti : string := "MULTI".
Definition StatusStop : string := "stop".
Definition ScheduleTypeCron : string := "crontab".
Definition ScheduleTypeFrequency : string := "frequency".
Definition TypeVariableGlobal : string := "global".

(** The kinds of tasks. *)
Inductive kind := KHTTP | KMulti | KBrowser | KTCP | KWebsocket | KICMP | KGRPC | KSSL | KNetPath.

Definition CreateTaskChild (taskType : string) : Res string kind :=
  match taskType with
  | "http" | "https" | "HTTP" => Ok KHTTP
  | "multi" | "MULTI" => Ok KMulti
  | "headless" | "browser" | "BROWSER" => Ok KBrowser
  | "tcp" | "TCP" => Ok KTCP
  | "websocket" | "WEBSOCKET" => Ok KWebsocket
  | "icmp" | "ICMP" => Ok KICMP
  | "grpc" | "GRPC" => Ok KGRPC
  | "ssl" | "SSL" => Ok KSSL
  | "netpath" | "NETPATH" => Ok KNetPath
  | _ => Err ("unknown task type " +:+ taskType)
  end%string.

(** [nameRe], the pattern [a-zA-Z_][a-zA-Z0-9_]*$: some suffix is a name. *)
Definition is_letter (a : Ascii.ascii) : bool :=
  let n := Ascii.N_of_ascii a in
  ((65 <=? n) && (n <=? 90) || (97 <=? n) && (n <=? 122) || (n =? 95))%N.

Definition is_word (a : Ascii.ascii) : bool :=
  is_letter a || (let n := Ascii.N_of_ascii a in (48 <=? n) && (n <=? 57))%N.

Fixpoint all_word (s : string) : bool :=
  match s with EmptyString => true | String a s' => is_word a && all_word s' end.

Fixpoint isValidVariableName (name : string) : bool :=
  match name with
  | EmptyString => false
  | String a s' => is_letter a && all_word s' || isValidVariableName s'
  end.

(** The names that [template.Funcs] takes; it panics on others. *)
Definition good_name (s : string) : bool :=
  match s with EmptyString => false | String a s' => is_letter a && all_word s' end.

Definition funcs_ok (f : FuncMap) : bool := forallb good_name (fst <$> map_to_list f).

Definition under_to_dash (a : Ascii.ascii) : Ascii.ascii := if (Ascii.N_of_ascii a =? 95)%N then Ascii.ascii_of_N 45 else a.

Definition NormalizeWorkspaceLanguage (language : string) : string :=
  match ToLower (smap under_to_dash (TrimSpace language)) with
  | "en" => "en"
  | "id" => "id"
  | "zh-hant" | "zh-tw" | "zh-hk" => "zh-hant"
  | _ => "zh"
  end%string.

(** *** Simple methods *)

Definition SetOption (opt : option tagmap) (t : Task) : Task :=
  match opt with Some _ => t{{t_option := opt}} | None => t end.

Definition GetOption (t : Task) : tagmap * Task :=
  match t_option t with Some o => (o, t) | None => (∅, t{{t_option := Some ∅}}) end.

Definition SetOwnerExternalID (x : string) (t : Task) : Task := t{{OwnerExternalID := x}}.
Definition SetRegionID (x : string) (t : Task) : Task := t{{Region := x}}.
Definition SetAk (x : string) (t : Task) : Task := t{{AK := x}}.
Definition SetDisabled (x : Z) (t : Task) : Task := t{{Disabled := x}}.
Definition SetStatus (x : string) (t : Task) : Task := t{{CurStatus := x}}.
Definition SetUpdateTime (x : Z) (t : Task) : Task := t{{UpdateTime := x}}.
Definition SetTaskJSONString (x : string) (t : Task) : Task := t{{taskJSONString := x}}.
Definition SetIsTemplate (x : bool) (t : Task) : Task := t{{isTemplate := x}}.
Definition SetCustomVars (l : list ConfigVar) (t : Task) : Task := t{{CustomVars := l}}.

Definition AddExtractedVar (v : option ConfigVar) (t : Task) : Task :=
  match v with Some v => t{{ExtractedVars := ExtractedVars t ++ [v] }} | None => t end.

(** [xid] is a fresh identifier. *)
Definition ID (xid : string) (t : Task) : string :=
  if (ExternalID t =? "")%string then xid else AK t +:+ "_" +:+ ExternalID t.

Definition GetDFLabel (t : Task) : string := if negb (DFLabel t =? "")%string then DFLabel t else TagsInfo t.

Definition GetScheduleType (t : Task) : string :=
  if (ScheduleType t =? "")%string then "frequency" else ScheduleType t.

Definition GetGlobalVars (t : Task) : list string :=
  map v_ID (List.filter (fun v => (v_Type v =? TypeVariableGlobal)%string) (ConfigVars t)).

Definition GetWorkspaceLanguage (t : Task) : string := NormalizeWorkspaceLanguage (WorkspaceLanguage t).

(** [{{.*}}] matches: braces open and, later on the same line, close. *)
Fixpoint braces_close (s : string) : bool :=
  match s with
  | String a s' => negb (Ascii.N_of_ascii a =? 10)%N && (String.prefix "}}" s || braces_close s')
  | EmptyString => false
  end.

Fixpoint hasTemplateTags (s : string) : bool :=
  (String.prefix "{{" s && braces_close (String.substring 2 (String.length s) s)) ||
  match s with String _ s' => hasTemplateTags s' | EmptyString => false end.

(** *** JSON *)

(** [json.Unmarshal] to a kind of task, and [json.Marshal] of one without its [Task]. *)
Class Json (C : Type) := {
  Unmarshal : string -> Res string C;
  MarshalTask : C -> string
}.

Definition NewRawTask {C} (decode : string -> Res string C) (t : Task) : Res derr C :=
  if (taskJSONString t =? "")%string then Err (EMsg "task json string is empty")
  else match decode (taskJSONString t) with
       | Err e => Err (EMsg ("json.Unmarshal failed: " +:+ e +:+ ", task json: " +:+ taskJSONString t))
       | Ok r => Ok r
       end.

(** [getRawTask] of a kind that messages call [what]. *)
Definition raw_task {C} `{Json C} (what taskString : string) : Res string string :=
  match Unmarshal taskString with
  | Err e => Err ("unmarshal " +:+ what +:+ " task failed: " +:+ e)
  | Ok c => Ok (MarshalTask c)
  end.

(** *** Templates and variables *)

Section task.
Context `{Std}.

Definition GetParsedString (text : string) (f : FuncMap) : Res derr string :=
  if (text =? "")%string then Ok ""
  else if negb (funcs_ok f) then Err EPanic
  else
    match parse_template text f with
    | Some e => Err (EMsg ("parse template error: " +:+ e))
    | None => match execute text f with Ok s => Ok s | Err e => Err (EMsg ("execute template error: " +:+ e)) end
    end.

(** [if text, err := t.GetParsedString(...); err != nil { return ... } else { t.X = text }] *)
Definition render {C} (what text : string) (f : FuncMap) (put : string -> C -> C) : SM C derr unit :=
  match GetParsedString text f with
  | Ok s => smod (put s)
  | Err e => sfail (ewrap ("render " +:+ what +:+ " failed") e)
  end.

Definition renderSuccessOption (f : FuncMap) (v : SuccessOption) : SM SuccessOption derr unit :=
  render "body is" (Is v) f (fun s d => d{{Is := s}}) ;;;
  render "body is not" (IsNot v) f (fun s d => d{{IsNot := s}}) ;;;
  render "body contains" (Contains v) f (fun s d => d{{Contains := s}}) ;;;
  render "body not contains" (NotContains v) f (fun s d => d{{NotContains := s}}) ;;;
  render "body match regex" (MatchRegex v) f (fun s d => d{{MatchRegex := s}}) ;;;
  render "body not match regex" (NotMatchRegex v) f (fun s d => d{{NotMatchRegex := s}}).

Definition getDefaultFunc (now : Clock) : FuncMap :=
  <["timestamp" := FTimestamp now]> (<["date" := FDate now]> (<["urlencode" := FUrlencode]> ∅)).

(** The value and secrecy of a variable. *)
Definition resolve (gv : gmap string (string * bool)) (v : ConfigVar) : ConfigVar :=
  if ((v_Type v =? TypeVariableGlobal) && negb (v_ID v =? ""))%string then
    match gv !! v_ID v with
    | Some (value, secure) => v{{v_Value := value; v_Secure := secure}}
    | None => v
    end
  else v.

(** The functions of variables: later ones replace earlier ones of the same name. *)
Definition add_funcs (vars : list ConfigVar) (f : FuncMap) : FuncMap :=
  fold_left (fun f v => <[v_Name v := FVar (v_Value v)]> f) vars f.

Context {C N : Type} `{TaskChild C N}.

Definition on_task (g : Task -> Task) (c : C) : C := c_put (g (c_task c)) c.

Definition Clear (c : C) : C := on_task (fun t => t{{ExtractedVars := [] }}) (c_clear c).

Definition task_init : SM C derr unit :=
  c <~ sget ;;
  if EqualFold (CurStatus (c_task c)) StatusStop then sret tt
  else
    smod (on_task (fun t => match t_option t with Some _ => t | None => t{{t_option := Some ∅}} end)) ;;;
    c_init.

Definition bad_variable (l : list ConfigVar) : option ConfigVar :=
  List.find (fun v => negb (isValidVariableName (v_Name v))) l.

Definition CheckTask : SM C derr unit :=
  c <~ sget ;;
  match bad_variable (ConfigVars (c_task c) ++ ExtractedVars (c_task c)) with
  | Some v => sfail (EMsg ("invalid variable name " +:+ v_Name v))
  | None =>
      match c_check c with
      | Some e => sfail e
      | None => task_init
      end
  end.

Definition Check : SM C derr unit :=
  c <~ sget ;;
  if (ExternalID (c_task c) =? "")%string then sfail (EMsg "external ID missing")
  else
    smod (on_task (fun t => if (ScheduleType t =? "")%string then t{{ScheduleType := ScheduleTypeFrequency}} else t)) ;;;
    c <~ sget ;;
    (if (ScheduleType (c_task c) =? ScheduleTypeCron)%string then
       if (Crontab (c_task c) =? "")%string then sfail (EMsg "crontab missing")
       else match ParseCron (Crontab (c_task c)) with
            | Some e => sfail (EMsg ("invalid crontab: " +:+ e))
            | None => sret tt
            end
     else match ParseDuration (Frequency (c_task c)) with
          | Err e => sfail (EMsg ("invalid frequency: " +:+ e))
          | Ok _ => sret tt
          end) ;;;
    CheckTask.

(** [clk]: the clock when the templates are rendered again; [hook]: the result of
    [beforeRun], when there is one. *)
Definition Run (clk : Clock) (hook : option (option string)) (net : N) : SM C derr unit :=
  smod Clear ;;;
  c <~ sget ;;
  (match fm (c_task c) with
   | Some f => swrap (ewrap "render template failed") (c_renderTemplate (funcs_at clk f))
   | None => sret tt
   end) ;;;
  match hook with
  | Some (Some e) => if (c_class c =? ClassMulti)%string then c_run net else smod (c_setReqError e)
  | _ => c_run net
  end.

Definition set_vars (clk : Clock) (gv : gmap string (string * bool)) (t : Task) : Task :=
  let all := map (resolve gv) (ConfigVars t ++ ExtractedVars t ++ CustomVars t) in
  t{{globalVars := gv; ConfigVars := map (resolve gv) (ConfigVars t);
     ExtractedVars := map (resolve gv) (ExtractedVars t); CustomVars := map (resolve gv) (CustomVars t);
     fm := Some (add_funcs all (getDefaultFunc clk))}}.

Definition RenderTemplateAndInit (clk : Clock) (gv : gmap string (string * bool)) : SM C derr unit :=
  smod (on_task (set_vars clk gv)) ;;;
  c <~ sget ;;
  if (c_class c =? ClassMulti)%string then sret tt
  else
    (match fm (c_task c) with
     | Some f => swrap (ewrap "render template error") (c_renderTemplate f)
     | None => sret tt
     end) ;;;
    task_init.

(** A variable as it is reported. *)
Definition mask (v : ConfigVar) : ConfigVar :=
  mkVar "" "" (v_Name v) (if v_Secure v then "" else v_Value v) "" (v_Secure v).

Definition getRawTask (c : C) : string * C :=
  if (t_rawTask (c_task c) =? "")%string then
    match c_getRawTask c (taskJSONString (c_task c)) with
    | Err _ => ("", c)
    | Ok v => (v, on_task (fun t => t{{t_rawTask := v}}) c)
    end
  else (t_rawTask (c_task c), c).

Definition GetResults (now : Z) (c : C) : tagmap * fieldmap * C :=
  let '(tags, fields) := c_getResults now c in
  let '(raw, c') := getRawTask c in
  (tags, <["task" := FStr raw]> (<["config_vars" := FVars (map mask (ConfigVars (c_task c)))]> fields), c').

(** [zero] is the task that is decoded into; it is a task of its own when there is no text. *)
Definition NewTask `{Json C} (zero : C) (taskString : string) : Res derr C :=
  let init s c := on_task (fun t => SetIsTemplate (hasTemplateTags s) (SetTaskJSONString s t)) c in
  if negb (taskString =? "")%string then
    match Unmarshal taskString with
    | Err e => Err (EMsg ("json.Unmarshal failed: " +:+ e +:+ ", task json: " +:+ taskString))
    | Ok c => Ok (init taskString c)
    end
  else Ok (init (MarshalTask zero) zero).
End task.

(** *** Verdicts: the end of every [getResults] *)

Section verdict.
Context `{Std}.

Record verdict := mkVerdict { v_tags : tagmap; v_fields : fieldmap; v_message : fieldmap }.

Definition set_OK (v : verdict) : verdict :=
  v{{v_tags := <["status" := "OK"]> (v_tags v); v_fields := <["success" := FInt 1]> (v_fields v)}}.

Definition set_reason (reasons : list string) (v : verdict) : verdict :=
  let r := FStr (String.concat ";" reasons) in
  v{{v_message := <["fail_reason" := r]> (v_message v); v_fields := <["fail_reason" := r]> (v_fields v)}}.

(** The switch on [SuccessWhenLogic]; [note] adds to the message when nothing failed. *)
Definition judge (logic : string) (succ : bool) (reqError : string) (reasons : list string)
    (note : fieldmap -> fieldmap) (v : verdict) : verdict :=
  if (logic =? "or")%string then
    if succ && (reqError =? "")%string then (set_OK v){{v_message ::= note}}
    else set_reason reasons v
  else
    let v := if negb (bool_decide (reasons = [])) then set_reason reasons v else v{{v_message ::= note}} in
    if (reqError =? "")%string && bool_decide (reasons = []) then set_OK v else v.

(** The message, cut; the text of an error is overwritten with nothing. *)
Definition add_message (v : verdict) : fieldmap :=
  let data := match Marshal (v_message v) with Ok d => d | Err _ => "" end in
  <["message" := FStr (if MaxMsgSize <? Z.of_nat (String.length data)
                       then String.substring 0 (Z.to_nat MaxMsgSize) data else data)]> (v_fields v).
End verdict.

(** Custom tags replace the ones of the task. *)
Lemma custom_tags (custom : tagmap) k v (m : tagmap) :
  m !! k = Some v -> (custom ∪ m) !! k = Some (default v (custom !! k)).
Proof. intros Hm. rewrite lookup_union, Hm. by destruct (custom !! k). Qed.
