(* ===== verification/DialNet.v ===== *)
(** * Dial testing: TCP, ICMP, WebSocket and TLS tasks

    [src/dialtesting/tcp.go], [icmp.go], [websocket.go], [ssl.go], and the statistics of
    [traceroute.go].  The network is an argument of a run: what look-ups, connections,
    writes, reads, pings and traces answer, and what they cost.  Lists of rules hold no
    null. *)

From S2P Require Import Prelude GoNum GoStrings FilterLex GoStrconv DialTask.

Definition Second : Z := 1000000000.

(** A measured time, as it is reported: microseconds. *)
Definition micros (d : Z) : Z := Z.quot d 1000.

(** ** Shared checks *)

Section checks.
Context `{Std}.

(** The result of a list of rules: the reasons, and whether one of them holds. *)
Definition checks {A} (f : A -> option string) (l : list A) : list string * bool :=
  (omap f l, existsb (fun x => match f x with None => true | Some _ => false end) l).

Definition both (a b : list string * bool) : list string * bool := (fst a ++ fst b, snd a || snd b).

(** A check of a value with a prefix to its message. *)
Definition value_rules (prefix : string) (val : spec_float) (l : list ValueSuccess) : list string * bool :=
  checks (fun v => option_map (String.append prefix) (vcheck v val)) l.

Definition option_rules (prompt val : string) (l : list SuccessOption) : list string * bool :=
  checks (fun v => check v val prompt) l.

Definition hop_rules (enabled : bool) (routes : option (list Route)) (l : list ValueSuccess) : list string * bool :=
  if enabled then
    let hops := Z.of_nat (length (default [] routes)) in
    if hops =? 0 then (["traceroute failed with no hops"], false)
    else value_rules "traceroute hops check failed: " (float_of_int hops) l
  else ([], false).

Definition IsEnabledTraceroute (enabled : bool) : bool := if (GOOS =? "windows")%string then false else enabled.

(** The fields of a trace. *)
Definition trace_fields (enabled : bool) (routes : option (list Route)) (f : fieldmap) : fieldmap :=
  if enabled then
    let none := <["traceroute" := FStr "[]"]> (<["hops" := FInt 0]> f) in
    match routes with
    | None => none
    | Some l =>
        match MarshalRoutes l with
        | Ok d => if (d =? "")%string then none else <["hops" := FInt (zlen l)]> (<["traceroute" := FStr d]> f)
        | Err _ => none
        end
    end
  else f.
End checks.

(** [for _, checker := range t.SuccessWhen]: the whole list. *)
Definition all_rules {A} (f : A -> list string * bool) (l : list A) : list string * bool :=
  fold_left (fun acc x => both acc (f x)) l ([], false).

(** ** traceroute.go, traceroute_other.go *)

(** *** Statistics of a hop *)

Definition fsum (v : list spec_float) : spec_float := fold_left fadd v fzero.

Definition mean (v : list spec_float) : spec_float :=
  match v with [] => fzero | _ => fdiv (fsum v) (float_of_int (zlen v)) end.

Definition variance (v : list spec_float) : spec_float :=
  let m := mean v in
  if zlen v <=? 1 then fzero
  else fdiv (fold_left (fun res x => fadd res (fmul (fsub x m) (fsub x m))) v fzero) (float_of_int (zlen v - 1)).

Definition std (v : list spec_float) : spec_float :=
  match v with [] => fzero | _ => fsqrt (variance v) end.

(** [preferredIP]: the first IPv4 address, otherwise the first one. *)
Definition preferredIP `{Std} (ips : list string) : option string :=
  match List.find To4 ips with Some ip => Some ip | None => head ips end.

(** *** The trace *)

Record Response := mkTraceResponse { From : string; tr_Time : Z; tr_fail : bool }.

Definition MaxTimeout : Z := 10 * Second.
Definition MaxHops : Z := 60.
Definition MaxRetry : Z := 3.

(** [init]: a limit that is not given is the default, one that is too large the maximum. *)
Definition limit (x dflt most : Z) : Z := if x <=? 0 then dflt else if most <? x then most else x.

Record hop := mkHop {
  isReply : bool; routeItems : list RouteItem; responseTimes : list spec_float; minCost : Z; maxCost : Z; failed : Z
}.

Definition hop_step (ip : string) (r : Response) (h : hop) : hop :=
  let time := float_of_int (micros (tr_Time r)) in
  if tr_fail r then h{{failed := failed h + 1; routeItems := routeItems h ++ [mkRouteItem "*" time] }}
  else
    let h := if (From r =? ip)%string then h{{isReply := true}} else h in
    let h := if 0 <? tr_Time r then
               h{{minCost := if (minCost h =? 0) || (tr_Time r <? minCost h) then tr_Time r else minCost h;
                  maxCost := if (maxCost h =? 0) || (maxCost h <? tr_Time r) then tr_Time r else maxCost h;
                  responseTimes := responseTimes h ++ [time] }}
             else h in
    h{{routeItems := routeItems h ++ [mkRouteItem (From r) time] }}.

(** The packets of one hop from the [j]-th on: an error of sending ends the trace. *)
Fixpoint hop_loop (ip : string) (send : nat -> Res string Response) (n j : nat) (h : hop) : Res string hop :=
  match n with
  | O => Ok h
  | S n' => match send j with Err e => Err e | Ok r => hop_loop ip send n' (S j) (hop_step ip r h) end
  end.

(** Decimal rounding, [%.nf] and back. *)
Definition fmt_fixed (n : nat) (f : spec_float) : string :=
  match f with
  | S754_finite neg m e =>
      let p := 10 ^ Z.of_nat n in
      let q := round_int (m * Z.to_pos p) e in
      let frac := FormatUint 10 (q mod p) in
      (if neg then "-" else "") +:+ FormatUint 10 (q / p) +:+ "." +:+
      String.concat "" (repeat "0" (n - String.length frac)) +:+ frac
  | S754_zero neg => (if neg then "-0." else "0.") +:+ String.concat "" (repeat "0" n)
  | S754_infinity neg => if neg then "-Inf" else "+Inf"
  | S754_nan => "NaN"
  end.

Definition round (f : spec_float) (n : nat) : spec_float := fst (ParseFloat (to_bytes (fmt_fixed n f))).

Definition route_of (retry : Z) (h : hop) : Route :=
  mkRoute retry (failed h) (round (fdiv (fmul (float_of_int (failed h)) (float_of_int 100)) (float_of_int retry)) 2)
    (mean (responseTimes h)) (float_of_int (micros (minCost h))) (float_of_int (micros (maxCost h)))
    (std (responseTimes h)) (routeItems h).

Definition new_hop : hop := mkHop false [] [] 0 0 0.

(** The hops from the [i]-th on, [n] at most, up to one that the target answers. *)
Fixpoint startTrace (ip : string) (retry : Z) (send : nat -> nat -> Res string Response) (n i : nat) (routes : list Route)
    : Res string (list Route) :=
  match n with
  | O => Ok routes
  | S n' =>
      match hop_loop ip (send i) (Z.to_nat retry) 0 new_hop with
      | Err e => Err e
      | Ok h => if isReply h then Ok (routes ++ [route_of retry h])
                else startTrace ip retry send n' (S i) (routes ++ [route_of retry h])
      end
  end.

(** What a trace asks of the network: look-ups, raw sockets, and a packet sent with a time
    to live, the [j]-th of its hop.  Of the errors of sending and of listening the one that
    is stored last is kept. *)
Record trace_net := mkTraceNet {
  tr_lookup : string -> Res string (list string); tr_open : option string; tr_listen_last : bool;
  tr_send : string -> Z -> nat -> nat -> Res string Response
}.

Definition sendICMP `{Std} (net : trace_net) (ip : string) (timeout : Z) (ttl j : nat) : Res string Response :=
  if negb (To4 ip) then Err "support ip version 4 only"
  else match tr_open net with Some e => Err e | None => tr_send net ip timeout ttl j end.

Definition Traceroute_Run `{Std} (net : trace_net) (host : string) (hops retry timeout : Z) : Res string (list Route) :=
  match tr_lookup net host with
  | Err e => Err e
  | Ok ips =>
      match preferredIP ips with
      | None => Err ("invalid host: " +:+ host)
      | Some ip =>
          let retry := limit retry 3 MaxRetry in
          let timeout := limit timeout Second MaxTimeout in
          match startTrace ip retry (sendICMP net ip timeout) (Z.to_nat (limit hops 30 MaxHops)) 1 [], tr_open net with
          | Ok routes, None => Ok routes
          | Ok _, Some e => Err ("listen icmp error: " +:+ e)
          | Err e, None => Err ("start trace error: " +:+ e)
          | Err e, Some e' => Err (if tr_listen_last net then "listen icmp error: " +:+ e' else "start trace error: " +:+ e)
          end
      end
  end.

Definition TracerouteIP `{Std} (net : trace_net) (ip : string) (opt : option (Z * Z * string)) : Res string (list Route) :=
  match opt with
  | None => Traceroute_Run net ip 30 3 (Second / 2)
  | Some (hops, retry, text) =>
      Traceroute_Run net ip hops retry (match ParseDuration text with Ok d => d | Err _ => Second / 2 end)
  end.

(** *** Replies *)

(** A message that was received: an echo reply with its identifier, or the data of another
    one, none when it carries none. *)
Inductive icmp_msg := MEcho (id : Z) | MOther (data : bytes).

Record receivePacket := mkReceived { rp_from : option string; rp_time : Z; rp_buf : bytes }.

(** What is used of the parsers: messages, and the identifiers in headers of IPv4 and
    IPv6. *)
Record icmp_parsers := mkParsers { ParseMessage : bytes -> option icmp_msg; id_v4 : bytes -> option Z; id_v6 : bytes -> option Z }.

Definition packet_id (ps : icmp_parsers) (data : bytes) : Z :=
  match data with
  | b :: _ =>
      let version := Z.shiftr (byte.unsigned b) 4 in
      if version =? 4 then default 0 (id_v4 ps data) else if version =? 6 then default 0 (id_v6 ps data) else 0
  | [] => 0
  end.

Definition is_reply_to (ps : icmp_parsers) (id : Z) (buf : bytes) : bool :=
  match ParseMessage ps buf with
  | None => false
  | Some (MEcho i) => i =? id
  | Some (MOther data) => (20 <=? zlen data) && (packet_id ps data =? id)
  end.

(** The response to a packet, from what is received; none when more must be received. *)
Fixpoint dealPacket (ps : icmp_parsers) (timeout id start : Z) (l : list receivePacket) : option (Response * list receivePacket) :=
  match l with
  | [] => None
  | p :: l' =>
      if timeout <? int64 (rp_time p - start) then Some (mkTraceResponse "<nil>" 0 true, l')
      else
        match rp_from p with
        | Some from =>
            if negb (zlen (rp_buf p) =? 0) && is_reply_to ps id (rp_buf p)
            then Some (mkTraceResponse from (int64 (rp_time p - start)) false, l')
            else dealPacket ps timeout id start l'
        | None => dealPacket ps timeout id start l'
        end
  end.

(** ** tcp.go *)

Record TCPResponseTime := mkTcpTime { IsContainDNS : bool; tt_Target : string; targetTime : Z }.

(** [Hops] may be absent, which differs from empty. *)
Record TCPSuccess := mkTcpSuccess {
  ts_ResponseTime : list TCPResponseTime; ts_Hops : option (list ValueSuccess); ts_Message : list SuccessOption
}.

Record TCPTask := mkTCP {
  tcp_task : Task;
  tcp_Host : string; tcp_Port : string; tcp_Message : string; tcp_Timeout : string;
  tcp_EnableTraceroute : bool; tcp_SuccessWhen : list TCPSuccess; tcp_Logic : string;
  tcp_reqCost : Z; tcp_reqDNSCost : Z; tcp_reqError : string; tcp_destIP : string;
  tcp_responseMessage : string; tcp_timeout : Z; tcp_traceroute : option (list Route);
  tcp_raw : option (string * string * string)        (* host, port and message before rendering *)
}.

(** Answers: look-up and its cost, connection and its cost, deadline, write, read, trace. *)
Record tcp_net := mkTcpNet {
  tn_lookup : string -> Res string (list string); tn_dns_cost : Z;
  tn_dial : string -> string -> option string; tn_cost : Z;
  tn_deadline : option string; tn_write : string -> option string; tn_read : Res string string;
  tn_trace : string -> Res string (list Route)
}.

Section tcp.
Context `{Std}.

Definition parse_target : SM TCPResponseTime derr unit :=
  v <~ sget ;;
  match ParseDuration (tt_Target v) with
  | Err e => sfail (EMsg e)
  | Ok du => smod (fun v => v{{targetTime := du}})
  end.

Definition parse_timeout (text : string) (dflt : Z) : Res derr Z :=
  if (text =? "")%string then Ok dflt
  else match ParseDuration text with Ok d => Ok d | Err e => Err (EMsg e) end.

(** One rule, and whether traces are enabled. *)
Definition tcp_init_rule (c : TCPSuccess) (enabled : bool) : Res derr unit * TCPSuccess * bool :=
  match each parse_target (ts_ResponseTime c) with
  | (Err e, l) => (Err e, c{{ts_ResponseTime := l}}, enabled)
  | (Ok _, l) =>
      let enabled := IsEnabledTraceroute (match ts_Hops c with Some _ => true | None => enabled end) in
      let '(r, m) := each genReg (ts_Message c) in
      (r, c{{ts_ResponseTime := l; ts_Message := m}}, enabled)
  end.

Fixpoint tcp_init_rules (l : list TCPSuccess) (enabled : bool) : Res derr unit * list TCPSuccess * bool :=
  match l with
  | [] => (Ok tt, [], enabled)
  | c :: l' =>
      match tcp_init_rule c enabled with
      | (Err e, c', en) => (Err e, c' :: l', en)
      | (Ok _, c', en) => let '(r, l'', en') := tcp_init_rules l' en in (r, c' :: l'', en')
      end
  end.

Definition tcp_init : SM TCPTask derr unit := fun t =>
  match parse_timeout (tcp_Timeout t) (10 * Second) with
  | Err e => (Err e, t)
  | Ok d =>
      let t := t{{tcp_timeout := d}} in
      match tcp_SuccessWhen t with
      | [] => (Err (EMsg "no any check rule"), t)
      | l => let '(r, l', en) := tcp_init_rules l (tcp_EnableTraceroute t) in
             (r, t{{tcp_SuccessWhen := l'; tcp_EnableTraceroute := en}})
      end
  end.

Definition tcp_check (t : TCPTask) : option derr :=
  if (tcp_Host t =? "")%string then Some (EMsg "host should not be empty")
  else if (tcp_Port t =? "")%string then Some (EMsg "port should not be empty")
  else None.

Definition tcp_time (t : TCPTask) (v : TCPResponseTime) : list string * bool :=
  let reqCost := if IsContainDNS v then int64 (tcp_reqCost t + tcp_reqDNSCost t) else tcp_reqCost t in
  if targetTime v <=? reqCost
  then (["TCP response time(" +:+ fmt_dur reqCost +:+ ") larger equal than " +:+ fmt_dur (targetTime v)], false)
  else ([], 0 <? targetTime v).

Definition tcp_rule (t : TCPTask) (c : TCPSuccess) : list string * bool :=
  both (all_rules (tcp_time t) (ts_ResponseTime c))
    (both (option_rules "response message" (tcp_responseMessage t) (ts_Message c))
       (hop_rules (tcp_EnableTraceroute t) (tcp_traceroute t) (default [] (ts_Hops c)))).

Definition tcp_checkResult (t : TCPTask) : list string * bool := all_rules (tcp_rule t) (tcp_SuccessWhen t).

Definition add_error (reqError : string) (r : list string * bool) : list string * bool :=
  if negb (reqError =? "")%string then (fst r ++ [reqError], snd r) else r.

Definition tcp_getResults (t : TCPTask) : tagmap * fieldmap :=
  let tags := <["name" := Name (tcp_task t)]> (<["dest_host" := tcp_Host t]> (<["dest_port" := tcp_Port t]>
    (<["dest_ip" := tcp_destIP t]> (<["status" := "FAIL"]> (<["proto" := "tcp"]> ∅))))) in
  let responseTime := micros (tcp_reqCost t) in
  let fields := <["response_time" := FInt responseTime]>
    (<["response_time_with_dns" := FInt (micros (int64 (tcp_reqCost t + tcp_reqDNSCost t)))]>
    (<["success" := FInt (-1)]> ∅)) in
  let fields := if negb (tcp_responseMessage t =? "")%string
    then <["response_message" := FStr (tcp_responseMessage t)]> fields else fields in
  let fields := trace_fields (tcp_EnableTraceroute t) (tcp_traceroute t) fields in
  let tags := Tags (tcp_task t) ∪ tags in
  let '(reasons, succ) := add_error (tcp_reqError t) (tcp_checkResult t) in
  let v := judge (tcp_Logic t) succ (tcp_reqError t) reasons (fun m => <["response_time" := FInt responseTime]> m)
             (mkVerdict tags fields ∅) in
  (v_tags v, add_message v).

Definition tcp_clear (t : TCPTask) : TCPTask :=
  t{{tcp_reqCost := 0; tcp_reqError := ""; tcp_traceroute := None}}.

Definition fail_with (e : string) (t : TCPTask) : TCPTask := t{{tcp_reqError := e}}.

(** The address, and the task with the cost of its look-up; none when the run is over. *)
Definition tcp_resolve (net : tcp_net) (t : TCPTask) : option string * TCPTask :=
  match ParseIP (tcp_Host t) with
  | Some ip => (Some ip, t)
  | None =>
      match tn_lookup net (tcp_Host t) with
      | Err e => (None, fail_with e t)
      | Ok [] => (None, fail_with ("invalid host: " +:+ tcp_Host t +:+ ", found no ip record") t)
      | Ok (ip :: _) => (Some ip, t{{tcp_reqDNSCost := tn_dns_cost net}})
      end
  end.

Definition tcp_exchange (net : tcp_net) (t : TCPTask) : TCPTask :=
  if negb (tcp_Message t =? "")%string then
    match tn_deadline net with
    | Some e => fail_with e t
    | None =>
        match tn_write net (tcp_Message t) with
        | Some e => fail_with e t
        | None =>
            match tn_read net with
            | Err e => fail_with e t
            | Ok s => t{{tcp_responseMessage := s}}
            end
        end
    end
  else t.

Definition tcp_run (net : tcp_net) : SM TCPTask derr unit := fun t =>
  match tcp_resolve net t with
  | (None, t) => (Ok tt, t)
  | (Some ip, t) =>
      let t := t{{tcp_destIP := ip}} in
      let t := match tn_dial net ip (tcp_Port t) with
               | Some e => (fail_with e t){{tcp_reqDNSCost := 0}}
               | None => tcp_exchange net t{{tcp_reqCost := tn_cost net}}
               end in
      let t := if tcp_EnableTraceroute t then
                 match tn_trace net ip with
                 | Err e => fail_with e t
                 | Ok routes => t{{tcp_traceroute := Some routes}}
                 end
               else t in
      (Ok tt, t)
  end.

(** [raw] is the task decoded from the JSON text, when that succeeds. *)
Definition tcp_renderTemplate (decode : string -> Res string TCPTask) (f : FuncMap) : SM TCPTask derr unit :=
  t <~ sget ;;
  (match tcp_raw t with
   | Some _ => sret tt
   | None =>
       match NewRawTask decode (tcp_task t) with
       | Err e => sfail (ewrap "new raw task failed" e)
       | Ok r => smod (fun t => t{{tcp_raw := Some (tcp_Host r, tcp_Port r, tcp_Message r)}})
       end
   end) ;;;
  t <~ sget ;;
  match tcp_raw t with
  | None => sfail (EMsg "raw task is nil")
  | Some (host, port, message) =>
      render "host" host f (fun s t => t{{tcp_Host := s}}) ;;;
      render "port" port f (fun s t => t{{tcp_Port := s}}) ;;;
      render "message" message f (fun s t => t{{tcp_Message := s}})
  end.
End tcp.

#[export] Instance tcp_child `{Std} `{Json TCPTask} : TaskChild TCPTask tcp_net := {
  c_task := tcp_task; c_put := fun x t => t{{tcp_task := x}}; c_run := tcp_run; c_init := tcp_init;
  c_check := tcp_check; c_clear := tcp_clear; c_checkResult := tcp_checkResult;
  c_getResults := fun _ => tcp_getResults; c_renderTemplate := tcp_renderTemplate Unmarshal;
  c_getRawTask := fun _ => raw_task "tcp"; c_setReqError := fun e t => t{{tcp_reqError := e}};
  c_getHostName := fun t => Ok [tcp_Host t];
  c_class := fun _ => ClassTCP
}.

(** ** icmp.go *)

Record ResponseTimeSucess := mkIcmpTime { it_Func : string; it_Op : string; it_Target : string; it_target : spec_float }.

Record ICMPSuccess := mkIcmpSuccess {
  is_Loss : list ValueSuccess; is_ResponseTime : list ResponseTimeSucess;
  is_Hops : option (list ValueSuccess); is_Packets : list ValueSuccess
}.

Record ICMPTask := mkICMP {
  icmp_task : Task;
  icmp_Host : string; PacketCount : Z; icmp_Timeout : string; icmp_EnableTraceroute : bool;
  icmp_SuccessWhen : list ICMPSuccess; icmp_Logic : string;
  packetLossPercent : spec_float; avgRoundTripTime : spec_float; minRoundTripTime : spec_float;
  maxRoundTripTime : spec_float; stdRoundTripTime : spec_float;
  icmp_reqError : string; sentPackets : Z; recvPackets : Z; icmp_timeout : Z;
  icmp_traceroute : option (list Route); icmp_raw : option string
}.

(** *** Pings *)

Record pingStat := mkPing {
  PacketLoss : spec_float; PacketsSent : Z; PacketsRecv : Z;
  MinRtt : Z; AvgRtt : Z; MaxRtt : Z; StdDevRtt : Z
}.

Definition normalizeICMPRTT (rtt : Z) : Z := if rtt <=? 0 then 1000 else rtt.

Definition getICMPSequence (icmpSequence : Z) : Z := (icmpSequence + 1) mod 2 ^ 16.

(** The address of the wanted protocol, otherwise the last one of the other. *)
Definition chooseProtocol `{Std} (ipproto : string) (fallbackIPProtocol : bool) (lookup lookup_proto : Res string (list string))
    : Res string (option string) :=
  let v6 := ((ipproto =? "ip6") || (ipproto =? ""))%string in
  if negb fallbackIPProtocol then
    match lookup_proto with Err e => Err e | Ok ips => Ok (head ips) end
  else
    match lookup with
    | Err e => Err e
    | Ok ips =>
        match List.find (fun ip => if v6 then negb (To4 ip) else To4 ip) ips with
        | Some ip => Ok (Some ip)
        | None => match list.last ips with Some ip => Ok (Some ip) | None => Err "unable to find ip; no fallback" end
        end
    end.

(** What is read from the socket: a packet of a peer and the time since the request, a
    timeout or another error. *)
Inductive ping_read := PRPacket (peer : string) (data : bytes) (since : Z) | PRTimeout | PRError (e : string).

(** Answers: whether a slot is free in time, the look-up, the sockets without and with
    privileges, the messages of the library, writing, the deadline, what is read, and the
    text of an address as a peer shows it. *)
Record ping_net := mkPingNet {
  pn_slot : bool; pn_lookup : Res string (list string); pn_udp : bool -> bool; pn_raw : bool -> option string;
  pn_marshal : bool -> bool -> Z -> Z -> Res string bytes; pn_write : bytes -> option string; pn_deadline : option string;
  pn_reads : list ping_read; pn_peer : bool -> string -> string; pn_id : Z; pn_seq : Z
}.

Definition clear_at (i : nat) (b : bytes) : bytes := <[S i := Byte.x00]> (<[i := Byte.x00]> b).

(** Packets of other peers and other messages are passed over; nothing more to read is the
    deadline. *)
Fixpoint ping_reply (dst : string) (wb : bytes) (idUnknown v6 : bool) (l : list ping_read) : Res string (option Z) :=
  match l with
  | [] | PRTimeout :: _ => Ok None
  | PRError e :: _ => Err ("error reading from socket: " +:+ e)
  | PRPacket peer data since :: l' =>
      if negb (peer =? dst)%string then ping_reply dst wb idUnknown v6 l'
      else
        let rb := if idUnknown then clear_at 4 data else data in
        let rb := if idUnknown || v6 then clear_at 2 rb else rb in
        if bool_decide (rb = wb) then Ok (Some (normalizeICMPRTT since)) else ping_reply dst wb idUnknown v6 l'
  end.

(** Without a free slot a ping counts as lost.  With the fallback an address is found or an
    error is. *)
Definition doPing `{Std} (net : ping_net) : Res string (option Z) :=
  if negb (pn_slot net) then Ok None
  else
    match chooseProtocol "ip4" true (pn_lookup net) (Ok []) with
    | Err e => Err ("error resolving address: " +:+ e)
    | Ok None => Ok None
    | Ok (Some ip) =>
        let v6 := negb (To4 ip) in
        let tryUnprivileged := ((GOOS =? "darwin") || (GOOS =? "linux"))%string in
        let privileged := negb (tryUnprivileged && pn_udp net v6) in
        match (if privileged then pn_raw net v6 else None) with
        | Some e => Err ("error listening to socket: " +:+ e)
        | None =>
            match pn_marshal net v6 false (pn_id net) (pn_seq net) with
            | Err e => Err ("error marshaling packet: " +:+ e)
            | Ok request =>
                match pn_write net request with
                | Some e => Err ("error writing to socket: " +:+ e)
                | None =>
                    let idUnknown := negb privileged && (GOOS =? "linux")%string in
                    match pn_marshal net v6 true (if idUnknown then 0 else pn_id net) (pn_seq net) with
                    | Err e => Err ("error marshaling packet: " +:+ e)
                    | Ok wb =>
                        let wb := if idUnknown then clear_at 2 wb else wb in
                        match pn_deadline net with
                        | Some e => Err ("error setting socket deadline: " +:+ e)
                        | None => ping_reply (pn_peer net privileged ip) wb idUnknown v6 (pn_reads net)
                        end
                    end
                end
            end
        end
    end.

(** The pings: an error ends them, a time is a reply. *)
Fixpoint ping_loop (n : nat) (i : nat) (doPing : nat -> Res string (option Z)) (st : pingStat) (rtts : list Z)
    : Res string (pingStat * list Z) :=
  match n with
  | O => Ok (st, rtts)
  | S n' =>
      match doPing i with
      | Err e => Err ("ping failed: " +:+ e)
      | Ok (Some rtt) =>
          ping_loop n' (S i) doPing st{{PacketsSent := PacketsSent st + 1; PacketsRecv := PacketsRecv st + 1}} (rtts ++ [rtt])
      | Ok None =>
          ping_loop n' (S i) doPing
            st{{PacketsSent := PacketsSent st + 1; PacketLoss := fadd (PacketLoss st) (float_of_int 1)}} rtts
      end
  end.

(** One time into minimum, maximum, running mean and squared deviations. *)
Definition rtt_step (i : Z) (st : pingStat) (m2 : spec_float) (rtt : Z) : pingStat * spec_float :=
  let st := if rtt <? MinRtt st then st{{MinRtt := rtt}} else st in
  let st := if MaxRtt st <? rtt then st{{MaxRtt := rtt}} else st in
  let oldAvg := AvgRtt st in
  let avg := int64 (oldAvg + Z.quot (int64 (rtt - oldAvg)) (i + 1)) in
  (st{{AvgRtt := avg}},
   fadd m2 (fmul (float_of_int (int64 (rtt - oldAvg))) (float_of_int (int64 (rtt - avg))))).

Fixpoint rtt_loop (i : Z) (st : pingStat) (m2 : spec_float) (rtts : list Z) : pingStat * spec_float :=
  match rtts with
  | [] => (st, m2)
  | rtt :: l => let '(st, m2) := rtt_step i st m2 rtt in rtt_loop (i + 1) st m2 l
  end.

(** [time.Duration(f)]: the integer part; [conv] is the conversion of other floats. *)
Definition int_of_float (conv : spec_float -> Z) (f : spec_float) : Z :=
  match f with
  | S754_zero _ => 0
  | S754_finite s m e =>
      let n := Z.shiftl (Z.pos m) e in
      if n <? 2 ^ 63 then if s then - n else n else conv f
  | _ => conv f
  end.

Definition ping_summary (conv : spec_float -> Z) (st : pingStat) (rtts : list Z) : pingStat :=
  let st :=
    match rtts with
    | [] => st
    | r0 :: _ =>
        let '(st, m2) := rtt_loop 0 st{{MinRtt := r0; MaxRtt := r0; AvgRtt := r0}} fzero rtts in
        if 1 <? zlen rtts
        then st{{StdDevRtt := int_of_float conv (fsqrt (fdiv m2 (float_of_int (zlen rtts))))}}
        else st{{StdDevRtt := 0}}
    end in
  if 0 <? PacketsSent st
  then st{{PacketLoss := fmul (fdiv (float_of_int (PacketsSent st - PacketsRecv st)) (float_of_int (PacketsSent st))) (float_of_int 100)}}
  else st.

Definition pingTarget (conv : spec_float -> Z) (count : Z) (doPing : nat -> Res string (option Z)) : Res string pingStat :=
  let count := if count <=? 0 then 3 else count in
  match ping_loop (Z.to_nat count) 0 doPing (mkPing fzero 0 0 0 0 0 0) [] with
  | Err e => Err e
  | Ok (st, rtts) => Ok (ping_summary conv st rtts)
  end.

(** The answers to pings, the look-up for a trace and the trace. *)
Record icmp_net := mkIcmpNet {
  in_ping : string -> nat -> ping_net; in_lookup : string -> Res string (list string);
  in_trace : string -> Res string (list Route); in_conv : spec_float -> Z
}.

Section icmp.
Context `{Std}.

Definition icmp_parse_target : SM ResponseTimeSucess derr unit :=
  v <~ sget ;;
  match ParseDuration (it_Target v) with
  | Err e => sfail (EMsg e)
  | Ok du => smod (fun v => v{{it_target := float_of_int (Z.quot du 1000)}})
  end.

Fixpoint icmp_init_rules (l : list ICMPSuccess) (enabled : bool) : Res derr unit * list ICMPSuccess * bool :=
  match l with
  | [] => (Ok tt, [], enabled)
  | c :: l' =>
      match each icmp_parse_target (is_ResponseTime c) with
      | (Err e, ts) => (Err e, c{{is_ResponseTime := ts}} :: l', enabled)
      | (Ok _, ts) =>
          let en := IsEnabledTraceroute (match is_Hops c with Some _ => true | None => enabled end) in
          let '(r, l'', en') := icmp_init_rules l' en in
          (r, c{{is_ResponseTime := ts}} :: l'', en')
      end
  end.

Definition PingTimeout : Z := 3 * Second.

Definition icmp_init : SM ICMPTask derr unit := fun t =>
  match parse_timeout (icmp_Timeout t) PingTimeout with
  | Err e => (Err e, t)
  | Ok d =>
      let t := t{{icmp_timeout := d}} in
      match icmp_SuccessWhen t with
      | [] => (Err (EMsg "no any check rule"), t)
      | l =>
          let t := if PacketCount t <=? 0 then t{{PacketCount := 3}} else t in
          let '(r, l', en) := icmp_init_rules l (icmp_EnableTraceroute t) in
          (r, t{{icmp_SuccessWhen := l'; icmp_EnableTraceroute := en}})
      end
  end.

Definition icmp_check (t : ICMPTask) : option derr :=
  if (icmp_Host t =? "")%string then Some (EMsg "host should not be empty") else None.

Definition icmp_value (t : ICMPTask) (f : string) : spec_float :=
  match f with
  | "avg" => avgRoundTripTime t
  | "min" => minRoundTripTime t
  | "max" => maxRoundTripTime t
  | "std" => stdRoundTripTime t
  | _ => fzero
  end%string.

Definition icmp_time (t : ICMPTask) (v : ResponseTimeSucess) : option string :=
  if SFeqb (packetLossPercent t) (float_of_int 100) then Some "all packets lost"
  else option_map (fun e => "ICMP round-trip(" +:+ it_Func v +:+ ") check failed: " +:+ e)
         (vcheck (mkValue (it_Op v) (it_target v)) (icmp_value t (it_Func v))).

Definition icmp_rule (t : ICMPTask) (c : ICMPSuccess) : list string * bool :=
  both (checks (icmp_time t) (is_ResponseTime c))
    (both (value_rules "packet_loss_percent check failed: " (packetLossPercent t) (is_Loss c))
       (both (value_rules "packets received check failed: " (float_of_int (recvPackets t)) (is_Packets c))
          (hop_rules (icmp_EnableTraceroute t) (icmp_traceroute t) (default [] (is_Hops c))))).

Definition icmp_checkResult (t : ICMPTask) : list string * bool := all_rules (icmp_rule t) (icmp_SuccessWhen t).

Definition icmp_getResults (t : ICMPTask) : tagmap * fieldmap :=
  let tags := <["name" := Name (icmp_task t)]> (<["dest_host" := icmp_Host t]>
    (<["status" := "FAIL"]> (<["proto" := "icmp"]> ∅))) in
  let millis (x : spec_float) := FFloat (round (fdiv x (float_of_int 1000)) 3) in
  let fields :=
    <["average_round_trip_time_in_millis" := millis (avgRoundTripTime t)]>
    (<["average_round_trip_time" := FFloat (avgRoundTripTime t)]>
    (<["min_round_trip_time_in_millis" := millis (minRoundTripTime t)]>
    (<["min_round_trip_time" := FFloat (minRoundTripTime t)]>
    (<["std_round_trip_time_in_millis" := millis (stdRoundTripTime t)]>
    (<["std_round_trip_time" := FFloat (stdRoundTripTime t)]>
    (<["max_round_trip_time_in_millis" := millis (maxRoundTripTime t)]>
    (<["max_round_trip_time" := FFloat (maxRoundTripTime t)]>
    (<["packet_loss_percent" := FFloat (packetLossPercent t)]>
    (<["packets_sent" := FInt (sentPackets t)]>
    (<["packets_received" := FInt (recvPackets t)]>
    (<["success" := FInt (-1)]> ∅))))))))))) in
  let tags := Tags (icmp_task t) ∪ tags in
  let fields := trace_fields (icmp_EnableTraceroute t) (icmp_traceroute t) fields in
  let '(reasons, succ) := add_error (icmp_reqError t) (icmp_checkResult t) in
  let v := judge (icmp_Logic t) succ (icmp_reqError t) reasons
             (fun m => <["average_round_trip_time" := FFloat (avgRoundTripTime t)]> m) (mkVerdict tags fields ∅) in
  (v_tags v, add_message v).

Definition icmp_clear (t : ICMPTask) : ICMPTask :=
  let t := if icmp_timeout t =? 0 then t{{icmp_timeout := PingTimeout}} else t in
  t{{avgRoundTripTime := fzero; minRoundTripTime := fzero; maxRoundTripTime := fzero; stdRoundTripTime := fzero;
     recvPackets := 0; sentPackets := 0; packetLossPercent := float_of_int 100; icmp_reqError := "";
     icmp_traceroute := None}}.

(** Nanoseconds as microseconds with three decimals. *)
Definition rtt_micros (ns : Z) : spec_float := round (fdiv (float_of_int ns) (float_of_int 1000)) 3.

Definition icmp_ping (net : icmp_net) (t : ICMPTask) : ICMPTask :=
  let count := if 0 <? PacketCount t then PacketCount t else 3 in
  match pingTarget (in_conv net) count (fun i => doPing (in_ping net (icmp_Host t) i)) with
  | Err e => t{{icmp_reqError := e}}
  | Ok st =>
      t{{packetLossPercent := PacketLoss st; sentPackets := PacketsSent st; recvPackets := PacketsRecv st;
         minRoundTripTime := rtt_micros (MinRtt st); avgRoundTripTime := rtt_micros (AvgRtt st);
         maxRoundTripTime := rtt_micros (MaxRtt st); stdRoundTripTime := rtt_micros (StdDevRtt st)}}
  end.

Definition icmp_trace (net : icmp_net) (ip : string) (t : ICMPTask) : ICMPTask :=
  match in_trace net ip with
  | Err e => t{{icmp_reqError := e}}
  | Ok routes => t{{icmp_traceroute := Some routes}}
  end.

Definition icmp_run (net : icmp_net) : SM ICMPTask derr unit := fun t =>
  let t := icmp_ping net t in
  (Ok tt,
   if icmp_EnableTraceroute t then
     match ParseIP (icmp_Host t) with
     | Some ip => icmp_trace net ip t
     | None =>
         match in_lookup net (icmp_Host t) with
         | Err e => t{{icmp_reqError := e}}
         | Ok ips =>
             match preferredIP ips with
             | None => t{{icmp_reqError := "invalid host: " +:+ icmp_Host t +:+ ", found no ip record"}}
             | Some ip => icmp_trace net ip t
             end
         end
     end
   else t).

Definition icmp_renderTemplate (decode : string -> Res string ICMPTask) (f : FuncMap) : SM ICMPTask derr unit :=
  t <~ sget ;;
  (match icmp_raw t with
   | Some _ => sret tt
   | None =>
       match NewRawTask decode (icmp_task t) with
       | Err e => sfail (ewrap "new raw task failed" e)
       | Ok r => smod (fun t => t{{icmp_raw := Some (icmp_Host r)}})
       end
   end) ;;;
  t <~ sget ;;
  match icmp_raw t with
  | None => sfail (EMsg "raw task is nil")
  | Some host => render "host" host f (fun s t => t{{icmp_Host := s}})
  end.
End icmp.

#[export] Instance icmp_child `{Std} `{Json ICMPTask} : TaskChild ICMPTask icmp_net := {
  c_task := icmp_task; c_put := fun x t => t{{icmp_task := x}}; c_run := icmp_run; c_init := icmp_init;
  c_check := icmp_check; c_clear := icmp_clear; c_checkResult := icmp_checkResult;
  c_getResults := fun _ => icmp_getResults; c_renderTemplate := icmp_renderTemplate Unmarshal;
  c_getRawTask := fun _ => raw_task "icmp"; c_setReqError := fun e t => t{{icmp_reqError := e}};
  c_getHostName := fun t => Ok [icmp_Host t];
  c_class := fun _ => ClassICMP
}.
