(* ===== verification/DialTls.v ===== *)
(** * Dial testing: WebSocket and TLS tasks ([src/dialtesting/websocket.go], [ssl.go]) *)

From S2P Require Import Prelude GoNum GoStrings FilterLex GoStrconv DialTask DialNet.

(** ** Hosts and ports ([net], [net/url]) *)

Fixpoint last_colon (s : string) (i : nat) (acc : option nat) : option nat :=
  match s with
  | EmptyString => acc
  | String a s' => last_colon s' (S i) (if (Ascii.N_of_ascii a =? 58)%N then Some i else acc)
  end.

Fixpoint all_digits (s : string) : bool :=
  match s with
  | EmptyString => true
  | String a s' => (let n := Ascii.N_of_ascii a in (48 <=? n) && (n <=? 57))%N && all_digits s'
  end.

Definition unbracket (s : string) : string :=
  let n := String.length s in
  if (String.prefix "[" s && (String.substring (n - 1) 1 s =? "]")%string)%bool
  then String.substring 1 (n - 2) s else s.

(** The host without brackets, and the port. *)
Definition splitHostPort (s : string) : string * string :=
  let n := String.length s in
  match last_colon s 0 None with
  | Some i =>
      let port := String.substring (S i) (n - S i) s in
      if all_digits port then (unbracket (String.substring 0 i s), port) else (unbracket s, "")
  | None => (unbracket s, "")
  end.

Definition Hostname (u : URL) : string := fst (splitHostPort (u_Host u)).
Definition Port (u : URL) : string := snd (splitHostPort (u_Host u)).

Definition JoinHostPort (host port : string) : string :=
  if has_substring host ":" then "[" +:+ host +:+ "]:" +:+ port else host +:+ ":" +:+ port.

(** [getHostName] of a URL, and as the tasks with one return it. *)
Definition getHostName `{Std} (host : string) : Res string string :=
  match ParseURL host with Err e => Err ("parse host error: " +:+ e) | Ok u => Ok (Hostname u) end.

Definition host_names `{Std} (url : string) : Res string (list string) :=
  match getHostName url with Err e => Err e | Ok h => Ok [h] end.

(** ** websocket.go *)

Record WebsocketSuccess := mkWsSuccess {
  ws_ResponseTime : list TCPResponseTime; ws_Message : list SuccessOption;
  ws_Header : list (string * list SuccessOption)      (* a map, in the order of its iteration *)
}.

Record WebsocketOptRequest := mkWsReq { wr_Timeout : string; wr_Headers : tagmap }.
Record WebsocketOptAuth := mkWsAuth { wa_Username : string; wa_Password : string }.
Record WebsocketAdvanceOption := mkWsOpt {
  wo_RequestOptions : option WebsocketOptRequest; wo_Auth : option WebsocketOptAuth
}.

(** The parts of a task that templates are rendered from. *)
Record ws_raw := mkWsRaw {
  wraw_URL : string; wraw_Message : string; wraw_SuccessWhen : list WebsocketSuccess;
  wraw_AdvanceOptions : option WebsocketAdvanceOption
}.

Record WebsocketTask := mkWS {
  ws_task : Task;
  ws_URL : string; ws_text : string; ws_SuccessWhen : list WebsocketSuccess;
  ws_AdvanceOptions : option WebsocketAdvanceOption; ws_Logic : string;
  ws_reqCost : Z; ws_reqDNSCost : Z; ws_responseMessage : string; ws_resp : option header;
  ws_parsedURL : option URL; ws_hostname : string; ws_reqError : string; ws_timeout : Z;
  ws_rawTask : option ws_raw; ws_NotBefore : Z; ws_NotAfter : Z
}.

(** Answers: look-up and cost; connection to a URL through a target with a header: the
    header of the response and the validity of the certificate; write; read. *)
Record ws_net := mkWsNet {
  wn_lookup : string -> Res string (list string); wn_dns_cost : Z;
  wn_dial : URL -> string -> header -> Res string (header * option (Z * Z)); wn_cost : Z;
  wn_write : string -> option string; wn_read : Res string string
}.

Section ws.
Context `{Std}.

Definition each_header {A} (m : SM A derr unit) : list (string * list A) -> Res derr unit * list (string * list A) :=
  each (zoom snd (fun l kv => (fst kv, l)) (each m)).

Definition ws_init_rule : SM WebsocketSuccess derr unit :=
  zoom ws_ResponseTime (fun l c => c{{ws_ResponseTime := l}}) (each parse_target) ;;;
  zoom ws_Header (fun l c => c{{ws_Header := l}}) (each_header genReg) ;;;
  zoom ws_Message (fun l c => c{{ws_Message := l}}) (each genReg).

(** The timeout of the options, when there is one. *)
Definition ws_timeout_text (t : WebsocketTask) : string :=
  match ws_AdvanceOptions t with
  | Some o => match wo_RequestOptions o with Some r => wr_Timeout r | None => "" end
  | None => ""
  end.

Definition ws_url_port (u : URL) : URL :=
  if (Port u =? "")%string then
    let port := if (u_Scheme u =? "wss")%string then "443" else if (u_Scheme u =? "ws")%string then "80" else "" in
    u{{u_Host := JoinHostPort (u_Host u) port}}
  else u.

Definition ws_init : SM WebsocketTask derr unit :=
  smod (fun t => t{{ws_timeout := 30 * Second}}) ;;;
  t <~ sget ;;
  (match parse_timeout (ws_timeout_text t) (30 * Second) with
   | Err e => sfail e
   | Ok d => smod (fun t => t{{ws_timeout := d}})
   end) ;;;
  (match ws_SuccessWhen t with
   | [] => sfail (EMsg "no any check rule")
   | _ => zoom ws_SuccessWhen (fun l t => t{{ws_SuccessWhen := l}}) (each ws_init_rule)
   end) ;;;
  match ParseURL (ws_URL t) with
  | Err e => sfail (EMsg e)
  | Ok u => let u := ws_url_port u in smod (fun t => t{{ws_parsedURL := Some u; ws_hostname := Hostname u}})
  end.

Definition ws_check (t : WebsocketTask) : option derr :=
  if (ws_URL t =? "")%string then Some (EMsg "URL should not be empty") else None.

Definition ws_time (t : WebsocketTask) (v : TCPResponseTime) : list string * bool :=
  let reqCost := if IsContainDNS v then int64 (ws_reqCost t + ws_reqDNSCost t) else ws_reqCost t in
  if (targetTime v <? reqCost) && (0 <? targetTime v)
  then (["response time(" +:+ fmt_dur reqCost +:+ ") larger than " +:+ fmt_dur (targetTime v)], false)
  else ([], 0 <? targetTime v).

(** The rules on headers of a response. *)
Definition header_rules (prompt : string) (resp : header) (rules : list (string * list SuccessOption)) : list string * bool :=
  all_rules (fun kv => option_rules (prompt +:+ " header `" +:+ fst kv +:+ "'") (header_Get resp (fst kv)) (snd kv)) rules.

Definition ws_rule (t : WebsocketTask) (c : WebsocketSuccess) : list string * bool :=
  both (all_rules (ws_time t) (ws_ResponseTime c))
    (both (option_rules "response message" (ws_responseMessage t) (ws_Message c))
       (match ws_resp t with Some resp => header_rules "Websocket" resp (ws_Header c) | None => ([], false) end)).

Definition ws_checkResult (t : WebsocketTask) : list string * bool := all_rules (ws_rule t) (ws_SuccessWhen t).

(** Whole days until a certificate expires. *)
Definition days_left (notAfter now : Z) : Z := Z.quot (int64 (notAfter - now)) 86400000000.

(** The header of the response is reported with a failure. *)
Definition ws_add_response (t : WebsocketTask) (v : verdict) : verdict :=
  match v_fields v !! "fail_reason", ws_resp t with
  | Some (FStr r), Some h =>
      if negb (r =? "")%string then v{{v_message := <["response_header" := FHeader h]> (v_message v)}} else v
  | _, _ => v
  end.

Definition ws_getResults (now : Z) (t : WebsocketTask) : tagmap * fieldmap :=
  let tags := <["name" := Name (ws_task t)]> (<["url" := ws_URL t]> (<["status" := "FAIL"]> (<["proto" := "websocket"]> ∅))) in
  let responseTime := micros (int64 (ws_reqCost t + ws_reqDNSCost t)) in
  let fields := <["response_time" := FInt responseTime]> (<["response_time_with_dns" := FInt responseTime]>
    (<["response_message" := FStr (ws_responseMessage t)]> (<["sent_message" := FStr (ws_text t)]>
    (<["success" := FInt (-1)]> ∅)))) in
  let fields := if 0 <? ws_NotAfter t
    then <["ssl_cert_expires_in_days" := FInt (days_left (ws_NotAfter t) now)]>
           (<["ssl_cert_not_after" := FInt (ws_NotAfter t)]> fields)
    else fields in
  let tags := Tags (ws_task t) ∪ tags in
  let '(reasons, succ) := add_error (ws_reqError t) (ws_checkResult t) in
  let v := judge (ws_Logic t) succ (ws_reqError t) reasons (fun m => <["response_time" := FInt responseTime]> m)
             (mkVerdict tags fields ∅) in
  let v := ws_add_response t v in
  (v_tags v, add_message v).

Definition ws_clear (t : WebsocketTask) : WebsocketTask :=
  t{{ws_reqCost := 0; ws_reqDNSCost := 0; ws_reqError := ""; ws_NotBefore := 0; ws_NotAfter := 0}}.

Definition basicAuth (username password : string) : string := base64 (username +:+ ":" +:+ password).

Definition ws_getHeader (t : WebsocketTask) : header :=
  match ws_AdvanceOptions t with
  | Some o =>
      match wo_RequestOptions o with
      | Some r =>
          let h := (fun v => [v]) <$> wr_Headers r in
          match wo_Auth o with
          | Some a =>
              if negb (wa_Username a =? "")%string && negb (wa_Password a =? "")%string
              then <["Authorization" := ["Basic " +:+ basicAuth (wa_Username a) (wa_Password a)]]> h else h
          | None => h
          end
      | None => ∅
      end
  | None => ∅
  end.

(** [header.Add]. *)
Definition header_Add (k v : string) (h : header) : header :=
  <[canonical k := default [] (h !! canonical k) ++ [v]]> h.

Definition ws_getMessage (net : ws_net) (t : WebsocketTask) : WebsocketTask :=
  match wn_write net (ws_text t) with
  | Some e => t{{ws_reqError := e}}
  | None =>
      match wn_read net with
      | Err e => t{{ws_reqError := e}}
      | Ok m => t{{ws_responseMessage := m}}
      end
  end.

Definition ws_connect (net : ws_net) (u : URL) (target : string) (t : WebsocketTask) : WebsocketTask :=
  let h := ws_getHeader t in
  let h := if (header_Get h "Host" =? "")%string then header_Add "Host" (ws_hostname t) h else h in
  match wn_dial net u target h with
  | Err e => t{{ws_reqError := e; ws_reqDNSCost := 0}}
  | Ok (resp, cert) =>
      let t := t{{ws_reqCost := wn_cost net; ws_resp := Some resp}} in
      let t := match cert with
               | Some (nb, na) => if (u_Scheme u =? "wss")%string then t{{ws_NotBefore := nb; ws_NotAfter := na}} else t
               | None => t
               end in
      ws_getMessage net t
  end.

(** A task that was not initialised has no URL: its run panics. *)
Definition ws_run (net : ws_net) : SM WebsocketTask derr unit := fun t =>
  match ws_parsedURL t with
  | None => (Err EPanic, t)
  | Some u =>
      match ParseIP (ws_hostname t) with
      | Some _ => (Ok tt, ws_connect net u (u_Host u) t)
      | None =>
          match wn_lookup net (ws_hostname t) with
          | Err e => (Ok tt, t{{ws_reqError := e}})
          | Ok [] => (Ok tt, t{{ws_reqError := "invalid host: " +:+ ws_hostname t +:+ ", found no ip record"}})
          | Ok (ip :: _) => (Ok tt, ws_connect net u (JoinHostPort ip (Port u)) t{{ws_reqDNSCost := wn_dns_cost net}})
          end
      end
  end.

(** *** Templates *)

(** A map of options: each value of the raw map is rendered into the other one. *)
Fixpoint render_headers (f : FuncMap) (l : list (string * string)) : SM tagmap derr unit :=
  match l with
  | [] => sret tt
  | (k, v) :: l' =>
      match GetParsedString v f with
      | Err e => sfail (ewrap "render header failed" e)
      | Ok s => smod (fun m => <[k := s]> m) ;;; render_headers f l'
      end
  end.

(** The lists of options of a header rule; a key that the other map lacks is a nil slice. *)
Definition render_header_rule (f : FuncMap) (kv : string * list SuccessOption)
    : SM (list (string * list SuccessOption)) derr unit := fun l =>
  match list_find (fun x : string * list SuccessOption => fst x = fst kv) l with
  | Some (i, (k, opts)) =>
      let '(r, opts') := each2 (renderSuccessOption f) (snd kv) opts in (r, <[i := (k, opts')]> l)
  | None => match snd kv with [] => (Ok tt, l) | _ => (Err EPanic, l) end
  end.

Fixpoint render_header_rules (f : FuncMap) (raw : list (string * list SuccessOption))
    : SM (list (string * list SuccessOption)) derr unit :=
  match raw with
  | [] => sret tt
  | kv :: raw' => render_header_rule f kv ;;; render_header_rules f raw'
  end.

Definition ws_render_rule (f : FuncMap) (raw : WebsocketSuccess) : SM WebsocketSuccess derr unit :=
  swrap (ewrap "render success when failed")
    (zoom ws_Message (fun l c => c{{ws_Message := l}}) (each2 (renderSuccessOption f) (ws_Message raw))) ;;;
  swrap (ewrap "render header failed")
    (zoom ws_Header (fun l c => c{{ws_Header := l}}) (render_header_rules f (ws_Header raw))).

(** The options of the task; when it lacks what the raw task has, a nil pointer is used. *)
Definition in_opt {S P} (get : S -> option P) (put : option P -> S -> S) (m : SM P derr unit) : SM S derr unit :=
  fun s => match get s with
           | Some p => let '(r, p') := m p in (r, put (Some p') s)
           | None => (Err EPanic, s)
           end.

Definition in_options (m : SM WebsocketAdvanceOption derr unit) : SM WebsocketTask derr unit :=
  in_opt ws_AdvanceOptions (fun v t => t{{ws_AdvanceOptions := v}}) m.

Definition ws_render_request (f : FuncMap) (raw : option WebsocketOptRequest) : SM WebsocketTask derr unit :=
  match raw with
  | None => sret tt
  | Some r =>
      match map_to_list (wr_Headers r) with
      | [] => sret tt
      | l => in_options (in_opt wo_RequestOptions (fun v o => o{{wo_RequestOptions := v}})
               (zoom wr_Headers (fun m r => r{{wr_Headers := m}}) (render_headers f l)))
      end
  end.

Definition ws_render_auth (f : FuncMap) (raw : option WebsocketOptAuth) : SM WebsocketTask derr unit :=
  match raw with
  | None => sret tt
  | Some a =>
      in_options (in_opt wo_Auth (fun v o => o{{wo_Auth := v}})
        (render "auth username" (wa_Username a) f (fun s a => a{{wa_Username := s}}) ;;;
         render "auth password" (wa_Password a) f (fun s a => a{{wa_Password := s}})))
  end.

Definition ws_render_options (f : FuncMap) (raw : option WebsocketAdvanceOption) : SM WebsocketTask derr unit :=
  match raw with
  | None => sret tt
  | Some o =>
      swrap (ewrap "render request options failed") (ws_render_request f (wo_RequestOptions o)) ;;;
      swrap (ewrap "render auth failed") (ws_render_auth f (wo_Auth o))
  end.

Definition ws_renderTemplate (decode : string -> Res string WebsocketTask) (f : FuncMap) : SM WebsocketTask derr unit :=
  t <~ sget ;;
  (match ws_rawTask t with
   | Some _ => sret tt
   | None =>
       match NewRawTask decode (ws_task t) with
       | Err e => sfail (ewrap "new raw task failed" e)
       | Ok r => smod (fun t => t{{ws_rawTask := Some (mkWsRaw (ws_URL r) (ws_text r) (ws_SuccessWhen r) (ws_AdvanceOptions r))}})
       end
   end) ;;;
  t <~ sget ;;
  match ws_rawTask t with
  | None => sfail (EMsg "raw task is nil")
  | Some raw =>
      render "url" (wraw_URL raw) f (fun s t => t{{ws_URL := s}}) ;;;
      render "message" (wraw_Message raw) f (fun s t => t{{ws_text := s}}) ;;;
      swrap (ewrap "render success when failed")
        (zoom ws_SuccessWhen (fun l t => t{{ws_SuccessWhen := l}}) (each2 (ws_render_rule f) (wraw_SuccessWhen raw))) ;;;
      swrap (ewrap "render advance options failed") (ws_render_options f (wraw_AdvanceOptions raw))
  end.
End ws.

#[export] Instance ws_child `{Std} `{Json WebsocketTask} : TaskChild WebsocketTask ws_net := {
  c_task := ws_task; c_put := fun x t => t{{ws_task := x}}; c_run := ws_run; c_init := ws_init;
  c_check := ws_check; c_clear := ws_clear; c_checkResult := ws_checkResult;
  c_getResults := ws_getResults; c_renderTemplate := ws_renderTemplate Unmarshal;
  c_getRawTask := fun _ => raw_task "websocket"; c_setReqError := fun e t => t{{ws_reqError := e}};
  c_getHostName := fun t => host_names (ws_URL t);
  c_class := fun _ => ClassWebsocket
}.

(** ** ssl.go *)

Record SSLSuccess := mkSslSuccess {
  ss_ResponseTime : string; ss_ExpiresInDays : list ValueSuccess; ss_NotAfter : list ValueSuccess;
  ss_Subject : list SuccessOption; ss_Issuer : list SuccessOption; ss_TLSVersion : list SuccessOption;
  ss_respTime : Z
}.

Record SSLTask := mkSSL {
  ssl_task : Task;
  ssl_Host : string; ssl_Port : string; ssl_ServerName : string; ssl_Timeout : string; ssl_Ignore : bool;
  ssl_SuccessWhen : list SSLSuccess; ssl_Logic : string;
  ssl_reqCost : Z; ssl_handshakeCost : Z; ssl_reqError : string; ssl_destIP : string; ssl_timeout : Z;
  ssl_version : string; ssl_NotBefore : Z; ssl_NotAfter : Z; ssl_ExpiresInDays : Z;
  ssl_subject : string; ssl_issuer : string;
  ssl_raw : option (string * string * string * list SSLSuccess)
}.

Record certificate := mkCert { ct_NotBefore : Z; ct_NotAfter : Z; ct_Subject : string; ct_Issuer : string }.

(** Answers: the connection, the handshake with the server name and whether the
    certificate is verified, the costs, the state of the connection, the clock. *)
Record ssl_net := mkSslNet {
  sn_dial : string -> option string; sn_handshake : string -> bool -> option string;
  sn_cost : Z; sn_handshake_cost : Z; sn_remote : option string; sn_version : Z;
  sn_certs : list certificate; sn_now : Z
}.

Definition tlsVersionString (version : Z) : string :=
  if version =? 769 then "TLS1.0" else if version =? 770 then "TLS1.1" else if version =? 771 then "TLS1.2"
  else if version =? 772 then "TLS1.3" else "0x" +:+ FormatUint 16 version.

Section ssl.
Context `{Std}.

Definition ssl_init_rule : SM SSLSuccess derr unit :=
  c <~ sget ;;
  swhen (negb (ss_ResponseTime c =? "")%string)
    match ParseDuration (ss_ResponseTime c) with
    | Err e => sfail (EMsg e)
    | Ok du => smod (fun c => c{{ss_respTime := du}})
    end ;;;
  zoom ss_Subject (fun l c => c{{ss_Subject := l}}) (each genReg) ;;;
  zoom ss_Issuer (fun l c => c{{ss_Issuer := l}}) (each genReg) ;;;
  zoom ss_TLSVersion (fun l c => c{{ss_TLSVersion := l}}) (each genReg).

Definition ssl_init : SM SSLTask derr unit :=
  t <~ sget ;;
  (match parse_timeout (ssl_Timeout t) (10 * Second) with
   | Err e => sfail e
   | Ok d => smod (fun t => t{{ssl_timeout := d}})
   end) ;;;
  match ssl_SuccessWhen t with
  | [] => sfail (EMsg "no any check rule")
  | _ => zoom ssl_SuccessWhen (fun l t => t{{ssl_SuccessWhen := l}}) (each ssl_init_rule)
  end.

Definition ssl_check (t : SSLTask) : option derr :=
  if (ssl_Host t =? "")%string then Some (EMsg "host should not be empty")
  else if (ssl_Port t =? "")%string then Some (EMsg "port should not be empty")
  else None.

Definition ssl_time (t : SSLTask) (d : Z) : list string * bool :=
  if 0 <? d then
    if d <=? ssl_reqCost t
    then (["SSL response time(" +:+ fmt_dur (ssl_reqCost t) +:+ ") larger equal than " +:+ fmt_dur d], false)
    else ([], true)
  else ([], false).

Definition ssl_rule (t : SSLTask) (c : SSLSuccess) : list string * bool :=
  both (ssl_time t (ss_respTime c))
    (both (value_rules "SSL certificate expires in days check failed: " (float_of_int (ssl_ExpiresInDays t)) (ss_ExpiresInDays c))
       (both (value_rules "SSL certificate not after check failed: " (float_of_int (ssl_NotAfter t)) (ss_NotAfter c))
          (both (option_rules "SSL certificate subject" (ssl_subject t) (ss_Subject c))
             (both (option_rules "SSL certificate issuer" (ssl_issuer t) (ss_Issuer c))
                (option_rules "TLS version" (ssl_version t) (ss_TLSVersion c)))))).

Definition ssl_checkResult (t : SSLTask) : list string * bool := all_rules (ssl_rule t) (ssl_SuccessWhen t).

Definition add_str (k v : string) (f : fieldmap) : fieldmap := if (v =? "")%string then f else <[k := FStr v]> f.

(** The message, or the text of the error. *)
Definition ssl_message (v : verdict) : fieldmap :=
  match Marshal (v_message v) with
  | Err e => <["message" := FStr e]> (v_fields v)
  | Ok _ => add_message v
  end.

Definition ssl_getResults (t : SSLTask) : tagmap * fieldmap :=
  let tags := <["name" := Name (ssl_task t)]> (<["dest_host" := ssl_Host t]> (<["dest_port" := ssl_Port t]>
    (<["dest_ip" := ssl_destIP t]> (<["status" := "FAIL"]> (<["proto" := "ssl"]> ∅))))) in
  let tags := if (ssl_ServerName t =? "")%string then tags else <["server_name" := ssl_ServerName t]> tags in
  let tags := Tags (ssl_task t) ∪ tags in
  let responseTime := micros (ssl_reqCost t) in
  let fields := <["response_time" := FInt responseTime]> (<["tls_handshake_time" := FInt (micros (ssl_handshakeCost t))]>
    (<["success" := FInt (-1)]> ∅)) in
  let fields := add_str "tls_version" (ssl_version t) fields in
  let fields := if 0 <? ssl_NotBefore t then <["ssl_cert_not_before" := FInt (ssl_NotBefore t)]> fields else fields in
  let fields := if 0 <? ssl_NotAfter t
    then <["ssl_cert_expires_in_days" := FInt (ssl_ExpiresInDays t)]> (<["ssl_cert_not_after" := FInt (ssl_NotAfter t)]> fields)
    else fields in
  let fields := add_str "ssl_cert_issuer" (ssl_issuer t) (add_str "ssl_cert_subject" (ssl_subject t) fields) in
  let '(reasons, succ) := if negb (ssl_reqError t =? "")%string then ([ssl_reqError t], false) else ssl_checkResult t in
  let v := judge (ssl_Logic t) succ (ssl_reqError t) reasons (fun m => <["response_time" := FInt responseTime]> m)
             (mkVerdict tags fields ∅) in
  let v := v{{v_message := <["status" := FStr (default "" (v_tags v !! "status"))]> (v_message v)}} in
  (v_tags v, ssl_message v).

Definition ssl_clear (t : SSLTask) : SSLTask :=
  t{{ssl_reqCost := 0; ssl_handshakeCost := 0; ssl_reqError := ""; ssl_destIP := ""; ssl_version := "";
     ssl_NotBefore := 0; ssl_NotAfter := 0; ssl_ExpiresInDays := 0; ssl_subject := ""; ssl_issuer := ""}}.

Definition ssl_extract (now : Z) (certs : list certificate) (t : SSLTask) : SSLTask :=
  match certs with
  | [] => t
  | c :: _ =>
      t{{ssl_NotBefore := ct_NotBefore c; ssl_NotAfter := ct_NotAfter c;
         ssl_ExpiresInDays := days_left (ct_NotAfter c) now; ssl_subject := ct_Subject c; ssl_issuer := ct_Issuer c}}
  end.

Definition ssl_run (net : ssl_net) : SM SSLTask derr unit := fun t =>
  let addr := JoinHostPort (ssl_Host t) (ssl_Port t) in
  let serverName := if (ssl_ServerName t =? "")%string then ssl_Host t else ssl_ServerName t in
  (Ok tt,
   match sn_dial net addr with
   | Some e => t{{ssl_reqError := e}}
   | None =>
       match sn_handshake net serverName (ssl_Ignore t) with
       | Some e => t{{ssl_reqError := e}}
       | None =>
           let t := t{{ssl_handshakeCost := sn_handshake_cost net; ssl_reqCost := sn_cost net}} in
           let t := match sn_remote net with Some host => t{{ssl_destIP := host}} | None => t end in
           ssl_extract (sn_now net) (sn_certs net) t{{ssl_version := tlsVersionString (sn_version net)}}
       end
   end).

Definition ssl_render_rule (f : FuncMap) (raw : SSLSuccess) : SM SSLSuccess derr unit :=
  render "response time" (ss_ResponseTime raw) f (fun s c => c{{ss_ResponseTime := s}}) ;;;
  swrap (ewrap "render subject failed")
    (zoom ss_Subject (fun l c => c{{ss_Subject := l}}) (each2 (renderSuccessOption f) (ss_Subject raw))) ;;;
  swrap (ewrap "render issuer failed")
    (zoom ss_Issuer (fun l c => c{{ss_Issuer := l}}) (each2 (renderSuccessOption f) (ss_Issuer raw))) ;;;
  swrap (ewrap "render tls version failed")
    (zoom ss_TLSVersion (fun l c => c{{ss_TLSVersion := l}}) (each2 (renderSuccessOption f) (ss_TLSVersion raw))).

Definition ssl_renderTemplate (decode : string -> Res string SSLTask) (f : FuncMap) : SM SSLTask derr unit :=
  t <~ sget ;;
  (match ssl_raw t with
   | Some _ => sret tt
   | None =>
       match NewRawTask decode (ssl_task t) with
       | Err e => sfail (ewrap "new raw task failed" e)
       | Ok r => smod (fun t => t{{ssl_raw := Some (ssl_Host r, ssl_Port r, ssl_ServerName r, ssl_SuccessWhen r)}})
       end
   end) ;;;
  t <~ sget ;;
  match ssl_raw t with
  | None => sfail (EMsg "raw task is nil")
  | Some (host, port, name, rules) =>
      render "host" host f (fun s t => t{{ssl_Host := s}}) ;;;
      render "port" port f (fun s t => t{{ssl_Port := s}}) ;;;
      render "server name" name f (fun s t => t{{ssl_ServerName := s}}) ;;;
      zoom ssl_SuccessWhen (fun l t => t{{ssl_SuccessWhen := l}}) (each2 (ssl_render_rule f) rules)
  end.
End ssl.

#[export] Instance ssl_child `{Std} `{Json SSLTask} : TaskChild SSLTask ssl_net := {
  c_task := ssl_task; c_put := fun x t => t{{ssl_task := x}}; c_run := ssl_run; c_init := ssl_init;
  c_check := ssl_check; c_clear := ssl_clear; c_checkResult := ssl_checkResult;
  c_getResults := fun _ => ssl_getResults; c_renderTemplate := ssl_renderTemplate Unmarshal;
  c_getRawTask := fun _ => raw_task "ssl"; c_setReqError := fun e t => t{{ssl_reqError := e}};
  c_getHostName := fun t => Ok [ssl_Host t];
  c_class := fun _ => ClassSSL
}.
