(* ===== verification/DialHttp.v ===== *)
(** * Dial testing: HTTP tasks ([src/dialtesting/http.go], [http_script.go])

    A run builds a request from the options, sends it through the client that [init] made
    and stores what the trace of the client reports.  The body of the request that is
    reported is the one of the options, shared by a pointer ([RBOption]).  Scripts run in
    the pipeline interpreter, a parameter.  Maps are iterated in the order of
    [map_to_list]; it shows only in the values of header keys that differ by case. *)

From S2P Require Import Prelude GoNum GoStrings FilterLex GoStrconv DialTask DialNet DialTls.

(** ** Options *)

Record HTTPSuccess := mkHttpSuccess {
  hs_Body : list SuccessOption; hs_ResponseTime : string; hs_respTime : Z;
  hs_Header : list (string * list SuccessOption); hs_StatusCode : list SuccessOption
}.

Record HTTPOptAuth := mkAuth { ha_Username : string; ha_Password : string }.

Record HTTPOptRequest := mkReqOpt {
  FollowRedirect : bool; Headers : tagmap; Cookies : string; Auth : option HTTPOptAuth
}.

Record HTTPOptCertificate := mkCertOpt {
  IgnoreServerCertificateError : bool; PrivateKey : string; Certificate : string; CaCert : string
}.

Record HTTPOptProxy := mkProxy { px_URL : string; px_Headers : tagmap }.

Record HTTPAdvanceOption := mkAdvance {
  RequestOptions : option HTTPOptRequest; RequestBody : option HTTPOptBody;
  CertificateOpt : option HTTPOptCertificate; Proxy : option HTTPOptProxy;
  Secret : option bool;                       (* NoSaveResponseBody *)
  RequestTimeout : string; Protocol : string
}.

Definition ProtocolAuto : string := "auto".
Definition ProtocolHTTP11 : string := "http/1.1".
Definition ProtocolHTTP2 : string := "http/2".
Definition ProtocolHTTP2Only : string := "http/2-only".
Definition ProtocolHTTP3 : string := "http/3".

Definition getProtocol (opt : option HTTPAdvanceOption) : string :=
  match opt with
  | None => ProtocolAuto
  | Some o =>
      match ToLower (Protocol o) with
      | "http/1.1" | "http1.1" | "1.1" | "http/1.1 only" => ProtocolHTTP11
      | "http/2" | "http2" | "2" | "http/2 fallback" | "http/2 fallback to http/1.1" => ProtocolHTTP2
      | "http/2-only" | "http/2 only" | "http2-only" => ProtocolHTTP2Only
      | "http/3" | "http3" | "3" => ProtocolHTTP3
      | _ => ProtocolAuto
      end%string
  end.

(** ** Clients, requests, responses *)

Record tlsConfig := mkTls { Insecure : bool; RootCA : string; ClientCert : option (string * string); NextProtos : list string }.

Inductive transport :=
| THttp3 (c : tlsConfig)
| THttp2Plain
| THttp (c : tlsConfig) (force2 : bool) (proxy : option string).

Record client := mkClient { cl_Timeout : Z; cl_Transport : transport; cl_follow : bool }.

Record request := mkRequest {
  rq_Method : string; rq_URL : URL; rq_Host : string; rq_Header : header; rq_Body : option string
}.

Record response := mkResponse { rs_Proto : string; rs_StatusCode : Z; rs_Status : string; rs_Header : header }.

(** ** Scripts *)

(** The value of a variable of a script: its text, or nil. *)
Record ScriptResult := mkScript { sr_IsFailed : bool; sr_Message : string; sr_Vars : gmap string (option string) }.

Definition MaxErrorMessageSize : Z := 1024.

(** What the interpreter does with a script and a response with its body. *)
Definition interpreter : Type := string -> response -> string -> Res string ScriptResult.

Definition runPipeline (interp : interpreter) (script : string) (resp : response) (body : string) : Res string ScriptResult :=
  match interp script resp body with
  | Err e => Err e
  | Ok r =>
      Ok (if MaxErrorMessageSize <? Z.of_nat (String.length (sr_Message r))
          then r{{sr_Message := String.substring 0 (Z.to_nat MaxErrorMessageSize) (sr_Message r) +:+ "..."}} else r)
  end.

Definition postScriptDo (interp : interpreter) (script : string) (body : string) (resp : option response) : Res string ScriptResult :=
  match resp with
  | Some r =>
      if (script =? "")%string then Ok (mkScript false "" ∅)
      else match runPipeline interp script r body with
           | Err e => Err ("run pipeline failed: " +:+ e)
           | Ok x => Ok x
           end
  | None => Ok (mkScript false "" ∅)
  end.

(** ** The task *)

(** [reqBody]: nil, a new empty one, or the one of the options. *)
Inductive reqbody := RBNil | RBNew (b : HTTPOptBody) | RBOption.

Record http_raw := mkHttpRaw {
  hr_URL : string; hr_SuccessWhen : list HTTPSuccess; hr_AdvanceOptions : option HTTPAdvanceOption
}.

Record HTTPTask := mkHTTP {
  http_task : Task;
  http_URL : string; Method : string; PostScript : string; http_Logic : string;
  http_SuccessWhen : list HTTPSuccess; AdvanceOptions : option HTTPAdvanceOption;
  cli : option client; resp : option response; http_req : bool; reqHeader : option tagmap; reqBody : reqbody;
  respBody : option string; http_reqCost : Z; http_reqError : string;
  postScriptResult : option ScriptResult; bodyBuffer : option string;
  dnsParseTime : spec_float; connectionTime : spec_float; sslTime : spec_float; ttfbTime : spec_float;
  downloadTime : spec_float;
  http_destIP : string; http_rawTask : option http_raw; http_NotBefore : Z; http_NotAfter : Z;
  protocol : string; httpTimeout : Z; http_tls : tlsConfig
}.

Definition empty_body : HTTPOptBody := mkBody "" "" [] ∅ "".

(** The body that [reqBody] points to. *)
Definition the_body (t : HTTPTask) : option HTTPOptBody :=
  match reqBody t with
  | RBNil => None
  | RBNew b => Some b
  | RBOption => o ← AdvanceOptions t; RequestBody o
  end.

Definition set_RequestBody (b : HTTPOptBody) (t : HTTPTask) : HTTPTask :=
  t{{AdvanceOptions ::= option_map (fun o => o{{RequestBody := Some b}})}}.

Definition reset_bodyType (t : HTTPTask) : HTTPTask :=
  match reqBody t with
  | RBNil => t
  | RBNew b => t{{reqBody := RBNew b{{bodyType := BodyType b}}}}
  | RBOption =>
      match the_body t with Some b => set_RequestBody b{{bodyType := BodyType b}} t | None => t end
  end.

Definition http_clear (t : HTTPTask) : HTTPTask :=
  reset_bodyType t{{dnsParseTime := fzero; connectionTime := fzero; sslTime := fzero; downloadTime := fzero;
    ttfbTime := fzero; http_reqCost := 0; resp := None; respBody := Some ""; http_reqError := "";
    bodyBuffer := None; http_NotBefore := 0; http_NotAfter := 0; http_destIP := ""}}.

(** What the client reports of an exchange: the trace, the response and the error; for
    HTTP/3 the certificate of the response; what was read of the body, and the error; times. *)
Record http_answer := mkAnswer {
  an_dns : option spec_float; an_connect : option (spec_float * string); an_ssl : option (spec_float * option (Z * Z));
  an_first : option spec_float;
  an_resp : option response; an_err : option string; an_do_time : spec_float; an_tls : option (Z * Z);
  an_body : string * option string; an_cost : Z; an_download : spec_float
}.

Record http_net := mkHttpNet {
  hn_parse : string -> Res string URL; hn_request : string -> URL -> option string;
  hn_do : client -> request -> http_answer; hn_interp : interpreter
}.

Section http.
Context `{Std}.

(** ** init *)

Definition isPlainHTTP (rawURL : string) : bool :=
  match ParseURL rawURL with Ok u => EqualFold (u_Scheme u) "http" | Err _ => false end.

Definition DefaultHTTPTimeout : Z := 60 * Second.

Definition http_timeout (opt : option HTTPAdvanceOption) : Res derr Z :=
  parse_timeout (match opt with Some o => RequestTimeout o | None => "" end) DefaultHTTPTimeout.

Definition http_tlsConfig (opt : option HTTPAdvanceOption) : Res derr tlsConfig :=
  let plain := mkTls false "" None [] in
  match opt with
  | Some o =>
      match CertificateOpt o with
      | Some c =>
          if IgnoreServerCertificateError c then Ok plain{{Insecure := true}}
          else if negb (CaCert c =? "")%string then
            match X509KeyPair (Certificate c) (PrivateKey c) with
            | Some e => Err (EMsg e)
            | None => Ok plain{{RootCA := CaCert c; ClientCert := Some (Certificate c, PrivateKey c)}}
            end
          else Ok plain
      | None => Ok plain
      end
  | None => Ok plain
  end.

Definition http_transport (protocol url : string) (c : tlsConfig) : transport :=
  if (protocol =? ProtocolHTTP3)%string then THttp3 c
  else if (protocol =? ProtocolHTTP2Only)%string then
    if isPlainHTTP url then THttp2Plain else THttp c{{NextProtos := ["h2"] }} true None
  else if (protocol =? ProtocolHTTP2)%string then THttp c true None
  else if (protocol =? ProtocolHTTP11)%string then THttp c false None
  else THttp c true None.

Definition body_types : list string :=
  ["text/plain"; "application/json"; "text/xml"; "application/x-www-form-urlencoded"; "text/html";
   "multipart/form-data"; ""; "None"].

Definition http_init_rule : SM HTTPSuccess derr unit :=
  c <~ sget ;;
  swhen (negb (hs_ResponseTime c =? "")%string)
    match ParseDuration (hs_ResponseTime c) with
    | Err e => sfail (EMsg e)
    | Ok du => smod (fun c => c{{hs_respTime := du}})
    end ;;;
  zoom hs_Header (fun l c => c{{hs_Header := l}}) (each_header genReg) ;;;
  zoom hs_Body (fun l c => c{{hs_Body := l}}) (each genReg) ;;;
  zoom hs_StatusCode (fun l c => c{{hs_StatusCode := l}}) (each genReg).

(** The options that change the client or the body. *)
Definition http_init_options (protocol : string) (o : HTTPAdvanceOption) : SM HTTPTask derr unit :=
  (match RequestOptions o with
   | Some r => swhen (negb (FollowRedirect r)) (smod (fun t => t{{cli ::= option_map (fun c => c{{cl_follow := false}})}}))
   | None => sret tt
   end) ;;;
  (match RequestBody o with
   | Some b =>
       if existsb (String.eqb (BodyType b)) body_types
       then smod (set_RequestBody b{{bodyType := BodyType b}})
       else sfail (EMsg ("invalid body type: `" +:+ BodyType b +:+ "'"))
   | None => sret tt
   end) ;;;
  match Proxy o with
  | Some p =>
      if (protocol =? ProtocolHTTP3)%string then sfail (EMsg "HTTP/3 does not support proxy configuration")
      else match ParseURL (px_URL p) with
           | Err e => sfail (EMsg e)
           | Ok _ =>
               smod (fun t => t{{cli ::= option_map (fun c =>
                 match cl_Transport c with
                 | THttp tc f _ => c{{cl_Transport := THttp tc f (Some (px_URL p))}}
                 | _ => c
                 end)}})
           end
  | None => sret tt
  end.

Definition http_init : SM HTTPTask derr unit :=
  t <~ sget ;;
  match http_timeout (AdvanceOptions t) with
  | Err e => sfail e
  | Ok d =>
      match http_tlsConfig (AdvanceOptions t) with
      | Err e => sfail e
      | Ok tc =>
          let protocol' := ToLower (getProtocol (AdvanceOptions t)) in
          smod (fun t => t{{protocol := protocol'; httpTimeout := d; http_tls := tc;
                            cli := Some (mkClient d (http_transport protocol' (http_URL t) tc) true)}}) ;;;
          (match AdvanceOptions t with Some o => http_init_options protocol' o | None => sret tt end) ;;;
          (match http_SuccessWhen t with
           | [] => if (PostScript t =? "")%string then sfail (EMsg "no any check rule") else sret tt
           | _ => zoom http_SuccessWhen (fun l t => t{{http_SuccessWhen := l}}) (each http_init_rule)
           end)
      end
  end.

Definition http_check (t : HTTPTask) : option derr :=
  match the_body t with
  | Some b =>
      if existsb (fun f => negb (f_Encoding f =? "base64")%string) (Files b)
      then Some (EMsg "only base64 encoding is supported for file encoding") else None
  | None => None
  end.

(** ** run *)

Fixpoint decode_files (l : list HTTPOptBodyFile) : Res derr (list (string * string * string)) :=
  match l with
  | [] => Ok []
  | f :: l' =>
      if negb (f_Encoding f =? "base64")%string then Err (EMsg "only base64 encoding is supported for file encoding")
      else match base64_decode (f_Content f) with
           | Err e => Err (EMsg ("failed to decode base64 file content: " +:+ e))
           | Ok s =>
               match decode_files l' with
               | Err e => Err e
               | Ok r => Ok ((f_Name f, f_OriginalFileName f, s) :: r)
               end
           end
  end.

(** The body of the request; a multipart one sets the content type of the options. *)
Definition getRequestBody (t : HTTPTask) : Res derr (option string) * HTTPTask :=
  match (o ← AdvanceOptions t; RequestBody o) with
  | None => (Ok None, t)
  | Some b =>
      match bodyBuffer t with
      | Some s => (Ok (Some s), t)
      | None =>
          if (BodyType b =? "multipart/form-data")%string then
            match decode_files (Files b) with
            | Err e => (Err e, t)
            | Ok files =>
                let '(ty, s) := multipart (Form b) files in
                (Ok (Some s), (set_RequestBody b{{bodyType := ty}} t){{bodyBuffer := Some s}})
            end
          else (Ok (Some (Body b)), t{{bodyBuffer := Some (Body b)}})
      end
  end.

(** The options of a request on its host and header, and the header that is reported. *)
Definition add_header (kv : string * string) (st : string * header * tagmap) : string * header * tagmap :=
  let '(host, h, rep) := st in let '(k, v) := kv in
  if ((k =? "Host") || (k =? "host"))%string then (v, h, <[k := v]> rep) else (host, header_Add k v h, <[k := v]> rep).

Definition SetBasicAuth (a : HTTPOptAuth) (h : header) : header :=
  <["Authorization" := ["Basic " +:+ basicAuth (ha_Username a) (ha_Password a)]]> h.

Definition request_options (r : HTTPOptRequest) (st : string * header * tagmap) : string * header * tagmap :=
  let '(host, h, rep) := fold_left (fun st kv => add_header kv st) (map_to_list (Headers r)) st in
  let h := if negb (Cookies r =? "")%string then header_Add "Cookie" (Cookies r) h else h in
  let h := match Auth r with
           | Some a => if negb ((ha_Username a =? "") && (ha_Password a =? ""))%string then SetBasicAuth a h else h
           | None => h
           end in
  (host, h, rep).

Definition setupAdvanceOpts (rq : request) (t : HTTPTask) : request * HTTPTask :=
  let t := t{{reqBody := RBNew empty_body; reqHeader := Some ∅}} in
  match AdvanceOptions t with
  | None => (rq, t)
  | Some o =>
      let st := (rq_Host rq, rq_Header rq, ∅) in
      let '(host, h, rep) := match RequestOptions o with Some r => request_options r st | None => st end in
      let '(h, rep, rb) :=
        match RequestBody o with
        | Some b =>
            if negb (BodyType b =? "")%string
            then (header_Add "Content-Type" (bodyType b) h, <["Content-Type" := BodyType b]> rep, RBOption)
            else (h, rep, RBOption)
        | None => (h, rep, reqBody t)
        end in
      let h := match Proxy o with
               | Some p => fold_left (fun h kv => header_Add (fst kv) (snd kv) h) (map_to_list (px_Headers p)) h
               | None => h
               end in
      (rq{{rq_Host := host; rq_Header := h}}, t{{reqHeader := Some rep; reqBody := rb}})
  end.

Definition http_fail (e : string) (t : HTTPTask) : HTTPTask := t{{http_reqError := e}}.

Definition extract_cert (c : option (Z * Z)) (t : HTTPTask) : HTTPTask :=
  match c with Some (nb, na) => t{{http_NotBefore := nb; http_NotAfter := na}} | None => t end.

(** What the trace of the client stores. *)
Definition store_trace (a : http_answer) (t : HTTPTask) : HTTPTask :=
  let t := match an_dns a with Some x => t{{dnsParseTime := x}} | None => t end in
  let t := match an_connect a with Some (x, ip) => t{{connectionTime := x; http_destIP := ip}} | None => t end in
  let t := match an_ssl a with Some (x, c) => extract_cert c t{{sslTime := x}} | None => t end in
  match an_first a with Some x => t{{ttfbTime := x}} | None => t end.

(** What HTTP/3 does not trace. *)
Definition store_http3 (a : http_answer) (t : HTTPTask) : HTTPTask :=
  if (protocol t =? ProtocolHTTP3)%string then
    match an_resp a with
    | Some _ =>
        let t := match an_first a with None => t{{ttfbTime := an_do_time a}} | Some _ => t end in
        if http_NotAfter t =? 0 then extract_cert (an_tls a) t else t
    | None => t
    end
  else t.

Definition resetHTTP3Client (t : HTTPTask) : HTTPTask :=
  let follow := match (o ← AdvanceOptions t; RequestOptions o) with Some r => FollowRedirect r | None => true end in
  t{{cli := Some (mkClient (httpTimeout t) (THttp3 (http_tls t)) follow)}}.

(** After the exchange: the response is read and handed to the script; a client that
    answers with neither a response nor an error makes the run panic. *)
Definition http_finish (net : http_net) (a : http_answer) (t : HTTPTask) : Res derr unit * HTTPTask :=
  match an_err a, an_resp a with
  | Some e, _ => (Ok tt, http_fail e t)
  | None, None => (Err EPanic, t)
  | None, Some r =>
      (Ok tt, if ((protocol t =? ProtocolHTTP2Only) && negb (rs_Proto r =? "HTTP/2.0"))%string
      then http_fail ("expected HTTP/2, but got " +:+ rs_Proto r) t
      else
        let '(s, err) := an_body a in
        let t := t{{respBody := Some s; http_reqCost := an_cost a}} in
        match err with
        | Some e => http_fail e t
        | None =>
            if negb (PostScript t =? "")%string then
              match postScriptDo (hn_interp net) (PostScript t) s (Some r) with
              | Err e => http_fail e t
              | Ok x => t{{postScriptResult := Some x; downloadTime := an_download a}}
              end
            else t{{downloadTime := an_download a}}
        end)
  end.

Definition http_send (net : http_net) (rq : request) (t : HTTPTask) : Res derr unit * HTTPTask :=
  let h := if negb ((protocol t =? ProtocolHTTP2Only) || (protocol t =? ProtocolHTTP3))%string
           then header_Add "Connection" "close" (rq_Header rq) else rq_Header rq in
  let '(opt, task') := GetOption (http_task t) in
  let t := t{{http_task := task'}} in
  let h := match opt !! "userAgent" with Some a => header_Add "User-Agent" a h | None => h end in
  let t := if (protocol t =? ProtocolHTTP3)%string then resetHTTP3Client t else t in
  match cli t with
  | None => (Err EPanic, t)
  | Some c =>
      let a := hn_do net c rq{{rq_Header := h}} in
      let t := (store_trace a t){{resp := an_resp a}} in
      http_finish net a (store_http3 a t)
  end.

Definition derr_text (e : derr) : string := match e with EMsg s => s | EPanic => "" end.

Definition http_run (net : http_net) : SM HTTPTask derr unit := fun t =>
  match hn_parse net (http_URL t) with
  | Err e => (Ok tt, http_fail e t)
  | Ok u =>
      match getRequestBody t with
      | (Err e, t) => (Ok tt, http_fail (derr_text e) t)
      | (Ok body, t) =>
          match hn_request net (Method t) u with
          | Some e => (Ok tt, http_fail e t{{http_req := false}})
          | None =>
              let '(rq, t) := setupAdvanceOpts (mkRequest (Method t) u (u_Host u) ∅ body) t{{http_req := true}} in
              http_send net rq t
          end
      end
  end.
(** ** Results *)

Definition http_time (t : HTTPTask) (d : Z) : list string * bool :=
  if (d <? http_reqCost t) && (0 <? d)
  then (["HTTP response time(" +:+ fmt_dur (http_reqCost t) +:+ ") larger than " +:+ fmt_dur d], false)
  else ([], 0 <? d).

Definition http_rule (t : HTTPTask) (r : response) (c : HTTPSuccess) : list string * bool :=
  both (header_rules "HTTP" (rs_Header r) (hs_Header c))
    (both (option_rules "response body" (default "" (respBody t)) (hs_Body c))
       (both (option_rules "HTTP status" (FormatInt (rs_StatusCode r)) (hs_StatusCode c))
          (http_time t (hs_respTime c)))).

Definition script_rule (x : option ScriptResult) : list string * bool :=
  match x with
  | Some x => if sr_IsFailed x then ([sr_Message x], false) else ([], true)
  | None => ([], false)
  end.

Definition http_checkResult (t : HTTPTask) : list string * bool :=
  match resp t with
  | None => ([], true)
  | Some r => both (all_rules (http_rule t r) (http_SuccessWhen t)) (script_rule (postScriptResult t))
  end.

Definition MaxBodySize : nat := 10240.

Definition http_tags (t : HTTPTask) : tagmap :=
  let url := match http_rawTask t with Some r => hr_URL r | None => http_URL t end in
  let tags := <["name" := Name (http_task t)]> (<["url" := url]> (<["status" := "FAIL"]>
    (<["method" := Method t]> (<["dest_ip" := http_destIP t]> ∅)))) in
  let tags := match resp t with
              | Some r => <["proto" := rs_Proto r]> tags
              | None => if http_req t then <["proto" := "HTTP/1.1"]> tags else tags
              end in
  let tags := match resp t with
              | Some r => <["status_code_class" := FormatInt (Z.quot (rs_StatusCode r) 100) +:+ "xx"]>
                            (<["status_code_string" := rs_Status r]> tags)
              | None => tags
              end in
  Tags (http_task t) ∪ tags.

Definition http_fields (t : HTTPTask) : fieldmap :=
  let fields := <["response_time" := FInt (micros (http_reqCost t))]>
    (<["response_body_size" := FInt (Z.of_nat (String.length (default "" (respBody t))))]>
    (<["success" := FInt (-1)]> ∅)) in
  match resp t with Some r => <["status_code" := FInt (rs_StatusCode r)]> fields | None => fields end.

Definition notSave (t : HTTPTask) : bool :=
  match (o ← AdvanceOptions t; Secret o) with Some b => b | None => false end.

(** The response is reported with a failure, unless the options forbid it. *)
Definition add_response (t : HTTPTask) (v : verdict) : verdict :=
  match v_fields v !! "fail_reason", resp t with
  | Some (FStr s), Some r =>
      if negb (notSave t) && negb (s =? "")%string then
        let body := default "" (respBody t) in
        let body := if (MaxBodySize <? String.length body)%nat then String.substring 0 MaxBodySize body +:+ "..." else body in
        v{{v_message := <["response_body" := FStr body]> (<["response_header" := FHeader (rs_Header r)]> (v_message v))}}
      else v
  | _, _ => v
  end.

Definition add_times (now : Z) (t : HTTPTask) (f : fieldmap) : fieldmap :=
  let f := <["response_download" := FFloat (downloadTime t)]> (<["response_ttfb" := FFloat (ttfbTime t)]>
    (<["response_ssl" := FFloat (sslTime t)]> (<["response_connection" := FFloat (connectionTime t)]>
    (<["response_dns" := FFloat (dnsParseTime t)]> f)))) in
  if 0 <? http_NotAfter t
  then <["ssl_cert_expires_in_days" := FInt (days_left (http_NotAfter t) now)]>
         (<["ssl_cert_not_after" := FInt (http_NotAfter t)]> f)
  else f.

Definition http_getResults (now : Z) (t : HTTPTask) : tagmap * fieldmap :=
  let message := <["request_body" := FBody (the_body t)]> (<["request_header" := FStrs (reqHeader t)]> ∅) in
  let '(reasons, succ) := add_error (http_reqError t) (http_checkResult t) in
  let v := judge (http_Logic t) succ (http_reqError t) reasons (fun m => m)
             (mkVerdict (http_tags t) (http_fields t) message) in
  let v := (add_response t v){{v_fields ::= add_times now t}} in
  let v := v{{v_message := <["status" := FStr (default "" (v_tags v !! "status"))]> (v_message v)}} in
  (v_tags v, add_message v).

(** ** Variables of scripts *)

Definition getVariableValue (interp : interpreter) (script name : string) (t : HTTPTask) : Res string string :=
  if ((script =? "") && (PostScript t =? ""))%string then Err "post_script is empty"
  else if (name =? "")%string then Err "task variable name is empty"
  else
    match respBody t, resp t with
    | Some body, Some r =>
        match (if (script =? "")%string then Ok (postScriptResult t)
               else match postScriptDo interp script body (Some r) with
                    | Ok x => Ok (Some x)
                    | Err e => Err ("run pipeline failed: " +:+ e)
                    end) with
        | Err e => Err e
        | Ok None => Err "pipeline result is empty"
        | Ok (Some x) =>
            match sr_Vars x !! name with
            | None => Err "task variable name not found"
            | Some value => Ok (default "<nil>" value)
            end
        end
    | _, _ => Err "response body or response is empty"
    end.

(** ** Templates *)

Definition http_render_rule (f : FuncMap) (raw : HTTPSuccess) : SM HTTPSuccess derr unit :=
  swrap (ewrap "render body failed")
    (zoom hs_Body (fun l c => c{{hs_Body := l}}) (each2 (renderSuccessOption f) (hs_Body raw))) ;;;
  render "response time" (hs_ResponseTime raw) f (fun s c => c{{hs_ResponseTime := s}}) ;;;
  swrap (ewrap "render header failed")
    (zoom hs_Header (fun l c => c{{hs_Header := l}}) (render_header_rules f (hs_Header raw))).

Definition in_advance (m : SM HTTPAdvanceOption derr unit) : SM HTTPTask derr unit :=
  in_opt AdvanceOptions (fun v t => t{{AdvanceOptions := v}}) m.

Definition renderRequestOptions (f : FuncMap) (raw : option HTTPOptRequest) : SM HTTPTask derr unit :=
  match raw with
  | None => sret tt
  | Some r =>
      in_advance (in_opt RequestOptions (fun v o => o{{RequestOptions := v}})
        (zoom Headers (fun m r => r{{Headers := m}}) (render_headers f (map_to_list (Headers r))) ;;;
         render "cookies" (Cookies r) f (fun s r => r{{Cookies := s}}) ;;;
         match Auth r with
         | None => sret tt
         | Some a =>
             in_opt Auth (fun v r => r{{Auth := v}})
               (render "auth username" (ha_Username a) f (fun s a => a{{ha_Username := s}}) ;;;
                render "auth password" (ha_Password a) f (fun s a => a{{ha_Password := s}}))
         end))
  end.

(** Each entry of the raw form replaces the one under its raw key. *)
Fixpoint render_form (f : FuncMap) (l : list (string * string)) : SM tagmap derr unit :=
  match l with
  | [] => sret tt
  | (k, v) :: l' =>
      match GetParsedString k f, GetParsedString v f with
      | Err e, _ | Ok _, Err e => sfail (ewrap "render form failed" e)
      | Ok key, Ok value => smod (fun m => <[key := value]> (delete k m)) ;;; render_form f l'
      end
  end.

Definition renderRequestBody (f : FuncMap) (raw : option HTTPOptBody) : SM HTTPTask derr unit :=
  match raw with
  | None => sret tt
  | Some b =>
      in_advance (in_opt RequestBody (fun v o => o{{RequestBody := v}})
        (render "request body" (Body b) f (fun s b => b{{Body := s}}) ;;;
         zoom Form (fun m b => b{{Form := m}}) (render_form f (map_to_list (Form b)))))
  end.

Definition renderAdvanceOptions (f : FuncMap) (raw : option HTTPAdvanceOption) : SM HTTPTask derr unit :=
  match raw with
  | None => sret tt
  | Some o =>
      swrap (ewrap "render request options failed") (renderRequestOptions f (RequestOptions o)) ;;;
      swrap (ewrap "render request body failed") (renderRequestBody f (RequestBody o))
  end.

(** [decode] decodes the JSON text of a task. *)
Definition http_renderTemplate (decode : string -> Res string HTTPTask) (f : FuncMap) : SM HTTPTask derr unit :=
  t <~ sget ;;
  (match http_rawTask t with
   | Some _ => sret tt
   | None =>
       match NewRawTask decode (http_task t) with
       | Err e => sfail (ewrap "new raw task failed" e)
       | Ok r => smod (fun t => t{{http_rawTask := Some (mkHttpRaw (http_URL r) (http_SuccessWhen r) (AdvanceOptions r))}})
       end
   end) ;;;
  t <~ sget ;;
  match http_rawTask t with
  | None => sfail (EMsg "raw task is nil")
  | Some raw =>
      render "url" (hr_URL raw) f (fun s t => t{{http_URL := s}}) ;;;
      swrap (ewrap "render success when failed")
        (zoom http_SuccessWhen (fun l t => t{{http_SuccessWhen := l}}) (each2 (http_render_rule f) (hr_SuccessWhen raw))) ;;;
      swrap (ewrap "render advance options failed") (renderAdvanceOptions f (hr_AdvanceOptions raw))
  end.

(** ** Addresses of HTTP/3 *)

Definition preferIPv4 (ips : list string) : list string :=
  match ips with
  | [] | [_] => ips
  | _ => List.filter To4 ips ++ List.filter (fun ip => negb (To4 ip)) ips
  end.

Definition HTTP3HandshakeTimeout : Z := 5 * Second.

(** The idle timeout of the handshake; zero is the default of the library. *)
Definition limitHTTP3HandshakeTimeout (idle : option Z) (httpTimeout : Z) : Z :=
  let idle := default 0 idle in
  if (0 <? httpTimeout) && (httpTimeout <? HTTP3HandshakeTimeout) then
    if httpTimeout <? idle then httpTimeout else idle
  else if idle =? 0 then idle
  else if HTTP3HandshakeTimeout <? idle then HTTP3HandshakeTimeout else idle.
End http.

#[export] Instance http_child `{Std} `{Json HTTPTask} : TaskChild HTTPTask http_net := {
  c_task := http_task; c_put := fun x t => t{{http_task := x}}; c_run := http_run; c_init := http_init;
  c_check := http_check; c_clear := http_clear; c_checkResult := http_checkResult;
  c_getResults := http_getResults; c_renderTemplate := http_renderTemplate Unmarshal;
  c_getRawTask := fun _ => raw_task "http"; c_setReqError := fun e t => t{{http_reqError := e}};
  c_getHostName := fun t => host_names (http_URL t);
  c_class := fun _ => ClassHTTP
}.
