(* ===== verification/DialMulti.v ===== *)
(** * Dial testing: tasks of several steps ([src/dialtesting/multi.go])

    A step waits or runs an HTTP task built from its text, with retries; what a script
    extracts is handed to the later steps.  The answers of the network are given per step
    and attempt.  Waiting and the intervals between attempts only take time. *)

From S2P Require Import Prelude GoNum GoStrings DialTask DialNet DialTls DialHttp.

Record MultiStepRetry := mkRetry { Retry : Z; Interval : Z }.

Record MultiExtractedVar := mkExtracted { x_Name : string; x_Field : string; x_Secure : bool; x_Value : string }.

Definition stepTypeHTTP : string := "http".
Definition stepTypeWait : string := "wait".

Record MultiStep := mkStep {
  s_Type : string; s_Name : string; AllowFailure : bool; s_Retry : option MultiStepRetry; TaskString : string;
  s_Value : Z; s_ExtractedVars : list MultiExtractedVar;
  s_result : option fieldmap; s_postScript : option ScriptResult
}.

Record MultiTask := mkMulti {
  multi_task : Task; Steps : list MultiStep;
  multi_postScript : option ScriptResult; duration : Z; extractedVars : list MultiExtractedVar;
  lastStep : Z; lastHTTPStep : Z
}.

(** Answers: per step and attempt the network, the hook before a run and the clock, with its readings when
    templates are rendered to initialise a task and when they are rendered to run it; per
    step the time it starts; the time of the whole run. *)
Record multi_net := mkMultiNet {
  mn_http : nat -> nat -> http_net; mn_hook : option (nat -> nat -> option string);
  mn_now : nat -> nat -> Z; mn_clock : nat -> nat -> bool -> Clock; mn_start : nat -> Z; mn_duration : Z
}.

Definition zero_http : HTTPTask :=
  mkHTTP zero_task "" "" "" "" [] None None None false None RBNil None 0 "" None None
    fzero fzero fzero fzero fzero "" None 0 0 "" 0 (mkTls false "" None []).

Definition multi_clear (t : MultiTask) : MultiTask :=
  t{{duration := 0; extractedVars := []; lastStep := -1; lastHTTPStep := -1;
     Steps ::= map (fun s => s{{s_result := None}})}}.

Definition is_OK (r : fieldmap) : bool := match r !! "status" with Some (FStr s) => (s =? "OK")%string | _ => false end.

(** A variable as a result shows it. *)
Definition x_mask (v : MultiExtractedVar) : MultiExtractedVar :=
  mkExtracted (x_Name v) (x_Field v) (x_Secure v) (if x_Secure v then "" else x_Value v).

Definition step_shown (s : MultiStep) : fieldmap * list MultiExtractedVar :=
  (default ∅ (s_result s), map x_mask (s_ExtractedVars s)).

(** [json.Marshal] of the results of the steps. *)
Class MarshalSteps := marshal_steps : list (fieldmap * list MultiExtractedVar) -> string.

Definition merge (result : fieldmap) (tags : tagmap) (fields : fieldmap) : fieldmap :=
  fields ∪ ((FStr <$> tags) ∪ result).

Section multi.
Context `{Std} `{Json HTTPTask}.

(** ** Results *)

Definition step_verdict (r : fieldmap) (st : tagmap * fieldmap) : tagmap * fieldmap :=
  let '(tags, fields) := st in
  let '(tags, fields) :=
    if is_OK r then (<["status" := "OK"]> tags, <["success" := FInt 1]> fields)
    else match r !! "fail_reason" with
         | Some FNil | None => (tags, fields)
         | Some v => (tags, <["fail_reason" := v]> fields)
         end in
  (tags, <["message" := default FNil (r !! "message")]> fields).

(** The last HTTP step decides; its index is one of the steps. *)
Definition multi_getResults `{MarshalSteps} (t : MultiTask) : tagmap * fieldmap :=
  let fields := <["success" := FInt (-1)]> (<["response_time" := FInt (micros (duration t))]>
    (<["last_step" := FInt (lastStep t)]> ∅)) in
  let tags := Tags (multi_task t) ∪ <["status" := "FAIL"]> (<["name" := Name (multi_task t)]> ∅) in
  let '(tags, fields) :=
    if -1 <? lastHTTPStep t then
      match (s ← Steps t !! Z.to_nat (lastHTTPStep t); s_result s) with
      | Some r => step_verdict r (tags, fields)
      | None => (tags, fields)
      end
    else (tags, fields) in
  (tags, <["steps" := FStr (marshal_steps (map step_shown (Steps t)))]> fields).

(** ** One HTTP step *)

(** What a script extracted, for the step and for the later ones. *)
Definition extracted (x : ScriptResult) (v : MultiExtractedVar) : MultiExtractedVar :=
  v{{x_Value := match sr_Vars x !! x_Field v with Some (Some s) => s | _ => "" end}}.

Definition shown (x : ScriptResult) (v : MultiExtractedVar) : MultiExtractedVar :=
  match sr_Vars x !! x_Field v with
  | Some (Some s) => if negb (x_Secure v) then v{{x_Value := s}} else v
  | _ => v
  end.

Definition extract (c : HTTPTask) (st : MultiTask * MultiStep) : MultiTask * MultiStep :=
  let '(t, step) := st in
  match postScriptResult c with
  | None => st
  | Some x =>
      (t{{extractedVars := extractedVars t ++ map (extracted x) (s_ExtractedVars step)}},
       step{{s_postScript := Some x; s_ExtractedVars := map (shown x) (s_ExtractedVars step)}})
  end.

Definition as_config (v : MultiExtractedVar) : ConfigVar :=
  mkVar "" "" (x_Name v) (x_Value v) "" (x_Secure v).

(** The task of an attempt: its options and variables. *)
Definition prepare (t : MultiTask) (opt : tagmap) (c : HTTPTask) : HTTPTask :=
  let task := SetOption (Some opt) (http_task c) in
  let task := fold_left (fun k v => AddExtractedVar (Some (as_config v)) k) (extractedVars t) task in
  c{{http_task := SetCustomVars (ConfigVars (multi_task t)) task}}.

(** The error of an attempt, the task after it and the result so far. *)
Definition attempt_run (clk : bool -> Clock) (hook : option (option string)) (net : http_net) (now : Z) (result : fieldmap) (c : HTTPTask)
    : option derr * HTTPTask * fieldmap :=
  match RenderTemplateAndInit (clk false) ∅ c with
  | (Err e, c) => (Some (ewrap "init http step task failed" e), c, result)
  | (Ok _, c) =>
      let '(err, c) := match Run (clk true) hook net c with
                       | (Err e, c) => (Some (ewrap "run http step task failed" e), c)
                       | (Ok _, c) => (None, c)
                       end in
      let '(tags, fields, c) := GetResults now c in
      (err, c, merge result tags fields)
  end.

Definition maxCount (step : MultiStep) : nat :=
  match s_Retry step with
  | Some r => if 0 <? Retry r then Z.to_nat (Retry r + 1) else 1
  | None => 1
  end.

(** The attempts from the [k]-th on, [n] at most: the error of the last one and the result
    that all of them wrote to; the step fails at once when its task cannot be built. *)
Fixpoint attempts (net : multi_net) (i k n : nat) (result : fieldmap)
    : SM (MultiTask * MultiStep) derr (option derr * option fieldmap) :=
  match n with
  | O => sret (None, Some result)
  | S n' => fun '(t, step) =>
      match NewTask zero_http (TaskString step) with
      | Err e => (Ok (Some (ewrap "new task failed" e), None), (t, step))
      | Ok c =>
          let '(opt, task') := GetOption (multi_task t) in
          let t := t{{multi_task := task'}} in
          let hook := option_map (fun h => h i k) (mn_hook net) in
          let '(err, c, result) := attempt_run (mn_clock net i k) hook (mn_http net i k) (mn_now net i k) result (prepare t opt c) in
          match err with
          | Some EPanic => (Err EPanic, (t, step))
          | _ =>
              let st := extract c (t, step) in
              if bool_decide (err = None) && is_OK result then (Ok (None, Some result), st)
              else match n' with
                   | O => (Ok (err, Some result), st)
                   | S _ => attempts net i (S k) n' result st
                   end
          end
      end
  end.

Definition reason_text (r : option fval) : string :=
  match r with Some (FStr s) => s | _ => "%!s(<nil>)" end.

Definition runHTTPStep (net : multi_net) (i : nat) : SM (MultiTask * MultiStep) derr (option derr * fieldmap) :=
  st <~ sget ;;
  x <~ attempts net i 0 (maxCount (snd st)) ∅ ;;
  let '(err, result) := x in
  let result' := default ∅ result in
  sret (match err with
        | Some e => Some e
        | None =>
            if negb (bool_decide (result' = ∅)) && negb (is_OK result')
            then Some (EMsg ("run HTTP step task failed: " +:+ reason_text (result' !! "fail_reason"))) else None
        end, result').

(** ** The run *)

Record progress := mkProgress { p_task : MultiTask; p_last : Z; p_lastHTTP : Z; p_failed : bool }.

Definition fresh_result (net : multi_net) (i : nat) (failed : bool) (s : MultiStep) : fieldmap :=
  let r := <["type" := FStr (s_Type s)]> (<["allow_failure" := FBool (AllowFailure s)]> (<["task" := FStr (TaskString s)]> ∅)) in
  if failed then r else <["task_start_time" := FInt (mn_start net i)]> r.

(** The name, method and URL of a step that is not run. *)
Definition skipped (s : MultiStep) (r : fieldmap) : fieldmap :=
  match NewTask zero_http (TaskString s) with
  | Err _ => r
  | Ok c => <["name" := FStr (Name (http_task c))]> (<["method" := FStr (Method c)]> (<["url" := FStr (http_URL c)]> r))
  end.

(** One step, its result first of all; [last] tells the last one. *)
Definition run_step (net : multi_net) (i : nat) (last : bool) (p : progress) (s : MultiStep)
    : Res derr progress * MultiStep :=
  let r := fresh_result net i (p_failed p) s in
  let p := if p_failed p then p else p{{p_last := Z.of_nat i}} in
  if (s_Type s =? stepTypeHTTP)%string then
    if p_failed p then (Ok p, s{{s_result := Some (skipped s r)}})
    else
      match runHTTPStep net i (p_task p, s{{s_result := Some r}}) with
      | (Err e, (t, s)) => (Err e, s)
      | (Ok (err, result), (t, s)) =>
          let r := result ∪ r in
          let r := match err with
                   | Some e => <["fail_reason" := FStr ("run task failed: " +:+ derr_text e)]> r
                   | None => r
                   end in
          let failed := match err with Some _ => negb (AllowFailure s) | None => false end in
          let t := if last then t{{multi_postScript := s_postScript s}} else t in
          (Ok (mkProgress t (p_last p) (Z.of_nat i) failed), s{{s_result := Some r}})
      end
  else if (s_Type s =? stepTypeWait)%string then
    (Ok p, s{{s_result := Some (<["value" := FInt (s_Value s)]> r)}})
  else (Err (EMsg "step type should be wait or http"), s{{s_result := Some r}}).

Fixpoint run_steps (net : multi_net) (i : nat) (p : progress) (l : list MultiStep) : Res derr progress * list MultiStep :=
  match l with
  | [] => (Ok p, [])
  | s :: l' =>
      match run_step net i (match l' with [] => true | _ => false end) p s with
      | (Err e, s) => (Err e, s :: l')
      | (Ok p, s) => let '(r, l'') := run_steps net (S i) p l' in (r, s :: l'')
      end
  end.

(** After an error of a step type the fields that [clear] reset stay as they are. *)
Definition multi_run (net : multi_net) : SM MultiTask derr unit := fun t =>
  match Steps t with
  | [] => (Err (EMsg "no steps found"), t)
  | l =>
      match run_steps net 0 (mkProgress t (-1) (-1) false) l with
      | (Err e, l) => (Err e, t{{Steps := l}})
      | (Ok p, l) =>
          (Ok tt, (p_task p){{Steps := l; duration := mn_duration net; lastStep := p_last p; lastHTTPStep := p_lastHTTP p}})
      end
  end.

(** ** check *)

Definition check_retry (r : MultiStepRetry) : option derr :=
  if (Retry r <? 0) || (5 <? Retry r) then Some (EMsg "retry should be in 0 ~ 5")
  else if (Interval r <? 0) || (5000 <? Interval r) then Some (EMsg "retry interval should be in 0 ~ 5000")
  else None.

Definition check_http (s : MultiStep) : option derr :=
  if (TaskString s =? "")%string then Some (EMsg "http step task should not be empty")
  else
    match NewTask zero_http (TaskString s) with
    | Err e => Some (ewrap "new task failed" e)
    | Ok c =>
        match fst (CheckTask c) with
        | Err e => Some (ewrap "check task failed" e)
        | Ok _ =>
            match List.find (fun v => negb (isValidVariableName (x_Name v))) (s_ExtractedVars s) with
            | Some v => Some (EMsg ("invalid variable name " +:+ x_Name v))
            | None => None
            end
        end
    end.

Definition check_step (s : MultiStep) : option derr :=
  match s_Retry s ≫= check_retry with
  | Some e => Some e
  | None =>
      if (s_Type s =? stepTypeWait)%string then
        if (s_Value s <=? 0) || (180 <? s_Value s) then Some (EMsg "wait step value should be in 1 ~ 180") else None
      else if (s_Type s =? stepTypeHTTP)%string then check_http s
      else Some (EMsg "step type should be wait or http")
  end.

Fixpoint multi_getHostName (l : list MultiStep) : Res string (list string) :=
  match l with
  | [] => Ok []
  | s :: l' =>
      if (s_Type s =? stepTypeHTTP)%string then
        match NewTask zero_http (TaskString s) with
        | Err e => Err ("new task failed: " +:+ derr_text e)
        | Ok c =>
            match c_getHostName c with
            | Err e => Err ("get host name failed: " +:+ e)
            | Ok v => match multi_getHostName l' with Err e => Err e | Ok r => Ok (v ++ r) end
            end
        end
      else multi_getHostName l'
  end.

Definition multi_check (t : MultiTask) : option derr := head (omap check_step (Steps t)).
End multi.

#[export] Instance multi_child `{Std} `{Json HTTPTask} `{Json MultiTask} `{MarshalSteps} : TaskChild MultiTask multi_net := {
  c_task := multi_task; c_put := fun x t => t{{multi_task := x}}; c_run := multi_run; c_init := sret tt;
  c_check := multi_check; c_clear := multi_clear; c_checkResult := fun _ => ([], false);
  c_getResults := fun _ => multi_getResults; c_renderTemplate := fun _ => sret tt;
  c_getRawTask := fun _ => raw_task "multi"; c_setReqError := fun _ t => t;
  c_getHostName := fun t => multi_getHostName (Steps t); c_class := fun _ => ClassMulti
}.

(** [GetPostScriptVars]: of the two kinds that have a script. *)
Definition http_script_vars (t : HTTPTask) : gmap string (option string) :=
  match postScriptResult t with Some x => sr_Vars x | None => ∅ end.

Definition multi_script_vars (t : MultiTask) : gmap string (option string) :=
  match multi_postScript t with Some x => sr_Vars x | None => ∅ end.

(** ** Theorems *)

(** A step has been started: its result tells when. *)
Definition started (s : MultiStep) : bool := bool_decide (is_Some (default ∅ (s_result s) !! "task_start_time")).

Definition is_http (s : MultiStep) : bool := (s_Type s =? stepTypeHTTP)%string.

(** A step that ends the run, and one after which it goes on. *)
Definition stopper (s : MultiStep) : Prop :=
  is_http s = true /\ AllowFailure s = false /\
  exists e, default ∅ (s_result s) !! "fail_reason" = Some (FStr ("run task failed: " +:+ e)).

Definition quiet (s : MultiStep) : Prop :=
  is_http s = true -> AllowFailure s = false -> is_OK (default ∅ (s_result s)) = true.

(** Two networks answer a step alike. *)
Definition agree_at (net net' : multi_net) (i : nat) : Prop :=
  mn_http net i = mn_http net' i /\ option_map (fun h => h i) (mn_hook net) = option_map (fun h => h i) (mn_hook net') /\
  mn_now net i = mn_now net' i /\ mn_clock net i = mn_clock net' i /\ mn_start net i = mn_start net' i.

Section multi_thms.
Context `{Std} `{Json HTTPTask}.

(** *** One step *)

Lemma attempt_result clk hook net now result c c' result' :
  attempt_run clk hook net now result c = (None, c', result') -> result' <> ∅.
Proof.
  unfold attempt_run. destruct (RenderTemplateAndInit _ ∅ c) as [[[]|e] c1]; [|done].
  destruct (Run _ hook net c1) as [[[]|e] c2]; (destruct (GetResults now c2) as [[tags fields] c3] eqn:E); [|done].
  intros [= <- <-] M. unfold GetResults in E. destruct (c_getResults now c2) as [tags0 fields0], (getRawTask c2) as [raw c4].
  injection E as <- <- <-. apply (f_equal (lookup "task")) in M. unfold merge in M.
  rewrite lookup_union, lookup_insert_eq, lookup_empty in M. by destruct (((FStr <$> tags0) ∪ result) !! "task").
Qed.

Lemma extract_step c t s t' s' : extract c (t, s) = (t', s') -> s_Type s' = s_Type s /\ AllowFailure s' = AllowFailure s.
Proof. unfold extract. destruct (postScriptResult c); intros [= <- <-]; by destruct s. Qed.

(** Attempts keep the type of the step; when they end without an error, and there was one,
    the result is not empty. *)
Lemma attempts_spec net i n : forall k result t s err r t' s',
  attempts net i k n result (t, s) = (Ok (err, r), (t', s')) ->
  s_Type s' = s_Type s /\ AllowFailure s' = AllowFailure s /\ (err = None -> n <> 0%nat -> default ∅ r <> ∅).
Proof.
  induction n as [|n IH]; intros k result t s err r t' s' E; cbn [attempts] in E.
  { by injection E as <- <- <- <-. }
  destruct (NewTask zero_http (TaskString s)) as [c|e]; [|by injection E as <- <- <- <-].
  destruct (GetOption (multi_task t)) as [opt task'].
  destruct (attempt_run _ _ _ _ _) as [[err1 c1] result1] eqn:E1.
  assert (D : err1 = None -> result1 <> ∅) by (intros ->; by apply attempt_result in E1).
  destruct (extract c1 (_, s)) as [t1 s1] eqn:X in E. destruct (extract_step _ _ _ _ _ X) as [X1 X2].
  assert (F : (if bool_decide (err1 = None) && is_OK result1 then (Ok (None, Some result1), (t1, s1))
               else match n with
                    | O => (Ok (err1, Some result1), (t1, s1))
                    | S _ => attempts net i (S k) n result1 (t1, s1)
                    end) = (Ok (err, r), (t', s'))) by (by destruct err1 as [[]|]).
  destruct (bool_decide (err1 = None)) eqn:B; simpl in F.
  - apply bool_decide_eq_true in B. destruct (is_OK result1).
    + injection F as <- <- <- <-. auto.
    + destruct n as [|n]; [injection F as <- <- <- <-; auto|].
      destruct (IH _ _ _ _ _ _ _ _ F) as (I1 & I2 & I3). rewrite I1, I2, X1, X2. auto.
  - destruct n as [|n].
    + injection F as <- <- <- <-. split_and!; auto.
    + destruct (IH _ _ _ _ _ _ _ _ F) as (I1 & I2 & I3). rewrite I1, I2, X1, X2. auto.
Qed.

Lemma maxCount_pos s : maxCount s <> 0%nat.
Proof. unfold maxCount. destruct (s_Retry s) as [r|]; [|done]. destruct (Z.ltb_spec 0 (Retry r)); lia. Qed.

Lemma runHTTPStep_spec net i t s err result t' s' :
  runHTTPStep net i (t, s) = (Ok (err, result), (t', s')) ->
  s_Type s' = s_Type s /\ AllowFailure s' = AllowFailure s /\ (err = None -> is_OK result = true).
Proof.
  unfold runHTTPStep, sbind, sget, sret. simpl.
  destruct (attempts net i 0 (maxCount s) ∅ (t, s)) as [[[err1 r1]|e] [t1 s1]] eqn:E; [|done].
  destruct (attempts_spec _ _ _ _ _ _ _ _ _ _ _ E) as (A1 & A2 & A3).
  intros [= <- <- <- <-]. split_and!; [done|done|]. destruct err1 as [e|]; [done|].
  specialize (A3 eq_refl (maxCount_pos s)). rewrite bool_decide_eq_false_2 by done. simpl.
  by destruct (is_OK (default ∅ r1)).
Qed.

Lemma attempts_agree net net' i : agree_at net net' i ->
  forall n k result st, attempts net i k n result st = attempts net' i k n result st.
Proof.
  intros (A1 & A2 & A3 & A4 & _) n. induction n as [|n IH]; intros k result [t s]; simpl; [done|].
  rewrite A1, A3, A4. assert (Hh : option_map (fun h => h i k) (mn_hook net) = option_map (fun h => h i k) (mn_hook net')).
  { apply (f_equal (option_map (fun h => h k))) in A2. by destruct (mn_hook net), (mn_hook net'). }
  rewrite Hh. repeat (case_match; try done).
Qed.

Lemma run_step_agree net net' i last p s : agree_at net net' i -> run_step net i last p s = run_step net' i last p s.
Proof.
  intros A. assert (R : forall st, runHTTPStep net i st = runHTTPStep net' i st).
  { intros st. unfold runHTTPStep, sbind, sget. by rewrite (attempts_agree _ _ _ A). }
  unfold run_step, fresh_result. by rewrite R, (proj2 (proj2 (proj2 (proj2 A)))).
Qed.

(** After a failure the network is not asked. *)
Lemma run_step_skips net net' i last p s : p_failed p = true -> run_step net i last p s = run_step net' i last p s.
Proof. intros F. unfold run_step, fresh_result. by rewrite F, F. Qed.

Lemma run_step_failed net i last p s p' s' :
  p_failed p = true -> run_step net i last p s = (Ok p', s') -> p' = p /\ started s' = false.
Proof.
  intros F. unfold run_step, fresh_result, skipped. rewrite F, F.
  destruct (s_Type s =? stepTypeHTTP)%string; [|destruct (s_Type s =? stepTypeWait)%string; [|done]];
    intros [= <- <-]; (split; [done|]); apply bool_decide_eq_false; simpl; unfold constant;
    [destruct (NewTask _ _)|]; simpl; by rewrite !lookup_insert_ne by done.
Qed.

Lemma run_step_spec net i last p s p' s' :
  p_failed p = false -> run_step net i last p s = (Ok p', s') ->
  started s' = true /\ p_last p' = Z.of_nat i /\ is_http s' = is_http s /\
  p_lastHTTP p' = (if is_http s then Z.of_nat i else p_lastHTTP p) /\
  (if p_failed p' then stopper s' else quiet s').
Proof.
  destruct p as [pt pl ph pf]. simpl. intros ->. unfold run_step, is_http. simpl.
  destruct (String.eqb_spec (s_Type s) stepTypeHTTP) as [Ty|Ty].
  - destruct (runHTTPStep net i _) as [[[err result]|e] [t1 s1]] eqn:E; [|done].
    destruct (runHTTPStep_spec _ _ _ _ _ _ _ _ E) as (S1 & S2 & S3).
    change (s_Type s1 = s_Type s) in S1. rewrite Ty in S1.
    intros [= <- <-]. unfold is_http, stopper, quiet, is_http.
    destruct s1 as [ty nm af rt ts vl ev rs ps]. simpl in *. unfold constant. rewrite S1.
    split_and!; [|done..|].
    + apply bool_decide_eq_true. simpl. destruct err; [rewrite lookup_insert_ne by done|];
        (rewrite lookup_union, lookup_insert_eq; by destruct (result !! "task_start_time")).
    + destruct err as [e|].
      * destruct af; simpl; [done|]. split_and!; [done|done|]. eexists. apply lookup_insert_eq.
      * specialize (S3 eq_refl). intros _ _. unfold is_OK in *. simpl. rewrite lookup_union.
        destruct (result !! "status") as [v|]; [|done]. by destruct (_ !! "status").
  - destruct (s_Type s =? stepTypeWait)%string; [|done]. intros [= <- <-].
    apply String.eqb_neq in Ty. unfold quiet, is_http. destruct s. simpl in *. rewrite Ty. done.
Qed.

(** *** The run *)

Lemma run_steps_failed net l : forall i p p' l',
  p_failed p = true -> run_steps net i p l = (Ok p', l') ->
  p' = p /\ length l' = length l /\ Forall (fun s => started s = false) l' /\
  forall net', run_steps net' i p l = (Ok p', l').
Proof.
  induction l as [|s l IH]; intros i p p' l' F E; simpl in *; [by injection E as <- <-|].
  destruct (run_step net i _ p s) as [[p1|e] s1] eqn:E1; [|done].
  destruct (run_step_failed _ _ _ _ _ _ _ F E1) as [-> S1].
  destruct (run_steps net (S i) p l) as [r l1] eqn:E2. injection E as -> <-.
  destruct (IH _ _ _ _ F E2) as (-> & I1 & I2 & I3). split_and!; [done|simpl; congruence|by constructor|].
  intros net'. rewrite (run_step_skips net' net _ _ _ _ F), E1. by rewrite I3.
Qed.

(** The index of the last HTTP step of a list that starts at [i]. *)
Fixpoint last_http (i acc : Z) (l : list MultiStep) : Z :=
  match l with [] => acc | s :: l' => last_http (i + 1) (if is_http s then i else acc) l' end.

(** How a run goes: [m] steps are started, the last of them stops it or is the last one. *)
Lemma run_steps_spec net l : forall i p p' l',
  p_failed p = false -> run_steps net i p l = (Ok p', l') ->
  exists m, (m <= length l)%nat /\ length l' = length l /\ (l <> [] -> 1 <= m)%nat /\
    (m <> 0%nat -> p_last p' = Z.of_nat i + Z.of_nat m - 1) /\
    (forall j s, l' !! j = Some s -> started s = bool_decide (j < m)%nat) /\
    ((m < length l)%nat -> exists s, l' !! (m - 1)%nat = Some s /\ stopper s) /\
    (forall j s, (S j < m)%nat -> l' !! j = Some s -> quiet s) /\
    p_lastHTTP p' = last_http (Z.of_nat i) (p_lastHTTP p) (take m l') /\
    (forall net', (forall j, (j < m)%nat -> agree_at net net' (i + j)) -> run_steps net' i p l = (Ok p', l')).
Proof.
  induction l as [|s l IH]; intros i p p' l' F E; simpl in *.
  { injection E as <- <-. exists 0%nat. split_and!; try done; lia. }
  destruct (run_step net i _ p s) as [[p1|e] s1] eqn:E1; [|done].
  destruct (run_step_spec _ _ _ _ _ _ _ F E1) as (S1 & S2 & S3 & S4 & S5).
  destruct (run_steps net (S i) p1 l) as [r l1] eqn:E2. injection E as -> <-.
  destruct (p_failed p1) eqn:F1.
  - destruct (run_steps_failed _ _ _ _ _ _ F1 E2) as (-> & L1 & L2 & L3). exists 1%nat.
    split_and!; simpl; try done; try lia.
    + intros [|j] s' Hj; simpl in Hj; [by injection Hj as <-|].
      rewrite bool_decide_eq_false_2 by lia. by apply (Forall_lookup_1 _ _ _ _ L2 Hj).
    + intros _. by exists s1.
    + by rewrite S4, S3.
    + intros net' A. rewrite <- (run_step_agree net net') by (rewrite <- (Nat.add_0_r i); apply A; lia). by rewrite E1, L3.
  - destruct (IH _ _ _ _ F1 E2) as (m & M1 & M2 & M3 & M4 & M5 & M6 & M7 & M8 & M9). exists (S m).
    split_and!; simpl; try done; try lia.
    + intros _. destruct m as [|m]; [|rewrite M4 by done; lia].
      destruct l; [|exfalso; assert (1 <= 0)%nat by (apply M3; done); lia].
      injection E2 as <- <-. rewrite S2. lia.
    + intros [|j] s' Hj; simpl in Hj; [by injection Hj as <-|].
      rewrite (M5 _ _ Hj). apply bool_decide_ext. lia.
    + intros Hm. destruct M6 as (s' & Hs & St); [lia|]. exists s'.
      destruct m as [|m]; [|by rewrite Nat.sub_succ, Nat.sub_0_r in *].
      exfalso. destruct l; simpl in *; [lia|]. assert (1 <= 0)%nat by (apply M3; done). lia.
    + intros [|j] s' Hj Hl; simpl in Hl; [by injection Hl as <-|]. apply (M7 j); [lia|done].
    + rewrite M8, S4, S3. f_equal. lia.
    + intros net' A. rewrite <- (run_step_agree net net') by (rewrite <- (Nat.add_0_r i); apply A; lia).
      rewrite E1, M9; [done|]. intros j Hj. replace (S i + j)%nat with (i + S j)%nat by lia. apply A. lia.
Qed.
(** *** The verdict *)

Lemma last_http_spec l : forall i acc,
  match list.last (List.filter is_http l) with
  | Some s => exists k, last_http i acc l = i + Z.of_nat k /\ l !! k = Some s
  | None => last_http i acc l = acc
  end.
Proof.
  induction l as [|s l IH]; intros i acc; simpl; [done|].
  specialize (IH (i + 1) (if is_http s then i else acc)). destruct (is_http s) eqn:Hs.
  - destruct (List.filter is_http l) as [|s' l'] eqn:Fl; simpl in *.
    + exists 0%nat. by rewrite IH, Z.add_0_r.
    + rewrite last_cons in *. destruct (list.last l'); destruct IH as (k & K1 & K2); exists (S k);
        (split; [rewrite K1; lia|done]).
  - destruct (list.last _) as [s'|]; [|done]. destruct IH as (k & K1 & K2). exists (S k). split; [rewrite K1; lia|done].
Qed.

(** The verdict of a run: the last HTTP step that was started ended with the status OK. *)
Definition multi_ok (t : MultiTask) : bool :=
  match list.last (List.filter is_http (take (Z.to_nat (lastStep t + 1)) (Steps t))) with
  | Some s => is_OK (default ∅ (s_result s))
  | None => false
  end.

Lemma step_verdict_spec r tags fields :
  fst (step_verdict r (tags, fields)) !! "status" = (if is_OK r then Some "OK" else tags !! "status") /\
  snd (step_verdict r (tags, fields)) !! "success" = (if is_OK r then Some (FInt 1) else fields !! "success").
Proof.
  unfold step_verdict. destruct (is_OK r); [split; by simplify_map_eq|].
  destruct (r !! "fail_reason") as [[]|]; split; by simplify_map_eq.
Qed.

(** The results follow the last HTTP step that was started. *)
Lemma multi_reports `{MarshalSteps} t k :
  lastHTTPStep t = last_http 0 (-1) (take k (Steps t)) -> lastStep t = Z.of_nat k - 1 ->
  fst (multi_getResults t) !! "status" =
    Some (if multi_ok t then "OK" else default "FAIL" (Tags (multi_task t) !! "status")) /\
  snd (multi_getResults t) !! "success" = Some (FInt (if multi_ok t then 1 else -1)).
Proof.
  intros K1 K2. unfold multi_getResults, multi_ok. rewrite K2. replace (Z.to_nat (Z.of_nat k - 1 + 1)) with k by lia.
  pose proof (last_http_spec (take k (Steps t)) 0 (-1)) as L. rewrite <- K1 in L.
  destruct (list.last _) as [s|].
  - destruct L as (j & J1 & J2). apply lookup_take_Some in J2 as [J2 _]. rewrite J1.
    destruct (Z.ltb_spec (-1) (0 + Z.of_nat j)); [|lia]. rewrite Z.add_0_l, Nat2Z.id, J2. cbn [mbind option_bind].
    destruct (s_result s) as [r|].
    + match goal with |- context [step_verdict r (?a, ?b)] =>
        pose proof (step_verdict_spec r a b) as [V1 V2]; destruct (step_verdict r (a, b)) as [tags fields] end.
      simpl in *. rewrite lookup_insert_ne by done. rewrite V1, V2. destruct (is_OK r); [done|].
      split; [by apply custom_tags; simplify_map_eq|by simplify_map_eq].
    + simpl. split; [by apply custom_tags; simplify_map_eq|by simplify_map_eq].
  - rewrite L. simpl. split; [by apply custom_tags; simplify_map_eq|by simplify_map_eq].
Qed.
(** C13: A run of several steps starts the steps in order.  It ends early exactly at the
    first HTTP step that fails, reported with its reason, and may not fail: every earlier
    one that may not fail ended with the status OK.  Later steps are not started and the
    network is not asked for them: other answers to them change nothing.  The results
    report success exactly when the last HTTP step that was started ended with OK. *)
Theorem multi_run_stops `{MarshalSteps} net t t' :
  multi_run net t = (Ok tt, t') ->
  exists m, (1 <= m <= length (Steps t))%nat /\ length (Steps t') = length (Steps t) /\
    lastStep t' = Z.of_nat m - 1 /\ lastHTTPStep t' = last_http 0 (-1) (take m (Steps t')) /\
    (forall j s, Steps t' !! j = Some s -> started s = bool_decide (j < m)%nat) /\
    ((m < length (Steps t))%nat -> exists s, Steps t' !! (m - 1)%nat = Some s /\ stopper s) /\
    (forall j s, (S j < m)%nat -> Steps t' !! j = Some s -> quiet s) /\
    (forall net', mn_duration net' = mn_duration net -> (forall j, (j < m)%nat -> agree_at net net' j) ->
       multi_run net' t = (Ok tt, t')) /\
    fst (multi_getResults t') !! "status" =
      Some (if multi_ok t' then "OK" else default "FAIL" (Tags (multi_task t') !! "status")) /\
    snd (multi_getResults t') !! "success" = Some (FInt (if multi_ok t' then 1 else -1)).
Proof.
  unfold multi_run. destruct (Steps t) as [|s0 l0] eqn:L; [done|]. rewrite <- L.
  destruct (run_steps net 0 _ (Steps t)) as [[p|e] l] eqn:E; [|done]. intros [= <-].
  destruct (run_steps_spec net (Steps t) 0 (mkProgress t (-1) (-1) false) p l eq_refl E) as (m & M1 & M2 & M3 & M4 & M5 & M6 & M7 & M8 & M9).
  assert (Hm : (1 <= m)%nat) by (apply M3; by rewrite L). exists m. destruct p as [pt pl ph pf]. simpl in *. unfold constant.
  rewrite M4 in * by lia. match goal with |- context [multi_getResults ?u] => destruct (multi_reports u m) as [R1 R2] end;
    simpl; [done|lia|]. split_and!; try done; try lia.
  intros net' D A. rewrite M9 by (intros j Hj; by apply A). simpl. unfold constant. by rewrite D.
Qed.

End multi_thms.

(** ** An instance *)

(** A standard library that is enough to run tasks: texts without templates, addresses and
    URLs as they are. *)
#[local] Instance demo_std : Std := {
  re_compile := fun _ => None; re_match := fun re s => has_substring s re; fmt_float := fun _ => "";
  fmt_dur := FormatInt; ParseDuration := fun _ => Ok Second; ParseCron := fun _ => None;
  parse_template := fun _ _ => None; execute := fun s _ => Ok s; Marshal := fun _ => Ok "{}"; GOOS := "linux";
  MarshalRoutes := fun _ => Ok "[]"; ParseIP := Some; To4 := fun _ => true; ParseURL := fun s => Ok (mkURL "http" s "");
  header_Get := fun h k => match h !! k with Some (v :: _) => v | _ => "" end;
  base64 := fun s => s; base64_decode := Ok; canonical := fun s => s; multipart := fun _ _ => ("", "");
  X509KeyPair := fun _ _ => None; AppendCertsFromPEM := fun s => negb (s =? "")%string;
  quote := fun s => "'" +:+ s +:+ "'"; json_string := fun s => "'" +:+ s +:+ "'"; MaxMsgSize := 1024
}.

(** A task is its URL: a request that expects the status 200. *)
#[local] Instance demo_json : Json HTTPTask := {
  Unmarshal := fun s => Ok zero_http{{http_URL := s; Method := "GET";
    http_SuccessWhen := [mkHttpSuccess [] "" 0 [] [mkOption "200" "" "" "" None None "" ""]] }};
  MarshalTask := http_URL
}.

#[local] Instance demo_marshal : MarshalSteps := fun _ => "".

(** The network answers each step with a status of its own. *)
Definition demo_answer (code : Z) : http_answer :=
  mkAnswer None None None None (Some (mkResponse "HTTP/1.1" code "" ∅)) None fzero None ("", None) 5000 fzero.

Definition demo_net (codes : list Z) : multi_net :=
  mkMultiNet (fun i _ => mkHttpNet ParseURL (fun _ _ => None) (fun _ _ => demo_answer (nth i codes 0)) (fun _ _ _ => Err ""))
    None (fun _ _ => 0) (fun _ _ _ _ _ => 0) (fun _ => 1) 9000.

Definition demo_step (ty : string) (allow : bool) : MultiStep := mkStep ty "" allow None "host" 1 [] None None.

(** Of four steps the first may fail and the third may not. *)
Definition demo_multi : MultiTask :=
  mkMulti zero_task [demo_step "http" true; demo_step "wait" false; demo_step "http" false; demo_step "http" false]
    None 0 [] (-1) (-1).

Definition demo_after : MultiTask := Eval vm_compute in snd (multi_run (demo_net [500; 0; 404; 200]) demo_multi).

Lemma demo_runs : multi_run (demo_net [500; 0; 404; 200]) demo_multi = (Ok tt, demo_after).
Proof. vm_compute. reflexivity. Qed.

(** The first failure is allowed, the second one ends the run with the step after it left
    out, and the run is a failure. *)
Lemma multi_run_stops_witness :
  exists m, lastStep demo_after = Z.of_nat m - 1 /\ m = 3%nat /\
    multi_run (demo_net [500; 0; 404; 500]) demo_multi = (Ok tt, demo_after) /\
    snd (multi_getResults demo_after) !! "success" = Some (FInt (-1)).
Proof.
  destruct (multi_run_stops _ _ _ demo_runs)
    as (m & _ & _ & L & _ & _ & _ & _ & A & _ & S).
  assert (Hm : m = 3%nat) by (change (lastStep demo_after) with 2 in L; lia).
  exists m. split_and!; [exact L|exact Hm| |rewrite S; vm_compute; reflexivity].
  apply A; [reflexivity|]. intros j Hj. rewrite Hm in Hj. by destruct j as [|[|[|j]]]; [..|lia].
Defined.

(** A step that fails and then succeeds keeps the reason of the failure beside its status. *)
Definition retry_net : multi_net :=
  mkMultiNet (fun _ k => mkHttpNet ParseURL (fun _ _ => None) (fun _ _ => demo_answer (nth k [500; 200] 0)) (fun _ _ _ => Err ""))
    None (fun _ _ => 0) (fun _ _ _ _ _ => 0) (fun _ => 1) 9000.

Lemma retry_keeps_reason :
  match run_step retry_net 0 true (mkProgress demo_multi (-1) (-1) false)
          (mkStep "http" "" false (Some (mkRetry 1 0)) "host" 1 [] None None) with
  | (Ok p, s) => p_failed p = false /\ is_OK (default ∅ (s_result s)) = true /\
                 default ∅ (s_result s) !! "fail_reason" = Some (FStr "HTTP status: expect to be `200', got `500'")
  | (Err _, _) => False
  end.
Proof. vm_compute. done. Qed.
