(* ===== verification/DialThms.v ===== *)
(** * Dial testing: what the kinds of tasks promise, and theorems about runs

    A kind of task evaluates a list of conditions ([d_conds]); its verdict is a function of
    the error of the request, of the conditions and of the logic of the task ([passes]).
    That contract is the class [DialLaws]; the kinds of [DialNet], [DialTls], [DialHttp] and
    [DialGrpc] implement it, and the lemmas about [Run] and [GetResults] are proved against it. *)

From S2P Require Import Prelude GoNum GoStrings FilterLex GoStrconv DialTask DialNet DialTls DialHttp DialMulti.

(** ** Outcomes of conditions *)

Definition holds (c : option string) : bool := match c with None => true | Some _ => false end.

(** The reasons of those that fail, and whether one holds. *)
Definition outcome (l : list (option string)) : list string * bool := (omap id l, existsb holds l).

Lemma checks_outcome {A} (f : A -> option string) l : checks f l = outcome (map f l).
Proof.
  unfold checks, outcome. f_equal.
  - induction l as [|x l IH]; csimpl; [done|]. destruct (f x); csimpl; by rewrite IH.
  - induction l as [|x l IH]; simpl; [done|]. by rewrite IH.
Qed.

Lemma both_outcome a b : both (outcome a) (outcome b) = outcome (a ++ b).
Proof. unfold both, outcome. simpl. by rewrite omap_app, existsb_app. Qed.

Lemma all_rules_outcome {A} (f : A -> list string * bool) (g : A -> list (option string)) l :
  (forall x, f x = outcome (g x)) -> all_rules f l = outcome (flat_map g l).
Proof.
  intros Hf. unfold all_rules. change ([], false) with (outcome []).
  assert (H : forall acc, fold_left (fun acc x => both acc (f x)) l (outcome acc) = outcome (acc ++ flat_map g l)).
  { induction l as [|x l IH]; intros acc; simpl; [by rewrite app_nil_r|].
    by rewrite Hf, both_outcome, IH, <- app_assoc. }
  apply (H []).
Qed.

Lemma no_reasons l : bool_decide (omap id l = []) = forallb holds l.
Proof. induction l as [|[s|] l IH]; csimpl; [done|done|apply IH]. Qed.

(** ** The contract *)

(** The verdict: no error of the request, and every condition holds; with the logic "or",
    one of them.  A [strict] kind wants a condition that holds in both cases. *)
Definition passes (strict : bool) (error logic : string) (conds : list (option string)) : bool :=
  (error =? "")%string &&
  (if (logic =? "or")%string then existsb holds conds
   else forallb holds conds && (negb strict || existsb holds conds)).

Class DialSpec (C : Type) := {
  d_strict : bool;
  d_error : C -> string;
  d_logic : C -> string;
  d_conds : C -> list (option string);
  d_reasons : C -> list string
}.

Definition d_ok {C} `{DialSpec C} (c : C) : bool := passes d_strict (d_error c) (d_logic c) (d_conds c).

(** The three entries of a result that report the verdict; [status0] is the status of a
    failure. *)
Definition reports (strict : bool) (error logic : string) (conds : list (option string)) (reasons : list string) (status0 : string)
    (r : tagmap * fieldmap) : Prop :=
  let ok := passes strict error logic conds in
  fst r !! "status" = Some (if ok then "OK" else status0) /\
  snd r !! "success" = Some (FInt (if ok then 1 else -1)) /\
  snd r !! "fail_reason" = if ok then None else Some (FStr (String.concat ";" reasons)).

Class DialLaws (C N : Type) `{TaskChild C N} `{DialSpec C} := {
  law_class (c : C) : c_class c <> ClassMulti;
  law_put x (c : C) : c_task (c_put x c) = x;
  law_set e (c : C) : d_error (c_setReqError e c) = e;
  law_conds (c : C) : c_checkResult c = outcome (d_conds c);
  law_reasons (c : C) : d_error c <> "" -> d_error c ∈ d_reasons c;
  law_reports now (c : C) :
    reports d_strict (d_error c) (d_logic c) (d_conds c) (d_reasons c) (default "FAIL" (Tags (c_task c) !! "status"))
      (c_getResults now c);
  law_vars now l (c : C) : c_getResults now (c_put (c_task c){{ConfigVars := l}} c) = c_getResults now c;
  law_raw l (c : C) s : c_getRawTask (c_put (c_task c){{ConfigVars := l}} c) s = c_getRawTask c s
}.

(** The same verdict in words of propositions: a condition that holds is [None]. *)
Definition passed (strict : bool) (error logic : string) (conds : list (option string)) : Prop :=
  error = "" /\
  if (logic =? "or")%string then None ∈ conds
  else Forall (fun c => c = None) conds /\ (strict = true -> None ∈ conds).

Lemma existsb_holds l : existsb holds l = true <-> None ∈ l.
Proof.
  rewrite existsb_exists. split; [|intros Hl; exists None; by rewrite <- list_elem_of_In].
  intros ([s|] & Hl & Hh); [done|]. by apply list_elem_of_In.
Qed.

Lemma passes_spec strict error logic conds : passes strict error logic conds = true <-> passed strict error logic conds.
Proof.
  unfold passes, passed. rewrite andb_true_iff, String.eqb_eq. apply and_iff_compat_l.
  destruct (logic =? "or")%string; [apply existsb_holds|]. rewrite andb_true_iff, orb_true_iff, existsb_holds.
  assert (forallb holds conds = true <-> Forall (fun c => c = None) conds) as ->.
  { rewrite forallb_forall, list.Forall_forall. setoid_rewrite list_elem_of_In.
    split; intros Hl x Hx; specialize (Hl x Hx); [by destruct x|by subst]. }
  destruct strict; simpl; naive_solver.
Qed.

(** What a run of a kind of task reports: a success exactly when the task has [passed], with
    the reasons otherwise; a hook that fails makes it a failure with its error as a reason. *)
Definition verdict_sound (C N : Type) `{Std} `{TaskChild C N} `{DialSpec C} (strict : bool) : Prop :=
  forall clk hook net (c c' : C) now tags fields c'',
  Run clk hook net c = (Ok tt, c') -> GetResults now c' = (tags, fields, c'') ->
  exists ok : bool, (ok = true <-> passed strict (d_error c') (d_logic c') (d_conds c')) /\
  tags !! "status" = Some (if ok then "OK" else default "FAIL" (Tags (c_task c') !! "status")) /\
  fields !! "success" = Some (FInt (if ok then 1 else -1)) /\
  fields !! "fail_reason" = (if ok then None else Some (FStr (String.concat ";" (d_reasons c')))) /\
  (forall e, hook = Some (Some e) -> e <> "" -> ok = false /\ e ∈ d_reasons c').

(** ** The verdict of [judge] *)

(** What is known of the reasons and of the flag of a check. *)
Definition reasons_of (error : string) (conds : list (option string)) (reasons : list string) (succ : bool) : Prop :=
  if (error =? "")%string then (reasons, succ) = outcome conds else error ∈ reasons.

Lemma add_error_reasons error conds reasons succ :
  add_error error (outcome conds) = (reasons, succ) -> reasons_of error conds reasons succ.
Proof.
  unfold add_error, reasons_of. destruct (error =? "")%string; simpl; intros [= <- <-]; [done|].
  apply elem_of_app. right. by apply list_elem_of_singleton.
Qed.

Lemma add_error_in error r : error <> "" -> error ∈ fst (add_error error r).
Proof.
  intros He. unfold add_error. destruct (String.eqb_spec error ""); [done|]. simpl.
  apply elem_of_app. right. by apply list_elem_of_singleton.
Qed.

Section judge.
Context `{Std}.
Variables (logic error : string) (conds : list (option string)) (reasons : list string) (succ : bool).
Variables (note : fieldmap -> fieldmap) (v : verdict).
Hypothesis R : reasons_of error conds reasons succ.

Let j := judge logic succ error reasons note v.

Lemma judge_cases :
  (passes false error logic conds = true /\ v_tags j = <["status" := "OK"]> (v_tags v) /\
   v_fields j = <["success" := FInt 1]> (v_fields v)) \/
  (passes false error logic conds = false /\ v_tags j = v_tags v /\
   v_fields j = <["fail_reason" := FStr (String.concat ";" reasons)]> (v_fields v)).
Proof using R.
  pose proof R as R'. unfold reasons_of in R'. unfold j, judge, passes.
  destruct (error =? "")%string; simpl; rewrite ?andb_true_r, ?andb_false_r.
  - injection R' as -> ->. destruct (logic =? "or")%string.
    + by destruct (existsb holds conds); [left|right].
    + rewrite no_reasons. by destruct (forallb holds conds); [left|right].
  - right. destruct (logic =? "or")%string; [done|].
    by rewrite bool_decide_eq_false_2 by (intros ->; by apply elem_of_nil in R').
Qed.

(** What is added to the verdict leaves the three entries. *)
Lemma judge_reports s0 (w : verdict -> tagmap * fieldmap) :
  v_tags v !! "status" = Some s0 -> v_fields v !! "success" = Some (FInt (-1)) -> v_fields v !! "fail_reason" = None ->
  fst (w j) = v_tags j -> snd (w j) !! "success" = v_fields j !! "success" ->
  snd (w j) !! "fail_reason" = v_fields j !! "fail_reason" ->
  reports false error logic conds reasons s0 (w j).
Proof using R.
  intros Ht Hs Hr W1 W2 W3. unfold reports. rewrite W1, W2, W3.
  destruct judge_cases as [(-> & -> & ->)|(-> & -> & ->)]; split_and!; by simplify_map_eq.
Qed.
End judge.

Lemma trace_fields_other `{Std} enabled routes f k :
  k <> "traceroute" -> k <> "hops" -> trace_fields enabled routes f !! k = f !! k.
Proof.
  intros H1 H2. unfold trace_fields. destruct enabled; [|done].
  destruct routes as [l|]; [destruct (MarshalRoutes l) as [d|e]; [destruct (d =? "")%string|]|];
    by rewrite !lookup_insert_ne by congruence.
Qed.

Lemma add_message_other `{Std} v k : k <> "message" -> add_message v !! k = v_fields v !! k.
Proof. intros Hk. unfold add_message. by rewrite lookup_insert_ne by congruence. Qed.

(** ** Conditions that the kinds share *)

Section conds.
Context `{Std}.

Definition time_conds (too_long : bool) (target : Z) (msg : string) : list (option string) :=
  if too_long then [Some msg] else if 0 <? target then [None] else [].

Lemma time_conds_outcome (b : bool) (d : Z) (msg : string) :
  (if b then ([msg], false) else ([], 0 <? d)) = outcome (time_conds b d msg).
Proof. unfold time_conds. by destruct b, (0 <? d). Qed.

Definition value_conds (prefix : string) (val : spec_float) (l : list ValueSuccess) : list (option string) :=
  map (fun v => option_map (String.append prefix) (vcheck v val)) l.

Definition option_conds (prompt val : string) (l : list SuccessOption) : list (option string) :=
  map (fun v => check v val prompt) l.

Definition hop_conds (enabled : bool) (routes : option (list Route)) (l : list ValueSuccess) : list (option string) :=
  if enabled then
    let hops := Z.of_nat (length (default [] routes)) in
    if hops =? 0 then [Some "traceroute failed with no hops"]
    else value_conds "traceroute hops check failed: " (float_of_int hops) l
  else [].

Lemma hop_outcome enabled routes l : hop_rules enabled routes l = outcome (hop_conds enabled routes l).
Proof.
  unfold hop_rules, hop_conds. destruct enabled; [|done].
  destruct (_ =? 0); [done|]. apply checks_outcome.
Qed.

Definition header_conds (prompt : string) (h : header) (rules : list (string * list SuccessOption)) : list (option string) :=
  flat_map (fun kv => option_conds (prompt +:+ " header `" +:+ fst kv +:+ "'") (header_Get h (fst kv)) (snd kv)) rules.

Lemma header_outcome prompt h rules : header_rules prompt h rules = outcome (header_conds prompt h rules).
Proof. apply all_rules_outcome. intros kv. apply checks_outcome. Qed.
End conds.

Definition script_conds (x : option ScriptResult) : list (option string) :=
  match x with Some x => [if sr_IsFailed x then Some (sr_Message x) else None] | None => [] end.

Lemma script_outcome x : script_rule x = outcome (script_conds x).
Proof. unfold script_conds, script_rule. destruct x as [x|]; [|done]. by destruct (sr_IsFailed x). Qed.

(** ** TCP *)

Section tcp.
Context `{Std} `{Json TCPTask}.

Definition tcp_time_conds (t : TCPTask) (v : TCPResponseTime) : list (option string) :=
  let cost := if IsContainDNS v then int64 (tcp_reqCost t + tcp_reqDNSCost t) else tcp_reqCost t in
  time_conds (targetTime v <=? cost) (targetTime v)
    ("TCP response time(" +:+ fmt_dur cost +:+ ") larger equal than " +:+ fmt_dur (targetTime v)).

Definition tcp_conds (t : TCPTask) : list (option string) :=
  flat_map (fun c => flat_map (tcp_time_conds t) (ts_ResponseTime c) ++
                     option_conds "response message" (tcp_responseMessage t) (ts_Message c) ++
                     hop_conds (tcp_EnableTraceroute t) (tcp_traceroute t) (default [] (ts_Hops c)))
    (tcp_SuccessWhen t).

Lemma tcp_outcome t : tcp_checkResult t = outcome (tcp_conds t).
Proof.
  apply all_rules_outcome. intros c. unfold tcp_rule, option_rules, option_conds.
  rewrite (all_rules_outcome _ (tcp_time_conds t)) by (intros v; apply time_conds_outcome).
  by rewrite checks_outcome, hop_outcome, !both_outcome.
Qed.

#[export] Instance tcp_spec : DialSpec TCPTask := {
  d_strict := false; d_error := tcp_reqError; d_logic := tcp_Logic; d_conds := tcp_conds;
  d_reasons := fun t => fst (add_error (tcp_reqError t) (outcome (tcp_conds t)))
}.

#[export] Instance tcp_laws : DialLaws TCPTask tcp_net.
Proof.
  split; try done; simpl.
  - apply tcp_outcome.
  - intros t. apply add_error_in.
  - intros _ t. unfold tcp_getResults. rewrite tcp_outcome.
    destruct (add_error (tcp_reqError t) (outcome (tcp_conds t))) as [reasons succ] eqn:E.
    apply (judge_reports _ _ _ _ _ _ _ (add_error_reasons _ _ _ _ E) _ (fun j => (v_tags j, add_message j))); simpl;
      rewrite ?add_message_other by done; try done.
    + apply custom_tags. by simplify_map_eq.
    + rewrite trace_fields_other by done. destruct (negb _); by simplify_map_eq.
    + rewrite trace_fields_other by done. destruct (negb _); by simplify_map_eq.
Qed.
End tcp.

(** ** ICMP *)

Section icmp.
Context `{Std} `{Json ICMPTask}.

Definition icmp_conds (t : ICMPTask) : list (option string) :=
  flat_map (fun c => map (icmp_time t) (is_ResponseTime c) ++
                     value_conds "packet_loss_percent check failed: " (packetLossPercent t) (is_Loss c) ++
                     value_conds "packets received check failed: " (float_of_int (recvPackets t)) (is_Packets c) ++
                     hop_conds (icmp_EnableTraceroute t) (icmp_traceroute t) (default [] (is_Hops c)))
    (icmp_SuccessWhen t).

Lemma icmp_outcome t : icmp_checkResult t = outcome (icmp_conds t).
Proof.
  apply all_rules_outcome. intros c. unfold icmp_rule, value_rules.
  by rewrite !checks_outcome, hop_outcome, !both_outcome.
Qed.

#[export] Instance icmp_spec : DialSpec ICMPTask := {
  d_strict := false; d_error := icmp_reqError; d_logic := icmp_Logic; d_conds := icmp_conds;
  d_reasons := fun t => fst (add_error (icmp_reqError t) (outcome (icmp_conds t)))
}.

#[export] Instance icmp_laws : DialLaws ICMPTask icmp_net.
Proof.
  split; try done; simpl.
  - apply icmp_outcome.
  - intros t. apply add_error_in.
  - intros _ t. unfold icmp_getResults. rewrite icmp_outcome.
    destruct (add_error (icmp_reqError t) (outcome (icmp_conds t))) as [reasons succ] eqn:E.
    apply (judge_reports _ _ _ _ _ _ _ (add_error_reasons _ _ _ _ E) _ (fun j => (v_tags j, add_message j))); simpl;
      rewrite ?add_message_other, ?trace_fields_other by done; try done.
    apply custom_tags. by simplify_map_eq.
Qed.
End icmp.

(** ** WebSocket *)

Section ws.
Context `{Std} `{Json WebsocketTask}.

Definition ws_time_conds (t : WebsocketTask) (v : TCPResponseTime) : list (option string) :=
  let cost := if IsContainDNS v then int64 (ws_reqCost t + ws_reqDNSCost t) else ws_reqCost t in
  time_conds ((targetTime v <? cost) && (0 <? targetTime v)) (targetTime v)
    ("response time(" +:+ fmt_dur cost +:+ ") larger than " +:+ fmt_dur (targetTime v)).

Definition ws_conds (t : WebsocketTask) : list (option string) :=
  flat_map (fun c => flat_map (ws_time_conds t) (ws_ResponseTime c) ++
                     option_conds "response message" (ws_responseMessage t) (ws_Message c) ++
                     (match ws_resp t with Some h => header_conds "Websocket" h (ws_Header c) | None => [] end))
    (ws_SuccessWhen t).

Lemma ws_outcome t : ws_checkResult t = outcome (ws_conds t).
Proof.
  apply all_rules_outcome. intros c. unfold ws_rule, option_rules, option_conds.
  rewrite (all_rules_outcome _ (ws_time_conds t)) by (intros v; apply time_conds_outcome).
  rewrite checks_outcome. destruct (ws_resp t) as [h|]; [rewrite header_outcome|change ([], false) with (outcome [])];
    by rewrite !both_outcome.
Qed.

#[export] Instance ws_spec : DialSpec WebsocketTask := {
  d_strict := false; d_error := ws_reqError; d_logic := ws_Logic; d_conds := ws_conds;
  d_reasons := fun t => fst (add_error (ws_reqError t) (outcome (ws_conds t)))
}.

Lemma ws_add_response_fields t v : v_fields (ws_add_response t v) = v_fields v.
Proof. unfold ws_add_response. repeat case_match; done. Qed.

Lemma ws_add_response_tags t v : v_tags (ws_add_response t v) = v_tags v.
Proof. unfold ws_add_response. repeat case_match; done. Qed.

#[export] Instance ws_laws : DialLaws WebsocketTask ws_net.
Proof.
  split; try done; simpl.
  - apply ws_outcome.
  - intros t. apply add_error_in.
  - intros now t. unfold ws_getResults. rewrite ws_outcome.
    destruct (add_error (ws_reqError t) (outcome (ws_conds t))) as [reasons succ] eqn:E.
    apply (judge_reports _ _ _ _ _ _ _ (add_error_reasons _ _ _ _ E) _
             (fun j => let j' := ws_add_response t j in (v_tags j', add_message j'))); simpl;
      rewrite ?add_message_other, ?ws_add_response_fields, ?ws_add_response_tags by done; try done.
    + apply custom_tags. by simplify_map_eq.
    + destruct (0 <? ws_NotAfter t); by simplify_map_eq.
    + destruct (0 <? ws_NotAfter t); by simplify_map_eq.
Qed.
End ws.

(** ** TLS *)

Section ssl.
Context `{Std} `{Json SSLTask}.

Definition ssl_conds (t : SSLTask) : list (option string) :=
  flat_map (fun c =>
    (if 0 <? ss_respTime c
     then time_conds (ss_respTime c <=? ssl_reqCost t) (ss_respTime c)
            ("SSL response time(" +:+ fmt_dur (ssl_reqCost t) +:+ ") larger equal than " +:+ fmt_dur (ss_respTime c))
     else []) ++
    value_conds "SSL certificate expires in days check failed: " (float_of_int (ssl_ExpiresInDays t)) (ss_ExpiresInDays c) ++
    value_conds "SSL certificate not after check failed: " (float_of_int (ssl_NotAfter t)) (ss_NotAfter c) ++
    option_conds "SSL certificate subject" (ssl_subject t) (ss_Subject c) ++
    option_conds "SSL certificate issuer" (ssl_issuer t) (ss_Issuer c) ++
    option_conds "TLS version" (ssl_version t) (ss_TLSVersion c))
    (ssl_SuccessWhen t).

Lemma ssl_time_outcome t d :
  ssl_time t d = outcome (if 0 <? d then time_conds (d <=? ssl_reqCost t) d
    ("SSL response time(" +:+ fmt_dur (ssl_reqCost t) +:+ ") larger equal than " +:+ fmt_dur d) else []).
Proof. unfold ssl_time, time_conds. destruct (0 <? d); [|done]. by destruct (d <=? ssl_reqCost t). Qed.

Lemma ssl_outcome t : ssl_checkResult t = outcome (ssl_conds t).
Proof.
  apply all_rules_outcome. intros c. unfold ssl_rule, value_rules, option_rules, option_conds.
  by rewrite !checks_outcome, ssl_time_outcome, !both_outcome.
Qed.

Definition ssl_reasons (t : SSLTask) : list string :=
  if negb (ssl_reqError t =? "")%string then [ssl_reqError t] else fst (outcome (ssl_conds t)).

#[export] Instance ssl_spec : DialSpec SSLTask := {
  d_strict := false; d_error := ssl_reqError; d_logic := ssl_Logic; d_conds := ssl_conds; d_reasons := ssl_reasons
}.

Lemma ssl_message_other v k : k <> "message" -> ssl_message v !! k = v_fields v !! k.
Proof.
  intros Hk. unfold ssl_message. destruct (Marshal _); [by apply add_message_other|].
  by rewrite lookup_insert_ne by congruence.
Qed.

Lemma add_str_other k v f k' : k <> k' -> add_str k v f !! k' = f !! k'.
Proof. intros Hk. unfold add_str. destruct (_ =? _)%string; [done|]. by rewrite lookup_insert_ne by congruence. Qed.

Lemma ssl_reasons_of t reasons succ :
  (if negb (ssl_reqError t =? "")%string then ([ssl_reqError t], false) else ssl_checkResult t) = (reasons, succ) ->
  reasons = ssl_reasons t /\ reasons_of (ssl_reqError t) (ssl_conds t) reasons succ.
Proof.
  rewrite ssl_outcome. unfold ssl_reasons, reasons_of. destruct (ssl_reqError t =? "")%string; simpl; intros [= <- <-].
  - done.
  - split; [done|]. by apply list_elem_of_singleton.
Qed.

#[export] Instance ssl_laws : DialLaws SSLTask ssl_net.
Proof.
  split; try done; simpl.
  - apply ssl_outcome.
  - intros t He. unfold ssl_reasons. destruct (String.eqb_spec (ssl_reqError t) ""); [done|].
    simpl. by apply list_elem_of_singleton.
  - intros _ t. unfold ssl_getResults.
    destruct (if negb _ then _ else _) as [reasons succ] eqn:E. destruct (ssl_reasons_of t _ _ E) as [-> Rs].
    apply (judge_reports _ _ _ _ _ _ _ Rs _
             (fun j => let j' := j{{v_message := <["status" := FStr (default "" (v_tags j !! "status"))]> (v_message j)}} in
                       (v_tags j', ssl_message j'))); simpl;
      rewrite ?ssl_message_other by done; try done.
    + apply custom_tags. destruct (String.eqb (ssl_ServerName t) ""); by simplify_map_eq.
    + destruct (0 <? ssl_NotAfter t), (0 <? ssl_NotBefore t);
        repeat first [rewrite add_str_other by done | rewrite lookup_insert_ne by done]; by simplify_map_eq.
    + destruct (0 <? ssl_NotAfter t), (0 <? ssl_NotBefore t);
        repeat first [rewrite add_str_other by done | rewrite lookup_insert_ne by done]; by simplify_map_eq.
Qed.
End ssl.

(** ** HTTP *)

Section http.
Context `{Std} `{Json HTTPTask}.

(** Without a response there is nothing that fails. *)
Definition http_conds (t : HTTPTask) : list (option string) :=
  match resp t with
  | None => [None]
  | Some r =>
      flat_map (fun c =>
        header_conds "HTTP" (rs_Header r) (hs_Header c) ++
        option_conds "response body" (default "" (respBody t)) (hs_Body c) ++
        option_conds "HTTP status" (FormatInt (rs_StatusCode r)) (hs_StatusCode c) ++
        time_conds ((hs_respTime c <? http_reqCost t) && (0 <? hs_respTime c)) (hs_respTime c)
          ("HTTP response time(" +:+ fmt_dur (http_reqCost t) +:+ ") larger than " +:+ fmt_dur (hs_respTime c)))
        (http_SuccessWhen t) ++
      script_conds (postScriptResult t)
  end.

Lemma http_rule_outcome t r c :
  http_rule t r c = outcome
    (header_conds "HTTP" (rs_Header r) (hs_Header c) ++
     option_conds "response body" (default "" (respBody t)) (hs_Body c) ++
     option_conds "HTTP status" (FormatInt (rs_StatusCode r)) (hs_StatusCode c) ++
     time_conds ((hs_respTime c <? http_reqCost t) && (0 <? hs_respTime c)) (hs_respTime c)
       ("HTTP response time(" +:+ fmt_dur (http_reqCost t) +:+ ") larger than " +:+ fmt_dur (hs_respTime c))).
Proof.
  unfold http_rule, option_rules, option_conds, http_time.
  by rewrite !checks_outcome, header_outcome, time_conds_outcome, !both_outcome.
Qed.

Lemma http_outcome t : http_checkResult t = outcome (http_conds t).
Proof.
  unfold http_checkResult, http_conds. destruct (resp t) as [r|]; [|done].
  rewrite (all_rules_outcome _ _ _ (http_rule_outcome t r)).
  rewrite script_outcome. apply both_outcome.
Qed.

#[export] Instance http_spec : DialSpec HTTPTask := {
  d_strict := false; d_error := http_reqError; d_logic := http_Logic; d_conds := http_conds;
  d_reasons := fun t => fst (add_error (http_reqError t) (outcome (http_conds t)))
}.

Lemma add_times_other now t f k :
  existsb (String.eqb k) ["response_download"; "response_ttfb"; "response_ssl"; "response_connection"; "response_dns";
                          "ssl_cert_expires_in_days"; "ssl_cert_not_after"] = false ->
  add_times now t f !! k = f !! k.
Proof.
  simpl. rewrite !orb_false_iff, !String.eqb_neq. intros Hk. destruct_and! Hk. unfold add_times.
  destruct (0 <? http_NotAfter t); by rewrite !lookup_insert_ne by congruence.
Qed.

Lemma add_response_fields t v : v_fields (add_response t v) = v_fields v.
Proof. unfold add_response. repeat case_match; done. Qed.

Lemma add_response_tags t v : v_tags (add_response t v) = v_tags v.
Proof. unfold add_response. repeat case_match; done. Qed.

#[export] Instance http_laws : DialLaws HTTPTask http_net.
Proof.
  split; try done; simpl.
  - apply http_outcome.
  - intros t. apply add_error_in.
  - intros now t. unfold http_getResults. rewrite http_outcome.
    destruct (add_error (http_reqError t) (outcome (http_conds t))) as [reasons succ] eqn:E.
    apply (judge_reports _ _ _ _ _ _ _ (add_error_reasons _ _ _ _ E) _
             (fun j => let j := (add_response t j){{v_fields ::= add_times now t}} in
                       let j := j{{v_message := <["status" := FStr (default "" (v_tags j !! "status"))]> (v_message j)}} in
                       (v_tags j, add_message j))); simpl;
      rewrite ?add_message_other by done; simpl;
      rewrite ?add_times_other by done.
    + apply custom_tags. destruct (resp t); [|destruct (http_req t)]; by simplify_map_eq.
    + unfold http_fields. destruct (resp t); by simplify_map_eq.
    + unfold http_fields. destruct (resp t); by simplify_map_eq.
    + apply add_response_tags.
    + exact (f_equal (lookup "success") (add_response_fields _ _)).
    + exact (f_equal (lookup "fail_reason") (add_response_fields _ _)).
Qed.
End http.

(** ** Runs and results of any kind *)

Section client.
Context `{Std} {C N : Type} `{TaskChild C N} `{DialSpec C} `{!DialLaws C N}.

Lemma results_split now (c : C) tags fields c' :
  GetResults now c = (tags, fields, c') ->
  tags = fst (c_getResults now c) /\
  (forall k, k <> "task" -> k <> "config_vars" -> fields !! k = snd (c_getResults now c) !! k) /\
  fields !! "config_vars" = Some (FVars (map mask (ConfigVars (c_task c)))).
Proof.
  unfold GetResults. destruct (c_getResults now c) as [tags0 fields0], (getRawTask c) as [raw c1].
  intros [= <- <- <-]. split_and!; [done| |by simplify_map_eq].
  intros k K1 K2. by rewrite !lookup_insert_ne by congruence.
Qed.

(** A hook that fails makes the run store its error, whatever the network would answer. *)
Lemma run_hook clk (e : string) net (c c' : C) :
  Run clk (Some (Some e)) net c = (Ok tt, c') -> d_error c' = e.
Proof.
  unfold Run, sbind, smod, sget. rewrite (proj2 (String.eqb_neq _ _) (law_class (Clear c))).
  destruct (fm (c_task (Clear c))) as [f|]; [destruct (swrap _ _ _) as [[[]|e'] c1]; [|done]|];
    intros [= <-]; apply law_set.
Qed.

Lemma d_ok_error (c : C) : d_error c <> "" -> d_ok c = false.
Proof. intros He. unfold d_ok, passes. by rewrite (proj2 (String.eqb_neq _ _) He). Qed.

(** The verdict of a kind that keeps its laws. *)
Lemma verdict_of_laws : verdict_sound C N d_strict.
Proof.
  intros clk hook net c c' now tags fields c'' HR HG. destruct (results_split _ _ _ _ _ HG) as (-> & Hf & _).
  destruct (law_reports now c') as (R1 & R2 & R3). rewrite !Hf by done. exists (d_ok c').
  split_and!; [apply passes_spec|exact R1|exact R2|exact R3|].
  intros e -> He. rewrite <- (run_hook _ _ _ _ _ HR) in *. split; [by apply d_ok_error|by apply law_reasons].
Qed.

(** The same variable but for a secret value. *)
Definition same_shown (v w : ConfigVar) : Prop :=
  v_Name v = v_Name w /\ v_Secure v = v_Secure w /\ (v_Secure v = false -> v_Value v = v_Value w).

Lemma same_mask l l' : Forall2 same_shown l l' -> map mask l = map mask l'.
Proof.
  induction 1 as [|v w l l' (E1 & E2 & E3) _ IH]; simpl; [done|]. rewrite IH. f_equal.
  unfold mask. rewrite E2 in E3. rewrite E1, E2. destruct (v_Secure w); [done|]. by rewrite E3.
Qed.

(** The values of secure configuration variables are not part of the results: tasks that
    differ only in them report the same. *)
Lemma secrets_unreported now l (c : C) :
  Forall2 same_shown (ConfigVars (c_task c)) l ->
  fst (GetResults now (c_put (c_task c){{ConfigVars := l}} c)) = fst (GetResults now c).
Proof.
  unfold GetResults, getRawTask. rewrite law_vars, law_put, law_raw. destruct (c_getResults now c) as [tags fields].
  destruct (c_task c). simpl. intros Hl. rewrite (same_mask _ _ Hl).
  destruct (_ =? "")%string; [|done]. by destruct (c_getRawTask c _).
Qed.
End client.

(** ** Statistics of pings *)

Lemma quot_between a n : 1 <= n -> (0 <= a -> 0 <= Z.quot a n <= a) /\ (a <= 0 -> a <= Z.quot a n <= 0).
Proof.
  intros Hn. split; intros Ha.
  - split; [apply Z.quot_pos; lia|]. apply Z.quot_le_upper_bound; nia.
  - rewrite <- (Z.opp_involutive a), Z.quot_opp_l by lia.
    assert (0 <= Z.quot (- a) n) by (apply Z.quot_pos; lia).
    assert (Z.quot (- a) n <= - a) by (apply Z.quot_le_upper_bound; nia). lia.
Qed.

Definition lowest (r : Z) (l : list Z) : Z := fold_left Z.min l r.
Definition highest (r : Z) (l : list Z) : Z := fold_left Z.max l r.

Lemma rtt_loop_bounds l : forall i st m2,
  0 <= i -> 0 <= MinRtt st -> MinRtt st <= AvgRtt st <= MaxRtt st -> MaxRtt st < 2 ^ 62 ->
  Forall (fun r => 0 <= r < 2 ^ 62) l ->
  let st' := fst (rtt_loop i st m2 l) in
  MinRtt st' = lowest (MinRtt st) l /\ MaxRtt st' = highest (MaxRtt st) l /\ MinRtt st' <= AvgRtt st' <= MaxRtt st' /\
  PacketsSent st' = PacketsSent st /\ PacketsRecv st' = PacketsRecv st.
Proof.
  induction l as [|r l IH]; intros i st m2 Hi H0 Ha Hm Hl; [done|].
  inversion Hl as [|? ? Hr Hl']; subst. cbn [rtt_loop].
  destruct (rtt_step i st m2 r) as [st1 m3] eqn:E.
  assert (S : MinRtt st1 = Z.min (MinRtt st) r /\ MaxRtt st1 = Z.max (MaxRtt st) r /\
              MinRtt st1 <= AvgRtt st1 <= MaxRtt st1 /\ PacketsSent st1 = PacketsSent st /\
              PacketsRecv st1 = PacketsRecv st).
  { destruct (quot_between (r - AvgRtt st) (i + 1)) as [Q1 Q2]; [lia|].
    destruct st as [loss sent recv mi av ma sd]. unfold rtt_step in E. simpl in *. injection E as <- _.
    destruct (Z.ltb_spec r mi); simpl; (destruct (Z.ltb_spec ma r); simpl; [try lia|]);
      rewrite (int64_small (r - _)) by (unfold in_int64; lia); unfold constant;
      revert Q1 Q2; generalize (Z.quot (r - av) (i + 1)); intros q Q1 Q2;
      (rewrite int64_small by (unfold in_int64; lia)); lia. }
  destruct S as (S1 & S2 & S3 & S4 & S5).
  destruct (IH (i + 1) st1 m3) as (T1 & T2 & T3 & T4 & T5); [lia|lia|lia|lia|done|].
  unfold lowest, highest in *. cbn [fold_left]. rewrite <- S1, <- S2, <- S4, <- S5. done.
Qed.

(** The answers to [n] pings from the [i]-th on. *)
Definition replies (doPing : nat -> Res string (option Z)) (i n : nat) : list Z :=
  omap (fun k => match doPing k with Ok r => r | Err _ => None end) (seq i n).

Lemma replies_S doPing i n :
  replies doPing i (S n) =
  match doPing i with Ok (Some r) => r :: replies doPing (S i) n | _ => replies doPing (S i) n end.
Proof. unfold replies. csimpl. by destruct (doPing i) as [[r|]|e]. Qed.

Lemma ping_loop_replies doPing n : forall i st rtts,
  (forall k, (i <= k < i + n)%nat -> exists r, doPing k = Ok r) ->
  exists st', ping_loop n i doPing st rtts = Ok (st', rtts ++ replies doPing i n) /\
    PacketsSent st' = PacketsSent st + Z.of_nat n /\
    PacketsRecv st' = PacketsRecv st + zlen (replies doPing i n) /\
    MinRtt st' = MinRtt st /\ AvgRtt st' = AvgRtt st /\ MaxRtt st' = MaxRtt st.
Proof.
  induction n as [|n IH]; intros i st rtts Hk; simpl.
  - exists st. unfold replies. unfold zlen. simpl. rewrite app_nil_r. repeat split; lia.
  - destruct (Hk i) as [r Hr]; [lia|]. rewrite replies_S, Hr.
    assert (Hk' : forall k, (S i <= k < S i + n)%nat -> exists r, doPing k = Ok r) by (intros; apply Hk; lia).
    destruct st as [loss sent recv mi av ma sd].
    destruct r as [r|]; simpl; unfold constant.
    + destruct (IH (S i) (mkPing loss (sent + 1) (recv + 1) mi av ma sd) (rtts ++ [r]) Hk') as (st' & -> & E1 & E2 & E3).
      exists st'. rewrite <- app_assoc. simpl in *. rewrite zlen_cons. split_and!; [done|lia|lia|apply E3..].
    + match goal with |- context [ping_loop n _ _ ?st _] => destruct (IH (S i) st rtts Hk') as (st' & -> & E1 & E2 & E3) end.
      exists st'. simpl in *. split_and!; [done|lia|lia|apply E3..].
Qed.

(** The number of pings that a count asks for. *)
Definition ping_count (count : Z) : Z := if count <=? 0 then 3 else count.

Lemma replies_count doPing i n : zlen (replies doPing i n) <= Z.of_nat n.
Proof.
  revert i. induction n as [|n IH]; intros i; [done|]. specialize (IH (S i)). rewrite replies_S.
  destruct (doPing i) as [[r|]|e]; rewrite ?zlen_cons; lia.
Qed.

Definition times_ok (st : pingStat) (l : list Z) : Prop :=
  match l with
  | [] => MinRtt st = 0 /\ AvgRtt st = 0 /\ MaxRtt st = 0
  | r :: l' => MinRtt st = lowest r l' /\ MaxRtt st = highest r l' /\ MinRtt st <= AvgRtt st <= MaxRtt st
  end.

Lemma ping_summary_bounds conv st l :
  MinRtt st = 0 -> AvgRtt st = 0 -> MaxRtt st = 0 -> Forall (fun r => 0 <= r < 2 ^ 62) l ->
  let st' := ping_summary conv st l in
  PacketsSent st' = PacketsSent st /\ PacketsRecv st' = PacketsRecv st /\ times_ok st' l.
Proof.
  intros M A X Hl. unfold ping_summary. destruct l as [|r l].
  - destruct st. simpl in *. destruct (0 <? _); done.
  - destruct (rtt_loop_bounds (r :: l) 0 st{{MinRtt := r; MaxRtt := r; AvgRtt := r}} fzero) as (B1 & B2 & B3 & B4 & B5);
      [lia|inversion Hl; subst; unfold constant in *; simpl in *; lia..|done|].
    destruct (rtt_loop _ _ _ _) as [[loss sent recv mi av ma sd] m2]. simpl in *.
    destruct (1 <? _); simpl; destruct (0 <? sent); simpl; unfold lowest, highest, constant in *; simpl in *;
      rewrite Z.min_id in B1; rewrite Z.max_id in B2; by destruct st.
Qed.

(** When no ping is an error, the statistics count every ping as sent and every reply
    as received, the shortest and the longest time are those of the replies, and the mean,
    which is computed in integers from one reply to the next, lies between them. *)
Theorem ping_statistics conv count doPing :
  let n := Z.to_nat (ping_count count) in let l := replies doPing 0 n in
  (forall k, (k < n)%nat -> exists r, doPing k = Ok r) -> Forall (fun r => 0 <= r < 2 ^ 62) l ->
  exists st, pingTarget conv count doPing = Ok st /\
    PacketsSent st = ping_count count /\ PacketsRecv st = zlen l /\ 0 <= PacketsRecv st <= PacketsSent st /\
    times_ok st l.
Proof.
  intros n l Hk Hl. unfold pingTarget. fold (ping_count count). fold n.
  destruct (ping_loop_replies doPing n 0 (mkPing fzero 0 0 0 0 0 0) []) as (st & E & E1 & E2 & E3 & E4 & E5).
  { intros k K. apply Hk. lia. }
  rewrite E. fold l in E2. simpl in *. fold l. pose proof (replies_count doPing 0 n) as Hc. fold l in Hc.
  assert (Hn : Z.of_nat n = ping_count count).
  { unfold n, ping_count. destruct (Z.leb_spec count 0); lia. }
  destruct (ping_summary_bounds conv st l E3 E4 E5 Hl) as (B1 & B2 & B3).
  exists (ping_summary conv st l). unfold zlen in *. split_and!; [done|lia|lia|lia|lia|done].
Qed.

(** ** Traces *)

(** A hop that the target answered. *)
Definition reached (ip : string) (r : Route) : bool := existsb (fun it => (ri_IP it =? ip)%string) (rt_Items r).

Definition hop_inv (ip : string) (n : nat) (h : hop) : Prop :=
  length (routeItems h) = n /\ 0 <= failed h <= Z.of_nat n /\
  isReply h = existsb (fun it => (ri_IP it =? ip)%string) (routeItems h) /\ 0 <= minCost h <= maxCost h.

Lemma hop_step_inv ip r n h : ip <> "*" -> hop_inv ip n h -> hop_inv ip (S n) (hop_step ip r h).
Proof.
  intros Hip (I1 & I2 & I3 & I4). destruct h as [rep items times mi ma fl]. unfold hop_step, hop_inv. simpl in *.
  destruct (tr_fail r); simpl; unfold constant.
  - rewrite length_app, existsb_app. cbn [existsb ri_IP length]. rewrite (proj2 (String.eqb_neq "*" ip)) by done.
    rewrite orb_false_r. split_and!; [lia|lia|lia|done|lia|lia].
  - destruct (From r =? ip)%string eqn:F, (Z.ltb_spec 0 (tr_Time r)); simpl; unfold constant;
      rewrite length_app, existsb_app; simpl; rewrite F, ?orb_true_r, ?orb_false_r;
      (split_and!; [lia|lia|lia|done|..]; try lia);
      repeat case_match; rewrite ?orb_true_iff, ?orb_false_iff, ?Z.eqb_eq, ?Z.eqb_neq, ?Z.ltb_lt, ?Z.ltb_ge in *; lia.
Qed.

Lemma hop_loop_inv ip send n : forall j h m h', ip <> "*" -> hop_inv ip m h ->
  hop_loop ip send n j h = Ok h' -> hop_inv ip (m + n) h'.
Proof.
  induction n as [|n IH]; intros j h m h' Hip Hi E; simpl in E.
  - injection E as <-. by rewrite Nat.add_0_r.
  - destruct (send j) as [r|e]; [|done]. rewrite <- Nat.add_succ_comm. eapply IH; [done|by apply hop_step_inv|exact E].
Qed.

(** A hop as it is reported: as many packets as were asked for, at most all of them lost. *)
Definition hop_ok (retry : Z) (r : Route) : Prop :=
  rt_Total r = retry /\ 0 <= rt_Failed r <= retry /\ zlen (rt_Items r) = retry.

Lemma startTrace_spec ip retry send n : forall i routes routes', ip <> "*" -> 0 <= retry ->
  startTrace ip retry send n i routes = Ok routes' ->
  exists new, routes' = routes ++ new /\ (length new <= n)%nat /\ (n <> 0%nat -> new <> []) /\ Forall (hop_ok retry) new /\
    (forall j r, new !! j = Some r -> (S j < length new)%nat -> reached ip r = false) /\
    ((length new < n)%nat -> exists r, list.last new = Some r /\ reached ip r = true).
Proof.
  induction n as [|n IH]; intros i routes routes' Hip Hr E; simpl in E.
  { injection E as <-. exists []. rewrite app_nil_r. split_and!; try done; simpl; lia. }
  destruct (hop_loop _ _ _ _ _) as [h|e] eqn:Hl; [|done].
  apply (hop_loop_inv _ _ _ _ _ 0) in Hl as (I1 & I2 & I3 & _); [|done|by split_and!].
  assert (Ok1 : hop_ok retry (route_of retry h)) by (unfold hop_ok, zlen; simpl; lia).
  assert (Re : reached ip (route_of retry h) = isReply h) by done.
  destruct (isReply h).
  - injection E as <-. exists [route_of retry h]. split_and!; try done; simpl; [lia|by constructor|lia|by eexists].
  - destruct (IH _ _ _ Hip Hr E) as (new & -> & L & Ne & Fo & Hj & La). exists (route_of retry h :: new).
    rewrite <- app_assoc. split_and!; try done; simpl; [lia|by constructor| |].
    + intros [|j] r Hl Hlt; simpl in Hl; [by injection Hl as <-|]. eapply Hj; [exact Hl|lia].
    + intros Hn. destruct La as (r & R1 & R2); [lia|]. exists r. split; [|done]. rewrite last_cons. by rewrite R1.
Qed.

Lemma limit_bounds x dflt most : 1 <= dflt <= most -> 1 <= limit x dflt most <= most.
Proof. unfold limit. destruct (Z.leb_spec x 0), (Z.ltb_spec most x); lia. Qed.

(** A trace that succeeds has at least one hop and at most the limit of hops, which is
    at most 60.  Every hop reports as many packets as were asked for, at most three; only
    the last one can have been answered by the target, and a trace that is shorter than the
    limit ends with such a hop. *)
Theorem trace_routes `{Std} net host hops retry timeout routes ips ip :
  tr_lookup net host = Ok ips -> preferredIP ips = Some ip -> ip <> "*" ->
  Traceroute_Run net host hops retry timeout = Ok routes ->
  let n := limit hops 30 MaxHops in
  1 <= zlen routes <= n /\ n <= 60 /\ Forall (hop_ok (limit retry 3 MaxRetry)) routes /\ 1 <= limit retry 3 MaxRetry <= 3 /\
  (forall j r, routes !! j = Some r -> (S j < length routes)%nat -> reached ip r = false) /\
  (zlen routes < n -> exists r, list.last routes = Some r /\ reached ip r = true).
Proof.
  intros Hl Hp Hip E n. unfold Traceroute_Run in E. rewrite Hl, Hp in E.
  pose proof (limit_bounds hops 30 MaxHops ltac:(unfold MaxHops; lia)) as B1. fold n in B1, E.
  pose proof (limit_bounds retry 3 MaxRetry ltac:(unfold MaxRetry; lia)) as B2.
  destruct (startTrace _ _ _ _ _ _) as [rs|e] eqn:S; [|by destruct (tr_open net)].
  destruct (tr_open net); [done|]. injection E as <-.
  destruct (startTrace_spec ip (limit retry 3 MaxRetry) _ _ _ _ _ Hip ltac:(lia) S) as (new & -> & L & Ne & Fo & Hj & La). simpl.
  unfold MaxHops, MaxRetry in *. assert (zlen new <> 0).
  { destruct new; [|by rewrite zlen_cons; unfold zlen; lia]. exfalso. by apply Ne; [lia|]. }
  unfold zlen in *. split_and!; try done; try lia. intros Hn. apply La. lia.
Qed.

(** ** Variables *)

(** The functions of a task's templates: the last variable of a name counts. *)
Lemma add_funcs_lookup vars : forall f name,
  add_funcs vars f !! name =
  match list.last (List.filter (fun v => (v_Name v =? name)%string) vars) with
  | Some v => Some (FVar (v_Value v))
  | None => f !! name
  end.
Proof.
  induction vars as [|v vars IH]; intros f name; simpl; [done|].
  change (add_funcs (v :: vars) f) with (add_funcs vars (<[v_Name v := FVar (v_Value v)]> f)). rewrite IH.
  destruct (String.eqb_spec (v_Name v) name) as [->|Hn].
  - rewrite last_cons. destruct (list.last _); [done|]. by rewrite lookup_insert_eq.
  - destruct (list.last _); [done|]. by rewrite lookup_insert_ne.
Qed.

(** The check of variable names is not anchored: a name that it takes can make every
    rendering of a text panic. *)
Lemma checked_name_panics `{Std} clk text : text <> "" ->
  isValidVariableName "my-var" = true /\
  GetParsedString text (add_funcs [mkVar "" "" "my-var" "1" "" false] (getDefaultFunc clk)) = Err EPanic.
Proof. intros Ht. split; [done|]. unfold GetParsedString. by rewrite (proj2 (String.eqb_neq _ _) Ht). Qed.

(** ** Instances *)

#[local] Existing Instance demo_std.

#[local] Instance demo_tcp_json : Json TCPTask := { Unmarshal := fun _ => Err ""; MarshalTask := tcp_Host }.

(** A task that expects an answer to its message, with a secret variable. *)
Definition demo_secret (value : string) : ConfigVar := mkVar "" "" "token" value "" true.

Definition demo_tcp : TCPTask :=
  mkTCP zero_task{{ConfigVars := [demo_secret "hunter2"] }} "host" "80" "ping" "" false
    [mkTcpSuccess [] None [mkOption "" "" "" "" None None "pong" ""]] "" 0 0 "" "" "" 0 None None.

Definition demo_tcp_net : tcp_net :=
  mkTcpNet (fun _ => Err "") 0 (fun _ _ => None) 5000 None (fun _ => None) (Ok "pong!") (fun _ => Err "").

(** A clock that stands still. *)
Definition demo_clock : Clock := fun _ _ => 0.

Definition demo_tcp_after : TCPTask := Eval vm_compute in snd (Run demo_clock None demo_tcp_net demo_tcp).

Definition demo_tcp_hooked : TCPTask := Eval vm_compute in snd (Run demo_clock (Some (Some "denied")) demo_tcp_net demo_tcp).

Lemma demo_tcp_runs : Run demo_clock None demo_tcp_net demo_tcp = (Ok tt, demo_tcp_after).
Proof. vm_compute. reflexivity. Qed.

Lemma demo_tcp_stops : Run demo_clock (Some (Some "denied")) demo_tcp_net demo_tcp = (Ok tt, demo_tcp_hooked).
Proof. vm_compute. reflexivity. Qed.

Lemma secrets_unreported_witness :
  fst (GetResults 0 (c_put (c_task demo_tcp){{ConfigVars := [demo_secret "hunter3"] }} demo_tcp)) =
  fst (GetResults 0 demo_tcp).
Proof. apply secrets_unreported. constructor; [done|constructor]. Defined.

(** The target is the third hop. *)
Definition demo_trace : trace_net :=
  mkTraceNet (fun _ => Ok ["10.0.0.9"]) None false
    (fun ip _ ttl j => Ok (mkTraceResponse (if (ttl =? 3)%nat then ip else "10.0.0.1") (Z.of_nat (ttl * 2000 + j)) (j =? 1)%nat)).

Definition demo_routes : list Route :=
  Eval vm_compute in match Traceroute_Run demo_trace "host" 0 0 0 with Ok l => l | Err _ => [] end.

Lemma demo_trace_runs : Traceroute_Run demo_trace "host" 0 0 0 = Ok demo_routes.
Proof. vm_compute. reflexivity. Qed.

Lemma trace_routes_witness :
  zlen demo_routes = 3 /\ Forall (hop_ok 3) demo_routes /\
  exists r, list.last demo_routes = Some r /\ reached "10.0.0.9" r = true.
Proof.
  destruct (@trace_routes demo_std demo_trace "host" 0 0 0 demo_routes ["10.0.0.9"] "10.0.0.9" eq_refl eq_refl ltac:(done) demo_trace_runs)
    as (_ & _ & F & _ & _ & L).
  split; [reflexivity|]. split; [exact F|]. by apply L.
Defined.

(** Three pings, of which the second is lost. *)
Lemma ping_statistics_witness :
  exists st, pingTarget (fun _ => 0) 3 (fun i => Ok (if (i =? 1)%nat then None else Some (Z.of_nat (i * i) + 7))) = Ok st /\
    PacketsSent st = 3 /\ PacketsRecv st = 2 /\ MinRtt st = 7 /\ MaxRtt st = 11 /\ 7 <= AvgRtt st <= 11.
Proof.
  destruct (ping_statistics (fun _ => 0) 3 (fun i => Ok (if (i =? 1)%nat then None else Some (Z.of_nat (i * i) + 7))))
    as (st & E & S & R & _ & L & U & B).
  - intros k _. eauto.
  - repeat constructor; by vm_compute.
  - change (MinRtt st = 7) in L. change (MaxRtt st = 11) in U. change (PacketsRecv st = 2) in R.
    rewrite L, U in B. by exists st.
Defined.
