(* ===== verification/DialGrpc.v ===== *)
(** * Dial testing: gRPC tasks ([src/dialtesting/grpc.go], [grpc_script.go])

    A run dials the server, finds the descriptor of the method (from proto files, by
    reflection or the health check), builds the request from JSON and invokes the method.
    The descriptors that were found are cached in the task.  What reflection and invocations
    answer depends on the server that is dialled.  What the code uses of the libraries of
    descriptors and of dynamic messages is the class [Pdesc].  Null rules are [None].  With the
    last kind that has conditions, the file also states the verdicts of all six. *)

From S2P Require Import Prelude GoNum GoStrings FilterLex GoStrconv DialTask DialNet DialTls DialHttp DialMulti DialThms.

(** ** Texts *)

(** The host of [net.SplitHostPort]; no host is an error. *)
Definition SplitHost (s : string) : option string :=
  match LastIndex s colon with
  | None => None
  | Some i =>
      if String.prefix "[" s then
        match String.index 0 "]" s with
        | None => None
        | Some e =>
            if (e + 1 =? i)%nat then
              if has_substring (from 1 s) "[" || has_substring (from (e + 1) s) "]" then None
              else Some (String.substring 1 (e - 1) s)
            else None
        end
      else
        let host := upto i s in
        if has_substring host ":" || has_substring s "[" || has_substring s "]" then None else Some host
  end.

(** *** Imports of proto files *)

(** The path that a line imports, when it is an import.  A lone quotation mark is cut from
    its second byte to its first: a panic. *)
Definition import_of (line : string) : Res derr (option string) :=
  let line := match String.index 0 "//" line with Some i => upto i line | None => line end in
  let line := TrimSpace line in
  if ((line =? "")%string || String.prefix "//" line) then Ok None
  else if negb (String.prefix "import " line) then Ok None
  else
    let line := TrimSpace (TrimSuffix (TrimSpace (TrimPrefix line "import")) ";") in
    let some p := if (p =? "")%string then Ok None else Ok (Some p) in
    if String.prefix quote_mark line && HasSuffix line quote_mark then
      if (String.length line <? 2)%nat then Err EPanic else some (String.substring 1 (String.length line - 2) line)
    else
      match String.index 0 quote_mark line, LastIndex line quote_char with
      | Some start, Some stop => if (start <? stop)%nat then some (String.substring (start + 1) (stop - (start + 1)) line) else Ok None
      | _, _ => Ok None
      end.

Fixpoint imports_of (lines : list string) : Res derr (list string) :=
  match lines with
  | [] => Ok []
  | l :: lines' =>
      match import_of l with
      | Err e => Err e
      | Ok o =>
          match imports_of lines' with
          | Err e => Err e
          | Ok r => Ok (match o with Some p => p :: r | None => r end)
          end
      end
  end.

Definition extractImports (content : string) : Res derr (list string) := imports_of (scan (split_lines content)).

(** The imports of some files that none of the files is. *)
Fixpoint missing_imports (files : tagmap) (l : list (string * string)) : Res derr (list string) :=
  match l with
  | [] => Ok []
  | (_, content) :: l' =>
      match extractImports content with
      | Err e => Err e
      | Ok imps =>
          match missing_imports files l' with
          | Err e => Err e
          | Ok r => Ok (List.filter (fun i => match files !! i with Some _ => false | None => true end) imps ++ r)
          end
      end
  end.

Definition buildExtendedProtoMap (files : tagmap) : Res derr tagmap :=
  match missing_imports files (map_to_list files) with
  | Err e => Err e
  | Ok [] => Ok files
  | Ok l => Err (EMsg ("missing imports: " +:+ String.concat ", " l))
  end.

Definition getFileNames (files : tagmap) : list string := fst <$> map_to_list files.

(** ** Options *)

Record GRPCOptCertificate := mkGrpcCert {
  gc_Ignore : bool; gc_PrivateKey : string; gc_Certificate : string; gc_CaCert : string
}.

Record GRPCSuccess := mkGrpcSuccess {
  gs_Body : list (option SuccessOption); gs_ResponseTime : string; gs_respTime : Z
}.

Record GRPCProtoFilesDiscovery := mkProtoFiles { pf_ProtoFiles : tagmap; pf_FullMethod : string; pf_JSONRequest : string }.
Record GRPCReflectionDiscovery := mkReflection { rf_FullMethod : string; rf_JSONRequest : string }.
Record GRPCHealthCheckDiscovery := mkHealth { hc_Service : string }.

Record GRPCOptRequest := mkGrpcReq {
  gr_Metadata : tagmap; gr_RequestTimeout : string; gr_ProtoFiles : option GRPCProtoFilesDiscovery;
  gr_Reflection : option GRPCReflectionDiscovery; gr_HealthCheck : option GRPCHealthCheckDiscovery
}.

Record GRPCAdvanceOption := mkGrpcAdvance {
  go_RequestOptions : option GRPCOptRequest; go_Certificate : option GRPCOptCertificate;
  go_Secret : option bool                          (* NoSaveResponseBody *)
}.

(** ** Credentials *)

Definition VersionTLS12 : Z := 771.

Record grpc_tls := mkGrpcTls {
  gt_Insecure : bool; gt_RootCAs : string; gt_Cert : option (string * string); gt_MinVersion : Z
}.

(** Credentials; the ones that capture the certificates of the peer wrap others. *)
Inductive TransportCredentials :=
| CInsecure
| CTls (c : grpc_tls)
| CCapture (c : TransportCredentials).

Definition wrapTLSCredentials (c : TransportCredentials) : TransportCredentials := CCapture c.

(** What a handshake tells of the connection: the validity of the certificates of the peer. *)
Inductive AuthInfo := OtherInfo | TLSInfo (peers : list (Z * Z)).

Definition DefaultGRPCTimeout : Z := 30 * Second.
Definition HealthCheckServiceName : string := "grpc.health.v1.Health".
Definition HealthCheckMethodName : string := "Check".
Definition ClassGRPC : string := "GRPC".

(** ** Scripts *)

(** What the interpreter does with a script and the body of a response. *)
Definition grpc_interpreter : Type := string -> string -> Res string ScriptResult.

Definition runPipelineGRPC (interp : grpc_interpreter) (script body : string) : Res string ScriptResult :=
  match interp script body with
  | Err e => Err e
  | Ok r =>
      Ok (if MaxErrorMessageSize <? Z.of_nat (String.length (sr_Message r))
          then r{{sr_Message := String.substring 0 (Z.to_nat MaxErrorMessageSize) (sr_Message r) +:+ "..."}} else r)
  end.

Definition postScriptDoGRPC (interp : grpc_interpreter) (script : string) (body : option string) : Res string ScriptResult :=
  match body with
  | None => Ok (mkScript false "" ∅)
  | Some b =>
      if (script =? "")%string then Ok (mkScript false "" ∅)
      else match runPipelineGRPC interp script b with
           | Err e => Err ("run pipeline failed: " +:+ e)
           | Ok x => Ok x
           end
  end.

(** ** Descriptors *)

Class Pdesc := {
  FileDescriptor : Type;
  ServiceDescriptor : Type;
  MethodDescriptor : Type;
  Message : Type;
  FindService : FileDescriptor -> string -> option ServiceDescriptor;
  FindMethodByName : ServiceDescriptor -> string -> option MethodDescriptor;
  ParseFiles : tagmap -> list string -> Res string (list FileDescriptor);
  health_file : option (Res string FileDescriptor);       (* the file of the health service, wrapped *)
  NewMessage : MethodDescriptor -> Message;               (* of the input type of a method *)
  UnmarshalJSON : MethodDescriptor -> string -> Res string Message
}.

(** A response: a dynamic message with its JSON text, or something else of a named type. *)
Inductive grpc_reply := RDynamic (json : Res string string) | ROther (ty : string).

(** [m] on a value that may be null; a null one is left. *)
Definition opt_do {A} (m : SM A derr unit) : SM (option A) derr unit :=
  fun o => match o with
           | Some a => let '(r, a') := m a in (r, Some a')
           | None => (Ok tt, None)
           end.

(** A raw value is rendered to the value at its place, which is there when it is. *)
Definition opt_render {A B} (m : A -> SM B derr unit) (raw : option A) : SM (option B) derr unit :=
  match raw with
  | None => sret tt
  | Some a => fun o => match o with Some b => let '(r, b') := m a b in (r, Some b') | None => (Err EPanic, None) end
  end.

Section grpc.
Context `{Std} `{Pdesc}.

Record grpc_raw := mkGrpcRaw {
  graw_Server : string; graw_SuccessWhen : list (option GRPCSuccess); graw_AdvanceOptions : option GRPCAdvanceOption
}.

Record GRPCTask := mkGRPC {
  grpc_task : Task;
  Server : string; grpc_PostScript : string; grpc_Logic : string;
  grpc_SuccessWhen : list (option GRPCSuccess); grpc_AdvanceOptions : option GRPCAdvanceOption;
  grpc_creds : option TransportCredentials;
  grpc_result : option string; grpc_reqError : string; grpc_reqCost : Z; grpc_timeout : Z;
  grpc_script : option ScriptResult; grpc_NotBefore : Z; grpc_NotAfter : Z;
  grpc_rawTask : option grpc_raw;
  healthMethodDescriptor : option MethodDescriptor;
  protoFilesMethodDescriptor : option MethodDescriptor;
  reflectionMethodDescriptor : option MethodDescriptor
}.

(** What the network answers: the handshakes of a dial and its error; from a server, the
    file that defines a symbol, and the reply to a method with the metadata, and its cost;
    the interpreter. *)
Record grpc_net := mkGrpcNet {
  gn_dial : option TransportCredentials -> string -> Z -> list (Res string AuthInfo) * option string;
  gn_symbol : string -> string -> Res string FileDescriptor;
  gn_invoke : string -> option tagmap -> MethodDescriptor -> Message -> Res string grpc_reply * Z;
  gn_interp : grpc_interpreter
}.

Definition request_opt (t : GRPCTask) : option GRPCOptRequest := o ← grpc_AdvanceOptions t; go_RequestOptions o.

(** ** Methods *)

Definition getFullMethod (t : GRPCTask) : string :=
  match request_opt t with
  | None => ""
  | Some r =>
      match gr_ProtoFiles r, gr_Reflection r, gr_HealthCheck r with
      | Some p, _, _ => pf_FullMethod p
      | None, Some f, _ => rf_FullMethod f
      | None, None, Some _ => HealthCheckServiceName +:+ "/" +:+ HealthCheckMethodName
      | None, None, None => ""
      end
  end.

Definition getJSONRequest (t : GRPCTask) : string :=
  match request_opt t with
  | None => ""
  | Some r =>
      match gr_ProtoFiles r, gr_Reflection r, gr_HealthCheck r with
      | Some p, _, _ => pf_JSONRequest p
      | None, Some f, _ => rf_JSONRequest f
      | None, None, Some h =>
          if (hc_Service h =? "")%string then ""
          else "{" +:+ json_string "service" +:+ ":" +:+ json_string (hc_Service h) +:+ "}"
      | None, None, None => ""
      end
  end.

Definition find_health : Res derr MethodDescriptor :=
  match health_file with
  | None => Err (EMsg "health check file descriptor not available")
  | Some (Err e) => Err (EMsg ("wrap health check file descriptor failed: " +:+ e))
  | Some (Ok fd) =>
      match FindService fd HealthCheckServiceName with
      | None => Err (EMsg ("health check service " +:+ HealthCheckServiceName +:+ " not found"))
      | Some sd =>
          match FindMethodByName sd HealthCheckMethodName with
          | None => Err (EMsg ("health check method " +:+ HealthCheckMethodName +:+ " not found"))
          | Some md => Ok md
          end
      end
  end.

(** The service and the method of a full name. *)
Definition split_method (full : string) : option (string * string) :=
  match LastIndex full slash with Some i => Some (upto i full, from (i + 1) full) | None => None end.

Definition find_reflection (symbol : string -> Res string FileDescriptor) (full : string) : Res derr MethodDescriptor :=
  if (full =? "")%string then Err (EMsg "full method is required for reflection discovery")
  else
    let full := TrimPrefix full "/" in
    match split_method full with
    | None => Err (EMsg ("invalid full method name: " +:+ full))
    | Some (service, method) =>
        match symbol service with
        | Err e => Err (EMsg e)
        | Ok fd =>
            match FindService fd service with
            | None => Err (EMsg ("service " +:+ service +:+ " not found"))
            | Some sd =>
                match FindMethodByName sd method with
                | None => Err (EMsg ("method " +:+ method +:+ " not found in service " +:+ service))
                | Some md => Ok md
                end
            end
        end
    end.

Fixpoint first_method (service method : string) (files : list FileDescriptor) : option MethodDescriptor :=
  match files with
  | [] => None
  | fd :: files' =>
      match (sd ← FindService fd service; FindMethodByName sd method) with
      | Some md => Some md
      | None => first_method service method files'
      end
  end.

Definition find_proto (p : GRPCProtoFilesDiscovery) : Res derr MethodDescriptor :=
  if bool_decide (pf_ProtoFiles p = ∅) then Err (EMsg "proto files not provided")
  else if (pf_FullMethod p =? "")%string then Err (EMsg "full method is required for proto files discovery")
  else
    let full := TrimPrefix (pf_FullMethod p) "/" in
    match buildExtendedProtoMap (pf_ProtoFiles p) with
    | Err e => Err e
    | Ok files =>
        match ParseFiles files (getFileNames (pf_ProtoFiles p)) with
        | Err e => Err (EMsg ("parse proto files failed: " +:+ e))
        | Ok desc =>
            match split_method full with
            | None => Err (EMsg ("invalid fullMethod: " +:+ quote full))
            | Some (service, method) =>
                match first_method service method desc with
                | Some md => Ok md
                | None => Err (EMsg ("method " +:+ full +:+ " not found in service " +:+ service))
                end
            end
        end
    end.

(** A descriptor that is cached is taken, another one is found and kept. *)
Definition cached (get : GRPCTask -> option MethodDescriptor) (put : option MethodDescriptor -> GRPCTask -> GRPCTask)
    (find : GRPCTask -> Res derr MethodDescriptor) : SM GRPCTask derr MethodDescriptor :=
  fun t => match get t with
           | Some md => (Ok md, t)
           | None => match find t with Ok md => (Ok md, put (Some md) t) | Err e => (Err e, t) end
           end.

Definition findHealthCheckMethod : SM GRPCTask derr MethodDescriptor :=
  cached healthMethodDescriptor (fun v t => t{{healthMethodDescriptor := v}}) (fun _ => find_health).

Definition findMethodByReflection (symbol : string -> Res string FileDescriptor) : SM GRPCTask derr MethodDescriptor :=
  cached reflectionMethodDescriptor (fun v t => t{{reflectionMethodDescriptor := v}})
    (fun t => match (r ← request_opt t; gr_Reflection r) with
              | None => Err (EMsg "reflection discovery not configured")
              | Some f => find_reflection symbol (rf_FullMethod f)
              end).

Definition findMethodAmongProtofiles : SM GRPCTask derr MethodDescriptor :=
  cached protoFilesMethodDescriptor (fun v t => t{{protoFilesMethodDescriptor := v}})
    (fun t => match (r ← request_opt t; gr_ProtoFiles r) with
              | None => Err (EMsg "proto files discovery not configured")
              | Some p => find_proto p
              end).

Definition findMethod (symbol : string -> Res string FileDescriptor) : SM GRPCTask derr MethodDescriptor :=
  t <~ sget ;;
  match request_opt t with
  | None => sfail (EMsg "request options required")
  | Some r =>
      match gr_ProtoFiles r, gr_Reflection r, gr_HealthCheck r with
      | Some p, _, _ =>
          if bool_decide (pf_ProtoFiles p = ∅) then sfail (EMsg "proto files not provided") else findMethodAmongProtofiles
      | None, Some _, _ => findMethodByReflection symbol
      | None, None, Some _ => findHealthCheckMethod
      | None, None, None => sfail (EMsg "no discovery method configured (proto_files, reflection, or health_check)")
      end
  end.

(** ** check, init *)

Definition grpc_check (t : GRPCTask) : option derr :=
  if (Server t =? "")%string then Some (EMsg "server address is required")
  else if match (r ← request_opt t; gr_ProtoFiles r) with Some p => bool_decide (pf_ProtoFiles p = ∅) | None => false end
  then Some (EMsg "proto files not provided")
  else if (getFullMethod t =? "")%string then Some (EMsg "full method is required")
  else if bool_decide (length (grpc_SuccessWhen t) = 0%nat) && (grpc_PostScript t =? "")%string
  then Some (EMsg "no any check rule")
  else None.

Definition buildTLSCredentials (t : GRPCTask) : Res derr TransportCredentials :=
  match (o ← grpc_AdvanceOptions t; go_Certificate o) with
  | None => Ok CInsecure
  | Some c =>
      if gc_Ignore c then Ok (wrapTLSCredentials (CTls (mkGrpcTls true "" None 0)))
      else if negb (gc_CaCert c =? "")%string then
        if negb (AppendCertsFromPEM (gc_CaCert c)) then Err (EMsg "failed to append CA certificate")
        else
          let config := mkGrpcTls false (gc_CaCert c) None VersionTLS12 in
          if negb (gc_Certificate c =? "")%string && negb (gc_PrivateKey c =? "")%string then
            match X509KeyPair (gc_Certificate c) (gc_PrivateKey c) with
            | Some e => Err (EMsg ("failed to load client certificate: " +:+ e))
            | None => Ok (wrapTLSCredentials (CTls config{{gt_Cert := Some (gc_Certificate c, gc_PrivateKey c)}}))
            end
          else Ok (wrapTLSCredentials (CTls config))
      else Ok CInsecure
  end.

Definition grpc_init_rule : SM GRPCSuccess derr unit :=
  c <~ sget ;;
  swhen (negb (gs_ResponseTime c =? "")%string)
    match ParseDuration (gs_ResponseTime c) with
    | Err e => sfail (EMsg ("invalid response time " +:+ quote (gs_ResponseTime c) +:+ ": " +:+ e))
    | Ok du => smod (fun c => c{{gs_respTime := du}})
    end ;;;
  swrap (ewrap "compile regex failed") (zoom gs_Body (fun l c => c{{gs_Body := l}}) (each (opt_do genReg))).

Definition forget {A} (m : SM GRPCTask derr A) : SM GRPCTask derr unit := m ;;; sret tt.

Definition grpc_init : SM GRPCTask derr unit :=
  t <~ sget ;;
  match request_opt t with
  | None => sfail (EMsg "advance options required")
  | Some r =>
      smod (fun t => t{{grpc_timeout := DefaultGRPCTimeout}}) ;;;
      swhen (negb (gr_RequestTimeout r =? "")%string)
        match ParseDuration (gr_RequestTimeout r) with
        | Err e => sfail (EMsg ("invalid timeout " +:+ quote (gr_RequestTimeout r) +:+ ": " +:+ e))
        | Ok d => smod (fun t => t{{grpc_timeout := d}})
        end ;;;
      zoom grpc_SuccessWhen (fun l t => t{{grpc_SuccessWhen := l}}) (each (opt_do grpc_init_rule)) ;;;
      (match buildTLSCredentials t with
       | Err e => smod (fun t => t{{grpc_creds := None}}) ;;; sfail (ewrap "build TLS credentials failed" e)
       | Ok c => smod (fun t => t{{grpc_creds := Some c}})
       end) ;;;
      swhen (match gr_ProtoFiles r with Some p => negb (bool_decide (pf_ProtoFiles p = ∅)) | None => false end)
        (swrap (ewrap "find method descriptor failed") (forget findMethodAmongProtofiles)) ;;;
      swhen (match gr_HealthCheck r with Some _ => true | None => false end)
        (swrap (ewrap "find health check method failed") (forget findHealthCheckMethod))
  end.

(** ** run *)

Definition extractSSLCertificateValidity (peers : list (Z * Z)) (t : GRPCTask) : GRPCTask :=
  match peers with (nb, na) :: _ => t{{grpc_NotBefore := nb; grpc_NotAfter := na}} | [] => t end.

(** [ClientHandshake] of credentials that capture, given what the wrapped ones return. *)
Definition ClientHandshake (inner : Res string AuthInfo) (t : GRPCTask) : GRPCTask :=
  match inner with
  | Ok (TLSInfo peers) => extractSSLCertificateValidity peers t
  | _ => t
  end.

Definition captures (c : option TransportCredentials) : bool := match c with Some (CCapture _) => true | _ => false end.

Definition grpc_fail (e : string) (t : GRPCTask) : GRPCTask := t{{grpc_reqError := e}}.

(** The call and what becomes of its response. *)
Definition grpc_invoke (net : grpc_net) (r : GRPCOptRequest) (m : MethodDescriptor) (t : GRPCTask) : GRPCTask :=
  let md := if bool_decide (gr_Metadata r = ∅) then None else Some (gr_Metadata r) in
  let json := getJSONRequest t in
  match (if (json =? "")%string then Ok (NewMessage m) else UnmarshalJSON m json) with
  | Err e => grpc_fail ("invalid message: " +:+ e) t
  | Ok msg =>
      let '(resp, cost) := gn_invoke net (Server t) md m msg in
      let t := t{{grpc_reqCost := cost}} in
      match resp with
      | Err e => grpc_fail e t
      | Ok (ROther ty) => grpc_fail ("unexpected response type: expected *dynamic.Message, got " +:+ ty) t
      | Ok (RDynamic (Err e)) => grpc_fail ("marshal response failed: " +:+ e) t
      | Ok (RDynamic (Ok j)) =>
          let t := t{{grpc_result := Some j}} in
          if (grpc_PostScript t =? "")%string then t
          else match postScriptDoGRPC (gn_interp net) (grpc_PostScript t) (Some j) with
               | Err e => grpc_fail e t
               | Ok x => t{{grpc_script := Some x}}
               end
      end
  end.

Definition grpc_run (net : grpc_net) : SM GRPCTask derr unit := fun t =>
  match request_opt t with
  | None => (Ok tt, grpc_fail "request options required" t)
  | Some r =>
      let '(handshakes, err) := gn_dial net (grpc_creds t) (Server t) (grpc_timeout t) in
      let t := if captures (grpc_creds t) then fold_left (fun t h => ClientHandshake h t) handshakes t else t in
      match err with
      | Some e => (Ok tt, grpc_fail ("dial grpc server failed: " +:+ e) t)
      | None =>
          match findMethod (gn_symbol net (Server t)) t with
          | (Err EPanic, t) => (Err EPanic, t)
          | (Err (EMsg e), t) => (Ok tt, grpc_fail e t)
          | (Ok m, t) => (Ok tt, grpc_invoke net r m t)
          end
      end
  end.

Definition grpc_clear (t : GRPCTask) : GRPCTask :=
  t{{grpc_result := None; grpc_reqError := ""; grpc_reqCost := 0; grpc_script := None;
     grpc_NotBefore := 0; grpc_NotAfter := 0;
     grpc_timeout := if grpc_timeout t =? 0 then DefaultGRPCTimeout else grpc_timeout t}}.

(** ** Results *)

Definition grpc_time (t : GRPCTask) (d : Z) : list string * bool :=
  if (0 <? d) && (d <? grpc_reqCost t)
  then (["gRPC response time(" +:+ fmt_dur (grpc_reqCost t) +:+ ") larger than " +:+ fmt_dur d], false)
  else ([], 0 <? d).

Definition grpc_rule (t : GRPCTask) (c : GRPCSuccess) : list string * bool :=
  both (option_rules "response body" (default "" (grpc_result t)) (omap id (gs_Body c))) (grpc_time t (gs_respTime c)).

Definition grpc_checkResult (t : GRPCTask) : list string * bool :=
  if negb (grpc_reqError t =? "")%string then ([grpc_reqError t], false)
  else match grpc_result t with
       | None => (["no response"], false)
       | Some _ =>
           if bool_decide (length (grpc_SuccessWhen t) = 0%nat) && (grpc_PostScript t =? "")%string then ([], true)
           else both (all_rules (grpc_rule t) (omap id (grpc_SuccessWhen t))) (script_rule (grpc_script t))
       end.

Definition grpc_getHostName (t : GRPCTask) : Res string (list string) :=
  if (Server t =? "")%string then Err "server address is empty"
  else Ok [default (Server t) (SplitHost (Server t))].

(** The switch on [SuccessWhenLogic]: with both logics something must have been checked. *)
Definition grpc_judge (logic : string) (succ : bool) (reqError : string) (reasons : list string) (v : verdict) : verdict :=
  if (logic =? "or")%string then
    if succ && (reqError =? "")%string then set_OK v else set_reason reasons v
  else
    if succ && bool_decide (reasons = []) && (reqError =? "")%string then set_OK v else set_reason reasons v.

Definition grpc_notSave (t : GRPCTask) : bool :=
  match (o ← grpc_AdvanceOptions t; go_Secret o) with Some b => b | None => false end.

(** The message, cut, or the error of its encoding. *)
Definition grpc_message (v : verdict) : fieldmap :=
  <["message" := FStr (match Marshal (v_message v) with
                       | Err e => e
                       | Ok d => if MaxMsgSize <? Z.of_nat (String.length d) then String.substring 0 (Z.to_nat MaxMsgSize) d else d
                       end)]> (v_fields v).

Definition grpc_tags (t : GRPCTask) : tagmap :=
  let tags := <["name" := Name (grpc_task t)]> (<["server" := Server t]> (<["method" := getFullMethod t]>
    (<["status" := "FAIL"]> (<["proto" := "grpc"]> ∅)))) in
  let tags := match grpc_getHostName t with Ok (h :: _) => <["dest_host" := h]> tags | _ => tags end in
  Tags (grpc_task t) ∪ tags.

Definition grpc_fields (now : Z) (t : GRPCTask) : fieldmap :=
  let f := <["response_time" := FInt (micros (grpc_reqCost t))]> (<["success" := FInt (-1)]> ∅) in
  if 0 <? grpc_NotAfter t
  then <["ssl_cert_expires_in_days" := FInt (days_left (grpc_NotAfter t) now)]>
         (<["ssl_cert_not_after" := FInt (grpc_NotAfter t)]> f)
  else f.

Definition grpc_add_response (t : GRPCTask) (v : verdict) : verdict :=
  let v := v{{v_message := <["response_time" := FInt (micros (grpc_reqCost t))]> (v_message v)}} in
  match grpc_result t with
  | Some s => if grpc_notSave t then v else v{{v_message := <["response" := FStr s]> (v_message v)}}
  | None => v
  end.

Definition grpc_getResults (now : Z) (t : GRPCTask) : tagmap * fieldmap :=
  let '(reasons, succ) := grpc_checkResult t in
  let v := grpc_judge (grpc_Logic t) succ (grpc_reqError t) reasons (mkVerdict (grpc_tags t) (grpc_fields now t) ∅) in
  let v := grpc_add_response t v in
  (v_tags v, grpc_message v).

Definition grpc_getVariableValue (interp : grpc_interpreter) (script name : string) (t : GRPCTask) : Res string string :=
  if ((script =? "") && (grpc_PostScript t =? ""))%string then Err "post_script is empty"
  else if (name =? "")%string then Err "task variable name is empty"
  else
    match grpc_result t with
    | None => Err "response body is empty"
    | Some body =>
        match (if (script =? "")%string then Ok (grpc_script t)
               else match postScriptDoGRPC interp script (Some body) with
                    | Ok x => Ok (Some x)
                    | Err e => Err ("run pipeline failed: " +:+ e)
                    end) with
        | Err e => Err e
        | Ok None => Err "pipeline result is empty"
        | Ok (Some x) =>
            match sr_Vars x !! name with
            | None => Err "task variable name not found"
            | Some value => Ok (default "<nil>" value)
            end
        end
    end.

(** ** Templates *)

(** A text that is there is rendered. *)
Definition render_some {C} (what text : string) (f : FuncMap) (put : string -> C -> C) : SM C derr unit :=
  swhen (negb (text =? "")%string) (render what text f put).

Definition grpc_render_rule (f : FuncMap) (raw : GRPCSuccess) : SM GRPCSuccess derr unit :=
  swrap (ewrap "render body failed")
    (zoom gs_Body (fun l c => c{{gs_Body := l}}) (each2 (opt_render (renderSuccessOption f)) (gs_Body raw))) ;;;
  render_some "response time" (gs_ResponseTime raw) f (fun s c => c{{gs_ResponseTime := s}}).

Definition in_request (m : SM GRPCOptRequest derr unit) : SM GRPCTask derr unit :=
  in_opt grpc_AdvanceOptions (fun v t => t{{grpc_AdvanceOptions := v}})
    (in_opt go_RequestOptions (fun v o => o{{go_RequestOptions := v}}) m).

(** Each entry of the raw metadata replaces the one under its raw key. *)
Fixpoint render_metadata (f : FuncMap) (l : list (string * string)) : SM tagmap derr unit :=
  match l with
  | [] => sret tt
  | (k, v) :: l' =>
      match GetParsedString k f with
      | Err e => sfail (ewrap ("render metadata key " +:+ quote k +:+ " failed") e)
      | Ok key =>
          match GetParsedString v f with
          | Err e => sfail (ewrap ("render metadata value for key " +:+ quote k +:+ " failed") e)
          | Ok value => smod (fun m => <[key := value]> (delete k m)) ;;; render_metadata f l'
          end
      end
  end.

Definition in_proto (m : SM GRPCProtoFilesDiscovery derr unit) : SM GRPCTask derr unit :=
  in_request (in_opt gr_ProtoFiles (fun v r => r{{gr_ProtoFiles := v}}) m).

Definition in_reflection (m : SM GRPCReflectionDiscovery derr unit) : SM GRPCTask derr unit :=
  in_request (in_opt gr_Reflection (fun v r => r{{gr_Reflection := v}}) m).

(** The full method that is stored, when the discovery is there. *)
Definition proto_method (t : GRPCTask) : option string := r ← request_opt t; pf_FullMethod <$> gr_ProtoFiles r.
Definition reflection_method (t : GRPCTask) : option string := r ← request_opt t; rf_FullMethod <$> gr_Reflection r.

Definition renderProtoFiles (f : FuncMap) (raw : option GRPCProtoFilesDiscovery) : SM GRPCTask derr unit :=
  match raw with
  | None => sret tt
  | Some p =>
      swhen (negb (pf_FullMethod p =? "")%string)
        match GetParsedString (pf_FullMethod p) f with
        | Err e => sfail (ewrap "render proto files full method failed" e)
        | Ok full =>
            smod (fun t => if bool_decide (proto_method t = Some full) then t else t{{protoFilesMethodDescriptor := None}}) ;;;
            in_proto (smod (fun p => p{{pf_FullMethod := full}}))
        end ;;;
      swhen (negb (pf_JSONRequest p =? "")%string)
        (in_proto (render "proto files JSON request" (pf_JSONRequest p) f (fun s p => p{{pf_JSONRequest := s}})))
  end.

Definition renderReflection (f : FuncMap) (raw : option GRPCReflectionDiscovery) : SM GRPCTask derr unit :=
  match raw with
  | None => sret tt
  | Some p =>
      swhen (negb (rf_FullMethod p =? "")%string)
        match GetParsedString (rf_FullMethod p) f with
        | Err e => sfail (ewrap "render reflection full method failed" e)
        | Ok full =>
            smod (fun t => if bool_decide (reflection_method t = Some full) then t else t{{reflectionMethodDescriptor := None}}) ;;;
            in_reflection (smod (fun p => p{{rf_FullMethod := full}}))
        end ;;;
      swhen (negb (rf_JSONRequest p =? "")%string)
        (in_reflection (render "reflection JSON request" (rf_JSONRequest p) f (fun s p => p{{rf_JSONRequest := s}})))
  end.

Definition renderHealthCheck (f : FuncMap) (raw : option GRPCHealthCheckDiscovery) : SM GRPCTask derr unit :=
  match raw with
  | None => sret tt
  | Some h =>
      swhen (negb (hc_Service h =? "")%string)
        (in_request (in_opt gr_HealthCheck (fun v r => r{{gr_HealthCheck := v}})
           (render "health check service" (hc_Service h) f (fun s h => h{{hc_Service := s}}))))
  end.

Definition grpc_renderRequestOptions (f : FuncMap) (raw : option GRPCOptRequest) : SM GRPCTask derr unit :=
  match raw with
  | None => sret tt
  | Some r =>
      swhen (negb (gr_RequestTimeout r =? "")%string)
        (in_request (render "timeout" (gr_RequestTimeout r) f (fun s r => r{{gr_RequestTimeout := s}}))) ;;;
      swhen (negb (bool_decide (gr_Metadata r = ∅)))
        (in_request (zoom gr_Metadata (fun m r => r{{gr_Metadata := m}}) (render_metadata f (map_to_list (gr_Metadata r))))) ;;;
      swrap (ewrap "render proto files failed") (renderProtoFiles f (gr_ProtoFiles r)) ;;;
      swrap (ewrap "render reflection failed") (renderReflection f (gr_Reflection r)) ;;;
      swrap (ewrap "render health check failed") (renderHealthCheck f (gr_HealthCheck r))
  end.

Definition grpc_renderAdvanceOptions (f : FuncMap) (raw : option GRPCAdvanceOption) : SM GRPCTask derr unit :=
  match raw with
  | None => sret tt
  | Some o => swrap (ewrap "render request options failed") (grpc_renderRequestOptions f (go_RequestOptions o))
  end.

Definition grpc_renderTemplate (decode : string -> Res string GRPCTask) (f : FuncMap) : SM GRPCTask derr unit :=
  t <~ sget ;;
  (match grpc_rawTask t with
   | Some _ => sret tt
   | None =>
       match NewRawTask decode (grpc_task t) with
       | Err e => sfail (ewrap "new raw task failed" e)
       | Ok r => smod (fun t => t{{grpc_rawTask := Some (mkGrpcRaw (Server r) (grpc_SuccessWhen r) (grpc_AdvanceOptions r))}})
       end
   end) ;;;
  t <~ sget ;;
  match grpc_rawTask t with
  | None => sfail (EMsg "raw task is nil")
  | Some raw =>
      render "server" (graw_Server raw) f (fun s t => t{{Server := s}}) ;;;
      swrap (ewrap "render success when failed")
        (zoom grpc_SuccessWhen (fun l t => t{{grpc_SuccessWhen := l}})
           (each2 (opt_render (grpc_render_rule f)) (graw_SuccessWhen raw))) ;;;
      swrap (ewrap "render advance options failed") (grpc_renderAdvanceOptions f (graw_AdvanceOptions raw))
  end.

Context `{!Json GRPCTask}.

#[export] Instance grpc_child : TaskChild GRPCTask grpc_net := {
  c_task := grpc_task; c_put := fun x t => t{{grpc_task := x}}; c_run := grpc_run; c_init := grpc_init;
  c_check := grpc_check; c_clear := grpc_clear; c_checkResult := grpc_checkResult;
  c_getResults := grpc_getResults; c_renderTemplate := grpc_renderTemplate Unmarshal;
  c_getRawTask := fun _ => raw_task "grpc"; c_setReqError := grpc_fail;
  c_getHostName := grpc_getHostName; c_class := fun _ => ClassGRPC
}.

(** ** The verdict *)

Definition grpc_rule_conds (t : GRPCTask) (c : GRPCSuccess) : list (option string) :=
  option_conds "response body" (default "" (grpc_result t)) (omap id (gs_Body c)) ++
  time_conds ((0 <? gs_respTime c) && (gs_respTime c <? grpc_reqCost t)) (gs_respTime c)
    ("gRPC response time(" +:+ fmt_dur (grpc_reqCost t) +:+ ") larger than " +:+ fmt_dur (gs_respTime c)).

Definition grpc_conds (t : GRPCTask) : list (option string) :=
  if negb (grpc_reqError t =? "")%string then [Some (grpc_reqError t)]
  else match grpc_result t with
       | None => [Some "no response"]
       | Some _ =>
           if bool_decide (length (grpc_SuccessWhen t) = 0%nat) && (grpc_PostScript t =? "")%string then [None]
           else flat_map (grpc_rule_conds t) (omap id (grpc_SuccessWhen t)) ++ script_conds (grpc_script t)
       end.

Lemma grpc_outcome t : grpc_checkResult t = outcome (grpc_conds t).
Proof.
  unfold grpc_checkResult, grpc_conds. destruct (negb _); [done|]. destruct (grpc_result t) as [s|] eqn:R; [|done].
  destruct (bool_decide _ && _); [done|].
  rewrite (all_rules_outcome _ (grpc_rule_conds t)).
  - by rewrite script_outcome, both_outcome.
  - intros c. unfold grpc_rule, grpc_rule_conds, grpc_time, option_rules, option_conds.
    by rewrite checks_outcome, time_conds_outcome, both_outcome.
Qed.

#[export] Instance grpc_spec : DialSpec GRPCTask := {
  d_strict := true; d_error := grpc_reqError; d_logic := grpc_Logic; d_conds := grpc_conds;
  d_reasons := fun t => fst (grpc_checkResult t)
}.

Lemma grpc_judge_cases t v :
  let '(reasons, succ) := grpc_checkResult t in
  let j := grpc_judge (grpc_Logic t) succ (grpc_reqError t) reasons v in
  j = if d_ok t then set_OK v else set_reason reasons v.
Proof.
  destruct (grpc_checkResult t) as [reasons succ] eqn:E. rewrite grpc_outcome in E. injection E as <- <-.
  unfold grpc_judge, d_ok, passes. simpl.
  rewrite no_reasons. destruct (grpc_Logic t =? "or")%string, (grpc_reqError t =? "")%string,
    (existsb holds (grpc_conds t)), (forallb holds (grpc_conds t)); done.
Qed.

#[export] Instance grpc_laws : DialLaws GRPCTask grpc_net.
Proof.
  split; try done; simpl.
  - apply grpc_outcome.
  - intros t He. unfold grpc_checkResult. rewrite (proj2 (String.eqb_neq _ _) He). simpl. by apply list_elem_of_singleton.
  - intros now t. unfold grpc_getResults. pose proof (grpc_judge_cases t (mkVerdict (grpc_tags t) (grpc_fields now t) ∅)) as J.
    destruct (grpc_checkResult t) as [reasons succ] eqn:E. rewrite J. unfold reports. fold (d_ok t).
    unfold grpc_message. simpl. rewrite !lookup_insert_ne by done.
    assert (A : forall v, v_tags (grpc_add_response t v) = v_tags v /\ v_fields (grpc_add_response t v) = v_fields v).
    { intros v. unfold grpc_add_response. destruct (grpc_result t), (grpc_notSave t); done. }
    rewrite (proj1 (A _)), (proj2 (A _)).
    assert (F : grpc_fields now t !! "success" = Some (FInt (-1)) /\ grpc_fields now t !! "fail_reason" = None).
    { unfold grpc_fields. destruct (0 <? grpc_NotAfter t); by simplify_map_eq. }
    destruct F as [F1 F2]. change (passes _ _ _ _) with (d_ok t). destruct (d_ok t); simpl; unfold constant;
      (split_and!; [|by simplify_map_eq|by simplify_map_eq]).
    + by simplify_map_eq.
    + apply custom_tags. destruct (grpc_getHostName t) as [[|h l]|e]; by simplify_map_eq.
Qed.

(** ** Cached descriptors *)

Definition proto_files (t : GRPCTask) : option GRPCProtoFilesDiscovery := r ← request_opt t; gr_ProtoFiles r.

Definition drop_caches (t : GRPCTask) : GRPCTask :=
  t{{healthMethodDescriptor := None; protoFilesMethodDescriptor := None; reflectionMethodDescriptor := None}}.

Section cache.
(** What the servers of the runs so far answer to requests for symbols. *)
Variable asked : list (string -> Res string FileDescriptor).

(** What is cached is what would be found, or what one of these servers gave. *)
Definition cache_ok (t : GRPCTask) : Prop :=
  (forall md, healthMethodDescriptor t = Some md -> find_health = Ok md) /\
  (forall md, protoFilesMethodDescriptor t = Some md -> exists p, proto_files t = Some p /\ find_proto p = Ok md) /\
  (forall md, reflectionMethodDescriptor t = Some md -> exists full symbol, symbol ∈ asked /\ reflection_method t = Some full /\ find_reflection symbol full = Ok md).

(** The parts of the options that name a method. *)
Definition names_of (r : GRPCOptRequest) : option (tagmap * string) * option string :=
  ((fun p => (pf_ProtoFiles p, pf_FullMethod p)) <$> gr_ProtoFiles r, rf_FullMethod <$> gr_Reflection r).

Definition cache_view (t : GRPCTask) :=
  (healthMethodDescriptor t, protoFilesMethodDescriptor t, reflectionMethodDescriptor t, names_of <$> request_opt t).

Lemma view_names t t' : cache_view t = cache_view t' ->
  reflection_method t = reflection_method t' /\
  ((fun p => (pf_ProtoFiles p, pf_FullMethod p)) <$> proto_files t) = ((fun p => (pf_ProtoFiles p, pf_FullMethod p)) <$> proto_files t').
Proof.
  unfold cache_view, reflection_method, proto_files. intros [= _ _ _ En].
  destruct (request_opt t), (request_opt t'); simpl in *; try done. unfold names_of in En. by injection En as E1 E2.
Qed.

Lemma cache_ok_view t t' : cache_view t' = cache_view t -> cache_ok t -> cache_ok t'.
Proof.
  intros Hv%eq_sym (H1 & H2 & H3). destruct (view_names _ _ Hv) as [Er Ep]. injection Hv as E1 E2 E3 _.
  unfold cache_ok. rewrite <- E1, <- E2, <- E3, <- Er. split_and!; try done.
  intros md Hm. destruct (H2 _ Hm) as (p & Hp & Hf). rewrite Hp in Ep. destruct (proto_files t') as [q|]; [|done].
  exists q. split; [done|]. rewrite <- Hf. simpl in Ep. injection Ep as P1 P2. unfold find_proto. by rewrite P1, P2.
Qed.

Definition keeps {A} (m : SM GRPCTask derr A) : Prop := forall t, cache_ok t -> cache_ok (snd (m t)).

Lemma keeps_ret {A} (a : A) : keeps (sret a). Proof. by intros t. Qed.
Lemma keeps_fail {A} e : keeps (A := A) (sfail e). Proof. by intros t. Qed.
Lemma keeps_get : keeps sget. Proof. by intros t. Qed.

Lemma keeps_bind {A B} (m : SM GRPCTask derr A) (k : A -> SM GRPCTask derr B) :
  keeps m -> (forall a, keeps (k a)) -> keeps (sbind m k).
Proof.
  intros Hm Hk t Ht. unfold sbind. specialize (Hm t Ht). destruct (m t) as [[a|e] t']; [by apply Hk|done].
Qed.

Lemma keeps_wrap {A} f (m : SM GRPCTask derr A) : keeps m -> keeps (swrap f m).
Proof. intros Hm t Ht. specialize (Hm t Ht). unfold swrap. by destruct (m t) as [[a|e] t']. Qed.

Lemma keeps_when b (m : SM GRPCTask derr unit) : keeps m -> keeps (swhen b m).
Proof. intros Hm. unfold swhen. destruct b; [done|apply keeps_ret]. Qed.

Lemma keeps_mod f : (forall t, cache_view (f t) = cache_view t) -> keeps (smod f).
Proof. intros Hf t Ht. apply (cache_ok_view t); [apply Hf|done]. Qed.

Lemma keeps_render what text f put :
  (forall s t, cache_view (put s t) = cache_view t) -> keeps (render what text f put).
Proof. intros Hp. unfold render. destruct (GetParsedString text f); [by apply keeps_mod|apply keeps_fail]. Qed.

(** Rules hold no names of methods. *)
Lemma keeps_rules (m : SM (list (option GRPCSuccess)) derr unit) :
  keeps (zoom grpc_SuccessWhen (fun l t => t{{grpc_SuccessWhen := l}}) m).
Proof. intros t Ht. unfold zoom. destruct (m (grpc_SuccessWhen t)) as [r l]. by apply (cache_ok_view t). Qed.

Lemma request_view t m :
  (forall r, names_of (snd (m r)) = names_of r) -> cache_view (snd (in_request m t)) = cache_view t.
Proof.
  intros Hm. unfold in_request, in_opt. destruct (grpc_AdvanceOptions t) as [o|] eqn:Eo; [|done].
  destruct (go_RequestOptions o) as [r|] eqn:Er.
  - specialize (Hm r). destruct (m r) as [x r']. simpl in *. unfold cache_view, request_opt. simpl. unfold constant.
    rewrite Eo. simpl. by rewrite Er, Hm.
  - unfold cache_view, request_opt. simpl. unfold constant. by rewrite Eo.
Qed.

Lemma keeps_request m : (forall r, names_of (snd (m r)) = names_of r) -> keeps (in_request m).
Proof. intros Hm t Ht. by apply (cache_ok_view t); [rewrite request_view|]. Qed.

Lemma render_fixes {C D} (g : C -> D) what text f put (c : C) :
  (forall s, g (put s c) = g c) -> g (snd (render what text f put c)) = g c.
Proof. intros Hp. unfold render. by destruct (GetParsedString text f); simpl. Qed.

Create HintDb keeps discriminated.

Ltac keeps := repeat first
  [ solve [auto with keeps nocore] | apply keeps_bind; [|intros ?] | apply keeps_when | apply keeps_wrap | apply keeps_rules
  | apply keeps_ret | apply keeps_fail | apply keeps_get | apply keeps_render; done | apply keeps_mod; done
  | apply keeps_request; intros ?; apply render_fixes; done ].

(** The name that is rendered is stored, and another name empties the cache. *)
Lemma keeps_proto_name full :
  keeps (smod (fun t => if bool_decide (proto_method t = Some full) then t else t{{protoFilesMethodDescriptor := None}}) ;;;
         in_proto (smod (fun p => p{{pf_FullMethod := full}}))).
Proof.
  intros t Ht. unfold sbind, smod at 1.
  destruct (bool_decide_reflect (proto_method t = Some full)) as [Hp|Hp].
  - apply (cache_ok_view t); [|done]. unfold in_proto, in_request, in_opt.
    unfold proto_method, request_opt in Hp. unfold cache_view, request_opt.
    destruct (grpc_AdvanceOptions t) as [o|] eqn:Eo; [|done]. simpl in *.
    destruct (go_RequestOptions o) as [r|] eqn:Er; [|done]. simpl in *.
    destruct (gr_ProtoFiles r) as [p|] eqn:Ef; [|done]. simpl in *. injection Hp as Hp.
    unfold constant, names_of. simpl. unfold constant. rewrite Ef, <- Hp. done.
  - destruct Ht as (H1 & _ & H3). unfold in_proto, in_request, in_opt, cache_ok, reflection_method, request_opt in *.
    destruct t as [? ? ? ? ? adv]. simpl in *. unfold constant.
    destruct adv as [[[[md to pf rf hc]|] crt sec]|]; [|done|done].
    simpl in *. destruct pf as [p|]; done.
Qed.

Lemma keeps_reflection_name full :
  keeps (smod (fun t => if bool_decide (reflection_method t = Some full) then t else t{{reflectionMethodDescriptor := None}}) ;;;
         in_reflection (smod (fun p => p{{rf_FullMethod := full}}))).
Proof.
  intros t Ht. unfold sbind, smod at 1.
  destruct (bool_decide_reflect (reflection_method t = Some full)) as [Hp|Hp].
  - apply (cache_ok_view t); [|done]. unfold in_reflection, in_request, in_opt.
    unfold reflection_method, request_opt in Hp. unfold cache_view, request_opt.
    destruct (grpc_AdvanceOptions t) as [o|] eqn:Eo; [|done]. simpl in *.
    destruct (go_RequestOptions o) as [r|] eqn:Er; [|done]. simpl in *.
    destruct (gr_Reflection r) as [p|] eqn:Ef; [|done]. simpl in *. injection Hp as Hp.
    unfold constant, names_of. simpl. unfold constant. rewrite Ef, <- Hp. done.
  - destruct Ht as (H1 & H2 & _). unfold in_reflection, in_request, in_opt, cache_ok, proto_files, request_opt in *.
    destruct t as [? ? ? ? ? adv]. simpl in *. unfold constant.
    destruct adv as [[[[md to pf rf hc]|] crt sec]|]; [|done|done].
    simpl in *. destruct rf as [p|]; done.
Qed.

(** A rendering of a part [q] that leaves [g] of it. *)
Ltac case_render g q :=
  match goal with
  | |- context [render ?w ?x ?f ?put q] =>
      let R := fresh "R" in
      pose proof (render_fixes g w x f put q (fun _ => eq_refl)) as R; destruct (render w x f put q) as [? ?]
  end.

Lemma keeps_renderProtoFiles f raw : keeps (renderProtoFiles f raw).
Proof.
  unfold renderProtoFiles. destruct raw as [p|]; [|keeps]. apply keeps_bind; [|intros ?]; apply keeps_when.
  - destruct (GetParsedString _ _); [apply keeps_proto_name|keeps].
  - unfold in_proto. apply keeps_request. intros r. unfold in_opt. destruct (gr_ProtoFiles r) as [q|] eqn:Eq; [|done].
    case_render (fun p => (pf_ProtoFiles p, pf_FullMethod p)) q. unfold names_of. rewrite Eq. f_equal. exact (f_equal Some R).
Qed.
#[local] Hint Resolve keeps_renderProtoFiles : keeps.

Lemma keeps_renderReflection f raw : keeps (renderReflection f raw).
Proof.
  unfold renderReflection. destruct raw as [p|]; [|keeps]. apply keeps_bind; [|intros ?]; apply keeps_when.
  - destruct (GetParsedString _ _); [apply keeps_reflection_name|keeps].
  - unfold in_reflection. apply keeps_request. intros r. unfold in_opt. destruct (gr_Reflection r) as [q|] eqn:Eq; [|done].
    case_render rf_FullMethod q. unfold names_of. rewrite Eq. f_equal. exact (f_equal Some R).
Qed.
#[local] Hint Resolve keeps_renderReflection : keeps.

Lemma keeps_renderHealthCheck f raw : keeps (renderHealthCheck f raw).
Proof.
  unfold renderHealthCheck. destruct raw as [h|]; [|keeps]. apply keeps_when, keeps_request. intros r.
  unfold in_opt. destruct (gr_HealthCheck r) as [q|]; [|done]. by destruct (render _ _ _ _ q) as [x q'].
Qed.
#[local] Hint Resolve keeps_renderHealthCheck : keeps.

Lemma keeps_renderTemplate decode f : keeps (grpc_renderTemplate decode f).
Proof.
  unfold grpc_renderTemplate. keeps.
  - destruct (grpc_rawTask _); [keeps|]. destruct (NewRawTask _ _); keeps.
  - destruct (grpc_rawTask _) as [raw|]; keeps. unfold grpc_renderAdvanceOptions.
    destruct (graw_AdvanceOptions raw) as [o|]; keeps. unfold grpc_renderRequestOptions.
    destruct (go_RequestOptions o) as [r|]; keeps.
    apply keeps_request. intros q. unfold zoom. by destruct (render_metadata _ _ _).
Qed.
#[local] Hint Resolve keeps_renderTemplate : keeps.

Lemma keeps_proto_find : keeps findMethodAmongProtofiles.
Proof.
  intros t Ht. unfold findMethodAmongProtofiles, cached.
  destruct (protoFilesMethodDescriptor t); [done|]. fold (proto_files t).
  destruct (proto_files t) as [p|] eqn:Ep; [|done]. destruct (find_proto p) as [md|e] eqn:Ef; [|done].
  destruct Ht as (H1 & _ & H3). split_and!; [done| |done]. intros m [= <-]. by exists p.
Qed.
#[local] Hint Resolve keeps_proto_find : keeps.

Lemma keeps_health_find : keeps findHealthCheckMethod.
Proof.
  intros t Ht. unfold findHealthCheckMethod, cached. destruct (healthMethodDescriptor t); [done|].
  destruct find_health as [md|e] eqn:Ef; [|done]. destruct Ht as (_ & H2 & H3). split_and!; [|done|done].
  by intros m [= <-].
Qed.
#[local] Hint Resolve keeps_health_find : keeps.

Lemma keeps_reflection_find symbol : symbol ∈ asked -> keeps (findMethodByReflection symbol).
Proof.
  intros Hs t Ht. unfold findMethodByReflection, cached. destruct (reflectionMethodDescriptor t); [done|].
  destruct (r ← request_opt t; gr_Reflection r) as [p|] eqn:Ep; [|done].
  destruct (find_reflection symbol (rf_FullMethod p)) as [md|e] eqn:Ef; [|done].
  destruct Ht as (H1 & H2 & _). split_and!; [done|done|]. intros m [= <-]. exists (rf_FullMethod p), symbol. split_and!; [done| |done].
  change (reflection_method t = Some (rf_FullMethod p)). unfold reflection_method.
  destruct (request_opt t) as [r|]; [|done]. simpl in *. by rewrite Ep.
Qed.
#[local] Hint Resolve keeps_reflection_find : keeps.

Lemma keeps_findMethod symbol : symbol ∈ asked -> keeps (findMethod symbol).
Proof.
  intros Hs.   unfold findMethod. keeps. destruct (request_opt _) as [r|]; [|keeps].
  destruct (gr_ProtoFiles r) as [p|], (gr_Reflection r), (gr_HealthCheck r); try destruct (bool_decide _); keeps.
Qed.

Lemma keeps_init : keeps grpc_init.
Proof.
  unfold grpc_init. keeps. destruct (request_opt _) as [r|]; keeps.
  - destruct (ParseDuration _); keeps.
  - destruct (buildTLSCredentials _); keeps.
Qed.
#[local] Hint Resolve keeps_init : keeps.

Lemma handshakes_view l : forall t, cache_view (fold_left (fun t h => ClientHandshake h t) l t) = cache_view t.
Proof. induction l as [|h l IH]; intros t; simpl; [done|]. rewrite IH. by destruct h as [[|[|[nb na] ps]]|e]. Qed.

Lemma handshakes_server l : forall t, Server (fold_left (fun t h => ClientHandshake h t) l t) = Server t.
Proof. induction l as [|h l IH]; intros t; simpl; [done|]. rewrite IH. by destruct h as [[|[|[nb na] ps]]|e]. Qed.

Lemma invoke_view net r m t : cache_view (grpc_invoke net r m t) = cache_view t.
Proof.
  unfold grpc_invoke. destruct (if (getJSONRequest t =? "")%string then _ else _) as [msg|e]; [|done].
  destruct (gn_invoke _ _ _ _ _) as [[[[j|e]|ty]|e] cost]; try done. destruct (_ =? "")%string; [done|].
  by destruct (postScriptDoGRPC _ _ _).
Qed.

Lemma run_keeps net t : gn_symbol net (Server t) ∈ asked -> cache_ok t -> cache_ok (snd (grpc_run net t)).
Proof.
  intros Hs Ht. unfold grpc_run. destruct (request_opt t) as [r|]; [|by apply (cache_ok_view t)].
  destruct (gn_dial _ _ _ _) as [hs err].
  set (t1 := if captures _ then _ else t). assert (H1 : cache_ok t1).
  { apply (cache_ok_view t); [|done]. unfold t1. destruct (captures _); [apply handshakes_view|done]. }
  assert (Server t1 = Server t) as Es by (unfold t1; destruct (captures _); [apply handshakes_server|done]).
  destruct err as [e|]; [by apply (cache_ok_view t1)|]. rewrite <- Es in Hs. pose proof (keeps_findMethod _ Hs t1 H1) as H2.
  destruct (findMethod _ t1) as [[m|[|e]] t2]; simpl in *; [|done|by apply (cache_ok_view t2)].
  apply (cache_ok_view t2); [apply invoke_view|done].
Qed.

(** The search finds what it would find with nothing cached, from the server that is asked
    now or from one that was asked before. *)
Lemma cached_find symbol t : cache_ok t ->
  exists s, (s = symbol \/ s ∈ asked) /\ fst (findMethod symbol t) = fst (findMethod s (drop_caches t)).
Proof.
  intros (H1 & H2 & H3). unfold findMethod, sbind, sget.
  change (request_opt (drop_caches t)) with (request_opt t).
  unfold proto_files, reflection_method in *. destruct (request_opt t) as [r|] eqn:Er; [|by exists symbol; eauto]. simpl in *.
  destruct (gr_ProtoFiles r) as [p|] eqn:Ep; [|destruct (gr_Reflection r) as [f|] eqn:Ef;
    [|destruct (gr_HealthCheck r); [|by exists symbol; eauto]]].
  - exists symbol. split; [by left|].
    destruct (bool_decide _); [done|]. unfold findMethodAmongProtofiles, cached. simpl.
    change (request_opt (drop_caches t)) with (request_opt t). rewrite Er. simpl. rewrite Ep.
    destruct (protoFilesMethodDescriptor t) as [md|]; [|by destruct (find_proto p)].
    destruct (H2 _ eq_refl) as (q & [= <-] & ->). done.
  - unfold findMethodByReflection, cached. simpl.
    change (request_opt (drop_caches t)) with (request_opt t). rewrite Er. simpl. rewrite Ef.
    destruct (reflectionMethodDescriptor t) as [md|]; [|exists symbol; split; [by left|by destruct (find_reflection _ _)]].
    destruct (H3 _ eq_refl) as (q & s & Hs & [= <-] & E). exists s. split; [by right|]. by rewrite E.
  - exists symbol. split; [by left|]. unfold findHealthCheckMethod, cached. simpl.
    destruct (healthMethodDescriptor t) as [md|]; [|by destruct find_health]. by rewrite (H1 _ eq_refl).
Qed.

Lemma keeps_task_init : keeps task_init.
Proof. unfold task_init. keeps. destruct (EqualFold _ _); keeps. Qed.
#[local] Hint Resolve keeps_task_init : keeps.

Lemma keeps_CheckTask : keeps CheckTask.
Proof. unfold CheckTask. keeps. destruct (bad_variable _); keeps. destruct (c_check _); keeps. Qed.

Lemma keeps_RenderTemplateAndInit clk gv : keeps (RenderTemplateAndInit clk gv).
Proof.
  unfold RenderTemplateAndInit. keeps. destruct (fm _); [apply keeps_wrap, keeps_renderTemplate|keeps].
Qed.

(** What a run does first. *)
Definition rerender (clk : Clock) : SM GRPCTask derr unit :=
  smod Clear ;;; c <~ sget ;;
  match fm (c_task c) with
  | Some f => swrap (ewrap "render template failed") (grpc_renderTemplate Unmarshal (funcs_at clk f))
  | None => sret tt
  end.

Lemma keeps_rerender clk : keeps (rerender clk).
Proof. unfold rerender. keeps. destruct (fm _); [apply keeps_wrap, keeps_renderTemplate|keeps]. Qed.
End cache.

Lemma cache_ok_more asked asked' t : asked ⊆ asked' -> cache_ok asked t -> cache_ok asked' t.
Proof.
  intros Ha (H1 & H2 & H3). split_and!; [done|done|]. intros md Hm.
  destruct (H3 _ Hm) as (full & s & Hs & E). exists full, s. split; [by apply Ha|done].
Qed.

(** No operation of a run changes the server that it has dialled. *)
Lemma find_server symbol t : Server (snd (findMethod symbol t)) = Server t.
Proof.
  unfold findMethod, sbind, sget, findMethodAmongProtofiles, findMethodByReflection, findHealthCheckMethod, cached.
  repeat case_match; simplify_eq/=; done.
Qed.

Lemma invoke_server net r m t : Server (grpc_invoke net r m t) = Server t.
Proof. unfold grpc_invoke. repeat case_match; simplify_eq/=; done. Qed.

Lemma run_server net t : Server (snd (grpc_run net t)) = Server t.
Proof.
  unfold grpc_run. destruct (request_opt t) as [r|]; [|done]. destruct (gn_dial _ _ _ _) as [hs err].
  set (t1 := if captures _ then _ else t).
  assert (Server t1 = Server t) as <- by (unfold t1; destruct (captures _); [apply handshakes_server|done]).
  destruct err as [e|]; [done|]. pose proof (find_server (gn_symbol net (Server t1)) t1) as F.
  destruct (findMethod _ t1) as [[m|[|e]] t2]; simpl in *; [by rewrite invoke_server|done|done].
Qed.

(** The tasks that a history leads to, with the answers of the servers that its runs have
    dialled: a new task has nothing cached; it is checked, rendered, run, whatever these
    return, whatever the clock and each run's network; a run dials the server that the task
    names when the run ends. *)
Inductive grpc_history : list (string -> Res string FileDescriptor) -> GRPCTask -> Prop :=
| H_new t : healthMethodDescriptor t = None -> protoFilesMethodDescriptor t = None ->
    reflectionMethodDescriptor t = None -> grpc_history [] t
| H_set g asked t : grpc_history asked t -> grpc_history asked (on_task g t)
| H_check asked t : grpc_history asked t -> grpc_history asked (snd (CheckTask t))
| H_render clk gv asked t : grpc_history asked t -> grpc_history asked (snd (RenderTemplateAndInit clk gv t))
| H_run clk hook net asked t : grpc_history asked t ->
    let t' := snd (Run clk hook net t) in grpc_history (gn_symbol net (Server t') :: asked) t'.

Lemma Run_cache clk hook net asked t : cache_ok asked t ->
  let t' := snd (Run clk hook net t) in cache_ok (gn_symbol net (Server t') :: asked) t'.
Proof.
  intros Ht. set (t1 := snd (rerender clk t)). pose proof (keeps_rerender asked clk t Ht) as H1. fold t1 in H1.
  assert (R : snd (Run clk hook net t) = t1 \/ snd (Run clk hook net t) = snd (grpc_run net t1) \/
              exists e, snd (Run clk hook net t) = grpc_fail e t1).
  { unfold t1, rerender, Run. cbv [sbind smod sget].
    change (@c_renderTemplate _ _ _) with (grpc_renderTemplate Unmarshal).
    match goal with |- context [?m (Clear t)] =>
      lazymatch m with match _ with Some _ => _ | None => _ end => destruct (m (Clear t)) as [[[]|e] t2]; [|by left] end end.
    right. destruct hook as [[e|]|]; [right; by exists e|by left|by left]. }
  intros t'. fold t' in R. destruct R as [->|[R|[e ->]]].
  - apply (cache_ok_more asked); [set_solver|done].
  - assert (Server t' = Server t1) as -> by (rewrite R; apply run_server).
    rewrite R. apply run_keeps; [by left|]. apply (cache_ok_more asked); [set_solver|done].
  - apply (cache_ok_view _ t1); [done|]. apply (cache_ok_more asked); [set_solver|done].
Qed.

Lemma history_cache asked t : grpc_history asked t -> cache_ok asked t.
Proof.
  induction 1 as [t N1 N2 N3|g asked t _ IH|asked t _ IH|clk gv asked t _ IH|clk hook net asked t _ IH].
  - unfold cache_ok. by rewrite N1, N2, N3.
  - by apply (cache_ok_view _ t).
  - by apply keeps_CheckTask.
  - by apply keeps_RenderTemplateAndInit.
  - by apply Run_cache.
Qed.

Lemma find_unreflected symbol symbol' t : reflection_method t = None ->
  fst (findMethod symbol (drop_caches t)) = fst (findMethod symbol' (drop_caches t)).
Proof.
  unfold reflection_method. change (request_opt t) with (request_opt (drop_caches t)).
  unfold findMethod, sbind, sget. destruct (request_opt (drop_caches t)) as [r|]; [|done]. simpl.
  by destruct (gr_ProtoFiles r), (gr_Reflection r).
Qed.

Lemma find_alike symbol symbol' t : (forall x, symbol x = symbol' x) ->
  fst (findMethod symbol (drop_caches t)) = fst (findMethod symbol' (drop_caches t)).
Proof.
  intros E. unfold findMethod, sbind, sget.
  assert (F : forall full, find_reflection symbol full = find_reflection symbol' full).
  { intros full. unfold find_reflection. destruct (_ =? "")%string; [done|]. destruct (split_method _) as [[a b]|]; [|done]. by rewrite E. }
  destruct (request_opt _) as [r|]; [|done]. destruct (gr_ProtoFiles r), (gr_Reflection r); try done.
  unfold findMethodByReflection, cached. destruct (reflectionMethodDescriptor _); [done|].
  destruct (r ← _; gr_Reflection r) as [f|]; [|done]. by rewrite F.
Qed.

(** C16: What the caches of a gRPC task can change.  Whatever its history, with templates that
    change its method and its server between runs, runs that fail at any point, and servers
    that answer differently from one run to the next, the search for the method gives the
    descriptor or the error that it gives with nothing cached, when the server that is asked
    is the current one or one that an earlier run has dialled; without reflection, or when
    these servers answer alike, the caches are not seen at all. *)
Theorem grpc_cache_transparent asked symbol t :
  grpc_history asked t ->
  (exists s, (s = symbol \/ s ∈ asked) /\ fst (findMethod symbol t) = fst (findMethod s (drop_caches t))) /\
  (reflection_method t = None \/ Forall (fun s => forall x, s x = symbol x) asked ->
   fst (findMethod symbol t) = fst (findMethod symbol (drop_caches t))).
Proof.
  intros Hh. pose proof (cached_find asked symbol t (history_cache _ _ Hh)) as (s & Hs & E).
  split; [by exists s|]. intros [N|F].
  - rewrite E. by apply find_unreflected.
  - rewrite E. destruct Hs as [->|Hs]; [done|]. apply find_alike. rewrite list.Forall_forall in F. by apply F.
Qed.

(** C12: For each of the six kinds of task with conditions: after a run, the results report
    success exactly when the request had no error and every condition of the task holds, for
    gRPC at least one of them; with the logic "or", exactly when it had no error and one
    condition holds.  Otherwise they report the reasons.  A status that the custom tags set
    is overwritten only by a success.  When the hook before the run fails, the result is a
    failure that names its error, whatever the network would answer. *)
Theorem dial_verdict `{!Json TCPTask} `{!Json ICMPTask} `{!Json WebsocketTask} `{!Json SSLTask} `{!Json HTTPTask} :
  verdict_sound TCPTask tcp_net false /\ verdict_sound ICMPTask icmp_net false /\
  verdict_sound WebsocketTask ws_net false /\ verdict_sound SSLTask ssl_net false /\
  verdict_sound HTTPTask http_net false /\ verdict_sound GRPCTask grpc_net true.
Proof.
  exact (conj (verdict_of_laws (C := TCPTask)) (conj (verdict_of_laws (C := ICMPTask))
    (conj (verdict_of_laws (C := WebsocketTask)) (conj (verdict_of_laws (C := SSLTask))
    (conj (verdict_of_laws (C := HTTPTask)) (verdict_of_laws (C := GRPCTask))))))).
Qed.
End grpc.

(** A line with a lone quotation mark makes the search for imports panic, and with it the
    check of a task that has such a proto file. *)
Lemma lone_quote_panics : extractImports ("import " +:+ quote_mark +:+ ";") = Err EPanic.
Proof. vm_compute. reflexivity. Qed.

Lemma imports_example :
  extractImports ("import " +:+ quote_mark +:+ "a.proto" +:+ quote_mark +:+ "; // x" +:+ String newline
    ("import public " +:+ quote_mark +:+ "b.proto" +:+ quote_mark +:+ ";")) = Ok ["a.proto"; "b.proto"].
Proof. vm_compute. reflexivity. Qed.

(** The map of proto files is complete: a file that is imported is one of them. *)
Lemma missing_imports_none files l : missing_imports files l = Ok [] ->
  forall name content imps i, (name, content) ∈ l -> extractImports content = Ok imps -> i ∈ imps -> is_Some (files !! i).
Proof.
  induction l as [|[n c] l IH]; simpl; intros E name content imps i Hin Hx Hi; [by apply elem_of_nil in Hin|].
  destruct (extractImports c) as [imps'|] eqn:Ec; [|done]. destruct (missing_imports files l) as [r|]; [|done].
  injection E as Ea. apply app_eq_nil in Ea as [Ef ->]. apply elem_of_cons in Hin as [[= -> ->]|Hin]; [|by eapply IH].
  rewrite Ec in Hx. injection Hx as ->. destruct (files !! i) eqn:El; [done|]. exfalso.
  apply list_elem_of_In in Hi. assert (In i []) as []. rewrite <- Ef. apply filter_In. by rewrite El.
Qed.

(** ** Instances *)

#[local] Existing Instance demo_std.

(** Descriptors are names. *)
#[local] Instance demo_pdesc : Pdesc := {
  FileDescriptor := string; ServiceDescriptor := string; MethodDescriptor := string; Message := string;
  FindService := fun fd s => if (fd =? s)%string then Some s else None;
  FindMethodByName := fun s m => if (m =? "")%string then None else Some (s +:+ "." +:+ m);
  ParseFiles := fun files names => Ok names; health_file := None; NewMessage := fun m => m; UnmarshalJSON := fun m s => Ok s
}.

#[local] Instance demo_grpc_json : Json GRPCTask := { Unmarshal := fun _ => Err ""; MarshalTask := Server }.

Definition demo_grpc_options (method : string) : option GRPCAdvanceOption :=
  Some (mkGrpcAdvance (Some (mkGrpcReq ∅ "" None (Some (mkReflection method "")) None)) None None).

(** A task whose method is [S/One] until its templates are rendered, then [S/Two]. *)
Definition demo_grpc : GRPCTask :=
  mkGRPC zero_task "host:1" "" "" [Some (mkGrpcSuccess [Some (mkOption "" "" "" "" None None "up" "")] "" 0)]
    (demo_grpc_options "S/One") (Some CInsecure) None "" 0 0 None 0 0
    (Some (mkGrpcRaw "host:1" [None] (demo_grpc_options "S/Two"))) None None None.

Definition demo_grpc_net : grpc_net :=
  mkGrpcNet (fun _ _ _ => ([], None)) (fun server s => Ok s) (fun _ _ m msg => (Ok (RDynamic (Ok (m +:+ " is up"))), 5))
    (fun _ _ => Err "").

Definition demo_grpc_run : GRPCTask := snd (Run demo_clock None demo_grpc_net demo_grpc).

Lemma demo_grpc_history : grpc_history [gn_symbol demo_grpc_net "host:1"] (snd (RenderTemplateAndInit demo_clock ∅ demo_grpc_run)).
Proof. apply H_render. apply (H_run demo_clock None demo_grpc_net [] demo_grpc). by apply H_new. Defined.

(** The first run caches one method; the search after rendering finds the other. *)
Lemma grpc_cache_transparent_witness :
  reflectionMethodDescriptor demo_grpc_run = Some "S.One" /\
  fst (findMethod (gn_symbol demo_grpc_net "host:1") (snd (RenderTemplateAndInit demo_clock ∅ demo_grpc_run))) = Ok "S.Two".
Proof.
  split; [vm_compute; reflexivity|].
  destruct (@grpc_cache_transparent demo_std demo_pdesc demo_grpc_json _ (gn_symbol demo_grpc_net "host:1") _ demo_grpc_history) as [_ T].
  rewrite T; [vm_compute; reflexivity|]. right. by repeat constructor.
Defined.

(** A descriptor outlives the server it came from: after the server of the task has changed
    to one that does not know the service, the method is still found. *)
Lemma stale_descriptor :
  let t := demo_grpc_run{{Server := "host:2"}} in
  fst (findMethod (fun _ => Err "unknown service") t) = Ok "S.One" /\
  fst (findMethod (fun _ => Err "unknown service") (drop_caches t)) = Err (EMsg "unknown service").
Proof. vm_compute. done. Qed.

#[local] Existing Instance demo_tcp_json.

#[local] Instance no_json {C} : Json C | 1000 := { Unmarshal := fun _ => Err ""; MarshalTask := fun _ => "" }.

(** The answer contains what is expected: a success; with a hook that fails: a failure. *)
Lemma dial_verdict_witness :
  snd (fst (GetResults 0 demo_tcp_after)) !! "success" = Some (FInt 1) /\
  snd (fst (GetResults 0 demo_tcp_hooked)) !! "success" = Some (FInt (-1)) /\ "denied" ∈ d_reasons demo_tcp_hooked.
Proof.
  destruct (GetResults 0 demo_tcp_after) as [[tags fields] c'] eqn:G.
  destruct (GetResults 0 demo_tcp_hooked) as [[tags1 fields1] c1] eqn:G1.
  destruct (@dial_verdict demo_std demo_pdesc demo_grpc_json demo_tcp_json no_json no_json no_json no_json) as [V _].
  destruct (V demo_clock None demo_tcp_net demo_tcp demo_tcp_after 0 _ _ _ demo_tcp_runs G) as (ok & P & _ & S & _).
  destruct (V demo_clock (Some (Some "denied")) demo_tcp_net demo_tcp demo_tcp_hooked 0 _ _ _ demo_tcp_stops G1)
    as (ok1 & _ & _ & S1 & _ & Hk).
  assert (ok = true) as -> by (apply P; split; [done|split; [by repeat constructor|done]]).
  destruct (Hk "denied" eq_refl) as [-> I]; [done|]. split_and!; [exact S|exact S1|exact I].
Defined.

(** The verdict of a rule that checks nothing: no reason, and a failure. *)
Lemma grpc_empty_rule_fails :
  let t := snd (Run demo_clock None demo_grpc_net demo_grpc{{grpc_SuccessWhen := [Some (mkGrpcSuccess [] "" 0)] }}) in
  d_reasons t = [] /\ d_error t = "" /\ d_ok t = false.
Proof. vm_compute. done. Qed.
