(* ===== verification/DialPath.v ===== *)
(** * Dial testing: network-path tasks ([src/dialtesting/netpath.go])

    The task validates its options, renders its templates and hands a normalised probe
    configuration to an executor that the caller owns; the executor's interface is the class
    [NetPathExecutor] over the type of its states.  The JSON texts of targets are kept raw;
    what is used of the decoder is the class [PathJson].  The limits of a probe are checked at
    init and not again at a run, which renders the templates again. *)

From S2P Require Import Prelude GoNum GoStrings FilterLex GoStrconv DialTask DialNet DialTls DialHttp DialMulti DialThms DialGrpc.

(** ** Options *)

Definition defaultNetPathTimeout : Z := Second.
Definition maxNetPathTimeout : Z := 30 * Second.
Definition defaultNetPathTTL : Z := 30.
Definition maxNetPathTTL : Z := 60.
Definition maxUDPNetPathTTL : Z := 255.
Definition defaultNetPathE2EQueries : Z := 10.
Definition maxNetPathE2EQueries : Z := 100.
Definition defaultNetPathTracerouteQueries : Z := 3.
Definition maxNetPathTracerouteQueries : Z := 10.

Record NetPathAdvanceOptions := mkPathOpt {
  po_Timeout : string; po_SourceName : string; po_TargetName : string;
  po_MaxTTL : Z; po_E2EQueries : Z; po_TracerouteQueries : Z
}.

(** The target is a raw JSON text. *)
Record NetPathCondition := mkPathCond { pc_Op : string; pc_Target : string }.

Record NetPathSuccess := mkPathSuccess {
  E2ERTTAvg : list (option NetPathCondition); E2ERTTMin : list (option NetPathCondition);
  E2ERTTMax : list (option NetPathCondition); E2ERTTVariationAvg : list (option NetPathCondition);
  E2ERTTVariationMax : list (option NetPathCondition); E2EProbeLossPercent : list (option NetPathCondition);
  HopCount : list (option NetPathCondition); E2EStatus : list (option NetPathCondition);
  TracerouteStatus : list (option NetPathCondition)
}.

Record NetPathProbeConfig := mkProbe {
  pb_ID : string; pb_Name : string; pb_Host : string; pb_Port : Z; pb_Protocol : string; pb_Timeout : Z;
  pb_MaxTTL : Z; pb_TracerouteQueries : Z; pb_E2EQueries : Z; pb_ScheduledAt : option Z
}.

(** What the executor does: a run may return an error. *)
Class NetPathExecutor (X : Type) := {
  x_Run : NetPathProbeConfig -> X -> option string * X;
  x_Clear : X -> X;
  x_CheckResult : X -> list string * bool;
  x_GetResults : X -> tagmap * fieldmap;
  x_SetError : string -> X -> X
}.

(** [json.Unmarshal] of a raw text to a string, or to a pointer to a number (no pointer for
    null); [json.Marshal] of a raw text, which compacts it; [json.Marshal] of the options. *)
Class PathJson := {
  raw_string : string -> option string;
  raw_number : string -> option (option spec_float);
  raw_compact : string -> Res string string;
  marshal_path : string -> string -> string -> NetPathAdvanceOptions -> list (option NetPathSuccess) -> string -> option string
}.

Definition ClassNetPath : string := "NETPATH".

(** [strconv.ParseUint(s, 10, 16)]. *)
Fixpoint digits_value (s : string) (n : Z) : Z :=
  match s with EmptyString => n | String a s' => digits_value s' (n * 10 + (Z.of_N (Ascii.N_of_ascii a) - 48)) end.

Definition ParsePort (s : string) : option Z :=
  if (s =? "")%string || negb (all_digits s) then None
  else let n := digits_value s 0 in if n <=? 65535 then Some n else None.

(** ** Conditions *)

Definition isNetPathStatusField (field : string) : bool := ((field =? "e2e_status") || (field =? "traceroute_status"))%string.
Definition isNetPathDurationField (field : string) : bool := String.prefix "e2e_rtt" field.

Definition assertions (s : NetPathSuccess) : list (string * list (option NetPathCondition)) :=
  [("e2e_rtt_avg", E2ERTTAvg s); ("e2e_rtt_min", E2ERTTMin s); ("e2e_rtt_max", E2ERTTMax s);
   ("e2e_rtt_variation_avg", E2ERTTVariationAvg s); ("e2e_rtt_variation_max", E2ERTTVariationMax s);
   ("e2e_probe_loss_percent", E2EProbeLossPercent s); ("hop_count", HopCount s); ("e2e_status", E2EStatus s);
   ("traceroute_status", TracerouteStatus s)].

Section path.
Context `{Std} `{PathJson} {X : Type} `{!NetPathExecutor X}.

Definition stringTarget (c : NetPathCondition) : Res string string :=
  match raw_string (pc_Target c) with
  | Some s => if (TrimSpace s =? "")%string then Err "target must be a non-empty string" else Ok s
  | None => Err "target must be a non-empty string"
  end.

Definition durationTarget (c : NetPathCondition) : Res string Z :=
  match stringTarget c with
  | Err e => Err e
  | Ok s =>
      match ParseDuration s with
      | Ok d => if d <? 0 then Err "target must be a duration" else Ok d
      | Err _ => Err "target must be a duration"
      end
  end.

Definition numberTarget (c : NetPathCondition) : Res string spec_float :=
  match raw_number (pc_Target c) with Some (Some f) => Ok f | _ => Err "target must be numeric" end.

Definition target_error {A} (field : string) (r : Res string A) : option derr :=
  match r with Ok _ => None | Err e => Some (EMsg (field +:+ ": " +:+ e)) end.

Definition number_ops : list string := ["eq"; "lt"; "leq"; "gt"; "geq"].

Definition validateNetPathCondition (field : string) (c : option NetPathCondition) : option derr :=
  match c with
  | None => Some (EMsg (field +:+ " assertion is null"))
  | Some c =>
      let op := ToLower (TrimSpace (pc_Op c)) in
      if isNetPathStatusField field then
        if negb (op =? "eq")%string then Some (EMsg (field +:+ " only supports eq")) else target_error field (stringTarget c)
      else if negb (existsb (String.eqb op) number_ops)
      then Some (EMsg (field +:+ " has unsupported operator " +:+ quote (pc_Op c)))
      else if isNetPathDurationField field then target_error field (durationTarget c)
      else target_error field (numberTarget c)
  end.

(** Every condition of a task with its field, in the order of the loops. *)
Definition all_conditions (l : list (option NetPathSuccess)) : list (string * option NetPathCondition) :=
  flat_map (fun s => flat_map (fun a => map (pair (fst a)) (snd a)) (assertions s)) (omap id l).

Fixpoint first_error {A} (f : A -> option derr) (l : list A) : option derr :=
  match l with [] => None | a :: l' => match f a with Some e => Some e | None => first_error f l' end end.

Definition validateAssertions (when : list (option NetPathSuccess)) (logic : string) : option derr :=
  match when with
  | [] => Some (EMsg "success_when is required")
  | _ =>
      if negb (existsb (String.eqb (ToLower (TrimSpace logic))) [""; "and"; "or"])
      then Some (EMsg "success_when_logic must be and or or")
      else
        let l := all_conditions when in
        match first_error (fun fc => validateNetPathCondition (fst fc) (snd fc)) l with
        | Some e => Some e
        | None => if bool_decide (length l = 0%nat) then Some (EMsg "success_when must contain at least one assertion") else None
        end
  end.

(** ** The task *)

Record path_raw := mkPathRaw {
  praw_Protocol : string; praw_Host : string; praw_Port : string; praw_AdvanceOptions : NetPathAdvanceOptions;
  praw_SuccessWhen : list (option NetPathSuccess); praw_Logic : string
}.

Record NetPathTask := mkPath {
  path_task : Task;
  path_Protocol : string; path_Host : string; path_Port : string; path_AdvanceOptions : NetPathAdvanceOptions;
  path_SuccessWhen : list (option NetPathSuccess); path_Logic : string;
  path_rawTask : option path_raw; executor : option X
}.

Definition SetExecutor (x : option X) (t : NetPathTask) : NetPathTask := t{{executor := x}}.

Definition hasUnrenderedTemplate (t : NetPathTask) : bool :=
  match marshal_path (path_Protocol t) (path_Host t) (path_Port t) (path_AdvanceOptions t) (path_SuccessWhen t) (path_Logic t) with
  | Some s => hasTemplateTags s
  | None => false
  end.

(** Values are not validated before templates are rendered. *)
Definition deferred (t : NetPathTask) : bool :=
  match path_rawTask t with None => hasUnrenderedTemplate t | Some _ => false end.

Definition path_check (t : NetPathTask) : option derr :=
  if deferred t then None
  else if (TrimSpace (path_Host t) =? "")%string then Some (EMsg "host should not be empty")
  else
    let protocol := ToLower (TrimSpace (path_Protocol t)) in
    if negb (existsb (String.eqb protocol) ["tcp"; "udp"; "icmp"])
    then Some (EMsg ("unsupported protocol " +:+ quote (path_Protocol t)))
    else if match ParseIP (TrimSpace (path_Host t)) with Some ip => negb (To4 ip) | None => false end
    then Some (EMsg "IPv6 host is not supported")
    else if (protocol =? "icmp")%string then
      if negb (TrimSpace (path_Port t) =? "")%string then Some (EMsg "port must be omitted for ICMP") else None
    else match ParsePort (TrimSpace (path_Port t)) with
         | None | Some 0 => Some (EMsg "port must be between 1 and 65535")
         | Some _ => None
         end.

Definition or_default (x dflt : Z) : Z := if x =? 0 then dflt else x.

Definition probeConfig (scheduledAt : option Z) (t : NetPathTask) : Res derr NetPathProbeConfig :=
  let port := if negb (TrimSpace (path_Port t) =? "")%string
              then match ParsePort (TrimSpace (path_Port t)) with None | Some 0 => None | Some n => Some n end
              else Some 0 in
  match port with
  | None => Err (EMsg "port must be between 1 and 65535")
  | Some port =>
      let o := path_AdvanceOptions t in
      let value := TrimSpace (po_Timeout o) in
      match (if negb (value =? "")%string then ParseDuration value else Ok defaultNetPathTimeout) with
      | Err e => Err (EMsg ("invalid timeout: " +:+ e))
      | Ok timeout =>
          Ok (mkProbe (ExternalID (path_task t)) (Name (path_task t)) (TrimSpace (path_Host t)) port
                (ToLower (TrimSpace (path_Protocol t))) timeout (or_default (po_MaxTTL o) defaultNetPathTTL)
                (or_default (po_TracerouteQueries o) defaultNetPathTracerouteQueries)
                (or_default (po_E2EQueries o) defaultNetPathE2EQueries) scheduledAt)
      end
  end.

Definition validateNetPathProbeConfig (c : NetPathProbeConfig) : option derr :=
  let limit := if (pb_Protocol c =? "udp")%string then maxUDPNetPathTTL else maxNetPathTTL in
  if (pb_Timeout c <? Second) || (maxNetPathTimeout <? pb_Timeout c)
  then Some (EMsg ("timeout must be between 1s and " +:+ fmt_dur maxNetPathTimeout))
  else if (pb_MaxTTL c <? 1) || (limit <? pb_MaxTTL c)
  then Some (EMsg ("max_ttl must be between 1 and " +:+ FormatInt limit))
  else if (pb_TracerouteQueries c <? 1) || (maxNetPathTracerouteQueries <? pb_TracerouteQueries c)
  then Some (EMsg ("traceroute_queries must be between 1 and " +:+ FormatInt maxNetPathTracerouteQueries))
  else if (pb_E2EQueries c <? 1) || (maxNetPathE2EQueries <? pb_E2EQueries c)
  then Some (EMsg ("e2e_queries must be between 1 and " +:+ FormatInt maxNetPathE2EQueries))
  else None.

Definition fail_if (e : option derr) : SM NetPathTask derr unit := match e with Some e => sfail e | None => sret tt end.

Definition path_init : SM NetPathTask derr unit :=
  t <~ sget ;;
  if EqualFold (CurStatus (path_task t)) StatusStop then sret tt
  else if deferred t then sret tt
  else
    fail_if (path_check t) ;;;
    match probeConfig None t with
    | Err e => sfail e
    | Ok config =>
        fail_if (validateNetPathProbeConfig config) ;;;
        fail_if (validateAssertions (path_SuccessWhen t) (path_Logic t))
    end.

(** A run at a time. *)
Definition path_run (now : Z) : SM NetPathTask derr unit := fun t =>
  match executor t with
  | None => (Err (EMsg "netpath executor is not configured"), t)
  | Some x =>
      match probeConfig (Some now) t with
      | Err e => (Err e, t)
      | Ok config =>
          let '(err, x') := x_Run config x in
          (Ok tt, t{{executor := Some (match err with Some e => x_SetError e x' | None => x' end)}})
      end
  end.

Definition path_clear (t : NetPathTask) : NetPathTask :=
  match executor t with Some x => t{{executor := Some (x_Clear x)}} | None => t end.

Definition path_checkResult (t : NetPathTask) : list string * bool :=
  match executor t with None => (["netpath executor is not configured"], false) | Some x => x_CheckResult x end.

Definition path_getResults (now : Z) (t : NetPathTask) : tagmap * fieldmap :=
  match executor t with None => (∅, ∅) | Some x => x_GetResults x end.

Definition path_setReqError (e : string) (t : NetPathTask) : NetPathTask :=
  match executor t with Some x => t{{executor := Some (x_SetError e x)}} | None => t end.

Definition path_getHostName (t : NetPathTask) : Res string (list string) :=
  let host := TrimSpace (path_Host t) in
  if (host =? "")%string then Err "host should not be empty" else Ok [host].

(** ** Templates *)

Definition renderNetPathConditionTarget (field : string) (f : FuncMap) : SM NetPathCondition derr unit :=
  c <~ sget ;;
  match raw_string (pc_Target c) with
  | None => sret tt
  | Some target =>
      match GetParsedString target f with
      | Err e => sfail (ewrap ("render " +:+ field +:+ " target failed") e)
      | Ok rendered =>
          let text := smod (fun c => c{{pc_Target := json_string rendered}}) in
          if negb (isNetPathStatusField field) && negb (isNetPathDurationField field) && hasTemplateTags target then
            match raw_number rendered with
            | Some (Some _) => smod (fun c => c{{pc_Target := rendered}})
            | _ => text
            end
          else text
      end
  end.

Definition render_condition (f : FuncMap) (field : string) : SM NetPathCondition derr unit :=
  c <~ sget ;;
  render (field +:+ " operator") (pc_Op c) f (fun s c => c{{pc_Op := s}}) ;;;
  renderNetPathConditionTarget field f.

Definition render_conditions (f : FuncMap) (field : string) : SM (list (option NetPathCondition)) derr unit :=
  each (opt_do (render_condition f field)).

(** The conditions of each field, in the order of [assertions]. *)
Definition render_path_rule (f : FuncMap) : SM NetPathSuccess derr unit :=
  zoom E2ERTTAvg (fun l s => s{{E2ERTTAvg := l}}) (render_conditions f "e2e_rtt_avg") ;;;
  zoom E2ERTTMin (fun l s => s{{E2ERTTMin := l}}) (render_conditions f "e2e_rtt_min") ;;;
  zoom E2ERTTMax (fun l s => s{{E2ERTTMax := l}}) (render_conditions f "e2e_rtt_max") ;;;
  zoom E2ERTTVariationAvg (fun l s => s{{E2ERTTVariationAvg := l}}) (render_conditions f "e2e_rtt_variation_avg") ;;;
  zoom E2ERTTVariationMax (fun l s => s{{E2ERTTVariationMax := l}}) (render_conditions f "e2e_rtt_variation_max") ;;;
  zoom E2EProbeLossPercent (fun l s => s{{E2EProbeLossPercent := l}}) (render_conditions f "e2e_probe_loss_percent") ;;;
  zoom HopCount (fun l s => s{{HopCount := l}}) (render_conditions f "hop_count") ;;;
  zoom E2EStatus (fun l s => s{{E2EStatus := l}}) (render_conditions f "e2e_status") ;;;
  zoom TracerouteStatus (fun l s => s{{TracerouteStatus := l}}) (render_conditions f "traceroute_status").

Definition renderNetPathSuccessWhen (f : FuncMap) : SM (list (option NetPathSuccess)) derr unit :=
  each (opt_do (render_path_rule f)).

(** The copy of raw rules that JSON makes: targets are compacted. *)
Fixpoint clone_list {A B} (m : A -> Res string B) (l : list (option A)) : Res string (list (option B)) :=
  match l with
  | [] => Ok []
  | o :: l' =>
      match (match o with Some a => match m a with Ok b => Ok (Some b) | Err e => Err e end | None => Ok None end) with
      | Err e => Err e
      | Ok b => match clone_list m l' with Err e => Err e | Ok r => Ok (b :: r) end
      end
  end.

Definition clone_conditions : list (option NetPathCondition) -> Res string (list (option NetPathCondition)) :=
  clone_list (fun c => match raw_compact (pc_Target c) with Ok s => Ok c{{pc_Target := s}} | Err e => Err e end).

Definition clone_rule (s : NetPathSuccess) : Res string NetPathSuccess :=
  match clone_conditions (E2ERTTAvg s), clone_conditions (E2ERTTMin s), clone_conditions (E2ERTTMax s),
        clone_conditions (E2ERTTVariationAvg s), clone_conditions (E2ERTTVariationMax s),
        clone_conditions (E2EProbeLossPercent s), clone_conditions (HopCount s), clone_conditions (E2EStatus s),
        clone_conditions (TracerouteStatus s) with
  | Ok a, Ok b, Ok c, Ok d, Ok e, Ok f, Ok g, Ok h, Ok i => Ok (mkPathSuccess a b c d e f g h i)
  | Err e, _, _, _, _, _, _, _, _ | _, Err e, _, _, _, _, _, _, _ | _, _, Err e, _, _, _, _, _, _
  | _, _, _, Err e, _, _, _, _, _ | _, _, _, _, Err e, _, _, _, _ | _, _, _, _, _, Err e, _, _, _
  | _, _, _, _, _, _, Err e, _, _ | _, _, _, _, _, _, _, Err e, _ | _, _, _, _, _, _, _, _, Err e => Err e
  end.

Definition cloneNetPathSuccessWhen (l : list (option NetPathSuccess)) : Res derr (list (option NetPathSuccess)) :=
  match clone_list clone_rule l with
  | Ok l => Ok l
  | Err e => Err (EMsg ("marshal raw NETPATH success_when failed: " +:+ e))
  end.

(** [decode] decodes the JSON text of a task.  A text whose rendering fails is emptied: the
    assignment takes both results. *)
Definition render_assign {C} (what text : string) (f : FuncMap) (put : string -> C -> C) : SM C derr unit :=
  match GetParsedString text f with
  | Ok s => smod (put s)
  | Err e => smod (put "") ;;; sfail (ewrap ("render " +:+ what +:+ " failed") e)
  end.

Definition in_path_options (m : SM NetPathAdvanceOptions derr unit) : SM NetPathTask derr unit :=
  zoom path_AdvanceOptions (fun o t => t{{path_AdvanceOptions := o}}) m.

Definition render_raw (f : FuncMap) (raw : path_raw) : SM NetPathTask derr unit :=
  render_assign "protocol" (praw_Protocol raw) f (fun s t => t{{path_Protocol := s}}) ;;;
  render_assign "host" (praw_Host raw) f (fun s t => t{{path_Host := s}}) ;;;
  render_assign "port" (praw_Port raw) f (fun s t => t{{path_Port := s}}) ;;;
  render_assign "success_when_logic" (praw_Logic raw) f (fun s t => t{{path_Logic := s}}) ;;;
  smod (fun t => t{{path_AdvanceOptions := praw_AdvanceOptions raw}}) ;;;
  in_path_options (render_assign "advance_options.timeout" (po_Timeout (praw_AdvanceOptions raw)) f (fun s o => o{{po_Timeout := s}})) ;;;
  in_path_options (render_assign "advance_options.source_name" (po_SourceName (praw_AdvanceOptions raw)) f (fun s o => o{{po_SourceName := s}})) ;;;
  in_path_options (render_assign "advance_options.target_name" (po_TargetName (praw_AdvanceOptions raw)) f (fun s o => o{{po_TargetName := s}})) ;;;
  match cloneNetPathSuccessWhen (praw_SuccessWhen raw) with
  | Err e => smod (fun t => t{{path_SuccessWhen := [] }}) ;;; sfail e
  | Ok l =>
      smod (fun t => t{{path_SuccessWhen := l}}) ;;;
      zoom path_SuccessWhen (fun l t => t{{path_SuccessWhen := l}}) (renderNetPathSuccessWhen f)
  end.

Definition path_renderTemplate (decode : string -> Res string NetPathTask) (f : FuncMap) : SM NetPathTask derr unit :=
  t <~ sget ;;
  (match path_rawTask t with
   | Some _ => sret tt
   | None =>
       match NewRawTask decode (path_task t) with
       | Err e => sfail (ewrap "new raw NETPATH task failed" e)
       | Ok r => smod (fun t => t{{path_rawTask := Some (mkPathRaw (path_Protocol r) (path_Host r) (path_Port r)
                                   (path_AdvanceOptions r) (path_SuccessWhen r) (path_Logic r))}})
       end
   end) ;;;
  t <~ sget ;;
  match path_rawTask t with
  | None => sfail (EMsg "raw NETPATH task is nil")
  | Some raw => render_raw f raw
  end.

Context `{!Json NetPathTask}.

#[export] Instance path_child : TaskChild NetPathTask Z := {
  c_task := path_task; c_put := fun x t => t{{path_task := x}}; c_run := path_run; c_init := path_init;
  c_check := path_check; c_clear := path_clear; c_checkResult := path_checkResult;
  c_getResults := path_getResults; c_renderTemplate := path_renderTemplate Unmarshal;
  c_getRawTask := fun _ => raw_task "NETPATH"; c_setReqError := path_setReqError;
  c_getHostName := path_getHostName; c_class := fun _ => ClassNetPath
}.

(** ** The limits of a probe *)

Definition path_limits (c : NetPathProbeConfig) : Prop :=
  pb_Host c <> "" /\ In (pb_Protocol c) ["tcp"; "udp"; "icmp"] /\
  (if (pb_Protocol c =? "icmp")%string then pb_Port c = 0 else 1 <= pb_Port c <= 65535) /\
  Second <= pb_Timeout c <= maxNetPathTimeout /\
  1 <= pb_MaxTTL c <= (if (pb_Protocol c =? "udp")%string then maxUDPNetPathTTL else maxNetPathTTL) /\
  1 <= pb_TracerouteQueries c <= maxNetPathTracerouteQueries /\ 1 <= pb_E2EQueries c <= maxNetPathE2EQueries.

Lemma validate_limits c : validateNetPathProbeConfig c = None ->
  Second <= pb_Timeout c <= maxNetPathTimeout /\
  1 <= pb_MaxTTL c <= (if (pb_Protocol c =? "udp")%string then maxUDPNetPathTTL else maxNetPathTTL) /\
  1 <= pb_TracerouteQueries c <= maxNetPathTracerouteQueries /\ 1 <= pb_E2EQueries c <= maxNetPathE2EQueries.
Proof.
  unfold validateNetPathProbeConfig. generalize (if (pb_Protocol c =? "udp")%string then maxUDPNetPathTTL else maxNetPathTTL).
  intros m. do 4 (match goal with |- context [if ?b then _ else _] => destruct b eqn:? end; [discriminate|]). intros _.
  repeat match goal with E : _ || _ = false |- _ => apply orb_false_iff in E as [?%Z.ltb_ge ?%Z.ltb_ge] end. lia.
Qed.

Lemma digits_nonneg s : forall n, 0 <= n -> all_digits s = true -> 0 <= digits_value s n.
Proof.
  induction s as [|a s IH]; intros n Hn; simpl; [done|]. rewrite andb_true_iff. intros [Ha Hs].
  apply IH; [|done]. apply andb_true_iff in Ha as [Ha _]. apply N.leb_le in Ha. lia.
Qed.

Lemma port_range s n : ParsePort s = Some n -> 0 <= n <= 65535.
Proof.
  unfold ParsePort. destruct (_ || negb (all_digits s)) eqn:E; [done|]. apply orb_false_iff in E as [_ E%negb_false_iff].
  destruct (Z.leb_spec (digits_value s 0) 65535); [|done]. intros [= <-]. split; [by apply digits_nonneg|done].
Qed.

(** A configuration of a task that passes the check has a host, a protocol and a port. *)
Lemma check_config t at_ c : path_check t = None -> deferred t = false -> probeConfig at_ t = Ok c ->
  pb_Host c <> "" /\ In (pb_Protocol c) ["tcp"; "udp"; "icmp"] /\
  (if (pb_Protocol c =? "icmp")%string then pb_Port c = 0 else 1 <= pb_Port c <= 65535).
Proof.
  unfold path_check, probeConfig. intros Hc Hd Hp. rewrite Hd in Hc.
  destruct (String.eqb_spec (TrimSpace (path_Host t)) "") as [|Hh]; [done|].
  destruct (negb (existsb _ _)) eqn:Ex; [done|]. apply negb_false_iff in Ex.
  destruct (match ParseIP _ with Some _ => _ | None => _ end); [done|].
  assert (Hproto : In (ToLower (TrimSpace (path_Protocol t))) ["tcp"; "udp"; "icmp"]).
  { apply existsb_exists in Ex as (p & Hin & <-%String.eqb_eq). done. }
  set (pr := ToLower (TrimSpace (path_Protocol t))) in *.
  set (ps := TrimSpace (path_Port t)) in *.
  destruct (if negb (ps =? "")%string then match ParsePort ps with None | Some 0 => None | Some n => Some n end else Some 0)
    as [port|] eqn:Eport; [|done].
  destruct (if negb _ then ParseDuration _ else _) as [d|e]; [|done]. injection Hp as <-. simpl.
  split_and!; [done|done|]. destruct (pr =? "icmp")%string.
  - destruct (ps =? "")%string; [|done]. simpl in Eport. by injection Eport as <-.
  - destruct (ParsePort ps) as [n|] eqn:En; [|done]. pose proof (port_range _ _ En).
    destruct (ps =? "")%string eqn:Es.
    + apply String.eqb_eq in Es. by rewrite Es in En.
    + simpl in Eport. destruct n; [done| |lia]. injection Eport as <-. lia.
Qed.

(** What a probe is made of, but for the names of the task. *)
Definition config_of (t : NetPathTask) :=
  let o := path_AdvanceOptions t in
  (path_Protocol t, path_Host t, path_Port t, po_Timeout o, (po_MaxTTL o, po_TracerouteQueries o, po_E2EQueries o)).

Definition within (t : NetPathTask) : Prop := forall at_, exists c, probeConfig at_ t = Ok c /\ path_limits c /\ pb_ScheduledAt c = at_.

Lemma within_config t t' : config_of t = config_of t' -> within t -> within t'.
Proof.
  intros [= E1 E2 E3 E4 E5 E6 E7] Hw at_. destruct (Hw at_) as (c & Hc & Hl & Ha). unfold probeConfig in *.
  rewrite E1, E2, E3, E4, E5, E6, E7 in Hc. destruct (if negb _ then _ else Some 0) as [port|]; [|done].
  destruct (if negb _ then _ else _) as [d|e]; [|done]. injection Hc as <-. eexists. split; [done|]. by split.
Qed.

(** The numbers of a probe, which are not templates. *)
Definition path_counts (c : NetPathProbeConfig) : Prop :=
  1 <= pb_MaxTTL c <= maxUDPNetPathTTL /\ 1 <= pb_TracerouteQueries c <= maxNetPathTracerouteQueries /\
  1 <= pb_E2EQueries c <= maxNetPathE2EQueries.

Lemma limits_counts c : path_limits c -> path_counts c.
Proof.
  intros (_ & _ & _ & _ & Ht & Hq & He). split; [|by split].
  unfold maxNetPathTTL, maxUDPNetPathTTL in *. destruct (_ =? _)%string; lia.
Qed.

Lemma counts_config t t' at_ c : (config_of t).2 = (config_of t').2 -> within t -> probeConfig at_ t' = Ok c ->
  path_counts c /\ pb_ScheduledAt c = at_.
Proof.
  intros E Hw Hc. destruct (Hw at_) as (d & Hd & Hl & _). apply limits_counts in Hl. revert Hc Hd. unfold probeConfig. simpl in E.
  destruct (if negb _ then _ else Some 0) as [p1|]; [|done]. destruct (if negb _ then _ else _) as [d1|]; [|done]. intros [= <-].
  destruct (if negb _ then _ else Some 0) as [p2|]; [|done]. destruct (if negb _ then _ else _) as [d2|]; [|done]. intros [= <-].
  split; [|done]. unfold path_counts in *. simpl in *. injection E as E1 E2 E3. by rewrite E1, E2, E3 in Hl.
Qed.

Lemma init_within t t' : path_init t = (Ok tt, t') -> EqualFold (CurStatus (path_task t)) StatusStop = false ->
  deferred t = false -> t' = t /\ within t.
Proof.
  unfold path_init, sbind, sget. intros E Hs Hd. rewrite Hs, Hd in E.
  destruct (path_check t) as [e|] eqn:Hc; [done|]. simpl in E.
  destruct (probeConfig None t) as [c|e] eqn:Hp; [|done].
  destruct (validateNetPathProbeConfig c) as [e|] eqn:Hv; [done|]. simpl in E.
  destruct (validateAssertions _ _); [done|]. injection E as <-. split; [done|]. intros at_.
  assert (exists c', probeConfig at_ t = Ok c' /\ c' = c{{pb_ScheduledAt := at_}}) as (c' & Hc' & ->).
  { unfold probeConfig in *. destruct (if negb _ then _ else Some 0) as [port|]; [|done].
    destruct (if negb _ then _ else _) as [d|e]; [|done]. injection Hp as <-. by eexists. }
  exists (c{{pb_ScheduledAt := at_}}). split; [done|]. split; [|done].
  destruct (check_config _ _ _ Hc Hd Hc') as (L1 & L2 & L3). destruct (validate_limits _ Hv) as (L4 & L5 & L6 & L7).
  destruct c. exact (conj L1 (conj L2 (conj L3 (conj L4 (conj L5 (conj L6 L7)))))).
Qed.

(** *** Rendering twice *)

(** The texts of a probe, rendered. *)
Definition rendered (f : FuncMap) (raw : path_raw) : option (string * string * string * string) :=
  let o := praw_AdvanceOptions raw in
  match GetParsedString (praw_Protocol raw) f, GetParsedString (praw_Host raw) f, GetParsedString (praw_Port raw) f,
        GetParsedString (po_Timeout o) f with
  | Ok a, Ok b, Ok c, Ok d => Some (a, b, c, d)
  | _, _, _, _ => None
  end.

Definition raw_counts (raw : path_raw) :=
  let o := praw_AdvanceOptions raw in (po_MaxTTL o, po_TracerouteQueries o, po_E2EQueries o).

(** A rendering leaves the executor, and makes the configuration of the texts of the raw task. *)
Lemma render_raw_run f raw t r t' : render_raw f raw t = (r, t') ->
  executor t' = executor t /\ path_rawTask t' = path_rawTask t /\ path_task t' = path_task t /\
  (r = Ok tt -> exists x, rendered f raw = Some x /\ config_of t' = (x, raw_counts raw)).
Proof.
  unfold render_raw, sbind, smod, in_path_options, zoom, render_assign, rendered, raw_counts.
  destruct t as [k ? ? ? ? ? ? raw1 x1]. simpl. unfold constant.
  destruct (GetParsedString (praw_Protocol raw) f); [|by intros [= <- <-]].
  destruct (GetParsedString (praw_Host raw) f); [|by intros [= <- <-]].
  destruct (GetParsedString (praw_Port raw) f); [|by intros [= <- <-]].
  destruct (GetParsedString (praw_Logic raw) f); [|by intros [= <- <-]].
  destruct (GetParsedString (po_Timeout _) f); [|by intros [= <- <-]].
  destruct (GetParsedString (po_SourceName _) f); [|by intros [= <- <-]].
  destruct (GetParsedString (po_TargetName _) f); [|by intros [= <- <-]].
  destruct (cloneNetPathSuccessWhen _) as [l|e]; [|by intros [= <- <-]]. simpl. unfold constant.
  destruct (renderNetPathSuccessWhen f l) as [[[]|e] l']; intros [= <- <-]; [|done]. split_and!; [done..|]. by eexists.
Qed.

(** A task with a raw one is rendered from it. *)
Lemma render_with_raw decode f raw t : path_rawTask t = Some raw -> path_renderTemplate decode f t = render_raw f raw t.
Proof. intros Hr. unfold path_renderTemplate, sbind, sget. rewrite Hr. simpl. by rewrite Hr. Qed.

Lemma render_has_raw decode f t t' : path_renderTemplate decode f t = (Ok tt, t') ->
  exists raw x, path_rawTask t' = Some raw /\ path_task t' = path_task t /\
    rendered f raw = Some x /\ config_of t' = (x, raw_counts raw).
Proof.
  unfold path_renderTemplate, sbind at 1, sget. intros E.
  assert (exists raw t0, path_rawTask t0 = Some raw /\ path_task t0 = path_task t /\ render_raw f raw t0 = (Ok tt, t'))
    as (raw & t0 & Hr & Ht & R).
  { destruct (path_rawTask t) as [raw|] eqn:Hr.
    - unfold sbind in E. simpl in E. rewrite Hr in E. by exists raw, t.
    - destruct (NewRawTask decode (path_task t)) as [r|e]; [|done]. unfold sbind, smod in E. simpl in E.
      eexists _, _. split_and!; [| |exact E]; done. }
  destruct (render_raw_run _ _ _ _ _ R) as (_ & Er & Et & C). destruct (C eq_refl) as (x & Hx & Hc).
  exists raw, x. by rewrite Er, Et.
Qed.

(** What the executor is given. *)
Definition executed (c : NetPathProbeConfig) (x : X) : X :=
  let '(err, x') := x_Run c (x_Clear x) in match err with Some e => x_SetError e x' | None => x' end.

Lemma render_init_run clk gv t t1 : RenderTemplateAndInit clk gv t = (Ok tt, t1) ->
  exists f ta, fm (path_task ta) = Some f /\ path_renderTemplate Unmarshal f (on_task (set_vars clk gv) t) = (Ok tt, ta) /\
    task_init ta = (Ok tt, t1).
Proof.
  set (f := add_funcs (map (resolve gv) (ConfigVars (path_task t) ++ ExtractedVars (path_task t) ++ CustomVars (path_task t))) (getDefaultFunc clk)).
  set (t0 := on_task (set_vars clk gv) t).
  change (RenderTemplateAndInit clk gv t) with
    (match swrap (ewrap "render template error") (path_renderTemplate Unmarshal f) t0 with
     | (Ok _, ta) => task_init ta | (Err e, ta) => (Err e, ta) end).
  unfold swrap. destruct (path_renderTemplate Unmarshal f t0) as [[[]|e] ta] eqn:Er; [|done]. intros E. exists f, ta.
  destruct (render_has_raw _ _ _ _ Er) as (raw & y & _ & Ht & _). by rewrite Ht.
Qed.

Lemma task_init_within ta t1 raw : task_init ta = (Ok tt, t1) -> path_rawTask ta = Some raw ->
  EqualFold (CurStatus (path_task t1)) StatusStop = false ->
  config_of t1 = config_of ta /\ within t1 /\ path_rawTask t1 = Some raw /\ fm (path_task t1) = fm (path_task ta).
Proof.
  intros E Hr Hs. unfold task_init, sbind, sget in E. destruct (EqualFold (CurStatus (c_task ta)) StatusStop) eqn:Ha.
  - injection E as <-. simpl in Ha. by rewrite Ha in Hs.
  - unfold smod in E. match type of E with c_init ?t = _ => set (tb := t) in *; change (path_init tb = (Ok tt, t1)) in E end.
    assert (Hb : CurStatus (path_task tb) = CurStatus (path_task ta) /\ fm (path_task tb) = fm (path_task ta)).
    { unfold tb, on_task. simpl. unfold constant. by destruct (t_option (path_task ta)). }
    destruct Hb as [B1 B2]. destruct (init_within tb t1 E) as [-> Hw].
    + rewrite B1. exact Ha.
    + unfold deferred. change (path_rawTask tb) with (path_rawTask ta). by rewrite Hr.
    + split_and!; [done|done|exact Hr|exact B2].
Qed.

(** The texts of a probe that a run renders again are what they were. *)
Definition steady (clk : Clock) (f : FuncMap) (raw : path_raw) : Prop :=
  Forall (fun text => GetParsedString text (funcs_at clk f) = GetParsedString text f)
    [praw_Protocol raw; praw_Host raw; praw_Port raw; po_Timeout (praw_AdvanceOptions raw)].

Lemma steady_rendered clk f raw : steady clk f raw -> rendered (funcs_at clk f) raw = rendered f raw.
Proof. unfold steady, rendered. rewrite !list.Forall_cons. intros (-> & -> & -> & -> & _). done. Qed.

Lemma Run_path clk now t1 raw f :
  path_rawTask t1 = Some raw -> fm (path_task t1) = Some f ->
  Run clk None now t1 =
  match render_raw (funcs_at clk f) raw (Clear t1) with
  | (Ok _, t') => path_run now t'
  | (Err e, t') => (Err (ewrap "render template failed" e), t')
  end.
Proof.
  intros Hr Hf.
  change (Run clk None now t1) with
    (match (match fm (c_task (Clear t1)) with
            | Some f => swrap (ewrap "render template failed") (path_renderTemplate Unmarshal (funcs_at clk f))
            | None => sret tt
            end) (Clear t1) with
     | (Ok _, t') => path_run now t' | (Err e, t') => (Err e, t') end).
  replace (fm (c_task (Clear t1))) with (Some f) by (rewrite <- Hf; unfold Clear; simpl; unfold path_clear; by destruct (executor t1)).
  unfold swrap. rewrite (render_with_raw _ _ raw); [|unfold Clear; simpl; unfold path_clear; by destruct (executor t1)].
  by destruct (render_raw _ raw _) as [[[]|e] t'].
Qed.

End path.

(** ** An instance *)

#[local] Existing Instance demo_std.

(** An executor that keeps the probes it is given. *)
#[local] Instance demo_executor : NetPathExecutor (list NetPathProbeConfig) := {
  x_Run := fun c l => (None, c :: l); x_Clear := fun _ => []; x_CheckResult := fun _ => ([], true);
  x_GetResults := fun _ => (∅, ∅); x_SetError := fun _ l => l
}.

#[local] Instance demo_path_json : PathJson := {
  raw_string := fun _ => None; raw_number := fun _ => Some (Some fzero); raw_compact := Ok;
  marshal_path := fun _ _ _ _ _ _ => Some ""
}.

Definition demo_rule : NetPathSuccess := mkPathSuccess [] [] [] [] [] [Some (mkPathCond "lt" "5")] [] [] [].

Definition demo_path : NetPathTask (X := list NetPathProbeConfig) :=
  mkPath zero_task{{taskJSONString := "{}"}} " TCP " "10.0.0.1" "443" (mkPathOpt "" "" "" 60 0 5) [Some demo_rule; None] "" None (Some []).

#[local] Instance demo_path_task : Json (NetPathTask (X := list NetPathProbeConfig)) := { Unmarshal := fun _ => Ok demo_path; MarshalTask := path_Host }.

Definition demo_path_ready : NetPathTask (X := list NetPathProbeConfig) :=
  Eval vm_compute in snd (RenderTemplateAndInit demo_clock ∅ demo_path).

Lemma demo_path_renders : RenderTemplateAndInit demo_clock ∅ demo_path = (Ok tt, demo_path_ready).
Proof. vm_compute. reflexivity. Qed.


(** A timeout that reads the clock escapes its limit: it is one second when the task is
    initialised, and 45 seconds in the probe of a later run. *)
#[local] Instance late_std : Std := {
  re_compile := re_compile; re_match := re_match; fmt_float := fmt_float; fmt_dur := fmt_dur; ParseCron :=
  ParseCron; parse_template := parse_template; Marshal := Marshal; GOOS := GOOS; MarshalRoutes :=
  MarshalRoutes; ParseIP := ParseIP; To4 := To4; ParseURL := ParseURL; header_Get := header_Get; base64 :=
  base64; base64_decode := base64_decode; canonical := canonical; multipart := multipart; X509KeyPair :=
  X509KeyPair; AppendCertsFromPEM := AppendCertsFromPEM; quote := quote; json_string := json_string;
  MaxMsgSize := MaxMsgSize;
  execute := fun s f => match f !! s with Some (FDate now) => Ok (FormatInt (now s 0%nat) +:+ "s") | _ => Ok s end;
  ParseDuration := fun s => if (s =? "45s")%string then Ok (45 * Second) else Ok Second
}.

Definition late_path : NetPathTask (X := list NetPathProbeConfig) := demo_path{{path_AdvanceOptions ::= fun o => o{{po_Timeout := "date"}}}}.

#[local] Instance late_path_task : Json (NetPathTask (X := list NetPathProbeConfig)) := { Unmarshal := fun _ => Ok late_path; MarshalTask := path_Host }.

Theorem late_timeout_escapes :
  let clock (n : Z) : Clock := fun _ _ => n in
  let '(r, t1) := RenderTemplateAndInit (clock 1) ∅ late_path in
  r = Ok tt /\
  let '(r, t2) := Run (clock 45) None 7 t1 in
  r = Ok tt /\ option_map (map pb_Timeout) (executor t2) = Some [45 * Second].
Proof. vm_compute. done. Qed.
