(* ===== verification/DialScript.v ===== *)
(** * Dial testing: browser scripts ([src/dialtesting/browserdial/script], [errors], [util], [runner])

    A script is a list of steps for a browser engine.  The engines are the class [Browser]
    over the state of the host: what a call returns, how long it takes and how it changes
    the state.  A context is a deadline and the time at which it is cancelled, if it is;
    time passes in calls and in waits.  When a context is done and there is a tick too,
    [select] picks either: how often in a row it picks the tick is the parameter [late_ticks]. *)

From S2P Require Import Prelude GoNum GoStrings FilterLex GoStrconv DialTask DialNet DialTls DialHttp DialMulti DialThms DialGrpc.

(** ** script.go *)

Record Cookie := mkCookie {
  ck_Name : string; ck_Value : string; ck_ValueFrom : string; ck_Domain : string; ck_Path : string;
  ck_Secure : bool; ck_HTTPOnly : bool; ck_SameSite : string
}.

Record Step := mkScriptStep {
  s_Name : string; s_Action : string; s_URL : string; s_Selector : string; s_Value : string; s_ValueFrom : string;
  s_Text : string; s_Contains : string; s_Equals : string; s_TimeoutMS : Z; s_Sensitive : bool
}.

Record ScriptVar := mkScriptVar { sv_Name : string; sv_Value : string; sv_Secure : bool }.

Record ScriptAuth := mkScriptAuth { au_Mode : string; au_Steps : list Step }.

Record Script := mkBrowserScript {
  sc_Name : string; sc_Target : string; sc_PostURL : string; sc_TimeoutMS : Z; sc_Headers : tagmap;
  sc_Cookies : list Cookie; sc_IgnoreHTTPSErrors : bool; sc_ProxyURL : string; sc_Tags : tagmap;
  sc_Metadata : fieldmap; sc_Auth : ScriptAuth; sc_ConfigVars : list ScriptVar; sc_Steps : list Step
}.

Definition supportedActions : list string :=
  ["goto"; "wait_for_selector"; "wait_for_url"; "click"; "fill"; "assert_title"; "assert_url"; "assert_text"; "eval"].

(** The mode of a comparison and what is expected. *)
Definition Expected (s : Step) : string * string :=
  if negb (s_Equals s =? "")%string then ("equals", s_Equals s)
  else if negb (s_Contains s =? "")%string then ("contains", s_Contains s)
  else ("contains", s_Text s).

Definition expectedText (s : Step) : string := snd (Expected s).

Definition pad2 (n : Z) : string := (if n <? 10 then "0" else "") +:+ FormatInt n.

Definition StepName (index : Z) (s : Step) : string :=
  if negb (TrimSpace (s_Name s) =? "")%string then s_Name s else pad2 index +:+ " " +:+ s_Action s.

Section validate.
Context `{Std}.

Definition validateStep (target label : string) (index : Z) (s : Step) : option string :=
  let action := TrimSpace (s_Action s) in
  let say msg := Some (label +:+ " " +:+ FormatInt (index + 1) +:+ " " +:+ msg) in
  if (action =? "")%string then say "must define action"
  else if negb (existsb (String.eqb action) supportedActions) then say ("action " +:+ quote action +:+ " is not supported")
  else
    match action with
    | "goto" => if ((s_URL s =? "") && (target =? ""))%string then say "goto requires url or top-level target" else None
    | "wait_for_selector" | "click" => if (s_Selector s =? "")%string then say (action +:+ " requires selector") else None
    | "fill" =>
        if (s_Selector s =? "")%string then say (action +:+ " requires selector")
        else if s_Sensitive s then
          if (TrimSpace (s_ValueFrom s) =? "")%string then say "sensitive fill requires value_from"
          else if negb (s_Value s =? "")%string then say "sensitive fill must not define value" else None
        else None
    | "assert_text" =>
        if (s_Selector s =? "")%string then say "assert_text requires selector"
        else if (expectedText s =? "")%string then say "assert_text requires contains, equals, or text" else None
    | "wait_for_url" | "assert_title" | "assert_url" =>
        if (expectedText s =? "")%string then say (action +:+ " requires contains, equals, or text") else None
    | "eval" => if ((s_Value s =? "") && (s_Text s =? ""))%string then say "eval requires value or text" else None
    | _ => None
    end%string.

Fixpoint validate_steps (target label : string) (index : Z) (l : list Step) : option string :=
  match l with
  | [] => None
  | s :: l' => match validateStep target label index s with Some e => Some e | None => validate_steps target label (index + 1) l' end
  end.

Definition validateAuth (s : Script) : option string :=
  let mode := TrimSpace (ToLower (au_Mode (sc_Auth s))) in
  let mode := if (mode =? "")%string then "none" else mode in
  let steps := au_Steps (sc_Auth s) in
  let bad :=
    if (mode =? "none")%string then
      match steps with [] => None | _ => Some "auth.steps requires auth.mode form" end
    else if (mode =? "form")%string then
      match steps with [] => Some "auth.steps must define at least one step when auth.mode is form" | _ => None end
    else Some ("auth.mode " +:+ quote (au_Mode (sc_Auth s)) +:+ " is not supported") in
  match bad with Some e => Some e | None => validate_steps (sc_Target s) "auth step" 0 steps end.

Fixpoint validate_vars (index : Z) (seen : list string) (l : list ScriptVar) : option string :=
  match l with
  | [] => None
  | v :: l' =>
      let name := TrimSpace (sv_Name v) in
      if (name =? "")%string then Some ("config_vars " +:+ FormatInt (index + 1) +:+ " name is required")
      else if existsb (String.eqb name) seen then Some ("config_vars " +:+ quote name +:+ " is duplicated")
      else validate_vars (index + 1) (name :: seen) l'
  end.

Definition validateConfigVars (s : Script) : option string := validate_vars 0 [] (sc_ConfigVars s).

Fixpoint validate_cookies (index : Z) (l : list Cookie) : option string :=
  match l with
  | [] => None
  | c :: l' =>
      if (TrimSpace (ck_Name c) =? "")%string then Some ("cookies " +:+ FormatInt (index + 1) +:+ " name is required")
      else if (negb (TrimSpace (ck_ValueFrom c) =? "") && negb (ck_Value c =? ""))%string
      then Some ("cookies " +:+ quote (ck_Name c) +:+ " must not define both value and value_from")
      else if negb (existsb (String.eqb (ToLower (TrimSpace (ck_SameSite c)))) [""; "lax"; "strict"; "none"])
      then Some ("cookies " +:+ quote (ck_Name c) +:+ " same_site must be Lax, Strict, or None")
      else validate_cookies (index + 1) l'
  end.

Definition empty_key (m : tagmap) : bool := existsb (fun k => (TrimSpace k =? "")%string) (fst <$> map_to_list m).

Definition validateHeadersAndCookies (s : Script) : option string :=
  if empty_key (sc_Headers s) then Some "headers must not contain an empty key" else validate_cookies 0 (sc_Cookies s).

Definition Validate (s : Script) : option string :=
  match validateConfigVars s with
  | Some e => Some e
  | None =>
      match validateHeadersAndCookies s with
      | Some e => Some e
      | None =>
          match validateAuth s with
          | Some e => Some e
          | None =>
              match sc_Steps s with
              | [] => Some "script must define at least one step"
              | l => validate_steps (sc_Target s) "step" 0 l
              end
          end
      end
  end.
End validate.

(** ** util/sanitize.go (ASCII texts) *)

Definition is_upper (a : Ascii.ascii) : bool := let n := Ascii.N_of_ascii a in ((65 <=? n) && (n <=? 90))%N.
Definition is_lower (a : Ascii.ascii) : bool := let n := Ascii.N_of_ascii a in ((97 <=? n) && (n <=? 122))%N.
Definition is_digit (a : Ascii.ascii) : bool := let n := Ascii.N_of_ascii a in ((48 <=? n) && (n <=? 57))%N.
Definition underscore : Ascii.ascii := Ascii.ascii_of_nat 95.

Fixpoint snake (prev : option Ascii.ascii) (s : string) : string :=
  match s with
  | EmptyString => ""
  | String a s' =>
      let r := String a (snake (Some a) s') in
      match prev with
      | Some p => if is_upper a && (is_lower p || is_digit p) then String underscore r else r
      | None => r
      end
  end.

Definition camelToSnake (s : string) : string := snake None s.

(** Runs of characters that keys do not have, and runs of underscores, are one underscore. *)
Fixpoint key_runs (in_run : bool) (s : string) : string :=
  match s with
  | EmptyString => ""
  | String a s' =>
      if is_word a then String a (key_runs false s')
      else if in_run then key_runs true s' else String underscore (key_runs true s')
  end.

Fixpoint under_runs (in_run : bool) (s : string) : string :=
  match s with
  | EmptyString => ""
  | String a s' =>
      if Ascii.eqb a underscore then if in_run then under_runs true s' else String underscore (under_runs true s')
      else String a (under_runs false s')
  end.

Fixpoint trim_under (s : string) : string :=
  match s with String a s' => if Ascii.eqb a underscore then trim_under s' else s | EmptyString => "" end.

Definition Trim_under (s : string) : string := srev (trim_under (srev (trim_under s) "")) "".

Definition SanitizeKey (input fallback : string) : string :=
  let c := ToLower (Trim_under (under_runs false (key_runs false (camelToSnake (TrimSpace input))))) in
  let c := if (c =? "")%string then fallback else c in
  match c with String a _ => if is_digit a then "k_" +:+ c else c | EmptyString => c end.

(** Later keys of the iteration replace earlier ones. *)
Definition SanitizeTags (tags : tagmap) : tagmap :=
  fold_left (fun m kv => <[SanitizeKey (fst kv) "tag" := snd kv]> m) (map_to_list tags) ∅.

Definition Truncate (value : string) (maxLen : Z) : string :=
  if (maxLen <=? 0) || (Z.of_nat (String.length value) <=? maxLen) then value
  else
    let suffix := "...[truncated]" in
    if maxLen <=? Z.of_nat (String.length suffix) then upto (Z.to_nat maxLen) value
    else upto (Z.to_nat (maxLen - Z.of_nat (String.length suffix))) value +:+ suffix.

(** ** errors.go *)

(** An error of an engine: its type, its text, whether it is a context's deadline. *)
Record eerr := mkEngineErr { ee_type : string; ee_msg : string; ee_deadline : bool }.

Inductive rerr :=
| RPlain (s : string)
| REngine (e : eerr)
| RCanceled
| RDeadline
| RTimeout (ms : Z)
| RLoad (s : string)
| RAuth (e : rerr)
| RCond (action : string) (e : rerr).

Fixpoint err_text (e : rerr) : string :=
  match e with
  | RPlain s | RLoad s => s
  | REngine e => ee_msg e
  | RCanceled => "context canceled"
  | RDeadline => "context deadline exceeded"
  | RTimeout ms => "dial script timed out after " +:+ FormatInt ms +:+ "ms"
  | RAuth e => err_text e
  | RCond action e => action +:+ " timed out: " +:+ err_text e
  end.

Definition err_type (e : rerr) : string :=
  match e with
  | RPlain _ | RCanceled => "*errors.errorString"
  | REngine e => ee_type e
  | RDeadline => "context.deadlineExceededError"
  | RTimeout _ => "errorsx.TimeoutError"
  | RLoad _ => "errorsx.ScriptLoadError"
  | RAuth _ => "errorsx.AuthError"
  | RCond _ _ => "runner.conditionTimeoutError"
  end.

(** [errors.Is] a deadline, [errors.As] an error of a kind. *)
Fixpoint is_deadline (e : rerr) : bool :=
  match e with REngine e => ee_deadline e | RDeadline => true | RAuth e | RCond _ e => is_deadline e | _ => false end.

Fixpoint as_cond (e : rerr) : bool := match e with RCond _ _ => true | RAuth e => as_cond e | _ => false end.
Fixpoint as_auth (e : rerr) : bool := match e with RAuth _ => true | RCond _ e => as_auth e | _ => false end.
Fixpoint as_timeout (e : rerr) : bool := match e with RTimeout _ => true | RAuth e | RCond _ e => as_timeout e | _ => false end.

Record ErrorInfo := mkErrorInfo { ei_Name : string; ei_Message : string; ei_Stack : string }.

Definition error_info (stack : string) (e : rerr) : ErrorInfo := mkErrorInfo (err_type e) (err_text e) stack.

Definition FailureReason (e : option rerr) (hasFailedStep : bool) : string :=
  match e with
  | None => ""
  | Some (RAuth _) => "auth_error"
  | Some (RTimeout _) => "timeout"
  | Some (RLoad _) => "script_load_error"
  | Some _ => if hasFailedStep then "step_error" else "script_error"
  end.

(** ** evidence/types.go *)

Inductive RunStatus := StatusOK | StatusFail | StatusSkip.

#[export] Instance RunStatus_eq_dec : EqDecision RunStatus.
Proof. solve_decision. Defined.

Record PerformanceMetrics := mkPerf {
  TTFBMS : Z; LoadingTimeMS : Z; LCPMS : Z; CLS : spec_float; DOMContentLoadedMS : Z; LoadEventEndMS : Z
}.

Record StepResult := mkStepResult {
  st_Seq : Z; st_Name : string; st_Action : string; st_Selector : string; st_InputDisplay : string;
  st_ValueFrom : string; st_Expected : string; st_TimeoutMS : Z; st_Auth : bool; st_Status : RunStatus;
  st_StartedAt : string; st_EndedAt : string; st_DurationUS : Z; st_URL : string; st_Title : string;
  st_Performance : option PerformanceMetrics; st_Screenshot : string; st_SkipReason : string; st_Error : option ErrorInfo
}.

Record RetryRecord := mkRetry {
  rr_Attempt : Z; rr_StartedAt : string; rr_EndedAt : string; rr_DurationUS : Z; rr_Status : RunStatus;
  rr_Success : bool; rr_FailedStep : Z; rr_FailReason : string; rr_FailureType : string; rr_Message : string
}.

Record ConsoleEvent := mkConsole { ce_Seq : Z; ce_Timestamp : string; ce_Type : string; ce_Text : string }.

Record NetworkEvent := mkNetwork {
  ne_Seq : Z; ne_Timestamp : string; ne_Event : string; ne_URL : string; ne_Method : string;
  ne_ResourceType : string; ne_TraceID : string; ne_Status : Z; ne_Failure : string
}.

Record DomSnapshot := mkDom { ds_CapturedAt : string; ds_URL : string; ds_Title : string; ds_Text : string; ds_HTML : string; ds_Error : string }.

(** ** runner.go: the engine *)

Record BrowserCookie := mkBrowserCookie {
  bc_Name : string; bc_Value : string; bc_Domain : string; bc_Path : string; bc_Secure : bool; bc_HTTPOnly : bool;
  bc_SameSite : string
}.

Record BrowserConfig := mkBrowserConfig {
  bf_Target : string; bf_Headers : tagmap; bf_Cookies : list BrowserCookie; bf_IgnoreHTTPSErrors : bool
}.

Record EngineOptions := mkEngineOptions {
  eo_LightpandaPath : string; eo_CACertFile : string; eo_CACertDir : string; eo_BlockPrivateNetwork : bool;
  eo_PrivateNetworkCIDRs : list string; eo_ChromePath : string; eo_ScreenshotDir : string; eo_RunID : string;
  eo_ViewportWidth : Z; eo_ViewportHeight : Z; eo_ProxyURL : string; eo_IgnoreHTTPSErrors : bool; eo_StartupTimeout : Z
}.

(** A deadline and the time of a cancellation, in nanoseconds. *)
Record context := mkContext { cx_deadline : Z; cx_cancel : option Z }.

Inductive op :=
| Navigate (url : string) | WaitForSelector (selector : string) | Click (selector : string)
| Fill (selector value : string) | Title | GetURL | GetText (selector : string) | EvalExpr (expression : string).

(** A call, at a time, with a context or without: the result, how long it took, the state.
    The last three interfaces are optional for an engine. *)
Class Browser (G : Type) := {
  b_new : string -> EngineOptions -> context -> Z -> G -> option eerr * N * G;
  b_close : G -> G;
  b_call : op -> option context -> Z -> G -> Res eerr string * N * G;
  b_dom : Z -> G -> Res eerr DomSnapshot * N * G;
  b_console : G -> list ConsoleEvent;
  b_network : G -> list NetworkEvent;
  b_configure : G -> option (BrowserConfig -> context -> Z -> option eerr * N * G);
  b_screenshot : G -> option (string -> bool -> Z -> Res eerr string * N * G);
  b_performance : G -> option (Z -> Res eerr PerformanceMetrics * N * G)
}.

(** What else is used of the host. *)
Class Host := {
  fmt_time : Z -> string;                     (* a time, as RFC 3339 *)
  stack : string;                             (* debug.Stack *)
  os_Hostname : string;
  path_Join : list string -> string;
  TempDir : string;
  path_Base : string -> string;
  path_Abs : string -> string;
  path_Ext : string -> string;
  ReadFile : string -> Res string string;
  script_json : string -> Res string Script;
  script_yaml : string -> Res string Script;
  late_ticks : Z -> nat                       (* how often in a row [select] prefers a tick, at a time *)
}.

Definition Millisecond : Z := 1000000.

(** The time at which a context is done, and its error at a time. *)
Definition done_at (c : context) : Z :=
  match cx_cancel c with Some t => Z.min t (cx_deadline c) | None => cx_deadline c end.

Definition ctx_err (c : context) (now : Z) : option rerr :=
  if done_at c <=? now then
    match cx_cancel c with
    | Some t => if t <? cx_deadline c then Some RCanceled else Some RDeadline
    | None => Some RDeadline
    end
  else None.

Definition is_deadline_err (e : option rerr) : bool := match e with Some e => is_deadline e | None => false end.

(** [context.WithTimeout]: the deadline of the parent stays when it is earlier. *)
Definition WithTimeout (c : context) (ms now : Z) : context :=
  c{{cx_deadline := Z.min (cx_deadline c) (now + ms * Millisecond)}}.

Record screenshotOptions := mkShots { ss_OnFailure : bool; ss_PerStep : bool; ss_Dir : string; ss_RunID : string }.

Definition engineScreenshotOptions (engineName : string) (o : screenshotOptions) : screenshotOptions :=
  if (engineName =? "lightpanda")%string then mkShots false false (ss_Dir o) (ss_RunID o) else o.

(** The first text that is not empty. *)
Fixpoint first_text (l : list string) : string :=
  match l with [] => "" | s :: l' => if (s =? "")%string then first_text l' else s end.

Record stepPlan := mkPlan { pl_Step : Step; pl_Auth : bool }.

Definition stepPlans (s : Script) : list stepPlan :=
  (if EqualFold (au_Mode (sc_Auth s)) "form" then map (fun st => mkPlan st true) (au_Steps (sc_Auth s)) else []) ++
  map (fun st => mkPlan st false) (sc_Steps s).

Definition inputDisplay (s : Step) : string :=
  if negb (s_Action s =? "fill")%string then ""
  else if s_Sensitive s then "***"
  else if negb (TrimSpace (s_ValueFrom s) =? "")%string then "${" +:+ TrimSpace (s_ValueFrom s) +:+ "}"
  else s_Value s.

Definition stepRecord (seq : Z) (s : Step) (auth : bool) (status : RunStatus) : StepResult :=
  let '(mode, expected) := Expected s in
  let expected := if negb (expected =? "")%string then mode +:+ ":" +:+ expected else expected in
  mkStepResult seq (StepName seq s) (s_Action s) (s_Selector s) (inputDisplay s) (s_ValueFrom s) expected (s_TimeoutMS s)
    auth status "" "" 0 "" "" None "" "" None.

Fixpoint appendSkippedSteps (plans : list stepPlan) (seq : Z) : list StepResult :=
  match plans with
  | [] => []
  | p :: plans' =>
      (stepRecord seq (pl_Step p) (pl_Auth p) StatusSkip){{st_SkipReason := "previous_step_failed"}}
      :: appendSkippedSteps plans' (seq + 1)
  end.

Definition collectTraceIDs (events : list NetworkEvent) : list string :=
  fold_left (fun ids e => if (ne_TraceID e =? "")%string || existsb (String.eqb (ne_TraceID e)) ids then ids
                          else ids ++ [ne_TraceID e]) events [].

Definition isZeroPerformance (m : PerformanceMetrics) : bool :=
  (TTFBMS m =? 0) && (LoadingTimeMS m =? 0) && (LCPMS m =? 0) && SFeqb (CLS m) fzero &&
  (DOMContentLoadedMS m =? 0) && (LoadEventEndMS m =? 0).

Definition configVarMap (vars : list ScriptVar) : tagmap :=
  fold_left (fun m v => <[TrimSpace (sv_Name v) := sv_Value v]> m) vars ∅.

Definition normalizedEngineName (name : string) : string :=
  let n := TrimSpace (ToLower name) in if (n =? "")%string then "chrome" else n.

Section runner.
Context `{Std} `{Host} {G : Type} `{Browser G}.

(** The clock and the state of the host. *)
Record World := mkWorld { w_time : Z; w_state : G }.

Definition call (o : op) (c : option context) (w : World) : Res eerr string * World :=
  let '(r, d, g) := b_call o c (w_time w) (w_state w) in (r, mkWorld (w_time w + Z.of_N d) g).

Definition err_of {A} (r : Res eerr A) : option rerr := match r with Ok _ => None | Err e => Some (REngine e) end.

Definition compare (label actual : string) (s : Step) : option rerr :=
  let '(mode, expected) := Expected s in
  if (mode =? "equals")%string then
    if negb (actual =? expected)%string
    then Some (RPlain (label +:+ " assertion failed: expected " +:+ quote expected +:+ ", got " +:+ quote actual)) else None
  else
    if negb (has_substring actual expected)
    then Some (RPlain (label +:+ " assertion failed: expected " +:+ quote actual +:+ " to contain " +:+ quote expected)) else None.

Definition check_value (label : string) (o : op) (c : context) (s : Step) (w : World) : option rerr * World :=
  let '(r, w) := call o (Some c) w in
  (match r with Err e => Some (REngine e) | Ok v => compare label v s end, w).

Definition conditionPollInterval : Z := 100 * Millisecond.

(** The error of a wait whose context is done. *)
Definition poll_error (c : context) (action : string) (lastErr : rerr) (now : Z) : rerr :=
  match ctx_err c now with
  | Some e => if is_deadline e then RCond action lastErr else e
  | None => RCond action lastErr
  end.

(** The tick after one that is taken at [now]; ticks that are missed while a check runs are one. *)
Definition next_tick (tick now : Z) : Z := tick + conditionPollInterval * ((now - tick) / conditionPollInterval + 1).

(** The context is done.  While there is a tick too, [select] picks one of the two at random:
    [n] is how often it picks the tick before it picks the context. *)
Fixpoint poll_late (n : nat) (c : context) (action : string) (check : World -> option rerr * World) (lastErr : rerr)
    (tick : Z) (w : World) : option rerr * World :=
  match n with
  | O => (Some (poll_error c action lastErr (w_time w)), w)
  | S n' =>
      if tick <=? w_time w then
        match check w with
        | (None, w') => (None, w')
        | (Some e, w') => poll_late n' c action check e (next_tick tick (w_time w)) w'
        end
      else (Some (poll_error c action lastErr (w_time w)), w)
  end.

(** The ticks after the first check, the next one at [tick]. *)
Fixpoint poll_loop (fuel : nat) (c : context) (action : string) (check : World -> option rerr * World) (lastErr : rerr)
    (tick : Z) (w : World) : option (option rerr * World) :=
  match fuel with
  | O => None
  | S fuel' =>
      let at_ := Z.max tick (w_time w) in
      if done_at c <=? at_ then
        let now := Z.max (done_at c) (w_time w) in
        Some (poll_late (late_ticks now) c action check lastErr tick w{{w_time := now}})
      else
        match check w{{w_time := at_}} with
        | (None, w') => Some (None, w')
        | (Some e, w') => poll_loop fuel' c action check e (next_tick tick at_) w'
        end
  end.

(** Enough for the ticks until the context is done. *)
Definition poll_fuel (c : context) (now : Z) : nat := Z.to_nat (Z.max 0 ((done_at c - now) / conditionPollInterval) + 2).

Definition pollCondition (c : context) (action : string) (check : World -> option rerr * World) (w : World)
    : option (option rerr * World) :=
  match ctx_err c (w_time w) with
  | Some e => Some (Some e, w)
  | None =>
      match check w with
      | (None, w') => Some (None, w')
      | (Some e, w') => poll_loop (poll_fuel c (w_time w')) c action check e (w_time w' + conditionPollInterval) w'
      end
  end.

Definition stepValue (s : Step) (vars : tagmap) : Res rerr string :=
  let name := TrimSpace (s_ValueFrom s) in
  if (name =? "")%string then Ok (s_Value s)
  else match vars !! name with
       | Some v => Ok v
       | None => Err (RPlain ("config variable " +:+ quote name +:+ " is required"))
       end.

Definition simple (o : op) (c : context) (w : World) : option (option rerr * World) :=
  let '(r, w) := call o (Some c) w in Some (err_of r, w).

Definition executeStep (c : context) (target : string) (s : Step) (vars : tagmap) (w : World) : option (option rerr * World) :=
  match s_Action s with
  | "goto" => simple (Navigate (if (s_URL s =? "")%string then target else s_URL s)) c w
  | "wait_for_selector" => simple (WaitForSelector (s_Selector s)) c w
  | "wait_for_url" => pollCondition c (s_Action s) (check_value "url" GetURL c s) w
  | "click" => simple (Click (s_Selector s)) c w
  | "fill" =>
      match stepValue s vars with
      | Err e => Some (Some e, w)
      | Ok v => simple (Fill (s_Selector s) v) c w
      end
  | "assert_title" => pollCondition c (s_Action s) (check_value "title" Title c s) w
  | "assert_url" => pollCondition c (s_Action s) (check_value "url" GetURL c s) w
  | "assert_text" => pollCondition c (s_Action s) (check_value "text" (GetText (s_Selector s)) c s) w
  | "eval" => simple (EvalExpr (if (s_Value s =? "")%string then s_Text s else s_Value s)) c w
  | _ => Some (Some (RPlain ("unsupported action " +:+ quote (s_Action s))), w)
  end%string.

Definition captureStepPerformance (w : World) : option PerformanceMetrics * World :=
  match b_performance (w_state w) with
  | None => (None, w)
  | Some f =>
      let '(r, d, g) := f (w_time w) in
      (match r with Ok m => if isZeroPerformance m then None else Some m | Err _ => None end,
       mkWorld (w_time w + Z.of_N d) g)
  end.

(** The screenshot of a step, when it is saved. *)
Definition captureStepScreenshot (seq : Z) (o : screenshotOptions) (fullPage : bool) (w : World) : option string * World :=
  match b_screenshot (w_state w) with
  | None => (None, w)
  | Some f =>
      let file := "step-" +:+ FormatInt seq +:+ (if fullPage then ".jpg" else ".png") in
      let path := if (ss_Dir o =? "")%string then path_Join [TempDir; "browser-dial-evidence"; ss_RunID o; file]
                  else path_Join [ss_Dir o; ss_RunID o; file] in
      let '(r, d, g) := f path fullPage (w_time w) in
      (match r with Ok p => Some p | Err _ => None end, mkWorld (w_time w + Z.of_N d) g)
  end.

Definition deadlineTimeoutMS (run step : context) (runMS stepMS : Z) : Z :=
  if stepMS <=? 0 then runMS else if cx_deadline step <? cx_deadline run then stepMS else runMS.

(** The error of a step as it is reported. *)
Definition step_error (run step : context) (runMS : Z) (p : stepPlan) (now : Z) (e : rerr) : rerr :=
  let e :=
    if as_cond e then e
    else if is_deadline_err (ctx_err run now) then RTimeout runMS
    else if is_deadline_err (ctx_err step now) || is_deadline e
    then RTimeout (deadlineTimeoutMS run step runMS (s_TimeoutMS (pl_Step p)))
    else e in
  if pl_Auth p then RAuth e else e.

Definition text_of (r : Res eerr string) : string := match r with Ok s => s | Err _ => "" end.

(** A step: its record, and the error. *)
Definition run_script_step (c : context) (target : string) (runMS : Z) (vars : tagmap) (o : screenshotOptions) (seq : Z)
    (p : stepPlan) (w : World) : option (StepResult * option rerr * World) :=
  let s := pl_Step p in
  let start := w_time w in
  let stepCtx := if 0 <? s_TimeoutMS s then WithTimeout c (s_TimeoutMS s) start else c in
  match executeStep stepCtx target s vars w with
  | None => None
  | Some (err, w) =>
      let failed_at := w_time w in
      let '(url, w) := call GetURL None w in
      let '(title, w) := call Title None w in
      let rec := (stepRecord seq s (pl_Auth p) StatusOK){{st_StartedAt := fmt_time start; st_EndedAt := fmt_time (w_time w);
                   st_DurationUS := micros (w_time w - start); st_URL := text_of url; st_Title := text_of title}} in
      match err with
      | None =>
          let '(perf, w) := if (s_Action s =? "goto")%string then captureStepPerformance w else (None, w) in
          let '(shot, w) := if ss_PerStep o then captureStepScreenshot seq o false w else (None, w) in
          Some (rec{{st_Performance := perf; st_Screenshot := default "" shot}}, None, w)
      | Some e =>
          let e := step_error c stepCtx runMS p failed_at e in
          let wanted := ss_OnFailure o || ss_PerStep o in
          let '(shot, w) := if wanted then captureStepScreenshot seq o false w else (None, w) in
          let shot := default "" shot in
          let info := error_info stack e in
          let info := if (shot =? "")%string && wanted
                      then info{{ei_Message := ei_Message info +:+ "; screenshot capture unavailable"}} else info in
          Some (rec{{st_Status := StatusFail; st_Error := Some info; st_Screenshot := shot}}, Some e, w)
      end
  end.

Fixpoint executeSteps (c : context) (target : string) (runMS : Z) (vars : tagmap) (o : screenshotOptions) (seq : Z)
    (plans : list stepPlan) (w : World) : option (list StepResult * option rerr * World) :=
  match plans with
  | [] => Some ([], None, w)
  | p :: plans' =>
      match run_script_step c target runMS vars o seq p w with
      | None => None
      | Some (r, Some e, w) => Some (r :: appendSkippedSteps plans' (seq + 1), Some e, w)
      | Some (r, None, w) =>
          match executeSteps c target runMS vars o (seq + 1) plans' w with
          | None => None
          | Some (l, e, w) => Some (r :: l, e, w)
          end
      end
  end.

(** ** runner.go: runs *)

Record Options := mkOptions {
  ro_ScriptPath : string; ro_Name : string; ro_TimeoutMS : Z; ro_Tags : tagmap; ro_EngineName : string;
  ro_LightpandaPath : string; ro_CACertFile : string; ro_CACertDir : string; ro_DefaultProxyURL : string;
  ro_BlockPrivateNetwork : bool; ro_PrivateNetworkCIDRs : list string; ro_ChromePath : string; ro_StartupTimeout : Z;
  ro_ScreenshotOnFailure : bool; ro_ScreenshotPerStep : bool; ro_ScreenshotDir : string;
  ro_ViewportWidth : Z; ro_ViewportHeight : Z; ro_Headers : tagmap; ro_Cookies : list Cookie;
  ro_IgnoreHTTPSErrors : bool; ro_ProxyURL : string; ro_RetryCount : Z;
  ro_EngineFactory : option string             (* the engine that the factory makes *)
}.

Record Result := mkResult {
  r_RunID : string; r_Name : string; r_Engine : string; r_Target : string; r_PostURL : string; r_ScriptPath : string;
  r_Status : RunStatus; r_Success : bool; r_StartedAt : Z; r_StartedAtText : string; r_EndedAtText : string;
  r_DurationUS : Z; r_TimeoutMS : Z; r_ViewportWidth : Z; r_ViewportHeight : Z; r_Steps : list StepResult;
  r_Tags : tagmap; r_Metadata : fieldmap; r_ConsoleEvents : list ConsoleEvent; r_NetworkEvents : list NetworkEvent;
  r_TraceIDs : list string; r_DomSnapshot : option DomSnapshot; r_Performance : option PerformanceMetrics;
  r_Error : option ErrorInfo; r_FailReason : string; r_FailureType : string; r_Attempt : Z; r_MaxAttempts : Z;
  r_RetryRecords : list RetryRecord
}.

Definition withNodeName (tags : tagmap) : tagmap :=
  SanitizeTags (if (default "" (tags !! "node_name") =? "")%string then <["node_name" := os_Hostname]> tags else tags).

(** The kind of failure of the first step that failed. *)
Definition step_failure (message action : string) : option string :=
  if has_substring message "selector not found" then Some "selector_not_found"
  else
    match TrimSpace action with
    | "assert_title" | "assert_url" | "assert_text" => Some "assertion_failed"
    | "wait_for_url" => Some "timeout"
    | "goto" => Some "navigation_failed"
    | "wait_for_selector" | "click" | "fill" => Some "selector_not_found"
    | "eval" => Some "script_error"
    | _ => None
    end%string.

Fixpoint first_failure (message : string) (steps : list StepResult) : option string :=
  match steps with
  | [] => None
  | s :: steps' =>
      if bool_decide (st_Status s = StatusFail) then
        match step_failure message (st_Action s) with Some k => Some k | None => first_failure message steps' end
      else first_failure message steps'
  end.

Definition classifyFailureType (err : option rerr) (steps : list StepResult) (failReason : string) : string :=
  match err with
  | None => ""
  | Some e =>
      if as_auth e then "auth_failed"
      else if as_timeout e then "timeout"
      else
        let message := ToLower (err_text e) in
        if has_substring message "config variable" || has_substring message "cookie variable" then "config_error"
        else match first_failure message steps with
             | Some k => k
             | None =>
                 match failReason with
                 | "script_load_error" => "config_error"
                 | "runner_error" => "browser_error"
                 | "script_error" => "script_error"
                 | _ => "browser_error"
                 end%string
             end
  end.

Definition failureResult (runID name scriptPath : string) (timeoutMS start : Z) (tags : tagmap) (loaded : option Script)
    (e : rerr) (reason : string) (now : Z) : Result :=
  mkResult runID name "" (match loaded with Some s => sc_Target s | None => "" end)
    (match loaded with Some s => sc_PostURL s | None => "" end) scriptPath StatusFail false start (fmt_time start) (fmt_time now)
    (micros (now - start)) timeoutMS 0 0 [] (withNodeName tags) (match loaded with Some s => sc_Metadata s | None => ∅ end)
    [] [] [] None None (Some (error_info stack e)) reason (classifyFailureType (Some e) [] reason) 0 0 [].

Definition withViewport (o : Options) (r : Result) : Result :=
  r{{r_ViewportWidth := ro_ViewportWidth o; r_ViewportHeight := ro_ViewportHeight o}}.

Definition cookieTarget (s : Script) : string :=
  if negb (TrimSpace (sc_Target s) =? "")%string then sc_Target s
  else match List.find (fun p => (s_Action (pl_Step p) =? "goto")%string && negb (TrimSpace (s_URL (pl_Step p)) =? "")%string) (stepPlans s) with
       | Some p => s_URL (pl_Step p)
       | None => ""
       end.

Fixpoint browser_cookies (vars : tagmap) (l : list Cookie) : Res rerr (list BrowserCookie) :=
  match l with
  | [] => Ok []
  | c :: l' =>
      let name := TrimSpace (ck_ValueFrom c) in
      match (if (name =? "")%string then Some (ck_Value c) else vars !! name) with
      | None => Err (RPlain ("cookie variable " +:+ quote (ck_ValueFrom c) +:+ " is required"))
      | Some v =>
          match browser_cookies vars l' with
          | Err e => Err e
          | Ok r => Ok (mkBrowserCookie (TrimSpace (ck_Name c)) v (TrimSpace (ck_Domain c))
                          (first_text [TrimSpace (ck_Path c); "/"]) (ck_Secure c) (ck_HTTPOnly c) (TrimSpace (ck_SameSite c)) :: r)
          end
      end
  end.

Definition browserConfig (s : Script) (o : Options) (vars : tagmap) : Res rerr BrowserConfig :=
  match browser_cookies vars (sc_Cookies s ++ ro_Cookies o) with
  | Err e => Err e
  | Ok cookies =>
      Ok (mkBrowserConfig (cookieTarget s) (ro_Headers o ∪ sc_Headers s) cookies (sc_IgnoreHTTPSErrors s || ro_IgnoreHTTPSErrors o))
  end.

(** What a run is made of: the script, the options and what is derived from them. *)
Record run_args := mkArgs {
  ra_script : Script; ra_options : Options; ra_runID : string; ra_path : string; ra_tags : tagmap; ra_vars : tagmap;
  ra_config : BrowserConfig; ra_name : string; ra_timeoutMS : Z; ra_engine : string; ra_factory : string; ra_max : Z
}.

(** The result of an attempt whose engine does not start or cannot be configured. *)
Definition attempt_failure (a : run_args) (attempt start : Z) (c : context) (e : eerr) (now : Z) : Result :=
  let late := ee_deadline e || is_deadline_err (ctx_err c now) in
  let '(e, reason) := if late then (RTimeout (ra_timeoutMS a), "timeout") else (REngine e, "runner_error") in
  (withViewport (ra_options a)
     (failureResult (ra_runID a) (ra_name a) (ra_path a) (ra_timeoutMS a) start (ra_tags a) (Some (ra_script a)) e reason now))
    {{r_Engine := ra_engine a; r_Attempt := attempt; r_MaxAttempts := ra_max a}}.

Definition engine_options (a : run_args) : EngineOptions :=
  let o := ra_options a in
  mkEngineOptions (ro_LightpandaPath o) (ro_CACertFile o) (ro_CACertDir o) (ro_BlockPrivateNetwork o) (ro_PrivateNetworkCIDRs o)
    (ro_ChromePath o) (ro_ScreenshotDir o) (ra_runID a) (ro_ViewportWidth o) (ro_ViewportHeight o)
    (first_text [ro_ProxyURL o; sc_ProxyURL (ra_script a); ro_DefaultProxyURL o]) (bf_IgnoreHTTPSErrors (ra_config a))
    (ro_StartupTimeout o).

(** The snapshot of a page whose script failed. *)
Definition capture_dom (w : World) : DomSnapshot * World :=
  let '(r, d, g) := b_dom (w_time w) (w_state w) in
  let w := mkWorld (w_time w + Z.of_N d) g in
  (match r with Ok s => s | Err e => mkDom (fmt_time (w_time w)) "" "" "" "" (ee_msg e) end, w).

(** After the steps: what is collected, and the result. *)
Definition attempt_result (a : run_args) (attempt start : Z) (steps : list StepResult) (err : option rerr) (w : World) : Result * World :=
  let '(dom, w) := match err with Some _ => let '(d, w) := capture_dom w in (Some d, w) | None => (None, w) end in
  let console := b_console (w_state w) in
  let network := b_network (w_state w) in
  let '(perf, w) := captureStepPerformance w in
  let s := ra_script a in let o := ra_options a in
  let r := mkResult (ra_runID a) (ra_name a) (ra_engine a) (sc_Target s) (sc_PostURL s) (ra_path a) StatusOK true start
    (fmt_time start) (fmt_time (w_time w)) (micros (w_time w - start)) (ra_timeoutMS a) (ro_ViewportWidth o) (ro_ViewportHeight o)
    steps (withNodeName (ra_tags a)) (sc_Metadata s) console network (collectTraceIDs network) dom perf None "" "" attempt (ra_max a) [] in
  (match err with
   | None => r
   | Some e =>
       let reason := FailureReason err (existsb (fun s => bool_decide (st_Status s = StatusFail)) steps) in
       r{{r_Status := StatusFail; r_Success := false; r_Error := Some (error_info stack e); r_FailReason := reason;
          r_FailureType := classifyFailureType err steps reason}}
   end, w).

Definition close (w : World) : World := w{{w_state ::= b_close}}.

(** The optional configuration of an engine. *)
Definition configure (a : run_args) (c : context) (w : World) : option eerr * World :=
  match b_configure (w_state w) with
  | None => (None, w)
  | Some f => let '(e, d, g) := f (ra_config a) c (w_time w) in (e, mkWorld (w_time w + Z.of_N d) g)
  end.

Definition runAttempt (ctx : context) (a : run_args) (attempt start : Z) (w : World) : option (Result * World) :=
  let c := WithTimeout ctx (ra_timeoutMS a) (w_time w) in
  let '(err, d, g) := b_new (ra_factory a) (engine_options a) c (w_time w) (w_state w) in
  let w := mkWorld (w_time w + Z.of_N d) g in
  match err with
  | Some e => Some (attempt_failure a attempt start c e (w_time w), w)
  | None =>
      match configure a c w with
      | (Some e, w) => Some (attempt_failure a attempt start c e (w_time w), close w)
      | (None, w) =>
          let o := ra_options a in
          let shots := engineScreenshotOptions (ra_engine a)
            (mkShots (ro_ScreenshotOnFailure o) (ro_ScreenshotPerStep o) (ro_ScreenshotDir o) (ra_runID a)) in
          match executeSteps c (sc_Target (ra_script a)) (ra_timeoutMS a) (ra_vars a) shots 1 (stepPlans (ra_script a)) w with
          | None => None
          | Some (steps, err, w) => let '(r, w) := attempt_result a attempt start steps err w in Some (r, close w)
          end
      end
  end.

Definition retryRecordFromResult (r : Result) : RetryRecord :=
  let msg := match r_Error r with Some e => ei_Message e | None => "" end in
  let failed := List.find (fun s => bool_decide (st_Status s = StatusFail)) (r_Steps r) in
  mkRetry (r_Attempt r) (r_StartedAtText r) (r_EndedAtText r) (r_DurationUS r) (r_Status r) (r_Success r)
    (match failed with Some s => st_Seq s | None => 0 end) (r_FailReason r) (r_FailureType r)
    (match failed with
     | Some s => if (msg =? "")%string then match st_Error s with Some e => ei_Message e | None => "" end else msg
     | None => msg
     end).

(** The records of the attempts are kept, and reported with a failure or after one, when
    there can be more than one attempt. *)
Definition keep_record (max : Z) (r : Result) (records : list RetryRecord) : list RetryRecord :=
  if 1 <? max then records ++ [retryRecordFromResult r] else records.

Definition with_records (max : Z) (records : list RetryRecord) (r : Result) : Result :=
  if (1 <? max) && ((1 <? zlen records) || negb (r_Success r)) then r{{r_RetryRecords := records}} else r.

(** The attempts from one on, [n] more at most. *)
Fixpoint attempts (ctx : context) (a : run_args) (n : nat) (attempt start : Z) (records : list RetryRecord) (w : World)
    : option (Result * World) :=
  match runAttempt ctx a attempt start w with
  | None => None
  | Some (r, w) =>
      let records := keep_record (ra_max a) r records in
      let r := with_records (ra_max a) records r in
      if r_Success r then Some (r, w)
      else match n with
           | O => Some (r, w)
           | S n' => attempts ctx a n' (attempt + 1) (w_time w) records w
           end
  end.

(** What attempts are made of; or the error before the first one, and the reason. *)
Definition run_args_of (loaded : Script) (o : Options) (runID path name : string) (timeoutMS : Z) (tags : tagmap) : Res (rerr * string) run_args :=
  let vars := configVarMap (sc_ConfigVars loaded) in
  match browserConfig loaded o vars with
  | Err e => Err (e, "script_load_error")
  | Ok config =>
      match ro_EngineFactory o with
      | None => Err (RPlain "runner engine factory is not configured", "runner_error")
      | Some factory =>
          Ok (mkArgs loaded o runID path tags vars config name timeoutMS (normalizedEngineName (ro_EngineName o)) factory
                (Z.max 1 (int64 (ro_RetryCount o + 1))))
      end
  end.

Definition script_name (loaded : Script) (o : Options) : string :=
  first_text [ro_Name o; first_text [sc_Name loaded; if (ro_ScriptPath o =? "")%string then "browser-task" else path_Base (ro_ScriptPath o)]].

Definition script_timeout (loaded : Script) (o : Options) : Z :=
  if 0 <? ro_TimeoutMS o then ro_TimeoutMS o else if 0 <? sc_TimeoutMS loaded then sc_TimeoutMS loaded else 30000.

(** The slice that is made for the records of all attempts is taken to fit in the memory. *)
Definition runLoaded (ctx : context) (loaded : Script) (o : Options) (runID path : string) (start : Z) (baseTags : tagmap) (w : World)
    : option (Result * World) :=
  let name := script_name loaded o in
  let timeoutMS := script_timeout loaded o in
  let tags := sc_Tags loaded ∪ baseTags in
  match run_args_of loaded o runID path name timeoutMS tags with
  | Err (e, reason) => Some (withViewport o (failureResult runID name path timeoutMS start tags (Some loaded) e reason (w_time w)), w)
  | Ok a => attempts ctx a (Z.to_nat (ra_max a - 1)) 1 start [] w
  end.

(** [script.Load]. *)
Definition Load (path : string) : Res rerr Script :=
  match ReadFile path with
  | Err e => Err (RLoad e)
  | Ok content =>
      match (if (ToLower (path_Ext path) =? ".json")%string then script_json content else script_yaml content) with
      | Err e => Err (RLoad ("parse " +:+ path +:+ ": " +:+ e))
      | Ok s => match Validate s with Some e => Err (RLoad e) | None => Ok s end
      end
  end.

Definition default_timeout (ms : Z) : Z := if ms <=? 0 then 30000 else ms.

Definition Run (ctx : context) (o : Options) (runID : string) (w : World) : option (Result * World) :=
  let start := w_time w in
  let path := if (ro_ScriptPath o =? "")%string then ro_ScriptPath o else path_Abs (ro_ScriptPath o) in
  match Load path with
  | Err e =>
      Some (withViewport o (failureResult runID (first_text [ro_Name o; path_Base (ro_ScriptPath o)]) path
              (default_timeout (ro_TimeoutMS o)) start (ro_Tags o) None e "script_load_error" (w_time w)), w)
  | Ok loaded => runLoaded ctx loaded o runID path start (ro_Tags o) w
  end.

Definition RunScript (ctx : context) (loaded : Script) (o : Options) (runID : string) (w : World) : option (Result * World) :=
  let start := w_time w in
  match Validate loaded with
  | Some e =>
      Some (withViewport o (failureResult runID (first_text [ro_Name o; sc_Name loaded; ro_ScriptPath o; "browser-task"])
              (ro_ScriptPath o) (default_timeout (ro_TimeoutMS o)) start (ro_Tags o) (Some loaded) (RPlain e) "script_load_error" (w_time w)), w)
  | None => runLoaded ctx loaded o runID (ro_ScriptPath o) start (ro_Tags o) w
  end.

(** ** Waiting ends *)

(** The result of a wait: a check that holds, or the error of the context. *)
Lemma poll_loop_total c action check : forall fuel e tick w,
  Z.max 1 ((done_at c - tick) / conditionPollInterval + 2) <= Z.of_nat fuel ->
  exists r w', poll_loop fuel c action check e tick w = Some (r, w').
Proof.
  induction fuel as [|fuel IH]; intros e tick w Hf; [lia|]. cbn [poll_loop].
  destruct (Z.leb_spec (done_at c) (Z.max tick (w_time w))) as [Hd|Hd]; [destruct (poll_late _ _ _ _ _ _ _); eauto|].
  destruct (check _) as [[e'|] w']; [|eauto]. apply IH. unfold next_tick.
  set (k := (Z.max tick (w_time w) - tick) / conditionPollInterval).
  assert (Hk : 0 <= k) by (apply Z.div_pos; unfold conditionPollInterval, Millisecond; lia).
  assert (Hq : 0 <= (done_at c - tick) / conditionPollInterval) by (apply Z.div_pos; unfold conditionPollInterval, Millisecond; lia).
  replace (done_at c - (tick + conditionPollInterval * (k + 1))) with (done_at c - tick + (- (k + 1)) * conditionPollInterval) by lia.
  rewrite Z.div_add by (unfold conditionPollInterval, Millisecond; lia). lia.
Qed.

Lemma pollCondition_total c action check w : exists r w', pollCondition c action check w = Some (r, w').
Proof.
  unfold pollCondition. destruct (ctx_err c (w_time w)); [eauto|]. destruct (check w) as [[e|] w']; [|eauto].
  apply poll_loop_total. unfold poll_fuel.
  replace (done_at c - (w_time w' + conditionPollInterval)) with (done_at c - w_time w' + (-1) * conditionPollInterval) by lia.
  rewrite Z.div_add by (unfold conditionPollInterval, Millisecond; lia).
  generalize ((done_at c - w_time w') / conditionPollInterval). lia.
Qed.

Lemma executeStep_total c target s vars w : exists r w', executeStep c target s vars w = Some (r, w').
Proof.
  unfold executeStep, simple. repeat case_match; eauto using pollCondition_total.
Qed.

Lemma run_script_step_total c target runMS vars o seq p w : exists r e w', run_script_step c target runMS vars o seq p w = Some (r, e, w').
Proof.
  unfold run_script_step. match goal with |- context [executeStep ?a ?b ?c ?d ?e] => destruct (executeStep_total a b c d e) as (r & w' & ->) end.
  destruct (call GetURL None w') as [url w1], (call Title None w1) as [title w2]. destruct r as [e|].
  - destruct (if _ || _ then _ else _) as [shot w3]. eauto.
  - destruct (if (_ =? _)%string then _ else _) as [perf w3], (if ss_PerStep o then _ else _) as [shot w4]. eauto.
Qed.

(** ** What the steps report *)

(** The status of the [i]-th step when the [n]-th one fails. *)
Definition status_at (n i : nat) : RunStatus := if (i <? n)%nat then StatusOK else if (i =? n)%nat then StatusFail else StatusSkip.

(** A record describes a step of the plan; the error is that of a step that failed. *)
Definition describes (seq : Z) (p : stepPlan) (status : RunStatus) (s : StepResult) : Prop :=
  st_Seq s = seq /\ st_Name s = StepName seq (pl_Step p) /\ st_Action s = s_Action (pl_Step p) /\
  st_InputDisplay s = inputDisplay (pl_Step p) /\ st_Auth s = pl_Auth p /\ st_Status s = status /\
  (is_Some (st_Error s) <-> status = StatusFail) /\ (st_SkipReason s <> "" <-> status = StatusSkip).

(** The steps of a plan, numbered from [seq], of which the [n]-th fails if it is there. *)
Definition ran (seq : Z) (plans : list stepPlan) (steps : list StepResult) (n : nat) : Prop :=
  length steps = length plans /\
  forall i p s, plans !! i = Some p -> steps !! i = Some s -> describes (seq + Z.of_nat i) p (status_at n i) s.

Lemma record_describes seq p : describes seq p StatusOK (stepRecord seq (pl_Step p) (pl_Auth p) StatusOK).
Proof.
  unfold describes, stepRecord. destruct (Expected (pl_Step p)) as [mode expected]. simpl.
  split_and!; try done; split; intros Hx; try done; by destruct Hx.
Qed.

Lemma run_script_step_describes c target runMS vars o seq p w r e w' : run_script_step c target runMS vars o seq p w = Some (r, e, w') ->
  describes seq p (match e with Some _ => StatusFail | None => StatusOK end) r.
Proof.
  unfold run_script_step. destruct (executeStep _ _ _ _ _) as [[err w1]|]; [|done].
  destruct (call GetURL None w1) as [url w2], (call Title None w2) as [title w3].
  pose proof (record_describes seq p) as (D1 & D2 & D3 & D4 & D5 & _ & _ & D8).
  destruct err as [e1|].
  - destruct (if _ || _ then _ else _) as [shot w4]. intros [= <- <- <-]. unfold describes. simpl. unfold constant.
    refine (conj D1 (conj D2 (conj D3 (conj D4 (conj D5 (conj eq_refl (conj _ _))))))).
    + split; [done|by eexists].
    + split; [intros Hx; by apply D8 in Hx|done].
  - destruct (if (_ =? _)%string then _ else _) as [perf w4], (if ss_PerStep o then _ else _) as [shot w5].
    intros [= <- <- <-]. exact (record_describes seq p).
Qed.

Lemma skipped_describe plans : forall seq,
  length (appendSkippedSteps plans seq) = length plans /\
  forall i p s, plans !! i = Some p -> appendSkippedSteps plans seq !! i = Some s -> describes (seq + Z.of_nat i) p StatusSkip s.
Proof.
  induction plans as [|p plans IH]; intros seq; simpl; [done|]. destruct (IH (seq + 1)) as [L D]. split; [by rewrite L|].
  intros [|i] q s Hp Hs; simpl in *.
  - injection Hp as <-. injection Hs as <-. rewrite Z.add_0_r.
    unfold describes, stepRecord. destruct (Expected (pl_Step p)) as [mode expected]. simpl. split_and!; try done; split; intros Hx; try done; by destruct Hx.
  - replace (seq + Z.of_nat (S i)) with (seq + 1 + Z.of_nat i) by lia. by apply D.
Qed.

Lemma executeSteps_ran c target runMS vars o plans : forall seq w,
  exists steps e w' n, executeSteps c target runMS vars o seq plans w = Some (steps, e, w') /\
    ran seq plans steps n /\ match e with None => n = length plans | Some _ => (n < length plans)%nat end.
Proof.
  induction plans as [|p plans IH]; intros seq w; cbn [executeSteps].
  { by exists [], None, w, 0%nat. }
  destruct (run_script_step_total c target runMS vars o seq p w) as (r & e & w1 & E). rewrite E.
  apply run_script_step_describes in E. destruct e as [e|].
  - exists (r :: appendSkippedSteps plans (seq + 1)), (Some e), w1, 0%nat.
    destruct (skipped_describe plans (seq + 1)) as [L D]. split; [done|]. split; [|simpl; lia]. split; [simpl; by rewrite L|].
    intros [|i] q s Hp Hs; simpl in Hp, Hs; [injection Hp as <-; injection Hs as <-; by rewrite Z.add_0_r|].
    replace (seq + Z.of_nat (S i)) with (seq + 1 + Z.of_nat i) by lia. by apply D.
  - destruct (IH (seq + 1) w1) as (steps & e & w2 & n & -> & [L D] & Hn).
    exists (r :: steps), e, w2, (S n). split; [done|]. split; [|destruct e; simpl; lia]. split; [simpl; by rewrite L|].
    intros [|i] q s Hp Hs; simpl in Hp, Hs; [injection Hp as <-; injection Hs as <-; by rewrite Z.add_0_r|].
    replace (seq + Z.of_nat (S i)) with (seq + 1 + Z.of_nat i) by lia. by apply D.
Qed.

(** The engine of an attempt starts and is configured. *)
Definition engine_starts (ctx : context) (a : run_args) (w : World) : bool :=
  let c := WithTimeout ctx (ra_timeoutMS a) (w_time w) in
  match b_new (ra_factory a) (engine_options a) c (w_time w) (w_state w) with
  | (Some _, _, _) => false
  | (None, d, g) => match configure a c (mkWorld (w_time w + Z.of_N d) g) with (Some _, _) => false | (None, _) => true end
  end.

(** What a result tells of the steps.  When the engine starts ([up]): all of them succeeded; or
    one failed after some that succeeded, and the others were skipped.  When it does not, it
    is a failure without steps. *)
Definition outcome_ok (plans : list stepPlan) (up : bool) (r : Result) : Prop :=
  r_Success r = bool_decide (r_Status r = StatusOK) /\ (r_Success r = true <-> r_Error r = None) /\
  if up then
    if r_Success r then ran 1 plans (r_Steps r) (length plans)
    else exists n, (n < length plans)%nat /\ ran 1 plans (r_Steps r) n
  else r_Success r = false /\ r_Steps r = [].

Lemma runAttempt_ok ctx a attempt start w : exists r w',
  runAttempt ctx a attempt start w = Some (r, w') /\ r_Attempt r = attempt /\ r_RetryRecords r = [] /\
  outcome_ok (stepPlans (ra_script a)) (engine_starts ctx a w) r.
Proof.
  unfold runAttempt, engine_starts. set (c := WithTimeout _ _ _). destruct (b_new _ _ _ _ _) as [[err d] g].
  set (w1 := mkWorld _ g).
  assert (F : forall e now, let r := attempt_failure a attempt start c e now in
            r_Attempt r = attempt /\ r_RetryRecords r = [] /\ outcome_ok (stepPlans (ra_script a)) false r).
  { intros e now. unfold attempt_failure. destruct (if _ || _ then _ else _) as [e' reason].
    split_and!; [done|done|]. unfold outcome_ok. simpl. by split_and!. }
  destruct err as [e|]; [eexists _, _; split; [done|apply F]|].
  destruct (configure a c w1) as [[e|] w2]; [eexists _, _; split; [done|apply F]|].
  match goal with |- context [executeSteps ?a ?b ?c ?d ?e ?f ?g ?h] =>
    destruct (executeSteps_ran a b c d e g f h) as (steps & e1 & w3 & n & -> & R & Hn) end.
  unfold attempt_result. destruct (match e1 with Some _ => _ | None => _ end) as [dom w4].
  destruct (captureStepPerformance w4) as [perf w5].
  eexists _, _. split; [done|]. destruct e1 as [e1|]; simpl; split_and!; try done; unfold outcome_ok; simpl; unfold constant.
  - split_and!; [done|done|]. by exists n.
  - split_and!; [done|done|]. by rewrite <- Hn.
Qed.

(** ** Attempts *)

(** The records of retries: of failures only, but for the last one, which is of the result. *)
Definition records_ok (r : Result) : Prop :=
  exists old, r_RetryRecords r = old ++ [retryRecordFromResult r] /\ Forall (fun x => rr_Success x = false) old /\
    zlen (r_RetryRecords r) = r_Attempt r.

Lemma zlen_snoc {A} (l : list A) x : zlen (l ++ [x]) = zlen l + 1.
Proof. by rewrite zlen_app. Qed.

Definition records_shown (max : Z) (r : Result) : Prop :=
  if (1 <? max) && ((1 <? r_Attempt r) || negb (r_Success r)) then records_ok r else r_RetryRecords r = [].

Lemma with_records_same max records r :
  let r' := with_records max records r in
  r_Attempt r' = r_Attempt r /\ r_Success r' = r_Success r /\ forall plans up, outcome_ok plans up r -> outcome_ok plans up r'.
Proof. unfold with_records. by destruct (_ && _). Qed.

Lemma with_records_shown max records r :
  (1 < max -> zlen records = r_Attempt r - 1) -> Forall (fun x => rr_Success x = false) records -> r_RetryRecords r = [] ->
  records_shown max (with_records max (keep_record max r records) r).
Proof.
  intros Hl Hf Hr. unfold records_shown, with_records, keep_record.
  destruct (Z.ltb_spec 1 max) as [Hm|Hm]; simpl; [|done]. rewrite zlen_snoc, (Hl Hm).
  replace (r_Attempt r - 1 + 1) with (r_Attempt r) by lia.
  destruct ((1 <? r_Attempt r) || negb (r_Success r)) eqn:E; [|by rewrite ?E].
  destruct r. simpl in *. unfold constant. rewrite E. exists records. simpl. unfold constant. rewrite zlen_snoc, (Hl Hm).
  split_and!; [done|done|lia].
Qed.

(** The attempts from one on failed, up to another one that is due. *)
Inductive failed_until (ctx : context) (a : run_args) : Z -> Z -> World -> Z -> Z -> World -> Prop :=
| FU_here n start w : failed_until ctx a n start w n start w
| FU_next n start w r w1 m start' w' :
    runAttempt ctx a n start w = Some (r, w1) -> r_Success r = false ->
    failed_until ctx a (n + 1) (w_time w1) w1 m start' w' -> failed_until ctx a n start w m start' w'.

(** The result of the attempts from [n] on is that of the first one that succeeds, or of the
    last one, with the records of the attempts; it tells what became of the steps of that one. *)
Definition attempted (ctx : context) (a : run_args) (n start : Z) (w : World) (r : Result) (w' : World) : Prop :=
  exists start0 w0 r0 records,
    failed_until ctx a n start w (r_Attempt r) start0 w0 /\
    runAttempt ctx a (r_Attempt r) start0 w0 = Some (r0, w') /\
    r = with_records (ra_max a) records r0 /\
    outcome_ok (stepPlans (ra_script a)) (engine_starts ctx a w0) r.

Lemma script_attempts_spec ctx a n : forall attempt start records w,
  1 <= attempt -> ra_max a = attempt + Z.of_nat n ->
  (1 < ra_max a -> zlen records = attempt - 1) -> Forall (fun x => rr_Success x = false) records ->
  exists r w', attempts ctx a n attempt start records w = Some (r, w') /\
    attempt <= r_Attempt r <= ra_max a /\ (r_Success r = false -> r_Attempt r = ra_max a) /\
    attempted ctx a attempt start w r w' /\ records_shown (ra_max a) r.
Proof.
  induction n as [|n IH]; intros attempt start records w Ha Hm Hlen Hrec; cbn [attempts];
    destruct (runAttempt_ok ctx a attempt start w) as (r & w1 & Er & Hat & Hrr & Hok); rewrite Er;
    set (records' := keep_record (ra_max a) r records); set (r' := with_records (ra_max a) records' r);
    destruct (with_records_same (ra_max a) records' r) as (R1 & R2 & R3); fold r' in R1, R2, R3;
    (assert (Sh : records_shown (ra_max a) r') by (apply with_records_shown; [by rewrite Hat|done|done]));
    (assert (At : attempted ctx a attempt start w r' w1)
       by (exists start, w, r, records'; rewrite R1, Hat; split_and!; [apply FU_here|done|done|by apply R3])).
  - exists r', w1. split; [by destruct (r_Success r')|]. split_and!; [lia|lia|lia|done|done].
  - destruct (r_Success r') eqn:Es.
    + exists r', w1. split_and!; [done|lia|lia|congruence|done|done].
    + destruct (IH (attempt + 1) (w_time w1) records' w1) as (r2 & w2 & E & B & F & O & S); [lia|lia|..].
      * intros H1m. unfold records', keep_record. rewrite (proj2 (Z.ltb_lt _ _) H1m), zlen_snoc, (Hlen H1m). lia.
      * unfold records', keep_record. destruct (1 <? ra_max a); [|done]. apply Forall_app. split; [done|].
        constructor; [|done]. simpl. congruence.
      * exists r2, w2. split_and!; [done|lia|lia|done| |done].
        destruct O as (st0 & w0 & r0 & recs & Hf & Hrest). exists st0, w0, r0, recs. split; [|done].
        eapply FU_next; [exact Er|congruence|exact Hf].
Qed.

(** The result of a run. *)
Lemma runLoaded_reports ctx loaded o runID path start tags w :
  exists r w', runLoaded ctx loaded o runID path start tags w = Some (r, w') /\
    match run_args_of loaded o runID path (script_name loaded o) (script_timeout loaded o) (sc_Tags loaded ∪ tags) with
    | Err _ => r_Success r = false /\ r_Steps r = [] /\ r_Attempt r = 0 /\ r_RetryRecords r = []
    | Ok a => ra_max a = Z.max 1 (int64 (ro_RetryCount o + 1)) /\ 1 <= r_Attempt r <= ra_max a /\
              (r_Success r = false -> r_Attempt r = ra_max a) /\
              attempted ctx a 1 start w r w' /\ records_shown (ra_max a) r
    end.
Proof.
  unfold runLoaded. destruct (run_args_of _ _ _ _ _ _ _) as [a|[e reason]] eqn:Ea; [|eexists _, _; by split_and!].
  assert (Hm : ra_max a = Z.max 1 (int64 (ro_RetryCount o + 1))).
  { unfold run_args_of in Ea. destruct (browserConfig _ _ _); [|done]. destruct (ro_EngineFactory o); [|done]. by injection Ea as <-. }
  destruct (script_attempts_spec ctx a (Z.to_nat (ra_max a - 1)) 1 start [] w) as (r & w' & E & B & Fa & O & S);
    [lia|lia|done|constructor|]. exists r, w'. split_and!; try done; lia.
Qed.
(** C15: A run of a script always ends, provided that [select] does not prefer a tick to a
    context that is done for ever.  When the configuration of the browser is wrong or there
    is no engine, the result is a failure without steps and without an attempt.  Otherwise it
    is the result of the first attempt that succeeds or, when all fail, of the last one: there
    are one more than the retries, at least one, in the arithmetic of 64 bits.  If the engine
    of that attempt started, its steps are reported in the order of the plan, authentication
    first, numbered from one: success when all of them succeeded; otherwise the steps up to one
    succeeded, that one failed with an error, and the rest were skipped.  If it did not start,
    it is a failure without steps.  The records that are shown, when attempts can be more than
    one, are of failures but for the last one, which is of the result. *)
Theorem script_run_reports ctx loaded o runID path start tags w :
  exists r w', runLoaded ctx loaded o runID path start tags w = Some (r, w') /\
    match run_args_of loaded o runID path (script_name loaded o) (script_timeout loaded o) (sc_Tags loaded ∪ tags) with
    | Err _ => r_Success r = false /\ r_Steps r = [] /\ r_Attempt r = 0 /\ r_RetryRecords r = []
    | Ok a => ra_max a = Z.max 1 (int64 (ro_RetryCount o + 1)) /\ 1 <= r_Attempt r <= ra_max a /\
              (r_Success r = false -> r_Attempt r = ra_max a) /\
              attempted ctx a 1 start w r w' /\ records_shown (ra_max a) r
    end.
Proof. apply runLoaded_reports. Qed.
End runner.
