(* ===== verification/DialBrowser.v ===== *)
(** * Dial testing: browser tasks ([src/dialtesting/browser.go])

    A task normalises the YAML text of a script, writes it to a file and runs it with an
    embedded engine, with retries; the results hide the errors of the runner and the values
    of secure variables.  YAML documents are trees ([Node]); what is used of the YAML and
    JSON libraries is the class [BrowserText].  An alias node is read as it was parsed. *)

From S2P Require Import Prelude GoNum GoStrings FilterLex GoStrconv DialTask DialNet DialTls DialHttp DialMulti DialThms DialGrpc DialScript.

(** ** YAML trees *)

Inductive Kind := DocumentNode | SequenceNode | MappingNode | ScalarNode | AliasNode.

#[export] Instance Kind_eq_dec : EqDecision Kind.
Proof. solve_decision. Defined.

(** [Other] stands for the fields that the code neither reads nor writes. *)
Inductive Node := mkNode (kind : Kind) (tag value : string) (content : list Node) (other : string).

Definition n_Kind (n : Node) : Kind := match n with mkNode k _ _ _ _ => k end.
Definition n_Value (n : Node) : string := match n with mkNode _ _ v _ _ => v end.
Definition n_Content (n : Node) : list Node := match n with mkNode _ _ _ c _ => c end.
Definition is_mapping (n : Node) : bool := bool_decide (n_Kind n = MappingNode).
Definition is_sequence (n : Node) : bool := bool_decide (n_Kind n = SequenceNode).

(** A node is made a scalar; the rest of it stays. *)
Definition set_scalar (tag value : string) (n : Node) : Node :=
  match n with mkNode _ _ _ c o => mkNode ScalarNode tag value c o end.

Definition scalar (tag value : string) : Node := mkNode ScalarNode tag value [] "".

(** The value of the first entry with a key. *)
Fixpoint map_value (key : string) (l : list Node) : option Node :=
  match l with
  | k :: x :: l' => if (n_Value k =? key)%string then Some x else map_value key l'
  | _ => None
  end.

Definition yamlMapValue (n : Node) (key : string) : option Node := if is_mapping n then map_value key (n_Content n) else None.

Definition yamlMapBoolValue (l : list Node) (key : string) : bool :=
  match map_value key l with Some x => EqualFold (n_Value x) "true" | None => false end.

(** The first entry with a key gets a new value, or one is added. *)
Fixpoint setYAMLMapValue (key value : string) (l : list Node) : list Node :=
  match l with
  | k :: x :: l' =>
      if (n_Value k =? key)%string then k :: set_scalar "!!str" value x :: l' else k :: x :: setYAMLMapValue key value l'
  | _ => l ++ [scalar "!!str" key; scalar "!!str" value]
  end.

(** The first entry with a key is changed, if there is one. *)
Fixpoint update_value (key : string) (f : Node -> Res string Node) (l : list Node) : Res string (list Node) :=
  match l with
  | k :: x :: l' =>
      if (n_Value k =? key)%string then match f x with Ok y => Ok (k :: y :: l') | Err e => Err e end
      else match update_value key f l' with Ok r => Ok (k :: x :: r) | Err e => Err e end
  | _ => Ok l
  end.

Definition with_content (c : list Node) (n : Node) : Node := match n with mkNode k t v _ o => mkNode k t v c o end.

(** *** Secure variables *)

Definition sanitize_item (n : Node) : Node :=
  if is_mapping n && yamlMapBoolValue (n_Content n) "secure" then with_content (setYAMLMapValue "value" "" (n_Content n)) n else n.

Definition sanitizeConfigVarSequence (n : Node) : Node :=
  if is_sequence n then with_content (map sanitize_item (n_Content n)) n else n.

(** The value of each entry of a mapping, by its key. *)
Section entries.
Variable f : Node -> Node -> Node.

Fixpoint map_entries (l : list Node) : list Node :=
  match l with k :: x :: l' => k :: f k x :: map_entries l' | _ => l end.
End entries.

(** [g] on the values of the keys [config_vars]; these values are not searched. *)
Fixpoint on_config_vars (g : Node -> Node) (n : Node) : Node :=
  match n with
  | mkNode MappingNode t v c o =>
      mkNode MappingNode t v (map_entries (fun k x => if (n_Value k =? "config_vars")%string then g x else on_config_vars g x) c) o
  | mkNode k t v c o => mkNode k t v (map (on_config_vars g) c) o
  end.

Definition sanitizeYAMLConfigVars : Node -> Node := on_config_vars sanitizeConfigVarSequence.

(** ** Configuration *)

Record browserConfigStep := mkConfigStep { cs_Action : string; cs_URL : string; cs_TimeoutMS : Z }.

Record browserConfig := mkConfig {
  cf_Name : string; cf_Target : string; cf_TimeoutMS : Z; cf_Tags : tagmap; cf_ConfigVars : list ConfigVar;
  cf_AuthMode : string; cf_AuthSteps : list browserConfigStep; cf_Steps : list browserConfigStep
}.

Definition zero_config : browserConfig := mkConfig "" "" 0 ∅ [] "" [] [].

Record BrowserViewport := mkViewport { Width : Z; Height : Z }.

Record TaskCookie := mkTaskCookie { tc_Name : string; tc_Value : string }.

Record BrowserAdvanceOption := mkBrowserOpt {
  bo_Engine : string; bo_ScreenshotOnFailure : bool; bo_Headers : tagmap; bo_Cookies : list TaskCookie;
  bo_IgnoreHTTPSErrors : bool; bo_ProxyURL : string
}.

Record BrowserRetryOption := mkBrowserRetry { br_Enabled : bool; br_Count : Z; br_IntervalSec : Z }.

Record browserRetryRecord := mkTaskRetry {
  tr_Attempt : Z; tr_StartedAt : string; tr_EndedAt : string; tr_DurationUS : Z; tr_Status : string; tr_Success : bool;
  tr_FailedStep : Z; tr_FailReason : string; tr_FailureType : string; tr_Message : string
}.

(** The part of a result of the runner that a task keeps. *)
Record browserDialRun := mkDialRun {
  dr_RunID : string; dr_Name : string; dr_Target : string; dr_Status : string; dr_Success : bool; dr_StartedAt : string;
  dr_EndedAt : string; dr_DurationUS : Z; dr_Steps : list StepResult; dr_TraceIDs : list string;
  dr_Performance : option PerformanceMetrics; dr_Error : option ErrorInfo; dr_FailReason : string; dr_FailureType : string;
  dr_RetryRecords : list browserRetryRecord
}.

Definition zero_run : browserDialRun := mkDialRun "" "" "" "" false "" "" 0 [] [] None None "" "" [].

Record browserViewportResult := mkViewResult {
  vr_viewport : BrowserViewport; vr_duration : Z; vr_startedAt : string; vr_endedAt : string; vr_result : browserDialRun;
  vr_exitCode : Z; vr_reqError : string; vr_stderr : string; vr_attempts : Z; vr_retryRecords : list browserRetryRecord
}.

Definition zero_result : browserViewportResult := mkViewResult (mkViewport 0 0) 0 "" "" zero_run 0 "" "" 0 [].

Record browserConfigResultVar := mkResultVar { rv_Name : string; rv_Type : string; rv_Value : string; rv_Secure : bool }.

(** How the JSON of a result of the runner fares: encoding fails, decoding fails, or neither. *)
Inductive json_trip := EncodeFails | DecodeFails | RoundTrips.

Class BrowserText := {
  yaml_node : string -> Res string Node;
  yaml_marshal : Node -> Res string string;
  decode_int : Node -> option Z;
  yaml_config : string -> Res string browserConfig;
  result_json : Result -> json_trip;
  steps_json : list StepResult -> Res string string;
  retry_json : list browserRetryRecord -> Res string string;
  vars_json : list browserConfigResultVar -> Res string string
}.

Definition defaultBrowserDialTimeout : Z := 300000.
Definition defaultBrowserWidth : Z := 1920.
Definition defaultBrowserHeight : Z := 1080.
Definition maxBrowserTotalTimeoutMS : Z := 300000.
Definition maxBrowserStepTimeoutMS : Z := 60000.
Definition browserSystemErrorMessage : string := "Browser dial testing system error, please check agent logs".
Definition ClassHeadless : string := "BROWSER".

(** The first text that is not blank. *)
Fixpoint firstNonEmpty (l : list string) : string :=
  match l with [] => "" | s :: l' => if (TrimSpace s =? "")%string then firstNonEmpty l' else s end.

Section browser.
Context `{Std} `{BrowserText}.

(** *** Timeouts of the YAML text *)

Definition getYAMLMapInt (n : Node) (key : string) : option Z := x ← yamlMapValue n key; decode_int x.

Fixpoint setYAMLMapIntIfMissingOrZero (key : string) (v : Z) (l : list Node) : list Node :=
  match l with
  | k :: x :: l' =>
      if (n_Value k =? key)%string then
        match decode_int x with
        | Some c => if 0 <? c then l else k :: set_scalar "!!int" (FormatInt v) x :: l'
        | None => k :: set_scalar "!!int" (FormatInt v) x :: l'
        end
      else k :: x :: setYAMLMapIntIfMissingOrZero key v l'
  | _ => l ++ [scalar "!!str" key; scalar "!!int" (FormatInt v)]
  end.

Definition exceeds (n : Node) (limit : Z) : bool := match getYAMLMapInt n "timeout_ms" with Some t => limit <? t | None => false end.

Fixpoint normalize_steps (label : string) (index : Z) (l : list Node) : Res string (list Node) :=
  match l with
  | [] => Ok []
  | n :: l' =>
      if is_mapping n && exceeds n maxBrowserStepTimeoutMS
      then Err (label +:+ " " +:+ FormatInt (index + 1) +:+ " timeout_ms should not exceed " +:+ FormatInt maxBrowserStepTimeoutMS)
      else
        let n' := if is_mapping n
                  then with_content (setYAMLMapIntIfMissingOrZero "timeout_ms" maxBrowserStepTimeoutMS (n_Content n)) n else n in
        match normalize_steps label (index + 1) l' with Ok r => Ok (n' :: r) | Err e => Err e end
  end.

(** On the content of the parent. *)
Definition normalizeBrowserStepTimeouts (key label : string) : list Node -> Res string (list Node) :=
  update_value key (fun steps =>
    if is_sequence steps then
      match normalize_steps label 0 (n_Content steps) with Ok c => Ok (with_content c steps) | Err e => Err e end
    else Ok steps).

Definition normalize_root (root : Node) : Res string Node :=
  if exceeds root maxBrowserTotalTimeoutMS
  then Err ("browser_config timeout_ms should not exceed " +:+ FormatInt maxBrowserTotalTimeoutMS)
  else
    let c := setYAMLMapIntIfMissingOrZero "timeout_ms" maxBrowserTotalTimeoutMS (n_Content root) in
    match normalizeBrowserStepTimeouts "steps" "browser_config steps" c with
    | Err e => Err e
    | Ok c =>
        match update_value "auth" (fun auth =>
                if is_mapping auth then
                  match normalizeBrowserStepTimeouts "steps" "browser_config auth.steps" (n_Content auth) with
                  | Ok c => Ok (with_content c auth)
                  | Err e => Err e
                  end
                else Ok auth) c with
        | Err e => Err e
        | Ok c => Ok (with_content c root)
        end
    end.

Definition normalizeBrowserConfigTimeouts (config : string) : Res string string :=
  match yaml_node config with
  | Err e => Err e
  | Ok node =>
      match n_Content node with
      | root :: rest =>
          if is_mapping root then
            match normalize_root root with
            | Err e => Err e
            | Ok root' => yaml_marshal (with_content (root' :: rest) node)
            end
          else Ok config
      | [] => Ok config
      end
  end.

Definition sanitizeBrowserConfig (config : string) : string :=
  if (TrimSpace config =? "")%string then config
  else match yaml_node config with
       | Err _ => config
       | Ok node => match yaml_marshal (sanitizeYAMLConfigVars node) with Ok d => d | Err _ => config end
       end.

(** ** The task *)

Record BrowserTask := mkBrowser {
  browser_task : Task;
  browser_URL : string; BrowserConfigText : string; BrowserWindow : option (list BrowserViewport);
  browser_AdvanceOptions : option BrowserAdvanceOption; RetryOptions : option BrowserRetryOption;
  browser_duration : Z; browser_result : browserDialRun; exitCode : Z; browser_reqError : string; browser_stderr : string;
  browser_rawTask : option (string * string);          (* the raw configuration and URL *)
  browser_results : list browserViewportResult
}.

Definition browser_clear (t : BrowserTask) : BrowserTask :=
  t{{browser_duration := 0; browser_result := zero_run; exitCode := 0; browser_reqError := ""; browser_stderr := "";
     browser_results := [] }}.

Definition parseBrowserConfig (t : BrowserTask) : Res string browserConfig :=
  if (TrimSpace (BrowserConfigText t) =? "")%string then Err "browser_config is empty" else yaml_config (BrowserConfigText t).

Definition parsed (t : BrowserTask) : browserConfig := match parseBrowserConfig t with Ok c => c | Err _ => zero_config end.

Definition default_viewport : BrowserViewport := mkViewport defaultBrowserWidth defaultBrowserHeight.

Definition applyDefaultBrowserWindow (t : BrowserTask) : BrowserTask :=
  t{{BrowserWindow := match BrowserWindow t with Some ((_ :: _) as l) => Some l | _ => Some [default_viewport] end}}.

Definition effectiveViewports (t : BrowserTask) : list BrowserViewport :=
  match BrowserWindow (applyDefaultBrowserWindow t) with Some l => l | None => [] end.

Fixpoint long_step (label : string) (index : Z) (l : list browserConfigStep) : option string :=
  match l with
  | [] => None
  | s :: l' =>
      if maxBrowserStepTimeoutMS <? cs_TimeoutMS s
      then Some ("browser_config " +:+ label +:+ " " +:+ FormatInt (index + 1) +:+ " timeout_ms should not exceed " +:+ FormatInt maxBrowserStepTimeoutMS)
      else long_step label (index + 1) l'
  end.

Definition checkBrowserConfigTimeouts (c : browserConfig) : option string :=
  if maxBrowserTotalTimeoutMS <? cf_TimeoutMS c
  then Some ("browser_config timeout_ms should not exceed " +:+ FormatInt maxBrowserTotalTimeoutMS)
  else long_step "auth.steps" 0 (cf_AuthSteps c) ∪ long_step "steps" 0 (cf_Steps c).

Definition checkBrowserWindow (t : BrowserTask) : option string :=
  let l := effectiveViewports t in
  if 1 <? zlen l then Some "browser_window.viewports currently supports at most one viewport"
  else if existsb (fun v => (Width v <=? 0) || (Height v <=? 0)) l
  then Some "browser_window viewport width and height should be greater than 0" else None.

Definition checkBrowserAdvanceOptions (t : BrowserTask) : option string :=
  match browser_AdvanceOptions t with
  | None => None
  | Some o =>
      if negb (existsb (String.eqb (bo_Engine o)) [""; "chrome"; "lightpanda"])
      then Some "advance_options engine should be chrome or lightpanda"
      else if empty_key (bo_Headers o) then Some "advance_options headers key should not be empty"
      else if existsb (fun c => (TrimSpace (tc_Name c) =? "")%string) (bo_Cookies o)
      then Some "advance_options cookie name should not be empty" else None
  end.

Definition checkBrowserRetryOptions (t : BrowserTask) : option string :=
  match RetryOptions t with
  | None => None
  | Some r =>
      if (br_Count r <? 0) || (3 <? br_Count r) then Some "retry_options count should be between 0 and 3"
      else if br_Enabled r && (0 <? br_Count r) && ((br_IntervalSec r <? 5) || (300 <? br_IntervalSec r))
      then Some "retry_options interval_sec should be between 5 and 300" else None
  end.

(** The error, and the task: the window gets its default before it is checked. *)
Definition browser_check_run (t : BrowserTask) : option string * BrowserTask :=
  if (TrimSpace (BrowserConfigText t) =? "")%string then (Some "browser_config should not be empty", t)
  else match parseBrowserConfig t with
       | Err e => (Some ("parse browser_config failed: " +:+ e), t)
       | Ok c =>
           match cf_Steps c with
           | [] => (Some "browser_config steps should not be empty", t)
           | _ =>
               match checkBrowserConfigTimeouts c with
               | Some e => (Some e, t)
               | None =>
                   let t := applyDefaultBrowserWindow t in
                   (checkBrowserWindow t ∪ checkBrowserAdvanceOptions t ∪ checkBrowserRetryOptions t, t)
               end
           end
       end.

Definition effectiveEngine (t : BrowserTask) : string :=
  match browser_AdvanceOptions t with Some o => if (bo_Engine o =? "")%string then "chrome" else bo_Engine o | None => "chrome" end.

Definition embeddedEngineFactory (t : BrowserTask) : Res string string :=
  match TrimSpace (ToLower (effectiveEngine t)) with
  | "" | "chrome" | "chromium" => Ok "chrome"
  | "lightpanda" => Ok "lightpanda"
  | _ => Err "browser engine must be lightpanda or chrome"
  end%string.

Definition effectiveTimeoutMS (t : BrowserTask) : Z :=
  match parseBrowserConfig t with
  | Ok c => if 0 <? cf_TimeoutMS c then cf_TimeoutMS c else defaultBrowserDialTimeout
  | Err _ => defaultBrowserDialTimeout
  end.

Definition clampBrowserRetryCount (n : Z) : Z := if n <? 0 then 0 else if 3 <? n then 3 else n.

Definition retryInterval (t : BrowserTask) : Z :=
  match RetryOptions t with
  | Some r =>
      if negb (br_Enabled r) || (br_Count r <=? 0) then 0
      else Z.min 300 (Z.max 5 (br_IntervalSec r)) * Second
  | None => 0
  end.

(** *** Options of the agent *)

Definition opt_text (o : tagmap) (key : string) : string := default "" (o !! key).

Definition lightpandaPath (o : tagmap) : string := first_text [opt_text o "lightpanda_path"; opt_text o "lightpandaPath"].
Definition chromePath (o : tagmap) : string := first_text [opt_text o "chrome_path"; opt_text o "chromePath"].
Definition browserCACertFile (o : tagmap) : string := TrimSpace (opt_text o "browser_ca_cert_file").
Definition browserCACertDir (o : tagmap) : string := TrimSpace (opt_text o "browser_ca_cert_dir").
Definition browserDefaultProxyURL (o : tagmap) : string := TrimSpace (opt_text o "browser_proxy_url").
Definition browserBlockPrivateNetwork (o : tagmap) : bool := EqualFold (TrimSpace (opt_text o "browser_block_private_network")) "true".

Definition browserPrivateNetworkCIDRs (o : tagmap) : list string :=
  let value := TrimSpace (opt_text o "browser_block_cidrs") in
  if (value =? "")%string then []
  else List.filter (fun s => negb (s =? "")%string) (map TrimSpace (split_char comma value)).

Definition embeddedHeaders (t : BrowserTask) : tagmap := match browser_AdvanceOptions t with Some o => bo_Headers o | None => ∅ end.

Definition embeddedCookies (t : BrowserTask) : list Cookie :=
  match browser_AdvanceOptions t with
  | Some o => map (fun c => mkCookie (tc_Name c) (tc_Value c) "" "" "" false false "") (bo_Cookies o)
  | None => []
  end.

Definition embeddedProxyURL (t : BrowserTask) : string := match browser_AdvanceOptions t with Some o => bo_ProxyURL o | None => "" end.

Definition engine_flag (f : BrowserAdvanceOption -> bool) (t : BrowserTask) : bool :=
  match browser_AdvanceOptions t with Some o => f o | None => false end.

(** *** Runs *)

Definition status_text (s : RunStatus) : string := match s with StatusOK => "OK" | StatusFail => "FAIL" | StatusSkip => "SKIP" end.

Definition task_record (r : RetryRecord) : browserRetryRecord :=
  mkTaskRetry (rr_Attempt r) (rr_StartedAt r) (rr_EndedAt r) (rr_DurationUS r) (status_text (rr_Status r)) (rr_Success r)
    (rr_FailedStep r) (rr_FailReason r) (rr_FailureType r) (rr_Message r).

Definition browserDialRunFromEmbedded (r : Result) : browserDialRun :=
  match result_json r with
  | EncodeFails => zero_run
  | DecodeFails =>
      zero_run{{dr_RunID := r_RunID r; dr_Name := r_Name r; dr_Target := r_Target r; dr_Status := status_text (r_Status r);
        dr_Success := r_Success r; dr_DurationUS := r_DurationUS r; dr_FailReason := r_FailReason r;
        dr_FailureType := r_FailureType r}}
  | RoundTrips =>
      mkDialRun (r_RunID r) (r_Name r) (r_Target r) (status_text (r_Status r)) (r_Success r) (r_StartedAtText r) (r_EndedAtText r)
        (r_DurationUS r) (r_Steps r) (r_TraceIDs r) (r_Performance r) (r_Error r) (r_FailReason r) (r_FailureType r)
        (map task_record (r_RetryRecords r))
  end.

Definition first_failed (l : list StepResult) : option StepResult := List.find (fun s => bool_decide (st_Status s = StatusFail)) l.

Definition browserRetryRecordFromResult (v : browserViewportResult) (attempt : Z) : browserRetryRecord :=
  let r := vr_result v in
  let success := (vr_reqError v =? "")%string && dr_Success r in
  let status := if (dr_Status r =? "")%string then if success then "OK" else "FAIL" else dr_Status r in
  let duration := if (dr_DurationUS r =? 0) && (0 <? vr_duration v) then micros (vr_duration v) else dr_DurationUS r in
  let rec := mkTaskRetry attempt (firstNonEmpty [dr_StartedAt r; vr_startedAt v]) (firstNonEmpty [dr_EndedAt r; vr_endedAt v])
    duration status success 0 (dr_FailReason r) (dr_FailureType r) "" in
  if negb (vr_reqError v =? "")%string
  then rec{{tr_Message := vr_reqError v;
            tr_FailureType := if (dr_FailureType r =? "")%string then "runner_error" else dr_FailureType r}}
  else
    let msg := match dr_Error r with Some e => ei_Message e | None => "" end in
    match first_failed (dr_Steps r) with
    | Some s => rec{{tr_FailedStep := st_Seq s;
                     tr_Message := if (msg =? "")%string then match st_Error s with Some e => ei_Message e | None => "" end else msg}}
    | None => rec{{tr_Message := msg}}
    end.

Definition isBrowserParseFailure (v : browserViewportResult) : bool :=
  let text := ToLower (String.concat " " [vr_reqError v; vr_stderr v; dr_FailReason (vr_result v)]) in
  let text := match dr_Error (vr_result v) with
              | Some e => text +:+ " " +:+ ToLower (ei_Name e +:+ " " +:+ ei_Message e)
              | None => text
              end in
  has_substring text "parse".

Context `{Host} {G : Type} `{Browser G}.

(** The host, with a file. *)
Definition with_file (path text : string) : Host :=
  {| fmt_time := fmt_time; stack := stack; os_Hostname := os_Hostname; path_Join := path_Join; TempDir := TempDir;
     path_Base := path_Base; path_Abs := path_Abs; path_Ext := path_Ext;
     ReadFile := fun p => if (p =? path_Abs path)%string then Ok text else ReadFile p;
     script_json := script_json; script_yaml := script_yaml; late_ticks := late_ticks |}.

Definition run_options (t : BrowserTask) (path : string) (v : BrowserViewport) (engine : string) : Options :=
  let o := fst (GetOption (browser_task t)) in
  mkOptions path (Name (browser_task t)) (effectiveTimeoutMS t) (Tags (browser_task t)) engine (lightpandaPath o)
    (browserCACertFile o) (browserCACertDir o) (browserDefaultProxyURL o) (browserBlockPrivateNetwork o)
    (browserPrivateNetworkCIDRs o) (chromePath o) (5 * Second) (engine_flag bo_ScreenshotOnFailure t) false "" (Width v) (Height v)
    (embeddedHeaders t) (embeddedCookies t) (engine_flag bo_IgnoreHTTPSErrors t) (embeddedProxyURL t) 0 (Some engine).

(** The context of a run that starts at a time. *)
Definition run_context (t : BrowserTask) (cancel : option Z) (start : Z) : context :=
  mkContext (start + effectiveTimeoutMS t * Millisecond + 15 * Second) cancel.

(** One run of the script; [cancel]: when the task is stopped. *)
Definition runBrowserDialEmbedded (t : BrowserTask) (path text : string) (v : BrowserViewport) (cancel : option Z)
    (runID : string) (w : World (G := G)) : option (browserViewportResult * World) :=
  let start := w_time w in
  let res := zero_result{{vr_viewport := v; vr_startedAt := fmt_time start}} in
  match embeddedEngineFactory t with
  | Err e => Some (res{{vr_reqError := e; vr_duration := w_time w - start; vr_endedAt := fmt_time (w_time w)}}, w)
  | Ok engine =>
      match DialScript.Run (H0 := with_file path text) (run_context t cancel start) (run_options t path v engine) runID w with
      | None => None
      | Some (r, w) =>
          Some (res{{vr_duration := w_time w - start; vr_endedAt := fmt_time (w_time w);
                     vr_exitCode := if r_Success r then 0 else 1; vr_result := browserDialRunFromEmbedded r}}, w)
      end
  end.

(** The records of the attempts, shown when there can be more than one and one failed. *)
Definition task_records (v : browserViewportResult) (attempt : Z) (records : list browserRetryRecord) : list browserRetryRecord :=
  records ++ (match dr_RetryRecords (vr_result v) with [] => [browserRetryRecordFromResult v attempt] | l => l end).

Definition run_ok (r : browserViewportResult) : bool := (vr_reqError r =? "")%string && dr_Success (vr_result r).

Definition show_records (many : bool) (records : list browserRetryRecord) (r : browserViewportResult) : browserViewportResult :=
  if many && ((1 <? zlen records) || negb (run_ok r)) then r{{vr_retryRecords := records}} else r.

Fixpoint view_attempts (t : BrowserTask) (path text : string) (v : BrowserViewport) (cancel : option Z) (runID : nat -> string)
    (many : bool) (n : nat) (attempt : Z) (records : list browserRetryRecord) (w : World) : option (browserViewportResult * World) :=
  match runBrowserDialEmbedded t path text v cancel (runID (Z.to_nat attempt)) w with
  | None => None
  | Some (r, w) =>
      let r := r{{vr_attempts := attempt}} in
      let records := task_records r attempt records in
      let r := show_records many records r in
      if run_ok r || isBrowserParseFailure r then Some (r, w)
      else match n with
           | O => Some (r, w)
           | S n' => view_attempts t path text v cancel runID many n' (attempt + 1) records w{{w_time := w_time w + retryInterval t}}
           end
  end.

Definition retries (t : BrowserTask) : Z :=
  match RetryOptions t with Some r => if br_Enabled r then clampBrowserRetryCount (br_Count r) else 0 | None => 0 end.

Definition runViewport (t : BrowserTask) (path text : string) (v : BrowserViewport) (cancel : option Z) (runID : nat -> string) (w : World)
    : option (browserViewportResult * World) :=
  view_attempts t path text v cancel runID (0 <? retries t) (Z.to_nat (retries t)) 1 [] w.

Definition setLastResult (r : browserViewportResult) (t : BrowserTask) : BrowserTask :=
  t{{browser_duration := vr_duration r; browser_result := vr_result r; exitCode := vr_exitCode r;
     browser_reqError := vr_reqError r; browser_stderr := vr_stderr r}}.

(** What a run asks of the host: a file, the write of its text, the engines. *)
Record browser_net := mkBrowserNet {
  bn_temp : Res string string; bn_write : string -> option string; bn_cancel : option Z; bn_runID : nat -> string;
  bn_world : World (G := G)
}.

Definition writeScriptFile (net : browser_net) (t : BrowserTask) : Res string (string * string) :=
  match bn_temp net with
  | Err e => Err e
  | Ok path =>
      match normalizeBrowserConfigTimeouts (BrowserConfigText t) with
      | Err e => Err e
      | Ok text => match bn_write net text with Some e => Err e | None => Ok (path, text) end
      end
  end.

Definition setConfigError (e : string) (t : BrowserTask) : BrowserTask :=
  t{{browser_reqError := e; browser_result := (browser_result t){{dr_FailureType := "config_error"}}}}.

Definition browser_run (net : browser_net) : SM BrowserTask derr unit := fun t =>
  match browser_check_run t with
  | (Some e, t) => (Ok tt, setConfigError e t)
  | (None, t) =>
      match writeScriptFile net t with
      | Err e => (Ok tt, t{{browser_reqError := e}})
      | Ok (path, text) =>
          match effectiveViewports t with
          | [] => (Err EPanic, t)
          | v :: _ =>
              match runViewport t path text v (bn_cancel net) (bn_runID net) (bn_world net) with
              | None => (Err EPanic, t)
              | Some (r, _) =>
                  let t := t{{browser_task := snd (GetOption (browser_task t))}} in
                  (Ok tt, setLastResult r t{{browser_results := browser_results t ++ [r] }})
              end
          end
      end
  end.

(** *** Results *)

Definition browser_checkResult (t : BrowserTask) : list string * bool :=
  if negb (browser_reqError t =? "")%string then ([browser_reqError t], false)
  else if dr_Success (browser_result t) then ([], true)
  else
    let r := browser_result t in
    let reasons := (if negb (dr_FailReason r =? "")%string then [dr_FailReason r] else []) ++
                   (match dr_Error r with Some e => if negb (ei_Message e =? "")%string then [ei_Message e] else [] | None => [] end) in
    let reasons := match reasons with [] => if negb (browser_stderr t =? "")%string then [browser_stderr t] else [] | l => l end in
    (match reasons with [] => ["browser dial failed"] | l => l end, false).

Definition isRunnerError (t : BrowserTask) : bool := EqualFold (dr_FailReason (browser_result t)) "runner_error".

Definition displayRunnerError (t : BrowserTask) : string := if isRunnerError t then browserSystemErrorMessage else "".

Definition displayReasons (t : BrowserTask) (reasons : list string) : list string :=
  if negb (displayRunnerError t =? "")%string then [displayRunnerError t] else reasons.

Fixpoint last_executed (l : list StepResult) (acc : Z) : Z :=
  match l with [] => acc | s :: l' => last_executed l' (if bool_decide (st_Status s = StatusSkip) then acc else st_Seq s) end.

Definition lastBrowserStep (l : list StepResult) : Z := last_executed l 0.

Definition compactBrowserSteps (l : list StepResult) : list StepResult :=
  map (fun s => s{{st_Error := option_map (fun e => e{{ei_Stack := ""}}) (st_Error s)}}) l.

Definition sanitizeBrowserSteps (l : list StepResult) (displayError : string) : list StepResult :=
  if (displayError =? "")%string then l
  else map (fun s => s{{st_Error := option_map (fun e => e{{ei_Message := displayError; ei_Stack := ""}}) (st_Error s)}}) l.

Definition isBrowserRunnerRetryRecord (r : browserRetryRecord) : bool :=
  EqualFold (tr_FailReason r) "runner_error" || EqualFold (tr_FailureType r) "runner_error".

Definition sanitizeBrowserRetryRecords (l : list browserRetryRecord) (displayError : string) : list browserRetryRecord :=
  map (fun r => if isBrowserRunnerRetryRecord r
                then r{{tr_Message := if (displayError =? "")%string then browserSystemErrorMessage else displayError}} else r) l.

Definition browserConfigResultVars (l : list ConfigVar) : list browserConfigResultVar :=
  map (fun v => mkResultVar (v_Name v)
                  (if (v_Type v =? "")%string then if v_Secure v then "secret" else "text" else v_Type v)
                  (if v_Secure v then "" else v_Value v) (v_Secure v)) l.

Definition lastViewportResult (t : BrowserTask) : browserViewportResult :=
  match list.last (browser_results t) with Some r => r | None => zero_result end.

Definition browser_ok (t : BrowserTask) : bool := (browser_reqError t =? "")%string && dr_Success (browser_result t).

(** The viewport that is reported: the one of the last result, otherwise the first one. *)
Definition shown_viewport (t : BrowserTask) : option BrowserViewport :=
  let v := vr_viewport (lastViewportResult t) in
  if (0 <? Width v) && (0 <? Height v) then Some v else head (effectiveViewports t).

Definition browser_tags (t : BrowserTask) : tagmap :=
  let c := parsed t in
  let tags := <["name" := firstNonEmpty [dr_Name (browser_result t); cf_Name c; Name (browser_task t)]]>
    (<["url" := firstNonEmpty [browser_URL t; dr_Target (browser_result t); cf_Target c]]>
    (<["status" := "FAIL"]> (<["browser_engine" := effectiveEngine t]> ∅))) in
  let tags := Tags (browser_task t) ∪ (cf_Tags c ∪ tags) in
  match shown_viewport t with
  | Some v => <["viewport" := FormatInt (Width v) +:+ "x" +:+ FormatInt (Height v)]> tags
  | None => tags
  end.

Definition browser_fields (t : BrowserTask) : fieldmap :=
  let r := browser_result t in
  let time := if dr_DurationUS r =? 0 then micros (browser_duration t) else dr_DurationUS r in
  let f := <["response_time" := FInt time]> (<["success" := FInt (-1)]>
    (<["last_step" := FInt (lastBrowserStep (dr_Steps r))]> (<["browser_run_id" := FStr (dr_RunID r)]> ∅))) in
  let f := match shown_viewport t with
           | Some v => if (0 <? Width v) && (0 <? Height v)
                       then <["viewport_height" := FInt (Height v)]> (<["viewport_width" := FInt (Width v)]> f) else f
           | None => f
           end in
  let attempts := vr_attempts (lastViewportResult t) in
  <["retry_count" := FInt (if 0 <? attempts then attempts - 1 else 0)]> f.

Definition add_verdict (t : BrowserTask) (tf : tagmap * fieldmap) : tagmap * fieldmap :=
  let '(tags, f) := tf in
  if browser_ok t then
    (<["status" := if 1 <? vr_attempts (lastViewportResult t) then "RETRY_OK" else "OK"]> tags,
     <["message" := FStr "success"]> (<["success" := FInt 1]> f))
  else
    let text := FStr (String.concat ";" (displayReasons t (fst (browser_checkResult t)))) in
    let kind := dr_FailureType (browser_result t) in
    (tags, <["failure_type" := FStr (if (kind =? "")%string && negb (browser_reqError t =? "")%string then "config_error" else kind)]>
             (<["message" := text]> (<["fail_reason" := text]> f))).

Definition add_json (key : string) (r : Res string string) (f : fieldmap) : fieldmap :=
  match r with Ok s => <[key := FStr s]> f | Err _ => f end.

Definition add_evidence (t : BrowserTask) (f : fieldmap) : fieldmap :=
  let r := browser_result t in
  let e := displayRunnerError t in
  let f := match dr_TraceIDs r with id :: _ => <["trace_id" := FStr id]> f | [] => f end in
  let f := add_json "steps" (steps_json (sanitizeBrowserSteps (compactBrowserSteps (dr_Steps r)) e)) f in
  let f := match vr_retryRecords (lastViewportResult t), dr_RetryRecords r with
           | (_ :: _) as l, _ => add_json "retry_records" (retry_json (sanitizeBrowserRetryRecords l e)) f
           | [], (_ :: _) as l => add_json "retry_records" (retry_json (sanitizeBrowserRetryRecords l e)) f
           | [], [] => f
           end in
  match browserConfigResultVars (cf_ConfigVars (parsed t)) with
  | [] => f
  | l => add_json "browser_config_vars" (vars_json l) f
  end.

Definition browser_getResults (now : Z) (t : BrowserTask) : tagmap * fieldmap :=
  let '(tags, f) := add_verdict t (browser_tags t, browser_fields t) in (tags, add_evidence t f).

(** *** Hosts, templates *)

Definition goto_urls (l : list browserConfigStep) : list string :=
  map cs_URL (List.filter (fun s => (cs_Action s =? "goto")%string && negb (TrimSpace (cs_URL s) =? "")%string) l).

Fixpoint hosts_of (l : list string) : Res string (list string) :=
  match l with
  | [] => Ok []
  | u :: l' =>
      match getHostName u with
      | Err e => Err e
      | Ok h => match hosts_of l' with Err e => Err e | Ok r => Ok (h :: r) end
      end
  end.

Definition dedupBrowserHostNames (l : list string) : list string :=
  fold_left (fun acc h => if (h =? "")%string || existsb (String.eqb h) acc then acc else acc ++ [h]) l [].

Definition browser_getHostName (t : BrowserTask) : Res string (list string) :=
  match parseBrowserConfig t with
  | Err e => Err e
  | Ok c =>
      match hosts_of ((if (TrimSpace (cf_Target c) =? "")%string then [] else [cf_Target c]) ++
                      (if EqualFold (cf_AuthMode c) "form" then goto_urls (cf_AuthSteps c) else []) ++ goto_urls (cf_Steps c)) with
      | Err e => Err e
      | Ok [] => Err "browser_config target or goto url should not be empty"
      | Ok hosts => Ok (dedupBrowserHostNames hosts)
      end
  end.

Definition browser_renderTemplate (decode : string -> Res string BrowserTask) (f : FuncMap) : SM BrowserTask derr unit :=
  t <~ sget ;;
  (match browser_rawTask t with
   | Some _ => sret tt
   | None =>
       match NewRawTask decode (browser_task t) with
       | Err e => sfail (ewrap "new raw task failed" e)
       | Ok r => smod (fun t => t{{browser_rawTask := Some (BrowserConfigText r, browser_URL r)}})
       end
   end) ;;;
  t <~ sget ;;
  match browser_rawTask t with
  | None => sfail (EMsg "raw task is nil")
  | Some (config, url) =>
      render "browser_config" config f (fun s t => t{{BrowserConfigText := s}}) ;;;
      render "url" url f (fun s t => t{{browser_URL := s}})
  end.

(** [MarshalTask] encodes the fields of [browserRawTask]. *)
Definition browser_getRawTask `{Json BrowserTask} (taskString : string) : Res string string :=
  match Unmarshal taskString with
  | Err e => Err ("unmarshal browser task failed: " +:+ e)
  | Ok t => Ok (MarshalTask t{{BrowserConfigText := sanitizeBrowserConfig (BrowserConfigText t)}})
  end.

#[export] Instance browser_child `{Json BrowserTask} : TaskChild BrowserTask browser_net := {
  c_task := browser_task; c_put := fun x t => t{{browser_task := x}}; c_run := browser_run; c_init := sret tt;
  c_check := fun t => option_map EMsg (fst (browser_check_run t)); c_clear := browser_clear; c_checkResult := browser_checkResult;
  c_getResults := browser_getResults; c_renderTemplate := browser_renderTemplate Unmarshal;
  c_getRawTask := fun _ => browser_getRawTask; c_setReqError := fun e t => t{{browser_reqError := e}};
  c_getHostName := browser_getHostName; c_class := fun _ => ClassHeadless
}.
End browser.

(** ** Secrets *)

Definition n_Other (n : Node) : string := match n with mkNode _ _ _ _ o => o end.

(** *** What a secret is

    Stated on documents, apart from the code that looks for secrets: the entries of a mapping
    by their position, the first one with a key, the variables that are declared secure. *)

(** The [i]-th entry of the content of a mapping. *)
Definition entry_at (l : list Node) (i : nat) (k x : Node) : Prop := l !! (2 * i)%nat = Some k /\ l !! (2 * i + 1)%nat = Some x.

Definition first_entry (key : string) (l : list Node) (i : nat) (x : Node) : Prop :=
  (exists k, entry_at l i k x /\ n_Value k = key) /\
  forall j k y, (j < i)%nat -> entry_at l j k y -> n_Value k <> key.

(** The key [secure] is there, with one of the spellings of true in YAML. *)
Definition declared_secure (l : list Node) : Prop :=
  exists i x, first_entry "secure" l i x /\ In (n_Value x) ["true"; "True"; "TRUE"].

(** Contents that differ in the entry [value] only, there in kind, tag and value. *)
Definition other_value (l l' : list Node) : Prop :=
  exists i x y, first_entry "value" l i x /\ l' = <[(2 * i + 1)%nat := y]> l /\ n_Content y = n_Content x /\ n_Other y = n_Other x.

(** Variables that are the same, or secure and the same but for their values. *)
Inductive var_alike : Node -> Node -> Prop :=
| VA_same n : var_alike n n
| VA_secret t v c c' o : declared_secure c -> other_value c c' ->
    var_alike (mkNode MappingNode t v c o) (mkNode MappingNode t v c' o).

Inductive vars_alike : Node -> Node -> Prop :=
| VSA_same n : vars_alike n n
| VSA_list t v c c' o : Forall2 var_alike c c' -> vars_alike (mkNode SequenceNode t v c o) (mkNode SequenceNode t v c' o).

(** Documents that differ in the values of secure variables only, which are in the lists under
    the keys [config_vars], however deep. *)
Inductive alike : Node -> Node -> Prop :=
| A_map t v c c' o : entries_alike c c' -> alike (mkNode MappingNode t v c o) (mkNode MappingNode t v c' o)
| A_other k t v c c' o : k <> MappingNode -> nodes_alike c c' -> alike (mkNode k t v c o) (mkNode k t v c' o)
with nodes_alike : list Node -> list Node -> Prop :=
| NA_nil : nodes_alike [] []
| NA_cons n n' l l' : alike n n' -> nodes_alike l l' -> nodes_alike (n :: l) (n' :: l')
with entries_alike : list Node -> list Node -> Prop :=
| EA_end l : (length l < 2)%nat -> entries_alike l l
| EA_vars k x x' l l' : n_Value k = "config_vars" -> vars_alike x x' -> entries_alike l l' -> entries_alike (k :: x :: l) (k :: x' :: l')
| EA_entry k x x' l l' : n_Value k <> "config_vars" -> alike x x' -> entries_alike l l' -> entries_alike (k :: x :: l) (k :: x' :: l').

Scheme alike_mut := Induction for alike Sort Prop
  with nodes_alike_mut := Induction for nodes_alike Sort Prop
  with entries_alike_mut := Induction for entries_alike Sort Prop.

(** *** What the code finds *)

(** Induction over lists by entries. *)
Lemma entries_ind (P : list Node -> Prop) :
  P [] -> (forall k, P [k]) -> (forall k x l, P l -> P (k :: x :: l)) -> forall l, P l.
Proof.
  intros P0 P1 P2. refine (fix go l := match l with [] => P0 | k :: l1 => _ end).
  destruct l1 as [|x l']; [apply P1|]. apply P2, go.
Qed.

Lemma entry_next k x l i k' y : entry_at (k :: x :: l) (S i) k' y <-> entry_at l i k' y.
Proof. unfold entry_at. replace (2 * S i)%nat with (S (S (2 * i))) by lia. done. Qed.

(** The first entry of a content that has one more in front. *)
Lemma first_next key k x l i y : first_entry key (k :: x :: l) i y ->
  (i = 0%nat /\ n_Value k = key /\ y = x) \/ exists i', i = S i' /\ n_Value k <> key /\ first_entry key l i' y.
Proof.
  intros [(k' & He & Hk) Hn]. destruct i as [|i].
  - left. destruct He as [[= <-] [= <-]]. done.
  - right. exists i. split; [done|]. split; [apply (Hn 0%nat k x); [lia|done]|]. rewrite entry_next in He. split; [by exists k'|].
    intros j k2 y2 Hj Hy. apply (Hn (S j) k2 y2); [lia|by apply entry_next].
Qed.

Lemma first_none key l i y : (length l < 2)%nat -> ~ first_entry key l i y.
Proof.
  intros Hl [(k & (_ & Hx) & _) _]. apply lookup_lt_Some in Hx. lia.
Qed.

Lemma first_found key l : forall i x, first_entry key l i x -> map_value key l = Some x.
Proof.
  induction l as [|k|k y l IH] using entries_ind; intros i x Hf;
    [by apply first_none in Hf; simpl; lia|by apply first_none in Hf; simpl; lia|].
  cbn [map_value]. destruct (first_next _ _ _ _ _ _ Hf) as [(_ & -> & ->)|(i' & _ & Hk & Hf')]; [by rewrite String.eqb_refl|].
  rewrite (proj2 (String.eqb_neq _ _) Hk). by eapply IH.
Qed.

Lemma secure_found l : declared_secure l -> yamlMapBoolValue l "secure" = true.
Proof.
  intros (i & x & Hf & Hv). unfold yamlMapBoolValue. rewrite (first_found _ _ _ _ Hf).
  destruct Hv as [<-|[<-|[<-|[]]]]; reflexivity.
Qed.

(** Another value is overwritten like the first one, and is not what makes a variable secure. *)
Lemma value_overwritten l : forall l', other_value l l' ->
  setYAMLMapValue "value" "" l' = setYAMLMapValue "value" "" l /\ map_value "secure" l' = map_value "secure" l.
Proof.
  induction l as [|k|k x l IH] using entries_ind; intros l' (i & y & z & Hf & -> & Hc & Ho);
    [by apply first_none in Hf; simpl; lia|by apply first_none in Hf; simpl; lia|].
  destruct (first_next _ _ _ _ _ _ Hf) as [(-> & Hk & ->)|(i' & -> & Hk & Hf')].
  - simpl. rewrite Hk. simpl. split; [|done]. destruct x, z. simpl in *. by subst.
  - replace (2 * S i' + 1)%nat with (S (S (2 * i' + 1))) by lia. simpl insert. cbn [setYAMLMapValue map_value].
    destruct (IH (<[(2 * i' + 1)%nat := z]> l)) as [IH1 IH2]; [by exists i', y, z|].
    rewrite (proj2 (String.eqb_neq _ _) Hk). simpl insert in IH1, IH2. rewrite IH1. split; [done|]. by destruct (_ =? _)%string.
Qed.

Lemma var_sanitized n n' : var_alike n n' -> sanitize_item n' = sanitize_item n.
Proof.
  destruct 1 as [n|t v c c' o Hs Hv]; [done|]. destruct (value_overwritten _ _ Hv) as [E1 E2].
  unfold sanitize_item. simpl. unfold yamlMapBoolValue in *. rewrite E1, E2. pose proof (secure_found _ Hs) as S.
  unfold yamlMapBoolValue in S. by rewrite S.
Qed.

Lemma vars_sanitized n n' : vars_alike n n' -> sanitizeConfigVarSequence n' = sanitizeConfigVarSequence n.
Proof.
  destruct 1 as [n|t v c c' o Hl]; [done|]. unfold sanitizeConfigVarSequence. simpl. f_equal.
  induction Hl as [|x x' l l' Hx _ IH]; simpl; [done|]. by rewrite (var_sanitized _ _ Hx), IH.
Qed.

Lemma alike_sanitized n n' : alike n n' -> sanitizeYAMLConfigVars n' = sanitizeYAMLConfigVars n.
Proof.
  pose (g := fun k x => if (n_Value k =? "config_vars")%string then sanitizeConfigVarSequence x else sanitizeYAMLConfigVars x).
  induction 1 as [t v c c' o _ IH|k t v c c' o Hk _ IH| |n n' l l' _ IH _ IHl|l Hl|k x x' l l' Hk Hx _ IH|k x x' l l' Hk _ IHx _ IH]
    using alike_mut with
    (P0 := fun l l' _ => map sanitizeYAMLConfigVars l' = map sanitizeYAMLConfigVars l)
    (P1 := fun l l' _ => map_entries g l' = map_entries g l).
  - change (mkNode MappingNode t v (map_entries g c') o = mkNode MappingNode t v (map_entries g c) o). by rewrite IH.
  - destruct k; try done;
      match goal with |- sanitizeYAMLConfigVars (mkNode ?k _ _ _ _) = _ =>
        change (mkNode k t v (map sanitizeYAMLConfigVars c') o = mkNode k t v (map sanitizeYAMLConfigVars c) o) end; by rewrite IH.
  - done.
  - simpl. by rewrite IH, IHl.
  - done.
  - cbn [map_entries]. unfold g at 1 3. rewrite Hk. simpl. by rewrite (vars_sanitized _ _ Hx), IH.
  - cbn [map_entries]. unfold g at 1 3. rewrite (proj2 (String.eqb_neq _ _) Hk). by rewrite IHx, IH.
Qed.

(** C17: The task that results report hides the values of secure variables: two tasks, given by JSON
    texts that differ in the configuration only, whose configurations are the texts, not blank, of
    YAML documents that differ only in the values of variables that say
    [secure: true], in lists written under a key [config_vars], are reported by the same text,
    provided that the document without these values can be encoded.  (Other spellings of a
    secure variable, lists that are referred to by an alias, and documents that cannot be
    encoded are not hidden.) *)
Theorem secure_values_hidden `{Std} `{BrowserText} `{Json BrowserTask} (t : BrowserTask) (c2 s1 s2 : string) (n n' : Node) :
  Unmarshal s1 = Ok t -> Unmarshal s2 = Ok t{{BrowserConfigText := c2}} ->
  TrimSpace (BrowserConfigText t) <> "" -> TrimSpace c2 <> "" ->
  yaml_node (BrowserConfigText t) = Ok n -> yaml_node c2 = Ok n' -> alike n n' ->
  (exists d, yaml_marshal (sanitizeYAMLConfigVars n) = Ok d) ->
  browser_getRawTask s1 = browser_getRawTask s2.
Proof.
  intros U1 U2 B1 B2 N1 N2 A [d M]. unfold browser_getRawTask. rewrite U1, U2. unfold sanitizeBrowserConfig. simpl. unfold constant.
  by rewrite (proj2 (String.eqb_neq _ _) B1), (proj2 (String.eqb_neq _ _) B2), N1, N2, (alike_sanitized _ _ A), M.
Qed.

(** ** Timeouts *)

Section timeouts.
Context `{Std} `{BrowserText}.

(** The two limits, as integer scalars, decode to their values. *)
Hypothesis decode_scalar : forall v c o, In v [maxBrowserTotalTimeoutMS; maxBrowserStepTimeoutMS] -> decode_int (mkNode ScalarNode "!!int" (FormatInt v) c o) = Some v.

(** The content of a mapping is keys and values. *)
Fixpoint paired (n : Node) : bool :=
  match n with mkNode k _ _ c _ => (negb (bool_decide (k = MappingNode)) || Nat.even (length c)) && forallb paired c end.

Definition bounded (limit : Z) (n : Node) : Prop := exists v, getYAMLMapInt n "timeout_ms" = Some v /\ 0 < v <= limit.

Definition steps_bounded (parent : Node) : Prop :=
  forall steps, yamlMapValue parent "steps" = Some steps -> is_sequence steps = true ->
    Forall (fun n => is_mapping n = true -> bounded maxBrowserStepTimeoutMS n) (n_Content steps).

Lemma paired_mapping n : paired n = true -> is_mapping n = true -> Nat.even (length (n_Content n)) = true /\ forallb paired (n_Content n) = true.
Proof.
  destruct n as [k t v c o]. unfold is_mapping. cbn [paired n_Kind n_Content]. rewrite andb_true_iff. intros [H1 H2] Hk.
  rewrite Hk in H1. by split.
Qed.

Lemma paired_content n : paired n = true -> forallb paired (n_Content n) = true.
Proof. destruct n as [k t v c o]. cbn [paired n_Content]. rewrite andb_true_iff. by intros [_ H2]. Qed.

Lemma map_value_in key l x : map_value key l = Some x -> In x l.
Proof.
  induction l as [|k|k y l IH] using entries_ind; [done|done|]. cbn [map_value].
  destruct (_ =? _)%string; [intros [= <-]; simpl; auto|]. intros E. simpl. auto.
Qed.

(** The entry with the key decodes to what it was when that is positive, to [v] otherwise. *)
Lemma set_int_value key v l : In v [maxBrowserTotalTimeoutMS; maxBrowserStepTimeoutMS] -> 0 < v -> Nat.even (length l) = true ->
  exists y w, map_value key (setYAMLMapIntIfMissingOrZero key v l) = Some y /\ decode_int y = Some w /\ 0 < w /\
    (w = v \/ exists x, map_value key l = Some x /\ decode_int x = Some w).
Proof.
  intros Hin Hv. induction l as [|k|k x l IH] using entries_ind; intros He; [|done|].
  - exists (scalar "!!int" (FormatInt v)), v. cbn. rewrite String.eqb_refl. split_and!; [done|by apply decode_scalar|done|by left].
  - cbn [setYAMLMapIntIfMissingOrZero map_value]. destruct (n_Value k =? key)%string eqn:Ek.
    + assert (N : exists y w, map_value key (k :: set_scalar "!!int" (FormatInt v) x :: l) = Some y /\ decode_int y = Some w /\
                  0 < w /\ (w = v \/ exists x', Some x = Some x' /\ decode_int x' = Some w)).
      { exists (set_scalar "!!int" (FormatInt v) x), v. cbn [map_value]. rewrite Ek.
        split_and!; [done|destruct x; by apply decode_scalar|done|by left]. }
      destruct (decode_int x) as [c|] eqn:Ec; [|exact N]. destruct (Z.ltb_spec 0 c); [|exact N].
      exists x, c. cbn [map_value]. rewrite Ek. split_and!; [done|done|done|]. right. by exists x.
    + cbn [map_value]. rewrite Ek. by apply IH.
Qed.

Lemma set_int_other key key' v l : key <> key' -> Nat.even (length l) = true ->
  map_value key' (setYAMLMapIntIfMissingOrZero key v l) = map_value key' l.
Proof.
  intros Hk. induction l as [|k|k x l IH] using entries_ind; intros He; [|done|].
  - cbn. by rewrite (proj2 (String.eqb_neq key key') Hk).
  - cbn [setYAMLMapIntIfMissingOrZero]. destruct (String.eqb_spec (n_Value k) key) as [E|E].
    + assert (Ek : (n_Value k =? key')%string = false) by (apply String.eqb_neq; congruence).
      destruct (decode_int x) as [c|]; [destruct (0 <? c)|]; cbn [map_value]; by rewrite Ek.
    + cbn [map_value]. destruct (n_Value k =? key')%string; [done|]. by apply IH.
Qed.

Lemma update_value_spec key f l : forall l', update_value key f l = Ok l' ->
  match map_value key l with
  | Some x => exists y, f x = Ok y /\ map_value key l' = Some y
  | None => map_value key l' = None
  end.
Proof.
  induction l as [|k|k x l IH] using entries_ind; intros l'; cbn [update_value map_value];
    [intros [= <-]; done|intros [= <-]; done|].
  destruct (n_Value k =? key)%string eqn:Ek.
  - destruct (f x) as [y|e] eqn:Ef; [|done]. intros [= <-]. exists y. cbn [map_value]. by rewrite Ek.
  - destruct (update_value key f l) as [r|e]; [|done]. intros [= <-]. specialize (IH r eq_refl). cbn [map_value]. by rewrite Ek.
Qed.

Lemma update_value_other key key' f l : key <> key' -> forall l', update_value key f l = Ok l' -> map_value key' l' = map_value key' l.
Proof.
  intros Hk. induction l as [|k|k x l IH] using entries_ind; intros l'; cbn [update_value map_value];
    [intros [= <-]; done|intros [= <-]; done|].
  destruct (String.eqb_spec (n_Value k) key) as [E|E].
  - destruct (f x) as [y|e]; [|done]. intros [= <-]. cbn [map_value].
    by rewrite (proj2 (String.eqb_neq (n_Value k) key')) by congruence.
  - destruct (update_value key f l) as [r|e]; [|done]. intros [= <-]. cbn [map_value].
    destruct (n_Value k =? key')%string; [done|]. by apply IH.
Qed.

Lemma set_bounded limit n : In limit [maxBrowserTotalTimeoutMS; maxBrowserStepTimeoutMS] -> 0 < limit -> is_mapping n = true -> Nat.even (length (n_Content n)) = true -> exceeds n limit = false ->
  bounded limit (with_content (setYAMLMapIntIfMissingOrZero "timeout_ms" limit (n_Content n)) n).
Proof.
  intros Hin Hl Hm He Hx. destruct (set_int_value "timeout_ms" limit (n_Content n) Hin Hl He) as (y & w & Hy & Hd & Hw & Ho).
  exists w. unfold getYAMLMapInt, yamlMapValue, exceeds, getYAMLMapInt, yamlMapValue in *.
  replace (is_mapping (with_content _ n)) with true by (by destruct n). rewrite Hm in Hx.
  replace (n_Content (with_content _ n)) with (setYAMLMapIntIfMissingOrZero "timeout_ms" limit (n_Content n)) by (by destruct n).
  rewrite Hy. split; [done|]. destruct Ho as [->|(x & Ex & Dx)]; [lia|]. rewrite Ex in Hx. simpl in Hx. rewrite Dx in Hx.
  apply Z.ltb_ge in Hx. lia.
Qed.

Lemma normalize_steps_bounded label l : forall index l', forallb paired l = true -> normalize_steps label index l = Ok l' ->
  Forall (fun n => is_mapping n = true -> bounded maxBrowserStepTimeoutMS n) l'.
Proof.
  induction l as [|n l IH]; intros index l'; cbn [normalize_steps forallb]; [intros _ [= <-]; constructor|].
  rewrite andb_true_iff. intros [Hn Hl]. destruct (is_mapping n && exceeds n maxBrowserStepTimeoutMS) eqn:E; [done|].
  destruct (normalize_steps label (index + 1) l) as [r|e] eqn:Er; [|done]. intros [= <-]. constructor; [|by eapply IH].
  destruct (is_mapping n) eqn:Hm; [|by rewrite Hm]. intros _. simpl in E.
  apply set_bounded; [simpl; auto|done|done|by apply paired_mapping|done].
Qed.

Lemma step_timeouts_bounded label n c : is_mapping n = true -> forallb paired (n_Content n) = true ->
  normalizeBrowserStepTimeouts "steps" label (n_Content n) = Ok c -> steps_bounded (with_content c n).
Proof.
  intros Hm Hp E steps. unfold yamlMapValue. replace (is_mapping (with_content c n)) with true by (by destruct n).
  replace (n_Content (with_content c n)) with c by (by destruct n). intros Hs Hq.
  pose proof (update_value_spec _ _ _ _ E) as U. destruct (map_value "steps" (n_Content n)) as [x|] eqn:Ex; [|by rewrite U in Hs].
  destruct U as (y & Fy & Hy). rewrite Hy in Hs. injection Hs as ->.
  destruct (is_sequence x) eqn:Sx; [|injection Fy as ->; by rewrite Sx in Hq].
  destruct (normalize_steps label 0 (n_Content x)) as [c'|e] eqn:En; [|done]. injection Fy as <-.
  replace (n_Content (with_content c' x)) with c' by (by destruct x). eapply normalize_steps_bounded; [|exact En].
  apply paired_content. apply map_value_in in Ex. rewrite forallb_forall in Hp. by apply Hp.
Qed.

Lemma set_int_paired key v l : forallb paired l = true -> forallb paired (setYAMLMapIntIfMissingOrZero key v l) = true.
Proof.
  induction l as [|k|k x l IH] using entries_ind; [done| |].
  { intros Hk. change (forallb paired ([k] ++ [scalar "!!str" key; scalar "!!int" (FormatInt v)]) = true). by rewrite forallb_app, Hk. }
  cbn [setYAMLMapIntIfMissingOrZero forallb]. rewrite !andb_true_iff. intros (Hk & Hx & Hl).
  assert (S : paired (set_scalar "!!int" (FormatInt v) x) = true).
  { apply paired_content in Hx. destruct x as [k' t v' c o]. exact Hx. }
  destruct (_ =? _)%string; [destruct (decode_int x) as [c|]; [destruct (0 <? c)|]|]; cbn [forallb];
    rewrite ?Hk, ?Hx, ?Hl, ?S, ?IH by done; done.
Qed.

End timeouts.

(** ** Runs *)

Section runs.
Context `{Std} `{BrowserText} `{Host} {G : Type} `{Browser G}.

(** What the runner tells of a script that it loads from a path: nothing of one that does not
    load, otherwise what became of its steps. *)
Definition runner_outcome (h : Host) (path : string) (r : Result) : Prop :=
  match Load (H0 := h) (@path_Abs h path) with
  | Ok loaded => exists up, outcome_ok (stepPlans loaded) up r
  | Err _ => r_Success r = false /\ r_Steps r = []
  end.

Lemma run_total h ctx o runID (w : World (G := G)) : ro_ScriptPath o <> "" ->
  exists r w', DialScript.Run (H0 := h) ctx o runID w = Some (r, w') /\ runner_outcome h (ro_ScriptPath o) r.
Proof.
  intros Hp. unfold DialScript.Run, runner_outcome. rewrite (proj2 (String.eqb_neq _ _) Hp).
  destruct (Load (path_Abs (ro_ScriptPath o))) as [loaded|e]; [|by eexists _, _].
  destruct (@runLoaded_reports _ h G _ ctx loaded o runID (@path_Abs h (ro_ScriptPath o)) (w_time w) (ro_Tags o) w) as (r & w' & E & O).
  exists r, w'. split; [exact E|]. destruct (run_args_of _ _ _ _ _ _ _) as [a|e] eqn:Ea.
  - destruct O as (_ & _ & _ & (st & w0 & r0 & recs & _ & _ & _ & O) & _).
    assert (ra_script a = loaded) as <-; [|by eexists].
    unfold run_args_of in Ea. destruct (DialScript.browserConfig _ _ _); [|done]. destruct (ro_EngineFactory o); [|done]. by injection Ea as <-.
  - exists false. destruct O as (O1 & O2 & _).
    assert (Er : r_Status r = StatusFail /\ r_Error r <> None).
    { unfold runLoaded in E. rewrite Ea in E. destruct e as [e reason]. by injection E as <- _. }
    destruct Er as [E1 E2]. split_and!; [by rewrite O1, E1|rewrite O1; by split|done|done].
Qed.

(** What an attempt reports: the error of the choice of an engine, or what the runner returned. *)
Definition attempt_reports (t : BrowserTask) (path text : string) (v : BrowserViewport) (cancel : option Z) (runID : string)
    (w : World (G := G)) (r : browserViewportResult) : Prop :=
  match embeddedEngineFactory t with
  | Err e => vr_reqError r = e /\ run_ok r = false
  | Ok engine =>
      exists res w', DialScript.Run (H0 := with_file path text) (run_context t cancel (w_time w)) (run_options t path v engine) runID w = Some (res, w') /\
        runner_outcome (with_file path text) path res /\ vr_reqError r = "" /\
        run_ok r = match result_json res with EncodeFails => false | _ => r_Success res end /\
        (result_json res = RoundTrips -> dr_Steps (vr_result r) = r_Steps res)
  end.

Lemma embedded_ok t path text v cancel runID (w : World (G := G)) : path <> "" ->
  exists r w', runBrowserDialEmbedded t path text v cancel runID w = Some (r, w') /\ attempt_reports t path text v cancel runID w r.
Proof.
  intros Hp. unfold runBrowserDialEmbedded, attempt_reports, run_ok. destruct (embeddedEngineFactory t) as [engine|e] eqn:Ee; cbv zeta.
  - destruct (run_total (with_file path text) (run_context t cancel (w_time w)) (run_options t path v engine) runID w Hp) as (r & w' & E & Hg).
    rewrite E. eexists _, _. split; [done|]. simpl. unfold constant. exists r, w'. split_and!; [done|done|done|..];
      unfold browserDialRunFromEmbedded; destruct (result_json r); done.
  - eexists _, _. split; [done|]. simpl. unfold constant. split; [done|].
    apply andb_false_r.
Qed.

Lemma show_records_same many records r :
  vr_attempts (show_records many records r) = vr_attempts r /\ vr_result (show_records many records r) = vr_result r /\
  run_ok (show_records many records r) = run_ok r /\ isBrowserParseFailure (show_records many records r) = isBrowserParseFailure r.
Proof. unfold show_records. by destruct (_ && _). Qed.

(** The attempts from one on failed, and not for the text of the script, up to another one
    that is due after a pause. *)
Inductive view_failed (t : BrowserTask) (path text : string) (v : BrowserViewport) (cancel : option Z) (runID : nat -> string)
    : Z -> World (G := G) -> Z -> World -> Prop :=
| VF_here n w : view_failed t path text v cancel runID n w n w
| VF_next n w r w1 m w0 :
    runBrowserDialEmbedded t path text v cancel (runID (Z.to_nat n)) w = Some (r, w1) ->
    run_ok r = false -> isBrowserParseFailure r = false ->
    view_failed t path text v cancel runID (n + 1) w1{{w_time := w_time w1 + retryInterval t}} m w0 ->
    view_failed t path text v cancel runID n w m w0.

(** The result of the attempts from [n] on, [k] more at most, is what the last one reports; that is
    one which succeeded, or was refused for its text, or the last one there is. *)
Definition viewed (t : BrowserTask) (path text : string) (v : BrowserViewport) (cancel : option Z) (runID : nat -> string)
    (n k : Z) (w : World (G := G)) (r : browserViewportResult) : Prop :=
  n <= vr_attempts r <= n + k /\ (run_ok r = true \/ isBrowserParseFailure r = true \/ vr_attempts r = n + k) /\
  exists w0, view_failed t path text v cancel runID n w (vr_attempts r) w0 /\
    attempt_reports t path text v cancel (runID (Z.to_nat (vr_attempts r))) w0 r.

Lemma show_records_reports t path text v cancel runID w many records attempt r :
  attempt_reports t path text v cancel runID w r ->
  attempt_reports t path text v cancel runID w (show_records many records r{{vr_attempts := attempt}}).
Proof. unfold show_records. by destruct (_ && _). Qed.

Lemma view_attempts_ok t path text v cancel runID many n : path <> "" -> forall attempt records (w : World (G := G)),
  exists r w', view_attempts t path text v cancel runID many n attempt records w = Some (r, w') /\
    viewed t path text v cancel runID attempt (Z.of_nat n) w r.
Proof.
  intros Hp. induction n as [|n IH]; intros attempt records w; cbn [view_attempts];
    destruct (embedded_ok t path text v cancel (runID (Z.to_nat attempt)) w Hp) as (r & w1 & Er & Hg); rewrite Er;
    set (r1 := r{{vr_attempts := attempt}}); set (records1 := task_records r1 attempt records);
    apply (show_records_reports _ _ _ _ _ _ _ many records1 attempt) in Hg; fold r1 in Hg;
    destruct (show_records_same many records1 r1) as (S1 & S2 & S3 & S4); set (r2 := show_records many records1 r1) in *;
    change (vr_attempts r1) with attempt in S1; change (run_ok r1) with (run_ok r) in S3;
    change (isBrowserParseFailure r1) with (isBrowserParseFailure r) in S4.
  - exists r2, w1. split; [by destruct (run_ok r2 || isBrowserParseFailure r2)|].
    unfold viewed. rewrite S1. split; [lia|]. split; [right; right; lia|]. exists w. split; [apply VF_here|exact Hg].
  - destruct (run_ok r2 || isBrowserParseFailure r2) eqn:Es.
    + exists r2, w1. split; [done|]. unfold viewed. rewrite S1. split; [lia|].
      split; [apply orb_true_iff in Es as [->| ->]; eauto|]. exists w. split; [apply VF_here|exact Hg].
    + match goal with |- context [view_attempts _ _ _ _ _ _ _ n ?a ?r ?w] => destruct (IH a r w) as (r3 & w3 & E & B & F & w0 & C & Hg3) end.
      exists r3, w3. split; [exact E|]. split; [lia|]. split; [destruct F as [F|[F|F]]; [by left|by right; left|right; right; lia]|].
      exists w0. split; [|exact Hg3]. apply orb_false_iff in Es as [Es1 Es2]. eapply VF_next; [exact Er|congruence|congruence|exact C].
Qed.

Lemma retries_range t : 0 <= retries t <= 3.
Proof.
  unfold retries, clampBrowserRetryCount. destruct (RetryOptions t) as [r|]; [|done]. destruct (br_Enabled r); [|done].
  destruct (Z.ltb_spec (br_Count r) 0); [done|]. destruct (Z.ltb_spec 3 (br_Count r)); lia.
Qed.

Lemma add_json_other key r f k : k <> key -> add_json key r f !! k = f !! k.
Proof. intros Hk. unfold add_json. destruct r; [|done]. by rewrite lookup_insert_ne. Qed.

Lemma evidence_other t f k : existsb (String.eqb k) ["trace_id"; "steps"; "retry_records"; "browser_config_vars"] = false ->
  add_evidence t f !! k = f !! k.
Proof.
  simpl. rewrite !orb_false_iff, !String.eqb_neq. intros Hk. destruct_and! Hk. unfold add_evidence.
  destruct (browserConfigResultVars _); rewrite ?add_json_other by congruence;
    destruct (vr_retryRecords _); [destruct (dr_RetryRecords _)| |destruct (dr_RetryRecords _)|]; rewrite ?add_json_other by congruence;
    destruct (dr_TraceIDs _); by rewrite ?lookup_insert_ne by congruence.
Qed.

(** What the results of a task report. *)
Definition browser_reports (now : Z) (t : BrowserTask) : Prop :=
  let '(tags, fields) := browser_getResults now t in
  tags !! "status" = Some (if browser_ok t then if 1 <? vr_attempts (lastViewportResult t) then "RETRY_OK" else "OK"
                           else default "FAIL" ((Tags (browser_task t) ∪ cf_Tags (parsed t)) !! "status")) /\
  fields !! "success" = Some (FInt (if browser_ok t then 1 else -1)) /\
  fields !! "fail_reason" =
    if browser_ok t then None
    else Some (FStr (if isRunnerError t then browserSystemErrorMessage else String.concat ";" (fst (browser_checkResult t)))).

Lemma browser_reports_all now t : browser_reports now t.
Proof.
  unfold browser_reports, browser_getResults, add_verdict.
  assert (F : browser_fields t !! "success" = Some (FInt (-1)) /\ browser_fields t !! "fail_reason" = None).
  { unfold browser_fields. destruct (shown_viewport t) as [v|]; [destruct (_ && _)|]; by simplify_map_eq. }
  destruct F as [F1 F2]. destruct (browser_ok t).
  - rewrite !evidence_other by done. split_and!; by simplify_map_eq.
  - rewrite !evidence_other by done. split_and!; [|by simplify_map_eq|].
    + assert (B : forall m : tagmap, m !! "status" = Some "FAIL" ->
                (Tags (browser_task t) ∪ (cf_Tags (parsed t) ∪ m)) !! "status" =
                Some (default "FAIL" ((Tags (browser_task t) ∪ cf_Tags (parsed t)) !! "status"))).
      { intros m Hm. rewrite (assoc_L (∪)). by apply custom_tags. }
      unfold browser_tags. destruct (shown_viewport t) as [v|]; [rewrite lookup_insert_ne by done|]; apply B; by simplify_map_eq.
    + simplify_map_eq. unfold displayReasons, displayRunnerError. by destruct (isRunnerError t).
Qed.

End runs.

(** ** Instances *)

#[local] Existing Instance demo_std.

Definition demo_map (l : list (string * Node)) : Node :=
  mkNode MappingNode "" "" (flat_map (fun kv => [scalar "!!str" (fst kv); snd kv]) l) "".

Definition demo_seq (l : list Node) : Node := mkNode SequenceNode "" "" l "".

Definition text_node (s : string) : Node := scalar "!!str" s.

(** A script with a secure variable and two steps, one with a limit of its own. *)
Definition demo_root (secret : string) : Node :=
  demo_map
    [("config_vars", demo_seq [demo_map [("name", text_node "pw"); ("secure", scalar "!!bool" "true"); ("value", text_node secret)]]);
     ("steps", demo_seq [demo_map [("action", text_node "goto"); ("timeout_ms", scalar "!!int" "45000")]; demo_map [("action", text_node "click")]])].

(** The text of a configuration is the secret in it. *)
#[local] Instance demo_text : BrowserText := {
  yaml_node := fun s => Ok (mkNode DocumentNode "" "" [demo_root s] "");
  yaml_marshal := fun n => Ok (String.concat "," (map n_Value (n_Content (hd n (n_Content (hd n (n_Content (hd n (n_Content n)))))))));
  decode_int := fun n => match n_Value n with "300000" => Some 300000 | "60000" => Some 60000 | "45000" => Some 45000 | _ => None end%string;
  yaml_config := fun _ => Ok zero_config{{cf_Steps := [mkConfigStep "goto" "http://host" 0] }};
  result_json := fun _ => RoundTrips; steps_json := fun _ => Ok ""; retry_json := fun _ => Ok ""; vars_json := fun _ => Ok ""
}.

Definition demo_browser (config : string) : BrowserTask :=
  mkBrowser zero_task "" config None None (Some (mkBrowserRetry true 1 5)) 0 zero_run 0 "" "" None [].

#[local] Instance demo_browser_json : Json BrowserTask := { Unmarshal := fun s => Ok (demo_browser s); MarshalTask := BrowserConfigText }.

(** The two documents differ in the secret only. *)
Lemma demo_alike a b : alike (mkNode DocumentNode "" "" [demo_root a] "") (mkNode DocumentNode "" "" [demo_root b] "").
Proof.
  apply A_other; [done|]. apply NA_cons; [|apply NA_nil]. apply A_map. apply EA_vars; [done| |].
  - apply VSA_list. constructor; [|constructor]. apply VA_secret.
    + exists 1%nat, (scalar "!!bool" "true"). split; [|by left]. split; [by eexists|]. intros [|j] k y Hj He; [by destruct He as [[= <-] _]|lia].
    + exists 2%nat, (text_node a), (text_node b). split_and!; try done. split; [by eexists|].
      intros [|[|j]] k y Hj He; [by destruct He as [[= <-] _]..|lia].
  - apply EA_entry; [done| |by apply EA_end; simpl; lia].
    repeat first [apply A_map | apply A_other; [done|] | apply NA_nil | apply NA_cons | apply EA_entry; [done| |] | apply EA_end; simpl; lia].
Defined.

Lemma secure_values_hidden_witness : browser_getRawTask "hunter2" = browser_getRawTask "hunter3".
Proof.
  apply (@secure_values_hidden demo_std demo_text demo_browser_json (demo_browser "hunter2") "hunter3" "hunter2" "hunter3"
           (mkNode DocumentNode "" "" [demo_root "hunter2"] "") (mkNode DocumentNode "" "" [demo_root "hunter3"] "") eq_refl eq_refl);
    try reflexivity; try discriminate; [apply demo_alike|by eexists].
Defined.

Definition demo_normal : Node := Eval vm_compute in match normalize_root (demo_root "pw") with Ok n => n | Err _ => demo_root "" end.

Lemma demo_normalizes : normalize_root (demo_root "pw") = Ok demo_normal.
Proof. vm_compute. reflexivity. Qed.


Definition demo_script : Script :=
  mkBrowserScript "" "http://host" "" 0 ∅ [] false "" ∅ ∅ (mkScriptAuth "" []) []
    [mkScriptStep "" "goto" "" "" "" "" "" "" "" 0 false; mkScriptStep "" "assert_title" "" "" "" "" "up" "" "" 1000 false].

#[local] Instance demo_host : Host := {
  fmt_time := FormatInt; stack := ""; os_Hostname := "node"; path_Join := String.concat "/"; TempDir := "/tmp";
  path_Base := fun s => s; path_Abs := fun s => s; path_Ext := fun _ => ".yaml"; ReadFile := fun _ => Err "no file";
  script_json := fun _ => Err ""; script_yaml := fun _ => Ok demo_script; late_ticks := fun _ => 0%nat
}.

(** The state counts calls; the first engine does not start, and the title is there at the
    third time it is asked for. *)
#[local] Instance demo_engine : Browser nat := {
  b_new := fun _ _ _ _ n => ((if (n =? 0)%nat then Some (mkEngineErr "" "no engine" false) else None), 1000000%N, S n);
  b_close := fun n => n;
  b_call := fun o _ _ n => ((match o with Title => Ok (if (5 <? n)%nat then "up" else "starting") | _ => Ok "" end), 1000000%N, S n);
  b_dom := fun _ n => (Err (mkEngineErr "" "" false), 0%N, n); b_console := fun _ => []; b_network := fun _ => [];
  b_configure := fun _ => None; b_screenshot := fun _ => None; b_performance := fun _ => None
}.

Definition demo_browser_net : browser_net (G := nat) := mkBrowserNet (Ok "/tmp/script") (fun _ => None) None (fun _ => "run") (mkWorld 0 0%nat).

Definition demo_browser_after : BrowserTask := Eval vm_compute in snd (browser_run demo_browser_net (browser_clear (demo_browser "pw"))).

Lemma demo_browser_runs : browser_run demo_browser_net (browser_clear (demo_browser "pw")) = (Ok tt, demo_browser_after).
Proof. vm_compute. reflexivity. Qed.

