(* ===== verification/Pprof.v ===== *)
(** * Profiles ([src/pprofparser]): quantities, events, flame graphs

    A profile of the pprof library is a list of samples: a stack of locations with one value
    per sample type.  [ResolveFlameGraph] merges the samples into a tree of frames and sums
    their values along several dimensions; [Collapse] does the same for texts of stacks.

    What the code uses of the pprof library, of files and of number formats are parameters.
    Pointers to units, kinds and aggregators are compared by identity in the code: they are
    constructors here.  A line of a location has a function; a location may have no line,
    where the code panics. *)

From S2P Require Import Prelude GoNum GoStrings.
From Stdlib Require Export SpecFloat.
From coqutil Require Import Datatypes.RecordSetters.

Import DoubleBraceUpdate.

Inductive perr := PErr (msg : string) | PNotExist | PPanic.

Definition UnknownInfo : string := "<unknown>".

(** ** domain/languages *)

Abbreviation Lang := string.

Definition Python : Lang := "python".
Definition GoLang : Lang := "golang".
Definition NodeJS : Lang := "nodejs".
Definition DotNet : Lang := "dotnet".
Definition PHP : Lang := "php".

(** ** domain/quantity *)

Inductive Kind := UnknownKind | Count | Duration | Memory.

Inductive Unit :=
| UnknownUnit
| NanoSecond | MicroSecond | MilliSecond | Second | Minute | Hour
| CountUnit
| Byte | KiloByte | MegaByte | GigaByte | TeraByte | PetaByte.

#[export] Instance Kind_eq_dec : EqDecision Kind.
Proof. solve_decision. Defined.

#[export] Instance Unit_eq_dec : EqDecision Unit.
Proof. solve_decision. Defined.

Definition unit_Kind (u : Unit) : Kind :=
  match u with
  | UnknownUnit => UnknownKind
  | NanoSecond | MicroSecond | MilliSecond | Second | Minute | Hour => Duration
  | CountUnit => Count
  | Byte | KiloByte | MegaByte | GigaByte | TeraByte | PetaByte => Memory
  end.

Definition unit_Base (u : Unit) : Z :=
  match u with
  | UnknownUnit => 0
  | NanoSecond => 1 | MicroSecond => 1000 | MilliSecond => 1000000 | Second => 1000000000
  | Minute => 60000000000 | Hour => 3600000000000
  | CountUnit => 1
  | Byte => 1 | KiloByte => 2 ^ 10 | MegaByte => 2 ^ 20 | GigaByte => 2 ^ 30 | TeraByte => 2 ^ 40 | PetaByte => 2 ^ 50
  end.

Definition unit_Name (u : Unit) : string :=
  match u with
  | UnknownUnit => "unknown"
  | NanoSecond => "ns" | MicroSecond => "us" | MilliSecond => "ms" | Second => "s" | Minute => "m" | Hour => "h"
  | CountUnit => ""
  | Byte => "Bytes" | KiloByte => "KB" | MegaByte => "MB" | GigaByte => "GB" | TeraByte => "TB" | PetaByte => "PB"
  end.

Definition DefaultUnit (k : Kind) : Unit :=
  match k with UnknownKind => UnknownUnit | Count => CountUnit | Duration => MicroSecond | Memory => Byte end.

(** [ConvertTo]; a division by zero panics. *)
Definition ConvertTo (u target : Unit) (value : Z) : Res perr Z :=
  if decide (unit_Kind u = unit_Kind target) then
    if unit_Base target =? 0 then Err PPanic else Ok (int64 (Z.quot (int64 (value * unit_Base u)) (unit_Base target)))
  else Err (PErr "unit kinds are not compatiable").

Definition ConvertToDefaultUnit (u : Unit) (value : Z) : Res perr Z :=
  match ConvertTo u (DefaultUnit (unit_Kind u)) value with
  | Err (PErr _) | Err PNotExist => Ok 0
  | r => r
  end.

Definition durationUnits : list (string * Unit) :=
  [("nanoseconds", NanoSecond); ("nanosecond", NanoSecond); ("ns", NanoSecond);
   ("microseconds", MicroSecond); ("microsecond", MicroSecond); ("us", MicroSecond);
   (String (Ascii.ascii_of_nat 194) (String (Ascii.ascii_of_nat 181) "s"), MicroSecond);
   ("milliseconds", MilliSecond); ("millisecond", MilliSecond); ("ms", MilliSecond);
   ("seconds", Second); ("second", Second); ("s", Second);
   ("minutes", Minute); ("minute", Minute); ("m", Minute);
   ("hours", Hour); ("hour", Hour); ("h", Hour)].

Definition memoryUnits : list (string * Unit) :=
  [("bytes", Byte); ("byte", Byte); ("b", Byte);
   ("kilobytes", KiloByte); ("kilobyte", KiloByte); ("kibibytes", KiloByte); ("kibibyte", KiloByte); ("kib", KiloByte); ("kb", KiloByte);
   ("megabytes", MegaByte); ("megabyte", MegaByte); ("megibytes", MegaByte); ("megibyte", MegaByte); ("mib", MegaByte); ("mb", MegaByte);
   ("gigabytes", GigaByte); ("gigabyte", GigaByte); ("gigibytes", GigaByte); ("gigibyte", GigaByte); ("gib", GigaByte); ("gb", GigaByte);
   ("terabytes", TeraByte); ("terabyte", TeraByte); ("tebibytes", TeraByte); ("tebibyte", TeraByte);
   ("trillionbytes", TeraByte); ("trillionbyte", TeraByte); ("tib", TeraByte); ("tb", TeraByte);
   ("petabytes", PetaByte); ("petabyte", PetaByte); ("pebibytes", PetaByte); ("pebibyte", PetaByte); ("pib", PetaByte); ("pb", PetaByte)].

Definition lookup_text {A} (key : string) (l : list (string * A)) : option A :=
  snd <$> List.find (fun x => (fst x =? key)%string) l.

Definition first_prefix {A} (s : string) (l : list (string * A)) : option A :=
  snd <$> List.find (fun x => String.prefix (fst x) s) l.

Definition parse_with (what s : string) (exact prefixes : list (string * Unit)) : Res perr Unit :=
  let unit := ToLower (TrimSpace s) in
  match lookup_text unit exact with
  | Some u => Ok u
  | None =>
      match first_prefix unit prefixes with
      | Some u => Ok u
      | None => Err (PErr ("can not resolve " +:+ what +:+ " unit from [" +:+ s +:+ "]"))
      end
  end.

Definition parseDuration (s : string) : Res perr Unit :=
  parse_with "duration" s durationUnits
    [("na", NanoSecond); ("mic", MicroSecond); ("mil", MilliSecond); ("min", Minute); ("hour", Hour); ("sec", Second)].

Definition parseMemoryUnit (s : string) : Res perr Unit :=
  parse_with "memory" s memoryUnits
    [("k", KiloByte); ("m", MegaByte); ("g", GigaByte); ("t", TeraByte); ("p", PetaByte); ("byte", Byte)].

Definition ParseUnit (k : Kind) (s : string) : Res perr Unit :=
  match k with
  | Count => Ok CountUnit
  | Memory => parseMemoryUnit s
  | Duration => parseDuration s
  | UnknownKind => Err (PErr "unknown quantity kind")
  end.

Record Quantity := mkQuantity { q_Value : Z; q_Unit : Unit }.

(** [int64(math.Trunc(x))]: what amd64 makes of a number that does not fit. *)
Definition Trunc (x : spec_float) : Z :=
  let cut n := if (- 2 ^ 63 <=? n) && (n <? 2 ^ 63) then n else - 2 ^ 63 in
  match x with
  | S754_zero _ => 0
  | S754_finite neg m e =>
      let n := Z.shiftl (Z.pos m) e in cut (if neg then - n else n)
  | S754_infinity _ | S754_nan => - 2 ^ 63
  end.

Definition DoubleValueIn (q : Quantity) (target : Unit) : Res perr spec_float :=
  if decide (q_Unit q = target) then Ok (float_of_int (q_Value q))
  else if decide (unit_Kind (q_Unit q) = unit_Kind target) then
    Ok (fmul (float_of_int (q_Value q)) (fdiv (float_of_int (unit_Base (q_Unit q))) (float_of_int (unit_Base target))))
  else Err (PErr ("can not convert [" +:+ unit_Name (q_Unit q) +:+ "] to [" +:+ unit_Name target +:+ "], the kinds of the unit should be same")).

Definition IntValueIn (q : Quantity) (target : Unit) : Res perr Z :=
  if decide (q_Unit q = target) then Ok (q_Value q)
  else match DoubleValueIn q target with Ok v => Ok (Trunc v) | Err e => Err e end.

(** The value, 0 with an error. *)
Definition int_value (q : Quantity) (target : Unit) : Z := match IntValueIn q target with Ok v => v | Err _ => 0 end.

Definition SwitchToDefaultUnit (q : Quantity) : Quantity :=
  let target := DefaultUnit (unit_Kind (q_Unit q)) in
  if decide (q_Unit q = target) then q else mkQuantity (int_value q target) target.

Definition Quantity_Sub (q sub : Quantity) : Res perr Quantity :=
  if decide (unit_Kind (q_Unit q) = unit_Kind (q_Unit sub)) then
    let '(m, n, to) :=
      if unit_Base (q_Unit sub) <? unit_Base (q_Unit q) then (int_value q (q_Unit sub), q_Value sub, q_Unit sub)
      else if unit_Base (q_Unit q) <? unit_Base (q_Unit sub) then (q_Value q, int_value sub (q_Unit q), q_Unit q)
      else (q_Value q, q_Value sub, q_Unit q) in
    Ok (mkQuantity (int64 (m - n)) to)
  else Err PPanic.

Definition toTimeDuration (q : Quantity) : Res perr Z :=
  if decide (unit_Kind (q_Unit q) = Duration) then Ok (int64 (unit_Base (q_Unit q) * q_Value q)) else Err PPanic.

(** How numbers are printed: [%.2f] and durations. *)
Class NumText := { fmt_2f : spec_float -> string; fmt_duration : Z -> string }.

Definition double_text `{NumText} (q : Quantity) (u : Unit) : string :=
  match DoubleValueIn q u with Ok x => fmt_2f x | Err _ => fmt_2f fzero end +:+ " " +:+ unit_Name u.

Definition Quantity_String `{NumText} (q : Quantity) : Res perr string :=
  if q_Value q =? 0 then Ok "No Data"
  else match unit_Kind (q_Unit q) with
       | Count => Ok (FormatInt (q_Value q))
       | Memory =>
           let byt := int_value q Byte in
           Ok (if unit_Base GigaByte <=? byt then double_text q GigaByte
               else if unit_Base MegaByte <=? byt then double_text q MegaByte
               else if unit_Base KiloByte <=? byt then double_text q KiloByte
               else FormatInt byt +:+ " " +:+ unit_Name Byte)
       | Duration => match toTimeDuration q with Ok d => Ok (fmt_duration d) | Err e => Err e end
       | UnknownKind => Ok (FormatInt (q_Value q) +:+ " " +:+ unit_Name (q_Unit q))
       end.

(** ** domain/events *)

Abbreviation EventType := string.

Definition ShowInTrace_flag : Z := 1.
Definition ShowInProfile_flag : Z := 2.

Record TypeMetadata := mkMeta { m_Sort : list (Lang * Z); m_Name : string; m_Kind : Kind; m_ShowPlaces : Z }.

Definition Metas : list (EventType * TypeMetadata) :=
  [("cpu-samples", mkMeta [(Python, 0); (GoLang, 0); (NodeJS, 0)] "CPU Samples" Count 0);
   ("cpu-time", mkMeta [(Python, 10); (GoLang, 10); (DotNet, 10)] "CPU Time" Duration 3);
   ("wall-time", mkMeta [(Python, 20); (DotNet, 80)] "Wall Time" Duration 2);
   ("heap-space", mkMeta [(Python, 30); (NodeJS, 30); (DotNet, 70)] "Heap Live Size" Memory 2);
   ("heap-live-objects", mkMeta [(Python, 31); (NodeJS, 31); (DotNet, 60)] "Heap Live Objects" Count 2);
   ("mutex", mkMeta [(Python, 32)] "Mutex" Duration 2);
   ("block", mkMeta [(Python, 33)] "Block" Duration 2);
   ("goroutines", mkMeta [(Python, 34)] "Goroutines" Count 2);
   ("alloc-space", mkMeta [(Python, 40); (DotNet, 40)] "Allocated Memory" Memory 2);
   ("alloc-samples", mkMeta [(Python, 50); (DotNet, 30)] "Allocations" Count 2);
   ("exception-samples", mkMeta [(Python, 60); (DotNet, 20)] "Thrown Exceptions" Count 2);
   ("lock-acquire-wait", mkMeta [(Python, 70); (DotNet, 110)] "Lock Wait Time" Duration 3);
   ("lock-release-hold", mkMeta [(Python, 80)] "Locked Time" Duration 3);
   ("lock-acquire", mkMeta [(Python, 90); (DotNet, 100)] "Lock Acquires" Count 2);
   ("lock-release", mkMeta [(Python, 100)] "Lock Releases" Count 2);
   ("other", mkMeta [(Python, 110)] "Other" Duration 1)].

Definition meta_of (et : EventType) : option TypeMetadata := lookup_text et Metas.

Definition ParseType (typ : string) : EventType := match meta_of typ with Some _ => typ | None => "unknown" end.
Definition GetName (et : EventType) : string := match meta_of et with Some m => m_Name m | None => "unknown" end.
Definition GetQuantityKind (et : EventType) : Kind := match meta_of et with Some m => m_Kind m | None => UnknownKind end.
Definition GetShowPlaces (et : EventType) : Z := match meta_of et with Some m => m_ShowPlaces m | None => 0 end.

Definition GetSort (et : EventType) (lang : Lang) : Z :=
  match m ← meta_of et; lookup_text lang (m_Sort m) ∪ lookup_text "any" (m_Sort m) with Some n => n | None => 2 ^ 30 end.

(** display.go *)
Inductive DisplayCtl := DDTrace | PyroscopeNodejs.

Definition ShowInTrace (d : DisplayCtl) (e : EventType) : bool :=
  match d with DDTrace => 0 <? Z.land (GetShowPlaces e) ShowInTrace_flag | PyroscopeNodejs => false end.

Definition ShowInProfile (d : DisplayCtl) (e : EventType) : bool :=
  match d with DDTrace => 0 <? Z.land (GetShowPlaces e) ShowInProfile_flag | PyroscopeNodejs => true end.

(** ** sampletype.go: the files of a language, and the events of their sample types *)

Definition fileSampleTypesMap : Type := list (string * list (string * EventType)).

Definition pprofTypeMaps : list (Lang * fileSampleTypesMap) :=
  [(Python, [("prof|auto|*.pprof",
     [("cpu-time", "cpu-time"); ("wall-time", "wall-time"); ("exception-samples", "exception-samples");
      ("lock-acquire", "lock-acquire"); ("lock-acquire-wait", "lock-acquire-wait"); ("lock-release", "lock-release");
      ("lock-release-hold", "lock-release-hold"); ("alloc-samples", "alloc-samples"); ("alloc-space", "alloc-space");
      ("heap-space", "heap-space")])]);
   (GoLang,
     [("cpu.pprof|*cpu.pprof*", [("cpu", "cpu-time")]);
      ("delta-heap.pprof|*delta-heap.pprof*",
        [("alloc_objects", "alloc-samples"); ("alloc_space", "alloc-space"); ("inuse_objects", "heap-live-objects"); ("inuse_space", "heap-space")]);
      ("delta-mutex.pprof|*delta-mutex.pprof*", [("delay", "mutex")]);
      ("delta-block.pprof|*delta-block.pprof*", [("delay", "block")]);
      ("goroutines.pprof|*goroutines.pprof*", [("goroutine", "goroutines")])]);
   (NodeJS,
     [("cpu.pprof", [("", "cpu-samples")]); ("inuse_objects.pprof", [("", "heap-live-objects")]); ("inuse_space.pprof", [("", "heap-space")])]);
   (DotNet, [("prof|auto|*.pprof",
     [("cpu", "cpu-time"); ("exception", "exception-samples"); ("alloc-samples", "alloc-samples"); ("alloc-size", "alloc-space");
      ("inuse-objects", "heap-live-objects"); ("inuse-space", "heap-space"); ("wall", "wall-time"); ("lock-count", "lock-acquire");
      ("lock-time", "lock-acquire-wait")])]);
   (PHP, [("prof|auto|*.pprof",
     [("cpu-time", "cpu-time"); ("sample", "cpu-samples"); ("wall-time", "wall-time"); ("alloc-samples", "alloc-samples"); ("alloc-size", "alloc-space")])])].

Definition getFileSampleTypes (lang : Lang) : option fileSampleTypesMap := lookup_text lang pprofTypeMaps.

(** A file and a sample type for each event. *)
Definition generateDictByEvent (m : fileSampleTypesMap) : list (EventType * (string * string)) :=
  flat_map (fun '(file, types) => map (fun '(name, et) => (et, (file, name))) types) m.

Definition GetFileByEvent (lang : Lang) (typ : EventType) : Res perr (string * string) :=
  match getFileSampleTypes lang with
  | None => Err (PErr ("not supported lang: " +:+ lang))
  | Some m =>
      match lookup_text typ (generateDictByEvent m) with
      | Some f => Ok f
      | None => Err (PErr ("not supported event type: " +:+ typ))
      end
  end.

(** ** Profiles of the pprof library *)

Record Function_ := mkFunction { fn_ID : Z; fn_Name : string; fn_Filename : string }.
Record Line_ := mkLine { ln_Function : Function_; ln_Line : Z }.
Record Location := mkLocation { loc_ID : Z; loc_Line : list Line_ }.

Record Sample := mkSample {
  smp_Location : list Location; smp_Value : list Z; smp_Label : gmap string (list string); smp_NumLabel : gmap string (list Z)
}.

Record ValueType := mkValueType { vt_Type : string; vt_Unit : string }.

Record Profile := mkProfile { pr_SampleType : list ValueType; pr_Sample : list Sample; pr_DurationNanos : Z }.

(** *** parsetoolkit: labels *)

Definition GetLabel (smp : Sample) (key : string) : string :=
  match smp_Label smp !! key with
  | Some labels => default "" (List.find (fun l => negb (l =? "")%string) labels)
  | None => ""
  end.

Definition GetNumLabel (smp : Sample) (key : string) : option Z :=
  match smp_NumLabel smp !! key with
  | Some (v :: values) => Some (default v (List.find (fun x => negb (x =? 0)) (v :: values)))
  | _ => None
  end.

Definition GetStringLabel (smp : Sample) (key : string) : string :=
  let span := GetLabel smp key in
  if negb (span =? "")%string then span
  else match GetNumLabel smp key with Some n => FormatUint 10 (uint64 n) | None => "" end.

Definition LabelThreadID : string := "thread id".
Definition LabelThreadName : string := "thread name".
Definition LabelSpanID : string := "span id".
Definition LabelLocalRootSpanID : string := "local root span id".

(** *** filepathtoolkit *)

Definition backslash : Ascii.ascii := Ascii.ascii_of_nat 92.

Definition BaseName (path : string) : string :=
  let path := if negb (has_substring path slash_text) && has_substring path (String backslash "")
              then replace_char backslash slash path else path in
  Base path.

Definition char_at (i : nat) (s : string) : option Ascii.ascii := String.get i s.

Definition DirName (path : string) : string :=
  let dir := Dir path in
  let other :=
    if (dir =? ".")%string && negb (has_substring path slash_text) then
      match LastIndex path backslash with
      | Some idx =>
          let drive := match idx with O => true | S i => bool_decide (char_at i path = Some colon) end in
          Some (if drive then upto (S idx) path else upto idx path)
      | None => None
      end
    else None in
  match other with
  | Some d => d
  | None => if (dir =? ".")%string && String.prefix "<" path && HasSuffix path ">" && (2 <=? String.length path)%nat then path else dir
  end.

(** ** aggregators.go: what a line tells, by language *)

Definition AssemblyTag : string := "|lm:".
Definition NamespaceTag : string := "|ns:".
Definition ClassTag : string := "|ct:".
Definition MethodTag : string := "|fn:".

Definition tag_index (tag : string) : nat :=
  if (tag =? NamespaceTag)%string then 1 else if (tag =? ClassTag)%string then 2 else if (tag =? MethodTag)%string then 3 else 0.

Definition blank_char : Ascii.ascii := Ascii.ascii_of_nat 32.

(** The piece at the place of its tag. *)
Definition at_place (pieces : list string) (tag : string) : option string :=
  match pieces !! tag_index tag with
  | Some p => if String.prefix tag p then Some (TrimPrefix p tag) else None
  | None => None
  end.

(** The loop over the pieces: the first that is not empty counts. *)
Definition method_loop (acc : string * string) (piece : string) : string * string :=
  let piece := TrimSpace piece in
  let take (old tag : string) := if (old =? "")%string && String.prefix tag piece then TrimPrefix piece tag else old in
  (take (fst acc) ClassTag, take (snd acc) MethodTag).

Definition getDDDotnetMethodName (funcName : string) : string :=
  let pieces := split_char blank_char funcName in
  let className := default "" (at_place pieces ClassTag) in
  let methodName := default "" (at_place pieces MethodTag) in
  let '(className, methodName) :=
    if ((className =? "") || (methodName =? ""))%string then fold_left method_loop pieces (className, methodName) else (className, methodName) in
  if (methodName =? "")%string then "unknown"
  else if negb (className =? "")%string then className +:+ "." +:+ methodName else methodName.

Definition getDDDotnetField (funcName tag : string) : string :=
  let pieces := split_char blank_char funcName in
  match at_place pieces tag with
  | Some s => s
  | None =>
      match List.find (fun p => String.prefix tag (TrimSpace p)) pieces with
      | Some p => TrimPrefix (TrimSpace p) tag
      | None => UnknownInfo
      end
  end.

Definition getPHPBaseFuncName (funcName : string) : string :=
  if (funcName =? "")%string then UnknownInfo
  else match LastIndex funcName backslash with
       | Some pos => if (pos <? String.length funcName - 1)%nat then from (S pos) funcName else funcName
       | None => funcName
       end.

(** The segments of a Node function name, the last two apart: file, function, line. *)
Definition segments (l : Line_) : list string := split_char colon (fn_Name (ln_Function l)).

Definition seg (k : nat) (s : list string) : string := default "" (s !! (length s - k)%nat).

Definition getFuncNameByLine (lang : Lang) (l : Line_) : string :=
  let name := fn_Name (ln_Function l) in
  if (lang =? NodeJS)%string then (if (1 <? length (segments l))%nat then seg 2 (segments l) else UnknownInfo)
  else if (lang =? DotNet)%string then getDDDotnetMethodName name
  else if (lang =? PHP)%string then getPHPBaseFuncName name
  else name.

Definition getMethodByLine (lang : Lang) (l : Line_) : string := getDDDotnetMethodName (fn_Name (ln_Function l)).

(** The class of a PHP function without one: its package under vendor. *)
Definition php_package (filename : string) : string :=
  let filename := replace_char backslash slash filename in
  match Index filename "/vendor/" with
  | Some pos =>
      let filename := from (pos + 8) filename in
      match Index filename "/src/" with
      | Some idx => upto idx filename
      | None => match LastIndex filename slash with Some idx => upto idx filename | None => filename end
      end
  | None => "standard"
  end.

Definition getClassByLine (lang : Lang) (l : Line_) : string :=
  let funcName := fn_Name (ln_Function l) in
  if (lang =? DotNet)%string then getDDDotnetField funcName ClassTag
  else if (lang =? PHP)%string then
    let funcName := getPHPBaseFuncName funcName in
    match LastIndexText funcName "::" with
    | Some pos => upto pos funcName
    | None => match Index funcName "|" with
              | Some pos => upto pos funcName
              | None => php_package (fn_Filename (ln_Function l))
              end
    end
  else UnknownInfo.

Definition dotnet_field (tag : string) (lang : Lang) (l : Line_) : string :=
  if (lang =? DotNet)%string then
    let s := getDDDotnetField (fn_Name (ln_Function l)) tag in if negb (s =? "")%string then s else UnknownInfo
  else UnknownInfo.

Definition getNamespaceByLine : Lang -> Line_ -> string := dotnet_field NamespaceTag.
Definition getAssemblyByLine : Lang -> Line_ -> string := dotnet_field AssemblyTag.

Fixpoint all_digits (s : string) : bool :=
  match s with EmptyString => true | String a s' => match char_digit a with Some _ => true | None => false end && all_digits s' end.

(** [strconv.ParseInt] of digits, its error ignored. *)
Definition digits_int (s : string) : Z := default (2 ^ 63 - 1) (ParseInt10 64 s).

Definition getLineByLine (lang : Lang) (l : Line_) : Z :=
  let lineNo := seg 1 (segments l) in
  if (lang =? NodeJS)%string && all_digits lineNo && negb (lineNo =? "")%string then digits_int lineNo else ln_Line l.

(** The segments before the last two. *)
Definition node_file (l : Line_) : string :=
  TrimSpace (String.concat ":" (take (length (segments l) - 2) (segments l))).

Definition getFileByLine (lang : Lang) (l : Line_) : string :=
  if (lang =? NodeJS)%string then
    (if (3 <=? length (segments l))%nat && negb (node_file l =? "")%string then node_file l else UnknownInfo)
  else if (lang =? PHP)%string then
    let filename := TrimSpace (fn_Filename (ln_Function l)) in if (filename =? "")%string then "standard" else filename
  else fn_Filename (ln_Function l).

Definition getDirectoryByLine (lang : Lang) (l : Line_) : string := DirName (getFileByLine lang l).

(** [cutGoFuncName]: package and function. *)
Definition cutGoFuncName (funcName : string) : string * string :=
  let '(package, funcName) :=
    match LastIndex funcName slash with Some pos => (upto (S pos) funcName, from (S pos) funcName) | None => ("", funcName) end in
  match Index funcName "." with
  | Some i => (package +:+ upto i funcName, from (S i) funcName)
  | None => (package, funcName)
  end.

Definition getPackageNameByLine (lang : Lang) (l : Line_) : string :=
  if (lang =? GoLang)%string then fst (cutGoFuncName (fn_Name (ln_Function l))) else UnknownInfo.

Definition in_file (funcName file : string) : string := funcName +:+ "(" +:+ file +:+ ")".

Definition GetPrintStrByLine (lang : Lang) (l : Line_) : string :=
  let name := fn_Name (ln_Function l) in
  let file := fn_Filename (ln_Function l) in
  if (lang =? GoLang)%string then in_file (snd (cutGoFuncName name)) (BaseName file)
  else if (lang =? NodeJS)%string then
    let '(funcName, filename) :=
      if (length (segments l) =? 1)%nat then (seg 1 (segments l), "")
      else if (1 <? length (segments l))%nat then (seg 2 (segments l), node_file l)
      else (UnknownInfo, "") in
    let baseName := BaseName filename in
    if ((baseName =? "") || (baseName =? "."))%string then funcName else in_file funcName baseName
  else if (lang =? DotNet)%string then getDDDotnetMethodName name
  else if (lang =? PHP)%string then
    let filename := if negb (file =? "")%string then BaseName file else file in
    let funcName := getPHPBaseFuncName name in
    if negb (filename =? "")%string then in_file funcName filename else funcName
  else in_file name (BaseName file).

Definition GetSpyPrintStr (funcName fileName : string) : string := in_file funcName (BaseName fileName).

(** *** Properties of a sample: those of the last line of its first location *)

Definition top_line (smp : Sample) (reverse : bool) : option Line_ :=
  match smp_Location smp with
  | [] => None
  | _ => loc ← smp_Location smp !! (if reverse then length (smp_Location smp) - 1 else 0)%nat; list.last (loc_Line loc)
  end.

Definition getPropertyCallable (f : Lang -> Line_ -> string) (lang : Lang) (smp : Sample) (reverse : bool) : string :=
  match top_line smp reverse with Some l => f lang l | None => UnknownInfo end.

Definition getFuncIdentifier (lang : Lang) (smp : Sample) (reverse : bool) : string :=
  getPropertyCallable (fun _ l => FormatUint 10 (fn_ID (ln_Function l))) lang smp reverse.

Definition getThreadIDBySample (smp : Sample) : string :=
  let tid := GetLabel smp LabelThreadID in if negb (tid =? "")%string then tid else UnknownInfo.

Definition getThreadNameBySample (smp : Sample) : string :=
  let name := GetLabel smp LabelThreadName in if negb (name =? "")%string then name else UnknownInfo.

Definition with_line (s file : string) (line : Z) : string := s +:+ "(" +:+ file +:+ ":L#" +:+ FormatInt line +:+ ")".

Definition line_display (lang : Lang) (l : Line_) : string :=
  let name := fn_Name (ln_Function l) in
  let file := fn_Filename (ln_Function l) in
  if (lang =? PHP)%string then
    let filename := if negb (file =? "")%string then BaseName file else file in
    if negb (filename =? "")%string then with_line (getPHPBaseFuncName name) filename (ln_Line l) else getPHPBaseFuncName name
  else if (lang =? GoLang)%string then with_line (snd (cutGoFuncName name)) (BaseName file) (ln_Line l)
  else with_line name (BaseName file) (ln_Line l).

Definition GetFuncAndLineDisplay : Lang -> Sample -> bool -> string := getPropertyCallable line_display.

(** The text of [fmt.Sprintf] with three hash marks between. *)
Definition ids (l : list string) : string := String.concat "###" l.

Definition line_identifier (lang : Lang) (l : Line_) : string :=
  ids [fn_Filename (ln_Function l); FormatUint 10 (fn_ID (ln_Function l)); FormatInt (ln_Line l)].

(** *** Aggregators *)

Inductive Aggregator :=
| AFunction | APHPFunction | AMethod | AClass | ANamespace | AAssembly | APyroNodeFunction | AFunctionLine | ADirectory
| AFile | APyroNodeFile | AThreadID | AThreadName | APackage.

Definition agg_Name (a : Aggregator) : string :=
  match a with
  | AFunction | APHPFunction | APyroNodeFunction => "Function"
  | AMethod => "Method" | AClass => "Class" | ANamespace => "Namespace" | AAssembly => "Assembly"
  | AFunctionLine => "Function + Line" | ADirectory => "Directory" | AFile | APyroNodeFile => "File"
  | AThreadID => "Thread ID" | AThreadName => "Thread Name" | APackage => "Package"
  end.

Definition agg_Mapping (a : Aggregator) : list string :=
  match a with
  | AFunction | APHPFunction | APyroNodeFunction | AMethod => ["functionName"]
  | AClass => ["class"] | ANamespace => ["namespace"] | AAssembly => ["assembly"]
  | AFunctionLine => ["functionName"; "line"] | ADirectory => ["directory"] | AFile | APyroNodeFile => ["file"]
  | AThreadID => ["threadID"] | AThreadName => ["threadName"] | APackage => ["package"]
  end.

Definition getThreadID (lang : Lang) (smp : Sample) (reverse : bool) : string := getThreadIDBySample smp.
Definition getThreadName (lang : Lang) (smp : Sample) (reverse : bool) : string := getThreadNameBySample smp.

Definition GetIdentifier (a : Aggregator) : Lang -> Sample -> bool -> string :=
  match a with
  | AFunction | APHPFunction | APyroNodeFunction => getFuncIdentifier
  | AMethod => getPropertyCallable getMethodByLine
  | AClass => getPropertyCallable getClassByLine
  | ANamespace => getPropertyCallable getNamespaceByLine
  | AAssembly => getPropertyCallable getAssemblyByLine
  | AFunctionLine => getPropertyCallable line_identifier
  | ADirectory => getPropertyCallable getDirectoryByLine
  | AFile | APyroNodeFile => getPropertyCallable getFileByLine
  | AThreadID => getThreadID
  | AThreadName => getThreadName
  | APackage => getPropertyCallable getPackageNameByLine
  end.

Definition GetDisplayStr (a : Aggregator) : Lang -> Sample -> bool -> string :=
  match a with
  | AFunction | APHPFunction | APyroNodeFunction => getPropertyCallable GetPrintStrByLine
  | AFunctionLine => GetFuncAndLineDisplay
  | a => GetIdentifier a
  end.

Definition GetMappingFuncs (a : Aggregator) : list (Lang -> Sample -> bool -> string) :=
  match a with
  | AFunction | APHPFunction | APyroNodeFunction => [getPropertyCallable getFuncNameByLine]
  | AFunctionLine => [getPropertyCallable getFuncNameByLine; getPropertyCallable (fun lang l => FormatInt (getLineByLine lang l))]
  | a => [GetIdentifier a]
  end.

Definition PythonAggregatorList : list Aggregator := [AFunction; AFunctionLine; ADirectory; AFile; AThreadID; AThreadName].
Definition GoAggregatorList : list Aggregator := [AFunction; AFunctionLine; ADirectory; AFile; APackage].
Definition SpyAggregatorList : list Aggregator := [AFunction; AFunctionLine; ADirectory; AFile; AThreadName].
Definition PyroscopeNodeJSAggregatorList : list Aggregator := [APyroNodeFunction; APyroNodeFile].
Definition DDTraceDotnetAggregatorList : list Aggregator := [AMethod; AClass; ANamespace; AAssembly; AThreadID; AThreadName].
Definition DDTracePHPAggregatorList : list Aggregator := [APHPFunction; AFunctionLine; AClass; AFile; ADirectory].

Definition aggregators (lang : Lang) : list Aggregator :=
  if (lang =? GoLang)%string then GoAggregatorList
  else if (lang =? NodeJS)%string then PyroscopeNodeJSAggregatorList
  else if (lang =? DotNet)%string then DDTraceDotnetAggregatorList
  else if (lang =? PHP)%string then DDTracePHPAggregatorList
  else PythonAggregatorList.

(** ** Frames *)

Record FrameInfo := mkInfo {
  fi_Function : string; fi_Line : Z; fi_File : string; fi_Directory : string; fi_ThreadID : string; fi_ThreadName : string;
  fi_Class : string; fi_Namespace : string; fi_Assembly : string; fi_Package : string; fi_PrintString : string
}.

(** A frame; its sub-frames, a map in the code, have distinct keys. *)
Inductive Frame := mkFrame (quantity : option Quantity) (value : Z) (unit : Unit) (percent : string) (info : FrameInfo) (subs : list (string * Frame)).

Definition f_Value (f : Frame) : Z := match f with mkFrame _ v _ _ _ _ => v end.
Definition f_Unit (f : Frame) : Unit := match f with mkFrame _ _ u _ _ _ => u end.
Definition f_SubFrames (f : Frame) : list (string * Frame) := match f with mkFrame _ _ _ _ _ s => s end.

Definition no_info : FrameInfo := mkInfo "" 0 "" "" "" "" "" "" "" "" "".

(** [m[key] = g(m[key])]. *)
Fixpoint upsert {A} (key : string) (g : option A -> A) (m : list (string * A)) : list (string * A) :=
  match m with
  | [] => [(key, g None)]
  | (k, x) :: m' => if (k =? key)%string then (k, g (Some x)) :: m' else (k, x) :: upsert key g m'
  end.

(** The walk of a stack from the root: each frame on it gets the value. *)
Fixpoint add_path (u : Unit) (v : Z) (path : list (string * FrameInfo)) (subs : list (string * Frame)) : list (string * Frame) :=
  match path with
  | [] => subs
  | (id, info) :: rest =>
      upsert id (fun old =>
        match old with
        | Some (mkFrame q v' u' p i s) => mkFrame q (int64 (v' + v)) u' p i (add_path u v rest s)
        | None => mkFrame None v u "" info (add_path u v rest [])
        end) subs
  end.

Record AggregatorOption := mkOption {
  o_Title : string; o_Quantity : option Quantity; o_Value : Z; o_Unit : Unit; o_Percent : string; o_MappingValues : list string
}.

Record AggregatorSelect := mkSelect { as_Aggregator : Aggregator; as_Mapping : list string; as_Options : list (string * AggregatorOption) }.

Definition new_select (a : Aggregator) : AggregatorSelect := mkSelect a (agg_Mapping a) [].

(** One value for the option of an identifier. *)
Definition add_option (u : Unit) (v : Z) (id title : string) (mapping : list string) (s : AggregatorSelect) : AggregatorSelect :=
  s{{as_Options := upsert id (fun old =>
       match old with
       | Some o => o{{o_Value := int64 (o_Value o + v)}}
       | None => mkOption title None v u "" mapping
       end) (as_Options s)}}.

Section text.
Context `{NumText}.

Definition percent_of (v total : Z) : string :=
  if total <=? 0 then "100" else fmt_2f (fmul (fdiv (float_of_int v) (float_of_int total)) (float_of_int 100)).

(** [CalcPercentAndQuantity] of an option. *)
Definition option_quantity (total : Z) (o : AggregatorOption) : AggregatorOption :=
  let q := SwitchToDefaultUnit (mkQuantity (o_Value o) (o_Unit o)) in
  mkOption (o_Title o) (Some q) (q_Value q) (q_Unit q) (percent_of (o_Value o) total) (o_MappingValues o).

Definition selects_quantity (total : Z) (l : list AggregatorSelect) : list AggregatorSelect :=
  map (fun s => s{{as_Options := map (fun '(k, o) => (k, option_quantity total o)) (as_Options s)}}) l.

(** The value and the unit that a frame is shown in. *)
Definition frame_unit (v : Z) (u : Unit) : Z * Unit :=
  let q := mkQuantity v u in
  match unit_Kind u with
  | Memory => if decide (u = Byte) then (v, u) else (int_value q Byte, Byte)
  | Duration => if decide (u = MicroSecond) then (v, u) else (int_value q MicroSecond, MicroSecond)
  | _ => (v, u)
  end.

(** [parsetoolkit.CalcPercentAndQuantity]. *)
Fixpoint CalcPercentAndQuantity (total : Z) (f : Frame) : Frame :=
  match f with
  | mkFrame _ v u _ i s =>
      mkFrame (Some (mkQuantity v u)) (fst (frame_unit v u)) (snd (frame_unit v u)) (percent_of v total) i
        (map (fun '(k, f) => (k, CalcPercentAndQuantity total f)) s)
  end.

(** ** What a sample adds: its value, its stack, and its option of each aggregator *)

Record Entry := mkEntry { e_value : Z; e_path : list (string * FrameInfo); e_options : Aggregator -> string * string * list string }.

Record Graph := mkGraph { g_total : Z; g_subs : list (string * Frame); g_selects : list AggregatorSelect }.

Definition add_entry (u : Unit) (g : Graph) (e : Entry) : Graph :=
  mkGraph (int64 (g_total g + e_value e)) (add_path u (e_value e) (e_path e) (g_subs g))
    (map (fun s => let '(id, title, mapping) := e_options e (as_Aggregator s) in add_option u (e_value e) id title mapping s) (g_selects g)).

Definition new_graph (l : list Aggregator) : Graph := mkGraph 0 [] (map new_select l).

(** The root frame and the selections, in the units that are shown. *)
Definition finish (u : Unit) (g : Graph) : Frame * list AggregatorSelect :=
  (CalcPercentAndQuantity (g_total g) (mkFrame None (g_total g) u "" no_info (g_subs g)), selects_quantity (g_total g) (g_selects g)).
End text.

(** ** pprof.go: flame graphs of profiles *)

(** The spans that are wanted: no set, all of the trace of a span, or a set. *)
Inductive SpanIDSet := NoSpanSet | AllTraceSpanSet | SpanSet (s : gset string).

Record PProf := mkPProf {
  p_from : string; p_filterBySpan : bool; p_spanID : string; p_spanIDSet : SpanIDSet; p_ctl : DisplayCtl
}.

(** The filter by span. *)
Definition span_ok (p : PProf) (smp : Sample) : bool :=
  if p_filterBySpan p then
    let spanID := GetStringLabel smp LabelSpanID in
    if (spanID =? "")%string then false
    else match p_spanIDSet p with
         | NoSpanSet => true
         | AllTraceSpanSet => (GetStringLabel smp LabelLocalRootSpanID =? p_spanID p)%string
         | SpanSet s => bool_decide (spanID ∈ s)
         end
  else true.

Definition frame_info (lang : Lang) (smp : Sample) (l : Line_) : FrameInfo :=
  mkInfo (getFuncNameByLine lang l) (getLineByLine lang l) (getFileByLine lang l) (getDirectoryByLine lang l)
    (getThreadIDBySample smp) (getThreadNameBySample smp) (getClassByLine lang l) (getNamespaceByLine lang l)
    (getAssemblyByLine lang l) (getPackageNameByLine lang l) (GetPrintStrByLine lang l).

(** The stack of a sample from its root; a location without a line panics. *)
Fixpoint stack (lang : Lang) (smp : Sample) (l : list Location) : Res perr (list (string * FrameInfo)) :=
  match l with
  | [] => Ok []
  | loc :: l' =>
      match list.last (loc_Line loc), stack lang smp l' with
      | None, _ => Err PPanic
      | Some line, Ok r => Ok ((FormatUint 10 (loc_ID loc), frame_info lang smp line) :: r)
      | Some _, Err e => Err e
      end
  end.

Definition sample_entry (lang : Lang) (v : Z) (smp : Sample) : Res perr Entry :=
  match stack lang smp (rev (smp_Location smp)) with
  | Err e => Err e
  | Ok path =>
      Ok (mkEntry v path (fun a => (GetIdentifier a lang smp false, GetDisplayStr a lang smp false,
                                    map (fun f => f lang smp false) (GetMappingFuncs a))))
  end.

(** The loop over the samples; a value that is not there panics. *)
Fixpoint add_samples (p : PProf) (lang : Lang) (u : Unit) (idx : nat) (l : list Sample) (g : Graph) : Res perr Graph :=
  match l with
  | [] => Ok g
  | smp :: l' =>
      match smp_Value smp !! idx with
      | None => Err PPanic
      | Some v =>
          if (v =? 0) || negb (span_ok p smp) then add_samples p lang u idx l' g
          else match sample_entry lang v smp with
               | Err e => Err e
               | Ok e => add_samples p lang u idx l' (add_entry u g e)
               end
      end
  end.

Fixpoint index_of_type (typeName : string) (i : nat) (l : list ValueType) : option (nat * string) :=
  match l with
  | [] => None
  | st :: l' => if (vt_Type st =? typeName)%string then Some (i, vt_Unit st) else index_of_type typeName (S i) l'
  end.

Definition getIdxOfTypeAndUnit (typeName : string) (pr : Profile) : Res perr (nat * string) :=
  match index_of_type typeName 0 (pr_SampleType pr) with
  | Some r => Ok r
  | None => Err (PErr ("the pprof does not contain the event type: " +:+ typeName))
  end.

(** *** Profiles on disk *)

(** A value of a request, as its JSON gives it. *)
Inductive iface := INil | IString (s : string) | IFloat (x : spec_float) | INumber (s : string) | IInt (n : Z) | IUint (n : Z) | IOther.

Definition IFaceCast2Int64 (x : iface) : Res perr Z :=
  match x with
  | INil => Err (PErr "can not convert nil value to int64")
  | IString s => match ParseInt10 64 s with Some n => Ok n | None => Err (PErr ("cannot convert profile.profile_start: [" +:+ s +:+ "] to int64")) end
  | INumber s => match ParseInt10 64 s with Some n => Ok n | None => Err (PErr "number") end
  | IFloat x => Ok (Trunc x)
  | IInt n => Ok n
  | IUint n => Ok (int64 n)
  | IOther => Err (PErr "type")
  end.

Record ProfileParam := mkParam {
  pp_Language : Lang; pp_ProfileID : string; pp_ProfileStart : iface; pp_ProfileEnd : iface; pp_start : Z; pp_end : Z
}.

(** [StartTime] and [EndTime] keep what they found. *)
Definition cast_time (what : string) (x : iface) : Res perr Z :=
  match IFaceCast2Int64 x with
  | Err e => Err e
  | Ok n => if n <=? 0 then Err (PErr ("illegal " +:+ what +:+ " parameter")) else Ok n
  end.

Definition StartTime (p : ProfileParam) : Res perr Z * ProfileParam :=
  if 0 <? pp_start p then (Ok (pp_start p), p)
  else match cast_time "profile_start" (pp_ProfileStart p) with
       | Ok n => (Ok n, p{{pp_start := n}})
       | Err e => (Err e, p)
       end.

Definition EndTime (p : ProfileParam) : Res perr Z * ProfileParam :=
  if 0 <? pp_end p then (Ok (pp_end p), p)
  else match cast_time "profile_end" (pp_ProfileEnd p) with
       | Ok n => (Ok n, p{{pp_end := n}})
       | Err e => (Err e, p)
       end.

Definition VerifyLanguage (l : list ProfileParam) : Res perr Lang :=
  match l with p :: _ => Ok (pp_Language p) | [] => Err (PErr "empty profiles param") end.

(** The host: the profile directory, dates, files, and the pprof library with its decoders. *)
Record PHost := mkHost {
  h_ProfileDir : string; h_date : Z -> string;
  h_exists : string -> Res perr bool; h_Glob : string -> Res perr (list string);
  h_ReadFile : string -> Res perr bytes; h_lz4 : bytes -> bytes;
  h_Parse : bytes -> Res perr Profile; h_Merge : list Profile -> Res perr Profile; h_CheckValid : Profile -> option string
}.

Definition MinTimestampMicro : Z := 1640966400000000.
Definition MaxTimestampMicro : Z := 2147483647000000.

(** [GetProfileDir]; an identifier of less than two bytes panics. *)
Definition GetProfileDir (h : PHost) (workspaceUUID profileID : string) (t : Z) : Res perr string :=
  let t := if (MinTimestampMicro <=? t) && (t <=? MaxTimestampMicro) then int64 (t * 1000) else t in
  if (String.length profileID <? 2)%nat then Err PPanic
  else Ok (JoinPaths [h_ProfileDir h; h_date h t; workspaceUUID; upto 2 profileID; profileID]).

Definition GetProfilePath (h : PHost) (workspaceUUID profileID : string) (t : Z) (name : string) : Res perr string :=
  match GetProfileDir h workspaceUUID profileID t with Ok d => Ok (d +:+ "/" +:+ name) | Err e => Err e end.

Definition LZ4Magic : bytes := [Byte.x04; Byte.x22; Byte.x4d; Byte.x18].

(** What the reader of [NewDecompressor] gives. *)
Definition NewDecompressor (h : PHost) (data : bytes) : bytes := if bool_decide (take 4 data = LZ4Magic) then h_lz4 h data else data.

Definition isGlobPattern (s : string) : bool := has_substring s "?" || has_substring s "*".

Definition bar : Ascii.ascii := Ascii.ascii_of_nat 124.

(** [FilenameLoop]: the file of one profile, or none. *)
Fixpoint find_file (h : PHost) (workspaceUUID profileID : string) (start : Z) (names : list string) : Res perr (option string) :=
  match names with
  | [] => Ok None
  | name :: names' =>
      if (name =? "")%string then find_file h workspaceUUID profileID start names'
      else match GetProfilePath h workspaceUUID profileID start name with
           | Err e => Err e
           | Ok pattern =>
               match h_exists h pattern with
               | Ok true => Ok (Some pattern)
               | _ =>
                   if isGlobPattern name then
                     match h_Glob h pattern with
                     | Err _ => Err (PErr ("illegal glob pattern [" +:+ pattern +:+ "]"))
                     | Ok matches =>
                         match List.find (fun m => negb ((Base m =? "event") || (Base m =? "event.json"))%string) matches with
                         | Some m => Ok (Some m)
                         | None => find_file h workspaceUUID profileID start names'
                         end
                     end
                   else find_file h workspaceUUID profileID start names'
               end
           end
  end.

(** The profile of one entry; [None] when the file does not parse, which is logged. *)
Definition read_profile (h : PHost) (workspaceUUID : string) (names : list string) (prof : ProfileParam) : Res perr (option Profile) :=
  match fst (StartTime prof) with
  | Err _ => Err (PErr "cast ProfileStart to int64 fail")
  | Ok start =>
      match find_file h workspaceUUID (pp_ProfileID prof) start names with
      | Err e => Err e
      | Ok None => Err PNotExist
      | Ok (Some path) =>
          match h_ReadFile h path with
          | Err PNotExist => Err PNotExist
          | Err _ => match h_exists h path with
                     | Ok false => Err PNotExist
                     | _ => Err (PErr ("unable to read profile file [" +:+ path +:+ "]"))
                     end
          | Ok data => match h_Parse h (NewDecompressor h data) with Ok p => Ok (Some p) | Err _ => Ok None end
          end
      end
  end.

Fixpoint read_profiles (h : PHost) (workspaceUUID : string) (names : list string) (l : list ProfileParam) : Res perr (list Profile) :=
  match l with
  | [] => Ok []
  | p :: l' =>
      match read_profile h workspaceUUID names p with
      | Err e => Err e
      | Ok r => match read_profiles h workspaceUUID names l' with
                | Err e => Err e
                | Ok rs => Ok (option_list r ++ rs)
                end
      end
  end.

Definition mergePProf (h : PHost) (workspaceUUID : string) (profiles : list ProfileParam) (filename : string) : Res perr Profile :=
  match profiles with
  | [] => Err (PErr "empty profiles")
  | _ =>
      match read_profiles h workspaceUUID (split_char bar filename) profiles with
      | Err e => Err e
      | Ok [] => Err (PErr "no available profile")
      | Ok l =>
          match h_Merge h l with
          | Err _ => Err (PErr "merge profile fail")
          | Ok m => match h_CheckValid h m with Some _ => Err (PErr "invalid merged profile file") | None => Ok m end
          end
      end
  end.

Definition perr_wrap (what : string) (e : perr) : perr :=
  match e with PErr m => PErr (what +:+ ": " +:+ m) | e => e end.

(** [ResolveFlameGraph] of a profile that was merged. *)
Definition resolve_profile `{NumText} (p : PProf) (lang : Lang) (eventType sampleType : string) (merged : Profile)
    : Res perr (Frame * list AggregatorSelect) :=
  match getIdxOfTypeAndUnit sampleType merged with
  | Err e => Err (perr_wrap "render frame" e)
  | Ok (idx, valueUnit) =>
      match ParseUnit (GetQuantityKind eventType) valueUnit with
      | Err e => Err (perr_wrap "ParseUnit fail" e)
      | Ok u =>
          match add_samples p lang u idx (pr_Sample merged) (new_graph (aggregators lang)) with
          | Err e => Err e
          | Ok g => Ok (finish u g)
          end
      end
  end.

Definition ResolveFlameGraph `{NumText} (h : PHost) (workspaceUUID : string) (profiles : list ProfileParam) (p : PProf) (eventType : EventType)
    : Res perr (Frame * list AggregatorSelect) :=
  match VerifyLanguage profiles with
  | Err e => Err (perr_wrap "VerifyLanguage fail" e)
  | Ok lang =>
      match GetFileByEvent lang eventType with
      | Err e => Err (perr_wrap "GetFileByEvent" e)
      | Ok (filename, sampleType) =>
          match mergePProf h workspaceUUID profiles filename with
          | Err e => Err (perr_wrap "merge pprof" e)
          | Ok merged => resolve_profile p lang eventType sampleType merged
          end
      end
  end.

(** *** Summaries *)

Record EventSummary := mkSummary { es_Type : EventType; es_Unit : Unit; es_Value : Z }.

Definition es_ConvertToDefaultUnit (s : EventSummary) : Res perr EventSummary :=
  match ConvertToDefaultUnit (es_Unit s) (es_Value s) with
  | Ok v => Ok (mkSummary (es_Type s) (DefaultUnit (unit_Kind (es_Unit s))) v)
  | Err e => Err e
  end.

Definition shown (p : PProf) (et : EventType) : bool :=
  negb ((p_from p =? "trace")%string && negb (ShowInTrace (p_ctl p) et)) &&
  negb ((p_from p =? "profile")%string && negb (ShowInProfile (p_ctl p) et)).

(** The sample types that are wanted, with their places. *)
Fixpoint summary_types (p : PProf) (types : list (string * EventType)) (i : nat) (l : list ValueType) : Res perr (list (nat * (EventType * Unit))) :=
  match l with
  | [] => Ok []
  | st :: l' =>
      match lookup_text (vt_Type st) types with
      | Some et =>
          if shown p et then
            match ParseUnit (GetQuantityKind et) (vt_Unit st) with
            | Err e => Err (perr_wrap "parseUnit error" e)
            | Ok u => match summary_types p types (S i) l' with Ok r => Ok ((i, (et, u)) :: r) | Err e => Err e end
            end
          else summary_types p types (S i) l'
      | None => summary_types p types (S i) l'
      end
  end.

(** The sum at one place over the samples of the wanted spans. *)
Definition sum_at (p : PProf) (i : nat) (l : list Sample) : Z :=
  fold_left (fun acc smp => if span_ok p smp then match smp_Value smp !! i with Some v => int64 (acc + v) | None => acc end else acc) l 0.

Definition file_summary (p : PProf) (types : list (string * EventType)) (m : Profile) : Res perr (list EventSummary) :=
  match summary_types p types 0 (pr_SampleType m) with
  | Err e => Err e
  | Ok l => Ok (map (fun '(i, (et, u)) => mkSummary et u (sum_at p i (pr_Sample m))) l)
  end.

(** The loop over the files of the language, in the order of the map. *)
Fixpoint summary_files (h : PHost) (workspaceUUID : string) (profiles : list ProfileParam) (p : PProf) (files : fileSampleTypesMap)
    (count : nat) (total : Z) (acc : list (EventType * EventSummary)) : Res perr (nat * Z * list (EventType * EventSummary)) :=
  match files with
  | [] => Ok (count, total, acc)
  | (filename, types) :: files' =>
      match mergePProf h workspaceUUID profiles filename with
      | Err PNotExist => summary_files h workspaceUUID profiles p files' count total acc
      | Err e => Err (perr_wrap "merge pprof" e)
      | Ok m =>
          match file_summary p types m with
          | Err e => Err e
          | Ok l =>
              summary_files h workspaceUUID profiles p files' (S count) (Z.max total (pr_DurationNanos m))
                (fold_left (fun acc s => upsert (es_Type s) (fun _ => s) acc) l acc)
          end
      end
  end.

Definition Summary (h : PHost) (order : fileSampleTypesMap -> fileSampleTypesMap) (workspaceUUID : string) (profiles : list ProfileParam) (p : PProf)
    : Res perr (list (EventType * EventSummary) * Z) :=
  match VerifyLanguage profiles with
  | Err e => Err (perr_wrap "unable to resolve language" e)
  | Ok lang =>
      match getFileSampleTypes lang with
      | None => Err (PErr ("getFileSampleTypes: not supported language [" +:+ lang +:+ "]"))
      | Some files =>
          match summary_files h workspaceUUID profiles p (order files) 0 0 [] with
          | Err e => Err e
          | Ok (O, _, _) => Err (PErr "no corresponding profiling file exists")
          | Ok (_, total, acc) => Ok (acc, total)
          end
      end
  end.

(** ** collapse.go: texts of stacks *)

(** [\s] and [\S] of regular expressions. *)
Definition re_space (a : Ascii.ascii) : bool :=
  let n := Ascii.N_of_ascii a in ((n =? 9) || (n =? 10) || (n =? 12) || (n =? 13) || (n =? 32))%N.

Definition re_digit (a : Ascii.ascii) : bool := match char_digit a with Some _ => true | None => false end.
Definition re_alnum (a : Ascii.ascii) : bool :=
  let n := Ascii.N_of_ascii a in re_digit a || ((65 <=? n) && (n <=? 90) || (97 <=? n) && (n <=? 122))%N.

(** The longest prefix of characters of a class, and the rest. *)
Fixpoint span_of (f : Ascii.ascii -> bool) (s : string) : string * string :=
  match s with
  | EmptyString => ("", "")
  | String a s' => if f a then let '(w, r) := span_of f s' in (String a w, r) else ("", s)
  end.

Definition empty (s : string) : bool := (s =? "")%string.

(** A text after a prefix. *)
Definition after (p s : string) : option string := if String.prefix p s then Some (from (String.length p) s) else None.

(** A class, at least once. *)
Definition some_of (f : Ascii.ascii -> bool) (s : string) : option (string * string) :=
  let '(w, r) := span_of f s in if empty w then None else Some (w, r).

(** [stackTraceRegExp]: the function, and the file with the line when they follow. *)
Definition place_of (s : string) : option (string * string) :=
  '(_, s) ← some_of (fun a => Ascii.eqb a blank_char) s;
  s ← after "(" s;
  '(file, s) ← some_of (fun a => negb (Ascii.eqb a colon)) s;
  s ← after ":" s;
  '(line, s) ← some_of re_digit s;
  _ ← after ")" s;
  Some (file, line).

Definition stackTraceRegExp (s : string) : option (string * string * string) :=
  '(name, s) ← some_of (fun a => negb (re_space a)) s;
  Some (match place_of s with Some (file, line) => (name, file, line) | None => (name, "", "") end).

Definition processRegExp (s : string) : bool :=
  match (s ← after "process" s; '(_, s) ← some_of re_space s; '(_, s) ← some_of re_digit s; after (":" +:+ quote_mark) s) with
  | Some _ => true | None => false end.

Definition threadRexExp (s : string) : bool :=
  match (s ← after "thread" s; '(_, s) ← some_of re_space s; s ← after "(" s; '(_, s) ← some_of re_alnum s; after ")" s) with
  | Some rest => empty rest | None => false end.

(** What a stack names. *)
Record SpyStack := mkSpy { sp_func : string; sp_file : string; sp_line : Z; sp_thread : string }.

Definition spy_id (s : SpyStack) : string := ids [sp_thread s; sp_file s; sp_func s; FormatInt (sp_line s)].

Definition spy_info (s : SpyStack) : FrameInfo :=
  mkInfo (sp_func s) (sp_line s) (sp_file s) (DirName (sp_file s)) "" (sp_thread s) "" "" "" "" (GetSpyPrintStr (sp_func s) (sp_file s)).

Definition spy_option (s : SpyStack) (a : Aggregator) : string * string * list string :=
  match a with
  | AFunction => (ids [sp_file s; sp_func s], GetSpyPrintStr (sp_func s) (sp_file s), [sp_func s])
  | AFunctionLine =>
      (ids [sp_file s; sp_func s; FormatInt (sp_line s)], with_line (sp_func s) (BaseName (sp_file s)) (sp_line s), [sp_func s; FormatInt (sp_line s)])
  | ADirectory => (DirName (sp_file s), DirName (sp_file s), [DirName (sp_file s)])
  | AFile => (sp_file s, sp_file s, [sp_file s])
  | AThreadName => (sp_thread s, sp_thread s, [sp_thread s])
  | _ => ("", "", [])
  end.

(** The loop over the stacks of a line. *)
Fixpoint spy_stacks (thread : string) (l : list string) : Res perr (list SpyStack) :=
  match l with
  | [] => Ok []
  | s :: l' =>
      let s := TrimSpace s in
      match stackTraceRegExp s with
      | None =>
          if processRegExp s then spy_stacks thread l'
          else if threadRexExp s then spy_stacks s l'
          else Err (PErr "resolve stacktrace from profiling file fail")
      | Some (name, file, line) =>
          let file := if empty file then UnknownInfo else file in
          let line := if empty line then -1 else digits_int line in
          match spy_stacks thread l' with
          | Ok r => Ok (mkSpy name file line thread :: r)
          | Err e => Err e
          end
      end
  end.

Definition semicolon : Ascii.ascii := Ascii.ascii_of_nat 59.

(** The count at the end of the last stack; [None] when the line is skipped. *)
Definition spy_count (lastStack : string) : option Z :=
  _ ← stackTraceRegExp lastStack;
  i ← LastIndex lastStack blank_char;
  ParseInt10 64 (from (S i) lastStack).

Definition spy_entry (count : Z) (l : list SpyStack) : Entry :=
  mkEntry count (map (fun s => (spy_id s, spy_info s)) l)
    (fun a => match list.last l with Some s => spy_option s a | None => ("", "", []) end).

Definition spy_line (line : string) : Res perr (option Entry) :=
  let line := TrimSpace line in
  if empty line then Ok None
  else
    let stacks := split_char semicolon line in
    match spy_count (TrimSpace (List.last stacks "")) with
    | None => Ok None
    | Some count =>
        match spy_stacks UnknownInfo stacks with
        | Ok l => Ok (Some (spy_entry count l))
        | Err e => Err e
        end
    end.

Fixpoint spy_lines (lines : list string) (g : Graph) : Res perr Graph :=
  match lines with
  | [] => Ok g
  | line :: lines' =>
      match spy_line line with
      | Err e => Err e
      | Ok None => spy_lines lines' g
      | Ok (Some e) => spy_lines lines' (add_entry CountUnit g e)
      end
  end.

(** [ParseRawFlameGraph], and [ResolveFlameGraph] of a collapsed profile, on the text. *)
Definition ParseRawFlameGraph `{NumText} (text : string) : Res perr (Frame * list AggregatorSelect) :=
  match spy_lines (scan (split_lines text)) (new_graph SpyAggregatorList) with
  | Err e => Err e
  | Ok g => Ok (finish CountUnit g)
  end.

(** [summary]: the sum of the counts. *)
Definition summary_line (acc : Z) (line : string) : Z :=
  let line := TrimSpace line in
  if (String.length line <? 2)%nat then acc
  else match LastIndex line blank_char with
       | None => acc
       | Some i => match ParseInt10 64 (TrimSpace (from (S i) line)) with Some n => int64 (acc + n) | None => acc end
       end.

Definition collapse_summary (text : string) : EventSummary :=
  mkSummary "cpu-samples" CountUnit (fold_left summary_line (scan (split_lines text)) 0).

(** The file of a collapsed profile: that of its first entry. *)
Definition collapse_file (h : PHost) (workspaceUUID : string) (prof : ProfileParam) : Res perr string :=
  match fst (StartTime prof) with
  | Err e => Err (perr_wrap "invalid profile start" e)
  | Ok start => GetProfilePath h workspaceUUID (pp_ProfileID prof) start "prof"
  end.

Definition Collapse_Summary (h : PHost) (workspaceUUID : string) (profiles : list ProfileParam) : Res perr (EventSummary * Z) :=
  match profiles with
  | [] => Err PPanic
  | prof :: _ =>
      match fst (StartTime prof), fst (EndTime prof) with
      | Err e, _ => Err (perr_wrap "resolve Profile start timestamp fail" e)
      | Ok _, Err e => Err (perr_wrap "resolve Profile end timestamp fail" e)
      | Ok start, Ok end_ =>
          match collapse_file h workspaceUUID prof with
          | Err e => Err e
          | Ok file =>
              match h_ReadFile h file with
              | Err e => Err (perr_wrap "resolve collapse summary fail" e)
              | Ok data => Ok (collapse_summary (of_bytes data), int64 (end_ - start))
              end
          end
      end
  end.

Definition Collapse_ResolveFlameGraph `{NumText} (h : PHost) (workspaceUUID : string) (profiles : list ProfileParam)
    : Res perr (Frame * list AggregatorSelect) :=
  match profiles with
  | [] => Err PPanic
  | prof :: _ =>
      match collapse_file h workspaceUUID prof with
      | Err e => Err e
      | Ok file =>
          match h_ReadFile h file with
          | Err e => Err (perr_wrap "open py-spy profile file fail" e)
          | Ok data => ParseRawFlameGraph (of_bytes data)
          end
      end
  end.

(** parser.go: [GetSummary]; [meta] is the format and the profiler of the metadata file. *)
Definition is_collapsed (format : string) : bool := ((format =? "rawflamegraph") || (format =? "collapse"))%string.

Definition GetSummary (h : PHost) (order : fileSampleTypesMap -> fileSampleTypesMap) (meta : Res perr (string * string)) (workspaceUUID : string)
    (profiles : list ProfileParam) (p : PProf) : Res perr (list (EventType * EventSummary) * Z) :=
  match profiles with
  | [] => Err PPanic
  | prof :: _ =>
      if match meta with Ok (format, _) => is_collapsed format | Err _ => false end then
        match Collapse_Summary h workspaceUUID profiles with Ok (s, d) => Ok ([(es_Type s, s)], d) | Err e => Err e end
      else
        let node := match meta with Ok (_, profiler) => (profiler =? "pyroscope")%string && (pp_Language prof =? NodeJS)%string | Err _ => false end in
        Summary h order workspaceUUID profiles p{{p_ctl := if node then PyroscopeNodejs else DDTrace}}
  end.

Definition IsCollapseProfile (meta : Res perr (string * string)) (profiles : list ProfileParam) : Res perr bool :=
  match profiles with
  | _ :: _ :: _ => Ok false
  | [] => Err PPanic
  | [_] => match meta with Ok (format, _) => Ok (is_collapsed format) | Err e => Err (perr_wrap "read py-spy metadata file fail" e) end
  end.

(** ** Theorems: what a flame graph shows *)

(** The frame that a path of identifiers leads to. *)
Fixpoint frame_at (path : list string) (subs : list (string * Frame)) : option Frame :=
  match path with
  | [] => None
  | id :: rest => f ← lookup_text id subs; match rest with [] => Some f | _ => frame_at rest (f_SubFrames f) end
  end.

Definition value_at (path : list string) (subs : list (string * Frame)) : option (Z * Unit) := (fun f => (f_Value f, f_Unit f)) <$> frame_at path subs.

Fixpoint prefixb (p l : list string) : bool :=
  match p, l with
  | [], _ => true
  | x :: p', y :: l' => (x =? y)%string && prefixb p' l'
  | _, [] => false
  end.

Definition zsum (l : list Z) : Z := fold_right Z.add 0 l.

(** The sum of some values, if there are any. *)
Definition sum_of (u : Unit) (l : list Z) : option (Z * Unit) := match l with [] => None | _ => Some (int64 (zsum l), u) end.

Lemma zsum_snoc l v : zsum (l ++ [v]) = zsum l + v.
Proof. induction l as [|x l IH]; cbn; [lia|]. unfold zsum in *. lia. Qed.

Lemma int64_add a b : int64 (int64 a + b) = int64 (a + b).
Proof.
  unfold int64, wrapS. set (h := 2 ^ (64 - 1)).
  replace ((a + h) mod 2 ^ 64 - h + b + h) with ((a + h) mod 2 ^ 64 + b) by lia.
  rewrite Zplus_mod_idemp_l. do 2 f_equal. lia.
Qed.

(** One value more. *)
Definition plus (u : Unit) (old : option (Z * Unit)) (v : Z) : option (Z * Unit) :=
  Some (match old with Some (v', u') => (int64 (v' + v), u') | None => (v, u) end).

Lemma sum_of_snoc u l v : in_int64 v -> sum_of u (l ++ [v]) = plus u (sum_of u l) v.
Proof.
  intros Hv. unfold sum_of, plus. destruct l as [|x l]; cbn [app].
  - cbn. rewrite Z.add_0_r. by rewrite int64_small.
  - rewrite int64_add. do 3 f_equal. apply (zsum_snoc (x :: l)).
Qed.

Lemma lookup_upsert {A} (g : option A -> A) key m k :
  lookup_text k (upsert key g m) = if (key =? k)%string then Some (g (lookup_text key m)) else lookup_text k m.
Proof.
  unfold lookup_text. induction m as [|[k' x] m IH]; cbn.
  - by destruct (key =? k)%string.
  - destruct (String.eqb_spec k' key) as [->|N]; cbn.
    + by destruct (key =? k)%string.
    + destruct (String.eqb_spec k' k) as [->|N']; [|done].
      by rewrite (proj2 (String.eqb_neq key k)) by congruence.
Qed.

Lemma value_add_path u v p : forall subs q, q <> [] ->
  value_at q (add_path u v p subs) = if prefixb q (map fst p) then plus u (value_at q subs) v else value_at q subs.
Proof.
  induction p as [|[id info] p IH]; intros subs q Nq; [by destruct q|].
  destruct q as [|x q]; [done|]. cbn [add_path map fst prefixb]. unfold value_at. cbn [frame_at].
  rewrite lookup_upsert. rewrite (String.eqb_sym x id). destruct (String.eqb_spec id x) as [->|N]; [|done]. cbn [andb mbind option_bind].
  destruct q as [|y q].
  - cbn. by destruct (lookup_text x subs) as [[]|].
  - specialize (IH (match lookup_text x subs with Some f => f_SubFrames f | None => [] end) (y :: q) ltac:(done)). unfold value_at in IH.
    destruct (lookup_text x subs) as [[q0 v' u' p0 i s]|]; cbn [f_SubFrames mbind option_bind] in *; [exact IH|].
    rewrite IH. cbn [frame_at]. by destruct (prefixb _ _).
Qed.

(** ** The graph of some entries *)

Definition ids_of (e : Entry) : list string := map fst (e_path e).
Definition option_id (a : Aggregator) (e : Entry) : string := fst (fst (e_options e a)).

(** The values of the entries that satisfy a test. *)
Definition values (f : Entry -> bool) (l : list Entry) : list Z := e_value <$> List.filter f l.

Lemma entries_snoc f l e : values f (l ++ [e]) = values f l ++ (if f e then [e_value e] else []).
Proof. unfold values. rewrite List.filter_app, fmap_app. cbn. by destruct (f e). Qed.

Definition machine (e : Entry) : Prop := in_int64 (e_value e).

(** What a graph is to be: sums over the entries. *)
Record graph_of (u : Unit) (aggs : list Aggregator) (l : list Entry) (g : Graph) : Prop := mkGraphOf {
  go_total : g_total g = int64 (zsum (e_value <$> l));
  go_frames : forall q, q <> [] -> value_at q (g_subs g) = sum_of u (values (fun e => prefixb q (ids_of e)) l);
  go_aggs : as_Aggregator <$> g_selects g = aggs;
  go_options : forall s id, s ∈ g_selects g ->
    (fun o => (o_Value o, o_Unit o)) <$> lookup_text id (as_Options s) = sum_of u (values (fun e => (option_id (as_Aggregator s) e =? id)%string) l)
}.

Lemma graph_new u aggs : graph_of u aggs [] (new_graph aggs).
Proof.
  split; try done.
  - intros q N. by destruct q as [|x [|y q]].
  - cbn. rewrite <- list_fmap_compose. apply list_fmap_id.
  - intros s id Hs. cbn in Hs. apply list_elem_of_fmap in Hs as (a & -> & _). done.
Qed.

Lemma graph_add aggs l g u e : graph_of u aggs l g -> machine e -> graph_of u aggs (l ++ [e]) (add_entry u g e).
Proof.
  intros [Gt Gf Ga Go] M. split.
  - cbn [add_entry g_total]. rewrite Gt, int64_add, fmap_app. f_equal. symmetry. apply zsum_snoc.
  - intros q N. cbn [add_entry g_subs]. rewrite value_add_path, Gf, entries_snoc by done. unfold ids_of.
    destruct (prefixb q (map fst (e_path e))); [by rewrite sum_of_snoc|by rewrite app_nil_r].
  - cbn [add_entry g_selects]. rewrite <- Ga, <- list_fmap_compose. apply list_fmap_ext. intros i s _. cbn.
    by destruct (e_options e (as_Aggregator s)) as [[]], s.
  - intros s id Hs. cbn [add_entry g_selects] in Hs. apply list_elem_of_fmap in Hs as (s0 & -> & Hs0).
    specialize (Go s0 id Hs0). destruct s0 as [a mp opts]. cbn [as_Aggregator as_Options] in *.
    destruct (e_options e a) as [[id0 title] mapping] eqn:E. unfold add_option. cbn -[lookup_text upsert]. unfold constant.
    rewrite lookup_upsert, entries_snoc. unfold option_id in *. rewrite E. cbn [fst].
    destruct (String.eqb_spec id0 id) as [->|N]; [|by rewrite app_nil_r].
    rewrite sum_of_snoc by done. rewrite <- Go. by destruct (lookup_text id opts) as [[]|].
Qed.

Definition graph_from (u : Unit) (aggs : list Aggregator) (l : list Entry) : Graph := fold_left (add_entry u) l (new_graph aggs).

Lemma graph_all u aggs l : Forall machine l -> graph_of u aggs l (graph_from u aggs l).
Proof.
  induction l as [|e l IH] using rev_ind; intros M; [apply graph_new|].
  apply Forall_app in M as [M1 M2]. inversion M2; subst. unfold graph_from. rewrite fold_left_app. cbn. by apply graph_add; auto.
Qed.

(** ** What is shown *)

(** A sum in the default unit of its kind. *)
Definition show (x : Z * Unit) : Z := fst (frame_unit (fst x) (snd x)).

Lemma option_shows `{NumText} total o : o_Value (option_quantity total o) = show (o_Value o, o_Unit o).
Proof. unfold show, frame_unit, option_quantity, SwitchToDefaultUnit. by destruct (o_Unit o). Qed.

Lemma lookup_mapped {A B} (f : A -> B) key m : lookup_text key (map (fun '(k, x) => (k, f x)) m) = f <$> lookup_text key m.
Proof. unfold lookup_text. induction m as [|[k x] m IH]; cbn; [done|]. by destruct (k =? key)%string. Qed.

Lemma frame_at_shown `{NumText} total q : forall subs,
  frame_at q (map (fun '(k, f) => (k, CalcPercentAndQuantity total f)) subs) = CalcPercentAndQuantity total <$> frame_at q subs.
Proof.
  induction q as [|x q IH]; intros subs; [done|]. cbn [frame_at]. rewrite lookup_mapped.
  destruct (lookup_text x subs) as [[q0 v u p i s]|]; [|done]. cbn [mbind option_bind fmap option_fmap option_map].
  destruct q; [done|]. apply IH.
Qed.

(** The frames and the options of a graph, as they are shown, are sums over its entries. *)
Definition shows (u : Unit) (aggs : list Aggregator) (l : list Entry) (r : Frame * list AggregatorSelect) : Prop :=
  f_Value (fst r) = show (int64 (zsum (e_value <$> l)), u) /\
  (forall q, q <> [] ->
     f_Value <$> frame_at q (f_SubFrames (fst r)) = show <$> sum_of u (values (fun e => prefixb q (ids_of e)) l)) /\
  as_Aggregator <$> snd r = aggs /\
  (forall s id, s ∈ snd r ->
     o_Value <$> lookup_text id (as_Options s) = show <$> sum_of u (values (fun e => (option_id (as_Aggregator s) e =? id)%string) l)).

Lemma finish_shows `{NumText} u aggs l : Forall machine l -> shows u aggs l (finish u (graph_from u aggs l)).
Proof.
  intros M. destruct (graph_all u aggs l M) as [Gt Gf Ga Go]. unfold finish. split_and!; cbn [fst snd].
  - cbn [CalcPercentAndQuantity f_Value]. by rewrite Gt.
  - intros q N. cbn [CalcPercentAndQuantity f_SubFrames]. rewrite frame_at_shown, <- Gf by done. unfold value_at.
    destruct (frame_at q (g_subs (graph_from u aggs l))) as [[q0 v u' p i s]|]; done.
  - transitivity (as_Aggregator <$> g_selects (graph_from u aggs l)); [|done]. unfold selects_quantity. rewrite <- list_fmap_compose. apply list_fmap_ext. by intros i [] _.
  - intros s id Hs. unfold selects_quantity in Hs. apply list_elem_of_fmap in Hs as (s0 & -> & Hs0).
    specialize (Go s0 id Hs0). destruct s0 as [a mp opts]. cbn -[lookup_text] in *. unfold constant. rewrite lookup_mapped, <- Go.
    destruct (lookup_text id opts) as [o|]; [|done]. exact (f_equal Some (option_shows _ o)).
Qed.

(** *** Profiles *)

(** A sample that can be shown: it has the value, which is a machine integer, and lines. *)
Definition complete (idx : nat) (smp : Sample) : Prop :=
  (exists v, smp_Value smp !! idx = Some v /\ in_int64 v) /\ Forall (fun loc => loc_Line loc <> []) (smp_Location smp).

Definition sample_value (idx : nat) (smp : Sample) : Z := default 0 (smp_Value smp !! idx).

(** The samples that count. *)
Definition wanted (p : PProf) (idx : nat) (smp : Sample) : bool := negb (sample_value idx smp =? 0) && span_ok p smp.

Definition location_ids (smp : Sample) : list string := map (fun loc => FormatUint 10 (loc_ID loc)) (rev (smp_Location smp)).

(** The entry of a sample. *)
Definition entry_of (lang : Lang) (idx : nat) (smp : Sample) (e : Entry) : Prop :=
  e_value e = sample_value idx smp /\ ids_of e = location_ids smp /\ forall a, option_id a e = GetIdentifier a lang smp false.

Lemma stack_ok lang smp l : Forall (fun loc => loc_Line loc <> []) l ->
  exists path, stack lang smp l = Ok path /\ map fst path = map (fun loc => FormatUint 10 (loc_ID loc)) l.
Proof.
  induction l as [|loc l IH]; intros A; [by exists []|]. inversion A as [|? ? N A']; subst. destruct (IH A') as (path & E & M).
  cbn [stack]. rewrite E. destruct (list.last (loc_Line loc)) as [line|] eqn:L; [|by apply last_None in L].
  eexists. split; [done|]. cbn. by rewrite M.
Qed.

Lemma sample_entry_ok lang idx smp : complete idx smp ->
  exists e, sample_entry lang (sample_value idx smp) smp = Ok e /\ entry_of lang idx smp e /\ machine e.
Proof.
  intros [(v & Ev & Hv) A]. destruct (stack_ok lang smp (rev (smp_Location smp))) as (path & E & M); [by apply Forall_rev|].
  unfold sample_entry. rewrite E. eexists. split; [done|]. split; [done|]. unfold machine, sample_value. cbn. by rewrite Ev.
Qed.

Lemma samples_ok p lang u idx l : Forall (complete idx) l -> forall g, exists es,
  add_samples p lang u idx l g = Ok (fold_left (add_entry u) es g) /\
  Forall2 (entry_of lang idx) (List.filter (wanted p idx) l) es /\ Forall machine es.
Proof.
  induction l as [|smp l IH]; intros A g; [exists []; done|]. inversion A as [|? ? C A']; subst. pose proof C as [(v & Ev & Hv) _].
  assert (V : sample_value idx smp = v) by (unfold sample_value; by rewrite Ev).
  cbn [add_samples List.filter]. unfold wanted at 1. rewrite Ev, V. destruct (v =? 0); [by apply IH|].
  destruct (span_ok p smp); [|by apply IH]. cbn [negb orb andb].
  destruct (sample_entry_ok lang idx smp C) as (e & Ee & He & Me). rewrite V in Ee. rewrite Ee.
  destruct (IH A' (add_entry u g e)) as (es & Es & H2 & Hm). exists (e :: es). split; [done|]. split; by constructor.
Qed.

(** The values of the samples that satisfy a test. *)
Definition sample_values (idx : nat) (f : Sample -> bool) (l : list Sample) : list Z := sample_value idx <$> List.filter f l.

Lemma values_samples lang idx (f : Entry -> bool) (g : Sample -> bool) l es :
  (forall smp e, entry_of lang idx smp e -> f e = g smp) -> Forall2 (entry_of lang idx) l es -> values f es = sample_values idx g l.
Proof.
  intros Hfg. unfold values, sample_values. induction 1 as [|smp e l es He _ IH]; [done|]. cbn. rewrite (Hfg smp e He).
  destruct (g smp); cbn; [|done]. destruct He as (-> & _). by rewrite IH.
Qed.

(** C19: The flame graph of a profile that has the sample type, with a known unit, and in which the samples have their values and their locations have
    lines is resolved.  With the samples that count (a value that is not zero, a wanted span):
    the root shows the sum of their values; the frame at the end of a path from the root is there
    exactly when a stack begins with the path, and shows the sum of the values of those
    stacks; the option of an aggregator with an identifier is there exactly when a sample
    has it, and shows the sum of the values of those samples.  Sums wrap around at 64 bits and are shown in
    the default unit of their kind. *)
Theorem flame_graph_sums `{NumText} p lang et st merged idx text u :
  getIdxOfTypeAndUnit st merged = Ok (idx, text) -> ParseUnit (GetQuantityKind et) text = Ok u ->
  Forall (complete idx) (pr_Sample merged) ->
  exists root selects, resolve_profile p lang et st merged = Ok (root, selects) /\
    let l := List.filter (wanted p idx) (pr_Sample merged) in
    f_Value root = show (int64 (zsum (sample_value idx <$> l)), u) /\
    (forall q, q <> [] -> f_Value <$> frame_at q (f_SubFrames root) =
       show <$> sum_of u (sample_values idx (fun smp => prefixb q (location_ids smp)) l)) /\
    as_Aggregator <$> selects = aggregators lang /\
    (forall s id, s ∈ selects -> o_Value <$> lookup_text id (as_Options s) =
       show <$> sum_of u (sample_values idx (fun smp => (GetIdentifier (as_Aggregator s) lang smp false =? id)%string) l)).
Proof.
  intros Ei Eu A. unfold resolve_profile. rewrite Ei, Eu.
  destruct (samples_ok p lang u idx (pr_Sample merged) A (new_graph (aggregators lang))) as (es & -> & F & M).
  destruct (finish_shows u (aggregators lang) es M) as (S1 & S2 & S3 & S4). eexists _, _. split; [apply f_equal, surjective_pairing|].
  assert (V : e_value <$> es = sample_value idx <$> List.filter (wanted p idx) (pr_Sample merged)).
  { clear -F. induction F as [|smp e l es He _ IH]; [done|]. destruct He as (E & _). cbn. by rewrite E, IH. }
  split_and!; [by rewrite <- V| |done|].
  - intros q N. rewrite S2 by done. do 2 f_equal. apply (values_samples lang idx); [|done]. intros smp e (_ & E & _). by rewrite E.
  - intros s id Hs. rewrite S4 by done. do 2 f_equal. apply (values_samples lang idx); [|done]. intros smp e (_ & _ & E). by rewrite E.
Qed.

(** *** Texts of stacks *)

Lemma srev_app x y acc : srev (x +:+ y) acc = srev y (srev x acc).
Proof. revert acc. induction x as [|a x IH]; intros acc; [done|]. apply IH. Qed.

Lemma srev_acc x acc : srev x acc = srev x "" +:+ acc.
Proof.
  revert acc. induction x as [|a x IH]; intros acc; [done|]. cbn. rewrite IH, (IH (String a "")). by rewrite <- sapp_assoc.
Qed.

Lemma srev_twice x : srev (srev x "") "" = x.
Proof. induction x as [|a x IH]; [done|]. cbn. rewrite (srev_acc x), srev_app. cbn. by rewrite IH. Qed.

Lemma trim_with_suffix b2 b3 : forall x, exists w, x = w +:+ trim_with b2 b3 x.
Proof.
  fix IH 1. intros [|a s1]; [by exists ""|]. cbn [trim_with]. destruct (is_space_ascii a).
  { destruct (IH s1) as [w E]. exists (String a w). exact (f_equal (String a) E). }
  destruct s1 as [|b s2]; [by exists ""|]. destruct (b2 a b).
  { destruct (IH s2) as [w E]. exists (String a (String b w)). exact (f_equal (fun x => String a (String b x)) E). }
  destruct s2 as [|c s3]; [by exists ""|]. destruct (b3 a b c); [|by exists ""].
  destruct (IH s3) as [w E]. exists (String a (String b (String c w))). exact (f_equal (fun x => String a (String b (String c x))) E).
Qed.

Lemma trim_with_first b2 b3 : forall x, match trim_with b2 b3 x with String a _ => is_space_ascii a = false | EmptyString => True end.
Proof.
  fix IH 1. intros [|a s1]; [done|]. cbn [trim_with]. destruct (is_space_ascii a) eqn:E; [exact (IH s1)|].
  destruct s1 as [|b s2]; [exact E|]. destruct (b2 a b); [exact (IH s2)|].
  destruct s2 as [|c s3]; [exact E|]. destruct (b3 a b c); [exact (IH s3)|exact E].
Qed.

(** What is trimmed is empty or begins with something else than a blank. *)
Lemma trim_first x : match TrimSpace x with String a _ => is_space_ascii a = false | EmptyString => True end.
Proof.
  unfold TrimSpace, trim_right. pose proof (trim_with_first blank2 blank3 x) as F. fold (trim_left x) in F. set (y := trim_left x) in *.
  destruct (trim_with_suffix (fun b a => blank2 a b) (fun c b a => blank3 a b c) (srev y "")) as [w E].
  apply (f_equal (fun s => srev s "")) in E. rewrite srev_twice, srev_app, srev_acc in E.
  destruct (srev (trim_with _ _ (srev y "")) "") as [|a r]; [done|]. by rewrite E in F.
Qed.

(** Every stack that is not blank matches the pattern of stack traces: those of processes and
    threads are never tried on one. *)
Lemma stack_matches s : (stackTraceRegExp (TrimSpace s) <> None) <-> TrimSpace s <> "".
Proof.
  pose proof (trim_first s) as F. unfold stackTraceRegExp, some_of. destruct (TrimSpace s) as [|a r]; [done|]. cbn [span_of].
  assert (re_space a = false) as ->.
  { by destruct a as [[] [] [] [] [] [] [] []]. }
  cbn [negb]. destruct (span_of _ r) as [w r']. done.
Qed.

(** The stack of a text. *)
Definition spy_of (thread s : string) : SpyStack :=
  match stackTraceRegExp (TrimSpace s) with
  | Some (name, file, line) => mkSpy name (if empty file then UnknownInfo else file) (if empty line then -1 else digits_int line) thread
  | None => mkSpy "" "" 0 thread
  end.

Definition no_blank (l : list string) : bool := forallb (fun s => negb (empty (TrimSpace s))) l.

Definition stack_error : perr := PErr "resolve stacktrace from profiling file fail".

Lemma spy_stacks_spec thread l : spy_stacks thread l = if no_blank l then Ok (map (spy_of thread) l) else Err stack_error.
Proof.
  induction l as [|s l IH]; [done|]. cbn [spy_stacks no_blank forallb map]. fold (no_blank l). rewrite IH.
  destruct (String.eqb_spec (TrimSpace s) "") as [E|N]; [by rewrite E|].
  assert (empty (TrimSpace s) = false) as -> by (by apply String.eqb_neq). cbn [negb andb].
  destruct (stackTraceRegExp (TrimSpace s)) as [[[name file] line]|] eqn:R; [|by apply stack_matches in N].
  destruct (no_blank l); [|done]. unfold spy_of at 2. by rewrite R.
Qed.

Lemma ParseInt10_machine s n : ParseInt10 64 s = Some n -> in_int64 n.
Proof.
  unfold ParseInt10, in_int64. match goal with |- context [let '(_, _) := ?x in _] => destruct x as [neg ds] end.
  destruct ds; [done|]. destruct (parse_digits _ _) as [v|]; [|done]. destruct (_ && _) eqn:B; [|done]. intros [= <-]. bool_to_prop. lia.
Qed.

(** The stacks of a line, and its count. *)
Definition line_stacks (line : string) : list string := split_char semicolon (TrimSpace line).

Definition line_count (line : string) : option Z :=
  if empty (TrimSpace line) then None else spy_count (TrimSpace (List.last (line_stacks line) "")).

(** The entry of a line that counts. *)
Definition line_entry (line : string) : option Entry :=
  n ← line_count line; Some (spy_entry n (map (spy_of UnknownInfo) (line_stacks line))).

(** A line that counts has no blank stack. *)
Definition line_ok (line : string) : bool := match line_count line with Some _ => no_blank (line_stacks line) | None => true end.

Lemma spy_line_spec line : spy_line line = if line_ok line then Ok (line_entry line) else Err stack_error.
Proof.
  unfold spy_line, line_ok, line_entry, line_count. destruct (empty (TrimSpace line)); [done|].
  change (split_char semicolon (TrimSpace line)) with (line_stacks line).
  destruct (spy_count _) as [n|]; [|done]. rewrite spy_stacks_spec. by destruct (no_blank _).
Qed.

Lemma spy_lines_spec lines : forall g, spy_lines lines g =
  if forallb line_ok lines then Ok (fold_left (add_entry CountUnit) (omap line_entry lines) g) else Err stack_error.
Proof.
  induction lines as [|line lines IH]; intros g; [done|]. cbn [spy_lines forallb]. rewrite spy_line_spec.
  destruct (line_ok line); [|done]. cbn [andb]. change (omap line_entry (line :: lines)) with
    (match line_entry line with Some e => e :: omap line_entry lines | None => omap line_entry lines end).
  destruct (line_entry line); apply IH.
Qed.

Lemma line_entry_machine lines : Forall machine (omap line_entry lines).
Proof.
  apply list.Forall_forall. intros e He. apply list_elem_of_omap in He as (line & _ & E).
  unfold line_entry, line_count in E. destruct (empty (TrimSpace line)); [done|].
  destruct (spy_count _) as [n|] eqn:Ec; [|done]. injection E as <-. unfold machine. cbn.
  unfold spy_count in Ec. destruct (stackTraceRegExp _); [|done]. destruct (LastIndex _ _); [|done]. by apply ParseInt10_machine in Ec.
Qed.

(** C38: A text of collapsed stacks is resolved exactly when no line that counts (one that ends in a
    number after a blank) has a blank stack.  Then the root shows the sum of the counts, the frame at a path of
    stacks is there exactly when a line begins with the path and shows the sum of the counts of those
    lines, and the options of each dimension show the sums by their last stack; otherwise the whole text
    is refused. *)
Theorem collapse_graph_sums `{NumText} text :
  let lines := scan (split_lines text) in
  if forallb line_ok lines then
    exists r, ParseRawFlameGraph text = Ok r /\ shows CountUnit SpyAggregatorList (omap line_entry lines) r
  else ParseRawFlameGraph text = Err stack_error.
Proof.
  intros lines. unfold ParseRawFlameGraph. fold lines. rewrite spy_lines_spec. destruct (forallb line_ok lines); [|done].
  eexists. split; [done|]. apply finish_shows, line_entry_machine.
Qed.

(** The thread of a stack is never known: the line that names it is taken for a frame. *)
Theorem thread_never_seen l r : spy_stacks UnknownInfo l = Ok r -> Forall (fun s => sp_thread s = UnknownInfo) r.
Proof.
  rewrite spy_stacks_spec. destruct (no_blank l); [|done]. intros [= <-]. apply list.Forall_fmap, list.Forall_true.
  intros s. unfold compose, spy_of. by destruct (stackTraceRegExp (TrimSpace s)) as [[[]]|].
Qed.

(** A thread line, as the profiler writes it. *)
Example thread_is_frame : sp_func <$> map (spy_of UnknownInfo) ["thread (0x1)"; "main (a.py:3) 1"] = ["thread"; "main"].
Proof. reflexivity. Qed.

(** A blank before the count of a lone number: the summary counts the line, the flame graph
    does not. *)
Example summary_counts_more :
  es_Value (collapse_summary "main; 5") = 5 /\ omap line_entry (scan (split_lines "main; 5")) = [].
Proof. split; reflexivity. Qed.

(** *** Units, events, sample types *)

Lemma find_unit (f : string * Unit -> bool) k l : forallb (fun x => bool_decide (unit_Kind (snd x) = k)) l = true ->
  match snd <$> List.find f l with Some u => unit_Kind u = k | None => True end.
Proof.
  intros A. destruct (List.find f l) as [[s u]|] eqn:E; [|done]. apply find_some in E as [I _].
  rewrite forallb_forall in A. specialize (A _ I). by apply bool_decide_eq_true in A.
Qed.

(** A unit that is read is of the kind that was asked for. *)
Theorem parse_unit_kind k s u : ParseUnit k s = Ok u -> unit_Kind u = k.
Proof.
  assert (Go : forall what exact prefixes k', forallb (fun x => bool_decide (unit_Kind (snd x) = k')) exact = true ->
    forallb (fun x => bool_decide (unit_Kind (snd x) = k')) prefixes = true -> parse_with what s exact prefixes = Ok u -> unit_Kind u = k').
  { intros what exact prefixes k' A B. unfold parse_with, lookup_text, first_prefix.
    pose proof (find_unit (fun x => (fst x =? ToLower (TrimSpace s))%string) k' exact A) as F1.
    pose proof (find_unit (fun x => String.prefix (fst x) (ToLower (TrimSpace s))) k' prefixes B) as F2.
    destruct (snd <$> List.find _ exact) as [u1|]; cbn; [intros [= E]; by rewrite <- E|]. destruct (snd <$> List.find _ prefixes) as [u2|]; cbn; [|done].
    intros [= E]. by rewrite <- E. }
  destruct k; cbn; [done|intros [= E]; by rewrite <- E|by apply Go|by apply Go].
Qed.

Lemma lookup_text_in {A} key (l : list (string * A)) x : lookup_text key l = Some x -> In (key, x) l.
Proof.
  unfold lookup_text. destruct (List.find _ l) as [[k y]|] eqn:E; [|done]. intros [= <-]. apply find_some in E as [I Q].
  cbn in Q. by apply String.eqb_eq in Q as ->.
Qed.

(** The file and the sample type of an event lead back to the event, for every language. *)
Theorem event_file_inverse lang typ file st : GetFileByEvent lang typ = Ok (file, st) ->
  (m ← getFileSampleTypes lang; types ← lookup_text file m; lookup_text st types) = Some typ.
Proof.
  assert (T : forallb (fun '(lang, m) => forallb (fun '(typ, (file, st)) =>
            bool_decide ((types ← lookup_text file m; lookup_text st types) = Some typ)) (generateDictByEvent m)) pprofTypeMaps = true)
    by (vm_compute; reflexivity).
  rewrite forallb_forall in T. unfold GetFileByEvent, getFileSampleTypes.
  destruct (lookup_text lang pprofTypeMaps) as [m|] eqn:E; [|done]. specialize (T _ (lookup_text_in _ _ _ E)). cbn beta iota in T.
  rewrite forallb_forall in T. destruct (lookup_text typ (generateDictByEvent m)) as [[file' st']|] eqn:E'; [|done].
  intros [= <- <-]. specialize (T _ (lookup_text_in _ _ _ E')). by apply bool_decide_eq_true in T.
Qed.

(** The default unit of the unknown kind has base 0: its conversion panics. *)
Example unknown_unit_panics v : ConvertToDefaultUnit UnknownUnit v = Err PPanic.
Proof. reflexivity. Qed.

(** ** A profile *)

#[export] Instance demo_text : NumText := {| fmt_2f := fun _ => ""; fmt_duration := fun _ => "" |}.

Definition demo_loc (id : Z) (name : string) : Location := mkLocation id [mkLine (mkFunction id name "main.go") id].

Definition demo_profile : Profile :=
  mkProfile [mkValueType "samples" "count"; mkValueType "cpu" "nanoseconds"]
    [mkSample [demo_loc 2 "main.f"; demo_loc 1 "main.main"] [1; 3000] ∅ ∅;
     mkSample [demo_loc 3 "main.g"; demo_loc 1 "main.main"] [1; 4000] ∅ ∅; mkSample [mkLocation 4 []] [1; 0] ∅ ∅] 0.

Definition demo_pprof : PProf := mkPProf "" false "" NoSpanSet DDTrace.

Definition demo_short : Profile := mkProfile (pr_SampleType demo_profile) (take 2 (pr_Sample demo_profile)) 0.

(** Two stacks through the same frame: 7 microseconds. *)
Lemma flame_graph_sums_witness : exists root selects,
  resolve_profile demo_pprof GoLang "cpu-time" "cpu" demo_short = Ok (root, selects) /\ f_Value <$> frame_at ["1"] (f_SubFrames root) = Some 7.
Proof.
  destruct (@flame_graph_sums demo_text demo_pprof GoLang "cpu-time" "cpu" demo_short 1 "nanoseconds" NanoSecond eq_refl eq_refl)
    as (root & selects & E & _ & F & _).
  { repeat constructor; try done; eexists; (split; [reflexivity|split; vm_compute; congruence]). }
  exists root, selects. split; [exact E|]. rewrite F by done. vm_compute. reflexivity.
Defined.

(** A location without a line, of a sample that counts: the code panics. *)
Example bare_location_panics :
  resolve_profile demo_pprof GoLang "cpu-time" "cpu" (mkProfile (pr_SampleType demo_profile) [mkSample [mkLocation 4 []] [1; 5] ∅ ∅] 0) = Err PPanic.
Proof. vm_compute. reflexivity. Qed.
